(* ===== verification/_CoqProject ===== *)
-Q . S2P
Prelude.v
Lagrange.v
GF256.v
Shamir.v
Salsa20.v
Poly1305.v
Secretbox.v
Wildcard.v
Lookups.v
GoStrings.v
GoEncoding.v
AccessControl.v
Packed.v
Protocol.v
ApiParams.v
TrafficRules.v
Conns.v
GoNet.v
Blocklist.v
PortForwards.v
Udpgw.v
GoCrypto.v
ChaCha20.v
PRNG.v
Fragmentor.v
Tun.v
TunQueue.v
TunServer.v
TunClient.v
SeedHistory.v
GoIO.v
Obfuscator.v
OsshConn.v
OsshSession.v
OsshProgress.v
Regen.v
Transforms.v
HttpNormalizer.v
HttpTransformer.v
OslKeys.v
OslPave.v
OslSeed.v
NAT.v
MatchQueue.v
Matcher.v
MatcherSafety.v
MeekBuffer.v
Quality.v
