(* ===== verification/Prelude.v ===== *)
(** * Verification of the Psiphon tunnel core

    Psiphon is a censorship circumvention system: a client connects to a server through a
    tunnel in one of many obfuscated protocols, and the server forwards its traffic.  The
    code is in Go, under src/psiphon (client), src/psiphon/server (server) and
    src/psiphon/common (shared packages).  This development models the packages that hold
    the system's own algorithms and state machines, and proves what makes them correct.

    ** Conventions

    Definitions have the names of the code and are executable.  A function that returns
    [(T, error)] returns a [res]: [Ok], [Err] with the error's text, [Panic] for a run-time
    panic, or [NoFuel] when a loop that the code does not bound has used up the fuel of the
    model.  State is passed explicitly, or in the monad [stres] of state and errors.
    Integers are [Z], with [wrapU] and [wrapS] written where they can overflow; bytes are
    [byte]; maps are [gmap].  Go iterates over a map in any order: where the order is
    visible it is an argument.  Clocks, random sources, contexts and the choice among the
    ready cases of a select are arguments too.  Library code that is not in the repository
    is an argument with the documented behaviour as a hypothesis or as the law of a class
    ([SecretBox], [RandomSource], [UnderlyingConn], [AuthLaws], [CBORLaws], [Digests],
    [Reader], [ReliableConn], [RegexpSyntax], [Allocator]).

    ** Parts

    Cryptographic packages.
    - [Lagrange], [GF256], [Shamir]: common/sss.  The tables are those of the field with
      256 elements; [split] and [combine] are inverse for any quorum, and fewer shares say
      nothing about the secret.
    - [Salsa20], [Poly1305], [Secretbox]: common/crypto/nacl/secretbox.  The limb arithmetic
      computes Poly1305; a box opens exactly if it was sealed with the key, and the
      streaming reader agrees with [Open].
    - [ChaCha20], [PRNG]: common/crypto/Yawning/chacha20 and common/prng.  The key stream
      does not depend on how it is read and the generator never reaches its end; numbers
      are unbiased and in their ranges.  [RandomSource] is what the users of the generator
      rely on, and [PRNG_source] shows that it keeps it.

    Obfuscated server lists, common/osl.
    - [OslKeys]: keys derived from SLOKs and divided along a tree of thresholds; a client
      reassembles a key exactly when its SLOKs meet them.
    - [OslPave]: schedules, the files paved and what a client reads from them.
    - [OslSeed]: a client's progress on the server, the SLOKs issued for it and the payloads
      returned over a session.

    In-proxy broker, common/inproxy.
    - [NAT]: nat.go, and the negotiation of protocol versions of api.go.
    - [MatchQueue], [Matcher], [MatcherSafety]: matcher.go.  The multi-queue refines one
      FIFO list per compartment; the matcher selects the best candidate; and as a
      concurrent system of announcements, offers, the single operations of answers and
      aborts, and the matching worker, it keeps an invariant from which it follows that
      nothing is delivered to the wrong party, and that no operation blocks or panics
      unless two calls look up one pending answer.
    - [Quality]: quality.go, the quality of proxies and the reports of it, as a system of
      reporters, the scheduler and its end: what is taken from the queue is passed on to the
      brokers, of which some may not be reached.

    Server.
    - [Lookups], [Wildcard], [GoStrings]: common/portlist.go, subnet.go, lookup.go,
      wildcard and utils.go, used by the configurations below.
    - [Protocol]: common/protocol/protocol.go, the tunnel protocols and their kinds.
    - [ApiParams]: server/api.go, the validation, reading and logging of request parameters.
    - [TrafficRules]: server/trafficRules.go, the rules selected for a client and the
      destinations that they allow.
    - [MeekBuffer]: server/meekBuffer.go, the ring of buffers that caches a response, and the
      pool of buffers that all responses share.
    - [Blocklist]: server/blocklist.go, and of server/tunnelServer.go what a client may connect
      to, with the alerts that it gets.
    - [PortForwards]: server/tunnelServer.go, the manager, the goroutines and the slots of port
      forwards, as a concurrent system: no slot is lost, and the limits hold, with the changes
      of the rules that can lower them.
    - [Udpgw]: server/udp.go, the udpgw messages and the multiplexer of UDP port forwards.

    Client and server.
    - [Fragmentor]: common/fragmentor, on any [RandomSource] and underlying connection.
    - [Tun]: common/tun/tun.go, the packets of a packet tunnel: parsing, traffic rules,
      address rewriting with its checksums, flows and metrics; on [GoNet], addresses.
    - [TunQueue]: the same, the queue and framing of packets between two goroutines, with the
      writers of the server and of the client.
    - [TunServer]: the same, the sessions of the server, their addresses and the routing.
    - [TunClient]: the same, the client, and both ends of the tunnel composed.
    - [GoEncoding]: decimal, hexadecimal and base64 of the standard library.
    - [AccessControl]: common/accesscontrol, authorizations issued, verified and packed.
    - [Packed]: common/protocol/packed.go, API parameters and server entries in compact form.
    - [Conns]: common/net.go, sets of connections and the least recently used one.
    - [GoCrypto]: RC4, SHA-1, SHA-256, HMAC of the standard library and HKDF, with test
      vectors; [Digests] is what the parts below rely on.
    - [SeedHistory]: common/obfuscator/history.go and passthrough.go, with the cache that they
      use and the checks of the meek, TLS tunnel and QUIC servers: what is accepted is not
      accepted again while the history has it; a replay that legacy mode accepts later.
    - [GoIO]: computations on connections, the contract [Reader] of io.Reader, and
      common/obfuscator/skipReader.go.
    - [Obfuscator]: common/obfuscator/obfuscator.go, the initial message of obfuscated SSH with
      its prefixes, and how the server reads it.
    - [OsshConn], [OsshSession], [OsshProgress]: common/obfuscator/obfuscatedSshConn.go; the
      reading and the writing end do not disturb each other, and a client and a server
      composed deliver the SSH session to each other without an error.
    - [Regen]: common/regen, strings generated from regular expressions match them, but for
      newlines and assertions; the parser of regular expressions is a class, [RegexpSyntax].
    - [Transforms]: common/transforms, the selection and application of transforms; it has
      the generator of prefixes and the transform of seeds that [Obfuscator] is given.
    - [HttpNormalizer], [HttpTransformer]: the same, the HTTP requests of the meek transport,
      transformed by the client and normalized by the server, with the memory of the buffer that
      the headers are slices of; what is relayed to another server when a request is refused.

    [Prelude] has the monads, the arithmetic of machine integers and the lemmas on lists
    and bytes that the parts share.

    ** Fuel

    [Shamir]'s rejection loops, [Wildcard]'s [Match], the loops of [OslPave] over a range of
    times, the passes of [Matcher], the scheduler of [Quality], the loops of [Udpgw] and
    [TunServer], those of [GoIO] and [OsshConn] that read, the calls of [Regen] for the parts of
    an expression and the loop of [HttpNormalizer] over lines have fuel, and theorems
    that say how much is enough: the length of the input, the number of the iterations that
    the code's own bounds allow, or a measure that each step decreases.  The loops that draw
    random numbers until one is accepted end with probability one only: [Int63n_unbiased]
    says which draw ends them, and [Conn_Write_returns] takes it as a hypothesis that they end.
    [ossh_session] is about runs in which they have ended, and [ossh_progress] says that
    nothing else can stop such a run.

    ** Not modelled

    Input and output (sockets, files, data stores, the tun device, the operating system),
    JSON, CBOR and protobuf encodings, TLS, QUIC, WebRTC, DTLS and the SSH protocol above
    [OsshConn] (forks of libraries), floating point, logging text, and the glue that only
    calls these: the controller, the tunnel and the dialers of the client, and the handlers of
    the server.  The vendored and generated code and the bindings of MobileLibrary and
    ClientLibrary are left out.

    ** Plan

    Next: the server entries of common/protocol, the tactics filters of common/tactics, the
    in-proxy sessions and their replay window, and the composition of [Quality] with
    [Matcher]. *)

From stdpp Require Import base gmap sets list strings countable numbers option.
From Stdlib Require Import ZArith Lia Strings.Byte.

#[local] Open Scope Z_scope.

Declare Scope psi_scope.
Delimit Scope psi_scope with psi.
Open Scope psi_scope.

(** ** Results

    A Go function returning [(T, error)] returns [Ok] or [Err] with the text of
    the error; [Panic] is a run-time panic (an index out of range, a nil
    dereference, an explicit [panic]).  [NoFuel] is the outcome of a loop that the
    code does not bound and that did not end within the fuel given to the model:
    theorems about such loops prove which runs have enough fuel. *)

Inductive res (A : Type) : Type :=
| Ok (a : A)
| Err (msg : string)
| Panic (msg : string)
| NoFuel.
Arguments Ok {A} a.
Arguments Err {A} msg.
Arguments Panic {A} msg.
Arguments NoFuel {A}.

#[export] Instance res_eq_dec {A} `{EqDecision A} : EqDecision (res A).
Proof. solve_decision. Defined.

#[export] Instance res_mret : MRet res := @Ok.
#[export] Instance res_mbind : MBind res := fun A B f m =>
  match m with
  | Ok a => f a
  | Err e => Err e
  | Panic e => Panic e
  | NoFuel => NoFuel
  end.
#[export] Instance res_fmap : FMap res := fun A B f m =>
  match m with
  | Ok a => Ok (f a)
  | Err e => Err e
  | Panic e => Panic e
  | NoFuel => NoFuel
  end.

Definition is_ok {A} (r : res A) : bool :=
  match r with Ok _ => true | _ => false end.

Definition res_of_option {A} (msg : string) (o : option A) : res A :=
  match o with Some a => Ok a | None => Panic msg end.

Lemma res_bind_ok {A B} (m : res A) (f : A -> res B) b :
  m ≫= f = Ok b <-> exists a, m = Ok a /\ f a = Ok b.
Proof.
  split.
  - destruct m; simpl; intros H; by eauto.
  - intros (a & -> & H). done.
Qed.

Lemma res_mapM_ok {A B} (f : A -> res B) l k :
  mapM f l = Ok k <-> Forall2 (fun a b => f a = Ok b) l k.
Proof.
  split.
  - revert k. induction l as [|a l IH]; intros k H; simpl in H.
    { injection H as <-. constructor. }
    apply res_bind_ok in H as (b & Hb & (k' & Hk' & [= <-])%res_bind_ok). constructor; auto.
  - induction 1 as [|a b l k Hb _ IH]; simpl; [done|]. by rewrite Hb, IH.
Qed.

(** State with errors: the state is threaded through the calls, and an error
    stops the computation. *)

Definition stres (S A : Type) : Type := S -> res (A * S).

#[export] Instance stres_mret {S} : MRet (stres S) := fun A a s => Ok (a, s).
#[export] Instance stres_mbind {S} : MBind (stres S) := fun A B f m s =>
  match m s with
  | Ok (a, s') => f a s'
  | Err e => Err e
  | Panic e => Panic e
  | NoFuel => NoFuel
  end.

Definition st_get {S} : stres S S := fun s => Ok (s, s).
Definition st_put {S} (s' : S) : stres S unit := fun _ => Ok (tt, s').
Definition st_lift {S A} (r : res A) : stres S A := fun s =>
  match r with Ok a => Ok (a, s) | Err e => Err e | Panic e => Panic e | NoFuel => NoFuel end.

Lemma stres_bind_ok {S A B} (m : stres S A) (f : A -> stres S B) s b s' :
  (m ≫= f) s = Ok (b, s') <-> exists a s1, m s = Ok (a, s1) /\ f a s1 = Ok (b, s').
Proof.
  unfold mbind, stres_mbind. split.
  - destruct (m s) as [[a s1]| | |]; intros H; by eauto.
  - intros (a & s1 & -> & H). done.
Qed.

Lemma stres_bind_run {S A B} (m : stres S A) (f : A -> stres S B) s a s1 :
  m s = Ok (a, s1) -> (m ≫= f) s = f a s1.
Proof. intros H. unfold mbind, stres_mbind. by rewrite H. Qed.

(** Inverts a run of a state-and-error computation that returned. *)
Ltac stres_inv H :=
  repeat match type of H with
  | (_ ≫= _) _ = Ok _ =>
      let a := fresh "v" in let s := fresh "s" in let H1 := fresh "Hrun" in
      apply stres_bind_ok in H as (a & s & H1 & H)
  end.

(** ** Machine integers *)

Definition wrapU (w z : Z) : Z := z mod 2 ^ w.
Definition wrapS (w z : Z) : Z := (z + 2 ^ (w - 1)) mod 2 ^ w - 2 ^ (w - 1).
Abbreviation u64 := (wrapU 64).
Abbreviation i64 := (wrapS 64).

Lemma wrapS_id w z : 0 < w -> - 2 ^ (w - 1) <= z < 2 ^ (w - 1) -> wrapS w z = z.
Proof.
  intros Hw Hz. unfold wrapS.
  assert (2 ^ w = 2 * 2 ^ (w - 1)) as E.
  { rewrite <- Z.pow_succ_r by lia. f_equal. lia. }
  rewrite Z.mod_small by lia. lia.
Qed.

(** *** Bitwise operations as arithmetic *)

Lemma shiftr_div x k : 0 <= k -> Z.shiftr x k = x / 2 ^ k.
Proof. apply Z.shiftr_div_pow2. Qed.

Lemma wrapU_small w x : 0 <= x < 2 ^ w -> wrapU w x = x.
Proof. apply Z.mod_small. Qed.

Lemma land_split n X Y : 0 <= n ->
  Z.land X Y = Z.land (X mod 2 ^ n) (Y mod 2 ^ n) + 2 ^ n * Z.land (X / 2 ^ n) (Y / 2 ^ n).
Proof.
  intros Hn. rewrite (Z.div_mod (Z.land X Y) (2 ^ n)) at 1 by (apply Z.pow_nonzero; lia).
  rewrite <- !Z.shiftr_div_pow2, Z.shiftr_land, Z.add_comm by lia. f_equal.
  rewrite <- !Z.land_ones by lia. apply Z.bits_inj'. intros i Hi. rewrite !Z.land_spec.
  by destruct (Z.testbit X i), (Z.testbit Y i), (Z.testbit (Z.ones n) i).
Qed.

Lemma lor_disjoint n a b : 0 <= n -> 0 <= a < 2 ^ n -> Z.lor a (2 ^ n * b) = a + 2 ^ n * b.
Proof.
  intros Hn Ha. assert (2 ^ n <> 0) by (apply Z.pow_nonzero; lia).
  pose proof (Z.add_lor_land a (2 ^ n * b)) as E.
  rewrite (land_split n a) in E by done.
  rewrite (Z.mul_comm (2 ^ n) b), Z.mod_mul, Z.land_0_r, (Z.div_small a), Z.land_0_l in E by done.
  rewrite Z.mul_comm. lia.
Qed.

Lemma land_bound x m n : 0 <= n -> 0 <= m < 2 ^ n -> 0 <= Z.land x m < 2 ^ n.
Proof.
  intros Hn Hm. assert (Z.land x m = Z.land x m mod 2 ^ n) as ->.
  { rewrite <- Z.land_ones, <- Z.land_assoc, Z.land_ones, (Z.mod_small m) by lia. done. }
  apply Z.mod_pos_bound. lia.
Qed.

(** ** Bytes

    A Go [byte] is [Byte.byte]; [b2z] is its value and [z2b] the truncating
    conversion [byte(z)]. *)

Abbreviation bytes := (list byte).

Definition b2z (b : byte) : Z := Z.of_N (Byte.to_N b).
Definition z2b (z : Z) : byte := default x00 (Byte.of_N (Z.to_N (z mod 256))).
Definition bxor (a b : byte) : byte := z2b (Z.lxor (b2z a) (b2z b)).

#[export] Instance byte_eq_dec : EqDecision byte := Byte.byte_eq_dec.
#[export] Instance byte_inhabited : Inhabited byte := populate x00.
#[export] Program Instance byte_countable : Countable byte :=
  inj_countable Byte.to_N Byte.of_N _.
Next Obligation. apply Byte.of_to_N. Qed.

Lemma b2z_range b : 0 <= b2z b < 256.
Proof. unfold b2z. pose proof (Byte.to_N_bounded b). lia. Qed.

Lemma b2z_z2b z : b2z (z2b z) = z mod 256.
Proof.
  unfold b2z, z2b. pose proof (Z.mod_pos_bound z 256 ltac:(lia)) as Hr.
  destruct (Byte.of_N (Z.to_N (z mod 256))) as [b|] eqn:E; simpl.
  - apply Byte.to_of_N in E. rewrite E. lia.
  - apply Byte.of_N_None_iff in E. lia.
Qed.

Lemma z2b_b2z b : z2b (b2z b) = b.
Proof.
  unfold z2b. rewrite Z.mod_small by apply b2z_range.
  unfold b2z. rewrite N2Z.id, Byte.of_to_N. done.
Qed.

#[export] Instance b2z_inj : Inj (=) (=) b2z.
Proof. intros a b E. rewrite <- (z2b_b2z a), <- (z2b_b2z b). by rewrite E. Qed.

Lemma b2z_x00 : b2z x00 = 0.
Proof. done. Qed.

(** Finite checks over all bytes are evaluated on [all_bytes]. *)

Definition all_bytes : list byte := map (fun n => z2b (Z.of_nat n)) (seq 0 256).

Lemma all_bytes_complete b : In b all_bytes.
Proof.
  unfold all_bytes. apply in_map_iff. exists (Z.to_nat (b2z b)).
  pose proof (b2z_range b). split.
  - rewrite Z2Nat.id by lia. apply z2b_b2z.
  - apply in_seq. lia.
Qed.

Lemma byte_forall (P : byte -> bool) : forallb P all_bytes = true -> forall b, P b = true.
Proof. intros H b. eapply forallb_forall in H; eauto using all_bytes_complete. Qed.

(** *** Xor is a group of exponent two *)

Lemma lxor_bound_256 a b : 0 <= a < 256 -> 0 <= b < 256 -> 0 <= Z.lxor a b < 256.
Proof.
  intros Ha Hb. split.
  - apply Z.lxor_nonneg. lia.
  - destruct (decide (Z.lxor a b = 0)) as [->|Hne]; [lia|].
    assert (0 <= Z.lxor a b) by (apply Z.lxor_nonneg; lia).
    change 256 with (2 ^ 8). apply Z.log2_lt_pow2; [lia|].
    eapply Z.le_lt_trans; [apply Z.log2_lxor; lia|].
    assert (Hlog : forall x, 0 <= x < 256 -> Z.log2 x < 8).
    { intros x Hx. destruct (decide (x = 0)) as [->|]; [done|].
      apply Z.log2_lt_pow2; lia. }
    apply Z.max_lub_lt; auto.
Qed.

Lemma b2z_bxor a b : b2z (bxor a b) = Z.lxor (b2z a) (b2z b).
Proof.
  unfold bxor. rewrite b2z_z2b. apply Z.mod_small.
  apply lxor_bound_256; apply b2z_range.
Qed.

Lemma bxor_comm a b : bxor a b = bxor b a.
Proof. apply b2z_inj. rewrite !b2z_bxor. apply Z.lxor_comm. Qed.

Lemma bxor_assoc a b c : bxor a (bxor b c) = bxor (bxor a b) c.
Proof. apply b2z_inj. rewrite !b2z_bxor. symmetry. apply Z.lxor_assoc. Qed.

Lemma bxor_0_l a : bxor x00 a = a.
Proof. apply b2z_inj. rewrite b2z_bxor. apply Z.lxor_0_l. Qed.

Lemma bxor_0_r a : bxor a x00 = a.
Proof. rewrite bxor_comm. apply bxor_0_l. Qed.

Lemma bxor_nilpotent a : bxor a a = x00.
Proof. apply b2z_inj. rewrite b2z_bxor. apply Z.lxor_nilpotent. Qed.

Lemma bxor_cancel a b : bxor a (bxor a b) = b.
Proof. by rewrite bxor_assoc, bxor_nilpotent, bxor_0_l. Qed.

Lemma bxor_eq_0 a b : bxor a b = x00 <-> a = b.
Proof.
  split; [|intros ->; apply bxor_nilpotent].
  intros H. rewrite <- (bxor_cancel b a), bxor_comm.
  by rewrite (bxor_comm b a), H, bxor_0_l.
Qed.

(** ** Little-endian integers

    [le_load] is [binary.LittleEndian.UintN] of the whole list, and [le_store n]
    writes the low [n] bytes of a value. *)

Fixpoint le_load (l : bytes) : Z :=
  match l with [] => 0 | b :: l => b2z b + 256 * le_load l end.

Fixpoint le_store (n : nat) (z : Z) : bytes :=
  match n with O => [] | S n => z2b z :: le_store n (z / 256) end.

Lemma length_le_store n z : length (le_store n z) = n.
Proof. revert z. induction n; intros z; simpl; auto. Qed.

Lemma le_load_range l : 0 <= le_load l < 256 ^ Z.of_nat (length l).
Proof.
  induction l as [|b l IH]; simpl le_load; [simpl; lia|].
  pose proof (b2z_range b). cbn [length]. rewrite Nat2Z.inj_succ, Z.pow_succ_r by lia. lia.
Qed.

Lemma le_load_store n z : le_load (le_store n z) = z mod 256 ^ Z.of_nat n.
Proof.
  revert z. induction n as [|n IH]; intros z.
  - simpl. by rewrite Z.mod_1_r.
  - cbn [le_store le_load]. rewrite IH, b2z_z2b, Nat2Z.inj_succ, Z.pow_succ_r by lia.
    rewrite Z.rem_mul_r by (try lia; apply Z.pow_pos_nonneg; lia). done.
Qed.

Lemma le_load_app l1 l2 :
  le_load (l1 ++ l2) = le_load l1 + 256 ^ Z.of_nat (length l1) * le_load l2.
Proof.
  induction l1 as [|b l1 IH]; cbn [app le_load length]; [simpl; lia|].
  rewrite IH, Nat2Z.inj_succ, Z.pow_succ_r by lia. lia.
Qed.

Lemma le_store_app n m z : le_store (n + m) z = le_store n z ++ le_store m (z / 256 ^ Z.of_nat n).
Proof.
  revert z. induction n as [|n IH]; intros z; cbn [Nat.add le_store app].
  - by rewrite Z.div_1_r.
  - rewrite IH. do 3 f_equal. rewrite Nat2Z.inj_succ, Z.pow_succ_r by lia.
    rewrite Z.div_div by (try lia; apply Z.pow_pos_nonneg; lia). done.
Qed.

Lemma z2b_mod z : z2b (z mod 256) = z2b z.
Proof. unfold z2b. by rewrite Z.mod_mod by lia. Qed.

Lemma le_store_add n z q : le_store n (z + 256 ^ Z.of_nat n * q) = le_store n z.
Proof.
  revert z q. induction n as [|n IH]; intros z q; cbn [le_store]; [done|].
  rewrite Nat2Z.inj_succ, Z.pow_succ_r by lia. f_equal.
  - rewrite <- z2b_mod, <- (z2b_mod z). f_equal.
    rewrite <- Z.mul_assoc, Z.mul_comm. apply Z_mod_plus_full.
  - rewrite <- Z.mul_assoc, (Z.mul_comm 256), Z.div_add by lia. apply IH.
Qed.

Lemma le_store_load l : le_store (length l) (le_load l) = l.
Proof.
  induction l as [|b l IH]; cbn [length le_load le_store]; [done|].
  pose proof (b2z_range b). f_equal.
  - rewrite <- z2b_mod, (Z.mul_comm 256), Z_mod_plus_full, z2b_mod. apply z2b_b2z.
  - rewrite (Z.mul_comm 256), Z.div_add, Z.div_small, Z.add_0_l by lia. exact IH.
Qed.

(** [copy(dst[o:], src)] for a destination long enough. *)
Definition copy_at {A} (o : nat) (src dst : list A) : list A :=
  take o dst ++ src ++ drop (o + length src) dst.

(** The bytes [b[o:o+n]]. *)
Definition slice {A} (o n : nat) (l : list A) : list A := take n (drop o l).
