(* ===== verification/Lagrange.v ===== *)
(** * Polynomials over a field and Lagrange interpolation

    The mathematics behind the secret sharing package, over any field: a
    polynomial is its list of coefficients, lowest degree first, evaluated by
    Horner's scheme as [eval] of src/psiphon/common/sss/polynomial.go does.  The
    result used by [Shamir] is [lagrange_eval]: the Lagrange sum through enough
    points of a polynomial is that polynomial, at every point. *)

From stdpp Require Import base list sets.
From Stdlib Require Import Field Field_theory Lia.

Section Lagrange.
Context {F : Type} {EqF : EqDecision F}.
Variables (f0 f1 : F) (fadd fmul fsub : F -> F -> F) (fopp : F -> F)
  (fdiv : F -> F -> F) (finv : F -> F).
Hypothesis Fth : field_theory f0 f1 fadd fmul fsub fopp fdiv finv (@eq F).

Add Field lagrange_field : Fth.

Infix "⊕" := fadd (at level 50, left associativity).
Infix "⊖" := fsub (at level 50, left associativity).
Infix "⊗" := fmul (at level 40, left associativity).
Infix "⊘" := fdiv (at level 40, left associativity).

(** ** Evaluation *)

Definition peval (p : list F) (x : F) : F := foldr (fun c r => r ⊗ x ⊕ c) f0 p.

Lemma peval_nil x : peval [] x = f0.
Proof. done. Qed.

Lemma peval_cons c p x : peval (c :: p) x = peval p x ⊗ x ⊕ c.
Proof. done. Qed.

(** [is_poly n f]: [f] is a polynomial function with at most [n] coefficients. *)
Definition is_poly (n : nat) (f : F -> F) : Prop :=
  exists c, length c <= n /\ forall x, f x = peval c x.

Fixpoint padd (p q : list F) : list F :=
  match p, q with
  | [], _ => q
  | _, [] => p
  | a :: p', b :: q' => (a ⊕ b) :: padd p' q'
  end.

Lemma padd_length p q : length (padd p q) = length p `max` length q.
Proof. revert q. induction p as [|a p IH]; intros [|b q]; simpl; auto. Qed.

Lemma peval_padd p q x : peval (padd p q) x = peval p x ⊕ peval q x.
Proof.
  revert q. induction p as [|a p IH]; intros [|b q]; simpl; try ring.
  rewrite IH. ring.
Qed.

Lemma peval_scale k p x : peval (map (fmul k) p) x = k ⊗ peval p x.
Proof. induction p as [|a p IH]; simpl; [ring | rewrite IH; ring]. Qed.

Lemma is_poly_add n f g : is_poly n f -> is_poly n g -> is_poly n (fun x => f x ⊕ g x).
Proof.
  intros (c & Hc & Ec) (d & Hd & Ed). exists (padd c d). split.
  - rewrite padd_length. lia.
  - intros x. by rewrite Ec, Ed, peval_padd.
Qed.

Lemma is_poly_scale n k f : is_poly n f -> is_poly n (fun x => k ⊗ f x).
Proof.
  intros (c & Hc & Ec). exists (map (fmul k) c). split.
  - by rewrite length_map.
  - intros x. by rewrite Ec, peval_scale.
Qed.

Lemma is_poly_linear n a k f :
  is_poly n f -> is_poly (S n) (fun x => ((x ⊖ a) ⊗ k) ⊗ f x).
Proof.
  intros (c & Hc & Ec).
  exists (padd (f0 :: map (fmul k) c) (map (fmul (fopp a ⊗ k)) c)). split.
  - rewrite padd_length. simpl. rewrite !length_map. lia.
  - intros x. rewrite peval_padd, peval_cons, !peval_scale, Ec. ring.
Qed.

(** ** Roots

    Synthetic division by [x - a], and the bound on the number of roots. *)

Lemma peval_factor p a :
  exists q, length q = Nat.pred (length p) /\
    forall x, peval p x = (x ⊖ a) ⊗ peval q x ⊕ peval p a.
Proof.
  induction p as [|c p (q & Hq & Eq)].
  - exists []. split; [done|]. intros x. rewrite !peval_nil. ring.
  - destruct p as [|d p].
    + exists []. split; [done|]. intros x. rewrite !peval_cons, !peval_nil. ring.
    + exists (peval (d :: p) a :: q). split; [simpl in *; lia|].
      intros x. rewrite !(peval_cons c), (peval_cons (peval (d :: p) a) q), (Eq x). ring.
Qed.

Lemma fmul_eq_0 a b : a ⊗ b = f0 -> a <> f0 -> b = f0.
Proof.
  intros H Ha. transitivity ((a ⊗ b) ⊘ a); [field; done|].
  rewrite H. field. done.
Qed.

Lemma fsub_eq_0 a b : a ⊖ b = f0 -> a = b.
Proof. intros H. transitivity ((a ⊖ b) ⊕ b); [ring|]. rewrite H. ring. Qed.

Lemma poly_roots_zero xs p :
  NoDup xs -> length p <= length xs -> (forall x, x ∈ xs -> peval p x = f0) ->
  forall x, peval p x = f0.
Proof.
  intros Hnd. revert p. induction Hnd as [|a xs Ha Hnd IH]; intros p Hlen Hroots x.
  - destruct p; simpl in *; [done|lia].
  - destruct (peval_factor p a) as (q & Hq & Eq).
    assert (peval p a = f0) as Hpa by (apply Hroots; set_solver).
    assert (forall y, peval q y = f0) as Hq0.
    { apply IH; [simpl in Hlen; lia|]. intros y Hy.
      apply (fmul_eq_0 (y ⊖ a)).
      - specialize (Hroots y ltac:(set_solver)). rewrite Eq, Hpa in Hroots.
        rewrite <- Hroots. ring.
      - intros E%fsub_eq_0. subst. done. }
    rewrite Eq, Hq0, Hpa. ring.
Qed.

Lemma filter_nonzero_id (xs : list F) : f0 ∉ xs -> filter (fun x => x <> f0) xs = xs.
Proof.
  induction xs as [|x xs IH]; intros Hx; [done|].
  rewrite filter_cons_True by set_solver. f_equal. apply IH. set_solver.
Qed.

Lemma filter_nonzero_length (xs : list F) :
  NoDup xs -> length xs <= S (length (filter (fun x => x <> f0) xs)).
Proof.
  induction 1 as [|x xs Hx Hnd IH]; [simpl; lia|].
  destruct (decide (x = f0)) as [->|Hne].
  - rewrite filter_cons_False by naive_solver. simpl.
    by rewrite filter_nonzero_id.
  - rewrite filter_cons_True by done. simpl. lia.
Qed.

Lemma poly_roots_coeffs xs p :
  NoDup xs -> length p <= length xs -> (forall x, x ∈ xs -> peval p x = f0) ->
  forall c, c ∈ p -> c = f0.
Proof.
  revert xs. induction p as [|a p IH]; intros xs Hnd Hlen Hroots c Hc; [set_solver|].
  pose proof (poly_roots_zero xs (a :: p) Hnd Hlen Hroots) as Hz.
  assert (a = f0) as ->.
  { rewrite <- (Hz f0), peval_cons. ring. }
  apply elem_of_cons in Hc as [->|Hc]; [done|].
  refine (IH (filter (fun x => x <> f0) xs) _ _ _ c Hc).
  - by apply NoDup_filter.
  - pose proof (filter_nonzero_length xs Hnd). simpl in Hlen. lia.
  - intros x [Hx _]%list_elem_of_filter. apply (fmul_eq_0 x); [|done].
    specialize (Hz x). rewrite peval_cons in Hz. rewrite <- Hz. ring.
Qed.

(** ** The Lagrange sum *)

Definition basis (others : list F) (a x : F) : F :=
  foldr (fun b w => ((x ⊖ b) ⊗ (f1 ⊘ (a ⊖ b))) ⊗ w) f1 others.

Definition fsum (l : list F) : F := foldr fadd f0 l.

Definition lagr (pts : list (F * F)) (x : F) : F :=
  fsum (imap (fun i a => basis (delete i pts.*1) a.1 x ⊗ a.2) pts).

Lemma basis_poly others a : is_poly (S (length others)) (basis others a).
Proof.
  induction others as [|b others IH]; simpl.
  - exists [f1]. split; [done|]. intros x. simpl. ring.
  - apply (is_poly_linear _ b (f1 ⊘ (a ⊖ b))). exact IH.
Qed.

Lemma basis_root others a x : x ∈ others -> basis others a x = f0.
Proof.
  induction others as [|b others IH]; intros Hx; [set_solver|]. simpl.
  apply elem_of_cons in Hx as [->|Hx]; [ring|]. rewrite IH by done. ring.
Qed.

Lemma basis_self others a : a ∉ others -> basis others a a = f1.
Proof.
  induction others as [|b others IH]; intros Ha; simpl; [done|].
  rewrite IH by set_solver. field.
  intros E%fsub_eq_0. subst. set_solver.
Qed.

Lemma fsum_single l k v :
  l !! k = Some v -> (forall i w, l !! i = Some w -> i <> k -> w = f0) -> fsum l = v.
Proof.
  revert k. induction l as [|w l IH]; intros [|k] Hk Hz; simplify_eq/=.
  - assert (Hl : forall w, w ∈ l -> w = f0).
    { intros w [i Hi]%list_elem_of_lookup. apply (Hz (S i) w Hi). lia. }
    transitivity (v ⊕ f0); [|ring]. f_equal. clear -Hl Fth.
    induction l as [|w l IH]; [done|]. simpl.
    rewrite (Hl w), IH by set_solver. ring.
  - rewrite (Hz 0 w) by (done || lia). rewrite (IH k); [ring|done|].
    intros i u Hi Hne. apply (Hz (S i) u Hi). lia.
Qed.

Lemma lagr_poly pts : is_poly (length pts) (lagr pts).
Proof.
  assert (Hgen : forall g : nat -> F * F -> F -> F,
    (forall i a, pts !! i = Some a -> is_poly (length pts) (g i a)) ->
    is_poly (length pts) (fun x => fsum (imap (fun i a => g i a x) pts))).
  { generalize (length pts) as n. intros n. induction pts as [|a l IH]; intros g Hg.
    - exists []. split; [simpl; lia|done].
    - apply is_poly_add; [by apply (Hg 0)|].
      apply (IH (fun i => g (S i))). intros i b Hb. by apply (Hg (S i)). }
  apply Hgen. intros i a Hi.
  destruct (is_poly_scale _ a.2 _ (basis_poly (delete i pts.*1) a.1)) as (c & Hc & Ec).
  exists c. split.
  - rewrite length_delete in Hc by (rewrite list_lookup_fmap, Hi; done).
    rewrite length_fmap in Hc. apply lookup_lt_Some in Hi. lia.
  - intros x. rewrite <- Ec. ring.
Qed.

Lemma lagr_node pts k a : NoDup pts.*1 -> pts !! k = Some a -> lagr pts a.1 = a.2.
Proof.
  intros Hnd Hk. unfold lagr. apply fsum_single with k.
  - rewrite list_lookup_imap, Hk. simpl. f_equal. rewrite basis_self; [ring|].
    intros (i & Hi)%list_elem_of_lookup.
    assert (pts.*1 !! k = Some a.1) as Hk1 by (rewrite list_lookup_fmap, Hk; done).
    destruct (decide (i < k)).
    + rewrite list_lookup_delete_lt in Hi by done.
      pose proof (NoDup_lookup _ _ _ _ Hnd Hi Hk1). lia.
    + rewrite list_lookup_delete_ge in Hi by lia.
      pose proof (NoDup_lookup _ _ _ _ Hnd Hi Hk1). lia.
  - intros i w Hw Hne. rewrite list_lookup_imap in Hw.
    destruct (pts !! i) as [b|] eqn:Hi; simplify_eq/=.
    rewrite basis_root; [ring|].
    assert (pts.*1 !! k = Some a.1) as Hk1 by (rewrite list_lookup_fmap, Hk; done).
    apply list_elem_of_lookup. destruct (decide (k < i)).
    + exists k. by rewrite list_lookup_delete_lt.
    + exists (Nat.pred k). rewrite list_lookup_delete_ge by lia.
      by replace (S (Nat.pred k)) with k by lia.
Qed.

(** The Lagrange sum through at least as many distinct points of [p] as [p] has
    coefficients is [p]. *)
Lemma lagrange_eval pts p :
  NoDup pts.*1 -> length p <= length pts -> (forall a, a ∈ pts -> a.2 = peval p a.1) ->
  forall x, lagr pts x = peval p x.
Proof.
  intros Hnd Hlen Hpts x. apply fsub_eq_0.
  destruct (is_poly_add (length pts) (lagr pts) (fun x => fopp f1 ⊗ peval p x))
    as (c & Hc & Ec).
  { apply lagr_poly. }
  { apply is_poly_scale. by exists p. }
  transitivity (peval c x); [rewrite <- Ec; ring|].
  apply (poly_roots_zero pts.*1); [done|by rewrite length_fmap|].
  intros y (a & -> & Ha)%list_elem_of_fmap. rewrite <- Ec.
  pose proof Ha as [k Hk]%list_elem_of_lookup.
  rewrite (lagr_node _ k) by done. rewrite Hpts by done. ring.
Qed.

End Lagrange.
