(* ===== verification/GF256.v ===== *)
(** * GF(2^8): the field of the secret sharing package

    Models src/psiphon/common/sss/gf256.go: the exponential and logarithm tables
    and the table-driven [mul] and [div].  The tables are proved to be those of
    the field GF(2)[x]/(x^8+x^4+x^3+x+1) with generator 3 by checking each entry
    against the recurrence [exp (i+1) = 3 * exp i]; every field law then follows
    without enumerating pairs of elements.  [mul_is_carryless] relates [mul] to
    bitwise polynomial multiplication. *)

From stdpp Require Import base list.
From Stdlib Require Import ZArith Lia Field_theory Strings.Byte.
From S2P Require Import Prelude.
#[local] Open Scope Z_scope.

Definition fieldSize : Z := 256.

(** 0x11b prime polynomial and 0x03 as generator *)
Definition exp : list byte :=
  [ x01; x03; x05; x0f; x11; x33; x55; xff; x1a; x2e; x72; x96; xa1; xf8; x13; x35;
    x5f; xe1; x38; x48; xd8; x73; x95; xa4; xf7; x02; x06; x0a; x1e; x22; x66; xaa;
    xe5; x34; x5c; xe4; x37; x59; xeb; x26; x6a; xbe; xd9; x70; x90; xab; xe6; x31;
    x53; xf5; x04; x0c; x14; x3c; x44; xcc; x4f; xd1; x68; xb8; xd3; x6e; xb2; xcd;
    x4c; xd4; x67; xa9; xe0; x3b; x4d; xd7; x62; xa6; xf1; x08; x18; x28; x78; x88;
    x83; x9e; xb9; xd0; x6b; xbd; xdc; x7f; x81; x98; xb3; xce; x49; xdb; x76; x9a;
    xb5; xc4; x57; xf9; x10; x30; x50; xf0; x0b; x1d; x27; x69; xbb; xd6; x61; xa3;
    xfe; x19; x2b; x7d; x87; x92; xad; xec; x2f; x71; x93; xae; xe9; x20; x60; xa0;
    xfb; x16; x3a; x4e; xd2; x6d; xb7; xc2; x5d; xe7; x32; x56; xfa; x15; x3f; x41;
    xc3; x5e; xe2; x3d; x47; xc9; x40; xc0; x5b; xed; x2c; x74; x9c; xbf; xda; x75;
    x9f; xba; xd5; x64; xac; xef; x2a; x7e; x82; x9d; xbc; xdf; x7a; x8e; x89; x80;
    x9b; xb6; xc1; x58; xe8; x23; x65; xaf; xea; x25; x6f; xb1; xc8; x43; xc5; x54;
    xfc; x1f; x21; x63; xa5; xf4; x07; x09; x1b; x2d; x77; x99; xb0; xcb; x46; xca;
    x45; xcf; x4a; xde; x79; x8b; x86; x91; xa8; xe3; x3e; x42; xc6; x51; xf3; x0e;
    x12; x36; x5a; xee; x29; x7b; x8d; x8c; x8f; x8a; x85; x94; xa7; xf2; x0d; x17;
    x39; x4b; xdd; x7c; x84; x97; xa2; xfd; x1c; x24; x6c; xb4; xc7; x52; xf6; x01 ].

Definition log : list byte :=
  [ x00; x00; x19; x01; x32; x02; x1a; xc6; x4b; xc7; x1b; x68; x33; xee; xdf; x03;
    x64; x04; xe0; x0e; x34; x8d; x81; xef; x4c; x71; x08; xc8; xf8; x69; x1c; xc1;
    x7d; xc2; x1d; xb5; xf9; xb9; x27; x6a; x4d; xe4; xa6; x72; x9a; xc9; x09; x78;
    x65; x2f; x8a; x05; x21; x0f; xe1; x24; x12; xf0; x82; x45; x35; x93; xda; x8e;
    x96; x8f; xdb; xbd; x36; xd0; xce; x94; x13; x5c; xd2; xf1; x40; x46; x83; x38;
    x66; xdd; xfd; x30; xbf; x06; x8b; x62; xb3; x25; xe2; x98; x22; x88; x91; x10;
    x7e; x6e; x48; xc3; xa3; xb6; x1e; x42; x3a; x6b; x28; x54; xfa; x85; x3d; xba;
    x2b; x79; x0a; x15; x9b; x9f; x5e; xca; x4e; xd4; xac; xe5; xf3; x73; xa7; x57;
    xaf; x58; xa8; x50; xf4; xea; xd6; x74; x4f; xae; xe9; xd5; xe7; xe6; xad; xe8;
    x2c; xd7; x75; x7a; xeb; x16; x0b; xf5; x59; xcb; x5f; xb0; x9c; xa9; x51; xa0;
    x7f; x0c; xf6; x6f; x17; xc4; x49; xec; xd8; x43; x1f; x2d; xa4; x76; x7b; xb7;
    xcc; xbb; x3e; x5a; xfb; x60; xb1; x86; x3b; x52; xa1; x6c; xaa; x55; x29; x9d;
    x97; xb2; x87; x90; x61; xbe; xdc; xfc; xbc; x95; xcf; xcd; x37; x3f; x5b; xd1;
    x53; x39; x84; x3c; x41; xa2; x6d; x47; x14; x2a; x9e; x5d; x56; xf2; xd3; xab;
    x44; x11; x92; xd9; x23; x20; x2e; x89; xb4; x7c; xb8; x26; x77; x99; xe3; xa5;
    x67; x4a; xed; xde; xc5; x31; xfe; x18; x0d; x63; x8c; x80; xc0; xf7; x70; x07 ].

(** Reading a table at an index within its bounds. *)
Definition exp_at (i : Z) : byte := nth (Z.to_nat i) exp x00.
Definition log_at (b : byte) : Z := b2z (nth (Z.to_nat (b2z b)) log x00).

Definition mul (e a : byte) : byte :=
  if bool_decide (e = x00) || bool_decide (a = x00) then x00
  else exp_at (Z.rem (log_at e + log_at a) 255).

(** [None] is the panic "div by zero". *)
Definition div (e a : byte) : option byte :=
  if bool_decide (a = x00) then None
  else if bool_decide (e = x00) then Some x00
  else
    let p := Z.rem (log_at e - log_at a) 255 in
    let p := if p <? 0 then p + 255 else p in
    Some (exp_at p).

(** ** Multiplication by the generator

    [xtime] multiplies by x modulo 0x11b and [times3] by the generator x + 1. *)

Definition xtime (b : byte) : byte :=
  z2b (Z.lxor (Z.shiftl (b2z b) 1) (if Z.testbit (b2z b) 7 then 0x11b else 0)).
Definition times3 (b : byte) : byte := bxor b (xtime b).

(** Decides an equation between boolean combinations of the bits [n]. *)
Ltac bool_bits n :=
  repeat match goal with |- context [Z.testbit ?z n] => generalize (Z.testbit z n); intro end;
  repeat match goal with b : bool |- _ => destruct b end; reflexivity.

Lemma z2b_lxor u v : z2b (Z.lxor u v) = bxor (z2b u) (z2b v).
Proof.
  apply b2z_inj. rewrite b2z_bxor, !b2z_z2b. change 256 with (2 ^ 8).
  rewrite <- !Z.land_ones by lia. apply Z.bits_inj'. intros n Hn.
  rewrite !Z.land_spec, !Z.lxor_spec, !Z.land_spec.
  bool_bits n.
Qed.

Lemma xtime_bxor a b : xtime (bxor a b) = bxor (xtime a) (xtime b).
Proof.
  unfold xtime. rewrite !b2z_bxor, <- z2b_lxor, Z.lxor_spec, Z.shiftl_lxor. f_equal.
  apply Z.bits_inj'. intros n Hn. rewrite !Z.lxor_spec.
  destruct (Z.testbit (b2z a) 7), (Z.testbit (b2z b) 7); simpl;
    rewrite ?Z.bits_0; bool_bits n.
Qed.

Lemma bxor_swap a b c d : bxor (bxor a b) (bxor c d) = bxor (bxor a c) (bxor b d).
Proof.
  rewrite <- !bxor_assoc. f_equal. rewrite !bxor_assoc. f_equal. apply bxor_comm.
Qed.

Lemma times3_bxor a b : times3 (bxor a b) = bxor (times3 a) (times3 b).
Proof. unfold times3. rewrite xtime_bxor. apply bxor_swap. Qed.

(** ** The tables *)

Definition exp_log_ok (b : byte) : bool :=
  bool_decide (b = x00) || (bool_decide (exp_at (log_at b) = b) && (log_at b <? 255)).

Definition exp_step_ok (n : nat) : bool :=
  let i := Z.of_nat n in
  bool_decide (exp_at (Z.rem (i + 1) 255) = times3 (exp_at i)) &&
  bool_decide (log_at (exp_at i) = i) && negb (bool_decide (exp_at i = x00)).

Lemma exp_log b : b <> x00 -> exp_at (log_at b) = b /\ 0 <= log_at b < 255.
Proof.
  intros Hb. assert (exp_log_ok b = true) as H.
  { apply byte_forall. vm_compute. reflexivity. }
  unfold exp_log_ok in H. rewrite bool_decide_eq_false_2 in H by done. simpl in H.
  apply andb_true_iff in H as [H1 H2]. apply bool_decide_eq_true in H1.
  pose proof (b2z_range (nth (Z.to_nat (b2z b)) log x00)). unfold log_at in *.
  split; [done|lia].
Qed.

Lemma exp_step i : 0 <= i < 255 ->
  exp_at ((i + 1) mod 255) = times3 (exp_at i) /\ log_at (exp_at i) = i /\ exp_at i <> x00.
Proof.
  intros Hi. assert (forallb exp_step_ok (seq 0 255) = true) as H by (vm_compute; reflexivity).
  eapply forallb_forall in H; [|apply (in_seq 255 0 (Z.to_nat i)); lia].
  unfold exp_step_ok in H. rewrite Z2Nat.id in H by lia.
  rewrite Z.rem_mod_nonneg in H by lia.
  apply andb_true_iff in H as [[H1 H2]%andb_true_iff H3].
  apply bool_decide_eq_true in H1, H2. apply negb_true_iff, bool_decide_eq_false in H3. done.
Qed.

Lemma log_exp i : 0 <= i < 255 -> log_at (exp_at i) = i.
Proof. apply exp_step. Qed.

Lemma exp_nonzero i : 0 <= i < 255 -> exp_at i <> x00.
Proof. apply exp_step. Qed.

Lemma mod255_bound i : 0 <= i mod 255 < 255.
Proof. apply Z.mod_pos_bound. lia. Qed.

Create HintDb gf.
#[export] Hint Resolve mod255_bound exp_nonzero log_exp : gf.

(** ** Multiplication *)

Lemma mul_0_l a : mul x00 a = x00.
Proof. done. Qed.

Lemma mul_0_r a : mul a x00 = x00.
Proof. unfold mul. by rewrite orb_true_r. Qed.

Lemma mul_nonzero a b : a <> x00 -> b <> x00 ->
  mul a b = exp_at ((log_at a + log_at b) mod 255).
Proof.
  intros Ha Hb. unfold mul. rewrite !bool_decide_eq_false_2 by done. simpl.
  destruct (exp_log a Ha), (exp_log b Hb). by rewrite Z.rem_mod_nonneg by lia.
Qed.

Lemma mul_comm a b : mul a b = mul b a.
Proof.
  destruct (decide (a = x00)) as [->|Ha]; [by rewrite mul_0_r|].
  destruct (decide (b = x00)) as [->|Hb]; [by rewrite mul_0_r|].
  rewrite !mul_nonzero by done. by rewrite Z.add_comm.
Qed.

Lemma mul_assoc a b c : mul a (mul b c) = mul (mul a b) c.
Proof.
  destruct (decide (a = x00)) as [->|Ha]; [done|].
  destruct (decide (b = x00)) as [->|Hb]; [by rewrite mul_0_l, !mul_0_r|].
  destruct (decide (c = x00)) as [->|Hc]; [by rewrite !mul_0_r|].
  rewrite (mul_nonzero b c), (mul_nonzero a b) by done.
  rewrite !mul_nonzero by auto with gf. rewrite !log_exp by auto with gf.
  f_equal. rewrite Zplus_mod_idemp_r, Zplus_mod_idemp_l. f_equal. lia.
Qed.

Lemma mul_1_l a : mul x01 a = a.
Proof.
  destruct (decide (a = x00)) as [->|Ha]; [done|].
  rewrite mul_nonzero by done. change (log_at x01) with 0. destruct (exp_log a Ha).
  by rewrite Z.add_0_l, Z.mod_small by lia.
Qed.

(** Multiplying by [exp i] is multiplying [i] times by the generator. *)
Lemma mul_exp (n : nat) b : Z.of_nat n < 255 ->
  mul (exp_at (Z.of_nat n)) b = Nat.iter n times3 b.
Proof.
  intros Hn. destruct (decide (b = x00)) as [->|Hb].
  { rewrite mul_0_r. clear Hn. induction n as [|n IH]; [done|]. simpl. by rewrite <- IH. }
  rewrite mul_nonzero by auto with lia gf. rewrite log_exp by lia.
  destruct (exp_log b Hb) as [Eb Hlb]. clear Hn.
  induction n as [|n IH].
  - simpl. rewrite Z.add_0_l, Z.mod_small by lia. done.
  - simpl. rewrite <- IH. destruct (exp_step _ (mod255_bound (Z.of_nat n + log_at b))) as [<- _].
    f_equal. rewrite Zplus_mod_idemp_l. f_equal. lia.
Qed.

Lemma mul_bxor_r a b c : mul a (bxor b c) = bxor (mul a b) (mul a c).
Proof.
  destruct (decide (a = x00)) as [->|Ha]; [done|].
  destruct (exp_log a Ha) as [Ea Hla]. rewrite <- Ea.
  rewrite <- (Z2Nat.id (log_at a)) by lia. rewrite !mul_exp by lia.
  generalize (Z.to_nat (log_at a)) as n. intros n.
  induction n as [|n IH]; [done|]. simpl. by rewrite IH, times3_bxor.
Qed.

(** ** Inverse and division *)

Definition inv (a : byte) : byte := exp_at ((255 - log_at a) mod 255).

Lemma inv_l a : a <> x00 -> mul (inv a) a = x01.
Proof.
  intros Ha. unfold inv. rewrite mul_nonzero by auto with gf.
  rewrite log_exp by auto with gf. rewrite Zplus_mod_idemp_l.
  replace (255 - log_at a + log_at a) with 255 by lia. done.
Qed.

(** [div] is total on a non-zero divisor and computes the field quotient. *)
Lemma div_spec e a : a <> x00 -> div e a = Some (mul e (inv a)).
Proof.
  intros Ha. unfold div. rewrite bool_decide_eq_false_2 by done.
  case_bool_decide as He; [by subst|].
  f_equal. unfold inv. rewrite mul_nonzero by auto with gf. rewrite log_exp by auto with gf.
  rewrite Zplus_mod_idemp_r. f_equal.
  destruct (exp_log e He) as [_ He1], (exp_log a Ha) as [_ Ha1].
  set (d := log_at e - log_at a).
  replace (log_at e + (255 - log_at a)) with (d + 1 * 255) by (subst d; lia).
  rewrite Z_mod_plus_full.
  assert (Z.rem d 255 = d) as -> by (apply Z.rem_small_iff; subst d; lia).
  destruct (Z.ltb_spec d 0).
  - rewrite <- (Z_mod_plus_full d 1 255), Z.mod_small; subst d; lia.
  - by rewrite Z.mod_small by (subst d; lia).
Qed.

(** Negation and the total quotient, as the field structure needs them. *)
Definition gopp (a : byte) : byte := a.
Definition gdiv (a b : byte) : byte := mul a (inv b).

Lemma gf256_field : field_theory x00 x01 bxor mul bxor gopp gdiv inv (@eq byte).
Proof.
  split; [split| | |].
  - apply bxor_0_l.
  - apply bxor_comm.
  - apply bxor_assoc.
  - apply mul_1_l.
  - apply mul_comm.
  - apply mul_assoc.
  - intros a b c. rewrite mul_comm, mul_bxor_r. by rewrite !(mul_comm c).
  - done.
  - apply bxor_nilpotent.
  - done.
  - done.
  - apply inv_l.
Qed.

Lemma div_gdiv e a : a <> x00 -> div e a = Some (mul e (gdiv x01 a)).
Proof. intros Ha. rewrite div_spec by done. unfold gdiv. by rewrite mul_1_l. Qed.

(** ** The reference multiplication

    Carry-less (polynomial) multiplication: the sum of [x^i * b] over the bits
    [i] set in [a], reducing modulo 0x11b after each doubling. *)

Fixpoint carryless_loop (n : nat) (a : Z) (b : byte) : byte :=
  match n with
  | O => x00
  | S n => bxor (if Z.testbit a 0 then b else x00) (carryless_loop n (Z.shiftr a 1) (xtime b))
  end.
Definition carryless (a b : byte) : byte := carryless_loop 8 (b2z a) b.

Definition x_pow_ok (b : byte) : bool := bool_decide (mul x02 b = xtime b).

Lemma mul_x02 b : mul x02 b = xtime b.
Proof.
  assert (x_pow_ok b = true) as H by (apply byte_forall; vm_compute; reflexivity).
  by apply bool_decide_eq_true in H.
Qed.

Lemma carryless_loop_mul n a c b :
  carryless_loop n a (mul c b) = mul (carryless_loop n a c) b.
Proof.
  revert a c. induction n as [|n IH]; intros a c; simpl; [done|].
  rewrite <- mul_x02, mul_assoc, IH, mul_x02.
  set (r := carryless_loop n (Z.shiftr a 1) (xtime c)).
  rewrite !(mul_comm _ b), mul_bxor_r.
  destruct (Z.odd a); by rewrite ?mul_0_r.
Qed.

Definition bits_ok (a : byte) : bool := bool_decide (carryless_loop 8 (b2z a) x01 = a).

(** The table-driven multiplication is multiplication of polynomials over
    GF(2) modulo x^8+x^4+x^3+x+1. *)
Theorem mul_is_carryless a b : mul a b = carryless a b.
Proof.
  assert (bits_ok a = true) as Ha by (apply byte_forall; vm_compute; reflexivity).
  apply bool_decide_eq_true in Ha. unfold carryless.
  rewrite <- (mul_1_l b) at 2. by rewrite carryless_loop_mul, Ha.
Qed.
