(* ===== verification/Shamir.v ===== *)
(** * Shamir's secret sharing

    Models src/psiphon/common/sss/polynomial.go and sss.go over the field of
    [GF256]: random polynomials ([generate]), their evaluation ([eval]), Lagrange
    interpolation ([interpolate]), [split] and [Combine].

    An [io.Reader] is the list of the bytes it has left to give; reading past
    them is the reader's error.  A Go map is iterated in an unspecified order, so
    [Combine] takes, for each of its loops over the map, the order used. *)

From stdpp Require Import base gmap list strings.
From Stdlib Require Import ZArith Lia Field_theory Strings.Byte.
From S2P Require Import Prelude Lagrange GF256.
#[local] Open Scope Z_scope.

(** ** Reading *)

Definition ReadFull (n : nat) : stres bytes bytes := fun r =>
  if decide (n <= length r)%nat then Ok (take n r, drop n r) else Err "EOF".

(** ** polynomial.go *)

Definition degree (p : bytes) : Z := Z.of_nat (length p) - 1.

(** Horner's scheme, from the last coefficient to the first. *)
Definition eval (p : bytes) (x : byte) : byte :=
  foldl (fun result c => bxor (mul result x) c) x00 (rev p).

(** The loop that reads single bytes until one is not zero. *)
Fixpoint read_nonzero (r : bytes) : res (byte * bytes) :=
  match r with
  | [] => Err "EOF"
  | b :: r' => if bool_decide (b = x00) then read_nonzero r' else Ok (b, r')
  end.

(** [degree + 1] and [degree - 1] are computed on bytes. *)
Definition generate (degree x : byte) : stres bytes bytes := fun r =>
  let size := b2z (z2b (b2z degree + 1)) in
  let result := replicate (Z.to_nat size) x00 in
  if bool_decide (size = 0) then Panic "index out of range"
  else
    let result := <[0%nat := x]> result in
    match ReadFull (Z.to_nat (b2z (z2b (b2z degree - 1)))) r with
    | Ok (buf, r1) =>
        let result := foldl (fun result i => <[i := nth (i - 1) buf x00]> result)
                        result (seq 1 (Z.to_nat (b2z degree) - 1)) in
        match read_nonzero r1 with
        | Ok (b, r2) => Ok (<[Z.to_nat (b2z degree) := b]> result, r2)
        | Err e => Err e
        | Panic e => Panic e
        | NoFuel => NoFuel
        end
    | Err e => Err e
    | Panic e => Panic e
    | NoFuel => NoFuel
    end.

Definition enumerate {A} (l : list A) : list (nat * A) := imap pair l.

(** The inner loop of [interpolate]: the Lagrange weight of the point [a] at
    index [i]. *)
Definition weight (points : list (byte * byte)) (i : nat) (a : byte * byte) (x : byte)
  : res byte :=
  foldl (fun acc jb =>
      weight ← acc;
      if bool_decide (i = jb.1) then Ok weight
      else
        let top := bxor x jb.2.1 in
        let bottom := bxor a.1 jb.2.1 in
        factor ← res_of_option "div by zero" (div top bottom);
        Ok (mul weight factor))
    (Ok x01) (enumerate points).

Definition interpolate (points : list (byte * byte)) (x : byte) : res byte :=
  foldl (fun acc ia =>
      value ← acc;
      weight ← weight points ia.1 ia.2 x;
      Ok (bxor value (mul weight ia.2.2)))
    (Ok x00) (enumerate points).

(** ** sss.go *)

(** [for x := byte(1); x <= n; x++]: the counter is a byte. *)
Fixpoint share_loop (fuel : nat) (n x : byte) (p : bytes) (shares : gmap byte bytes)
  : res (gmap byte bytes) :=
  match fuel with
  | O => NoFuel
  | S fuel =>
      if b2z x <=? b2z n then
        share_loop fuel n (z2b (b2z x + 1)) p
          (<[x := default [] (shares !! x) ++ [eval p x]]> shares)
      else Ok shares
  end.

Fixpoint split_loop (fuel : nat) (n k : byte) (secret : bytes) (shares : gmap byte bytes)
  : stres bytes (gmap byte bytes) :=
  match secret with
  | [] => mret shares
  | b :: secret =>
      p ← generate (z2b (b2z k - 1)) b;
      shares ← st_lift (share_loop fuel n x01 p shares);
      split_loop fuel n k secret shares
  end.

Definition split (fuel : nat) (n k : byte) (secret : bytes)
  : stres bytes (gmap byte bytes) :=
  if b2z k <=? 1 then st_lift (Err "K must be > 1")
  else if b2z n <? b2z k then st_lift (Err "N must be >= K")
  else split_loop fuel n k secret ∅.

Definition SplitUsingReader := split.

(** [ord 0] is the order of the loop that takes the length of the first share it
    meets, and [ord (S i)] the order of the loop collecting the points of byte
    [i]; indexing a share past its end panics. *)
Definition Combine (ord : nat -> list (byte * bytes)) : res bytes :=
  let len := match ord 0%nat with [] => 0%nat | (_, v) :: _ => length v end in
  mapM (fun i =>
      points ← mapM (fun kv => y ← res_of_option "index out of range" (kv.2 !! i);
                               Ok (kv.1, y)) (ord (S i));
      interpolate points x00)
    (seq 0 len).

(** ** The field operations at GF(2^8) *)

Add Field gf256 : gf256_field.

Abbreviation gpeval := (peval x00 bxor mul).
Abbreviation gbasis := (basis x01 mul bxor gdiv).
Abbreviation glagr := (lagr x00 x01 bxor mul bxor gdiv).
Abbreviation gsum := (fsum x00 bxor).

Lemma eval_peval p x : eval p x = gpeval p x.
Proof.
  unfold eval. induction p as [|c p IH]; [done|].
  simpl. rewrite foldl_app. simpl. by rewrite IH.
Qed.

Lemma eval_0 p b : p !! 0%nat = Some b -> eval p x00 = b.
Proof.
  destruct p as [|c p]; intros [= ->]. rewrite eval_peval. simpl.
  by rewrite mul_0_r, bxor_0_l.
Qed.

(** ** Interpolation computes the Lagrange sum *)

Lemma basis_app l1 l2 a x : gbasis (l1 ++ l2) a x = mul (gbasis l1 a x) (gbasis l2 a x).
Proof. induction l1 as [|b l1 IH]; simpl; [ring|]. rewrite IH. ring. Qed.

Lemma weight_skip (i : nat) (a : byte * byte) x (l : list (byte * byte)) (o : nat) w :
  a.1 ∉ l.*1 -> (forall j, (j < length l)%nat -> (o + j)%nat <> i) ->
  foldl (fun acc jb =>
      weight ← acc;
      if bool_decide (i = jb.1) then Ok weight
      else factor ← res_of_option "div by zero" (div (bxor x jb.2.1) (bxor a.1 jb.2.1));
           Ok (mul weight factor))
    (Ok w) (imap (fun j b => ((o + j)%nat, b)) l) = Ok (mul w (gbasis l.*1 a.1 x)).
Proof.
  revert o w. induction l as [|b l IH]; intros o w Ha Hi; simpl.
  - f_equal. ring.
  - rewrite bool_decide_eq_false_2 by (specialize (Hi 0%nat); simpl in Hi; lia).
    rewrite div_gdiv by (rewrite bxor_eq_0; set_solver). simpl.
    erewrite imap_ext; [rewrite (IH (S o))|].
    + f_equal. change (list_fmap (byte * byte)%type byte fst l) with l.*1. ring.
    + set_solver.
    + intros j Hj. specialize (Hi (S j)). simpl in Hi. lia.
    + intros j c _. simpl. f_equal. lia.
Qed.

Lemma weight_basis pts i a x :
  NoDup pts.*1 -> pts !! i = Some a ->
  weight pts i a x = Ok (gbasis (delete i pts.*1) a.1 x).
Proof.
  intros Hnd Hi. apply list_elem_of_split_length in Hi as (l1 & l2 & -> & ->).
  rewrite fmap_app, fmap_cons in *. apply NoDup_app in Hnd as (_ & Hd & Hnd).
  apply NoDup_cons in Hnd as [Ha2 _].
  assert (a.1 ∉ l1.*1) as Ha1 by (intros H; apply (Hd _ H); set_solver).
  unfold weight, enumerate. rewrite imap_app, foldl_app. simpl.
  rewrite (weight_skip _ _ _ l1 0%nat x01) by (done || lia). simpl.
  rewrite bool_decide_eq_true_2 by lia.
  erewrite imap_ext; [rewrite (weight_skip _ _ _ l2 (S (length l1)))|].
  - f_equal. replace (length l1) with (length l1.*1) by apply length_fmap.
    rewrite delete_middle, basis_app. ring.
  - done.
  - lia.
  - intros j c _. simpl. f_equal. lia.
Qed.

Lemma value_loop (l : list (nat * (byte * byte))) pts x (g : nat * (byte * byte) -> byte) v :
  (forall ia, ia ∈ l -> weight pts ia.1 ia.2 x = Ok (g ia)) ->
  foldl (fun acc ia => value ← acc; weight ← weight pts ia.1 ia.2 x;
                       Ok (bxor value (mul weight ia.2.2)))
    (Ok v) l = Ok (bxor v (gsum (map (fun ia => mul (g ia) ia.2.2) l))).
Proof.
  revert v. induction l as [|ia l IH]; intros v Hg; simpl.
  - f_equal. ring.
  - rewrite Hg by set_solver. simpl. rewrite IH by set_solver. f_equal. ring.
Qed.

Lemma interpolate_lagr pts x :
  NoDup pts.*1 -> interpolate pts x = Ok (glagr pts x).
Proof.
  intros Hnd. unfold interpolate.
  rewrite (value_loop _ _ _ (fun ia => gbasis (delete ia.1 pts.*1) ia.2.1 x)).
  - f_equal. rewrite bxor_0_l. unfold enumerate, lagr. f_equal.
    exact (fmap_imap _ _ _).
  - intros ia Hia. unfold enumerate in Hia.
    apply elem_of_lookup_imap_1 in Hia as (i & a & -> & Hi). simpl.
    by apply weight_basis.
Qed.

(** Interpolating enough points of [p] gives the value of [p]. *)
Lemma interpolate_eval pts p x :
  NoDup pts.*1 -> (length p <= length pts)%nat ->
  (forall a, a ∈ pts -> a.2 = eval p a.1) -> interpolate pts x = Ok (eval p x).
Proof.
  intros Hnd Hlen Hpts. rewrite interpolate_lagr by done. f_equal.
  rewrite eval_peval. eapply lagrange_eval; [apply gf256_field| done..|].
  intros a Ha. by rewrite Hpts, eval_peval.
Qed.

(** ** Generated polynomials *)

Lemma fill_lookup (buf l : bytes) m j :
  (m < length l)%nat ->
  foldl (fun result i => <[i := nth (i - 1) buf x00]> result) l (seq 1 m) !! j =
  if decide (1 <= j <= m)%nat then Some (nth (j - 1) buf x00) else l !! j.
Proof.
  induction m as [|m IH]; intros Hm.
  - simpl. rewrite decide_False by lia. done.
  - rewrite seq_S, foldl_app. simpl.
    set (f := foldl _ _ _) in *.
    assert (length f = length l) as Hf.
    { clear IH. subst f. generalize (seq 1 m). intros s. revert l Hm.
      induction s as [|i s IHs]; intros l Hm; simpl; [done|].
      rewrite IHs; by rewrite length_insert. }
    destruct (decide (j = S m)) as [->|Hne].
    + rewrite list_lookup_insert_eq by lia. rewrite decide_True by lia. done.
    + rewrite list_lookup_insert_ne by lia. rewrite IH by lia.
      destruct (decide (1 <= j <= m)%nat).
      * rewrite decide_True by lia. done.
      * rewrite decide_False by lia. done.
Qed.

Lemma fill_length (buf l : bytes) s :
  length (foldl (fun result i => <[i := nth (i - 1) buf x00]> result) l s) = length l.
Proof.
  revert l. induction s as [|i s IH]; intros l; simpl; [done|].
  by rewrite IH, length_insert.
Qed.

Lemma read_nonzero_ok r b r' : read_nonzero r = Ok (b, r') -> b <> x00.
Proof.
  induction r as [|c r IH]; simpl; [done|]. case_bool_decide; [done|]. by intros [= <- _].
Qed.

(** A generated polynomial has the degree asked for, the given constant term and
    a leading coefficient that is not zero. *)
Lemma generate_ok degree x r p r' :
  0 < b2z degree < 255 -> generate degree x r = Ok (p, r') ->
  length p = S (Z.to_nat (b2z degree)) /\ p !! 0%nat = Some x /\
  exists top, p !! Z.to_nat (b2z degree) = Some top /\ top <> x00.
Proof.
  intros Hd. unfold generate. rewrite b2z_z2b, Z.mod_small by lia.
  rewrite bool_decide_eq_false_2 by lia. unfold ReadFull.
  case_decide as Hlen; [|done].
  destruct (read_nonzero _) as [[top r2]| | |] eqn:Htop; [|done..].
  intros [= <- <-]. apply read_nonzero_ok in Htop.
  set (l0 := <[0%nat := x]> (replicate (Z.to_nat (b2z degree + 1)) x00)).
  assert (length l0 = S (Z.to_nat (b2z degree))) as Hl0.
  { subst l0. rewrite length_insert, length_replicate. lia. }
  rewrite length_insert, fill_length. split; [done|]. split.
  - rewrite list_lookup_insert_ne by lia. rewrite fill_lookup by lia.
    rewrite decide_False by lia. subst l0. apply list_lookup_insert_eq.
    rewrite length_replicate. lia.
  - exists top. split; [|done]. apply list_lookup_insert_eq. rewrite fill_length. lia.
Qed.

(** ** Splitting *)

(** The shares of a list of polynomials, for the share IDs 1 to [n]. *)
Definition shares_of (n : byte) (polys : list bytes) (x : byte) : option bytes :=
  if decide (polys <> [] /\ 1 <= b2z x <= b2z n)
  then Some (map (fun p => eval p x) polys) else None.

Lemma share_loop_lookup fuel n x p shares shares' :
  1 <= b2z x -> b2z n < 255 -> share_loop fuel n x p shares = Ok shares' ->
  forall y, shares' !! y =
    if decide (b2z x <= b2z y <= b2z n)
    then Some (default [] (shares !! y) ++ [eval p y]) else shares !! y.
Proof.
  revert x shares. induction fuel as [|fuel IH]; intros x shares Hx Hn H y; [done|].
  simpl in H. destruct (Z.leb_spec (b2z x) (b2z n)).
  - assert (b2z (z2b (b2z x + 1)) = b2z x + 1) as Ex.
    { rewrite b2z_z2b. apply Z.mod_small. lia. }
    rewrite (IH (z2b (b2z x + 1)) _ ltac:(lia) Hn H y), Ex.
    destruct (decide (y = x)) as [->|Hne].
    + rewrite decide_False by lia. rewrite lookup_insert_eq, decide_True by lia. done.
    + rewrite lookup_insert_ne by done. pose proof (b2z_inj y x).
      assert (b2z y <> b2z x) by tauto.
      destruct (decide (b2z x + 1 <= b2z y <= b2z n)).
      * rewrite decide_True by lia. done.
      * rewrite decide_False by lia. done.
  - injection H as <-. by rewrite decide_False by lia.
Qed.

Lemma share_loop_fuel fuel n x p shares :
  1 <= b2z x -> b2z n < 255 -> (256 - b2z x <= Z.of_nat fuel) ->
  exists shares', share_loop fuel n x p shares = Ok shares'.
Proof.
  revert x shares. induction fuel as [|fuel IH]; intros x shares Hx Hn Hf.
  - pose proof (b2z_range x). lia.
  - simpl. destruct (Z.leb_spec (b2z x) (b2z n)); [|eauto].
    assert (b2z (z2b (b2z x + 1)) = b2z x + 1) as Ex.
    { rewrite b2z_z2b. apply Z.mod_small. lia. }
    apply IH; lia.
Qed.

(** What [generate] establishes about the polynomial of a secret byte. *)
Definition shares_byte (k b : byte) (p : bytes) : Prop :=
  length p = Z.to_nat (b2z k) /\ p !! 0%nat = Some b /\
  exists top, last p = Some top /\ top <> x00.

Lemma generate_shares_byte k b r p r' :
  1 < b2z k -> generate (z2b (b2z k - 1)) b r = Ok (p, r') -> shares_byte k b p.
Proof.
  intros Hk H. pose proof (b2z_range k).
  assert (b2z (z2b (b2z k - 1)) = b2z k - 1) as Ek by (rewrite b2z_z2b; apply Z.mod_small; lia).
  apply generate_ok in H as (Hlen & Hhd & top & Htop & Hne); [|lia]. rewrite Ek in *.
  split_and!; [lia|done|]. exists top. split; [|done].
  rewrite last_lookup, Hlen. exact Htop.
Qed.

Lemma split_loop_ok fuel n k secret r shares r' (polys : list bytes) shares0 :
  1 < b2z k -> b2z n < 255 ->
  (forall x, shares0 !! x = shares_of n polys x) ->
  split_loop fuel n k secret shares0 r = Ok (shares, r') ->
  exists polys', Forall2 (shares_byte k) secret polys' /\
    forall x, shares !! x = shares_of n (polys ++ polys') x.
Proof.
  intros Hk Hn. revert r polys shares0.
  induction secret as [|b secret IH]; intros r polys shares0 Hinv H; simpl in H.
  - injection H as <- <-. exists []. split; [constructor|]. intros x. by rewrite app_nil_r.
  - apply stres_bind_ok in H as (p & r1 & Hgen & H).
    apply stres_bind_ok in H as (shares1 & r2 & Hloop & H).
    unfold st_lift in Hloop. destruct (share_loop _ _ _ _ _) as [sh| | |] eqn:Hsh; [|done..].
    injection Hloop as -> ->.
    apply generate_shares_byte in Hgen; [|done].
    assert (Hinv1 : forall x, shares1 !! x = shares_of n (polys ++ [p]) x).
    { intros x. rewrite (share_loop_lookup fuel n x01 p shares0 shares1 (Z.le_refl 1) Hn Hsh x).
      rewrite Hinv. unfold shares_of. change (b2z x01) with 1.
      destruct (decide (1 <= b2z x <= b2z n)) as [Hx|Hx].
      * rewrite (decide_True (P := polys ++ [p] <> [] /\ _)) by (split; [by destruct polys|done]).
        rewrite map_app. destruct polys as [|q polys]; [done|].
        rewrite decide_True by done. done.
      * rewrite !decide_False by tauto. done. }
    destruct (IH _ _ _ Hinv1 H) as (polys' & Hall & Hsharesx).
    exists (p :: polys'). split; [by constructor|].
    intros x. rewrite Hsharesx. by rewrite <- app_assoc.
Qed.

(** The loop over share IDs with [n] = 255: every byte is at most 255, so the
    loop condition never fails. *)
Lemma share_loop_255 fuel x p shares : share_loop fuel xff x p shares = NoFuel.
Proof.
  revert x shares. induction fuel as [|fuel IH]; intros x shares; [done|]. simpl.
  change (b2z xff) with 255. pose proof (b2z_range x).
  destruct (Z.leb_spec (b2z x) 255); [apply IH|lia].
Qed.

Lemma split_ok fuel n k secret r shares r' :
  split fuel n k secret r = Ok (shares, r') -> secret <> [] ->
  1 < b2z k /\ b2z k <= b2z n < 255 /\
  exists polys, Forall2 (shares_byte k) secret polys /\ forall x, shares !! x = shares_of n polys x.
Proof.
  unfold split. destruct (Z.leb_spec (b2z k) 1); [done|].
  destruct (Z.ltb_spec (b2z n) (b2z k)); [done|]. intros H1 Hne.
  assert (b2z n < 255) as Hn.
  { pose proof (b2z_range n). destruct (decide (b2z n = 255)) as [E|]; [|lia].
    assert (n = xff) as -> by (apply b2z_inj; done).
    destruct secret as [|b secret]; [done|]. simpl in H1. stres_inv H1.
    unfold st_lift in Hrun0. by rewrite share_loop_255 in Hrun0. }
  split_and!; [lia..|].
  eapply (split_loop_ok fuel n k secret r shares r' []) in H1; [done..|].
  intros x. unfold shares_of. rewrite decide_False by naive_solver. apply lookup_empty.
Qed.

(** ** Combining *)

(** The points a set of shares gives for the polynomial [p]. *)
Definition points_of (p : bytes) (l : list (byte * bytes)) : list (byte * byte) :=
  map (fun kv => (kv.1, eval p kv.1)) l.

Section Combine.
Context (polys : list bytes) (sub : gmap byte bytes) (ord : nat -> list (byte * bytes)).
Hypothesis Hsub : forall x v, sub !! x = Some v -> v = map (fun p => eval p x) polys.
Hypothesis Hord : forall i, ord i ≡ₚ map_to_list sub.

Lemma ord_lookup i k v : (k, v) ∈ ord i -> v = map (fun p => eval p k) polys.
Proof. rewrite Hord. intros ?%elem_of_map_to_list. auto. Qed.

Lemma points_nodup p i : NoDup (points_of p (ord i)).*1.
Proof.
  unfold points_of. rewrite <- list_fmap_compose. simpl.
  change (NoDup ((ord i).*1)). rewrite Hord. apply NoDup_fst_map_to_list.
Qed.

Lemma points_length p i : length (points_of p (ord i)) = size sub.
Proof. unfold points_of. rewrite length_map, Hord. apply length_map_to_list. Qed.

Lemma points_run i p :
  polys !! i = Some p ->
  mapM (fun kv => y ← res_of_option "index out of range" (kv.2 !! i); Ok (kv.1, y))
    (ord (S i)) = Ok (points_of p (ord (S i))).
Proof.
  intros Hp. apply res_mapM_ok. unfold points_of. apply Forall2_fmap_r, Forall_Forall2_diag.
  apply Forall_forall. intros [k v] Hkv. simpl.
  rewrite (ord_lookup _ _ _ Hkv), list_lookup_fmap, Hp. done.
Qed.

Lemma combine_run out :
  sub <> ∅ -> length out = length polys ->
  (forall i p b, polys !! i = Some p -> out !! i = Some b ->
    interpolate (points_of p (ord (S i))) x00 = Ok b) ->
  Combine ord = Ok out.
Proof.
  intros Hne Hlen Hout. unfold Combine.
  assert (match ord 0%nat with [] => 0%nat | (_, v) :: _ => length v end = length polys) as ->.
  { destruct (ord 0%nat) as [|[k v] l] eqn:E.
    - exfalso. apply Hne, map_to_list_empty_iff, Permutation_nil_r.
      by rewrite <- (Hord 0%nat), E.
    - rewrite (ord_lookup 0%nat k v); [apply length_map|]. rewrite E. set_solver. }
  apply res_mapM_ok, Forall2_same_length_lookup. rewrite length_seq. split; [done|].
  intros i j b [-> Hj]%lookup_seq Hb. simpl.
  destruct (lookup_lt_is_Some_2 polys i Hj) as [p Hp].
  rewrite (points_run i p) by done. simpl. eauto.
Qed.
End Combine.

(** What the subset of shares [sub] of a run of [split] contains. *)
Lemma sub_shares n polys shares (sub : gmap byte bytes) :
  (forall x, shares !! x = shares_of n polys x) -> sub ⊆ shares ->
  forall x v, sub !! x = Some v -> 1 <= b2z x /\ v = map (fun p => eval p x) polys.
Proof.
  intros Hsh Hsub x v Hx. eapply lookup_weaken in Hx; [|done].
  rewrite Hsh in Hx. unfold shares_of in Hx. case_decide; naive_solver.
Qed.

Lemma split_nil fuel n k r shares r' : split fuel n k [] r = Ok (shares, r') -> shares = ∅.
Proof. unfold split. do 2 (case_match; [done|]). by intros [= <- <-]. Qed.

Lemma split_nil_sub fuel n k r shares r' (sub : gmap byte bytes) :
  split fuel n k [] r = Ok (shares, r') -> sub ⊆ shares -> sub <> ∅ -> False.
Proof.
  intros ->%split_nil Hsub Hne. apply Hne, map_eq. intros x.
  rewrite lookup_empty. destruct (sub !! x) as [v|] eqn:E; [|done].
  eapply lookup_weaken in E; [|done]. by rewrite lookup_empty in E.
Qed.

Lemma combine_sub fuel n k secret r shares r' sub ord :
  split fuel n k secret r = Ok (shares, r') ->
  sub ⊆ shares -> b2z k <= Z.of_nat (size sub) ->
  (forall i, ord i ≡ₚ map_to_list sub) ->
  Combine ord = Ok secret.
Proof.
  intros Hsplit Hsub Hk Hord.
  assert (1 < b2z k) as Hk1.
  { unfold split in Hsplit. destruct (Z.leb_spec (b2z k) 1); [done|lia]. }
  assert (sub <> ∅) as Hne by (intros ->; rewrite map_size_empty in Hk; lia).
  assert (secret <> []) as Hsecret by (intros ->; eauto using split_nil_sub).
  apply split_ok in Hsplit as (_ & Hn & polys & Hpolys & Hsh); [|done].
  pose proof (sub_shares _ _ _ _ Hsh Hsub) as Hv.
  apply (combine_run polys sub); [naive_solver|done..|by eapply Forall2_length|].
  intros i p b Hp Hb.
  destruct (Forall2_lookup_lr _ _ _ _ _ _ Hpolys Hb Hp) as (Hlen & Hhd & _).
  rewrite <- (eval_0 p b) by done. apply interpolate_eval.
  - by eapply points_nodup.
  - rewrite (points_length sub ord) by done. lia.
  - intros a (kv & <- & _)%list_elem_of_In%in_map_iff. done.
Qed.

(** Shares that are all the secret itself, as a threshold of one gives them,
    combine to it too. *)
Lemma combine_constant secret (sub : gmap byte bytes) ord :
  sub <> ∅ -> (forall x v, sub !! x = Some v -> v = secret) ->
  (forall i, ord i ≡ₚ map_to_list sub) ->
  Combine ord = Ok secret.
Proof.
  intros Hne Hv Hord.
  assert (forall x, map (fun p => eval p x) (map (fun b => [b]) secret) = secret) as Hmap.
  { intros x. rewrite map_map. rewrite <- (map_id secret) at 2. apply map_ext. intros b.
    rewrite eval_peval. simpl. by rewrite mul_0_l, bxor_0_l. }
  apply (combine_run (map (fun b => [b]) secret) sub); [|done..|by rewrite length_map|].
  { intros x v Hx. rewrite Hmap. eauto. }
  intros i p b Hp Hb. rewrite list_lookup_fmap, Hb in Hp. injection Hp as <-.
  replace (Ok b) with (Ok (eval [b] x00)) by (by rewrite (eval_0 [b] b)). apply interpolate_eval.
  - by eapply points_nodup.
  - rewrite (points_length sub ord) by done. simpl.
    assert (size sub <> 0%nat) by (by rewrite map_size_empty_iff). lia.
  - intros a (kv & <- & _)%list_elem_of_In%in_map_iff. done.
Qed.

(** C1: any [k] or more of the shares [split] made, in any order, combine to the
    secret. *)
Theorem combine_split fuel n k secret r shares r' sub ord :
  split fuel n k secret r = Ok (shares, r') ->
  sub ⊆ shares -> b2z k <= Z.of_nat (size sub) ->
  (forall i, ord i ≡ₚ map_to_list sub) ->
  Combine ord = Ok secret.
Proof. apply combine_sub. Qed.

(** A concrete run: the secret [2a 07] split into three shares, threshold two. *)
Definition example_reader : bytes := [x05; x00; x09; x11].
Definition example_shares : gmap byte bytes :=
  match split 256 x03 x02 [x2a; x07] example_reader with Ok (s, _) => s | _ => ∅ end.

Lemma example_split :
  split 256 x03 x02 [x2a; x07] example_reader = Ok (example_shares, [x11]).
Proof. vm_compute. reflexivity. Qed.

Lemma combine_split_witness :
  Combine (fun _ => map_to_list (delete x02 example_shares)) = Ok [x2a; x07].
Proof.
  apply (combine_split 256 x03 x02 [x2a; x07] example_reader example_shares [x11]
           (delete x02 example_shares)).
  - exact example_split.
  - apply delete_subseteq.
  - vm_compute. discriminate.
  - reflexivity.
Defined.

(** ** Below the threshold *)

Lemma padd_lookup_ge (p q : bytes) i :
  (length q <= i)%nat -> padd bxor p q !! i = p !! i.
Proof.
  revert q i. induction p as [|a p IH]; intros [|b q] i Hi; simpl in *; try done.
  - apply lookup_ge_None_2. simpl. lia.
  - destruct i as [|i]; [lia|]. simpl. apply IH. lia.
Qed.

(** A polynomial of exact degree [k - 1] is not determined at 0 by [k - 1] of its
    points: interpolating them never gives its constant term. *)
Lemma interpolate_below k b p pts c :
  shares_byte k b p -> S (length pts) = length p -> NoDup (x00 :: pts.*1) ->
  (forall a, a ∈ pts -> a.2 = eval p a.1) ->
  interpolate pts x00 = Ok c -> c <> b.
Proof.
  intros (Hlen & Hhd & top & Htop & Hne) Hpts Hnd Hon Hc ->.
  pose proof Hnd as [_ Hnd']%NoDup_cons.
  rewrite interpolate_lagr in Hc by done. injection Hc as Hc.
  destruct (lagr_poly _ _ _ _ _ _ _ _ gf256_field pts) as (q & Hq & Eq).
  apply Hne, (poly_roots_coeffs _ _ _ _ _ _ _ _ gf256_field (x00 :: pts.*1) (padd bxor p q)).
  - done.
  - rewrite padd_length. simpl. rewrite length_fmap. lia.
  - intros x Hx. rewrite (peval_padd _ _ _ _ _ _ _ _ gf256_field), <- Eq, <- eval_peval.
    apply bxor_eq_0. apply elem_of_cons in Hx as [->|Hx].
    + by rewrite Hc, (eval_0 p b).
    + apply list_elem_of_fmap in Hx as (a & -> & Ha). rewrite <- Hon by done.
      apply list_elem_of_lookup in Ha as [i Hi]. symmetry.
      by eapply (lagr_node _ _ _ _ _ _ _ _ gf256_field).
  - rewrite last_lookup in Htop. apply list_elem_of_lookup. eexists.
    rewrite padd_lookup_ge; [exact Htop|lia].
Qed.

(** C39: one share fewer than the threshold combines to a value that differs from
    the secret in every byte. *)
Theorem combine_below_threshold fuel n k secret r shares r' sub ord :
  split fuel n k secret r = Ok (shares, r') ->
  sub ⊆ shares -> Z.of_nat (size sub) = b2z k - 1 ->
  (forall i, ord i ≡ₚ map_to_list sub) ->
  exists out, Combine ord = Ok out /\ Forall2 (fun a b => a <> b) out secret.
Proof.
  intros Hsplit Hsub Hk Hord.
  assert (1 < b2z k) as Hk1.
  { unfold split in Hsplit. destruct (Z.leb_spec (b2z k) 1); [done|lia]. }
  assert (sub <> ∅) as Hne by (intros ->; rewrite map_size_empty in Hk; lia).
  assert (secret <> []) as Hsecret by (intros ->; eauto using split_nil_sub).
  apply split_ok in Hsplit as (_ & Hn & polys & Hpolys & Hsh); [|done].
  pose proof (sub_shares _ _ _ _ Hsh Hsub) as Hv.
  exists (imap (fun i p => glagr (points_of p (ord (S i))) x00) polys).
  assert (forall i p, interpolate (points_of p (ord (S i))) x00 =
                      Ok (glagr (points_of p (ord (S i))) x00)) as Hint.
  { intros i p. apply interpolate_lagr. by eapply points_nodup. }
  split.
  - apply (combine_run polys sub); [naive_solver|done..|by rewrite length_imap|].
    intros i p b Hp Hb. rewrite list_lookup_imap, Hp in Hb. injection Hb as <-. apply Hint.
  - apply Forall2_same_length_lookup. rewrite length_imap.
    split; [symmetry; by eapply Forall2_length|]. intros i c b Hc Hb.
    rewrite list_lookup_imap in Hc. destruct (polys !! i) as [p|] eqn:Hp; [|done].
    injection Hc as <-. pose proof (Forall2_lookup_lr _ _ _ _ _ _ Hpolys Hb Hp) as Hbyte.
    eapply interpolate_below; [done| | | |apply Hint].
    + rewrite (points_length sub ord) by done. destruct Hbyte as [-> _]. lia.
    + apply NoDup_cons. split; [|by eapply points_nodup].
      unfold points_of. rewrite <- list_fmap_compose.
      intros ([x v] & Hx & Hin)%list_elem_of_fmap. simpl in Hx. subst x.
      rewrite Hord in Hin. apply elem_of_map_to_list, Hv in Hin as [H0 _]. by apply H0.
    + intros a (kv & <- & _)%list_elem_of_In%in_map_iff. done.
Qed.

Lemma combine_below_threshold_witness :
  exists out, Combine (fun _ => map_to_list {[x03 := [x25; x1c]]}) = Ok out /\
    Forall2 (fun a b => a <> b) out [x2a; x07].
Proof.
  apply (combine_below_threshold 256 x03 x02 [x2a; x07] example_reader example_shares [x11]
           {[x03 := [x25; x1c]]}).
  - exact example_split.
  - apply map_singleton_subseteq_l. vm_compute. reflexivity.
  - vm_compute. reflexivity.
  - reflexivity.
Defined.

(** ** Termination

    [generate] draws bytes until one is not zero, so it ends on any source of
    randomness that keeps producing non-zero bytes.  [source s o len] is the
    segment of [len] bytes at offset [o] of the infinite stream [s]. *)

Definition source (s : nat -> byte) (o len : nat) : bytes := map s (seq o len).

Definition productive (s : nat -> byte) : Prop := forall m, exists j, (m <= j)%nat /\ s j <> x00.

Lemma source_app s o l1 l2 : source s o (l1 + l2) = source s o l1 ++ source s (o + l1) l2.
Proof. unfold source. by rewrite seq_app, map_app. Qed.

Lemma source_length s o len : length (source s o len) = len.
Proof. unfold source. by rewrite length_map, length_seq. Qed.

Lemma read_nonzero_source s o :
  productive s -> exists b len, forall rest, read_nonzero (source s o len ++ rest) = Ok (b, rest).
Proof.
  intros Hp. destruct (Hp o) as (j & Hj & Hsj).
  remember (j - o)%nat as d eqn:Hd. revert o Hj Hd.
  induction d as [|d IH]; intros o Hj Hd.
  - exists (s o), 1%nat. intros rest. simpl. replace o with j by lia.
    by rewrite bool_decide_eq_false_2.
  - destruct (decide (s o = x00)) as [E|E].
    + destruct (IH (S o)) as (b & len & Hb); [lia..|].
      exists b, (S len). intros rest. simpl. rewrite bool_decide_eq_true_2 by done. apply Hb.
    + exists (s o), 1%nat. intros rest. simpl. by rewrite bool_decide_eq_false_2.
Qed.

Lemma generate_source s o degree x :
  productive s -> 0 < b2z degree < 255 ->
  exists p len, forall rest, generate degree x (source s o len ++ rest) = Ok (p, rest).
Proof.
  intros Hp Hd.
  set (m := Z.to_nat (b2z (z2b (b2z degree - 1)))).
  destruct (read_nonzero_source s (o + m) Hp) as (b & len & Hb).
  eexists _, (m + len)%nat. intros rest. unfold generate.
  rewrite (b2z_z2b (b2z degree + 1)), Z.mod_small by lia.
  rewrite bool_decide_eq_false_2 by lia. fold m. unfold ReadFull.
  rewrite source_app, <- app_assoc.
  rewrite decide_True by (rewrite length_app, source_length; lia).
  rewrite drop_app_length' by (symmetry; apply source_length). rewrite Hb.
  rewrite take_app_length' by (symmetry; apply source_length). reflexivity.
Qed.

Lemma split_loop_source fuel s o n k secret shares :
  productive s -> 1 < b2z k -> b2z n < 255 -> 255 <= Z.of_nat fuel ->
  exists shares' len, forall rest,
    split_loop fuel n k secret shares (source s o len ++ rest) = Ok (shares', rest).
Proof.
  intros Hp Hk Hn Hf. revert o shares. induction secret as [|b secret IH]; intros o shares.
  - by exists shares, 0%nat.
  - pose proof (b2z_range k).
    destruct (generate_source s o (z2b (b2z k - 1)) b Hp) as (p & l1 & Hgen).
    { rewrite b2z_z2b, Z.mod_small by lia. lia. }
    destruct (share_loop_fuel fuel n x01 p shares (Z.le_refl 1) Hn Hf) as [sh Hsh].
    destruct (IH (o + l1)%nat sh) as (shares' & l2 & Hrec).
    exists shares', (l1 + l2)%nat. intros rest. cbn [split_loop].
    apply stres_bind_ok. eexists _, _. rewrite source_app, <- app_assoc.
    split; [apply Hgen|]. apply stres_bind_ok. eexists _, _.
    unfold st_lift. rewrite Hsh. split; [reflexivity|]. apply Hrec.
Qed.

Lemma split_source fuel s o n k secret :
  productive s -> 1 < b2z k -> b2z k <= b2z n <= 254 -> 255 <= Z.of_nat fuel ->
  exists shares len, forall rest, split fuel n k secret (source s o len ++ rest) = Ok (shares, rest).
Proof.
  intros Hp Hk Hn Hf.
  destruct (split_loop_source fuel s o n k secret ∅ Hp Hk ltac:(lia) Hf) as (shares & len & Hrun).
  exists shares, len. intros rest. unfold split. destruct (Z.leb_spec (b2z k) 1); [lia|].
  destruct (Z.ltb_spec (b2z n) (b2z k)); [lia|]. apply Hrun.
Qed.

(** The shares of a run have the secret's length. *)
Lemma split_share_length fuel n k secret r shares r' x :
  split fuel n k secret r = Ok (shares, r') -> secret <> [] -> 1 <= b2z x <= b2z n ->
  exists v, shares !! x = Some v /\ length v = length secret.
Proof.
  intros Hsplit Hne Hx. apply split_ok in Hsplit as (_ & _ & polys & Hpolys & Hsh); [|done].
  rewrite Hsh. unfold shares_of. rewrite decide_True.
  - eexists. split; [done|]. rewrite length_map. symmetry. by eapply Forall2_length.
  - split; [|done]. intros ->. apply Forall2_length in Hpolys. by destruct secret.
Qed.

(** For [2 <= k <= n <= 254], [split] returns on every productive source of
    randomness (255 rounds of its inner loop are enough), with a share of the
    secret's length for each ID from 1 to [n]. *)
Theorem split_returns fuel s n k secret :
  productive s -> 1 < b2z k -> b2z k <= b2z n <= 254 -> 255 <= Z.of_nat fuel ->
  exists len shares r', split fuel n k secret (source s 0 len) = Ok (shares, r') /\
    (secret <> [] -> forall x, 1 <= b2z x <= b2z n ->
       exists v, shares !! x = Some v /\ length v = length secret).
Proof.
  intros Hp Hk Hn Hf.
  destruct (split_source fuel s 0 n k secret Hp Hk Hn Hf) as (shares & len & Hrun).
  specialize (Hrun []). rewrite app_nil_r in Hrun. eauto 6 using split_share_length.
Qed.

Lemma split_returns_witness :
  exists len shares r', split 256 xfe x02 [x2a] (source (fun _ => x01) 0 len) = Ok (shares, r') /\
    ([x2a] <> [] -> forall x, 1 <= b2z x <= b2z xfe ->
       exists v, shares !! x = Some v /\ length v = length [x2a]).
Proof.
  apply (split_returns 256 (fun _ => x01)).
  - intros m. exists m. split; [lia|done].
  - reflexivity.
  - vm_compute. split; discriminate.
  - vm_compute. discriminate.
Defined.

(** With [n] = 255 the loop over share IDs, whose counter is a byte, never
    ends: [split] does not return whatever the fuel, although 255 is a share
    count the package documents. *)
Theorem split_255_diverges fuel k b secret r p r1 :
  1 < b2z k -> generate (z2b (b2z k - 1)) b r = Ok (p, r1) ->
  split fuel xff k (b :: secret) r = NoFuel.
Proof.
  intros Hk Hgen. unfold split. destruct (Z.leb_spec (b2z k) 1); [lia|].
  change (b2z xff) with 255. pose proof (b2z_range k).
  destruct (Z.ltb_spec 255 (b2z k)); [lia|]. simpl.
  unfold mbind, stres_mbind. rewrite Hgen. unfold st_lift. by rewrite share_loop_255.
Qed.

Lemma split_255_diverges_witness : split 5000 xff x02 [x2a] [x07] = NoFuel.
Proof.
  apply (split_255_diverges 5000 x02 x2a [] [x07] [x2a; x07] []).
  - reflexivity.
  - vm_compute. reflexivity.
Defined.
