(* ===== verification/Salsa20.v ===== *)
(** * The Salsa20 stream cipher

    Models [salsa20Core] of
    src/psiphon/common/crypto/nacl/secretbox/secretbox_reader.go, and [HSalsa20]
    and the generic [XORKeyStream] of the vendored
    src/vendor/golang.org/x/crypto/salsa20/salsa, which share its rounds.  The
    32-bit words are integers with their wrap-around written out.

    [XORKeyStream] is shown to xor its input with a key stream that does not
    depend on the input, whatever its length. *)

From stdpp Require Import base list sets strings.
From Stdlib Require Import ZArith Lia Strings.Byte.
From S2P Require Import Prelude.
#[local] Open Scope Z_scope.

Definition u32add (a b : Z) : Z := wrapU 32 (a + b).

(** [u<<r | u>>(32-r)] *)
Definition rotl32 (u r : Z) : Z := Z.lor (wrapU 32 (Z.shiftl u r)) (Z.shiftr u (32 - r)).

(** One line of the rounds, [u = xa + xb; xd ^= u<<r | u>>(32-r)], written
    [(d, a, b, r)]. *)
Definition arx (x : list Z) (op : nat * nat * nat * Z) : list Z :=
  let '(d, a, b, r) := op in
  <[d := Z.lxor (nth d x 0) (rotl32 (u32add (nth a x 0) (nth b x 0)) r)]> x.

Definition double_round : list (nat * nat * nat * Z) :=
  ([ (4, 0, 12, 7%Z); (8, 4, 0, 9%Z); (12, 8, 4, 13%Z); (0, 12, 8, 18%Z);
     (9, 5, 1, 7%Z); (13, 9, 5, 9%Z); (1, 13, 9, 13%Z); (5, 1, 13, 18%Z);
     (14, 10, 6, 7%Z); (2, 14, 10, 9%Z); (6, 2, 14, 13%Z); (10, 6, 2, 18%Z);
     (3, 15, 11, 7%Z); (7, 3, 15, 9%Z); (11, 7, 3, 13%Z); (15, 11, 7, 18%Z);
     (1, 0, 3, 7%Z); (2, 1, 0, 9%Z); (3, 2, 1, 13%Z); (0, 3, 2, 18%Z);
     (6, 5, 4, 7%Z); (7, 6, 5, 9%Z); (4, 7, 6, 13%Z); (5, 4, 7, 18%Z);
     (11, 10, 9, 7%Z); (8, 11, 10, 9%Z); (9, 8, 11, 13%Z); (10, 9, 8, 18%Z);
     (12, 15, 14, 7%Z); (13, 12, 15, 9%Z); (14, 13, 12, 13%Z); (15, 14, 13, 18%Z) ])%nat.

(** [for i := 0; i < 20; i += 2] *)
Definition rounds (x : list Z) : list Z := Nat.iter 10 (fun x => foldl arx x double_round) x.

Definition word (b : bytes) (o : nat) : Z := le_load (slice o 4 b).

Definition salsa_words (input k c : bytes) : list Z :=
  [ word c 0; word k 0; word k 4; word k 8; word k 12; word c 4;
    word input 0; word input 4; word input 8; word input 12; word c 8;
    word k 16; word k 20; word k 24; word k 28; word c 12 ].

Definition salsa20Core (input k c : bytes) : bytes :=
  let j := salsa_words input k c in
  concat (zip_with (fun x j => le_store 4 (u32add x j)) (rounds j) j).

Definition HSalsa20 (input k c : bytes) : bytes :=
  let x := rounds (salsa_words input k c) in
  concat (map (fun i => le_store 4 (nth i x 0)) [0; 5; 10; 15; 6; 7; 8; 9]%nat).

Definition Sigma : bytes :=
  [x65; x78; x70; x61; x6e; x64; x20; x33; x32; x2d; x62; x79; x74; x65; x20; x6b].

(** The increment of the 64-bit block counter in bytes 8 to 15. *)
Definition next_counter (counter : bytes) : bytes :=
  (foldl (fun s i =>
     let u := wrapU 32 (s.2 + b2z (nth i s.1 x00)) in
     (<[i := z2b u]> s.1, Z.shiftr u 8))
   (counter, 1) (seq 8 8)).1.

Definition xor_bytes (a b : bytes) : bytes := zip_with bxor a b.

(** The loop over whole blocks; [fuel] is the input's length. *)
Fixpoint xorKeyStream_loop (fuel : nat) (core : bytes -> bytes) (input counter : bytes) : bytes :=
  match fuel with
  | O => []
  | S fuel =>
      if decide (64 <= length input)%nat then
        xor_bytes (take 64 input) (core counter) ++
        xorKeyStream_loop fuel core (drop 64 input) (next_counter counter)
      else if decide (0 < length input)%nat then xor_bytes input (core counter)
      else []
  end.

Definition XORKeyStream (input counter key : bytes) : bytes :=
  xorKeyStream_loop (S (length input)) (fun ctr => salsa20Core ctr key Sigma) input counter.

Arguments rounds : simpl never.
Arguments salsa20Core : simpl never.
Arguments HSalsa20 : simpl never.
Arguments next_counter : simpl never.
Arguments XORKeyStream : simpl never.

(** ** Lengths *)

Lemma length_arx x op : length (arx x op) = length x.
Proof. destruct op as [[[d a] b] r]. apply length_insert. Qed.

Lemma length_foldl_arx ops x : length (foldl arx x ops) = length x.
Proof.
  revert x. induction ops as [|op ops IH]; intros x; cbn [foldl]; [done|].
  by rewrite IH, length_arx.
Qed.

Lemma length_rounds x : length (rounds x) = length x.
Proof.
  unfold rounds. generalize 10%nat as n. intros n.
  induction n as [|n IH]; [done|]. rewrite Nat.iter_succ, length_foldl_arx. exact IH.
Qed.

Lemma length_concat_const {A} (n : nat) (ls : list (list A)) :
  (forall l, l ∈ ls -> length l = n) -> length (concat ls) = (n * length ls)%nat.
Proof.
  induction ls as [|l ls IH]; intros H; simpl; [lia|].
  rewrite length_app, IH, (H l) by set_solver. lia.
Qed.

Lemma length_salsa20Core input k c : length (salsa20Core input k c) = 64%nat.
Proof.
  unfold salsa20Core. rewrite (length_concat_const 4).
  - rewrite length_zip_with, length_rounds. reflexivity.
  - intros l (i & Hl)%list_elem_of_lookup.
    apply lookup_zip_with_Some in Hl as (x & y & -> & _). apply length_le_store.
Qed.

Lemma length_HSalsa20 input k c : length (HSalsa20 input k c) = 32%nat.
Proof.
  unfold HSalsa20. rewrite (length_concat_const 4); [done|].
  intros l (i & -> & _)%list_elem_of_fmap. apply length_le_store.
Qed.

(** ** The key stream *)

Section Keystream.
Context (core : bytes -> bytes).
Hypothesis Hcore : forall ctr, length (core ctr) = 64%nat.

(** Byte [j] of the stream that starts at the block of [counter]. *)
Definition keystream (counter : bytes) (j : nat) : byte :=
  nth (j mod 64) (core (Nat.iter (j / 64) next_counter counter)) x00.

Lemma keystream_block counter j : (j < 64)%nat -> keystream counter j = nth j (core counter) x00.
Proof. intros Hj. unfold keystream. by rewrite Nat.mod_small, Nat.div_small. Qed.

Lemma keystream_next counter j : keystream counter (64 + j) = keystream (next_counter counter) j.
Proof.
  unfold keystream. replace (64 + j)%nat with (j + 1 * 64)%nat by lia.
  rewrite Nat.Div0.mod_add, Nat.div_add by lia.
  by rewrite Nat.add_1_r, Nat.iter_succ_r.
Qed.

Lemma xor_block (b ks : bytes) (f : nat -> byte) :
  (length b <= length ks)%nat -> (forall j, (j < length b)%nat -> f j = nth j ks x00) ->
  xor_bytes b ks = imap (fun j x => bxor x (f j)) b.
Proof.
  unfold xor_bytes. revert ks f. induction b as [|x b IH]; intros [|k ks] f Hl Hf; simpl in *; try done; try lia.
  f_equal; [by rewrite (Hf 0%nat) by lia|].
  apply (IH ks (fun j => f (S j))); [lia|]. intros j Hj. apply (Hf (S j)). lia.
Qed.

(** Every output byte is the input byte xored with the key stream byte at the
    same position. *)
Lemma xorKeyStream_loop_spec fuel input counter :
  (length input < fuel)%nat ->
  xorKeyStream_loop fuel core input counter =
  imap (fun j x => bxor x (keystream counter j)) input.
Proof.
  revert input counter. induction fuel as [|fuel IH]; intros input counter Hf; [lia|].
  cbn [xorKeyStream_loop]. case_decide as Hlen.
  - rewrite <- (take_drop 64 input) at 3. rewrite imap_app, length_take_le by lia. f_equal.
    + apply xor_block.
      * rewrite Hcore. apply firstn_le_length.
      * intros j Hj. rewrite length_take_le in Hj by lia. by apply keystream_block.
    + rewrite IH by (rewrite length_drop; lia). apply imap_ext. intros j x _.
      cbn beta. by rewrite keystream_next.
  - case_decide as Hpos.
    + apply xor_block; [rewrite Hcore; lia|]. intros j Hj. apply keystream_block. lia.
    + by destruct input; [|simpl in Hpos; lia].
Qed.
End Keystream.

Lemma XORKeyStream_spec input counter key :
  XORKeyStream input counter key =
  imap (fun j x => bxor x (keystream (fun ctr => salsa20Core ctr key Sigma) counter j)) input.
Proof.
  apply xorKeyStream_loop_spec; [|lia]. intros ctr. apply length_salsa20Core.
Qed.
