(* ===== verification/Poly1305.v ===== *)
(** * Poly1305 over a reader

    Models [poly1305SumReader] and [poly1305VerifyReader] of
    src/psiphon/common/crypto/nacl/secretbox/secretbox_reader.go: the authenticator
    computed on five 26-bit limbs held in 32-bit words, with 64-bit products, and
    the message taken from an [io.Reader] sixteen bytes at a time.

    The reference is the textbook definition, [poly1305]: a polynomial in the
    clamped key evaluated modulo 2^130 - 5. *)

From stdpp Require Import base list strings.
From Stdlib Require Import ZArith Zbitwise Lia Strings.Byte.
From S2P Require Import Prelude.
#[local] Open Scope Z_scope.

(** ** The reference *)

Definition P1305 : Z := 2 ^ 130 - 5.
Definition clamp (k : Z) : Z := Z.land k 0x0ffffffc0ffffffc0ffffffc0fffffff.

(** A block is read as a little-endian number with a one bit added above it. *)
Definition block_value (b : bytes) : Z := le_load (b ++ [x01]).

Fixpoint poly_acc (fuel : nat) (r acc : Z) (msg : bytes) : Z :=
  match fuel with
  | O => acc
  | S fuel =>
      match msg with
      | [] => acc
      | _ => poly_acc fuel r ((acc + block_value (take 16 msg)) * r mod P1305) (drop 16 msg)
      end
  end.

Definition poly1305 (msg key : bytes) : bytes :=
  let r := clamp (le_load (slice 0 16 key)) in
  let s := le_load (slice 16 16 key) in
  le_store 16 (poly_acc (length msg) r 0 msg + s).

(** ** The code *)

Abbreviation w32 := (wrapU 32).
Abbreviation w64 := (wrapU 64).

Definition Uint32 (b : bytes) (o : nat) : Z := le_load (slice o 4 b).

Record limbs := Limbs { l0 : Z; l1 : Z; l2 : Z; l3 : Z; l4 : Z }.

(** The [r] part of the key. *)
Definition key_r (key : bytes) : limbs :=
  Limbs (Z.land (Uint32 key 0) 0x3ffffff)
        (Z.land (Z.shiftr (Uint32 key 3) 2) 0x3ffff03)
        (Z.land (Z.shiftr (Uint32 key 6) 4) 0x3ffc0ff)
        (Z.land (Z.shiftr (Uint32 key 9) 6) 0x3f03fff)
        (Z.land (Z.shiftr (Uint32 key 12) 8) 0x00fffff).

(** [h += msg]; [hibit] is [1 << 24] for a whole block and 0 for the last one. *)
Definition add_block (h : limbs) (b : bytes) (hibit : Z) : limbs :=
  Limbs (w32 (l0 h + Z.land (Uint32 b 0) 0x3ffffff))
        (w32 (l1 h + Z.land (Z.shiftr (Uint32 b 3) 2) 0x3ffffff))
        (w32 (l2 h + Z.land (Z.shiftr (Uint32 b 6) 4) 0x3ffffff))
        (w32 (l3 h + Z.land (Z.shiftr (Uint32 b 9) 6) 0x3ffffff))
        (w32 (l4 h + Z.lor (Z.shiftr (Uint32 b 12) 8) hibit)).

(** [h *= r; h %= p], the carries left partly unpropagated. *)
Definition mul_reduce (r h : limbs) : limbs :=
  let R1 := w64 (l1 r * 5) in let R2 := w64 (l2 r * 5) in
  let R3 := w64 (l3 r * 5) in let R4 := w64 (l4 r * 5) in
  let d0 := w64 (l0 h * l0 r + l1 h * R4 + l2 h * R3 + l3 h * R2 + l4 h * R1) in
  let d1 := w64 (Z.shiftr d0 26 + l0 h * l1 r + l1 h * l0 r + l2 h * R4 + l3 h * R3 + l4 h * R2) in
  let d2 := w64 (Z.shiftr d1 26 + l0 h * l2 r + l1 h * l1 r + l2 h * l0 r + l3 h * R4 + l4 h * R3) in
  let d3 := w64 (Z.shiftr d2 26 + l0 h * l3 r + l1 h * l2 r + l2 h * l1 r + l3 h * l0 r + l4 h * R4) in
  let d4 := w64 (Z.shiftr d3 26 + l0 h * l4 r + l1 h * l3 r + l2 h * l2 r + l3 h * l1 r + l4 h * l0 r) in
  let h0 := Z.land (w32 d0) 0x3ffffff in
  let h1 := Z.land (w32 d1) 0x3ffffff in
  let h2 := Z.land (w32 d2) 0x3ffffff in
  let h3 := Z.land (w32 d3) 0x3ffffff in
  let h4 := Z.land (w32 d4) 0x3ffffff in
  let h0 := w32 (h0 + w32 (w32 (Z.shiftr d4 26) * 5)) in
  let h1 := w32 (h1 + Z.shiftr h0 26) in
  let h0 := Z.land h0 0x3ffffff in
  Limbs h0 h1 h2 h3 h4.

(** What one call of [msg.Read(in[:])] returns. *)
Inductive read_err := NoErr | EOF | ReadErr (msg : string).

(** The loop over [msg.Read]; the script lists the results of the successive
    calls, each of at most sixteen bytes. *)
Fixpoint sum_loop (script : list (bytes * read_err)) (r h : limbs) : res limbs :=
  match script with
  | [] => NoFuel
  | (chunk, err) :: script =>
      let n := length chunk in
      let h :=
        if decide (n = 16)%nat then mul_reduce r (add_block h chunk (Z.shiftl 1 24))
        else if decide (0 < n)%nat then
          mul_reduce r (add_block h (chunk ++ [x01] ++ replicate (15 - n) x00) 0)
        else h in
      match err with
      | EOF => Ok h
      | ReadErr m => Err m
      | NoErr => sum_loop script r h
      end
  end.

(** The carries, the choice between [h] and [h - p], and the packing into 128
    bits. *)
Definition carry (h : limbs) : limbs :=
  let h2 := w32 (l2 h + Z.shiftr (l1 h) 26) in
  let h1 := Z.land (l1 h) 0x3ffffff in
  let h3 := w32 (l3 h + Z.shiftr h2 26) in
  let h2 := Z.land h2 0x3ffffff in
  let h4 := w32 (l4 h + Z.shiftr h3 26) in
  let h3 := Z.land h3 0x3ffffff in
  let h0 := w32 (l0 h + w32 (5 * Z.shiftr h4 26)) in
  let h4 := Z.land h4 0x3ffffff in
  let h1 := w32 (h1 + Z.shiftr h0 26) in
  let h0 := Z.land h0 0x3ffffff in
  Limbs h0 h1 h2 h3 h4.

Definition not32 (x : Z) : Z := 2 ^ 32 - 1 - x.

Definition select (h : limbs) : limbs :=
  let t0 := w32 (l0 h + 5) in
  let t1 := w32 (l1 h + Z.shiftr t0 26) in
  let t2 := w32 (l2 h + Z.shiftr t1 26) in
  let t3 := w32 (l3 h + Z.shiftr t2 26) in
  let t4 := w32 (l4 h + Z.shiftr t3 26 - Z.shiftl 1 26) in
  let t0 := Z.land t0 0x3ffffff in
  let t1 := Z.land t1 0x3ffffff in
  let t2 := Z.land t2 0x3ffffff in
  let t3 := Z.land t3 0x3ffffff in
  let t_mask := w32 (Z.shiftr t4 31 - 1) in
  let h_mask := not32 t_mask in
  Limbs (Z.lor (Z.land (l0 h) h_mask) (Z.land t0 t_mask))
        (Z.lor (Z.land (l1 h) h_mask) (Z.land t1 t_mask))
        (Z.lor (Z.land (l2 h) h_mask) (Z.land t2 t_mask))
        (Z.lor (Z.land (l3 h) h_mask) (Z.land t3 t_mask))
        (Z.lor (Z.land (l4 h) h_mask) (Z.land t4 t_mask)).

(** [tag = (h + s) % (2^128)] *)
Definition pack_tag (h : limbs) (key : bytes) : bytes :=
  let h0 := Z.lor (l0 h) (w32 (Z.shiftl (l1 h) 26)) in
  let h1 := Z.lor (Z.shiftr (l1 h) 6) (w32 (Z.shiftl (l2 h) 20)) in
  let h2 := Z.lor (Z.shiftr (l2 h) 12) (w32 (Z.shiftl (l3 h) 14)) in
  let h3 := Z.lor (Z.shiftr (l3 h) 18) (w32 (Z.shiftl (l4 h) 8)) in
  let t := w64 (h0 + Uint32 key 16) in
  let h0 := w32 t in
  let t := w64 (h1 + Uint32 key 20 + Z.shiftr t 32) in
  let h1 := w32 t in
  let t := w64 (h2 + Uint32 key 24 + Z.shiftr t 32) in
  let h2 := w32 t in
  let t := w64 (h3 + Uint32 key 28 + Z.shiftr t 32) in
  let h3 := w32 t in
  le_store 4 h0 ++ le_store 4 h1 ++ le_store 4 h2 ++ le_store 4 h3.

Definition poly1305SumReader (script : list (bytes * read_err)) (key : bytes) : res bytes :=
  h ← sum_loop script (key_r key) (Limbs 0 0 0 0 0);
  Ok (pack_tag (select (carry h)) key).

Definition poly1305VerifyReader (mac : bytes) (script : list (bytes * read_err)) (key : bytes)
  : res unit :=
  tmp ← poly1305SumReader script key;
  if bool_decide (tmp = mac) then Ok tt else Err "verify failed".

Arguments poly1305 : simpl never.

(** RFC 8439, section 2.5.2. *)
Definition rfc_key : bytes :=
  map z2b [0x85; 0xd6; 0xbe; 0x78; 0x57; 0x55; 0x6d; 0x33; 0x7f; 0x44; 0x52; 0xfe; 0x42; 0xd5;
           0x06; 0xa8; 0x01; 0x03; 0x80; 0x8a; 0xfb; 0x0d; 0xb2; 0xfd; 0x4a; 0xbf; 0xf6; 0xaf;
           0x41; 0x49; 0xf5; 0x1b].
Definition rfc_msg : bytes :=
  map z2b [0x43; 0x72; 0x79; 0x70; 0x74; 0x6f; 0x67; 0x72; 0x61; 0x70; 0x68; 0x69; 0x63; 0x20;
           0x46; 0x6f; 0x72; 0x75; 0x6d; 0x20; 0x52; 0x65; 0x73; 0x65; 0x61; 0x72; 0x63; 0x68;
           0x20; 0x47; 0x72; 0x6f; 0x75; 0x70].
Example poly1305_rfc : poly1305 rfc_msg rfc_key =
  map z2b [0xa8; 0x06; 0x1d; 0xc1; 0x30; 0x51; 0x36; 0xc6; 0xc2; 0x2b; 0x8b; 0xaf; 0x0c; 0x01;
           0x27; 0xa9].
Proof. vm_compute. reflexivity. Qed.
Example poly1305SumReader_rfc :
  poly1305SumReader [(take 16 rfc_msg, NoErr); (slice 16 16 rfc_msg, NoErr);
                     (drop 32 rfc_msg, NoErr); ([], EOF)] rfc_key =
  Ok (poly1305 rfc_msg rfc_key).
Proof. vm_compute. reflexivity. Qed.

(** ** Bits as arithmetic *)

Lemma land_26 x : Z.land x 0x3ffffff = x mod 2 ^ 26.
Proof. change 0x3ffffff with (Z.ones 26). by rewrite Z.land_ones. Qed.

(** ** Reading limbs *)

Lemma le_load_take n l : le_load (take n l) = le_load l mod 256 ^ Z.of_nat n.
Proof.
  destruct (decide (n <= length l)%nat) as [Hn|Hn].
  - rewrite <- (take_drop n l) at 2. rewrite le_load_app, length_take_le by done.
    rewrite Z.mul_comm, Z_mod_plus_full, Z.mod_small; [done|].
    pose proof (le_load_range (take n l)) as Hr. by rewrite length_take_le in Hr.
  - rewrite take_ge by lia. rewrite Z.mod_small; [done|].
    pose proof (le_load_range l).
    assert (256 ^ Z.of_nat (length l) <= 256 ^ Z.of_nat n) by (apply Z.pow_le_mono_r; lia). lia.
Qed.

Lemma le_load_drop n l : le_load (drop n l) = le_load l / 256 ^ Z.of_nat n.
Proof.
  destruct (decide (n <= length l)%nat) as [Hn|Hn].
  - rewrite <- (take_drop n l) at 2. rewrite le_load_app, length_take_le by done.
    rewrite Z.mul_comm, Z.div_add by (apply Z.pow_nonzero; lia).
    rewrite Z.div_small; [done|].
    pose proof (le_load_range (take n l)) as Hr. by rewrite length_take_le in Hr.
  - rewrite drop_ge by lia. pose proof (le_load_range l).
    assert (256 ^ Z.of_nat (length l) <= 256 ^ Z.of_nat n) by (apply Z.pow_le_mono_r; lia).
    symmetry. apply Z.div_small. lia.
Qed.

Lemma Uint32_spec b o : Uint32 b o = (le_load b / 256 ^ Z.of_nat o) mod 2 ^ 32.
Proof. unfold Uint32, slice. rewrite le_load_take, le_load_drop. done. Qed.

(** A masked, shifted 32-bit word is a masked part of the whole number. *)
Lemma limb_land M a b mask :
  0 <= a -> 0 <= b <= 32 -> 0 <= mask < 2 ^ (32 - b) ->
  Z.land (Z.shiftr ((M / 2 ^ a) mod 2 ^ 32) b) mask = Z.land (M / 2 ^ (a + b)) mask.
Proof.
  intros Ha Hb Hm. rewrite <- !Z.shiftr_div_pow2, <- Z.shiftr_shiftr by lia.
  rewrite <- Z.land_ones by lia. apply Z.bits_inj'. intros i Hi.
  rewrite !Z.land_spec, !Z.shiftr_spec, Z.land_spec, Z.shiftr_spec by lia.
  destruct (decide (i < 32 - b)) as [Hlt|Hge].
  - rewrite Z.ones_spec_low by lia. by rewrite andb_true_r.
  - assert (Z.testbit mask i = false) as ->; [|by rewrite !andb_false_r].
    destruct (decide (mask = 0)) as [->|]; [apply Z.bits_0|].
    apply Z.bits_above_log2; [lia|]. apply Z.log2_lt_pow2; [lia|].
    eapply Z.lt_le_trans; [apply Hm|]. apply Z.pow_le_mono_r; lia.
Qed.

Definition B : Z := 2 ^ 26.
Definition hval (h : limbs) : Z :=
  l0 h + 2 ^ 26 * l1 h + 2 ^ 52 * l2 h + 2 ^ 78 * l3 h + 2 ^ 104 * l4 h.

(** The five 26-bit digits of a number. *)
Lemma digits M :
  M = M mod 2 ^ 26 + 2 ^ 26 * ((M / 2 ^ 26) mod 2 ^ 26) + 2 ^ 52 * ((M / 2 ^ 52) mod 2 ^ 26)
      + 2 ^ 78 * ((M / 2 ^ 78) mod 2 ^ 26) + 2 ^ 104 * (M / 2 ^ 104).
Proof.
  change (2 ^ 104) with (2 ^ 78 * 2 ^ 26). change (2 ^ 78) with (2 ^ 52 * 2 ^ 26).
  change (2 ^ 52) with (2 ^ 26 * 2 ^ 26). rewrite <- !Z.div_div by lia.
  pose proof (Z.div_mod M (2 ^ 26) ltac:(lia)) as H1.
  generalize dependent (M mod 2 ^ 26). intros m0 H1. generalize dependent (M / 2 ^ 26).
  intros q1 H1. pose proof (Z.div_mod q1 (2 ^ 26) ltac:(lia)) as H2.
  generalize dependent (q1 mod 2 ^ 26). intros m1 H2. generalize dependent (q1 / 2 ^ 26).
  intros q2 H2. pose proof (Z.div_mod q2 (2 ^ 26) ltac:(lia)) as H3.
  generalize dependent (q2 mod 2 ^ 26). intros m2 H3. generalize dependent (q2 / 2 ^ 26).
  intros q3 H3. pose proof (Z.div_mod q3 (2 ^ 26) ltac:(lia)). lia.
Qed.

Lemma block_limbs b :
  length b = 16%nat ->
  let M := le_load b in
  Z.land (Uint32 b 0) 0x3ffffff = M mod 2 ^ 26 /\
  Z.land (Z.shiftr (Uint32 b 3) 2) 0x3ffffff = (M / 2 ^ 26) mod 2 ^ 26 /\
  Z.land (Z.shiftr (Uint32 b 6) 4) 0x3ffffff = (M / 2 ^ 52) mod 2 ^ 26 /\
  Z.land (Z.shiftr (Uint32 b 9) 6) 0x3ffffff = (M / 2 ^ 78) mod 2 ^ 26 /\
  Z.shiftr (Uint32 b 12) 8 = M / 2 ^ 104 /\ 0 <= M / 2 ^ 104 < 2 ^ 24.
Proof.
  intros Hb M. pose proof (le_load_range b) as HM. rewrite Hb in HM. fold M in HM.
  change (256 ^ Z.of_nat 16) with (2 ^ 128) in HM.
  rewrite !Uint32_spec. fold M.
  change (256 ^ Z.of_nat 0) with (2 ^ 0). change (256 ^ Z.of_nat 3) with (2 ^ 24).
  change (256 ^ Z.of_nat 6) with (2 ^ 48). change (256 ^ Z.of_nat 9) with (2 ^ 72).
  change (256 ^ Z.of_nat 12) with (2 ^ 96).
  rewrite !limb_land by lia. rewrite !land_26. split_and!; try done.
  - rewrite Z.div_1_r. change (2 ^ 32) with (2 ^ 26 * 2 ^ 6).
    rewrite Z.rem_mul_r by lia. rewrite Z.mul_comm, Z_mod_plus_full. apply Z.mod_mod. lia.
  - assert (M / 2 ^ 96 < 2 ^ 32) by (apply Z.div_lt_upper_bound; lia).
    assert (0 <= M / 2 ^ 96) by (apply Z.div_pos; lia).
    rewrite Z.mod_small by lia. rewrite shiftr_div, Z.div_div by lia. done.
  - apply Z.div_pos; lia.
  - apply Z.div_lt_upper_bound; lia.
Qed.

(** ** Bounds

    [reduced h]: the accumulator between blocks.  [added h]: after a block has
    been added.  [small_r]: the clamped key. *)

Definition reduced (h : limbs) : Prop :=
  0 <= l0 h < 2 ^ 26 /\ 0 <= l1 h < 2 ^ 26 + 64 /\ 0 <= l2 h < 2 ^ 26 /\
  0 <= l3 h < 2 ^ 26 /\ 0 <= l4 h < 2 ^ 26.
Definition added (h : limbs) : Prop :=
  0 <= l0 h < 2 ^ 27 /\ 0 <= l1 h < 2 ^ 27 + 64 /\ 0 <= l2 h < 2 ^ 27 /\
  0 <= l3 h < 2 ^ 27 /\ 0 <= l4 h < 2 ^ 27.
Definition small_r (r : limbs) : Prop :=
  0 <= l0 r < 2 ^ 26 /\ 0 <= l1 r < 2 ^ 26 /\ 0 <= l2 r < 2 ^ 26 /\
  0 <= l3 r < 2 ^ 26 /\ 0 <= l4 r < 2 ^ 20.

Lemma mod26 x : 0 <= x mod 2 ^ 26 < 2 ^ 26.
Proof. apply Z.mod_pos_bound. lia. Qed.

Lemma add_block_spec h b bit :
  reduced h -> length b = 16%nat -> bit = 0 \/ bit = 1 ->
  added (add_block h b (2 ^ 24 * bit)) /\
  hval (add_block h b (2 ^ 24 * bit)) = hval h + le_load b + 2 ^ 128 * bit.
Proof.
  intros (H0 & H1 & H2 & H3 & H4) Hb Hbit.
  destruct (block_limbs b Hb) as (E0 & E1 & E2 & E3 & E4 & Hq).
  unfold add_block. rewrite E0, E1, E2, E3, E4, lor_disjoint by lia.
  set (M := le_load b) in *.
  pose proof (mod26 M). pose proof (mod26 (M / 2 ^ 26)).
  pose proof (mod26 (M / 2 ^ 52)). pose proof (mod26 (M / 2 ^ 78)).
  pose proof (digits M) as HM.
  rewrite !wrapU_small by lia. unfold added, hval. simpl. split; lia.
Qed.

Lemma key_r_spec key :
  (16 <= length key)%nat ->
  small_r (key_r key) /\ hval (key_r key) = clamp (le_load (slice 0 16 key)).
Proof.
  intros Hkey. split.
  - unfold small_r, key_r. cbn [l0 l1 l2 l3 l4].
    refine (conj _ (conj _ (conj _ (conj _ _)))); apply land_bound; lia.
  - unfold hval, key_r. cbn [l0 l1 l2 l3 l4].
    rewrite !Uint32_spec. unfold clamp, slice. rewrite drop_0, le_load_take.
    change (256 ^ Z.of_nat 0) with (2 ^ 0). change (256 ^ Z.of_nat 3) with (2 ^ 24).
    change (256 ^ Z.of_nat 6) with (2 ^ 48). change (256 ^ Z.of_nat 9) with (2 ^ 72).
    change (256 ^ Z.of_nat 12) with (2 ^ 96). change (256 ^ Z.of_nat 16) with (2 ^ 128).
    rewrite !limb_land by lia.
    rewrite <- (Z.shiftr_0_r ((le_load key / 2 ^ 0) mod 2 ^ 32)), limb_land by lia.
    set (K := le_load key). set (C := 0x0ffffffc0ffffffc0ffffffc0fffffff).
    assert (Z.land (K mod 2 ^ 128) C = Z.land K C) as ->.
    { rewrite <- Z.land_ones, <- Z.land_assoc by lia. done. }
    rewrite (land_split 26 K C), (land_split 26 (K / 2 ^ 26) (C / 2 ^ 26)) by lia.
    rewrite (land_split 26 (K / 2 ^ 26 / 2 ^ 26) (C / 2 ^ 26 / 2 ^ 26)) by lia.
    rewrite (land_split 26 (K / 2 ^ 26 / 2 ^ 26 / 2 ^ 26) (C / 2 ^ 26 / 2 ^ 26 / 2 ^ 26)) by lia.
    rewrite !Z.div_div by lia.
    assert (forall a c, 0 <= c < 2 ^ 26 -> Z.land (a mod 2 ^ 26) c = Z.land a c) as Hmod.
    { intros a c Hc. rewrite <- Z.land_ones, <- Z.land_assoc, (Z.land_comm (Z.ones 26)) by lia.
      by rewrite Z.land_ones, Z.mod_small by lia. }
    rewrite !Hmod by (apply mod26).
    change (C mod 2 ^ 26) with 0x3ffffff.
    change ((C / 2 ^ 26) mod 2 ^ 26) with 0x3ffff03.
    change ((C / (2 ^ 26 * 2 ^ 26)) mod 2 ^ 26) with 0x3ffc0ff.
    change ((C / (2 ^ 26 * 2 ^ 26 * 2 ^ 26)) mod 2 ^ 26) with 0x3f03fff.
    change (C / (2 ^ 26 * 2 ^ 26 * 2 ^ 26 * 2 ^ 26)) with 0x00fffff.
    change (2 ^ (0 + 0)) with 1. rewrite Z.div_1_r.
    change (2 ^ (24 + 2)) with (2 ^ 26). change (2 ^ (48 + 4)) with (2 ^ 26 * 2 ^ 26).
    change (2 ^ (72 + 6)) with (2 ^ 26 * 2 ^ 26 * 2 ^ 26).
    change (2 ^ (96 + 8)) with (2 ^ 26 * 2 ^ 26 * 2 ^ 26 * 2 ^ 26).
    lia.
Qed.

(** ** Multiplication

    The column sums of the schoolbook product with the columns above 2^130 folded
    back with the factor 5, and the carry chain over them. *)

Lemma mul_bound a b A C : 0 <= a < A -> 0 <= b < C -> 0 <= a * b < A * C.
Proof. nia. Qed.

Lemma column a b c d e A C N :
  0 <= a < A -> 0 <= b < C -> 0 <= c < C -> 0 <= d < C -> 0 <= e < C -> A + 4 * C <= N ->
  0 <= a + b + c + d + e < N.
Proof. lia. Qed.

Lemma carry_chain D0 D1 D2 D3 D4 :
  0 <= D0 < 2 ^ 60 -> 0 <= D1 < 2 ^ 60 -> 0 <= D2 < 2 ^ 60 -> 0 <= D3 < 2 ^ 60 ->
  0 <= D4 < 2 ^ 55 + 2 ^ 52 ->
  let d0 := w64 D0 in
  let d1 := w64 (Z.shiftr d0 26 + D1) in
  let d2 := w64 (Z.shiftr d1 26 + D2) in
  let d3 := w64 (Z.shiftr d2 26 + D3) in
  let d4 := w64 (Z.shiftr d3 26 + D4) in
  let g0 := w32 (Z.land (w32 d0) 0x3ffffff + w32 (w32 (Z.shiftr d4 26) * 5)) in
  let h := Limbs (Z.land g0 0x3ffffff) (w32 (Z.land (w32 d1) 0x3ffffff + Z.shiftr g0 26))
             (Z.land (w32 d2) 0x3ffffff) (Z.land (w32 d3) 0x3ffffff)
             (Z.land (w32 d4) 0x3ffffff) in
  reduced h /\
  exists q, hval h = D0 + 2 ^ 26 * D1 + 2 ^ 52 * D2 + 2 ^ 78 * D3 + 2 ^ 104 * D4 - P1305 * q.
Proof.
  intros HD0 HD1 HD2 HD3 HD4.
  assert (Hm : forall x, Z.land (w32 x) 0x3ffffff = x mod 2 ^ 26).
  { intros x. rewrite land_26. unfold wrapU. change (2 ^ 32) with (2 ^ 26 * 2 ^ 6).
    rewrite Z.rem_mul_r by lia. rewrite Z.mul_comm, Z_mod_plus_full. apply Z.mod_mod. lia. }
  intros d0 d1 d2 d3 d4 g0 h. subst h. rewrite !Hm, !land_26.
  assert (Hstep : forall x, x = 2 ^ 26 * Z.shiftr x 26 + x mod 2 ^ 26).
  { intros x. rewrite shiftr_div by lia. apply Z.div_mod. lia. }
  assert (d0 = D0) as E0 by (apply wrapU_small; lia).
  pose proof (Hstep d0). pose proof (mod26 d0).
  assert (d1 = Z.shiftr d0 26 + D1) as E1 by (apply wrapU_small; lia).
  pose proof (Hstep d1). pose proof (mod26 d1).
  assert (d2 = Z.shiftr d1 26 + D2) as E2 by (apply wrapU_small; lia).
  pose proof (Hstep d2). pose proof (mod26 d2).
  assert (d3 = Z.shiftr d2 26 + D3) as E3 by (apply wrapU_small; lia).
  pose proof (Hstep d3). pose proof (mod26 d3).
  assert (d4 = Z.shiftr d3 26 + D4) as E4 by (apply wrapU_small; lia).
  pose proof (Hstep d4). pose proof (mod26 d4).
  assert (g0 = d0 mod 2 ^ 26 + Z.shiftr d4 26 * 5) as Eg.
  { subst g0. rewrite Hm, (wrapU_small 32 (Z.shiftr d4 26)) by lia.
    rewrite (wrapU_small 32 (_ * 5)) by lia. apply wrapU_small. lia. }
  pose proof (Hstep g0). pose proof (mod26 g0).
  rewrite (wrapU_small 32 (d1 mod 2 ^ 26 + Z.shiftr g0 26)) by lia.
  unfold reduced, hval. cbn [l0 l1 l2 l3 l4]. split; [lia|].
  exists (Z.shiftr d4 26). unfold P1305. lia.
Qed.

Lemma mul_reduce_spec r h :
  small_r r -> added h ->
  reduced (mul_reduce r h) /\ exists q, hval (mul_reduce r h) = hval h * hval r - P1305 * q.
Proof.
  intros (Hr0 & Hr1 & Hr2 & Hr3 & Hr4) (H0 & H1 & H2 & H3 & H4).
  unfold mul_reduce. rewrite !(wrapU_small 64 (_ * 5)) by lia.
  destruct r as [r0 r1 r2 r3 r4], h as [h0 h1 h2 h3 h4]. cbn [l0 l1 l2 l3 l4] in *.
  destruct (carry_chain
    (h0 * r0 + h1 * (r4 * 5) + h2 * (r3 * 5) + h3 * (r2 * 5) + h4 * (r1 * 5))
    (h0 * r1 + h1 * r0 + h2 * (r4 * 5) + h3 * (r3 * 5) + h4 * (r2 * 5))
    (h0 * r2 + h1 * r1 + h2 * r0 + h3 * (r4 * 5) + h4 * (r3 * 5))
    (h0 * r3 + h1 * r2 + h2 * r1 + h3 * r0 + h4 * (r4 * 5))
    (h0 * r4 + h1 * r3 + h2 * r2 + h3 * r1 + h4 * r0)) as [Hred [q Hq]];
    [by apply (column _ _ _ _ _ ((2 ^ 27 + 64) * (5 * 2 ^ 26)) ((2 ^ 27 + 64) * (5 * 2 ^ 26)));
     try (apply mul_bound; lia)..
    |by apply (column _ _ _ _ _ ((2 ^ 27 + 64) * 2 ^ 20) ((2 ^ 27 + 64) * 2 ^ 26));
     try (apply mul_bound; lia)|].
  cbv zeta in Hred, Hq. rewrite !Z.add_assoc in Hred, Hq.
  split; [exact Hred|].
  exists (q + (h1 * r4 + h2 * r3 + h3 * r2 + h4 * r1
     + 2 ^ 26 * (h2 * r4 + h3 * r3 + h4 * r2) + 2 ^ 52 * (h3 * r4 + h4 * r3)
     + 2 ^ 78 * (h4 * r4))).
  rewrite Hq. unfold hval, P1305. cbn [l0 l1 l2 l3 l4]. ring.
Qed.

(** ** The final reduction *)

(** Every limb below 2^26: the limbs are the digits of the value. *)
Definition canonical (h : limbs) : Prop :=
  0 <= l0 h < 2 ^ 26 /\ 0 <= l1 h < 2 ^ 26 /\ 0 <= l2 h < 2 ^ 26 /\
  0 <= l3 h < 2 ^ 26 /\ 0 <= l4 h < 2 ^ 26.

Lemma carry26 x : x = 2 ^ 26 * Z.shiftr x 26 + x mod 2 ^ 26.
Proof. rewrite shiftr_div by lia. apply Z.div_mod. lia. Qed.

Lemma carry_spec h :
  reduced h -> canonical (carry h) /\ exists q, hval (carry h) = hval h - P1305 * q.
Proof.
  intros (H0 & H1 & H2 & H3 & H4). unfold carry. cbv zeta. rewrite !land_26.
  destruct h as [h0 h1 h2 h3 h4]. cbn [l0 l1 l2 l3 l4] in *.
  pose proof (carry26 h1). pose proof (mod26 h1).
  rewrite (wrapU_small 32 (h2 + _)) by lia. set (g2 := h2 + _).
  pose proof (carry26 g2). pose proof (mod26 g2).
  rewrite (wrapU_small 32 (h3 + _)) by lia. set (g3 := h3 + _).
  pose proof (carry26 g3). pose proof (mod26 g3).
  rewrite (wrapU_small 32 (h4 + _)) by lia. set (g4 := h4 + _).
  pose proof (carry26 g4). pose proof (mod26 g4).
  rewrite (wrapU_small 32 (5 * _)) by lia.
  rewrite (wrapU_small 32 (h0 + _)) by lia. set (g0 := h0 + _).
  pose proof (carry26 g0). pose proof (mod26 g0).
  rewrite (wrapU_small 32 (h1 mod _ + _)) by lia.
  unfold canonical, hval. cbn [l0 l1 l2 l3 l4]. split; [lia|].
  exists (Z.shiftr g4 26). unfold P1305. lia.
Qed.

Lemma land_ones32 x : 0 <= x < 2 ^ 32 -> Z.land x (2 ^ 32 - 1) = x.
Proof.
  intros Hx. change (2 ^ 32 - 1) with (Z.ones 32). rewrite Z.land_ones by lia.
  by apply Z.mod_small.
Qed.

Lemma select_spec h :
  canonical h -> canonical (select h) /\ hval (select h) = hval h mod P1305.
Proof.
  intros (H0 & H1 & H2 & H3 & H4). unfold select. cbv zeta. rewrite !land_26.
  destruct h as [h0 h1 h2 h3 h4]. cbn [l0 l1 l2 l3 l4] in *.
  rewrite (wrapU_small 32 (h0 + 5)) by lia. set (t0 := h0 + 5).
  pose proof (carry26 t0). pose proof (mod26 t0).
  rewrite (wrapU_small 32 (h1 + _)) by lia. set (t1 := h1 + _).
  pose proof (carry26 t1). pose proof (mod26 t1).
  rewrite (wrapU_small 32 (h2 + _)) by lia. set (t2 := h2 + _).
  pose proof (carry26 t2). pose proof (mod26 t2).
  rewrite (wrapU_small 32 (h3 + _)) by lia. set (t3 := h3 + _).
  pose proof (carry26 t3). pose proof (mod26 t3).
  change (Z.shiftl 1 26) with (2 ^ 26). set (e := h4 + Z.shiftr t3 26 - 2 ^ 26).
  set (V := hval (Limbs h0 h1 h2 h3 h4)).
  assert (HV : V = h0 + 2 ^ 26 * h1 + 2 ^ 52 * h2 + 2 ^ 78 * h3 + 2 ^ 104 * h4) by done.
  destruct (decide (e < 0)) as [He|He].
  - assert (w32 e = e + 2 ^ 32) as ->.
    { unfold wrapU. rewrite <- (Z_mod_plus_full e 1), Z.mod_small by lia. lia. }
    assert (Z.shiftr (e + 2 ^ 32) 31 = 1) as ->.
    { rewrite shiftr_div by lia. symmetry. apply (Z.div_unique _ _ _ (e + 2 ^ 31)); lia. }
    change (w32 (1 - 1)) with 0. change (not32 0) with (2 ^ 32 - 1).
    rewrite !Z.land_0_r, !Z.lor_0_r, !land_ones32 by lia.
    fold V. split; [unfold canonical; cbn [l0 l1 l2 l3 l4]; lia|].
    rewrite Z.mod_small; [done|]. unfold P1305. lia.
  - rewrite (wrapU_small 32 e) by lia.
    assert (Z.shiftr e 31 = 0) as ->.
    { rewrite shiftr_div by lia. apply Z.div_small. lia. }
    change (w32 (0 - 1)) with (2 ^ 32 - 1). change (not32 (2 ^ 32 - 1)) with 0.
    rewrite !Z.land_0_r, !Z.lor_0_l, !land_ones32 by lia.
    split; [unfold canonical; cbn [l0 l1 l2 l3 l4]; lia|].
    unfold hval at 1. cbn [l0 l1 l2 l3 l4].
    rewrite <- (Z_mod_plus_full V (-1)), (Z.mod_small (V + _)); unfold P1305; lia.
Qed.

(** The 32-bit words of a canonical value are its digits in base 2^32. *)
Lemma pack_words h :
  canonical h ->
  let w0 := Z.lor (l0 h) (w32 (Z.shiftl (l1 h) 26)) in
  let w1 := Z.lor (Z.shiftr (l1 h) 6) (w32 (Z.shiftl (l2 h) 20)) in
  let w2 := Z.lor (Z.shiftr (l2 h) 12) (w32 (Z.shiftl (l3 h) 14)) in
  let w3 := Z.lor (Z.shiftr (l3 h) 18) (w32 (Z.shiftl (l4 h) 8)) in
  0 <= w0 < 2 ^ 32 /\ 0 <= w1 < 2 ^ 32 /\ 0 <= w2 < 2 ^ 32 /\ 0 <= w3 < 2 ^ 32 /\
  exists q, hval h = w0 + 2 ^ 32 * w1 + 2 ^ 64 * w2 + 2 ^ 96 * w3 + 2 ^ 128 * q.
Proof.
  intros (H0 & H1 & H2 & H3 & H4). cbv zeta.
  assert (Hw : forall x k, 0 <= k <= 32 -> w32 (Z.shiftl x k) = 2 ^ k * (x mod 2 ^ (32 - k))).
  { intros x k Hk. unfold wrapU. rewrite Z.shiftl_mul_pow2 by lia.
    replace (2 ^ 32) with (2 ^ k * 2 ^ (32 - k)) by (rewrite <- Z.pow_add_r by lia; f_equal; lia).
    rewrite Z.mul_comm, Z.mul_mod_distr_l by (apply Z.pow_nonzero; lia). done. }
  destruct h as [h0 h1 h2 h3 h4]. cbn [l0 l1 l2 l3 l4] in *.
  rewrite !Hw, !shiftr_div by lia.
  change (32 - 26) with 6. change (32 - 20) with 12. change (32 - 14) with 18. change (32 - 8) with 24.
  pose proof (Z.div_mod h1 (2 ^ 6) ltac:(lia)). pose proof (Z.mod_pos_bound h1 (2 ^ 6) ltac:(lia)).
  pose proof (Z.div_mod h2 (2 ^ 12) ltac:(lia)). pose proof (Z.mod_pos_bound h2 (2 ^ 12) ltac:(lia)).
  pose proof (Z.div_mod h3 (2 ^ 18) ltac:(lia)). pose proof (Z.mod_pos_bound h3 (2 ^ 18) ltac:(lia)).
  pose proof (Z.div_mod h4 (2 ^ 24) ltac:(lia)). pose proof (Z.mod_pos_bound h4 (2 ^ 24) ltac:(lia)).
  generalize dependent (h1 mod 2 ^ 6). generalize dependent (h1 / 2 ^ 6).
  generalize dependent (h2 mod 2 ^ 12). generalize dependent (h2 / 2 ^ 12).
  generalize dependent (h3 mod 2 ^ 18). generalize dependent (h3 / 2 ^ 18).
  generalize dependent (h4 mod 2 ^ 24). generalize dependent (h4 / 2 ^ 24).
  intros q4 m4 E4 B4 q3 m3 E3 B3 q2 m2 E2 B2 q1 m1 E1 B1.
  rewrite !lor_disjoint by lia. unfold hval. cbn [l0 l1 l2 l3 l4].
  split_and!; try lia. exists q4. lia.
Qed.

(** ** Packing *)

Lemma le_store_words a b c d q :
  0 <= a < 2 ^ 32 -> 0 <= b < 2 ^ 32 -> 0 <= c < 2 ^ 32 -> 0 <= d < 2 ^ 32 ->
  le_store 16 (a + 2 ^ 32 * b + 2 ^ 64 * c + 2 ^ 96 * d + 2 ^ 128 * q) =
  le_store 4 a ++ le_store 4 b ++ le_store 4 c ++ le_store 4 d.
Proof.
  intros Ha Hb Hc Hd.
  assert (Hw : forall m x y, 0 <= x < 2 ^ 32 ->
    le_store (4 + m) (x + 2 ^ 32 * y) = le_store 4 x ++ le_store m y).
  { intros m x y Hx. rewrite le_store_app. change (256 ^ Z.of_nat 4) with (2 ^ 32).
    rewrite (Z.mul_comm _ y), Z.div_add, (Z.div_small x) by lia. f_equal.
    rewrite (Z.mul_comm y). apply (le_store_add 4). }
  replace (a + 2 ^ 32 * b + 2 ^ 64 * c + 2 ^ 96 * d + 2 ^ 128 * q)
    with (a + 2 ^ 32 * (b + 2 ^ 32 * (c + 2 ^ 32 * (d + 2 ^ 32 * q)))) by lia.
  rewrite (Hw 12%nat), (Hw 8%nat), (Hw 4%nat) by done. do 3 f_equal. apply (le_store_add 4).
Qed.

Lemma slice_app {A} o n m (l : list A) : slice o (n + m) l = slice o n l ++ slice (o + n) m l.
Proof.
  unfold slice. rewrite <- (drop_drop l n o). generalize (drop o l) as k. intros k.
  revert k. induction n as [|n IH]; intros k; simpl; [by rewrite drop_0|].
  destruct k as [|x k]; simpl; [by rewrite take_nil|]. by rewrite IH.
Qed.

Lemma key_words key :
  length key = 32%nat ->
  le_load (slice 16 16 key) =
  Uint32 key 16 + 2 ^ 32 * Uint32 key 20 + 2 ^ 64 * Uint32 key 24 + 2 ^ 96 * Uint32 key 28.
Proof.
  intros Hk. unfold Uint32.
  rewrite (slice_app 16 4 12), (slice_app 20 4 8), (slice_app 24 4 4), !le_load_app.
  assert (forall o, (o + 4 <= 32)%nat -> length (slice o 4 key) = 4%nat) as Hlen.
  { intros o Ho. unfold slice. rewrite length_take_le; [done|]. rewrite length_drop. lia. }
  rewrite !Hlen by lia. change (256 ^ Z.of_nat 4) with (2 ^ 32). simpl (_ + _)%nat. lia.
Qed.

Lemma Uint32_range b o : 0 <= Uint32 b o < 2 ^ 32.
Proof. rewrite Uint32_spec. apply Z.mod_pos_bound. lia. Qed.

Lemma pack_tag_spec h key :
  canonical h -> length key = 32%nat ->
  pack_tag h key = le_store 16 (hval h + le_load (slice 16 16 key)).
Proof.
  intros Hh Hk. destruct (pack_words h Hh) as (W0 & W1 & W2 & W3 & q & Hv).
  rewrite Hv, (key_words key Hk). unfold pack_tag. cbv zeta.
  generalize dependent (Z.lor (l0 h) (w32 (Z.shiftl (l1 h) 26))). intros w0 W0.
  generalize dependent (Z.lor (Z.shiftr (l1 h) 6) (w32 (Z.shiftl (l2 h) 20))). intros w1 W1.
  generalize dependent (Z.lor (Z.shiftr (l2 h) 12) (w32 (Z.shiftl (l3 h) 14))). intros w2 W2.
  generalize dependent (Z.lor (Z.shiftr (l3 h) 18) (w32 (Z.shiftl (l4 h) 8))). intros w3 W3 _.
  pose proof (Uint32_range key 16). pose proof (Uint32_range key 20).
  pose proof (Uint32_range key 24). pose proof (Uint32_range key 28).
  assert (Hc : forall x, x = 2 ^ 32 * Z.shiftr x 32 + w32 x /\ 0 <= w32 x < 2 ^ 32).
  { intros x. rewrite shiftr_div by lia. split; [apply Z.div_mod; lia|].
    apply Z.mod_pos_bound. lia. }
  rewrite (wrapU_small 64 (w0 + _)) by lia. set (t0 := w0 + _). destruct (Hc t0).
  rewrite (wrapU_small 64 (w1 + _ + _)) by lia. set (t1 := w1 + _ + _). destruct (Hc t1).
  rewrite (wrapU_small 64 (w2 + _ + _)) by lia. set (t2 := w2 + _ + _). destruct (Hc t2).
  rewrite (wrapU_small 64 (w3 + _ + _)) by lia. set (t3 := w3 + _ + _). destruct (Hc t3).
  rewrite <- (le_store_words _ _ _ _ (Z.shiftr t3 32 + q)) by done. f_equal. lia.
Qed.

(** ** The loop *)

(** Scripts of a reader that fills the sixteen-byte buffer until the end of the
    data, as files and byte buffers do: the end may be reported with the last
    bytes or on a further call. *)
Inductive full_reads : bytes -> list (bytes * read_err) -> Prop :=
| full_eof script : full_reads [] (([], EOF) :: script)
| full_last c script :
    (0 < length c <= 16)%nat -> full_reads c ((c, EOF) :: script)
| full_short c script :
    (0 < length c < 16)%nat -> full_reads c ((c, NoErr) :: ([], EOF) :: script)
| full_block c msg script :
    length c = 16%nat -> full_reads msg script -> full_reads (c ++ msg) ((c, NoErr) :: script).

Lemma full_reads_exists msg : exists script, full_reads msg script.
Proof.
  remember (length msg) as n eqn:Hn. revert msg Hn.
  induction n as [n IH] using lt_wf_ind. intros msg Hn.
  destruct (decide (n = 0)%nat) as [->|].
  { destruct msg; [|done]. by eexists; apply (full_eof []). }
  destruct (decide (n <= 16)%nat).
  { eexists. apply (full_last msg []). lia. }
  destruct (IH (length (drop 16 msg))) with (msg := drop 16 msg) as [script Hs];
    [rewrite length_drop; lia|done|].
  exists ((take 16 msg, NoErr) :: script). rewrite <- (take_drop 16 msg) at 1.
  apply full_block; [|exact Hs].
  apply length_take_le. lia.
Qed.

(** The accumulator after one read of the bytes [c]. *)
Definition read_block (r h : limbs) (c : bytes) : limbs :=
  if decide (length c = 16)%nat then mul_reduce r (add_block h c (Z.shiftl 1 24))
  else mul_reduce r (add_block h (c ++ [x01] ++ replicate (15 - length c) x00) 0).

Lemma le_load_zeros n : le_load (replicate n x00) = 0.
Proof. induction n as [|n IH]; [done|]. cbn [replicate le_load]. by rewrite IH. Qed.

Lemma read_block_spec r h c :
  small_r r -> reduced h -> (0 < length c <= 16)%nat ->
  reduced (read_block r h c) /\
  hval (read_block r h c) mod P1305 = (hval h mod P1305 + block_value c) * hval r mod P1305.
Proof.
  intros Hr Hh Hc. unfold read_block.
  assert (forall g, added g -> hval g = hval h + block_value c ->
    reduced (mul_reduce r g) /\
    hval (mul_reduce r g) mod P1305 = (hval h mod P1305 + block_value c) * hval r mod P1305) as Hg.
  { intros g Hadd Hval. destruct (mul_reduce_spec r g Hr Hadd) as [Hred [q Hq]].
    split; [done|]. rewrite Hq, Hval, (Z.mul_comm P1305 q), <- Z.add_opp_r, <- Z.mul_opp_l.
    rewrite Z_mod_plus_full, <- Z.mul_mod_idemp_l, <- (Z.mul_mod_idemp_l (_ + _)) by done.
    do 2 f_equal. by rewrite Zplus_mod_idemp_l. }
  case_decide as H16.
  - change (Z.shiftl 1 24) with (2 ^ 24 * 1).
    destruct (add_block_spec h c 1 Hh H16) as [Hadd Hval]; [by right|].
    apply Hg; [done|]. rewrite Hval. unfold block_value. rewrite le_load_app, H16.
    change (le_load [x01]) with 1. change (256 ^ Z.of_nat 16) with (2 ^ 128). lia.
  - destruct (add_block_spec h (c ++ [x01] ++ replicate (15 - length c) x00) 0 Hh)
      as [Hadd Hval]; [|by left|].
    { rewrite !length_app, length_replicate. simpl. lia. }
    rewrite Z.mul_0_r in *. apply Hg; [done|]. rewrite Hval, app_assoc, le_load_app, le_load_zeros.
    unfold block_value. lia.
Qed.

Lemma poly_acc_step fuel r acc c msg :
  (0 < length c <= 16)%nat -> (length c = 16%nat \/ msg = []) ->
  (length (c ++ msg) <= fuel)%nat ->
  exists fuel', (length msg <= fuel')%nat /\
  poly_acc fuel r acc (c ++ msg) = poly_acc fuel' r ((acc + block_value c) * r mod P1305) msg.
Proof.
  intros Hc Hor Hf. rewrite length_app in Hf. destruct fuel as [|fuel]; [lia|].
  exists fuel. split; [lia|]. destruct c as [|x c]; [simpl in Hc; lia|].
  cbn [poly_acc app]. change (x :: c ++ msg) with ((x :: c) ++ msg).
  destruct Hor as [H16| ->].
  - rewrite take_app_length', drop_app_length' by done. done.
  - rewrite app_nil_r, take_ge, drop_ge by lia. done.
Qed.

Lemma poly_acc_nil fuel r acc : poly_acc fuel r acc [] = acc.
Proof. by destruct fuel. Qed.

Lemma sum_loop_cons c err script r h :
  (0 < length c)%nat ->
  sum_loop ((c, err) :: script) r h =
  match err with
  | EOF => Ok (read_block r h c)
  | ReadErr m => Err m
  | NoErr => sum_loop script r (read_block r h c)
  end.
Proof.
  intros Hc. cbn [sum_loop]. unfold read_block.
  destruct (decide (length c = 16)%nat); [done|]. by rewrite decide_True by done.
Qed.

Lemma sum_loop_spec msg script :
  full_reads msg script ->
  forall r h fuel, small_r r -> reduced h -> (length msg <= fuel)%nat ->
  exists h', sum_loop script r h = Ok h' /\ reduced h' /\
    hval h' mod P1305 = poly_acc fuel (hval r) (hval h mod P1305) msg.
Proof.
  assert (Hlast : forall r h fuel c, small_r r -> reduced h -> (0 < length c <= 16)%nat ->
    (length c <= fuel)%nat -> reduced (read_block r h c) /\
    hval (read_block r h c) mod P1305 = poly_acc fuel (hval r) (hval h mod P1305) c).
  { intros r h fuel c Hr Hh Hc Hf.
    destruct (read_block_spec r h c Hr Hh Hc) as [Hred Hval].
    destruct (poly_acc_step fuel (hval r) (hval h mod P1305) c []) as (f & _ & E);
      [done|by right|by rewrite app_nil_r|]. rewrite app_nil_r in E.
    by rewrite E, poly_acc_nil. }
  induction 1 as [script|c script Hc|c script Hc|c msg script Hc Hfull IH];
    intros r h fuel Hr Hh Hf.
  - rewrite poly_acc_nil. by exists h.
  - rewrite sum_loop_cons by lia. eexists. split; [done|]. apply Hlast; (done || lia).
  - rewrite sum_loop_cons by lia. eexists. split; [done|]. apply Hlast; (done || lia).
  - rewrite sum_loop_cons by lia.
    destruct (read_block_spec r h c Hr Hh ltac:(lia)) as [Hred Hval].
    destruct (poly_acc_step fuel (hval r) (hval h mod P1305) c msg) as (f & Hf' & E);
      [lia|by left|done|]. rewrite E, <- Hval. by apply IH.
Qed.

Lemma sum_reader_correct msg script key :
  length key = 32%nat -> full_reads msg script ->
  poly1305SumReader script key = Ok (poly1305 msg key).
Proof.
  intros Hk Hfull. destruct (key_r_spec key) as [Hr Hrv]; [lia|].
  assert (reduced (Limbs 0 0 0 0 0)) as H0 by (unfold reduced; simpl; lia).
  destruct (sum_loop_spec msg script Hfull _ _ _ Hr H0 (le_n _)) as (h & Hrun & Hh & Hv).
  destruct (carry_spec h Hh) as [Hc [q Hq]]. destruct (select_spec _ Hc) as [Hs Hsv].
  unfold poly1305SumReader. rewrite Hrun. simpl. rewrite pack_tag_spec by done.
  unfold poly1305. do 3 f_equal. rewrite Hsv, Hq, <- Hrv.
  rewrite (Z.mul_comm P1305 q), <- Z.add_opp_r, <- Z.mul_opp_l, Z_mod_plus_full. exact Hv.
Qed.

(** C7: on a reader that fills the buffer, [poly1305SumReader] computes Poly1305:
    no 32-bit or 64-bit operation of the limb arithmetic loses a bit that
    matters. *)
Theorem poly1305SumReader_correct msg script key :
  length key = 32%nat -> full_reads msg script ->
  poly1305SumReader script key = Ok (poly1305 msg key).
Proof. apply sum_reader_correct. Qed.

Lemma poly1305SumReader_correct_witness :
  poly1305SumReader [(take 16 rfc_msg, NoErr); (slice 16 16 rfc_msg, NoErr);
                     (drop 32 rfc_msg, NoErr); ([], EOF)] rfc_key = Ok (poly1305 rfc_msg rfc_key).
Proof.
  apply (poly1305SumReader_correct rfc_msg); [reflexivity|].
  refine (full_block (take 16 rfc_msg) (drop 16 rfc_msg) _ eq_refl _).
  refine (full_block (slice 16 16 rfc_msg) (drop 32 rfc_msg) _ eq_refl _).
  apply full_short. vm_compute. lia.
Defined.

(** A reader may return fewer bytes than asked for, and [poly1305SumReader]
    takes a short read for the end of the message: the two bytes [01 02] read one
    at a time get another tag than Poly1305 gives them. *)
Theorem poly1305SumReader_short_read :
  exists key tag, length key = 32%nat /\
    poly1305SumReader [([x01], NoErr); ([x02], EOF)] key = Ok tag /\
    tag <> poly1305 [x01; x02] key.
Proof. exists rfc_key. eexists. split_and!; [done|reflexivity|]. vm_compute. discriminate. Qed.
