(* ===== verification/Secretbox.v ===== *)
(** * Secret boxes

    Models src/psiphon/common/crypto/nacl/secretbox: [Seal] and [Open] of
    secretbox.go over the key stream of [Salsa20], and the streaming variant of
    [Open], [salsa20ReadSeeker] of secretbox_reader.go, whose authenticator is the
    one of [Poly1305].

    [poly1305.Sum] of the package crypto/internal/poly1305 is the parameter [Sum]:
    the theorems about [Seal] and [Open] hold for every such function with
    sixteen-byte tags; the equivalence with the streaming variant takes it to be
    Poly1305, which is what its documentation says it computes. *)

From stdpp Require Import base list strings.
From Stdlib Require Import ZArith Lia Strings.Byte.
From S2P Require Import Prelude Salsa20 Poly1305.
#[local] Open Scope Z_scope.

Definition TagSize : nat := 16.
Definition Overhead : nat := TagSize.

(** The sub-key and the Salsa20 counter of a nonce and a key. *)
Definition setup (nonce key : bytes) : bytes * bytes :=
  let subKey := HSalsa20 (take 16 nonce) key Sigma in
  let counter := slice 16 8 nonce ++ replicate 8 x00 in
  (subKey, counter).

Definition first_block (nonce key : bytes) : bytes :=
  let '(subKey, counter) := setup nonce key in
  XORKeyStream (replicate 64 x00) counter subKey.

Definition poly1305Key (nonce key : bytes) : bytes := take 32 (first_block nonce key).

(** The body of both [Seal] and [Open]: up to 32 bytes are xored with the rest of
    the first block, and the remaining ones with the stream from block 1 on. *)
Definition crypt (nonce key message : bytes) : bytes :=
  let '(subKey, counter) := setup nonce key in
  let firstBlock := first_block nonce key in
  imap (fun i x => bxor (nth (32 + i) firstBlock x00) x) (take 32 message) ++
  XORKeyStream (drop 32 message) (<[8%nat := x01]> counter) subKey.

Section Box.
Context (Sum : bytes -> bytes -> bytes).

Definition Seal (out message nonce key : bytes) : bytes :=
  let ciphertext := crypt nonce key message in
  let tag := Sum ciphertext (poly1305Key nonce key) in
  out ++ tag ++ ciphertext.

Definition Verify (mac m key : bytes) : bool := bool_decide (Sum m key = mac).

Definition Open (out box nonce key : bytes) : option bytes :=
  if decide (length box < Overhead)%nat then None
  else
    let tag := take TagSize box in
    if Verify tag (drop TagSize box) (poly1305Key nonce key)
    then Some (out ++ crypt nonce key (drop Overhead box))
    else None.
End Box.

(** ** The key stream of a box *)

Definition box_stream (nonce key : bytes) (j : nat) : byte :=
  let '(subKey, counter) := setup nonce key in
  if decide (j < 32)%nat then nth (32 + j) (first_block nonce key) x00
  else keystream (fun ctr => salsa20Core ctr subKey Sigma) (<[8%nat := x01]> counter) (j - 32).

Lemma crypt_stream nonce key m :
  crypt nonce key m = imap (fun j x => bxor x (box_stream nonce key j)) m.
Proof.
  unfold crypt, box_stream. destruct (setup nonce key) as [subKey counter].
  rewrite <- (take_drop 32 m) at 3. rewrite imap_app. f_equal.
  - apply imap_ext. intros i x Hi. rewrite decide_True; [apply bxor_comm|].
    apply lookup_lt_Some in Hi. rewrite length_take in Hi. lia.
  - rewrite XORKeyStream_spec. apply imap_ext. intros i x Hi. cbn beta.
    assert (length (take 32 m) = 32%nat) as ->.
    { apply lookup_lt_Some in Hi. rewrite length_drop in Hi. apply length_take_le. lia. }
    rewrite decide_False by lia. do 2 f_equal. lia.
Qed.

Lemma length_crypt nonce key m : length (crypt nonce key m) = length m.
Proof. rewrite crypt_stream. apply length_imap. Qed.

Lemma crypt_involutive nonce key m : crypt nonce key (crypt nonce key m) = m.
Proof.
  rewrite !crypt_stream. apply list_eq. intros j. rewrite !list_lookup_imap.
  destruct (m !! j) as [x|]; simpl; [|done]. f_equal.
  by rewrite (bxor_comm _ (box_stream _ _ _)), (bxor_comm x), bxor_cancel.
Qed.

(** ** Seal and Open *)

Lemma open_seal Sum out m nonce key :
  (forall m k, length (Sum m k) = TagSize) ->
  Open Sum out (Seal Sum [] m nonce key) nonce key = Some (out ++ m).
Proof.
  intros Htag. unfold Open, Seal, Verify, Overhead. rewrite app_nil_l. rewrite decide_False.
  - rewrite take_app_length', drop_app_length' by (by rewrite Htag).
    by rewrite bool_decide_eq_true_2, crypt_involutive.
  - rewrite length_app, Htag. lia.
Qed.

(** C38: [Open] accepts a box exactly when it is one [Seal] makes, and then
    returns the message sealed; so opening inverts sealing, and nothing else
    opens. *)
Theorem open_seal_iff (Sum : bytes -> bytes -> bytes) nonce key out box r :
  (forall m k, length (Sum m k) = TagSize) ->
  Open Sum out box nonce key = Some r <->
  exists m, box = Seal Sum [] m nonce key /\ r = out ++ m.
Proof.
  intros Htag. unfold Open, Seal, Verify, Overhead. split.
  - case_decide as Hlen; [done|]. case_bool_decide as Hv; [|done].
    intros [= <-]. eexists. split; [|reflexivity].
    by rewrite crypt_involutive, Hv, app_nil_l, take_drop.
  - intros (m & -> & ->). exact (open_seal Sum out m nonce key Htag).
Qed.

(** What the clients of the package rely on, as an interface: sealing and opening
    with a nonce and a key, the second inverting the first.  The theorems on OSL
    keys are proved against it. *)
Class SecretBox := {
  sb_seal : bytes -> bytes -> bytes -> bytes;
  sb_open : bytes -> bytes -> bytes -> option bytes;
  sb_open_seal m nonce key : sb_open (sb_seal m nonce key) nonce key = Some m
}.

Lemma poly1305_length m k : length (poly1305 m k) = TagSize.
Proof. apply length_le_store. Qed.

#[export] Program Instance nacl_secretbox : SecretBox := {|
  sb_seal m nonce key := Seal poly1305 [] m nonce key;
  sb_open box nonce key := Open poly1305 [] box nonce key
|}.
Next Obligation. intros. apply (open_seal poly1305 []), poly1305_length. Qed.

(** The box and the message of the repository's test, [TestSecretBox]. *)
Definition test_box : bytes :=
  map z2b
    [0x84; 0x42; 0xbc; 0x31; 0x3f; 0x46; 0x26; 0xf1; 0x35; 0x9e; 0x3b; 0x50; 0x12; 0x2b; 0x6c; 0xe6;
     0xfe; 0x66; 0xdd; 0xfe; 0x7d; 0x39; 0xd1; 0x4e; 0x63; 0x7e; 0xb4; 0xfd; 0x5b; 0x45; 0xbe; 0xad;
     0xab; 0x55; 0x19; 0x8d; 0xf6; 0xab; 0x53; 0x68; 0x43; 0x97; 0x92; 0xa2; 0x3c; 0x87; 0xdb; 0x70;
     0xac; 0xb6; 0x15; 0x6d; 0xc5; 0xef; 0x95; 0x7a; 0xc0; 0x4f; 0x62; 0x76; 0xcf; 0x60; 0x93; 0xb8;
     0x4b; 0xe7; 0x7f; 0xf0; 0x84; 0x9c; 0xc3; 0x3e; 0x34; 0xb7; 0x25; 0x4d; 0x5a; 0x8f; 0x65; 0xad].

Example seal_test_vector :
  Seal poly1305 [] (replicate 64 x03) (replicate 24 x02) (replicate 32 x01) = test_box.
Proof. vm_compute. reflexivity. Qed.

Lemma open_seal_iff_witness :
  (forall m k, length (poly1305 m k) = TagSize) /\
  (Open poly1305 [] test_box (replicate 24 x02) (replicate 32 x01) = Some (replicate 64 x03) <->
   exists m, test_box = Seal poly1305 [] m (replicate 24 x02) (replicate 32 x01) /\
             replicate 64 x03 = [] ++ m).
Proof.
  split; [exact poly1305_length|].
  exact (open_seal_iff poly1305 _ _ _ _ _ poly1305_length).
Defined.

(** ** The streaming variant

    The state of a [salsa20ReadSeeker].  The underlying [box] is a file: [reset]
    takes its contents and the results of the reads the verification pass makes of
    it, and [Read] the bytes the underlying [Read] returned. *)

Record salsa20ReadSeeker := {
  rs_nonce : bytes;
  rs_key : bytes;
  rs_subKey : bytes;
  rs_counter : bytes;
  rs_block : bytes;
  rs_blockOffset : nat
}.

Definition reset (box : bytes) (script : list (bytes * read_err)) (r : salsa20ReadSeeker)
  : res salsa20ReadSeeker :=
  if decide (length box < TagSize)%nat then Err "read tag failed"
  else
    let tag := take TagSize box in
    let '(subKey, counter) := setup (rs_nonce r) (rs_key r) in
    let firstBlock := XORKeyStream (replicate 64 x00) counter subKey in
    _ ← poly1305VerifyReader tag script (take 32 firstBlock);
    Ok {| rs_nonce := rs_nonce r;
          rs_key := rs_key r;
          rs_subKey := subKey;
          rs_counter := <[8%nat := x01]> counter;
          rs_block := firstBlock;
          rs_blockOffset := 32 |}.

Definition NewOpenReadSeeker (box : bytes) (script : list (bytes * read_err)) (nonce key : bytes)
  : res salsa20ReadSeeker :=
  reset box script
    {| rs_nonce := nonce; rs_key := key; rs_subKey := replicate 32 x00;
       rs_counter := replicate 16 x00; rs_block := replicate 64 x00; rs_blockOffset := 0 |}.

(** [whence] is 0 for [io.SeekStart]. *)
Definition Seek (box : bytes) (script : list (bytes * read_err)) (r : salsa20ReadSeeker)
    (offset whence : Z) : res (Z * salsa20ReadSeeker) :=
  if negb (offset =? 0) || negb (whence =? 0) then Err "unsupported"
  else
    r ← reset box script r;
    Ok (0, r).

(** One iteration of the loop of [Read]. *)
Definition read_byte (r : salsa20ReadSeeker) (x : byte) : byte * salsa20ReadSeeker :=
  let r :=
    if decide (rs_blockOffset r = 64)%nat then
      {| rs_nonce := rs_nonce r;
         rs_key := rs_key r;
         rs_subKey := rs_subKey r;
         rs_counter := next_counter (rs_counter r);
         rs_block := salsa20Core (rs_counter r) (rs_subKey r) Sigma;
         rs_blockOffset := 0 |}
    else r in
  (bxor x (nth (rs_blockOffset r) (rs_block r) x00),
   {| rs_nonce := rs_nonce r; rs_key := rs_key r; rs_subKey := rs_subKey r;
      rs_counter := rs_counter r; rs_block := rs_block r;
      rs_blockOffset := S (rs_blockOffset r) |}).

Arguments read_byte : simpl never.

Fixpoint Read (r : salsa20ReadSeeker) (p : bytes) : bytes * salsa20ReadSeeker :=
  match p with
  | [] => ([], r)
  | x :: p =>
      let '(y, r) := read_byte r x in
      let '(ys, r) := Read r p in
      (y :: ys, r)
  end.

(** Reading until the end, the underlying file giving [chunks]. *)
Fixpoint read_all (r : salsa20ReadSeeker) (chunks : list bytes) : bytes :=
  match chunks with
  | [] => []
  | p :: chunks => let '(ys, r) := Read r p in ys ++ read_all r chunks
  end.

(** *** The stream a reader has left *)

Definition rs_wf (r : salsa20ReadSeeker) : Prop :=
  length (rs_block r) = 64%nat /\ (rs_blockOffset r <= 64)%nat.

Definition rs_stream (r : salsa20ReadSeeker) (i : nat) : byte :=
  if decide (rs_blockOffset r + i < 64)%nat then nth (rs_blockOffset r + i) (rs_block r) x00
  else keystream (fun ctr => salsa20Core ctr (rs_subKey r) Sigma) (rs_counter r)
         (rs_blockOffset r + i - 64).

Lemma read_byte_spec r x :
  rs_wf r ->
  (read_byte r x).1 = bxor x (rs_stream r 0) /\ rs_wf (read_byte r x).2 /\
  forall i, rs_stream (read_byte r x).2 i = rs_stream r (S i).
Proof.
  intros [Hb Ho]. unfold read_byte, rs_wf, rs_stream.
  destruct r as [non k sk ctr blk off].
  cbn [rs_subKey rs_counter rs_block rs_blockOffset fst snd] in *.
  destruct (decide (off = 64)%nat) as [->|H64];
    cbn [rs_subKey rs_counter rs_block rs_blockOffset fst snd].
  - rewrite (decide_False (P := (64 + 0 < 64)%nat)) by lia.
    split_and!; [by rewrite keystream_block by lia|apply length_salsa20Core|lia|].
    intros i. rewrite (decide_False (P := (64 + S i < 64)%nat)) by lia.
    replace (64 + S i - 64)%nat with (S i) by lia.
    destruct (decide (1 + i < 64)%nat).
    + by rewrite keystream_block by lia.
    + rewrite <- keystream_next. f_equal. lia.
  - rewrite (decide_True (P := (off + 0 < 64)%nat)) by lia.
    split_and!; [by rewrite Nat.add_0_r|done|lia|].
    intros i. by replace (off + S i)%nat with (S (off + i)) by lia.
Qed.

Lemma Read_spec r p :
  rs_wf r ->
  (Read r p).1 = imap (fun i x => bxor x (rs_stream r i)) p /\ rs_wf (Read r p).2 /\
  forall i, rs_stream (Read r p).2 i = rs_stream r (length p + i).
Proof.
  revert r. induction p as [|x p IH]; intros r Hr; [done|]. unfold Read; fold Read.
  destruct (read_byte_spec r x Hr) as (E & Hwf & Hs).
  destruct (read_byte r x) as [y r1]. cbn [fst snd] in *.
  destruct (IH r1 Hwf) as (E1 & Hwf1 & Hs1).
  destruct (Read r1 p) as [ys r2]. cbn [fst snd imap length Nat.add] in *.
  split; [|split; [exact Hwf1|]].
  - subst. f_equal. apply imap_ext. intros i z _. unfold compose. by rewrite Hs.
  - intros i. by rewrite Hs1, Hs.
Qed.

Lemma read_all_spec r chunks :
  rs_wf r -> read_all r chunks = imap (fun i x => bxor x (rs_stream r i)) (concat chunks).
Proof.
  revert r. induction chunks as [|p chunks IH]; intros r Hr; simpl; [done|].
  destruct (Read_spec r p Hr) as (E & Hwf & Hs). destruct (Read r p) as [ys r1]. simpl in *.
  rewrite IH, E, imap_app by done. f_equal. apply imap_ext. intros i x _. simpl. by rewrite Hs.
Qed.

Lemma reset_open box script nonce key r0 :
  length key = 32%nat -> full_reads (drop TagSize box) script ->
  rs_nonce r0 = nonce -> rs_key r0 = key ->
  match Open poly1305 [] box nonce key with
  | Some m => exists r, reset box script r0 = Ok r /\
      rs_nonce r = nonce /\ rs_key r = key /\
      forall chunks, concat chunks = drop TagSize box -> read_all r chunks = m
  | None => is_ok (reset box script r0) = false
  end.
Proof.
  intros Hkey Hscript Hn Hk. unfold Open, Overhead, reset, Verify, poly1305Key, first_block.
  rewrite Hn, Hk.
  destruct (decide (length box < TagSize)%nat); [done|].
  destruct (setup nonce key) as [subKey counter] eqn:Hsetup.
  assert (length (XORKeyStream (replicate 64 x00) counter subKey) = 64%nat) as Hfb
    by (by rewrite XORKeyStream_spec, length_imap).
  unfold poly1305VerifyReader. rewrite (sum_reader_correct (drop TagSize box));
    [|by rewrite length_take_le by lia|done].
  unfold mbind, res_mbind.
  destruct (bool_decide _); [|done]. eexists. split; [reflexivity|].
  split; [done|]. split; [done|].
  intros chunks Hch. rewrite read_all_spec by (split; [exact Hfb|cbn; lia]).
  rewrite Hch, crypt_stream. apply imap_ext. intros j x _. f_equal.
  unfold rs_stream, box_stream, first_block. rewrite Hsetup.
  cbn [rs_subKey rs_counter rs_block rs_blockOffset].
  destruct (decide (j < 32)%nat).
  - by rewrite decide_True by lia.
  - rewrite decide_False by lia. f_equal.
Qed.

(** [Read] keeps the nonce and the key, which [Seek] needs. *)
Lemma read_byte_nonce_key r x :
  rs_nonce (read_byte r x).2 = rs_nonce r /\ rs_key (read_byte r x).2 = rs_key r.
Proof.
  unfold read_byte. cbn [snd rs_nonce rs_key].
  by destruct (decide _); cbn [rs_nonce rs_key].
Qed.

Lemma Read_nonce_key p r : rs_nonce (Read r p).2 = rs_nonce r /\ rs_key (Read r p).2 = rs_key r.
Proof.
  revert r. induction p as [|x p IH]; intros r; [done|]. unfold Read; fold Read.
  pose proof (read_byte_nonce_key r x) as [En Ek].
  destruct (read_byte r x) as [y r1]. specialize (IH r1).
  destruct (Read r1 p) as [ys r2]. cbn [snd] in *. by rewrite <- En, <- Ek.
Qed.

(** The streaming variant agrees with [Open].  When [Open] accepts the box,
    [NewOpenReadSeeker] succeeds and reading the rest of the box gives the
    message, however the underlying file splits the reads; and after any read,
    seeking to the start gives the message again.  When [Open] refuses the box,
    so does [NewOpenReadSeeker]. *)
Theorem streaming_open box script nonce key :
  length key = 32%nat -> full_reads (drop TagSize box) script ->
  match Open poly1305 [] box nonce key with
  | Some m => exists r, NewOpenReadSeeker box script nonce key = Ok r /\
      (forall chunks, concat chunks = drop TagSize box -> read_all r chunks = m) /\
      (forall p, exists r', Seek box script (Read r p).2 0 0 = Ok (0, r') /\
         forall chunks, concat chunks = drop TagSize box -> read_all r' chunks = m)
  | None => is_ok (NewOpenReadSeeker box script nonce key) = false
  end.
Proof.
  intros Hkey Hscript. unfold NewOpenReadSeeker.
  pose proof (fun r0 => reset_open box script nonce key r0 Hkey Hscript) as H.
  destruct (Open _ _ _ _ _) as [m|]; [|by apply H].
  match goal with |- context [reset _ _ ?r0] => destruct (H r0) as (r & Hr & Hn & Hk & Hall) end;
    [done..|].
  exists r. split; [done|]. split; [done|]. intros p.
  destruct (Read_nonce_key p r) as [En Ek].
  destruct (H (Read r p).2) as (r' & Hr' & _ & _ & Hall'); [congruence..|].
  exists r'. split; [|done]. unfold Seek. by rewrite Hr'.
Qed.

Lemma streaming_open_witness :
  exists r, NewOpenReadSeeker test_box
      [(slice 16 16 test_box, NoErr); (slice 32 16 test_box, NoErr); (slice 48 16 test_box, NoErr);
       (drop 64 test_box, EOF)] (replicate 24 x02) (replicate 32 x01) = Ok r /\
    (forall chunks, concat chunks = drop TagSize test_box ->
      read_all r chunks = replicate 64 x03) /\
    (forall p, exists r', Seek test_box
      [(slice 16 16 test_box, NoErr); (slice 32 16 test_box, NoErr); (slice 48 16 test_box, NoErr);
       (drop 64 test_box, EOF)] (Read r p).2 0 0 = Ok (0, r') /\
      forall chunks, concat chunks = drop TagSize test_box ->
        read_all r' chunks = replicate 64 x03).
Proof.
  assert (Open poly1305 [] test_box (replicate 24 x02) (replicate 32 x01) =
          Some (replicate 64 x03)) as E by (vm_compute; reflexivity).
  pose proof (streaming_open test_box
      [(slice 16 16 test_box, NoErr); (slice 32 16 test_box, NoErr); (slice 48 16 test_box, NoErr);
       (drop 64 test_box, EOF)] (replicate 24 x02) (replicate 32 x01) eq_refl) as H.
  rewrite E in H. apply H.
  refine (full_block (slice 16 16 test_box) (drop 32 test_box) _ eq_refl _).
  refine (full_block (slice 32 16 test_box) (drop 48 test_box) _ eq_refl _).
  refine (full_block (slice 48 16 test_box) (drop 64 test_box) _ eq_refl _).
  apply full_last. vm_compute. lia.
Defined.
