(* ===== verification/Wildcard.v ===== *)
(** * Wildcard matching

    Models [Match] of src/psiphon/common/wildcard/wildcard.go, with the three
    functions of the package strings it calls.  A string is its list of bytes.

    The code matches the literal pieces of the pattern from left to right, each at
    its first occurrence.  The specification is the usual one, [glob], in which a
    star matches any sequence; the theorem says that the greedy choice of the first
    occurrence loses no match, and that the loop, which the code does not bound,
    ends on every input. *)

From stdpp Require Import base list strings.
From Stdlib Require Import Lia Strings.Byte.
From S2P Require Import Prelude.

(** ** The package strings *)

Fixpoint HasPrefix (s prefix : bytes) {struct prefix} : bool :=
  match prefix, s with
  | [], _ => true
  | c :: prefix, d :: s => bool_decide (c = d) && HasPrefix s prefix
  | _ :: _, [] => false
  end.

Definition HasSuffix (s suffix : bytes) : bool :=
  bool_decide (length suffix <= length s)%nat &&
  bool_decide (drop (length s - length suffix) s = suffix).

(** [None] is the result [-1]. *)
Fixpoint Index (s substr : bytes) : option nat :=
  if HasPrefix s substr then Some O
  else match s with
       | [] => None
       | _ :: s => S <$> Index s substr
       end.

(** ** The code *)

Definition wildcard : byte := x2a.

Fixpoint match_loop (fuel n : nat) (pattern target : bytes) : res bool :=
  match fuel with
  | O => NoFuel
  | S fuel =>
      if bool_decide (pattern = [wildcard]) then Ok true
      else if bool_decide (n = O) then
        match Index pattern [wildcard] with
        | None => Ok (bool_decide (pattern = target))
        | Some O => match_loop fuel (S n) (drop 1 pattern) target
        | Some i =>
            if negb (HasPrefix target (take i pattern)) then Ok false
            else match_loop fuel (S n) (drop (S i) pattern) (drop i target)
        end
      else
        match Index pattern [wildcard] with
        | None => Ok (HasSuffix target pattern)
        | Some O => match_loop fuel (S n) (drop 1 pattern) target
        | Some i =>
            match Index target (take i pattern) with
            | None => Ok false
            | Some j => match_loop fuel (S n) (drop (S i) pattern) (drop (j + i) target)
            end
        end
  end.

(** Each iteration that continues removes at least one byte of the pattern. *)
Definition Match (pattern target : bytes) : res bool :=
  match_loop (S (length pattern)) 0 pattern target.

Example match_ex1 : Match (map z2b [97; 42; 98; 42])%Z (map z2b [97; 99; 98; 98])%Z = Ok true.
Proof. reflexivity. Qed.

(** ** The specification *)

Inductive glob : bytes -> bytes -> Prop :=
| glob_nil : glob [] []
| glob_char c p t : c <> wildcard -> glob p t -> glob (c :: p) (c :: t)
| glob_skip p t : glob p t -> glob (wildcard :: p) t
| glob_eat c p t : glob (wildcard :: p) t -> glob (wildcard :: p) (c :: t).

(** ** Facts about the string functions *)

Lemma HasPrefix_spec s p : HasPrefix s p = true <-> exists r, s = p ++ r.
Proof.
  revert s. induction p as [|c p IH]; intros s; simpl.
  - split; [intros _; by exists s|done].
  - destruct s as [|d s]; [split; [done|by intros [r [=]]]|].
    rewrite andb_true_iff, bool_decide_eq_true, IH. split.
    + intros [-> [r ->]]. eauto.
    + intros [r [= -> ->]]. eauto.
Qed.

Lemma HasSuffix_spec s p : HasSuffix s p = true <-> exists r, s = r ++ p.
Proof.
  unfold HasSuffix. rewrite andb_true_iff, !bool_decide_eq_true. split.
  - intros [Hle Hd]. exists (take (length s - length p) s). by rewrite <- Hd at 2; rewrite take_drop.
  - intros [r ->]. rewrite length_app. split; [lia|].
    by rewrite drop_app_length' by lia.
Qed.

Lemma Index_Some s p i :
  Index s p = Some i ->
  (i <= length s)%nat /\ HasPrefix (drop i s) p = true /\
  forall j, (j < i)%nat -> HasPrefix (drop j s) p = false.
Proof.
  revert i. induction s as [|c s IH]; intros i; cbn [Index].
  - destruct (HasPrefix [] p) eqn:E; [|done]. intros [= <-]. split_and!; [lia|done|lia].
  - destruct (HasPrefix (c :: s) p) eqn:E.
    { intros [= <-]. split_and!; [lia|done|lia]. }
    intros (i' & Hi' & ->)%fmap_Some. apply IH in Hi' as (Hle & Hp & Hj).
    split_and!; [simpl; lia|done|]. intros [|j] Hlt; [done|]. apply Hj. lia.
Qed.

Lemma Index_None s p : Index s p = None -> forall j, HasPrefix (drop j s) p = false.
Proof.
  induction s as [|c s IH]; cbn [Index]; intros H j.
  - rewrite drop_nil. by destruct (HasPrefix [] p).
  - destruct (HasPrefix (c :: s) p) eqn:E; [done|].
    apply fmap_None in H. destruct j as [|j]; [done|]. by apply IH.
Qed.

(** A pattern without a star, and the first star of a pattern. *)

Definition literal (p : bytes) : Prop := wildcard ∉ p.

Lemma HasPrefix_star s : HasPrefix s [wildcard] = true <-> exists r, s = wildcard :: r.
Proof. apply HasPrefix_spec. Qed.

Lemma Index_star_None p : Index p [wildcard] = None -> literal p.
Proof.
  intros H [j Hj]%list_elem_of_lookup. apply (Index_None _ _) with (j := j) in H.
  rewrite (drop_S _ _ _ Hj) in H. by rewrite (proj2 (HasPrefix_star _)) in H; eauto.
Qed.

Lemma Index_star_Some p i :
  Index p [wildcard] = Some i ->
  literal (take i p) /\ p = take i p ++ wildcard :: drop (S i) p /\ length (take i p) = i.
Proof.
  intros (Hle & Hp & Hj)%Index_Some. apply HasPrefix_star in Hp as [r Hr].
  split; [|split].
  - intros [j Hlk]%list_elem_of_lookup. apply lookup_take_Some in Hlk as [Hlk Hlt].
    specialize (Hj j Hlt). rewrite (drop_S _ _ _ Hlk) in Hj.
    by rewrite (proj2 (HasPrefix_star _)) in Hj; eauto.
  - rewrite <- (take_drop i p) at 1. f_equal. rewrite Hr. f_equal.
    replace (S i) with (i + 1)%nat by lia. by rewrite <- drop_drop, Hr.
  - apply length_take_le. lia.
Qed.

(** ** Facts about [glob] *)

Lemma glob_literal_app p q t :
  literal p -> glob (p ++ q) t <-> exists r, t = p ++ r /\ glob q r.
Proof.
  revert t. induction p as [|c p IH]; intros t Hp; simpl.
  - split; [eauto|by intros (r & -> & H)].
  - unfold literal in Hp. apply not_elem_of_cons in Hp as [Hc Hp]. split.
    + inversion 1; subst; [|done..]. match goal with H : glob (p ++ q) _ |- _ => apply IH in H end.
      * naive_solver.
      * done.
    + intros (r & -> & H). constructor; [done|]. apply IH; eauto.
Qed.

Lemma glob_literal p t : literal p -> glob p t <-> t = p.
Proof.
  intros Hp. rewrite <- (app_nil_r p) at 1. rewrite glob_literal_app by done. split.
  - intros (r & -> & H). inversion H. by rewrite app_nil_r.
  - intros ->. exists []. rewrite app_nil_r. by split; [|constructor].
Qed.

(** A star may take any prefix of the target. *)
Lemma glob_star p t : glob (wildcard :: p) t <-> exists a r, t = a ++ r /\ glob p r.
Proof.
  split.
  - remember (wildcard :: p) as wp eqn:E. induction 1 as [|c ? ? Hc|p' t' H|c p' t' H IH];
      simplify_eq.
    + by exists [], t'.
    + destruct (IH eq_refl) as (a & r & -> & Hr). by exists (c :: a), r.
  - intros (a & r & -> & H). induction a as [|c a IH]; simpl; [by constructor|].
    by apply glob_eat.
Qed.

Lemma glob_star_app p a r : glob (wildcard :: p) r -> glob (wildcard :: p) (a ++ r).
Proof.
  rewrite !glob_star. intros (b & s & -> & H). exists (a ++ b), s. by rewrite <- app_assoc.
Qed.

Lemma glob_star_star p t : glob (wildcard :: wildcard :: p) t <-> glob (wildcard :: p) t.
Proof.
  split; [|apply glob_skip].
  intros (a & r & -> & H)%glob_star. by apply glob_star_app.
Qed.

Lemma glob_only_star t : glob [wildcard] t.
Proof. apply glob_star. exists t, []. rewrite app_nil_r. by split; [|constructor]. Qed.

Lemma glob_star_literal p t : literal p -> glob (wildcard :: p) t <-> HasSuffix t p = true.
Proof.
  intros Hp. rewrite glob_star, HasSuffix_spec. split.
  - intros (a & r & -> & ->%glob_literal); eauto.
  - intros [r ->]. exists r, p. by rewrite glob_literal.
Qed.

(** Matching a literal at its first occurrence leaves the longest rest, so a
    match with a later occurrence gives one with the first. *)
Lemma glob_first_occurrence p q t j :
  literal p -> Index t p = Some j ->
  glob (wildcard :: p ++ wildcard :: q) t <-> glob (wildcard :: q) (drop (j + length p) t).
Proof.
  intros Hp (Hle & Hpre & Hmin)%Index_Some. rewrite glob_star.
  apply HasPrefix_spec in Hpre as [s Hs]. split.
  - intros (a & r & -> & Hr). apply glob_literal_app in Hr as (r' & -> & Hr'); [|done].
    assert (j <= length a)%nat as Hja.
    { destruct (decide (length a < j)%nat) as [Hlt|]; [|lia]. specialize (Hmin _ Hlt).
      rewrite drop_app_length in Hmin. by rewrite (proj2 (HasPrefix_spec _ _)) in Hmin; eauto. }
    rewrite app_assoc. rewrite drop_app_le by (rewrite length_app; lia).
    by apply glob_star_app.
  - intros H. exists (take j t), (drop j t). rewrite take_drop. split; [done|].
    rewrite glob_literal_app by done. exists s. split; [done|].
    by rewrite <- drop_drop, Hs, drop_app_length in H.
Qed.

Lemma glob_no_occurrence p q t :
  literal p -> Index t p = None -> ~ glob (wildcard :: p ++ wildcard :: q) t.
Proof.
  intros Hp Hnone (a & r & -> & Hr)%glob_star.
  apply glob_literal_app in Hr as (r' & -> & _); [|done].
  apply (Index_None _ _) with (j := length a) in Hnone. rewrite drop_app_length in Hnone.
  by rewrite (proj2 (HasPrefix_spec _ _)) in Hnone; eauto.
Qed.

(** ** The loop *)

(** After the first wildcard the loop decides the pattern with a star before it. *)
Lemma match_loop_rest fuel n p t :
  (length p < fuel)%nat ->
  exists b, match_loop fuel (S n) p t = Ok b /\ (b = true <-> glob (wildcard :: p) t).
Proof.
  revert n p t. induction fuel as [|fuel IH]; intros n p t Hf; [lia|]. cbn [match_loop].
  case_bool_decide as Hw.
  { subst. exists true. split; [done|]. split; [|done]. intros _. rewrite glob_star_star.
    apply glob_only_star. }
  cbn [bool_decide decide_rel]. rewrite bool_decide_eq_false_2 by done.
  destruct (Index p [wildcard]) as [i|] eqn:Ei.
  - apply Index_star_Some in Ei as (Hlit & Hp & Hlen).
    assert (length (drop (S i) p) < fuel)%nat as Hrest.
    { rewrite Hp, length_app in Hf. cbn [length] in Hf. lia. }
    destruct i as [|i].
    + destruct (IH (S n) (drop 1 p) t Hrest) as (b & Hb & Hg). exists b. split; [done|].
      rewrite take_0 in Hp. cbn [app] in Hp. rewrite Hg. rewrite Hp at 2. by rewrite glob_star_star.
    + destruct (Index t (take (S i) p)) as [j|] eqn:Ej.
      * destruct (IH (S n) (drop (S (S i)) p) (drop (j + S i) t) Hrest) as (b & Hb & Hg).
        exists b. split; [done|]. rewrite Hg. rewrite Hp at 2.
        by rewrite (glob_first_occurrence _ _ _ j), Hlen.
      * exists false. split; [done|]. split; [done|]. rewrite Hp.
        by intros ?%glob_no_occurrence.
  - exists (HasSuffix t p). split; [done|].
    by rewrite glob_star_literal by (by apply Index_star_None).
Qed.

Lemma Match_glob pattern target :
  exists b, Match pattern target = Ok b /\ (b = true <-> glob pattern target).
Proof.
  unfold Match. cbn [match_loop]. case_bool_decide as Hw.
  { subst. exists true. split; [done|]. split; [|done]. intros _. apply glob_only_star. }
  rewrite bool_decide_eq_true_2 by done.
  destruct (Index pattern [wildcard]) as [i|] eqn:Ei.
  - apply Index_star_Some in Ei as (Hlit & Hp & Hlen).
    assert (length (drop (S i) pattern) < length pattern)%nat as Hrest.
    { rewrite Hp at 2. rewrite length_app. cbn [length]. lia. }
    destruct i as [|i].
    + destruct (match_loop_rest (length pattern) 0 (drop 1 pattern) target Hrest) as (b & Hb & Hg).
      exists b. split; [done|]. rewrite take_0 in Hp. cbn [app] in Hp. rewrite Hg. by rewrite Hp at 2.
    + destruct (HasPrefix target (take (S i) pattern)) eqn:E; cbn [negb].
      * destruct (match_loop_rest (length pattern) 0 (drop (S (S i)) pattern)
          (drop (S i) target) Hrest) as (b & Hb & Hg).
        exists b. split; [done|]. rewrite Hg. rewrite Hp at 2. rewrite glob_literal_app by done.
        apply HasPrefix_spec in E as [r ->]. rewrite drop_app_length' by done.
        split; [eauto|]. by intros (r' & ->%app_inv_head & H).
      * exists false. split; [done|]. split; [done|]. rewrite Hp, glob_literal_app by done.
        intros (r & -> & _). by rewrite (proj2 (HasPrefix_spec _ _)) in E; eauto.
  - exists (bool_decide (pattern = target)). split; [done|].
    rewrite bool_decide_eq_true, glob_literal by (by apply Index_star_None). naive_solver.
Qed.

(** C36: [Match] always returns, and it returns [true] exactly when the target
    matches the pattern in the declarative sense, where a star stands for any
    sequence of bytes. *)
Theorem Match_correct pattern target :
  exists b, Match pattern target = Ok b /\ (b = true <-> glob pattern target).
Proof. apply Match_glob. Qed.
