(* ===== verification/Lookups.v ===== *)
(** * Port lists, subnet lists and string lists

    Models src/psiphon/common/portlist.go ([PortList]), subnet.go
    ([SubnetLookup]) and lookup.go ([StringLookup], [StringValueLookup]), the
    three lookup structures used by the traffic rules, the tactics filters, OSL
    seeding and the in-proxy matcher.

    Each one has a representation chosen for speed; the theorems say that the
    representation does not show: a lookup answers as the list it was made of. *)

From Stdlib Require Import ZArith Lia Strings.Byte.
From stdpp Require Import base gmap list sets strings sorting numbers.
From S2P Require Import Prelude.
#[local] Open Scope Z_scope.

(** ** portlist.go *)

Module PortList.

Record PortList := {
  portRanges : list (Z * Z);
  lookup : option (gmap Z bool)
}.

Definition lookupThreshold : nat := 10.

(** [for i := portRange[0]; i <= portRange[1]; i++ { p.lookup[i] = true }] *)
Definition add_range (m : gmap Z bool) (portRange : Z * Z) : gmap Z bool :=
  foldl (fun m i => <[i := true]> m) m (seqZ portRange.1 (portRange.2 - portRange.1 + 1)).

(** A method on a nil pointer is a method on [None]. *)
Definition OptimizeLookups (p : option PortList) : option PortList :=
  match p with
  | None => None
  | Some p =>
      if decide (lookupThreshold < length (portRanges p))%nat then
        Some {| portRanges := portRanges p;
                lookup := Some (foldl add_range ∅ (portRanges p)) |}
      else Some p
  end.

Definition IsEmpty (p : option PortList) : bool :=
  match p with
  | None => true
  | Some p => bool_decide (length (portRanges p) = 0%nat)
  end.

Definition Lookup (p : option PortList) (port : Z) : bool :=
  match p with
  | None => false
  | Some p =>
      match lookup p with
      | Some m => default false (m !! port)
      | None => existsb (fun r => (r.1 <=? port) && (port <=? r.2)) (portRanges p)
      end
  end.

(** A decoded JSON value: a number is [None] when its text is not a 64-bit
    integer, so that [Int64] fails. *)
Inductive json :=
| JNumber (n : option Z)
| JArray (l : list json)
| JOther.

Definition Int64 (n : option Z) : res Z :=
  match n with Some z => Ok z | None => Err "strconv.ParseInt" end.

Definition number (j : json) : res Z :=
  match j with JNumber n => Int64 n | _ => Err "invalid type" end.

(** The body of the loop over the array: the ports of one entry. *)
Definition unmarshal_range (j : json) : res (Z * Z) :=
  '(startPort, endPort) ←
    match j with
    | JNumber n => port ← Int64 n; Ok (port, port)
    | JArray l =>
        match l with
        | [a; b] => startPort ← number a; endPort ← number b; Ok (startPort, endPort)
        | _ => Err "invalid range size"
        end
    | JOther => Err "invalid type"
    end;
  if bool_decide (startPort < 1) || bool_decide (65535 < startPort) then Err "invalid range start"
  else if bool_decide (endPort < 1) || bool_decide (65535 < endPort) ||
          bool_decide (endPort < startPort) then Err "invalid range end"
  else Ok (startPort, endPort).

(** The loop fills a slice made at its full length, so the entries after one
    that is refused stay [{0, 0}]. *)
Fixpoint unmarshal_loop (array : list json) : list (Z * Z) * option string :=
  match array with
  | [] => ([], None)
  | j :: array =>
      match unmarshal_range j with
      | Ok r => let '(rs, e) := unmarshal_loop array in (r :: rs, e)
      | Err e => ((0, 0) :: map (fun _ => (0, 0)) array, Some e)
      | Panic e => ((0, 0) :: map (fun _ => (0, 0)) array, Some e)
      | NoFuel => ((0, 0) :: map (fun _ => (0, 0)) array, Some ""%string)
      end
  end.

(** The input: [null], a text the decoder refuses, or the array decoded. *)
Inductive input := Null | Malformed (e : string) | Array (array : list json).

Definition UnmarshalJSON (b : input) : PortList * option string :=
  match b with
  | Null => ({| portRanges := []; lookup := None |}, None)
  | Malformed e => ({| portRanges := []; lookup := None |}, Some e)
  | Array array =>
      let '(rs, e) := unmarshal_loop array in
      ({| portRanges := rs; lookup := None |}, e)
  end.

(** *** Properties *)

Definition in_range (port : Z) (r : Z * Z) : Prop := r.1 <= port <= r.2.

Lemma add_range_lookup m r port :
  add_range m r !! port = Some true <-> m !! port = Some true \/ in_range port r.
Proof.
  unfold add_range, in_range.
  assert (forall l m, foldl (fun (m : gmap Z bool) i => <[i := true]> m) m l !! port = Some true <->
    m !! port = Some true \/ port ∈ l) as H.
  { induction l as [|i l IH]; intros m'; cbn [foldl]; [set_solver|].
    rewrite IH, lookup_insert_Some, elem_of_cons. destruct (decide (i = port)); naive_solver. }
  rewrite H, elem_of_seqZ. destruct r as [a b]; simpl. intuition lia.
Qed.

Lemma add_ranges_lookup rs m port :
  foldl add_range m rs !! port = Some true <->
  m !! port = Some true \/ exists r, r ∈ rs /\ in_range port r.
Proof.
  revert m. induction rs as [|r rs IH]; intros m; cbn [foldl]; [set_solver|].
  rewrite IH, add_range_lookup. set_solver.
Qed.

Lemma Lookup_linear rs port :
  Lookup (Some {| portRanges := rs; lookup := None |}) port = true <->
  exists r, r ∈ rs /\ in_range port r.
Proof.
  cbn [Lookup lookup portRanges]. rewrite existsb_exists. unfold in_range.
  setoid_rewrite andb_true_iff. setoid_rewrite Z.leb_le. setoid_rewrite list_elem_of_In. done.
Qed.

Lemma Lookup_map m rs port :
  Lookup (Some {| portRanges := rs; lookup := Some m |}) port = true <-> m !! port = Some true.
Proof. simpl. destruct (m !! port) as [[]|]; naive_solver. Qed.

Lemma OptimizeLookups_lookup p port :
  (forall q, p = Some q -> lookup q = None) -> Lookup (OptimizeLookups p) port = Lookup p port.
Proof.
  destruct p as [[rs lk]|]; [|done]. intros Hlk. specialize (Hlk _ eq_refl). simpl in Hlk. subst.
  cbn [OptimizeLookups portRanges]. destruct (decide _); [|done].
  apply eq_true_iff_eq. rewrite Lookup_map, Lookup_linear, add_ranges_lookup. set_solver.
Qed.

Definition valid_range (r : Z * Z) : Prop := 1 <= r.1 /\ r.1 <= r.2 /\ r.2 <= 65535.

Lemma unmarshal_range_valid j r : unmarshal_range j = Ok r -> valid_range r.
Proof.
  unfold unmarshal_range. intros ([a b] & _ & H)%res_bind_ok.
  destruct (bool_decide _ || bool_decide _) eqn:E1; [done|].
  destruct (bool_decide (b < 1) || _ || _) eqn:E2; [done|]. injection H as <-.
  rewrite !orb_false_iff, !bool_decide_eq_false in *. unfold valid_range. simpl. lia.
Qed.

Lemma unmarshal_loop_ok array rs :
  unmarshal_loop array = (rs, None) -> Forall2 (fun j r => unmarshal_range j = Ok r) array rs.
Proof.
  revert rs. induction array as [|j array IH]; intros rs; cbn [unmarshal_loop]; [by intros [= <-]|].
  destruct (unmarshal_range j) eqn:E; [|done..].
  destruct (unmarshal_loop array) as [rs' e]. intros [= <- ->]. constructor; auto.
Qed.

(** A port list read from its configuration holds only valid ranges, and a
    lookup finds exactly the ports of the configured entries, before and after
    the list is turned into a map: port 0 and ports over 65535 are never
    found. *)
Theorem UnmarshalJSON_Lookup array p port :
  UnmarshalJSON (Array array) = (p, None) ->
  Lookup (OptimizeLookups (Some p)) port = Lookup (Some p) port /\
  (Lookup (Some p) port = true <->
   exists j r, j ∈ array /\ unmarshal_range j = Ok r /\ in_range port r) /\
  (Lookup (Some p) port = true -> 1 <= port <= 65535).
Proof.
  unfold UnmarshalJSON. destruct (unmarshal_loop array) as [rs e] eqn:E. intros [= <- ->].
  apply unmarshal_loop_ok in E. split_and!.
  - apply OptimizeLookups_lookup. by intros q [= <-].
  - rewrite Lookup_linear. split.
    + intros (r & (i & Hi)%list_elem_of_lookup & Hin).
      destruct (Forall2_lookup_r _ _ _ _ _ E Hi) as (j & Hj & Hr).
      eauto 6 using list_elem_of_lookup_2.
    + intros (j & r & (i & Hi)%list_elem_of_lookup & Hr & Hin).
      destruct (Forall2_lookup_l _ _ _ _ _ E Hi) as (r' & Hr' & ?).
      assert (r = r') as -> by congruence. eauto using list_elem_of_lookup_2.
  - rewrite Lookup_linear. intros (r & (i & Hi)%list_elem_of_lookup & Hin).
    destruct (Forall2_lookup_r _ _ _ _ _ E Hi) as (j & _ & Hr%unmarshal_range_valid).
    unfold valid_range, in_range in *. lia.
Qed.

Lemma UnmarshalJSON_Lookup_witness :
  exists p, UnmarshalJSON (Array [JNumber (Some 22); JArray [JNumber (Some 80); JNumber (Some 90)]])
    = (p, None) /\
  Lookup (OptimizeLookups (Some p)) 85 = Lookup (Some p) 85 /\ Lookup (Some p) 85 = true.
Proof.
  eexists. split; [reflexivity|].
  destruct (UnmarshalJSON_Lookup [JNumber (Some 22); JArray [JNumber (Some 80); JNumber (Some 90)]]
    _ 85 eq_refl) as [H _].
  split; [exact H|reflexivity].
Defined.

End PortList.

(** ** lookup.go *)

Module Strings.

Definition stringLookupThreshold : nat := 5.

Record StringLookup := {
  sl_list : list string;
  sl_lookup : option (gset string)
}.

Definition NewStringLookup (l : list string) : StringLookup :=
  if decide (stringLookupThreshold <= length l)%nat then
    {| sl_list := []; sl_lookup := Some (foldl (fun m item => {[item]} ∪ m) ∅ l) |}
  else {| sl_list := l; sl_lookup := None |}.

Definition Contains (lookup : StringLookup) (target : string) : bool :=
  match sl_lookup lookup with
  | Some m => bool_decide (target ∈ m)
  | None => bool_decide (target ∈ sl_list lookup)
  end.

Record StringValueLookup (T : Type) := {
  keys : list string;
  values : list T;
  svl_lookup : option (gmap string T)
}.
Arguments keys {T}.
Arguments values {T}.
Arguments svl_lookup {T}.

Definition NewStringValueLookup {T} (ks : list string) (vs : list T)
  : res (StringValueLookup T) :=
  if decide (length ks <> length vs) then Err "invalid input"
  else if decide (stringLookupThreshold <= length ks)%nat then
    Ok {| keys := []; values := [];
          svl_lookup := Some (foldl (fun m kv => <[kv.1 := kv.2]> m) ∅ (zip ks vs)) |}
  else Ok {| keys := ks; values := vs; svl_lookup := None |}.

(** The linear search; the value is at the index of the key. *)
Fixpoint get_loop {T} (ks : list string) (vs : list T) (key : string) : option T :=
  match ks, vs with
  | k :: ks, v :: vs => if decide (k = key) then Some v else get_loop ks vs key
  | _, _ => None
  end.

Definition Get {T} (lookup : StringValueLookup T) (key : string) : option T :=
  match svl_lookup lookup with
  | Some m => m !! key
  | None => get_loop (keys lookup) (values lookup) key
  end.

(** *** Properties *)

Lemma foldl_union_elem (l : list string) (m : gset string) x :
  x ∈ foldl (fun m item => {[item]} ∪ m) m l <-> x ∈ m \/ x ∈ l.
Proof. revert m. induction l as [|y l IH]; intros m; cbn [foldl]; [set_solver|]. rewrite IH. set_solver. Qed.

Lemma Contains_spec l target :
  Contains (NewStringLookup l) target = bool_decide (target ∈ l).
Proof.
  unfold NewStringLookup, Contains. destruct (decide _); simpl; [|done].
  apply bool_decide_ext. rewrite foldl_union_elem. set_solver.
Qed.

Lemma foldl_insert_lookup {T} (kvs : list (string * T)) m key :
  NoDup kvs.*1 ->
  foldl (fun (m : gmap string T) kv => <[kv.1 := kv.2]> m) m kvs !! key =
  match get_loop kvs.*1 kvs.*2 key with Some v => Some v | None => m !! key end.
Proof.
  revert m. induction kvs as [|[k v] kvs IH]; intros m Hnd; cbn [foldl fmap list_fmap get_loop fst snd];
    [done|]. apply list.NoDup_cons in Hnd as [Hk Hnd]. rewrite IH by done.
  destruct (decide (k = key)) as [->|Hne].
  - assert (get_loop kvs.*1 kvs.*2 key = None) as ->.
    { clear -Hk. induction kvs as [|[k w] kvs IH]; [done|].
      apply not_elem_of_cons in Hk as [Hne Hk]. cbn [get_loop fmap list_fmap fst snd].
      rewrite decide_False by done. by apply IH. }
    by rewrite lookup_insert_eq.
  - by rewrite lookup_insert_ne by done.
Qed.

Lemma get_loop_elem {T} ks (vs : list T) key v :
  get_loop ks vs key = Some v -> exists i, ks !! i = Some key /\ vs !! i = Some v.
Proof.
  revert vs. induction ks as [|k ks IH]; intros [|w vs]; cbn [get_loop]; [done..|].
  destruct (decide (k = key)) as [->|].
  - intros [= ->]. by exists O.
  - intros (i & ? & ?)%IH. by exists (S i).
Qed.

Lemma get_loop_lookup {T} ks (vs : list T) key v i :
  NoDup ks -> ks !! i = Some key -> vs !! i = Some v -> get_loop ks vs key = Some v.
Proof.
  revert vs i. induction ks as [|k ks IH]; intros [|w vs] [|i] Hnd Hk Hv;
    cbn [get_loop]; try done; simpl in *; simplify_eq.
  - by rewrite decide_True.
  - apply list.NoDup_cons in Hnd as [Hn Hnd]. rewrite decide_False; [by eapply IH|].
    intros ->. apply Hn. by eapply list_elem_of_lookup_2.
Qed.

(** With unique keys, as the documentation asks, a value lookup returns the
    value at the index of the key, and nothing for another key, whichever of the
    two representations the number of keys selects. *)
Theorem Get_spec {T} ks (vs : list T) lookup key :
  NewStringValueLookup ks vs = Ok lookup -> NoDup ks ->
  forall v, Get lookup key = Some v <-> exists i, ks !! i = Some key /\ vs !! i = Some v.
Proof.
  unfold NewStringValueLookup. destruct (decide _) as [|Hlen]; [done|]. intros H Hnd v.
  assert (length ks = length vs) as Hl by (destruct (decide (length ks = length vs)); tauto).
  assert (Get lookup key = get_loop ks vs key) as ->.
  { destruct (decide _) in H; injection H as <-; unfold Get; cbn [svl_lookup keys values]; [|done].
    rewrite foldl_insert_lookup by (by rewrite fst_zip by lia).
    rewrite fst_zip, snd_zip by lia. by destruct (get_loop _ _ _). }
  split; [apply get_loop_elem|]. intros (i & ? & ?). by eapply get_loop_lookup.
Qed.

Lemma Get_spec_witness :
  exists lookup, NewStringValueLookup ["a"; "b"; "c"; "d"; "e"]%string [1; 2; 3; 4; 5] = Ok lookup /\
    (forall v, Get lookup "d" = Some v <->
       exists i, ["a"; "b"; "c"; "d"; "e"]%string !! i = Some "d"%string /\
                 [1; 2; 3; 4; 5] !! i = Some v).
Proof.
  eexists. split; [reflexivity|].
  apply (Get_spec ["a"; "b"; "c"; "d"; "e"]%string [1; 2; 3; 4; 5] _ "d" eq_refl).
  apply (bool_decide_unpack _). vm_compute. exact I.
Defined.

End Strings.

(** ** subnet.go *)

Module Subnet.

(** An [net.IP] is its bytes (nil is empty); a [net.IPNet] has an address and a
    mask. *)
Record IPNet := { IP : bytes; Mask : bytes }.

Definition v4InV6Prefix : bytes := replicate 10 x00 ++ [xff; xff].

(** [net.IP.To4] *)
Definition To4 (ip : bytes) : bytes :=
  if decide (length ip = 4%nat) then ip
  else if decide (length ip = 16%nat /\ take 12 ip = v4InV6Prefix) then drop 12 ip
  else [].

Definition band (a b : byte) : byte := z2b (Z.land (b2z a) (b2z b)).

(** [net.IP.Mask] *)
Definition IP_Mask (ip mask : bytes) : bytes :=
  let mask :=
    if decide (length mask = 16%nat /\ length ip = 4%nat /\ take 12 mask = replicate 12 xff)
    then drop 12 mask else mask in
  let ip :=
    if decide (length mask = 4%nat /\ length ip = 16%nat /\ take 12 ip = v4InV6Prefix)
    then drop 12 ip else ip in
  if decide (length ip <> length mask) then [] else zip_with band ip mask.

(** [net.IP.Equal] *)
Definition IP_Equal (ip x : bytes) : bool :=
  if decide (length ip = length x) then bool_decide (ip = x)
  else if decide (length ip = 4%nat /\ length x = 16%nat) then
    bool_decide (take 12 x = v4InV6Prefix) && bool_decide (ip = drop 12 x)
  else if decide (length ip = 16%nat /\ length x = 4%nat) then
    bool_decide (take 12 ip = v4InV6Prefix) && bool_decide (drop 12 ip = x)
  else false.

(** [net.IPNet.Contains]; the address and the mask of a network have one length. *)
Definition IPNet_Contains (n : IPNet) (ip : bytes) : bool :=
  let nn := if decide (To4 (IP n) = []) then IP n else To4 (IP n) in
  let m := if decide (length (Mask n) = 16%nat /\ length nn = 4%nat) then drop 12 (Mask n) else Mask n in
  let ip := if decide (To4 ip = []) then ip else To4 ip in
  bool_decide (length ip = length nn) &&
  bool_decide (zip_with band nn m = zip_with band ip m).

(** [binary.BigEndian.Uint32], which panics on fewer than four bytes. *)
Definition BigEndian_Uint32 (b : bytes) : res Z :=
  if decide (length b < 4)%nat then Panic "index out of range"
  else Ok (le_load (rev (take 4 b))).

(** [sort.Search]: the smallest index for which [f] holds. *)
Fixpoint search_loop (fuel i j : nat) (f : nat -> res bool) : res nat :=
  match fuel with
  | O => NoFuel
  | S fuel =>
      if decide (i < j)%nat then
        let h := ((i + j) / 2)%nat in
        b ← f h;
        if negb b then search_loop fuel (S h) j f else search_loop fuel i h f
      else Ok i
  end.

Definition Search (n : nat) (f : nat -> res bool) : res nat := search_loop (S n) 0 n f.

Definition Less (a b : IPNet) : res bool :=
  x ← BigEndian_Uint32 (IP a);
  y ← BigEndian_Uint32 (IP b);
  Ok (x <? y).

Definition ContainsIPAddress (lookup : list IPNet) (addr : bytes) : res bool :=
  let ipv4 := To4 addr in
  if decide (ipv4 = []) then Ok false
  else
    addrValue ← BigEndian_Uint32 ipv4;
    index ← Search (length lookup) (fun i =>
      net ← res_of_option "index out of range" (lookup !! i);
      networkValue ← BigEndian_Uint32 (IP net);
      Ok (addrValue <? networkValue));
    match index with
    | O => Ok false
    | S k =>
        net ← res_of_option "index out of range" (lookup !! k);
        Ok (IP_Equal (IP net) (IP_Mask addr (Mask net)))
    end.

(** [NewSubnetLookup]: [ParseCIDR] gives the network of a text and [sort] is
    [sort.Sort] with [Less]. *)
Definition NewSubnetLookup (ParseCIDR : string -> res IPNet) (sort : list IPNet -> list IPNet)
    (CIDRs : list string) : res (list IPNet) :=
  subnets ← mapM ParseCIDR CIDRs;
  Ok (sort subnets).

(** *** Binary search *)

Lemma search_loop_spec f g fuel i j :
  (forall k, (i <= k < j)%nat -> f k = Ok (g k)) -> (i <= j)%nat -> (j - i < fuel)%nat ->
  exists r, search_loop fuel i j f = Ok r /\ (i <= r <= j)%nat /\
    ((i < r)%nat -> g (r - 1)%nat = false) /\ ((r < j)%nat -> g r = true).
Proof.
  revert i j. induction fuel as [|fuel IH]; intros i j Hf Hij Hfuel; [lia|]. cbn [search_loop].
  destruct (decide (i < j)%nat) as [Hlt|].
  2:{ exists i. split; [done|]. split; [lia|]. split; lia. }
  pose proof (Nat.div_mod_eq (i + j) 2). pose proof (Nat.mod_upper_bound (i + j) 2 ltac:(lia)).
  set (h := ((i + j) / 2)%nat) in *. rewrite (Hf h) by lia. unfold mbind, res_mbind.
  destruct (g h) eqn:Eg; cbn [negb].
  - destruct (IH i h) as (r & Hr & Hb & H1 & H2); [intros; apply Hf; lia|lia..|].
    exists r. split; [done|]. split; [lia|]. split; [done|]. intros _.
    destruct (decide (r = h)) as [->|]; [done|]. apply H2. lia.
  - destruct (IH (S h) j) as (r & Hr & Hb & H1 & H2); [intros; apply Hf; lia|lia..|].
    exists r. split; [done|]. split; [lia|]. split; [|done]. intros _.
    destruct (decide (r = S h)) as [->|]; [by replace (S h - 1)%nat with h by lia|].
    apply H1. lia.
Qed.

(** *** Networks as intervals *)

(** The value of a four-byte address. *)
Definition be (b : bytes) : Z := le_load (rev b).

Definition contains (net : IPNet) (addr : bytes) : Prop := zip_with band addr (Mask net) = IP net.

(** An IPv4 network as [ParseCIDR] makes it: a prefix mask, and an address with no
    bit outside of it. *)
Definition valid4 (net : IPNet) : Prop :=
  length (IP net) = 4%nat /\ length (Mask net) = 4%nat /\ contains net (IP net) /\
  exists h, 0 <= h <= 32 /\ be (Mask net) = 2 ^ 32 - 2 ^ h.

Lemma b2z_band a b : b2z (band a b) = Z.land (b2z a) (b2z b).
Proof.
  unfold band. rewrite b2z_z2b. apply Z.mod_small.
  apply (land_bound _ _ 8); [lia|]. apply b2z_range.
Qed.

Lemma land_byte_step a b c d :
  0 <= a < 256 -> 0 <= c < 256 ->
  Z.land (a + 256 * b) (c + 256 * d) = Z.land a c + 256 * Z.land b d.
Proof.
  intros Ha Hc. rewrite (land_split 8) by lia. change (2 ^ 8) with 256.
  rewrite !(Z.mul_comm 256), !Z.mod_add, !Z.div_add, (Z.mod_small a), (Z.mod_small c),
    (Z.div_small a), (Z.div_small c) by lia. by rewrite !Z.add_0_l.
Qed.

Lemma be_band a m :
  length a = 4%nat -> length m = 4%nat -> be (zip_with band a m) = Z.land (be a) (be m).
Proof.
  intros Ha Hm. destruct a as [|a0 [|a1 [|a2 [|a3 [|]]]]]; try discriminate.
  destruct m as [|m0 [|m1 [|m2 [|m3 [|]]]]]; try discriminate.
  unfold be. cbn [zip_with rev app le_load]. rewrite !b2z_band.
  pose proof b2z_range. rewrite !land_byte_step by done. by rewrite Z.land_0_l.
Qed.

Lemma be_range a : length a = 4%nat -> 0 <= be a < 2 ^ 32.
Proof. intros Ha. unfold be. pose proof (le_load_range (rev a)) as H. by rewrite length_rev, Ha in H. Qed.

Lemma be_inj a b : length a = 4%nat -> length b = 4%nat -> be a = be b -> a = b.
Proof.
  intros Ha Hb. destruct a as [|a0 [|a1 [|a2 [|a3 [|]]]]]; try discriminate.
  destruct b as [|b0 [|b1 [|b2 [|b3 [|]]]]]; try discriminate.
  unfold be. cbn [rev app le_load]. intros E.
  pose proof (b2z_range a0); pose proof (b2z_range a1); pose proof (b2z_range a2);
    pose proof (b2z_range a3); pose proof (b2z_range b0); pose proof (b2z_range b1);
    pose proof (b2z_range b2); pose proof (b2z_range b3).
  assert (b2z a3 = b2z b3) by lia. assert (b2z a2 = b2z b2) by lia.
  assert (b2z a1 = b2z b1) by lia. assert (b2z a0 = b2z b0) by lia.
  by repeat f_equal; apply b2z_inj.
Qed.

Lemma land_prefix x h : 0 <= h <= 32 -> 0 <= x < 2 ^ 32 ->
  Z.land x (2 ^ 32 - 2 ^ h) = 2 ^ h * (x / 2 ^ h).
Proof.
  intros Hh Hx. assert (0 < 2 ^ h) by (apply Z.pow_pos_nonneg; lia).
  assert (2 ^ 32 = 2 ^ (32 - h) * 2 ^ h) as E by (rewrite <- Z.pow_add_r by lia; f_equal; lia).
  rewrite (land_split h) by lia.
  replace (2 ^ 32 - 2 ^ h) with ((2 ^ (32 - h) - 1) * 2 ^ h) by lia.
  rewrite Z.mod_mul, Z.div_mul, Z.land_0_r, Z.add_0_l by lia. f_equal.
  replace (2 ^ (32 - h) - 1) with (Z.ones (32 - h)) by (rewrite Z.ones_equiv; lia).
  rewrite Z.land_ones by lia. apply Z.mod_small. split; [apply Z.div_pos; lia|].
  apply Z.div_lt_upper_bound; lia.
Qed.

(** A network is an interval of addresses that starts at its own. *)
Lemma contains_interval net : valid4 net ->
  exists size, 0 < size /\ forall addr, length addr = 4%nat ->
    contains net addr <-> be (IP net) <= be addr < be (IP net) + size.
Proof.
  intros (Hip & Hm & Hself & h & Hh & Hmask). assert (0 < 2 ^ h) by (apply Z.pow_pos_nonneg; lia).
  exists (2 ^ h). split; [done|]. intros addr Ha.
  assert (be (IP net) = 2 ^ h * (be (IP net) / 2 ^ h)) as Hnet.
  { rewrite <- land_prefix by (done || by apply be_range). by rewrite <- Hmask, <- be_band, Hself. }
  assert (contains net addr <-> be (IP net) = 2 ^ h * (be addr / 2 ^ h)) as ->.
  { rewrite <- land_prefix by (done || by apply be_range). rewrite <- Hmask, <- be_band by done.
    unfold contains. split; [by intros <-|]. intros E. symmetry. apply be_inj; [done| |done].
    rewrite length_zip_with_l_eq; lia. }
  pose proof (Z.div_mod (be addr) (2 ^ h) ltac:(lia)).
  pose proof (Z.mod_pos_bound (be addr) (2 ^ h) ltac:(lia)).
  split; [lia|]. intros Hb. rewrite Hnet. f_equal.
  apply Z.div_unique_pos with (r := be addr - be (IP net)); lia.
Qed.

(** *** The lookup *)

Definition ip_le (a b : IPNet) : Prop := be (IP a) <= be (IP b).
#[export] Instance ip_le_dec a b : Decision (ip_le a b).
Proof. unfold ip_le. apply _. Defined.
#[export] Instance ip_le_trans : Transitive ip_le.
Proof. intros a b c. unfold ip_le. lia. Qed.
#[export] Instance ip_le_total : Total ip_le.
Proof. intros a b. unfold ip_le. lia. Qed.

Lemma BigEndian_be b : length b = 4%nat -> BigEndian_Uint32 b = Ok (be b).
Proof.
  intros Hb. unfold BigEndian_Uint32. rewrite decide_False by lia. by rewrite take_ge by lia.
Qed.

Lemma To4_cases addr : To4 addr <> [] -> length (To4 addr) = 4%nat.
Proof.
  unfold To4. destruct (decide _); [done|]. destruct (decide _) as [[Hl _]|]; [|done].
  intros _. rewrite length_drop. lia.
Qed.

Lemma IP_Mask_To4 addr mask :
  To4 addr <> [] -> length mask = 4%nat -> IP_Mask addr mask = zip_with band (To4 addr) mask.
Proof.
  intros Ha Hm. unfold IP_Mask. cbv zeta.
  destruct (decide (length mask = 16%nat /\ _)) as [[? _]|_]; [lia|]. unfold To4 in *.
  destruct (decide (length addr = 4%nat)) as [H4|].
  - destruct (decide (length mask = 4%nat /\ _)) as [(_ & ? & _)|_]; [lia|].
    destruct (decide _) as [H|]; [|done]. exfalso. apply H. lia.
  - destruct (decide (length addr = 16%nat /\ _)) as [[Hl Hp]|]; [|done].
    destruct (decide (length mask = 4%nat /\ _)) as [_|H]; [|by destruct H].
    destruct (decide _) as [H|]; [|done]. exfalso. apply H. rewrite length_drop. lia.
Qed.

Lemma IP_Equal_4 a b : length a = 4%nat -> length b = 4%nat -> IP_Equal a b = bool_decide (a = b).
Proof. intros Ha Hb. unfold IP_Equal. by rewrite decide_True by lia. Qed.

(** The search stops just after the last network that does not start above the
    address. *)
Lemma search_networks lookup addr :
  Forall valid4 lookup ->
  exists index, Search (length lookup) (fun i =>
      net ← res_of_option "index out of range" (lookup !! i);
      networkValue ← BigEndian_Uint32 (IP net);
      Ok (be addr <? networkValue)) = Ok index /\ (index <= length lookup)%nat /\
    (forall net, (0 < index)%nat -> lookup !! (index - 1)%nat = Some net -> be (IP net) <= be addr) /\
    (forall net, lookup !! index = Some net -> be addr < be (IP net)).
Proof.
  intros Hv. rewrite Forall_lookup in Hv.
  pose (g := fun i => match lookup !! i with Some net => be addr <? be (IP net) | None => false end).
  edestruct (search_loop_spec (fun i =>
      net ← res_of_option "index out of range" (lookup !! i);
      networkValue ← BigEndian_Uint32 (IP net);
      Ok (be addr <? networkValue)) g (S (length lookup)) 0 (length lookup))
    as (r & Hr & Hb & H1 & H2); [|lia..|].
  - intros k Hk. destruct (lookup_lt_is_Some_2 lookup k) as [net Hnet]; [lia|].
    unfold g. rewrite Hnet. unfold res_of_option, mbind, res_mbind.
    by rewrite BigEndian_be by apply (Hv _ _ Hnet).
  - exists r. split; [exact Hr|]. split; [lia|]. unfold g in *. split.
    + intros net Hpos Hnet. specialize (H1 Hpos). rewrite Hnet in H1. lia.
    + intros net Hnet. pose proof (lookup_lt_Some _ _ _ Hnet) as Hlt. specialize (H2 Hlt).
      rewrite Hnet in H2. lia.
Qed.

(** The search always answers on IPv4 networks. *)
Lemma ContainsIPAddress_total lookup addr :
  Forall valid4 lookup -> exists b, ContainsIPAddress lookup addr = Ok b.
Proof.
  intros Hv. unfold ContainsIPAddress. destruct (decide (To4 addr = [])) as [E|Ha]; [by eexists|].
  rewrite (BigEndian_be _ (To4_cases _ Ha)). cbn [mbind res_mbind].
  destruct (search_networks lookup (To4 addr) Hv) as (index & -> & Hle & _). cbn [mbind res_mbind].
  destruct index as [|k]; [by eexists|].
  destruct (lookup_lt_is_Some_2 lookup k) as [n Hn]; [lia|]. rewrite Hn. by eexists.
Qed.

Lemma sorted_lookup (lookup : list IPNet) i j a b :
  StronglySorted ip_le lookup -> lookup !! i = Some a -> lookup !! j = Some b -> (i <= j)%nat ->
  ip_le a b.
Proof.
  intros Hs. revert i j. induction Hs as [|x l Hs IH Hx]; intros i j Hi Hj Hij; [done|].
  destruct i as [|i], j as [|j]; simpl in *; simplify_eq; [unfold ip_le; lia| |lia|eauto with lia].
  - rewrite Forall_lookup in Hx. eauto.
Qed.

(** Over networks that do not overlap, a network with the address is the one just
    before the index the search returns. *)
Lemma containing_is_last lookup index addr net j :
  StronglySorted ip_le lookup -> (forall i n, lookup !! i = Some n -> valid4 n) ->
  (forall n x, n ∈ lookup -> length x = 4%nat -> contains n x -> contains net x -> n = net) ->
  (index <= length lookup)%nat ->
  (forall n, (0 < index)%nat -> lookup !! (index - 1)%nat = Some n -> be (IP n) <= be addr) ->
  (forall n, lookup !! index = Some n -> be addr < be (IP n)) ->
  lookup !! j = Some net -> length addr = 4%nat -> contains net addr ->
  exists k, index = S k /\ lookup !! k = Some net.
Proof.
  intros Hsort Hv Hdisj Hle Hlo Hhi Hj Hlen Hc.
  destruct (contains_interval net (Hv _ _ Hj)) as (size & Hsize & Hint).
  pose proof (proj1 (Hint _ Hlen) Hc) as Hbe.
  assert (j < index)%nat as Hlt.
  { destruct (decide (j < index)%nat) as [|Hge]; [done|].
    pose proof (lookup_lt_Some _ _ _ Hj).
    destruct (lookup_lt_is_Some_2 lookup index) as [n Hn]; [lia|].
    specialize (Hhi _ Hn). pose proof (sorted_lookup _ _ _ _ _ Hsort Hn Hj ltac:(lia)) as Hs2.
    unfold ip_le in Hs2. lia. }
  destruct index as [|k]; [lia|]. exists k. split; [done|].
  destruct (lookup_lt_is_Some_2 lookup k) as [n Hn]; [lia|].
  specialize (Hlo n ltac:(lia)). rewrite Nat.sub_succ, Nat.sub_0_r in Hlo. specialize (Hlo Hn).
  pose proof (sorted_lookup _ _ _ _ _ Hsort Hj Hn ltac:(lia)) as Hjn.
  unfold ip_le in Hjn. rewrite Hn. f_equal. destruct (Hv _ _ Hn) as (Hl & _ & Hself & _).
  apply (Hdisj n (IP n)); eauto using list_elem_of_lookup_2. apply Hint; [done|lia].
Qed.

Section Correct.
Context (ParseCIDR : string -> res IPNet) (sort : list IPNet -> list IPNet).

(** [ParseCIDR] masks the address it returns, and here is given IPv4 networks;
    [sort.Sort] reorders the list into ascending order. *)
Hypothesis parse_valid : forall s net, ParseCIDR s = Ok net -> valid4 net.
Hypothesis sort_perm : forall l, sort l ≡ₚ l.
Hypothesis sort_sorted : forall l, StronglySorted ip_le (sort l).

(** Over networks that do not overlap, the binary search returns, and finds
    an address exactly when one of the configured networks contains it. *)
Theorem ContainsIPAddress_correct CIDRs lookup addr :
  NewSubnetLookup ParseCIDR sort CIDRs = Ok lookup ->
  (forall s1 s2 n1 n2 x, s1 ∈ CIDRs -> s2 ∈ CIDRs -> ParseCIDR s1 = Ok n1 -> ParseCIDR s2 = Ok n2 ->
     length x = 4%nat -> contains n1 x -> contains n2 x -> n1 = n2) ->
  exists b, ContainsIPAddress lookup addr = Ok b /\
    (b = true <-> To4 addr <> [] /\
       exists s net, s ∈ CIDRs /\ ParseCIDR s = Ok net /\ contains net (To4 addr)).
Proof.
  intros (subnets & Hsub%res_mapM_ok & [= <-])%res_bind_ok Hdisj.
  assert (forall net, net ∈ sort subnets -> exists s, s ∈ CIDRs /\ ParseCIDR s = Ok net) as Hin.
  { intros net. rewrite sort_perm. intros [i Hi]%list_elem_of_lookup.
    destruct (Forall2_lookup_r _ _ _ _ _ Hsub Hi) as (s & Hs & Hp).
    eauto using list_elem_of_lookup_2. }
  assert (Forall valid4 (sort subnets)) as Hv.
  { apply Forall_forall. intros net (s & _ & Hs)%list_elem_of_In%Hin. eauto. }
  unfold ContainsIPAddress. destruct (decide (To4 addr = [])) as [E|Ha].
  { exists false. split; [done|]. split; [done|]. by intros [? _]. }
  pose proof (To4_cases _ Ha) as Hlen. rewrite (BigEndian_be _ Hlen). cbn [mbind res_mbind].
  destruct (search_networks (sort subnets) (To4 addr) Hv) as (index & -> & Hle & Hlo & Hhi).
  cbn [mbind res_mbind]. rewrite Forall_lookup in Hv.
  (* any network with the address is the one just before the index *)
  assert (forall s net, s ∈ CIDRs -> ParseCIDR s = Ok net -> contains net (To4 addr) ->
    exists k, index = S k /\ sort subnets !! k = Some net) as Hlast.
  { intros s net Hs Hp Hc. apply list_elem_of_lookup in Hs as [i Hi].
    destruct (Forall2_lookup_l _ _ _ _ _ Hsub Hi) as (net' & Hnet' & Hp').
    assert (net' = net) as -> by congruence.
    assert (net ∈ sort subnets) as [j Hj]%list_elem_of_lookup.
    { rewrite sort_perm. by eapply list_elem_of_lookup_2. }
    apply (containing_is_last _ _ (To4 addr) _ j); try done.
    intros n x (s2 & Hs2 & Hp2)%Hin Hx Hn Hn2.
    eapply (Hdisj s2 s n net x); eauto using list_elem_of_lookup_2. }
  destruct index as [|k].
  { exists false. split; [done|]. split; [done|]. intros (_ & s & net & Hs & Hp & Hc).
    by destruct (Hlast _ _ Hs Hp Hc) as (? & ? & _). }
  destruct (lookup_lt_is_Some_2 (sort subnets) k) as [n Hn]; [lia|]. rewrite Hn.
  cbn [res_of_option mbind res_mbind]. destruct (Hv _ _ Hn) as (Hl & Hm & _ & _).
  eexists. split; [reflexivity|]. rewrite IP_Mask_To4 by done.
  rewrite IP_Equal_4 by (rewrite ?length_zip_with_l_eq; lia). rewrite bool_decide_eq_true.
  split.
  - intros E. split; [done|]. destruct (Hin n) as (s & Hs & Hp); [by eapply list_elem_of_lookup_2|].
    exists s, n. done.
  - intros (_ & s & net & Hs & Hp & Hc). destruct (Hlast _ _ Hs Hp Hc) as (k' & [= <-] & Hk).
    assert (n = net) as -> by congruence. done.
Qed.
End Correct.

(** Two networks, 10.0.0.0/8 and 192.168.0.0/16. *)
Definition example_parse (s : string) : res IPNet :=
  if decide (s = "10.0.0.0/8"%string) then
    Ok {| IP := [x0a; x00; x00; x00]; Mask := [xff; x00; x00; x00] |}
  else if decide (s = "192.168.0.0/16"%string) then
    Ok {| IP := [xc0; xa8; x00; x00]; Mask := [xff; xff; x00; x00] |}
  else Err "invalid CIDR address".

Lemma example_parse_valid s net : example_parse s = Ok net -> valid4 net.
Proof.
  unfold example_parse. repeat (destruct (decide _); [intros [= <-]|]); [..|done].
  - split_and!; try reflexivity. by exists 24.
  - split_and!; try reflexivity. by exists 16.
Qed.

Lemma ContainsIPAddress_correct_witness :
  exists lookup b,
    NewSubnetLookup example_parse (merge_sort ip_le) ["192.168.0.0/16"; "10.0.0.0/8"]%string
      = Ok lookup /\
    ContainsIPAddress lookup [x0a; x01; x02; x03] = Ok b /\
    (b = true <-> To4 [x0a; x01; x02; x03] <> [] /\
       exists s net, s ∈ ["192.168.0.0/16"; "10.0.0.0/8"]%string /\
         example_parse s = Ok net /\ contains net (To4 [x0a; x01; x02; x03])).
Proof.
  destruct (ContainsIPAddress_correct example_parse (merge_sort ip_le) example_parse_valid
    (merge_sort_Permutation _) (StronglySorted_merge_sort _)
    ["192.168.0.0/16"; "10.0.0.0/8"]%string _ [x0a; x01; x02; x03] eq_refl) as (b & Hb & H).
  - intros s1 s2 n1 n2 x _ _ H1 H2 Hx.
    destruct x as [|a [|b [|c [|d [|]]]]]; try discriminate Hx.
    unfold example_parse, contains in *.
    repeat (destruct (decide _); [|]); simplify_eq; simpl; congruence.
  - eexists _, b. split; [reflexivity|]. split; [exact Hb|exact H].
Defined.

End Subnet.
