(* ===== verification/GoStrings.v ===== *)
(** * Strings and numbers

    What the components use of Go's packages strings and strconv, and the list functions of
    src/psiphon/common/utils.go.  A string is a sequence of bytes; [chars] lists them. *)

From Stdlib Require Import ZArith Lia Strings.Byte Strings.Ascii Strings.String.
From stdpp Require Import base list strings numbers.
From S2P Require Import Prelude.
From S2P Require Import Wildcard.
#[local] Open Scope Z_scope.

(** ** strconv *)

Definition digit (c : ascii) : option Z :=
  let n := Z.of_nat (nat_of_ascii c) in
  if (48 <=? n) && (n <=? 57) then Some (n - 48) else None.

(** [ParseUint(s, 10, 64)] reads the bytes from the left and stops at the first that is
    not a digit or that makes the number too large. *)
Inductive number := Number (n : Z) | ErrSyntax | ErrRange.

Fixpoint parse_uint (acc : Z) (s : string) : number :=
  match s with
  | EmptyString => Number acc
  | String c s =>
      match digit c with
      | None => ErrSyntax
      | Some d => if 2 ^ 64 <=? acc * 10 + d then ErrRange else parse_uint (acc * 10 + d) s
      end
  end.

Definition ParseUint (s : string) : number :=
  match s with EmptyString => ErrSyntax | _ => parse_uint 0 s end.

(** [ParseInt(s, 10, 64)] and [Atoi(s)], which agree where [int] has 64 bits: the value
    and whether there was no error.  The value is 0 after a syntax error and the nearest
    integer after a range error. *)
Definition Atoi (s : string) : Z * bool :=
  let '(neg, digits) :=
    match s with
    | String "+" s => (false, s)
    | String "-" s => (true, s)
    | _ => (false, s)
    end%char in
  let cutoff := 2 ^ 63 in
  match ParseUint digits with
  | ErrSyntax => (0, false)
  | ErrRange => (if neg then - cutoff else cutoff - 1, false)
  | Number n =>
      if negb neg && (cutoff <=? n) then (cutoff - 1, false)
      else if neg && (cutoff <? n) then (- cutoff, false)
      else (if neg then - n else n, true)
  end.

Definition ParseInt (s : string) : option Z :=
  let '(n, ok) := Atoi s in if ok then Some n else None.

Example atoi_ex1 : map Atoi ["42"; "-7"; "+3"; ""; "-"; "1x"; "99999999999999999999x"]%string =
  [(42, true); (-7, true); (3, true); (0, false); (0, false); (0, false); (2 ^ 63 - 1, false)].
Proof. reflexivity. Qed.

Example atoi_ex2 : map Atoi ["9223372036854775807"; "9223372036854775808"; "-9223372036854775808"; "-9223372036854775809"]%string =
  [(2 ^ 63 - 1, true); (2 ^ 63 - 1, false); (- 2 ^ 63, true); (- 2 ^ 63, false)].
Proof. reflexivity. Qed.

Lemma parse_uint_range acc s n : 0 <= acc < 2 ^ 64 -> parse_uint acc s = Number n -> 0 <= n < 2 ^ 64.
Proof.
  revert acc. induction s as [|c s IH]; intros acc Ha; cbn; [by intros [= <-]|].
  destruct (digit c) as [d|] eqn:Ed; [|done]. destruct (2 ^ 64 <=? acc * 10 + d) eqn:E; [done|].
  apply IH. apply Z.leb_gt in E. split; [|lia]. unfold digit in Ed. case_match eqn:Hd; [|done].
  injection Ed as <-. apply andb_true_iff in Hd as [?%Z.leb_le _]. lia.
Qed.

(** The value is always that of a 64-bit integer. *)
Lemma Atoi_range s : - 2 ^ 63 <= (Atoi s).1 < 2 ^ 63.
Proof.
  unfold Atoi. match goal with |- context [let '(_, _) := ?x in _] => destruct x as [neg digits] end.
  destruct (ParseUint digits) as [n| |] eqn:E; cbn; [|lia|destruct neg; lia].
  assert (0 <= n < 2 ^ 64) by (destruct digits; [done|]; apply (parse_uint_range 0 _ _ ltac:(lia) E)).
  destruct neg; cbn [negb andb].
  - destruct (2 ^ 63 <? n) eqn:E'; cbn [fst]; [lia|]. apply Z.ltb_ge in E'. lia.
  - destruct (2 ^ 63 <=? n) eqn:E'; cbn [fst]; [lia|]. apply Z.leb_gt in E'. lia.
Qed.

(** ** strings *)

Abbreviation chars := list_ascii_of_string.

(** [strings.CutPrefix]: what follows the prefix, if it is one. *)
Fixpoint CutPrefix (s prefix : string) {struct prefix} : option string :=
  match prefix, s with
  | EmptyString, _ => Some s
  | String c prefix, String d s => if bool_decide (c = d) then CutPrefix s prefix else None
  | String _ _, EmptyString => None
  end.

Definition string_HasPrefix (s prefix : string) : bool := bool_decide (is_Some (CutPrefix s prefix)).

Lemma CutPrefix_spec s prefix r : CutPrefix s prefix = Some r <-> s = (prefix +:+ r).
Proof.
  revert s. induction prefix as [|c prefix IH]; intros s; cbn.
  { split; [by intros [= ->]|by intros ->]. }
  destruct s as [|d s]; [split; [done|]; intros H; inversion H|]. case_bool_decide as E.
  - subst. rewrite IH. split; [by intros ->|by intros [= ->]].
  - split; [done|]. intros H. injection H. congruence.
Qed.

Lemma string_HasPrefix_spec s prefix : string_HasPrefix s prefix = true <-> exists r, s = (prefix +:+ r).
Proof. unfold string_HasPrefix. rewrite bool_decide_eq_true. by setoid_rewrite <- CutPrefix_spec. Qed.

(** [strings.Split] for a separator of one byte: the parts, of which there is at least one. *)
Fixpoint Split (sep : ascii) (s : list ascii) : list (list ascii) :=
  match s with
  | [] => [[]]
  | c :: s =>
      if bool_decide (c = sep) then [] :: Split sep s
      else match Split sep s with
           | part :: parts => (c :: part) :: parts
           | [] => [[c]]
           end
  end.

(** The parts joined again with the separator. *)
Fixpoint Join (sep : ascii) (parts : list (list ascii)) : list ascii :=
  match parts with
  | [] => []
  | [part] => part
  | part :: parts => part ++ sep :: Join sep parts
  end.

Lemma Split_nonempty sep s : Split sep s <> [].
Proof. destruct s as [|c s]; cbn; [done|]. case_bool_decide; [done|]. by destruct (Split sep s). Qed.

(** The parts of a split are free of the separator and join to the string. *)
Lemma Split_spec sep s :
  Join sep (Split sep s) = s /\ Forall (fun part => sep ∉ part) (Split sep s).
Proof.
  induction s as [|c s [IHj IHf]]; cbn; [split; [done|]; repeat constructor; apply not_elem_of_nil|].
  pose proof (Split_nonempty sep s) as Hne. case_bool_decide as E; subst.
  - split; [|constructor; [apply not_elem_of_nil|done]].
    destruct (Split sep s) as [|p ps] eqn:Es; [done|]. rewrite <- IHj. by destruct ps.
  - destruct (Split sep s) as [|p ps] eqn:Es; [done|]. inversion_clear IHf. split.
    + rewrite <- IHj. by destruct ps.
    + constructor; [|done]. rewrite not_elem_of_cons. by split.
Qed.

(** Whether the bytes occur in the string. *)
Fixpoint occurs (sub s : list ascii) : bool :=
  bool_decide (take (length sub) s = sub) ||
  match s with [] => false | _ :: s => occurs sub s end.

(** ** utils.go *)

Definition list_Contains (l : list string) (target : string) : bool := existsb (fun x => bool_decide (x = target)) l.

Definition ContainsAny (l targets : list string) : bool := existsb (list_Contains l) targets.

Fixpoint ContainsWildcard (patterns : list string) (target : string) : res bool :=
  match patterns with
  | [] => Ok false
  | pattern :: patterns =>
      b ← Match (list_byte_of_string pattern) (list_byte_of_string target);
      if (b : bool) then Ok true else ContainsWildcard patterns target
  end.

Lemma list_Contains_spec l target : list_Contains l target = true <-> target ∈ l.
Proof.
  unfold list_Contains. rewrite existsb_exists, list_elem_of_In.
  split; [intros (x & Hx & <-%bool_decide_eq_true); done|eauto using bool_decide_eq_true_2].
Qed.

Lemma ContainsAny_spec l targets : ContainsAny l targets = true <-> exists x, x ∈ l /\ x ∈ targets.
Proof.
  unfold ContainsAny. rewrite existsb_exists. setoid_rewrite list_Contains_spec.
  setoid_rewrite list_elem_of_In. naive_solver.
Qed.

(** The target matches one of the patterns. *)
Definition matches_any (patterns : list string) (target : string) : Prop :=
  exists pattern, pattern ∈ patterns /\ glob (list_byte_of_string pattern) (list_byte_of_string target).

Lemma ContainsWildcard_spec patterns target :
  exists b, ContainsWildcard patterns target = Ok b /\ (b = true <-> matches_any patterns target).
Proof.
  unfold matches_any. induction patterns as [|p ps (b & Hb & IH)]; cbn [ContainsWildcard].
  { exists false. split; [done|]. split; [done|]. intros (? & []%not_elem_of_nil & _). }
  destruct (Match_glob (list_byte_of_string p) (list_byte_of_string target)) as (b' & -> & Hm). cbn.
  setoid_rewrite elem_of_cons. destruct b'.
  - exists true. split; [done|]. split; [|done]. intros _. exists p. naive_solver.
  - exists b. split; [done|]. rewrite IH. naive_solver.
Qed.
