(* ===== verification/GoEncoding.v ===== *)
(** * Encodings of numbers and bytes

    What the components use of Go's strconv, encoding/hex and encoding/base64, as functions on
    the bytes of strings, and their round trips. *)

From Stdlib Require Import ZArith Lia Strings.Byte Strings.Ascii Strings.String.
From stdpp Require Import base list strings numbers.
From S2P Require Import Prelude.
From S2P Require Import GoStrings.
#[local] Open Scope Z_scope.
#[local] Open Scope list_scope.

Abbreviation to_string := string_of_list_ascii.

Lemma to_string_chars s : to_string (chars s) = s.
Proof. apply string_of_list_ascii_of_string. Qed.

Lemma chars_to_string l : chars (to_string l) = l.
Proof. apply list_ascii_of_string_of_list_ascii. Qed.

(** A function that fails with an error. *)
Definition or_error {A} (e : string) (o : option A) : res A := match o with Some a => Ok a | None => Err e end.

(** A table of characters and its inverse. *)
Section Table.
Context (table : list ascii).

Definition char_of (n : Z) : ascii := nth (Z.to_nat n) table "000"%char.

Fixpoint find_char (c : ascii) (l : list ascii) (i : Z) : option Z :=
  match l with
  | [] => None
  | d :: l => if bool_decide (d = c) then Some i else find_char c l (i + 1)
  end.

Definition value_of (c : ascii) : option Z := find_char c table 0.

Definition table_ok : bool := forallb (fun i => bool_decide (value_of (char_of (Z.of_nat i)) = Some (Z.of_nat i))) (seq 0 (length table)).

Lemma value_of_char n : table_ok = true -> 0 <= n < Z.of_nat (length table) -> value_of (char_of n) = Some n.
Proof.
  intros H Hn. unfold table_ok in H. rewrite forallb_forall in H.
  specialize (H (Z.to_nat n)). rewrite in_seq, Z2Nat.id in H by lia. apply (bool_decide_eq_true_1 (value_of (char_of n) = Some n)), H. lia.
Qed.

End Table.

(** ** strconv *)

Definition decimal : list ascii := chars "0123456789".

Lemma digit_decimal n : 0 <= n < 10 -> digit (char_of decimal n) = Some n.
Proof.
  intros H. assert (forallb (fun i => bool_decide (digit (char_of decimal (Z.of_nat i)) = Some (Z.of_nat i))) (seq 0 10) = true) as Hall by reflexivity.
  rewrite forallb_forall in Hall. specialize (Hall (Z.to_nat n)). rewrite in_seq, Z2Nat.id in Hall by lia.
  apply (bool_decide_eq_true_1 (digit (char_of decimal n) = Some n)), Hall. lia.
Qed.

(** The digits of a number before [acc]; a 64-bit number has at most 20. *)
Fixpoint format_digits (fuel : nat) (n : Z) (acc : string) : string :=
  match fuel with
  | O => acc
  | S fuel =>
      let acc := String (char_of decimal (n mod 10)) acc in
      if n <? 10 then acc else format_digits fuel (n / 10) acc
  end.

Definition FormatUint (n : Z) : string := format_digits 20 n EmptyString.

Definition FormatInt (n : Z) : string := if n <? 0 then String "-" (FormatUint (- n)) else FormatUint n.

Lemma parse_format_digits fuel : forall n acc, 0 <= n < 10 ^ Z.of_nat fuel -> n < 2 ^ 64 -> (0 < fuel)%nat ->
  parse_uint 0 (format_digits fuel n acc) = parse_uint n acc.
Proof.
  induction fuel as [|fuel IH]; intros n acc Hn H64 Hf; [lia|]. cbn [format_digits].
  pose proof (Z.mod_pos_bound n 10). pose proof (Z.div_mod n 10).
  assert (parse_uint (n / 10) (String (char_of decimal (n mod 10)) acc) = parse_uint n acc) as Hlast.
  { cbn [parse_uint]. rewrite digit_decimal by lia. replace (n / 10 * 10 + n mod 10) with n by lia.
    by replace (2 ^ 64 <=? n) with false by (symmetry; apply Z.leb_gt; lia). }
  destruct (Z.ltb_spec n 10) as [Hlt|Hge].
  - rewrite <- Hlast. by rewrite (Z.div_small n 10) by lia.
  - rewrite <- Hlast. rewrite Nat2Z.inj_succ, Z.pow_succ_r in Hn by lia. destruct fuel as [|fuel]; [cbn in Hn; lia|].
    apply IH; [split; [apply Z.div_pos; lia|apply Z.div_lt_upper_bound; lia]| |lia].
    apply Z.le_lt_trans with n; [|done]. apply Z.div_le_upper_bound; lia.
Qed.

Lemma FormatUint_cons n : 0 <= n -> exists c s, FormatUint n = String c s /\ digit c <> None.
Proof.
  intros Hn. unfold FormatUint. assert (forall fuel n s c, 0 <= n -> digit c <> None -> exists c' s', format_digits fuel n (String c s) = String c' s' /\ digit c' <> None) as H.
  { induction fuel as [|fuel IH]; intros m s c Hm Hc; cbn [format_digits]; [eauto|].
    assert (digit (char_of decimal (m mod 10)) <> None) as Hd by (rewrite digit_decimal; [done|apply Z.mod_pos_bound; lia]).
    destruct (m <? 10); [eauto|]. apply IH; [apply Z.div_pos; lia|done]. }
  cbn [format_digits]. assert (digit (char_of decimal (n mod 10)) <> None) as Hd by (rewrite digit_decimal; [done|apply Z.mod_pos_bound; lia]).
  destruct (n <? 10); [eauto|]. apply (H 19%nat); [apply Z.div_pos; lia|done].
Qed.

Lemma ParseUint_FormatUint n : 0 <= n < 2 ^ 64 -> ParseUint (FormatUint n) = Number n.
Proof.
  intros H. destruct (FormatUint_cons n ltac:(lia)) as (c & s & E & _). unfold ParseUint. rewrite E, <- E. unfold FormatUint.
  rewrite parse_format_digits; [done| |lia|lia]. split; [lia|]. apply Z.lt_le_trans with (2 ^ 64); [lia|]. by vm_compute.
Qed.

(** [Atoi] reads what [FormatInt] writes. *)
Lemma Atoi_FormatInt n : - 2 ^ 63 <= n < 2 ^ 63 -> Atoi (FormatInt n) = (n, true).
Proof.
  intros H. unfold FormatInt. destruct (Z.ltb_spec n 0) as [Hn|Hn].
  - unfold Atoi. rewrite ParseUint_FormatUint by lia. cbn [negb andb]. replace (2 ^ 63 <? - n) with false by (symmetry; apply Z.ltb_ge; lia).
    f_equal. lia.
  - destruct (FormatUint_cons n Hn) as (c & s & E & Hc). unfold Atoi. rewrite E.
    assert (match c with "+"%char => (false, s) | "-"%char => (true, s) | _ => (false, String c s) end = (false, String c s)) as ->.
    { destruct (decide (c = "+"%char)) as [->|H1]; [done|]. destruct (decide (c = "-"%char)) as [->|H2]; [done|].
      destruct c as [[] [] [] [] [] [] [] []]; done. }
    rewrite <- E, ParseUint_FormatUint by lia. cbn [negb andb]. by replace (2 ^ 63 <=? n) with false by (symmetry; apply Z.leb_gt; lia).
Qed.

Example format_examples : map FormatInt [0; 7; -42; 2 ^ 63 - 1; - 2 ^ 63] = ["0"; "7"; "-42"; "9223372036854775807"; "-9223372036854775808"]%string.
Proof. reflexivity. Qed.

(** ** encoding/hex *)

Definition hextable : list ascii := chars "0123456789abcdef".
Definition hextable_upper : list ascii := chars "0123456789ABCDEF".

(** Upper and lower case are read. *)
Definition from_hex (c : ascii) : option Z :=
  match value_of hextable c with Some n => Some n | None => value_of hextable_upper c end.

Fixpoint hex_encode (table : list ascii) (b : bytes) : list ascii :=
  match b with
  | [] => []
  | x :: b => char_of table (Z.shiftr (b2z x) 4) :: char_of table (Z.land (b2z x) 15) :: hex_encode table b
  end.

Fixpoint hex_decode (s : list ascii) : option bytes :=
  match s with
  | [] => Some []
  | [c] => None
  | c :: d :: s => hi ← from_hex c; lo ← from_hex d; b ← hex_decode s; Some (z2b (Z.lor (Z.shiftl hi 4) lo) :: b)
  end.

Definition hex_EncodeToString (b : bytes) : string := to_string (hex_encode hextable b).
Definition hex_DecodeString (s : string) : option bytes := hex_decode (chars s).

(** [strings.ToUpper] of a string of ASCII characters. *)
Definition upper_char (c : ascii) : ascii :=
  let n := nat_of_ascii c in if ((97 <=? n) && (n <=? 122))%nat then ascii_of_nat (n - 32) else c.
Definition ToUpper (s : string) : string := to_string (map upper_char (chars s)).

Lemma nibbles (x : byte) : 0 <= Z.shiftr (b2z x) 4 < 16 /\ 0 <= Z.land (b2z x) 15 < 16 /\
  z2b (Z.lor (Z.shiftl (Z.shiftr (b2z x) 4) 4) (Z.land (b2z x) 15)) = x.
Proof. destruct x; vm_compute; by repeat split. Qed.

Lemma from_hex_lower n : 0 <= n < 16 -> from_hex (char_of hextable n) = Some n.
Proof. intros H. unfold from_hex. by rewrite value_of_char. Qed.

Lemma upper_hex n : 0 <= n < 16 -> upper_char (char_of hextable n) = char_of hextable_upper n /\ from_hex (char_of hextable_upper n) = Some n.
Proof.
  intros H. assert (forallb (fun i => bool_decide (upper_char (char_of hextable (Z.of_nat i)) = char_of hextable_upper (Z.of_nat i) /\
    from_hex (char_of hextable_upper (Z.of_nat i)) = Some (Z.of_nat i))) (seq 0 16) = true) as Hall by reflexivity.
  rewrite forallb_forall in Hall. specialize (Hall (Z.to_nat n)). rewrite in_seq, Z2Nat.id in Hall by lia.
  apply (bool_decide_eq_true_1 (_ /\ _)), Hall. lia.
Qed.

Lemma hex_decode_with table b : (forall n, 0 <= n < 16 -> from_hex (char_of table n) = Some n) -> hex_decode (hex_encode table b) = Some b.
Proof.
  intros H. induction b as [|x b IH]; [done|]. destruct (nibbles x) as (H1 & H2 & H3). cbn [hex_encode hex_decode].
  rewrite !H by done. cbn [mbind option_bind]. rewrite IH. cbn [mbind option_bind]. by rewrite H3.
Qed.

Lemma ToUpper_hex b : ToUpper (hex_EncodeToString b) = to_string (hex_encode hextable_upper b).
Proof.
  unfold ToUpper, hex_EncodeToString. rewrite chars_to_string. f_equal. induction b as [|x b IH]; [done|].
  destruct (nibbles x) as (H1 & H2 & _). cbn [hex_encode map]. by rewrite IH, (proj1 (upper_hex _ H1)), (proj1 (upper_hex _ H2)).
Qed.

Lemma hex_roundtrip b : hex_DecodeString (hex_EncodeToString b) = Some b /\ hex_DecodeString (ToUpper (hex_EncodeToString b)) = Some b.
Proof.
  unfold hex_DecodeString. rewrite ToUpper_hex. unfold hex_EncodeToString. rewrite !chars_to_string. split; apply hex_decode_with.
  - apply from_hex_lower.
  - intros n Hn. by apply upper_hex.
Qed.

(** ** encoding/base64 *)

Definition encodeStd : list ascii := chars "ABCDEFGHIJKLMNOPQRSTUVWXYZabcdefghijklmnopqrstuvwxyz0123456789+/".

Definition sextet (v shift : Z) : ascii := char_of encodeStd (Z.land (Z.shiftr v shift) 0x3F).

(** With padding, [StdEncoding], and without, [RawStdEncoding]. *)
Fixpoint base64_encode (pad : bool) (b : bytes) : list ascii :=
  match b with
  | x :: y :: z :: b =>
      let v := Z.lor (Z.lor (Z.shiftl (b2z x) 16) (Z.shiftl (b2z y) 8)) (b2z z) in
      sextet v 18 :: sextet v 12 :: sextet v 6 :: sextet v 0 :: base64_encode pad b
  | [x; y] =>
      let v := Z.lor (Z.shiftl (b2z x) 16) (Z.shiftl (b2z y) 8) in
      [sextet v 18; sextet v 12; sextet v 6] ++ if pad then ["="%char] else []
  | [x] => let v := Z.shiftl (b2z x) 16 in [sextet v 18; sextet v 12] ++ if pad then ["="; "="]%char else []
  | [] => []
  end.

Definition quantum (d0 d1 d2 d3 : Z) : Z := Z.lor (Z.lor (Z.lor (Z.shiftl d0 18) (Z.shiftl d1 12)) (Z.shiftl d2 6)) d3.
Definition quantum_byte (v shift : Z) : byte := z2b (Z.shiftr v shift).

(** The quanta of four characters; bits that are left over are ignored. *)
Fixpoint base64_quanta (pad : bool) (s : list ascii) : option bytes :=
  match s with
  | [] => Some []
  | c0 :: s =>
      d0 ← value_of encodeStd c0;
      match s with
      | [] => None
      | c1 :: s =>
          d1 ← value_of encodeStd c1;
          let one := [quantum_byte (quantum d0 d1 0 0) 16] in
          match s with
          | [] => if pad then None else Some one
          | c2 :: s =>
              match value_of encodeStd c2 with
              | None => if pad && bool_decide (c2 = "="%char) && bool_decide (s = ["="%char]) then Some one else None
              | Some d2 =>
                  let two := [quantum_byte (quantum d0 d1 d2 0) 16; quantum_byte (quantum d0 d1 d2 0) 8] in
                  match s with
                  | [] => if pad then None else Some two
                  | c3 :: s =>
                      match value_of encodeStd c3 with
                      | None => if pad && bool_decide (c3 = "="%char) && bool_decide (s = []) then Some two else None
                      | Some d3 =>
                          let v := quantum d0 d1 d2 d3 in
                          b ← base64_quanta pad s; Some (quantum_byte v 16 :: quantum_byte v 8 :: quantum_byte v 0 :: b)
                      end
                  end
              end
          end
      end
  end.

Definition is_newline (c : ascii) : bool := bool_decide (c = "010"%char) || bool_decide (c = "013"%char).

(** Line breaks are skipped. *)
Definition base64_decode (pad : bool) (s : list ascii) : option bytes := base64_quanta pad (List.filter (fun c => negb (is_newline c)) s).

Definition base64_EncodeToString (pad : bool) (b : bytes) : string := to_string (base64_encode pad b).
Definition base64_DecodeString (pad : bool) (s : string) : option bytes := base64_decode pad (chars s).

Example base64_examples :
  map (base64_EncodeToString true) [[]; [x66]; [x66; x6f]; [x66; x6f; x6f]; [x66; x6f; x6f; x62]] = [""; "Zg=="; "Zm8="; "Zm9v"; "Zm9vYg=="]%string /\
  map (base64_DecodeString true) ["Zg=="; "Zg="; "Zh=="; "Zg"; "Zg==x"; "Zm8"]%string = [Some [x66]; None; Some [x66]; None; None; None] /\
  map (base64_DecodeString false) ["Zg"; "Zg=="; "Zm8"; "Z"]%string = [Some [x66]; None; Some [x66; x6f]; None].
Proof. by vm_compute. Qed.

(** *** Round trip *)

Lemma lor3 a b c : 0 <= a < 256 -> 0 <= b < 256 -> 0 <= c < 256 ->
  Z.lor (Z.lor (Z.shiftl a 16) (Z.shiftl b 8)) c = a * 65536 + b * 256 + c.
Proof.
  intros Ha Hb Hc. rewrite !Z.shiftl_mul_pow2 by lia. rewrite (Z.mul_comm a), (Z.mul_comm b), (Z.lor_comm (2 ^ 16 * a)), lor_disjoint by lia.
  replace (2 ^ 8 * b + 2 ^ 16 * a) with (2 ^ 8 * (b + 256 * a)) by lia. rewrite Z.lor_comm, lor_disjoint by lia. lia.
Qed.

Lemma quantum_sum d0 d1 d2 d3 : 0 <= d0 < 64 -> 0 <= d1 < 64 -> 0 <= d2 < 64 -> 0 <= d3 < 64 ->
  quantum d0 d1 d2 d3 = d0 * 2 ^ 18 + d1 * 2 ^ 12 + d2 * 2 ^ 6 + d3.
Proof.
  intros H0 H1 H2 H3. unfold quantum. rewrite !Z.shiftl_mul_pow2 by lia. rewrite (Z.mul_comm d0), (Z.mul_comm d1), (Z.mul_comm d2).
  rewrite (Z.lor_comm (2 ^ 18 * d0)), (lor_disjoint 18 (2 ^ 12 * d1)) by lia. replace (2 ^ 12 * d1 + 2 ^ 18 * d0) with (2 ^ 12 * (d1 + 2 ^ 6 * d0)) by lia.
  rewrite (Z.lor_comm (2 ^ 12 * _)), (lor_disjoint 12 (2 ^ 6 * d2)) by lia. replace (2 ^ 6 * d2 + 2 ^ 12 * (d1 + 2 ^ 6 * d0)) with (2 ^ 6 * (d2 + 2 ^ 6 * (d1 + 2 ^ 6 * d0))) by lia.
  rewrite Z.lor_comm, lor_disjoint by lia. lia.
Qed.

Definition sextet_value (v shift : Z) : Z := (v / 2 ^ shift) mod 64.

Lemma sextet_spec v shift : 0 <= shift -> 0 <= sextet_value v shift < 64 /\ value_of encodeStd (sextet v shift) = Some (sextet_value v shift).
Proof.
  intros H. assert (0 <= sextet_value v shift < 64) as Hr by (apply Z.mod_pos_bound; lia). split; [done|]. unfold sextet.
  change 0x3F with (Z.ones 6). rewrite Z.land_ones, Z.shiftr_div_pow2 by lia. by apply (value_of_char encodeStd (sextet_value v shift)).
Qed.

(** The four sextets of 24 bits. *)
Lemma sextets_24 v : 0 <= v < 2 ^ 24 -> quantum (sextet_value v 18) (sextet_value v 12) (sextet_value v 6) (sextet_value v 0) = v.
Proof.
  intros H. rewrite quantum_sum by (apply Z.mod_pos_bound; lia). unfold sextet_value. change (2 ^ 18) with (64 * 64 * 64). change (2 ^ 12) with (64 * 64).
  change (2 ^ 6) with 64. change (2 ^ 0) with 1. rewrite Z.div_1_r, <- !Z.div_div by lia.
  pose proof (Z.div_mod v 64). pose proof (Z.div_mod (v / 64) 64). pose proof (Z.div_mod (v / 64 / 64) 64).
  assert (0 <= v / 64 / 64 / 64 < 64).
  { split; [repeat apply Z.div_pos; lia|]. repeat (apply Z.div_lt_upper_bound; [lia|]). lia. }
  rewrite (Z.mod_small (v / 64 / 64 / 64)) by lia. lia.
Qed.

Lemma quantum_bytes x y z : let v := b2z x * 65536 + b2z y * 256 + b2z z in
  quantum_byte v 16 = x /\ quantum_byte v 8 = y /\ quantum_byte v 0 = z.
Proof.
  pose proof (b2z_range x). pose proof (b2z_range y). pose proof (b2z_range z). intros v. unfold quantum_byte. rewrite !Z.shiftr_div_pow2 by lia.
  change (2 ^ 0) with 1. rewrite Z.div_1_r.
  replace (v / 2 ^ 16) with (b2z x) by (apply (Z.div_unique _ _ _ (b2z y * 256 + b2z z)); lia).
  replace (v / 2 ^ 8) with (b2z x * 256 + b2z y) by (apply (Z.div_unique _ _ _ (b2z z)); lia). split_and!.
  - apply z2b_b2z.
  - apply b2z_inj. rewrite b2z_z2b, Z.add_comm, Z.mod_add, Z.mod_small by lia. done.
  - apply b2z_inj. rewrite b2z_z2b. replace v with (b2z z + (b2z x * 256 + b2z y) * 256) by lia. rewrite Z.mod_add, Z.mod_small by lia. done.
Qed.

Lemma zero_sextets x : sextet_value (b2z x * 65536) 6 = 0 /\ sextet_value (b2z x * 65536) 0 = 0.
Proof. by destruct x. Qed.

Lemma zero_sextet v : sextet_value (v * 256) 0 = 0.
Proof. unfold sextet_value. change (2 ^ 0) with 1. rewrite Z.div_1_r. replace (v * 256) with (v * 4 * 64) by lia. apply Z.mod_mul. lia. Qed.

Lemma value_of_pad : value_of encodeStd "="%char = None.
Proof. reflexivity. Qed.

Lemma triple_ind (P : bytes -> Prop) : P [] -> (forall x, P [x]) -> (forall x y, P [x; y]) -> (forall x y z b, P b -> P (x :: y :: z :: b)) -> forall b, P b.
Proof.
  intros H0 H1 H2 H3 b. assert (P b /\ (forall x, P (x :: b)) /\ forall x y, P (x :: y :: b)) as [? _]; [|done].
  induction b as [|z b (I1 & I2 & I3)]; [auto|]. split_and!; [apply I2|intros x; apply I3|intros x y; by apply H3].
Qed.

Lemma base64_quanta_encode pad b : base64_quanta pad (base64_encode pad b) = Some b.
Proof.
  induction b as [|x|x y|x y z b IH] using triple_ind; [done| | |]; pose proof (b2z_range x) as Hx.
  - cbn [base64_encode app]. rewrite Z.shiftl_mul_pow2 by lia. change (2 ^ 16) with 65536. set (v := b2z x * 65536).
    destruct (sextet_spec v 18) as [R0 E0]; [lia|]. destruct (sextet_spec v 12) as [R1 E1]; [lia|]. destruct (zero_sextets x) as [Z2 Z3].
    pose proof (sextets_24 v) as Hv. fold v in Z2, Z3. rewrite Z2, Z3 in Hv. destruct (quantum_bytes x x00 x00) as (Q & _). rewrite b2z_x00 in Q.
    replace (b2z x * 65536 + 0 * 256 + 0) with v in Q by lia. cbn [base64_quanta]. rewrite E0. cbn [mbind option_bind]. rewrite E1. cbn [mbind option_bind].
    rewrite Hv, Q by lia. by destruct pad.
  - pose proof (b2z_range y) as Hy. cbn [base64_encode app]. set (v := Z.lor (Z.shiftl (b2z x) 16) (Z.shiftl (b2z y) 8)).
    assert (v = (b2z x * 256 + b2z y) * 256) as Ev by (rewrite <- (Z.lor_0_r v); unfold v; rewrite lor3 by lia; lia).
    destruct (sextet_spec v 18) as [R0 E0]; [lia|]. destruct (sextet_spec v 12) as [R1 E1]; [lia|]. destruct (sextet_spec v 6) as [R2 E2]; [lia|].
    pose proof (sextets_24 v) as Hv. assert (sextet_value v 0 = 0) as Z0 by (rewrite Ev; apply zero_sextet). rewrite Z0 in Hv.
    destruct (quantum_bytes x y x00) as (Q1 & Q2 & _). rewrite b2z_x00 in Q1, Q2. replace (b2z x * 65536 + b2z y * 256 + 0) with v in Q1, Q2 by lia.
    cbn [base64_quanta]. rewrite E0. cbn [mbind option_bind]. rewrite E1. cbn [mbind option_bind]. rewrite E2, Hv, Q1, Q2 by lia. by destruct pad.
  - pose proof (b2z_range y) as Hy. pose proof (b2z_range z) as Hz. cbn [base64_encode]. rewrite lor3 by lia. set (v := b2z x * 65536 + b2z y * 256 + b2z z).
    destruct (sextet_spec v 18) as [R0 E0]; [lia|]. destruct (sextet_spec v 12) as [R1 E1]; [lia|]. destruct (sextet_spec v 6) as [R2 E2]; [lia|].
    destruct (sextet_spec v 0) as [R3 E3]; [lia|]. destruct (quantum_bytes x y z) as (Q1 & Q2 & Q3). fold v in Q1, Q2, Q3.
    cbn [base64_quanta]. rewrite E0. cbn [mbind option_bind]. rewrite E1. cbn [mbind option_bind]. rewrite E2, E3, IH. cbn [mbind option_bind].
    rewrite sextets_24, Q1, Q2, Q3 by lia. done.
Qed.

Lemma encode_no_newline pad b : List.filter (fun c => negb (is_newline c)) (base64_encode pad b) = base64_encode pad b.
Proof.
  assert (forall v s, is_newline (sextet v s) = false) as Hs.
  { intros v s. unfold sextet. assert (0 <= Z.land (Z.shiftr v s) 0x3F < 64) as H by (apply (land_bound _ _ 6); lia).
    assert (forallb (fun i => negb (is_newline (char_of encodeStd (Z.of_nat i)))) (seq 0 64) = true) as Hall by reflexivity.
    rewrite forallb_forall in Hall. specialize (Hall (Z.to_nat (Z.land (Z.shiftr v s) 0x3F))). rewrite in_seq, Z2Nat.id in Hall by lia.
    apply negb_true_iff, Hall. lia. }
  induction b as [|x|x y|x y z b IH] using triple_ind; [done| | |]; cbn [base64_encode app List.filter]; rewrite !Hs; cbn [negb].
  - by destruct pad.
  - by destruct pad.
  - by rewrite IH.
Qed.

Lemma base64_roundtrip pad b : base64_DecodeString pad (base64_EncodeToString pad b) = Some b.
Proof.
  unfold base64_DecodeString, base64_EncodeToString, base64_decode. rewrite chars_to_string, encode_no_newline. apply base64_quanta_encode.
Qed.
