(* ===== verification/AccessControl.v ===== *)
(** * Access control

    Models src/psiphon/common/accesscontrol/accesscontrol.go: authorizations are issued with a
    signing key, packed for transport, and verified with a ring of keys.

    Ed25519, HKDF, and the JSON and CBOR encodings of the structures are an interface,
    [AuthLibraries], whose laws, [AuthLaws], say that signatures verify and that what is
    encoded is decoded.  A time is its instant, in nanoseconds since the zero time, and the
    offset of its location. *)

From Stdlib Require Import ZArith Lia Strings.Byte Strings.String.
From stdpp Require Import base list strings numbers.
From S2P Require Import Prelude.
From S2P Require Import GoEncoding.
#[local] Open Scope string_scope.
#[local] Open Scope list_scope.

(** ** Data *)

Definition keyIDLength : nat := 32.
Definition authorizationIDKeyLength : nat := 32.
Definition authorizationIDLength : nat := 32.
Definition ed25519_PrivateKeySize : nat := 64.
Definition ed25519_PublicKeySize : nat := 32.
Definition ed25519_SignatureSize : nat := 64.

Record Time := { instant : Z; offset : Z }.
#[export] Instance Time_eq_dec : EqDecision Time.
Proof. solve_decision. Defined.

Definition UTC (t : Time) : Time := {| instant := instant t; offset := 0 |}.
Definition IsZero (t : Time) : bool := (instant t =? 0)%Z.
Definition Before (t u : Time) : bool := (instant t <? instant u)%Z.

Record SigningKey := { sk_ID : bytes; sk_AccessType : string; AuthorizationIDKey : bytes; PrivateKey : bytes }.
Record VerificationKey := { vk_ID : bytes; vk_AccessType : string; PublicKey : bytes }.
Record Authorization := { auth_ID : bytes; AccessType : string; Expires : Time }.
Record signedAuthorization := { raw_Authorization : bytes; SigningKeyID : bytes; Signature : bytes }.
Record packedAuthorization := {
  packed_ID : bytes; packed_AccessType : string; packed_Expires : Time; packed_SigningKeyID : bytes; packed_Signature : bytes
}.

(** ** Libraries *)

(** [HKDF key info n] reads [n] bytes derived without a salt.  [key_pair] says that a public
    and a private key belong together. *)
Class AuthLibraries := {
  HKDF : bytes -> bytes -> nat -> bytes;
  ed25519_Sign : bytes -> bytes -> bytes;
  ed25519_Verify : bytes -> bytes -> bytes -> bool;
  key_pair : bytes -> bytes -> Prop;
  auth_Marshal : Authorization -> res bytes;
  auth_Unmarshal : bytes -> res Authorization;
  signed_Marshal : signedAuthorization -> res bytes;
  signed_Unmarshal : bytes -> res signedAuthorization;
  packed_Marshal : list packedAuthorization -> res bytes;
  packed_Unmarshal : bytes -> res (list packedAuthorization)
}.

(** A structure with a raw message is decoded when the message is itself an encoding. *)
Class AuthLaws `{AuthLibraries} := {
  HKDF_length : forall key info n, length (HKDF key info n) = n;
  Sign_length : forall priv m, length (ed25519_Sign priv m) = ed25519_SignatureSize;
  Sign_Verify : forall pub priv m, key_pair pub priv -> ed25519_Verify pub m (ed25519_Sign priv m) = true;
  auth_decoded : forall a j, auth_Marshal a = Ok j -> auth_Unmarshal j = Ok a;
  signed_decoded : forall a j k s e, auth_Marshal a = Ok j ->
    signed_Marshal {| raw_Authorization := j; SigningKeyID := k; Signature := s |} = Ok e ->
    signed_Unmarshal e = Ok {| raw_Authorization := j; SigningKeyID := k; Signature := s |};
  packed_decoded : forall l e, packed_Marshal l = Ok e -> packed_Unmarshal e = Ok l
}.

Section AccessControl.
Context `{AuthLibraries}.

(** ** Operations *)

Definition ValidateSigningKey (k : SigningKey) : res unit :=
  if negb (length (sk_ID k) =? keyIDLength)%nat || (String.length (sk_AccessType k) <? 1)%nat ||
     negb (length (AuthorizationIDKey k) =? authorizationIDKeyLength)%nat || negb (length (PrivateKey k) =? ed25519_PrivateKeySize)%nat
  then Err "invalid signing key" else Ok tt.

(** The random bytes and the key pair are arguments. *)
Definition NewKeyPair (accessType : string) (ID authorizationIDKey publicKey privateKey : bytes) : SigningKey * VerificationKey :=
  ({| sk_ID := ID; sk_AccessType := accessType; AuthorizationIDKey := authorizationIDKey; PrivateKey := privateKey |},
   {| vk_ID := ID; vk_AccessType := accessType; PublicKey := publicKey |}).

Definition IssueAuthorization (k : SigningKey) (seedAuthorizationID : bytes) (expires : Time) : res (string * bytes) :=
  _ ← ValidateSigningKey k;
  let ID := HKDF (AuthorizationIDKey k) seedAuthorizationID authorizationIDLength in
  authJSON ← auth_Marshal {| auth_ID := ID; AccessType := sk_AccessType k; Expires := UTC expires |};
  let signature := ed25519_Sign (PrivateKey k) authJSON in
  signedAuthJSON ← signed_Marshal {| raw_Authorization := authJSON; SigningKeyID := sk_ID k; Signature := signature |};
  Ok (base64_EncodeToString true signedAuthJSON, ID).

Fixpoint ValidateVerificationKeyRing (keys : list VerificationKey) : res unit :=
  match keys with
  | [] => Ok tt
  | key :: keys =>
      if negb (length (vk_ID key) =? keyIDLength)%nat || (String.length (vk_AccessType key) <? 1)%nat ||
         negb (length (PublicKey key) =? ed25519_PublicKeySize)%nat
      then Err "invalid verification key" else ValidateVerificationKeyRing keys
  end.

(** The loop over the ring, which takes the last key with the ID. *)
Definition select_key (keys : list VerificationKey) (ID : bytes) : option VerificationKey :=
  foldl (fun found key => if bool_decide (ID = vk_ID key) then Some key else found) None keys.

(** [now] is the time when the expiry is checked. *)
Definition VerifyAuthorization (keys : list VerificationKey) (now : Time) (encodedSignedAuthorization : string) : res Authorization :=
  _ ← ValidateVerificationKeyRing keys;
  signedAuthorizationJSON ← or_error "illegal base64 data" (base64_DecodeString true encodedSignedAuthorization);
  signedAuth ← signed_Unmarshal signedAuthorizationJSON;
  if negb (length (SigningKeyID signedAuth) =? keyIDLength)%nat then Err "invalid key ID length"
  else if negb (length (Signature signedAuth) =? ed25519_SignatureSize)%nat then Err "invalid signature length"
  else
    match select_key keys (SigningKeyID signedAuth) with
    | None => Err "invalid key ID"
    | Some key =>
        if negb (ed25519_Verify (PublicKey key) (raw_Authorization signedAuth) (Signature signedAuth)) then Err "invalid signature"
        else
          auth ← auth_Unmarshal (raw_Authorization signedAuth);
          if (length (auth_ID auth) =? 0)%nat then Err "invalid authorization ID"
          else if negb (bool_decide (AccessType auth = vk_AccessType key)) then Err "invalid access type"
          else if IsZero (Expires auth) then Err "invalid expiry"
          else if Before (Expires auth) (UTC now) then Err "expired authorization"
          else Ok auth
    end.

Definition pack_authorization (authBase64 : string) : res packedAuthorization :=
  authJSON ← or_error "illegal base64 data" (base64_DecodeString true authBase64);
  signedAuth ← signed_Unmarshal authJSON;
  auth ← auth_Unmarshal (raw_Authorization signedAuth);
  Ok {| packed_ID := auth_ID auth; packed_AccessType := AccessType auth; packed_Expires := Expires auth;
        packed_SigningKeyID := SigningKeyID signedAuth; packed_Signature := Signature signedAuth |}.

Definition PackAuthorizations (auths : list string) : res bytes :=
  packedAuths ← mapM pack_authorization auths; packed_Marshal packedAuths.

Definition unpack_authorization (p : packedAuthorization) : res string :=
  authJSON ← auth_Marshal {| auth_ID := packed_ID p; AccessType := packed_AccessType p; Expires := packed_Expires p |};
  signedAuthJSON ← signed_Marshal {| raw_Authorization := authJSON; SigningKeyID := packed_SigningKeyID p; Signature := packed_Signature p |};
  Ok (base64_EncodeToString true signedAuthJSON).

Definition UnpackAuthorizations (packedAuthsCBOR : bytes) : res (list string) :=
  packedAuths ← packed_Unmarshal packedAuthsCBOR; mapM unpack_authorization packedAuths.

(** ** Properties *)

(** The key with an ID that no later key has. *)
Lemma select_key_last keys1 key keys2 : Forall (fun k => vk_ID k <> vk_ID key) keys2 -> select_key (keys1 ++ key :: keys2) (vk_ID key) = Some key.
Proof.
  intros Hf. unfold select_key. rewrite foldl_app. cbn [foldl]. rewrite bool_decide_eq_true_2 by done. clear -Hf.
  induction Hf as [|k l Hk Hf IH]; [done|]. cbn [foldl]. by rewrite bool_decide_eq_false_2.
Qed.

Lemma select_key_spec keys ID key : select_key keys ID = Some key -> key ∈ keys /\ vk_ID key = ID.
Proof.
  unfold select_key. assert (forall found, foldl (fun found key => if bool_decide (ID = vk_ID key) then Some key else found) found keys = Some key ->
    found = Some key \/ (key ∈ keys /\ vk_ID key = ID)) as Hgen; [|intros E; destruct (Hgen None E); [done|done]].
  induction keys as [|k keys IH]; intros found E; [by left|]. cbn [foldl] in E. destruct (IH _ E) as [Ef|[? ?]]; [|by right; split; [right|]].
  case_bool_decide; [|by left]. injection Ef as ->. right. split; [left|done].
Qed.

Context `{!AuthLaws}.

(** What was issued, with its signature. *)
Record issued (k : SigningKey) (seed : bytes) (expires : Time) (s : string) (ID : bytes) (j e : bytes) : Prop := {
  is_valid : ValidateSigningKey k = Ok tt;
  is_ID : ID = HKDF (AuthorizationIDKey k) seed authorizationIDLength;
  is_auth : auth_Marshal {| auth_ID := ID; AccessType := sk_AccessType k; Expires := UTC expires |} = Ok j;
  is_signed : signed_Marshal {| raw_Authorization := j; SigningKeyID := sk_ID k; Signature := ed25519_Sign (PrivateKey k) j |} = Ok e;
  is_encoded : s = base64_EncodeToString true e
}.

Lemma IssueAuthorization_issued k seed expires s ID : IssueAuthorization k seed expires = Ok (s, ID) -> exists j e, issued k seed expires s ID j e.
Proof.
  unfold IssueAuthorization. intros E. apply res_bind_ok in E as ([] & Ev & E). apply res_bind_ok in E as (j & Ej & E).
  apply res_bind_ok in E as (e & Ee & E). injection E as <- <-. by exists j, e.
Qed.

Lemma ValidateSigningKey_ID k : ValidateSigningKey k = Ok tt -> length (sk_ID k) = keyIDLength.
Proof. unfold ValidateSigningKey. destruct (Nat.eqb_spec (length (sk_ID k)) keyIDLength); [done|]. by cbn. Qed.

(** An authorization that was issued is accepted until it expires.  For a ring in which
    the last key with the signing key's ID is its public half, with the same access type, the
    result is the authorization with the derived ID, the access type and the expiry; once it
    has expired it is refused. *)
Theorem issued_verified k seed expires s ID keys1 pub keys2 now :
  IssueAuthorization k seed expires = Ok (s, ID) -> key_pair pub (PrivateKey k) -> instant expires <> 0%Z ->
  ValidateVerificationKeyRing (keys1 ++ {| vk_ID := sk_ID k; vk_AccessType := sk_AccessType k; PublicKey := pub |} :: keys2) = Ok tt ->
  Forall (fun key => vk_ID key <> sk_ID k) keys2 ->
  VerifyAuthorization (keys1 ++ {| vk_ID := sk_ID k; vk_AccessType := sk_AccessType k; PublicKey := pub |} :: keys2) now s =
    if (instant expires <? instant now)%Z then Err "expired authorization"
    else Ok {| auth_ID := ID; AccessType := sk_AccessType k; Expires := UTC expires |}.
Proof.
  intros (j & e & [Ev -> Ej Ee ->])%IssueAuthorization_issued Hp Hz Hring Hlast. unfold VerifyAuthorization. rewrite Hring, base64_roundtrip.
  cbn [mbind res_mbind or_error]. rewrite (signed_decoded _ _ _ _ _ Ej Ee). cbn [mbind res_mbind SigningKeyID Signature raw_Authorization].
  rewrite (ValidateSigningKey_ID _ Ev), Sign_length. cbn [keyIDLength ed25519_SignatureSize Nat.eqb negb].
  set (key := {| vk_ID := sk_ID k; vk_AccessType := sk_AccessType k; PublicKey := pub |}). change (sk_ID k) with (vk_ID key).
  rewrite select_key_last by done. cbn [PublicKey key vk_AccessType]. rewrite Sign_Verify by done. cbn [negb]. rewrite (auth_decoded _ _ Ej).
  cbn [mbind res_mbind auth_ID AccessType Expires]. rewrite HKDF_length. cbn [authorizationIDLength Nat.eqb]. rewrite bool_decide_eq_true_2 by done.
  cbn [negb]. unfold IsZero, Before. cbn [instant UTC]. destruct (Z.eqb_spec (instant expires) 0); [done|]. done.
Qed.

(** C14: nothing else is accepted.  What is accepted is signed by a key of the ring: the bytes
    that the authorization was decoded from have a valid signature of a key that the ring
    holds for its access type; it has an ID and has not expired. *)
Theorem verified_sound keys now s auth :
  VerifyAuthorization keys now s = Ok auth -> exists e signed key,
    base64_DecodeString true s = Some e /\ signed_Unmarshal e = Ok signed /\ key ∈ keys /\ vk_ID key = SigningKeyID signed /\
    ed25519_Verify (PublicKey key) (raw_Authorization signed) (Signature signed) = true /\
    auth_Unmarshal (raw_Authorization signed) = Ok auth /\ AccessType auth = vk_AccessType key /\ auth_ID auth <> [] /\
    (instant now <= instant (Expires auth))%Z.
Proof.
  unfold VerifyAuthorization. intros E. apply res_bind_ok in E as ([] & _ & E). apply res_bind_ok in E as (e & Ee & E). apply res_bind_ok in E as (sg & Esg & E).
  destruct (negb _); [done|]. destruct (negb _); [done|]. destruct (select_key _ _) as [key|] eqn:Ek; [|done]. apply select_key_spec in Ek as [Hin Hid].
  destruct (ed25519_Verify _ _ _) eqn:Ev; [|done]. cbn [negb] in E. apply res_bind_ok in E as (a & Ea & E).
  destruct (Nat.eqb_spec (length (auth_ID a)) 0) as [|Hl]; [done|]. case_bool_decide as Ht; [|done]. cbn [negb] in E. destruct (IsZero _); [done|].
  destruct (Before _ _) eqn:Eb; [done|]. injection E as <-. apply Z.ltb_ge in Eb. exists e, sg, key. split_and!; try done.
  - destruct (base64_DecodeString true s); [by injection Ee as ->|done].
  - by intros E0; rewrite E0 in Hl.
Qed.

Lemma pack_issued k seed expires s ID j e : issued k seed expires s ID j e ->
  pack_authorization s = Ok {| packed_ID := ID; packed_AccessType := sk_AccessType k; packed_Expires := UTC expires; packed_SigningKeyID := sk_ID k;
                               packed_Signature := ed25519_Sign (PrivateKey k) j |}.
Proof.
  intros [_ -> Ej Ee ->]. unfold pack_authorization. rewrite base64_roundtrip. cbn [mbind res_mbind or_error]. rewrite (signed_decoded _ _ _ _ _ Ej Ee).
  cbn [mbind res_mbind raw_Authorization]. by rewrite (auth_decoded _ _ Ej).
Qed.

Lemma unpack_issued k seed expires s ID j e : issued k seed expires s ID j e ->
  unpack_authorization {| packed_ID := ID; packed_AccessType := sk_AccessType k; packed_Expires := UTC expires; packed_SigningKeyID := sk_ID k;
                          packed_Signature := ed25519_Sign (PrivateKey k) j |} = Ok s.
Proof.
  intros [_ -> Ej Ee ->]. unfold unpack_authorization. cbn [packed_ID packed_AccessType packed_Expires packed_SigningKeyID packed_Signature].
  rewrite Ej. cbn [mbind res_mbind]. by rewrite Ee.
Qed.

(** Authorizations survive packing.  A list of issued authorizations, of any keys, is
    packed and unpacked to the same strings, so that their signatures stay valid although they
    are decoded and encoded anew. *)
Theorem authorizations_roundtrip auths packed :
  Forall (fun s => exists k seed expires ID, IssueAuthorization k seed expires = Ok (s, ID)) auths ->
  PackAuthorizations auths = Ok packed -> UnpackAuthorizations packed = Ok auths.
Proof.
  intros Hf. unfold PackAuthorizations, UnpackAuthorizations. intros (l & El & Ep)%res_bind_ok. rewrite (packed_decoded _ _ Ep). cbn [mbind res_mbind].
  clear Ep packed. apply res_mapM_ok in El. apply res_mapM_ok. induction El as [|s p auths l Es _ IH]; [constructor|].
  apply Forall_cons_1 in Hf as [(k & seed & expires & ID & Hi) Hf]. apply IssueAuthorization_issued in Hi as (j & e & Hi). constructor; [|by apply IH].
  rewrite (pack_issued _ _ _ _ _ _ _ Hi) in Es. injection Es as <-. by apply (unpack_issued _ _ _ _ _ _ _ Hi).
Qed.

End AccessControl.

(** ** Examples *)

#[export] Instance Authorization_eq_dec : EqDecision Authorization.
Proof. solve_decision. Defined.
#[export] Instance signedAuthorization_eq_dec : EqDecision signedAuthorization.
Proof. solve_decision. Defined.
#[export] Instance packedAuthorization_eq_dec : EqDecision packedAuthorization.
Proof. solve_decision. Defined.

Definition example_signing_key : SigningKey :=
  {| sk_ID := replicate 32 x01; sk_AccessType := "speed"; AuthorizationIDKey := replicate 32 x02; PrivateKey := replicate 64 x03 |}.
Definition example_expires : Time := {| instant := 1000; offset := 3600 |}.
Definition example_auth : Authorization := {| auth_ID := replicate 32 x07; AccessType := "speed"; Expires := UTC example_expires |}.
Definition example_signed : signedAuthorization :=
  {| raw_Authorization := [x10]; SigningKeyID := replicate 32 x01; Signature := replicate 64 x05 |}.
Definition example_packed : packedAuthorization :=
  {| packed_ID := replicate 32 x07; packed_AccessType := "speed"; packed_Expires := UTC example_expires;
     packed_SigningKeyID := replicate 32 x01; packed_Signature := replicate 64 x05 |}.

(** Encodings of the example alone. *)
Definition encode_only {A} `{EqDecision A} (a0 : A) (b : byte) (a : A) : res bytes := if bool_decide (a = a0) then Ok [b] else Err "unsupported value".
Definition decode_only {A} (a0 : A) (b : byte) (l : bytes) : res A := if bool_decide (l = [b]) then Ok a0 else Err "syntax error".

Lemma decode_encode_only {A} `{EqDecision A} (a0 a : A) b e : encode_only a0 b a = Ok e -> decode_only a0 b e = Ok a.
Proof. unfold encode_only, decode_only. case_bool_decide as E; [|done]. intros [= <-]. by rewrite bool_decide_eq_true_2, E. Qed.

Definition example_libraries_auth : AuthLibraries := {|
  HKDF := fun _ _ n => replicate n x07; ed25519_Sign := fun _ _ => replicate 64 x05;
  ed25519_Verify := fun _ _ s => bool_decide (s = replicate 64 x05); key_pair := fun _ _ => True;
  auth_Marshal := encode_only example_auth x10; auth_Unmarshal := decode_only example_auth x10;
  signed_Marshal := encode_only example_signed x11; signed_Unmarshal := decode_only example_signed x11;
  packed_Marshal := encode_only [example_packed] x12; packed_Unmarshal := decode_only [example_packed] x12 |}.

Lemma example_auth_laws : @AuthLaws example_libraries_auth.
Proof.
  split; cbn; try done.
  - intros _ _ n. apply length_replicate.
  - intros a j. apply decode_encode_only.
  - intros a j k s e _. apply decode_encode_only.
  - intros l e. apply decode_encode_only.
Qed.

Definition example_ring : list VerificationKey := [{| vk_ID := replicate 32 x01; vk_AccessType := "speed"; PublicKey := replicate 32 x04 |}].

Definition issued_string : string := base64_EncodeToString true [x11].

Lemma example_issued : @IssueAuthorization example_libraries_auth example_signing_key [x00] example_expires = Ok (issued_string, replicate 32 x07).
Proof. vm_compute. reflexivity. Qed.

Lemma issued_verified_witness :
  @VerifyAuthorization example_libraries_auth example_ring {| instant := 999; offset := 0 |} issued_string = Ok example_auth /\
  @VerifyAuthorization example_libraries_auth example_ring {| instant := 1001; offset := 0 |} issued_string = Err "expired authorization".
Proof.
  pose proof (fun now => @issued_verified example_libraries_auth example_auth_laws example_signing_key [x00] example_expires issued_string
    (replicate 32 x07) [] (replicate 32 x04) [] now example_issued I ltac:(discriminate) eq_refl (List.Forall_nil _)) as H.
  split; [exact (H {| instant := 999; offset := 0 |})|exact (H {| instant := 1001; offset := 0 |})].
Defined.

Lemma verified_sound_witness : exists key, key ∈ example_ring /\ AccessType example_auth = vk_AccessType key.
Proof.
  destruct (@verified_sound example_libraries_auth example_ring {| instant := 999; offset := 0 |} issued_string example_auth ltac:(vm_compute; reflexivity))
    as (e & sg & key & _ & _ & Hin & _ & _ & _ & Ht & _). exists key. split; [exact Hin|exact Ht].
Defined.

Lemma authorizations_roundtrip_witness : @UnpackAuthorizations example_libraries_auth [x12] = Ok [issued_string].
Proof.
  apply (@authorizations_roundtrip example_libraries_auth example_auth_laws [issued_string] [x12]); [|vm_compute; reflexivity].
  constructor; [|constructor]. exists example_signing_key, [x00], example_expires, (replicate 32 x07). exact example_issued.
Defined.
