(* ===== verification/Packed.v ===== *)
(** * Packed parameters and server entries

    Models src/psiphon/common/protocol/packed.go: API parameters and server entry fields are
    packed into maps with integer keys and compact values, and unpacked.

    A value of an interface is a [value]; a map is an association list without duplicates.
    A float64 and its conversions, JSON and CBOR are an interface, [PackLibraries]; what the
    laws of [CBORLaws] say of CBOR is how values are typed when they are decoded.  The order
    in which a map is ranged over is an argument. *)

From Stdlib Require Import ZArith Lia Strings.Byte Strings.Ascii Strings.String.
From stdpp Require Import base gmap list strings numbers.
From S2P Require Import Prelude.
From S2P Require Import GoStrings.
From S2P Require Import GoEncoding.
From S2P Require Import AccessControl.
#[local] Open Scope string_scope.
#[local] Open Scope Z_scope.
#[local] Open Scope list_scope.

(** ** Values *)

(** The types of values that are met: [VText] implements TextMarshaler, with its result;
    [VMap] is a [map[interface{}]interface{}], [VObject] a [map[string]interface{}] and
    [VObjects] a slice of these. *)
Inductive value (F : Type) :=
| VNil
| VBool (b : bool)
| VString (s : string)
| VInt (n : Z)
| VInt64 (n : Z)
| VUint64 (n : Z)
| VFloat (f : F)
| VBytes (b : bytes)
| VStrings (l : list string)
| VText (r : res string)
| VSlice (l : list (value F))
| VMap (m : list (value F * value F))
| VObject (m : list (string * value F))
| VObjects (l : list (list (string * value F))).

Arguments VNil {F}.
Arguments VBool {F} b.
Arguments VString {F} s.
Arguments VInt {F} n.
Arguments VInt64 {F} n.
Arguments VUint64 {F} n.
Arguments VFloat {F} f.
Arguments VBytes {F} b.
Arguments VStrings {F} l.
Arguments VText {F} r.
Arguments VSlice {F} l.
Arguments VMap {F} m.
Arguments VObject {F} m.
Arguments VObjects {F} l.

Class PackLibraries (F : Type) := {
  ParseFloat : string -> option F;
  FormatFloat : F -> string;
  int_of_float : F -> Z;
  json_Object : bytes -> res (list (string * value F));
  cbor_Marshal : gmap Z (value F) -> res bytes;
  cbor_Unmarshal : bytes -> res (gmap Z (value F))
}.

Section Packed.
Context {F : Type} `{PackLibraries F, AuthLibraries}.

(** ** Converters *)

Definition stringOrTextMarshal (v : value F) : res string :=
  match v with
  | VString s => Ok s
  | VText r => r
  | _ => Err "expected string or TextMarshaler type"
  end.

Definition packInt (v : value F) : res (value F) :=
  match v with
  | VString s => let '(i, ok) := Atoi s in if ok then Ok (VInt i) else Err "invalid number"
  | VFloat f => Ok (VInt (int_of_float f))
  | _ => Err "expected string or float type"
  end.

Definition unpackInt (v : value F) : res (value F) :=
  match v with
  | VInt i => Ok (VString (FormatInt i))
  | VInt64 i => Ok (VString (FormatInt i))
  | VUint64 i => Ok (VString (FormatUint i))
  | _ => Err "expected int, int64, or uint64 type"
  end.

Definition packFloat (v : value F) : res (value F) :=
  match v with
  | VString s => f ← or_error "invalid float" (ParseFloat s); Ok (VFloat f)
  | VFloat f => Ok (VFloat f)
  | _ => Err "expected string or float type"
  end.

Definition unpackFloat (v : value F) : res (value F) :=
  match v with VFloat f => Ok (VString (FormatFloat f)) | _ => Err "expected int type" end.

Definition packHex (v : value F) : res (value F) :=
  s ← stringOrTextMarshal v; b ← or_error "invalid hex" (hex_DecodeString s); Ok (VBytes b).

Definition unpackHexLower (v : value F) : res (value F) :=
  match v with VBytes b => Ok (VString (hex_EncodeToString b)) | _ => Err "expected []byte type" end.

Definition unpackHexUpper (v : value F) : res (value F) :=
  s ← unpackHexLower v;
  match (s : value F) with VString s => Ok (VString (ToUpper s)) | _ => Panic "interface conversion" end.

Definition packBase64 (v : value F) : res (value F) :=
  s ← stringOrTextMarshal v; b ← or_error "illegal base64 data" (base64_DecodeString true s); Ok (VBytes b).

Definition unpackBase64 (v : value F) : res (value F) :=
  match v with VBytes b => Ok (VString (base64_EncodeToString true b)) | _ => Err "expected []byte type" end.

Definition packUnpaddedBase64 (v : value F) : res (value F) :=
  s ← stringOrTextMarshal v; b ← or_error "illegal base64 data" (base64_DecodeString false s); Ok (VBytes b).

Definition unpackUnpaddedBase64 (v : value F) : res (value F) :=
  match v with VBytes b => Ok (VString (base64_EncodeToString false b)) | _ => Err "expected []byte type" end.

Definition packAuthorizations (v : value F) : res (value F) :=
  match v with VStrings auths => b ← PackAuthorizations auths; Ok (VBytes b) | _ => Err "expected []string type" end.

Definition unpackAuthorizations (v : value F) : res (value F) :=
  match v with VBytes b => auths ← UnpackAuthorizations b; Ok (VStrings auths) | _ => Err "expected []byte type" end.

Definition packNoop (v : value F) : res (value F) := Ok v.

Definition unpackRawJSON (v : value F) : res (value F) :=
  match v with VBytes b => m ← json_Object b; Ok (VObject m) | _ => Err "expected []byte type" end.

(** One entry of the slice. *)
Definition compatible_map (packedEntry : value F) : res (list (string * value F)) :=
  match packedEntry with
  | VMap entry => mapM (fun kv => match (kv.1 : value F) with VString key => Ok (key, kv.2) | _ => Err "expected string type" end) entry
  | _ => Err "expected map[interface{}]interface{} type"
  end.

Definition unpackSliceOfJSONCompatibleMaps (v : value F) : res (value F) :=
  match v with
  | VNil => Ok VNil
  | VSlice packedEntries => entries ← mapM compatible_map packedEntries; Ok (VObjects entries)
  | _ => Err "expected []interface{} type"
  end.

Record packConverter := { pack : value F -> res (value F); unpack : value F -> res (value F) }.

Definition intConverter := Some {| pack := packInt; unpack := unpackInt |}.
Definition floatConverter := Some {| pack := packFloat; unpack := unpackFloat |}.
Definition lowerHexConverter := Some {| pack := packHex; unpack := unpackHexLower |}.
Definition upperHexConverter := Some {| pack := packHex; unpack := unpackHexUpper |}.
Definition base64Converter := Some {| pack := packBase64; unpack := unpackBase64 |}.
Definition unpaddedBase64Converter := Some {| pack := packUnpaddedBase64; unpack := unpackUnpaddedBase64 |}.
Definition authorizationsConverter := Some {| pack := packAuthorizations; unpack := unpackAuthorizations |}.
Definition rawJSONConverter := Some {| pack := packNoop; unpack := unpackRawJSON |}.
Definition compatibleJSONMapConverter := Some {| pack := packNoop; unpack := unpackSliceOfJSONCompatibleMaps |}.

(** ** Specifications *)

Record packSpec := spec { key : Z; name : string; converter : option packConverter }.

Definition packedAPIParameterSpecs : list packSpec := [
  spec 1 "authorizations" authorizationsConverter; spec 2 "stored_tactics_tag" lowerHexConverter;
  spec 3 "speed_test_samples" compatibleJSONMapConverter; spec 4 "applied_tactics_tag" lowerHexConverter;
  spec 5 "client_session_id" lowerHexConverter; spec 6 "propagation_channel_id" upperHexConverter;
  spec 7 "sponsor_id" upperHexConverter; spec 8 "client_version" intConverter; spec 9 "client_platform" None;
  spec 10 "client_features" None; spec 11 "client_build_rev" None; spec 12 "device_region" None;
  spec 13 "device_location" None; spec 14 "session_id" lowerHexConverter; spec 15 "relay_protocol" None;
  spec 16 "ssh_client_version" None; spec 17 "upstream_proxy_type" None;
  spec 18 "upstream_proxy_custom_header_names" None; spec 19 "fronting_provider_id" upperHexConverter;
  spec 20 "meek_dial_address" None; spec 21 "meek_resolved_ip_address" None;
  spec 22 "meek_sni_server_name" None; spec 23 "meek_host_header" None;
  spec 24 "meek_transformed_host_name" intConverter; spec 25 "user_agent" None; spec 26 "tls_profile" None;
  spec 27 "tls_version" None; spec 28 "server_entry_region" None; spec 29 "server_entry_source" None;
  spec 30 "server_entry_timestamp" None; spec 31 "dial_port_number" intConverter; spec 32 "quic_version" None;
  spec 33 "quic_dial_sni_address" None; spec 34 "quic_disable_client_path_mtu_discovery" intConverter;
  spec 35 "upstream_bytes_fragmented" intConverter; spec 36 "upstream_min_bytes_written" intConverter;
  spec 37 "upstream_max_bytes_written" intConverter; spec 38 "upstream_min_delayed" intConverter;
  spec 39 "upstream_max_delayed" intConverter; spec 40 "padding" None; spec 41 "pad_response" intConverter;
  spec 42 "is_replay" intConverter; spec 43 "egress_region" None; spec 44 "dial_duration" intConverter;
  spec 45 "candidate_number" intConverter; spec 46 "established_tunnels_count" intConverter;
  spec 47 "upstream_ossh_padding" intConverter; spec 48 "meek_cookie_size" intConverter;
  spec 49 "meek_limit_request" intConverter; spec 50 "meek_redial_probability" floatConverter;
  spec 51 "meek_tls_padding" intConverter; spec 52 "network_latency_multiplier" floatConverter;
  spec 53 "client_bpf" None; spec 54 "network_type" None; spec 55 "conjure_cached" None;
  spec 56 "conjure_delay" None; spec 57 "conjure_transport" None; spec 58 "conjure_prefix" None;
  spec 59 "conjure_stun" None; spec 60 "conjure_empty_packet" intConverter; spec 61 "conjure_network" None;
  spec 62 "conjure_port_number" intConverter; spec 63 "split_tunnel" None;
  spec 64 "split_tunnel_regions" None; spec 65 "dns_preresolved" None; spec 66 "dns_preferred" None;
  spec 67 "dns_transform" None; spec 68 "dns_attempt" intConverter; spec 69 "http_transform" None;
  spec 70 "seed_transform" None; spec 71 "ossh_prefix" None; spec 72 "tls_fragmented" intConverter;
  spec 73 "tls_padding" intConverter; spec 74 "tls_ossh_sni_server_name" None;
  spec 75 "tls_ossh_transformed_host_name" intConverter;
  spec 76 "inproxy_connection_id" unpaddedBase64Converter;
  spec 77 "inproxy_relay_packet" unpaddedBase64Converter; spec 78 "inproxy_broker_is_replay" intConverter;
  spec 79 "inproxy_broker_transport" None; spec 80 "inproxy_broker_fronting_provider_id" upperHexConverter;
  spec 81 "inproxy_broker_dial_address" None; spec 82 "inproxy_broker_resolved_ip_address" None;
  spec 83 "inproxy_broker_sni_server_name" None; spec 84 "inproxy_broker_host_header" None;
  spec 85 "inproxy_broker_transformed_host_name" intConverter; spec 86 "inproxy_broker_user_agent" None;
  spec 87 "inproxy_broker_tls_profile" None; spec 88 "inproxy_broker_tls_version" None;
  spec 89 "inproxy_broker_tls_fragmented" intConverter; spec 90 "inproxy_broker_tls_padding" intConverter;
  spec 91 "inproxy_broker_client_bpf" None; spec 92 "inproxy_broker_upstream_bytes_fragmented" intConverter;
  spec 93 "inproxy_broker_upstream_min_bytes_written" intConverter;
  spec 94 "inproxy_broker_upstream_max_bytes_written" intConverter;
  spec 95 "inproxy_broker_upstream_min_delayed" intConverter;
  spec 96 "inproxy_broker_upstream_max_delayed" intConverter; spec 97 "inproxy_broker_http_transform" None;
  spec 98 "inproxy_broker_dns_preresolved" None; spec 99 "inproxy_broker_dns_preferred" None;
  spec 100 "inproxy_broker_dns_transform" None; spec 101 "inproxy_broker_dns_attempt" intConverter;
  spec 102 "inproxy_webrtc_dns_preresolved" None; spec 103 "inproxy_webrtc_dns_preferred" None;
  spec 104 "inproxy_webrtc_dns_transform" None; spec 105 "inproxy_webrtc_dns_attempt" intConverter;
  spec 106 "inproxy_webrtc_stun_server" None; spec 107 "inproxy_webrtc_stun_server_resolved_ip_address" None;
  spec 108 "inproxy_webrtc_stun_server_RFC5780" None;
  spec 109 "inproxy_webrtc_stun_server_RFC5780_resolved_ip_address" None;
  spec 110 "inproxy_webrtc_randomize_dtls" intConverter;
  spec 111 "inproxy_webrtc_padded_messages_sent" intConverter;
  spec 112 "inproxy_webrtc_padded_messages_received" intConverter;
  spec 113 "inproxy_webrtc_decoy_messages_sent" intConverter;
  spec 114 "inproxy_webrtc_decoy_messages_received" intConverter;
  spec 115 "inproxy_webrtc_local_ice_candidate_type" None;
  spec 116 "inproxy_webrtc_local_ice_candidate_is_initiator" intConverter;
  spec 117 "inproxy_webrtc_local_ice_candidate_is_IPv6" intConverter;
  spec 118 "inproxy_webrtc_local_ice_candidate_port" intConverter;
  spec 119 "inproxy_webrtc_remote_ice_candidate_type" None;
  spec 120 "inproxy_webrtc_remote_ice_candidate_is_IPv6" intConverter;
  spec 121 "inproxy_webrtc_remote_ice_candidate_port" intConverter;
  spec 122 "missing_server_entry_signature" base64Converter;
  spec 123 "missing_server_entry_provider_id" base64Converter; spec 124 "last_connected" None;
  spec 125 "establishment_duration" intConverter; spec 126 "client_download_timestamp" None;
  spec 127 "tunneled" intConverter; spec 128 "url" None; spec 129 "etag" None; spec 130 "bytes" intConverter;
  spec 131 "duration" intConverter; spec 132 "server_entry_tag" base64Converter;
  spec 133 "client_failed_timestamp" None; spec 134 "record_probability" floatConverter;
  spec 135 "liveness_test_upstream_bytes" intConverter;
  spec 136 "liveness_test_sent_upstream_bytes" intConverter;
  spec 137 "liveness_test_downstream_bytes" intConverter;
  spec 138 "liveness_test_received_downstream_bytes" intConverter; spec 139 "bytes_up" intConverter;
  spec 140 "bytes_down" intConverter; spec 141 "tunnel_error" None; spec 142 "statusData" rawJSONConverter;
  spec 143 "inproxy_webrtc_local_ice_candidate_is_private_IP" intConverter;
  spec 144 "inproxy_webrtc_remote_ice_candidate_is_private_IP" intConverter;
  spec 145 "tls_sent_ticket" intConverter; spec 146 "tls_did_resume" intConverter;
  spec 147 "quic_sent_ticket" intConverter; spec 148 "quic_did_resume" intConverter;
  spec 149 "quic_dial_early" intConverter; spec 150 "quic_obfuscated_psk" intConverter;
  spec 151 "dns_qname_random_casing" intConverter; spec 152 "dns_qname_must_match" intConverter;
  spec 153 "dns_qname_mismatches" intConverter;
  spec 154 "inproxy_broker_dns_qname_random_casing" intConverter;
  spec 155 "inproxy_broker_dns_qname_must_match" intConverter;
  spec 156 "inproxy_broker_dns_qname_mismatches" intConverter;
  spec 157 "inproxy_webrtc_dns_qname_random_casing" intConverter;
  spec 158 "inproxy_webrtc_dns_qname_must_match" intConverter;
  spec 159 "inproxy_webrtc_dns_qname_mismatches" intConverter;
  spec 160 "inproxy_dial_nat_discovery_duration" intConverter;
  spec 161 "inproxy_dial_failed_attempts_duration" intConverter;
  spec 162 "inproxy_dial_webrtc_ice_gathering_duration" intConverter;
  spec 163 "inproxy_dial_broker_offer_duration" intConverter;
  spec 164 "inproxy_dial_webrtc_connection_duration" intConverter;
  spec 165 "inproxy_broker_is_reuse" intConverter; spec 166 "inproxy_webrtc_use_media_streams" intConverter;
  spec 167 "shadowsocks_prefix" None; spec 168 "psiphon_api_response_version" intConverter;
  spec 169 "server_entry_count" intConverter; spec 170 "replay_ignored_change" intConverter;
  spec 171 "dsl_prioritized" intConverter; spec 172 "unique_candidate_estimate" intConverter;
  spec 173 "candidates_moved_to_front" intConverter; spec 174 "first_fronted_meek_candidate" intConverter;
  spec 175 "dsl_prioritized_reason" None; spec 176 "enable_proxy_protocol_headers" intConverter;
  spec 177 "dsl_prioritized_tunnel_protocol" None].

Definition packedServerEntryFieldSpecs : list packSpec := [
  spec 1 "tag" base64Converter; spec 2 "ipAddress" None; spec 3 "webServerPort" intConverter;
  spec 4 "webServerSecret" lowerHexConverter; spec 5 "webServerCertificate" None; spec 6 "sshPort" None;
  spec 7 "sshUsername" None; spec 8 "sshPassword" lowerHexConverter; spec 9 "sshHostKey" base64Converter;
  spec 10 "sshObfuscatedPort" None; spec 11 "sshObfuscatedQUICPort" None; spec 12 "limitQUICVersions" None;
  spec 13 "sshObfuscatedTapdancePort" None; spec 14 "sshObfuscatedConjurePort" None;
  spec 15 "sshObfuscatedKey" lowerHexConverter; spec 16 "capabilities" None; spec 17 "region" None;
  spec 18 "providerID" upperHexConverter; spec 19 "frontingProviderID" upperHexConverter;
  spec 20 "tlsOSSHPort" None; spec 21 "meekServerPort" None;
  spec 22 "meekCookieEncryptionPublicKey" base64Converter; spec 23 "meekObfuscatedKey" lowerHexConverter;
  spec 24 "meekFrontingHost" None; spec 25 "meekFrontingHosts" None; spec 26 "meekFrontingDomain" None;
  spec 27 "meekFrontingAddresses" None; spec 28 "meekFrontingAddressesRegex" None;
  spec 29 "meekFrontingDisableSNI" None; spec 30 "tacticsRequestPublicKey" base64Converter;
  spec 31 "tacticsRequestObfuscatedKey" base64Converter; spec 32 "configurationVersion" None;
  spec 33 "signature" base64Converter; spec 34 "disableHTTPTransforms" None;
  spec 35 "disableObfuscatedQUICTransforms" None; spec 36 "disableOSSHTransforms" None;
  spec 37 "disableOSSHPrefix" None; spec 38 "inproxySessionPublicKey" unpaddedBase64Converter;
  spec 39 "inproxySessionRootObfuscationSecret" unpaddedBase64Converter; spec 40 "inproxySSHPort" None;
  spec 41 "inproxyOSSHPort" None; spec 42 "inproxyQUICPort" None; spec 43 "inproxyMeekPort" None;
  spec 44 "inproxyTlsOSSHPort" None; spec 45 "localSource" None; spec 46 "localTimestamp" None;
  spec 47 "isLocalDerivedTag" None].

(** The maps from names and from keys. *)
Definition spec_maps : Type := gmap string packSpec * gmap Z packSpec.

(** The loops of [init]. *)
Fixpoint init_specs (specs : list packSpec) (maps : spec_maps) : res spec_maps :=
  match specs with
  | [] => Ok maps
  | s :: specs =>
      if bool_decide (is_Some (maps.1 !! name s)) then Panic "duplicate name"
      else if bool_decide (is_Some (maps.2 !! key s)) then Panic "duplicate key"
      else init_specs specs (<[name s := s]> maps.1, <[key s := s]> maps.2)
  end.

Definition init_of (specs : list packSpec) : spec_maps := match init_specs specs (∅, ∅) with Ok m => m | _ => (∅, ∅) end.
Definition packedAPIParameters : spec_maps := init_of packedAPIParameterSpecs.
Definition packedServerEntryFields : spec_maps := init_of packedServerEntryFieldSpecs.

Abbreviation packedAPIParametersNameToSpec := (packedAPIParameters.1).
Abbreviation packedAPIParametersKeyToSpec := (packedAPIParameters.2).
Abbreviation packedServerEntryFieldsNameToSpec := (packedServerEntryFields.1).
Abbreviation packedServerEntryFieldsKeyToSpec := (packedServerEntryFields.2).

Definition pack_with (s : packSpec) (v : value F) : res (value F) := match converter s with Some c => pack c v | None => Ok v end.
Definition unpack_with (s : packSpec) (v : value F) : res (value F) := match converter s with Some c => unpack c v | None => Ok v end.

(** ** API parameters *)

Abbreviation APIParameters := (gmap string (value F)).
Abbreviation PackedAPIParameters := (gmap Z (value F)).

Fixpoint encode_params (m : spec_maps) (l : list (string * value F)) (packedParams : PackedAPIParameters) : res PackedAPIParameters :=
  match l with
  | [] => Ok packedParams
  | (n, v) :: l =>
      match m.1 !! n with
      | None => Err "unknown parameter name"
      | Some s =>
          v ← pack_with s v;
          if bool_decide (is_Some (packedParams !! key s)) then Err "duplicate parameter"
          else encode_params m l (<[key s := v]> packedParams)
      end
  end.

Fixpoint decode_params (m : spec_maps) (l : list (Z * value F)) (params : APIParameters) : res APIParameters :=
  match l with
  | [] => Ok params
  | (k, v) :: l =>
      match m.2 !! k with
      | None => decode_params m l params
      | Some s =>
          v ← unpack_with s v;
          if bool_decide (is_Some (params !! name s)) then Err "duplicate parameter"
          else decode_params m l (<[name s := v]> params)
      end
  end.

(** The orders in which maps are ranged over. *)
Definition string_order := list (string * value F) -> list (string * value F).
Definition int_order := list (Z * value F) -> list (Z * value F).

Definition EncodePackedAPIParameters (order : string_order) (params : APIParameters) : res PackedAPIParameters :=
  encode_params packedAPIParameters (order (map_to_list params)) ∅.

Definition DecodePackedAPIParameters (order : int_order) (packedParams : PackedAPIParameters) : res APIParameters :=
  decode_params packedAPIParameters (order (map_to_list packedParams)) ∅.

Definition GetNetworkType (p : PackedAPIParameters) : option string :=
  match packedAPIParametersNameToSpec !! "network_type" with
  | None => None
  | Some s => match p !! key s with Some (VString networkType) => Some networkType | _ => None end
  end.

Definition packedAPIParametersDistinguisher : byte := x00.
Definition packedAPIParametersVersion : byte := x01.

(** The two bytes are appended, the payload is moved behind and the bytes are put before. *)
Definition addPackedAPIParametersPreamble (payload : bytes) : bytes :=
  let preamble := [packedAPIParametersDistinguisher; packedAPIParametersVersion] in
  let payload := payload ++ preamble in
  let payload := copy_at 2 (take (length payload - 2) payload) payload in
  copy_at 0 preamble payload.

Definition isPackedAPIParameters (payload : bytes) : option bytes :=
  match payload with
  | d :: v :: payload =>
      if negb (bool_decide (d = packedAPIParametersDistinguisher)) then None
      else if negb (bool_decide (v = packedAPIParametersVersion)) then None
      else Some payload
  | _ => None
  end.

Definition MakePackedAPIParametersRequestPayload (order : string_order) (params : APIParameters) : res bytes :=
  packedParams ← EncodePackedAPIParameters order params;
  payload ← cbor_Marshal packedParams;
  Ok (addPackedAPIParametersPreamble payload).

(** None when the payload is not packed. *)
Definition GetPackedAPIParametersRequestPayload (order : int_order) (payload : bytes) : res (option APIParameters) :=
  match isPackedAPIParameters payload with
  | None => Ok None
  | Some payload =>
      packedParams ← cbor_Unmarshal payload;
      params ← DecodePackedAPIParameters order packedParams;
      Ok (Some params)
  end.

(** ** Server entries *)

Abbreviation ServerEntryFields := (gmap string (value F)).

Record PackedServerEntryFields := { Fields : gmap Z (value F); UnrecognizedFields : gmap string (value F) }.

Fixpoint encode_fields (m : spec_maps) (l : list (string * value F)) (p : PackedServerEntryFields) : res PackedServerEntryFields :=
  match l with
  | [] => Ok p
  | (n, v) :: l =>
      match m.1 !! n with
      | None =>
          if bool_decide (is_Some (UnrecognizedFields p !! n)) then Err "duplicate field"
          else encode_fields m l {| Fields := Fields p; UnrecognizedFields := <[n := v]> (UnrecognizedFields p) |}
      | Some s =>
          v ← pack_with s v;
          if bool_decide (is_Some (Fields p !! key s)) then Err "duplicate field"
          else encode_fields m l {| Fields := <[key s := v]> (Fields p); UnrecognizedFields := UnrecognizedFields p |}
      end
  end.

Definition EncodePackedServerEntryFields (order : string_order) (fields : ServerEntryFields) : res PackedServerEntryFields :=
  encode_fields packedServerEntryFields (order (map_to_list fields)) {| Fields := ∅; UnrecognizedFields := ∅ |}.

Fixpoint decode_fields (m : spec_maps) (l : list (Z * value F)) (fields : ServerEntryFields) : res ServerEntryFields :=
  match l with
  | [] => Ok fields
  | (k, v) :: l =>
      match m.2 !! k with
      | None => Err "unknown field key"
      | Some s =>
          v ← unpack_with s v;
          if bool_decide (is_Some (fields !! name s)) then Err "duplicate field"
          else decode_fields m l (<[name s := v]> fields)
      end
  end.

Fixpoint decode_unrecognized (l : list (string * value F)) (fields : ServerEntryFields) : res ServerEntryFields :=
  match l with
  | [] => Ok fields
  | (n, v) :: l =>
      if bool_decide (is_Some (fields !! n)) then Err "duplicate field" else decode_unrecognized l (<[n := v]> fields)
  end.

Definition DecodePackedServerEntryFields (order : int_order) (names : string_order) (p : PackedServerEntryFields) : res ServerEntryFields :=
  fields ← decode_fields packedServerEntryFields (order (map_to_list (Fields p))) ∅;
  decode_unrecognized (names (map_to_list (UnrecognizedFields p))) fields.

(** ** The tables *)

(** The two maps are inverse to each other. *)
Definition consistent (m : spec_maps) : Prop :=
  (forall n s, m.1 !! n = Some s -> name s = n /\ m.2 !! key s = Some s) /\
  (forall k s, m.2 !! k = Some s -> key s = k /\ m.1 !! name s = Some s).

Lemma init_specs_consistent specs : forall m m', consistent m -> init_specs specs m = Ok m' -> consistent m'.
Proof.
  induction specs as [|s specs IH]; intros m m' Hm E; cbn [init_specs] in E; [by injection E as <-|].
  case_bool_decide as Hn; [done|]. case_bool_decide as Hk; [done|]. rewrite <- eq_None_not_Some in Hn, Hk. refine (IH _ _ _ E). clear IH E.
  destruct Hm as [H1 H2]. split; cbn.
  - intros n s' [[<- <-]|[Hne E]]%lookup_insert_Some; [split; [done|apply lookup_insert_eq]|]. destruct (H1 n s' E) as [Hn' Hk'].
    split; [done|]. rewrite lookup_insert_ne; [done|]. intros Ek. by rewrite Ek, Hk' in Hk.
  - intros k s' [[<- <-]|[Hne E]]%lookup_insert_Some; [split; [done|apply lookup_insert_eq]|]. destruct (H2 k s' E) as [Hk' Hn'].
    split; [done|]. rewrite lookup_insert_ne; [done|]. intros En. by rewrite En, Hn' in Hn.
Qed.

Lemma consistent_empty : consistent (∅, ∅).
Proof. split; cbn; intros ? ? E; by apply lookup_empty_Some in E. Qed.

Lemma init_of_consistent specs : consistent (init_of specs).
Proof.
  unfold init_of. destruct (init_specs specs (∅, ∅)) as [m|e|e|] eqn:E; [|by apply consistent_empty..].
  exact (init_specs_consistent specs (∅, ∅) m consistent_empty E).
Qed.

Lemma params_consistent : consistent packedAPIParameters.
Proof. apply init_of_consistent. Qed.

Lemma fields_consistent : consistent packedServerEntryFields.
Proof. apply init_of_consistent. Qed.

(** [init] does not panic: the names and the keys are distinct. *)
Lemma init_no_panic : is_ok (init_specs packedAPIParameterSpecs (∅, ∅)) = true /\ is_ok (init_specs packedServerEntryFieldSpecs (∅, ∅)) = true.
Proof. split; vm_compute; reflexivity. Qed.

(** The map from names holds the table. *)
Lemma init_specs_lookup specs : forall m m', init_specs specs m = Ok m' ->
  forall n s, m'.1 !! n = Some s <-> m.1 !! n = Some s \/ s ∈ specs /\ name s = n.
Proof.
  induction specs as [|s0 specs IH]; intros m m' E n s; cbn [init_specs] in E.
  - injection E as <-. rewrite elem_of_nil. tauto.
  - case_bool_decide as Hn; [done|]. case_bool_decide as Hk; [done|]. rewrite (IH _ _ E). cbn. rewrite lookup_insert_Some, elem_of_cons.
    rewrite <- eq_None_not_Some in Hn. split; [naive_solver|]. intros [?|[[->|?] ?]]; [left; right; split; [|done]|by auto..]. congruence.
Qed.

Lemma init_of_lookup specs n s : is_ok (init_specs specs (∅, ∅)) = true -> (init_of specs).1 !! n = Some s <-> s ∈ specs /\ name s = n.
Proof.
  unfold init_of. destruct (init_specs specs (∅, ∅)) as [m|e|e|] eqn:E; [|done..]. intros _. rewrite (init_specs_lookup specs _ _ E n s).
  cbn [fst]. rewrite lookup_empty. naive_solver.
Qed.

Lemma params_lookup n s : packedAPIParametersNameToSpec !! n = Some s <-> s ∈ packedAPIParameterSpecs /\ name s = n.
Proof. exact (init_of_lookup packedAPIParameterSpecs n s (proj1 init_no_panic)). Qed.

Lemma fields_lookup n s : packedServerEntryFieldsNameToSpec !! n = Some s <-> s ∈ packedServerEntryFieldSpecs /\ name s = n.
Proof. exact (init_of_lookup packedServerEntryFieldSpecs n s (proj2 init_no_panic)). Qed.

#[local] Opaque packedAPIParameters packedServerEntryFields.

(** ** Values that arrive *)

(** How values are typed when they have been encoded and decoded: [d] is the identity when
    they were only packed. *)
Class Transport (d : value F -> value F) := {
  d_string : forall s, d (VString s) = VString s;
  d_bytes : forall b, d (VBytes b) = VBytes b;
  d_float : forall f, d (VFloat f) = VFloat f;
  d_int : forall n, d (VInt n) = VInt n \/ d (VInt n) = (if n <? 0 then VInt64 n else VUint64 n);
  d_nil : d VNil = VNil
}.

(** [arrives d c v w]: the value [v] with the converter [c] is unpacked as [w].  Numbers, hex
    and base64 arrive as they were when they are in the form that the other end writes. *)
Inductive arrives (d : value F -> value F) : option packConverter -> value F -> value F -> Prop :=
| arrives_plain v : arrives d None v (d v)
| arrives_int n : - 2 ^ 63 <= n < 2 ^ 63 -> arrives d intConverter (VString (FormatInt n)) (VString (FormatInt n))
| arrives_int_float f : arrives d intConverter (VFloat f) (VString (FormatInt (int_of_float f)))
| arrives_float s f : ParseFloat s = Some f -> arrives d floatConverter (VString s) (VString (FormatFloat f))
| arrives_float_float f : arrives d floatConverter (VFloat f) (VString (FormatFloat f))
| arrives_hex_lower v s b : stringOrTextMarshal v = Ok s -> hex_DecodeString s = Some b ->
    arrives d lowerHexConverter v (VString (hex_EncodeToString b))
| arrives_hex_upper v s b : stringOrTextMarshal v = Ok s -> hex_DecodeString s = Some b ->
    arrives d upperHexConverter v (VString (ToUpper (hex_EncodeToString b)))
| arrives_base64 v s b : stringOrTextMarshal v = Ok s -> base64_DecodeString true s = Some b ->
    arrives d base64Converter v (VString (base64_EncodeToString true b))
| arrives_unpadded v s b : stringOrTextMarshal v = Ok s -> base64_DecodeString false s = Some b ->
    arrives d unpaddedBase64Converter v (VString (base64_EncodeToString false b))
| arrives_authorizations auths b : PackAuthorizations auths = Ok b -> UnpackAuthorizations b = Ok auths ->
    arrives d authorizationsConverter (VStrings auths) (VStrings auths)
| arrives_json b m : json_Object b = Ok m -> arrives d rawJSONConverter (VBytes b) (VObject m)
| arrives_no_samples : arrives d compatibleJSONMapConverter VNil VNil
| arrives_samples v l l' : d v = VSlice l -> mapM compatible_map l = Ok l' -> arrives d compatibleJSONMapConverter v (VObjects l').

Lemma unpackInt_transport d `{!Transport d} n : unpackInt (d (VInt n)) = Ok (VString (FormatInt n)).
Proof.
  destruct (d_int n) as [->| ->]; [done|]. unfold FormatInt. destruct (n <? 0) eqn:E; cbn [unpackInt]; [|done]. unfold FormatInt. by rewrite E.
Qed.

Lemma arrives_unpack d `{!Transport d} s v w : arrives d (converter s) v w -> exists p, pack_with s v = Ok p /\ unpack_with s (d p) = Ok w.
Proof.
  unfold pack_with, unpack_with. intros Ha. remember (converter s) as c eqn:Ec. clear Ec.
  destruct Ha as [v|n Hn|f|st f E|f|v st b E1 E2|v st b E1 E2|v st b E1 E2|v st b E1 E2|auths b E1 E2|b m E| |v l l' E1 E2];
    cbn [intConverter floatConverter lowerHexConverter upperHexConverter base64Converter unpaddedBase64Converter authorizationsConverter rawJSONConverter
         compatibleJSONMapConverter pack unpack].
  - by exists v.
  - exists (VInt n). unfold packInt. rewrite Atoi_FormatInt by done. split; [done|by apply unpackInt_transport].
  - exists (VInt (int_of_float f)). split; [done|by apply unpackInt_transport].
  - exists (VFloat f). unfold packFloat. rewrite E. split; [done|]. by rewrite d_float.
  - exists (VFloat f). split; [done|]. by rewrite d_float.
  - exists (VBytes b). unfold packHex. rewrite E1. cbn [mbind res_mbind]. rewrite E2. split; [done|]. by rewrite d_bytes.
  - exists (VBytes b). unfold packHex. rewrite E1. cbn [mbind res_mbind]. rewrite E2. split; [done|]. unfold unpackHexUpper. by rewrite d_bytes.
  - exists (VBytes b). unfold packBase64. rewrite E1. cbn [mbind res_mbind]. rewrite E2. split; [done|]. by rewrite d_bytes.
  - exists (VBytes b). unfold packUnpaddedBase64. rewrite E1. cbn [mbind res_mbind]. rewrite E2. split; [done|]. by rewrite d_bytes.
  - exists (VBytes b). unfold packAuthorizations. rewrite E1. split; [done|]. rewrite d_bytes. unfold unpackAuthorizations. by rewrite E2.
  - exists (VBytes b). split; [done|]. rewrite d_bytes. unfold unpackRawJSON. by rewrite E.
  - exists VNil. split; [done|]. by rewrite d_nil.
  - exists v. split; [done|]. rewrite E1. unfold unpackSliceOfJSONCompatibleMaps. by rewrite E2.
Qed.

(** ** The loops *)

(** The packed form of the entries of a list. *)
Definition packed_entry (m : spec_maps) (l : list (string * value F)) (k : Z) (p : value F) : Prop :=
  exists n v s, (n, v) ∈ l /\ m.1 !! n = Some s /\ key s = k /\ pack_with s v = Ok p.

Lemma key_injective m n1 n2 s1 s2 : consistent m -> m.1 !! n1 = Some s1 -> m.1 !! n2 = Some s2 -> key s1 = key s2 -> n1 = n2.
Proof. intros [H1 _] E1 E2 Ek. destruct (H1 _ _ E1) as [<- K1]. destruct (H1 _ _ E2) as [<- K2]. rewrite Ek, K2 in K1. by injection K1 as ->. Qed.

Lemma name_injective m k1 k2 s1 s2 : consistent m -> m.2 !! k1 = Some s1 -> m.2 !! k2 = Some s2 -> name s1 = name s2 -> k1 = k2.
Proof. intros [_ H2] E1 E2 En. destruct (H2 _ _ E1) as [<- N1]. destruct (H2 _ _ E2) as [<- N2]. rewrite En, N2 in N1. by injection N1 as ->. Qed.

Lemma encode_params_ok m l : consistent m -> forall acc, NoDup l.*1 ->
  (forall n v, (n, v) ∈ l -> exists s p, m.1 !! n = Some s /\ pack_with s v = Ok p /\ acc !! key s = None) ->
  exists r, encode_params m l acc = Ok r /\ forall k p, r !! k = Some p <-> acc !! k = Some p \/ packed_entry m l k p.
Proof.
  intros Hm. induction l as [|[n v] l IH]; intros acc Hnd Hl.
  { exists acc. split; [done|]. intros k p. split; [auto|]. intros [?|(? & ? & ? & Hin & _)]; [done|by apply not_elem_of_nil in Hin]. }
  rewrite fmap_cons in Hnd. apply list.NoDup_cons in Hnd as [Hn Hnd]. destruct (Hl n v (list_elem_of_here _ _)) as (s & p & Es & Ep & Ea).
  cbn [encode_params]. rewrite Es, Ep. cbn [mbind res_mbind].
  rewrite bool_decide_eq_false_2 by (by rewrite Ea; intros []). destruct (IH (<[key s := p]> acc) Hnd) as (r & Er & Hr).
  { intros n' v' Hin. destruct (Hl n' v' (list_elem_of_further _ _ _ Hin)) as (s' & p' & Es' & Ep' & Ea'). exists s', p'. split_and!; [done|done|].
    rewrite lookup_insert_ne; [done|]. intros Ek. apply Hn. rewrite (key_injective m n n' s s' Hm Es Es' Ek).
    by apply (list_elem_of_fmap_2 fst _ (n', v')). }
  exists r. split; [done|]. intros k p'. rewrite Hr, lookup_insert_Some. split.
  - intros [[[<- <-]|[_ ?]]|(n' & v' & s' & Hin & ?)]; [right; exists n, v, s; split; [left|done]|by left|right; exists n', v', s'; split; [by right|done]].
  - intros [Ek|(n' & v' & s' & Hin & Es' & Ek & Ep')].
    + left. right. split; [|done]. intros <-. by rewrite Ea in Ek.
    + apply elem_of_cons in Hin as [[= -> ->]|Hin]; [|right; by exists n', v', s']. rewrite Es in Es'. injection Es' as <-. rewrite Ep in Ep'.
      injection Ep' as <-. left. by left.
Qed.

(** The unpacked form of the entries of a list. *)
Definition unpacked_entry (m : spec_maps) (l : list (Z * value F)) (n : string) (w : value F) : Prop :=
  exists k v s, (k, v) ∈ l /\ m.2 !! k = Some s /\ name s = n /\ unpack_with s v = Ok w.

Lemma decode_params_ok m l : consistent m -> forall acc, NoDup l.*1 ->
  (forall k v s, (k, v) ∈ l -> m.2 !! k = Some s -> exists w, unpack_with s v = Ok w /\ acc !! name s = None) ->
  exists r, decode_params m l acc = Ok r /\ forall n w, r !! n = Some w <-> acc !! n = Some w \/ unpacked_entry m l n w.
Proof.
  intros Hm. induction l as [|[k v] l IH]; intros acc Hnd Hl.
  { exists acc. split; [done|]. intros n w. split; [auto|]. intros [?|(? & ? & ? & Hin & _)]; [done|by apply not_elem_of_nil in Hin]. }
  rewrite fmap_cons in Hnd. apply list.NoDup_cons in Hnd as [Hn Hnd]. cbn [decode_params]. destruct (m.2 !! k) as [s|] eqn:Es.
  - destruct (Hl k v s (list_elem_of_here _ _) Es) as (w & Ew & Ea). rewrite Ew. cbn [mbind res_mbind].
    rewrite bool_decide_eq_false_2 by (by rewrite Ea; intros []). destruct (IH (<[name s := w]> acc) Hnd) as (r & Er & Hr).
    { intros k' v' s' Hin Es'. destruct (Hl k' v' s' (list_elem_of_further _ _ _ Hin) Es') as (w' & Ew' & Ea'). exists w'. split; [done|].
      rewrite lookup_insert_ne; [done|]. intros En. apply Hn. rewrite (name_injective m k k' s s' Hm Es Es' En).
      by apply (list_elem_of_fmap_2 fst _ (k', v')). }
    exists r. split; [done|]. intros n w'. rewrite Hr, lookup_insert_Some. split.
    + intros [[[<- <-]|[_ ?]]|(k' & v' & s' & Hin & ?)]; [right; exists k, v, s; split; [left|done]|by left|right; exists k', v', s'; split; [by right|done]].
    + intros [En|(k' & v' & s' & Hin & Es' & En & Ew')].
      * left. right. split; [|done]. intros <-. by rewrite Ea in En.
      * apply elem_of_cons in Hin as [[= -> ->]|Hin]; [|right; by exists k', v', s']. rewrite Es in Es'. injection Es' as <-. rewrite Ew in Ew'.
        injection Ew' as <-. left. by left.
  - destruct (IH acc Hnd) as (r & Er & Hr); [intros k' v' s' Hin; apply Hl; by right|]. exists r. split; [done|]. intros n w. rewrite Hr. split.
    + intros [?|(k' & v' & s' & Hin & ?)]; [by left|right; exists k', v', s'; split; [by right|done]].
    + intros [?|(k' & v' & s' & Hin & Es' & ?)]; [by left|]. apply elem_of_cons in Hin as [[= -> ->]|Hin]; [by rewrite Es in Es'|right; by exists k', v', s'].
Qed.

(** ** From one end to the other *)

(** What is delivered of a map: every value arrives, under the converter of its name. *)
Definition delivered (d : value F -> value F) (m : spec_maps) (params out : gmap string (value F)) : Prop :=
  forall n, match params !! n, out !! n with
            | None, None => True
            | Some v, Some w => exists s, m.1 !! n = Some s /\ arrives d (converter s) v w
            | _, _ => False
            end.

(** A map is ranged over in some order. *)
Definition ordering {K : Type} (order : list (K * value F) -> list (K * value F)) : Prop := forall l, order l ≡ₚ l.

(** The entries of a map, each once. *)
Definition ranges {K} `{!EqDecision K, !Countable K} (l : list (K * value F)) (m : gmap K (value F)) : Prop :=
  NoDup l.*1 /\ forall k v, (k, v) ∈ l <-> m !! k = Some v.

Lemma order_ranges {K} order `{!EqDecision K, !Countable K} (m : gmap K (value F)) : ordering order -> ranges (order (map_to_list m)) m.
Proof.
  intros Ho. split; [rewrite (fmap_Permutation fst _ _ (Ho _)); apply NoDup_fst_map_to_list|].
  intros k v. by rewrite (Ho _), elem_of_map_to_list.
Qed.

#[local] Hint Resolve order_ranges : core.

Lemma delivered_some d m params out n v : delivered d m params out -> params !! n = Some v ->
  exists s w, m.1 !! n = Some s /\ out !! n = Some w /\ arrives d (converter s) v w.
Proof.
  intros Hd Ev. specialize (Hd n). rewrite Ev in Hd. destruct (out !! n) as [w|] eqn:Ew; [|done].
  destruct Hd as (s & Es & Ha). by exists s, w.
Qed.

(** The packed map holds the packed values, and each of them is unpacked as what arrives. *)
Lemma delivered_encode d m params out l : Transport d -> consistent m -> ranges l params -> delivered d m params out ->
  exists p, encode_params m l ∅ = Ok p /\
    forall k x, p !! k = Some x <->
      exists n v s, params !! n = Some v /\ m.1 !! n = Some s /\ key s = k /\ pack_with s v = Ok x.
Proof.
  intros Ht Hm [Hnd Hl] Hd. destruct (encode_params_ok m l Hm ∅) as (p & Ep & Hp); [done| |].
  { intros n v Hin%Hl. destruct (delivered_some d m params out n v Hd Hin) as (s & w & Es & _ & Ha).
    destruct (arrives_unpack d s v w Ha) as (x & Ex & _). exists s, x. split_and!; [done|done|apply lookup_empty]. }
  exists p. split; [done|]. intros k x. rewrite Hp, lookup_empty. unfold packed_entry. setoid_rewrite Hl. naive_solver.
Qed.

Lemma delivered_decode d m params out p l : Transport d -> consistent m -> ranges l (d <$> p) -> delivered d m params out ->
  (forall k x, p !! k = Some x <-> exists n v s, params !! n = Some v /\ m.1 !! n = Some s /\ key s = k /\ pack_with s v = Ok x) ->
  (forall k, is_Some (p !! k) -> is_Some (m.2 !! k)) /\ decode_params m l ∅ = Ok out.
Proof.
  intros Ht Hm [Hnd Hl] Hd Hp. pose proof Hm as [H1 H2].
  assert (Hunpack : forall k x s, p !! k = Some x -> m.2 !! k = Some s -> exists w, out !! name s = Some w /\ unpack_with s (d x) = Ok w).
  { intros k x s (n & v & s' & Ev & Es & Ek & Ex)%Hp Es'. destruct (H1 n s' Es) as [En E2]. rewrite Ek, Es' in E2. injection E2 as <-.
    destruct (delivered_some d m params out n v Hd Ev) as (s' & w & E1 & Ew & Ha). rewrite Es in E1. injection E1 as <-.
    destruct (arrives_unpack d s v w Ha) as (x' & Ex' & Eu). rewrite Ex in Ex'. injection Ex' as <-. exists w. by rewrite En. }
  split. { intros k [x (n & v & s & _ & Es & Ek & _)%Hp]. destruct (H1 n s Es) as [_ E2]. rewrite <- Ek, E2. eauto. }
  destruct (decode_params_ok m l Hm ∅) as (r & Er & Hr); [done| |].
  { intros k y s Hin%Hl Es. rewrite lookup_fmap in Hin. apply fmap_Some in Hin as (x & Ex & ->).
    destruct (Hunpack k x s Ex Es) as (w & _ & Ew). exists w. split; [done|apply lookup_empty]. }
  rewrite Er. f_equal. apply map_eq. intros n. apply option_eq. intros w. rewrite Hr, lookup_empty. unfold unpacked_entry.
  setoid_rewrite Hl. setoid_rewrite lookup_fmap. split.
  - intros [|(k & y & s & (x & Ex & ->)%fmap_Some & Es & En & Ew)]; [done|]. destruct (Hunpack k x s Ex Es) as (w' & Ew' & E). rewrite <- En. congruence.
  - intros Ew. right. specialize (Hd n) as Hn. rewrite Ew in Hn. destruct (params !! n) as [v|] eqn:Ev; [|done]. destruct Hn as (s & Es & Ha).
    destruct (H1 n s Es) as [En E2]. destruct (arrives_unpack d s v w Ha) as (x & Ex & Eu). exists (key s), (d x), s. split_and!; [|done..].
    replace (p !! key s) with (Some x); [done|]. symmetry. apply Hp. by exists n, v, s.
Qed.

(** *** Requests *)

Lemma preamble_added payload : addPackedAPIParametersPreamble payload = packedAPIParametersDistinguisher :: packedAPIParametersVersion :: payload.
Proof.
  unfold addPackedAPIParametersPreamble, copy_at. rewrite length_app. cbn [length]. replace (length payload + 2 - 2)%nat with (length payload) by lia.
  rewrite take_app_length. rewrite (drop_ge (payload ++ _)) by (rewrite length_app; cbn; lia). rewrite app_nil_r.
  rewrite drop_app_length' by (rewrite length_take, length_app; cbn [length]; lia). done.
Qed.

Lemma preamble_recognized payload : isPackedAPIParameters (addPackedAPIParametersPreamble payload) = Some payload.
Proof. by rewrite preamble_added. Qed.

(** A JSON object, which starts with a brace or with white space, is not taken for packed
    parameters. *)
Lemma json_not_packed b payload : b <> x00 -> isPackedAPIParameters (b :: payload) = None.
Proof. intros Hb. destruct payload as [|v payload]; [done|]. cbn. by rewrite bool_decide_eq_false_2. Qed.

(** What the callers rely on of CBOR: a map with integer keys that is encoded is decoded with
    the same keys, and its values are typed as [decoded] says. *)
Class CBORLaws := {
  decoded : value F -> value F;
  decoded_transport :: Transport decoded;
  cbor_roundtrip : forall m b, cbor_Marshal m = Ok b -> cbor_Unmarshal b = Ok (decoded <$> m)
}.

(** C15: a request's parameters reach the server.  If the parameters' names are in the table and
    the values are of the types of their converters, then packing them succeeds, whatever
    the orders in which the maps are ranged over; and when CBOR can encode the packed
    parameters, the payload that is made is recognised as packed, and the parameters that
    are got from it have the same names, with the values that [arrives] relates. *)
Theorem packed_params_roundtrip `{!CBORLaws} params out order order' :
  ordering order -> ordering order' -> delivered decoded packedAPIParameters params out ->
  is_ok (EncodePackedAPIParameters order params) = true /\
  forall payload, MakePackedAPIParametersRequestPayload order params = Ok payload ->
    GetPackedAPIParametersRequestPayload order' payload = Ok (Some out).
Proof.
  intros Ho Ho' Hd. destruct (delivered_encode decoded packedAPIParameters params out _ _ params_consistent (order_ranges order params Ho) Hd) as (p & Ep & Hp).
  unfold MakePackedAPIParametersRequestPayload, GetPackedAPIParametersRequestPayload, EncodePackedAPIParameters. rewrite Ep. split; [done|].
  cbn [mbind res_mbind]. destruct (cbor_Marshal p) as [b|e|e|] eqn:Eb; [|done..]. cbn [mbind res_mbind]. intros ? [= <-].
  rewrite preamble_recognized, (cbor_roundtrip p b Eb). cbn [mbind res_mbind]. unfold DecodePackedAPIParameters.
  by destruct (delivered_decode decoded packedAPIParameters params out p _ _ params_consistent (order_ranges order' _ Ho') Hd Hp) as [_ ->].
Qed.

(** A name that is not in the table is refused. *)
Lemma encode_unknown m l : forall acc, (exists n v, (n, v) ∈ l /\ m.1 !! n = None) -> is_ok (encode_params m l acc) = false.
Proof.
  induction l as [|[n v] l IH]; intros acc (n' & v' & Hin & En); [by apply not_elem_of_nil in Hin|]. cbn [encode_params].
  apply elem_of_cons in Hin as [[= -> ->]|Hin]; [by rewrite En|]. destruct (m.1 !! n) as [s|]; [|done]. destruct (pack_with s v); [|done..].
  cbn [mbind res_mbind]. case_bool_decide; [done|]. apply IH. by exists n', v'.
Qed.

(** *** Server entries *)

Definition known (m : spec_maps) (e : string * value F) : Prop := is_Some (m.1 !! e.1).

#[local] Instance known_dec m e : Decision (known m e).
Proof. unfold known. apply _. Defined.

(** Packing the fields packs those that are known like parameters, and keeps the others. *)
Lemma encode_fields_split m l : forall p f, NoDup l.*1 -> (forall n, n ∈ l.*1 -> UnrecognizedFields p !! n = None) ->
  encode_params m (filter (known m) l) (Fields p) = Ok f ->
  exists u, encode_fields m l p = Ok {| Fields := f; UnrecognizedFields := u |} /\
    forall n v, u !! n = Some v <-> UnrecognizedFields p !! n = Some v \/ (n, v) ∈ l /\ m.1 !! n = None.
Proof.
  induction l as [|[n v] l IH]; intros p f Hnd Hun E.
  { injection E as <-. exists (UnrecognizedFields p). split; [by destruct p|]. intros n v. rewrite elem_of_nil. tauto. }
  rewrite fmap_cons in Hnd, Hun. apply list.NoDup_cons in Hnd as [Hn Hnd]. cbn [fst] in Hn. rewrite filter_cons in E. cbn [encode_fields]. case_decide as Hk.
  - cbn [encode_params] in E. destruct Hk as [s Es]. cbn [fst] in Es. rewrite Es in *. destruct (pack_with s v) as [x|e|e|]; [|done..].
    cbn [mbind res_mbind] in *. case_bool_decide as Hf; [done|].
    destruct (IH {| Fields := <[key s := x]> (Fields p); UnrecognizedFields := UnrecognizedFields p |} f Hnd) as (u & Eu & Hu);
      [intros n' Hin; apply Hun; by right|done|]. exists u. split; [done|]. intros n' v'. rewrite Hu, elem_of_cons. cbn. split; [tauto|].
    intros [?|[[[= -> ->]|?] ?]]; [by left|congruence|by right].
  - destruct (m.1 !! n) as [s|] eqn:Es; [by destruct Hk; exists s|]. specialize (Hun n (list_elem_of_here _ _)) as Hu0.
    rewrite bool_decide_eq_false_2 by (rewrite Hu0; by intros []).
    destruct (IH {| Fields := Fields p; UnrecognizedFields := <[n := v]> (UnrecognizedFields p) |} f Hnd) as (u & Eu & Hu); [|done|].
    { intros n' Hin. cbn. rewrite lookup_insert_ne by (by intros ->). apply Hun. by right. }
    exists u. split; [done|]. intros n' v'. rewrite Hu, elem_of_cons. cbn. rewrite lookup_insert_Some. split.
    + intros [[[<- <-]|[? ?]]|[? ?]]; auto.
    + intros [?|[[[= -> ->]|?] ?]]; [|by auto..]. left. right. split; [congruence|done].
Qed.

(** When the keys are known, the fields are unpacked like parameters. *)
Lemma decode_fields_params m l : forall acc r, (forall k, k ∈ l.*1 -> is_Some (m.2 !! k)) -> decode_params m l acc = Ok r -> decode_fields m l acc = Ok r.
Proof.
  induction l as [|[k v] l IH]; intros acc r Hk E; [done|]. rewrite fmap_cons in Hk. destruct (Hk k (list_elem_of_here _ _)) as [s Es].
  cbn [decode_params decode_fields] in *. rewrite Es in *. destruct (unpack_with s v); [|done..]. cbn [mbind res_mbind] in *.
  case_bool_decide; [done|]. apply IH; [|done]. intros k' Hin. apply Hk. by right.
Qed.

Lemma decode_unrecognized_ok l : forall acc, NoDup l.*1 -> (forall n, n ∈ l.*1 -> acc !! n = None) ->
  exists r, decode_unrecognized l acc = Ok r /\ forall n v, r !! n = Some v <-> acc !! n = Some v \/ (n, v) ∈ l.
Proof.
  induction l as [|[n v] l IH]; intros acc Hnd Hl; [exists acc; split; [done|]; intros n v; rewrite elem_of_nil; tauto|].
  rewrite fmap_cons in Hnd, Hl. apply list.NoDup_cons in Hnd as [Hn Hnd]. cbn [fst] in Hn. cbn [decode_unrecognized].
  specialize (Hl n (list_elem_of_here _ _)) as Ha. rewrite bool_decide_eq_false_2 by (rewrite Ha; by intros []).
  destruct (IH (<[n := v]> acc) Hnd) as (r & Er & Hr).
  { intros n' Hin. rewrite lookup_insert_ne by (by intros ->). apply Hl. by right. }
  exists r. split; [done|]. intros n' v'. rewrite Hr, lookup_insert_Some, elem_of_cons. split; [naive_solver|].
  intros [?|[[= -> ->]|?]]; [left; right; split; [congruence|done]|by auto..].
Qed.

(** What is carried of a server entry: the known fields arrive, and the others are kept. *)
Definition carried (d : value F -> value F) (m : spec_maps) (fields out : ServerEntryFields) : Prop :=
  forall n, match fields !! n, out !! n with
            | None, None => True
            | Some v, Some w => match m.1 !! n with Some s => arrives d (converter s) v w | None => w = d v end
            | _, _ => False
            end.

(** The packed fields, with their values encoded and decoded. *)
Definition carry_packed (d : value F -> value F) (p : PackedServerEntryFields) : PackedServerEntryFields :=
  {| Fields := d <$> Fields p; UnrecognizedFields := d <$> UnrecognizedFields p |}.

Lemma known_lookup m (f : ServerEntryFields) n : filter (known m) f !! n = match m.1 !! n with Some _ => f !! n | None => None end.
Proof.
  apply option_eq. intros v. rewrite map_lookup_filter_Some. unfold known. cbn. destruct (m.1 !! n).
  - split; [by intros [? _]|eauto].
  - split; [by intros [_ []]|done].
Qed.

Lemma carried_known d m fields out : carried d m fields out -> delivered d m (filter (known m) fields) (filter (known m) out).
Proof.
  intros Hc n. specialize (Hc n). rewrite !known_lookup. destruct (m.1 !! n) as [s|]; [|done].
  destruct (fields !! n), (out !! n); try done. by exists s.
Qed.

Lemma filter_ranges m l (fields : ServerEntryFields) : ranges l fields -> ranges (filter (known m) l) (filter (known m) fields).
Proof.
  intros [Hnd Hl]. split; [|intros n v; rewrite list_elem_of_filter, map_lookup_filter_Some, Hl; tauto].
  apply (sublist_NoDup _ l.*1); [done|]. apply fmap_sublist, sublist_filter.
Qed.

(** Fields with any consistent tables. *)
Lemma fields_carried d `{!Transport d} m fields out order order' names :
  consistent m -> ordering order -> ordering order' -> ordering names -> carried d m fields out ->
  exists p, encode_fields m (order (map_to_list fields)) {| Fields := ∅; UnrecognizedFields := ∅ |} = Ok p /\
    (fields ← decode_fields m (order' (map_to_list (Fields (carry_packed d p)))) ∅;
     decode_unrecognized (names (map_to_list (UnrecognizedFields (carry_packed d p)))) fields) = Ok out.
Proof.
  intros Hm Ho Ho' Hs Hc. pose proof (carried_known d m fields out Hc) as Hd. pose proof (order_ranges order fields Ho) as Hl.
  destruct (delivered_encode d m _ _ _ _ Hm (filter_ranges m _ fields Hl) Hd) as (f & Ef & Hf). destruct Hl as [Hnd Hl].
  destruct (encode_fields_split m _ {| Fields := ∅; UnrecognizedFields := ∅ |} f Hnd (fun _ _ => lookup_empty _) Ef) as (u & Eu & Hu).
  exists {| Fields := f; UnrecognizedFields := u |}. split; [done|]. unfold carry_packed. cbn [Fields UnrecognizedFields].
  pose proof (order_ranges order' (d <$> f) Ho') as Hr'. destruct (delivered_decode d m _ _ f _ _ Hm Hr' Hd Hf) as [Hk Ed].
  rewrite (decode_fields_params m _ ∅ (filter (known m) out)); [|intros k Hin|done].
  2: { apply list_elem_of_fmap in Hin as ([k' v] & -> & Hin). apply Hr' in Hin. rewrite lookup_fmap in Hin. apply fmap_Some in Hin as (x & Ex & _).
       apply Hk. by exists x. }
  cbn [mbind res_mbind]. destruct (order_ranges names (d <$> u) Hs) as [Hndu Hlu].
  assert (Hun : forall n w, (n, w) ∈ names (map_to_list (d <$> u)) <-> m.1 !! n = None /\ out !! n = Some w).
  { intros n w. rewrite Hlu, lookup_fmap, fmap_Some. setoid_rewrite Hu. setoid_rewrite Hl. cbn [UnrecognizedFields]. specialize (Hc n). split.
    - intros (v & [?%lookup_empty_Some|[Ev En]] & ->); [done|]. rewrite Ev, En in Hc. destruct (out !! n); [|done]. by subst.
    - intros [En Ew]. rewrite En, Ew in Hc. destruct (fields !! n) as [v|]; [|done]. exists v. split; [right|]; done. }
  destruct (decode_unrecognized_ok (names (map_to_list (d <$> u))) (filter (known m) out) Hndu) as (r & Er & Hr).
  { intros n Hin. apply list_elem_of_fmap in Hin as ([n' w] & -> & [En _]%Hun). cbn. by rewrite known_lookup, En. }
  rewrite Er. f_equal. apply map_eq. intros n. apply option_eq. intros w. rewrite Hr, Hun, known_lookup.
  destruct (m.1 !! n); [split; [intros [?|[? _]]; done|auto]|split; [intros [?|[_ ?]]; done|auto]].
Qed.

(** Values in the form that the other end writes: decimal integers of 64 bits and formatted
    floats as strings, hex in the case of the converter, padded or unpadded base64 without
    line ends, and anything that the codec leaves alone where there is no converter. *)
Inductive canonical (d : value F -> value F) : option packConverter -> value F -> Prop :=
| canonical_plain v : d v = v -> canonical d None v
| canonical_int n : - 2 ^ 63 <= n < 2 ^ 63 -> canonical d intConverter (VString (FormatInt n))
| canonical_float f : ParseFloat (FormatFloat f) = Some f -> canonical d floatConverter (VString (FormatFloat f))
| canonical_hex_lower b : canonical d lowerHexConverter (VString (hex_EncodeToString b))
| canonical_hex_upper b : canonical d upperHexConverter (VString (ToUpper (hex_EncodeToString b)))
| canonical_base64 b : canonical d base64Converter (VString (base64_EncodeToString true b))
| canonical_unpadded b : canonical d unpaddedBase64Converter (VString (base64_EncodeToString false b)).

Lemma canonical_arrives d c v : canonical d c v -> arrives d c v v.
Proof.
  intros [w E|n Hn|f E|b|b|b|b].
  - rewrite <- E at 2. constructor.
  - by constructor.
  - by constructor.
  - eapply arrives_hex_lower; [done|apply hex_roundtrip].
  - eapply arrives_hex_upper; [done|apply hex_roundtrip].
  - eapply arrives_base64; [done|apply base64_roundtrip].
  - eapply arrives_unpadded; [done|apply base64_roundtrip].
Qed.

(** A server entry whose values are all in that form; a field that is not in the table has a
    value that the codec leaves alone. *)
Definition canonical_fields (d : value F -> value F) (m : spec_maps) (fields : ServerEntryFields) : Prop :=
  forall n v, fields !! n = Some v -> match m.1 !! n with Some s => canonical d (converter s) v | None => d v = v end.

Lemma canonical_carried d m fields : canonical_fields d m fields -> carried d m fields fields.
Proof.
  intros Hc n. specialize (Hc n). destruct (fields !! n) as [v|]; [|done]. specialize (Hc v eq_refl).
  destruct (m.1 !! n); [by apply canonical_arrives|done].
Qed.

(** C16: server entries are packed and unpacked, whatever the order of iteration over their maps,
    with the packed values encoded and decoded by a codec that keeps strings, bytes and floats
    and types integers as CBOR does (or not touched at all).  First, an entry whose values are
    all in the form that the other end writes ([canonical_fields]) comes back exactly as it
    was, with the fields that the table does not know.  Second, values of the converters' types
    that are not in that form are packed too, and come back under the same names in the form
    that [carried] relates them to: a number or a float port as a decimal string, hex in the
    case of the converter, base64 in its standard spelling, and a value without converter, or
    of an unknown field, as the codec leaves it. *)
Theorem packed_fields_roundtrip d `{!Transport d} fields order order' names :
  ordering order -> ordering order' -> ordering names ->
  (canonical_fields d packedServerEntryFields fields ->
   exists p, EncodePackedServerEntryFields order fields = Ok p /\ DecodePackedServerEntryFields order' names (carry_packed d p) = Ok fields) /\
  (forall out, carried d packedServerEntryFields fields out ->
   exists p, EncodePackedServerEntryFields order fields = Ok p /\ DecodePackedServerEntryFields order' names (carry_packed d p) = Ok out).
Proof.
  intros Ho Ho' Hs. split; [intros Hc%canonical_carried|intros out Hc];
    exact (fields_carried d packedServerEntryFields fields _ order order' names fields_consistent Ho Ho' Hs Hc).
Qed.

End Packed.


(** ** Examples *)

(** Floats are integers here, and CBOR encodes the example alone. *)
Definition typed (v : value Z) : value Z := match v with VInt n => if n <? 0 then VInt64 n else VUint64 n | v => v end.

Definition example_pack_libraries : PackLibraries Z := {|
  ParseFloat := fun s => Some (Atoi s).1;
  FormatFloat := FormatInt;
  int_of_float := fun f => f;
  json_Object := fun _ => Err "unexpected end of JSON input";
  cbor_Marshal := fun m => match map_to_list m with
                           | [(k, VInt n)] => if bool_decide (k = 8 /\ n = 42) then Ok [x2a] else Err "unsupported value"
                           | _ => Err "unsupported value"
                           end;
  cbor_Unmarshal := fun b => if bool_decide (b = [x2a]) then Ok {[8 := VUint64 42]} else Err "EOF" |}.

#[export] Instance typed_transport : Transport typed.
Proof. split; try done. intros n. by right. Qed.

Lemma singleton_of_list (m : gmap Z (value Z)) k v : map_to_list m = [(k, v)] -> m = {[k := v]}.
Proof. intros E. rewrite <- (list_to_map_to_list m), E. done. Qed.

Lemma example_cbor (m : gmap Z (value Z)) b :
  @cbor_Marshal Z example_pack_libraries m = Ok b -> @cbor_Unmarshal Z example_pack_libraries b = Ok (typed <$> m).
Proof.
  cbn. intros E. destruct (map_to_list m) as [|[k v] [|]] eqn:Em; [done| |by destruct v].
  destruct v; try done. case_bool_decide as H; [|done]. destruct H as [-> ->]. injection E as <-. apply singleton_of_list in Em as ->. by rewrite map_fmap_singleton.
Qed.

Definition example_cbor_laws : @CBORLaws Z example_pack_libraries := {| cbor_roundtrip := example_cbor |}.

Definition example_params : gmap string (value Z) := {["client_version" := VString "42"]}.

Lemma example_delivered : @delivered Z example_pack_libraries example_libraries_auth typed
  (@packedAPIParameters Z example_pack_libraries example_libraries_auth) example_params example_params.
Proof.
  intros n. unfold example_params. destruct (decide (n = "client_version")) as [->|Hn]; [|by rewrite lookup_singleton_ne].
  rewrite lookup_singleton_eq. exists (spec 8 "client_version" (@intConverter Z example_pack_libraries)).
  split; [apply params_lookup; split; [apply (list_elem_of_lookup_2 _ 7)|]; reflexivity|].
  apply (@arrives_int Z example_pack_libraries example_libraries_auth typed 42). lia.
Qed.

Lemma packed_params_roundtrip_witness :
  @MakePackedAPIParametersRequestPayload Z example_pack_libraries example_libraries_auth id example_params = Ok [x00; x01; x2a] /\
  @GetPackedAPIParametersRequestPayload Z example_pack_libraries example_libraries_auth id [x00; x01; x2a] = Ok (Some example_params).
Proof.
  destruct (@packed_params_roundtrip Z example_pack_libraries example_libraries_auth example_cbor_laws example_params example_params id id
    (fun l => Permutation_refl l) (fun l => Permutation_refl l) example_delivered) as [_ H].
  assert (E : @MakePackedAPIParametersRequestPayload Z example_pack_libraries example_libraries_auth id example_params = Ok [x00; x01; x2a])
    by (vm_compute; reflexivity).
  split; [exact E|exact (H _ E)].
Defined.

Definition example_fields : gmap string (value Z) :=
  <["webServerPort" := VString "80"]> (<["providerID" := VString "AB"]> {["futureField" := VBool true]}).

(** The same entry as a client may hold it: the port as a number, the identifier in lower case. *)
Definition example_fields_given : gmap string (value Z) :=
  <["webServerPort" := VFloat 80]> (<["providerID" := VString "ab"]> {["futureField" := VBool true]}).

Lemma example_spec k n c : (0 < k)%nat -> @packedServerEntryFieldSpecs Z example_pack_libraries !! (k - 1)%nat = Some (spec (Z.of_nat k) n c) ->
  (@packedServerEntryFields Z example_pack_libraries).1 !! n = Some (spec (Z.of_nat k) n c).
Proof. intros _ E. apply (@fields_lookup Z example_pack_libraries example_libraries_auth). split; [by apply (list_elem_of_lookup_2 _ (k - 1))|done]. Qed.

Lemma example_unknown : (@packedServerEntryFields Z example_pack_libraries).1 !! "futureField" = None.
Proof.
  destruct (_.1 !! "futureField") as [s|] eqn:E; [|reflexivity]. apply (@fields_lookup Z example_pack_libraries example_libraries_auth) in E as [Hin E].
  assert (Hn' : "futureField" ∉ name <$> @packedServerEntryFieldSpecs Z example_pack_libraries)
    by (refine (bool_decide_unpack _ _); vm_compute; exact I).
  destruct Hn'. rewrite <- E. by apply list_elem_of_fmap_2.
Qed.

Lemma example_canonical : @canonical_fields Z example_pack_libraries typed (@packedServerEntryFields Z example_pack_libraries) example_fields.
Proof.
  intros n v. unfold example_fields. rewrite !lookup_insert_Some, lookup_singleton_Some. intros [[<- <-]|[_ [[<- <-]|[_ [<- <-]]]]].
  - rewrite (example_spec 3 "webServerPort" (@intConverter Z example_pack_libraries)) by (reflexivity || lia).
    apply (@canonical_int Z example_pack_libraries typed 80). lia.
  - rewrite (example_spec 18 "providerID" (@upperHexConverter Z)) by (reflexivity || lia). apply (@canonical_hex_upper Z example_pack_libraries typed [xab]).
  - by rewrite example_unknown.
Qed.

Lemma example_carried : @carried Z example_pack_libraries example_libraries_auth typed
  (@packedServerEntryFields Z example_pack_libraries) example_fields_given example_fields.
Proof.
  intros n. unfold example_fields, example_fields_given. destruct (decide (n = "webServerPort")) as [->|Hn].
  { rewrite !lookup_insert_eq, (example_spec 3 "webServerPort" (@intConverter Z example_pack_libraries)) by (reflexivity || lia).
    apply (@arrives_int_float Z example_pack_libraries example_libraries_auth typed 80). }
  rewrite !(lookup_insert_ne _ "webServerPort") by congruence. destruct (decide (n = "providerID")) as [->|Hn'].
  { rewrite !lookup_insert_eq, (example_spec 18 "providerID" (@upperHexConverter Z)) by (reflexivity || lia).
    by apply (@arrives_hex_upper Z example_pack_libraries example_libraries_auth typed (VString "ab") "ab" [xab]). }
  rewrite !(lookup_insert_ne _ "providerID") by congruence. destruct (decide (n = "futureField")) as [->|Hn'']; [|by rewrite lookup_singleton_ne by congruence].
  rewrite lookup_singleton_eq. by rewrite example_unknown.
Qed.

(** An entry in the canonical form, and the same one with a port as a number and a lower-case
    identifier. *)
Lemma packed_fields_roundtrip_witness :
  (exists p, @EncodePackedServerEntryFields Z example_pack_libraries id example_fields = Ok p /\
    @DecodePackedServerEntryFields Z example_pack_libraries id id (carry_packed typed p) = Ok example_fields) /\
  (exists p, @EncodePackedServerEntryFields Z example_pack_libraries id example_fields_given = Ok p /\
    @DecodePackedServerEntryFields Z example_pack_libraries id id (carry_packed typed p) = Ok example_fields).
Proof.
  destruct (@packed_fields_roundtrip Z example_pack_libraries example_libraries_auth typed _ example_fields id id id
    (fun l => Permutation_refl l) (fun l => Permutation_refl l) (fun l => Permutation_refl l)) as [H _].
  destruct (@packed_fields_roundtrip Z example_pack_libraries example_libraries_auth typed _ example_fields_given id id id
    (fun l => Permutation_refl l) (fun l => Permutation_refl l) (fun l => Permutation_refl l)) as [_ H'].
  split; [exact (H example_canonical)|exact (H' _ example_carried)].
Defined.
