(* ===== verification/Protocol.v ===== *)
(** * Tunnel protocols

    Models src/psiphon/common/protocol/protocol.go: the names of the tunnel protocols, of
    their in-proxy variants, of the TLS profiles and of the QUIC versions, the functions
    that classify them, and the lists of them that configurations hold.

    The lists that the package's [init] extends are the lists after it has run. *)

From Stdlib Require Import ZArith Lia Strings.String.
From stdpp Require Import base list strings sorting.
From S2P Require Import Prelude.
From S2P Require Import Wildcard.
From S2P Require Import GoStrings.
#[local] Open Scope string_scope.
#[local] Open Scope list_scope.

#[local] Infix "==" := (fun a b : string => bool_decide (a = b)) (at level 70, no associativity).
#[local] Infix "!=" := (fun a b : string => negb (bool_decide (a = b))) (at level 70, no associativity).

(** ** Names *)

Definition TUNNEL_PROTOCOL_SSH : string := "SSH".
Definition TUNNEL_PROTOCOL_OBFUSCATED_SSH : string := "OSSH".
Definition TUNNEL_PROTOCOL_TLS_OBFUSCATED_SSH : string := "TLS-OSSH".
Definition TUNNEL_PROTOCOL_SHADOWSOCKS_OSSH : string := "SHADOWSOCKS-OSSH".
Definition TUNNEL_PROTOCOL_UNFRONTED_MEEK : string := "UNFRONTED-MEEK-OSSH".
Definition TUNNEL_PROTOCOL_UNFRONTED_MEEK_HTTPS : string := "UNFRONTED-MEEK-HTTPS-OSSH".
Definition TUNNEL_PROTOCOL_UNFRONTED_MEEK_SESSION_TICKET : string := "UNFRONTED-MEEK-SESSION-TICKET-OSSH".
Definition TUNNEL_PROTOCOL_FRONTED_MEEK : string := "FRONTED-MEEK-OSSH".
Definition TUNNEL_PROTOCOL_FRONTED_MEEK_HTTP : string := "FRONTED-MEEK-HTTP-OSSH".
Definition TUNNEL_PROTOCOL_QUIC_OBFUSCATED_SSH : string := "QUIC-OSSH".
Definition TUNNEL_PROTOCOL_FRONTED_MEEK_QUIC_OBFUSCATED_SSH : string := "FRONTED-MEEK-QUIC-OSSH".
Definition TUNNEL_PROTOCOL_TAPDANCE_OBFUSCATED_SSH : string := "TAPDANCE-OSSH".
Definition TUNNEL_PROTOCOL_CONJURE_OBFUSCATED_SSH : string := "CONJURE-OSSH".

Definition FRONTING_TRANSPORT_HTTPS : string := "FRONTED-HTTPS".
Definition FRONTING_TRANSPORT_HTTP : string := "FRONTED-HTTP".
Definition FRONTING_TRANSPORT_QUIC : string := "FRONTED-QUIC".

Definition INPROXY_PROTOCOL_WEBRTC : string := "INPROXY-WEBRTC".

Definition SERVER_ENTRY_SOURCE_EMBEDDED : string := "EMBEDDED".
Definition SERVER_ENTRY_SOURCE_REMOTE : string := "REMOTE".
Definition SERVER_ENTRY_SOURCE_DISCOVERY : string := "DISCOVERY".
Definition SERVER_ENTRY_SOURCE_TARGET : string := "TARGET".
Definition SERVER_ENTRY_SOURCE_OBFUSCATED : string := "OBFUSCATED".
Definition SERVER_ENTRY_SOURCE_EXCHANGED : string := "EXCHANGED".
Definition SERVER_ENTRY_SOURCE_DSL : string := "DSL-*".
Definition SERVER_ENTRY_SOURCE_PUSH : string := "PUSH-*".

Definition PSIPHON_API_PROTOCOL_SSH : string := "ssh".
Definition PSIPHON_API_PROTOCOL_WEB : string := "web".
Definition PSIPHON_API_ENCODING_CBOR : string := "cbor".
Definition PSIPHON_API_ENCODING_JSON : string := "json".
Definition PSIPHON_API_HANDSHAKE_CLIENT_VERSION : string := "client_version".

Definition SupportedServerEntrySources : list string :=
  [ SERVER_ENTRY_SOURCE_EMBEDDED; SERVER_ENTRY_SOURCE_REMOTE; SERVER_ENTRY_SOURCE_DISCOVERY;
    SERVER_ENTRY_SOURCE_TARGET; SERVER_ENTRY_SOURCE_OBFUSCATED; SERVER_ENTRY_SOURCE_EXCHANGED;
    SERVER_ENTRY_SOURCE_DSL; SERVER_ENTRY_SOURCE_PUSH ].

Definition PushServerEntrySource (source : string) : string := "PUSH-" +:+ source.

Definition AllowServerEntrySourceWithUpstreamProxy (source : string) : bool :=
  (source == SERVER_ENTRY_SOURCE_EMBEDDED) || (source == SERVER_ENTRY_SOURCE_REMOTE).

Definition PsiphonAPIProtocolIsValid (protocol : string) : bool :=
  (protocol == PSIPHON_API_PROTOCOL_SSH) || (protocol == PSIPHON_API_PROTOCOL_WEB).

Definition PsiphonAPIEncodingIsValid (protocol : string) : bool :=
  (protocol == PSIPHON_API_ENCODING_CBOR) || (protocol == PSIPHON_API_ENCODING_JSON).

(** ** In-proxy variants *)

Definition TunnelProtocolPlusInproxyWebRTC (protocol : string) : string :=
  INPROXY_PROTOCOL_WEBRTC +:+ "-" +:+ protocol.

(** [strings.CutPrefix] leaves a string without the prefix as it is. *)
Definition TunnelProtocolMinusInproxy (protocol : string) : string :=
  default protocol (CutPrefix protocol (INPROXY_PROTOCOL_WEBRTC +:+ "-")).

Definition TunnelProtocolUsesInproxy (protocol : string) : bool :=
  string_HasPrefix protocol INPROXY_PROTOCOL_WEBRTC.

Definition TunnelProtocolUsesRefractionNetworking (protocol : string) : bool :=
  (protocol == TUNNEL_PROTOCOL_TAPDANCE_OBFUSCATED_SSH) ||
  (protocol == TUNNEL_PROTOCOL_CONJURE_OBFUSCATED_SSH).

Definition TunnelProtocolIsCompatibleWithInproxy (protocol : string) : bool :=
  negb (TunnelProtocolUsesRefractionNetworking protocol).

(** The lists as declared, before [init]. *)
Definition declaredTunnelProtocols : list string :=
  [ TUNNEL_PROTOCOL_SSH; TUNNEL_PROTOCOL_OBFUSCATED_SSH; TUNNEL_PROTOCOL_TLS_OBFUSCATED_SSH;
    TUNNEL_PROTOCOL_UNFRONTED_MEEK; TUNNEL_PROTOCOL_UNFRONTED_MEEK_HTTPS;
    TUNNEL_PROTOCOL_UNFRONTED_MEEK_SESSION_TICKET; TUNNEL_PROTOCOL_FRONTED_MEEK;
    TUNNEL_PROTOCOL_FRONTED_MEEK_HTTP; TUNNEL_PROTOCOL_QUIC_OBFUSCATED_SSH;
    TUNNEL_PROTOCOL_FRONTED_MEEK_QUIC_OBFUSCATED_SSH; TUNNEL_PROTOCOL_TAPDANCE_OBFUSCATED_SSH;
    TUNNEL_PROTOCOL_CONJURE_OBFUSCATED_SSH; TUNNEL_PROTOCOL_SHADOWSOCKS_OSSH ].

Definition declaredDefaultDisabledTunnelProtocols : list string :=
  [ TUNNEL_PROTOCOL_FRONTED_MEEK_QUIC_OBFUSCATED_SSH; TUNNEL_PROTOCOL_TAPDANCE_OBFUSCATED_SSH;
    TUNNEL_PROTOCOL_CONJURE_OBFUSCATED_SSH ].

Definition DisabledTunnelProtocols : list string :=
  [ TUNNEL_PROTOCOL_TAPDANCE_OBFUSCATED_SSH ].

Definition InproxyTunnelProtocols : list string :=
  map TunnelProtocolPlusInproxyWebRTC (List.filter TunnelProtocolIsCompatibleWithInproxy declaredTunnelProtocols).

Definition SupportedTunnelProtocols : list string := declaredTunnelProtocols ++ InproxyTunnelProtocols.

Definition DefaultDisabledTunnelProtocols : list string :=
  declaredDefaultDisabledTunnelProtocols ++ InproxyTunnelProtocols.

(** ** Classification *)

Definition TunnelProtocolUsesMeekHTTP (protocol : string) : bool :=
  let protocol := TunnelProtocolMinusInproxy protocol in
  (protocol == TUNNEL_PROTOCOL_UNFRONTED_MEEK) ||
  (protocol == TUNNEL_PROTOCOL_FRONTED_MEEK_HTTP).

Definition TunnelProtocolUsesMeekHTTPS (protocol : string) : bool :=
  let protocol := TunnelProtocolMinusInproxy protocol in
  (protocol == TUNNEL_PROTOCOL_FRONTED_MEEK) ||
  (protocol == TUNNEL_PROTOCOL_UNFRONTED_MEEK_HTTPS) ||
  (protocol == TUNNEL_PROTOCOL_UNFRONTED_MEEK_SESSION_TICKET).

Definition TunnelProtocolUsesFrontedMeekQUIC (protocol : string) : bool :=
  let protocol := TunnelProtocolMinusInproxy protocol in
  (protocol == TUNNEL_PROTOCOL_FRONTED_MEEK_QUIC_OBFUSCATED_SSH).

Definition TunnelProtocolUsesMeek (protocol : string) : bool :=
  let protocol := TunnelProtocolMinusInproxy protocol in
  TunnelProtocolUsesMeekHTTP protocol || TunnelProtocolUsesMeekHTTPS protocol ||
  TunnelProtocolUsesFrontedMeekQUIC protocol.

Definition TunnelProtocolUsesFrontedMeek (protocol : string) : bool :=
  let protocol := TunnelProtocolMinusInproxy protocol in
  (protocol == TUNNEL_PROTOCOL_FRONTED_MEEK) || (protocol == TUNNEL_PROTOCOL_FRONTED_MEEK_HTTP) ||
  (protocol == TUNNEL_PROTOCOL_FRONTED_MEEK_QUIC_OBFUSCATED_SSH).

Definition TunnelProtocolUsesTCP (protocol : string) : bool :=
  let protocol := TunnelProtocolMinusInproxy protocol in
  (protocol != TUNNEL_PROTOCOL_QUIC_OBFUSCATED_SSH) &&
  (protocol != TUNNEL_PROTOCOL_FRONTED_MEEK_QUIC_OBFUSCATED_SSH).

Definition TunnelProtocolIsObfuscatedSSH (protocol : string) : bool :=
  let protocol := TunnelProtocolMinusInproxy protocol in
  (protocol == TUNNEL_PROTOCOL_OBFUSCATED_SSH).

Definition TunnelProtocolUsesObfuscatedSSH (protocol : string) : bool :=
  let protocol := TunnelProtocolMinusInproxy protocol in
  (protocol != TUNNEL_PROTOCOL_SSH).

Definition TunnelProtocolUsesTLSOSSH (protocol : string) : bool :=
  let protocol := TunnelProtocolMinusInproxy protocol in
  (protocol == TUNNEL_PROTOCOL_TLS_OBFUSCATED_SSH).

Definition TunnelProtocolUsesMeekHTTPNormalizer (protocol : string) : bool :=
  let protocol := TunnelProtocolMinusInproxy protocol in
  (protocol == TUNNEL_PROTOCOL_UNFRONTED_MEEK).

Definition TunnelProtocolUsesObfuscatedSessionTickets (protocol : string) : bool :=
  let protocol := TunnelProtocolMinusInproxy protocol in
  (protocol == TUNNEL_PROTOCOL_UNFRONTED_MEEK_SESSION_TICKET).

Definition TunnelProtocolUsesQUIC (protocol : string) : bool :=
  let protocol := TunnelProtocolMinusInproxy protocol in
  (protocol == TUNNEL_PROTOCOL_QUIC_OBFUSCATED_SSH) ||
  (protocol == TUNNEL_PROTOCOL_FRONTED_MEEK_QUIC_OBFUSCATED_SSH).

Definition TunnelProtocolUsesFrontedMeekNonHTTPS (protocol : string) : bool :=
  let protocol := TunnelProtocolMinusInproxy protocol in
  (protocol == TUNNEL_PROTOCOL_FRONTED_MEEK_HTTP) ||
  (protocol == TUNNEL_PROTOCOL_FRONTED_MEEK_QUIC_OBFUSCATED_SSH).

Definition TunnelProtocolUsesTapDance (protocol : string) : bool :=
  (protocol == TUNNEL_PROTOCOL_TAPDANCE_OBFUSCATED_SSH).

Definition TunnelProtocolUsesConjure (protocol : string) : bool :=
  (protocol == TUNNEL_PROTOCOL_CONJURE_OBFUSCATED_SSH).

Definition TunnelProtocolUsesShadowsocks (protocol : string) : bool :=
  let protocol := TunnelProtocolMinusInproxy protocol in
  (protocol == TUNNEL_PROTOCOL_SHADOWSOCKS_OSSH).

Definition TunnelProtocolIsResourceIntensive (protocol : string) : bool :=
  TunnelProtocolUsesMeek protocol || TunnelProtocolUsesQUIC protocol ||
  TunnelProtocolUsesRefractionNetworking protocol || TunnelProtocolUsesInproxy protocol.

Definition TunnelProtocolIsCompatibleWithFragmentor (protocol : string) : bool :=
  let protocol := TunnelProtocolMinusInproxy protocol in
  (protocol == TUNNEL_PROTOCOL_SSH) || (protocol == TUNNEL_PROTOCOL_OBFUSCATED_SSH) ||
  (protocol == TUNNEL_PROTOCOL_TLS_OBFUSCATED_SSH) ||
  (protocol == TUNNEL_PROTOCOL_UNFRONTED_MEEK) ||
  (protocol == TUNNEL_PROTOCOL_UNFRONTED_MEEK_HTTPS) ||
  (protocol == TUNNEL_PROTOCOL_UNFRONTED_MEEK_SESSION_TICKET) ||
  (protocol == TUNNEL_PROTOCOL_FRONTED_MEEK) || (protocol == TUNNEL_PROTOCOL_FRONTED_MEEK_HTTP) ||
  (protocol == TUNNEL_PROTOCOL_CONJURE_OBFUSCATED_SSH) ||
  (protocol == TUNNEL_PROTOCOL_SHADOWSOCKS_OSSH).

Definition TunnelProtocolIsDirect (protocol : string) : bool :=
  (protocol == TUNNEL_PROTOCOL_SSH) || (protocol == TUNNEL_PROTOCOL_OBFUSCATED_SSH) ||
  (protocol == TUNNEL_PROTOCOL_TLS_OBFUSCATED_SSH) ||
  (protocol == TUNNEL_PROTOCOL_UNFRONTED_MEEK) ||
  (protocol == TUNNEL_PROTOCOL_UNFRONTED_MEEK_HTTPS) ||
  (protocol == TUNNEL_PROTOCOL_UNFRONTED_MEEK_SESSION_TICKET) ||
  (protocol == TUNNEL_PROTOCOL_QUIC_OBFUSCATED_SSH) ||
  (protocol == TUNNEL_PROTOCOL_SHADOWSOCKS_OSSH).

Definition TunnelProtocolRequiresTLS12SessionTickets (protocol : string) : bool :=
  let protocol := TunnelProtocolMinusInproxy protocol in
  (protocol == TUNNEL_PROTOCOL_UNFRONTED_MEEK_SESSION_TICKET).

Definition TunnelProtocolRequiresTLS13Support (protocol : string) : bool :=
  let protocol := TunnelProtocolMinusInproxy protocol in
  (protocol == TUNNEL_PROTOCOL_TLS_OBFUSCATED_SSH).

Definition TunnelProtocolSupportsPassthrough (protocol : string) : bool :=
  let protocol := TunnelProtocolMinusInproxy protocol in
  (protocol == TUNNEL_PROTOCOL_UNFRONTED_MEEK_HTTPS) ||
  (protocol == TUNNEL_PROTOCOL_UNFRONTED_MEEK_SESSION_TICKET) ||
  (protocol == TUNNEL_PROTOCOL_UNFRONTED_MEEK) ||
  (protocol == TUNNEL_PROTOCOL_TLS_OBFUSCATED_SSH).

Definition TunnelProtocolSupportsUpstreamProxy (protocol : string) : bool :=
  negb (TunnelProtocolUsesInproxy protocol) && negb (TunnelProtocolUsesQUIC protocol).

Definition TunnelProtocolSupportsTactics (protocol : string) : bool :=
  if TunnelProtocolUsesMeekHTTPNormalizer protocol then false else
  TunnelProtocolUsesMeek protocol.

Definition TunnelProtocolMayUseServerPacketManipulation (protocol : string) : bool :=
  let protocol := TunnelProtocolMinusInproxy protocol in
  (protocol == TUNNEL_PROTOCOL_SSH) || (protocol == TUNNEL_PROTOCOL_OBFUSCATED_SSH) ||
  (protocol == TUNNEL_PROTOCOL_TLS_OBFUSCATED_SSH) ||
  (protocol == TUNNEL_PROTOCOL_UNFRONTED_MEEK) ||
  (protocol == TUNNEL_PROTOCOL_UNFRONTED_MEEK_HTTPS) ||
  (protocol == TUNNEL_PROTOCOL_UNFRONTED_MEEK_SESSION_TICKET) ||
  (protocol == TUNNEL_PROTOCOL_SHADOWSOCKS_OSSH).

Definition TunnelProtocolMayUseClientBPF (protocol : string) : bool :=
  if TunnelProtocolUsesInproxy protocol then false else
  (protocol != TUNNEL_PROTOCOL_QUIC_OBFUSCATED_SSH) &&
  (protocol != TUNNEL_PROTOCOL_FRONTED_MEEK_QUIC_OBFUSCATED_SSH).

(** ** Lists in configurations *)

(** The loop of the [Validate] methods: the first entry that is refused is the error. *)
Fixpoint check_all (ok : string -> bool) (msg : string) (l : list string) : res unit :=
  match l with
  | [] => Ok tt
  | p :: l => if ok p then check_all ok msg l else Err (msg +:+ p)
  end.

(** The loop of the [Validate] methods of the labelled maps, in the order in which the map
    is iterated. *)
Fixpoint check_labeled (validate : list string -> res unit) (l : list (string * list string)) : res unit :=
  match l with
  | [] => Ok tt
  | (_, protocols) :: l => _ ← validate protocols; check_labeled validate l
  end.

Definition tunnel_protocol_ok (p : string) : bool :=
  list_Contains SupportedTunnelProtocols p && negb (list_Contains DisabledTunnelProtocols p).

Definition TunnelProtocols_Validate (t : list string) : res unit :=
  check_all tunnel_protocol_ok "invalid tunnel protocol: " t.

Definition TunnelProtocols_PruneInvalid (t : list string) : list string := List.filter tunnel_protocol_ok t.

Definition PruneNonInproxyTunnelProtocols (t : list string) : list string := List.filter TunnelProtocolUsesInproxy t.

Definition PruneInproxyTunnelProtocols (t : list string) : list string :=
  List.filter (fun p => negb (TunnelProtocolUsesInproxy p)) t.

Definition IsOnlyInproxyTunnelProtocols (t : list string) : bool := forallb TunnelProtocolUsesInproxy t.

Definition HasInproxyTunnelProtocols (t : list string) : bool := existsb TunnelProtocolUsesInproxy t.

Definition LabeledTunnelProtocols_Validate (l : list (string * list string)) : res unit :=
  check_labeled TunnelProtocols_Validate l.

Definition LabeledTunnelProtocols_PruneInvalid (l : list (string * list string)) : list (string * list string) :=
  map (fun kv => (kv.1, TunnelProtocols_PruneInvalid kv.2)) l.

(** The count of fronted protocols, up to 2. *)
Fixpoint several_fronted (count : nat) (serverProtocols : list string) : bool :=
  match serverProtocols with
  | [] => false
  | protocol :: l =>
      if TunnelProtocolUsesFrontedMeek protocol then
        if (1 <? S count)%nat then true else several_fronted (S count) l
      else several_fronted count l
  end.

Definition IsValidClientTunnelProtocol (clientProtocol listenerProtocol : string) (serverProtocols : list string) : bool :=
  if negb (list_Contains serverProtocols clientProtocol) then false
  else if clientProtocol == listenerProtocol then true
  else if negb (TunnelProtocolUsesFrontedMeek clientProtocol) then false
  else several_fronted 0 serverProtocols.

Definition FrontingTransports_Validate (l : list string) : res unit :=
  check_all (fun t => (t == FRONTING_TRANSPORT_HTTPS) || (t == FRONTING_TRANSPORT_HTTP) || (t == FRONTING_TRANSPORT_QUIC))
    "invalid fronting transport: " l.

Definition EquivilentTunnelProtocol (t : string) : res string :=
  if t == FRONTING_TRANSPORT_HTTPS then Ok TUNNEL_PROTOCOL_FRONTED_MEEK
  else if t == FRONTING_TRANSPORT_HTTP then Ok TUNNEL_PROTOCOL_FRONTED_MEEK_HTTP
  else if t == FRONTING_TRANSPORT_QUIC then Ok TUNNEL_PROTOCOL_FRONTED_MEEK_QUIC_OBFUSCATED_SSH
  else Err ("invalid fronting transport: " +:+ t).

(** ** TLS profiles *)

Definition TLS_PROFILE_IOS_111 : string := "iOS-11.1".
Definition TLS_PROFILE_IOS_121 : string := "iOS-12.1".
Definition TLS_PROFILE_IOS_13 : string := "iOS-13".
Definition TLS_PROFILE_IOS_14 : string := "iOS-14".
Definition TLS_PROFILE_SAFARI_16 : string := "Safari-16".
Definition TLS_PROFILE_CHROME_58 : string := "Chrome-58".
Definition TLS_PROFILE_CHROME_62 : string := "Chrome-62".
Definition TLS_PROFILE_CHROME_70 : string := "Chrome-70".
Definition TLS_PROFILE_CHROME_72 : string := "Chrome-72".
Definition TLS_PROFILE_CHROME_83 : string := "Chrome-83".
Definition TLS_PROFILE_CHROME_96 : string := "Chrome-96".
Definition TLS_PROFILE_CHROME_102 : string := "Chrome-102".
Definition TLS_PROFILE_CHROME_106 : string := "Chrome-106".
Definition TLS_PROFILE_CHROME_112_PSK : string := "Chrome-112_PSK".
Definition TLS_PROFILE_CHROME_120 : string := "Chrome-120".
Definition TLS_PROFILE_CHROME_120_PQ : string := "Chrome-120_PQ".
Definition TLS_PROFILE_FIREFOX_55 : string := "Firefox-55".
Definition TLS_PROFILE_FIREFOX_56 : string := "Firefox-56".
Definition TLS_PROFILE_FIREFOX_65 : string := "Firefox-65".
Definition TLS_PROFILE_FIREFOX_99 : string := "Firefox-99".
Definition TLS_PROFILE_FIREFOX_105 : string := "Firefox-105".
Definition TLS_PROFILE_RANDOMIZED : string := "Randomized-v2".

Definition SupportedTLSProfiles : list string :=
  [ TLS_PROFILE_IOS_111; TLS_PROFILE_IOS_121; TLS_PROFILE_IOS_13; TLS_PROFILE_IOS_14;
    TLS_PROFILE_SAFARI_16; TLS_PROFILE_CHROME_58; TLS_PROFILE_CHROME_62; TLS_PROFILE_CHROME_70;
    TLS_PROFILE_CHROME_72; TLS_PROFILE_CHROME_83; TLS_PROFILE_CHROME_96; TLS_PROFILE_CHROME_102;
    TLS_PROFILE_CHROME_106; TLS_PROFILE_CHROME_112_PSK; TLS_PROFILE_CHROME_120;
    TLS_PROFILE_CHROME_120_PQ; TLS_PROFILE_FIREFOX_55; TLS_PROFILE_FIREFOX_56;
    TLS_PROFILE_FIREFOX_65; TLS_PROFILE_FIREFOX_99; TLS_PROFILE_FIREFOX_105;
    TLS_PROFILE_RANDOMIZED ].

Definition legacyTLSProfiles : list string :=
  [ "iOS-Safari-11.3.1"; "Android-6.0"; "Android-5.1"; "Chrome-57"; "Randomized";
    "TLS-1.3-Randomized"; "Firefox-102" ].

Definition TLSProfileIsRandomized (tlsProfile : string) : bool :=
  (tlsProfile == TLS_PROFILE_RANDOMIZED).

Definition TLS12ProfileOmitsSessionTickets (tlsProfile : string) : bool :=
  if (tlsProfile == TLS_PROFILE_IOS_111) || (tlsProfile == TLS_PROFILE_IOS_121) then true else
  false.

Definition TLSProfiles_Validate (customTLSProfiles profiles : list string) : res unit :=
  check_all (fun p => list_Contains SupportedTLSProfiles p || list_Contains customTLSProfiles p ||
                      list_Contains legacyTLSProfiles p) "invalid TLS profile: " profiles.

Definition TLSProfiles_PruneInvalid (customTLSProfiles profiles : list string) : list string :=
  List.filter (fun p => list_Contains SupportedTLSProfiles p || list_Contains customTLSProfiles p) profiles.

Definition LabeledTLSProfiles_Validate (customTLSProfiles : list string) (l : list (string * list string)) : res unit :=
  check_labeled (TLSProfiles_Validate customTLSProfiles) l.

Definition LabeledTLSProfiles_PruneInvalid (customTLSProfiles : list string) (l : list (string * list string))
  : list (string * list string) :=
  map (fun kv => (kv.1, TLSProfiles_PruneInvalid customTLSProfiles kv.2)) l.

(** ** QUIC versions and Conjure transports *)

Definition QUIC_VERSION_GQUIC39 : string := "gQUICv39".
Definition QUIC_VERSION_GQUIC43 : string := "gQUICv43".
Definition QUIC_VERSION_GQUIC44 : string := "gQUICv44".
Definition QUIC_VERSION_OBFUSCATED : string := "OBFUSCATED".
Definition QUIC_VERSION_V1 : string := "QUICv1".
Definition QUIC_VERSION_RANDOMIZED_V1 : string := "RANDOMIZED-QUICv1".
Definition QUIC_VERSION_OBFUSCATED_V1 : string := "OBFUSCATED-QUICv1".
Definition QUIC_VERSION_DECOY_V1 : string := "DECOY-QUICv1".

Definition SupportedGQUICVersions : list string :=
  [ QUIC_VERSION_GQUIC39; QUIC_VERSION_GQUIC43; QUIC_VERSION_GQUIC44; QUIC_VERSION_OBFUSCATED ].

Definition SupportedQUICv1Versions : list string :=
  [ QUIC_VERSION_V1; QUIC_VERSION_RANDOMIZED_V1; QUIC_VERSION_OBFUSCATED_V1;
    QUIC_VERSION_DECOY_V1 ].

Definition legacyQUICVersions : list string :=
  [ "IETF-draft-24" ].

(** Whether gQUIC is enabled is chosen when the program is built. *)
Definition SupportedQUICVersions (gquic : bool) : list string :=
  (if gquic then SupportedGQUICVersions else []) ++ SupportedQUICv1Versions.

Definition QUICVersionHasRandomizedClientHello (version : string) : bool :=
  (version == QUIC_VERSION_RANDOMIZED_V1).

Definition QUICVersionIsObfuscated (version : string) : bool :=
  (version == QUIC_VERSION_OBFUSCATED) || (version == QUIC_VERSION_OBFUSCATED_V1) ||
  (version == QUIC_VERSION_DECOY_V1).

Definition QUICVersionUsesPathMTUDiscovery (version : string) : bool :=
  (version != QUIC_VERSION_GQUIC39) && (version != QUIC_VERSION_GQUIC43) &&
  (version != QUIC_VERSION_GQUIC44) && (version != QUIC_VERSION_OBFUSCATED).

Definition QUICVersions_Validate (gquic : bool) (versions : list string) : res unit :=
  check_all (fun v => list_Contains (SupportedQUICVersions gquic) v || list_Contains legacyQUICVersions v)
    "invalid QUIC version: " versions.

Definition QUICVersions_PruneInvalid (gquic : bool) (versions : list string) : list string :=
  List.filter (list_Contains (SupportedQUICVersions gquic)) versions.

Definition LabeledQUICVersions_Validate (gquic : bool) (l : list (string * list string)) : res unit :=
  check_labeled (QUICVersions_Validate gquic) l.

Definition LabeledQUICVersions_PruneInvalid (gquic : bool) (l : list (string * list string)) : list (string * list string) :=
  map (fun kv => (kv.1, QUICVersions_PruneInvalid gquic kv.2)) l.

Definition CONJURE_TRANSPORT_MIN_OSSH : string := "Min-OSSH".
Definition CONJURE_TRANSPORT_PREFIX_OSSH : string := "Prefix-OSSH".
Definition CONJURE_TRANSPORT_DTLS_OSSH : string := "DTLS-OSSH".

Definition SupportedConjureTransports : list string :=
  [ CONJURE_TRANSPORT_MIN_OSSH; CONJURE_TRANSPORT_PREFIX_OSSH; CONJURE_TRANSPORT_DTLS_OSSH ].

Definition ConjureTransportUsesSTUN (transport : string) : bool :=
  (transport == CONJURE_TRANSPORT_DTLS_OSSH).

Definition ConjureTransportUsesDTLS (transport : string) : bool :=
  (transport == CONJURE_TRANSPORT_DTLS_OSSH).

Definition ConjureTransports_Validate (transports : list string) : res unit :=
  check_all (list_Contains SupportedConjureTransports) "invalid Conjure transport: " transports.

Definition ConjureTransports_PruneInvalid (transports : list string) : list string :=
  List.filter (list_Contains SupportedConjureTransports) transports.

(** ** Properties *)

(** *** In-proxy variants *)

Lemma CutPrefix_app prefix r : CutPrefix (prefix +:+ r) prefix = Some r.
Proof. by apply CutPrefix_spec. Qed.

Lemma MinusInproxy_Plus p : TunnelProtocolMinusInproxy (TunnelProtocolPlusInproxyWebRTC p) = p.
Proof.
  unfold TunnelProtocolMinusInproxy.
  change (TunnelProtocolPlusInproxyWebRTC p) with ((INPROXY_PROTOCOL_WEBRTC +:+ "-") +:+ p). by rewrite CutPrefix_app.
Qed.

Lemma UsesInproxy_Plus p : TunnelProtocolUsesInproxy (TunnelProtocolPlusInproxyWebRTC p) = true.
Proof. unfold TunnelProtocolUsesInproxy. apply string_HasPrefix_spec. by exists ("-" +:+ p). Qed.

(** *** The table of protocols *)

(** The kinds of connection a tunnel protocol may be, of which each has one. *)
Definition kinds (p : string) : list bool :=
  [ TunnelProtocolMinusInproxy p == TUNNEL_PROTOCOL_SSH; TunnelProtocolIsObfuscatedSSH p;
    TunnelProtocolUsesTLSOSSH p; TunnelProtocolUsesShadowsocks p; TunnelProtocolUsesMeekHTTP p;
    TunnelProtocolUsesMeekHTTPS p; TunnelProtocolUsesQUIC p; TunnelProtocolUsesTapDance p;
    TunnelProtocolUsesConjure p ].

(** The routes by which a client reaches the server, of which each protocol has one. *)
Definition routes (p : string) : list bool :=
  [ TunnelProtocolIsDirect p; TunnelProtocolUsesFrontedMeek p && negb (TunnelProtocolUsesInproxy p);
    TunnelProtocolUsesRefractionNetworking p; TunnelProtocolUsesInproxy p ].

Definition exactly_one (l : list bool) : bool := (length (List.filter id l) =? 1)%nat.

(** The classification of one supported protocol. *)
Definition classified (p : string) : bool :=
  exactly_one (kinds p) && exactly_one (routes p) &&
  bool_decide (TunnelProtocolUsesTCP p = negb (TunnelProtocolUsesQUIC p)) &&
  implb (TunnelProtocolUsesFrontedMeek p) (TunnelProtocolUsesMeek p) &&
  implb (TunnelProtocolSupportsTactics p) (TunnelProtocolUsesMeek p) &&
  implb (TunnelProtocolIsCompatibleWithFragmentor p) (TunnelProtocolUsesTCP p) &&
  implb (TunnelProtocolUsesInproxy p)
    (bool_decide (p = TunnelProtocolPlusInproxyWebRTC (TunnelProtocolMinusInproxy p)) &&
     list_Contains declaredTunnelProtocols (TunnelProtocolMinusInproxy p) &&
     list_Contains DefaultDisabledTunnelProtocols p).

Lemma supported_classified : forallb classified SupportedTunnelProtocols = true.
Proof. vm_compute. reflexivity. Qed.

(** The supported tunnel protocols are distinct, and each is of exactly one kind (SSH,
    obfuscated SSH, TLS, Shadowsocks, meek over HTTP or HTTPS, QUIC, TapDance, Conjure) and
    reaches the server by exactly one route (direct, fronted, refraction, in-proxy); it
    uses TCP unless it is QUIC; and one that uses an in-proxy is the variant of a declared
    protocol, disabled by default. *)
Theorem tunnel_protocol_taxonomy :
  NoDup SupportedTunnelProtocols /\
  (forall p, p ∈ SupportedTunnelProtocols ->
    exactly_one (kinds p) = true /\ exactly_one (routes p) = true /\
    TunnelProtocolUsesTCP p = negb (TunnelProtocolUsesQUIC p) /\
    (TunnelProtocolUsesInproxy p = true -> exists base, base ∈ declaredTunnelProtocols /\
       p = TunnelProtocolPlusInproxyWebRTC base /\ p ∈ DefaultDisabledTunnelProtocols)).
Proof.
  split; [by apply (bool_decide_unpack _); vm_compute|].
  intros p Hp. pose proof supported_classified as H. rewrite forallb_forall in H.
  specialize (H p ltac:(by apply list_elem_of_In)). unfold classified in H.
  repeat (apply andb_true_iff in H as [H ?]). split_and!; [done..|by eapply bool_decide_eq_true_1|].
  intros Hi. rewrite Hi in *. cbn [implb] in *.
  repeat match goal with H : _ && _ = true |- _ => apply andb_true_iff in H as [??] end.
  eexists. rewrite <- !list_Contains_spec. split_and!; [done|by eapply bool_decide_eq_true_1|done].
Qed.

Lemma tunnel_protocol_taxonomy_witness : exactly_one (routes "INPROXY-WEBRTC-QUIC-OSSH") = true.
Proof. refine (proj1 (proj2 (proj2 tunnel_protocol_taxonomy "INPROXY-WEBRTC-QUIC-OSSH" _))). apply list_Contains_spec. reflexivity. Defined.

(** *** Validation and pruning *)

Lemma check_all_ok ok msg l : check_all ok msg l = Ok tt <-> Forall (fun p => ok p = true) l.
Proof.
  induction l as [|p l IH]; cbn; [by split; [constructor|]|].
  rewrite Forall_cons. destruct (ok p); [rewrite IH; tauto|]. split; [done|by intros []].
Qed.

Lemma check_all_err ok msg l : check_all ok msg l <> Ok tt ->
  exists l1 p l2, l = l1 ++ p :: l2 /\ Forall (fun p => ok p = true) l1 /\ ok p = false /\
    check_all ok msg l = Err (msg +:+ p).
Proof.
  induction l as [|p l IH]; cbn; [done|]. destruct (ok p) eqn:E.
  - intros (l1 & q & l2 & -> & ? & ? & ?)%IH. exists (p :: l1), q, l2. by split_and!; [|constructor| |].
  - intros _. exists [], p, l. by split_and!.
Qed.

Lemma check_all_filter ok ok' msg l :
  (forall p, ok' p = true -> ok p = true) -> check_all ok msg (List.filter ok' l) = Ok tt.
Proof.
  intros H. apply check_all_ok, list.Forall_forall. intros p Hp. apply H.
  rewrite list_elem_of_In in Hp. by apply List.filter_In in Hp as [].
Qed.

Lemma filter_all (ok : string -> bool) l : Forall (fun p => ok p = true) l <-> List.filter ok l = l.
Proof.
  split; [induction 1 as [|p l Hp _ IH]; cbn; [done|by rewrite Hp, IH]|].
  intros H. apply list.Forall_forall. intros p Hp. rewrite <- H, list_elem_of_In in Hp. by apply List.filter_In in Hp as [].
Qed.

(** Pruning leaves a list that is valid, and leaves a valid list as it is, for tunnel
    protocols and Conjure transports; for TLS profiles and QUIC versions too, except that
    the legacy names, which are valid, are pruned.  A list that is refused is refused with
    its first entry that is not supported. *)
Theorem prune_validate :
  (forall t, TunnelProtocols_Validate (TunnelProtocols_PruneInvalid t) = Ok tt /\
     (TunnelProtocols_Validate t = Ok tt <-> TunnelProtocols_PruneInvalid t = t) /\
     (TunnelProtocols_Validate t <> Ok tt -> exists l1 p l2, t = l1 ++ p :: l2 /\
        TunnelProtocols_Validate l1 = Ok tt /\ (p ∉ SupportedTunnelProtocols \/ p ∈ DisabledTunnelProtocols) /\
        TunnelProtocols_Validate t = Err ("invalid tunnel protocol: " +:+ p))) /\
  (forall t, ConjureTransports_Validate (ConjureTransports_PruneInvalid t) = Ok tt /\
     (ConjureTransports_Validate t = Ok tt <-> ConjureTransports_PruneInvalid t = t)) /\
  (forall custom t, TLSProfiles_Validate custom (TLSProfiles_PruneInvalid custom t) = Ok tt /\
     (TLSProfiles_PruneInvalid custom t = t -> TLSProfiles_Validate custom t = Ok tt)) /\
  (forall gquic t, QUICVersions_Validate gquic (QUICVersions_PruneInvalid gquic t) = Ok tt /\
     (QUICVersions_PruneInvalid gquic t = t -> QUICVersions_Validate gquic t = Ok tt)).
Proof.
  split_and!.
  - intros t. split_and!; [by apply check_all_filter|unfold TunnelProtocols_Validate; by rewrite check_all_ok, filter_all|].
    intros (l1 & p & l2 & -> & Hl1 & Hp & Herr)%check_all_err. exists l1, p, l2. split_and!; [done|by apply check_all_ok| |done].
    unfold tunnel_protocol_ok in Hp. rewrite <- !list_Contains_spec.
    destruct (list_Contains SupportedTunnelProtocols p), (list_Contains DisabledTunnelProtocols p); naive_solver.
  - intros t. split; [by apply check_all_filter|unfold ConjureTransports_Validate; by rewrite check_all_ok, filter_all].
  - intros custom t.
    assert (TLSProfiles_Validate custom (TLSProfiles_PruneInvalid custom t) = Ok tt) as H.
    { apply check_all_filter. intros p ->. done. }
    split; [done|]. intros E. by rewrite E in H.
  - intros gquic t.
    assert (QUICVersions_Validate gquic (QUICVersions_PruneInvalid gquic t) = Ok tt) as H.
    { apply check_all_filter. intros p ->. done. }
    split; [done|]. intros E. by rewrite E in H.
Qed.

(** *** The protocol a client reports *)

Lemma several_fronted_spec count l :
  several_fronted count l = true <->
  List.filter TunnelProtocolUsesFrontedMeek l <> [] /\
  (2 <= count + length (List.filter TunnelProtocolUsesFrontedMeek l))%nat.
Proof.
  revert count. induction l as [|p l IH]; intros count; cbn; [naive_solver|].
  destruct (TunnelProtocolUsesFrontedMeek p); cbn [length]; [|apply IH].
  destruct count as [|count]; cbn.
  - rewrite IH. destruct (List.filter _ l); cbn; split; [naive_solver lia..|naive_solver lia|naive_solver lia].
  - split; [|done]. intros _. split; [done|lia].
Qed.

(** A client's reported tunnel protocol is accepted exactly when the server runs it
    and it is the protocol of the listener, or it is fronted and the server runs at least
    two fronted protocols. *)
Theorem IsValidClientTunnelProtocol_correct clientProtocol listenerProtocol serverProtocols :
  IsValidClientTunnelProtocol clientProtocol listenerProtocol serverProtocols = true <->
  clientProtocol ∈ serverProtocols /\
  (clientProtocol = listenerProtocol \/
   TunnelProtocolUsesFrontedMeek clientProtocol = true /\
   (2 <= length (List.filter TunnelProtocolUsesFrontedMeek serverProtocols))%nat).
Proof.
  unfold IsValidClientTunnelProtocol. rewrite <- list_Contains_spec.
  destruct (list_Contains serverProtocols clientProtocol); cbn; [|naive_solver].
  case_bool_decide; [naive_solver|]. destruct (TunnelProtocolUsesFrontedMeek clientProtocol); cbn; [|naive_solver].
  rewrite several_fronted_spec. cbn. destruct (List.filter _ serverProtocols); cbn; naive_solver lia.
Qed.
