(* ===== verification/ApiParams.v ===== *)
(** * API request parameters

    Models the parameters of the API requests of src/psiphon/server/api.go: the
    specifications of the parameters, their validation, the functions that read them, and
    the selection of those that are logged.

    A parameter is the value decoded from CBOR or JSON.  The parts of Go's library that
    parse IP addresses, floating point numbers, base64 text and dates, and the case
    tables of Unicode, are a record of functions, an argument of the definitions. *)

From Stdlib Require Import ZArith Lia Strings.Byte Strings.Ascii Strings.String.
From stdpp Require Import base gmap list sets strings numbers.
From S2P Require Import Prelude.
From S2P Require Import Wildcard.
From S2P Require Import GoStrings.
From S2P Require Import Protocol.
#[local] Open Scope string_scope.
#[local] Open Scope Z_scope.
#[local] Open Scope list_scope.

(** ** Values *)

(** [VNil] is a nil interface; [VFloat] holds the bits of a float64. *)
Inductive value :=
| VNil
| VString (s : string)
| VInt (n : Z)
| VFloat (bits : Z)
| VBool (b : bool)
| VStrings (l : list string)
| VArray (l : list value)
| VObject (m : list (string * value)).

(** [common.APIParameters] *)
Abbreviation APIParameters := (gmap string value).

(** [params[name]], where an absent entry and a nil are alike. *)
Definition get (params : APIParameters) (name : string) : option value :=
  match params !! name with Some VNil => None | v => v end.

Record library := {
  ParseIP : string -> bool;
  ParseFloat : string -> Z * bool;
  base64_Std : string -> bool;
  base64_RawStd : string -> bool;
  time_Parse : string -> bool;
  ToLower : string -> string;
  SplitHost : string -> string;
  int64_of_float : Z -> Z
}.

(** ** Constants *)

Definition PADDING_MAX_BYTES : Z := 16 * 1024.
Definition SPONSOR_ID_LENGTH : nat := 16.
Definition CLIENT_PLATFORM_ANDROID : string := "Android".
Definition CLIENT_PLATFORM_WINDOWS : string := "Windows".
Definition CLIENT_PLATFORM_IOS : string := "iOS".
Definition CLIENT_PLATFORM_OTHER : string := "Other".
Definition SPEED_TEST_SAMPLES_PARAMETER_NAME : string := "speed_test_samples".
Definition APPLIED_TACTICS_TAG_PARAMETER_NAME : string := "applied_tactics_tag".
Definition STORED_TACTICS_TAG_PARAMETER_NAME : string := "stored_tactics_tag".

Definition requestParamOptional : Z := 1.
Definition requestParamNotLogged : Z := Z.shiftl 1 1.
Definition requestParamArray : Z := Z.shiftl 1 2.
Definition requestParamJSON : Z := Z.shiftl 1 3.
Definition requestParamLogStringAsInt : Z := Z.shiftl 1 4.
Definition requestParamLogStringAsFloat : Z := Z.shiftl 1 5.
Definition requestParamLogStringLengthAsInt : Z := Z.shiftl 1 6.
Definition requestParamLogFlagAsBool : Z := Z.shiftl 1 7.
Definition requestParamLogOnlyForFrontedMeekOrConjure : Z := Z.shiftl 1 8.
Definition requestParamNotLoggedForUnfrontedMeekNonTransformedHeader : Z := Z.shiftl 1 9.
Definition requestParamLogOmittedFlagAsFalse : Z := Z.shiftl 1 10.

#[local] Infix ".|" := Z.lor (at level 50, left associativity).

(** [flags&bit != 0] *)
Definition has (flags bit : Z) : bool := negb (Z.land flags bit =? 0).

(** ** Validators *)

Definition all_chars (ok : ascii -> bool) (value : string) : bool := forallb ok (chars value).

Definition between (lo hi : ascii) (c : ascii) : bool :=
  (nat_of_ascii lo <=? nat_of_ascii c)%nat && (nat_of_ascii c <=? nat_of_ascii hi)%nat.

Definition isAnyString (value : string) : bool := true.

(** [unicode.ASCII_Hex_Digit]: a byte that is not ASCII is part of no such rune. *)
Definition isHexDigits (value : string) : bool :=
  all_chars (fun c => between "0" "9" c || between "a" "f" c || between "A" "F" c) value.

Definition isSponsorID (value : string) : bool :=
  (String.length value =? SPONSOR_ID_LENGTH)%nat && isHexDigits value.

Definition isDigits (value : string) : bool := all_chars (between "0" "9") value.

Definition isIntString (value : string) : bool := (Atoi value).2.

(** The runes of [unicode.White_Space], in UTF-8: as none begins inside another rune, one
    is in a string exactly when its bytes are. *)
Definition white_space : list (list ascii) :=
  map (fun l => map ascii_of_nat l)
    ([[9]; [10]; [11]; [12]; [13]; [32]; [194; 133]; [194; 160]; [225; 154; 128];
      [226; 128; 168]; [226; 128; 169]; [226; 128; 175]; [226; 129; 159]; [227; 128; 128]]%nat
     ++ map (fun n => [226; 128; n]%nat) (seq 128 11)).

Definition isClientPlatform (value : string) : bool :=
  forallb (fun w => negb (occurs w (chars value))) white_space.

Definition isRelayProtocol (value : string) : bool := list_Contains SupportedTunnelProtocols value.

Definition isBooleanFlag (value : string) : bool := bool_decide (value = "0") || bool_decide (value = "1").

Definition isRegionCode (value : string) : bool :=
  (String.length value =? 2)%nat && all_chars (between "A" "Z") value.

(** The class [[a-zA-Z\d-]]. *)
Definition domain_char (c : ascii) : bool :=
  between "a" "z" c || between "A" "Z" c || between "0" "9" c || bool_decide (c = "-"%char).

(** [isDomainRegex], [[a-zA-Z\d-]{1,63}$]: some 1 to 63 characters of the class, at the
    end of the text.  The expression is not anchored at its start. *)
Definition isDomainRegex_Match (part : list ascii) : bool :=
  existsb (fun n => (n <=? length part)%nat && forallb domain_char (drop (length part - n) part)) (seq 1 63).

Definition trim_dot (value : list ascii) : list ascii :=
  match list.last value with
  | Some "."%char => take (length value - 1) value
  | _ => value
  end.

Definition domain_part_ok (part : list ascii) : bool :=
  negb (bool_decide (hd_error part = Some "-"%char) || bool_decide (list.last part = Some "-"%char)) &&
  isDomainRegex_Match part.

Definition isDomain (value : string) : bool :=
  (String.length value <=? 255)%nat && forallb domain_part_ok (Split "." (trim_dot (chars value))).

Definition isServerEntrySource (value : string) : bool :=
  match ContainsWildcard SupportedServerEntrySources value with Ok b => b | _ => false end.

Definition geohashAlphabet : string := "0123456789bcdefghjkmnpqrstuvwxyz".

Definition isGeoHashString (value : string) : bool :=
  (1 <=? String.length value)%nat && (String.length value <=? 12)%nat &&
  all_chars (fun c => bool_decide (c ∈ chars geohashAlphabet)) value.

(** ** Specifications *)

Record requestParamSpec := param {
  name : string;
  validator : option (string -> bool);
  flags : Z
}.

Section Library.

Context (L : library).

Definition isBase64String (value : string) : bool := base64_Std L value.
Definition isUnpaddedBase64String (value : string) : bool := base64_RawStd L value.
Definition isFloatString (value : string) : bool := (ParseFloat L value).2.
Definition isIPAddress (value : string) : bool := ParseIP L value.
Definition isISO8601Date (value : string) : bool := time_Parse L value.

Definition isLastConnected (value : string) : bool := bool_decide (value = "None") || isISO8601Date value.

Definition isUpstreamProxyType (value : string) : bool :=
  let value := ToLower L value in
  bool_decide (value = "http") || bool_decide (value = "socks5") || bool_decide (value = "socks4a").

Definition isDialAddress (value : string) : bool :=
  match map string_of_list_ascii (Split ":" (chars value)) with
  | [host; port] => (isIPAddress host || isDomain host) && isDigits port && (Atoi port).2
  | _ => false
  end.

Definition isHostHeader (value : string) : bool :=
  if bool_decide (":"%char ∈ chars value) then isDialAddress value
  else isIPAddress value || isDomain value.

Definition baseParams : list requestParamSpec :=
  [ param "propagation_channel_id" (Some isHexDigits) 0;
    param "sponsor_id" (Some isSponsorID) 0;
    param "client_version" (Some isIntString) requestParamLogStringAsInt;
    param "client_platform" (Some isClientPlatform) 0;
    param "client_features" (Some isAnyString) (requestParamOptional .| requestParamArray);
    param "client_build_rev" (Some isHexDigits) requestParamOptional;
    param "device_region" (Some isAnyString) requestParamOptional;
    param "device_location" (Some isGeoHashString) requestParamOptional;
    param "egress_region" (Some isRegionCode) requestParamOptional;
    param "network_type" (Some isAnyString) requestParamOptional;
    param APPLIED_TACTICS_TAG_PARAMETER_NAME (Some isAnyString) requestParamOptional;
    param "compress_response" (Some isIntString) (requestParamOptional .| requestParamNotLogged) ].

Definition baseDialParams : list requestParamSpec :=
  [ param "relay_protocol" (Some isRelayProtocol) 0;
    param "ssh_client_version" (Some isAnyString) requestParamOptional;
    param "upstream_proxy_type" (Some isUpstreamProxyType) requestParamOptional;
    param "upstream_proxy_custom_header_names" (Some isAnyString) (requestParamOptional .| requestParamArray);
    param "fronting_provider_id" (Some isAnyString) requestParamOptional;
    param "meek_dial_address" (Some isDialAddress) (requestParamOptional .| requestParamLogOnlyForFrontedMeekOrConjure);
    param "meek_resolved_ip_address" (Some isIPAddress) (requestParamOptional .| requestParamLogOnlyForFrontedMeekOrConjure);
    param "meek_sni_server_name" (Some isDomain) requestParamOptional;
    param "meek_host_header" (Some isHostHeader) (requestParamOptional .| requestParamNotLoggedForUnfrontedMeekNonTransformedHeader);
    param "meek_transformed_host_name" (Some isBooleanFlag) (requestParamOptional .| requestParamLogFlagAsBool);
    param "user_agent" (Some isAnyString) requestParamOptional;
    param "tls_profile" (Some isAnyString) requestParamOptional;
    param "tls_version" (Some isAnyString) requestParamOptional;
    param "server_entry_region" (Some isRegionCode) requestParamOptional;
    param "server_entry_source" (Some isServerEntrySource) requestParamOptional;
    param "server_entry_timestamp" (Some isISO8601Date) requestParamOptional;
    param "dial_port_number" (Some isIntString) (requestParamOptional .| requestParamLogStringAsInt);
    param "quic_version" (Some isAnyString) requestParamOptional;
    param "quic_dial_sni_address" (Some isAnyString) requestParamOptional;
    param "quic_disable_client_path_mtu_discovery" (Some isBooleanFlag) (requestParamOptional .| requestParamLogFlagAsBool);
    param "upstream_bytes_fragmented" (Some isIntString) (requestParamOptional .| requestParamLogStringAsInt);
    param "upstream_min_bytes_written" (Some isIntString) (requestParamOptional .| requestParamLogStringAsInt);
    param "upstream_max_bytes_written" (Some isIntString) (requestParamOptional .| requestParamLogStringAsInt);
    param "upstream_min_delayed" (Some isIntString) (requestParamOptional .| requestParamLogStringAsInt);
    param "upstream_max_delayed" (Some isIntString) (requestParamOptional .| requestParamLogStringAsInt);
    param "padding" (Some isAnyString) (requestParamOptional .| requestParamLogStringLengthAsInt);
    param "pad_response" (Some isIntString) (requestParamOptional .| requestParamLogStringAsInt);
    param "is_replay" (Some isBooleanFlag) (requestParamOptional .| requestParamLogFlagAsBool .| requestParamLogOmittedFlagAsFalse);
    param "replay_ignored_change" (Some isBooleanFlag) (requestParamOptional .| requestParamLogFlagAsBool .| requestParamLogOmittedFlagAsFalse);
    param "dsl_prioritized" (Some isBooleanFlag) (requestParamOptional .| requestParamLogFlagAsBool .| requestParamLogOmittedFlagAsFalse);
    param "dsl_prioritized_reason" (Some isAnyString) requestParamOptional;
    param "dsl_prioritized_tunnel_protocol" (Some isRelayProtocol) requestParamOptional;
    param "dial_duration" (Some isIntString) (requestParamOptional .| requestParamLogStringAsInt);
    param "candidate_number" (Some isIntString) (requestParamOptional .| requestParamLogStringAsInt);
    param "established_tunnels_count" (Some isIntString) (requestParamOptional .| requestParamLogStringAsInt);
    param "upstream_ossh_padding" (Some isIntString) (requestParamOptional .| requestParamLogStringAsInt);
    param "meek_cookie_size" (Some isIntString) (requestParamOptional .| requestParamLogStringAsInt);
    param "meek_limit_request" (Some isIntString) (requestParamOptional .| requestParamLogStringAsInt);
    param "meek_redial_probability" (Some isFloatString) (requestParamOptional .| requestParamLogStringAsFloat);
    param "meek_tls_padding" (Some isIntString) (requestParamOptional .| requestParamLogStringAsInt);
    param "network_latency_multiplier" (Some isFloatString) (requestParamOptional .| requestParamLogStringAsFloat);
    param "client_bpf" (Some isAnyString) requestParamOptional;
    param "conjure_cached" (Some isBooleanFlag) (requestParamOptional .| requestParamLogFlagAsBool);
    param "conjure_delay" (Some isIntString) (requestParamOptional .| requestParamLogStringAsInt);
    param "conjure_transport" (Some isAnyString) requestParamOptional;
    param "conjure_prefix" (Some isAnyString) requestParamOptional;
    param "conjure_stun" (Some isAnyString) requestParamOptional;
    param "conjure_empty_packet" (Some isBooleanFlag) (requestParamOptional .| requestParamLogFlagAsBool);
    param "conjure_network" (Some isAnyString) requestParamOptional;
    param "conjure_port_number" (Some isAnyString) requestParamOptional;
    param "split_tunnel" (Some isBooleanFlag) (requestParamOptional .| requestParamLogFlagAsBool);
    param "split_tunnel_regions" (Some isRegionCode) (requestParamOptional .| requestParamArray);
    param "dns_preresolved" (Some isAnyString) requestParamOptional;
    param "dns_preferred" (Some isAnyString) requestParamOptional;
    param "dns_transform" (Some isAnyString) requestParamOptional;
    param "dns_qname_random_casing" (Some isBooleanFlag) (requestParamOptional .| requestParamLogFlagAsBool);
    param "dns_qname_must_match" (Some isBooleanFlag) (requestParamOptional .| requestParamLogFlagAsBool);
    param "dns_qname_mismatches" (Some isIntString) (requestParamOptional .| requestParamLogStringAsInt);
    param "dns_attempt" (Some isIntString) (requestParamOptional .| requestParamLogStringAsInt);
    param "http_transform" (Some isAnyString) requestParamOptional;
    param "seed_transform" (Some isAnyString) requestParamOptional;
    param "ossh_prefix" (Some isAnyString) requestParamOptional;
    param "shadowsocks_prefix" (Some isAnyString) requestParamOptional;
    param "tls_fragmented" (Some isBooleanFlag) (requestParamOptional .| requestParamLogFlagAsBool);
    param "tls_padding" (Some isIntString) (requestParamOptional .| requestParamLogStringAsInt);
    param "tls_ossh_sni_server_name" (Some isDomain) requestParamOptional;
    param "tls_ossh_transformed_host_name" (Some isBooleanFlag) (requestParamOptional .| requestParamLogFlagAsBool);
    param "steering_ip" (Some isIPAddress) (requestParamOptional .| requestParamLogOnlyForFrontedMeekOrConjure);
    param "tls_sent_ticket" (Some isBooleanFlag) (requestParamOptional .| requestParamLogFlagAsBool);
    param "tls_did_resume" (Some isBooleanFlag) (requestParamOptional .| requestParamLogFlagAsBool);
    param "quic_sent_ticket" (Some isBooleanFlag) (requestParamOptional .| requestParamLogFlagAsBool);
    param "quic_did_resume" (Some isBooleanFlag) (requestParamOptional .| requestParamLogFlagAsBool);
    param "quic_dial_early" (Some isBooleanFlag) (requestParamOptional .| requestParamLogFlagAsBool);
    param "quic_obfuscated_psk" (Some isBooleanFlag) (requestParamOptional .| requestParamLogFlagAsBool);
    param "server_entry_count" (Some isIntString) (requestParamOptional .| requestParamLogStringAsInt);
    param "unique_candidate_estimate" (Some isIntString) (requestParamOptional .| requestParamLogStringAsInt);
    param "candidates_moved_to_front" (Some isIntString) (requestParamOptional .| requestParamLogStringAsInt);
    param "first_fronted_meek_candidate" (Some isIntString) (requestParamOptional .| requestParamLogStringAsInt) ].

Definition inproxyDialParams : list requestParamSpec :=
  [ param "inproxy_connection_id" (Some isUnpaddedBase64String) (requestParamOptional .| requestParamNotLogged);
    param "inproxy_relay_packet" (Some isUnpaddedBase64String) (requestParamOptional .| requestParamNotLogged);
    param "inproxy_broker_is_replay" (Some isBooleanFlag) (requestParamOptional .| requestParamLogFlagAsBool);
    param "inproxy_broker_transport" (Some isAnyString) requestParamOptional;
    param "inproxy_broker_fronting_provider_id" (Some isAnyString) requestParamOptional;
    param "inproxy_broker_dial_address" (Some isAnyString) requestParamOptional;
    param "inproxy_broker_resolved_ip_address" (Some isAnyString) requestParamOptional;
    param "inproxy_broker_sni_server_name" (Some isAnyString) requestParamOptional;
    param "inproxy_broker_host_header" (Some isAnyString) requestParamOptional;
    param "inproxy_broker_transformed_host_name" (Some isBooleanFlag) (requestParamOptional .| requestParamLogFlagAsBool);
    param "inproxy_broker_user_agent" (Some isAnyString) requestParamOptional;
    param "inproxy_broker_tls_profile" (Some isAnyString) requestParamOptional;
    param "inproxy_broker_tls_version" (Some isAnyString) requestParamOptional;
    param "inproxy_broker_tls_fragmented" (Some isBooleanFlag) (requestParamOptional .| requestParamLogFlagAsBool);
    param "inproxy_broker_client_bpf" (Some isAnyString) requestParamOptional;
    param "inproxy_broker_upstream_bytes_fragmented" (Some isIntString) (requestParamOptional .| requestParamLogStringAsInt);
    param "inproxy_broker_http_transform" (Some isAnyString) requestParamOptional;
    param "inproxy_broker_dns_preresolved" (Some isAnyString) requestParamOptional;
    param "inproxy_broker_dns_preferred" (Some isAnyString) requestParamOptional;
    param "inproxy_broker_dns_transform" (Some isAnyString) requestParamOptional;
    param "inproxy_broker_dns_qname_random_casing" (Some isBooleanFlag) (requestParamOptional .| requestParamLogFlagAsBool);
    param "inproxy_broker_dns_qname_must_match" (Some isBooleanFlag) (requestParamOptional .| requestParamLogFlagAsBool);
    param "inproxy_broker_dns_qname_mismatches" (Some isIntString) (requestParamOptional .| requestParamLogStringAsInt);
    param "inproxy_broker_dns_attempt" (Some isIntString) (requestParamOptional .| requestParamLogStringAsInt);
    param "inproxy_webrtc_dns_preresolved" (Some isAnyString) requestParamOptional;
    param "inproxy_webrtc_dns_preferred" (Some isAnyString) requestParamOptional;
    param "inproxy_webrtc_dns_transform" (Some isAnyString) requestParamOptional;
    param "inproxy_broker_dns_qname_random_casing" (Some isBooleanFlag) (requestParamOptional .| requestParamLogFlagAsBool);
    param "inproxy_webrtc_dns_qname_must_match" (Some isBooleanFlag) (requestParamOptional .| requestParamLogFlagAsBool);
    param "inproxy_webrtc_dns_qname_mismatches" (Some isIntString) (requestParamOptional .| requestParamLogStringAsInt);
    param "inproxy_webrtc_dns_attempt" (Some isIntString) (requestParamOptional .| requestParamLogStringAsInt);
    param "inproxy_webrtc_stun_server" (Some isAnyString) requestParamOptional;
    param "inproxy_webrtc_stun_server_resolved_ip_address" (Some isAnyString) requestParamOptional;
    param "inproxy_webrtc_stun_server_RFC5780" (Some isAnyString) requestParamOptional;
    param "inproxy_webrtc_stun_server_RFC5780_resolved_ip_address" (Some isAnyString) requestParamOptional;
    param "inproxy_webrtc_randomize_dtls" (Some isBooleanFlag) (requestParamOptional .| requestParamLogFlagAsBool);
    param "inproxy_webrtc_padded_messages_sent" (Some isIntString) (requestParamOptional .| requestParamLogStringAsInt);
    param "inproxy_webrtc_padded_messages_received" (Some isIntString) (requestParamOptional .| requestParamLogStringAsInt);
    param "inproxy_webrtc_decoy_messages_sent" (Some isIntString) (requestParamOptional .| requestParamLogStringAsInt);
    param "inproxy_webrtc_decoy_messages_received" (Some isIntString) (requestParamOptional .| requestParamLogStringAsInt);
    param "inproxy_webrtc_local_ice_candidate_type" (Some isAnyString) requestParamOptional;
    param "inproxy_webrtc_local_ice_candidate_is_initiator" (Some isBooleanFlag) (requestParamOptional .| requestParamLogFlagAsBool);
    param "inproxy_webrtc_local_ice_candidate_is_IPv6" (Some isBooleanFlag) (requestParamOptional .| requestParamLogFlagAsBool);
    param "inproxy_webrtc_local_ice_candidate_port" (Some isIntString) (requestParamOptional .| requestParamLogStringAsInt);
    param "inproxy_webrtc_remote_ice_candidate_type" (Some isAnyString) requestParamOptional;
    param "inproxy_webrtc_remote_ice_candidate_is_IPv6" (Some isBooleanFlag) (requestParamOptional .| requestParamLogFlagAsBool);
    param "inproxy_webrtc_remote_ice_candidate_port" (Some isIntString) (requestParamOptional .| requestParamLogStringAsInt);
    param "inproxy_dial_nat_discovery_duration" (Some isIntString) (requestParamOptional .| requestParamLogStringAsInt);
    param "inproxy_dial_failed_attempts_duration" (Some isIntString) (requestParamOptional .| requestParamLogStringAsInt);
    param "inproxy_dial_webrtc_ice_gathering_duration" (Some isIntString) (requestParamOptional .| requestParamLogStringAsInt);
    param "inproxy_dial_broker_offer_duration" (Some isIntString) (requestParamOptional .| requestParamLogStringAsInt);
    param "inproxy_dial_webrtc_connection_duration" (Some isIntString) (requestParamOptional .| requestParamLogStringAsInt);
    param "inproxy_broker_is_reuse" (Some isBooleanFlag) (requestParamOptional .| requestParamLogFlagAsBool);
    param "inproxy_webrtc_use_media_streams" (Some isBooleanFlag) (requestParamOptional .| requestParamLogFlagAsBool) ].

Definition baseAndDialParams : list requestParamSpec := baseParams ++ baseDialParams ++ inproxyDialParams.

Definition tacticsParams : list requestParamSpec :=
  [ param STORED_TACTICS_TAG_PARAMETER_NAME (Some isAnyString) requestParamOptional;
    param SPEED_TEST_SAMPLES_PARAMETER_NAME None (requestParamOptional .| requestParamJSON) ].

Definition handshakeRequestParams : list requestParamSpec :=
  [ param "missing_server_entry_signature" (Some isBase64String) requestParamOptional;
    param "missing_server_entry_provider_id" (Some isBase64String) requestParamOptional;
    param "enable_proxy_protocol_headers" (Some isBooleanFlag) (requestParamOptional .| requestParamNotLogged) ]
  ++ baseAndDialParams ++ tacticsParams.

Definition uniqueUserParams : list requestParamSpec :=
  [ param "last_connected" (Some isLastConnected) 0 ] ++ baseParams.

Definition connectedRequestParams : list requestParamSpec :=
  [ param "establishment_duration" (Some isIntString) (requestParamOptional .| requestParamLogStringAsInt) ]
  ++ uniqueUserParams.

Definition remoteServerListStatParams : list requestParamSpec :=
  [ param "session_id" (Some isHexDigits) requestParamOptional;
    param "client_download_timestamp" (Some isISO8601Date) 0;
    param "tunneled" (Some isBooleanFlag) (requestParamOptional .| requestParamLogFlagAsBool);
    param "url" (Some isAnyString) 0;
    param "etag" (Some isAnyString) 0;
    param "bytes" (Some isIntString) (requestParamOptional .| requestParamLogStringAsInt);
    param "duration" (Some isIntString) (requestParamOptional .| requestParamLogStringAsInt);
    param "authenticated" (Some isBooleanFlag) (requestParamOptional .| requestParamLogFlagAsBool);
    param "fronting_provider_id" (Some isAnyString) requestParamOptional;
    param "meek_dial_address" (Some isDialAddress) requestParamOptional;
    param "meek_resolved_ip_address" (Some isIPAddress) requestParamOptional;
    param "meek_sni_server_name" (Some isDomain) requestParamOptional;
    param "meek_host_header" (Some isHostHeader) requestParamOptional;
    param "meek_transformed_host_name" (Some isBooleanFlag) (requestParamOptional .| requestParamLogFlagAsBool);
    param "user_agent" (Some isAnyString) requestParamOptional;
    param "tls_profile" (Some isAnyString) requestParamOptional;
    param "tls_version" (Some isAnyString) requestParamOptional;
    param "tls_fragmented" (Some isBooleanFlag) (requestParamOptional .| requestParamLogFlagAsBool) ]
  ++ baseParams.

Definition failedTunnelStatParams : list requestParamSpec :=
  [ param "server_entry_tag" (Some isAnyString) requestParamOptional;
    param "session_id" (Some isHexDigits) 0;
    param "last_connected" (Some isLastConnected) 0;
    param "client_failed_timestamp" (Some isISO8601Date) 0;
    param "record_probability" (Some isFloatString) (requestParamOptional .| requestParamLogStringAsFloat);
    param "liveness_test_upstream_bytes" (Some isIntString) (requestParamOptional .| requestParamLogStringAsInt);
    param "liveness_test_sent_upstream_bytes" (Some isIntString) (requestParamOptional .| requestParamLogStringAsInt);
    param "liveness_test_downstream_bytes" (Some isIntString) (requestParamOptional .| requestParamLogStringAsInt);
    param "liveness_test_received_downstream_bytes" (Some isIntString) (requestParamOptional .| requestParamLogStringAsInt);
    param "bytes_up" (Some isIntString) (requestParamOptional .| requestParamLogStringAsInt);
    param "bytes_down" (Some isIntString) (requestParamOptional .| requestParamLogStringAsInt);
    param "tunnel_error" (Some isAnyString) 0 ]
  ++ baseAndDialParams.

Definition tacticsRequestParams : list requestParamSpec :=
  [ param "session_id" (Some isHexDigits) 0 ] ++ tacticsParams ++ baseAndDialParams.

Definition inproxyBrokerRequestParams : list requestParamSpec :=
  [ param "session_id" (Some isHexDigits) 0;
    param "fronting_provider_id" (Some isAnyString) requestParamOptional ]
  ++ tacticsParams ++ baseParams.

Definition dslRequestParams : list requestParamSpec :=
  [ param "session_id" (Some isHexDigits) 0;
    param "fronting_provider_id" (Some isAnyString) requestParamOptional ]
  ++ tacticsParams ++ baseParams.

Definition sessionBaseParams : list requestParamSpec :=
  [ param "session_id" (Some isHexDigits) 0 ] ++ baseParams.

(** ** Validation *)

Definition validateStringRequestParam (expectedParam : requestParamSpec) (v : value) : res unit :=
  match v with
  | VString strValue =>
      match validator expectedParam with
      | None => Panic "invalid memory address or nil pointer dereference"
      | Some ok =>
          if ok strValue then Ok tt
          else Err ("invalid param: " +:+ name expectedParam +:+ ": " +:+ strValue)
      end
  | _ => Err ("unexpected string param type: " +:+ name expectedParam)
  end.

Fixpoint validate_array (expectedParam : requestParamSpec) (l : list value) : res unit :=
  match l with
  | [] => Ok tt
  | v :: l => _ ← validateStringRequestParam expectedParam v; validate_array expectedParam l
  end.

Definition validateStringArrayRequestParam (expectedParam : requestParamSpec) (v : value) : res unit :=
  match v with
  | VArray l => validate_array expectedParam l
  | _ => Err ("unexpected array param type: " +:+ name expectedParam)
  end.

Fixpoint validateRequestParams (params : APIParameters) (expectedParams : list requestParamSpec) : res unit :=
  match expectedParams with
  | [] => Ok tt
  | expectedParam :: expectedParams =>
      match get params (name expectedParam) with
      | None =>
          if has (flags expectedParam) requestParamOptional then validateRequestParams params expectedParams
          else Err ("missing param: " +:+ name expectedParam)
      | Some v =>
          _ ← (if has (flags expectedParam) requestParamArray then validateStringArrayRequestParam expectedParam v
               else if has (flags expectedParam) requestParamJSON then Ok tt
               else validateStringRequestParam expectedParam v);
          validateRequestParams params expectedParams
      end
  end.

(** The copies of the parameters with the given names that are present. *)
Definition copy_params (names : list string) (params : APIParameters) : APIParameters :=
  foldl (fun paramsCopy n =>
           match get params n with Some v => <[n := v]> paramsCopy | None => paramsCopy end) ∅ names.

Definition copyBaseAndDialParams (params : APIParameters) : APIParameters :=
  copy_params (map name baseAndDialParams) params.

Definition upstreamMetricsNames : list string :=
  ["upstream_bytes_fragmented"; "upstream_min_bytes_written"; "upstream_max_bytes_written";
   "upstream_min_delayed"; "upstream_max_delayed"].

Definition updateOnConnectedParamNames : list string :=
  ["last_connected"; "establishment_duration"] ++ upstreamMetricsNames.

Definition copyUpdateOnConnectedParams (params : APIParameters) : APIParameters :=
  copy_params updateOnConnectedParamNames params.

(** ** Reading parameters *)

Definition getOptionalStringRequestParam (params : APIParameters) (n : string) : string * bool :=
  match get params n with Some (VString v) => (v, true) | _ => ("", false) end.

Definition getStringRequestParam (params : APIParameters) (n : string) : res string :=
  match get params n with
  | None => Err ("missing param: " +:+ n)
  | Some (VString v) => Ok v
  | Some _ => Err ("invalid param: " +:+ n)
  end.

(** The error of [Atoi] is not looked at: the test after it is of [ok], which is true. *)
Definition getIntStringRequestParam (params : APIParameters) (n : string) : res Z :=
  match get params n with
  | None => Err ("missing param: " +:+ n)
  | Some (VString v) => Ok (Atoi v).1
  | Some _ => Err ("invalid param: " +:+ n)
  end.

Definition getOptionalBoolStringRequestParam (params : APIParameters) (n : string) : bool * bool :=
  match get params n with
  | Some (VString v) => (bool_decide (v = "1"), true)
  | _ => (false, false)
  end.

Definition getBoolStringRequestParam (params : APIParameters) (n : string) : res bool :=
  match get params n with
  | None => Err ("missing param: " +:+ n)
  | Some (VString v) => Ok (bool_decide (v = "1"))
  | Some _ => Err ("invalid param: " +:+ n)
  end.

Definition getPaddingSizeRequestParam (params : APIParameters) (n : string) : res Z :=
  v ← getIntStringRequestParam params n;
  let v := if v <? 0 then 0 else v in
  Ok (if PADDING_MAX_BYTES <? v then PADDING_MAX_BYTES else v).

Definition getJSONObjectRequestParam (params : APIParameters) (n : string) : res APIParameters :=
  match get params n with
  | None => Err ("missing param: " +:+ n)
  | Some (VObject m) => Ok (list_to_map m)
  | Some _ => Err ("invalid param: " +:+ n)
  end.

Definition getJSONObjectArrayRequestParam (params : APIParameters) (n : string) : res (list APIParameters) :=
  match get params n with
  | None => Err ("missing param: " +:+ n)
  | Some (VArray l) =>
      mapM (fun item => match item with VObject m => Ok (list_to_map m) | _ => Err ("invalid param: " +:+ n) end) l
  | Some _ => Err ("invalid param: " +:+ n)
  end.

Definition getMapStringInt64RequestParam (params : APIParameters) (n : string) : res (gmap string Z) :=
  match get params n with
  | None => Err ("missing param: " +:+ n)
  | Some (VObject m) =>
      l ← mapM (fun kv : string * value =>
                  match kv.2 with VFloat f => Ok (kv.1, int64_of_float L f) | _ => Err ("invalid param: " +:+ n) end) m;
      Ok (list_to_map l)
  | Some _ => Err ("invalid param: " +:+ n)
  end.

Definition getStringArrayRequestParam (params : APIParameters) (n : string) : res (list string) :=
  match get params n with
  | None => Err ("missing param: " +:+ n)
  | Some (VStrings l) => Ok l
  | Some (VArray l) => mapM (fun v => match v with VString s => Ok s | _ => Err ("invalid param: " +:+ n) end) l
  | Some _ => Err ("invalid param: " +:+ n)
  end.

Definition normalizeClientPlatform (clientPlatform : string) : string :=
  if occurs (chars (ToLower L CLIENT_PLATFORM_ANDROID)) (chars (ToLower L clientPlatform)) then CLIENT_PLATFORM_ANDROID
  else if string_HasPrefix clientPlatform CLIENT_PLATFORM_IOS then CLIENT_PLATFORM_IOS
  else if string_HasPrefix clientPlatform CLIENT_PLATFORM_WINDOWS then CLIENT_PLATFORM_WINDOWS
  else CLIENT_PLATFORM_OTHER.

Definition isMobileClientPlatform (clientPlatform : string) : bool :=
  let p := normalizeClientPlatform clientPlatform in
  bool_decide (p = CLIENT_PLATFORM_ANDROID) || bool_decide (p = CLIENT_PLATFORM_IOS).

(** ** Logging *)

Abbreviation LogFields := (gmap string value).

(** geoip.go *)
Record GeoIPData := { Country : string; City : string; ISP : string; ASN : string; ASO : string }.

Definition zeroGeoIPData : GeoIPData := {| Country := ""; City := ""; ISP := ""; ASN := ""; ASO := "" |}.

#[export] Instance GeoIPData_eq_dec : EqDecision GeoIPData.
Proof. solve_decision. Defined.

(** [strings.Replace(s, " ", "_", -1)] *)
Definition underscores (s : string) : string :=
  string_of_list_ascii (map (fun c => if bool_decide (c = " "%char) then "_"%char else c) (chars s)).

Definition SetLogFieldsWithPrefix (g : GeoIPData) (prefix n : string) (logFields : LogFields) : LogFields :=
  <[prefix +:+ n +:+ "_aso" := VString (underscores (ASO g))]>
  (<[prefix +:+ n +:+ "_asn" := VString (underscores (ASN g))]>
  (<[prefix +:+ n +:+ "_isp" := VString (underscores (ISP g))]>
  (<[prefix +:+ n +:+ "_city" := VString (underscores (City g))]>
  (<[prefix +:+ n +:+ "_region" := VString (underscores (Country g))]> logFields)))).

Definition SetClientLogFields (g : GeoIPData) (logFields : LogFields) : LogFields :=
  SetLogFieldsWithPrefix g "" "client" logFields.

(** An entry of a Go map set, the entries being in the order of their iteration. *)
Definition object_set (k : string) (v : value) (m : list (string * value)) : list (string * value) :=
  List.filter (fun kv => negb (bool_decide (kv.1 = k))) m ++ [(k, v)].

Definition speed_test_name (k : string) : string :=
  if bool_decide (k = "s") then "timestamp"
  else if bool_decide (k = "r") then "server_region"
  else if bool_decide (k = "p") then "relay_protocol"
  else if bool_decide (k = "t") then "round_trip_time_ms"
  else if bool_decide (k = "u") then "bytes_up"
  else if bool_decide (k = "d") then "bytes_down"
  else k.

Definition makeSpeedTestSamplesLogField (samples : list value) : list value :=
  map (fun sample =>
         match sample with
         | VObject m => VObject (foldl (fun logSample kv => object_set (speed_test_name kv.1) kv.2 logSample) [] m)
         | _ => VObject []
         end) samples.

Definition redact_target : string := "upstreamproxy error: proxyURI url.Parse: parse ".

Definition redact (strValue : string) : string :=
  match String.index 0 redact_target strValue with
  | Some i => String.substring 0 (i + String.length redact_target) strValue +:+ "<redacted>"
  | None => strValue
  end.

(** The string value of a parameter, or the empty string. *)
Definition string_or_empty (params : APIParameters) (n : string) : string :=
  match params !! n with Some (VString s) => s | _ => "" end.

(** The flags that keep a parameter out of the log. *)
Definition skipped (params : APIParameters) (expectedParam : requestParamSpec) : bool :=
  let tunnelProtocol := string_or_empty params "relay_protocol" in
  has (flags expectedParam) requestParamNotLogged ||
  (has (flags expectedParam) requestParamLogOnlyForFrontedMeekOrConjure &&
   negb (TunnelProtocolUsesFrontedMeek tunnelProtocol) && negb (TunnelProtocolUsesConjure tunnelProtocol)) ||
  (has (flags expectedParam) requestParamNotLoggedForUnfrontedMeekNonTransformedHeader &&
   TunnelProtocolUsesMeek tunnelProtocol && negb (TunnelProtocolUsesFrontedMeek tunnelProtocol) &&
   (TunnelProtocolUsesMeekHTTPS tunnelProtocol ||
    negb (bool_decide (string_or_empty params "meek_transformed_host_name" = "1")))).

(** The field logged for a string value, and its name, if there is one. *)
Definition log_string (prefix : string) (expectedParam : requestParamSpec) (strValue : string) : option (string * value) :=
  let n := prefix +:+ name expectedParam in
  if bool_decide (name expectedParam = "meek_dial_address") then
    let host := SplitHost L strValue in
    Some (prefix +:+ (if isIPAddress host then "meek_dial_ip_address" else "meek_dial_domain"), VString host)
  else if bool_decide (name expectedParam = "upstream_proxy_type") then Some (n, VString (ToLower L strValue))
  else if bool_decide (name expectedParam = SPEED_TEST_SAMPLES_PARAMETER_NAME) then None
  else if bool_decide (name expectedParam = "tunnel_error") then Some (n, VString (redact strValue))
  else if has (flags expectedParam) requestParamLogStringAsInt then Some (n, VInt (Atoi strValue).1)
  else if has (flags expectedParam) requestParamLogStringAsFloat then Some (n, VFloat (ParseFloat L strValue).1)
  else if has (flags expectedParam) requestParamLogStringLengthAsInt then
    Some (n, VInt (Z.of_nat (String.length strValue)))
  else if has (flags expectedParam) requestParamLogFlagAsBool then Some (n, VBool (bool_decide (strValue = "1")))
  else Some (n, VString strValue).

(** The field logged for a parameter: an omitted flag may be logged as false. *)
Definition log_param (prefix : string) (params : APIParameters) (expectedParam : requestParamSpec)
  : option (string * value) :=
  if skipped params expectedParam then None
  else
    v ← (match get params (name expectedParam) with
         | Some v => Some v
         | None =>
             if has (flags expectedParam) requestParamLogFlagAsBool &&
                has (flags expectedParam) requestParamLogOmittedFlagAsFalse
             then Some (VString "0") else None
         end);
    match v with
    | VString s => log_string prefix expectedParam s
    | VArray l =>
        Some (prefix +:+ name expectedParam,
              if bool_decide (name expectedParam = SPEED_TEST_SAMPLES_PARAMETER_NAME)
              then VArray (makeSpeedTestSamplesLogField l) else VArray l)
    | v => Some (prefix +:+ name expectedParam, v)
    end.

Definition set_field (logFields : LogFields) (kv : option (string * value)) : LogFields :=
  match kv with Some (k, v) => <[k := v]> logFields | None => logFields end.

(** The fields that do not come from the parameters. *)
Definition event_fields (eventName sessionID : string) (geoIPData : GeoIPData) (authorizedAccessTypes : list string)
  : LogFields :=
  let logFields : LogFields := ∅ in
  let logFields := if bool_decide (sessionID = "") then logFields else <["session_id" := VString sessionID]> logFields in
  let logFields := if bool_decide (eventName = "") then logFields else <["event_name" := VString eventName]> logFields in
  let logFields := if bool_decide (geoIPData = zeroGeoIPData) then logFields else SetClientLogFields geoIPData logFields in
  if bool_decide (authorizedAccessTypes = []) then logFields
  else <["authorized_access_types" := VStrings authorizedAccessTypes]> logFields.

Definition getRequestLogFields (eventName logFieldPrefix sessionID : string) (geoIPData : GeoIPData)
    (authorizedAccessTypes : list string) (params : option APIParameters) (expectedParams : list requestParamSpec)
  : LogFields :=
  let logFields := event_fields eventName sessionID geoIPData authorizedAccessTypes in
  match params with
  | None => logFields
  | Some params =>
      foldl (fun logFields expectedParam => set_field logFields (log_param logFieldPrefix params expectedParam))
        logFields expectedParams
  end.

(** ** Properties of the validation *)

(** A parameter of a request meets its specification. *)
Definition string_ok (expectedParam : requestParamSpec) (v : value) : Prop :=
  exists s ok, v = VString s /\ validator expectedParam = Some ok /\ ok s = true.

Definition param_ok (params : APIParameters) (expectedParam : requestParamSpec) : Prop :=
  match get params (name expectedParam) with
  | None => has (flags expectedParam) requestParamOptional = true
  | Some v =>
      if has (flags expectedParam) requestParamArray then
        exists l, v = VArray l /\ Forall (string_ok expectedParam) l
      else if has (flags expectedParam) requestParamJSON then True
      else string_ok expectedParam v
  end.

(** The validator is only missing where it is not called. *)
Definition spec_ok (expectedParam : requestParamSpec) : bool :=
  match validator expectedParam with
  | Some _ => true
  | None => has (flags expectedParam) requestParamJSON && negb (has (flags expectedParam) requestParamArray)
  end.

Lemma request_specs_ok :
  forallb spec_ok (handshakeRequestParams ++ connectedRequestParams ++ remoteServerListStatParams ++
    failedTunnelStatParams ++ tacticsRequestParams ++ inproxyBrokerRequestParams ++ dslRequestParams ++
    sessionBaseParams) = true.
Proof. vm_compute. reflexivity. Qed.

Lemma validateString_spec expectedParam v ok :
  validator expectedParam = Some ok ->
  (validateStringRequestParam expectedParam v = Ok tt /\ string_ok expectedParam v) \/
  ((exists e, validateStringRequestParam expectedParam v = Err e) /\ ~ string_ok expectedParam v).
Proof.
  intros Hv. unfold validateStringRequestParam, string_ok. rewrite Hv.
  destruct v as [|s|n|n|b|l|l|m]; try (right; split; [by eexists|]; by intros (? & ? & [=] & _)).
  destruct (ok s) eqn:E; [left; split; [done|]; by exists s, ok|right; split; [by eexists|]].
  intros (s' & ok' & [= <-] & [= <-] & H). congruence.
Qed.

Lemma validate_array_spec expectedParam l ok :
  validator expectedParam = Some ok ->
  (validate_array expectedParam l = Ok tt /\ Forall (string_ok expectedParam) l) \/
  ((exists e, validate_array expectedParam l = Err e) /\ ~ Forall (string_ok expectedParam) l).
Proof.
  intros Hv. induction l as [|v l IH]; cbn [validate_array]; [left; by split; [|constructor]|].
  rewrite list.Forall_cons. destruct (validateString_spec expectedParam v ok Hv) as [[-> Hs]|[[e ->] Hs]]; cbn.
  - destruct IH as [[-> ?]|[[e ->] ?]]; [by left|right; split; [by eexists|tauto]].
  - right. split; [by eexists|tauto].
Qed.

Lemma validate_params_spec params expectedParams :
  Forall (fun p => spec_ok p = true) expectedParams ->
  (validateRequestParams params expectedParams = Ok tt /\ Forall (param_ok params) expectedParams) \/
  ((exists e, validateRequestParams params expectedParams = Err e) /\ ~ Forall (param_ok params) expectedParams).
Proof.
  induction 1 as [|p ps Hp _ IH]; cbn [validateRequestParams]; [left; by split; [|constructor]|].
  rewrite list.Forall_cons. unfold param_ok at 1 3. unfold spec_ok in Hp.
  destruct (get params (name p)) as [v|].
  - assert (exists r, r = (if has (flags p) requestParamArray then validateStringArrayRequestParam p v
       else if has (flags p) requestParamJSON then Ok tt else validateStringRequestParam p v)) as [r Hr] by eauto.
    rewrite <- Hr. destruct (has (flags p) requestParamArray), (validator p) as [ok|] eqn:Hv;
      [| |destruct (has (flags p) requestParamJSON)..]; try done.
    + assert ((r = Ok tt /\ exists l, v = VArray l /\ Forall (string_ok p) l) \/
        ((exists e, r = Err e) /\ ~ exists l, v = VArray l /\ Forall (string_ok p) l)) as H.
      { subst r. destruct v as [|s|n|n|b|l|l|m]; try (right; split; [by eexists|by intros (? & [=] & _)]). cbn.
        destruct (validate_array_spec p l ok Hv) as [[-> ?]|[[e ->] ?]]; [left; eauto|right; split; [eauto|]]. intros (l' & [= <-] & ?). done. }
      destruct H as [[-> H]|[[e ->] H]]; cbn; [destruct IH as [[-> ?]|[[e ->] ?]]|];
        [by left|right; split; [by eexists|tauto]..].
    + by rewrite andb_false_r in Hp.
    + subst r. cbn. destruct IH as [[-> ?]|[[e ->] ?]]; [by left|right; split; [by eexists|tauto]].
    + subst r. destruct (validateString_spec p v ok Hv) as [[-> H]|[[e ->] H]]; cbn; [destruct IH as [[-> ?]|[[e ->] ?]]|];
        [by left|right; split; [by eexists|tauto]..].
    + subst r. cbn. destruct IH as [[-> ?]|[[e ->] ?]]; [by left|right; split; [by eexists|tauto]].
  - destruct (has (flags p) requestParamOptional); [|right; split; [by eexists|by intros []]].
    destruct IH as [[-> ?]|[[e ->] ?]]; [by left|right; split; [by eexists|tauto]].
Qed.

(** A request is accepted exactly when each of its expected parameters that is present
    has the expected type and passes its validator, and each that is absent is optional;
    otherwise it is refused with an error, and the missing validator of a JSON parameter is
    never called.  Parameters that are not expected are not looked at. *)
Theorem validateRequestParams_correct params expectedParams :
  Forall (fun p => spec_ok p = true) expectedParams ->
  (validateRequestParams params expectedParams = Ok tt <-> Forall (param_ok params) expectedParams) /\
  (validateRequestParams params expectedParams = Ok tt \/ exists e, validateRequestParams params expectedParams = Err e).
Proof. intros H. destruct (validate_params_spec params _ H) as [[-> ?]|[[e ->] ?]]; naive_solver. Qed.

Lemma spec_ok_in p (l1 l2 l3 : list requestParamSpec) :
  forallb spec_ok (l1 ++ l2 ++ l3) = true -> p ∈ l2 -> spec_ok p = true.
Proof. rewrite !forallb_app, !andb_true_iff, !forallb_forall. intros (_ & H & _) Hp. apply H. by apply list_elem_of_In. Qed.

Lemma handshake_specs_ok : Forall (fun p => spec_ok p = true) handshakeRequestParams.
Proof.
  apply list.Forall_forall. intros p Hp. eapply (spec_ok_in p []); [exact request_specs_ok|done].
Qed.

Lemma validated_param params expectedParams p :
  Forall (fun p => spec_ok p = true) expectedParams ->
  validateRequestParams params expectedParams = Ok tt -> p ∈ expectedParams -> param_ok params p.
Proof.
  intros Hs Hv Hp. destruct (validate_params_spec params _ Hs) as [[_ H]|[[e He] _]]; [|congruence].
  rewrite list.Forall_forall in H. by apply H.
Qed.

(** The specification of the client version. *)
Definition client_version_spec : requestParamSpec := param "client_version" (Some isIntString) requestParamLogStringAsInt.

Lemma client_version_expected : client_version_spec ∈ handshakeRequestParams.
Proof. apply list_elem_of_In. do 3 right. do 2 right. left. reflexivity. Qed.

(** The integers of a validated request are read exactly.  Reading an integer
    parameter does not look at the error of the conversion; but for a parameter that was
    validated as an integer there is none, so the value read is the number sent, and a
    validated handshake always has a client version. *)
Theorem validated_integers params expectedParams p :
  Forall (fun p => spec_ok p = true) expectedParams ->
  validateRequestParams params expectedParams = Ok tt ->
  p ∈ expectedParams -> validator p = Some isIntString ->
  has (flags p) requestParamArray = false -> has (flags p) requestParamJSON = false ->
  (exists s n, get params (name p) = Some (VString s) /\ Atoi s = (n, true) /\
     getIntStringRequestParam params (name p) = Ok n) \/
  (has (flags p) requestParamOptional = true /\
   getIntStringRequestParam params (name p) = Err ("missing param: " +:+ name p)).
Proof.
  intros Hs Hv Hp Hval Ha Hj. pose proof (validated_param params _ p Hs Hv Hp) as H.
  unfold param_ok in H. unfold getIntStringRequestParam. destruct (get params (name p)) as [v|]; [left|by right].
  rewrite Ha, Hj in H. destruct H as (s & ok & -> & Hok & H). rewrite Hval in Hok. injection Hok as <-.
  unfold isIntString in H. exists s, (Atoi s).1. split_and!; [done|by rewrite <- H; destruct (Atoi s)|done].
Qed.

(** Without validation, text that is no number is read as 0, with no error. *)
Lemma unvalidated_integer params n s :
  get params n = Some (VString s) -> (Atoi s).2 = false ->
  getIntStringRequestParam params n = Ok (Atoi s).1 /\ validateStringRequestParam (param n (Some isIntString) 0) (VString s) <> Ok tt.
Proof.
  intros Hg He. unfold getIntStringRequestParam. rewrite Hg. split; [done|].
  cbn. unfold isIntString. by rewrite He.
Qed.

Lemma getPaddingSizeRequestParam_bounds params n size :
  getPaddingSizeRequestParam params n = Ok size -> 0 <= size <= PADDING_MAX_BYTES.
Proof.
  unfold getPaddingSizeRequestParam, PADDING_MAX_BYTES. intros (v & _ & H)%res_bind_ok.
  revert H. cbn zeta. destruct (Z.ltb_spec v 0), (Z.ltb_spec (16 * 1024) (if v <? 0 then 0 else v)).
  all: repeat (case_match || rewrite ?Z.ltb_lt, ?Z.ltb_ge in * ); intros [= <-]; lia.
Qed.

(** *** Domains *)

Lemma drop_last {A} (l : list A) x n : (1 <= n <= length (l ++ [x]))%nat -> x ∈ drop (length (l ++ [x]) - n) (l ++ [x]).
Proof.
  intros Hn. rewrite length_app in *. cbn [length] in *. rewrite drop_app_le by lia. set_solver.
Qed.

Lemma isDomainRegex_spec part :
  isDomainRegex_Match part = true <-> exists c, list.last part = Some c /\ domain_char c = true.
Proof.
  unfold isDomainRegex_Match. rewrite existsb_exists. split.
  - intros (n & Hn%in_seq & [Hlen%Nat.leb_le H]%andb_true_iff).
    destruct part as [|c l _] using rev_ind; [cbn in Hlen; lia|]. exists c. rewrite last_snoc. split; [done|].
    rewrite forallb_forall in H. apply H, list_elem_of_In, drop_last. lia.
  - intros (c & Hl & Hc). apply last_Some in Hl as [l ->]. exists 1%nat. split; [apply in_seq; lia|].
    rewrite length_app. cbn [length]. rewrite Nat.add_sub, drop_app_length. cbn [forallb]. rewrite Hc, !andb_true_r. apply Nat.leb_le. lia.
Qed.

(** [isDomain] accepts exactly the names of at most 255 bytes whose labels, after a
    final dot is removed, do not begin with a hyphen and end with a letter or a digit.
    Neither the other characters of a label nor its length are restricted, as the
    expression that should do so is not anchored at the start. *)
Theorem isDomain_correct v :
  isDomain v = true <->
  (String.length v <= 255)%nat /\
  Forall (fun part => hd_error part <> Some "-"%char /\
    exists c, list.last part = Some c /\ domain_char c = true /\ c <> "-"%char) (Split "." (trim_dot (chars v))).
Proof.
  unfold isDomain. rewrite andb_true_iff, Nat.leb_le, forallb_forall, list.Forall_forall.
  apply and_iff_compat_l. setoid_rewrite <- list_elem_of_In.
  apply forall_proper; intros part. apply imp_iff_compat_l. unfold domain_part_ok.
  rewrite andb_true_iff, negb_true_iff, orb_false_iff, !bool_decide_eq_false, isDomainRegex_spec.
  split.
  - intros ([Hh Hl] & c & Hc & Hd). split; [done|]. exists c. split_and!; [done..|congruence].
  - intros (Hh & c & Hc & Hd & Hne). split; [split; [done|congruence]|eauto].
Qed.

Lemma isDomain_accepts_any_characters : isDomain "<script>alert(1)</script>a" = true /\
  isDomain (string_of_list_ascii (repeat "a"%char 200)) = true.
Proof. vm_compute. split; reflexivity. Qed.

(** *** Names of the parameters *)

(** One name of the in-proxy parameters is there twice, in the place of another. *)
Lemma inproxy_param_names :
  length (List.filter (fun p => bool_decide (name p = "inproxy_broker_dns_qname_random_casing")) inproxyDialParams) = 2%nat /\
  "inproxy_webrtc_dns_qname_random_casing" ∉ map name handshakeRequestParams.
Proof.
  split; [vm_compute; reflexivity|]. rewrite <- list_Contains_spec. vm_compute. discriminate.
Qed.

(** ** Properties of the log *)

(** A field of the log is a field of the event or that of a parameter. *)
Lemma log_fields_origin prefix params expectedParams (logFields : LogFields) k v :
  foldl (fun logFields p => set_field logFields (log_param prefix params p)) logFields expectedParams !! k = Some v ->
  logFields !! k = Some v \/ exists p, p ∈ expectedParams /\ log_param prefix params p = Some (k, v).
Proof.
  revert logFields. induction expectedParams as [|p ps IH]; intros logFields; cbn [foldl]; [by left|].
  intros [H|(q & Hq & Hl)]%IH; [|right; exists q; split; [by right|done]].
  unfold set_field in H. destruct (log_param prefix params p) as [[k' v']|] eqn:E; [|by left].
  destruct (decide (k' = k)) as [->|Hne]; [|rewrite lookup_insert_ne in H by done; by left].
  rewrite lookup_insert_eq in H. injection H as ->. right. exists p. split; [left|done].
Qed.

(** The names under which a parameter may be logged. *)
Definition log_names (p : requestParamSpec) : list string :=
  if bool_decide (name p = "meek_dial_address") then ["meek_dial_address"; "meek_dial_ip_address"; "meek_dial_domain"]
  else [name p].

Lemma log_param_name params p k v :
  log_param "" params p = Some (k, v) -> skipped params p = false /\ k ∈ log_names p.
Proof.
  unfold log_param, log_names. destruct (skipped params p); [done|].
  destruct (match get params (name p) with Some _ => _ | None => _ end) as [w|]; cbn; [|done].
  intros H. split; [done|]. apply list_Contains_spec.
  destruct (bool_decide (name p = "meek_dial_address")) eqn:E.
  - apply bool_decide_eq_true in E. destruct w; cbn in H; unfold log_string in H;
      rewrite ?E, ?bool_decide_true in H by done; try (injection H as <- <-; rewrite ?E; by cbn).
    injection H as <- <-. by destruct (isIPAddress _).
  - cbn. rewrite orb_false_r. apply bool_decide_eq_true.
    destruct w; cbn in H; unfold log_string in H; rewrite ?E in H; repeat case_match; try done; by injection H.
Qed.

(** The cases in which a parameter with one of the three flags is not to be logged. *)
Definition withheld (params : APIParameters) (bit : Z) : Prop :=
  let tunnelProtocol := string_or_empty params "relay_protocol" in
  bit = requestParamNotLogged \/
  bit = requestParamLogOnlyForFrontedMeekOrConjure /\
    TunnelProtocolUsesFrontedMeek tunnelProtocol = false /\ TunnelProtocolUsesConjure tunnelProtocol = false \/
  bit = requestParamNotLoggedForUnfrontedMeekNonTransformedHeader /\
    TunnelProtocolUsesMeek tunnelProtocol = true /\ TunnelProtocolUsesFrontedMeek tunnelProtocol = false /\
    (TunnelProtocolUsesMeekHTTPS tunnelProtocol = true \/ string_or_empty params "meek_transformed_host_name" <> "1").

Lemma skipped_withheld params p : skipped params p = true <-> exists bit, has (flags p) bit = true /\ withheld params bit.
Proof.
  unfold skipped, withheld. rewrite !orb_true_iff, !andb_true_iff, orb_true_iff, !negb_true_iff, bool_decide_eq_false. split.
  - intros [[H|[[H ?] ?]]|[[[H ?] ?] ?]]; eexists; (split; [exact H|]); tauto.
  - intros (bit & H & [->|[(-> & ? & ?)|(-> & ? & ? & ?)]]); tauto.
Qed.

(** The names of the fields of the event. *)
Definition event_names : list string :=
  ["session_id"; "event_name"; "client_region"; "client_city"; "client_isp"; "client_asn"; "client_aso";
   "authorized_access_types"].

Lemma event_fields_names eventName sessionID geoIPData types k v :
  event_fields eventName sessionID geoIPData types !! k = Some v -> k ∈ event_names.
Proof.
  unfold event_fields, SetClientLogFields, SetLogFieldsWithPrefix. intros H.
  repeat case_match; cbn in H; repeat (apply lookup_insert_Some in H as [[<- _]|[_ H]]);
    try (by rewrite lookup_empty in H); apply list_Contains_spec; reflexivity.
Qed.

(** A name that only parameters with the flag may be logged under, and no event has. *)
Definition guarded (bit : Z) (expectedParams : list requestParamSpec) (k : string) : bool :=
  forallb (fun p => implb (list_Contains (log_names p) k) (has (flags p) bit)) expectedParams &&
  negb (list_Contains event_names k).

Lemma guarded_absent bit expectedParams eventName sessionID geoIPData types params k :
  guarded bit expectedParams k = true ->
  (forall p, has (flags p) bit = true -> skipped params p = true) ->
  getRequestLogFields eventName "" sessionID geoIPData types (Some params) expectedParams !! k = None.
Proof.
  unfold guarded. rewrite andb_true_iff, negb_true_iff. intros [Hg He] Hskip.
  destruct (getRequestLogFields _ _ _ _ _ _ _ !! k) as [v|] eqn:E; [exfalso|done]. cbn in E.
  apply log_fields_origin in E as [E|(p & Hp & (Hs & Hk)%log_param_name)].
  - apply event_fields_names, list_Contains_spec in E. congruence.
  - rewrite forallb_forall in Hg. specialize (Hg p ltac:(by apply list_elem_of_In)).
    apply list_Contains_spec in Hk. rewrite Hk in Hg. cbn in Hg. by rewrite (Hskip p Hg) in Hs.
Qed.

(** The three flags. *)
Definition log_flags : list Z :=
  [requestParamNotLogged; requestParamLogOnlyForFrontedMeekOrConjure; requestParamNotLoggedForUnfrontedMeekNonTransformedHeader].

(** No parameter of a handshake that may be logged shares its names with one that has a flag. *)
Lemma handshake_guarded : forallb (fun bit => forallb (fun p => implb (has (flags p) bit)
  (forallb (guarded bit handshakeRequestParams) (log_names p))) handshakeRequestParams) log_flags = true.
Proof. vm_compute. reflexivity. Qed.

Lemma handshake_guarded_name bit p k : bit ∈ log_flags -> p ∈ handshakeRequestParams -> has (flags p) bit = true -> k ∈ log_names p ->
  guarded bit handshakeRequestParams k = true.
Proof.
  intros Hb%list_elem_of_In Hp%list_elem_of_In Hh Hk%list_elem_of_In. pose proof handshake_guarded as Hg. rewrite forallb_forall in Hg.
  specialize (Hg bit Hb). cbv beta in Hg. rewrite forallb_forall in Hg. specialize (Hg p Hp). cbv beta in Hg. rewrite Hh in Hg. cbn [implb] in Hg.
  rewrite forallb_forall in Hg. exact (Hg k Hk).
Qed.

(** A field that has been set stays. *)
Lemma log_fields_kept prefix params expectedParams : forall (logFields : LogFields) k,
  is_Some (logFields !! k) \/ (exists p v, p ∈ expectedParams /\ log_param prefix params p = Some (k, v)) ->
  is_Some (foldl (fun logFields p => set_field logFields (log_param prefix params p)) logFields expectedParams !! k).
Proof.
  induction expectedParams as [|p ps IH]; intros logFields k; cbn [foldl]; [intros [?|(? & ? & Hin & _)]; [done|by apply not_elem_of_nil in Hin]|].
  intros H. apply IH. destruct H as [H|(q & v & [->|Hq]%elem_of_cons & E)].
  - left. unfold set_field. destruct (log_param prefix params p) as [[k' v']|]; [|done]. destruct (decide (k' = k)) as [->|]; [rewrite lookup_insert_eq; eauto|].
    by rewrite lookup_insert_ne.
  - left. rewrite E. cbn. rewrite lookup_insert_eq. eauto.
  - right. eauto.
Qed.

(** A parameter that is sent and not kept out has a field, other than a string of speed test
    samples. *)
Lemma log_param_some params p v : skipped params p = false -> get params (name p) = Some v -> name p <> SPEED_TEST_SAMPLES_PARAMETER_NAME ->
  exists k w, log_param "" params p = Some (k, w).
Proof.
  unfold log_param. intros -> -> Hn. cbn. destruct v; eauto. unfold log_string. rewrite (bool_decide_eq_false_2 _ Hn). repeat case_match; eauto.
Qed.

(** C34: what the log of a handshake holds, whatever the client sends.  A parameter of the table
    with the flag of parameters that are not logged (the in-proxy relay packet and connection
    ID, the request flags) has no field; one with the flag for fronted tunnels and Conjure (the
    meek dial and resolved addresses, the steering IP) has none when the client reports another
    protocol; and one with the flag for the meek host header has none for unfronted meek over
    HTTPS or with a host name that is not transformed.  Nor does another parameter or the event
    put a field under such a name.  Every other field that was sent is logged, for any
    protocol (the addresses of in-proxy brokers and STUN servers, which have none of the
    flags, included), except samples sent as a string; and every field is one of the event or
    of such a parameter. *)
Theorem handshake_log_private eventName sessionID geoIPData types params :
  let log := getRequestLogFields eventName "" sessionID geoIPData types (Some params) handshakeRequestParams in
  (forall p bit k, p ∈ handshakeRequestParams -> has (flags p) bit = true -> withheld params bit -> k ∈ log_names p -> log !! k = None) /\
  (forall p v, p ∈ handshakeRequestParams -> (forall bit, has (flags p) bit = true -> ~ withheld params bit) ->
     get params (name p) = Some v -> name p <> SPEED_TEST_SAMPLES_PARAMETER_NAME -> exists k, k ∈ log_names p /\ is_Some (log !! k)) /\
  (forall k v, log !! k = Some v -> k ∈ event_names \/
     exists p, p ∈ handshakeRequestParams /\ k ∈ log_names p /\ forall bit, has (flags p) bit = true -> ~ withheld params bit).
Proof.
  intros log. split_and!.
  - intros p bit k Hp Hb Hw Hk. apply (guarded_absent bit).
    + refine (handshake_guarded_name bit p k _ Hp Hb Hk). unfold log_flags. rewrite !elem_of_cons. unfold withheld in Hw. tauto.
    + intros q Hq. apply skipped_withheld. eauto.
  - intros p v Hp Hw Hv Hn. assert (Hs : skipped params p = false).
    { apply not_true_iff_false. intros (bit & Hb & H)%skipped_withheld. exact (Hw bit Hb H). }
    destruct (log_param_some params p v Hs Hv Hn) as (k & w & E). exists k. split; [apply (log_param_name params p k w E)|].
    apply log_fields_kept. right. eauto.
  - intros k v H. apply log_fields_origin in H as [?%event_fields_names|(p & Hp & [Hs Hk]%log_param_name)]; [by left|right]. exists p.
    split_and!; [done..|]. intros bit Hb Hw. rewrite (proj2 (skipped_withheld params p)) in Hs; [done|eauto].
Qed.

End Library.

(** ** Examples *)

Definition example_library : library := {|
  ParseIP := fun s => bool_decide (s = "192.0.2.1"); ParseFloat := fun _ => (0, true);
  base64_Std := fun _ => true; base64_RawStd := fun _ => true; time_Parse := fun _ => true;
  ToLower := fun s => s; SplitHost := fun s => s; int64_of_float := fun _ => 0 |}.

Definition example_params : APIParameters :=
  list_to_map [("propagation_channel_id", VString "0F"); ("sponsor_id", VString "0123456789ABCDEF");
    ("client_version", VString "42"); ("client_platform", VString "Android"); ("relay_protocol", VString "OSSH");
    ("inproxy_relay_packet", VString "c2VjcmV0"); ("steering_ip", VString "192.0.2.1");
    ("inproxy_broker_resolved_ip_address", VString "192.0.2.1")].

Lemma validateRequestParams_correct_witness :
  Forall (param_ok example_params) (handshakeRequestParams example_library).
Proof.
  apply (validateRequestParams_correct example_params (handshakeRequestParams example_library));
    [apply handshake_specs_ok|vm_compute; reflexivity].
Defined.

Lemma validated_integers_witness :
  exists s n, get example_params "client_version" = Some (VString s) /\ Atoi s = (n, true) /\
     getIntStringRequestParam example_params "client_version" = Ok n.
Proof.
  destruct (validated_integers example_params (handshakeRequestParams example_library) client_version_spec) as [H|[H _]];
    [apply handshake_specs_ok|vm_compute; reflexivity|apply client_version_expected|reflexivity..|exact H|discriminate H].
Defined.

(** The relay packet is not in the log of the example, nor the steering IP, since the protocol
    is not fronted; but the address of the in-proxy broker is. *)
Lemma handshake_log_private_witness :
  let log := getRequestLogFields example_library "handshake" "" "" zeroGeoIPData [] (Some example_params) (handshakeRequestParams example_library) in
  log !! "inproxy_relay_packet" = None /\ log !! "steering_ip" = None /\ is_Some (log !! "inproxy_broker_resolved_ip_address").
Proof.
  intros log. destruct (handshake_log_private example_library "handshake" "" zeroGeoIPData [] example_params) as (H1 & H2 & _). split_and!.
  - apply (H1 (param "inproxy_relay_packet" (Some (isUnpaddedBase64String example_library)) (requestParamOptional .| requestParamNotLogged)) requestParamNotLogged);
      [refine (list_elem_of_lookup_2 _ 94 _ _); reflexivity|reflexivity|by left|by left].
  - apply (H1 (param "steering_ip" (Some (isIPAddress example_library)) (requestParamOptional .| requestParamLogOnlyForFrontedMeekOrConjure))
      requestParamLogOnlyForFrontedMeekOrConjure);
      [refine (list_elem_of_lookup_2 _ 82 _ _); reflexivity|reflexivity| |by left].
    right. left. split_and!; vm_compute; reflexivity.
  - destruct (H2 (param "inproxy_broker_resolved_ip_address" (Some isAnyString) requestParamOptional) (VString "192.0.2.1")) as (k & Hk & Hs);
      [refine (list_elem_of_lookup_2 _ 99 _ _); reflexivity| |reflexivity|discriminate|].
    + intros bit Hb [->|[(-> & _)|(-> & _)]]; discriminate Hb.
    + by apply list_elem_of_singleton in Hk as ->.
Defined.
