(* ===== verification/TrafficRules.v ===== *)
(** * Traffic rules

    Models src/psiphon/server/trafficRules.go: the rules that limit the traffic of a
    client, their filters, the selection of the rules for a client, and the decision on the
    destination of a port forward.

    A pointer field is an [option], and so is a slice, of which nil and the empty slice are
    different values here.  [ParseCIDR] is the function of Go's package net. *)

From Stdlib Require Import ZArith Lia Strings.Byte Strings.Ascii Strings.String.
From stdpp Require Import base gmap list sets strings numbers.
From S2P Require Import Prelude.
From S2P Require Import Wildcard.
From S2P Require Import Lookups.
From S2P Require Import GoStrings.
From S2P Require Import Protocol.
From S2P Require Import ApiParams.
#[local] Open Scope string_scope.
#[local] Open Scope Z_scope.
#[local] Open Scope list_scope.

Definition DEFAULT_IDLE_TCP_PORT_FORWARD_TIMEOUT_MILLISECONDS : Z := 30000.
Definition DEFAULT_IDLE_UDP_PORT_FORWARD_TIMEOUT_MILLISECONDS : Z := 30000.
Definition DEFAULT_DIAL_TCP_PORT_FORWARD_TIMEOUT_MILLISECONDS : Z := 10000.
Definition DEFAULT_MAX_TCP_DIALING_PORT_FORWARD_COUNT : Z := 64.
Definition DEFAULT_MAX_TCP_PORT_FORWARD_COUNT : Z := 512.
Definition DEFAULT_MAX_UDP_PORT_FORWARD_COUNT : Z := 32.
Definition DEFAULT_MEEK_RATE_LIMITER_GARBAGE_COLLECTOR_TRIGGER_COUNT : Z := 5000.
Definition DEFAULT_MEEK_RATE_LIMITER_REAP_HISTORY_FREQUENCY_SECONDS : Z := 300.
Definition DEFAULT_MEEK_RATE_LIMITER_MAX_ENTRIES : Z := 1000000.

(** ** Rules *)

Record RateLimits := {
  ReadUnthrottledBytes : option Z;
  ReadBytesPerSecond : option Z;
  WriteUnthrottledBytes : option Z;
  WriteBytesPerSecond : option Z;
  CloseAfterExhausted : option bool;
  EstablishmentReadBytesPerSecond : option Z;
  EstablishmentWriteBytesPerSecond : option Z;
  UnthrottleFirstTunnelOnly : option bool
}.

Record TrafficRules := {
  rules_RateLimits : RateLimits;
  DialTCPPortForwardTimeoutMilliseconds : option Z;
  IdleTCPPortForwardTimeoutMilliseconds : option Z;
  IdleUDPPortForwardTimeoutMilliseconds : option Z;
  MaxTCPDialingPortForwardCount : option Z;
  MaxTCPPortForwardCount : option Z;
  MaxUDPPortForwardCount : option Z;
  AllowTCPPorts : option PortList.PortList;
  AllowUDPPorts : option PortList.PortList;
  DisallowTCPPorts : option PortList.PortList;
  DisallowUDPPorts : option PortList.PortList;
  AllowSubnets : option (list string);
  AllowASNs : option (list string);
  DisallowSubnets : option (list string);
  DisallowASNs : option (list string);
  DisableDiscovery : option bool
}.

(** [common.RateLimits] *)
Record CommonRateLimitsValue := {
  r_ReadUnthrottledBytes : Z;
  r_ReadBytesPerSecond : Z;
  r_WriteUnthrottledBytes : Z;
  r_WriteBytesPerSecond : Z;
  r_CloseAfterExhausted : bool
}.

(** [*p] *)
Definition deref {A} (p : option A) : res A := res_of_option "invalid memory address or nil pointer dereference" p.

Definition CommonRateLimits (rateLimits : RateLimits) (handshaked : bool) : res CommonRateLimitsValue :=
  ru ← deref (ReadUnthrottledBytes rateLimits);
  rb ← deref (ReadBytesPerSecond rateLimits);
  wu ← deref (WriteUnthrottledBytes rateLimits);
  wb ← deref (WriteBytesPerSecond rateLimits);
  ce ← deref (CloseAfterExhausted rateLimits);
  '(rb, wb) ← (if handshaked then Ok (rb, wb)
               else rb ← deref (EstablishmentReadBytesPerSecond rateLimits);
                    wb ← deref (EstablishmentWriteBytesPerSecond rateLimits); Ok (rb, wb));
  Ok {| r_ReadUnthrottledBytes := ru; r_ReadBytesPerSecond := rb; r_WriteUnthrottledBytes := wu;
        r_WriteBytesPerSecond := wb; r_CloseAfterExhausted := ce |}.

(** ** Filters *)

(** [HandshakeParameters] is a map in the order of its iteration; the lookups are made by
    [initLookups]. *)
Record TrafficRulesFilter := {
  TunnelProtocols : list string;
  Regions : list string;
  ISPs : list string;
  ASNs : list string;
  Cities : list string;
  APIProtocol : string;
  HandshakeParameters : option (list (string * list string));
  AuthorizedAccessTypes : list string;
  ActiveAuthorizationIDs : list string;
  AuthorizationsRevoked : bool;
  ProviderIDs : list string;
  MinClientVersion : option Z;
  MaxClientVersion : option Z;
  regionLookup : Strings.StringLookup;
  ispLookup : Strings.StringLookup;
  asnLookup : Strings.StringLookup;
  cityLookup : Strings.StringLookup;
  activeAuthorizationIDLookup : Strings.StringLookup;
  providerIDLookup : Strings.StringLookup
}.

Record FilteredRule := { Filter : TrafficRulesFilter; ExceptFilter : option TrafficRulesFilter; Rules : TrafficRules }.

Record TrafficRulesSet := {
  DefaultRules : TrafficRules;
  FilteredRules : list FilteredRule;
  MeekRateLimiterHistorySize : Z;
  MeekRateLimiterThresholdSeconds : Z;
  MeekRateLimiterTunnelProtocols : list string;
  MeekRateLimiterRegions : list string;
  MeekRateLimiterISPs : list string;
  MeekRateLimiterASNs : list string;
  MeekRateLimiterCities : list string;
  MeekRateLimiterGarbageCollectionTriggerCount : Z;
  MeekRateLimiterReapHistoryFrequencySeconds : Z;
  MeekRateLimiterMaxEntries : Z
}.

(** The fields of tunnelServer.go's [handshakeState] that the filters read. *)
Record handshakeState := {
  completed : bool;
  apiProtocol : string;
  apiParams : APIParameters;
  activeAuthorizationIDs : list string;
  authorizedAccessTypes : list string;
  authorizationsRevoked : bool
}.

(** ** Validation *)

(** [p != nil && *p < 0] *)
Definition negative (p : option Z) : bool := match p with Some v => v <? 0 | None => false end.

Section Validate.

Context (L : library) (ParseCIDR : string -> res Subnet.IPNet).

Fixpoint validate_subnets (subnets : list string) : res unit :=
  match subnets with
  | [] => Ok tt
  | subnet :: subnets =>
      match ParseCIDR subnet with
      | Ok _ => validate_subnets subnets
      | Err e => Err ("invalid subnet: " +:+ subnet +:+ " " +:+ e)
      | Panic e => Panic e
      | NoFuel => NoFuel
      end
  end.

Fixpoint validate_ASNs (asns : list string) : res unit :=
  match asns with
  | [] => Ok tt
  | asn :: asns => if (Atoi asn).2 then validate_ASNs asns else Err ("invalid ASN: " +:+ asn)
  end.

Definition validateTrafficRules (rules : TrafficRules) : res unit :=
  let limits := rules_RateLimits rules in
  if negative (ReadUnthrottledBytes limits) || negative (ReadBytesPerSecond limits) ||
     negative (WriteUnthrottledBytes limits) || negative (WriteBytesPerSecond limits) ||
     negative (EstablishmentReadBytesPerSecond limits) || negative (EstablishmentWriteBytesPerSecond limits) ||
     negative (DialTCPPortForwardTimeoutMilliseconds rules) || negative (IdleTCPPortForwardTimeoutMilliseconds rules) ||
     negative (IdleUDPPortForwardTimeoutMilliseconds rules) || negative (MaxTCPDialingPortForwardCount rules) ||
     negative (MaxTCPPortForwardCount rules) || negative (MaxUDPPortForwardCount rules)
  then Err "TrafficRules values must be >= 0"
  else
    _ ← validate_subnets (default [] (AllowSubnets rules));
    _ ← validate_ASNs (default [] (AllowASNs rules));
    _ ← validate_subnets (default [] (DisallowSubnets rules));
    validate_ASNs (default [] (DisallowASNs rules)).

Definition validateFilter (filter : TrafficRulesFilter) : res unit :=
  check_all (list_Contains (map name (handshakeRequestParams L))) "invalid parameter name: "
    (map fst (default [] (HandshakeParameters filter))).

Fixpoint validate_filtered (l : list FilteredRule) : res unit :=
  match l with
  | [] => Ok tt
  | filteredRule :: l =>
      _ ← validateFilter (Filter filteredRule);
      _ ← match ExceptFilter filteredRule with Some f => validateFilter f | None => Ok tt end;
      _ ← validateTrafficRules (Rules filteredRule);
      validate_filtered l
  end.

Definition Validate (set : TrafficRulesSet) : res unit :=
  if (MeekRateLimiterHistorySize set <? 0) || (MeekRateLimiterThresholdSeconds set <? 0) ||
     (MeekRateLimiterGarbageCollectionTriggerCount set <? 0) || (MeekRateLimiterReapHistoryFrequencySeconds set <? 0)
  then Err "MeekRateLimiter values must be >= 0"
  else if (0 <? MeekRateLimiterHistorySize set) && (MeekRateLimiterThresholdSeconds set <=? 0)
  then Err "MeekRateLimiterThresholdSeconds must be > 0"
  else
    _ ← validateTrafficRules (DefaultRules set);
    validate_filtered (FilteredRules set).

(** ** Loading *)

Definition initTrafficRulesLookups (rules : TrafficRules) : TrafficRules := {|
  rules_RateLimits := rules_RateLimits rules;
  DialTCPPortForwardTimeoutMilliseconds := DialTCPPortForwardTimeoutMilliseconds rules;
  IdleTCPPortForwardTimeoutMilliseconds := IdleTCPPortForwardTimeoutMilliseconds rules;
  IdleUDPPortForwardTimeoutMilliseconds := IdleUDPPortForwardTimeoutMilliseconds rules;
  MaxTCPDialingPortForwardCount := MaxTCPDialingPortForwardCount rules;
  MaxTCPPortForwardCount := MaxTCPPortForwardCount rules;
  MaxUDPPortForwardCount := MaxUDPPortForwardCount rules;
  AllowTCPPorts := PortList.OptimizeLookups (AllowTCPPorts rules);
  AllowUDPPorts := PortList.OptimizeLookups (AllowUDPPorts rules);
  DisallowTCPPorts := PortList.OptimizeLookups (DisallowTCPPorts rules);
  DisallowUDPPorts := PortList.OptimizeLookups (DisallowUDPPorts rules);
  AllowSubnets := AllowSubnets rules;
  AllowASNs := AllowASNs rules;
  DisallowSubnets := DisallowSubnets rules;
  DisallowASNs := DisallowASNs rules;
  DisableDiscovery := DisableDiscovery rules |}.

Definition initTrafficRulesFilterLookups (filter : TrafficRulesFilter) : TrafficRulesFilter := {|
  TunnelProtocols := TunnelProtocols filter;
  Regions := Regions filter;
  ISPs := ISPs filter;
  ASNs := ASNs filter;
  Cities := Cities filter;
  APIProtocol := APIProtocol filter;
  HandshakeParameters := HandshakeParameters filter;
  AuthorizedAccessTypes := AuthorizedAccessTypes filter;
  ActiveAuthorizationIDs := ActiveAuthorizationIDs filter;
  AuthorizationsRevoked := AuthorizationsRevoked filter;
  ProviderIDs := ProviderIDs filter;
  MinClientVersion := MinClientVersion filter;
  MaxClientVersion := MaxClientVersion filter;
  regionLookup := Strings.NewStringLookup (Regions filter);
  ispLookup := Strings.NewStringLookup (ISPs filter);
  asnLookup := Strings.NewStringLookup (ASNs filter);
  cityLookup := Strings.NewStringLookup (Cities filter);
  activeAuthorizationIDLookup := Strings.NewStringLookup (ActiveAuthorizationIDs filter);
  providerIDLookup := Strings.NewStringLookup (ProviderIDs filter) |}.

Definition init_filtered (f : FilteredRule) : FilteredRule := {|
  Filter := initTrafficRulesFilterLookups (Filter f);
  ExceptFilter := option_map initTrafficRulesFilterLookups (ExceptFilter f);
  Rules := initTrafficRulesLookups (Rules f) |}.

Definition initLookups (set : TrafficRulesSet) : TrafficRulesSet := {|
  DefaultRules := initTrafficRulesLookups (DefaultRules set);
  FilteredRules := map init_filtered (FilteredRules set);
  MeekRateLimiterHistorySize := MeekRateLimiterHistorySize set;
  MeekRateLimiterThresholdSeconds := MeekRateLimiterThresholdSeconds set;
  MeekRateLimiterTunnelProtocols := MeekRateLimiterTunnelProtocols set;
  MeekRateLimiterRegions := MeekRateLimiterRegions set;
  MeekRateLimiterISPs := MeekRateLimiterISPs set;
  MeekRateLimiterASNs := MeekRateLimiterASNs set;
  MeekRateLimiterCities := MeekRateLimiterCities set;
  MeekRateLimiterGarbageCollectionTriggerCount := MeekRateLimiterGarbageCollectionTriggerCount set;
  MeekRateLimiterReapHistoryFrequencySeconds := MeekRateLimiterReapHistoryFrequencySeconds set;
  MeekRateLimiterMaxEntries := MeekRateLimiterMaxEntries set |}.

(** The reload function of [NewTrafficRulesSet], for the content of the file: every field
    but the last is taken from it. *)
Definition reload (set newSet : TrafficRulesSet) : res TrafficRulesSet :=
  _ ← Validate newSet;
  Ok (initLookups {|
    DefaultRules := DefaultRules newSet;
    FilteredRules := FilteredRules newSet;
    MeekRateLimiterHistorySize := MeekRateLimiterHistorySize newSet;
    MeekRateLimiterThresholdSeconds := MeekRateLimiterThresholdSeconds newSet;
    MeekRateLimiterTunnelProtocols := MeekRateLimiterTunnelProtocols newSet;
    MeekRateLimiterRegions := MeekRateLimiterRegions newSet;
    MeekRateLimiterISPs := MeekRateLimiterISPs newSet;
    MeekRateLimiterASNs := MeekRateLimiterASNs newSet;
    MeekRateLimiterCities := MeekRateLimiterCities newSet;
    MeekRateLimiterGarbageCollectionTriggerCount := MeekRateLimiterGarbageCollectionTriggerCount newSet;
    MeekRateLimiterReapHistoryFrequencySeconds := MeekRateLimiterReapHistoryFrequencySeconds newSet;
    MeekRateLimiterMaxEntries := MeekRateLimiterMaxEntries set |}).

End Validate.

(** ** Selection *)

Definition given {A} (value otherwise : option A) : option A :=
  match value with Some _ => value | None => otherwise end.

(** The default rules, with the fields omitted there set. *)
Definition with_defaults (rules : TrafficRules) : TrafficRules := {|
  rules_RateLimits := {|
    ReadUnthrottledBytes := given (ReadUnthrottledBytes (rules_RateLimits rules)) (Some 0);
    ReadBytesPerSecond := given (ReadBytesPerSecond (rules_RateLimits rules)) (Some 0);
    WriteUnthrottledBytes := given (WriteUnthrottledBytes (rules_RateLimits rules)) (Some 0);
    WriteBytesPerSecond := given (WriteBytesPerSecond (rules_RateLimits rules)) (Some 0);
    CloseAfterExhausted := given (CloseAfterExhausted (rules_RateLimits rules)) (Some false);
    EstablishmentReadBytesPerSecond := given (EstablishmentReadBytesPerSecond (rules_RateLimits rules)) (Some 0);
    EstablishmentWriteBytesPerSecond := given (EstablishmentWriteBytesPerSecond (rules_RateLimits rules)) (Some 0);
    UnthrottleFirstTunnelOnly := given (UnthrottleFirstTunnelOnly (rules_RateLimits rules)) (Some false) |};
  DialTCPPortForwardTimeoutMilliseconds := given (DialTCPPortForwardTimeoutMilliseconds rules) (Some DEFAULT_DIAL_TCP_PORT_FORWARD_TIMEOUT_MILLISECONDS);
  IdleTCPPortForwardTimeoutMilliseconds := given (IdleTCPPortForwardTimeoutMilliseconds rules) (Some DEFAULT_IDLE_TCP_PORT_FORWARD_TIMEOUT_MILLISECONDS);
  IdleUDPPortForwardTimeoutMilliseconds := given (IdleUDPPortForwardTimeoutMilliseconds rules) (Some DEFAULT_IDLE_UDP_PORT_FORWARD_TIMEOUT_MILLISECONDS);
  MaxTCPDialingPortForwardCount := given (MaxTCPDialingPortForwardCount rules) (Some DEFAULT_MAX_TCP_DIALING_PORT_FORWARD_COUNT);
  MaxTCPPortForwardCount := given (MaxTCPPortForwardCount rules) (Some DEFAULT_MAX_TCP_PORT_FORWARD_COUNT);
  MaxUDPPortForwardCount := given (MaxUDPPortForwardCount rules) (Some DEFAULT_MAX_UDP_PORT_FORWARD_COUNT);
  AllowTCPPorts := AllowTCPPorts rules;
  AllowUDPPorts := AllowUDPPorts rules;
  DisallowTCPPorts := DisallowTCPPorts rules;
  DisallowUDPPorts := DisallowUDPPorts rules;
  AllowSubnets := given (AllowSubnets rules) (Some []);
  AllowASNs := given (AllowASNs rules) (Some []);
  DisallowSubnets := given (DisallowSubnets rules) (Some []);
  DisallowASNs := given (DisallowASNs rules) (Some []);
  DisableDiscovery := given (DisableDiscovery rules) (Some false) |}.

(** The fields that the selected rules set override those of the rules. *)
Definition override (rules selected : TrafficRules) : TrafficRules := {|
  rules_RateLimits := {|
    ReadUnthrottledBytes := given (ReadUnthrottledBytes (rules_RateLimits selected)) (ReadUnthrottledBytes (rules_RateLimits rules));
    ReadBytesPerSecond := given (ReadBytesPerSecond (rules_RateLimits selected)) (ReadBytesPerSecond (rules_RateLimits rules));
    WriteUnthrottledBytes := given (WriteUnthrottledBytes (rules_RateLimits selected)) (WriteUnthrottledBytes (rules_RateLimits rules));
    WriteBytesPerSecond := given (WriteBytesPerSecond (rules_RateLimits selected)) (WriteBytesPerSecond (rules_RateLimits rules));
    CloseAfterExhausted := given (CloseAfterExhausted (rules_RateLimits selected)) (CloseAfterExhausted (rules_RateLimits rules));
    EstablishmentReadBytesPerSecond := given (EstablishmentReadBytesPerSecond (rules_RateLimits selected)) (EstablishmentReadBytesPerSecond (rules_RateLimits rules));
    EstablishmentWriteBytesPerSecond := given (EstablishmentWriteBytesPerSecond (rules_RateLimits selected)) (EstablishmentWriteBytesPerSecond (rules_RateLimits rules));
    UnthrottleFirstTunnelOnly := given (UnthrottleFirstTunnelOnly (rules_RateLimits selected)) (UnthrottleFirstTunnelOnly (rules_RateLimits rules)) |};
  DialTCPPortForwardTimeoutMilliseconds := given (DialTCPPortForwardTimeoutMilliseconds selected) (DialTCPPortForwardTimeoutMilliseconds rules);
  IdleTCPPortForwardTimeoutMilliseconds := given (IdleTCPPortForwardTimeoutMilliseconds selected) (IdleTCPPortForwardTimeoutMilliseconds rules);
  IdleUDPPortForwardTimeoutMilliseconds := given (IdleUDPPortForwardTimeoutMilliseconds selected) (IdleUDPPortForwardTimeoutMilliseconds rules);
  MaxTCPDialingPortForwardCount := given (MaxTCPDialingPortForwardCount selected) (MaxTCPDialingPortForwardCount rules);
  MaxTCPPortForwardCount := given (MaxTCPPortForwardCount selected) (MaxTCPPortForwardCount rules);
  MaxUDPPortForwardCount := given (MaxUDPPortForwardCount selected) (MaxUDPPortForwardCount rules);
  AllowTCPPorts := given (AllowTCPPorts selected) (AllowTCPPorts rules);
  AllowUDPPorts := given (AllowUDPPorts selected) (AllowUDPPorts rules);
  DisallowTCPPorts := given (DisallowTCPPorts selected) (DisallowTCPPorts rules);
  DisallowUDPPorts := given (DisallowUDPPorts selected) (DisallowUDPPorts rules);
  AllowSubnets := given (AllowSubnets selected) (AllowSubnets rules);
  AllowASNs := given (AllowASNs selected) (AllowASNs rules);
  DisallowSubnets := given (DisallowSubnets selected) (DisallowSubnets rules);
  DisallowASNs := given (DisallowASNs selected) (DisallowASNs rules);
  DisableDiscovery := given (DisableDiscovery selected) (DisableDiscovery rules) |}.

(** Unthrottled bytes are for the first tunnel only. *)
Definition throttle (rules : TrafficRules) : TrafficRules := {|
  rules_RateLimits := {|
    ReadUnthrottledBytes := Some 0;
    ReadBytesPerSecond := ReadBytesPerSecond (rules_RateLimits rules);
    WriteUnthrottledBytes := Some 0;
    WriteBytesPerSecond := WriteBytesPerSecond (rules_RateLimits rules);
    CloseAfterExhausted := CloseAfterExhausted (rules_RateLimits rules);
    EstablishmentReadBytesPerSecond := EstablishmentReadBytesPerSecond (rules_RateLimits rules);
    EstablishmentWriteBytesPerSecond := EstablishmentWriteBytesPerSecond (rules_RateLimits rules);
    UnthrottleFirstTunnelOnly := UnthrottleFirstTunnelOnly (rules_RateLimits rules) |};
  DialTCPPortForwardTimeoutMilliseconds := DialTCPPortForwardTimeoutMilliseconds rules;
  IdleTCPPortForwardTimeoutMilliseconds := IdleTCPPortForwardTimeoutMilliseconds rules;
  IdleUDPPortForwardTimeoutMilliseconds := IdleUDPPortForwardTimeoutMilliseconds rules;
  MaxTCPDialingPortForwardCount := MaxTCPDialingPortForwardCount rules;
  MaxTCPPortForwardCount := MaxTCPPortForwardCount rules;
  MaxUDPPortForwardCount := MaxUDPPortForwardCount rules;
  AllowTCPPorts := AllowTCPPorts rules;
  AllowUDPPorts := AllowUDPPorts rules;
  DisallowTCPPorts := DisallowTCPPorts rules;
  DisallowUDPPorts := DisallowUDPPorts rules;
  AllowSubnets := AllowSubnets rules;
  AllowASNs := AllowASNs rules;
  DisallowSubnets := DisallowSubnets rules;
  DisallowASNs := DisallowASNs rules;
  DisableDiscovery := DisableDiscovery rules |}.

(** The checks of the handshake parameters, in the order of the map. *)
Fixpoint match_handshake (params : APIParameters) (l : list (string * list string)) : res bool :=
  match l with
  | [] => Ok true
  | (n, values) :: l =>
      match getStringRequestParam params n with
      | Ok clientValue =>
          b ← ContainsWildcard values clientValue;
          if (b : bool) then match_handshake params l else Ok false
      | _ => Ok false
      end
  end.

(** The client version is checked whether or not the handshake is complete. *)
Definition match_version (filter : TrafficRulesFilter) (params : APIParameters) : bool :=
  match MinClientVersion filter, MaxClientVersion filter with
  | None, None => true
  | min, max =>
      match getIntStringRequestParam params PSIPHON_API_HANDSHAKE_CLIENT_VERSION with
      | Ok clientVersion =>
          match min with Some m => negb (clientVersion <? m) | None => true end &&
          match max with Some m => negb (m <? clientVersion) | None => true end
      | _ => false
      end
  end.

Definition match_authorizations (filter : TrafficRulesFilter) (state : handshakeState) : bool :=
  if AuthorizationsRevoked filter then completed state && authorizationsRevoked state
  else
    (bool_decide (ActiveAuthorizationIDs filter = []) ||
     (completed state && negb (authorizationsRevoked state) &&
      existsb (Strings.Contains (activeAuthorizationIDLookup filter)) (activeAuthorizationIDs state))) &&
    (bool_decide (AuthorizedAccessTypes filter = []) ||
     (completed state && negb (authorizationsRevoked state) &&
      ContainsAny (AuthorizedAccessTypes filter) (authorizedAccessTypes state))).

Definition matchFilter (serverProviderID tunnelProtocol : string) (geoIPData : GeoIPData) (state : handshakeState)
    (filter : TrafficRulesFilter) : res bool :=
  if negb (bool_decide (TunnelProtocols filter = [])) && negb (list_Contains (TunnelProtocols filter) tunnelProtocol)
  then Ok false
  else if negb (bool_decide (Regions filter = [])) && negb (Strings.Contains (regionLookup filter) (Country geoIPData))
  then Ok false
  else if negb (bool_decide (ISPs filter = [])) && negb (Strings.Contains (ispLookup filter) (ISP geoIPData))
  then Ok false
  else if negb (bool_decide (ASNs filter = [])) && negb (Strings.Contains (asnLookup filter) (ASN geoIPData))
  then Ok false
  else if negb (bool_decide (Cities filter = [])) && negb (Strings.Contains (cityLookup filter) (City geoIPData))
  then Ok false
  else if negb (bool_decide (APIProtocol filter = "")) &&
          (negb (completed state) || negb (bool_decide (apiProtocol state = APIProtocol filter)))
  then Ok false
  else
    handshake ← match HandshakeParameters filter with
                | None => Ok true
                | Some l => if negb (completed state) then Ok false else match_handshake (apiParams state) l
                end;
    if negb handshake then Ok false
    else if negb (match_authorizations filter state) then Ok false
    else if negb (bool_decide (ProviderIDs filter = [])) && negb (Strings.Contains (providerIDLookup filter) serverProviderID)
    then Ok false
    else Ok (match_version filter (apiParams state)).

(** The first of the filtered rules that matches. *)
Fixpoint select_rules (matches : TrafficRulesFilter -> res bool) (l : list FilteredRule) : res (option TrafficRules) :=
  match l with
  | [] => Ok None
  | filteredRules :: l =>
      m ← matches (Filter filteredRules);
      m ← match ExceptFilter filteredRules with
          | Some except => if (m : bool) then b ← matches except; Ok (negb b) else Ok false
          | None => Ok m
          end;
      if (m : bool) then Ok (Some (Rules filteredRules)) else select_rules matches l
  end.

Definition GetTrafficRules (set : TrafficRulesSet) (serverProviderID : string) (isFirstTunnelInSession : bool)
    (tunnelProtocol : string) (geoIPData : GeoIPData) (state : handshakeState) : res TrafficRules :=
  let trafficRules := with_defaults (DefaultRules set) in
  selected ← select_rules (matchFilter serverProviderID tunnelProtocol geoIPData state) (FilteredRules set);
  let trafficRules := match selected with Some rules => override trafficRules rules | None => trafficRules end in
  first ← deref (UnthrottleFirstTunnelOnly (rules_RateLimits trafficRules));
  Ok (if (first : bool) && negb isFirstTunnelInSession then throttle trafficRules else trafficRules).

(** ** Port forwards *)

Section Ports.

Context (ParseCIDR : string -> res Subnet.IPNet).

(** The error of [ParseCIDR] is ignored: the network is then nil, and its method panics. *)
Fixpoint ipInSubnets (remoteIP : bytes) (subnets : list string) : res bool :=
  match subnets with
  | [] => Ok false
  | subnet :: subnets =>
      match ParseCIDR subnet with
      | Ok network => if Subnet.IPNet_Contains network remoteIP then Ok true else ipInSubnets remoteIP subnets
      | _ => Panic "invalid memory address or nil pointer dereference"
      end
  end.

(** The GeoIP service, which may be nil, gives the ASN of an address. *)
Definition asn_listed (geoIPService : option (bytes -> string)) (asns : list string) (remoteIP : bytes) : bool :=
  match asns, geoIPService with
  | [], _ | _, None => false
  | _, Some lookup => list_Contains asns (lookup remoteIP)
  end.

Definition allowSubnet (rules : TrafficRules) (remoteIP : bytes) : res bool :=
  ipInSubnets remoteIP (default [] (AllowSubnets rules)).

Definition disallowSubnet (rules : TrafficRules) (remoteIP : bytes) : res bool :=
  ipInSubnets remoteIP (default [] (DisallowSubnets rules)).

Definition allowASN (rules : TrafficRules) (geoIPService : option (bytes -> string)) (remoteIP : bytes) : bool :=
  asn_listed geoIPService (default [] (AllowASNs rules)) remoteIP.

Definition disallowASN (rules : TrafficRules) (geoIPService : option (bytes -> string)) (remoteIP : bytes) : bool :=
  asn_listed geoIPService (default [] (DisallowASNs rules)) remoteIP.

Definition AllowTCPPort (rules : TrafficRules) (geoIPService : option (bytes -> string)) (remoteIP : bytes) (port : Z) : res bool :=
  ds ← disallowSubnet rules remoteIP;
  if (ds : bool) || disallowASN rules geoIPService remoteIP then Ok false
  else if PortList.Lookup (DisallowTCPPorts rules) port then Ok false
  else if PortList.IsEmpty (AllowTCPPorts rules) then Ok true
  else if PortList.Lookup (AllowTCPPorts rules) port then Ok true
  else
    s ← allowSubnet rules remoteIP;
    Ok ((s : bool) || allowASN rules geoIPService remoteIP).

Definition AllowUDPPort (rules : TrafficRules) (geoIPService : option (bytes -> string)) (remoteIP : bytes) (port : Z) : res bool :=
  ds ← disallowSubnet rules remoteIP;
  if (ds : bool) || disallowASN rules geoIPService remoteIP then Ok false
  else if PortList.Lookup (DisallowUDPPorts rules) port then Ok false
  else if PortList.IsEmpty (AllowUDPPorts rules) then Ok true
  else if PortList.Lookup (AllowUDPPorts rules) port then Ok true
  else
    s ← allowSubnet rules remoteIP;
    Ok ((s : bool) || allowASN rules geoIPService remoteIP).

End Ports.

(** ** The meek rate limiter *)

Definition positive_or (n otherwise : Z) : Z := if n <=? 0 then otherwise else n.

Definition GetMeekRateLimiterConfig (set : TrafficRulesSet)
  : Z * Z * list string * list string * list string * list string * list string * Z * Z * Z :=
  (MeekRateLimiterHistorySize set, MeekRateLimiterThresholdSeconds set, MeekRateLimiterTunnelProtocols set,
   MeekRateLimiterRegions set, MeekRateLimiterISPs set, MeekRateLimiterASNs set, MeekRateLimiterCities set,
   positive_or (MeekRateLimiterGarbageCollectionTriggerCount set) DEFAULT_MEEK_RATE_LIMITER_GARBAGE_COLLECTOR_TRIGGER_COUNT,
   positive_or (MeekRateLimiterReapHistoryFrequencySeconds set) DEFAULT_MEEK_RATE_LIMITER_REAP_HISTORY_FREQUENCY_SECONDS,
   positive_or (MeekRateLimiterMaxEntries set) DEFAULT_MEEK_RATE_LIMITER_MAX_ENTRIES).

(** ** Properties of the selection *)

(** What a filter asks of a client, without the lookups. *)
Record filter_matches (serverProviderID tunnelProtocol : string) (geoIPData : GeoIPData) (state : handshakeState)
    (filter : TrafficRulesFilter) : Prop := {
  fm_protocol : TunnelProtocols filter = [] \/ tunnelProtocol ∈ TunnelProtocols filter;
  fm_region : Regions filter = [] \/ Country geoIPData ∈ Regions filter;
  fm_isp : ISPs filter = [] \/ ISP geoIPData ∈ ISPs filter;
  fm_asn : ASNs filter = [] \/ ASN geoIPData ∈ ASNs filter;
  fm_city : Cities filter = [] \/ City geoIPData ∈ Cities filter;
  fm_api : APIProtocol filter = "" \/ completed state = true /\ apiProtocol state = APIProtocol filter;
  fm_handshake : forall l, HandshakeParameters filter = Some l -> completed state = true /\
    forall n values, (n, values) ∈ l ->
      exists v, getStringRequestParam (apiParams state) n = Ok v /\ matches_any values v;
  fm_revoked : AuthorizationsRevoked filter = true -> completed state = true /\ authorizationsRevoked state = true;
  fm_ids : AuthorizationsRevoked filter = false -> ActiveAuthorizationIDs filter <> [] ->
    completed state = true /\ authorizationsRevoked state = false /\
    exists ID, ID ∈ ActiveAuthorizationIDs filter /\ ID ∈ activeAuthorizationIDs state;
  fm_types : AuthorizationsRevoked filter = false -> AuthorizedAccessTypes filter <> [] ->
    completed state = true /\ authorizationsRevoked state = false /\
    exists T, T ∈ AuthorizedAccessTypes filter /\ T ∈ authorizedAccessTypes state;
  fm_provider : ProviderIDs filter = [] \/ serverProviderID ∈ ProviderIDs filter;
  fm_min : forall m, MinClientVersion filter = Some m ->
    exists v, getIntStringRequestParam (apiParams state) PSIPHON_API_HANDSHAKE_CLIENT_VERSION = Ok v /\ m <= v;
  fm_max : forall m, MaxClientVersion filter = Some m ->
    exists v, getIntStringRequestParam (apiParams state) PSIPHON_API_HANDSHAKE_CLIENT_VERSION = Ok v /\ v <= m
}.

(** The lookups of a filter are those of its lists. *)
Definition lookups_ok (filter : TrafficRulesFilter) : Prop := initTrafficRulesFilterLookups filter = filter.

Lemma init_lookups_ok filter : lookups_ok (initTrafficRulesFilterLookups filter).
Proof. done. Qed.

(** A list that is empty or has the value. *)
Lemma list_test (l : list string) (b : bool) (P : Prop) :
  (b = true <-> P) -> negb (bool_decide (l = [])) && negb b = false <-> l = [] \/ P.
Proof. intros <-. case_bool_decide; destruct b; cbn; naive_solver. Qed.

Lemma lookup_test l x : negb (bool_decide (l = [])) && negb (Strings.Contains (Strings.NewStringLookup l) x) = false <-> l = [] \/ x ∈ l.
Proof. apply list_test. by rewrite Strings.Contains_spec, bool_decide_eq_true. Qed.

Lemma match_handshake_spec params l :
  exists b, match_handshake params l = Ok b /\
    (b = true <-> forall n values, (n, values) ∈ l -> exists v, getStringRequestParam params n = Ok v /\ matches_any values v).
Proof.
  induction l as [|[n values] l (b & Hb & IH)]; cbn [match_handshake].
  { exists true. split; [done|]. split; [|done]. by intros _ n values ?%not_elem_of_nil. }
  setoid_rewrite elem_of_cons. destruct (getStringRequestParam params n) as [v|e|e|] eqn:Hg.
  2-4: exists false; split; [done|]; split; [done|]; intros H; destruct (H n values (or_introl eq_refl)) as (v & Hv & _); congruence.
  destruct (ContainsWildcard_spec values v) as (b' & -> & Hw). cbn. destruct b'.
  - exists b. split; [done|]. rewrite IH. split.
    + intros H n' values' [[= -> ->]|Hin]; [|by apply H]. exists v. split; [done|]. by apply Hw.
    + intros H n' values' Hin. apply H. by right.
  - exists false. split; [done|]. split; [done|]. intros H.
    destruct (H n values (or_introl eq_refl)) as (v' & Hv' & Hm). rewrite Hg in Hv'. injection Hv' as <-. by apply Hw in Hm.
Qed.

Lemma match_version_spec filter params :
  match_version filter params = true <->
  (forall m, MinClientVersion filter = Some m ->
    exists v, getIntStringRequestParam params PSIPHON_API_HANDSHAKE_CLIENT_VERSION = Ok v /\ m <= v) /\
  (forall m, MaxClientVersion filter = Some m ->
    exists v, getIntStringRequestParam params PSIPHON_API_HANDSHAKE_CLIENT_VERSION = Ok v /\ v <= m).
Proof.
  unfold match_version. set (r := getIntStringRequestParam _ _).
  assert (forall P : Z -> Prop, (exists v, r = Ok v /\ P v) <-> match r with Ok v => P v | _ => False end) as Hr.
  { intros P. destruct r; naive_solver. }
  setoid_rewrite Hr. clear Hr.
  assert (forall P : Z -> Prop, forall o : option Z, (forall m, o = Some m -> P m) <-> match o with Some m => P m | None => True end) as Ho.
  { intros P [m|]; naive_solver. }
  rewrite (Ho (fun m => match r with Ok v => m <= v | _ => False end)), (Ho (fun m => match r with Ok v => v <= m | _ => False end)).
  destruct (MinClientVersion filter) as [mn|], (MaxClientVersion filter) as [mx|], r as [v|e|e|];
    rewrite ?andb_true_iff, ?negb_true_iff, ?Z.ltb_ge; naive_solver.
Qed.

Lemma match_authorizations_spec filter state :
  lookups_ok filter ->
  match_authorizations filter state = true <->
  (AuthorizationsRevoked filter = true -> completed state = true /\ authorizationsRevoked state = true) /\
  (AuthorizationsRevoked filter = false -> ActiveAuthorizationIDs filter <> [] ->
    completed state = true /\ authorizationsRevoked state = false /\
    exists ID, ID ∈ ActiveAuthorizationIDs filter /\ ID ∈ activeAuthorizationIDs state) /\
  (AuthorizationsRevoked filter = false -> AuthorizedAccessTypes filter <> [] ->
    completed state = true /\ authorizationsRevoked state = false /\
    exists T, T ∈ AuthorizedAccessTypes filter /\ T ∈ authorizedAccessTypes state).
Proof.
  intros Hl. unfold match_authorizations.
  assert (existsb (Strings.Contains (activeAuthorizationIDLookup filter)) (activeAuthorizationIDs state) = true <->
    exists ID, ID ∈ ActiveAuthorizationIDs filter /\ ID ∈ activeAuthorizationIDs state) as Hids.
  { rewrite <- Hl. cbn. rewrite existsb_exists. setoid_rewrite Strings.Contains_spec.
    setoid_rewrite bool_decide_eq_true. setoid_rewrite <- list_elem_of_In. naive_solver. }
  destruct (AuthorizationsRevoked filter).
  - rewrite andb_true_iff. naive_solver.
  - rewrite andb_true_iff, !orb_true_iff, !andb_true_iff, !negb_true_iff, !bool_decide_eq_true, Hids, ContainsAny_spec.
    destruct (decide (ActiveAuthorizationIDs filter = [])), (decide (AuthorizedAccessTypes filter = [])); naive_solver.
Qed.

Lemma lookups_eqs filter : lookups_ok filter ->
  regionLookup filter = Strings.NewStringLookup (Regions filter) /\
  ispLookup filter = Strings.NewStringLookup (ISPs filter) /\
  asnLookup filter = Strings.NewStringLookup (ASNs filter) /\
  cityLookup filter = Strings.NewStringLookup (Cities filter) /\
  providerIDLookup filter = Strings.NewStringLookup (ProviderIDs filter).
Proof. intros <-. done. Qed.

Lemma if_ok_false (c : bool) (r : res bool) (b : bool) :
  r = Ok b -> (if c then Ok false else r) = Ok (negb c && b).
Proof. intros ->. by destruct c. Qed.

(** The chain of tests is a conjunction. *)
Lemma matchFilter_spec serverProviderID tunnelProtocol geoIPData state filter :
  lookups_ok filter ->
  exists b, matchFilter serverProviderID tunnelProtocol geoIPData state filter = Ok b /\
    (b = true <-> filter_matches serverProviderID tunnelProtocol geoIPData state filter).
Proof.
  intros Hl.
  assert (exists h, match HandshakeParameters filter with
      | None => Ok true
      | Some l => if negb (completed state) then Ok false else match_handshake (apiParams state) l end = Ok h /\
      (h = true <-> forall l, HandshakeParameters filter = Some l -> completed state = true /\
        forall n values, (n, values) ∈ l -> exists v, getStringRequestParam (apiParams state) n = Ok v /\ matches_any values v))
    as (h & Hh & Hhs).
  { destruct (HandshakeParameters filter) as [l|]; [|exists true; naive_solver].
    destruct (completed state); cbn; [|exists false; naive_solver].
    destruct (match_handshake_spec (apiParams state) l) as (b & -> & H). exists b. split; [done|]. rewrite H. naive_solver. }
  destruct (lookups_eqs filter Hl) as (E1 & E2 & E3 & E4 & E5).
  unfold matchFilter. rewrite Hh, E1, E2, E3, E4, E5. cbn [mbind res_mbind].
  eexists. split; [repeat (apply if_ok_false); reflexivity|].
  rewrite !andb_true_iff, !negb_true_iff, match_version_spec. rewrite negb_false_iff, Hhs.
  rewrite (negb_false_iff (match_authorizations _ _)), (match_authorizations_spec _ _ Hl).
  rewrite !lookup_test, (list_test _ _ _ (list_Contains_spec _ _)).
  assert (negb (bool_decide (APIProtocol filter = "")) &&
    (negb (completed state) || negb (bool_decide (apiProtocol state = APIProtocol filter))) = false <->
    APIProtocol filter = "" \/ completed state = true /\ apiProtocol state = APIProtocol filter) as ->.
  { rewrite andb_false_iff, negb_false_iff, orb_false_iff, !negb_false_iff, !bool_decide_eq_true. done. }
  split; [intros H; destruct_and! H; by constructor|]. intros []. by split_and!.
Qed.

(** The fields of the rules, as data. *)
Inductive field : Type -> Type :=
| f_ReadUnthrottledBytes : field Z
| f_ReadBytesPerSecond : field Z
| f_WriteUnthrottledBytes : field Z
| f_WriteBytesPerSecond : field Z
| f_CloseAfterExhausted : field bool
| f_EstablishmentReadBytesPerSecond : field Z
| f_EstablishmentWriteBytesPerSecond : field Z
| f_UnthrottleFirstTunnelOnly : field bool
| f_DialTCPPortForwardTimeoutMilliseconds : field Z
| f_IdleTCPPortForwardTimeoutMilliseconds : field Z
| f_IdleUDPPortForwardTimeoutMilliseconds : field Z
| f_MaxTCPDialingPortForwardCount : field Z
| f_MaxTCPPortForwardCount : field Z
| f_MaxUDPPortForwardCount : field Z
| f_AllowTCPPorts : field PortList.PortList
| f_AllowUDPPorts : field PortList.PortList
| f_DisallowTCPPorts : field PortList.PortList
| f_DisallowUDPPorts : field PortList.PortList
| f_AllowSubnets : field (list string)
| f_AllowASNs : field (list string)
| f_DisallowSubnets : field (list string)
| f_DisallowASNs : field (list string)
| f_DisableDiscovery : field bool.

Definition get_field {A} (f : field A) (rules : TrafficRules) : option A :=
  match f with
  | f_ReadUnthrottledBytes => ReadUnthrottledBytes (rules_RateLimits rules)
  | f_ReadBytesPerSecond => ReadBytesPerSecond (rules_RateLimits rules)
  | f_WriteUnthrottledBytes => WriteUnthrottledBytes (rules_RateLimits rules)
  | f_WriteBytesPerSecond => WriteBytesPerSecond (rules_RateLimits rules)
  | f_CloseAfterExhausted => CloseAfterExhausted (rules_RateLimits rules)
  | f_EstablishmentReadBytesPerSecond => EstablishmentReadBytesPerSecond (rules_RateLimits rules)
  | f_EstablishmentWriteBytesPerSecond => EstablishmentWriteBytesPerSecond (rules_RateLimits rules)
  | f_UnthrottleFirstTunnelOnly => UnthrottleFirstTunnelOnly (rules_RateLimits rules)
  | f_DialTCPPortForwardTimeoutMilliseconds => DialTCPPortForwardTimeoutMilliseconds rules
  | f_IdleTCPPortForwardTimeoutMilliseconds => IdleTCPPortForwardTimeoutMilliseconds rules
  | f_IdleUDPPortForwardTimeoutMilliseconds => IdleUDPPortForwardTimeoutMilliseconds rules
  | f_MaxTCPDialingPortForwardCount => MaxTCPDialingPortForwardCount rules
  | f_MaxTCPPortForwardCount => MaxTCPPortForwardCount rules
  | f_MaxUDPPortForwardCount => MaxUDPPortForwardCount rules
  | f_AllowTCPPorts => AllowTCPPorts rules
  | f_AllowUDPPorts => AllowUDPPorts rules
  | f_DisallowTCPPorts => DisallowTCPPorts rules
  | f_DisallowUDPPorts => DisallowUDPPorts rules
  | f_AllowSubnets => AllowSubnets rules
  | f_AllowASNs => AllowASNs rules
  | f_DisallowSubnets => DisallowSubnets rules
  | f_DisallowASNs => DisallowASNs rules
  | f_DisableDiscovery => DisableDiscovery rules
  end.

(** What a field is when neither the selected nor the default rules set it. *)
Definition fallback {A} (f : field A) : option A :=
  match f with
  | f_ReadUnthrottledBytes => Some 0
  | f_ReadBytesPerSecond => Some 0
  | f_WriteUnthrottledBytes => Some 0
  | f_WriteBytesPerSecond => Some 0
  | f_CloseAfterExhausted => Some false
  | f_EstablishmentReadBytesPerSecond => Some 0
  | f_EstablishmentWriteBytesPerSecond => Some 0
  | f_UnthrottleFirstTunnelOnly => Some false
  | f_DialTCPPortForwardTimeoutMilliseconds => Some DEFAULT_DIAL_TCP_PORT_FORWARD_TIMEOUT_MILLISECONDS
  | f_IdleTCPPortForwardTimeoutMilliseconds => Some DEFAULT_IDLE_TCP_PORT_FORWARD_TIMEOUT_MILLISECONDS
  | f_IdleUDPPortForwardTimeoutMilliseconds => Some DEFAULT_IDLE_UDP_PORT_FORWARD_TIMEOUT_MILLISECONDS
  | f_MaxTCPDialingPortForwardCount => Some DEFAULT_MAX_TCP_DIALING_PORT_FORWARD_COUNT
  | f_MaxTCPPortForwardCount => Some DEFAULT_MAX_TCP_PORT_FORWARD_COUNT
  | f_MaxUDPPortForwardCount => Some DEFAULT_MAX_UDP_PORT_FORWARD_COUNT
  | f_AllowTCPPorts => None
  | f_AllowUDPPorts => None
  | f_DisallowTCPPorts => None
  | f_DisallowUDPPorts => None
  | f_AllowSubnets => Some []
  | f_AllowASNs => Some []
  | f_DisallowSubnets => Some []
  | f_DisallowASNs => Some []
  | f_DisableDiscovery => Some false
  end.

(** The fields cleared for tunnels after the first. *)
Definition is_unthrottled {A} (f : field A) : bool :=
  match f with f_ReadUnthrottledBytes | f_WriteUnthrottledBytes => true | _ => false end.

(** A filtered rule selects a client: its filter matches and its exception does not. *)
Definition selects (serverProviderID tunnelProtocol : string) (geoIPData : GeoIPData) (state : handshakeState)
    (r : FilteredRule) : Prop :=
  filter_matches serverProviderID tunnelProtocol geoIPData state (Filter r) /\
  forall e, ExceptFilter r = Some e -> ~ filter_matches serverProviderID tunnelProtocol geoIPData state e.

Definition filtered_ok (r : FilteredRule) : Prop :=
  lookups_ok (Filter r) /\ forall e, ExceptFilter r = Some e -> lookups_ok e.

Lemma select_rules_spec serverProviderID tunnelProtocol geoIPData state l :
  Forall filtered_ok l ->
  (select_rules (matchFilter serverProviderID tunnelProtocol geoIPData state) l = Ok None /\
   Forall (fun r => ~ selects serverProviderID tunnelProtocol geoIPData state r) l) \/
  exists l1 r l2, l = l1 ++ r :: l2 /\
    Forall (fun r => ~ selects serverProviderID tunnelProtocol geoIPData state r) l1 /\
    selects serverProviderID tunnelProtocol geoIPData state r /\
    select_rules (matchFilter serverProviderID tunnelProtocol geoIPData state) l = Ok (Some (Rules r)).
Proof.
  induction 1 as [|r l [Hf He] _ IH]; [left; by split; [|constructor]|]. cbn [select_rules].
  destruct (matchFilter_spec serverProviderID tunnelProtocol geoIPData state (Filter r) Hf) as (b & -> & Hb). cbn [mbind res_mbind].
  assert (exists m, (match ExceptFilter r with
      | Some except => if b then b ← matchFilter serverProviderID tunnelProtocol geoIPData state except; Ok (negb b) else Ok false
      | None => Ok b end) = Ok m /\ (m = true <-> selects serverProviderID tunnelProtocol geoIPData state r)) as (m & -> & Hm).
  { unfold selects. setoid_rewrite <- Hb. destruct (ExceptFilter r) as [e|]; [|exists b; naive_solver].
    destruct b; [|exists false; naive_solver].
    destruct (matchFilter_spec serverProviderID tunnelProtocol geoIPData state e (He e eq_refl)) as (b' & -> & Hb'). cbn.
    exists (negb b'). split; [done|]. rewrite negb_true_iff. destruct b'; naive_solver. }
  cbn [mbind res_mbind]. destruct m.
  - right. exists [], r, l. split_and!; [done|constructor|by apply Hm|done].
  - assert (~ selects serverProviderID tunnelProtocol geoIPData state r) by (intros ?%Hm; done).
    destruct IH as [[-> ?]|(l1 & r' & l2 & -> & ? & ? & ->)]; [left; split; [done|by constructor]|].
    right. exists (r :: l1), r', l2. by split_and!; [|constructor| |].
Qed.

Lemma get_with_defaults {A} (f : field A) rules :
  get_field f (with_defaults rules) = given (get_field f rules) (fallback f).
Proof. destruct f; cbn; try done; unfold given; by case_match. Qed.

Lemma get_override {A} (f : field A) rules selected :
  get_field f (override rules selected) = given (get_field f selected) (get_field f rules).
Proof. by destruct f. Qed.

Lemma get_throttle {A} (f : field A) rules :
  get_field f (throttle rules) = if is_unthrottled f then fallback f else get_field f rules.
Proof. by destruct f. Qed.

(** The rules that [GetTrafficRules] returns, by field. *)
Definition resolved {A} (defaults : TrafficRules) (selected : option TrafficRules) (f : field A) : option A :=
  given (selected ≫= get_field f) (given (get_field f defaults) (fallback f)).

Lemma get_resolved {A} (f : field A) defaults selected :
  get_field f (match selected with Some rules => override (with_defaults defaults) rules | None => with_defaults defaults end) =
  resolved defaults selected f.
Proof. unfold resolved. destruct selected; [rewrite get_override|]; by rewrite get_with_defaults. Qed.

Lemma resolved_some {A} (f : field A) defaults selected :
  is_Some (fallback f) -> is_Some (resolved defaults selected f).
Proof. unfold resolved, given. intros H. by repeat case_match; eauto. Qed.

Lemma GetTrafficRules_fields set serverProviderID isFirst tunnelProtocol geoIPData state :
  Forall filtered_ok (FilteredRules set) ->
  exists rules selected,
    GetTrafficRules set serverProviderID isFirst tunnelProtocol geoIPData state = Ok rules /\
    ((selected = None /\ Forall (fun r => ~ selects serverProviderID tunnelProtocol geoIPData state r) (FilteredRules set)) \/
     exists l1 r l2, FilteredRules set = l1 ++ r :: l2 /\ selected = Some (Rules r) /\
       Forall (fun r => ~ selects serverProviderID tunnelProtocol geoIPData state r) l1 /\
       selects serverProviderID tunnelProtocol geoIPData state r) /\
    forall A (f : field A), get_field f rules =
      if is_unthrottled f && negb isFirst && bool_decide (resolved (DefaultRules set) selected f_UnthrottleFirstTunnelOnly = Some true)
      then fallback f else resolved (DefaultRules set) selected f.
Proof.
  intros Hok. unfold GetTrafficRules.
  assert (exists selected, select_rules (matchFilter serverProviderID tunnelProtocol geoIPData state) (FilteredRules set) = Ok selected /\
    ((selected = None /\ Forall (fun r => ~ selects serverProviderID tunnelProtocol geoIPData state r) (FilteredRules set)) \/
     exists l1 r l2, FilteredRules set = l1 ++ r :: l2 /\ selected = Some (Rules r) /\
       Forall (fun r => ~ selects serverProviderID tunnelProtocol geoIPData state r) l1 /\
       selects serverProviderID tunnelProtocol geoIPData state r)) as (selected & -> & Hsel).
  { destruct (select_rules_spec serverProviderID tunnelProtocol geoIPData state _ Hok) as [[-> ?]|(l1 & r & l2 & Hl & ? & ? & ->)];
      [exists None; by split; [|left]|]. exists (Some (Rules r)). split; [done|]. right. by exists l1, r, l2. }
  cbn [mbind res_mbind]. pose proof (fun A (f : field A) => get_resolved f (DefaultRules set) selected) as Hf.
  set (rules := match selected with Some _ => _ | None => _ end) in *.
  pose proof (Hf _ f_UnthrottleFirstTunnelOnly) as Hu. cbn [get_field] in Hu. rewrite Hu.
  destruct (resolved_some f_UnthrottleFirstTunnelOnly (DefaultRules set) selected) as [first Hfirst]; [by eexists|].
  rewrite Hfirst. cbn [deref res_of_option mbind res_mbind]. eexists _, selected. split_and!; [done|done|].
  intros A f. rewrite Hfirst. destruct first; cbn [andb]; [rewrite bool_decide_true by done|rewrite bool_decide_false by done].
  - destruct isFirst; cbn [negb]; [by rewrite andb_false_r, Hf|]. rewrite get_throttle, Hf. by destruct (is_unthrottled f).
  - rewrite andb_false_r, Hf. done.
Qed.

(** ** Loaded rules *)

Section Loaded.

Context (L : library) (ParseCIDR : string -> res Subnet.IPNet).

(** A port list decoded from JSON has no lookup map yet. *)
Definition fresh_ports (p : option PortList.PortList) : Prop := forall q, p = Some q -> PortList.lookup q = None.

Definition fresh (rules : TrafficRules) : Prop :=
  fresh_ports (AllowTCPPorts rules) /\ fresh_ports (AllowUDPPorts rules) /\
  fresh_ports (DisallowTCPPorts rules) /\ fresh_ports (DisallowUDPPorts rules).

Definition fresh_set (set : TrafficRulesSet) : Prop :=
  fresh (DefaultRules set) /\ Forall (fun r => fresh (Rules r)) (FilteredRules set).

(** The port is in one of the ranges of the list. *)
Definition listed (p : option PortList.PortList) (port : Z) : Prop :=
  exists q r, p = Some q /\ r ∈ PortList.portRanges q /\ PortList.in_range port r.

Definition parses (subnets : list string) : Prop := Forall (fun s => exists n, ParseCIDR s = Ok n) subnets.

(** What the values of the fields of loaded rules are. *)
Definition ports_ok (q : PortList.PortList) : Prop :=
  forall port, PortList.Lookup (Some q) port = true <-> listed (Some q) port.

Definition good_value {A} (f : field A) : A -> Prop :=
  match f with
  | f_ReadUnthrottledBytes | f_ReadBytesPerSecond | f_WriteUnthrottledBytes | f_WriteBytesPerSecond
  | f_EstablishmentReadBytesPerSecond | f_EstablishmentWriteBytesPerSecond
  | f_DialTCPPortForwardTimeoutMilliseconds | f_IdleTCPPortForwardTimeoutMilliseconds
  | f_IdleUDPPortForwardTimeoutMilliseconds | f_MaxTCPDialingPortForwardCount
  | f_MaxTCPPortForwardCount | f_MaxUDPPortForwardCount => fun n => 0 <= n
  | f_AllowTCPPorts | f_AllowUDPPorts | f_DisallowTCPPorts | f_DisallowUDPPorts => ports_ok
  | f_AllowSubnets | f_DisallowSubnets => parses
  | _ => fun _ => True
  end.

Definition rules_ok (rules : TrafficRules) : Prop := forall A (f : field A) v, get_field f rules = Some v -> good_value f v.

Definition loaded (set : TrafficRulesSet) : Prop :=
  rules_ok (DefaultRules set) /\ Forall (fun r => filtered_ok r /\ rules_ok (Rules r)) (FilteredRules set).

Lemma optimized_ok p q : fresh_ports p -> PortList.OptimizeLookups p = Some q -> ports_ok q.
Proof.
  intros Hf Hq port. assert (PortList.Lookup (Some q) port = PortList.Lookup p port) as ->.
  { rewrite <- Hq. by apply PortList.OptimizeLookups_lookup. }
  destruct p as [[rs lk]|]; [|done]. specialize (Hf _ eq_refl). cbn in Hf. subst lk.
  rewrite PortList.Lookup_linear. unfold listed. cbn in Hq.
  assert (PortList.portRanges q = rs) as <- by (destruct (decide _); injection Hq as <-; done).
  split; [intros (r & ?); by exists q, r|]. intros (q' & r & [= <-] & ?). by exists r.
Qed.

Lemma validate_subnets_ok subnets : validate_subnets ParseCIDR subnets = Ok tt -> parses subnets.
Proof.
  induction subnets as [|s l IH]; cbn; [by constructor|]. destruct (ParseCIDR s) eqn:E; [|done..].
  constructor; [eauto|by apply IH].
Qed.

Lemma negative_ok p v : negative p = false -> p = Some v -> 0 <= v.
Proof. intros H ->. cbn in H. by apply Z.ltb_ge. Qed.

Lemma validate_rules_ok rules :
  validateTrafficRules ParseCIDR rules = Ok tt -> fresh rules -> rules_ok (initTrafficRulesLookups rules).
Proof.
  unfold validateTrafficRules. cbn zeta. destruct (_ || _) eqn:E; [done|].
  repeat (apply orb_false_iff in E as [E ?]). intros ([] & Ha%validate_subnets_ok & Hv')%res_bind_ok.
  apply res_bind_ok in Hv' as ([] & _ & Hv'). apply res_bind_ok in Hv' as ([] & Hb%validate_subnets_ok & _).
  intros (Hf1 & Hf2 & Hf3 & Hf4) A f v. destruct f; cbn; intros Hv; try done; eauto using negative_ok, optimized_ok.
  - by rewrite Hv in Ha.
  - by rewrite Hv in Hb.
Qed.

Lemma validate_filtered_ok l :
  validate_filtered L ParseCIDR l = Ok tt -> Forall (fun r => fresh (Rules r)) l ->
  Forall (fun r => filtered_ok r /\ rules_ok (Rules r)) (map init_filtered l).
Proof.
  induction l as [|r l IH]; intros H Hf; [constructor|]. cbn in H. inversion_clear Hf.
  apply res_bind_ok in H as ([] & _ & H). apply res_bind_ok in H as ([] & _ & H). apply res_bind_ok in H as ([] & Hr & H).
  constructor; [|by apply IH]. split; [|by apply validate_rules_ok]. split; [apply init_lookups_ok|].
  cbn. destruct (ExceptFilter r); [|done]. intros e [= <-]. apply init_lookups_ok.
Qed.

Lemma reload_loaded set newSet set' : fresh_set newSet -> reload L ParseCIDR set newSet = Ok set' -> loaded set'.
Proof.
  intros [Hd Hf] ([] & Hv & [= <-])%res_bind_ok. unfold Validate in Hv. do 2 (case_match; [done|]).
  apply res_bind_ok in Hv as ([] & Hr & Hv). split; [by apply validate_rules_ok|by apply validate_filtered_ok].
Qed.

Lemma fallback_good {A} (f : field A) v : fallback f = Some v -> good_value f v.
Proof. destruct f; cbn; try (by intros [= <-]); by intros [= <-]; constructor. Qed.

Lemma resolved_good {A} (f : field A) defaults selected v :
  rules_ok defaults -> (forall r, selected = Some r -> rules_ok r) -> resolved defaults selected f = Some v -> good_value f v.
Proof.
  intros Hd Hs. unfold resolved, given. destruct selected as [r|]; cbn.
  - destruct (get_field f r) eqn:E1; [intros [= <-]; by eapply (Hs r)|].
    destruct (get_field f defaults) eqn:E2; [intros [= <-]; by eapply Hd|apply fallback_good].
  - destruct (get_field f defaults) eqn:E2; [intros [= <-]; by eapply Hd|apply fallback_good].
Qed.

Lemma GetTrafficRules_ok set serverProviderID isFirst tunnelProtocol geoIPData state :
  loaded set -> exists rules,
    GetTrafficRules set serverProviderID isFirst tunnelProtocol geoIPData state = Ok rules /\ rules_ok rules /\
    forall A (f : field A), is_Some (fallback f) -> is_Some (get_field f rules).
Proof.
  intros [Hd Hl]. destruct (GetTrafficRules_fields set serverProviderID isFirst tunnelProtocol geoIPData state) as (rules & selected & Hr & Hs & Hf).
  { eapply list.Forall_impl; [exact Hl|]. by intros r []. }
  exists rules. split_and!; [done| |].
  - intros A f v. rewrite Hf. case_match; [apply fallback_good|]. apply resolved_good; [done|].
    destruct Hs as [[-> _]|(l1 & r & l2 & E & -> & _)]; [done|]. intros ? [= <-]. rewrite E in Hl.
    apply list.Forall_app in Hl as [_ Hl]. by inversion_clear Hl as [|? ? [_ ?] _].
  - intros A f Hb. rewrite Hf. case_match; [done|by apply resolved_some].
Qed.

(** C33: for every client, the rules returned from a loaded configuration have a value in
    each of their pointer and slice fields other than the port lists, so that converting
    the rate limits never meets a nil pointer; and all limits are non-negative. *)
Theorem GetTrafficRules_complete set newSet set' serverProviderID isFirst tunnelProtocol geoIPData state :
  fresh_set newSet -> reload L ParseCIDR set newSet = Ok set' ->
  exists rules, GetTrafficRules set' serverProviderID isFirst tunnelProtocol geoIPData state = Ok rules /\
    (forall A (f : field A), is_Some (fallback f) -> is_Some (get_field f rules)) /\
    (forall f v, get_field (A := Z) f rules = Some v -> good_value f v) /\
    forall handshaked, exists limits, CommonRateLimits (rules_RateLimits rules) handshaked = Ok limits /\
      0 <= r_ReadUnthrottledBytes limits /\ 0 <= r_ReadBytesPerSecond limits /\
      0 <= r_WriteUnthrottledBytes limits /\ 0 <= r_WriteBytesPerSecond limits.
Proof.
  intros Hf Hr. destruct (GetTrafficRules_ok set' serverProviderID isFirst tunnelProtocol geoIPData state) as (rules & Hg & Hok & Hc);
    [by eapply reload_loaded|].
  exists rules. split_and!; [done|done|intros f v; apply Hok|]. intros handshaked. unfold CommonRateLimits.
  destruct (Hc _ f_ReadUnthrottledBytes ltac:(by eexists)) as [ru E1], (Hc _ f_ReadBytesPerSecond ltac:(by eexists)) as [rb E2],
    (Hc _ f_WriteUnthrottledBytes ltac:(by eexists)) as [wu E3], (Hc _ f_WriteBytesPerSecond ltac:(by eexists)) as [wb E4],
    (Hc _ f_CloseAfterExhausted ltac:(by eexists)) as [ce E5],
    (Hc _ f_EstablishmentReadBytesPerSecond ltac:(by eexists)) as [er E6],
    (Hc _ f_EstablishmentWriteBytesPerSecond ltac:(by eexists)) as [ew E7].
  pose proof (Hok _ _ _ E1). pose proof (Hok _ _ _ E2). pose proof (Hok _ _ _ E3). pose proof (Hok _ _ _ E4).
  pose proof (Hok _ _ _ E6). pose proof (Hok _ _ _ E7). cbn in *. rewrite E1, E2, E3, E4, E5. cbn.
  destruct handshaked; [|rewrite E6, E7]; cbn; eexists; by split_and!.
Qed.

(** C31: the rules of a client are those of the first filtered rule whose filter matches
    the client and whose exception does not, field by field: a field it does not set is
    that of the default rules, or else a constant.  Only the unthrottled bytes are zero for
    a tunnel that is not the first, where the rules say so. *)
Theorem GetTrafficRules_correct set newSet set' serverProviderID isFirst tunnelProtocol geoIPData state :
  fresh_set newSet -> reload L ParseCIDR set newSet = Ok set' ->
  exists rules selected,
    GetTrafficRules set' serverProviderID isFirst tunnelProtocol geoIPData state = Ok rules /\
    ((selected = None /\ Forall (fun r => ~ selects serverProviderID tunnelProtocol geoIPData state r) (FilteredRules set')) \/
     exists l1 r l2, FilteredRules set' = l1 ++ r :: l2 /\ selected = Some (Rules r) /\
       Forall (fun r => ~ selects serverProviderID tunnelProtocol geoIPData state r) l1 /\
       selects serverProviderID tunnelProtocol geoIPData state r) /\
    forall A (f : field A), get_field f rules =
      if is_unthrottled f && negb isFirst && bool_decide (resolved (DefaultRules set') selected f_UnthrottleFirstTunnelOnly = Some true)
      then fallback f else resolved (DefaultRules set') selected f.
Proof.
  intros Hf Hr. apply GetTrafficRules_fields. destruct (reload_loaded _ _ _ Hf Hr) as [_ Hl].
  eapply list.Forall_impl; [exact Hl|]. by intros r [].
Qed.

(** *** Port forwards *)

(** The address is in one of the networks. *)
Definition in_subnets (ip : bytes) (subnets : option (list string)) : Prop :=
  exists s n, s ∈ default [] subnets /\ ParseCIDR s = Ok n /\ Subnet.IPNet_Contains n ip = true.

(** The GeoIP service is there and gives the address one of the ASNs. *)
Definition in_ASNs (geoIPService : option (bytes -> string)) (ip : bytes) (asns : option (list string)) : Prop :=
  exists lookup, geoIPService = Some lookup /\ lookup ip ∈ default [] asns.

Lemma ipInSubnets_spec ip subnets :
  parses (default [] subnets) ->
  exists b, ipInSubnets ParseCIDR ip (default [] subnets) = Ok b /\ (b = true <-> in_subnets ip subnets).
Proof.
  unfold in_subnets. induction 1 as [|s l [n Hn] _ (b & Hb & IH)]; cbn.
  { exists false. split; [done|]. split; [done|]. by intros (? & ? & ?%not_elem_of_nil & _). }
  rewrite Hn. setoid_rewrite elem_of_cons. destruct (Subnet.IPNet_Contains n ip) eqn:E.
  - exists true. split; [done|]. split; [|done]. intros _. exists s, n. naive_solver.
  - exists b. split; [done|]. rewrite IH. split; [naive_solver|]. intros (s' & n' & [->|?] & ? & ?); [congruence|eauto].
Qed.

Lemma asn_listed_spec geoIPService asns ip :
  asn_listed geoIPService (default [] asns) ip = true <-> in_ASNs geoIPService ip asns.
Proof.
  unfold in_ASNs. destruct (default [] asns) as [|a l] eqn:E, geoIPService as [lookup|]; cbn [asn_listed].
  - split; [done|]. by intros (? & _ & ?%not_elem_of_nil).
  - split; [done|]. by intros (? & [=] & _).
  - rewrite list_Contains_spec. split; [by eexists|]. by intros (? & [= <-] & ?).
  - split; [done|]. by intros (? & [=] & _).
Qed.

Lemma field_ports_ok (f : field PortList.PortList) rules port :
  (forall q, get_field f rules = Some q -> ports_ok q) ->
  PortList.Lookup (get_field f rules) port = true <-> listed (get_field f rules) port.
Proof.
  intros H. destruct (get_field f rules) as [q|] eqn:E; [by apply H|]. cbn. split; [done|]. by intros (? & ? & [=] & _).
Qed.

(** The destinations that rules allow: the two protocols differ in their port lists. *)
Definition destination_allowed (rules : TrafficRules) (disallowed allowed : option PortList.PortList)
    (geoIPService : option (bytes -> string)) (ip : bytes) (port : Z) : Prop :=
  ~ in_subnets ip (DisallowSubnets rules) /\ ~ in_ASNs geoIPService ip (DisallowASNs rules) /\
  ~ listed disallowed port /\
  (PortList.IsEmpty allowed = true \/ listed allowed port \/
   in_subnets ip (AllowSubnets rules) \/ in_ASNs geoIPService ip (AllowASNs rules)).

Lemma destination_spec rules disallowed allowed geoIPService ip port :
  rules_ok rules ->
  (PortList.Lookup disallowed port = true <-> listed disallowed port) ->
  (PortList.Lookup allowed port = true <-> listed allowed port) ->
  exists b,
    (ds ← disallowSubnet ParseCIDR rules ip;
     if (ds : bool) || disallowASN rules geoIPService ip then Ok false
     else if PortList.Lookup disallowed port then Ok false
     else if PortList.IsEmpty allowed then Ok true
     else if PortList.Lookup allowed port then Ok true
     else s ← allowSubnet ParseCIDR rules ip; Ok ((s : bool) || allowASN rules geoIPService ip)) = Ok b /\
    (b = true <-> destination_allowed rules disallowed allowed geoIPService ip port).
Proof.
  intros Hok Hd Ha. unfold destination_allowed, disallowSubnet, allowSubnet, disallowASN, allowASN.
  assert (parses (default [] (DisallowSubnets rules)) /\ parses (default [] (AllowSubnets rules))) as [Hp1 Hp2].
  { pose proof (Hok _ f_DisallowSubnets) as H1. pose proof (Hok _ f_AllowSubnets) as H2. cbn in H1, H2.
    split; [destruct (DisallowSubnets rules)|destruct (AllowSubnets rules)]; cbn; auto; constructor. }
  destruct (ipInSubnets_spec ip (DisallowSubnets rules) Hp1) as (ds & -> & Hds).
  destruct (ipInSubnets_spec ip (AllowSubnets rules) Hp2) as (s & -> & Hs). cbn.
  setoid_rewrite <- Hds. setoid_rewrite <- Hs. setoid_rewrite <- Hd. setoid_rewrite <- Ha. setoid_rewrite <- asn_listed_spec.
  destruct ds; cbn; [exists false; naive_solver|].
  destruct (asn_listed geoIPService (default [] (DisallowASNs rules)) ip); [exists false; naive_solver|].
  destruct (PortList.Lookup disallowed port); [exists false; naive_solver|].
  destruct (PortList.IsEmpty allowed) eqn:Ee; [exists true; naive_solver|].
  destruct (PortList.Lookup allowed port); [exists true; naive_solver|]. eexists. split; [done|].
  rewrite orb_true_iff. naive_solver.
Qed.

Lemma AllowPort_spec set newSet set' serverProviderID isFirst tunnelProtocol geoIPData state rules geoIPService ip port :
  fresh_set newSet -> reload L ParseCIDR set newSet = Ok set' ->
  GetTrafficRules set' serverProviderID isFirst tunnelProtocol geoIPData state = Ok rules ->
  (exists b, AllowTCPPort ParseCIDR rules geoIPService ip port = Ok b /\
     (b = true <-> destination_allowed rules (DisallowTCPPorts rules) (AllowTCPPorts rules) geoIPService ip port)) /\
  (exists b, AllowUDPPort ParseCIDR rules geoIPService ip port = Ok b /\
     (b = true <-> destination_allowed rules (DisallowUDPPorts rules) (AllowUDPPorts rules) geoIPService ip port)).
Proof.
  intros Hf Hr Hg. destruct (GetTrafficRules_ok set' serverProviderID isFirst tunnelProtocol geoIPData state) as (rules' & Hg' & Hok & _);
    [by eapply reload_loaded|]. rewrite Hg in Hg'. injection Hg' as <-.
  split; (apply destination_spec; [done|..]).
  - apply (field_ports_ok f_DisallowTCPPorts), (Hok _ f_DisallowTCPPorts).
  - apply (field_ports_ok f_AllowTCPPorts), (Hok _ f_AllowTCPPorts).
  - apply (field_ports_ok f_DisallowUDPPorts), (Hok _ f_DisallowUDPPorts).
  - apply (field_ports_ok f_AllowUDPPorts), (Hok _ f_AllowUDPPorts).
Qed.

(** Under the rules of any client, whether a TCP or UDP port forward is allowed is
    always decided, without a panic on a subnet that does not parse: it is allowed exactly
    when the address is in no disallowed subnet or ASN, the port is not disallowed, and
    either all ports are allowed, or the port is, or the subnet or the ASN is. *)
Theorem AllowPort_correct set newSet set' serverProviderID isFirst tunnelProtocol geoIPData state rules geoIPService ip port :
  fresh_set newSet -> reload L ParseCIDR set newSet = Ok set' ->
  GetTrafficRules set' serverProviderID isFirst tunnelProtocol geoIPData state = Ok rules ->
  (exists b, AllowTCPPort ParseCIDR rules geoIPService ip port = Ok b /\
     (b = true <-> destination_allowed rules (DisallowTCPPorts rules) (AllowTCPPorts rules) geoIPService ip port)) /\
  (exists b, AllowUDPPort ParseCIDR rules geoIPService ip port = Ok b /\
     (b = true <-> destination_allowed rules (DisallowUDPPorts rules) (AllowUDPPorts rules) geoIPService ip port)).
Proof. intros Hf Hr Hg. exact (AllowPort_spec set newSet set' serverProviderID isFirst tunnelProtocol geoIPData state rules geoIPService ip port Hf Hr Hg). Qed.

(** *** Reloading *)

Definition empty_limits : RateLimits := {|
  ReadUnthrottledBytes := None; ReadBytesPerSecond := None; WriteUnthrottledBytes := None; WriteBytesPerSecond := None;
  CloseAfterExhausted := None; EstablishmentReadBytesPerSecond := None; EstablishmentWriteBytesPerSecond := None;
  UnthrottleFirstTunnelOnly := None |}.

Definition empty_rules : TrafficRules := {|
  rules_RateLimits := empty_limits; DialTCPPortForwardTimeoutMilliseconds := None;
  IdleTCPPortForwardTimeoutMilliseconds := None; IdleUDPPortForwardTimeoutMilliseconds := None;
  MaxTCPDialingPortForwardCount := None; MaxTCPPortForwardCount := None; MaxUDPPortForwardCount := None;
  AllowTCPPorts := None; AllowUDPPorts := None; DisallowTCPPorts := None; DisallowUDPPorts := None;
  AllowSubnets := None; AllowASNs := None; DisallowSubnets := None; DisallowASNs := None; DisableDiscovery := None |}.

(** [&TrafficRulesSet{}] *)
Definition empty_set : TrafficRulesSet := {|
  DefaultRules := empty_rules; FilteredRules := []; MeekRateLimiterHistorySize := 0;
  MeekRateLimiterThresholdSeconds := 0; MeekRateLimiterTunnelProtocols := []; MeekRateLimiterRegions := [];
  MeekRateLimiterISPs := []; MeekRateLimiterASNs := []; MeekRateLimiterCities := [];
  MeekRateLimiterGarbageCollectionTriggerCount := 0; MeekRateLimiterReapHistoryFrequencySeconds := 0;
  MeekRateLimiterMaxEntries := 0 |}.

(** The states of a set: a reload that fails leaves it as it was. *)
Inductive reachable_set : TrafficRulesSet -> Prop :=
| reach_new : reachable_set empty_set
| reach_reload set newSet set' : reachable_set set -> reload L ParseCIDR set newSet = Ok set' -> reachable_set set'.

(** Whatever the configurations say, the maximum number of entries of the meek rate
    limiter's history is always the default, as a reload does not copy that field; the
    other parameters are those of the last configuration that was valid. *)
Theorem max_entries_not_loaded set newSet set' :
  reachable_set set -> reload L ParseCIDR set newSet = Ok set' ->
  (GetMeekRateLimiterConfig set').2 = DEFAULT_MEEK_RATE_LIMITER_MAX_ENTRIES /\
  (GetMeekRateLimiterConfig set').1 = (GetMeekRateLimiterConfig newSet).1.
Proof.
  intros Hset Hr.
  assert (forall s, reachable_set s -> MeekRateLimiterMaxEntries s = 0) as H0.
  { induction 1 as [|s n s' _ IH Hs]; [done|]. by apply res_bind_ok in Hs as ([] & _ & [= <-]). }
  apply res_bind_ok in Hr as ([] & _ & [= <-]). cbn. by rewrite (H0 _ Hset).
Qed.

End Loaded.

(** ** Examples *)

Definition ex_ports : PortList.PortList := {| PortList.portRanges := [(80, 80); (443, 443)]; PortList.lookup := None |}.

Definition ex_default : TrafficRules := {|
  rules_RateLimits := rules_RateLimits empty_rules; DialTCPPortForwardTimeoutMilliseconds := Some 5000;
  IdleTCPPortForwardTimeoutMilliseconds := None; IdleUDPPortForwardTimeoutMilliseconds := None;
  MaxTCPDialingPortForwardCount := None; MaxTCPPortForwardCount := None; MaxUDPPortForwardCount := None;
  AllowTCPPorts := Some ex_ports; AllowUDPPorts := None; DisallowTCPPorts := None; DisallowUDPPorts := None;
  AllowSubnets := None; AllowASNs := None; DisallowSubnets := Some ["10.0.0.0/8"]; DisallowASNs := None;
  DisableDiscovery := None |}.

Definition ex_lookup : Strings.StringLookup := Strings.NewStringLookup [].

Definition ex_filter : TrafficRulesFilter := {|
  TunnelProtocols := []; Regions := ["CA"]; ISPs := []; ASNs := []; Cities := []; APIProtocol := "";
  HandshakeParameters := None; AuthorizedAccessTypes := []; ActiveAuthorizationIDs := [];
  AuthorizationsRevoked := false; ProviderIDs := []; MinClientVersion := None; MaxClientVersion := None;
  regionLookup := ex_lookup; ispLookup := ex_lookup; asnLookup := ex_lookup; cityLookup := ex_lookup;
  activeAuthorizationIDLookup := ex_lookup; providerIDLookup := ex_lookup |}.

Definition ex_newSet : TrafficRulesSet := {|
  DefaultRules := ex_default; FilteredRules := [{| Filter := ex_filter; ExceptFilter := None; Rules := empty_rules |}];
  MeekRateLimiterHistorySize := 10; MeekRateLimiterThresholdSeconds := 60; MeekRateLimiterTunnelProtocols := [];
  MeekRateLimiterRegions := []; MeekRateLimiterISPs := []; MeekRateLimiterASNs := []; MeekRateLimiterCities := [];
  MeekRateLimiterGarbageCollectionTriggerCount := 0; MeekRateLimiterReapHistoryFrequencySeconds := 0;
  MeekRateLimiterMaxEntries := 500 |}.

Definition ex_reload : res TrafficRulesSet := reload example_library Subnet.example_parse empty_set ex_newSet.

Definition ex_set : TrafficRulesSet := match ex_reload with Ok set => set | _ => empty_set end.

Definition ex_geo : GeoIPData := {| Country := "CA"; City := ""; ISP := ""; ASN := ""; ASO := "" |}.

Definition ex_state : handshakeState := {|
  completed := false; apiProtocol := ""; apiParams := ∅; activeAuthorizationIDs := []; authorizedAccessTypes := [];
  authorizationsRevoked := false |}.

Lemma ex_fresh : fresh_set ex_newSet.
Proof.
  split; [|constructor; [|constructor]]; cbn; repeat split; intros q; cbn; [by intros [= <-]|done..].
Qed.

Lemma GetTrafficRules_complete_witness :
  exists rules, GetTrafficRules ex_set "" true "OSSH" ex_geo ex_state = Ok rules /\
    is_Some (get_field f_DialTCPPortForwardTimeoutMilliseconds rules).
Proof.
  destruct (GetTrafficRules_complete example_library Subnet.example_parse empty_set ex_newSet ex_set "" true "OSSH" ex_geo ex_state)
    as (rules & H1 & H2 & _); [exact ex_fresh|vm_compute; reflexivity|].
  exists rules. split; [exact H1|apply H2; by eexists].
Defined.

Lemma GetTrafficRules_correct_witness :
  exists rules, GetTrafficRules ex_set "" true "OSSH" ex_geo ex_state = Ok rules.
Proof.
  destruct (GetTrafficRules_correct example_library Subnet.example_parse empty_set ex_newSet ex_set "" true "OSSH" ex_geo ex_state)
    as (rules & _ & H1 & _); [exact ex_fresh|vm_compute; reflexivity|].
  exists rules. exact H1.
Defined.

Definition ex_rules : TrafficRules :=
  match GetTrafficRules ex_set "" true "OSSH" ex_geo ex_state with Ok rules => rules | _ => empty_rules end.

Lemma AllowPort_correct_witness :
  destination_allowed Subnet.example_parse ex_rules (DisallowTCPPorts ex_rules) (AllowTCPPorts ex_rules) None
    [x01; x02; x03; x04] 80.
Proof.
  destruct (AllowPort_correct example_library Subnet.example_parse empty_set ex_newSet ex_set "" true "OSSH" ex_geo ex_state
    ex_rules None [x01; x02; x03; x04] 80) as [(b & Hb & H) _]; [exact ex_fresh|vm_compute; reflexivity..|].
  apply H. vm_compute in Hb. congruence.
Defined.

Lemma max_entries_not_loaded_witness :
  MeekRateLimiterMaxEntries ex_newSet = 500 /\ (GetMeekRateLimiterConfig ex_set).2 = 1000000.
Proof.
  split; [reflexivity|].
  refine (proj1 (max_entries_not_loaded example_library Subnet.example_parse empty_set ex_newSet ex_set _ _));
    [constructor|vm_compute; reflexivity].
Defined.
