(* ===== verification/Conns.v ===== *)
(** * Sets of connections

    Models [Conns] and [LRUConns] of src/psiphon/common/net.go: the connections of an
    operation that are closed together, and the connections of a client in the order of their
    activity.  The methods hold a mutex, so that each of them is a step; the connections on
    which they call Close are returned. *)

From Stdlib Require Import Lia Sorting.Sorted.
From stdpp Require Import base gmap list relations sorting.
From S2P Require Import Prelude.
#[local] Open Scope list_scope.

(** ** Conns *)

Section Conns.
Context {T : Type} `{EqDecision T, Countable T}.

Record Conns := { isClosed : bool; conns : gset T }.

Definition NewConns : Conns := {| isClosed := false; conns := ∅ |}.

Definition Conns_Reset (c : Conns) : Conns := {| isClosed := false; conns := ∅ |}.

Definition Conns_Add (conn : T) (c : Conns) : Conns * bool :=
  if isClosed c then (c, false) else ({| isClosed := false; conns := {[conn]} ∪ conns c |}, true).

Definition Conns_Remove (conn : T) (c : Conns) : Conns := {| isClosed := isClosed c; conns := conns c ∖ {[conn]} |}.

(** The connections are closed in the order of the map. *)
Definition Conns_CloseAll (c : Conns) : Conns * list T := ({| isClosed := true; conns := ∅ |}, elements (conns c)).

Definition Conns_IsClosed (c : Conns) : bool := isClosed c.

(** *** Every connection that was added is closed *)

Inductive conns_call := CallAdd (conn : T) | CallRemove (conn : T) | CallCloseAll.

(** A call, with the connections it closes. *)
Definition conns_run (o : conns_call) (c : Conns) : Conns * list T :=
  match o with
  | CallAdd conn => ((Conns_Add conn c).1, [])
  | CallRemove conn => (Conns_Remove conn c, [])
  | CallCloseAll => Conns_CloseAll c
  end.

Fixpoint conns_runs (l : list conns_call) (c : Conns) : Conns * list T :=
  match l with
  | [] => (c, [])
  | o :: l => let '(c, closed) := conns_run o c in let '(c, closed') := conns_runs l c in (c, closed ++ closed')
  end.

Lemma conns_kept conn l : CallRemove conn ∉ l -> forall c, conn ∈ conns c -> conn ∈ (conns_runs l c).2 \/ conn ∈ conns (conns_runs l c).1.
Proof.
  induction l as [|o l IH]; intros Hr c Hin; [by right|]. apply not_elem_of_cons in Hr as [Ho Hr]. specialize (IH Hr).
  cbn [conns_runs]. destruct (conns_run o c) as [c' closed] eqn:E. specialize (IH c'). destruct (conns_runs l c') as [c'' closed']. cbn in *.
  rewrite elem_of_app. destruct o as [x|x|]; injection E as <- <-.
  - destruct IH as [?|?]; [|by auto..]. unfold Conns_Add. destruct (isClosed c); cbn; [done|set_solver].
  - destruct IH as [?|?]; [|by auto..]. cbn. assert (x <> conn) by congruence. set_solver.
  - left. left. by apply elem_of_elements.
Qed.

(** A connection that was added, and not removed, has been closed when the set is closed; and
    none is added to a set that is closed. *)
Lemma Conns_CloseAll_complete conn l c :
  (Conns_Add conn c).2 = true -> CallRemove conn ∉ l -> conn ∈ (conns_runs (l ++ [CallCloseAll]) (Conns_Add conn c).1).2.
Proof.
  intros Ha Hr. assert (Hin : conn ∈ conns (Conns_Add conn c).1) by (unfold Conns_Add in *; destruct (isClosed c); [done|cbn; set_solver]).
  destruct (conns_kept conn (l ++ [CallCloseAll])) with (c := (Conns_Add conn c).1) as [?|Hc]; [set_solver|done|done|]. exfalso. revert Hc.
  generalize (Conns_Add conn c).1. clear. induction l as [|o l IH]; intros c; [cbn; set_solver|]. cbn.
  destruct (conns_run o c) as [c' closed]. specialize (IH c'). destruct (conns_runs _ c'). exact IH.
Qed.

Lemma Conns_Add_closed conn c : (Conns_Add conn (Conns_CloseAll c).1).2 = false.
Proof. done. Qed.

End Conns.
Arguments Conns T {_ _}.

(** ** LRUConns *)

Section LRUConns.
Context {C : Type}.

(** A list of elements, the freshest first; an element is known by its number. *)
Record LRUConns := { elems : list (nat * C); next : nat }.

(** An entry references its element; [None] is an entry that was not initialized. *)
Definition LRUConnsEntry := option nat.

Definition NewLRUConns : LRUConns := {| elems := []; next := 0 |}.

Definition LRUConns_Add (conn : C) (l : LRUConns) : LRUConns * LRUConnsEntry :=
  ({| elems := (next l, conn) :: elems l; next := S (next l) |}, Some (next l)).

Definition LRUConns_CloseOldest (l : LRUConns) : LRUConns * list C :=
  match last (elems l) with
  | None => (l, [])
  | Some oldest => ({| elems := take (length (elems l) - 1) (elems l); next := next l |}, [oldest.2])
  end.

Definition LRUConns_CloseAll (l : LRUConns) : LRUConns * list C := ({| elems := []; next := next l |}, (elems l).*2).

(** [list.Remove] and [list.MoveToFront] have no effect on an element that is not in the list. *)
Definition LRUConnsEntry_Remove (entry : LRUConnsEntry) (l : LRUConns) : LRUConns :=
  match entry with
  | None => l
  | Some e => {| elems := filter (fun x => x.1 <> e) (elems l); next := next l |}
  end.

Definition LRUConnsEntry_Touch (entry : LRUConnsEntry) (l : LRUConns) : LRUConns :=
  match entry with
  | None => l
  | Some e =>
      match list_find (fun x => x.1 = e) (elems l) with
      | None => l
      | Some (_, x) => {| elems := x :: filter (fun x => x.1 <> e) (elems l); next := next l |}
      end
  end.

(** *** The abstract view *)

(** Each connection with the time of its last use. *)
Record uses := { used : gmap nat (C * nat); clock : nat }.

(** The operations. *)
Inductive lru_op := OpAdd (conn : C) | OpOldest | OpAll | OpRemove (e : LRUConnsEntry) | OpTouch (e : LRUConnsEntry).

(** [use u o closed entry u']: what an operation closes and returns. *)
Inductive use : uses -> lru_op -> list C -> LRUConnsEntry -> uses -> Prop :=
| use_add u e conn : used u !! e = None ->
    use u (OpAdd conn) [] (Some e) {| used := <[e := (conn, clock u)]> (used u); clock := S (clock u) |}
| use_oldest u e conn t : used u !! e = Some (conn, t) -> (forall e' conn' t', used u !! e' = Some (conn', t') -> t <= t') ->
    use u OpOldest [conn] None {| used := delete e (used u); clock := clock u |}
| use_none u : used u = ∅ -> use u OpOldest [] None u
| use_all u closed : closed ≡ₚ (fun x => x.2.1) <$> map_to_list (used u) -> use u OpAll closed None {| used := ∅; clock := clock u |}
| use_remove u e : use u (OpRemove (Some e)) [] None {| used := delete e (used u); clock := clock u |}
| use_touch u e conn t : used u !! e = Some (conn, t) ->
    use u (OpTouch (Some e)) [] None {| used := <[e := (conn, clock u)]> (used u); clock := S (clock u) |}
| use_touch_gone u e : used u !! e = None -> use u (OpTouch (Some e)) [] None u
| use_nothing u o : o = OpRemove None \/ o = OpTouch None -> use u o [] None u.

Definition lru_run (o : lru_op) (l : LRUConns) : LRUConns * (list C * LRUConnsEntry) :=
  match o with
  | OpAdd conn => let '(l, e) := LRUConns_Add conn l in (l, ([], e))
  | OpOldest => let '(l, closed) := LRUConns_CloseOldest l in (l, (closed, None))
  | OpAll => let '(l, closed) := LRUConns_CloseAll l in (l, (closed, None))
  | OpRemove e => (LRUConnsEntry_Remove e l, ([], None))
  | OpTouch e => (LRUConnsEntry_Touch e l, ([], None))
  end.

(** A sequence of operations, with what each closes and returns. *)
Fixpoint lru_runs (ops : list lru_op) (l : LRUConns) : LRUConns * list (list C * LRUConnsEntry) :=
  match ops with
  | [] => (l, [])
  | o :: ops => let '(l, out) := lru_run o l in let '(l, outs) := lru_runs ops l in (l, out :: outs)
  end.

Inductive run_uses : uses -> list lru_op -> list (list C * LRUConnsEntry) -> uses -> Prop :=
| run_uses_nil u : run_uses u [] [] u
| run_uses_cons u o closed e u' ops outs u'' : use u o closed e u' -> run_uses u' ops outs u'' -> run_uses u (o :: ops) ((closed, e) :: outs) u''.

(** The list has the connections of the map, the last used first. *)
Definition recency (l : LRUConns) (u : uses) (al : list (nat * (C * nat))) : Prop :=
  elems l = (fun x => (x.1, x.2.1)) <$> al /\ NoDup al.*1 /\ StronglySorted (fun x y => y.2.2 < x.2.2) al /\
  (forall e x, used u !! e = Some x <-> (e, x) ∈ al) /\
  (forall e x, (e, x) ∈ al -> e < next l /\ x.2 < clock u).

Definition recent (l : LRUConns) (u : uses) : Prop := exists al, recency l u al.

Lemma filter_elems (al : list (nat * (C * nat))) e :
  filter (fun x : nat * C => x.1 <> e) ((fun x => (x.1, x.2.1)) <$> al) = (fun x => (x.1, x.2.1)) <$> filter (fun x => x.1 <> e) al.
Proof. induction al as [|x al IH]; [done|]. cbn [fmap list_fmap]. rewrite !filter_cons. cbn. case_decide; cbn; by rewrite IH. Qed.

Lemma sorted_filter {A} (R : relation A) P `{!forall x, Decision (P x)} l : StronglySorted R l -> StronglySorted R (filter P l).
Proof.
  induction 1 as [|x l _ IH Hx]; [constructor|]. rewrite filter_cons. case_decide; [|done]. constructor; [done|].
  apply list.Forall_forall. intros y [_ Hy]%list_elem_of_filter. by eapply list.Forall_forall in Hx.
Qed.

(** An entry is taken out of the order. *)
Lemma recency_filter l u al e : recency l u al ->
  recency {| elems := filter (fun x => x.1 <> e) (elems l); next := next l |} {| used := delete e (used u); clock := clock u |} (filter (fun x => x.1 <> e) al).
Proof.
  intros (He & Hnd & Hs & Hu & Hb). split_and!; cbn [elems next used clock].
  - rewrite He. apply filter_elems.
  - apply (sublist_NoDup _ al.*1); [done|]. apply fmap_sublist, sublist_filter.
  - by apply sorted_filter.
  - intros e' x. rewrite lookup_delete_Some, list_elem_of_filter, Hu. cbn. naive_solver.
  - intros e' x [_ Hin]%list_elem_of_filter. by apply Hb.
Qed.

(** An entry that is not in the order comes first. *)
Lemma recency_cons l u al e conn n : recency l u al -> e ∉ al.*1 -> e < n -> next l <= n ->
  recency {| elems := (e, conn) :: elems l; next := n |} {| used := <[e := (conn, clock u)]> (used u); clock := S (clock u) |} ((e, (conn, clock u)) :: al).
Proof.
  intros (He & Hnd & Hs & Hu & Hb) Hn Hen Hl. split_and!; cbn [elems next used clock].
  - by rewrite He.
  - by constructor.
  - constructor; [done|]. apply list.Forall_forall. intros [e' x] Hin. cbn. by apply Hb in Hin as [_ ?].
  - intros e' x. rewrite lookup_insert_Some, elem_of_cons, Hu. split; [naive_solver|]. intros [[= -> ->]|Hin]; [by left|].
    right. split; [|done]. intros <-. apply Hn. by apply (list_elem_of_fmap_2 fst _ _ Hin).
  - intros e' x [[= -> ->]|Hin]%elem_of_cons; cbn; [lia|]. apply Hb in Hin as [? ?]. lia.
Qed.

Lemma recency_find l u al e : recency l u al ->
  match list_find (fun x => x.1 = e) (elems l) with
  | None => used u !! e = None
  | Some (_, x) => x.1 = e /\ exists t, used u !! e = Some (x.2, t)
  end.
Proof.
  intros (He & Hnd & Hs & Hu & Hb). destruct (list_find _ (elems l)) as [[i x]|] eqn:E.
  - apply list_find_Some in E as (Ei & Ex & _). split; [done|]. rewrite He, list_lookup_fmap in Ei. apply fmap_Some in Ei as ([e' [c t]] & Ei & ->).
    cbn in *. subst e'. exists t. apply Hu. by eapply list_elem_of_lookup_2.
  - apply list_find_None in E. destruct (used u !! e) as [[c t]|] eqn:Eu; [|done]. apply Hu in Eu. rewrite He in E.
    eapply list.Forall_forall in E; [|by apply (list_elem_of_fmap_2 _ _ _ Eu)]. by destruct E.
Qed.

Lemma CloseOldest_oldest l u : recent l u -> exists u', use u OpOldest (LRUConns_CloseOldest l).2 None u' /\ recent (LRUConns_CloseOldest l).1 u'.
Proof.
  intros (al & Hr). pose proof Hr as (He & Hnd & Hs & Hu & Hb). unfold LRUConns_CloseOldest. rewrite He, fmap_last.
  destruct al as [|[e [c t]] al _] using rev_ind.
  - exists u. split; [apply use_none|by exists []]. apply map_eq. intros e. rewrite lookup_empty. apply eq_None_not_Some. intros [x Hx].
    apply Hu in Hx. by apply not_elem_of_nil in Hx.
  - rewrite last_snoc. cbn [fmap option_fmap option_map fst snd]. rewrite length_fmap, length_app. cbn [length]. rewrite Nat.add_sub.
    exists {| used := delete e (used u); clock := clock u |}. split.
    + apply (use_oldest u e c t); [apply Hu; set_solver|]. intros e' c' t' [Hin|Hin]%Hu%elem_of_app.
      * pose proof (StronglySorted_app_1_elem_of _ _ _ _ _ Hs Hin (list_elem_of_here _ _)) as H. cbn in H. lia.
      * apply list_elem_of_singleton in Hin as [= -> -> ->]. lia.
    + exists al. rewrite fmap_app, take_app_length' by (by rewrite length_fmap). rewrite fmap_app in Hnd. apply list.NoDup_app in Hnd as (Hnd & Hn & _).
      split_and!; cbn [elems next used clock]; [done|done|by apply StronglySorted_app_1_l in Hs| |].
      * intros e' x. rewrite lookup_delete_Some, Hu, elem_of_app, list_elem_of_singleton. split; [naive_solver|]. intros Hin. split; [|by left].
        intros <-. apply (Hn e); [by apply (list_elem_of_fmap_2 fst _ _ Hin)|]. cbn. set_solver.
      * intros e' x Hin. apply Hb. set_solver.
Qed.

Lemma Touch_recent entry l u : recent l u -> exists u', use u (OpTouch entry) [] None u' /\ recent (LRUConnsEntry_Touch entry l) u'.
Proof.
  intros (al & Hr). destruct entry as [e|]; cbn [LRUConnsEntry_Touch].
  2: { exists u. split; [|by exists al]. apply use_nothing. by right. }
  pose proof (recency_find l u al e Hr) as Hf. destruct (list_find _ (elems l)) as [[i x]|].
  - destruct Hf as [Ee [t Et]]. exists {| used := <[e := (x.2, clock u)]> (used u); clock := S (clock u) |}. split; [by apply (use_touch u e _ t)|].
    apply (recency_filter l u al e) in Hr as Hr'. apply (recency_cons _ _ _ e x.2 (next l)) in Hr'.
    + exists ((e, (x.2, clock u)) :: filter (fun x => x.1 <> e) al). cbn [used clock elems] in Hr'. rewrite insert_delete_eq in Hr'.
      replace x with (e, x.2) by (by rewrite <- Ee; destruct x). exact Hr'.
    + intros (y & Ey & [Hy _]%list_elem_of_filter)%list_elem_of_fmap. by rewrite Ey in Hy.
    + destruct Hr as (_ & _ & _ & Hu & Hb). apply Hu in Et. by apply Hb in Et as [? _].
    + done.
  - exists u. split; [by apply (use_touch_gone u e)|by exists al].
Qed.

Lemma lru_run_refines o l u : recent l u -> exists u', use u o (lru_run o l).2.1 (lru_run o l).2.2 u' /\ recent (lru_run o l).1 u'.
Proof.
  intros Hrec. destruct o as [conn| | |e|e]; cbn [lru_run].
  - destruct Hrec as (al & Hr). pose proof Hr as (He & Hnd & Hs & Hu & Hb).
    assert (Hn : next l ∉ al.*1). { intros ([e x] & E & Hin)%list_elem_of_fmap. apply Hb in Hin as [? _]. cbn in E. lia. }
    exists {| used := <[next l := (conn, clock u)]> (used u); clock := S (clock u) |}. split.
    + apply use_add. apply eq_None_not_Some. intros [x Hx%Hu]. apply Hn. by apply (list_elem_of_fmap_2 fst _ _ Hx).
    + eexists. apply (recency_cons l u al); [done|done|lia|lia].
  - pose proof (CloseOldest_oldest l u Hrec) as H. by destruct (LRUConns_CloseOldest l).
  - destruct Hrec as (al & Hr). pose proof Hr as (He & Hnd & _ & Hu & _). exists {| used := ∅; clock := clock u |}. split.
    + apply use_all. cbn. rewrite He, <- list_fmap_compose. apply fmap_Permutation. apply NoDup_Permutation; [by eapply NoDup_fmap_1|apply NoDup_map_to_list|].
      intros [e x]. by rewrite elem_of_map_to_list, Hu.
    + exists []. split_and!; cbn; [done|constructor|constructor| |]; intros e x; [rewrite lookup_empty|]; rewrite elem_of_nil; [naive_solver|done].
  - destruct Hrec as (al & Hr). destruct e as [e|]; cbn [LRUConnsEntry_Remove].
    + exists {| used := delete e (used u); clock := clock u |}. split; [apply use_remove|]. eexists. by apply recency_filter.
    + exists u. split; [apply use_nothing; by left|by exists al].
  - by apply Touch_recent.
Qed.

(** C22: over all sequences of calls, [LRUConns] closes the connections and returns the entries
    of the abstract view, where [CloseOldest] closes the connection whose last use, that is
    when it was added or touched, is the earliest of those that were not removed, and a
    removed entry has no effect. *)
Theorem LRUConns_refines ops :
  exists u, run_uses {| used := ∅; clock := 0 |} ops (lru_runs ops NewLRUConns).2 u.
Proof.
  assert (H : forall l u, recent l u -> exists u', run_uses u ops (lru_runs ops l).2 u').
  { induction ops as [|o ops IH]; intros l u Hr; [eexists; constructor|]. cbn [lru_runs]. destruct (lru_run_refines o l u Hr) as (u' & Hu & Hr').
    destruct (lru_run o l) as [l' [closed e]]. destruct (IH l' u' Hr') as (u'' & H). destruct (lru_runs ops l') as [l'' outs].
    exists u''. by econstructor. }
  apply H. exists []. split_and!; cbn; [done|constructor|constructor| |]; intros e x; [rewrite lookup_empty|]; rewrite elem_of_nil; [naive_solver|done].
Qed.

End LRUConns.
Arguments LRUConns C : clear implicits.
Arguments uses C : clear implicits.
Arguments lru_op C : clear implicits.
