(* ===== verification/GoNet.v ===== *)
(** * Addresses

    What the components use of Go's package net on addresses: [ParseIP], with the parsers of
    package netip, and the classes of addresses.  A [net.IP] is its bytes, and nil the empty
    list.  A string is the list of its bytes. *)

From Stdlib Require Import ZArith Lia Strings.Byte Strings.Ascii Strings.String.
From stdpp Require Import base list strings numbers.
From S2P Require Import Prelude.
From S2P Require Import GoStrings.
From S2P Require Import Lookups.
#[local] Open Scope Z_scope.
#[local] Open Scope list_scope.

(** ** Classes of addresses *)

Definition IPv4 (a b c d : byte) : bytes := Subnet.v4InV6Prefix ++ [a; b; c; d].

Definition ip_byte (ip : bytes) (i : nat) : Z := b2z (nth i ip x00).

Definition IsUnspecified (ip : bytes) : bool :=
  Subnet.IP_Equal ip (IPv4 x00 x00 x00 x00) || Subnet.IP_Equal ip (replicate 16 x00).

Definition IsLoopback (ip : bytes) : bool :=
  let ip4 := Subnet.To4 ip in
  if bool_decide (ip4 <> []) then ip_byte ip4 0 =? 127 else Subnet.IP_Equal ip (replicate 15 x00 ++ [x01]).

Definition IsMulticast (ip : bytes) : bool :=
  let ip4 := Subnet.To4 ip in
  if bool_decide (ip4 <> []) then Z.land (ip_byte ip4 0) 0xf0 =? 0xe0
  else bool_decide (length ip = 16%nat) && (ip_byte ip 0 =? 0xff).

Definition IsLinkLocalUnicast (ip : bytes) : bool :=
  let ip4 := Subnet.To4 ip in
  if bool_decide (ip4 <> []) then (ip_byte ip4 0 =? 169) && (ip_byte ip4 1 =? 254)
  else bool_decide (length ip = 16%nat) && (ip_byte ip 0 =? 0xfe) && (Z.land (ip_byte ip 1) 0xc0 =? 0x80).

Definition IsGlobalUnicast (ip : bytes) : bool :=
  (bool_decide (length ip = 4%nat) || bool_decide (length ip = 16%nat)) &&
  negb (Subnet.IP_Equal ip (IPv4 xff xff xff xff)) && negb (IsUnspecified ip) && negb (IsLoopback ip) &&
  negb (IsMulticast ip) && negb (IsLinkLocalUnicast ip).

(** ** Parsing *)

Definition chr (c : ascii) : Z := Z.of_nat (nat_of_ascii c).

(** [parseIPv4Fields]: [previous] is the character before, if any; [pos] fields have been
    read, the last first in [fields]. *)
Fixpoint parse_v4 (s : list ascii) (previous : option ascii) (val : Z) (digLen pos : nat) (fields : bytes) : option bytes :=
  match s with
  | [] => if (pos <? 3)%nat then None else Some (rev (z2b val :: fields))
  | c :: rest =>
      match digit c with
      | Some d =>
          if (digLen =? 1)%nat && (val =? 0) then None
          else if 255 <? val * 10 + d then None
          else parse_v4 rest (Some c) (val * 10 + d) (S digLen) pos fields
      | None =>
          if bool_decide (c = "."%char) then
            if bool_decide (previous = None) || bool_decide (rest = []) || bool_decide (previous = Some "."%char) then None
            else if (pos =? 3)%nat then None
            else parse_v4 rest (Some c) 0 0 (S pos) (z2b val :: fields)
          else None
      end
  end.

Definition parseIPv4 (s : list ascii) : option bytes := parse_v4 s None 0 0 0 [].

Definition hex_digit (c : ascii) : option Z :=
  match digit c with
  | Some d => Some d
  | None =>
      let n := chr c in
      if (97 <=? n) && (n <=? 102) then Some (n - 97 + 10)
      else if (65 <=? n) && (n <=? 70) then Some (n - 65 + 10)
      else None
  end.

(** The digits of a field, at most four: how many, their value and what follows. *)
Fixpoint parse_group (s : list ascii) (off : nat) (acc : Z) : option (nat * Z * list ascii) :=
  match s with
  | [] => Some (off, acc, [])
  | c :: rest =>
      match hex_digit c with
      | None => Some (off, acc, s)
      | Some d =>
          let acc := Z.shiftl acc 4 + d in
          if (3 <? off)%nat || (65535 <? acc) then None else parse_group rest (S off) acc
      end
  end.

(** The loop over the fields: [ip] is what was read, [ellipsis] its length where the ellipsis
    is.  The fuel is the number of fields. *)
Fixpoint parse_v6 (fuel : nat) (s : list ascii) (ip : bytes) (ellipsis : option nat) : option (list ascii * bytes * option nat) :=
  match fuel with
  | O => Some (s, ip, ellipsis)
  | S fuel =>
      '(off, acc, rest) ← parse_group s 0 0;
      if (off =? 0)%nat then None
      else if bool_decide (head rest = Some "."%char) then
        if bool_decide (ellipsis = None) && negb (length ip =? 12)%nat then None
        else if (16 <? length ip + 4)%nat then None
        else v4 ← parseIPv4 s; Some ([], ip ++ v4, ellipsis)
      else
        let ip := ip ++ [z2b (Z.shiftr acc 8); z2b acc] in
        match rest with
        | [] => Some ([], ip, ellipsis)
        | c :: s =>
            if negb (bool_decide (c = ":"%char)) then None
            else
              match s with
              | [] => None
              | c :: s' =>
                  if bool_decide (c = ":"%char) then
                    if bool_decide (ellipsis <> None) then None
                    else match s' with [] => Some ([], ip, Some (length ip)) | _ => parse_v6 fuel s' ip (Some (length ip)) end
                  else parse_v6 fuel s ip ellipsis
              end
        end
  end.

Definition expand (ip : bytes) (ellipsis : option nat) : option bytes :=
  match ellipsis with
  | None => if (length ip <? 16)%nat then None else Some ip
  | Some e => if (length ip <? 16)%nat then Some (take e ip ++ replicate (16 - length ip) x00 ++ drop e ip) else None
  end.

(** A zone, which [ParseIP] refuses, is not read. *)
Definition parseIPv6 (s : list ascii) : option bytes :=
  let '(leading, s) := match s with ":"%char :: ":"%char :: s => (true, s) | _ => (false, s) end in
  if leading && bool_decide (s = []) then Some (replicate 16 x00)
  else
    '(rest, ip, ellipsis) ← parse_v6 8 s [] (if leading then Some 0%nat else None);
    match (rest : list ascii) with [] => expand ip ellipsis | _ => None end.

Definition is_separator (c : ascii) : bool := bool_decide (c = "."%char) || bool_decide (c = ":"%char) || bool_decide (c = "%"%char).

(** [net.ParseIP]: the 16-byte form, or nil. *)
Definition ParseIP (s : list ascii) : bytes :=
  if existsb (fun c => bool_decide (c = "%"%char)) s then []
  else
    match head (filter (fun c => is_separator c = true) s) with
    | Some "."%char => match parseIPv4 s with Some ip => Subnet.v4InV6Prefix ++ ip | None => [] end
    | Some ":"%char => default [] (parseIPv6 s)
    | _ => []
    end.

Example parse_ip_examples :
  map (fun s => ParseIP (chars s)) ["10.0.0.2"; "::"; "::1"; "fd19:ca83::2"; "1::2:3.4.5.6"; "01.2.3.4"; "1.2.3"; "1:2:3:4:5:6:7"; "1::2::3"; "fe80::1%eth0"]%string =
  [IPv4 x0a x00 x00 x02; replicate 16 x00; replicate 15 x00 ++ [x01]; [xfd; x19; xca; x83] ++ replicate 11 x00 ++ [x02];
   [x00; x01] ++ replicate 8 x00 ++ [x00; x02; x03; x04; x05; x06]; []; []; []; []; []].
Proof. vm_compute. reflexivity. Qed.

(** ** Formatting *)

Definition digit_char (n : Z) : ascii := ascii_of_nat (Z.to_nat (if n <? 10 then 48 + n else 87 + n)).

(** [%d] and [%02x] of a byte. *)
Definition format_d (n : Z) : list ascii :=
  if n <? 10 then [digit_char n]
  else if n <? 100 then [digit_char (n / 10); digit_char (n mod 10)]
  else [digit_char (n / 100); digit_char (n / 10 mod 10); digit_char (n mod 10)].

Definition format_02x (n : Z) : list ascii := [digit_char (n / 16); digit_char (n mod 16)].
