(* ===== verification/Blocklist.v ===== *)
(** * Blocklist and permissions

    Models src/psiphon/server/blocklist.go, the lookup of addresses and domains for egress
    blocking, and of src/psiphon/server/tunnelServer.go what decides whether the destination of
    a port forward is permitted, with the alerts that are sent to the client.

    The records of the CSV file are the input, with the error of the record that does not
    parse.  A domain is the list of its characters.  What a check logs, counts and alerts is
    a list of effects, in order. *)

From Stdlib Require Import ZArith Lia Strings.Byte Strings.Ascii Strings.String.
From stdpp Require Import base gmap list strings numbers.
From S2P Require Import Prelude.
From S2P Require Import GoStrings.
From S2P Require Import Lookups.
From S2P Require Import ApiParams.
From S2P Require Import TrafficRules.
From S2P Require Import GoNet.
#[local] Open Scope string_scope.
#[local] Open Scope Z_scope.
#[local] Open Scope list_scope.

(** ** The list *)

Record BlocklistTag := { Source : string; Subject : string }.

#[export] Instance BlocklistTag_eq_dec : EqDecision BlocklistTag.
Proof. solve_decision. Defined.

Record blocklistData := {
  lookupIP : gmap bytes (list BlocklistTag);
  lookupDomain : gmap string (list BlocklistTag);
  internedStrings : gmap string string
}.

Definition newBlocklistData : blocklistData := {| lookupIP := ∅; lookupDomain := ∅; internedStrings := ∅ |}.

Definition internString (str : string) (data : blocklistData) : string * blocklistData :=
  match internedStrings data !! str with
  | Some internedStr => (internedStr, data)
  | None => (str, {| lookupIP := lookupIP data; lookupDomain := lookupDomain data; internedStrings := <[str := str]> (internedStrings data) |})
  end.

(** [net.IP.To16] *)
Definition To16 (ip : bytes) : bytes :=
  if (length ip =? 4)%nat then Subnet.v4InV6Prefix ++ ip
  else if (length ip =? 16)%nat then ip
  else [].

(** A tag is appended to the tags of a key, unless it is there. *)
Definition add_tag {K} `{Countable K} (key : K) (tag : BlocklistTag) (m : gmap K (list BlocklistTag)) : gmap K (list BlocklistTag) :=
  let tags := default [] (m !! key) in
  if existsb (fun existingTag => bool_decide (tag = existingTag)) tags then m else <[key := tags ++ [tag]]> m.

Section Load.
(** [dns.IsDomainName] *)
Context (IsDomainName : string -> bool).

Definition load_record (record : string * string * string) (data : blocklistData) : res blocklistData :=
  let '(entry, source, subject) := record in
  let '(source, data) := internString source data in
  let '(subject, data) := internString subject data in
  let tag := {| Source := source; Subject := subject |} in
  let IPAddress := ParseIP (chars entry) in
  if bool_decide (IPAddress <> []) then
    let IPAddress16 := To16 IPAddress in
    if bool_decide (IPAddress16 = []) then Err "invalid IP address"
    else Ok {| lookupIP := add_tag IPAddress16 tag (lookupIP data); lookupDomain := lookupDomain data; internedStrings := internedStrings data |}
  else if negb (IsDomainName entry) then Err "invalid domain name"
  else Ok {| lookupIP := lookupIP data; lookupDomain := add_tag entry tag (lookupDomain data); internedStrings := internedStrings data |}.

Fixpoint load_loop (records : list (res (string * string * string))) (data : blocklistData) : res blocklistData :=
  match records with
  | [] => Ok data
  | record :: records => record ← record; data ← load_record record data; load_loop records data
  end.

Definition loadBlocklistFromFile (records : list (res (string * string * string))) : res blocklistData := load_loop records newBlocklistData.

End Load.

(** A list is [None] until it is loaded. *)
Definition LookupIP (b : option blocklistData) (IPAddress : bytes) : list BlocklistTag :=
  match b with
  | None => []
  | Some data =>
      let IPAddress16 := To16 IPAddress in
      if bool_decide (IPAddress16 = []) then [] else default [] (lookupIP data !! IPAddress16)
  end.

(** The last dot of a fully-qualified name. *)
Definition drop_last_dot (domain : list ascii) : list ascii :=
  match list.last domain with
  | Some "."%char => take (length domain - 1) domain
  | _ => domain
  end.

Definition LookupDomain (b : option blocklistData) (domain : list ascii) : list BlocklistTag :=
  match b with
  | None => []
  | Some data => default [] (lookupDomain data !! string_of_list_ascii (drop_last_dot domain))
  end.

(** ** Alerts *)

Definition PSIPHON_API_ALERT_DISALLOWED_TRAFFIC : string := "disallowed-traffic".
Definition PSIPHON_API_ALERT_UNSAFE_TRAFFIC : string := "unsafe-traffic".

Record AlertRequest := { Reason : string; alert_Subject : string; ActionURLs : list string }.

#[export] Instance AlertRequest_eq_dec : EqDecision AlertRequest.
Proof. solve_decision. Defined.

(** The requests that wait in the channel, those that have been sent, in order, and the
    values that are marked as sent. *)
Record alerts := { sendAlertRequests : list AlertRequest; sent_requests : list AlertRequest; sentAlertRequests : gset string }.

Definition ALERT_REQUEST_QUEUE_BUFFER_SIZE : nat := 16.

Section Alerts.
(** [fmt.Sprintf("%+v", request)] *)
Context (Sprintf : AlertRequest -> string).

(** None when the call blocks, until the sender makes room or the client stops. *)
Definition enqueueAlertRequest (request : AlertRequest) (a : alerts) : option alerts :=
  if bool_decide (Sprintf request ∈ sentAlertRequests a) then Some a
  else if (length (sendAlertRequests a) <? ALERT_REQUEST_QUEUE_BUFFER_SIZE)%nat
  then Some {| sendAlertRequests := sendAlertRequests a ++ [request]; sent_requests := sent_requests a; sentAlertRequests := sentAlertRequests a |}
  else None.

(** One iteration of [runAlertSender], when there is a request; [sent] is whether it could be
    encoded and sent, or failed as expected when the tunnel closes. *)
Definition runAlertSender (sent : bool) (a : alerts) : alerts :=
  match sendAlertRequests a with
  | [] => a
  | request :: requests =>
      if sent then {| sendAlertRequests := requests; sent_requests := sent_requests a ++ [request];
                      sentAlertRequests := {[Sprintf request]} ∪ sentAlertRequests a |}
      else {| sendAlertRequests := requests; sent_requests := sent_requests a; sentAlertRequests := sentAlertRequests a |}
  end.

End Alerts.

(** ** Permissions *)

(** What a check does besides answering. *)
Inductive effect :=
| BlocklistHit (IP : bytes) (domain : list ascii) (tag : BlocklistTag)
| Alert (request : AlertRequest)
| TCPRejectedDisallowed
| UDPRejectedDisallowed.

Inductive portForwardType := portForwardTypeTCP | portForwardTypeUDP.

Record support := {
  AllowBogons : bool;
  BlocklistActive : bool;
  blocklist : option blocklistData;
  GeoIPService : option (bytes -> string);
  IsBogon : bytes -> bool;
  getAlertActionURLs : string -> list string
}.

Section Permissions.
Context (ParseCIDR : string -> res Subnet.IPNet) (S : support).

Definition logBlocklistHits (IP : bytes) (domain : list ascii) (tags : list BlocklistTag) : list effect := BlocklistHit IP domain <$> tags.

Definition enqueueDisallowedTrafficAlertRequest : list effect :=
  [Alert {| Reason := PSIPHON_API_ALERT_DISALLOWED_TRAFFIC; alert_Subject := "";
            ActionURLs := getAlertActionURLs S PSIPHON_API_ALERT_DISALLOWED_TRAFFIC |}].

Definition enqueueUnsafeTrafficAlertRequest (tags : list BlocklistTag) : list effect :=
  (fun tag => Alert {| Reason := PSIPHON_API_ALERT_UNSAFE_TRAFFIC; alert_Subject := Subject tag;
                       ActionURLs := getAlertActionURLs S PSIPHON_API_ALERT_UNSAFE_TRAFFIC |}) <$> tags.

Definition isIPPermitted (remoteIP : bytes) : bool * list effect :=
  let tags := LookupIP (blocklist S) remoteIP in
  match tags with
  | [] => (true, [])
  | _ =>
      if BlocklistActive S then (false, logBlocklistHits remoteIP [] tags ++ enqueueUnsafeTrafficAlertRequest tags)
      else (true, logBlocklistHits remoteIP [] tags)
  end.

Definition isDomainPermitted (domain : list ascii) : bool * string * list effect :=
  if (255 <? length domain)%nat then (false, "invalid domain name", [])
  else if bool_decide (drop (length domain - 6) domain = chars ".local") then (false, "port forward not permitted", [])
  else
    let tags := LookupDomain (blocklist S) domain in
    match tags with
    | [] => (true, "", [])
    | _ =>
        if BlocklistActive S then (false, "port forward not permitted", logBlocklistHits [] domain tags ++ enqueueUnsafeTrafficAlertRequest tags)
        else (true, "", logBlocklistHits [] domain tags)
    end.

(** [handshaked] is whether the handshake is completed. *)
Definition isPortForwardPermitted (rules : TrafficRules) (handshaked : bool) (t : portForwardType) (remoteIP : bytes) (port : Z) :
  res (bool * list effect) :=
  if negb (AllowBogons S) && IsBogon S remoteIP then Ok (false, [])
  else
    let '(permitted, effects) := isIPPermitted remoteIP in
    if negb permitted then Ok (false, effects)
    else
      allowed ← (if negb handshaked then Ok false
                 else match t with
                      | portForwardTypeTCP => AllowTCPPort ParseCIDR rules (GeoIPService S) remoteIP port
                      | portForwardTypeUDP => AllowUDPPort ParseCIDR rules (GeoIPService S) remoteIP port
                      end);
      if (allowed : bool) then Ok (true, effects)
      else Ok (false, effects ++ [match t with portForwardTypeTCP => TCPRejectedDisallowed | portForwardTypeUDP => UDPRejectedDisallowed end] ++
                      enqueueDisallowedTrafficAlertRequest).

End Permissions.

(** ** What the list holds *)

(** The tags without repetitions, in the order of their first occurrence. *)
Definition add_new (tags : list BlocklistTag) (tag : BlocklistTag) : list BlocklistTag := if bool_decide (tag ∈ tags) then tags else tags ++ [tag].
Definition firsts (tags : list BlocklistTag) : list BlocklistTag := fold_left add_new tags [].

Definition record_tag (r : string * string * string) : BlocklistTag := {| Source := r.1.2; Subject := r.2 |}.
Definition record_IP (r : string * string * string) : bytes := To16 (ParseIP (chars r.1.1)).

Definition tags_of_IP (key : bytes) (l : list (string * string * string)) : list BlocklistTag :=
  record_tag <$> filter (fun r => record_IP r = key) l.
Definition tags_of_domain (key : string) (l : list (string * string * string)) : list BlocklistTag :=
  record_tag <$> filter (fun r => ParseIP (chars r.1.1) = [] /\ r.1.1 = key) l.

Lemma add_tag_lookup {K} `{Countable K} (key k : K) tag m :
  default [] (add_tag key tag m !! k) = if decide (k = key) then add_new (default [] (m !! k)) tag else default [] (m !! k).
Proof.
  unfold add_tag, add_new. destruct (existsb _ _) eqn:E.
  - case_decide as Hk; [|done]. subst k. rewrite bool_decide_eq_true_2; [done|]. apply existsb_exists in E as (t & Hin & Ht).
    apply bool_decide_eq_true in Ht as ->. by apply list_elem_of_In.
  - case_decide as Hk; [subst k; rewrite lookup_insert_eq|by rewrite lookup_insert_ne]. rewrite bool_decide_eq_false_2; [done|]. intros Hin.
    apply not_true_iff_false in E. apply E, existsb_exists. exists tag. split; [by apply list_elem_of_In|by apply bool_decide_eq_true].
Qed.

Definition interned (data : blocklistData) : Prop := forall k v, internedStrings data !! k = Some v -> v = k.

Lemma internString_same str data : interned data ->
  (internString str data).1 = str /\ interned (internString str data).2 /\
  lookupIP (internString str data).2 = lookupIP data /\ lookupDomain (internString str data).2 = lookupDomain data.
Proof.
  unfold internString. intros Hi. destruct (internedStrings data !! str) as [v|] eqn:E; cbn; [split; [by apply Hi|done]|].
  split_and!; [done| |done|done]. intros k v. cbn. intros [[<- <-]|[_ ?]]%lookup_insert_Some; [done|by apply Hi].
Qed.

Lemma tags_of_IP_cons key r l : tags_of_IP key (r :: l) = (if decide (record_IP r = key) then [record_tag r] else []) ++ tags_of_IP key l.
Proof. unfold tags_of_IP. rewrite filter_cons. by case_decide. Qed.

Lemma tags_of_domain_cons key r l :
  tags_of_domain key (r :: l) = (if decide (ParseIP (chars r.1.1) = [] /\ r.1.1 = key) then [record_tag r] else []) ++ tags_of_domain key l.
Proof. unfold tags_of_domain. rewrite filter_cons. by case_decide. Qed.

Lemma load_record_ok IsDomainName r data data' : interned data -> load_record IsDomainName r data = Ok data' ->
  interned data' /\
  (forall key, key <> [] -> default [] (lookupIP data' !! key) = fold_left add_new (tags_of_IP key [r]) (default [] (lookupIP data !! key))) /\
  (forall key, default [] (lookupDomain data' !! key) = fold_left add_new (tags_of_domain key [r]) (default [] (lookupDomain data !! key))).
Proof.
  destruct r as [[entry source] subject]. unfold load_record. intros Hi E.
  destruct (internString_same source data Hi) as (E1 & Hi1 & Eip1 & Ed1). destruct (internString source data) as [s1 data1]. cbn [fst snd] in *. subst s1.
  destruct (internString_same subject data1 Hi1) as (E2 & Hi2 & Eip2 & Ed2). destruct (internString subject data1) as [s2 data2]. cbn [fst snd] in *. subst s2.
  rewrite <- Eip1, <- Ed1, <- Eip2, <- Ed2. case_bool_decide as Hp.
  - case_bool_decide as H16; [done|]. injection E as <-. cbn [internedStrings lookupIP lookupDomain]. split_and!; [done| |].
    + intros key Hk. rewrite tags_of_IP_cons, add_tag_lookup. unfold record_IP. cbn [fst snd]. case_decide as D1; case_decide as D2; done || by subst.
    + intros key. rewrite tags_of_domain_cons. cbn [fst snd]. rewrite decide_False by tauto. done.
  - destruct (IsDomainName entry); [|done]. cbn [negb] in E. injection E as <-. cbn [internedStrings lookupIP lookupDomain].
    split_and!; [done| |].
    + intros key Hk. rewrite tags_of_IP_cons. unfold record_IP. cbn [fst snd]. rewrite Hp. rewrite decide_False; [done|]. intros <-. by apply Hk.
    + intros key. rewrite tags_of_domain_cons, add_tag_lookup. cbn [fst snd]. case_decide as D1; case_decide as D2; done || naive_solver.
Qed.

Lemma load_loop_ok IsDomainName records : forall data data', interned data -> load_loop IsDomainName records data = Ok data' ->
  exists l, records = Ok <$> l /\
  (forall key, key <> [] -> default [] (lookupIP data' !! key) = fold_left add_new (tags_of_IP key l) (default [] (lookupIP data !! key))) /\
  (forall key, default [] (lookupDomain data' !! key) = fold_left add_new (tags_of_domain key l) (default [] (lookupDomain data !! key))).
Proof.
  induction records as [|[r|e|e|] records IH]; intros data data' Hi E; cbn [load_loop mbind res_mbind] in E; [|destruct (load_record IsDomainName r data) as [d|?|?|] eqn:Er|..];
    try done; [injection E as <-; by exists []|]. destruct (load_record_ok IsDomainName r data d Hi Er) as (Hi' & H1 & H2).
  destruct (IH d data' Hi' E) as (l & -> & H3 & H4). exists (r :: l). split_and!; [done| |].
  - intros key Hk. rewrite (H3 key Hk), (H1 key Hk), !tags_of_IP_cons, !fold_left_app. done.
  - intros key. rewrite H4, H2, !tags_of_domain_cons, !fold_left_app. done.
Qed.

(** The tags of an address or of a domain are those of its records, in order and without
    repetitions. *)
Lemma loadBlocklist_tags IsDomainName records data : loadBlocklistFromFile IsDomainName records = Ok data ->
  exists l, records = Ok <$> l /\
  (forall ip, To16 ip <> [] -> LookupIP (Some data) ip = firsts (tags_of_IP (To16 ip) l)) /\
  (forall domain, LookupDomain (Some data) domain = firsts (tags_of_domain (string_of_list_ascii (drop_last_dot domain)) l)).
Proof.
  intros E. destruct (load_loop_ok IsDomainName records newBlocklistData data ltac:(intros k v; cbn; by rewrite lookup_empty) E) as (l & -> & H1 & H2).
  exists l. split_and!; [done| |].
  - intros ip Hip. cbn. rewrite bool_decide_eq_false_2 by done. by rewrite H1.
  - intros domain. cbn. by rewrite H2.
Qed.

Lemma fold_add_new l : forall acc t, t ∈ fold_left add_new l acc <-> t ∈ acc \/ t ∈ l.
Proof.
  induction l as [|x l IH]; intros acc t; cbn; [rewrite elem_of_nil; tauto|]. rewrite IH, elem_of_cons. unfold add_new.
  case_bool_decide; [|rewrite elem_of_app, list_elem_of_singleton]; naive_solver.
Qed.

Lemma firsts_elem l t : t ∈ firsts l <-> t ∈ l.
Proof. unfold firsts. rewrite fold_add_new, elem_of_nil. tauto. Qed.

(** ** What is permitted *)

Lemma isIPPermitted_spec S ip : (isIPPermitted S ip).1 = true <-> BlocklistActive S = false \/ LookupIP (blocklist S) ip = [].
Proof. unfold isIPPermitted. destruct (LookupIP _ _); [cbn; tauto|]. destruct (BlocklistActive S); cbn; split; intros; naive_solver. Qed.

(** C20: under the rules of any client, whether a port forward is permitted is always decided:
    it is exactly when the destination is not a bogon, unless bogons are allowed, is not on
    the active blocklist, the handshake is completed, and the traffic rules allow the address
    and the port.  A rejection by the rules, or before the handshake, is alerted. *)
Theorem port_forward_permitted L ParseCIDR set newSet set' serverProviderID isFirst tunnelProtocol geoIPData state rules S handshaked t ip port :
  fresh_set newSet -> reload L ParseCIDR set newSet = Ok set' ->
  GetTrafficRules set' serverProviderID isFirst tunnelProtocol geoIPData state = Ok rules ->
  exists b effects, isPortForwardPermitted ParseCIDR S rules handshaked t ip port = Ok (b, effects) /\
    (b = true <->
      (AllowBogons S = true \/ IsBogon S ip = false) /\ (BlocklistActive S = false \/ LookupIP (blocklist S) ip = []) /\ handshaked = true /\
      match t with
      | portForwardTypeTCP => destination_allowed ParseCIDR rules (DisallowTCPPorts rules) (AllowTCPPorts rules) (GeoIPService S) ip port
      | portForwardTypeUDP => destination_allowed ParseCIDR rules (DisallowUDPPorts rules) (AllowUDPPorts rules) (GeoIPService S) ip port
      end) /\
    (b = false -> (AllowBogons S = true \/ IsBogon S ip = false) -> (BlocklistActive S = false \/ LookupIP (blocklist S) ip = []) ->
      enqueueDisallowedTrafficAlertRequest S `suffix_of` effects).
Proof.
  intros Hf Hr Hg. destruct (AllowPort_spec L ParseCIDR set newSet set' serverProviderID isFirst tunnelProtocol geoIPData state rules (GeoIPService S) ip port Hf Hr Hg)
    as [(bt & Et & Ht) (bu & Eu & Hu)]. unfold isPortForwardPermitted. pose proof (isIPPermitted_spec S ip) as Hip. revert Ht Hu.
  generalize (destination_allowed ParseCIDR rules (DisallowTCPPorts rules) (AllowTCPPorts rules) (GeoIPService S) ip port)
    (destination_allowed ParseCIDR rules (DisallowUDPPorts rules) (AllowUDPPorts rules) (GeoIPService S) ip port). intros PT PU Ht Hu.
  destruct (negb (AllowBogons S) && IsBogon S ip) eqn:Hb.
  { exists false, []. apply andb_true_iff in Hb as [Ha%negb_true_iff Hb]. rewrite Ha, Hb. split; [done|]. split; [split; [done|intros [[|] _]; done]|].
    by intros _ [|]. }
  assert (Hbog : AllowBogons S = true \/ IsBogon S ip = false) by (destruct (AllowBogons S), (IsBogon S ip); auto).
  destruct (isIPPermitted S ip) as [permitted effects]. cbn [fst] in Hip. destruct permitted; cbn [negb].
  2: { exists false, effects. split; [done|]. split; [split; [done|intros (_ & H%Hip & _); done]|]. by intros _ _ H%Hip. }
  assert (Hall : exists b, (if negb handshaked then Ok false else
      match t with portForwardTypeTCP => AllowTCPPort ParseCIDR rules (GeoIPService S) ip port
                 | portForwardTypeUDP => AllowUDPPort ParseCIDR rules (GeoIPService S) ip port end) = Ok b /\
      (b = true <-> handshaked = true /\ match t with portForwardTypeTCP => PT | portForwardTypeUDP => PU end)).
  { destruct handshaked; cbn [negb]; [|exists false; split; [done|split; [done|by intros []]]]. destruct t; [exists bt|exists bu]; (split; [done|]); tauto. }
  destruct Hall as (b & -> & Hbt). cbn [mbind res_mbind]. destruct b; eexists _, _; (split; [done|]); split.
  - split; [|done]. intros _. apply proj1 in Hip. destruct Hbt as [Hbt _]. auto.
  - done.
  - split; [done|]. intros (_ & _ & H). by apply Hbt in H.
  - intros _ _ _. rewrite app_assoc. by apply suffix_app_r.
Qed.

Lemma tag_found l entry source subject : (entry, source, subject) ∈ l ->
  {| Source := source; Subject := subject |} ∈ tags_of_IP (To16 (ParseIP (chars entry))) l /\
  (ParseIP (chars entry) = [] -> {| Source := source; Subject := subject |} ∈ tags_of_domain entry l).
Proof.
  intros Hin. split; [|intros Hp]; apply list_elem_of_fmap; exists (entry, source, subject); (split; [done|]); by apply list_elem_of_filter.
Qed.

Lemma unsafe_alerted S tags tag : tag ∈ tags ->
  Alert {| Reason := PSIPHON_API_ALERT_UNSAFE_TRAFFIC; alert_Subject := Subject tag; ActionURLs := getAlertActionURLs S PSIPHON_API_ALERT_UNSAFE_TRAFFIC |}
    ∈ enqueueUnsafeTrafficAlertRequest S tags.
Proof. intros Hin. apply list_elem_of_fmap. by exists tag. Qed.

(** The name of a domain as it is looked up is the entry of a record, letter by letter. *)
Definition listed_domain (records : list (res (string * string * string))) (domain : list ascii) : Prop :=
  exists entry source subject, Ok (entry, source, subject) ∈ records /\ ParseIP (chars entry) = [] /\ chars entry = drop_last_dot domain.

(** The names that are not resolved while the list is active. *)
Lemma domain_rejected IsDomainName records data S domain :
  loadBlocklistFromFile IsDomainName records = Ok data -> blocklist S = Some data -> BlocklistActive S = true ->
  (isDomainPermitted S domain).1.1 = false <->
    (255 < length domain)%nat \/ drop (length domain - 6) domain = chars ".local" \/ listed_domain records domain.
Proof.
  intros El Eb Ea. destruct (loadBlocklist_tags IsDomainName records data El) as (l & -> & _ & Hd). specialize (Hd domain).
  assert (Hl : listed_domain (Ok <$> l) domain <-> LookupDomain (Some data) domain <> []).
  { rewrite Hd. split.
    - intros (entry & source & subject & Hin & Hp & He). apply list_elem_of_fmap in Hin as (r & [= <-] & Hr).
      destruct (tag_found l entry source subject Hr) as [_ H]. specialize (H Hp). rewrite <- He, string_of_list_ascii_of_string.
      apply firsts_elem in H. intros E. rewrite E in H. by apply not_elem_of_nil in H.
    - intros Hne. destruct (firsts _) as [|t ts] eqn:E; [done|]. assert (Hin : t ∈ t :: ts) by left. rewrite <- E in Hin. rewrite firsts_elem in Hin.
      apply list_elem_of_fmap in Hin as ([[entry source] subject] & _ & Hin). apply list_elem_of_filter in Hin as [[Hp He] Hin]. cbn [fst] in He, Hp.
      exists entry, source, subject. split_and!; [by apply list_elem_of_fmap_2|done|]. by rewrite He, list_ascii_of_string_of_list_ascii. }
  rewrite Hl. unfold isDomainPermitted. rewrite Eb, Ea. destruct (255 <? length domain)%nat eqn:E255; [apply Nat.ltb_lt in E255; cbn; tauto|].
  apply Nat.ltb_ge in E255. case_bool_decide; [cbn; tauto|]. destruct (LookupDomain (Some data) domain); cbn [fst]; [|split; [by right; right|done]].
  split; [done|]. intros [?|[?|?]]; [lia|done|done].
Qed.

(** C21: once the file is loaded and while the list is active, no port forward to an address on
    it is permitted, in the address's 4-byte or 16-byte form, whatever the traffic rules; and
    the names that are not resolved are exactly those that are too long, those of the mDNS
    suffix as it is spelled, and those that are an entry of the file letter by letter once one
    final dot is dropped from the name.  (Names are compared as they are spelled: another case
    of a listed name is not on the list, and an entry that ends in a dot is not met by the
    name with one final dot.)  Whoever asks for what is on the list is alerted of its subject,
    unless it is refused before the list is looked up. *)
Theorem blocklisted_never_permitted ParseCIDR IsDomainName records data S entry source subject :
  loadBlocklistFromFile IsDomainName records = Ok data -> Ok (entry, source, subject) ∈ records ->
  blocklist S = Some data -> BlocklistActive S = true ->
  let alert := Alert {| Reason := PSIPHON_API_ALERT_UNSAFE_TRAFFIC; alert_Subject := subject;
                        ActionURLs := getAlertActionURLs S PSIPHON_API_ALERT_UNSAFE_TRAFFIC |} in
  (forall rules handshaked t ip port, To16 ip <> [] -> To16 ip = To16 (ParseIP (chars entry)) ->
     exists effects, isPortForwardPermitted ParseCIDR S rules handshaked t ip port = Ok (false, effects) /\
       (AllowBogons S = true \/ IsBogon S ip = false -> alert ∈ effects)) /\
  (forall domain, (isDomainPermitted S domain).1.1 = false <->
     (255 < length domain)%nat \/ drop (length domain - 6) domain = chars ".local" \/ listed_domain records domain) /\
  (forall domain, ParseIP (chars entry) = [] -> drop_last_dot domain = chars entry ->
     exists msg effects, isDomainPermitted S domain = (false, msg, effects) /\
       ((length domain <= 255)%nat -> drop (length domain - 6) domain <> chars ".local" -> alert ∈ effects)).
Proof.
  intros El Hin Eb Ea alert. pose proof (domain_rejected IsDomainName records data S) as Hrej.
  destruct (loadBlocklist_tags IsDomainName records data El) as (l & -> & Hip & Hd).
  assert (Hl : (entry, source, subject) ∈ l) by (apply list_elem_of_fmap in Hin as (r & [= <-] & Hr); done).
  destruct (tag_found l entry source subject Hl) as [H1 H2]. split_and!.
  - intros rules handshaked t ip port H16 E16. specialize (Hip ip H16). rewrite E16 in Hip.
    apply firsts_elem in H1. rewrite <- Hip in H1. unfold isPortForwardPermitted, isIPPermitted. rewrite Eb, Ea.
    destruct (LookupIP (Some data) ip) as [|t0 tags]; [by apply not_elem_of_nil in H1|].
    destruct (negb (AllowBogons S) && IsBogon S ip) eqn:Hb; cbn [negb]; eexists; (split; [done|]).
    + apply andb_true_iff in Hb as [Hb1%negb_true_iff Hb2]. rewrite Hb1, Hb2. by intros [].
    + intros _. apply elem_of_app. right. by apply (unsafe_alerted S _ {| Source := source; Subject := subject |}).
  - intros domain. by apply Hrej.
  - intros domain Hp Et. specialize (Hd domain). rewrite Et, string_of_list_ascii_of_string in Hd.
    specialize (H2 Hp). apply firsts_elem in H2. rewrite <- Hd in H2. unfold isDomainPermitted. rewrite Eb, Ea.
    destruct (255 <? length domain)%nat eqn:E255; [apply Nat.ltb_lt in E255; eexists _, _; split; [done|]; lia|].
    case_bool_decide as Hloc; [by eexists _, _|].
    destruct (LookupDomain (Some data) domain) as [|t0 tags]; [by apply not_elem_of_nil in H2|]. eexists _, _. split; [done|]. intros _ _.
    apply elem_of_app. right. by apply (unsafe_alerted S _ {| Source := source; Subject := subject |}).
Qed.

(** ** Alerts are not repeated once sent *)

(** A request that has been sent is not enqueued again. *)
Lemma sent_not_enqueued Sprintf request a : runAlertSender Sprintf true a <> a -> head (sendAlertRequests a) = Some request ->
  enqueueAlertRequest Sprintf request (runAlertSender Sprintf true a) = Some (runAlertSender Sprintf true a).
Proof.
  intros _ Hh. unfold runAlertSender, enqueueAlertRequest. destruct (sendAlertRequests a) as [|r l]; [done|]. injection Hh as ->. cbn.
  by rewrite bool_decide_eq_true_2 by set_solver.
Qed.

(** A request that is enqueued again before it has been sent is sent twice. *)
Lemma alert_sent_twice Sprintf request :
  exists a a', enqueueAlertRequest Sprintf request {| sendAlertRequests := []; sent_requests := []; sentAlertRequests := ∅ |} = Some a /\
    enqueueAlertRequest Sprintf request a = Some a' /\
    sent_requests (runAlertSender Sprintf true (runAlertSender Sprintf true a')) = [request; request].
Proof. eexists _, _. split_and!; [reflexivity|unfold enqueueAlertRequest; cbn; by rewrite bool_decide_eq_false_2 by set_solver|reflexivity]. Qed.

(** ** Examples *)

Definition example_support (b : option blocklistData) (active : bool) : support := {|
  AllowBogons := false; BlocklistActive := active; blocklist := b; GeoIPService := None; IsBogon := IsLoopback; getAlertActionURLs := fun _ => [] |}.

Definition example_records : list (res (string * string * string)) :=
  [Ok ("192.0.2.7", "list", "botnet"); Ok ("192.0.2.7", "list", "botnet"); Ok ("malware.example", "list", "trojan")].

Definition example_blocklist : blocklistData :=
  match loadBlocklistFromFile (fun _ => true) example_records with Ok d => d | _ => newBlocklistData end.

Example example_lookups :
  LookupIP (Some example_blocklist) [xc0; x00; x02; x07] = [{| Source := "list"; Subject := "botnet" |}] /\
  LookupDomain (Some example_blocklist) (chars "malware.example.") = [{| Source := "list"; Subject := "trojan" |}].
Proof. split; vm_compute; reflexivity. Qed.

(** The check for the top-level domain of mDNS does not cover a fully-qualified name, as it is
    in a DNS query. *)
Lemma local_fqdn_permitted :
  (isDomainPermitted (example_support None true) (chars "printer.local")).1.1 = false /\
  (isDomainPermitted (example_support None true) (chars "printer.local.")).1.1 = true.
Proof. split; vm_compute; reflexivity. Qed.

(** Names of domains are not case-sensitive, but the look-up is; and an entry of the file with a
    final dot, which is a valid domain name, is not met by the name of a DNS query. *)
Lemma blocklist_spelling :
  (isDomainPermitted (example_support (Some example_blocklist) true) (chars "malware.example")).1.1 = false /\
  (isDomainPermitted (example_support (Some example_blocklist) true) (chars "MALWARE.example")).1.1 = true /\
  exists data, loadBlocklistFromFile (fun _ => true) [Ok ("malware.example.", "list", "trojan")] = Ok data /\
    (isDomainPermitted (example_support (Some data) true) (chars "malware.example")).1.1 = true /\
    (isDomainPermitted (example_support (Some data) true) (chars "malware.example.")).1.1 = true.
Proof. split_and!; [vm_compute; reflexivity..|]. eexists. split_and!; vm_compute; reflexivity. Qed.

(** A hit is logged, and alerted, before the handshake is completed. *)
Lemma hit_before_handshake ParseCIDR : exists effects,
  isPortForwardPermitted ParseCIDR (example_support (Some example_blocklist) true) empty_rules false portForwardTypeTCP [xc0; x00; x02; x07] 80 =
    Ok (false, BlocklistHit [xc0; x00; x02; x07] [] {| Source := "list"; Subject := "botnet" |} :: effects).
Proof. eexists. unfold isPortForwardPermitted. vm_compute. reflexivity. Qed.

Lemma port_forward_permitted_witness : exists effects,
  isPortForwardPermitted Subnet.example_parse (example_support (Some example_blocklist) true) ex_rules true portForwardTypeTCP [x01; x02; x03; x04] 80 =
    Ok (true, effects).
Proof.
  destruct (port_forward_permitted example_library Subnet.example_parse empty_set ex_newSet ex_set "" true "OSSH" ex_geo ex_state ex_rules
    (example_support (Some example_blocklist) true) true portForwardTypeTCP [x01; x02; x03; x04] 80) as (b & effects & E & _ & _);
    [exact ex_fresh|vm_compute; reflexivity..|].
  exists effects. assert (Hb : b = true); [|by rewrite Hb in E].
  assert (H : match isPortForwardPermitted Subnet.example_parse (example_support (Some example_blocklist) true) ex_rules true portForwardTypeTCP
    [x01; x02; x03; x04] 80 with Ok (b, _) => b | _ => false end = true) by (vm_compute; reflexivity).
  rewrite E in H. exact H.
Defined.

Lemma blocklisted_never_permitted_witness :
  (exists effects, isPortForwardPermitted Subnet.example_parse (example_support (Some example_blocklist) true) ex_rules true portForwardTypeTCP
     [xc0; x00; x02; x07] 80 = Ok (false, effects)) /\
  exists msg effects, isDomainPermitted (example_support (Some example_blocklist) true) (chars "malware.example.") = (false, msg, effects).
Proof.
  split.
  - destruct (blocklisted_never_permitted Subnet.example_parse (fun _ => true) example_records example_blocklist
      (example_support (Some example_blocklist) true) "192.0.2.7" "list" "botnet") as [H _]; [vm_compute; reflexivity|by left|reflexivity|reflexivity|].
    destruct (H ex_rules true portForwardTypeTCP [xc0; x00; x02; x07] 80) as (effects & E & _); [done|vm_compute; reflexivity|by exists effects].
  - destruct (blocklisted_never_permitted Subnet.example_parse (fun _ => true) example_records example_blocklist
      (example_support (Some example_blocklist) true) "malware.example" "list" "trojan") as (_ & _ & H); [vm_compute; reflexivity|by right; right; left|reflexivity|reflexivity|].
    destruct (H (chars "malware.example.")) as (msg & effects & E & _); [vm_compute; reflexivity..|by exists msg, effects].
Defined.
