(* ===== verification/PortForwards.v ===== *)
(** * Port forwards

    Models the port forwards of a client in src/psiphon/server/tunnelServer.go: the manager of TCP
    port forwards with its queue and its limit of dials, the goroutines of the port forwards,
    and the slots of established port forwards, where the least recently used one is closed
    to make way for another.

    The goroutines are a state machine.  The methods that hold the mutex of the client are
    steps, and so are the operations of the condition variable and of the lists of
    connections: a goroutine is in one of the states of [phase] between them.  The dialing,
    the relaying and the timeouts are choices of the steps.  The counts of port forwards are
    unbounded integers; the counts of bytes are 64-bit. *)

From Stdlib Require Import ZArith Lia.
From stdpp Require Import base gmap list relations numbers.
From S2P Require Import Prelude.
From S2P Require Import Conns.
From S2P Require Import ApiParams.
From S2P Require Import TrafficRules.
From S2P Require Import Blocklist.
#[local] Open Scope Z_scope.
#[local] Open Scope list_scope.

(** ** The counters of a client *)

Record trafficState := {
  bytesUp : Z;
  bytesDown : Z;
  concurrentDialingPortForwardCount : Z;
  peakConcurrentDialingPortForwardCount : Z;
  concurrentPortForwardCount : Z;
  peakConcurrentPortForwardCount : Z;
  totalPortForwardCount : Z
}.

(** The limits of the client's traffic rules. *)
Record countLimits := { maxTCPDialing : Z; maxTCP : Z; maxUDP : Z }.

(** [signal] is whether the signal is set, and [signalled] whether the context that it cancels
    is cancelled. *)
Record client := {
  tcpTrafficState : trafficState;
  udpTrafficState : trafficState;
  rules : countLimits;
  signal : bool;
  signalled : bool
}.

#[export] Instance portForwardType_eq_dec : EqDecision portForwardType.
Proof. solve_decision. Defined.

Definition traffic (c : client) (t : portForwardType) : trafficState :=
  match t with portForwardTypeTCP => tcpTrafficState c | portForwardTypeUDP => udpTrafficState c end.

Definition set_traffic (c : client) (t : portForwardType) (st : trafficState) : client :=
  match t with
  | portForwardTypeTCP => {| tcpTrafficState := st; udpTrafficState := udpTrafficState c; rules := rules c; signal := signal c; signalled := signalled c |}
  | portForwardTypeUDP => {| tcpTrafficState := tcpTrafficState c; udpTrafficState := st; rules := rules c; signal := signal c; signalled := signalled c |}
  end.

Definition maxPortForwards (c : client) (t : portForwardType) : Z :=
  match t with portForwardTypeTCP => maxTCP (rules c) | portForwardTypeUDP => maxUDP (rules c) end.

Definition isTCPDialingPortForwardLimitExceeded (c : client) : bool :=
  let max := maxTCPDialing (rules c) in (0 <? max) && (max <=? concurrentDialingPortForwardCount (tcpTrafficState c)).

Definition SSH_TCP_PORT_FORWARD_QUEUE_SIZE : Z := 1024.

Definition getTCPPortForwardQueueSize (c : client) : Z := maxTCP (rules c) + maxTCPDialing (rules c).

(** The size of the queue that [runTunnel] makes. *)
Definition queueSize (c : client) : Z :=
  let queueSize := getTCPPortForwardQueueSize c in if queueSize =? 0 then SSH_TCP_PORT_FORWARD_QUEUE_SIZE else queueSize.

Definition set_dialing (st : trafficState) (n peak : Z) : trafficState := {|
  bytesUp := bytesUp st; bytesDown := bytesDown st; concurrentDialingPortForwardCount := n; peakConcurrentDialingPortForwardCount := peak;
  concurrentPortForwardCount := concurrentPortForwardCount st; peakConcurrentPortForwardCount := peakConcurrentPortForwardCount st;
  totalPortForwardCount := totalPortForwardCount st |}.

Definition dialingTCPPortForward (c : client) : client :=
  let st := tcpTrafficState c in
  let n := concurrentDialingPortForwardCount st + 1 in
  let peak := peakConcurrentDialingPortForwardCount st in
  set_traffic c portForwardTypeTCP (set_dialing st n (if peak <? n then n else peak)).

Definition abortedTCPPortForward (c : client) : client :=
  let st := tcpTrafficState c in
  set_traffic c portForwardTypeTCP (set_dialing st (concurrentDialingPortForwardCount st - 1) (peakConcurrentDialingPortForwardCount st)).

Definition setTCPPortForwardDialingAvailableSignal (set : bool) (c : client) : client := {|
  tcpTrafficState := tcpTrafficState c; udpTrafficState := udpTrafficState c; rules := rules c; signal := set;
  signalled := if set then false else signalled c |}.

(** The dialing slot of a TCP port forward is released, and the signal is called. *)
Definition release_dialing (c : client) : client :=
  let c := abortedTCPPortForward c in
  if signal c && ((maxTCPDialing (rules c) <=? 0) || (concurrentDialingPortForwardCount (tcpTrafficState c) <? maxTCPDialing (rules c)))
  then {| tcpTrafficState := tcpTrafficState c; udpTrafficState := udpTrafficState c; rules := rules c; signal := signal c; signalled := true |}
  else c.

Definition allocatePortForward (t : portForwardType) (c : client) : bool * client :=
  let max := maxPortForwards c t in
  if (0 <? max) && (max <=? concurrentPortForwardCount (traffic c t)) then (false, c)
  else
    let c := match t with portForwardTypeTCP => release_dialing c | portForwardTypeUDP => c end in
    let st := traffic c t in
    let n := concurrentPortForwardCount st + 1 in
    let peak := peakConcurrentPortForwardCount st in
    (true, set_traffic c t {|
       bytesUp := bytesUp st; bytesDown := bytesDown st; concurrentDialingPortForwardCount := concurrentDialingPortForwardCount st;
       peakConcurrentDialingPortForwardCount := peakConcurrentDialingPortForwardCount st; concurrentPortForwardCount := n;
       peakConcurrentPortForwardCount := if peak <? n then n else peak; totalPortForwardCount := totalPortForwardCount st + 1 |}).

(** The part of [closedPortForward] that holds the mutex. *)
Definition closedPortForward (t : portForwardType) (up down : Z) (c : client) : client :=
  let st := traffic c t in
  set_traffic c t {|
    bytesUp := wrapS 64 (bytesUp st + up); bytesDown := wrapS 64 (bytesDown st + down);
    concurrentDialingPortForwardCount := concurrentDialingPortForwardCount st;
    peakConcurrentDialingPortForwardCount := peakConcurrentDialingPortForwardCount st;
    concurrentPortForwardCount := concurrentPortForwardCount st - 1;
    peakConcurrentPortForwardCount := peakConcurrentPortForwardCount st; totalPortForwardCount := totalPortForwardCount st |}.

(** [setTrafficRules] *)
Definition setTrafficRules (l : countLimits) (c : client) : client := {|
  tcpTrafficState := tcpTrafficState c; udpTrafficState := udpTrafficState c; rules := l; signal := signal c; signalled := signalled c |}.

(** The limits of the rules, which are pointers. *)
Definition limits_of (rules : TrafficRules) : res countLimits :=
  dialing ← deref (MaxTCPDialingPortForwardCount rules);
  tcp ← deref (MaxTCPPortForwardCount rules);
  udp ← deref (MaxUDPPortForwardCount rules);
  Ok {| maxTCPDialing := dialing; maxTCP := tcp; maxUDP := udp |}.

(** The rules that a client gets from a loaded configuration have limits, none negative. *)
Lemma limits_of_rules L ParseCIDR set newSet set' serverProviderID isFirst tunnelProtocol geoIPData state :
  fresh_set newSet -> reload L ParseCIDR set newSet = Ok set' ->
  exists rules l, GetTrafficRules set' serverProviderID isFirst tunnelProtocol geoIPData state = Ok rules /\ limits_of rules = Ok l /\
    0 <= maxTCPDialing l /\ 0 <= maxTCP l /\ 0 <= maxUDP l.
Proof.
  intros Hf Hr. destruct (GetTrafficRules_ok ParseCIDR set' serverProviderID isFirst tunnelProtocol geoIPData state) as (rules & Hg & Hok & Hc);
    [by eapply reload_loaded|].
  destruct (Hc _ f_MaxTCPDialingPortForwardCount ltac:(by eexists)) as [d E1], (Hc _ f_MaxTCPPortForwardCount ltac:(by eexists)) as [t E2],
    (Hc _ f_MaxUDPPortForwardCount ltac:(by eexists)) as [u E3].
  pose proof (Hok _ _ _ E1). pose proof (Hok _ _ _ E2). pose proof (Hok _ _ _ E3). cbn in E1, E2, E3.
  exists rules, {| maxTCPDialing := d; maxTCP := t; maxUDP := u |}. unfold limits_of. by rewrite E1, E2, E3.
Qed.

(** ** The goroutines *)

(** Where the goroutine of a port forward is, in [handleTCPChannel] or [relayDownstream] and
    [establishedPortForward]. *)
Inductive phase :=
| Dialing             (** before [establishedPortForward] *)
| Full                (** no slot was free; before [CloseOldest] *)
| Locking             (** before it locks the mutex of the condition *)
| Checking            (** with the mutex, before it tries to allocate *)
| Preparing           (** with the mutex, no slot was free; before [Wait] *)
| Waiting             (** in [Wait] *)
| Woken               (** signalled, before it locks the mutex again *)
| Established         (** with a slot, before it is added to the list *)
| Relaying (entry : LRUConnsEntry)
| Removed             (** out of the list, before [closedPortForward] *)
| Closed              (** before [Signal] *)
| Done.

(** Where the manager is, in [handleTCPPortForwards]; [late] is whether no time is left. *)
Inductive manager :=
| MIdle
| MDialed             (** with a dialing slot, before the limit is checked *)
| MExceeded           (** before the signal is set *)
| MWait               (** until the context is done *)
| MWoken (late : bool)
| MDecide (late : bool)
| MStopped.

(** The mutex of the condition, held by a goroutine, and those that wait, the first first. *)
Record cond := { holder : option nat; notify : list nat }.

(** The connection of a port forward has the number of its goroutine. *)
Record machine := {
  cl : client;
  workers : gmap nat (portForwardType * phase);
  lru : portForwardType -> LRUConns nat;
  conds : portForwardType -> cond;
  conns_closed : list nat;
  mgr : manager;
  queued : nat;
  capacity : Z;
  stopped : bool
}.

Definition upd {A} (f : portForwardType -> A) (t : portForwardType) (x : A) : portForwardType -> A := fun t' => if decide (t' = t) then x else f t'.

Definition set_cl (s : machine) (c : client) : machine := {|
  cl := c; workers := workers s; lru := lru s; conds := conds s; conns_closed := conns_closed s; mgr := mgr s; queued := queued s;
  capacity := capacity s; stopped := stopped s |}.
Definition set_worker (s : machine) (i : nat) (t : portForwardType) (p : phase) : machine := {|
  cl := cl s; workers := <[i := (t, p)]> (workers s); lru := lru s; conds := conds s; conns_closed := conns_closed s; mgr := mgr s; queued := queued s;
  capacity := capacity s; stopped := stopped s |}.
Definition set_mgr (s : machine) (m : manager) (q : nat) : machine := {|
  cl := cl s; workers := workers s; lru := lru s; conds := conds s; conns_closed := conns_closed s; mgr := m; queued := q;
  capacity := capacity s; stopped := stopped s |}.
Definition set_lru (s : machine) (t : portForwardType) (l : LRUConns nat) (closed : list nat) : machine := {|
  cl := cl s; workers := workers s; lru := upd (lru s) t l; conds := conds s; conns_closed := conns_closed s ++ closed; mgr := mgr s; queued := queued s;
  capacity := capacity s; stopped := stopped s |}.
Definition set_cond (s : machine) (t : portForwardType) (c : cond) : machine := {|
  cl := cl s; workers := workers s; lru := lru s; conds := upd (conds s) t c; conns_closed := conns_closed s; mgr := mgr s; queued := queued s;
  capacity := capacity s; stopped := stopped s |}.

(** [Signal] wakes the goroutine that waits the longest. *)
Definition Signal (s : machine) (t : portForwardType) : machine :=
  match notify (conds s t) with
  | [] => s
  | j :: l => set_worker (set_cond s t {| holder := holder (conds s t); notify := l |}) j t Woken
  end.

(** The end of [runTunnel]: the queue is closed, the goroutines are stopped and the connections
    of the lists closed. *)
Definition stop (s : machine) : machine :=
  let s := set_lru s portForwardTypeUDP (LRUConns_CloseAll (lru s portForwardTypeUDP)).1 (LRUConns_CloseAll (lru s portForwardTypeUDP)).2 in
  let s := set_lru s portForwardTypeTCP (LRUConns_CloseAll (lru s portForwardTypeTCP)).1 (LRUConns_CloseAll (lru s portForwardTypeTCP)).2 in
  {| cl := cl s; workers := workers s; lru := lru s; conds := conds s; conns_closed := conns_closed s; mgr := mgr s; queued := queued s;
     capacity := capacity s; stopped := true |}.

(** The steps of the manager. *)
Inductive manager_step : machine -> machine -> Prop :=
| enqueue s : stopped s = false -> Z.of_nat (queued s) < capacity s -> manager_step s (set_mgr s (mgr s) (S (queued s)))
| dequeue_late s q : mgr s = MIdle -> queued s = S q -> manager_step s (set_mgr s MIdle q)
| dequeue s q : mgr s = MIdle -> queued s = S q -> manager_step s (set_mgr (set_cl s (dialingTCPPortForward (cl s))) MDialed q)
| check_limit s : mgr s = MDialed ->
    manager_step s (set_mgr s (if isTCPDialingPortForwardLimitExceeded (cl s) then MExceeded else MDecide false) (queued s))
| set_signal s : mgr s = MExceeded ->
    manager_step s (set_mgr (set_cl s (setTCPPortForwardDialingAvailableSignal true (cl s))) MWait (queued s))
| wake s late : mgr s = MWait -> signalled (cl s) = true \/ stopped s = true \/ late = true -> manager_step s (set_mgr s (MWoken late) (queued s))
| clear_signal s late : mgr s = MWoken late ->
    manager_step s (set_mgr (set_cl s (setTCPPortForwardDialingAvailableSignal false (cl s))) (MDecide late) (queued s))
| timed_out s : mgr s = MDecide true -> manager_step s (set_mgr (set_cl s (abortedTCPPortForward (cl s))) MIdle (queued s))
| dispatch s i : mgr s = MDecide false -> workers s !! i = None ->
    manager_step s (set_mgr (set_worker s i portForwardTypeTCP Dialing) MIdle (queued s))
| manager_exits s : mgr s = MIdle -> queued s = 0%nat -> stopped s = true -> manager_step s (set_mgr s MStopped 0).

(** The steps of the goroutines of port forwards. *)
Inductive worker_step : machine -> machine -> Prop :=
| udp_port_forward s i : stopped s = false -> workers s !! i = None -> worker_step s (set_worker s i portForwardTypeUDP Dialing)
| dial_failed s i : workers s !! i = Some (portForwardTypeTCP, Dialing) ->
    worker_step s (set_worker (set_cl s (abortedTCPPortForward (cl s))) i portForwardTypeTCP Done)
| allocate_first s i t b c : workers s !! i = Some (t, Dialing) -> allocatePortForward t (cl s) = (b, c) ->
    worker_step s (set_worker (set_cl s c) i t (if b then Established else Full))
| close_oldest s i t l closed : workers s !! i = Some (t, Full) -> LRUConns_CloseOldest (lru s t) = (l, closed) ->
    worker_step s (set_worker (set_lru s t l closed) i t Locking)
| lock s i t p : workers s !! i = Some (t, p) -> p = Locking \/ p = Woken -> holder (conds s t) = None ->
    worker_step s (set_worker (set_cond s t {| holder := Some i; notify := notify (conds s t) |}) i t Checking)
| allocate_again s i t c : workers s !! i = Some (t, Checking) -> allocatePortForward t (cl s) = (true, c) ->
    worker_step s (set_worker (set_cond (set_cl s c) t {| holder := None; notify := notify (conds s t) |}) i t Established)
| allocate_fails s i t c : workers s !! i = Some (t, Checking) -> allocatePortForward t (cl s) = (false, c) ->
    worker_step s (set_worker s i t Preparing)
| wait s i t : workers s !! i = Some (t, Preparing) ->
    worker_step s (set_worker (set_cond s t {| holder := None; notify := notify (conds s t) ++ [i] |}) i t Waiting)
| lru_add s i t l e : workers s !! i = Some (t, Established) -> LRUConns_Add i (lru s t) = (l, e) ->
    worker_step s (set_worker (set_lru s t l []) i t (Relaying e))
| udp_dial_failed s i : workers s !! i = Some (portForwardTypeUDP, Established) -> worker_step s (set_worker s i portForwardTypeUDP Removed)
| touch s i t e : workers s !! i = Some (t, Relaying e) -> worker_step s (set_lru s t (LRUConnsEntry_Touch e (lru s t)) [])
| relay_ends s i t e : workers s !! i = Some (t, Relaying e) ->
    worker_step s (set_worker (set_lru s t (LRUConnsEntry_Remove e (lru s t)) []) i t Removed)
| close s i t up down : workers s !! i = Some (t, Removed) -> worker_step s (set_worker (set_cl s (closedPortForward t up down (cl s))) i t Closed)
| signal_closed s i t : workers s !! i = Some (t, Closed) -> worker_step s (set_worker (Signal s t) i t Done).

Inductive step : machine -> machine -> Prop :=
| step_manager s s' : manager_step s s' -> step s s'
| step_worker s s' : worker_step s s' -> step s s'
| step_stop s : stopped s = false -> step s (stop s).

(** The rules are replaced at any time. *)
Inductive reload_step : machine -> machine -> Prop :=
| reload_rules s l : reload_step s (set_cl s (setTrafficRules l (cl s))).

Definition zero_traffic : trafficState := {|
  bytesUp := 0; bytesDown := 0; concurrentDialingPortForwardCount := 0; peakConcurrentDialingPortForwardCount := 0;
  concurrentPortForwardCount := 0; peakConcurrentPortForwardCount := 0; totalPortForwardCount := 0 |}.

Definition new_client (l : countLimits) : client :=
  {| tcpTrafficState := zero_traffic; udpTrafficState := zero_traffic; rules := l; signal := false; signalled := false |}.

Definition start (l : countLimits) : machine := {|
  cl := new_client l; workers := ∅; lru := fun _ => NewLRUConns; conds := fun _ => {| holder := None; notify := [] |}; conns_closed := [];
  mgr := MIdle; queued := 0; capacity := queueSize (new_client l); stopped := false |}.

Definition any_step (s s' : machine) : Prop := step s s' \/ reload_step s s'.

(** ** Counting goroutines *)

Definition count (P : portForwardType -> phase -> bool) (m : gmap nat (portForwardType * phase)) : Z :=
  Z.of_nat (size (filter (fun x => P x.2.1 x.2.2 = true) m)).

Definition counted (P : portForwardType -> phase -> bool) (w : option (portForwardType * phase)) : Z :=
  match w with Some (t, p) => Z.b2z (P t p) | None => 0 end.

Lemma count_delete P m i : count P (delete i m) = count P m - counted P (m !! i).
Proof.
  unfold count. rewrite map_filter_delete. destruct (m !! i) as [[t p]|] eqn:E; cbn.
  - destruct (P t p) eqn:EP; cbn.
    + assert (Hl : filter (fun x => P x.2.1 x.2.2 = true) m !! i = Some (t, p)) by (by apply map_lookup_filter_Some).
      pose proof (map_size_delete_Some i (filter (fun x : nat * (portForwardType * phase) => P x.2.1 x.2.2 = true) m) ltac:(eauto)) as Hs.
      assert (size (filter (fun x : nat * (portForwardType * phase) => P x.2.1 x.2.2 = true) m) <> 0%nat).
      { intros H0%map_size_empty_inv. by rewrite H0, lookup_empty in Hl. }
      lia.
    + rewrite delete_id; [lia|]. apply map_lookup_filter_None. right. intros x Ex. rewrite E in Ex. injection Ex as <-. cbn. by rewrite EP.
  - rewrite delete_id; [lia|]. apply map_lookup_filter_None. by left.
Qed.

Lemma count_insert P m i t p : count P (<[i := (t, p)]> m) = count P m - counted P (m !! i) + Z.b2z (P t p).
Proof.
  rewrite <- (count_delete P m i), <- insert_delete_eq. unfold count. destruct (P t p) eqn:E; cbn.
  - rewrite map_filter_insert_True by done. rewrite map_size_insert_None; [lia|]. apply map_lookup_filter_None. left. apply lookup_delete_eq.
  - rewrite map_filter_insert_False by (cbn; by rewrite E). rewrite delete_delete_eq. lia.
Qed.

Lemma worker_count_nonneg P m : 0 <= count P m.
Proof. unfold count. lia. Qed.

Definition same_type (t t' : portForwardType) : bool :=
  match t, t' with portForwardTypeTCP, portForwardTypeTCP | portForwardTypeUDP, portForwardTypeUDP => true | _, _ => false end.

(** A goroutine before it has a slot, and with a slot. *)
Definition before_slot (p : phase) : bool :=
  match p with Dialing | Full | Locking | Checking | Preparing | Waiting | Woken => true | _ => false end.
Definition with_slot (p : phase) : bool := match p with Established | Relaying _ | Removed => true | _ => false end.

Definition pending (t : portForwardType) (p : phase) : bool := same_type t portForwardTypeTCP && before_slot p.
Definition holds (t0 t : portForwardType) (p : phase) : bool := same_type t t0 && with_slot p.

(** The dialing slot of the manager. *)
Definition mgr_slot (m : manager) : Z := match m with MIdle | MStopped => 0 | _ => 1 end.

(** *** The counters *)

Lemma allocate_false t c c' : allocatePortForward t c = (false, c') ->
  c' = c /\ 0 < maxPortForwards c t <= concurrentPortForwardCount (traffic c t).
Proof.
  unfold allocatePortForward. destruct (_ && _) eqn:E; [|done]. intros [= <-]. apply andb_true_iff in E as [?%Z.ltb_lt ?%Z.leb_le]. done.
Qed.

Lemma release_dialing_traffic c : tcpTrafficState (release_dialing c) = tcpTrafficState (abortedTCPPortForward c) /\
  udpTrafficState (release_dialing c) = udpTrafficState c /\ rules (release_dialing c) = rules c /\ signal (release_dialing c) = signal c.
Proof. unfold release_dialing. by destruct (_ && _). Qed.

Lemma release_dialing_signalled c : signalled (release_dialing c) = true -> signalled c = true \/
  signal c = true /\ (maxTCPDialing (rules c) <= 0 \/ concurrentDialingPortForwardCount (tcpTrafficState c) - 1 < maxTCPDialing (rules c)).
Proof.
  unfold release_dialing. destruct (_ && _) eqn:E; [|by left]. intros _. right. apply andb_true_iff in E as [? E%orb_true_iff]. split; [done|].
  cbn in E. rewrite Z.leb_le, Z.ltb_lt in E. done.
Qed.

Lemma allocate_true t c c' : allocatePortForward t c = (true, c') ->
  (forall t', concurrentPortForwardCount (traffic c' t') = concurrentPortForwardCount (traffic c t') + Z.b2z (same_type t t')) /\
  concurrentDialingPortForwardCount (tcpTrafficState c') = concurrentDialingPortForwardCount (tcpTrafficState c) - Z.b2z (same_type t portForwardTypeTCP) /\
  rules c' = rules c /\ signal c' = signal c /\ (maxPortForwards c t <= 0 \/ concurrentPortForwardCount (traffic c' t) <= maxPortForwards c t) /\
  (signalled c' = true -> signalled c = true \/ t = portForwardTypeTCP /\ signal c = true /\
     (maxTCPDialing (rules c) <= 0 \/ concurrentDialingPortForwardCount (tcpTrafficState c) - 1 < maxTCPDialing (rules c))).
Proof.
  unfold allocatePortForward. destruct (_ && _) eqn:E; [done|]. intros [= <-].
  assert (Hmax : maxPortForwards c t <= 0 \/ concurrentPortForwardCount (traffic c t) < maxPortForwards c t).
  { apply andb_false_iff in E as [?%Z.ltb_ge|?%Z.leb_gt]; auto. }
  destruct (release_dialing_traffic c) as (E1 & E2 & E3 & E4). pose proof (release_dialing_signalled c) as E5.
  destruct t; cbn -[release_dialing]; rewrite ?E1, ?E2, ?E3, ?E4; cbn -[release_dialing] in *; split_and!;
    try done; try lia; try (by intros []; cbn -[release_dialing]; rewrite ?E1, ?E2; cbn; lia); [|by left]. intros Hs. destruct (E5 Hs); auto.
Qed.

Lemma allocate_peak t c b c' : allocatePortForward t c = (b, c') ->
  (forall t', concurrentPortForwardCount (traffic c t') <= peakConcurrentPortForwardCount (traffic c t') <= totalPortForwardCount (traffic c t')) ->
  forall t', concurrentPortForwardCount (traffic c' t') <= peakConcurrentPortForwardCount (traffic c' t') <= totalPortForwardCount (traffic c' t').
Proof.
  unfold allocatePortForward. destruct (_ && _); [by intros [= <- <-]|]. intros [= <- <-] H t'. destruct (release_dialing_traffic c) as (E1 & E2 & _ & _).
  specialize (H t'). destruct t, t'; cbn -[release_dialing] in *; rewrite ?E1, ?E2 in *; cbn in *; try lia;
    match goal with |- context [?a <? ?b] => destruct (Z.ltb_spec a b) end; lia.
Qed.

(** ** The condition variables *)

Definition locked (p : phase) : bool := match p with Checking | Preparing => true | _ => false end.
Definition waiting (p : phase) : bool := match p with Waiting => true | _ => false end.

(** The mutex is held by the goroutine that is in the section, and those that wait are in the
    list, once. *)
Record conds_inv (w : gmap nat (portForwardType * phase)) (c : portForwardType -> cond) : Prop := {
  ci_holder : forall t i, holder (c t) = Some i <-> exists p, w !! i = Some (t, p) /\ locked p = true;
  ci_notify : forall t i, i ∈ notify (c t) <-> w !! i = Some (t, Waiting);
  ci_nodup : forall t, NoDup (notify (c t))
}.

Definition quiet (p : phase) : bool := negb (locked p || waiting p).

Lemma upd_same {A} (f : portForwardType -> A) t x : upd f t x t = x.
Proof. unfold upd. by rewrite decide_True. Qed.

Lemma upd_other {A} (f : portForwardType -> A) t t' x : t' <> t -> upd f t x t' = f t'.
Proof. unfold upd. intros. by rewrite decide_False. Qed.

(** A step that neither enters nor leaves the section or the list. *)
Lemma conds_quiet w c i t p : conds_inv w c -> (w !! i = None \/ exists p0, w !! i = Some (t, p0) /\ quiet p0 = true) -> quiet p = true ->
  conds_inv (<[i := (t, p)]> w) c.
Proof.
  intros [H1 H2 H3] Hi Hp. split; [| |done].
  - intros t' j. rewrite H1. split; intros (p' & Ej & Hl).
    + exists p'. split; [|done]. rewrite lookup_insert_ne; [done|]. intros <-. destruct Hi as [Hi|(p0 & Hi & Hq)]; rewrite Hi in Ej; [done|].
      injection Ej as <- <-. unfold quiet in Hq. by rewrite Hl in Hq.
    + exists p'. split; [|done]. apply lookup_insert_Some in Ej as [[<- [= <- <-]]|[_ ?]]; [|done]. unfold quiet in Hp. by rewrite Hl in Hp.
  - intros t' j. rewrite H2. split; intros Ej.
    + rewrite lookup_insert_ne; [done|]. intros <-. destruct Hi as [Hi|(p0 & Hi & Hq)]; rewrite Hi in Ej; [done|]. by injection Ej as _ ->.
    + apply lookup_insert_Some in Ej as [[<- [= <- ->]]|[_ ?]]; done.
Qed.

(** The goroutine [i] takes, keeps or releases the mutex. *)
Lemma conds_holder w c i t p0 p h :
  conds_inv w c -> w !! i = Some (t, p0) -> waiting p0 = false -> waiting p = false ->
  (holder (c t) = None \/ holder (c t) = Some i) -> h = (if locked p then Some i else None) ->
  conds_inv (<[i := (t, p)]> w) (upd c t {| holder := h; notify := notify (c t) |}).
Proof.
  intros [H1 H2 H3] Ei Hw0 Hw Hh ->. split.
  - intros t' j. destruct (decide (t' = t)) as [->|Ht]; [rewrite upd_same|rewrite upd_other by done]; cbn.
    + split.
      * destruct (locked p) eqn:El; [|done]. intros [= <-]. exists p. by rewrite lookup_insert_eq.
      * intros (p' & Ej & Hl). apply lookup_insert_Some in Ej as [[<- [= <-]]|[Hne Ej]]; [by rewrite Hl|].
        assert (holder (c t) = Some j) as Hj by (apply H1; eauto). destruct Hh; congruence.
    + rewrite H1. split; intros (p' & Ej & Hl); exists p'; (split; [|done]).
      * rewrite lookup_insert_ne; [done|]. intros <-. congruence.
      * apply lookup_insert_Some in Ej as [[<- [= -> _]]|[_ ?]]; done.
  - intros t' j. transitivity (j ∈ notify (c t')); [destruct (decide (t' = t)) as [->|Ht]; [by rewrite upd_same|by rewrite upd_other]|].
    rewrite H2. split; intros Ej.
    + rewrite lookup_insert_ne; [done|]. intros <-. rewrite Ei in Ej. injection Ej as <- ->. done.
    + apply lookup_insert_Some in Ej as [[<- [= <- ->]]|[_ ?]]; done.
  - intros t'. destruct (decide (t' = t)) as [->|Ht]; [rewrite upd_same|rewrite upd_other by done]; apply H3.
Qed.

Lemma conds_wait w c i t : conds_inv w c -> w !! i = Some (t, Preparing) ->
  conds_inv (<[i := (t, Waiting)]> w) (upd c t {| holder := None; notify := notify (c t) ++ [i] |}).
Proof.
  intros [H1 H2 H3] Ei. assert (Hh : holder (c t) = Some i) by (apply H1; eauto). split.
  - intros t' j. destruct (decide (t' = t)) as [->|Ht]; [rewrite upd_same|rewrite upd_other by done]; cbn.
    + split; [done|]. intros (p' & Ej & Hl). apply lookup_insert_Some in Ej as [[<- [= <-]]|[Hne Ej]]; [done|].
      assert (holder (c t) = Some j) as Hj by (apply H1; eauto). congruence.
    + rewrite H1. split; intros (p' & Ej & Hl); exists p'; (split; [|done]).
      * rewrite lookup_insert_ne; [done|]. intros <-. congruence.
      * apply lookup_insert_Some in Ej as [[<- [= -> _]]|[_ ?]]; done.
  - intros t' j. destruct (decide (t' = t)) as [->|Ht]; [rewrite upd_same|rewrite upd_other by done]; cbn; rewrite ?elem_of_app, ?list_elem_of_singleton, H2.
    + split; [|intros [[<- _]|[_ ?]]%lookup_insert_Some; auto]. intros [Ej| ->]; [|apply lookup_insert_eq].
      rewrite lookup_insert_ne; [done|]. intros <-. congruence.
    + split; intros Ej; [rewrite lookup_insert_ne; [done|]; intros <-; congruence|]. apply lookup_insert_Some in Ej as [[<- [= ->]]|[_ ?]]; done.
  - intros t'. destruct (decide (t' = t)) as [->|Ht]; [rewrite upd_same|rewrite upd_other by done]; [|apply H3]. cbn. apply list.NoDup_app.
    split_and!; [apply H3| |apply NoDup_singleton]. intros j Hj ->%list_elem_of_singleton. apply H2 in Hj. congruence.
Qed.

Lemma conds_wake w c j l t h : conds_inv w c -> notify (c t) = j :: l -> h = holder (c t) ->
  conds_inv (<[j := (t, Woken)]> w) (upd c t {| holder := h; notify := l |}).
Proof.
  intros [H1 H2 H3] En ->. assert (Ej : w !! j = Some (t, Waiting)) by (apply H2; rewrite En; by left).
  pose proof (H3 t) as Hnd. rewrite En in Hnd. apply list.NoDup_cons in Hnd as [Hj Hnd]. split.
  - intros t' k. transitivity (holder (c t') = Some k); [destruct (decide (t' = t)) as [->|Ht]; [by rewrite upd_same|by rewrite upd_other]|].
    rewrite H1. split; intros (p' & Ek & Hl); exists p'; (split; [|done]).
    + rewrite lookup_insert_ne; [done|]. intros <-. rewrite Ej in Ek. injection Ek as <- <-. done.
    + apply lookup_insert_Some in Ek as [[<- [= <- <-]]|[_ ?]]; done.
  - intros t' k. destruct (decide (t' = t)) as [->|Ht]; [rewrite upd_same|rewrite upd_other by done]; cbn.
    + split.
      * intros Hk. rewrite lookup_insert_ne by (by intros <-). apply H2. rewrite En. by right.
      * intros Ek. apply lookup_insert_Some in Ek as [[_ [= ]]|[Hne Ek]]. apply H2 in Ek. rewrite En in Ek. apply elem_of_cons in Ek as [->|?]; done.
    + rewrite H2. split; intros Ek; [rewrite lookup_insert_ne; [done|]; intros <-; congruence|]. apply lookup_insert_Some in Ek as [[_ [= ]]|[_ ?]]; done.
  - intros t'. destruct (decide (t' = t)) as [->|Ht]; [rewrite upd_same|rewrite upd_other by done]; [done|apply H3].
Qed.

(** ** The invariant *)

(** The list of a type has the connections that are relayed. *)
Definition lru_inv (w : gmap nat (portForwardType * phase)) (l : portForwardType -> LRUConns nat) : Prop :=
  forall t e i, (e, i) ∈ elems (l t) -> w !! i = Some (t, Relaying (Some e)).

(** The counters count the goroutines. *)
Record counts_inv (c : client) (w : gmap nat (portForwardType * phase)) (m : manager) : Prop := {
  ni_dialing : concurrentDialingPortForwardCount (tcpTrafficState c) = mgr_slot m + count pending w;
  ni_slots : forall t, concurrentPortForwardCount (traffic c t) = count (holds t) w;
  ni_peak : forall t, concurrentPortForwardCount (traffic c t) <= peakConcurrentPortForwardCount (traffic c t) <= totalPortForwardCount (traffic c t);
  ni_signal : signal c = true -> m = MWait \/ exists late, m = MWoken late
}.

Definition machine_inv (s : machine) : Prop :=
  counts_inv (cl s) (workers s) (mgr s) /\ conds_inv (workers s) (conds s) /\ lru_inv (workers s) (lru s).

Definition listed (p : phase) : bool := match p with Relaying _ => true | _ => false end.

Lemma lru_insert w l i t p : lru_inv w l -> (w !! i = None \/ exists p0, w !! i = Some (t, p0) /\ listed p0 = false) -> lru_inv (<[i := (t, p)]> w) l.
Proof.
  intros H Hi t' e j Hin. pose proof (H t' e j Hin) as Hj. rewrite lookup_insert_ne; [done|]. intros <-.
  destruct Hi as [Hi|(p0 & Hi & Hp)]; rewrite Hi in Hj; [done|]. by injection Hj as <- ->.
Qed.

Lemma lru_subset w l t x : lru_inv w l -> elems x ⊆ elems (l t) -> lru_inv w (upd l t x).
Proof. intros H Hs t' e i. destruct (decide (t' = t)) as [->|Ht]; [rewrite upd_same; intros Hin; apply H, Hs, Hin|rewrite upd_other by done; apply H]. Qed.

Lemma elem_filter_elems (l : list (nat * nat)) (e : nat) x : x ∈ filter (fun x => x.1 <> e) l <-> x.1 <> e /\ x ∈ l.
Proof. by rewrite list_elem_of_filter. Qed.

Lemma touch_subset e (l : LRUConns nat) : elems (LRUConnsEntry_Touch e l) ⊆ elems l.
Proof.
  destruct e as [e|]; cbn; [|done]. destruct (list_find _ (elems l)) as [[i y]|] eqn:E; cbn; [|done]. apply list_find_Some in E as (Ei & _ & _).
  intros x [->|[_ Hx]%elem_filter_elems]%elem_of_cons; [by eapply list_elem_of_lookup_2|done].
Qed.

Lemma oldest_subset (l l' : LRUConns nat) closed : LRUConns_CloseOldest l = (l', closed) -> elems l' ⊆ elems l.
Proof.
  unfold LRUConns_CloseOldest. destruct (list.last (elems l)); intros [= <- <-]; cbn; [|done]. intros x Hx.
  rewrite <- (take_drop (length (elems l) - 1) (elems l)). apply elem_of_app. by left.
Qed.

Lemma counts_client c w m c' : counts_inv c w m ->
  tcpTrafficState c' = tcpTrafficState c -> udpTrafficState c' = udpTrafficState c -> (signal c' = true -> m = MWait \/ exists late, m = MWoken late) ->
  counts_inv c' w m.
Proof. intros [H1 H2 H3 H4] Et Eu Hs. split; [by rewrite Et|..|done]; intros t; specialize (H2 t); specialize (H3 t); destruct t; cbn in *; congruence. Qed.

(** A goroutine that neither takes nor releases a slot. *)
Lemma counts_insert c w m i t p :
  counts_inv c w m -> counted pending (w !! i) = Z.b2z (pending t p) -> (forall t', counted (holds t') (w !! i) = Z.b2z (holds t' t p)) ->
  counts_inv c (<[i := (t, p)]> w) m.
Proof.
  intros [H1 H2 H3 H4] Hp Hh. split; [|intros t'|done|done]; rewrite count_insert; [rewrite H1, Hp|rewrite H2, Hh]; lia.
Qed.

Lemma counts_manager c w m m' : counts_inv c w m -> mgr_slot m = mgr_slot m' -> (signal c = true -> m' = MWait \/ exists late, m' = MWoken late) ->
  counts_inv c w m'.
Proof. intros [H1 H2 H3 H4] Em Hs. split; [by rewrite H1, Em|done..]. Qed.

Lemma counts_allocate c w m c' i t p :
  counts_inv c w m -> w !! i = Some (t, p) -> before_slot p = true -> allocatePortForward t c = (true, c') ->
  counts_inv c' (<[i := (t, Established)]> w) m.
Proof.
  intros [H1 H2 H3 H4] Ei Hp Ea. pose proof (allocate_peak t c true c' Ea H3) as Hpeak. destruct (allocate_true t c c' Ea) as (E1 & E2 & _ & E4 & _ & _).
  split; [|intros t'|done|by rewrite E4]; rewrite count_insert, Ei.
  - rewrite E2, H1. cbn [counted]. unfold pending. rewrite Hp. destruct t; cbn; lia.
  - rewrite E1, H2. cbn [counted]. unfold holds. destruct p; try done; destruct t, t'; cbn; lia.
Qed.

Lemma counts_aborted c w m m' : counts_inv c w m -> mgr_slot m' = mgr_slot m - 1 -> (signal c = true -> m' = MWait \/ exists late, m' = MWoken late) ->
  counts_inv (abortedTCPPortForward c) w m'.
Proof.
  intros [H1 H2 H3 H4] Em Hs. split; [cbn; lia|..|done]; intros t; specialize (H2 t); specialize (H3 t); destruct t; cbn in *; done.
Qed.

Lemma counts_dial_failed c w m i : counts_inv c w m -> w !! i = Some (portForwardTypeTCP, Dialing) ->
  counts_inv (abortedTCPPortForward c) (<[i := (portForwardTypeTCP, Done)]> w) m.
Proof.
  intros [H1 H2 H3 H4] Ei. split; [rewrite count_insert, Ei; cbn in *; lia| | |done]; intros t; specialize (H2 t); specialize (H3 t);
    [rewrite count_insert, Ei|]; destruct t; cbn in *; try lia; done.
Qed.

Lemma counts_closed c w m i t up down : counts_inv c w m -> w !! i = Some (t, Removed) ->
  counts_inv (closedPortForward t up down c) (<[i := (t, Closed)]> w) m.
Proof.
  intros [H1 H2 H3 H4] Ei. split; [|intros t'; specialize (H2 t')|intros t'; specialize (H3 t')|by destruct t]; rewrite ?count_insert, ?Ei.
  - destruct t; cbn in *; lia.
  - destruct t, t'; cbn in *; lia.
  - destruct t, t'; cbn in *; lia.
Qed.

Lemma counts_dialing c w : counts_inv c w MIdle -> counts_inv (dialingTCPPortForward c) w MDialed.
Proof.
  intros [H1 H2 H3 H4]. split; [cbn in *; lia|..].
  - intros t. specialize (H2 t). by destruct t.
  - intros t. specialize (H3 t). by destruct t.
  - intros Hs. destruct (H4 Hs) as [|[]]; done.
Qed.

Lemma manager_step_inv s s' : manager_step s s' -> machine_inv s -> machine_inv s'.
Proof.
  intros Hs (Hn & Hc & Hl). pose proof (ni_signal _ _ _ Hn) as Hsig.
  assert (Hno : mgr s <> MWait -> (forall late, mgr s <> MWoken late) -> forall m, signal (cl s) = true -> m = MWait \/ exists late, m = MWoken late).
  { intros H1 H2 m H. destruct (Hsig H) as [?|[late ?]]; [done|]. by apply H2 in H0. }
  destruct Hs as [s _ _|s q Em _|s q Em _|s Em|s Em|s late Em _|s late Em|s Em|s i Em Ei|s Em _ _]; unfold machine_inv; cbn [cl workers mgr conds lru set_mgr set_cl set_worker];
    try rewrite Em in *.
  - done.
  - done.
  - split; [by apply counts_dialing|done].
  - split; [|done]. apply (counts_manager _ _ MDialed); [done|by destruct (isTCPDialingPortForwardLimitExceeded _)|by apply Hno].
  - split; [|done]. apply (counts_client (cl s)); [|done..|by left]. apply (counts_manager _ _ MExceeded); [done|done|by apply Hno].
  - split; [|done]. apply (counts_manager _ _ MWait); [done|done|]. intros _. right. by exists late.
  - split; [|done]. destruct Hn as [H1 H2 H3 H4]. split; done.
  - split; [|done]. apply (counts_aborted _ _ (MDecide true)); [done|done|by apply Hno].
  - split_and!; [|apply conds_quiet; auto|apply lru_insert; auto]. destruct Hn as [H1 H2 H3 H4]. split; [|intros t|done|by apply Hno];
      rewrite count_insert, Ei; [cbn in *; lia|rewrite H2; destruct t; cbn; lia].
  - split; [|done]. apply (counts_manager _ _ MIdle); [done|done|by apply Hno].
Qed.

Lemma Signal_inv s t i : machine_inv s -> workers s !! i = Some (t, Closed) -> machine_inv (set_worker (Signal s t) i t Done).
Proof.
  intros (Hn & Hc & Hl) Ei. unfold machine_inv, Signal. destruct (notify (conds s t)) as [|j l] eqn:En; cbn [cl workers mgr conds lru set_worker set_cond].
  - split_and!; [apply counts_insert; [done|by rewrite Ei..]|apply conds_quiet; [done|right; by exists Closed|done]|apply lru_insert; [done|right; by exists Closed]].
  - assert (Ej : workers s !! j = Some (t, Waiting)) by (apply (ci_notify _ _ Hc); rewrite En; by left).
    assert (Hij : j <> i) by congruence. assert (Ei' : <[j := (t, Woken)]> (workers s) !! i = Some (t, Closed)) by (by rewrite lookup_insert_ne).
    split_and!.
    + apply counts_insert; [|by rewrite Ei'..]. apply counts_insert; [done|by rewrite Ej..].
    + apply conds_quiet; [by apply conds_wake|right; by exists Closed|done].
    + apply lru_insert; [|right; by exists Closed]. apply lru_insert; [done|right; by exists Waiting].
Qed.

(** A step of a goroutine that only changes its phase. *)
Ltac plain Ei :=
  split_and!; [apply counts_insert; [done|by rewrite Ei..]|apply conds_quiet; [done|right; eexists; split; [exact Ei|done]|done]|
               apply lru_insert; [done|right; eexists; split; [exact Ei|done]]].

Lemma worker_step_inv s s' : worker_step s s' -> machine_inv s -> machine_inv s'.
Proof.
  intros Hs Hinv. pose proof Hinv as (Hn & Hc & Hl).
  destruct Hs as [s i _ Ei|s i Ei|s i t b c Ei Ea|s i t l closed Ei El|s i t p Ei Hp Eh|s i t c Ei Ea|s i t c Ei Ea|s i t Ei|s i t l e Ei El|s i Ei|s i t e Ei|s i t e Ei|
    s i t up down Ei|s i t Ei]; [..|by apply Signal_inv]; unfold machine_inv; cbn [cl workers mgr conds lru set_worker set_cl set_lru set_cond].
  - split_and!; [apply counts_insert; [done|by rewrite Ei|intros t'; rewrite Ei; by destruct t']|apply conds_quiet; auto|apply lru_insert; auto].
  - split_and!; [by apply counts_dial_failed|apply conds_quiet; [done|right; by exists Dialing|done]|apply lru_insert; [done|right; by exists Dialing]].
  - split_and!; [|apply conds_quiet; [done|right; by exists Dialing|by destruct b]|apply lru_insert; [done|right; by exists Dialing]].
    destruct b; [by eapply counts_allocate|]. apply allocate_false in Ea as [-> _]. apply counts_insert; [done|by rewrite Ei..].
  - split_and!; [apply counts_insert; [done|by rewrite Ei..]|apply conds_quiet; [done|right; by exists Full|done]|].
    apply lru_insert; [|right; by exists Full]. apply lru_subset; [done|]. by eapply oldest_subset.
  - split_and!; [|apply (conds_holder _ _ _ _ p); auto; by destruct Hp as [->| ->]|apply lru_insert; [done|right; exists p; split; [done|by destruct Hp as [->| ->]]]].
    apply counts_insert; [done|..]; rewrite Ei; destruct Hp as [->| ->]; done.
  - split_and!; [by eapply counts_allocate| |apply lru_insert; [done|right; by exists Checking]]. apply (conds_holder _ _ _ _ Checking); auto.
    right. apply (ci_holder _ _ Hc). by exists Checking.
  - split_and!; [apply counts_insert; [done|by rewrite Ei..]| |apply lru_insert; [done|right; by exists Checking]].
    assert (Hh : holder (conds s t) = Some i) by (apply (ci_holder _ _ Hc); by exists Checking).
    pose proof (conds_holder _ _ i t Checking Preparing (Some i) Hc Ei) as H. destruct H as [H1 H2 H3]; auto.
    split; [intros t' j; rewrite <- H1|intros t' j; rewrite <- H2|apply (ci_nodup _ _ Hc)];
      (destruct (decide (t' = t)) as [->|Ht]; [rewrite upd_same; cbn; by rewrite ?Hh|by rewrite upd_other]).
  - split_and!; [apply counts_insert; [done|by rewrite Ei..]|by apply conds_wait|apply lru_insert; [done|right; by exists Preparing]].
  - injection El as <- <-. split_and!; [apply counts_insert; [done|by rewrite Ei|intros t'; rewrite Ei; by destruct t, t']|
      apply conds_quiet; [done|right; by exists Established|done]|].
    intros t' e j Hin. destruct (decide (t' = t)) as [->|Ht]; [rewrite upd_same in Hin|rewrite upd_other in Hin by done]; cbn in Hin.
    + apply elem_of_cons in Hin as [[= -> ->]|Hin]; [apply lookup_insert_eq|]. apply Hl in Hin. rewrite lookup_insert_ne; [done|]. congruence.
    + apply Hl in Hin. rewrite lookup_insert_ne; [done|]. congruence.
  - plain Ei.
  - split_and!; [done|done|]. apply lru_subset; [done|apply touch_subset].
  - split_and!; [apply counts_insert; [done|by rewrite Ei|intros t'; rewrite Ei; by destruct t, t']|apply conds_quiet; [done|right; by exists (Relaying e)|done]|].
    intros t' e' j Hin. assert (Hin' : (e', j) ∈ elems (lru s t')).
    { destruct (decide (t' = t)) as [->|Ht]; [rewrite upd_same in Hin|by rewrite upd_other in Hin]. destruct e as [e|]; cbn in Hin; [|done].
      by apply elem_filter_elems in Hin as [_ ?]. }
    pose proof (Hl _ _ _ Hin') as Hj. rewrite lookup_insert_ne; [done|]. intros <-. rewrite Ei in Hj. injection Hj as <- ->. rewrite upd_same in Hin. cbn in Hin.
    by apply elem_filter_elems in Hin as [? _].
  - split_and!; [by apply counts_closed|apply conds_quiet; [done|right; by exists Removed|done]|apply lru_insert; [done|right; by exists Removed]].
Qed.

Lemma step_inv s s' : step s s' -> machine_inv s -> machine_inv s'.
Proof.
  destruct 1 as [s s' H|s s' H|s H]; [by apply manager_step_inv|by apply worker_step_inv|]. intros (Hn & Hc & Hl). split_and!; [done|done|].
  intros t e i Hin. apply Hl. destruct t; cbn in Hin; by apply not_elem_of_nil in Hin.
Qed.

Lemma any_step_inv s s' : any_step s s' -> machine_inv s -> machine_inv s'.
Proof.
  intros [H|[? l]]; [by apply step_inv|]. intros (Hn & Hc & Hl). split; [|done]. apply (counts_client (cl s0)); [done|done|done|]. apply (ni_signal _ _ _ Hn).
Qed.

Lemma count_empty P : count P ∅ = 0.
Proof. unfold count. by rewrite map_filter_empty, map_size_empty. Qed.

Lemma start_inv l : machine_inv (start l).
Proof.
  split_and!; cbn.
  - split; cbn; [by rewrite count_empty|intros t; rewrite count_empty; by destruct t|by intros []|done].
  - split; cbn; [|intros t i; rewrite elem_of_nil, lookup_empty; done|intros; constructor]. intros t i. split; [done|intros (p & E & _)]. by rewrite lookup_empty in E.
  - intros t e i Hin. by apply not_elem_of_nil in Hin.
Qed.

Lemma reachable_inv l s : rtc any_step (start l) s -> machine_inv s.
Proof.
  intros H. assert (Hr : forall s s', rtc any_step s s' -> machine_inv s -> machine_inv s').
  { induction 1 as [|? ? ? Hs _ IH]; [done|]. intros Hi. by apply IH, (any_step_inv _ _ Hs). }
  exact (Hr _ _ H (start_inv l)).
Qed.

Lemma count_none P w : (forall i t p, w !! i = Some (t, p) -> P t p = false) -> count P w = 0.
Proof.
  intros H. unfold count. replace (filter _ w) with (∅ : gmap nat (portForwardType * phase)); [done|]. symmetry. apply map_empty. intros i.
  apply map_lookup_filter_None. right. intros [t p] E. cbn. by rewrite (H i t p E).
Qed.

(** C17: at every moment, under every interleaving and with any changes of the rules, the counter
    of dialing port forwards is the number of goroutines that hold a dialing slot, the
    manager included, and the counters of established port forwards are the numbers of
    goroutines that hold an established slot; each connection in a list belongs to a port
    forward that is relayed.  So no slot is lost: when all goroutines are done, the counters
    are zero. *)
Theorem port_forward_counts l s : rtc any_step (start l) s ->
  concurrentDialingPortForwardCount (tcpTrafficState (cl s)) = mgr_slot (mgr s) + count pending (workers s) /\
  (forall t, concurrentPortForwardCount (traffic (cl s) t) = count (holds t) (workers s) /\
     concurrentPortForwardCount (traffic (cl s) t) <= peakConcurrentPortForwardCount (traffic (cl s) t)) /\
  (forall t e i, (e, i) ∈ elems (lru s t) -> workers s !! i = Some (t, Relaying (Some e))) /\
  (mgr_slot (mgr s) = 0 -> (forall i t p, workers s !! i = Some (t, p) -> p = Done) ->
     concurrentDialingPortForwardCount (tcpTrafficState (cl s)) = 0 /\ forall t, concurrentPortForwardCount (traffic (cl s) t) = 0).
Proof.
  intros Hr. destruct (reachable_inv l s Hr) as ([H1 H2 H3 H4] & _ & Hl). split_and!; [done| |done|].
  - intros t. split; [done|apply H3].
  - intros Hm Hd. rewrite H1, Hm. split; [|intros t; rewrite H2]; rewrite count_none; try done; intros i t' p E; rewrite (Hd i t' p E); by destruct t', t || by destruct t'.
Qed.

(** ** The limits *)

(** The manager is about to dispatch a port forward, or has been told to. *)
Definition cleared (s : machine) : Z :=
  match mgr s with
  | MWait => Z.b2z (signalled (cl s))
  | MWoken late | MDecide late => Z.b2z (negb late)
  | _ => 0
  end.

Record limits_inv (l : countLimits) (s : machine) : Prop := {
  li_rules : rules (cl s) = l;
  li_slots : forall t, 0 < maxPortForwards (cl s) t -> concurrentPortForwardCount (traffic (cl s) t) <= maxPortForwards (cl s) t;
  li_dials : stopped s = false -> 0 < maxTCPDialing l -> count pending (workers s) + cleared s < maxTCPDialing l
}.

Lemma manager_step_limits l s s' : machine_inv s -> limits_inv l s -> manager_step s s' -> limits_inv l s'.
Proof.
  intros (Hn & _ & _) [Hr Hs Hd] Hstep. pose proof (ni_dialing _ _ _ Hn) as Hc.
  assert (Hlow : stopped s = false -> 0 < maxTCPDialing l -> count pending (workers s) < maxTCPDialing l).
  { intros H1 H2. specialize (Hd H1 H2). assert (0 <= cleared s) by (unfold cleared; destruct (mgr s) as [| | | |[]|[]|]; try destruct (signalled _); cbn; lia). lia. }
  destruct Hstep as [s _ _|s q Em _|s q Em _|s Em|s Em|s late Em Hw|s late Em|s Em|s i Em Ei|s Em _ _]; (split; [done| |]);
    [exact Hs|exact Hd|exact Hs| |intros t; specialize (Hs t); by destruct t| |exact Hs| |exact Hs| |exact Hs| |exact Hs| |intros t; specialize (Hs t); by destruct t| |
     exact Hs| |exact Hs|]; intros H1 H2; unfold cleared; cbn [mgr workers cl set_mgr set_cl set_worker setTCPPortForwardDialingAvailableSignal signalled];
    try (specialize (Hlow H1 H2); cbn; lia).
  - destruct (isTCPDialingPortForwardLimitExceeded (cl s)) eqn:E; [specialize (Hlow H1 H2); lia|]. unfold isTCPDialingPortForwardLimitExceeded in E. cbn.
    rewrite Em in Hc. cbn in Hc. rewrite Hr in E. apply andb_false_iff in E as [?%Z.ltb_ge|?%Z.leb_gt]; lia.
  - destruct late; [specialize (Hlow H1 H2); cbn; lia|]. destruct Hw as [Hw|[Hw|Hw]]; [|cbn in H1; congruence|done]. specialize (Hd H1 H2). unfold cleared in Hd. rewrite Em, Hw in Hd. done.
  - specialize (Hd H1 H2). unfold cleared in Hd. rewrite Em in Hd. done.
  - specialize (Hd H1 H2). unfold cleared in Hd. rewrite Em in Hd. rewrite count_insert, Ei. cbn in *. lia.
Qed.

(** A goroutine leaves the manager alone, and it may signal it. *)
Lemma worker_step_manager s s' : worker_step s s' -> machine_inv s ->
  mgr s' = mgr s /\ stopped s' = stopped s /\ rules (cl s') = rules (cl s) /\ count pending (workers s') <= count pending (workers s) /\
  (signalled (cl s') = true -> signalled (cl s) = true \/ signal (cl s) = true /\
     (maxTCPDialing (rules (cl s)) <= 0 \/ count pending (workers s') + mgr_slot (mgr s) < maxTCPDialing (rules (cl s)))).
Proof.
  intros Hs (Hn & Hc & _). pose proof (ni_dialing _ _ _ Hn) as Hd.
  assert (Hal : forall i t p c, workers s !! i = Some (t, p) -> before_slot p = true -> allocatePortForward t (cl s) = (true, c) ->
    rules c = rules (cl s) /\ count pending (<[i := (t, Established)]> (workers s)) <= count pending (workers s) /\
    (signalled c = true -> signalled (cl s) = true \/ signal (cl s) = true /\
      (maxTCPDialing (rules (cl s)) <= 0 \/ count pending (<[i := (t, Established)]> (workers s)) + mgr_slot (mgr s) < maxTCPDialing (rules (cl s))))).
  { intros i t p c Ei Hp Ea. destruct (allocate_true t (cl s) c Ea) as (_ & _ & Er & _ & _ & Es). rewrite count_insert, Ei. cbn [counted].
    replace (pending t p) with (same_type t portForwardTypeTCP) by (unfold pending; rewrite Hp; by rewrite andb_true_r).
    replace (pending t Established) with false by (unfold pending; by rewrite andb_false_r).
    split_and!; [done|destruct t; cbn; lia|]. intros H. destruct (Es H) as [?|(-> & ? & [?|?])]; [by left|right; split; [done|by left]|].
    right. split; [done|]. right. cbn. lia. }
  assert (Hsame : forall i t p, counted pending (workers s !! i) = Z.b2z (pending t p) -> count pending (<[i := (t, p)]> (workers s)) <= count pending (workers s)).
  { intros i t p E. rewrite count_insert, E. lia. }
  destruct Hs as [s i _ Ei|s i Ei|s i t b c Ei Ea|s i t l closed Ei El|s i t p Ei Hp Eh|s i t c Ei Ea|s i t c Ei Ea|s i t Ei|s i t l e Ei El|s i Ei|s i t e Ei|s i t e Ei|
    s i t up down Ei|s i t Ei]; cbn [cl workers mgr stopped set_worker set_cl set_lru set_cond].
  3: { destruct b; [by destruct (Hal i t Dialing c Ei eq_refl Ea) as (-> & ? & ?)|]. apply allocate_false in Ea as [-> _]. split_and!; try done; [|by left].
       apply Hsame. by rewrite Ei. }
  5: { by destruct (Hal i t Checking c Ei eq_refl Ea) as (-> & ? & ?). }
  all: try (split_and!; [done|done|done|try (apply Hsame; by rewrite Ei)|by left]).
  - rewrite count_insert, Ei. cbn. lia.
  - apply Hsame. rewrite Ei. by destruct Hp as [->| ->].
  - done.
  - destruct t; (split_and!; [done|done|done|apply Hsame; by rewrite Ei|by left]).
  - unfold Signal. destruct (notify (conds s t)) as [|j q] eqn:En; cbn [cl workers mgr stopped set_worker set_cond]; (split_and!; [done|done|done| |by left]).
    + apply Hsame. by rewrite Ei.
    + assert (Ej : workers s !! j = Some (t, Waiting)) by (apply (ci_notify _ _ Hc); rewrite En; by left).
      rewrite !count_insert, lookup_insert_ne by congruence. rewrite Ei, Ej. destruct t; cbn; lia.
Qed.

Lemma worker_step_slots s s' : worker_step s s' ->
  (forall t, 0 < maxPortForwards (cl s) t -> concurrentPortForwardCount (traffic (cl s) t) <= maxPortForwards (cl s) t) ->
  forall t, 0 < maxPortForwards (cl s') t -> concurrentPortForwardCount (traffic (cl s') t) <= maxPortForwards (cl s') t.
Proof.
  intros Hs H.
  assert (Hal : forall t b c, allocatePortForward t (cl s) = (b, c) -> forall t', 0 < maxPortForwards c t' -> concurrentPortForwardCount (traffic c t') <= maxPortForwards c t').
  { intros t [] c Ea t' Hm; [|apply allocate_false in Ea as [-> _]; by apply H]. destruct (allocate_true t (cl s) c Ea) as (E1 & _ & Er & _ & Hmax & _).
    assert (Em : maxPortForwards c t' = maxPortForwards (cl s) t') by (unfold maxPortForwards; by rewrite Er). rewrite Em in *.
    destruct t, t'; try (destruct Hmax; lia); rewrite E1; specialize (H _ Hm); cbn in *; lia. }
  destruct Hs as [s i _ Ei|s i Ei|s i t b c Ei Ea|s i t l closed Ei El|s i t p Ei Hp Eh|s i t c Ei Ea|s i t c Ei Ea|s i t Ei|s i t l e Ei El|s i Ei|s i t e Ei|s i t e Ei|
    s i t up down Ei|s i t Ei]; cbn [cl set_worker set_cl set_lru set_cond]; try exact H.
  - intros t. specialize (H t). by destruct t.
  - by apply (Hal t b).
  - by apply (Hal t true).
  - intros t' Hm. destruct t, t'; cbn in Hm; specialize (H _ Hm) || specialize (H portForwardTypeTCP Hm) || specialize (H portForwardTypeUDP Hm); cbn in *; lia.
  - unfold Signal. by destruct (notify (conds s t)).
Qed.

Lemma step_limits l s s' : machine_inv s -> limits_inv l s -> step s s' -> limits_inv l s'.
Proof.
  intros Hi Hl Hs. destruct Hs as [s s' Hs|s s' Hs|s Hs]; [by eapply manager_step_limits| |].
  - destruct (worker_step_manager s s' Hs Hi) as (Em & Est & Er & Hc & Hsig). destruct Hl as [Hr Hsl Hd]. split; [congruence|by eapply worker_step_slots|].
    rewrite Est. intros H1 H2. specialize (Hd H1 H2). unfold cleared in *. rewrite Em. destruct (mgr s) eqn:E; cbn in *; try lia.
    destruct (signalled (cl s')); cbn; [|destruct (signalled (cl s)); cbn in *; lia]. destruct (Hsig eq_refl) as [Hs'|[_ [?|?]]]; [rewrite Hs' in Hd; cbn in *; lia|rewrite Hr in *; lia..].
  - destruct Hl as [Hr Hsl Hd]. split; [done|exact Hsl|done].
Qed.

Lemma cleared_nonneg s : 0 <= cleared s.
Proof. unfold cleared. destruct (mgr s) as [| | | |[]|[]|]; try destruct (signalled _); cbn; lia. Qed.

Lemma reachable_limits l s : rtc step (start l) s -> machine_inv s /\ limits_inv l s.
Proof.
  intros Hr. assert (Hind : forall s s', rtc step s s' -> machine_inv s /\ limits_inv l s -> machine_inv s' /\ limits_inv l s').
  { induction 1 as [|? ? ? Hs _ IH]; [done|]. intros [Hi Hl]. apply IH. split; [by eapply step_inv|by eapply step_limits]. }
  apply (Hind _ _ Hr). split; [apply start_inv|]. split; cbn; [done|intros t; destruct t; cbn; lia|]. rewrite count_empty. unfold cleared. cbn. lia.
Qed.

(** A step that takes a slot leaves no more taken than the rules allow at that moment. *)
Lemma step_raises s s' t : any_step s s' ->
  concurrentPortForwardCount (traffic (cl s') t) <= concurrentPortForwardCount (traffic (cl s) t) \/
  maxPortForwards (cl s) t <= 0 \/ concurrentPortForwardCount (traffic (cl s') t) <= maxPortForwards (cl s) t.
Proof.
  assert (Hal : forall t0 b c, allocatePortForward t0 (cl s) = (b, c) ->
    concurrentPortForwardCount (traffic c t) <= concurrentPortForwardCount (traffic (cl s) t) \/
    maxPortForwards (cl s) t <= 0 \/ concurrentPortForwardCount (traffic c t) <= maxPortForwards (cl s) t).
  { intros t0 [] c Ea; [|apply allocate_false in Ea as [-> _]; left; lia]. destruct (allocate_true t0 (cl s) c Ea) as (E1 & _ & _ & _ & Hmax & _).
    destruct t0, t; try (right; exact Hmax); left; rewrite E1; cbn; lia. }
  intros [Hs|Hs].
  - destruct Hs as [s s' Hs|s s' Hs|s Hs]; [destruct Hs; left; destruct t; cbn; lia| |by left].
    destruct Hs as [s i _ Ei|s i Ei|s i t0 b c Ei Ea|s i t0 l closed Ei El|s i t0 p Ei Hp Eh|s i t0 c Ei Ea|s i t0 c Ei Ea|s i t0 Ei|s i t0 l e Ei El|s i Ei|s i t0 e Ei|s i t0 e Ei|
      s i t0 up down Ei|s i t0 Ei]; cbn [cl set_worker set_cl set_lru set_cond]; try (by left); try (by eapply Hal).
    + left. destruct t; cbn; lia.
    + left. destruct t0, t; cbn; lia.
    + left. unfold Signal. by destruct (notify (conds s t0)).
  - destruct Hs. left. by destruct t.
Qed.

(** C18: the limits of a client, with its rules reloaded at any time.  Whatever has happened
    before, the step that gives a port forward a slot leaves no more established port forwards
    of its type than the maximum of the rules in force, if there is one: after a lower maximum
    is loaded, those above it stay until they end, but no other is established before the
    number has dropped below it.  While the rules are those the client started with, it never
    has more established port forwards of a type than their maximum; and, until it stops, it
    has strictly fewer TCP port forwards dialing than the maximum number of dials (one fewer
    than documented, since the manager counts the one that it is about to dial). *)
Theorem port_forward_limits l s :
  (rtc any_step (start l) s -> forall s' t, any_step s s' -> count (holds t) (workers s) < count (holds t) (workers s') ->
     0 < maxPortForwards (cl s) t -> count (holds t) (workers s') <= maxPortForwards (cl s) t) /\
  (rtc step (start l) s ->
     (0 < maxTCP l -> count (holds portForwardTypeTCP) (workers s) <= maxTCP l) /\
     (0 < maxUDP l -> count (holds portForwardTypeUDP) (workers s) <= maxUDP l) /\
     (stopped s = false -> 0 < maxTCPDialing l -> count pending (workers s) < maxTCPDialing l)).
Proof.
  split.
  - intros Hr s' t Hs Hlt Hm. destruct (reachable_inv l s Hr) as ([_ Hn _ _] & _). destruct (reachable_inv l s' (rtc_r _ _ _ Hr Hs)) as ([_ Hn' _ _] & _).
    pose proof (step_raises s s' t Hs) as H. rewrite Hn, Hn' in H. lia.
  - intros Hr. destruct (reachable_limits l s Hr) as [([_ Hn _ _] & _) [Hl Hsl Hd]]. unfold maxPortForwards in Hsl. rewrite Hl in Hsl. split_and!.
    + intros Hm. specialize (Hsl portForwardTypeTCP Hm). by rewrite Hn in Hsl.
    + intros Hm. specialize (Hsl portForwardTypeUDP Hm). by rewrite Hn in Hsl.
    + intros H1 H2. specialize (Hd H1 H2). pose proof (cleared_nonneg s). lia.
Qed.

(** The manager counts the port forward that it holds itself when it checks the limit: when
    the maximum is one, no TCP port forward is ever dialed. *)
Lemma single_dial_never l s : maxTCPDialing l = 1 -> rtc step (start l) s -> stopped s = false ->
  forall i p, workers s !! i <> Some (portForwardTypeTCP, p).
Proof.
  intros Hm Hr. set (no_tcp := fun s => stopped s = false -> forall i p, workers s !! i <> Some (portForwardTypeTCP, p)).
  assert (Hstep : forall s s', rtc step (start l) s -> step s s' -> no_tcp s -> no_tcp s').
  { clear s Hr. intros s s' Hr Hs IH Hst' i p. assert (Hr' : rtc step (start l) s') by (by eapply rtc_r).
    destruct (reachable_limits l s' Hr') as [_ [_ _ Hd]]. specialize (Hd Hst' ltac:(lia)). rewrite Hm in Hd. pose proof (cleared_nonneg s').
    assert (Hst : stopped s = false). { destruct Hs as [? ? Hs|? ? Hs|]; [by destruct Hs|destruct Hs; try done; unfold Signal in Hst'; by destruct (notify _)|done]. }
    specialize (IH Hst). destruct Hs as [s s' Hs|s s' Hs|s Hs].
    - destruct Hs; try by apply IH. cbn [workers set_mgr set_worker] in *. rewrite count_insert, H1 in Hd. cbn in Hd. pose proof (worker_count_nonneg pending (workers s)). lia.
    - assert (Hset : forall (w : gmap nat (portForwardType * phase)) i' t' p0 p', (forall i p, w !! i <> Some (portForwardTypeTCP, p)) -> w !! i' = Some (t', p0) ->
        <[i' := (t', p')]> w !! i <> Some (portForwardTypeTCP, p)).
      { intros w i' t' p0 p' Hw E [[<- [= -> ->]]|[_ ?]]%lookup_insert_Some; [by apply Hw in E|by eapply Hw]. }
      destruct Hs; cbn [workers set_worker set_cl set_lru set_cond]; try (by apply IH); try (by eapply Hset).
      + intros [[_ [= ]]|[_ ?]]%lookup_insert_Some. by eapply IH.
      + unfold Signal. destruct (notify (conds s t)) as [|j q] eqn:En; cbn [workers set_worker set_cond]; [by eapply Hset|].
        intros [[<- [= -> _]]|[_ E]]%lookup_insert_Some; [by apply IH in H0|]. revert E.
        apply (Hset _ _ _ Waiting); [done|]. destruct (reachable_limits l s Hr) as [(_ & Hc & _) _]. apply (ci_notify _ _ Hc). rewrite En. by left.
    - exact (IH i p). }
  assert (Hind : forall s s', rtc step s s' -> rtc step (start l) s -> no_tcp s -> no_tcp s').
  { clear s Hr. intros s s' Hss. induction Hss as [|x y z Hxy _ IH]; [done|]. intros Hx Hn. apply IH; [by eapply rtc_r|by eapply Hstep]. }
  apply (Hind (start l) s Hr); [constructor|]. intros _ i p. cbn. by rewrite lookup_empty.
Qed.

(** ** Stopping *)

#[export] Instance phase_eq_dec : EqDecision phase.
Proof. solve_decision. Defined.

Definition at_rest (x : portForwardType * phase) : Prop := x.2 = Done \/ x.2 = Waiting.

#[export] Instance at_rest_dec x : Decision (at_rest x).
Proof. unfold at_rest. apply _. Defined.

Lemma terminal s : stopped s = true -> mgr s = MStopped -> map_Forall (fun _ => at_rest) (workers s) -> forall s', ~ step s s'.
Proof.
  intros Hst Em Hw s' Hs. destruct Hs as [s s' Hs|s s' Hs|s Hs]; [|destruct Hs|congruence]; [destruct Hs; congruence|congruence|..];
    match goal with E : workers _ !! _ = Some (_, _) |- _ => apply Hw in E as [E|E]; cbn in E; try done end; naive_solver.
Qed.

(** When a client has stopped, what is left of it is in a condition's [Wait]. *)
Lemma stopped_terminal l s : rtc any_step (start l) s -> stopped s = true ->
  (forall s', ~ step s s') <-> mgr s = MStopped /\ map_Forall (fun _ => at_rest) (workers s).
Proof.
  intros Hr Hst. destruct (reachable_inv l s Hr) as (_ & Hc & _). split.
  - intros Hno. split.
    + destruct (mgr s) as [| | | |late|[]|] eqn:Em; try done; exfalso.
      * destruct (queued s) as [|q] eqn:Eq; [by eapply Hno, step_manager, manager_exits|by eapply Hno, step_manager, dequeue_late].
      * by eapply Hno, step_manager, check_limit.
      * by eapply Hno, step_manager, set_signal.
      * eapply Hno, step_manager, (wake _ true); auto.
      * by eapply Hno, step_manager, clear_signal.
      * by eapply Hno, step_manager, timed_out.
      * eapply Hno, step_manager, (dispatch _ (base.fresh (dom (workers s)))); [done|]. apply not_elem_of_dom, is_fresh.
    + assert (Hcheck : forall i t p, workers s !! i = Some (t, p) -> locked p = true -> False).
      { intros i t p E Hl. destruct p; try done; [|by eapply Hno, step_worker, wait]. destruct (allocatePortForward t (cl s)) as [[] c] eqn:Ea;
          [by eapply Hno, step_worker, allocate_again|by eapply Hno, step_worker, allocate_fails]. }
      assert (Hfree : forall t, holder (conds s t) = None).
      { intros t. destruct (holder (conds s t)) as [j|] eqn:E; [|done]. apply (ci_holder _ _ Hc) in E as (p & E & Hl). by destruct (Hcheck j t p E Hl). }
      intros i [t p] E. destruct p; try (by left); try (by right); exfalso.
      * destruct (allocatePortForward t (cl s)) as [b c] eqn:Ea. by eapply Hno, step_worker, allocate_first.
      * destruct (LRUConns_CloseOldest (lru s t)) as [l' cs] eqn:El. by eapply Hno, step_worker, close_oldest.
      * eapply Hno, step_worker, lock; [done|by left|done].
      * by eapply Hcheck.
      * by eapply Hcheck.
      * eapply Hno, step_worker, lock; [done|by right|done].
      * destruct (LRUConns_Add i (lru s t)) as [l' e] eqn:El. by eapply Hno, step_worker, lru_add.
      * by eapply Hno, step_worker, relay_ends.
      * by eapply Hno, step_worker, (close _ _ _ 0 0).
      * by eapply Hno, step_worker, signal_closed.
  - intros [Em Hw]. by apply terminal.
Qed.

(** ** Wakeups that are lost *)

Tactic Notation "worker_rule" uconstr(r) := eapply rtc_l; [apply step_worker; eapply r; vm_compute; reflexivity|].
Tactic Notation "manager_rule" uconstr(r) := eapply rtc_l; [apply step_manager; eapply r; vm_compute; reflexivity|].

(** [closedPortForward] signals without the mutex of the condition, between the check of a
    goroutine in [establishedPortForward] and its [Wait]: the signal is lost.  When there is
    no other port forward and the client stops, the goroutine waits forever, although no
    slot is taken, and so does [runTunnel]. *)
Theorem signal_lost : exists s, rtc step (start {| maxTCPDialing := 0; maxTCP := 1; maxUDP := 1 |}) s /\
  stopped s = true /\ workers s !! 1%nat = Some (portForwardTypeUDP, Waiting) /\
  concurrentPortForwardCount (udpTrafficState (cl s)) = 0 /\ forall s', ~ step s s'.
Proof.
  eexists. split.
  { worker_rule (udp_port_forward _ 0%nat). worker_rule (allocate_first _ 0%nat). worker_rule (lru_add _ 0%nat).
    worker_rule (udp_port_forward _ 1%nat). worker_rule (allocate_first _ 1%nat). worker_rule (close_oldest _ 1%nat).
    eapply rtc_l; [apply step_worker; eapply (lock _ 1%nat); [vm_compute; reflexivity|by left|vm_compute; reflexivity]|].
    worker_rule (allocate_fails _ 1%nat). worker_rule (relay_ends _ 0%nat). worker_rule (close _ 0%nat _ 0 0). worker_rule (signal_closed _ 0%nat).
    worker_rule (wait _ 1%nat). eapply rtc_l; [apply step_stop; reflexivity|]. manager_rule manager_exits. apply rtc_refl. }
  split_and!; [reflexivity|vm_compute; reflexivity|vm_compute; reflexivity|].
  apply terminal; [reflexivity|reflexivity|]. refine (bool_decide_unpack _ _). vm_compute. exact I.
Qed.

(** A dial that fails releases its slot without the signal: the manager waits until the
    timeout, and then rejects the port forward, although no port forward is dialing. *)
Theorem failed_dial_not_signalled : exists s, rtc step (start {| maxTCPDialing := 2; maxTCP := 0; maxUDP := 0 |}) s /\
  mgr s = MWait /\ stopped s = false /\ count pending (workers s) = 0 /\
  concurrentDialingPortForwardCount (tcpTrafficState (cl s)) < maxTCPDialing (rules (cl s)) /\
  forall s', manager_step s s' -> mgr s' = MWait \/ mgr s' = MWoken true.
Proof.
  eexists. split.
  { manager_rule enqueue. manager_rule dequeue. manager_rule check_limit. manager_rule (dispatch _ 0%nat).
    manager_rule enqueue. manager_rule dequeue. manager_rule check_limit. manager_rule set_signal.
    worker_rule (dial_failed _ 0%nat). apply rtc_refl. }
  match goal with |- mgr ?s = _ /\ _ => set (s0 := s) end.
  assert (Hm : mgr s0 = MWait) by reflexivity. assert (Hs : signalled (cl s0) = false) by reflexivity. assert (Hst : stopped s0 = false) by reflexivity.
  split_and!; [done|done|vm_compute; reflexivity|vm_compute; reflexivity|]. clearbody s0. intros s' H.
  destruct H; cbn [mgr set_mgr]; try congruence; [by left|]. right. destruct H0 as [?|[?| ->]]; [congruence|congruence|done].
Qed.

(** *** Witnesses *)

Definition ex_limits_pf : countLimits := {| maxTCPDialing := 2; maxTCP := 1; maxUDP := 1 |}.

(** One TCP port forward is established. *)
Lemma example_established : exists s, rtc step (start ex_limits_pf) s /\ workers s !! 0%nat = Some (portForwardTypeTCP, Relaying (Some 0%nat)).
Proof.
  eexists. split.
  { manager_rule enqueue. manager_rule dequeue. manager_rule check_limit. manager_rule (dispatch _ 0%nat). worker_rule (allocate_first _ 0%nat).
    worker_rule (lru_add _ 0%nat). apply rtc_refl. }
  vm_compute. reflexivity.
Qed.

Lemma any_steps s s' : rtc step s s' -> rtc any_step s s'.
Proof. apply rtc_subrel. by left. Qed.

Lemma port_forward_counts_witness : exists s, rtc step (start ex_limits_pf) s /\
  workers s !! 0%nat = Some (portForwardTypeTCP, Relaying (Some 0%nat)) /\
  concurrentPortForwardCount (tcpTrafficState (cl s)) = count (holds portForwardTypeTCP) (workers s).
Proof.
  destruct example_established as (s & Hs & Hw). exists s. split; [exact Hs|]. split; [exact Hw|].
  exact (proj1 (proj1 (proj2 (port_forward_counts ex_limits_pf s (any_steps _ _ Hs))) portForwardTypeTCP)).
Defined.

Lemma any_reload s l : any_step s (set_cl s (setTrafficRules l (cl s))).
Proof. right. constructor. Qed.

(** A lower maximum is loaded, and the port forwards that were established before are more. *)
Lemma lowered_limit : exists l s, rtc any_step (start l) s /\ maxTCP (rules (cl s)) = 1 /\ count (holds portForwardTypeTCP) (workers s) = 2.
Proof.
  exists {| maxTCPDialing := 0; maxTCP := 2; maxUDP := 1 |}. eexists. split.
  { etransitivity; [apply any_steps|eapply rtc_once, (any_reload _ {| maxTCPDialing := 0; maxTCP := 1; maxUDP := 1 |})].
    manager_rule enqueue. manager_rule dequeue. manager_rule check_limit. manager_rule (dispatch _ 0%nat). worker_rule (allocate_first _ 0%nat).
    manager_rule enqueue. manager_rule dequeue. manager_rule check_limit. manager_rule (dispatch _ 1%nat). worker_rule (allocate_first _ 1%nat). apply rtc_refl. }
  split; vm_compute; reflexivity.
Qed.

Lemma port_forward_limits_witness : exists s, rtc step (start ex_limits_pf) s /\
  workers s !! 0%nat = Some (portForwardTypeTCP, Relaying (Some 0%nat)) /\ count (holds portForwardTypeTCP) (workers s) <= 1 /\
  forall s', any_step s s' -> count (holds portForwardTypeTCP) (workers s) < count (holds portForwardTypeTCP) (workers s') ->
    0 < maxPortForwards (cl s) portForwardTypeTCP -> count (holds portForwardTypeTCP) (workers s') <= maxPortForwards (cl s) portForwardTypeTCP.
Proof.
  destruct example_established as (s & Hs & Hw). exists s. split; [exact Hs|]. split; [exact Hw|].
  destruct (port_forward_limits ex_limits_pf s) as [H1 H2]. split; [apply (H2 Hs); reflexivity|].
  intros s'. apply (H1 (any_steps _ _ Hs)).
Defined.
