(* ===== verification/Udpgw.v ===== *)
(** * UDP port forwards

    Models src/psiphon/server/udp.go: the messages of the udpgw protocol, and the multiplexer of
    the UDP port forwards of a client over one SSH channel.

    The channel is the bytes that are read from it.  A message holds its packet by value: the
    packet is used before the next message is read into the same buffer.  The goroutines of
    the multiplexer are a state machine whose steps are the operations that lock its mutex and
    the reads and writes of packets; the slots of port forwards are in [PortForwards]. *)

From Stdlib Require Import ZArith Lia Strings.Byte Strings.Ascii Strings.String.
From stdpp Require Import base gmap list strings numbers relations.
From S2P Require Import Prelude.
From S2P Require Import GoStrings.
From S2P Require Import Lookups.
From S2P Require Import TrafficRules.
From S2P Require Import Blocklist.
From S2P Require Import PortForwards.
#[local] Open Scope string_scope.
#[local] Open Scope Z_scope.
#[local] Open Scope list_scope.

(** ** Messages *)

Definition udpgwProtocolFlagKeepalive : Z := Z.shiftl 1 0.
Definition udpgwProtocolFlagRebind : Z := Z.shiftl 1 1.
Definition udpgwProtocolFlagDNS : Z := Z.shiftl 1 2.
Definition udpgwProtocolFlagIPv6 : Z := Z.shiftl 1 3.
Definition udpgwProtocolMaxPreambleSize : Z := 23.
Definition udpgwProtocolMaxPayloadSize : Z := 32768.
Definition udpgwProtocolMaxMessageSize : Z := udpgwProtocolMaxPreambleSize + udpgwProtocolMaxPayloadSize.

Record udpgwProtocolMessage := {
  connID : Z;
  preambleSize : nat;
  remoteIP : bytes;
  remotePort : Z;
  discardExistingConn : bool;
  forwardDNS : bool;
  packet : bytes
}.

(** [flags&flag == flag] *)
Definition has_flag (flags flag : Z) : bool := Z.land flags flag =? flag.

(** [io.ReadFull] *)
Definition ReadFull (n : nat) (stream : bytes) : res (bytes * bytes) :=
  if (n <=? length stream)%nat then Ok (take n stream, drop n stream)
  else match stream with [] => Err "EOF" | _ => Err "unexpected EOF" end.

Definition BigEndian_Port (b : bytes) : Z := le_load (rev b).

(** What follows the size, when it is not a keep-alive: [buffer] is the message from its third
    byte on. *)
Definition parse_message (size : nat) (buffer : bytes) : res udpgwProtocolMessage :=
  let flags := b2z (nth 0 buffer x00) in
  let addr := if has_flag flags udpgwProtocolFlagIPv6 then 16%nat else 4%nat in
  if (size <? addr + 5)%nat then Err "invalid udpgw message size"
  else Ok {|
    connID := le_load (slice 1 2 buffer);
    preambleSize := 7 + addr;
    remoteIP := slice 3 addr buffer;
    remotePort := BigEndian_Port (slice (3 + addr) 2 buffer);
    discardExistingConn := has_flag flags udpgwProtocolFlagRebind;
    forwardDNS := has_flag flags udpgwProtocolFlagDNS;
    packet := slice (5 + addr) (size - (5 + addr)) buffer |}.

(** [len_buffer] is the length of the buffer. *)
Fixpoint read_loop (fuel : nat) (len_buffer : Z) (stream : bytes) : res (udpgwProtocolMessage * bytes) :=
  match fuel with
  | O => NoFuel
  | S fuel =>
      '(header, stream) ← ReadFull 2 stream;
      let size := le_load header in
      if (size <? 3) || (len_buffer - 2 <? size) then Err "invalid udpgw message size"
      else
        '(buffer, stream) ← ReadFull (Z.to_nat size) stream;
        if has_flag (b2z (nth 0 buffer x00)) udpgwProtocolFlagKeepalive then read_loop fuel len_buffer stream
        else message ← parse_message (Z.to_nat size) buffer; Ok (message, stream)
  end.

(** Every message has at least five bytes. *)
Definition readUdpgwMessage (len_buffer : Z) (stream : bytes) : res (udpgwProtocolMessage * bytes) := read_loop (S (length stream)) len_buffer stream.

Definition writeUdpgwPreamble (preambleSize : nat) (flags connID : Z) (remoteIP : bytes) (remotePort packetSize : Z) (buffer : bytes) : res bytes :=
  if negb (preambleSize =? 7 + length remoteIP)%nat then Err "invalid udpgw preamble size"
  else if (length buffer <? 7 + length remoteIP)%nat then Panic "slice bounds out of range"
  else
    let size := wrapU 16 (wrapU 16 (Z.of_nat preambleSize - 2) + packetSize) in
    let buffer := copy_at 0 (le_store 2 size) buffer in
    let buffer := copy_at 2 [z2b flags] buffer in
    let buffer := copy_at 3 (le_store 2 connID) buffer in
    let buffer := copy_at 5 remoteIP buffer in
    Ok (copy_at (5 + length remoteIP) (rev (le_store 2 remotePort)) buffer).

(** ** Round trip *)

Lemma copy_at_app {A} (a src b c : list A) o : o = length a -> length b = length src -> copy_at o src (a ++ b ++ c) = a ++ src ++ c.
Proof.
  intros -> Hb. unfold copy_at. rewrite take_app_length, app_assoc, <- app_assoc. f_equal. f_equal.
  rewrite drop_app_ge by lia. rewrite drop_app_length' by lia. done.
Qed.

Lemma split_buffer {A} (buffer : list A) n : (7 + n <= length buffer)%nat ->
  exists a b c d e rest, buffer = a ++ b ++ c ++ d ++ e ++ rest /\
    length a = 2%nat /\ length b = 1%nat /\ length c = 2%nat /\ length d = n /\ length e = 2%nat.
Proof.
  intros H. exists (take 2 buffer), (take 1 (drop 2 buffer)), (take 2 (drop 3 buffer)), (take n (drop 5 buffer)), (take 2 (drop (5 + n) buffer)), (drop (7 + n) buffer).
  rewrite !length_take, !length_drop. split_and!; try lia.
  replace (drop (7 + n) buffer) with (drop 2 (drop (5 + n) buffer)) by (rewrite drop_drop; f_equal; lia). rewrite take_drop.
  replace (drop (5 + n) buffer) with (drop n (drop 5 buffer)) by (rewrite drop_drop; f_equal; lia). rewrite take_drop.
  change (drop 5 buffer) with (drop (3 + 2) buffer). rewrite <- (drop_drop _ 2 3), take_drop.
  change (drop 3 buffer) with (drop (2 + 1) buffer). rewrite <- (drop_drop _ 1 2), take_drop. by rewrite take_drop.
Qed.

(** The layout of a message. *)
Definition message_bytes (size flags connID : Z) (remoteIP : bytes) (remotePort : Z) (packet : bytes) : bytes :=
  le_store 2 size ++ [z2b flags] ++ le_store 2 connID ++ remoteIP ++ rev (le_store 2 remotePort) ++ packet.

Lemma preamble_layout flags connID remoteIP remotePort packetSize buffer : (7 + length remoteIP <= length buffer)%nat ->
  writeUdpgwPreamble (7 + length remoteIP) flags connID remoteIP remotePort packetSize buffer =
    Ok (message_bytes (wrapU 16 (wrapU 16 (Z.of_nat (7 + length remoteIP) - 2) + packetSize)) flags connID remoteIP remotePort (drop (7 + length remoteIP) buffer)).
Proof.
  intros H. unfold writeUdpgwPreamble. rewrite Nat.eqb_refl. cbn [negb]. rewrite (proj2 (Nat.ltb_ge _ _)) by lia. cbv zeta.
  generalize (wrapU 16 (wrapU 16 (Z.of_nat (7 + length remoteIP) - 2) + packetSize)). intros size.
  destruct (split_buffer buffer (length remoteIP) H) as (a & b & c & d & e & rest & -> & Ha & Hb & Hc & Hd & He). unfold message_bytes. f_equal.
  pose proof (copy_at_app [] (le_store 2 size) a (b ++ c ++ d ++ e ++ rest) 0 eq_refl Ha) as E. rewrite !app_nil_l in E. rewrite E. clear E. rewrite (copy_at_app (le_store 2 size) [z2b flags] b) by done.
  rewrite (app_assoc (le_store 2 size)), (copy_at_app (le_store 2 size ++ [z2b flags]) (le_store 2 connID) c) by done.
  rewrite (app_assoc (le_store 2 size ++ [z2b flags])), (copy_at_app ((le_store 2 size ++ [z2b flags]) ++ le_store 2 connID) remoteIP d) by done.
  rewrite (app_assoc ((le_store 2 size ++ [z2b flags]) ++ le_store 2 connID)), (copy_at_app (((le_store 2 size ++ [z2b flags]) ++ le_store 2 connID) ++ remoteIP) _ e).
  2: { rewrite !length_app, !length_le_store. cbn [length]. lia. }
  2: { rewrite length_rev, length_le_store. lia. }
  rewrite <- !app_assoc. do 5 f_equal. rewrite !app_assoc, drop_app_length'; [done|]. rewrite !length_app. lia.
Qed.

Lemma ReadFull_whole a b : ReadFull (length a) (a ++ b) = Ok (a, b).
Proof. unfold ReadFull. rewrite length_app, (proj2 (Nat.leb_le _ _)) by lia. by rewrite take_app_length, drop_app_length. Qed.

Lemma ReadFull_two size b : ReadFull 2 (le_store 2 size ++ b) = Ok (le_store 2 size, b).
Proof. apply (ReadFull_whole (le_store 2 size)). Qed.

Lemma load_two z : 0 <= z < 65536 -> le_load (le_store 2 z) = z.
Proof. intros H. rewrite le_load_store. change (256 ^ Z.of_nat 2) with 65536. by rewrite Z.mod_small. Qed.

(** A message that is not a keep-alive, after its size. *)
Definition body_bytes (flags connID : Z) (remoteIP : bytes) (remotePort : Z) (packet : bytes) : bytes :=
  [z2b flags] ++ le_store 2 connID ++ remoteIP ++ rev (le_store 2 remotePort) ++ packet.

Lemma slice_mid {A} (a b c : list A) o n : o = length a -> n = length b -> slice o n (a ++ b ++ c) = b.
Proof. intros -> ->. unfold slice. by rewrite drop_app_length, take_app_length. Qed.

Lemma parse_body flags connID remoteIP remotePort packet :
  0 <= flags < 256 -> 0 <= connID < 65536 -> 0 <= remotePort < 65536 ->
  length remoteIP = (if has_flag flags udpgwProtocolFlagIPv6 then 16 else 4)%nat ->
  parse_message (5 + length remoteIP + length packet) (body_bytes flags connID remoteIP remotePort packet) = Ok {|
    connID := connID; preambleSize := 7 + length remoteIP; remoteIP := remoteIP; remotePort := remotePort;
    discardExistingConn := has_flag flags udpgwProtocolFlagRebind; forwardDNS := has_flag flags udpgwProtocolFlagDNS; packet := packet |}.
Proof.
  intros Hf Hc Hp Hip. unfold parse_message. replace (nth 0 (body_bytes flags connID remoteIP remotePort packet) x00) with (z2b flags) by done.
  rewrite b2z_z2b, Z.mod_small, <- Hip by lia. rewrite (proj2 (Nat.ltb_ge _ _)) by lia. unfold body_bytes. do 2 f_equal.
  - rewrite (slice_mid [z2b flags] (le_store 2 connID)) by done. by apply load_two.
  - rewrite (app_assoc [z2b flags]). by rewrite (slice_mid ([z2b flags] ++ le_store 2 connID)).
  - rewrite (app_assoc [z2b flags]), (app_assoc ([z2b flags] ++ le_store 2 connID)). rewrite (slice_mid (([z2b flags] ++ le_store 2 connID) ++ remoteIP)) by done.
    unfold BigEndian_Port. rewrite rev_involutive. by apply load_two.
  - rewrite (app_assoc [z2b flags]), (app_assoc ([z2b flags] ++ le_store 2 connID)), (app_assoc (([z2b flags] ++ le_store 2 connID) ++ remoteIP)).
    rewrite <- (app_nil_r packet) at 2. rewrite (slice_mid ((([z2b flags] ++ le_store 2 connID) ++ remoteIP) ++ rev (le_store 2 remotePort)) packet); [done| |lia].
    rewrite !length_app, length_rev, !length_le_store. cbn [length]. lia.
Qed.

Lemma length_body flags connID remoteIP remotePort packet : length (body_bytes flags connID remoteIP remotePort packet) = (5 + length remoteIP + length packet)%nat.
Proof. unfold body_bytes. rewrite !length_app, length_rev, !length_le_store. cbn [length]. lia. Qed.

(** One iteration on a whole message. *)
Lemma read_loop_message fuel len_buffer body rest : (3 <= length body)%nat -> Z.of_nat (length body) <= len_buffer - 2 -> Z.of_nat (length body) < 65536 ->
  read_loop (S fuel) len_buffer (le_store 2 (Z.of_nat (length body)) ++ body ++ rest) =
    if has_flag (b2z (nth 0 body x00)) udpgwProtocolFlagKeepalive then read_loop fuel len_buffer rest
    else message ← parse_message (length body) body; Ok (message, rest).
Proof.
  intros H1 H2 H3. cbn [read_loop]. rewrite ReadFull_two. cbn [mbind res_mbind]. rewrite load_two by lia.
  rewrite (proj2 (Z.ltb_ge _ _)) by lia. rewrite (proj2 (Z.ltb_ge _ _)) by lia. cbn [orb]. rewrite Nat2Z.id, ReadFull_whole. done.
Qed.

(** Keep-alives: a body with the flag. *)
Definition keepalive (body : bytes) : Prop :=
  (3 <= length body)%nat /\ Z.of_nat (length body) <= udpgwProtocolMaxMessageSize - 2 /\ has_flag (b2z (nth 0 body x00)) udpgwProtocolFlagKeepalive = true.

Definition keepalive_bytes (bodies : list bytes) : bytes := concat (map (fun body => le_store 2 (Z.of_nat (length body)) ++ body) bodies).

Lemma read_loop_keepalives bodies : forall fuel stream, Forall keepalive bodies -> (length bodies <= fuel)%nat ->
  read_loop fuel udpgwProtocolMaxMessageSize (keepalive_bytes bodies ++ stream) = read_loop (fuel - length bodies) udpgwProtocolMaxMessageSize stream.
Proof.
  induction bodies as [|body bodies IH]; intros fuel stream Hk Hf; [by rewrite Nat.sub_0_r|]. apply Forall_cons_1 in Hk as [(H1 & H2 & H3) Hk].
  destruct fuel as [|fuel]; [cbn in Hf; lia|]. unfold keepalive_bytes. cbn [map concat]. rewrite <- !app_assoc.
  rewrite read_loop_message by (try done; unfold udpgwProtocolMaxMessageSize, udpgwProtocolMaxPreambleSize, udpgwProtocolMaxPayloadSize in *; lia).
  rewrite H3. cbn [length] in *. apply IH; [done|lia].
Qed.

Lemma length_keepalives bodies : Forall keepalive bodies -> (length bodies <= length (keepalive_bytes bodies))%nat.
Proof.
  induction 1 as [|body bodies (H & _) _ IH]; [done|]. unfold keepalive_bytes in *. cbn [map concat length]. rewrite !length_app, length_le_store. lia.
Qed.

Lemma written_read bodies flags connID remoteIP remotePort packet buffer rest :
  Forall keepalive bodies -> 0 <= flags < 256 -> 0 <= connID < 65536 -> 0 <= remotePort < 65536 ->
  has_flag flags udpgwProtocolFlagKeepalive = false -> length remoteIP = (if has_flag flags udpgwProtocolFlagIPv6 then 16 else 4)%nat ->
  Z.of_nat (length packet) <= udpgwProtocolMaxPayloadSize -> Z.of_nat (length buffer) = udpgwProtocolMaxMessageSize ->
  take (length packet) (drop (7 + length remoteIP) buffer) = packet ->
  exists buffer', writeUdpgwPreamble (7 + length remoteIP) flags connID remoteIP remotePort (Z.of_nat (length packet)) buffer = Ok buffer' /\
    readUdpgwMessage udpgwProtocolMaxMessageSize (keepalive_bytes bodies ++ take (7 + length remoteIP + length packet) buffer' ++ rest) = Ok ({|
      connID := connID; preambleSize := 7 + length remoteIP; remoteIP := remoteIP; remotePort := remotePort;
      discardExistingConn := has_flag flags udpgwProtocolFlagRebind; forwardDNS := has_flag flags udpgwProtocolFlagDNS; packet := packet |}, rest).
Proof.
  intros Hk Hf Hc Hp Hka Hip Hlen Hb Hpk. unfold udpgwProtocolMaxMessageSize, udpgwProtocolMaxPreambleSize, udpgwProtocolMaxPayloadSize in Hlen, Hb. assert (Hl16 : (length remoteIP <= 16)%nat) by (rewrite Hip; case_match; lia).
  eexists. split; [apply preamble_layout; lia|].
  set (size := wrapU 16 _). assert (Hsize : size = Z.of_nat (length (body_bytes flags connID remoteIP remotePort packet))).
  { unfold size, wrapU. rewrite length_body. rewrite (Z.mod_small (Z.of_nat (7 + length remoteIP) - 2)) by lia. rewrite Z.mod_small by lia. lia. }
  replace (take (7 + length remoteIP + length packet) (message_bytes size flags connID remoteIP remotePort (drop (7 + length remoteIP) buffer)))
    with (le_store 2 size ++ body_bytes flags connID remoteIP remotePort packet).
  2: { unfold message_bytes, body_bytes. rewrite <- Hpk at 1. rewrite !app_assoc.
       rewrite take_app_ge; rewrite !length_app, length_rev, !length_le_store; cbn [length]; [|lia]. do 2 f_equal. lia. }
  rewrite <- app_assoc, Hsize. unfold readUdpgwMessage. rewrite read_loop_keepalives; [|done|].
  2: { rewrite length_app. pose proof (length_keepalives bodies Hk). lia. }
  destruct (S _ - length bodies)%nat as [|fuel] eqn:E.
  { rewrite !length_app in E. pose proof (length_keepalives bodies Hk). lia. }
  rewrite read_loop_message by (rewrite ?length_body; unfold udpgwProtocolMaxMessageSize, udpgwProtocolMaxPreambleSize, udpgwProtocolMaxPayloadSize; lia).
  replace (nth 0 (body_bytes flags connID remoteIP remotePort packet) x00) with (z2b flags) by done.
  rewrite b2z_z2b, Z.mod_small, Hka, length_body, parse_body by done. done.
Qed.

(** What is written is read.  A preamble that is written before a packet, with flags that
    are not those of a keep-alive and have the IPv6 flag when the address has sixteen bytes,
    is read back, with the packet, after any number of keep-alives, and the bytes that follow
    are left. *)
Theorem udpgw_roundtrip bodies flags connID remoteIP remotePort packet buffer rest :
  Forall keepalive bodies -> 0 <= flags < 256 -> 0 <= connID < 65536 -> 0 <= remotePort < 65536 ->
  has_flag flags udpgwProtocolFlagKeepalive = false -> length remoteIP = (if has_flag flags udpgwProtocolFlagIPv6 then 16 else 4)%nat ->
  Z.of_nat (length packet) <= udpgwProtocolMaxPayloadSize -> Z.of_nat (length buffer) = udpgwProtocolMaxMessageSize ->
  take (length packet) (drop (7 + length remoteIP) buffer) = packet ->
  exists buffer', writeUdpgwPreamble (7 + length remoteIP) flags connID remoteIP remotePort (Z.of_nat (length packet)) buffer = Ok buffer' /\
    readUdpgwMessage udpgwProtocolMaxMessageSize (keepalive_bytes bodies ++ take (7 + length remoteIP + length packet) buffer' ++ rest) = Ok ({|
      connID := connID; preambleSize := 7 + length remoteIP; remoteIP := remoteIP; remotePort := remotePort;
      discardExistingConn := has_flag flags udpgwProtocolFlagRebind; forwardDNS := has_flag flags udpgwProtocolFlagDNS; packet := packet |}, rest).
Proof. intros. by apply written_read. Qed.

Lemma ReadFull_cases n stream :
  (exists a b, ReadFull n stream = Ok (a, b) /\ (n + length b = length stream)%nat) \/ exists e, ReadFull n stream = Err e.
Proof.
  unfold ReadFull. destruct (n <=? length stream)%nat eqn:E; [left|right; destruct stream; by eexists]. apply Nat.leb_le in E.
  eexists _, _. split; [done|]. rewrite length_drop. lia.
Qed.

Lemma read_loop_fuel fuel len_buffer : forall stream, (length stream < fuel)%nat -> read_loop fuel len_buffer stream <> NoFuel.
Proof.
  induction fuel as [|fuel IH]; intros stream Hl; [lia|]. cbn [read_loop].
  destruct (ReadFull_cases 2 stream) as [(h & stream1 & -> & E1)|[e ->]]; [|done]. cbn [mbind res_mbind]. destruct (_ || _); [done|].
  destruct (ReadFull_cases (Z.to_nat (le_load h)) stream1) as [(b & stream2 & -> & E2)|[e ->]]; [|done]. cbn [mbind res_mbind].
  destruct (has_flag _ _); [apply IH; lia|]. unfold parse_message. by destruct (_ <? _)%nat.
Qed.

(** Reading always ends. *)
Lemma readUdpgwMessage_ends len_buffer stream : readUdpgwMessage len_buffer stream <> NoFuel.
Proof. apply read_loop_fuel. lia. Qed.

(** ** The multiplexer *)

Inductive relay_phase :=
| PRelaying
| PExiting     (** after the loop, before [removePortForward] *)
| PRemoved     (** before [relayWaitGroup.Done] *)
| PExited.

Record udpgwPortForward := {
  pf_connID : Z;
  pf_preambleSize : nat;
  pf_remoteIP : bytes;
  pf_remotePort : Z;
  dialIP : bytes;
  dialPort : Z;
  conn_closed : bool;
  pf_phase : relay_phase
}.

Definition set_pf (pf : udpgwPortForward) (closed : bool) (p : relay_phase) : udpgwPortForward := {|
  pf_connID := pf_connID pf; pf_preambleSize := pf_preambleSize pf; pf_remoteIP := pf_remoteIP pf; pf_remotePort := pf_remotePort pf;
  dialIP := dialIP pf; dialPort := dialPort pf; conn_closed := closed; pf_phase := p |}.

(** What [relayDownstream] writes for a datagram: it is read behind the preamble, and the bytes
    that do not fit are lost. *)
Definition downstream_message (pf : udpgwPortForward) (datagram : bytes) : res bytes :=
  let buffer := replicate (Z.to_nat udpgwProtocolMaxMessageSize) x00 in
  let packet := take (Z.to_nat udpgwProtocolMaxMessageSize - pf_preambleSize pf) datagram in
  let packetSize := Z.of_nat (length packet) in
  if udpgwProtocolMaxPayloadSize <? packetSize then Err "unexpected packet size"
  else
    buffer ← writeUdpgwPreamble (pf_preambleSize pf) 0 (pf_connID pf) (pf_remoteIP pf) (pf_remotePort pf) (wrapU 16 packetSize)
               (copy_at (pf_preambleSize pf) packet buffer);
    Ok (take (pf_preambleSize pf + length packet) buffer).

Definition DNS_RESOLVER_PORT : Z := 53.

Lemma slice_of_copy {A} (src dst : list A) o : (o + length src <= length dst)%nat ->
  length (copy_at o src dst) = length dst /\ take (length src) (drop o (copy_at o src dst)) = src.
Proof.
  intros H. unfold copy_at. split; [rewrite !length_app, length_take, length_drop; lia|].
  rewrite drop_app_length' by (rewrite length_take; lia). apply take_app_length.
Qed.

(** A message that is sent to the client is read as one of the port forward, with the datagram,
    when the address has four bytes. *)
Lemma downstream_read pf datagram rest : length (pf_remoteIP pf) = 4%nat -> pf_preambleSize pf = 11%nat ->
  0 <= pf_connID pf < 65536 -> 0 <= pf_remotePort pf < 65536 -> Z.of_nat (length datagram) <= udpgwProtocolMaxPayloadSize ->
  exists b, downstream_message pf datagram = Ok b /\ readUdpgwMessage udpgwProtocolMaxMessageSize (b ++ rest) = Ok ({|
    connID := pf_connID pf; preambleSize := 11; remoteIP := pf_remoteIP pf; remotePort := pf_remotePort pf;
    discardExistingConn := false; forwardDNS := false; packet := datagram |}, rest).
Proof.
  intros Hip Hpre Hc Hp Hd. unfold downstream_message. rewrite Hpre. pose proof Hd as Hd'. unfold udpgwProtocolMaxPayloadSize in Hd'.
  assert (Hmax : Z.to_nat udpgwProtocolMaxMessageSize = (11 + Z.to_nat 32780)%nat) by (apply Nat2Z.inj; rewrite Nat2Z.inj_add, !Z2Nat.id by done; done).
  rewrite Hmax. replace (take _ datagram) with datagram by (rewrite take_ge; [done|]; lia).
  assert (Hb : (11 + length datagram <= length (replicate (11 + Z.to_nat 32780) x00))%nat) by (rewrite length_replicate; lia).
  destruct (slice_of_copy datagram _ 11 Hb) as [Hl Ht]. remember (copy_at 11 datagram (replicate (11 + Z.to_nat 32780) x00)) as buffer eqn:Eb. clear Eb.
  assert (Hlb : Z.of_nat (length buffer) = udpgwProtocolMaxMessageSize) by (rewrite Hl, length_replicate, <- Hmax, Z2Nat.id by done; reflexivity).
  clear Hb Hl Hmax. rewrite (proj2 (Z.ltb_ge _ _)) by exact Hd.
  assert (Ew : wrapU 16 (Z.of_nat (length datagram)) = Z.of_nat (length datagram)) by (unfold wrapU; apply Z.mod_small; lia).
  rewrite Ew. destruct (written_read [] 0 (pf_connID pf) (pf_remoteIP pf) (pf_remotePort pf) datagram buffer rest) as (b' & E1 & E2);
    [constructor|lia|exact Hc|exact Hp|reflexivity|exact Hip|exact Hd|exact Hlb|by rewrite Hip|].
  rewrite Hip in E1, E2. change (7 + 4)%nat with 11%nat in E1, E2. rewrite E1. cbn [mbind res_mbind]. eexists. split; [reflexivity|]. exact E2.
Qed.

(** For an address of sixteen bytes the flag of IPv6 is not set: a reader takes the first four
    bytes for the address. *)
Lemma downstream_ipv6_misread : exists pf b m,
  length (pf_remoteIP pf) = 16%nat /\ pf_preambleSize pf = 23%nat /\ downstream_message pf [x2a] = Ok b /\
  readUdpgwMessage udpgwProtocolMaxMessageSize b = Ok (m, []) /\ remoteIP m = take 4 (pf_remoteIP pf) /\ packet m <> [x2a].
Proof.
  set (pf := {| pf_connID := 1; pf_preambleSize := 23; pf_remoteIP := [x20; x01; x0d; xb8] ++ replicate 12 x01; pf_remotePort := 443;
                dialIP := []; dialPort := 443; conn_closed := false; pf_phase := PRelaying |}).
  assert (Hb : exists b m, downstream_message pf [x2a] = Ok b /\ readUdpgwMessage udpgwProtocolMaxMessageSize b = Ok (m, []) /\
    remoteIP m = [x20; x01; x0d; xb8] /\ packet m = replicate 10 x01 ++ [x01; xbb; x2a]).
  { eexists _, _. split; [vm_compute; reflexivity|]. split; [vm_compute; reflexivity|]. split; reflexivity. }
  destruct Hb as (b & m & E1 & E2 & E3 & E4). exists pf, b, m. rewrite E3, E4. split_and!; [reflexivity|reflexivity|exact E1|exact E2|reflexivity|discriminate].
Qed.

Section Multiplexer.
(** [ParseDNSQuestion] gives the domain of a query, or an empty one. *)
Context (ParseCIDR : string -> res Subnet.IPNet) (S : support) (rules : TrafficRules) (handshaked : bool).
Context (ParseDNSQuestion : bytes -> option (list ascii)) (DNSResolver : bytes).

Definition dns_dropped (m : udpgwProtocolMessage) : bool :=
  if forwardDNS m || (remotePort m =? 53) then
    match ParseDNSQuestion (packet m) with
    | None => true
    | Some domain => negb (bool_decide (domain = [])) && negb (isDomainPermitted S domain).1.1
    end
  else false.

(** Where a new port forward is dialed, if at all. *)
Definition dial_target (m : udpgwProtocolMessage) : res (option (bytes * Z)) :=
  if dns_dropped m then Ok None
  else if forwardDNS m then Ok (Some (DNSResolver, DNS_RESOLVER_PORT))
  else
    '(permitted, _) ← isPortForwardPermitted ParseCIDR S rules handshaked portForwardTypeUDP (remoteIP m) (remotePort m);
    Ok (if (permitted : bool) then Some (remoteIP m, remotePort m) else None).

(** Where [run] is. *)
Inductive run_phase :=
| RReading
| RAwaiting (id : nat) (m : udpgwProtocolMessage)   (** until the goroutine of a port forward is done *)
| RCreating (m : udpgwProtocolMessage)
| RWriting (id : nat) (m : udpgwProtocolMessage)
| RStopping
| RStopped.

(** [upstream] are the packets that were written, with the number of the port forward, and
    [downstream] the messages written to the channel. *)
Record mux := {
  portForwards : gmap Z nat;
  forwards : gmap nat udpgwPortForward;
  running : run_phase;
  upstream : list (nat * udpgwProtocolMessage);
  downstream : list (nat * bytes);
  channel_closed : bool
}.

Definition set_run (s : mux) (r : run_phase) : mux := {|
  portForwards := portForwards s; forwards := forwards s; running := r; upstream := upstream s; downstream := downstream s; channel_closed := channel_closed s |}.
Definition set_forward (s : mux) (id : nat) (pf : udpgwPortForward) : mux := {|
  portForwards := portForwards s; forwards := <[id := pf]> (forwards s); running := running s; upstream := upstream s; downstream := downstream s;
  channel_closed := channel_closed s |}.
Definition set_map (s : mux) (m : gmap Z nat) : mux := {|
  portForwards := m; forwards := forwards s; running := running s; upstream := upstream s; downstream := downstream s; channel_closed := channel_closed s |}.

Definition set_channel_closed (s : mux) : mux := {|
  portForwards := portForwards s; forwards := forwards s; running := running s; upstream := upstream s; downstream := downstream s; channel_closed := true |}.

(** The address of a message is the one of a port forward. *)
Definition same_remote (pf : udpgwPortForward) (m : udpgwProtocolMessage) : bool :=
  bool_decide (pf_remoteIP pf = remoteIP m) && (pf_remotePort pf =? remotePort m).

Definition new_forward (m : udpgwProtocolMessage) (target : bytes * Z) : udpgwPortForward := {|
  pf_connID := connID m; pf_preambleSize := preambleSize m; pf_remoteIP := remoteIP m; pf_remotePort := remotePort m;
  dialIP := target.1; dialPort := target.2; conn_closed := false; pf_phase := PRelaying |}.

Definition removePortForward (connID : Z) (s : mux) : mux := set_map s (delete connID (portForwards s)).

(** The connections of the port forwards in the map are closed. *)
Definition close_all (s : mux) : mux := {|
  portForwards := portForwards s;
  forwards := map_imap (fun id pf => Some (if bool_decide (portForwards s !! pf_connID pf = Some id) then set_pf pf true (pf_phase pf) else pf)) (forwards s);
  running := running s; upstream := upstream s; downstream := downstream s; channel_closed := channel_closed s |}.

Inductive mux_step : mux -> mux -> Prop :=
(** [run] *)
| receive_new s m : running s = RReading -> portForwards s !! connID m = None -> mux_step s (set_run s (RCreating m))
| receive_changed s m id pf : running s = RReading -> portForwards s !! connID m = Some id -> forwards s !! id = Some pf ->
    discardExistingConn m || negb (same_remote pf m) = true ->
    mux_step s (set_run (set_forward s id (set_pf pf true (pf_phase pf))) (RAwaiting id m))
| receive_same s m id pf : running s = RReading -> portForwards s !! connID m = Some id -> forwards s !! id = Some pf ->
    discardExistingConn m || negb (same_remote pf m) = false -> mux_step s (set_run s (RWriting id m))
| awaited s m id pf : running s = RAwaiting id m -> forwards s !! id = Some pf -> pf_phase pf = PExited -> mux_step s (set_run s (RCreating m))
| not_created s m : running s = RCreating m -> mux_step s (set_run s RReading)
| created s m target id : running s = RCreating m -> dial_target m = Ok (Some target) -> forwards s !! id = None ->
    mux_step s (set_run (set_map (set_forward s id (new_forward m target)) (<[connID m := id]> (portForwards s))) (RWriting id m))
| written s m id pf : running s = RWriting id m -> forwards s !! id = Some pf -> conn_closed pf = false ->
    mux_step s {| portForwards := portForwards s; forwards := forwards s; running := RReading; upstream := upstream s ++ [(id, m)];
                  downstream := downstream s; channel_closed := channel_closed s |}
| write_failed s m id pf : running s = RWriting id m -> forwards s !! id = Some pf ->
    mux_step s (set_run (set_forward s id (set_pf pf true (pf_phase pf))) RReading)
| read_ends s : running s = RReading -> mux_step s (set_run (close_all s) RStopping)
| run_ends s : running s = RStopping -> (forall id pf, forwards s !! id = Some pf -> pf_phase pf = PExited) -> mux_step s (set_run s RStopped)
(** [relayDownstream] *)
| relayed s id pf datagram b : forwards s !! id = Some pf -> pf_phase pf = PRelaying -> conn_closed pf = false ->
    downstream_message pf datagram = Ok b -> channel_closed s = false ->
    mux_step s {| portForwards := portForwards s; forwards := forwards s; running := running s; upstream := upstream s;
                  downstream := downstream s ++ [(id, b)]; channel_closed := channel_closed s |}
| relay_write_fails s id pf : forwards s !! id = Some pf -> pf_phase pf = PRelaying ->
    mux_step s (set_channel_closed (set_forward s id (set_pf pf (conn_closed pf) PExiting)))
| relay_breaks s id pf : forwards s !! id = Some pf -> pf_phase pf = PRelaying -> mux_step s (set_forward s id (set_pf pf (conn_closed pf) PExiting))
| relay_removes s id pf : forwards s !! id = Some pf -> pf_phase pf = PExiting ->
    mux_step s (set_forward (removePortForward (pf_connID pf) s) id (set_pf pf (conn_closed pf) PRemoved))
| relay_exits s id pf : forwards s !! id = Some pf -> pf_phase pf = PRemoved -> mux_step s (set_forward s id (set_pf pf true PExited))
(** The connection of a port forward is closed by another, and [stop]. *)
| closed_lru s id pf : forwards s !! id = Some pf -> mux_step s (set_forward s id (set_pf pf true (pf_phase pf)))
| stops s : mux_step s (set_channel_closed (close_all s)).

Definition new_mux : mux :=
  {| portForwards := ∅; forwards := ∅; running := RReading; upstream := []; downstream := []; channel_closed := false |}.

(** *** The invariant *)

Definition live (pf : udpgwPortForward) : bool := match pf_phase pf with PRelaying | PExiting => true | _ => false end.

(** The port forward is for the connection ID and the address of the message. *)
Definition for_message (pf : udpgwPortForward) (m : udpgwProtocolMessage) : Prop :=
  pf_connID pf = connID m /\ pf_remoteIP pf = remoteIP m /\ pf_remotePort pf = remotePort m.

(** It was dialed where a message for the same address may be. *)
Definition admitted (pf : udpgwPortForward) : Prop :=
  exists m, for_message pf m /\ pf_preambleSize pf = preambleSize m /\ dial_target m = Ok (Some (dialIP pf, dialPort pf)).

(** What a message or a datagram became. *)
Definition sent_on (fs : gmap nat udpgwPortForward) (x : nat * udpgwProtocolMessage) : Prop := exists pf, fs !! x.1 = Some pf /\ for_message pf x.2.
Definition sent_down (fs : gmap nat udpgwPortForward) (x : nat * bytes) : Prop :=
  exists pf datagram, fs !! x.1 = Some pf /\ downstream_message pf datagram = Ok x.2.

Record mux_inv (s : mux) : Prop := {
  mi_map : forall c id, portForwards s !! c = Some id -> exists pf, forwards s !! id = Some pf /\ pf_connID pf = c /\ live pf = true;
  mi_live : forall id pf, forwards s !! id = Some pf -> live pf = true -> portForwards s !! pf_connID pf = Some id;
  mi_run : match running s with
           | RAwaiting id m => exists pf, forwards s !! id = Some pf /\ pf_connID pf = connID m /\ conn_closed pf = true /\
                                 (live pf = false -> portForwards s !! connID m = None)
           | RCreating m => portForwards s !! connID m = None
           | RWriting id m => exists pf, forwards s !! id = Some pf /\ for_message pf m
           | _ => True
           end;
  mi_admitted : forall id pf, forwards s !! id = Some pf -> admitted pf;
  mi_up : Forall (sent_on (forwards s)) (upstream s);
  mi_down : Forall (sent_down (forwards s)) (downstream s)
}.

(** What does not change of a port forward. *)
Definition same_forward (pf pf' : udpgwPortForward) : Prop := exists closed p, pf' = set_pf pf closed p.

Lemma same_message pf pf' m : same_forward pf pf' -> for_message pf m -> for_message pf' m.
Proof. by intros (c & p & ->). Qed.

Lemma same_admitted pf pf' : same_forward pf pf' -> admitted pf -> admitted pf'.
Proof. by intros (c & p & ->). Qed.

(** The port forwards of [fs'] extend those of [fs]. *)
Definition extends (fs fs' : gmap nat udpgwPortForward) : Prop := forall id pf, fs !! id = Some pf -> exists pf', fs' !! id = Some pf' /\ same_forward pf pf'.

Lemma extends_up fs fs' l : extends fs fs' -> Forall (sent_on fs) l -> Forall (sent_on fs') l.
Proof.
  intros He Hf. eapply list.Forall_impl; [exact Hf|]. intros [id m] (pf & Ef & Hm). destruct (He _ _ Ef) as (pf' & Ef' & Hs). exists pf'. split; [done|by eapply same_message].
Qed.

Lemma extends_down fs fs' l : extends fs fs' -> Forall (sent_down fs) l -> Forall (sent_down fs') l.
Proof.
  intros He Hf. eapply list.Forall_impl; [exact Hf|]. intros [id b] (pf & d & Ef & Hd). destruct (He _ _ Ef) as (pf' & Ef' & (c & p & ->)). by eexists _, d.
Qed.

Lemma extends_set fs id pf c p : fs !! id = Some pf -> extends fs (<[id := set_pf pf c p]> fs).
Proof.
  intros E id' pf' E'. destruct (decide (id' = id)) as [->|Hne].
  - rewrite lookup_insert_eq. rewrite E in E'. injection E' as <-. eexists. split; [done|by exists c, p].
  - rewrite lookup_insert_ne by done. exists pf'. split; [done|]. exists (conn_closed pf'), (pf_phase pf'). by destruct pf'.
Qed.

Lemma extends_new fs id pf : fs !! id = None -> extends fs (<[id := pf]> fs).
Proof.
  intros E id' pf' E'. rewrite lookup_insert_ne by congruence. exists pf'. split; [done|]. exists (conn_closed pf'), (pf_phase pf'). by destruct pf'.
Qed.

(** A port forward that stays live, or stays dead, with the phase of [run] unchanged or set to
    one that claims no more. *)
Lemma inv_set s id pf c p r : mux_inv s -> forwards s !! id = Some pf -> live (set_pf pf c p) = live pf -> (conn_closed pf = true -> c = true) ->
  (r = running s \/ r = RReading \/ exists m, r = RAwaiting id m /\ pf_connID pf = connID m /\ live pf = true /\ c = true) ->
  mux_inv (set_run (set_forward s id (set_pf pf c p)) r).
Proof.
  intros [H1 H2 H3 H4 H5 H6] E Hlive Hc0 Hr. pose proof (extends_set _ _ _ c p E) as He. split; cbn.
  - intros c' i Hc. destruct (H1 c' i Hc) as (pf' & E' & Hc' & Hl). destruct (decide (i = id)) as [->|Hne].
    + rewrite lookup_insert_eq. rewrite E in E'. injection E' as <-. eexists. split_and!; [done|done|congruence].
    + rewrite lookup_insert_ne by done. by eexists.
  - intros i pf' [[<- <-]|[_ E']]%lookup_insert_Some Hl; [apply (H2 id pf); congruence|by apply H2].
  - destruct Hr as [->|[->|(m & -> & Hm & Hl & Hct)]]; [|done|].
    + destruct (running s) as [|i m|m|i m| |]; try done.
      * destruct H3 as (pf' & E' & Hm & Hcl & Hn). destruct (decide (i = id)) as [->|Hne]; [rewrite lookup_insert_eq|rewrite lookup_insert_ne by done; by eexists].
        rewrite E in E'. injection E' as <-. eexists. split_and!; [done|done|by apply Hc0|]. intros Hl. apply Hn. congruence.
      * destruct H3 as (pf' & E' & Hm). destruct (He _ _ E') as (pf'' & E'' & Hs). exists pf''. split; [done|by eapply same_message].
    + rewrite lookup_insert_eq. eexists. split_and!; [done|done|done|]. congruence.
  - intros i pf' [[<- <-]|[_ E']]%lookup_insert_Some; [|by eapply H4]. eapply same_admitted; [|by eapply H4]. by eexists _, _.
  - by eapply extends_up.
  - by eapply extends_down.
Qed.

Lemma inv_run s r : mux_inv s -> match r with RReading | RStopping | RStopped => True | _ => r = running s end -> mux_inv (set_run s r).
Proof. intros [H1 H2 H3 H4 H5 H6] Hr. split; cbn; try done. by destruct r; try done; rewrite <- Hr in H3. Qed.

Lemma inv_channel s : mux_inv s -> mux_inv (set_channel_closed s).
Proof. by intros []. Qed.

Lemma set_run_same s : set_run s (running s) = s.
Proof. by destruct s. Qed.

Definition closed_forward (s : mux) (id : nat) (pf : udpgwPortForward) : udpgwPortForward :=
  if bool_decide (portForwards s !! pf_connID pf = Some id) then set_pf pf true (pf_phase pf) else pf.

Lemma close_all_lookup s id : forwards (close_all s) !! id = closed_forward s id <$> forwards s !! id.
Proof. cbn. rewrite map_lookup_imap. by destruct (forwards s !! id). Qed.

Lemma closed_forward_same s id pf : same_forward pf (closed_forward s id pf) /\ live (closed_forward s id pf) = live pf /\
  (conn_closed pf = true -> conn_closed (closed_forward s id pf) = true).
Proof.
  unfold closed_forward. case_bool_decide; [split; [by eexists _, _|done]|]. split; [|done]. exists (conn_closed pf), (pf_phase pf). by destruct pf.
Qed.

Lemma inv_close_all s : mux_inv s -> mux_inv (close_all s).
Proof.
  intros [H1 H2 H3 H4 H5 H6]. assert (He : extends (forwards s) (forwards (close_all s))).
  { intros id pf E. rewrite close_all_lookup, E. eexists. split; [done|]. apply closed_forward_same. }
  split; [| | | |by eapply extends_up|by eapply extends_down].
  - intros c id Hc. destruct (H1 c id Hc) as (pf & E & Hc' & Hl). rewrite close_all_lookup, E. destruct (closed_forward_same s id pf) as ((c0 & p0 & Es) & El & _).
    eexists. split; [done|]. split; [by rewrite Es|congruence].
  - intros id pf'. rewrite close_all_lookup. intros (pf & E & ->)%fmap_Some Hl. destruct (closed_forward_same s id pf) as ((c0 & p0 & Es) & El & _).
    rewrite Es. apply (H2 id pf E). congruence.
  - cbn [running close_all portForwards]. destruct (running s) as [|i m|m|i m| |]; try done.
    + destruct H3 as (pf & E & Hm & Hcl & Hn). rewrite close_all_lookup, E. destruct (closed_forward_same s i pf) as ((c0 & p0 & Es) & El & Hc).
      eexists. split; [done|]. split_and!; [by rewrite Es|by apply Hc|]. intros Hl. apply Hn. congruence.
    + destruct H3 as (pf & E & Hm). destruct (He _ _ E) as (pf' & E' & Hs). exists pf'. split; [done|by eapply same_message].
  - intros id pf'. rewrite close_all_lookup. intros (pf & E & ->)%fmap_Some. eapply same_admitted; [apply closed_forward_same|by eapply H4].
Qed.

Lemma inv_created s m target id : mux_inv s -> running s = RCreating m -> dial_target m = Ok (Some target) -> forwards s !! id = None ->
  mux_inv (set_run (set_map (set_forward s id (new_forward m target)) (<[connID m := id]> (portForwards s))) (RWriting id m)).
Proof.
  intros [H1 H2 H3 H4 H5 H6] Hr Ht Hn. rewrite Hr in H3. pose proof (extends_new _ id (new_forward m target) Hn) as He.
  split; cbn; [| | | |by eapply extends_up|by eapply extends_down].
  - intros c i [[<- <-]|[Hne Hc]]%lookup_insert_Some; [rewrite lookup_insert_eq; by eexists|]. destruct (H1 c i Hc) as (pf & E & ?).
    rewrite lookup_insert_ne by congruence. by exists pf.
  - intros i pf [[<- <-]|[Hne E]]%lookup_insert_Some Hl; [by rewrite lookup_insert_eq|]. pose proof (H2 i pf E Hl) as Hm. rewrite lookup_insert_ne; [done|]. congruence.
  - rewrite lookup_insert_eq. eexists. split; [done|]. done.
  - intros i pf [[<- <-]|[Hne E]]%lookup_insert_Some; [|by eapply H4]. exists m. split; [done|]. split; [done|]. rewrite Ht. by destruct target.
Qed.

Lemma inv_removed s id pf : mux_inv s -> forwards s !! id = Some pf -> pf_phase pf = PExiting ->
  mux_inv (set_forward (removePortForward (pf_connID pf) s) id (set_pf pf (conn_closed pf) PRemoved)).
Proof.
  intros [H1 H2 H3 H4 H5 H6] E Hp. pose proof (extends_set _ _ _ (conn_closed pf) PRemoved E) as He.
  assert (Hid : portForwards s !! pf_connID pf = Some id) by (apply (H2 id pf E); unfold live; by rewrite Hp).
  split; cbn; [| | | |by eapply extends_up|by eapply extends_down].
  - intros c i [Hne Hc]%lookup_delete_Some. destruct (H1 c i Hc) as (pf' & E' & Hc' & Hl). rewrite lookup_insert_ne; [by exists pf'|]. congruence.
  - intros i pf' [[<- <-]|[Hne E']]%lookup_insert_Some Hl; [done|]. apply lookup_delete_Some. pose proof (H2 i pf' E' Hl). split; [congruence|done].
  - destruct (running s) as [|i m|m|i m| |]; try done.
    + destruct H3 as (pf' & E' & Hm & Hcl & Hn). destruct (decide (i = id)) as [->|Hne].
      * rewrite lookup_insert_eq. rewrite E in E'. injection E' as <-. eexists. split_and!; [done|done|done|]. intros _. rewrite <- Hm. apply lookup_delete_eq.
      * rewrite lookup_insert_ne by done. exists pf'. split_and!; [done|done|done|]. intros Hl. apply lookup_delete_None. right. by apply Hn.
    + apply lookup_delete_None. by right.
    + destruct H3 as (pf' & E' & Hm). destruct (He _ _ E') as (pf'' & E'' & Hs). exists pf''. split; [done|by eapply same_message].
  - intros i pf' [[<- <-]|[Hne E']]%lookup_insert_Some; [|by eapply H4]. eapply same_admitted; [|by eapply H4]. by eexists _, _.
Qed.

Lemma mux_step_inv s s' : mux_step s s' -> mux_inv s -> mux_inv s'.
Proof.
  intros Hs Hi. pose proof Hi as [H1 H2 H3 H4 H5 H6]. destruct Hs as [s m Hr Hn|s m id pf Hr Hm E Hc|s m id pf Hr Hm E Hc|s m id pf Hr E Hp|s m Hr|s m target id Hr Ht Hn|
    s m id pf Hr E Hcl|s m id pf Hr E|s Hr|s Hr Hall|s id pf d b E Hp Hcl Hd Hch|s id pf E Hp|s id pf E Hp|s id pf E Hp|s id pf E Hp|s id pf E|s].
  - by split.
  - destruct (H1 _ _ Hm) as (pf' & E' & Hc' & Hl). rewrite E in E'. injection E' as <-. apply inv_set; auto. right. right. by exists m.
  - destruct (H1 _ _ Hm) as (pf' & E' & Hc' & Hl). rewrite E in E'. injection E' as <-. split; cbn; try done. exists pf. split; [done|].
    apply orb_false_iff in Hc as [_ Hc%negb_false_iff]. unfold same_remote in Hc. apply andb_true_iff in Hc as [Hip%bool_decide_eq_true Hpo%Z.eqb_eq]. done.
  - split; cbn; try done. rewrite Hr in H3. destruct H3 as (pf' & E' & Hm & _ & Hn). rewrite E in E'. injection E' as <-. apply Hn. unfold live. by rewrite Hp.
  - by apply inv_run.
  - by apply inv_created.
  - rewrite Hr in H3. destruct H3 as (pf' & E' & Hm). rewrite E in E'. injection E' as <-. split; cbn; try done. apply list.Forall_app. split; [done|].
    constructor; [|constructor]. by exists pf.
  - apply inv_set; auto.
  - apply inv_run; [by apply inv_close_all|done].
  - by apply inv_run.
  - split; cbn; try done. apply list.Forall_app. split; [done|]. constructor; [|constructor]. by exists pf, d.
  - apply inv_channel. rewrite <- (set_run_same (set_forward _ _ _)). apply inv_set; auto. unfold live. cbn. by rewrite Hp.
  - rewrite <- (set_run_same (set_forward _ _ _)). apply inv_set; auto. unfold live. cbn. by rewrite Hp.
  - by apply inv_removed.
  - rewrite <- (set_run_same (set_forward _ _ _)). apply inv_set; auto. unfold live. cbn. by rewrite Hp.
  - rewrite <- (set_run_same (set_forward _ _ _)). apply inv_set; auto.
  - by apply inv_channel, inv_close_all.
Qed.

Lemma reachable_mux_inv s : rtc mux_step new_mux s -> mux_inv s.
Proof.
  intros Hr. assert (Hind : forall s s', rtc mux_step s s' -> mux_inv s -> mux_inv s').
  { induction 1 as [|? ? ? Hs _ IH]; [done|]. intros Hi. by apply IH, (mux_step_inv _ _ Hs). }
  apply (Hind _ _ Hr). split; cbn; try done.
Qed.

(** C19: under every interleaving of the loop that reads messages, of the goroutines of the port
    forwards and of the closing of connections: at most one live port forward has a given
    connection ID, and it is the one in the map, so that a goroutine that ends removes its
    own entry alone; when a port forward is about to be created, none that is live has its
    connection ID; every packet was sent on a port forward for the connection ID and the
    address of its message, which was dialed at an address that the checks allow for such a
    message; and every message that was sent to the client is that of a datagram of its
    port forward. *)
Theorem multiplexer_isolates s : rtc mux_step new_mux s ->
  (forall id id' pf pf', forwards s !! id = Some pf -> forwards s !! id' = Some pf' -> live pf = true -> live pf' = true ->
     pf_connID pf = pf_connID pf' -> id = id') /\
  (forall c id, portForwards s !! c = Some id <-> exists pf, forwards s !! id = Some pf /\ live pf = true /\ pf_connID pf = c) /\
  (forall m id pf, running s = RCreating m -> forwards s !! id = Some pf -> live pf = true -> pf_connID pf <> connID m) /\
  (forall id m, (id, m) ∈ upstream s -> exists pf m', forwards s !! id = Some pf /\ for_message pf m /\
     for_message pf m' /\ dial_target m' = Ok (Some (dialIP pf, dialPort pf))) /\
  (forall id b, (id, b) ∈ downstream s -> exists pf datagram, forwards s !! id = Some pf /\ downstream_message pf datagram = Ok b).
Proof.
  intros [H1 H2 H3 H4 H5 H6]%reachable_mux_inv. split_and!.
  - intros id id' pf pf' E E' Hl Hl' Hc. pose proof (H2 id pf E Hl) as A. pose proof (H2 id' pf' E' Hl') as B. rewrite Hc in A. congruence.
  - intros c id. split; [intros Hc; destruct (H1 c id Hc) as (pf & ? & ? & ?); by exists pf|]. intros (pf & E & Hl & <-). by apply H2.
  - intros m id pf Hr E Hl Hc. rewrite Hr in H3. pose proof (H2 id pf E Hl). congruence.
  - intros id m Hin. eapply list.Forall_forall in H5; [|exact Hin]. destruct H5 as (pf & E & Hm). destruct (H4 id pf E) as (m' & Hm' & _ & Ht). by exists pf, m'.
  - intros id b Hin. eapply list.Forall_forall in H6; [|exact Hin]. exact H6.
Qed.

End Multiplexer.

(** ** Examples *)

(** A resolver of two queries. *)
Definition example_question (packet : bytes) : option (list ascii) :=
  if bool_decide (packet = [x01]) then Some (chars "news.example.") else if bool_decide (packet = [x02]) then Some (chars "malware.example.") else None.

Definition example_query (p : bytes) : udpgwProtocolMessage := {|
  connID := 1; preambleSize := 11; remoteIP := [x08; x08; x08; x08]; remotePort := 53; discardExistingConn := false; forwardDNS := true; packet := p |}.

Abbreviation example_step := (mux_step Subnet.example_parse (example_support (Some example_blocklist) true) ex_rules true example_question [x0a; x00; x00; x01]).

Definition example_forward (closed : bool) : udpgwPortForward := set_pf (new_forward (example_query [x01]) ([x0a; x00; x00; x01], 53)) closed PRelaying.

Lemma example_relayed : rtc example_step new_mux {|
  portForwards := {[1 := 0%nat]}; forwards := {[0%nat := example_forward false]}; running := RReading;
  upstream := [(0%nat, example_query [x01]); (0%nat, example_query [x02])]; downstream := []; channel_closed := false |}.
Proof.
  eapply rtc_l; [apply (receive_new _ _ _ _ _ _ _ (example_query [x01])); reflexivity|].
  eapply rtc_l; [apply (created _ _ _ _ _ _ _ (example_query [x01]) ([x0a; x00; x00; x01], 53) 0%nat); vm_compute; reflexivity|].
  eapply rtc_l; [eapply (written _ _ _ _ _ _ _ (example_query [x01]) 0%nat); [reflexivity|vm_compute; reflexivity|reflexivity]|].
  eapply rtc_l; [eapply (receive_same _ _ _ _ _ _ _ (example_query [x02]) 0%nat); [reflexivity|vm_compute; reflexivity|vm_compute; reflexivity|vm_compute; reflexivity]|].
  eapply rtc_l; [eapply (written _ _ _ _ _ _ _ (example_query [x02]) 0%nat); [reflexivity|vm_compute; reflexivity|reflexivity]|].
  apply rtc_refl.
Qed.

(** The domain of a query is checked for the packet that opens a port forward alone: a query
    for a domain on the blocklist is sent on the port forward of another query. *)
Lemma blocked_query_relayed : exists s m domain, rtc example_step new_mux s /\ (0%nat, m) ∈ upstream s /\
  example_question (packet m) = Some domain /\ (isDomainPermitted (example_support (Some example_blocklist) true) domain).1.1 = false.
Proof. eexists _, (example_query [x02]), _. split; [exact example_relayed|]. split; [by right; left|]. split; vm_compute; reflexivity. Qed.

Lemma multiplexer_isolates_witness : exists s, rtc example_step new_mux s /\ exists pf, forwards s !! 0%nat = Some pf /\ for_message pf (example_query [x02]).
Proof.
  eexists. split; [exact example_relayed|]. destruct (multiplexer_isolates _ _ _ _ _ _ _ example_relayed) as (_ & _ & _ & H & _).
  destruct (H 0%nat (example_query [x02])) as (pf & _ & E & Hm & _); [by right; left|]. exists pf. split; [exact E|exact Hm].
Defined.

Lemma udpgw_roundtrip_witness : exists buffer',
  writeUdpgwPreamble 11 4 7 [x08; x08; x08; x08] 53 1 (replicate (Z.to_nat udpgwProtocolMaxMessageSize) x2a) = Ok buffer' /\
  readUdpgwMessage udpgwProtocolMaxMessageSize (keepalive_bytes [[x01; x00; x00]] ++ take 12 buffer' ++ []) = Ok ({|
    connID := 7; preambleSize := 11; remoteIP := [x08; x08; x08; x08]; remotePort := 53; discardExistingConn := false; forwardDNS := true; packet := [x2a] |}, []).
Proof.
  apply (udpgw_roundtrip [[x01; x00; x00]] 4 7 [x08; x08; x08; x08] 53 [x2a] (replicate (Z.to_nat udpgwProtocolMaxMessageSize) x2a) []); [|lia|lia|lia|reflexivity|reflexivity|vm_compute; discriminate|..].
  - constructor; [|constructor]. split; [vm_compute; lia|]. split; [vm_compute; discriminate|vm_compute; reflexivity].
  - rewrite length_replicate. apply Z2Nat.id. vm_compute. discriminate.
  - rewrite drop_replicate, take_replicate. cbn [length]. change [x2a] with (replicate 1 x2a). apply (f_equal (fun n => replicate n x2a)).
    assert (1 <= Z.to_nat udpgwProtocolMaxMessageSize - (7 + 4))%nat by (unfold udpgwProtocolMaxMessageSize, udpgwProtocolMaxPreambleSize, udpgwProtocolMaxPayloadSize; lia). lia.
Defined.
