(* ===== verification/GoCrypto.v ===== *)
(** * Ciphers and digests of Go

    The stream cipher of package crypto/rc4, the digests of crypto/sha1, crypto/sha256 and
    crypto/hmac, and vendor/golang.org/x/crypto/hkdf.  The cipher is used through its
    equations; the digests through the class [Digests], which says how long they are, and of
    which [go_digests] is the instance in use. *)

From Stdlib Require Import ZArith Lia Strings.Byte Strings.String.
From stdpp Require Import base list strings numbers.
From S2P Require Import Prelude.
From S2P Require Import Salsa20.
#[local] Open Scope string_scope.
#[local] Open Scope Z_scope.
#[local] Open Scope list_scope.

(** ** RC4 *)

Record rc4 := { rc4_s : list Z; rc4_i : Z; rc4_j : Z }.

Definition rc4_swap (s : list Z) (i j : Z) : list Z :=
  <[Z.to_nat i := nth (Z.to_nat j) s 0]> (<[Z.to_nat j := nth (Z.to_nat i) s 0]> s).

Fixpoint rc4_schedule (key : bytes) (rounds : nat) (i j : Z) (s : list Z) : list Z :=
  match rounds with
  | O => s
  | S rounds =>
      let j := wrapU 8 (j + nth (Z.to_nat i) s 0 + b2z (nth (Z.to_nat (i mod Z.of_nat (length key))) key x00)) in
      rc4_schedule key rounds (i + 1) j (rc4_swap s i j)
  end.

Definition rc4_NewCipher (key : bytes) : res rc4 :=
  if ((length key <? 1) || (256 <? length key))%nat then Err "crypto/rc4: invalid key size"
  else Ok {| rc4_s := rc4_schedule key 256 0 0 (map Z.of_nat (seq 0 256)); rc4_i := 0; rc4_j := 0 |}.

(** One byte of the key stream. *)
Definition rc4_next (c : rc4) : byte * rc4 :=
  let i := wrapU 8 (rc4_i c + 1) in
  let x := nth (Z.to_nat i) (rc4_s c) 0 in
  let j := wrapU 8 (rc4_j c + x) in
  let y := nth (Z.to_nat j) (rc4_s c) 0 in
  let s := rc4_swap (rc4_s c) i j in
  (z2b (nth (Z.to_nat (wrapU 8 (x + y))) s 0), {| rc4_s := s; rc4_i := i; rc4_j := j |}).

Fixpoint rc4_XORKeyStream (c : rc4) (src : bytes) : bytes * rc4 :=
  match src with
  | [] => ([], c)
  | b :: src =>
      let '(k, c) := rc4_next c in
      let '(dst, c) := rc4_XORKeyStream c src in
      (bxor b k :: dst, c)
  end.

Lemma example_rc4 : (fun c => (rc4_XORKeyStream c (list_byte_of_string "Plaintext")).1) <$> rc4_NewCipher (list_byte_of_string "Key") =
  Ok [xbb; xf3; x16; xe8; xd9; x40; xaf; x0a; xd3].
Proof. vm_compute. reflexivity. Qed.

(** The state after [n] bytes, whatever they are. *)
Definition rc4_skip (n : nat) (c : rc4) : rc4 := Nat.iter n (fun c => (rc4_next c).2) c.

Lemma rc4_skip_S n c : rc4_skip (S n) c = rc4_skip n (rc4_next c).2.
Proof. unfold rc4_skip. rewrite Nat.iter_succ_r. done. Qed.

Lemma rc4_skip_add n m c : rc4_skip (n + m) c = rc4_skip m (rc4_skip n c).
Proof. unfold rc4_skip. by rewrite Nat.add_comm, Nat.iter_add. Qed.

Definition xored (c : rc4) (b : bytes) : bytes := (rc4_XORKeyStream c b).1.

Lemma XORKeyStream_xored b : forall c, rc4_XORKeyStream c b = (xored c b, rc4_skip (length b) c).
Proof.
  induction b as [|x b IH]; intros c; [done|]. unfold xored. cbn [rc4_XORKeyStream length].
  rewrite rc4_skip_S. destruct (rc4_next c) as [k c']. rewrite IH. done.
Qed.

Lemma xored_nil c : xored c [] = [].
Proof. done. Qed.

Lemma xored_cons c x b : xored c (x :: b) = bxor x (rc4_next c).1 :: xored (rc4_next c).2 b.
Proof. unfold xored. cbn [rc4_XORKeyStream]. destruct (rc4_next c) as [k c']. by rewrite (XORKeyStream_xored b). Qed.

Lemma xored_app a : forall c b, xored c (a ++ b) = xored c a ++ xored (rc4_skip (length a) c) b.
Proof.
  induction a as [|x a IH]; intros c b; [done|]. cbn [app length]. by rewrite !xored_cons, IH, rc4_skip_S.
Qed.

Lemma length_xored b : forall c, length (xored c b) = length b.
Proof. induction b as [|x b IH]; intros c; [done|]. rewrite xored_cons. cbn [length]. by rewrite IH. Qed.

(** Applying the stream twice gives back the bytes. *)
Lemma xored_xored b : forall c, xored c (xored c b) = b.
Proof.
  induction b as [|x b IH]; intros c; [done|]. rewrite !xored_cons, IH. f_equal.
  by rewrite bxor_comm, (bxor_comm x), bxor_cancel.
Qed.

(** The receiver undoes the stream. *)
Lemma XORKeyStream_undo c b : rc4_XORKeyStream c (xored c b) = (b, rc4_skip (length b) c).
Proof. by rewrite XORKeyStream_xored, xored_xored, length_xored. Qed.

(** ** SHA-1 and SHA-256 *)

Definition be_load (b : bytes) : Z := le_load (rev b).
Definition be_store (n : nat) (z : Z) : bytes := rev (le_store n z).
Definition lnot32 (x : Z) : Z := Z.lxor x (2 ^ 32 - 1).
Definition sum32 (l : list Z) : Z := foldr u32add 0 l.

(** The message is padded with a one bit, zeros, and its length in bits. *)
Definition sha_pad (m : bytes) : bytes :=
  m ++ [x80] ++ replicate (Z.to_nat ((55 - Z.of_nat (length m)) mod 64)) x00 ++ be_store 8 (8 * Z.of_nat (length m)).

Fixpoint sha_blocks (compress : list Z -> list Z -> list Z) (n : nat) (h : list Z) (b : bytes) : list Z :=
  match n with
  | O => h
  | S n => sha_blocks compress n (zip_with u32add h (compress h (map (fun i => be_load (slice (4 * i) 4 b)) (seq 0 16)))) (drop 64 b)
  end.

Definition sha (compress : list Z -> list Z -> list Z) (init : list Z) (m : bytes) : bytes :=
  concat (map (be_store 4) (sha_blocks compress (length (sha_pad m) / 64) init (sha_pad m))).

(** The word of round [t], from the sixteen before it. *)
Fixpoint sha_schedule (next : list Z -> Z) (n : nat) (w : list Z) : list Z :=
  match n with
  | O => []
  | S n => nth 0 w 0 :: sha_schedule next n (tail w ++ [next w])
  end.

Definition sha1_f (t : nat) (b c d : Z) : Z * Z :=
  if (t <? 20)%nat then (Z.lor (Z.land b c) (Z.land (lnot32 b) d), 0x5A827999)
  else if (t <? 40)%nat then (Z.lxor b (Z.lxor c d), 0x6ED9EBA1)
  else if (t <? 60)%nat then (Z.lor (Z.lor (Z.land b c) (Z.land b d)) (Z.land c d), 0x8F1BBCDC)
  else (Z.lxor b (Z.lxor c d), 0xCA62C1D6).

Definition sha1_round (v : list Z) (tw : nat * Z) : list Z :=
  match v with
  | [a; b; c; d; e] =>
      let '(f, k) := sha1_f tw.1 b c d in
      [sum32 [rotl32 a 5; f; e; k; tw.2]; a; rotl32 b 30; c; d]
  | _ => v
  end.

Definition sha1_compress (h w : list Z) : list Z :=
  let next w := rotl32 (Z.lxor (Z.lxor (nth 13 w 0) (nth 8 w 0)) (Z.lxor (nth 2 w 0) (nth 0 w 0))) 1 in
  foldl sha1_round h (zip (seq 0 80) (sha_schedule next 80 w)).

Definition sha1_Sum : bytes -> bytes := sha sha1_compress [0x67452301; 0xEFCDAB89; 0x98BADCFE; 0x10325476; 0xC3D2E1F0].

Definition rotr32 (u r : Z) : Z := rotl32 u (32 - r).

(** The fractional parts of the cube roots of the first 64 primes. *)
Definition sha256_k : list Z := [
  1116352408; 1899447441; 3049323471; 3921009573; 961987163; 1508970993; 2453635748;
  2870763221; 3624381080; 310598401; 607225278; 1426881987; 1925078388; 2162078206;
  2614888103; 3248222580; 3835390401; 4022224774; 264347078; 604807628; 770255983;
  1249150122; 1555081692; 1996064986; 2554220882; 2821834349; 2952996808; 3210313671;
  3336571891; 3584528711; 113926993; 338241895; 666307205; 773529912; 1294757372;
  1396182291; 1695183700; 1986661051; 2177026350; 2456956037; 2730485921; 2820302411;
  3259730800; 3345764771; 3516065817; 3600352804; 4094571909; 275423344; 430227734;
  506948616; 659060556; 883997877; 958139571; 1322822218; 1537002063; 1747873779;
  1955562222; 2024104815; 2227730452; 2361852424; 2428436474; 2756734187; 3204031479;
  3329325298].

Definition sha256_round (v : list Z) (kw : Z * Z) : list Z :=
  match v with
  | [a; b; c; d; e; f; g; h] =>
      let s1 := Z.lxor (rotr32 e 6) (Z.lxor (rotr32 e 11) (rotr32 e 25)) in
      let ch := Z.lxor (Z.land e f) (Z.land (lnot32 e) g) in
      let t1 := sum32 [h; s1; ch; kw.1; kw.2] in
      let s0 := Z.lxor (rotr32 a 2) (Z.lxor (rotr32 a 13) (rotr32 a 22)) in
      let maj := Z.lxor (Z.land a b) (Z.lxor (Z.land a c) (Z.land b c)) in
      [u32add t1 (u32add s0 maj); a; b; c; u32add d t1; e; f; g]
  | _ => v
  end.

Definition sha256_compress (h w : list Z) : list Z :=
  let sigma x a b c := Z.lxor (rotr32 x a) (Z.lxor (rotr32 x b) (Z.shiftr x c)) in
  let next w := sum32 [sigma (nth 14 w 0) 17 19 10; nth 9 w 0; sigma (nth 1 w 0) 7 18 3; nth 0 w 0] in
  foldl sha256_round h (zip sha256_k (sha_schedule next 64 w)).

Definition sha256_Sum : bytes -> bytes := sha sha256_compress
  [1779033703; 3144134277; 1013904242; 2773480762; 1359893119; 2600822924; 528734635; 1541459225].

Lemma example_sha1 : sha1_Sum (list_byte_of_string "abc") =
  [xa9; x99; x3e; x36; x47; x06; x81; x6a; xba; x3e; x25; x71; x78; x50; xc2; x6c; x9c; xd0; xd8; x9d].
Proof. vm_compute. reflexivity. Qed.

Lemma example_sha256 : sha256_Sum (list_byte_of_string "abc") =
  [xba; x78; x16; xbf; x8f; x01; xcf; xea; x41; x41; x40; xde; x5d; xae; x22; x23;
   xb0; x03; x61; xa3; x96; x17; x7a; x9c; xb4; x10; xff; x61; xf2; x00; x15; xad].
Proof. vm_compute. reflexivity. Qed.

Lemma length_sha_blocks compress n : (forall h w, length (compress h w) = length h) ->
  forall h b, length (sha_blocks compress n h b) = length h.
Proof.
  intros Hc. induction n as [|n IH]; intros h b; [done|]. cbn [sha_blocks]. rewrite IH, length_zip_with, Hc. lia.
Qed.

Lemma length_sha compress init m : (forall h w, length (compress h w) = length h) ->
  length (sha compress init m) = (4 * length init)%nat.
Proof.
  intros Hc. unfold sha. rewrite <- (length_sha_blocks compress (length (sha_pad m) / 64) Hc init (sha_pad m)).
  generalize (sha_blocks compress (length (sha_pad m) / 64) init (sha_pad m)). intros l.
  induction l as [|x l IH]; [done|]. cbn [map concat length]. rewrite length_app, IH.
  unfold be_store. rewrite length_rev, length_le_store. lia.
Qed.

Lemma length_fold_rounds {A} (round : list Z -> A -> list Z) l : (forall v x, length (round v x) = length v) ->
  forall h, length (foldl round h l) = length h.
Proof. intros Hr. induction l as [|x l IH]; intros h; [done|]. cbn [foldl]. by rewrite IH, Hr. Qed.

Lemma length_sha1 m : length (sha1_Sum m) = 20%nat.
Proof.
  unfold sha1_Sum. rewrite length_sha; [done|]. intros h w. unfold sha1_compress. cbv zeta. rewrite length_fold_rounds; [done|]. intros v x.
  unfold sha1_round. do 5 (destruct v as [|? v]; [done|]). destruct v; [|done]. by destruct (sha1_f x.1 _ _ _).
Qed.

Lemma length_sha256 m : length (sha256_Sum m) = 32%nat.
Proof.
  unfold sha256_Sum. rewrite length_sha; [done|]. intros h w. unfold sha256_compress. cbv zeta. rewrite length_fold_rounds; [done|]. intros v x.
  unfold sha256_round. do 8 (destruct v as [|? v]; [done|]). by destruct v.
Qed.

(** ** HMAC and HKDF *)

Definition hmac_Sum (key m : bytes) : bytes :=
  let key := if (64 <? length key)%nat then sha256_Sum key else key in
  let key := key ++ replicate (64 - length key) x00 in
  sha256_Sum (map (bxor x5c) key ++ sha256_Sum (map (bxor x36) key ++ m)).

Lemma length_hmac key m : length (hmac_Sum key m) = 32%nat.
Proof. apply length_sha256. Qed.

(** The blocks that the reader of HKDF-Expand makes, [n] of them after the block [prev]. *)
Fixpoint hkdf_expand (prk info prev : bytes) (counter : Z) (n : nat) : bytes :=
  match n with
  | O => []
  | S n => let block := hmac_Sum prk (prev ++ info ++ [z2b counter]) in block ++ hkdf_expand prk info block (counter + 1) n
  end.

(** [io.ReadFull(hkdf.New(sha256.New, secret, salt, info), key)] for a key of [n] bytes, at
    most 255 blocks; a nil salt is 32 zeros. *)
Definition hkdf_Read (secret salt info : bytes) (n : nat) : bytes :=
  let salt := if bool_decide (salt = []) then replicate 32 x00 else salt in
  take n (hkdf_expand (hmac_Sum salt secret) info [] 1 ((n + 31) / 32)).

Lemma length_hkdf_expand prk info n : forall prev counter, length (hkdf_expand prk info prev counter n) = (32 * n)%nat.
Proof.
  induction n as [|n IH]; intros prev counter; [done|]. cbn [hkdf_expand]. rewrite length_app, IH, length_hmac. lia.
Qed.

(** What the users of the digests rely on. *)
Class Digests := {
  sha1 : bytes -> bytes;
  hmac_sha256 : bytes -> bytes -> bytes;
  hkdf_sha256 : bytes -> bytes -> bytes -> nat -> bytes;
  sha1_length m : length (sha1 m) = 20%nat;
  hmac_length key m : length (hmac_sha256 key m) = 32%nat;
  hkdf_length secret salt info n : length (hkdf_sha256 secret salt info n) = n
}.

#[export, refine] Instance go_digests : Digests := {|
  sha1 := sha1_Sum; hmac_sha256 := hmac_Sum; hkdf_sha256 := hkdf_Read
|}.
Proof.
  - apply length_sha1.
  - apply length_hmac.
  - intros secret salt info n. unfold hkdf_Read. rewrite length_take, length_hkdf_expand.
    pose proof (Nat.div_mod_eq (n + 31) 32). pose proof (Nat.mod_upper_bound (n + 31) 32 ltac:(lia)). lia.
Defined.

(** The first test of RFC 5869. *)
Lemma example_hkdf :
  hkdf_Read (replicate 22 x0b) [x00; x01; x02; x03; x04; x05; x06; x07; x08; x09; x0a; x0b; x0c]
    [xf0; xf1; xf2; xf3; xf4; xf5; xf6; xf7; xf8; xf9] 12 = [x3c; xb2; x5f; x25; xfa; xac; xd5; x7a; x90; x43; x4f; x64].
Proof. vm_compute. reflexivity. Qed.
