(* ===== verification/ChaCha20.v ===== *)
(** * The ChaCha20 stream cipher

    Models src/psiphon/common/crypto/Yawning/chacha20: the block function of
    chacha20_ref_go19.go and the stream of chacha20.go, which generates whole blocks into
    its destination and keeps the rest of a last block in a buffer.

    The stream is shown not to depend on how it is read: every read returns the next bytes
    of one sequence, which is defined by the blocks of the state; and in the IETF mode the
    block counter never runs into the nonce. *)

From Stdlib Require Import ZArith Lia Strings.Byte.
From stdpp Require Import base list sets strings numbers.
From S2P Require Import Prelude.
From S2P Require Import Salsa20.
#[local] Open Scope Z_scope.

Definition KeySize : nat := 32.
Definition NonceSize : nat := 8.
Definition INonceSize : nat := 12.
Definition XNonceSize : nat := 24.
Definition HNonceSize : nat := 16.
Definition BlockSize : nat := 64.
Definition sigma0 : Z := 0x61707865.
Definition sigma1 : Z := 0x3320646e.
Definition sigma2 : Z := 0x79622d32.
Definition sigma3 : Z := 0x6b206574.

(** ** Blocks *)

(** [xa += xb; xd ^= xa; xd = bits.RotateLeft32(xd, r)] *)
Definition qr_step (x : list Z) (op : nat * nat * nat * Z) : list Z :=
  let '(a, b, d, r) := op in
  let x := <[a := u32add (nth a x 0) (nth b x 0)]> x in
  <[d := rotl32 (Z.lxor (nth d x 0) (nth a x 0)) r]> x.

Definition quarterround (x : list Z) (q : nat * nat * nat * nat) : list Z :=
  let '(a, b, c, d) := q in foldl qr_step x [(a, b, d, 16); (c, d, b, 12); (a, b, d, 8); (c, d, b, 7)].

Definition chacha_double_round (x : list Z) : list Z :=
  foldl quarterround x
    [(0, 4, 8, 12); (1, 5, 9, 13); (2, 6, 10, 14); (3, 7, 11, 15);
     (0, 5, 10, 15); (1, 6, 11, 12); (2, 7, 8, 13); (3, 4, 9, 14)]%nat.

(** [for i := chachaRounds; i > 0; i -= 2] *)
Definition chacha_rounds (x : list Z) : list Z := Nat.iter 10 chacha_double_round x.

(** The words a block starts from: the constants, and not the first four of the state. *)
Definition block_words (x : list Z) : list Z := [sigma0; sigma1; sigma2; sigma3] ++ drop 4 x.

Definition block (x : list Z) : bytes :=
  let j := block_words x in
  concat (zip_with (fun x j => le_store 4 (u32add x j)) (chacha_rounds j) j).

(** The 64-bit counter in words 12 and 13. *)
Definition advance (x : list Z) : list Z :=
  let ctr := wrapU 64 (Z.lor (Z.shiftl (nth 13 x 0) 32) (nth 12 x 0) + 1) in
  <[13%nat := Z.shiftr ctr 32]> (<[12%nat := wrapU 32 ctr]> x).

(** The loop over the blocks: their key stream and the state after them. *)
Fixpoint blocks_loop (x : list Z) (nrBlocks : nat) : bytes * list Z :=
  match nrBlocks with
  | O => ([], x)
  | S n => let '(out, x') := blocks_loop (advance x) n in (block x ++ out, x')
  end.

(** With an input, the key stream is xored into it. *)
Definition blocksRef (x : list Z) (input : option bytes) (nrBlocks : nat) (isIetf : bool) : res (bytes * list Z) :=
  if isIetf && (2 ^ 32 - 1 <? nth 12 x 0 + Z.of_nat nrBlocks)
  then Panic "chacha20: Exceeded keystream per nonce limit"
  else
    let '(out, x') := blocks_loop x nrBlocks in
    Ok (match input with Some b => xor_bytes b out | None => out end, x').

(** [HChaCha], which gives the first and the last row of the rounds. *)
Definition hChaChaRef (x : list Z) : bytes :=
  let y := chacha_rounds ([sigma0; sigma1; sigma2; sigma3] ++ take 12 x) in
  concat (map (fun i => le_store 4 (nth i y 0)) [0; 1; 2; 3; 12; 13; 14; 15]%nat).

Definition words (n : nat) (b : bytes) : list Z := map (fun i => word b (4 * i)) (seq 0 n).

Definition HChaCha (key nonce : bytes) : bytes := hChaChaRef (words 8 key ++ words 4 nonce ++ replicate 4 0).

(** ** The cipher *)

Record Cipher := { state : list Z; buf : bytes; off : nat; ietf : bool }.

Definition zeroCipher : Cipher := {| state := replicate 16 0; buf := replicate 64 x00; off := 0; ietf := false |}.

Definition Cipher_Reset (c : Cipher) : Cipher :=
  {| state := replicate 16 0; buf := replicate 64 x00; off := off c; ietf := ietf c |}.

Definition ReKey (c : Cipher) (key nonce : bytes) : res Cipher :=
  if negb (length key =? KeySize)%nat then Err "key length must be KeySize bytes"
  else
    '(key, nonce) ←
      (if (length nonce =? NonceSize)%nat || (length nonce =? INonceSize)%nat then Ok (key, nonce)
       else if (length nonce =? XNonceSize)%nat then Ok (HChaCha key (take 16 nonce), drop 16 nonce)
       else Err "nonce length must be NonceSize/INonceSize/XNonceSize bytes");
    let c := Cipher_Reset c in
    let isIetf := (length nonce =? INonceSize)%nat in
    Ok {| state := [sigma0; sigma1; sigma2; sigma3] ++ words 8 key ++
                   (if isIetf then 0 :: words 3 nonce else 0 :: 0 :: words 2 nonce);
          buf := buf c; off := BlockSize; ietf := isIetf |}.

Definition Cipher_Seek (c : Cipher) (blockCounter : Z) : res Cipher :=
  if ietf c then
    if 2 ^ 32 - 1 <? blockCounter then Err "block counter is invalid (out of range)"
    else Ok {| state := <[12%nat := blockCounter]> (state c); buf := buf c; off := BlockSize; ietf := ietf c |}
  else
    Ok {| state := <[13%nat := Z.shiftr blockCounter 32]> (<[12%nat := wrapU 32 blockCounter]> (state c));
          buf := buf c; off := BlockSize; ietf := ietf c |}.

Definition NewCipher (key nonce : bytes) : res Cipher := ReKey zeroCipher key nonce.

(** The two stream functions differ in the source that is xored into the key stream. *)
Definition emit (src : option bytes) (ks : bytes) : bytes :=
  match src with Some b => xor_bytes b ks | None => ks end.

(** When the buffer is used up: the whole blocks of the rest go to the destination, and
    unless that is all, one block goes to the buffer. *)
Definition refill (c : Cipher) (src : option bytes) (remaining : nat) : res (bytes * nat * Cipher) :=
  if decide (off c = BlockSize) then
    let nrBlocks := (remaining / BlockSize)%nat in
    '(direct, x) ← (if decide (0 < nrBlocks)%nat then blocksRef (state c) src nrBlocks (ietf c) else Ok ([], state c));
    let remaining := (remaining - nrBlocks * BlockSize)%nat in
    if decide (remaining = 0)%nat then Ok (direct, 0%nat, {| state := x; buf := buf c; off := off c; ietf := ietf c |})
    else
      '(b, x) ← blocksRef x None 1 (ietf c);
      Ok (direct, remaining, {| state := x; buf := b; off := 0; ietf := ietf c |})
  else Ok ([], remaining, c).

(** Partial blocks come from the buffer. *)
Fixpoint stream_loop (fuel : nat) (c : Cipher) (src : option bytes) (remaining : nat) : res (bytes * Cipher) :=
  match fuel with
  | O => NoFuel
  | S fuel =>
      if decide (remaining = 0)%nat then Ok ([], c)
      else
        '(direct, remaining, c) ← refill c src remaining;
        let src := option_map (drop (length direct)) src in
        let toCopy := Nat.min (BlockSize - off c) remaining in
        let piece := emit (option_map (take toCopy) src) (slice (off c) toCopy (buf c)) in
        '(out, c) ← stream_loop fuel {| state := state c; buf := buf c; off := off c + toCopy; ietf := ietf c |}
                      (option_map (drop toCopy) src) (remaining - toCopy);
        Ok (direct ++ piece ++ out, c)
  end.

(** Each iteration uses at least one byte. *)
Definition KeyStream (c : Cipher) (n : nat) : res (bytes * Cipher) := stream_loop (S n) c None n.

Definition Cipher_XORKeyStream (c : Cipher) (src : bytes) : res (bytes * Cipher) :=
  stream_loop (S (length src)) c (Some src) (length src).

Arguments block : simpl never.
Arguments chacha_rounds : simpl never.

(** The block of section 2.3.2 of RFC 8439. *)
Example rfc8439_block :
  let key := map (fun n => z2b (Z.of_nat n)) (seq 0 32) in
  let nonce := [x00; x00; x00; x09; x00; x00; x00; x4a; x00; x00; x00; x00] in
  (c ← NewCipher key nonce; c ← Cipher_Seek c 1; '(out, _) ← KeyStream c 16; Ok out) =
  Ok [x10; xf1; xe7; xe4; xd1; x3b; x59; x15; x50; x0f; xdd; x1f; xa3; x20; x71; xc4].
Proof. vm_compute. reflexivity. Qed.

(** ** Blocks and counters *)

Lemma length_qr_step x op : length (qr_step x op) = length x.
Proof. destruct op as [[[a b] d] r]. cbn. by rewrite !length_insert. Qed.

Lemma length_quarterround x q : length (quarterround x q) = length x.
Proof. destruct q as [[[a b] c] d]. unfold quarterround. cbn [foldl]. by rewrite !length_qr_step. Qed.

Lemma length_double_round x : length (chacha_double_round x) = length x.
Proof. unfold chacha_double_round. cbn [foldl]. by rewrite !length_quarterround. Qed.

Lemma length_chacha_rounds x : length (chacha_rounds x) = length x.
Proof.
  unfold chacha_rounds. generalize 10%nat as n. induction n as [|n IH]; [done|]. rewrite Nat.iter_succ.
  by rewrite length_double_round.
Qed.

Lemma length_block x : length x = 16%nat -> length (block x) = 64%nat.
Proof.
  intros Hx. unfold block, block_words. rewrite (length_concat_const 4).
  - rewrite length_zip_with, length_chacha_rounds, length_app, length_drop, Hx. done.
  - intros l (i & Hl)%list_elem_of_lookup.
    apply lookup_zip_with_Some in Hl as (y & z & -> & _). apply length_le_store.
Qed.

Lemma length_advance x : length (advance x) = length x.
Proof. unfold advance. by rewrite !length_insert. Qed.

Lemma length_iter_advance k x : length (Nat.iter k advance x) = length x.
Proof. induction k as [|k IH]; [done|]. by rewrite Nat.iter_succ, length_advance. Qed.

(** The counter counts, and leaves word 13 alone while it fits into word 12. *)
Lemma advance_counter x :
  length x = 16%nat -> 0 <= nth 12 x 0 < 2 ^ 32 - 1 -> 0 <= nth 13 x 0 < 2 ^ 32 ->
  nth 12 (advance x) 0 = nth 12 x 0 + 1 /\ nth 13 (advance x) 0 = nth 13 x 0.
Proof.
  intros Hl H12 H13. unfold advance. rewrite Z.lor_comm, Z.shiftl_mul_pow2, Z.mul_comm, lor_disjoint by lia.
  set (a := nth 12 x 0) in *. set (b := nth 13 x 0) in *.
  assert (wrapU 64 (a + 2 ^ 32 * b + 1) = (a + 1) + b * 2 ^ 32) as -> by (rewrite wrapU_small; lia).
  rewrite !nth_lookup, list_lookup_insert_ne, list_lookup_insert_eq, list_lookup_insert_eq by (rewrite ?length_insert; lia).
  cbn [default from_option id]. unfold wrapU. split.
  - rewrite Z_mod_plus_full, Z.mod_small; lia.
  - rewrite Z.shiftr_div_pow2, Z.div_add, Z.div_small; lia.
Qed.

Lemma iter_advance_counter k x :
  length x = 16%nat -> 0 <= nth 12 x 0 -> nth 12 x 0 + Z.of_nat k <= 2 ^ 32 - 1 -> 0 <= nth 13 x 0 < 2 ^ 32 ->
  nth 12 (Nat.iter k advance x) 0 = nth 12 x 0 + Z.of_nat k /\ nth 13 (Nat.iter k advance x) 0 = nth 13 x 0.
Proof.
  intros Hl H12 Hk H13. induction k as [|k IH]; [cbn; lia|]. rewrite Nat.iter_succ. destruct IH as [E1 E2]; [lia|].
  destruct (advance_counter (Nat.iter k advance x)) as [F1 F2]; [by rewrite length_iter_advance|lia|lia|]. lia.
Qed.

Lemma blocks_loop_spec x n :
  blocks_loop x n = (concat (map (fun k => block (Nat.iter k advance x)) (seq 0 n)), Nat.iter n advance x).
Proof.
  revert x. induction n as [|n IH]; intros x; [done|]. cbn [blocks_loop]. rewrite IH.
  cbn [seq map concat]. rewrite <- seq_shift, map_map. f_equal; [|by rewrite Nat.iter_succ_r].
  do 2 f_equal. apply map_ext. intros k. by rewrite Nat.iter_succ_r.
Qed.

(** ** The stream *)

#[local] Opaque block advance.

(** Byte [j] of the stream of the state [x]. *)
Definition stream_byte (x : list Z) (j : nat) : byte := nth (j mod 64) (block (Nat.iter (j / 64) advance x)) x00.

Definition stream (x : list Z) (p n : nat) : bytes := map (stream_byte x) (seq p n).

Lemma stream_app x p n m : stream x p (n + m) = stream x p n ++ stream x (p + n) m.
Proof. unfold stream. by rewrite seq_app, map_app. Qed.

Lemma length_stream x p n : length (stream x p n) = n.
Proof. unfold stream. by rewrite length_map, length_seq. Qed.

Lemma stream_in_block x k o n :
  length x = 16%nat -> (o + n <= 64)%nat -> stream x (64 * k + o) n = slice o n (block (Nat.iter k advance x)).
Proof.
  intros Hx Ho. unfold stream, slice. apply list_eq_same_length with n; [|by rewrite length_map, length_seq|].
  { rewrite length_take, length_drop, length_block; [lia|]. by rewrite length_iter_advance. }
  intros i y z Hi Hy Hz. rewrite list_lookup_fmap in Hy. rewrite lookup_seq_lt in Hy by done.
  apply (f_equal (default x00)) in Hy. cbn [default from_option id fmap option_fmap option_map] in Hy. subst y.
  rewrite lookup_take_lt, lookup_drop in Hz by done. unfold stream_byte.
  replace (64 * k + o + i)%nat with ((o + i) + k * 64)%nat by lia.
  rewrite Nat.Div0.mod_add, Nat.div_add, Nat.mod_small, Nat.div_small by lia. cbn [Nat.add].
  by rewrite nth_lookup, Hz.
Qed.

Lemma stream_blocks x k n :
  length x = 16%nat -> concat (map (fun i => block (Nat.iter i advance (Nat.iter k advance x))) (seq 0 n)) = stream x (64 * k) (64 * n).
Proof.
  intros Hx. induction n as [|n IH]; [done|].
  rewrite seq_S, map_app, concat_app, IH. cbn [map concat Nat.add]. rewrite app_nil_r.
  replace (64 * S n)%nat with (64 * n + 64)%nat by lia. rewrite stream_app. f_equal.
  rewrite <- Nat.iter_add. replace (64 * k + 64 * n)%nat with (64 * (n + k) + 0)%nat by lia.
  rewrite stream_in_block by (done || lia). unfold slice. rewrite drop_0. symmetry. apply take_ge.
  rewrite length_block; [lia|]. by rewrite length_iter_advance.
Qed.

(** The source has as many bytes as are wanted. *)
Definition src_ok (src : option bytes) (n : nat) : Prop := forall b, src = Some b -> length b = n.

Lemma length_emit src ks n : src_ok src n -> (length ks <= n)%nat -> length (emit src ks) = length ks.
Proof.
  intros Hs Hl. destruct src as [b|]; [|done]. cbn. unfold xor_bytes. rewrite length_zip_with, (Hs b eq_refl). lia.
Qed.

Lemma emit_app src k1 k2 :
  emit src (k1 ++ k2) = emit src k1 ++ emit (option_map (drop (length k1)) src) k2.
Proof.
  destruct src as [b|]; [|done]. cbn. unfold xor_bytes. rewrite zip_with_app_r. f_equal. apply zip_with_take_l.
Qed.

Lemma emit_take src k n : (length k <= n)%nat -> emit (option_map (take n) src) k = emit src k.
Proof. intros Hn. destruct src as [b|]; [|done]. cbn. unfold xor_bytes. apply zip_with_take_l'. lia. Qed.

Lemma src_ok_drop src n m : src_ok src n -> src_ok (option_map (drop m) src) (n - m).
Proof. intros Hs b. destruct src as [b'|]; [|done]. intros [= <-]. by rewrite length_drop, (Hs b' eq_refl). Qed.

(** The cipher is at byte [p] of the stream of [x]: it has generated [k] blocks, the last of
    which is in the buffer unless it is used up. *)
Definition at_pos (x : list Z) (c : Cipher) (p : nat) : Prop :=
  length x = 16%nat /\
  exists k, state c = Nat.iter k advance x /\ (off c <= 64)%nat /\ (p + 64 = 64 * k + off c)%nat /\
    ((off c < 64)%nat -> exists k', k = S k' /\ buf c = block (Nat.iter k' advance x)).

(** The blocks up to byte [q] fit into the counter of the IETF mode. *)
Definition fits (x : list Z) (isIetf : bool) (q : nat) : Prop :=
  isIetf = true -> 0 <= nth 12 x 0 /\ nth 12 x 0 + Z.of_nat ((q + 63) / 64) <= 2 ^ 32 - 1 /\ 0 <= nth 13 x 0 < 2 ^ 32.

Lemma blocksRef_at x k src n isIetf q :
  length x = 16%nat -> fits x isIetf q -> (k + n <= (q + 63) / 64)%nat ->
  blocksRef (Nat.iter k advance x) src n isIetf = Ok (emit src (stream x (64 * k) (64 * n)), Nat.iter (k + n) advance x).
Proof.
  intros Hx Hf Hk. unfold blocksRef.
  assert (isIetf && (2 ^ 32 - 1 <? nth 12 (Nat.iter k advance x) 0 + Z.of_nat n) = false) as ->.
  { destruct isIetf; [|done]. destruct (Hf eq_refl) as (H1 & H2 & H3).
    destruct (iter_advance_counter k x) as [-> _]; [done|done|lia|done|]. apply Z.ltb_ge. lia. }
  rewrite blocks_loop_spec, stream_blocks by done. by rewrite <- Nat.iter_add, (Nat.add_comm n k).
Qed.

Lemma refill_spec x c p src remaining :
  at_pos x c p -> fits x (ietf c) (p + remaining) -> src_ok src remaining -> (0 < remaining)%nat ->
  exists d c', refill c src remaining = Ok (emit src (stream x p d), (remaining - d)%nat, c') /\ (d <= remaining)%nat /\
    at_pos x c' (p + d) /\ ietf c' = ietf c /\ ((d < remaining)%nat -> (off c' < 64)%nat).
Proof.
  intros (Hx & k & Hst & Ho & Hp & Hb) Hf Hs Hr. unfold refill, BlockSize. case_decide as E.
  2: { exists 0%nat, c. rewrite Nat.sub_0_r, Nat.add_0_r. split_and!; [|lia|..|done|lia].
       - f_equal. f_equal. by destruct src as [[]|].
       - split; [done|]. exists k. auto. }
  set (nb := (remaining / 64)%nat). assert (p = 64 * k)%nat as -> by lia.
  pose proof (Nat.div_mod_eq remaining 64) as Hdm. pose proof (Nat.mod_upper_bound remaining 64 ltac:(lia)) as Hmod. fold nb in Hdm.
  assert ((if decide (0 < nb)%nat then blocksRef (state c) src nb (ietf c) else Ok ([], state c)) =
    Ok (emit src (stream x (64 * k) (64 * nb)), Nat.iter (k + nb) advance x)) as ->.
  { rewrite Hst. case_decide as Hnb.
    - apply (blocksRef_at _ _ _ _ _ _ Hx Hf). apply Nat.div_le_lower_bound; lia.
    - replace nb with 0%nat by lia. rewrite Nat.add_0_r, Nat.mul_0_r. f_equal. f_equal. by destruct src as [[]|]. }
  cbn [mbind res_mbind]. case_decide as Hz.
  - exists remaining, {| state := Nat.iter (k + nb) advance x; buf := buf c; off := off c; ietf := ietf c |}.
    rewrite Nat.sub_diag. split_and!; [by replace (64 * nb)%nat with remaining by lia|lia| |done|lia]. split; [done|].
    exists (k + nb)%nat. cbn [state off buf]. split_and!; [done|lia|lia|lia].
  - rewrite (blocksRef_at x (k + nb) None 1 _ _ Hx Hf) by (apply Nat.div_le_lower_bound; lia). cbn [mbind res_mbind].
    eexists (64 * nb)%nat, _. split_and!; [by rewrite (Nat.mul_comm nb 64)|lia| |done|cbn; lia]. split; [done|].
    exists (S (k + nb)). cbn [state off buf]. split_and!; [by rewrite Nat.add_1_r|lia|lia|].
    intros _. exists (k + nb)%nat. split; [done|]. cbn [emit].
    replace (64 * (k + nb))%nat with (64 * (k + nb) + 0)%nat by lia. rewrite Nat.mul_1_r, stream_in_block by (done || lia).
    unfold slice. rewrite drop_0. apply take_ge. rewrite length_block; [lia|]. by rewrite length_iter_advance.
Qed.

Lemma stream_loop_spec fuel x c p src n :
  at_pos x c p -> fits x (ietf c) (p + n) -> src_ok src n -> (n < fuel)%nat ->
  exists c', stream_loop fuel c src n = Ok (emit src (stream x p n), c') /\ at_pos x c' (p + n) /\ ietf c' = ietf c.
Proof.
  revert c p src n. induction fuel as [|fuel IH]; intros c p src n Hat Hf Hs Hn; [lia|]. cbn [stream_loop].
  case_decide as Hz.
  { subst. exists c. rewrite Nat.add_0_r. split_and!; [|done|done]. f_equal. f_equal. by destruct src as [[]|]. }
  destruct (refill_spec x c p src n Hat Hf Hs ltac:(lia)) as (d & c1 & -> & Hd & Hat1 & Hi & Hoff). cbn [mbind res_mbind].
  pose proof Hat1 as (Hx & k & Hst & Ho & Hp & Hb).
  assert (length (emit src (stream x p d)) = d) as -> by (rewrite (length_emit _ _ n Hs); rewrite length_stream; lia).
  unfold BlockSize. set (t := Nat.min (64 - off c1) (n - d)).
  assert (emit (option_map (take t) (option_map (drop d) src)) (slice (off c1) t (buf c1)) =
    emit (option_map (drop d) src) (stream x (p + d) t)) as ->.
  { destruct (decide (d = n)) as [->|Hne].
    - unfold t. rewrite Nat.sub_diag, Nat.min_0_r. destruct src as [b|]; [|done]. cbn. by destruct (drop n b).
    - destruct (Hb (Hoff ltac:(lia))) as (k' & -> & ->).
      replace (p + d)%nat with (64 * k' + off c1)%nat by lia. rewrite stream_in_block by (done || lia).
      apply emit_take. unfold slice. rewrite length_take. lia. }
  destruct (IH {| state := state c1; buf := buf c1; off := off c1 + t; ietf := ietf c1 |} (p + d + t)%nat
    (option_map (drop t) (option_map (drop d) src)) (n - d - t)%nat) as (c2 & -> & Hat2 & Hi2).
  - split; [done|]. exists k. cbn [state off buf]. split_and!; [done|lia|lia|]. intros ?. apply Hb. lia.
  - cbn. rewrite Hi. replace (p + d + t + (n - d - t))%nat with (p + n)%nat by lia. done.
  - by apply src_ok_drop, src_ok_drop.
  - destruct (decide (d = n)); [lia|]. specialize (Hoff ltac:(lia)). lia.
  - cbn [mbind res_mbind]. exists c2. split_and!.
    + assert (stream x p n = stream x p d ++ stream x (p + d) t ++ stream x (p + d + t) (n - d - t)) as ->.
      { rewrite <- !stream_app. f_equal. lia. }
      by rewrite !emit_app, !length_stream.
    + replace (p + n)%nat with (p + d + t + (n - d - t))%nat by lia. done.
    + cbn in Hi2. congruence.
Qed.

(** ** New ciphers *)

Lemma length_words n b : length (words n b) = n.
Proof. unfold words. by rewrite length_map, length_seq. Qed.

Lemma word_range b o : 0 <= word b o < 2 ^ 32.
Proof.
  unfold word, slice. pose proof (le_load_range (take 4 (drop o b))) as H. split; [lia|].
  eapply Z.lt_le_trans; [apply H|]. change (2 ^ 32) with (256 ^ 4). apply Z.pow_le_mono_r; [lia|].
  rewrite length_take. lia.
Qed.

(** A new cipher is at the start of its stream; in the IETF mode its counter is zero. *)
Lemma NewCipher_pos key nonce c :
  NewCipher key nonce = Ok c ->
  at_pos (state c) c 0 /\ (ietf c = true -> nth 12 (state c) 0 = 0 /\ 0 <= nth 13 (state c) 0 < 2 ^ 32).
Proof.
  unfold NewCipher, ReKey. destruct (negb _); [done|]. intros ([key' nonce'] & Hn & H)%res_bind_ok.
  injection H as <-. cbn [state off buf ietf].
  set (tl := if (length nonce' =? INonceSize)%nat then _ else _).
  assert (length tl = 4%nat) as Htl by (unfold tl; by destruct (length nonce' =? INonceSize)%nat).
  split.
  - split; [cbn [app length]; by rewrite Htl|]. exists 0%nat. unfold BlockSize. split_and!; [done|cbn; lia..].
  - intros Hi. unfold tl. rewrite Hi. cbn [nth app]. split; [done|apply word_range].
Qed.

Lemma new_fits key nonce c q :
  NewCipher key nonce = Ok c -> Z.of_nat q <= 2 ^ 38 - 64 -> fits (state c) (ietf c) q.
Proof.
  intros H Hq Hi. destruct (NewCipher_pos _ _ _ H) as [_ H0]. destruct (H0 Hi) as [-> ?]. split_and!; [lia| |lia..].
  rewrite Nat2Z.inj_div. change (Z.of_nat 64) with 64. pose proof (Z.div_lt_upper_bound (Z.of_nat (q + 63)) 64 (2 ^ 32) ltac:(lia) ltac:(lia)). lia.
Qed.

(** ** Reading in pieces *)

(** Reads of the given lengths, one after the other, from a key stream, and the
    encryption of the given pieces. *)
Fixpoint keystream_reads (c : Cipher) (ns : list nat) : res (list bytes) :=
  match ns with
  | [] => Ok []
  | n :: ns => '(b, c) ← KeyStream c n; bs ← keystream_reads c ns; Ok (b :: bs)
  end.

Fixpoint xor_pieces (c : Cipher) (srcs : list bytes) : res (list bytes) :=
  match srcs with
  | [] => Ok []
  | src :: srcs => '(b, c) ← Cipher_XORKeyStream c src; bs ← xor_pieces c srcs; Ok (b :: bs)
  end.

Lemma fits_le x i q q' : (q' <= q)%nat -> fits x i q -> fits x i q'.
Proof.
  intros Hq Hf Hi. destruct (Hf Hi) as (? & ? & ?). split_and!; [done| |lia..].
  assert ((q' + 63) / 64 <= (q + 63) / 64)%nat by (apply Nat.Div0.div_le_mono; lia). lia.
Qed.

Lemma keystream_reads_spec x c p ns :
  at_pos x c p -> fits x (ietf c) (p + sum_list ns) ->
  exists bs, keystream_reads c ns = Ok bs /\ concat bs = stream x p (sum_list ns) /\ map length bs = ns.
Proof.
  revert c p. induction ns as [|n ns IH]; intros c p Hat Hf; [by exists []|]. cbn [keystream_reads].
  assert (sum_list (n :: ns) = n + sum_list ns)%nat as E by done. rewrite E in *. unfold KeyStream.
  destruct (stream_loop_spec (S n) x c p None n Hat) as (c' & -> & Hat' & Hi'); [by eapply fits_le; [|exact Hf]; lia|done|lia|].
  cbn [mbind res_mbind]. destruct (IH c' (p + n)%nat Hat') as (bs & -> & Hc & Hl); [rewrite Hi'; by rewrite <- Nat.add_assoc|].
  cbn. eexists. split_and!; [done|cbn; by rewrite Hc, stream_app|cbn; by rewrite length_stream, Hl].
Qed.

Lemma xor_pieces_spec x c p srcs :
  at_pos x c p -> fits x (ietf c) (p + length (concat srcs)) ->
  exists bs, xor_pieces c srcs = Ok bs /\ concat bs = xor_bytes (concat srcs) (stream x p (length (concat srcs))).
Proof.
  revert c p. induction srcs as [|s srcs IH]; intros c p Hat Hf; [by exists []|]. cbn [xor_pieces concat] in *.
  rewrite length_app in *. unfold Cipher_XORKeyStream.
  destruct (stream_loop_spec (S (length s)) x c p (Some s) (length s) Hat) as (c' & -> & Hat' & Hi');
    [by eapply fits_le; [|exact Hf]; lia|by intros ? [= <-]|lia|].
  cbn [mbind res_mbind]. destruct (IH c' (p + length s)%nat Hat') as (bs & -> & Hc); [rewrite Hi'; by rewrite <- Nat.add_assoc|].
  cbn [mbind res_mbind concat emit]. eexists. split; [done|]. cbn [concat]. rewrite Hc, stream_app. unfold xor_bytes.
  symmetry. apply zip_with_app. by rewrite length_stream.
Qed.

Lemma xor_bytes_involutive (s ks : bytes) : length s = length ks -> xor_bytes (xor_bytes s ks) ks = s.
Proof.
  revert ks. induction s as [|a s IH]; intros [|k ks] Hl; try done. cbn in *. f_equal; [|apply IH; lia].
  by rewrite <- bxor_assoc, bxor_nilpotent, bxor_0_r.
Qed.

(** The key stream does not depend on how it is read.  For every key and nonce, reads
    of any lengths, up to 2^38-64 bytes in all, never panic and return consecutive pieces
    of one stream, that of the blocks of the initial state; so text encrypted in pieces is
    decrypted by a cipher with the same key and nonce in any other pieces. *)
Theorem chacha20_stream key nonce c :
  NewCipher key nonce = Ok c ->
  (forall ns, Z.of_nat (sum_list ns) <= 2 ^ 38 - 64 ->
    exists bs, keystream_reads c ns = Ok bs /\ concat bs = stream (state c) 0 (sum_list ns) /\ map length bs = ns) /\
  (forall srcs srcs' cts, Z.of_nat (length (concat srcs)) <= 2 ^ 38 - 64 ->
    xor_pieces c srcs = Ok cts -> concat srcs' = concat cts ->
    exists pts, xor_pieces c srcs' = Ok pts /\ concat pts = concat srcs).
Proof.
  intros Hc. destruct (NewCipher_pos _ _ _ Hc) as [Hat _]. split.
  - intros ns Hn. by apply (keystream_reads_spec _ _ 0 ns Hat), (new_fits _ _ _ _ Hc).
  - intros srcs srcs' cts Hl Hx Hs'.
    destruct (xor_pieces_spec _ _ 0 srcs Hat (new_fits _ _ _ _ Hc Hl)) as (cts' & Hx' & Hcts).
    rewrite Hx in Hx'. injection Hx' as <-.
    assert (length (concat srcs') = length (concat srcs)) as Hlen.
    { rewrite Hs', Hcts. unfold xor_bytes. rewrite length_zip_with, length_stream. lia. }
    destruct (xor_pieces_spec _ _ 0 srcs' Hat) as (pts & Hp & Hpts); [rewrite Hlen; by apply (new_fits _ _ _ _ Hc)|].
    exists pts. split; [done|]. rewrite Hpts, Hlen, Hs', Hcts. apply xor_bytes_involutive. by rewrite length_stream.
Qed.

#[local] Transparent block advance.

Lemma chacha20_stream_witness :
  exists c bs, NewCipher (replicate 32 x01) (replicate 12 x02) = Ok c /\ keystream_reads c [3; 0; 70]%nat = Ok bs /\
    map length bs = [3; 0; 70]%nat.
Proof.
  destruct (NewCipher (replicate 32 x01) (replicate 12 x02)) as [c|e|e|] eqn:E; try discriminate E.
  destruct (proj1 (chacha20_stream _ _ _ E) [3; 0; 70]%nat) as (bs & H1 & _ & H2); [cbn; lia|].
  exists c, bs. split; [reflexivity|]. split; [exact H1|exact H2].
Defined.
