(* ===== verification/PRNG.v ===== *)
(** * The pseudorandom number generator

    Models src/psiphon/common/prng/prng.go, a seeded generator on the ChaCha20 key stream
    that re-keys itself before the stream of a key ends, and the functions of Go's package
    math/rand that it is the source of.

    A function is a computation on the state of the generator.  Those that draw until a
    value is in range, as the library does to be unbiased, have fuel for the draws.  The
    comparison of floating point numbers of [FlipWeightedCoin] is an argument. *)

From Stdlib Require Import ZArith Lia Strings.Byte.
From stdpp Require Import base list sets strings numbers.
From S2P Require Import Prelude.
From S2P Require Import Salsa20.
From S2P Require Import ChaCha20.
#[local] Open Scope Z_scope.

Definition SEED_LENGTH : nat := 32.

Record PRNG := {
  randomStreamSeed : bytes;
  randomStream : Cipher;
  randomStreamUsed : Z;
  randomStreamRekeyCount : Z
}.

(** ** The stream *)

(** [binary.BigEndian.PutUint64(randomKeyNonce[0:8], count)] *)
Definition rekey_nonce (count : Z) : bytes := rev (le_store 8 count) ++ replicate 4 x00.

Definition rekey (p : PRNG) : res PRNG :=
  match NewCipher (randomStreamSeed p) (rekey_nonce (randomStreamRekeyCount p)) with
  | Ok c => Ok {| randomStreamSeed := randomStreamSeed p; randomStream := c; randomStreamUsed := 0;
                  randomStreamRekeyCount := wrapU 64 (randomStreamRekeyCount p + 1) |}
  | Err e => Panic e
  | Panic e => Panic e
  | NoFuel => NoFuel
  end.

Definition NewPRNGWithSeed (seed : bytes) : res PRNG :=
  rekey {| randomStreamSeed := seed; randomStream := zeroCipher; randomStreamUsed := 0; randomStreamRekeyCount := 0 |}.

Definition stream_limit : Z := 2 ^ 38 - 64.

Definition PRNG_Read (n : nat) : stres PRNG bytes := fun p =>
  p ← (if stream_limit <=? wrapU 64 (randomStreamUsed p + Z.of_nat n) then rekey p else Ok p);
  '(b, c) ← KeyStream (randomStream p) n;
  Ok (b, {| randomStreamSeed := randomStreamSeed p; randomStream := c;
            randomStreamUsed := wrapU 64 (randomStreamUsed p + Z.of_nat n);
            randomStreamRekeyCount := randomStreamRekeyCount p |}).

Definition GetSeed (p : PRNG) : bytes := randomStreamSeed p.

(** [binary.BigEndian.Uint64] *)
Definition Uint64 : stres PRNG Z := b ← PRNG_Read 8; mret (le_load (rev b)).

Definition Int63 : stres PRNG Z := i ← Uint64; mret (Z.land i (2 ^ 63 - 1)).

(** ** math/rand *)

Definition Int31 : stres PRNG Z := v ← Int63; mret (Z.shiftr v 32).

Definition rand_Uint32 : stres PRNG Z := v ← Int63; mret (Z.shiftr v 31).

(** [for v > max { v = draw() }; return v % n] *)
Fixpoint draw_below (fuel : nat) (draw : stres PRNG Z) (max n : Z) : stres PRNG Z :=
  match fuel with
  | O => fun _ => NoFuel
  | S fuel => v ← draw; if max <? v then draw_below fuel draw max n else mret (v mod n)
  end.

Definition is_power_of_2 (n : Z) : bool := Z.land n (n - 1) =? 0.

Definition rand_Int63n (fuel : nat) (n : Z) : stres PRNG Z :=
  if n <=? 0 then st_lift (Panic "invalid argument to Int63n")
  else if is_power_of_2 n then v ← Int63; mret (Z.land v (n - 1))
  else draw_below fuel Int63 (2 ^ 63 - 1 - 2 ^ 63 mod n) n.

Definition rand_Int31n (fuel : nat) (n : Z) : stres PRNG Z :=
  if n <=? 0 then st_lift (Panic "invalid argument to Int31n")
  else if is_power_of_2 n then v ← Int31; mret (Z.land v (n - 1))
  else draw_below fuel Int31 (2 ^ 31 - 1 - 2 ^ 31 mod n) n.

Definition rand_Intn (fuel : nat) (n : Z) : stres PRNG Z :=
  if n <=? 0 then st_lift (Panic "invalid argument to Intn")
  else if n <=? 2 ^ 31 - 1 then rand_Int31n fuel n else rand_Int63n fuel n.

(** [int31n], which multiplies instead of dividing. *)
Fixpoint int31n_loop (fuel : nat) (n thresh prod : Z) : stres PRNG Z :=
  if wrapU 32 prod <? thresh then
    match fuel with
    | O => fun _ => NoFuel
    | S fuel => v ← rand_Uint32; int31n_loop fuel n thresh (v * n)
    end
  else mret (Z.shiftr prod 32).

Definition rand_int31n (fuel : nat) (n : Z) : stres PRNG Z :=
  v ← rand_Uint32;
  let prod := v * n in
  if wrapU 32 prod <? n then int31n_loop fuel n (wrapU 32 (- n) mod n) prod else mret (Z.shiftr prod 32).

(** ** Numbers *)

Definition FlipCoin (fuel : nat) : stres PRNG bool := v ← rand_Int31n fuel 2; mret (bool_decide (v = 1)).

(** [exceeds f] is [float64(f)/float64(math.MaxInt64) > 1.0-weight]. *)
Definition FlipWeightedCoin (exceeds : Z -> bool) : stres PRNG bool := v ← Int63; mret (exceeds v).

Definition Intn (fuel : nat) (n : Z) : stres PRNG Z := if n <=? 0 then mret 0 else rand_Intn fuel n.

Definition Int63n (fuel : nat) (n : Z) : stres PRNG Z := if n <=? 0 then mret 0 else rand_Int63n fuel n.

Definition Range (fuel : nat) (min max : Z) : stres PRNG Z :=
  let min := if min <? 0 then 0 else min in
  if max <? min then mret min
  else n ← Intn fuel (wrapS 64 (max - min + 1)); mret (n + min).

Definition RangeUint32 (fuel : nat) (min max : Z) : stres PRNG Z :=
  if max <? min then mret min
  else n ← rand_Int63n fuel (wrapU 32 (max - min) + 1); mret (wrapU 32 (min + n)).

Definition Bytes (length : nat) : stres PRNG bytes := PRNG_Read length.

Definition Padding (fuel : nat) (minLength maxLength : Z) : stres PRNG bytes :=
  n ← Range fuel minLength maxLength; Bytes (Z.to_nat n).

Definition Period (fuel : nat) (min max : Z) : stres PRNG Z :=
  duration ← Int63n fuel (wrapS 64 (max - min)); mret (min + duration).

(** [a] is [int64(math.Ceil(float64(n) * factor))]. *)
Definition Jitter (fuel : nat) (n a : Z) : stres PRNG Z :=
  r ← Int63n fuel (wrapS 64 (2 * a + 1)); mret (wrapS 64 (n + r - a)).

(** ** Permutations *)

(** [m[i] = m[j]; m[j] = i] *)
Fixpoint perm_loop (fuel : nat) (i n : nat) (m : list nat) : stres PRNG (list nat) :=
  match n with
  | O => mret m
  | S n =>
      j ← rand_Intn fuel (Z.of_nat i + 1);
      let m := <[i := nth (Z.to_nat j) m 0%nat]> m in
      perm_loop fuel (S i) n (<[Z.to_nat j := i]> m)
  end.

Definition Perm (fuel n : nat) : stres PRNG (list nat) := perm_loop fuel 0 n (replicate n 0%nat).

(** The swap of two elements of a slice. *)
Definition swap {A} (l : list A) (i j : nat) : res (list A) :=
  match l !! i, l !! j with
  | Some x, Some y => Ok (<[j := x]> (<[i := y]> l))
  | _, _ => Panic "index out of range"
  end.

(** [for ; i > 0; i-- { j := int31n(i + 1); swap(i, j) }], for slices of at most 2^31-1. *)
Fixpoint shuffle_loop {A} (fuel : nat) (i : nat) (l : list A) : stres PRNG (list A) :=
  match i with
  | O => mret l
  | S i' =>
      j ← rand_int31n fuel (Z.of_nat i + 1);
      l ← st_lift (swap l i (Z.to_nat j));
      shuffle_loop fuel i' l
  end.

Definition Shuffle {A} (fuel : nat) (l : list A) : stres PRNG (list A) := shuffle_loop fuel (length l - 1) l.

(** ** Properties of the stream *)

(** The cipher of the generator is at byte [used] of the stream of its last key. *)
Record prng_ok (p : PRNG) : Prop := {
  po_seed : length (randomStreamSeed p) = 32%nat;
  po_count : 0 <= randomStreamRekeyCount p < 2 ^ 64;
  po_cipher : exists nonce c, NewCipher (randomStreamSeed p) nonce = Ok c /\ ietf c = true /\
    at_pos (state c) (randomStream p) (Z.to_nat (randomStreamUsed p)) /\ ietf (randomStream p) = true;
  po_used : 0 <= randomStreamUsed p < stream_limit
}.

Lemma length_rekey_nonce count : length (rekey_nonce count) = 12%nat.
Proof. unfold rekey_nonce. rewrite length_app, length_rev, length_le_store. done. Qed.

Lemma NewCipher_ietf key nonce : length key = 32%nat -> length nonce = 12%nat ->
  exists c, NewCipher key nonce = Ok c /\ ietf c = true.
Proof.
  intros Hk Hn. unfold NewCipher, ReKey. rewrite Hk, Hn. cbn [Nat.eqb KeySize NonceSize INonceSize negb orb mbind res_mbind].
  rewrite Hn. eexists. split; reflexivity.
Qed.

Lemma rekey_ok p : length (randomStreamSeed p) = 32%nat -> 0 <= randomStreamRekeyCount p < 2 ^ 64 ->
  exists p' c, rekey p = Ok p' /\ prng_ok p' /\ randomStreamUsed p' = 0 /\ randomStreamSeed p' = randomStreamSeed p /\
    NewCipher (randomStreamSeed p) (rekey_nonce (randomStreamRekeyCount p)) = Ok c /\ randomStream p' = c.
Proof.
  intros Hs Hc. destruct (NewCipher_ietf (randomStreamSeed p) (rekey_nonce (randomStreamRekeyCount p))) as (c & Hn & Hi);
    [done|apply length_rekey_nonce|].
  unfold rekey. rewrite Hn. eexists _, c. split_and!; [done| |done..].
  split; cbn [randomStreamSeed randomStream randomStreamUsed randomStreamRekeyCount]; [done| | |unfold stream_limit; lia].
  - apply Z.mod_pos_bound. lia.
  - destruct (NewCipher_pos _ _ _ Hn) as [Hat _]. eexists _, c. split_and!; done.
Qed.

(** A read of fewer bytes than a key allows never panics. *)
Lemma PRNG_Read_ok n p :
  prng_ok p -> Z.of_nat n < stream_limit ->
  exists b p', PRNG_Read n p = Ok (b, p') /\ length b = n /\ prng_ok p' /\ randomStreamSeed p' = randomStreamSeed p.
Proof.
  intros Hp Hn. unfold PRNG_Read.
  assert (exists p1, (if stream_limit <=? wrapU 64 (randomStreamUsed p + Z.of_nat n) then rekey p else Ok p) = Ok p1 /\
    prng_ok p1 /\ randomStreamUsed p1 + Z.of_nat n < stream_limit /\ randomStreamSeed p1 = randomStreamSeed p) as (p1 & -> & Hp1 & Hu & Hs).
  { pose proof Hp as [Hs Hc _ Hu]. unfold stream_limit in Hn, Hu |- *. rewrite wrapU_small by lia.
    destruct (Z.leb_spec (2 ^ 38 - 64) (randomStreamUsed p + Z.of_nat n)); [|exists p; split_and!; [done|done|lia|done]].
    destruct (rekey_ok p Hs Hc) as (p' & c & -> & Hp' & H0 & Hs' & _). exists p'. rewrite H0. split_and!; [done|done|lia|done]. }
  cbn [mbind res_mbind]. destruct Hp1 as [Hs1 Hc1 (nonce & c & Hnew & Hi & Hat & Hi') Hu1].
  destruct (stream_loop_spec (S n) (state c) (randomStream p1) (Z.to_nat (randomStreamUsed p1)) None n Hat) as (c' & Hrun & Hat' & Hic).
  { rewrite Hi', <- Hi. apply (new_fits _ _ _ _ Hnew). unfold stream_limit in Hu. lia. }
  { done. } { lia. }
  unfold KeyStream. rewrite Hrun. cbn [mbind res_mbind]. eexists _, _. split_and!; [done|apply length_stream| |exact Hs].
  unfold stream_limit in *.
  split; cbn [randomStreamSeed randomStream randomStreamUsed randomStreamRekeyCount]; [done|done| |rewrite wrapU_small; unfold stream_limit; lia].
  exists nonce, c. rewrite wrapU_small by lia. split_and!; [done|done| |congruence].
  replace (Z.to_nat (randomStreamUsed p1 + Z.of_nat n)) with (Z.to_nat (randomStreamUsed p1) + n)%nat by lia. done.
Qed.

(** ** Properties of the draws *)

(** A computation on the generator returns a value with the property, in a good state. *)
Definition returns {A} (m : stres PRNG A) (Q : A -> Prop) : Prop :=
  forall p, prng_ok p -> exists v p', m p = Ok (v, p') /\ Q v /\ prng_ok p'.

(** It does, unless its fuel runs out: it never fails or panics. *)
Definition draws_in {A} (m : stres PRNG A) (Q : A -> Prop) : Prop :=
  forall p, prng_ok p -> m p = NoFuel \/ exists v p', m p = Ok (v, p') /\ Q v /\ prng_ok p'.

Lemma returns_yields {A} (m : stres PRNG A) Q : returns m Q -> draws_in m Q.
Proof. intros H p Hp. right. by apply H. Qed.

Lemma returns_bind {A B} (m : stres PRNG A) (f : A -> stres PRNG B) Q R :
  returns m Q -> (forall v, Q v -> returns (f v) R) -> returns (m ≫= f) R.
Proof.
  intros Hm Hf p Hp. destruct (Hm p Hp) as (v & p1 & H1 & Hv & Hp1). unfold mbind, stres_mbind. rewrite H1. by apply (Hf v).
Qed.

Lemma draw_bind {A B} (m : stres PRNG A) (f : A -> stres PRNG B) Q R :
  draws_in m Q -> (forall v, Q v -> draws_in (f v) R) -> draws_in (m ≫= f) R.
Proof.
  intros Hm Hf p Hp. unfold mbind, stres_mbind. destruct (Hm p Hp) as [->|(v & p1 & -> & Hv & Hp1)]; [by left|by apply (Hf v)].
Qed.

Lemma returns_ret {A} (v : A) (Q : A -> Prop) : Q v -> returns (mret v) Q.
Proof. intros Hv p Hp. by exists v, p. Qed.

Lemma draw_ret {A} (v : A) (Q : A -> Prop) : Q v -> draws_in (mret v) Q.
Proof. intros Hv. by apply returns_yields, returns_ret. Qed.

Lemma yields_weaken {A} (m : stres PRNG A) (Q R : A -> Prop) : (forall v, Q v -> R v) -> draws_in m Q -> draws_in m R.
Proof. intros H Hm p Hp. destruct (Hm p Hp) as [?|(v & p' & ? & ? & ?)]; [by left|right]. exists v, p'. auto. Qed.

Lemma Uint64_returns : returns Uint64 (fun v => 0 <= v < 2 ^ 64).
Proof.
  unfold Uint64. apply (returns_bind _ _ (fun b => length b = 8%nat)).
  - intros p Hp. destruct (PRNG_Read_ok 8 p Hp) as (b & p' & ? & ? & ? & _); [unfold stream_limit; lia|]. by exists b, p'.
  - intros b Hb. apply returns_ret. pose proof (le_load_range (rev b)) as H. rewrite length_rev, Hb in H. exact H.
Qed.

Lemma Int63_returns : returns Int63 (fun v => 0 <= v < 2 ^ 63).
Proof.
  unfold Int63. eapply returns_bind; [apply Uint64_returns|]. intros v _. apply returns_ret. apply land_bound; lia.
Qed.

Lemma shifted_returns k : 0 <= k <= 63 ->
  returns (v ← Int63; mret (Z.shiftr v k)) (fun v => 0 <= v < 2 ^ (63 - k)).
Proof.
  intros Hk. eapply returns_bind; [apply Int63_returns|]. intros v Hv. cbn beta in Hv. apply returns_ret.
  rewrite Z.shiftr_div_pow2 by lia. pose proof (Z.pow_pos_nonneg 2 k ltac:(lia) ltac:(lia)).
  split; [apply Z.div_pos; lia|]. apply Z.div_lt_upper_bound; [lia|].
  rewrite <- Z.pow_add_r by lia. replace (k + (63 - k)) with 63 by lia. lia.
Qed.

Lemma draw_below_yields fuel draw max n M :
  returns draw (fun v => 0 <= v < M) -> 0 < n ->
  draws_in (draw_below fuel draw max n) (fun v => exists d, 0 <= d < M /\ d <= max /\ v = d mod n).
Proof.
  intros Hd Hn. induction fuel as [|fuel IH]; cbn [draw_below]; [by left|].
  eapply draw_bind; [apply returns_yields, Hd|]. intros d Hdr. cbn beta in Hdr.
  destruct (Z.ltb_spec max d); [done|]. apply draw_ret. exists d. split_and!; lia.
Qed.

Lemma power_of_2 n : 0 < n -> is_power_of_2 n = true -> exists k, 0 <= k /\ n = 2 ^ k.
Proof.
  unfold is_power_of_2. intros Hn H%Z.eqb_eq. exists (Z.log2 n). pose proof (Z.log2_nonneg n). split; [done|].
  pose proof (Z.log2_spec n Hn) as [Hlo Hhi]. destruct (decide (n = 2 ^ Z.log2 n)) as [|Hne]; [done|exfalso].
  assert (Z.log2 (n - 1) = Z.log2 n) as El by (apply Z.log2_unique; lia).
  assert (Z.testbit (Z.land n (n - 1)) (Z.log2 n) = true) as Hb.
  { rewrite Z.land_spec, Z.bit_log2 by lia. rewrite <- El at 1. apply Z.bit_log2. lia. }
  by rewrite H, Z.bits_0 in Hb.
Qed.

Lemma land_power_of_2 v n : 0 < n -> is_power_of_2 n = true -> Z.land v (n - 1) = v mod n.
Proof.
  intros Hn (k & Hk & ->)%power_of_2; [|done]. rewrite <- Z.land_ones by done. f_equal. rewrite Z.ones_equiv. lia.
Qed.

(** The draws that are accepted: those below the largest multiple of [n]. *)
Definition accepted_draws (M n : Z) : Z := M - M mod n.

Lemma power_accepted M n k : 0 <= k -> M = 2 ^ k -> 0 < n <= M -> is_power_of_2 n = true -> accepted_draws M n = M.
Proof.
  intros Hk -> Hn (j & Hj & ->)%power_of_2; [|lia]. unfold accepted_draws.
  assert (j <= k) by (apply (Z.pow_le_mono_r_iff 2); lia).
  replace k with ((k - j) + j) at 2 by lia. rewrite Z.pow_add_r, Z.mod_mul by lia. lia.
Qed.

Lemma Int63n_yields fuel n :
  0 < n < 2 ^ 63 -> draws_in (rand_Int63n fuel n) (fun v => exists d, 0 <= d < accepted_draws (2 ^ 63) n /\ v = d mod n).
Proof.
  intros Hn. unfold rand_Int63n. destruct (Z.leb_spec n 0); [lia|]. destruct (is_power_of_2 n) eqn:E.
  - eapply draw_bind; [apply returns_yields, Int63_returns|]. intros v Hv. cbn beta in Hv. apply draw_ret. exists v.
    rewrite (power_accepted _ n 63), land_power_of_2 by (done || lia). done.
  - eapply yields_weaken; [|apply (draw_below_yields _ _ _ _ _ Int63_returns); lia].
    intros v (d & ? & ? & ->). exists d. unfold accepted_draws. lia.
Qed.

Lemma Int31n_yields fuel n :
  0 < n < 2 ^ 31 -> draws_in (rand_Int31n fuel n) (fun v => exists d, 0 <= d < accepted_draws (2 ^ 31) n /\ v = d mod n).
Proof.
  intros Hn. unfold rand_Int31n. destruct (Z.leb_spec n 0); [lia|].
  pose proof (shifted_returns 32 ltac:(lia)) as Hd. change (63 - 32) with 31 in Hd. destruct (is_power_of_2 n) eqn:E.
  - eapply draw_bind; [apply returns_yields, Hd|]. intros v Hv. cbn beta in Hv. apply draw_ret. exists v.
    rewrite (power_accepted _ n 31), land_power_of_2 by (done || lia). done.
  - eapply yields_weaken; [|apply (draw_below_yields _ _ _ _ _ Hd); lia].
    intros v (d & ? & ? & ->). exists d. unfold accepted_draws. lia.
Qed.

Lemma Intn_yields fuel n : 0 < n < 2 ^ 63 -> draws_in (rand_Intn fuel n) (fun v => 0 <= v < n).
Proof.
  intros Hn. unfold rand_Intn. destruct (Z.leb_spec n 0); [lia|].
  destruct (Z.leb_spec n (2 ^ 31 - 1)); (eapply yields_weaken; [|apply Int31n_yields || apply Int63n_yields; lia]);
    intros v (d & _ & ->); apply Z.mod_pos_bound; lia.
Qed.

Lemma rand_int31n_yields fuel n : 0 < n < 2 ^ 31 -> draws_in (rand_int31n fuel n) (fun v => 0 <= v < n).
Proof.
  intros Hn. pose proof (shifted_returns 31 ltac:(lia)) as Hd. change (63 - 31) with 32 in Hd.
  assert (forall v, 0 <= v < 2 ^ 32 -> 0 <= Z.shiftr (v * n) 32 < n) as Hs.
  { intros v Hv. rewrite Z.shiftr_div_pow2 by lia. split; [apply Z.div_pos; lia|]. apply Z.div_lt_upper_bound; nia. }
  assert (forall thresh fuel v, 0 <= v < 2 ^ 32 -> draws_in (int31n_loop fuel n thresh (v * n)) (fun v => 0 <= v < n)) as Hl.
  { intros thresh. induction fuel0 as [|f IH]; intros v Hv; cbn [int31n_loop]; (case_match; [|by apply draw_ret, Hs]); [by left|].
    eapply draw_bind; [apply returns_yields, Hd|]. intros v' Hv'. by apply IH. }
  unfold rand_int31n. eapply draw_bind; [apply returns_yields, Hd|]. intros v Hv. case_match; [by apply Hl|by apply draw_ret, Hs].
Qed.

Lemma yields_lift_ok {A} (m : res A) (a : A) (Q : A -> Prop) : m = Ok a -> Q a -> draws_in (st_lift m) Q.
Proof. intros -> Ha p Hp. right. by exists a, p. Qed.

(** *** Unbiased draws *)

(** The next draws of [Int63], each with the state after it. *)
Fixpoint draws (k : nat) (p : PRNG) : list (Z * PRNG) :=
  match k with
  | O => []
  | S k => match Int63 p with Ok (v, p') => (v, p') :: draws k p' | _ => [] end
  end.

Lemma draw_below_first fuel max n p :
  prng_ok p ->
  length (draws fuel p) = fuel /\
  draw_below fuel Int63 max n p =
    match list_find (fun dp => dp.1 <= max) (draws fuel p) with
    | Some (_, (d, p')) => Ok (d mod n, p')
    | None => NoFuel
    end.
Proof.
  revert p. induction fuel as [|fuel IH]; intros p Hp; [done|].
  destruct (Int63_returns p Hp) as (v & p1 & Hrun & _ & Hp1). destruct (IH p1 Hp1) as [Hl He].
  cbn [draws draw_below]. unfold mbind, stres_mbind. rewrite Hrun. cbn [length list_find fst]. split; [by rewrite Hl|].
  destruct (Z.ltb_spec max v); case_decide; [lia| |done|lia].
  rewrite He. destruct (list_find _ (draws fuel p1)) as [[? [? ?]]|]; done.
Qed.

Lemma accepted_bounds M n : 0 < n <= M -> n <= accepted_draws M n <= M /\ M < 2 * accepted_draws M n /\ (n | accepted_draws M n).
Proof.
  intros Hn. unfold accepted_draws. pose proof (Z.mod_pos_bound M n ltac:(lia)) as Hm.
  pose proof (Z.div_mod M n ltac:(lia)) as Hd.
  assert (1 <= M / n) by (apply Z.div_le_lower_bound; lia).
  split_and!; [nia|lia|nia|]. exists (M / n). lia.
Qed.

Lemma count_residue n r q : 0 <= r < n -> 0 <= q ->
  length (filter (fun d => d mod n = r) (seqZ 0 (q * n))) = Z.to_nat q.
Proof.
  intros Hr Hq. revert q Hq. apply natlike_ind; [done|].
  intros q Hq IH. replace (Z.succ q * n) with (q * n + n) by lia.
  rewrite seqZ_app by nia. rewrite list.filter_app, length_app, IH. rewrite Z.add_0_l.
  replace (Z.to_nat (Z.succ q)) with (Z.to_nat q + 1)%nat by lia. f_equal.
  replace n with (r + (1 + (n - r - 1))) at 2 by lia.
  rewrite !seqZ_app, !list.filter_app by lia. cbn [seqZ]. rewrite !length_app.
  assert (forall a m, (forall d, a <= d < a + m -> d mod n <> r) -> length (filter (fun d => d mod n = r) (seqZ a m)) = 0%nat) as Hz.
  { intros a m H. apply length_zero_iff_nil. apply elem_of_nil_inv. intros d [Hd Hin]%list_elem_of_filter. apply elem_of_seqZ in Hin. by apply (H d). }
  assert (forall j, 0 <= j < n -> (q * n + j) mod n = j) as Hj.
  { intros j Hj. rewrite Z.add_comm, Z.mod_add by lia. apply Z.mod_small. lia. }
  rewrite (Hz (q * n) r), (Hz (q * n + r + 1)).
  - change 1 with (Z.succ 0) at 1. rewrite seqZ_cons by lia. cbn [Z.pred Z.succ Z.add Pos.add Z.pred_double].
    rewrite list.filter_cons, decide_True by (apply Hj; lia). done.
  - intros d Hd. replace d with (q * n + (d - q * n)) by lia. rewrite Hj; lia.
  - intros d Hd. replace d with (q * n + (d - q * n)) by lia. rewrite Hj; lia.
Qed.

(** *** Permutations *)

Lemma insert_snoc_perm {A} (l : list A) j x y : l !! j = Some x -> <[j := y]> l ++ [x] ≡ₚ l ++ [y].
Proof.
  intros H. rewrite <- (take_drop_middle l j x H) at 2. pose proof (lookup_lt_Some _ _ _ H).
  rewrite insert_take_drop by done. solve_Permutation.
Qed.

Lemma swap_perm {A} (l : list A) i j : (i < length l)%nat -> (j < length l)%nat ->
  exists l', swap l i j = Ok l' /\ l' ≡ₚ l.
Proof.
  intros (x & Hx)%lookup_lt_is_Some (y & Hy)%lookup_lt_is_Some. unfold swap. rewrite Hx, Hy. eexists. split; [done|].
  apply (Permutation_app_inv_r [y]). rewrite insert_snoc_perm; [by apply insert_snoc_perm|].
  destruct (decide (i = j)) as [->|]; [|by rewrite list_lookup_insert_ne].
  apply list_lookup_insert_eq. by apply lookup_lt_Some in Hy.
Qed.

Lemma shuffle_loop_yields {A} fuel i : forall (l : list A),
  (i < length l)%nat \/ i = O -> Z.of_nat i < 2 ^ 31 - 1 -> draws_in (shuffle_loop fuel i l) (fun l' => l' ≡ₚ l).
Proof.
  induction i as [|i IH]; intros l Hi Hm; [by apply draw_ret|]. cbn [shuffle_loop].
  eapply draw_bind; [apply rand_int31n_yields; lia|]. intros j Hj. cbn beta in Hj.
  destruct (swap_perm l (S i) (Z.to_nat j)) as (l' & Hs & Hp); [lia..|].
  eapply draw_bind; [by apply (yields_lift_ok _ _ (fun k => k = l') Hs)|]. intros ? ->.
  eapply yields_weaken; [|apply IH; [rewrite Hp; lia|lia]]. cbn beta. intros k ->. done.
Qed.

Lemma perm_step m i j x : take i m ≡ₚ seq 0 i -> (i < length m)%nat -> (j <= i)%nat -> m !! j = Some x ->
  take (S i) (<[j := i]> (<[i := x]> m)) ≡ₚ seq 0 (S i).
Proof.
  intros Hm Hi Hj Hx. rewrite seq_S, <- Hm.
  rewrite (take_S_r _ i (if decide (j = i) then i else x)).
  2:{ case_decide; [subst; by rewrite list_lookup_insert_eq by (rewrite length_insert; lia)|].
      rewrite list_lookup_insert_ne by done. by apply list_lookup_insert_eq. }
  case_decide; [subst; by rewrite !take_insert_ge by lia|].
  rewrite take_insert_lt by lia. rewrite (take_insert_ge m i i) by lia. apply insert_snoc_perm.
  rewrite lookup_take_lt by lia. done.
Qed.

Lemma perm_loop_yields fuel n : forall i m,
  length m = (i + n)%nat -> Z.of_nat (i + n) < 2 ^ 63 -> take i m ≡ₚ seq 0 i ->
  draws_in (perm_loop fuel i n m) (fun l => l ≡ₚ seq 0 (i + n)).
Proof.
  induction n as [|n IH]; intros i m Hl Hm Hp; cbn [perm_loop].
  - apply draw_ret. rewrite take_ge in Hp by lia. by rewrite Nat.add_0_r.
  - eapply draw_bind; [apply Intn_yields; lia|]. intros j Hj. cbn beta in Hj. cbn zeta.
    destruct (lookup_lt_is_Some_2 m (Z.to_nat j)) as [x Hx]; [lia|].
    rewrite (nth_lookup_Some _ _ _ _ Hx). replace (i + S n)%nat with (S i + n)%nat by lia.
    apply IH; [rewrite !length_insert; lia|lia|]. apply perm_step; [done|lia|lia|done].
Qed.

(** *** Consecutive reads *)

Lemma PRNG_Read_stream n p x :
  at_pos x (randomStream p) (Z.to_nat (randomStreamUsed p)) -> fits x (ietf (randomStream p)) (Z.to_nat stream_limit) ->
  0 <= randomStreamUsed p -> randomStreamUsed p + Z.of_nat n < stream_limit ->
  exists p', PRNG_Read n p = Ok (stream x (Z.to_nat (randomStreamUsed p)) n, p') /\
    at_pos x (randomStream p') (Z.to_nat (randomStreamUsed p')) /\ ietf (randomStream p') = ietf (randomStream p) /\
    randomStreamUsed p' = randomStreamUsed p + Z.of_nat n.
Proof.
  intros Hat Hf H0 Hu. unfold PRNG_Read. unfold stream_limit in *. rewrite wrapU_small by lia.
  destruct (Z.leb_spec (2 ^ 38 - 64) (randomStreamUsed p + Z.of_nat n)); [lia|]. cbn [mbind res_mbind]. unfold KeyStream.
  destruct (stream_loop_spec (S n) x (randomStream p) (Z.to_nat (randomStreamUsed p)) None n Hat) as (c' & -> & Hat' & Hi);
    [by eapply fits_le; [|exact Hf]; lia|done|lia|].
  cbn [mbind res_mbind emit]. eexists. split; [done|]. cbn [randomStream randomStreamUsed].
  rewrite wrapU_small by lia. split; [|done]. replace (Z.to_nat (randomStreamUsed p + Z.of_nat n)) with (Z.to_nat (randomStreamUsed p) + n)%nat by lia. done.
Qed.

Lemma reads_stream x ns : forall p,
  at_pos x (randomStream p) (Z.to_nat (randomStreamUsed p)) -> fits x (ietf (randomStream p)) (Z.to_nat stream_limit) ->
  0 <= randomStreamUsed p -> randomStreamUsed p + Z.of_nat (sum_list ns) < stream_limit ->
  exists bs p', mapM PRNG_Read ns p = Ok (bs, p') /\ concat bs = stream x (Z.to_nat (randomStreamUsed p)) (sum_list ns).
Proof.
  induction ns as [|n ns IH]; intros p Hat Hf H0 Hu; [by exists [], p|].
  assert (sum_list (n :: ns) = n + sum_list ns)%nat as E by done. rewrite E in *.
  destruct (PRNG_Read_stream n p x Hat Hf H0) as (p1 & H1 & Hat1 & Hi1 & Hu1); [lia|].
  destruct (IH p1 Hat1) as (bs & p2 & H2 & Hc); [by rewrite Hi1|lia|lia|].
  exists (stream x (Z.to_nat (randomStreamUsed p)) n :: bs), p2. split.
  - cbn [mapM]. by rewrite (stres_bind_run _ _ _ _ _ H1), (stres_bind_run _ _ _ _ _ H2).
  - cbn [concat]. rewrite Hc, Hu1, stream_app. f_equal. f_equal. lia.
Qed.

Lemma reads_ok ns : forall p, prng_ok p -> Forall (fun n => Z.of_nat n < stream_limit) ns ->
  exists bs p', mapM PRNG_Read ns p = Ok (bs, p') /\ map length bs = ns /\ prng_ok p'.
Proof.
  induction ns as [|n ns IH]; intros p Hp Hn; [by exists [], p|]. apply list.Forall_cons in Hn as [Hn Hns].
  destruct (PRNG_Read_ok n p Hp Hn) as (b & p1 & H1 & Hb & Hp1 & _). destruct (IH p1 Hp1 Hns) as (bs & p2 & H2 & Hbs & Hp2).
  exists (b :: bs), p2. split_and!; [|cbn; by rewrite Hb, Hbs|done].
  cbn [mapM]. by rewrite (stres_bind_run _ _ _ _ _ H1), (stres_bind_run _ _ _ _ _ H2).
Qed.

(** A generator never panics, however long it is used, since it changes its nonce before
    the stream of a key ends: reads of any lengths below 2^38-64 each return that many
    bytes.  Up to 2^38-64 bytes in all they are consecutive pieces of the ChaCha20 stream of
    the seed, whatever their lengths, so that a replay with the seed gets the same bytes. *)
Theorem reads_replay seed :
  length seed = SEED_LENGTH ->
  exists p c, NewPRNGWithSeed seed = Ok p /\ NewCipher seed (replicate 12 x00) = Ok c /\
  forall ns, Forall (fun n => Z.of_nat n < stream_limit) ns ->
    exists bs p', mapM PRNG_Read ns p = Ok (bs, p') /\ map length bs = ns /\ GetSeed p = seed /\
      (Z.of_nat (sum_list ns) < stream_limit -> concat bs = stream (state c) 0 (sum_list ns)).
Proof.
  intros Hs. set (p0 := {| randomStreamSeed := seed; randomStream := zeroCipher; randomStreamUsed := 0; randomStreamRekeyCount := 0 |}).
  destruct (rekey_ok p0 Hs) as (p & c & Hr & Hp & H0 & Hseed & Hc & Hst); [cbn; lia|].
  exists p, c. split_and!; [exact Hr|exact Hc|]. intros ns Hns. destruct (reads_ok ns p Hp Hns) as (bs & p' & Hrun & Hl & _).
  exists bs, p'. split_and!; [done|done|exact Hseed|]. intros Hsum. pose proof (NewCipher_pos _ _ _ Hc) as [Hat _].
  destruct (reads_stream (state c) ns p) as (bs' & p'' & Hrun' & Hcat).
  - by rewrite Hst, H0.
  - rewrite Hst. apply (new_fits _ _ _ _ Hc). unfold stream_limit. lia.
  - lia.
  - lia.
  - rewrite Hrun in Hrun'. injection Hrun' as <- <-. by rewrite Hcat, H0.
Qed.

Lemma reads_replay_witness :
  exists p bs p', NewPRNGWithSeed (replicate 32 x07) = Ok p /\ mapM PRNG_Read [5; 0; 100]%nat p = Ok (bs, p') /\
    map length bs = [5; 0; 100]%nat.
Proof.
  destruct (reads_replay (replicate 32 x07) eq_refl) as (p & c & Hp & _ & H).
  destruct (H [5; 0; 100]%nat) as (bs & p' & H1 & H2 & _); [repeat constructor|].
  exists p, bs, p'. split; [exact Hp|]. split; [exact H1|exact H2].
Defined.

(** ** Bounds and uniformity *)

(** [Int63n] is unbiased.  Its result is the residue of the first of the next draws that is
    below the largest multiple of [n] up to 2^63; each residue is that of equally many of
    the accepted draws; and more than half of all draws are accepted. *)
Theorem Int63n_unbiased fuel n p :
  0 < n < 2 ^ 63 -> prng_ok p -> (0 < fuel)%nat ->
  let A := accepted_draws (2 ^ 63) n in
  length (draws fuel p) = fuel /\
  Int63n fuel n p =
    match list_find (fun dp => dp.1 < A) (draws fuel p) with
    | Some (_, (d, p')) => Ok (d mod n, p')
    | None => NoFuel
    end /\
  (forall r, 0 <= r < n -> length (filter (fun d => d mod n = r) (seqZ 0 A)) = Z.to_nat (A / n)) /\
  2 ^ 63 < 2 * A.
Proof.
  intros Hn Hp Hf A. pose proof (accepted_bounds (2 ^ 63) n ltac:(lia)) as (HA & H2 & [q Hq]). fold A in HA, H2, Hq.
  split_and!; [by apply (draw_below_first fuel 0 n p)| | |done].
  - unfold Int63n, rand_Int63n. destruct (Z.leb_spec n 0); [lia|]. destruct (is_power_of_2 n) eqn:E.
    + assert (A = 2 ^ 63) as -> by (apply (power_accepted _ _ 63); (done || lia)).
      destruct fuel as [|fuel]; [lia|]. destruct (Int63_returns p Hp) as (v & p1 & Hrun & Hv & _).
      rewrite (stres_bind_run _ _ _ _ _ Hrun). cbn [draws list_find]. rewrite Hrun. cbn [list_find fst].
      rewrite decide_True by lia. rewrite land_power_of_2 by (done || lia). done.
    + destruct (draw_below_first fuel (2 ^ 63 - 1 - 2 ^ 63 mod n) n p Hp) as [_ ->].
      rewrite (list_find_ext _ (fun dp : Z * PRNG => dp.1 < A)); [done|]. intros i. unfold A, accepted_draws. lia.
  - intros r Hr. rewrite Hq, Z.div_mul by lia. apply count_residue; nia.
Qed.

Lemma example_prng : exists p, NewPRNGWithSeed (replicate 32 x07) = Ok p /\ prng_ok p.
Proof.
  destruct (rekey_ok {| randomStreamSeed := replicate 32 x07; randomStream := zeroCipher; randomStreamUsed := 0; randomStreamRekeyCount := 0 |})
    as (p & c & H & Hp & _); [done|cbn; lia|]. by exists p.
Qed.

Lemma Int63n_unbiased_witness :
  exists p, prng_ok p /\ length (filter (fun d => d mod 6 = 5) (seqZ 0 (accepted_draws (2 ^ 63) 6))) = Z.to_nat (accepted_draws (2 ^ 63) 6 / 6).
Proof.
  destruct example_prng as (p & _ & Hp). exists p. split; [exact Hp|].
  apply (Int63n_unbiased 1 6 p); [lia|exact Hp|lia|lia].
Defined.

(** The value that [Range] selects from. *)
Definition in_range (min max v : Z) : Prop :=
  let min := Z.max 0 min in if bool_decide (max < min) then v = min else min <= v <= max.

Definition in_period (min max v : Z) : Prop := if bool_decide (max <= min) then v = min else min <= v < max.

Lemma yields_nonneg fuel n : n < 2 ^ 63 ->
  draws_in (Int63n fuel n) (fun v => if bool_decide (n <= 0) then v = 0 else 0 <= v < n).
Proof.
  intros Hn. unfold Int63n. destruct (Z.leb_spec n 0); case_bool_decide; try lia; [by apply draw_ret|].
  eapply yields_weaken; [|apply Int63n_yields; lia]. intros v (d & _ & ->). apply Z.mod_pos_bound. lia.
Qed.

Lemma Range_yields fuel min max : max < 2 ^ 63 -> draws_in (Range fuel min max) (in_range min max).
Proof.
  intros Hm. unfold Range, in_range. cbn zeta. replace (if min <? 0 then 0 else min) with (Z.max 0 min) by (destruct (Z.ltb_spec min 0); lia).
  destruct (Z.ltb_spec max (Z.max 0 min)); case_bool_decide; try lia; [by apply draw_ret|].
  destruct (decide (max - Z.max 0 min + 1 = 2 ^ 63)) as [E|].
  - rewrite E. change (wrapS 64 (2 ^ 63)) with (- 2 ^ 63). unfold Intn.
    eapply draw_bind; [by apply (draw_ret 0 (fun v => v = 0))|]. intros ? ->. apply draw_ret. lia.
  - rewrite wrapS_id by lia. unfold Intn. destruct (Z.leb_spec (max - Z.max 0 min + 1) 0); [lia|].
    eapply draw_bind; [apply Intn_yields; lia|]. intros v Hv. cbn beta in Hv. apply draw_ret. lia.
Qed.

Lemma Period_yields fuel min max : 0 <= min < 2 ^ 63 -> 0 <= max < 2 ^ 63 -> draws_in (Period fuel min max) (in_period min max).
Proof.
  intros Hmin Hmax. unfold Period, in_period. rewrite wrapS_id by lia.
  eapply draw_bind; [apply yields_nonneg; lia|]. intros v Hv. cbn beta in Hv. apply draw_ret. repeat case_bool_decide; lia.
Qed.

Lemma Bytes_returns n : Z.of_nat n < stream_limit -> returns (Bytes n) (fun b => length b = n).
Proof. intros Hn p Hp. destruct (PRNG_Read_ok n p Hp Hn) as (b & p' & ? & ? & ? & _). by exists b, p'. Qed.

(** The functions that select from a range never panic and stay in it, for all integers:
    [Range] in its documented range also where the number of values overflows, and likewise
    [RangeUint32]; [Padding] has a length in the range; a [Period] is shorter than its
    maximum unless that is at most the minimum; [Jitter] changes a number by at most the
    given part. *)
Theorem ranges_correct fuel min max :
  max < 2 ^ 63 ->
  draws_in (Range fuel min max) (in_range min max) /\
  (0 <= min < 2 ^ 32 -> 0 <= max < 2 ^ 32 -> draws_in (RangeUint32 fuel min max) (in_range min max)) /\
  (min < stream_limit -> max < stream_limit ->
    draws_in (Padding fuel min max) (fun b => in_range min max (Z.of_nat (length b)))) /\
  (0 <= min < 2 ^ 63 -> 0 <= max -> draws_in (Period fuel min max) (in_period min max)) /\
  (forall n a, 0 <= a < 2 ^ 62 -> - 2 ^ 63 <= n - a -> n + a < 2 ^ 63 ->
    draws_in (Jitter fuel n a) (fun v => n - a <= v <= n + a)).
Proof.
  intros Hm. split_and!.
  - by apply Range_yields.
  - intros Hmin Hmax. unfold RangeUint32, in_range. cbn zeta.
    destruct (Z.ltb_spec max min); case_bool_decide; try lia; [apply draw_ret; lia|]. rewrite wrapU_small by lia.
    eapply draw_bind; [apply Int63n_yields; lia|]. intros v (d & _ & ->). pose proof (Z.mod_pos_bound d (max - min + 1) ltac:(lia)).
    apply draw_ret. rewrite wrapU_small; lia.
  - intros Hmin Hmax. eapply draw_bind; [by apply Range_yields|]. intros n Hn.
    assert (0 <= n < stream_limit) by (unfold in_range, stream_limit in *; revert Hn; case_bool_decide; lia).
    eapply yields_weaken; [|apply returns_yields, Bytes_returns; lia]. intros b ->. rewrite Z2Nat.id by lia. done.
  - intros Hmin Hmax. by apply Period_yields.
  - intros n a Ha H1 H2. unfold Jitter. rewrite wrapS_id by lia.
    eapply draw_bind; [apply yields_nonneg; lia|]. intros v. cbn beta. case_bool_decide; [lia|]. intros Hv.
    apply draw_ret. rewrite wrapS_id by lia. lia.
Qed.

Lemma ranges_correct_witness : exists p v p', Range 4 3 10 p = Ok (v, p') /\ in_range 3 10 v.
Proof.
  destruct (NewPRNGWithSeed (replicate 32 x07)) as [p|e|e|] eqn:E; try discriminate E.
  assert (prng_ok p) as Hp. { destruct example_prng as (p' & H & Hp'). rewrite E in H. injection H as ->. exact Hp'. }
  destruct (proj1 (ranges_correct 4 3 10 ltac:(lia)) p Hp) as [H|(v & p' & H & Hv & _)].
  - exfalso. revert H. injection E as <-. vm_compute. discriminate.
  - exists p, v, p'. split; [exact H|exact Hv].
Defined.

(** [Perm] and [Shuffle] never panic, index out of range or lose an element: for every
    generator, [Perm n] is a permutation of 0..n-1, and [Shuffle] leaves a permutation of
    the slice, also when it is empty. *)
Theorem permutations_correct {A} fuel n (l : list A) :
  Z.of_nat n < 2 ^ 63 -> Z.of_nat (length l) < 2 ^ 31 ->
  draws_in (Perm fuel n) (fun m => m ≡ₚ seq 0 n) /\ draws_in (Shuffle fuel l) (fun l' => l' ≡ₚ l).
Proof.
  intros Hn Hl. split.
  - apply (perm_loop_yields fuel n 0); [by rewrite length_replicate|done|done].
  - apply shuffle_loop_yields; lia.
Qed.

Lemma permutations_correct_witness : exists p v p', Perm 4 3 p = Ok (v, p') /\ v ≡ₚ [0; 1; 2]%nat.
Proof.
  destruct (NewPRNGWithSeed (replicate 32 x07)) as [p|e|e|] eqn:E; try discriminate E.
  assert (prng_ok p) as Hp. { destruct example_prng as (p' & H & Hp'). rewrite E in H. injection H as ->. exact Hp'. }
  destruct (proj1 (permutations_correct 4 3 [true] ltac:(lia) ltac:(cbn; lia)) p Hp) as [H|(v & p' & H & Hv & _)].
  - exfalso. revert H. injection E as <-. vm_compute. discriminate.
  - exists p, v, p'. split; [exact H|exact Hv].
Defined.

(** ** The interface *)

(** What the users of a generator rely on. *)
Class RandomSource (G : Type) := {
  source_ok : G -> Prop;
  source_seed : G -> bytes;
  source_Flip : (Z -> bool) -> stres G bool;
  source_Range : nat -> Z -> Z -> stres G Z;
  source_Period : nat -> Z -> Z -> stres G Z;
  source_Flip_law exceeds g : source_ok g ->
    exists b g', source_Flip exceeds g = Ok (b, g') /\ source_ok g';
  source_Range_law fuel min max g : source_ok g -> max < 2 ^ 63 ->
    source_Range fuel min max g = NoFuel \/
    exists v g', source_Range fuel min max g = Ok (v, g') /\ in_range min max v /\ source_ok g';
  source_Period_law fuel min max g : source_ok g -> 0 <= min < 2 ^ 63 -> 0 <= max < 2 ^ 63 ->
    source_Period fuel min max g = NoFuel \/
    exists v g', source_Period fuel min max g = Ok (v, g') /\ in_period min max v /\ source_ok g'
}.

#[export, refine] Instance PRNG_source : RandomSource PRNG := {|
  source_ok := prng_ok; source_seed := GetSeed; source_Flip := FlipWeightedCoin;
  source_Range := Range; source_Period := Period
|}.
Proof.
  - intros exceeds p Hp. destruct (Int63_returns p Hp) as (v & p' & H & _ & Hp'). exists (exceeds v), p'.
    unfold FlipWeightedCoin. rewrite (stres_bind_run _ _ _ _ _ H). done.
  - intros fuel min max p Hp Hm. by apply Range_yields.
  - intros fuel min max p Hp Hmin Hmax. by apply Period_yields.
Defined.
