(* ===== verification/Fragmentor.v ===== *)
(** * The fragmentor

    Models src/psiphon/common/fragmentor/fragmentor.go: a connection that splits what is
    written to it into smaller writes with random sizes and delays, until a random total.

    The generator is any [RandomSource], of which [PRNG_source] is the one in use.  The
    underlying [net.Conn] is a class with the contract of [io.Writer] as its law.  Whether
    the context of the connection ends before the timer of an iteration is the argument
    [interrupted].  A notice is a record in place of its text. *)

From Stdlib Require Import ZArith Lia Strings.Byte.
From stdpp Require Import base gmap list sets strings numbers.
From S2P Require Import Prelude.
From S2P Require Import GoStrings.
From S2P Require Import Protocol.
From S2P Require Import PRNG.
#[local] Open Scope string_scope.
#[local] Open Scope Z_scope.
#[local] Open Scope list_scope.

Definition MAX_FRAGMENTOR_NOTICES : Z := 3.
Definition MAX_FRAGMENTOR_ITERATIONS_PER_NOTICE : nat := 5.

(** The connection that is wrapped.  [conn_writes] is what each [Write] has accepted. *)
Class UnderlyingConn (U : Type) := {
  conn_Write : bytes -> U -> nat * option string * U;
  conn_Close : U -> option string * U;
  conn_CloseWrite : option (U -> option string * U);
  conn_GetMetrics : U -> option (gmap string Z);
  conn_writes : U -> list bytes;
  conn_Write_law b u n err u' : conn_Write b u = (n, err, u') ->
    (n <= length b)%nat /\ ((n < length b)%nat -> err <> None) /\ conn_writes u' = conn_writes u ++ [take n b]
}.

(** [parameters.ParametersAccessor], as far as it is used here. *)
Record ParametersAccessor (F : Type) := {
  p_Int : string -> Z;
  p_Float : string -> F;
  p_Duration : string -> Z;
  p_TunnelProtocols : string -> list string
}.
Arguments p_Int {F}. Arguments p_Float {F}. Arguments p_Duration {F}. Arguments p_TunnelProtocols {F}.

Record Config (F G : Type) := {
  isUpstream : bool;
  probability : F;
  minTotalBytes : Z;
  maxTotalBytes : Z;
  minWriteBytes : Z;
  maxWriteBytes : Z;
  minDelay : Z;
  maxDelay : Z;
  config_fragmentPRNG : option G
}.
Arguments isUpstream {F G}. Arguments probability {F G}. Arguments minTotalBytes {F G}. Arguments maxTotalBytes {F G}.
Arguments minWriteBytes {F G}. Arguments maxWriteBytes {F G}. Arguments minDelay {F G}. Arguments maxDelay {F G}.
Arguments config_fragmentPRNG {F G}.

(** The text of a notice: the bytes of the write, the delay and size of the first fragments,
    and whether there were more. *)
Record Notice := { notice_bytes : nat; notice_parts : list (Z * nat); notice_more : bool }.

Record Conn (F G U : Type) := {
  underlying : U;
  config : Config F G;
  noticeEmitter : option (list Notice);
  stopped : bool;
  isClosed : bool;
  numNotices : Z;
  isReplay : bool;
  fragmentPRNG : option G;
  bytesToFragment : Z;
  bytesFragmented : Z;
  maxBytesWritten : Z;
  minBytesWritten : Z;
  minDelayed : Z;
  maxDelayed : Z
}.
Arguments underlying {F G U}. Arguments config {F G U}. Arguments noticeEmitter {F G U}. Arguments stopped {F G U}.
Arguments isClosed {F G U}. Arguments numNotices {F G U}. Arguments isReplay {F G U}. Arguments fragmentPRNG {F G U}.
Arguments bytesToFragment {F G U}. Arguments bytesFragmented {F G U}. Arguments maxBytesWritten {F G U}.
Arguments minBytesWritten {F G U}. Arguments minDelayed {F G U}. Arguments maxDelayed {F G U}.

Section Fragmentor.
Context {F G U : Type} `{!RandomSource G} `{!UnderlyingConn U}.

(** [exceeds weight] is the comparison of [FlipWeightedCoin]; [draws] the fuel of a draw. *)
Context (exceeds : F -> Z -> bool) (draws : nat).

Abbreviation config_t := (Config F G).
Abbreviation conn := (Conn F G U).

(** ** Configuration *)

Definition newConfig (newPRNG : bytes -> G) (p : ParametersAccessor F) (upstream : bool)
  (tunnelProtocol : string) (seed : option bytes) : option config_t :=
  if negb (TunnelProtocolIsCompatibleWithFragmentor tunnelProtocol) then None
  else
    let name (s : string) : string := ((if upstream then "Fragmentor" else "FragmentorDownstream") +:+ s)%string in
    let tunnelProtocols := p_TunnelProtocols p (name "LimitProtocols") in
    if (p_Int p (name "MaxTotalBytes") =? 0) ||
       ((0 <? Z.of_nat (length tunnelProtocols)) && negb (list_Contains tunnelProtocols tunnelProtocol)) then None
    else Some {|
      isUpstream := upstream;
      probability := p_Float p (name "Probability");
      minTotalBytes := p_Int p (name "MinTotalBytes");
      maxTotalBytes := p_Int p (name "MaxTotalBytes");
      minWriteBytes := p_Int p (name "MinWriteBytes");
      maxWriteBytes := p_Int p (name "MaxWriteBytes");
      minDelay := p_Duration p (name "MinDelay");
      maxDelay := p_Duration p (name "MaxDelay");
      config_fragmentPRNG := option_map newPRNG seed |}.

Definition NewUpstreamConfig newPRNG p := newConfig newPRNG p true.
Definition NewDownstreamConfig newPRNG p := newConfig newPRNG p false.

Definition MayFragment (config : option config_t) : bool := bool_decide (is_Some config).

Definition NewConn (cfg : config_t) (emitter : option (list Notice)) (u : U) : conn := {|
  underlying := u; config := cfg; noticeEmitter := emitter; stopped := false; isClosed := false; numNotices := 0;
  isReplay := false; fragmentPRNG := config_fragmentPRNG cfg; bytesToFragment := -1; bytesFragmented := 0;
  maxBytesWritten := 0; minBytesWritten := 0; minDelayed := 0; maxDelayed := 0 |}.

(** ** Updates *)

Definition set_underlying (c : conn) (u : U) : conn := {|
  underlying := u; config := config c; noticeEmitter := noticeEmitter c; stopped := stopped c; isClosed := isClosed c;
  numNotices := numNotices c; isReplay := isReplay c; fragmentPRNG := fragmentPRNG c; bytesToFragment := bytesToFragment c;
  bytesFragmented := bytesFragmented c; maxBytesWritten := maxBytesWritten c; minBytesWritten := minBytesWritten c;
  minDelayed := minDelayed c; maxDelayed := maxDelayed c |}.

Definition set_PRNG (c : conn) (g : option G) (replay : bool) : conn := {|
  underlying := underlying c; config := config c; noticeEmitter := noticeEmitter c; stopped := stopped c; isClosed := isClosed c;
  numNotices := numNotices c; isReplay := replay; fragmentPRNG := g; bytesToFragment := bytesToFragment c;
  bytesFragmented := bytesFragmented c; maxBytesWritten := maxBytesWritten c; minBytesWritten := minBytesWritten c;
  minDelayed := minDelayed c; maxDelayed := maxDelayed c |}.

Definition set_counts (c : conn) (toFragment fragmented : Z) : conn := {|
  underlying := underlying c; config := config c; noticeEmitter := noticeEmitter c; stopped := stopped c; isClosed := isClosed c;
  numNotices := numNotices c; isReplay := isReplay c; fragmentPRNG := fragmentPRNG c; bytesToFragment := toFragment;
  bytesFragmented := fragmented; maxBytesWritten := maxBytesWritten c; minBytesWritten := minBytesWritten c;
  minDelayed := minDelayed c; maxDelayed := maxDelayed c |}.

Definition set_stats (c : conn) (bytesWritten delay : Z) : conn := {|
  underlying := underlying c; config := config c; noticeEmitter := noticeEmitter c; stopped := stopped c; isClosed := isClosed c;
  numNotices := numNotices c; isReplay := isReplay c; fragmentPRNG := fragmentPRNG c; bytesToFragment := bytesToFragment c;
  bytesFragmented := bytesFragmented c;
  maxBytesWritten := if maxBytesWritten c <? bytesWritten then bytesWritten else maxBytesWritten c;
  minBytesWritten := if (minBytesWritten c =? 0) || (bytesWritten <? minBytesWritten c) then bytesWritten else minBytesWritten c;
  minDelayed := if (minDelayed c =? 0) || (delay <? minDelayed c) then delay else minDelayed c;
  maxDelayed := if maxDelayed c <? delay then delay else maxDelayed c |}.

Definition set_notices (c : conn) (emitter : option (list Notice)) (n : Z) : conn := {|
  underlying := underlying c; config := config c; noticeEmitter := emitter; stopped := stopped c; isClosed := isClosed c;
  numNotices := n; isReplay := isReplay c; fragmentPRNG := fragmentPRNG c; bytesToFragment := bytesToFragment c;
  bytesFragmented := bytesFragmented c; maxBytesWritten := maxBytesWritten c; minBytesWritten := minBytesWritten c;
  minDelayed := minDelayed c; maxDelayed := maxDelayed c |}.

Definition set_closed (c : conn) : conn := {|
  underlying := underlying c; config := config c; noticeEmitter := noticeEmitter c; stopped := true; isClosed := true;
  numNotices := numNotices c; isReplay := isReplay c; fragmentPRNG := fragmentPRNG c; bytesToFragment := bytesToFragment c;
  bytesFragmented := bytesFragmented c; maxBytesWritten := maxBytesWritten c; minBytesWritten := minBytesWritten c;
  minDelayed := minDelayed c; maxDelayed := maxDelayed c |}.

(** ** Operations *)

Definition SetReplay (c : conn) (PRNG : option G) : conn :=
  match fragmentPRNG c, PRNG with
  | None, Some g => set_PRNG c (Some g) true
  | _, _ => c
  end.

Definition GetReplay (c : conn) : option bytes * bool := (option_map source_seed (fragmentPRNG c), isReplay c).

Definition StopFragmenting (c : conn) : conn := set_counts c 0 (bytesFragmented c).

Definition GetMetrics (c : conn) : gmap string Z :=
  let prefix := if isUpstream (config c) then "upstream_" else "downstream_" in
  let logFields : gmap string Z :=
    if 0 <? bytesFragmented c then
      <[(prefix +:+ "max_delayed")%string := Z.quot (maxDelayed c) 1000]>
      (<[(prefix +:+ "min_delayed")%string := Z.quot (minDelayed c) 1000]>
      (<[(prefix +:+ "max_bytes_written")%string := maxBytesWritten c]>
      (<[(prefix +:+ "min_bytes_written")%string := minBytesWritten c]>
      (<[(prefix +:+ "bytes_fragmented")%string := bytesFragmented c]> ∅))))
    else ∅ in
  match conn_GetMetrics (underlying c) with
  | Some metrics => logFields ∪ metrics
  | None => logFields
  end.

(** A draw from the generator of the connection. *)
Definition with_PRNG {A} (m : stres G A) : stres conn A := fun c =>
  match fragmentPRNG c with
  | None => Panic "nil pointer dereference"
  | Some g => '(a, g) ← m g; Ok (a, set_PRNG c (Some g) (isReplay c))
  end.

(** [c.Conn.Write(b)] *)
Definition Conn_Write (b : bytes) : stres conn (nat * option string) := fun c =>
  let '(n, err, u) := conn_Write b (underlying c) in Ok ((n, err), set_underlying c u).

Definition modify (f : conn -> conn) : stres conn unit := fun c => Ok (tt, f c).

(** [if c.bytesToFragment == -1 { ... }] *)
Definition choose_total : stres conn unit :=
  c ← st_get;
  if bytesToFragment c =? -1 then
    heads ← with_PRNG (source_Flip (exceeds (probability (config c))));
    if (heads : bool) then
      n ← with_PRNG (source_Range draws (minTotalBytes (config c)) (maxTotalBytes (config c)));
      modify (fun c => set_counts c n (bytesFragmented c))
    else modify (fun c => set_counts c 0 (bytesFragmented c))
  else mret tt.

(** What iteration [i] adds to the notice. *)
Definition notice_step (i : nat) (delay : Z) (bytesWritten : nat) (notice : Notice) : Notice :=
  if (i <? MAX_FRAGMENTOR_ITERATIONS_PER_NOTICE)%nat then
    {| notice_bytes := notice_bytes notice; notice_parts := notice_parts notice ++ [(delay, bytesWritten)]; notice_more := notice_more notice |}
  else if (i =? MAX_FRAGMENTOR_ITERATIONS_PER_NOTICE)%nat then
    {| notice_bytes := notice_bytes notice; notice_parts := notice_parts notice; notice_more := true |}
  else notice.

(** The writes of an iteration; [next] is the next one, with the remaining buffer. *)
Definition send_fragment (next : bytes -> nat -> Notice -> stres conn (nat * option string * Notice))
  (i : nat) (buffer : bytes) (total : nat) (notice : Notice) (delay writeBytes : Z)
  : stres conn (nat * option string * Notice) :=
  if (writeBytes <? 0) || (Z.of_nat (length buffer) <? writeBytes) then st_lift (Panic "slice bounds out of range")
  else
    r ← Conn_Write (take (Z.to_nat writeBytes) buffer);
    let '(bytesWritten, err) := (r : nat * option string) in
    let total := (total + bytesWritten)%nat in
    _ ← modify (fun c => set_counts c (bytesToFragment c) (wrapS 64 (bytesFragmented c + Z.of_nat bytesWritten)));
    match err with
    | Some e => mret (total, Some e, notice)
    | None =>
        _ ← modify (fun c => set_stats c (Z.of_nat bytesWritten) delay);
        let notice := notice_step i delay bytesWritten notice in
        let buffer := drop (Z.to_nat writeBytes) buffer in
        c ← st_get;
        if bytesToFragment c <=? bytesFragmented c then
          r ← Conn_Write buffer;
          let '(bytesWritten, err) := (r : nat * option string) in
          let total := (total + bytesWritten)%nat in
          match err with
          | Some e => mret (total, Some e, notice)
          | None => next [] total notice
          end
        else next buffer total notice
    end.

(** The loop of [Write]; its last result is the notice when the loop ended without an error. *)
Fixpoint write_loop (fuel : nat) (interrupted : nat -> bool) (i : nat) (buffer : bytes) (total : nat) (notice : Notice)
  : stres conn (nat * option string * Notice) :=
  if (length buffer =? 0)%nat then mret (total, None, notice)
  else match fuel with
  | O => fun _ => NoFuel
  | S fuel =>
      c ← st_get;
      delay ← with_PRNG (source_Period draws (minDelay (config c)) (maxDelay (config c)));
      if interrupted i then mret (total, Some "context canceled", notice)
      else
        let len := Z.of_nat (length buffer) in
        let minWrite := if len <? minWriteBytes (config c) then len else minWriteBytes (config c) in
        let maxWrite := if len <? maxWriteBytes (config c) then len else maxWriteBytes (config c) in
        writeBytes ← with_PRNG (source_Range draws minWrite maxWrite);
        send_fragment (write_loop fuel interrupted (S i)) i buffer total notice delay writeBytes
  end.

Definition Write (fuel : nat) (interrupted : nat -> bool) (buffer : bytes) : stres conn (nat * option string) :=
  c ← st_get;
  if bool_decide (fragmentPRNG c = None) then mret (0%nat, Some "missing fragmentPRNG")
  else
    _ ← choose_total;
    c ← st_get;
    if bytesToFragment c <=? bytesFragmented c then Conn_Write buffer
    else
      let emitNotice := bool_decide (is_Some (noticeEmitter c)) && (numNotices c <? MAX_FRAGMENTOR_NOTICES) in
      r ← write_loop fuel interrupted 0 buffer 0 {| notice_bytes := length buffer; notice_parts := []; notice_more := false |};
      let '(n, err, notice) := (r : nat * option string * Notice) in
      _ ← (if emitNotice && bool_decide (err = None) then
             modify (fun c => set_notices c (option_map (fun l => l ++ [notice]) (noticeEmitter c)) (numNotices c + 1))
           else mret tt);
      mret (n, err).

Definition CloseWrite : stres conn (option string) := fun c =>
  match conn_CloseWrite with
  | Some f => let '(err, u) := f (underlying c) in Ok (err, set_underlying c u)
  | None => Ok (Some "underlying conn is not a CloseWriter", c)
  end.

Definition Close : stres conn (option string) := fun c =>
  if isClosed c then Ok (None, c)
  else let c := set_closed c in
       let '(err, u) := conn_Close (underlying c) in Ok (err, set_underlying c u).

Definition IsClosed (c : conn) : bool := isClosed c.

(** ** Specification *)

Record config_ok (cfg : config_t) : Prop := {
  co_minDelay : 0 <= minDelay cfg < 2 ^ 63;
  co_maxDelay : 0 <= maxDelay cfg < 2 ^ 63;
  co_minTotal : minTotalBytes cfg < 2 ^ 62;
  co_maxTotal : maxTotalBytes cfg < 2 ^ 62
}.

Record conn_ok (c : conn) : Prop := {
  ok_config : config_ok (config c);
  ok_PRNG : forall g, fragmentPRNG c = Some g -> source_ok g;
  ok_toFragment : -1 <= bytesToFragment c < 2 ^ 62;
  ok_fragmented : 0 <= bytesFragmented c < 2 ^ 63;
  ok_notices : 0 <= numNotices c <= MAX_FRAGMENTOR_NOTICES;
  ok_emitter : forall l, noticeEmitter c = Some l -> Z.of_nat (length l) = numNotices c /\
    Forall (fun n => (length (notice_parts n) <= MAX_FRAGMENTOR_ITERATIONS_PER_NOTICE)%nat) l
}.

(** [w] bytes are a fragment of what is left. *)
Definition fragment_size (cfg : config_t) (buffer : bytes) (w : nat) : Prop :=
  in_range (Z.min (Z.of_nat (length buffer)) (minWriteBytes cfg)) (Z.min (Z.of_nat (length buffer)) (maxWriteBytes cfg)) (Z.of_nat w).

(** The writes that [buffer] may be split into when [fragmented] of [limit] bytes have been
    fragmented before, and the bytes fragmented after them. *)
Inductive splits (cfg : config_t) (limit : Z) : Z -> bytes -> list bytes -> Z -> Prop :=
| splits_stop fragmented buffer : splits cfg limit fragmented buffer [] fragmented
| splits_failed fragmented buffer w n :
    fragmented < limit -> fragment_size cfg buffer w -> (n <= w)%nat ->
    splits cfg limit fragmented buffer [take n buffer] (fragmented + Z.of_nat n)
| splits_rest fragmented buffer w n :
    fragmented < limit -> fragment_size cfg buffer w -> limit <= fragmented + Z.of_nat w ->
    splits cfg limit fragmented buffer [take w buffer; take n (drop w buffer)] (fragmented + Z.of_nat w)
| splits_more fragmented buffer w writes fragmented' :
    fragmented < limit -> fragment_size cfg buffer w -> fragmented + Z.of_nat w < limit ->
    splits cfg limit (fragmented + Z.of_nat w) (drop w buffer) writes fragmented' ->
    splits cfg limit fragmented buffer (take w buffer :: writes) fragmented'.

Lemma fragment_size_le cfg buffer w : fragment_size cfg buffer w ->
  (w <= length buffer)%nat /\ Z.of_nat w <= Z.max 0 (Z.max (minWriteBytes cfg) (maxWriteBytes cfg)).
Proof. unfold fragment_size, in_range. case_bool_decide; lia. Qed.

Lemma splits_bound cfg limit fragmented buffer ws fragmented' :
  splits cfg limit fragmented buffer ws fragmented' ->
  let m := Z.max 0 (Z.max (minWriteBytes cfg) (maxWriteBytes cfg)) in
  fragmented <= fragmented' <= Z.max fragmented (limit - 1 + m) /\
  Forall (fun w => Z.of_nat (length w) <= m) (take (length ws - 1) ws).
Proof.
  intros H m. remember m as m' eqn:Em. unfold m in Em. assert (0 <= m') by lia. clear m.
  induction H as [|f b w n Hf [Hl Hw]%fragment_size_le Hn|f b w n Hf [Hl Hw]%fragment_size_le Hr|f b w ws f' Hf [Hl Hw]%fragment_size_le Hr _ [IHb IH]];
    try rewrite <- Em in Hw.
  - split; [lia|constructor].
  - split; [lia|constructor].
  - split; [lia|]. cbn. constructor; [|constructor]. rewrite length_take. lia.
  - split; [lia|]. cbn [length]. destruct ws as [|v ws]; [constructor|]. cbn [length take Nat.sub] in *. rewrite Nat.sub_0_r in IH.
    constructor; [rewrite length_take; lia|exact IH].
Qed.

(** ** Properties *)

Lemma with_PRNG_run {A} (m : stres G A) (Q : A -> Prop) c g :
  conn_ok c -> fragmentPRNG c = Some g ->
  (m g = NoFuel \/ exists a g', m g = Ok (a, g') /\ Q a /\ source_ok g') ->
  (with_PRNG m c = NoFuel /\ m g = NoFuel) \/
  exists a g', with_PRNG m c = Ok (a, set_PRNG c (Some g') (isReplay c)) /\ Q a /\ conn_ok (set_PRNG c (Some g') (isReplay c)).
Proof.
  intros [] Hg Hm. unfold with_PRNG. rewrite Hg. destruct Hm as [E|(a & g' & -> & Ha & Hg')]; [left; by rewrite E|right].
  exists a, g'. split_and!; [done|done|]. split; cbn; try done. by intros ? [= <-].
Qed.

Lemma Conn_Write_run b c :
  conn_ok c -> exists n err u, Conn_Write b c = Ok ((n, err), set_underlying c u) /\ conn_ok (set_underlying c u) /\
    (n <= length b)%nat /\ ((n < length b)%nat -> err <> None) /\ conn_writes u = conn_writes (underlying c) ++ [take n b].
Proof.
  intros []. unfold Conn_Write. destruct (conn_Write b (underlying c)) as [[n err] u] eqn:E.
  apply conn_Write_law in E as (? & ? & ?). exists n, err, u. split_and!; try done.
Qed.

Lemma fragment_ok (len min max w : Z) : 0 <= len ->
  in_range (if len <? min then len else min) (if len <? max then len else max) w ->
  (w <? 0) || (len <? w) = false /\ in_range (Z.min len min) (Z.min len max) (Z.of_nat (Z.to_nat w)).
Proof.
  intros Hl. replace (if len <? min then len else min) with (Z.min len min) by (destruct (Z.ltb_spec len min); lia).
  replace (if len <? max then len else max) with (Z.min len max) by (destruct (Z.ltb_spec len max); lia).
  intros H. assert (0 <= w <= len) by (unfold in_range in H; revert H; case_bool_decide; lia).
  split; [|by rewrite Z2Nat.id by lia]. apply orb_false_iff. split; apply Z.ltb_ge; lia.
Qed.

(** The state after a write of [n] bytes of a fragment. *)
Lemma fragmented_ok c n : conn_ok c -> bytesFragmented c < bytesToFragment c -> Z.of_nat n < 2 ^ 62 ->
  wrapS 64 (bytesFragmented c + Z.of_nat n) = bytesFragmented c + Z.of_nat n /\
  conn_ok (set_counts c (bytesToFragment c) (bytesFragmented c + Z.of_nat n)).
Proof. intros [] Hf Hn. split; [apply wrapS_id; lia|]. split; cbn; try done; lia. Qed.

Lemma stats_ok c n d : conn_ok c -> conn_ok (set_stats c n d).
Proof. intros []. by split. Qed.

Lemma notice_step_parts i d n notice :
  (length (notice_parts notice) <= Nat.min i MAX_FRAGMENTOR_ITERATIONS_PER_NOTICE)%nat ->
  (length (notice_parts (notice_step i d n notice)) <= Nat.min (S i) MAX_FRAGMENTOR_ITERATIONS_PER_NOTICE)%nat.
Proof.
  unfold notice_step, MAX_FRAGMENTOR_ITERATIONS_PER_NOTICE. destruct (Nat.ltb_spec i 5); [|destruct (Nat.eqb_spec i 5)]; cbn [notice_parts]; [rewrite length_app; cbn; lia|lia..].
Qed.

(** What a run of the loop has done. *)
Record loop_done (c : conn) (buffer : bytes) (n : nat) (err : option string) (notice : Notice) (c' : conn) : Prop := {
  ld_ok : conn_ok c';
  ld_config : config c' = config c;
  ld_toFragment : bytesToFragment c' = bytesToFragment c;
  ld_notices : noticeEmitter c' = noticeEmitter c /\ numNotices c' = numNotices c;
  ld_parts : (length (notice_parts notice) <= MAX_FRAGMENTOR_ITERATIONS_PER_NOTICE)%nat;
  ld_le : (n <= length buffer)%nat;
  ld_all : err = None -> n = length buffer;
  ld_PRNG : is_Some (fragmentPRNG c');
  ld_writes : exists ws, conn_writes (underlying c') = conn_writes (underlying c) ++ ws /\ concat ws = take n buffer /\
    splits (config c) (bytesToFragment c) (bytesFragmented c) buffer ws (bytesFragmented c')
}.

(** The fuel runs out only if [P]. *)
Definition loop_outcome (P : Prop) (c : conn) (buffer : bytes) (total : nat) (r : res (nat * option string * Notice * conn)) : Prop :=
  (r = NoFuel /\ P) \/ exists n err notice c', r = Ok (((total + n)%nat, err, notice), c') /\ loop_done c buffer n err notice c'.

(** The draws of the generator end. *)
Definition steady : Prop := forall g min max, source_ok g ->
  source_Range draws min max g <> NoFuel /\ source_Period draws min max g <> NoFuel.

Definition starved (fuel : nat) (buffer : bytes) (c : conn) : Prop :=
  steady -> 1 <= minWriteBytes (config c) -> (fuel < length buffer)%nat.

Lemma loop_done_stop c c' buffer err notice :
  conn_ok c' -> config c' = config c -> bytesToFragment c' = bytesToFragment c -> noticeEmitter c' = noticeEmitter c ->
  numNotices c' = numNotices c -> underlying c' = underlying c -> bytesFragmented c' = bytesFragmented c -> is_Some (fragmentPRNG c') ->
  (length (notice_parts notice) <= MAX_FRAGMENTOR_ITERATIONS_PER_NOTICE)%nat -> (err = None -> buffer = []) ->
  loop_done c buffer 0 err notice c'.
Proof.
  intros Hok Hc Ht He Hn Hu Hf Hp Hparts Herr. split; try done; [lia|by intros ->%Herr|].
  exists []. rewrite Hu, Hf, app_nil_r, take_0. split_and!; [done|done|constructor].
Qed.

Lemma modify_bind {A} f (k : unit -> stres conn A) c : (modify f ≫= k) c = k tt (f c).
Proof. done. Qed.

Lemma get_bind {A} (k : conn -> stres conn A) c : (st_get ≫= k) c = k c c.
Proof. done. Qed.

(** [c'] is the connection [c] after a fragment of [w] bytes. *)
Record fragment_sent (c : conn) (buffer : bytes) (w : nat) (c' : conn) : Prop := {
  fs_ok : conn_ok c';
  fs_PRNG : is_Some (fragmentPRNG c');
  fs_config : config c' = config c;
  fs_toFragment : bytesToFragment c' = bytesToFragment c;
  fs_emitter : noticeEmitter c' = noticeEmitter c;
  fs_numNotices : numNotices c' = numNotices c;
  fs_writes : conn_writes (underlying c') = conn_writes (underlying c) ++ [take w buffer];
  fs_fragmented : bytesFragmented c' = bytesFragmented c + Z.of_nat w;
  fs_before : bytesFragmented c < bytesToFragment c;
  fs_size : fragment_size (config c) buffer w
}.

(** The last fragment is followed by the rest of the buffer. *)
Lemma rest_done P (next : bytes -> nat -> Notice -> stres conn (nat * option string * Notice)) buffer total notice w c c' :
  fragment_sent c buffer w c' -> bytesToFragment c' <= bytesFragmented c' ->
  (length (notice_parts notice) <= MAX_FRAGMENTOR_ITERATIONS_PER_NOTICE)%nat ->
  (forall total notice c', next [] total notice c' = Ok ((total, None, notice), c')) ->
  loop_outcome P c buffer total
    ((r ← Conn_Write (drop w buffer);
      let '(bytesWritten, err) := (r : nat * option string) in
      match err with
      | Some e => mret ((total + w + bytesWritten)%nat, Some e, notice)
      | None => next [] (total + w + bytesWritten)%nat notice
      end) c').
Proof.
  intros [Hok Hg Hc Ht He Hn Hws Hb Hlt Hsize] Hend Hparts Hnil. pose proof (fragment_size_le _ _ _ Hsize) as [Hw _].
  destruct (Conn_Write_run (drop w buffer) c' Hok) as (n & err & u & E & Hok' & Hln & Herr & Hws').
  rewrite (stres_bind_run _ _ _ _ _ E). rewrite length_drop in *.
  right. exists (w + n)%nat, err, notice, (set_underlying c' u). split.
  { destruct err; [|rewrite Hnil]; by rewrite Nat.add_assoc. }
  split; try done; [lia| |].
  { intros ->. destruct (decide (n < length buffer - w)%nat) as [Hlt'|]; [by destruct (Herr Hlt')|lia]. }
  exists [take w buffer; take n (drop w buffer)]. cbn [underlying set_underlying bytesFragmented].
  rewrite Hws', Hws, <- app_assoc. split_and!; [done|cbn [concat]; by rewrite app_nil_r, take_take_drop|].
  rewrite Hb. apply splits_rest; [done|done|lia].
Qed.

(** Otherwise by the next iteration. *)
Lemma more_done P buffer total w c c' r :
  fragment_sent c buffer w c' -> bytesFragmented c' < bytesToFragment c' ->
  loop_outcome P c' (drop w buffer) (total + w)%nat r -> loop_outcome P c buffer total r.
Proof.
  intros [Hok Hg Hc Ht He Hn Hws Hb Hlt Hsize] Hmore [[-> ?]|(n & err & notice & c2 & -> & [])]; [by left|right].
  pose proof (fragment_size_le _ _ _ Hsize) as [Hw _]. exists (w + n)%nat, err, notice, c2. split; [by rewrite Nat.add_assoc|].
  rewrite length_drop in *. split; try congruence; try done; [lia|intros Hnone; specialize (ld_all0 Hnone); lia|].
  destruct ld_writes0 as (ws & Hu & Hcat & Hs). exists (take w buffer :: ws). rewrite Hu, Hws, <- app_assoc.
  split_and!; [done|cbn [concat]; by rewrite Hcat, take_take_drop|]. rewrite Hc, Ht, Hb in Hs. apply splits_more; [done|done|lia|done].
Qed.

Lemma send_fragment_done (P : Prop) next i buffer total notice delay w c :
  conn_ok c -> is_Some (fragmentPRNG c) -> bytesFragmented c < bytesToFragment c -> Z.of_nat (length buffer) < 2 ^ 62 ->
  (length (notice_parts notice) <= Nat.min i MAX_FRAGMENTOR_ITERATIONS_PER_NOTICE)%nat ->
  0 <= w <= Z.of_nat (length buffer) -> fragment_size (config c) buffer (Z.to_nat w) ->
  (forall total notice c', next [] total notice c' = Ok ((total, None, notice), c')) ->
  (forall total notice c', conn_ok c' -> is_Some (fragmentPRNG c') -> bytesFragmented c' < bytesToFragment c' -> config c' = config c ->
    (length (notice_parts notice) <= Nat.min (S i) MAX_FRAGMENTOR_ITERATIONS_PER_NOTICE)%nat ->
    loop_outcome P c' (drop (Z.to_nat w) buffer) total (next (drop (Z.to_nat w) buffer) total notice c')) ->
  loop_outcome P c buffer total (send_fragment next i buffer total notice delay w c).
Proof.
  intros Hok Hg Hf Hlen Hparts Hw Hsize Hnil Hnext. unfold send_fragment.
  destruct (Z.ltb_spec w 0); [lia|]. destruct (Z.ltb_spec (Z.of_nat (length buffer)) w); [lia|]. cbn [orb].
  destruct (Conn_Write_run (take (Z.to_nat w) buffer) c Hok) as (n & err & u & E & Hok1 & Hn & Herr & Hws).
  rewrite (stres_bind_run _ _ _ _ _ E). clear E. cbn zeta. rewrite length_take in Hn, Herr. rewrite take_take in Hws.
  destruct (fragmented_ok _ n Hok1 Hf) as [Hwrap Hok2]; [lia|].
  rewrite modify_bind, Hwrap. cbn [bytesToFragment set_underlying] in *.
  set (c2 := set_counts _ _ _) in *. destruct err as [e|].
  { right. exists n, (Some e), notice, c2. split; [done|]. split; try done; [lia|lia|].
    exists [take n buffer]. cbn [underlying c2 set_counts set_underlying]. rewrite Hws. replace (n `min` Z.to_nat w)%nat with n by lia.
    split_and!; [done|by cbn; rewrite app_nil_r|]. apply (splits_failed _ _ _ _ (Z.to_nat w)); [done|done|lia]. }
  assert (n = Z.to_nat w) as ->. { destruct (decide (n < Z.to_nat w `min` length buffer)%nat) as [Hlt|]; [by destruct (Herr Hlt)|lia]. }
  rewrite Nat.min_id in Hws. clear Herr Hn. rewrite modify_bind. cbn zeta. rewrite get_bind.
  set (c3 := set_stats c2 _ _). pose proof (stats_ok c2 (Z.of_nat (Z.to_nat w)) delay Hok2 : conn_ok c3) as Hok3.
  pose proof (notice_step_parts i delay (Z.to_nat w) notice Hparts) as Hparts3. set (notice3 := notice_step _ _ _ _) in *.
  assert (fragment_sent c buffer (Z.to_nat w) c3) as Hsent by done.
  destruct (Z.leb_spec (bytesToFragment c3) (bytesFragmented c3)) as [Hend|Hmore].
  - apply (rest_done P next buffer total notice3 _ c c3); [done|done|lia|done].
  - by apply (more_done P buffer total (Z.to_nat w) c c3), Hnext.
Qed.

Lemma write_loop_nil fuel interrupted i total notice c :
  write_loop fuel interrupted i [] total notice c = Ok ((total, None, notice), c).
Proof. by destruct fuel. Qed.

Lemma Period_run c g : conn_ok c -> fragmentPRNG c = Some g ->
  (with_PRNG (source_Period draws (minDelay (config c)) (maxDelay (config c))) c = NoFuel /\ ~ steady) \/
  exists d g', with_PRNG (source_Period draws (minDelay (config c)) (maxDelay (config c))) c = Ok (d, set_PRNG c (Some g') (isReplay c)) /\
    conn_ok (set_PRNG c (Some g') (isReplay c)).
Proof.
  intros Hok Hg. pose proof (ok_config c Hok) as [Hmin Hmax _ _].
  destruct (with_PRNG_run _ _ c g Hok Hg (source_Period_law draws _ _ g (ok_PRNG c Hok g Hg) Hmin Hmax)) as [[E En]|(d & g' & E & _ & Hok')]; [left|eauto].
  split; [done|]. intros Hs. by apply (Hs g _ _ (ok_PRNG c Hok g Hg)) in En.
Qed.

Lemma Range_run c g min max : conn_ok c -> fragmentPRNG c = Some g -> max < 2 ^ 63 ->
  (with_PRNG (source_Range draws min max) c = NoFuel /\ ~ steady) \/
  exists v g', with_PRNG (source_Range draws min max) c = Ok (v, set_PRNG c (Some g') (isReplay c)) /\ in_range min max v /\
    conn_ok (set_PRNG c (Some g') (isReplay c)).
Proof.
  intros Hok Hg Hm. destruct (with_PRNG_run _ _ c g Hok Hg (source_Range_law draws min max g (ok_PRNG c Hok g Hg) Hm)) as [[E En]|(v & g' & E & ? & ?)]; [left|right; eauto].
  split; [done|]. intros Hs. by apply (Hs g _ _ (ok_PRNG c Hok g Hg)) in En.
Qed.

Lemma bind_NoFuel {A B} (m : stres conn A) (k : A -> stres conn B) c : m c = NoFuel -> (m ≫= k) c = NoFuel.
Proof. intros E. unfold mbind, stres_mbind. by rewrite E. Qed.

Lemma loop_outcome_PRNG P c g replay buffer total r :
  loop_outcome P (set_PRNG c g replay) buffer total r -> loop_outcome P c buffer total r.
Proof. intros [[-> ?]|(n & err & notice & c' & -> & [])]; [by left|right]. by exists n, err, notice, c'. Qed.

Lemma loop_outcome_weaken (P Q : Prop) c buffer total r : (P -> Q) -> loop_outcome P c buffer total r -> loop_outcome Q c buffer total r.
Proof. intros H [[-> ?]|?]; [left; auto|by right]. Qed.

Lemma write_loop_done fuel interrupted : forall i buffer total notice c,
  conn_ok c -> is_Some (fragmentPRNG c) -> bytesFragmented c < bytesToFragment c -> Z.of_nat (length buffer) < 2 ^ 62 ->
  (length (notice_parts notice) <= Nat.min i MAX_FRAGMENTOR_ITERATIONS_PER_NOTICE)%nat ->
  loop_outcome (starved fuel buffer c) c buffer total (write_loop fuel interrupted i buffer total notice c).
Proof.
  induction fuel as [|fuel IH]; intros i buffer total notice c Hok [g Hg] Hf Hlen Hparts; cbn [write_loop];
    (destruct (Nat.eqb_spec (length buffer) 0) as [Hnil%nil_length_inv|Hne];
     [right; exists 0%nat, None, notice, c; rewrite Nat.add_0_r; split; [done|]; by apply loop_done_stop; try done; lia|]).
  { left. split; [done|]. intros _ _. lia. }
  rewrite get_bind. destruct (Period_run c g Hok Hg) as [[E Hn]|(delay & g1 & E & Hok1)]; [left; split; [by apply bind_NoFuel|by intros ?]|].
  rewrite (stres_bind_run _ _ _ _ _ E). clear E. set (c1 := set_PRNG c (Some g1) (isReplay c)) in *. destruct (interrupted i).
  { right. exists 0%nat, (Some "context canceled"), notice, c1. rewrite Nat.add_0_r. split; [done|]. apply loop_done_stop; try done; lia. }
  cbn zeta. set (minWrite := if _ <? minWriteBytes _ then _ else _). set (maxWrite := if _ <? maxWriteBytes _ then _ else _).
  assert (maxWrite < 2 ^ 63) as Hmax by (unfold maxWrite; destruct (Z.ltb_spec (Z.of_nat (length buffer)) (maxWriteBytes (config c))); lia).
  destruct (Range_run c1 g1 minWrite maxWrite Hok1 eq_refl Hmax) as [[E Hn]|(w & g2 & E & Hw & Hok2)]; [left; split; [by apply bind_NoFuel|by intros ?]|].
  rewrite (stres_bind_run _ _ _ _ _ E). clear E. apply fragment_ok in Hw as [[Hw0 Hw1]%orb_false_iff Hsize]; [|lia].
  apply (loop_outcome_PRNG _ _ (Some g1) (isReplay c)), (loop_outcome_PRNG _ _ (Some g2) (isReplay c1)),
    (send_fragment_done _ _ i buffer total notice delay w _ Hok2); [done|done|done|done|lia|exact Hsize| |].
  - intros. apply write_loop_nil.
  - intros t n c' Hok' Hg' Hf' Hcfg Hp'. eapply loop_outcome_weaken; [|apply IH; try done; rewrite length_drop; lia].
    unfold starved. rewrite Hcfg, length_drop. intros Hst Hs Hmin. specialize (Hst Hs Hmin).
    unfold in_range in Hsize. revert Hsize. case_bool_decide; lia.
Qed.

(** The connection with the total selected. *)
Record total_chosen (c c' : conn) : Prop := {
  tc_ok : conn_ok c';
  tc_PRNG : is_Some (fragmentPRNG c');
  tc_config : config c' = config c;
  tc_underlying : underlying c' = underlying c;
  tc_fragmented : bytesFragmented c' = bytesFragmented c;
  tc_notices : noticeEmitter c' = noticeEmitter c /\ numNotices c' = numNotices c;
  tc_total : 0 <= bytesToFragment c';
  tc_kept : bytesToFragment c <> -1 -> bytesToFragment c' = bytesToFragment c;
  tc_new : bytesToFragment c = -1 -> bytesToFragment c' = 0 \/ in_range (minTotalBytes (config c)) (maxTotalBytes (config c)) (bytesToFragment c')
}.

Lemma counts_ok c n : conn_ok c -> -1 <= n < 2 ^ 62 -> conn_ok (set_counts c n (bytesFragmented c)).
Proof. intros [] Hn. by split. Qed.

Lemma choose_total_run c : conn_ok c -> is_Some (fragmentPRNG c) ->
  (choose_total c = NoFuel /\ ~ steady) \/ exists c', choose_total c = Ok (tt, c') /\ total_chosen c c'.
Proof.
  intros Hok [g Hg]. unfold choose_total. rewrite get_bind. destruct (Z.eqb_spec (bytesToFragment c) (-1)) as [E|E].
  2:{ right. exists c. split; [done|]. pose proof (ok_toFragment c Hok). split; try done; lia. }
  destruct (source_Flip_law (exceeds (probability (config c))) g (ok_PRNG c Hok g Hg)) as (heads & g1 & Hflip & Hg1).
  destruct (with_PRNG_run (source_Flip (exceeds (probability (config c)))) (fun _ => True) c g Hok Hg) as [[_ Hn]|(b & g2 & Hrun & _ & Hok1)];
    [right; by exists heads, g1|by rewrite Hflip in Hn|].
  rewrite (stres_bind_run _ _ _ _ _ Hrun). set (c1 := set_PRNG c (Some g2) (isReplay c)) in *. destruct b.
  - pose proof (ok_config c Hok) as [_ _ Hmin Hmax].
    destruct (Range_run c1 g2 (minTotalBytes (config c)) (maxTotalBytes (config c)) Hok1 eq_refl ltac:(lia)) as [[Hr Hn]|(n & g3 & Hr & Hin & Hok2)];
      [left; split; [by apply bind_NoFuel|done]|]. right. rewrite (stres_bind_run _ _ _ _ _ Hr).
    assert (0 <= n < 2 ^ 62) as Hn by (unfold in_range in Hin; revert Hin; case_bool_decide; lia).
    eexists. split; [reflexivity|]. split; try done; [apply (counts_ok _ n Hok2); lia|cbn; lia|cbn; auto].
  - right. eexists. split; [reflexivity|]. split; try done; [apply (counts_ok _ 0 Hok1); lia|cbn; auto].
Qed.

(** What [Write] has done: [n] bytes of the buffer are written, in one write or split. *)
Record write_done (c : conn) (buffer : bytes) (n : nat) (err : option string) (c' : conn) : Prop := {
  wd_ok : conn_ok c';
  wd_config : config c' = config c;
  wd_le : (n <= length buffer)%nat;
  wd_all : err = None -> n = length buffer;
  wd_writes : exists ws, conn_writes (underlying c') = conn_writes (underlying c) ++ ws /\ concat ws = take n buffer /\
    (fragmentPRNG c = None /\ ws = [] /\ err <> None \/
     bytesToFragment c' <= bytesFragmented c' /\ ws = [take n buffer] /\ bytesFragmented c' = bytesFragmented c \/
     splits (config c) (bytesToFragment c') (bytesFragmented c) buffer ws (bytesFragmented c'))
}.

Lemma notices_ok c notice : conn_ok c -> (length (notice_parts notice) <= MAX_FRAGMENTOR_ITERATIONS_PER_NOTICE)%nat ->
  numNotices c < MAX_FRAGMENTOR_NOTICES ->
  conn_ok (set_notices c (option_map (fun l => l ++ [notice]) (noticeEmitter c)) (numNotices c + 1)).
Proof.
  intros [] Hp Hn. split; cbn; try done; [lia|]. destruct (noticeEmitter c) as [l|]; [|done]. intros ? [= <-].
  destruct (ok_emitter0 l eq_refl) as [Hl Hall]. rewrite length_app. cbn [length]. split; [lia|].
  apply list.Forall_app. split; [done|]. by constructor.
Qed.

Lemma Write_run fuel interrupted buffer c :
  conn_ok c -> Z.of_nat (length buffer) < 2 ^ 62 ->
  (Write fuel interrupted buffer c = NoFuel /\ starved fuel buffer c) \/
  exists n err c', Write fuel interrupted buffer c = Ok ((n, err), c') /\ write_done c buffer n err c'.
Proof.
  intros Hok Hlen. unfold Write. rewrite get_bind. case_bool_decide as Hnone.
  { right. exists 0%nat, (Some "missing fragmentPRNG"), c. split; [done|]. split; try done; [lia|].
    exists []. rewrite app_nil_r. split_and!; [done|done|]. left. done. }
  assert (is_Some (fragmentPRNG c)) as Hg by (by apply not_eq_None_Some).
  destruct (choose_total_run c Hok Hg) as [[E Hn]|(c1 & E & [])]; [left; split; [by apply bind_NoFuel|by intros ?]|].
  rewrite (stres_bind_run _ _ _ _ _ E), get_bind. clear E. destruct (Z.leb_spec (bytesToFragment c1) (bytesFragmented c1)) as [Hend|Hmore].
  - right. destruct (Conn_Write_run buffer c1 tc_ok0) as (n & err & u & -> & Hok2 & Hn & Herr & Hws).
    exists n, err, (set_underlying c1 u). split; [done|]. split; try done.
    { intros ->. destruct (decide (n < length buffer)%nat) as [Hlt|]; [by destruct (Herr Hlt)|lia]. }
    exists [take n buffer]. cbn [underlying set_underlying]. rewrite Hws, tc_underlying0. split_and!; [done|cbn; by rewrite app_nil_r|].
    right. left. done.
  - cbn zeta. destruct (write_loop_done fuel interrupted 0 buffer 0 {| notice_bytes := length buffer; notice_parts := []; notice_more := false |} c1)
      as [[E Hst]|(n & err & notice & c2 & E & [])]; [done|done|done|done|cbn; lia| |].
    { left. split; [by apply bind_NoFuel|]. unfold starved in *. by rewrite tc_config0 in Hst. }
    right. rewrite (stres_bind_run _ _ _ _ _ E). clear E. destruct ld_writes0 as (ws & Hws & Hcat & Hs).
    rewrite tc_underlying0 in Hws. rewrite tc_config0, tc_fragmented0, <- ld_toFragment0 in Hs.
    assert (forall c3, conn_ok c3 -> config c3 = config c2 -> underlying c3 = underlying c2 -> bytesToFragment c3 = bytesToFragment c2 ->
      bytesFragmented c3 = bytesFragmented c2 -> write_done c buffer n err c3) as Hdone.
    { intros c3 H3 Hc Hu Ht Hf. split; try done; [congruence|]. exists ws. rewrite Hu, Ht, Hf. auto. }
    destruct (bool_decide (is_Some (noticeEmitter c1)) && (numNotices c1 <? MAX_FRAGMENTOR_NOTICES)) eqn:He; cbn [andb].
    + apply andb_prop in He as [_ He%Z.ltb_lt]. case_bool_decide; eexists _, _, _; (split; [reflexivity|]); apply Hdone; try done.
      apply notices_ok; [done|done|]. destruct ld_notices0 as [_ ->]. done.
    + eexists _, _, _. split; [reflexivity|]. by apply Hdone.
Qed.

End Fragmentor.

(** C32: a fragmented connection delivers its input.  For every generator and underlying
    connection, configuration, state and buffer, [Write] never panics; what it writes is a
    prefix of the buffer, of the length that it returns, and all of it unless an error is
    returned; the writes are the buffer at once, or fragments with sizes in the configured
    range and, after the total is reached, the rest; at most three notices, of at most five
    fragments, are emitted; and the total is exceeded by less than a fragment. *)
Theorem Conn_Write_correct {F G U} `{!RandomSource G, !UnderlyingConn U} (exceeds : F -> Z -> bool) draws fuel interrupted buffer
  (c : Conn F G U) :
  conn_ok c -> Z.of_nat (length buffer) < 2 ^ 62 ->
  (Write exceeds draws fuel interrupted buffer c = NoFuel /\ starved draws fuel buffer c) \/
  exists n err c', Write exceeds draws fuel interrupted buffer c = Ok ((n, err), c') /\ write_done c buffer n err c' /\
    bytesFragmented c <= bytesFragmented c' <= Z.max (bytesFragmented c)
      (bytesToFragment c' - 1 + Z.max 0 (Z.max (minWriteBytes (config c)) (maxWriteBytes (config c)))).
Proof.
  intros Hok Hlen. destruct (Write_run exceeds draws fuel interrupted buffer c Hok Hlen) as [?|(n & err & c' & E & Hdone)]; [by left|right].
  exists n, err, c'. split_and!; [done|done|..];
    destruct Hdone as [_ _ _ _ (ws & _ & _ & [(Hnone & _)|[(_ & _ & ->)|Hs]])]; try lia;
    try (apply splits_bound in Hs as [Hs _]; lia); unfold Write in E; rewrite get_bind, bool_decide_eq_true_2 in E by done;
    injection E as _ _ <-; lia.
Qed.

(** [Write] returns.  When fragments have at least one byte, as the parameters require,
    and the draws of the generator end, an iteration of the loop per byte of the buffer is
    enough, however the random choices and the underlying connection behave. *)
Theorem Conn_Write_returns {F G U} `{!RandomSource G, !UnderlyingConn U} (exceeds : F -> Z -> bool) draws fuel interrupted buffer
  (c : Conn F G U) :
  conn_ok c -> Z.of_nat (length buffer) < 2 ^ 62 -> steady draws -> 1 <= minWriteBytes (config c) -> (length buffer <= fuel)%nat ->
  exists r, Write exceeds draws fuel interrupted buffer c = Ok r.
Proof.
  intros Hok Hlen Hs Hmin Hfuel. destruct (Write_run exceeds draws fuel interrupted buffer c Hok Hlen) as [[_ Hst]|(n & err & c' & -> & _)]; [|eauto].
  specialize (Hst Hs Hmin). lia.
Qed.

(** ** Examples *)

(** A generator that selects the largest values, and a connection that records its writes. *)
#[local, refine] Instance largest : RandomSource unit := {|
  source_ok := fun _ => True; source_seed := fun _ => [];
  source_Flip := fun exceeds g => Ok (exceeds (2 ^ 63 - 1), g);
  source_Range := fun _ min max g => Ok (Z.max (Z.max 0 min) max, g);
  source_Period := fun _ min max g => Ok (if bool_decide (max <= min) then min else max - 1, g)
|}.
Proof.
  - intros exceeds g _. eauto.
  - intros _ min max g _ _. right. eexists _, g. split; [done|]. split; [|done]. unfold in_range. case_bool_decide; lia.
  - intros _ min max g _ _ _. right. eexists _, g. split; [done|]. split; [|done]. unfold in_period. case_bool_decide; lia.
Defined.

#[local, refine] Instance recorder : UnderlyingConn (list bytes) := {|
  conn_Write := fun b u => (length b, None, u ++ [b]);
  conn_Close := fun u => (None, u);
  conn_CloseWrite := None;
  conn_GetMetrics := fun _ => None;
  conn_writes := fun u => u
|}.
Proof. intros b u n err u' [= <- <- <-]. rewrite take_ge by lia. split_and!; [lia|lia|done]. Defined.

Definition example_config : Config unit unit := {|
  isUpstream := true; probability := tt; minTotalBytes := 1; maxTotalBytes := 5; minWriteBytes := 1; maxWriteBytes := 3;
  minDelay := 0; maxDelay := 10; config_fragmentPRNG := Some tt |}.

Definition example_conn : Conn unit unit (list bytes) := NewConn example_config (Some []) [].

Lemma example_conn_ok : conn_ok example_conn.
Proof.
  split; [split| |..]; try (unfold MAX_FRAGMENTOR_NOTICES; cbn [example_conn NewConn example_config minDelay maxDelay minTotalBytes maxTotalBytes bytesToFragment bytesFragmented numNotices config]; lia).
  - done.
  - intros l [= <-]. done.
Qed.

Definition example_write : res (nat * option string * Conn unit unit (list bytes)) :=
  Write (fun _ _ => true) 0 9 (fun _ => false) [x00; x01; x02; x03; x04; x05; x06; x07; x08] example_conn.

Lemma Conn_Write_correct_witness :
  exists n err c', example_write = Ok ((n, err), c') /\ n = 9%nat /\ err = None /\
    conn_writes (underlying c') = [[x00; x01; x02]; [x03; x04; x05]; [x06; x07; x08]].
Proof.
  destruct (Conn_Write_correct (fun _ _ => true) 0 9 (fun _ => false) [x00; x01; x02; x03; x04; x05; x06; x07; x08] example_conn
    example_conn_ok ltac:(cbn; lia)) as [[H _]|(n & err & c' & H & Hdone & _)].
  - exfalso. revert H. vm_compute. discriminate.
  - exists n, err, c'. split; [exact H|]. assert (err = None) as He by (revert H; vm_compute; congruence).
    split; [exact (wd_all _ _ _ _ _ Hdone He)|]. split; [exact He|].
    assert (example_write = Ok ((n, err), c')) as H' by exact H. revert H'. vm_compute. intros H'. injection H' as _ _ <-. reflexivity.
Defined.

Lemma largest_steady : steady (G := unit) 0.
Proof. intros g min max _. split; discriminate. Qed.

Lemma Conn_Write_returns_witness : exists r, example_write = Ok r.
Proof.
  apply (Conn_Write_returns (fun _ _ => true) 0 9 (fun _ => false) [x00; x01; x02; x03; x04; x05; x06; x07; x08] example_conn example_conn_ok);
    [cbn; lia|exact largest_steady|cbn; lia|cbn; lia].
Defined.

(** The smallest delay in the metrics is wrong after a delay of zero, which marks that there
    was none yet: with the delays 0 and 5000 it is 5000. *)
Lemma min_delayed_zero : minDelayed (set_stats (set_stats example_conn 3 0) 3 5000) = 5000.
Proof. reflexivity. Qed.

(** A second [Close] does not close the underlying connection again. *)
Lemma Close_once {F G U} `{!UnderlyingConn U} (c c' : Conn F G U) err :
  Close c = Ok (err, c') -> IsClosed c' = true /\ Close c' = Ok (None, c').
Proof.
  unfold Close, IsClosed. destruct (isClosed c) eqn:E; [intros [= <- <-]; by rewrite E|].
  destruct (conn_Close _) as [e u]. by intros [= <- <-].
Qed.
