(* ===== verification/Tun.v ===== *)
(** * Packet tunnel: packets

    Models the packet processing of src/psiphon/common/tun/tun.go: the parsing of IP packets,
    the rules that they are checked against, the rewriting of addresses between a client and
    the server's network, the tracking of flows, and the packet metrics.

    A slice of the packet is its offset, so that a rewrite changes the packet.  A [net.IP] is
    its bytes, and nil the empty list.  The callbacks of a session are optional functions, and
    what is reported to them is a list of events.  [ParseDNSQuestion], of a DNS library, and
    [IsBogon], a list of networks of a library, are arguments, and so are the random choice of
    a resolver, the readings of the clock and the order in which flows are visited.  A packet
    is processed in one step. *)

From Stdlib Require Import ZArith Lia Strings.Byte.
From stdpp Require Import base gmap list sets strings numbers countable.
From S2P Require Import Prelude.
From S2P Require Import GoStrings.
From S2P Require Import Lookups.
From S2P Require Import GoNet.
#[local] Open Scope string_scope.
#[local] Open Scope Z_scope.
#[local] Open Scope list_scope.

(** ** Constants *)

Inductive packetDirection :=
| packetDirectionServerUpstream
| packetDirectionServerDownstream
| packetDirectionClientUpstream
| packetDirectionClientDownstream.

#[export] Instance packetDirection_eq_dec : EqDecision packetDirection.
Proof. solve_decision. Defined.

Definition internetProtocolTCP : Z := 6.
Definition internetProtocolUDP : Z := 17.
Definition portNumberDNS : Z := 53.

Abbreviation packetRejectReason := nat (only parsing).
Definition packetRejectNoSession : packetRejectReason := 0.
Definition packetRejectDestinationAddress : packetRejectReason := 1.
Definition packetRejectLength : packetRejectReason := 2.
Definition packetRejectVersion : packetRejectReason := 3.
Definition packetRejectOptions : packetRejectReason := 4.
Definition packetRejectProtocol : packetRejectReason := 5.
Definition packetRejectTCPProtocolLength : packetRejectReason := 6.
Definition packetRejectUDPProtocolLength : packetRejectReason := 7.
Definition packetRejectTCPPort : packetRejectReason := 8.
Definition packetRejectUDPPort : packetRejectReason := 9.
Definition packetRejectNoOriginalAddress : packetRejectReason := 10.
Definition packetRejectNoDNSResolvers : packetRejectReason := 11.
Definition packetRejectInvalidDNSMessage : packetRejectReason := 12.
Definition packetRejectDisallowedDomain : packetRejectReason := 13.
Definition packetRejectNoClient : packetRejectReason := 14.
Definition packetRejectReasonCount : nat := 15.

Definition packetRejectReasonDescription (reason : packetRejectReason) : string :=
  match reason with
  | 0 => "no_session"
  | 1 => "invalid_destination_address"
  | 2 => "invalid_ip_packet_length"
  | 3 => "invalid_ip_header_version"
  | 4 => "invalid_ip_header_options"
  | 5 => "invalid_ip_header_protocol"
  | 6 => "invalid_tcp_packet_length"
  | 7 => "invalid_tcp_packet_length"
  | 8 => "disallowed_tcp_destination_port"
  | 9 => "disallowed_udp_destination_port"
  | 10 => "no_original_address"
  | 11 => "no_dns_resolvers"
  | 12 => "invalid_dns_message"
  | 13 => "disallowed_domain"
  | 14 => "no_client"
  | _ => "unknown_reason"
  end%nat.

(** In nanoseconds. *)
Definition FLOW_IDLE_EXPIRY : Z := 60 * 10 ^ 9.

Definition transparentDNSResolverIPv4Address : bytes := [x0a; x00; x00; x02].
Definition transparentDNSResolverIPv6Address : bytes :=
  [xfd; x19; xca; x83; xe6; xd5; x1c; x44] ++ replicate 7 x00 ++ [x02].
Definition privateSubnetIPv4 : Subnet.IPNet :=
  {| Subnet.IP := [x0a; x00; x00; x00]; Subnet.Mask := [xff; x00; x00; x00] |}.
Definition privateSubnetIPv6 : Subnet.IPNet :=
  {| Subnet.IP := [xfd; x19; xca; x83; xe6; xd5; x1c; x44] ++ replicate 8 x00;
     Subnet.Mask := replicate 8 xff ++ replicate 8 x00 |}.

(** ** Metrics *)

Record relayedPacketMetrics := {
  packetsUp : Z; packetsDown : Z; bytesUp : Z; bytesDown : Z; applicationBytesUp : Z; applicationBytesDown : Z
}.

Record packetMetrics := {
  upstreamRejectReasons : list Z;
  downstreamRejectReasons : list Z;
  TCPIPv4 : relayedPacketMetrics;
  TCPIPv6 : relayedPacketMetrics;
  UDPIPv4 : relayedPacketMetrics;
  UDPIPv6 : relayedPacketMetrics
}.

Definition zeroRelayed : relayedPacketMetrics :=
  {| packetsUp := 0; packetsDown := 0; bytesUp := 0; bytesDown := 0; applicationBytesUp := 0; applicationBytesDown := 0 |}.

Definition newPacketMetrics : packetMetrics :=
  {| upstreamRejectReasons := replicate packetRejectReasonCount 0; downstreamRejectReasons := replicate packetRejectReasonCount 0;
     TCPIPv4 := zeroRelayed; TCPIPv6 := zeroRelayed; UDPIPv4 := zeroRelayed; UDPIPv6 := zeroRelayed |}.

Definition is_upstream (direction : packetDirection) : bool :=
  bool_decide (direction = packetDirectionServerUpstream) || bool_decide (direction = packetDirectionClientUpstream).

Definition rejectedPacket (metrics : packetMetrics) (direction : packetDirection) (reason : packetRejectReason) : packetMetrics :=
  let add l := alter (fun n => i64 (n + 1)) reason l in
  {| upstreamRejectReasons := if is_upstream direction then add (upstreamRejectReasons metrics) else upstreamRejectReasons metrics;
     downstreamRejectReasons := if is_upstream direction then downstreamRejectReasons metrics else add (downstreamRejectReasons metrics);
     TCPIPv4 := TCPIPv4 metrics; TCPIPv6 := TCPIPv6 metrics; UDPIPv4 := UDPIPv4 metrics; UDPIPv6 := UDPIPv6 metrics |}.

Definition relayed (up : bool) (packetLength applicationDataLength : Z) (r : relayedPacketMetrics) : relayedPacketMetrics :=
  if up then
    {| packetsUp := i64 (packetsUp r + 1); packetsDown := packetsDown r;
       bytesUp := i64 (bytesUp r + packetLength); bytesDown := bytesDown r;
       applicationBytesUp := i64 (applicationBytesUp r + applicationDataLength); applicationBytesDown := applicationBytesDown r |}
  else
    {| packetsUp := packetsUp r; packetsDown := i64 (packetsDown r + 1);
       bytesUp := bytesUp r; bytesDown := i64 (bytesDown r + packetLength);
       applicationBytesUp := applicationBytesUp r; applicationBytesDown := i64 (applicationBytesDown r + applicationDataLength) |}.

Definition relayedPacket (metrics : packetMetrics) (direction : packetDirection) (version protocol : Z)
    (packetLength applicationDataLength : Z) : packetMetrics :=
  let add (b : bool) r := if b then relayed (is_upstream direction) packetLength applicationDataLength r else r in
  let v4 := version =? 4 in
  let tcp := protocol =? internetProtocolTCP in
  {| upstreamRejectReasons := upstreamRejectReasons metrics; downstreamRejectReasons := downstreamRejectReasons metrics;
     TCPIPv4 := add (v4 && tcp) (TCPIPv4 metrics); TCPIPv6 := add (negb v4 && tcp) (TCPIPv6 metrics);
     UDPIPv4 := add (v4 && negb tcp) (UDPIPv4 metrics); UDPIPv6 := add (negb v4 && negb tcp) (UDPIPv6 metrics) |}.

Definition packetMetricsRejected : Z := 1.
Definition packetMetricsRelayed : Z := 2.
Definition packetMetricsAll : Z := Z.lor packetMetricsRejected packetMetricsRelayed.

Definition rejected_fields (metrics : packetMetrics) : gmap string Z :=
  foldl (fun fields i =>
    <[("downstream_packet_rejected_" +:+ packetRejectReasonDescription i)%string := nth i (downstreamRejectReasons metrics) 0]>
    (<[("upstream_packet_rejected_" +:+ packetRejectReasonDescription i)%string := nth i (upstreamRejectReasons metrics) 0]> fields))
    ∅ (seq 0 packetRejectReasonCount).

Definition relayed_fields (prefix : string) (r : relayedPacketMetrics) (fields : gmap string Z) : gmap string Z :=
  <[(prefix +:+ "application_bytes_down")%string := applicationBytesDown r]>
  (<[(prefix +:+ "application_bytes_up")%string := applicationBytesUp r]>
  (<[(prefix +:+ "bytes_down")%string := bytesDown r]>
  (<[(prefix +:+ "bytes_up")%string := bytesUp r]>
  (<[(prefix +:+ "packets_down")%string := packetsDown r]>
  (<[(prefix +:+ "packets_up")%string := packetsUp r]> fields))))).

(** The log fields, what the updater is called with, and the metrics after. *)
Definition checkpoint (metrics : packetMetrics) (whichMetrics : Z) : gmap string Z * option (Z * Z * Z * Z) * packetMetrics :=
  let rej := negb (Z.land whichMetrics packetMetricsRejected =? 0) in
  let rel := negb (Z.land whichMetrics packetMetricsRelayed =? 0) in
  let fields := if rej then rejected_fields metrics else ∅ in
  let fields :=
    if rel then
      relayed_fields "udp_ipv6_" (UDPIPv6 metrics) (relayed_fields "udp_ipv4_" (UDPIPv4 metrics)
      (relayed_fields "tcp_ipv6_" (TCPIPv6 metrics) (relayed_fields "tcp_ipv4_" (TCPIPv4 metrics) fields)))
    else fields in
  let update :=
    if rel then
      Some (i64 (applicationBytesDown (TCPIPv4 metrics) + applicationBytesDown (TCPIPv6 metrics)),
            i64 (applicationBytesUp (TCPIPv4 metrics) + applicationBytesUp (TCPIPv6 metrics)),
            i64 (applicationBytesDown (UDPIPv4 metrics) + applicationBytesDown (UDPIPv6 metrics)),
            i64 (applicationBytesUp (UDPIPv4 metrics) + applicationBytesUp (UDPIPv6 metrics)))
    else None in
  (fields, update,
   {| upstreamRejectReasons := if rej then replicate packetRejectReasonCount 0 else upstreamRejectReasons metrics;
      downstreamRejectReasons := if rej then replicate packetRejectReasonCount 0 else downstreamRejectReasons metrics;
      TCPIPv4 := if rel then zeroRelayed else TCPIPv4 metrics; TCPIPv6 := if rel then zeroRelayed else TCPIPv6 metrics;
      UDPIPv4 := if rel then zeroRelayed else UDPIPv4 metrics; UDPIPv6 := if rel then zeroRelayed else UDPIPv6 metrics |}).

(** ** Flows *)

Record flowID := {
  downstreamIPAddress : bytes;
  downstreamPort : Z;
  upstreamIPAddress : bytes;
  upstreamPort : Z;
  flow_protocol : Z
}.

#[export] Instance flowID_eq_dec : EqDecision flowID.
Proof. solve_decision. Defined.

#[export, refine] Instance flowID_countable : Countable flowID :=
  inj_countable' (fun f => (map b2z (downstreamIPAddress f), downstreamPort f, map b2z (upstreamIPAddress f), upstreamPort f, flow_protocol f))
    (fun '(d, dp, u, up, p) => {| downstreamIPAddress := map z2b d; downstreamPort := dp; upstreamIPAddress := map z2b u;
                                  upstreamPort := up; flow_protocol := p |}) _.
Proof.
  assert (forall l, map z2b (map b2z l) = l) as H.
  { intros l. rewrite map_map. rewrite <- (map_id l) at 2. apply map_ext. apply z2b_b2z. }
  intros []. cbn. by rewrite !H.
Defined.

(** The 16-byte form. *)
Definition flow_address (ip : bytes) : bytes :=
  if bool_decide (length ip = 4%nat) then Subnet.v4InV6Prefix ++ ip else take 16 (ip ++ replicate 16 x00).

(** [flowID.set] *)
Definition set_flowID (downstreamIP : bytes) (downPort : Z) (upstreamIP : bytes) (upPort protocol : Z) : flowID :=
  {| downstreamIPAddress := flow_address downstreamIP; downstreamPort := downPort;
     upstreamIPAddress := flow_address upstreamIP; upstreamPort := upPort; flow_protocol := protocol |}.

(** The updaters are numbered, and the reporter is either set or not. *)
Record flowState := {
  firstUpstreamPacketTime : Z;
  lastUpstreamPacketTime : Z;
  firstDownstreamPacketTime : Z;
  lastDownstreamPacketTime : Z;
  isDNS : bool;
  flow_dnsQualityReporter : bool;
  activityUpdaters : list positive
}.

Definition flow_expired (f : flowState) (now idleExpiry : Z) : bool :=
  (idleExpiry <? now - lastUpstreamPacketTime f) && (idleExpiry <? now - lastDownstreamPacketTime f).

(** The calls of an updater and of the DNS quality reporter. *)
Inductive event :=
| UpdateProgress (updater : positive) (downstreamBytes upstreamBytes durationNanoseconds : Z)
| DNSQuality (success : bool) (elapsed : Z) (resolver : bytes).

(** The events of [deleteFlow]; the flow is removed from the map. *)
Definition delete_events (ID : flowID) (f : flowState) (now : Z) : list event :=
  if isDNS f && (0 <? firstUpstreamPacketTime f) && flow_dnsQualityReporter f then
    let success := negb (firstDownstreamPacketTime f =? 0) in
    let dnsEndTime := if success then firstDownstreamPacketTime f else now in
    [DNSQuality success (dnsEndTime - firstUpstreamPacketTime f) (upstreamIPAddress ID)]
  else [].

(** ** Sessions *)

Record session := {
  lastFlowReapIndex : Z;
  checkAllowedTCPPortFunc : option (bytes -> Z -> bool);
  checkAllowedUDPPortFunc : option (bytes -> Z -> bool);
  checkAllowedDomainFunc : option (string -> bool);
  flowActivityUpdaterMaker : option (bool -> string -> bytes -> list positive);
  dnsQualityReporter : bool;
  allowBogons : bool;
  enableDNSFlowTracking : bool;
  DNSResolverIPv4Addresses : list bytes;
  TCPDNSResolverIPv4Index : nat;
  assignedIPv4Address : bytes;
  originalIPv4Address : option bytes;
  DNSResolverIPv6Addresses : list bytes;
  TCPDNSResolverIPv6Index : nat;
  assignedIPv6Address : bytes;
  originalIPv6Address : option bytes;
  flows : gmap flowID flowState
}.

Definition set_originals (s : session) (o4 o6 : option bytes) : session :=
  {| lastFlowReapIndex := lastFlowReapIndex s; checkAllowedTCPPortFunc := checkAllowedTCPPortFunc s;
     checkAllowedUDPPortFunc := checkAllowedUDPPortFunc s; checkAllowedDomainFunc := checkAllowedDomainFunc s;
     flowActivityUpdaterMaker := flowActivityUpdaterMaker s; dnsQualityReporter := dnsQualityReporter s;
     allowBogons := allowBogons s; enableDNSFlowTracking := enableDNSFlowTracking s;
     DNSResolverIPv4Addresses := DNSResolverIPv4Addresses s; TCPDNSResolverIPv4Index := TCPDNSResolverIPv4Index s;
     assignedIPv4Address := assignedIPv4Address s; originalIPv4Address := o4;
     DNSResolverIPv6Addresses := DNSResolverIPv6Addresses s; TCPDNSResolverIPv6Index := TCPDNSResolverIPv6Index s;
     assignedIPv6Address := assignedIPv6Address s; originalIPv6Address := o6; flows := flows s |}.

Definition set_flows (s : session) (reapIndex : Z) (m : gmap flowID flowState) : session :=
  {| lastFlowReapIndex := reapIndex; checkAllowedTCPPortFunc := checkAllowedTCPPortFunc s;
     checkAllowedUDPPortFunc := checkAllowedUDPPortFunc s; checkAllowedDomainFunc := checkAllowedDomainFunc s;
     flowActivityUpdaterMaker := flowActivityUpdaterMaker s; dnsQualityReporter := dnsQualityReporter s;
     allowBogons := allowBogons s; enableDNSFlowTracking := enableDNSFlowTracking s;
     DNSResolverIPv4Addresses := DNSResolverIPv4Addresses s; TCPDNSResolverIPv4Index := TCPDNSResolverIPv4Index s;
     assignedIPv4Address := assignedIPv4Address s; originalIPv4Address := originalIPv4Address s;
     DNSResolverIPv6Addresses := DNSResolverIPv6Addresses s; TCPDNSResolverIPv6Index := TCPDNSResolverIPv6Index s;
     assignedIPv6Address := assignedIPv6Address s; originalIPv6Address := originalIPv6Address s; flows := m |}.

Definition setOriginalIPv4AddressIfNotSet (s : session) (ip : bytes) : session :=
  match originalIPv4Address s with
  | Some _ => s
  | None => set_originals s (Some ip) (originalIPv6Address s)
  end.

Definition setOriginalIPv6AddressIfNotSet (s : session) (ip : bytes) : session :=
  match originalIPv6Address s with
  | Some _ => s
  | None => set_originals s (originalIPv4Address s) (Some ip)
  end.

Definition getOriginalIPv4Address (s : session) : bytes := default [] (originalIPv4Address s).
Definition getOriginalIPv6Address (s : session) : bytes := default [] (originalIPv6Address s).

(** Functions on the session also return the events. *)
Definition deleteFlow (s : session) (ID : flowID) (f : flowState) (now : Z) : session * list event :=
  (set_flows s (lastFlowReapIndex s) (delete ID (flows s)), delete_events ID f now).

Definition isTrackingFlow (s : session) (ID : flowID) (now : Z) : bool * session * list event :=
  match flows s !! ID with
  | None => (false, s, [])
  | Some f =>
      if flow_expired f now FLOW_IDLE_EXPIRY then let '(s, ev) := deleteFlow s ID f now in (false, s, ev)
      else (true, s, [])
  end.

(** [Range] visits the entries in the order [visit]. *)
Definition flow_visit := list (flowID * flowState) -> list (flowID * flowState).

Definition reap_loop (s : session) (now : Z) (l : list (flowID * flowState)) : session * list event :=
  foldl (fun se kf =>
    if flow_expired kf.2 now FLOW_IDLE_EXPIRY
    then let '(s, ev) := deleteFlow se.1 kf.1 kf.2 now in (s, se.2 ++ ev) else se) (s, []) l.

Definition reapFlows (visit : flow_visit) (s : session) (now : Z) : session * list event :=
  reap_loop s now (visit (map_to_list (flows s))).

Definition deleteFlows (visit : flow_visit) (s : session) (now : Z) : session * list event :=
  foldl (fun se kf => let '(s, ev) := deleteFlow se.1 kf.1 kf.2 now in (s, se.2 ++ ev)) (s, []) (visit (map_to_list (flows s))).

Definition updateFlow (s : session) (ID : flowID) (direction : packetDirection) (applicationBytes now : Z) : session * list event :=
  match flows s !! ID with
  | None => (s, [])
  | Some f =>
      let up := bool_decide (direction = packetDirectionServerUpstream) in
      let f' :=
        if up then
          {| firstUpstreamPacketTime := if firstUpstreamPacketTime f =? 0 then now else firstUpstreamPacketTime f;
             lastUpstreamPacketTime := now; firstDownstreamPacketTime := firstDownstreamPacketTime f;
             lastDownstreamPacketTime := lastDownstreamPacketTime f; isDNS := isDNS f;
             flow_dnsQualityReporter := flow_dnsQualityReporter f; activityUpdaters := activityUpdaters f |}
        else
          {| firstUpstreamPacketTime := firstUpstreamPacketTime f; lastUpstreamPacketTime := lastUpstreamPacketTime f;
             firstDownstreamPacketTime := if firstDownstreamPacketTime f =? 0 then now else firstDownstreamPacketTime f;
             lastDownstreamPacketTime := now; isDNS := isDNS f;
             flow_dnsQualityReporter := flow_dnsQualityReporter f; activityUpdaters := activityUpdaters f |} in
      let duration := if up then 0 else now - lastDownstreamPacketTime f in
      (set_flows s (lastFlowReapIndex s) (<[ID := f']> (flows s)),
       map (fun u => UpdateProgress u (if up then 0 else applicationBytes) (if up then applicationBytes else 0) duration)
         (activityUpdaters f))
  end.

(** The readings of the clock while a packet is processed. *)
Record clock := { now_track : Z; now_start : Z; now_reap : Z; now_update : Z }.

Definition startTrackingFlow (visit : flow_visit) (s : session) (ID : flowID) (direction : packetDirection) (applicationBytes : Z)
    (dns : bool) (t : clock) : session * list event :=
  let now := now_start t in
  let reapIndex := Z.quot now (Z.quot FLOW_IDLE_EXPIRY 2) in
  let '(s, ev) :=
    if reapIndex =? lastFlowReapIndex s then (s, []) else reapFlows visit (set_flows s reapIndex (flows s)) (now_reap t) in
  let updaters :=
    match flowActivityUpdaterMaker s with
    | Some maker => if dns then [] else maker (flow_protocol ID =? internetProtocolTCP) "" (upstreamIPAddress ID)
    | None => []
    end in
  let up := bool_decide (direction = packetDirectionServerUpstream) in
  let f :=
    {| firstUpstreamPacketTime := if up then now else 0; lastUpstreamPacketTime := if up then now else 0;
       firstDownstreamPacketTime := if up then 0 else now; lastDownstreamPacketTime := if up then 0 else now;
       isDNS := dns; flow_dnsQualityReporter := dnsQualityReporter s; activityUpdaters := updaters |} in
  let s := match flows s !! ID with Some _ => s | None => set_flows s (lastFlowReapIndex s) (<[ID := f]> (flows s)) end in
  let '(s, ev') := updateFlow s ID direction applicationBytes (now_update t) in
  (s, ev ++ ev').

Record clientTransparentDNS := { IPv4Address : bytes; IPv6Address : bytes }.

Definition newClientTransparentDNS (v4 v6 : string) : res clientTransparentDNS :=
  a4 ← (if bool_decide (v4 = "") then Ok []
        else let ip := Subnet.To4 (ParseIP (chars v4)) in if bool_decide (ip = []) then Err "invalid IPv4 address" else Ok ip);
  a6 ← (if bool_decide (v6 = "") then Ok []
        else let ip := ParseIP (chars v6) in
             if bool_decide (ip = []) || bool_decide (Subnet.To4 ip <> []) then Err "invalid IPv6 address" else Ok ip);
  Ok {| IPv4Address := a4; IPv6Address := a6 |}.

(** ** Parsing *)

Definition index (l : bytes) (i : nat) : res Z :=
  match l !! i with Some b => Ok (b2z b) | None => Panic "index out of range" end.

Definition subslice (l : bytes) (a b : nat) : res bytes :=
  if (a <=? b)%nat && (b <=? length l)%nat then Ok (slice a (b - a) l) else Panic "slice bounds out of range".

Definition BigEndian_Uint16 (b : bytes) : Z := le_load (rev b).

(** The parts of a packet: addresses, checksums and data are offsets into it. *)
Record parsed := {
  version : Z;
  protocol : Z;
  source : nat;
  destination : nat;
  ip_length : nat;
  sourcePort : Z;
  destinationPort : Z;
  IPChecksum : option nat;
  protocolChecksum : nat;
  dataOffset : nat
}.

Definition getPacketDestinationIPAddress (metrics : packetMetrics) (direction : packetDirection) (packet : bytes)
  : res (option bytes * packetMetrics) :=
  if (length packet <? 1)%nat then Ok (None, rejectedPacket metrics direction packetRejectLength)
  else
    b0 ← index packet 0;
    let version := Z.shiftr b0 4 in
    if negb (version =? 4) && negb (version =? 6) then Ok (None, rejectedPacket metrics direction packetRejectVersion)
    else if version =? 4 then
      if (length packet <? 20)%nat then Ok (None, rejectedPacket metrics direction packetRejectLength)
      else ip ← subslice packet 16 20; Ok (Some ip, metrics)
    else
      if (length packet <? 40)%nat then Ok (None, rejectedPacket metrics direction packetRejectLength)
      else ip ← subslice packet 24 40; Ok (Some ip, metrics).

(** The transport header at [base]: the offset of the data. *)
Definition parse_transport (packet : bytes) (base : nat) (protocol : Z) : res (packetRejectReason + nat) :=
  if protocol =? internetProtocolTCP then
    if (length packet <? base + 18)%nat then Ok (inl packetRejectTCPProtocolLength)
    else
      b ← index packet (base + 12);
      let dataOffset := (base + 4 * Z.to_nat (Z.shiftr b 4))%nat in
      if (length packet <? dataOffset)%nat then Ok (inl packetRejectTCPProtocolLength) else Ok (inr dataOffset)
  else if protocol =? internetProtocolUDP then
    if (length packet <? base + 8)%nat then Ok (inl packetRejectUDPProtocolLength) else Ok (inr (base + 8)%nat)
  else Ok (inl packetRejectProtocol).

Definition parse_with (packet : bytes) (version : Z) (base protocolOffset source destination ip_length : nat) (IPChecksum : option nat)
  : res (packetRejectReason + parsed) :=
  protocol ← index packet protocolOffset;
  r ← parse_transport packet base protocol;
  match (r : packetRejectReason + nat) with
  | inl reason => Ok (inl reason)
  | inr dataOffset =>
      _ ← subslice packet dataOffset (length packet);
      _ ← subslice packet source (source + ip_length);
      _ ← subslice packet destination (destination + ip_length);
      sp ← subslice packet base (base + 2);
      dp ← subslice packet (base + 2) (base + 4);
      let protocolChecksum := if protocol =? internetProtocolTCP then (base + 16)%nat else (base + 6)%nat in
      _ ← subslice packet protocolChecksum (protocolChecksum + 2);
      Ok (inr {| version := version; protocol := protocol; source := source; destination := destination; ip_length := ip_length;
                 sourcePort := BigEndian_Uint16 sp; destinationPort := BigEndian_Uint16 dp; IPChecksum := IPChecksum;
                 protocolChecksum := protocolChecksum; dataOffset := dataOffset |})
  end.

(** The first part of [processPacket]. *)
Definition parse_packet (packet : bytes) : res (packetRejectReason + parsed) :=
  if (length packet <? 1)%nat then Ok (inl packetRejectLength)
  else
    b0 ← index packet 0;
    let version := Z.shiftr b0 4 in
    if negb (version =? 4) && negb (version =? 6) then Ok (inl packetRejectVersion)
    else if version =? 4 then
      if negb (Z.land b0 0x0f =? 5) then Ok (inl packetRejectOptions)
      else if (length packet <? 20)%nat then Ok (inl packetRejectLength)
      else parse_with packet version 20 9 12 16 4 (Some 10%nat)
    else
      if (length packet <? 40)%nat then Ok (inl packetRejectLength)
      else parse_with packet version 40 6 8 24 16 None.

(** ** Checksums *)

Fixpoint checksumAccumulate (data : bytes) (newData : bool) (accumulator : Z) : Z :=
  match data with
  | b0 :: b1 :: b2 :: b3 :: data =>
      let word := Z.lor (Z.lor (Z.shiftl (b2z b0) 24) (Z.shiftl (b2z b1) 16)) (Z.lor (Z.shiftl (b2z b2) 8) (b2z b3)) in
      let accumulator :=
        if newData then wrapS 32 (wrapS 32 (accumulator - Z.land word 0xffff) - Z.shiftr word 16)
        else wrapS 32 (wrapS 32 (accumulator + Z.land word 0xffff) + Z.shiftr word 16) in
      checksumAccumulate data newData accumulator
  | _ => accumulator
  end.

(** [int32] folded to 16 bits. *)
Definition fold32 (a : Z) : Z :=
  let a := wrapS 32 (Z.shiftr a 16 + Z.land a 0xffff) in
  wrapS 32 (a + Z.shiftr a 16).

Definition checksumAdjust (checksumData : bytes) (accumulator : Z) : bytes :=
  let checksum := BigEndian_Uint16 checksumData in
  let accumulator := wrapS 32 (accumulator + checksum) in
  let checksum :=
    if accumulator <? 0 then wrapU 16 (Z.lnot (fold32 (wrapS 32 (- accumulator)))) else wrapU 16 (fold32 accumulator) in
  [z2b (Z.shiftr checksum 8); z2b (Z.land checksum 0xff)].

(** ** Processing *)

Record packet_state := {
  metrics : packetMetrics;
  the_session : option session;
  packet : bytes;
  events : list event
}.

Section Process.
Context (ParseDNSQuestion : bytes -> res string) (IsBogon : bytes -> bool).
Context (rand_Intn : nat -> nat) (visit : flow_visit) (t : clock).

Abbreviation proc := (stres packet_state).

Definition get_session : proc session := fun st =>
  match the_session st with Some s => Ok (s, st) | None => Panic "nil pointer dereference" end.

Definition put_session (s : session) (ev : list event) : proc unit := fun st =>
  Ok (tt, {| metrics := metrics st; the_session := Some s; packet := packet st; events := events st ++ ev |}).

Definition put_packet (p : bytes) : proc unit := fun st =>
  Ok (tt, {| metrics := metrics st; the_session := the_session st; packet := p; events := events st |}).

Definition put_metrics (m : packetMetrics) : proc unit := fun st =>
  Ok (tt, {| metrics := m; the_session := the_session st; packet := packet st; events := events st |}).

Definition reject (direction : packetDirection) (reason : packetRejectReason) : proc bool :=
  st ← st_get; _ ← put_metrics (rejectedPacket (metrics st) direction reason); mret false.

Definition is_server (direction : packetDirection) : bool :=
  bool_decide (direction = packetDirectionServerUpstream) || bool_decide (direction = packetDirectionServerDownstream).

Definition resolvers (s : session) (h : parsed) : list bytes :=
  if version h =? 4 then DNSResolverIPv4Addresses s else DNSResolverIPv6Addresses s.

Definition transparentDNSResolver (h : parsed) : bytes :=
  if version h =? 4 then transparentDNSResolverIPv4Address else transparentDNSResolverIPv6Address.

(** Whether the packet is for transparent DNS, or the reason to reject it. *)
Definition transparent_dns_upstream (s : session) (h : parsed) (destinationIP applicationData : bytes) : res (packetRejectReason + bool) :=
  if negb (destinationPort h =? portNumberDNS) then Ok (inr false)
  else if negb (Subnet.IP_Equal destinationIP (transparentDNSResolver h)) then Ok (inr false)
  else if (length (resolvers s h) =? 0)%nat then Ok (inl packetRejectNoDNSResolvers)
  else if protocol h =? internetProtocolUDP then
    match ParseDNSQuestion applicationData with
    | Ok domain =>
        if bool_decide (domain = "") then Ok (inr true)
        else
          f ← res_of_option "nil function" (checkAllowedDomainFunc s);
          if (f : string -> bool) domain then Ok (inr true) else Ok (inl packetRejectDisallowedDomain)
    | Err _ => Ok (inl packetRejectInvalidDNSMessage)
    | Panic e => Panic e
    | NoFuel => NoFuel
    end
  else Ok (inr true).

Definition client_dns (cdns : option clientTransparentDNS) (h : parsed) : res bytes :=
  d ← res_of_option "nil pointer dereference" cdns; Ok (if version h =? 4 then IPv4Address d else IPv6Address d).

Definition transparent_dns (cdns : option clientTransparentDNS) (direction : packetDirection) (h : parsed)
    (sourceIP destinationIP applicationData : bytes) : proc (packetRejectReason + bool) :=
  match direction with
  | packetDirectionServerUpstream => s ← get_session; st_lift (transparent_dns_upstream s h destinationIP applicationData)
  | packetDirectionServerDownstream =>
      if sourcePort h =? portNumberDNS then s ← get_session; mret (inr (existsb (Subnet.IP_Equal sourceIP) (resolvers s h)))
      else mret (inr false)
  | packetDirectionClientUpstream =>
      if destinationPort h =? portNumberDNS then ip ← st_lift (client_dns cdns h); mret (inr (Subnet.IP_Equal destinationIP ip))
      else mret (inr false)
  | packetDirectionClientDownstream =>
      if sourcePort h =? portNumberDNS then mret (inr (Subnet.IP_Equal sourceIP (transparentDNSResolver h)))
      else mret (inr false)
  end.

(** The resolver that DNS packets are rewritten to. *)
Definition resolver_for (s : session) (h : parsed) : res bytes :=
  let tcp_index := if version h =? 4 then TCPDNSResolverIPv4Index s else TCPDNSResolverIPv6Index s in
  let i := if protocol h =? internetProtocolUDP then rand_Intn (length (resolvers s h)) else tcp_index in
  res_of_option "index out of range" (resolvers s h !! i).

(** The addresses to rewrite the source and destination to, empty for none. *)
Definition rewrites (cdns : option clientTransparentDNS) (direction : packetDirection) (h : parsed) (dns : bool) (sourceIP : bytes)
  : proc (packetRejectReason + bytes * bytes) :=
  match direction with
  | packetDirectionServerUpstream =>
      s ← get_session;
      let s := if version h =? 4 then setOriginalIPv4AddressIfNotSet s sourceIP else setOriginalIPv6AddressIfNotSet s sourceIP in
      _ ← put_session s [];
      destination ← (if (dns : bool) then st_lift (resolver_for s h) else mret []);
      mret (inr (if version h =? 4 then assignedIPv4Address s else assignedIPv6Address s, destination))
  | packetDirectionServerDownstream =>
      s ← get_session;
      let original := if version h =? 4 then getOriginalIPv4Address s else getOriginalIPv6Address s in
      if bool_decide (original = []) then mret (inl packetRejectNoOriginalAddress)
      else mret (inr (if dns then transparentDNSResolver h else [], original))
  | packetDirectionClientUpstream => mret (inr ([], if dns then transparentDNSResolver h else []))
  | packetDirectionClientDownstream =>
      if dns then ip ← st_lift (client_dns cdns h); mret (inr (ip, [])) else mret (inr ([], []))
  end.

(** The flow of a packet at the server. *)
Definition flow_of (direction : packetDirection) (h : parsed) (sourceIP destinationIP rewriteSource rewriteDestination : bytes) : flowID :=
  if bool_decide (direction = packetDirectionServerUpstream) then
    set_flowID (if bool_decide (rewriteSource = []) then sourceIP else rewriteSource) (sourcePort h)
      (if bool_decide (rewriteDestination = []) then destinationIP else rewriteDestination) (destinationPort h) (protocol h)
  else set_flowID destinationIP (destinationPort h) sourceIP (sourcePort h) (protocol h).

(** The traffic rules: a reason to reject the packet. *)
Definition check_port (direction : packetDirection) (h : parsed) (ID : flowID) : proc bool :=
  let checkPort := if is_upstream direction then destinationPort h else sourcePort h in
  if checkPort =? 0 then mret false
  else if is_server direction then
    s ← get_session;
    let check := if protocol h =? internetProtocolTCP then checkAllowedTCPPortFunc s else checkAllowedUDPPortFunc s in
    mret (match check with Some f => f (upstreamIPAddress ID) checkPort | None => false end)
  else mret true.

Definition check_destination (direction : packetDirection) (h : parsed) (destinationIP : bytes) : proc bool :=
  if negb (IsGlobalUnicast destinationIP) then mret false
  else if bool_decide (direction = packetDirectionServerUpstream) then
    s ← get_session;
    mret (negb (negb (allowBogons s) && IsBogon destinationIP) &&
      negb (negb (Subnet.IP_Equal destinationIP (transparentDNSResolver h)) &&
            Subnet.IPNet_Contains (if version h =? 4 then privateSubnetIPv4 else privateSubnetIPv6) destinationIP))
  else mret true.

(** [copy(packet[o:o+n], src)] *)
Definition copy_slice (o n : nat) (src p : bytes) : bytes := copy_at o (take n src) p.

(** One rewrite of an address, with the accumulator of the checksum. *)
Definition rewrite_address (o n : nat) (address : bytes) (pa : bytes * Z) : bytes * Z :=
  let '(p, accumulator) := pa in
  if bool_decide (address = []) then (p, accumulator)
  else
    let accumulator := checksumAccumulate (slice o n p) false accumulator in
    let p := copy_slice o n address p in
    (p, checksumAccumulate (slice o n p) true accumulator).

Definition adjust_at (o : nat) (accumulator : Z) (p : bytes) : bytes := copy_at o (checksumAdjust (slice o 2 p) accumulator) p.

Definition rewrite_packet (h : parsed) (rewriteSource rewriteDestination p : bytes) : bytes :=
  let '(p, accumulator) :=
    rewrite_address (destination h) (ip_length h) rewriteDestination (rewrite_address (source h) (ip_length h) rewriteSource (p, 0)) in
  if bool_decide (rewriteSource = []) && bool_decide (rewriteDestination = []) then p
  else
    let p := match IPChecksum h with Some o => adjust_at o accumulator p | None => p end in
    adjust_at (protocolChecksum h) accumulator p.

(** What follows once a packet is accepted. *)
Definition relay (direction : packetDirection) (h : parsed) (ID : flowID) (tracked track dns : bool) (rewriteSource rewriteDestination : bytes)
  : proc bool :=
  st ← st_get;
  let applicationBytes := Z.of_nat (length (packet st) - dataOffset h) in
  _ ← put_packet (rewrite_packet h rewriteSource rewriteDestination (packet st));
  _ ← (if track : bool then
         s ← get_session;
         let '(s, ev) := if tracked : bool then updateFlow s ID direction applicationBytes (now_update t)
                         else startTrackingFlow visit s ID direction applicationBytes dns t in
         put_session s ev
       else mret tt);
  st ← st_get;
  _ ← put_metrics (relayedPacket (metrics st) direction (version h) (protocol h) (Z.of_nat (length (packet st))) applicationBytes);
  mret true.

(** From the tracking of the flow on. *)
Definition apply_rules (direction : packetDirection) (h : parsed) (sourceIP destinationIP : bytes) (dns : bool)
    (rewriteSource rewriteDestination : bytes) : proc bool :=
  let ID := flow_of direction h sourceIP destinationIP rewriteSource rewriteDestination in
  track ← (if is_server direction then s ← get_session; mret (negb dns || enableDNSFlowTracking s) else mret false);
  tracked ← (if track : bool then
               s ← get_session;
               let '(b, s, ev) := isTrackingFlow s ID (now_track t) in
               _ ← put_session s ev; mret b
             else mret false);
  if negb dns && negb (tracked : bool) then
    ok ← check_port direction h ID;
    if negb (ok : bool) then
      reject direction (if protocol h =? internetProtocolTCP then packetRejectTCPPort else packetRejectUDPPort)
    else
      ok ← check_destination direction h destinationIP;
      if negb (ok : bool) then reject direction packetRejectDestinationAddress
      else relay direction h ID tracked track dns rewriteSource rewriteDestination
  else relay direction h ID tracked track dns rewriteSource rewriteDestination.

Definition processPacket (cdns : option clientTransparentDNS) (direction : packetDirection) : proc bool :=
  st ← st_get;
  r ← st_lift (parse_packet (packet st));
  match (r : packetRejectReason + parsed) with
  | inl reason => reject direction reason
  | inr h =>
      let sourceIP := slice (source h) (ip_length h) (packet st) in
      let destinationIP := slice (destination h) (ip_length h) (packet st) in
      dns ← transparent_dns cdns direction h sourceIP destinationIP (drop (dataOffset h) (packet st));
      match (dns : packetRejectReason + bool) with
      | inl reason => reject direction reason
      | inr dns =>
          rw ← rewrites cdns direction h dns sourceIP;
          match (rw : packetRejectReason + bytes * bytes) with
          | inl reason => reject direction reason
          | inr (rewriteSource, rewriteDestination) =>
              apply_rules direction h sourceIP destinationIP dns rewriteSource rewriteDestination
          end
      end
  end.

End Process.

(** ** Checksums are kept *)

(** The sum of the 16-bit words. *)
Fixpoint sum16 (l : bytes) : Z :=
  match l with
  | a :: b :: l => 256 * b2z a + b2z b + sum16 l
  | [a] => 256 * b2z a
  | [] => 0
  end.

Lemma pair_ind (P : bytes -> Prop) : P [] -> (forall a, P [a]) -> (forall a b l, P l -> P (a :: b :: l)) -> forall l, P l.
Proof.
  intros H0 H1 H2 l. assert (P l /\ forall a, P (a :: l)) as [? _]; [|done].
  induction l as [|x l [IH1 IH2]]; [auto|]. split; [apply IH2|]. intros a. by apply H2.
Qed.

Lemma sum16_app l1 l2 : (length l1 mod 2 = 0)%nat -> sum16 (l1 ++ l2) = sum16 l1 + sum16 l2.
Proof.
  induction l1 as [|a|a b l IH] using pair_ind; intros Hl; [done|done|]. cbn [app sum16]. rewrite IH; [lia|].
  cbn [length] in Hl. replace (S (S (length l))) with (length l + 1 * 2)%nat in Hl by lia. by rewrite Nat.Div0.mod_add in Hl.
Qed.

Lemma sum16_range l : 0 <= sum16 l <= 65535 * Z.of_nat ((length l + 1) / 2).
Proof.
  induction l as [|a|a b l IH] using pair_ind; cbn [sum16 length].
  - cbn. lia.
  - pose proof (b2z_range a). cbn. lia.
  - pose proof (b2z_range a). pose proof (b2z_range b). replace (S (S (length l)) + 1)%nat with ((length l + 1) + 1 * 2)%nat by lia.
    rewrite Nat.div_add by lia. lia.
Qed.

Lemma mod2_even n k : n = (2 * k)%nat -> (n mod 2 = 0)%nat.
Proof. intros ->. rewrite Nat.mul_comm. apply Nat.Div0.mod_mul. Qed.

Lemma sum16_copy_at o src p k j :
  o = (2 * k)%nat -> length src = (2 * j)%nat -> (o + length src <= length p)%nat ->
  sum16 (copy_at o src p) = sum16 p - sum16 (slice o (length src) p) + sum16 src.
Proof.
  intros Ho Hs Hp. unfold copy_at, slice.
  assert (length (take o p) mod 2 = 0)%nat as He by (rewrite length_take_le by lia; by apply (mod2_even _ k)).
  assert (sum16 p = sum16 (take o p) + (sum16 (take (length src) (drop o p)) + sum16 (drop (o + length src) p))) as ->.
  { rewrite <- (take_drop o p) at 1. rewrite sum16_app by done. f_equal.
    rewrite <- (take_drop (length src) (drop o p)) at 1. rewrite sum16_app, drop_drop; [done|].
    rewrite length_take_le by (rewrite length_drop; lia). by apply (mod2_even _ j). }
  rewrite !sum16_app; [lia|by apply (mod2_even _ j)|done].
Qed.

Lemma word_value b0 b1 b2 b3 :
  Z.lor (Z.lor (Z.shiftl (b2z b0) 24) (Z.shiftl (b2z b1) 16)) (Z.lor (Z.shiftl (b2z b2) 8) (b2z b3)) =
  (256 * b2z b0 + b2z b1) * 2 ^ 16 + (256 * b2z b2 + b2z b3).
Proof.
  pose proof (b2z_range b0). pose proof (b2z_range b1). pose proof (b2z_range b2). pose proof (b2z_range b3).
  rewrite !Z.shiftl_mul_pow2, !(Z.mul_comm (b2z _)) by lia.
  rewrite (Z.lor_comm (2 ^ 24 * b2z b0)), (Z.lor_comm (2 ^ 8 * b2z b2)), (lor_disjoint 8) by lia.
  replace (2 ^ 24 * b2z b0) with (2 ^ 16 * (256 * b2z b0)) by lia.
  rewrite Z.lor_comm. replace (Z.lor (2 ^ 16 * b2z b1) (2 ^ 16 * (256 * b2z b0))) with (2 ^ 16 * (b2z b1 + 256 * b2z b0)).
  - rewrite (lor_disjoint 16) by lia. lia.
  - rewrite !(Z.mul_comm (2 ^ 16)), <- !Z.shiftl_mul_pow2, <- Z.shiftl_lor by lia.
    change 256 with (2 ^ 8). rewrite (lor_disjoint 8) by lia. done.
Qed.

Lemma checksumAccumulate_spec data k new acc :
  length data = (4 * k)%nat -> Z.abs acc + 131070 * Z.of_nat k < 2 ^ 31 ->
  checksumAccumulate data new acc = if new then acc - sum16 data else acc + sum16 data.
Proof.
  revert data acc. induction k as [|k IH]; intros data acc Hl Hb.
  - apply nil_length_inv in Hl as ->. cbn. destruct new; lia.
  - destruct data as [|b0 [|b1 [|b2 [|b3 data]]]]; cbn [length] in Hl; try lia. cbn [checksumAccumulate sum16].
    rewrite word_value. pose proof (b2z_range b0). pose proof (b2z_range b1). pose proof (b2z_range b2). pose proof (b2z_range b3).
    change 0xffff with (Z.ones 16). rewrite Z.land_ones, Z.add_comm, Z.mod_add, Z.mod_small, shiftr_div, Z.div_add, Z.div_small by lia.
    destruct new; rewrite ?(wrapS_id 32 (acc - _)), ?(wrapS_id 32 (acc + _)), wrapS_id, IH by lia; lia.
Qed.

Lemma fold32_spec a : 0 <= a < 2 ^ 24 -> exists q, wrapU 16 (fold32 a) = a + 65535 * q.
Proof.
  intros Ha. unfold fold32. change (Z.land a 65535) with (Z.land a (Z.ones 16)). rewrite Z.land_ones, !shiftr_div by lia.
  pose proof (Z.div_mod a (2 ^ 16) ltac:(lia)). pose proof (Z.mod_pos_bound a (2 ^ 16) ltac:(lia)).
  assert (0 <= a / 2 ^ 16 < 256) by (split; [apply Z.div_pos; lia|apply Z.div_lt_upper_bound; lia]).
  remember (a / 2 ^ 16 + a mod 2 ^ 16) as m eqn:Em. assert (m = a - 65535 * (a / 2 ^ 16)) as Hm by lia. assert (0 <= m < 65536 + 256) by lia.
  rewrite !(wrapS_id 32 m) by lia. destruct (Z.lt_ge_cases m (2 ^ 16)).
  - rewrite (Z.div_small m), Z.add_0_r, wrapS_id, wrapU_small by lia. exists (- (a / 2 ^ 16)). lia.
  - replace (m / 2 ^ 16) with 1 by (apply Z.div_unique with (m - 2 ^ 16); lia). rewrite wrapS_id by lia.
    exists (- (a / 2 ^ 16) - 1). unfold wrapU. symmetry. apply Z.mod_unique with 1; lia.
Qed.

Lemma lnot_u16 x : wrapU 16 (Z.lnot x) = 65535 - wrapU 16 x.
Proof.
  unfold wrapU, Z.lnot. pose proof (Z.mod_pos_bound x (2 ^ 16) ltac:(lia)). pose proof (Z.div_mod x (2 ^ 16) ltac:(lia)).
  symmetry. apply Z.mod_unique with (- (x / 2 ^ 16) - 1); lia.
Qed.

Lemma sum16_pair a b : sum16 [a; b] = BigEndian_Uint16 [a; b].
Proof. cbn. lia. Qed.

(** The adjusted checksum is the old one plus the accumulator, in ones' complement. *)
Lemma checksumAdjust_spec cs acc :
  length cs = 2%nat -> Z.abs acc < 2 ^ 23 ->
  length (checksumAdjust cs acc) = 2%nat /\ exists q, sum16 (checksumAdjust cs acc) = sum16 cs + acc + 65535 * q.
Proof.
  intros Hl Ha. destruct cs as [|c0 [|c1 [|]]]; try done. split; [done|]. unfold checksumAdjust. rewrite <- sum16_pair.
  pose proof (sum16_range [c0; c1]) as Hr. change (Z.of_nat _) with 1 in Hr. set (c := sum16 [c0; c1]) in *.
  rewrite (wrapS_id 32 (acc + c)) by lia.
  assert (forall x, 0 <= x < 2 ^ 16 -> sum16 [z2b (Z.shiftr x 8); z2b (Z.land x 255)] = x) as Hx.
  { intros x Hx. cbn [sum16]. rewrite !b2z_z2b, shiftr_div by lia. change 255 with (Z.ones 8). rewrite Z.land_ones by lia.
    change (2 ^ 8) with 256. rewrite Z.mod_mod, (Z.mod_small (x / 256)) by (lia || (split; [apply Z.div_pos; lia|apply Z.div_lt_upper_bound; lia])).
    pose proof (Z.div_mod x 256 ltac:(lia)). lia. }
  assert (forall y, 0 <= wrapU 16 y < 2 ^ 16) as Hw by (intros; apply Z.mod_pos_bound; lia).
  destruct (Z.ltb_spec (acc + c) 0).
  - rewrite Hx by apply Hw. rewrite lnot_u16. rewrite (wrapS_id 32 (- (acc + c))) by lia.
    destruct (fold32_spec (- (acc + c))) as [q ->]; [lia|]. exists (1 - q). lia.
  - rewrite Hx by apply Hw. destruct (fold32_spec (acc + c)) as [q ->]; [lia|]. exists q. lia.
Qed.

(** *** Slices of a changed packet *)

Lemma length_copy_at {A} o (s p : list A) : (o + length s <= length p)%nat -> length (copy_at o s p) = length p.
Proof. intros H. unfold copy_at. rewrite !length_app, length_take, length_drop. lia. Qed.

Lemma lookup_copy_at {A} o (s p : list A) i : (o + length s <= length p)%nat ->
  copy_at o s p !! i = if decide (o <= i < o + length s)%nat then s !! (i - o)%nat else p !! i.
Proof.
  intros H. unfold copy_at. case_decide as E.
  - rewrite lookup_app_r by (rewrite length_take; lia). rewrite length_take_le by lia. apply lookup_app_l. lia.
  - destruct (decide (i < o)%nat).
    + rewrite lookup_app_l by (rewrite length_take; lia). by apply lookup_take_lt.
    + rewrite lookup_app_r by (rewrite length_take; lia). rewrite length_take_le by lia.
      rewrite lookup_app_r by lia. rewrite lookup_drop. f_equal. lia.
Qed.

Lemma lookup_slice {A} o n (p : list A) i : slice o n p !! i = if decide (i < n)%nat then p !! (o + i)%nat else None.
Proof. unfold slice. case_decide; [rewrite lookup_take_lt by done; apply lookup_drop|apply lookup_take_ge; lia]. Qed.

Lemma slice_length {A} o n (p : list A) : (o + n <= length p)%nat -> length (slice o n p) = n.
Proof. intros H. unfold slice. rewrite length_take, length_drop. lia. Qed.

Lemma slice_copy_same {A} o (s p : list A) : (o + length s <= length p)%nat -> slice o (length s) (copy_at o s p) = s.
Proof.
  intros H. apply list_eq. intros i. rewrite lookup_slice. case_decide as E; [|symmetry; apply lookup_ge_None; lia].
  rewrite lookup_copy_at by done. case_decide; [f_equal; lia|lia].
Qed.

Lemma slice_copy_other {A} o n o' (s p : list A) : (o' + length s <= length p)%nat -> (o' + length s <= o \/ o + n <= o')%nat ->
  slice o n (copy_at o' s p) = slice o n p.
Proof.
  intros H Hd. apply list_eq. intros i. rewrite !lookup_slice. case_decide; [|done].
  rewrite lookup_copy_at by done. case_decide; [lia|done].
Qed.

Lemma slice_copy_inside {A} o n o' (s p : list A) : (o + n <= length p)%nat -> (o <= o')%nat -> (o' + length s <= o + n)%nat ->
  slice o n (copy_at o' s p) = copy_at (o' - o) s (slice o n p).
Proof.
  intros H Ho Hs. apply list_eq. intros i. rewrite lookup_slice, (lookup_copy_at (o' - o)) by (rewrite slice_length; lia).
  rewrite lookup_slice. case_decide; [|case_decide; [lia|done]].
  rewrite lookup_copy_at by lia. case_decide; case_decide; try lia; [f_equal; lia|done].
Qed.

Lemma slice_slice {A} o n o' m (p : list A) : (o' + m <= n)%nat -> slice o' m (slice o n p) = slice (o + o') m p.
Proof.
  intros H. apply list_eq. intros i. rewrite !lookup_slice. case_decide; [|done]. case_decide; [|lia]. f_equal. lia.
Qed.

Lemma slice_sum o n o' (s p : bytes) k j :
  (o + n <= length p)%nat -> (o' + length s <= o + n)%nat -> o' = (o + 2 * k)%nat -> length s = (2 * j)%nat ->
  sum16 (slice o n (copy_at o' s p)) = sum16 (slice o n p) - sum16 (slice o' (length s) p) + sum16 s.
Proof.
  intros H Hs Ho Hj. rewrite slice_copy_inside by lia. rewrite (sum16_copy_at _ _ _ k j) by (rewrite ?slice_length; lia).
  rewrite slice_slice by lia. by replace (o + (o' - o))%nat with o' by lia.
Qed.

(** *** The layout of a parsed packet *)

(** The end of the addresses, where the transport header starts. *)
Definition base (h : parsed) : nat := destination h + ip_length h.

Record layout (h : parsed) (p : bytes) : Prop := {
  ly_length : exists k, ip_length h = (4 * k)%nat /\ (1 <= k <= 4)%nat;
  ly_source : exists k, source h = (2 * k)%nat;
  ly_destination : destination h = (source h + ip_length h)%nat;
  ly_protocolChecksum : exists k, protocolChecksum h = (base h + 2 * k)%nat;
  ly_packet : (protocolChecksum h + 2 <= length p)%nat;
  ly_IPChecksum : forall o, IPChecksum h = Some o -> (o + 2)%nat = source h;
  ly_data : (base h <= dataOffset h <= length p)%nat;
  ly_protocol : protocol h = internetProtocolTCP \/ protocol h = internetProtocolUDP;
  ly_version : version h = 4 /\ ip_length h = 4%nat /\ IPChecksum h = Some 10%nat \/ version h = 6 /\ ip_length h = 16%nat /\ IPChecksum h = None
}.

Lemma index_ok l i : (i < length l)%nat -> exists z, index l i = Ok z /\ 0 <= z < 256.
Proof. intros [b Hb]%lookup_lt_is_Some. unfold index. rewrite Hb. eexists. split; [done|apply b2z_range]. Qed.

Lemma subslice_ok l a b : (a <= b <= length l)%nat -> subslice l a b = Ok (slice a (b - a) l).
Proof. intros H. unfold subslice. destruct (Nat.leb_spec a b); [|lia]. destruct (Nat.leb_spec b (length l)); [done|lia]. Qed.

Lemma parse_transport_ok p b proto : (b <= length p)%nat ->
  (exists reason, parse_transport p b proto = Ok (inl reason)) \/
  exists o, parse_transport p b proto = Ok (inr o) /\ (b <= o <= length p)%nat /\ (b + 8 <= length p)%nat /\
    (proto = internetProtocolTCP /\ (b + 18 <= length p)%nat \/ proto = internetProtocolUDP).
Proof.
  intros Hb. unfold parse_transport. destruct (Z.eqb_spec proto internetProtocolTCP) as [->|].
  - destruct (Nat.ltb_spec (length p) (b + 18)); [by left; eauto|].
    destruct (index_ok p (b + 12)) as (z & -> & Hz); [lia|]. cbn [mbind res_mbind].
    match goal with |- context [if ?x then _ else _] => destruct x eqn:E end; [by left; eauto|]. apply Nat.ltb_ge in E.
    right. eexists. split; [done|]. split; [lia|]. split; [lia|]. by left.
  - destruct (Z.eqb_spec proto internetProtocolUDP) as [->|]; [|by left; eauto].
    destruct (Nat.ltb_spec (length p) (b + 8)); [by left; eauto|right]. eexists. split; [done|]. split; [lia|]. split; [lia|]. by right.
Qed.

Lemma parse_with_ok p v b po src n ipck :
  (1 <= n <= 4)%nat -> (exists k, src = (2 * k)%nat) -> (src + 4 * n + 4 * n = b)%nat -> (b <= length p)%nat -> (po < length p)%nat ->
  (forall o, ipck = Some o -> (o + 2)%nat = src) -> (v = 4 /\ n = 1%nat /\ ipck = Some 10%nat \/ v = 6 /\ n = 4%nat /\ ipck = None) ->
  (exists reason, parse_with p v b po src (src + 4 * n) (4 * n) ipck = Ok (inl reason)) \/
  exists h, parse_with p v b po src (src + 4 * n) (4 * n) ipck = Ok (inr h) /\ layout h p.
Proof.
  intros Hn Hs Hb Hl Hpo Hck Hv. unfold parse_with. destruct (index_ok p po Hpo) as (proto & -> & _). cbn [mbind res_mbind].
  destruct (parse_transport_ok p b proto Hl) as [[reason ->]|(o & -> & Ho & Hp8 & Hproto)]; [by left; eauto|right]. cbn [mbind res_mbind].
  assert ((if (proto =? internetProtocolTCP)%Z then b + 16 else b + 6) + 2 <= length p)%nat as Hpc
    by (destruct (Z.eqb_spec proto internetProtocolTCP); destruct Hproto as [[? ?]|?]; subst; (lia || done)).
  rewrite !subslice_ok by lia. cbn [mbind res_mbind]. eexists. split; [done|].
  split; cbn [version protocol source destination ip_length IPChecksum protocolChecksum dataOffset base]; unfold base; cbn [destination ip_length].
  - by exists n.
  - done.
  - done.
  - destruct (proto =? internetProtocolTCP); [exists 8%nat|exists 3%nat]; lia.
  - lia.
  - done.
  - lia.
  - destruct Hproto as [[? _]|?]; auto.
  - destruct Hv as [(-> & -> & ->)|(-> & -> & ->)]; auto.
Qed.

Lemma parse_packet_ok p :
  (exists reason, parse_packet p = Ok (inl reason)) \/ exists h, parse_packet p = Ok (inr h) /\ layout h p.
Proof.
  unfold parse_packet. destruct (Nat.ltb_spec (length p) 1); [by left; eauto|].
  destruct (index_ok p 0) as (b0 & -> & _); [lia|]. cbn [mbind res_mbind].
  destruct (Z.eqb_spec (Z.shiftr b0 4) 4) as [->|]; cbn [negb andb]; [|destruct (Z.eqb_spec (Z.shiftr b0 4) 6) as [->|]; cbn [negb andb]; [|by left; eauto]].
  - destruct (negb _); [by left; eauto|]. destruct (Nat.ltb_spec (length p) 20); [by left; eauto|].
    apply (parse_with_ok p 4 20 9 12 1 (Some 10%nat)); try lia; [by exists 6%nat|by intros ? [= <-]|auto].
  - destruct (Nat.ltb_spec (length p) 40); [by left; eauto|].
    apply (parse_with_ok p 6 40 6 8 4 None); try lia; [by exists 4%nat|done|auto].
Qed.

(** *** Rewriting *)

(** An address after a rewrite, which is none when the new address is empty. *)
Definition rewritten (o n : nat) (address p : bytes) : bytes := if bool_decide (address = []) then slice o n p else address.

Lemma copy_at_self {A} o n (p : list A) : (o + n <= length p)%nat -> copy_at o (slice o n p) p = p.
Proof.
  intros H. apply list_eq. intros i. rewrite lookup_copy_at by (rewrite slice_length; lia). case_decide as E; [|done].
  rewrite slice_length in E by lia. rewrite lookup_slice. case_decide; [|lia]. f_equal. lia.
Qed.

Lemma length_rewritten o n address p : (o + n <= length p)%nat -> address = [] \/ length address = n -> length (rewritten o n address p) = n.
Proof. intros H Ha. unfold rewritten. case_bool_decide; [by apply slice_length|]. by destruct Ha. Qed.

Lemma rewrite_address_spec o n k address p acc :
  n = (4 * k)%nat -> (k <= 4)%nat -> (o + n <= length p)%nat -> address = [] \/ length address = n -> Z.abs acc < 2 ^ 22 ->
  rewrite_address o n address (p, acc) =
    (copy_at o (rewritten o n address p) p, acc + sum16 (slice o n p) - sum16 (rewritten o n address p)).
Proof.
  intros Hn Hk Ho Ha Hb. unfold rewrite_address, rewritten. case_bool_decide as E.
  { rewrite copy_at_self by done. f_equal. lia. }
  destruct Ha as [|Hl]; [done|]. unfold copy_slice. rewrite take_ge by lia.
  pose proof (sum16_range (slice o n p)) as Hr. rewrite slice_length in Hr by done.
  assert (Z.of_nat ((n + 1) / 2) <= 8) as Hn8 by (assert ((n + 1) / 2 < 9)%nat by (apply Nat.Div0.div_lt_upper_bound; lia); lia).
  rewrite (checksumAccumulate_spec _ k false) by (rewrite ?slice_length; lia).
  rewrite (checksumAccumulate_spec _ k true); [|rewrite slice_length; [done|rewrite length_copy_at; lia]|lia].
  f_equal. f_equal. f_equal. rewrite <- Hl. by apply slice_copy_same; lia.
Qed.

Lemma sum16_address o n k address p : n = (4 * k)%nat -> (k <= 4)%nat -> (o + n <= length p)%nat -> address = [] \/ length address = n ->
  0 <= sum16 (rewritten o n address p) <= 2 ^ 20.
Proof.
  intros Hn Hk Ho Ha. pose proof (sum16_range (rewritten o n address p)) as Hr. rewrite length_rewritten in Hr by done.
  assert ((n + 1) / 2 < 9)%nat by (apply Nat.Div0.div_lt_upper_bound; lia). lia.
Qed.

Lemma rewritten_nil o n p : rewritten o n [] p = slice o n p.
Proof. done. Qed.

(** The one's complement sums that the checksums are about: the words of the IPv4 header, and
    those of the transport segment and of the addresses of its pseudo header. *)
Definition header_sum (h : parsed) (p : bytes) : Z := sum16 (slice 0 (base h) p).
Definition transport_sum (h : parsed) (p : bytes) : Z :=
  sum16 (slice (source h) (ip_length h) p) + sum16 (slice (destination h) (ip_length h) p) + sum16 (slice (base h) (length p - base h) p).

Definition congruent (x y : Z) : Prop := exists q, x = y + 65535 * q.

(** The bytes that a rewrite may change. *)
Definition rewritable (h : parsed) (i : nat) : Prop :=
  (source h <= i < base h)%nat \/ (protocolChecksum h <= i < protocolChecksum h + 2)%nat \/
  exists o, IPChecksum h = Some o /\ (o <= i < o + 2)%nat.

Record rewrite_ok (h : parsed) (rs rd p p' : bytes) : Prop := {
  rw_length : length p' = length p;
  rw_source : slice (source h) (ip_length h) p' = rewritten (source h) (ip_length h) rs p;
  rw_destination : slice (destination h) (ip_length h) p' = rewritten (destination h) (ip_length h) rd p;
  rw_header : version h = 4 -> congruent (header_sum h p') (header_sum h p);
  rw_transport : congruent (transport_sum h p') (transport_sum h p);
  rw_others : forall i, ~ rewritable h i -> p' !! i = p !! i
}.

(** The packet with new addresses and the old checksums. *)
Definition with_addresses (h : parsed) (S D p : bytes) : bytes := copy_at (destination h) D (copy_at (source h) S p).

Lemma with_addresses_spec h p S D :
  layout h p -> length S = ip_length h -> length D = ip_length h ->
  let p2 := with_addresses h S D p in
  length p2 = length p /\ slice (source h) (ip_length h) p2 = S /\ slice (destination h) (ip_length h) p2 = D /\
  header_sum h p2 = header_sum h p + sum16 S + sum16 D - sum16 (slice (source h) (ip_length h) p) - sum16 (slice (destination h) (ip_length h) p) /\
  slice (base h) (length p - base h) p2 = slice (base h) (length p - base h) p /\
  (forall i, ~ rewritable h i -> p2 !! i = p !! i).
Proof.
  intros [(k & Hn & Hk) (ks & Hs) Hd (kc & Hc) Hp _ _ _ _] HS HD p2. unfold p2, with_addresses, header_sum, base in *.
  assert (length (copy_at (source h) S p) = length p) as Hl by (apply length_copy_at; lia).
  split_and!.
  - rewrite length_copy_at; lia.
  - rewrite slice_copy_other by lia. rewrite <- HS. apply slice_copy_same. lia.
  - rewrite <- HD. apply slice_copy_same. lia.
  - rewrite (slice_sum 0 _ (destination h) D _ (ks + 2 * k) (2 * k)), (slice_sum 0 _ (source h) S _ ks (2 * k)) by lia.
    rewrite HS, HD, slice_copy_other by lia. lia.
  - by rewrite !slice_copy_other by lia.
  - intros i Hi. unfold rewritable, base in Hi. rewrite lookup_copy_at by lia. case_decide; [destruct Hi; lia|].
    rewrite lookup_copy_at by lia. case_decide; [destruct Hi; lia|done].
Qed.

Lemma adjust_at_spec o acc p : (o + 2 <= length p)%nat -> Z.abs acc < 2 ^ 23 ->
  exists c q, adjust_at o acc p = copy_at o c p /\ length c = 2%nat /\ sum16 c = sum16 (slice o 2 p) + acc + 65535 * q.
Proof.
  intros Ho Ha. destruct (checksumAdjust_spec (slice o 2 p) acc) as [Hl [q Hq]]; [by rewrite slice_length|done|]. by exists (checksumAdjust (slice o 2 p) acc), q.
Qed.

Lemma rewrite_packet_unfold h p rs rd :
  layout h p -> rs = [] \/ length rs = ip_length h -> rd = [] \/ length rd = ip_length h ->
  let S := rewritten (source h) (ip_length h) rs p in
  let D := rewritten (destination h) (ip_length h) rd p in
  let p2 := with_addresses h S D p in
  let acc := sum16 (slice (source h) (ip_length h) p) - sum16 S + sum16 (slice (destination h) (ip_length h) p) - sum16 D in
  Z.abs acc < 2 ^ 23 /\
  rewrite_packet h rs rd p =
    if bool_decide (rs = []) && bool_decide (rd = []) then p2
    else adjust_at (protocolChecksum h) acc (match IPChecksum h with Some o => adjust_at o acc p2 | None => p2 end).
Proof.
  intros [(k & Hn & Hk) (ks & Hs) Hd (kc & Hc) Hp _ _ _ _] Hrs Hrd S D p2 acc. unfold base in *.
  pose proof (sum16_address (source h) _ k rs p Hn ltac:(lia) ltac:(lia) Hrs) as B1. fold S in B1.
  pose proof (sum16_address (destination h) _ k rd p Hn ltac:(lia) ltac:(lia) Hrd) as B2. fold D in B2.
  pose proof (sum16_address (source h) _ k [] p Hn ltac:(lia) ltac:(lia) (or_introl eq_refl)) as B3.
  pose proof (sum16_address (destination h) _ k [] p Hn ltac:(lia) ltac:(lia) (or_introl eq_refl)) as B4.
  rewrite rewritten_nil in B3, B4. split; [unfold acc; lia|]. unfold rewrite_packet.
  rewrite (rewrite_address_spec _ _ k rs p 0) by (done || lia). fold S.
  assert (length S = ip_length h) as HS by (apply length_rewritten; [lia|done]).
  rewrite (rewrite_address_spec _ _ k rd); [|done|lia|rewrite length_copy_at; lia|done|lia].
  assert (rewritten (destination h) (ip_length h) rd (copy_at (source h) S p) = D) as ->.
  { unfold D, rewritten. case_bool_decide; [|done]. apply slice_copy_other; lia. }
  rewrite (slice_copy_other (destination h)) by lia. fold p2. replace (0 + _ - _ + _ - _) with acc by (unfold acc; lia). done.
Qed.

Lemma rewrite_packet_ok h p rs rd :
  layout h p -> rs = [] \/ length rs = ip_length h -> rd = [] \/ length rd = ip_length h ->
  rewrite_ok h rs rd p (rewrite_packet h rs rd p).
Proof.
  intros Hl Hrs Hrd. destruct (rewrite_packet_unfold h p rs rd Hl Hrs Hrd) as [Hacc ->].
  pose proof Hl as [(k & Hn & Hk) (ks & Hs) Hd (kc & Hc) Hp Hip _ _ Hv].
  set (S := rewritten (source h) (ip_length h) rs p) in *. set (D := rewritten (destination h) (ip_length h) rd p) in *.
  assert (length S = ip_length h) as HS by (apply length_rewritten; [unfold base in *; lia|done]).
  assert (length D = ip_length h) as HD by (apply length_rewritten; [unfold base in *; lia|done]).
  set (acc := sum16 _ - _ + _ - _) in *. set (p2 := with_addresses h S D p).
  destruct (with_addresses_spec h p S D Hl HS HD) as (L2 & S2 & D2 & H2 & T2 & O2). fold p2 in L2, S2, D2, H2, T2, O2.
  destruct (bool_decide (rs = []) && bool_decide (rd = [])) eqn:E.
  { apply andb_prop in E as [->%bool_decide_eq_true ->%bool_decide_eq_true].
    split; [done..| | |done]; [intros _; exists 0|exists 0]; [rewrite H2|unfold transport_sum; rewrite S2, D2, L2, T2];
      unfold S, D; rewrite !rewritten_nil; lia. }
  set (p3 := match IPChecksum h with Some o => adjust_at o acc p2 | None => p2 end).
  assert (length p3 = length p /\ (forall o n, (source h <= o)%nat -> slice o n p3 = slice o n p2) /\
    (version h = 4 -> congruent (header_sum h p3) (header_sum h p)) /\ (forall i, ~ rewritable h i -> p3 !! i = p !! i)) as (L3 & T3 & H3 & O3).
  { unfold p3. destruct (IPChecksum h) as [o|] eqn:Eo; [|destruct Hv as [(_ & _ & ?)|(Hv & _)]; [done|]; split_and!; try done; lia].
    specialize (Hip o eq_refl). unfold base in *. destruct (adjust_at_spec o acc p2) as (c & q & -> & Lc & Sc); [lia|done|].
    split_and!.
    - rewrite length_copy_at; lia.
    - intros o' n Ho. apply slice_copy_other; lia.
    - intros _. exists q. unfold header_sum in *. rewrite (slice_sum 0 _ o c p2 (ks - 1) 1), Lc, Sc, H2 by (unfold base; lia). unfold acc. lia.
    - intros i Hi. rewrite lookup_copy_at by lia. case_decide; [|by apply O2]. destruct Hi. right. right. exists o. split; [done|lia]. }
  clearbody p3. unfold base in *.
  destruct (adjust_at_spec (protocolChecksum h) acc p3) as (c & q & -> & Lc & Sc); [lia|done|]. split.
  - rewrite length_copy_at; lia.
  - rewrite slice_copy_other by lia. by rewrite T3 by lia.
  - rewrite slice_copy_other by lia. by rewrite T3 by lia.
  - intros Hv4. unfold header_sum, base. rewrite slice_copy_other by lia. by apply H3.
  - exists q. unfold transport_sum, base. rewrite !(slice_copy_other _ (ip_length h)), !T3, S2, D2 by lia.
    rewrite length_copy_at by lia. rewrite L3, (slice_sum _ _ (protocolChecksum h) c p3 kc 1), Lc, Sc by lia.
    rewrite (T3 (destination h + ip_length h)%nat) by lia. rewrite T2. unfold acc. lia.
  - intros i Hi. rewrite lookup_copy_at by lia. case_decide; [|by apply O3]. destruct Hi. right. left. lia.
Qed.

(** ** Sessions and flows *)

Definition nil_or (n : nat) (ip : bytes) : Prop := ip = [] \/ length ip = n.

Record session_ok (s : session) : Prop := {
  so_assigned4 : length (assignedIPv4Address s) = 4%nat;
  so_assigned6 : length (assignedIPv6Address s) = 16%nat;
  so_original4 : forall ip, originalIPv4Address s = Some ip -> length ip = 4%nat;
  so_original6 : forall ip, originalIPv6Address s = Some ip -> length ip = 16%nat;
  so_resolvers4 : Forall (fun ip => length ip = 4%nat) (DNSResolverIPv4Addresses s);
  so_resolvers6 : Forall (fun ip => length ip = 16%nat) (DNSResolverIPv6Addresses s);
  so_index4 : DNSResolverIPv4Addresses s <> [] -> (TCPDNSResolverIPv4Index s < length (DNSResolverIPv4Addresses s))%nat;
  so_index6 : DNSResolverIPv6Addresses s <> [] -> (TCPDNSResolverIPv6Index s < length (DNSResolverIPv6Addresses s))%nat
}.

(** The traffic rules permit the flow. *)
Definition permitted (s : session) (ID : flowID) : Prop :=
  upstreamPort ID <> 0 /\
  match (if flow_protocol ID =? internetProtocolTCP then checkAllowedTCPPortFunc s else checkAllowedUDPPortFunc s) with
  | Some f => f (upstreamIPAddress ID) (upstreamPort ID) = true
  | None => False
  end.

(** The flows tracked under earlier rules, before the session was resumed. *)
Section Flows.
Context (old : flowID -> Prop).

(** Every tracked flow is of transparent DNS, permitted or earlier. *)
Definition flows_ok (s : session) : Prop :=
  forall ID f, flows s !! ID = Some f -> isDNS f = true \/ permitted s ID \/ old ID.

(** The session with other flows. *)
Definition reflowed (s s' : session) : Prop := exists i m, s' = set_flows s i m.

Lemma reflowed_refl s : reflowed s s.
Proof. exists (lastFlowReapIndex s), (flows s). by destruct s. Qed.

Lemma reflowed_trans s1 s2 s3 : reflowed s1 s2 -> reflowed s2 s3 -> reflowed s1 s3.
Proof. intros (i & m & ->) (j & n & ->). by exists j, n. Qed.

Lemma reflowed_ok s s' : reflowed s s' -> session_ok s -> session_ok s'.
Proof. intros (i & m & ->) []. by split. Qed.

Lemma flows_ok_set s i m : (forall ID f, m !! ID = Some f -> isDNS f = true \/ permitted s ID \/ old ID) -> flows_ok (set_flows s i m).
Proof. intros H ID f. apply H. Qed.

Lemma deleteFlow_ok s ID f now : flows_ok s -> flows_ok (deleteFlow s ID f now).1 /\ reflowed s (deleteFlow s ID f now).1.
Proof.
  intros H. split; [|by eexists _, _]. apply flows_ok_set. intros ID' f' Hf. apply lookup_delete_Some in Hf as [_ Hf]. by apply (H ID' f').
Qed.

Lemma isTrackingFlow_ok s ID now b s' ev :
  flows_ok s -> isTrackingFlow s ID now = (b, s', ev) ->
  flows_ok s' /\ reflowed s s' /\
  (if b then s' = s /\ exists f, flows s !! ID = Some f /\ flow_expired f now FLOW_IDLE_EXPIRY = false
   else flows s' !! ID = None).
Proof.
  unfold isTrackingFlow. intros H. destruct (flows s !! ID) as [f|] eqn:E.
  - destruct (flow_expired f now FLOW_IDLE_EXPIRY) eqn:Ex.
    + intros [= <- <- <-]. destruct (deleteFlow_ok s ID f now H). split_and!; [done|done|]. apply lookup_delete_eq.
    + intros [= <- <- <-]. split_and!; [done|apply reflowed_refl|done|by exists f].
  - intros [= <- <- <-]. split_and!; [done|apply reflowed_refl|done].
Qed.

Lemma reap_loop_ok now l : forall s ev s' ev',
  flows_ok s ->
  foldl (fun se kf => if flow_expired kf.2 now FLOW_IDLE_EXPIRY
    then let '(s, ev) := deleteFlow se.1 kf.1 kf.2 now in (s, se.2 ++ ev) else se) (s, ev) l = (s', ev') ->
  flows_ok s' /\ reflowed s s'.
Proof.
  induction l as [|[k f] l IH]; intros s ev s' ev' H E; cbn [foldl] in E.
  - injection E as <- <-. split; [done|apply reflowed_refl].
  - destruct (flow_expired _ _ _); [|by apply (IH s ev s' ev')]. destruct (deleteFlow_ok s k f now H) as [H1 Hr].
    cbn [fst snd] in E. destruct (deleteFlow s k f now) as [s1 e1]. destruct (IH _ _ _ _ H1 E). split; [done|by eapply reflowed_trans].
Qed.

Lemma updateFlow_ok s ID direction n now s' ev :
  flows_ok s -> updateFlow s ID direction n now = (s', ev) ->
  flows_ok s' /\ reflowed s s' /\
  (forall f, flows s !! ID = Some f -> exists f', flows s' !! ID = Some f' /\
    (direction = packetDirectionServerUpstream -> lastUpstreamPacketTime f' = now)).
Proof.
  unfold updateFlow. intros H. destruct (flows s !! ID) as [f|] eqn:E; [|intros [= <- <-]; split_and!; [done|apply reflowed_refl|done]].
  intros [= <- <-]. split_and!; [|by eexists _, _|].
  - apply flows_ok_set. intros ID' f' Hf. apply lookup_insert_Some in Hf as [[<- <-]|[_ Hf]]; [|by apply (H ID' f')].
    destruct (H ID f E) as [Hd|]; [left|by right]. by case_bool_decide.
  - intros f0 [= <-]. cbn [flows set_flows]. rewrite lookup_insert_eq. eexists. split; [done|]. intros ->. by rewrite bool_decide_eq_true_2.
Qed.

Lemma reflowed_permitted s s' ID : reflowed s s' -> permitted s ID <-> permitted s' ID.
Proof. by intros (i & m & ->). Qed.

Lemma startTrackingFlow_ok visit s ID direction n dns t s' ev :
  flows_ok s -> dns = true \/ permitted s ID -> startTrackingFlow visit s ID direction n dns t = (s', ev) ->
  flows_ok s' /\ reflowed s s' /\
  exists f', flows s' !! ID = Some f' /\ (direction = packetDirectionServerUpstream -> lastUpstreamPacketTime f' = now_update t).
Proof.
  unfold startTrackingFlow. intros H Hp. set (reap := Z.quot (now_start t) _).
  destruct (if reap =? lastFlowReapIndex s then _ else _) as [s1 e1] eqn:E1.
  assert (flows_ok s1 /\ reflowed s s1) as [H1 R1].
  { destruct (reap =? lastFlowReapIndex s); [injection E1 as <- <-; split; [done|apply reflowed_refl]|].
    apply reap_loop_ok in E1 as [? ?]; [|exact H]. split; [done|]. eapply reflowed_trans; [|done]. by eexists _, _. }
  set (f := {| firstUpstreamPacketTime := _ |}). set (s2 := match flows s1 !! ID with Some _ => _ | None => _ end).
  assert (flows_ok s2 /\ reflowed s1 s2 /\ is_Some (flows s2 !! ID)) as (H2 & R2 & [f2 Hf2]).
  { unfold s2. destruct (flows s1 !! ID) as [f1|] eqn:Ef; [split_and!; [done|apply reflowed_refl|by rewrite Ef]|].
    split_and!; [|by eexists _, _|cbn; by rewrite lookup_insert_eq].
    apply flows_ok_set. intros ID' f' Hf. apply lookup_insert_Some in Hf as [[<- <-]|[_ Hf]]; [|by apply (H1 ID' f')].
    destruct Hp as [->|Hp]; [by left|right; left]. by rewrite <- (reflowed_permitted _ _ _ R1). }
  clearbody s2. destruct (updateFlow s2 ID direction n (now_update t)) as [s3 e3] eqn:E3. intros [= <- <-].
  destruct (updateFlow_ok _ _ _ _ _ _ _ H2 E3) as (H3 & R3 & Hl). split_and!; [done| |by apply (Hl f2)].
  eapply reflowed_trans; [done|]. by eapply reflowed_trans.
Qed.

(** ** Packets at the server *)

(** A computation ends without a panic, with a result and a state that satisfy [Q]. *)
Definition run_to {A} (m : stres packet_state A) (st : packet_state) (Q : A -> packet_state -> Prop) : Prop :=
  exists a st', m st = Ok (a, st') /\ Q a st'.

Lemma run_bind {A B} (m : stres packet_state A) (f : A -> stres packet_state B) st R Q :
  run_to m st R -> (forall a st', R a st' -> run_to (f a) st' Q) -> run_to (m ≫= f) st Q.
Proof.
  intros (a & st1 & E & H) Hf. destruct (Hf a st1 H) as (b & st2 & E2 & HQ). exists b, st2. split; [|done].
  by rewrite (stres_bind_run _ _ _ _ _ E).
Qed.

Lemma run_mono {A} (m : stres packet_state A) st (R Q : A -> packet_state -> Prop) :
  (forall a st', R a st' -> Q a st') -> run_to m st R -> run_to m st Q.
Proof. intros H (a & st' & E & HR). exists a, st'. auto. Qed.

Lemma run_step {A B} (m : stres packet_state A) (f : A -> stres packet_state B) st a st1 Q :
  m st = Ok (a, st1) -> run_to (f a) st1 Q -> run_to (m ≫= f) st Q.
Proof. intros E (b & st2 & E2 & HQ). exists b, st2. split; [|done]. by rewrite (stres_bind_run _ _ _ _ _ E). Qed.

Lemma get_session_run st s : the_session st = Some s -> get_session st = Ok (s, st).
Proof. intros E. unfold get_session. by rewrite E. Qed.

Lemma lift_run {A} (r : res A) a (st : packet_state) : r = Ok a -> st_lift r st = Ok (a, st).
Proof. by intros ->. Qed.

Lemma run_ret {A} (a : A) st (Q : A -> packet_state -> Prop) : Q a st -> run_to (mret a) st Q.
Proof. intros H. by exists a, st. Qed.

Lemma run_lift {A} (r : res A) a st (Q : A -> packet_state -> Prop) : r = Ok a -> Q a st -> run_to (st_lift r) st Q.
Proof. intros -> H. by exists a, st. Qed.

Lemma run_reject direction reason st (Q : bool -> packet_state -> Prop) :
  Q false {| metrics := rejectedPacket (metrics st) direction reason; the_session := the_session st; packet := packet st; events := events st |} ->
  run_to (reject direction reason) st Q.
Proof. intros H. eexists _, _. split; [reflexivity|done]. Qed.

Section Server.
Context (ParseDNSQuestion : bytes -> res string) (IsBogon : bytes -> bool).
Context (rand_Intn : nat -> nat) (visit : flow_visit) (t : clock).
Context (HDNS : forall b, (exists d, ParseDNSQuestion b = Ok d) \/ (exists e, ParseDNSQuestion b = Err e)).
Context (Hrand : forall n, (0 < n)%nat -> (rand_Intn n < n)%nat).

Lemma resolvers_length s h p : session_ok s -> layout h p -> Forall (fun ip => length ip = ip_length h) (resolvers s h).
Proof. intros [] []. unfold resolvers. destruct ly_version0 as [(-> & -> & _)|(-> & -> & _)]; done. Qed.

Lemma resolver_for_ok s h p : session_ok s -> layout h p -> resolvers s h <> [] ->
  exists ip, resolver_for rand_Intn s h = Ok ip /\ ip ∈ resolvers s h /\ length ip = ip_length h.
Proof.
  intros Hs Hl Hne. pose proof (resolvers_length s h p Hs Hl) as Hr. unfold resolver_for. set (i := if protocol h =? _ then _ else _).
  assert (i < length (resolvers s h))%nat as Hi.
  { unfold i. destruct (protocol h =? internetProtocolUDP); [apply Hrand; by destruct (resolvers s h); [|cbn; lia]|].
    unfold resolvers in *. destruct Hs, Hl. destruct (version h =? 4); auto. }
  destruct (lookup_lt_is_Some_2 _ _ Hi) as [ip Hip]. exists ip. rewrite Hip. split; [done|].
  apply list_elem_of_lookup_2 in Hip. split; [done|]. by apply (proj1 (list.Forall_forall _ _) Hr).
Qed.

(** *** Transparent DNS *)

Definition dns_upstream (h : parsed) (destinationIP : bytes) : bool :=
  (destinationPort h =? portNumberDNS) && Subnet.IP_Equal destinationIP (transparentDNSResolver h).

Definition dns_downstream (s : session) (h : parsed) (sourceIP : bytes) : bool :=
  (sourcePort h =? portNumberDNS) && existsb (Subnet.IP_Equal sourceIP) (resolvers s h).

Lemma dns_upstream_run cdns st s h sourceIP destinationIP data :
  the_session st = Some s -> is_Some (checkAllowedDomainFunc s) ->
  run_to (transparent_dns ParseDNSQuestion cdns packetDirectionServerUpstream h sourceIP destinationIP data) st
    (fun r st' => st' = st /\ forall dns, r = inr dns -> dns = dns_upstream h destinationIP /\ (dns = true -> resolvers s h <> [])).
Proof.
  intros Es [f Hf]. cbn [transparent_dns]. eapply run_step; [by apply get_session_run|].
  unfold transparent_dns_upstream, dns_upstream. destruct (destinationPort h =? portNumberDNS); cbn [negb andb].
  2: { eapply run_lift; [done|]. split; [done|]. by intros ? [= <-]. }
  destruct (Subnet.IP_Equal destinationIP (transparentDNSResolver h)); cbn [negb].
  2: { eapply run_lift; [done|]. split; [done|]. by intros ? [= <-]. }
  destruct (Nat.eqb_spec (length (resolvers s h)) 0) as [|Hne]; [eapply run_lift; [done|]; by split|].
  assert (resolvers s h <> []) as Hr by (intros E; by rewrite E in Hne).
  destruct (protocol h =? internetProtocolUDP); [|eapply run_lift; [done|]; split; [done|]; by intros ? [= <-]].
  destruct (HDNS data) as [[d ->]|[e ->]]; [|eapply run_lift; [done|]; by split].
  case_bool_decide; [eapply run_lift; [done|]; split; [done|]; by intros ? [= <-]|].
  rewrite Hf. cbn [res_of_option mbind res_mbind]. destruct (f d); eapply run_lift; try done; (split; [done|]); by intros ? [= <-].
Qed.

Lemma dns_downstream_run cdns st s h sourceIP destinationIP data :
  the_session st = Some s ->
  run_to (transparent_dns ParseDNSQuestion cdns packetDirectionServerDownstream h sourceIP destinationIP data) st
    (fun r st' => st' = st /\ r = inr (dns_downstream s h sourceIP)).
Proof.
  intros Es. cbn [transparent_dns]. unfold dns_downstream. destruct (sourcePort h =? portNumberDNS); [|by apply run_ret].
  eapply run_step; [by apply get_session_run|]. by apply run_ret.
Qed.

(** *** Addresses *)

Definition assigned (s : session) (h : parsed) : bytes := if version h =? 4 then assignedIPv4Address s else assignedIPv6Address s.
Definition original (s : session) (h : parsed) : option bytes := if version h =? 4 then originalIPv4Address s else originalIPv6Address s.

(** The session after the first packet with source [ip]. *)
Definition recorded (s : session) (h : parsed) (ip : bytes) : session :=
  if version h =? 4 then setOriginalIPv4AddressIfNotSet s ip else setOriginalIPv6AddressIfNotSet s ip.

Lemma recorded_spec s h ip : recorded s h ip = s \/ exists o4 o6, recorded s h ip = set_originals s o4 o6.
Proof.
  unfold recorded, setOriginalIPv4AddressIfNotSet, setOriginalIPv6AddressIfNotSet.
  destruct (version h =? 4); [destruct (originalIPv4Address s)|destruct (originalIPv6Address s)]; eauto.
Qed.

Lemma recorded_same s h ip :
  assigned (recorded s h ip) h = assigned s h /\ resolvers (recorded s h ip) h = resolvers s h /\ flows (recorded s h ip) = flows s /\
  (forall ID, permitted (recorded s h ip) ID <-> permitted s ID) /\ allowBogons (recorded s h ip) = allowBogons s /\
  enableDNSFlowTracking (recorded s h ip) = enableDNSFlowTracking s.
Proof. destruct (recorded_spec s h ip) as [->|(o4 & o6 & ->)]; done. Qed.

Lemma recorded_flows_ok s h ip : flows_ok s -> flows_ok (recorded s h ip).
Proof. destruct (recorded_spec s h ip) as [->|(o4 & o6 & ->)]; done. Qed.

Lemma recorded_original s h ip : original (recorded s h ip) h = Some (default ip (original s h)).
Proof.
  unfold recorded, original, setOriginalIPv4AddressIfNotSet, setOriginalIPv6AddressIfNotSet.
  destruct (version h =? 4); [destruct (originalIPv4Address s) eqn:E|destruct (originalIPv6Address s) eqn:E]; cbn; rewrite ?E; done.
Qed.

Lemma recorded_ok s h ip p : session_ok s -> layout h p -> length ip = ip_length h -> session_ok (recorded s h ip).
Proof.
  intros [] [] Hip. unfold recorded, setOriginalIPv4AddressIfNotSet, setOriginalIPv6AddressIfNotSet.
  destruct ly_version0 as [(-> & E & _)|(-> & E & _)]; cbn [Z.eqb Pos.eqb].
  - destruct (originalIPv4Address s) eqn:Eo; [by split; rewrite ?Eo|]. split; cbn; try done. intros ? [= <-]. lia.
  - destruct (originalIPv6Address s) eqn:Eo; [by split; rewrite ?Eo|]. split; cbn; try done. intros ? [= <-]. lia.
Qed.

Lemma assigned_length s h p : session_ok s -> layout h p -> length (assigned s h) = ip_length h.
Proof. intros [] []. unfold assigned. destruct ly_version0 as [(-> & -> & _)|(-> & -> & _)]; done. Qed.

Lemma original_length s h p ip : session_ok s -> layout h p -> original s h = Some ip -> length ip = ip_length h.
Proof. intros [] []. unfold original. destruct ly_version0 as [(-> & -> & _)|(-> & -> & _)]; cbn [Z.eqb Pos.eqb]; auto. Qed.

Lemma rewrites_upstream cdns st s h dns sourceIP :
  the_session st = Some s -> session_ok s -> layout h (packet st) -> (dns = true -> resolvers s h <> []) ->
  run_to (rewrites rand_Intn cdns packetDirectionServerUpstream h dns sourceIP) st
    (fun r st' => packet st' = packet st /\ the_session st' = Some (recorded s h sourceIP) /\
      exists rd, r = inr (assigned s h, rd) /\
        if dns then rd ∈ resolvers s h /\ length rd = ip_length h else rd = []).
Proof.
  intros Es Hs Hl Hr. cbn [rewrites]. eapply run_step; [by apply get_session_run|].
  fold (recorded s h sourceIP). destruct (recorded_same s h sourceIP) as (Ha & Hres & _).
  eapply run_step; [reflexivity|].
  change (if version h =? 4 then assignedIPv4Address (recorded s h sourceIP) else assignedIPv6Address (recorded s h sourceIP))
    with (assigned (recorded s h sourceIP) h). rewrite Ha. destruct dns.
  - assert (resolver_for rand_Intn (recorded s h sourceIP) h = resolver_for rand_Intn s h) as ->.
    { destruct (recorded_spec s h sourceIP) as [->|(o4 & o6 & ->)]; done. }
    destruct (resolver_for_ok s h _ Hs Hl (Hr eq_refl)) as (ip & Hip & Hin & Hlen).
    eapply run_step; [by apply lift_run|]. apply run_ret. eauto 10.
  - eapply run_step; [reflexivity|]. apply run_ret. eauto 10.
Qed.

Lemma rewrites_downstream cdns st s h dns sourceIP :
  the_session st = Some s -> session_ok s -> layout h (packet st) ->
  run_to (rewrites rand_Intn cdns packetDirectionServerDownstream h dns sourceIP) st
    (fun r st' => st' = st /\ r = match original s h with
      | Some ip => inr (if dns then transparentDNSResolver h else [], ip)
      | None => inl packetRejectNoOriginalAddress
      end).
Proof.
  intros Es Hs Hl. cbn [rewrites]. eapply run_step; [by apply get_session_run|].
  assert ((if version h =? 4 then getOriginalIPv4Address s else getOriginalIPv6Address s) = default [] (original s h)) as ->
    by (unfold original; by destruct (version h =? 4)).
  destruct (original s h) as [ip|] eqn:E; cbn [default from_option id]; [|by apply run_ret].
  pose proof (original_length s h _ ip Hs Hl E) as Hip. case_bool_decide as Hn; [|by apply run_ret].
  subst. destruct (ly_length _ _ Hl) as (k & Hk & ?). cbn in Hip. lia.
Qed.

(** *** Rules *)

(** The destination of an upstream packet: not a bogon unless those are allowed, and not another client. *)
Definition address_allowed (s : session) (h : parsed) (destinationIP : bytes) : Prop :=
  (allowBogons s = true \/ IsBogon destinationIP = false) /\
  (Subnet.IP_Equal destinationIP (transparentDNSResolver h) = true \/
   Subnet.IPNet_Contains (if version h =? 4 then privateSubnetIPv4 else privateSubnetIPv6) destinationIP = false).

(** The packet is of transparent DNS, or of a tracked flow, or the rules permit it. *)
Definition accepted (direction : packetDirection) (s : session) (h : parsed) (ID : flowID) (destinationIP : bytes) (dns : bool) : Prop :=
  dns = true \/
  (exists f, flows s !! ID = Some f /\ flow_expired f (now_track t) FLOW_IDLE_EXPIRY = false) \/
  permitted s ID /\ IsGlobalUnicast destinationIP = true /\
  (direction = packetDirectionServerUpstream -> address_allowed s h destinationIP).

Lemma check_port_run direction s h sIP dIP rs rd st :
  is_server direction = true -> the_session st = Some s ->
  exists b, check_port direction h (flow_of direction h sIP dIP rs rd) st = Ok (b, st) /\
    (b = true <-> permitted s (flow_of direction h sIP dIP rs rd)).
Proof.
  intros Hd Es. set (ID := flow_of direction h sIP dIP rs rd). unfold check_port.
  assert ((if is_upstream direction then destinationPort h else sourcePort h) = upstreamPort ID /\ flow_protocol ID = protocol h) as [-> Hp].
  { unfold ID, flow_of. by destruct direction. }
  rewrite Hd, <- Hp. unfold permitted. destruct (Z.eqb_spec (upstreamPort ID) 0) as [E|E]; [exists false; split; [done|naive_solver]|].
  rewrite (stres_bind_run _ _ _ _ _ (get_session_run _ _ Es)). eexists. split; [reflexivity|].
  destruct (if flow_protocol ID =? internetProtocolTCP then _ else _); naive_solver.
Qed.

Lemma check_destination_run direction s h dIP st :
  is_server direction = true -> the_session st = Some s ->
  exists b, check_destination IsBogon direction h dIP st = Ok (b, st) /\
    (b = true <-> IsGlobalUnicast dIP = true /\ (direction = packetDirectionServerUpstream -> address_allowed s h dIP)).
Proof.
  intros Hd Es. unfold check_destination. destruct (IsGlobalUnicast dIP); cbn [negb]; [|exists false; split; [done|naive_solver]].
  case_bool_decide as E; [|exists true; split; [done|naive_solver]]. rewrite (stres_bind_run _ _ _ _ _ (get_session_run _ _ Es)).
  eexists. split; [reflexivity|]. unfold address_allowed.
  destruct (allowBogons s), (IsBogon dIP), (Subnet.IP_Equal dIP _), (Subnet.IPNet_Contains _ dIP); cbn [negb andb];
    intuition congruence.
Qed.

(** A packet that is relayed. *)
Lemma relay_run direction s h ID tracked track dns rs rd st :
  the_session st = Some s -> flows_ok s -> (tracked = true -> is_Some (flows s !! ID)) -> dns = true \/ tracked = true \/ permitted s ID ->
  run_to (relay visit t direction h ID tracked track dns rs rd) st (fun b st' => b = true /\
    exists s', the_session st' = Some s' /\ flows_ok s' /\ reflowed s s' /\ packet st' = rewrite_packet h rs rd (packet st) /\
      (track = true -> exists f, flows s' !! ID = Some f /\
        (direction = packetDirectionServerUpstream -> lastUpstreamPacketTime f = now_update t))).
Proof.
  intros Es Hf Ht Hok. unfold relay. eapply run_step; [reflexivity|]. cbn zeta. eapply run_step; [reflexivity|]. destruct track.
  - eapply run_bind with (R := fun _ st' => packet st' = rewrite_packet h rs rd (packet st) /\ exists s', the_session st' = Some s' /\ flows_ok s' /\ reflowed s s' /\
      exists f, flows s' !! ID = Some f /\ (direction = packetDirectionServerUpstream -> lastUpstreamPacketTime f = now_update t)).
    + eapply run_step; [by apply get_session_run|]. destruct tracked.
      * destruct (updateFlow s ID direction _ (now_update t)) as [s' ev] eqn:E. destruct (updateFlow_ok _ _ _ _ _ _ _ Hf E) as (H1 & H2 & H3).
        destruct (Ht eq_refl) as [f Hff]. eexists _, _. split; [reflexivity|]. split; [done|]. exists s'. eauto.
      * destruct (startTrackingFlow visit s ID direction _ dns t) as [s' ev] eqn:E.
        assert (dns = true \/ permitted s ID) as Hp by (destruct Hok as [?|[?|?]]; [by left|done|by right]).
        destruct (startTrackingFlow_ok _ _ _ _ _ _ _ _ _ Hf Hp E) as (H1 & H2 & H3).
        eexists _, _. split; [reflexivity|]. split; [done|]. exists s'. eauto.
    + intros _ st1 (Hp & s' & Es' & H1 & H2 & H3). eapply run_step; [reflexivity|]. eapply run_step; [reflexivity|]. apply run_ret.
      split; [done|]. exists s'. eauto 10.
  - eapply run_step; [reflexivity|]. eapply run_step; [reflexivity|]. eapply run_step; [reflexivity|]. apply run_ret.
    split; [done|]. exists s. split_and!; [done|done|apply reflowed_refl|done|done].
Qed.

(** The outcome of the rules at the server. *)
Definition ruled (direction : packetDirection) (s : session) (h : parsed) (ID : flowID) (dIP : bytes) (dns : bool) (rs rd : bytes)
    (st : packet_state) (b : bool) (st' : packet_state) : Prop :=
  (b = true <-> accepted direction s h ID dIP dns) /\
  exists s', the_session st' = Some s' /\ flows_ok s' /\ reflowed s s' /\
    packet st' = (if b then rewrite_packet h rs rd (packet st) else packet st) /\
    (b = true -> negb dns || enableDNSFlowTracking s = true -> exists f, flows s' !! ID = Some f /\
      (direction = packetDirectionServerUpstream -> lastUpstreamPacketTime f = now_update t)).

Lemma accepted_reflowed direction s s1 h ID dIP dns :
  reflowed s s1 -> dns = false -> (forall f, flows s !! ID = Some f -> flow_expired f (now_track t) FLOW_IDLE_EXPIRY = true) ->
  accepted direction s h ID dIP dns <->
  permitted s1 ID /\ IsGlobalUnicast dIP = true /\ (direction = packetDirectionServerUpstream -> address_allowed s1 h dIP).
Proof.
  intros Hr -> Hex. unfold accepted. rewrite <- (reflowed_permitted _ _ _ Hr).
  assert (address_allowed s1 h dIP <-> address_allowed s h dIP) as -> by (by destruct Hr as (i & m & ->)).
  split; [intros [?|[(f & Hf & He)|?]]; [done| |done]|auto]. by rewrite (Hex f Hf) in He.
Qed.

Lemma track_run direction s dns st :
  is_server direction = true -> the_session st = Some s ->
  (if is_server direction then s ← get_session; mret (negb dns || enableDNSFlowTracking s) else mret false) st =
    Ok (negb dns || enableDNSFlowTracking s, st).
Proof. intros -> Es. by rewrite (stres_bind_run _ _ _ _ _ (get_session_run _ _ Es)). Qed.

Lemma apply_rules_run direction s h sIP dIP dns rs rd st :
  is_server direction = true -> the_session st = Some s -> flows_ok s ->
  run_to (apply_rules IsBogon visit t direction h sIP dIP dns rs rd) st
    (ruled direction s h (flow_of direction h sIP dIP rs rd) dIP dns rs rd st).
Proof.
  intros Hd Es Hf. unfold apply_rules. set (ID := flow_of direction h sIP dIP rs rd).
  eapply run_step; [by apply track_run|]. set (track := negb dns || enableDNSFlowTracking s).
  eapply run_bind with (R := fun b st1 => packet st1 = packet st /\ exists s1, the_session st1 = Some s1 /\ flows_ok s1 /\ reflowed s s1 /\
    (b = true -> s1 = s /\ exists f, flows s !! ID = Some f /\ flow_expired f (now_track t) FLOW_IDLE_EXPIRY = false) /\
    (b = false -> track = true -> forall f, flows s !! ID = Some f -> flow_expired f (now_track t) FLOW_IDLE_EXPIRY = true)).
  { destruct track; [|apply run_ret; split; [done|]; exists s; split_and!; [done|done|apply reflowed_refl|done|done]].
    eapply run_step; [by apply get_session_run|]. destruct (isTrackingFlow s ID (now_track t)) as [[b s1] ev] eqn:E.
    destruct (isTrackingFlow_ok _ _ _ _ _ _ Hf E) as (H1 & H2 & H3). eapply run_step; [reflexivity|]. apply run_ret.
    split; [done|]. exists s1. split_and!; [done|done|done|by intros ->|]. intros -> _ f Hff.
    unfold isTrackingFlow in E. rewrite Hff in E. by destruct (flow_expired f (now_track t) FLOW_IDLE_EXPIRY). }
  intros tracked st1 (Hp1 & s1 & Es1 & Hf1 & Hr1 & Ht & Hn).
  assert (accepted direction s h ID dIP dns -> dns = true \/ tracked = true \/ permitted s1 ID ->
    run_to (relay visit t direction h ID tracked track dns rs rd) st1 (ruled direction s h ID dIP dns rs rd st)) as Hrelay.
  { intros Hacc Hok. eapply run_mono; [|apply (relay_run direction s1 h ID tracked track dns rs rd st1 Es1 Hf1); [|done]].
    - intros b st' (-> & s' & H1 & H2 & H3 & H4 & H5). split; [done|]. exists s'. rewrite H4, Hp1. split_and!; try done. by eapply reflowed_trans.
    - intros Htr. destruct (Ht Htr) as (-> & f & Hff & _). by exists f. }
  destruct dns; cbn [negb andb]; [apply Hrelay; auto; by left|]. destruct tracked; cbn [negb].
  { apply Hrelay; auto. right. left. by destruct (Ht eq_refl). }
  specialize (Hn eq_refl eq_refl). pose proof (accepted_reflowed direction s s1 h ID dIP false Hr1 eq_refl Hn) as Hacc.
  destruct (check_port_run direction s1 h sIP dIP rs rd st1 Hd Es1) as (b1 & E1 & Hb1). fold ID in E1, Hb1.
  destruct (check_destination_run direction s1 h dIP st1 Hd Es1) as (b2 & E2 & Hb2).
  assert (forall reason, ~ accepted direction s h ID dIP false ->
    run_to (reject direction reason) st1 (ruled direction s h ID dIP false rs rd st)) as Hreject.
  { intros reason Hna. apply run_reject. split; [by split|]. exists s1. split_and!; [done|done|done|done|done]. }
  eapply run_step; [exact E1|]. destruct b1; cbn [negb]; [|apply Hreject; rewrite Hacc; intros [?%Hb1 _]; done].
  eapply run_step; [exact E2|]. destruct b2; cbn [negb]; [|apply Hreject; rewrite Hacc; intros [_ ?%Hb2]; done].
  pose proof (proj1 Hb1 eq_refl). pose proof (proj1 Hb2 eq_refl). apply Hrelay; [by apply Hacc|auto].
Qed.

(** *** The two directions *)

(** A packet changes the flows of a session, and records its original addresses. *)
Definition evolved (s s' : session) : Prop := exists o4 o6 i m, s' = set_flows (set_originals s o4 o6) i m.

Lemma evolved_reflowed s s' : reflowed s s' -> evolved s s'.
Proof. intros (i & m & ->). exists (originalIPv4Address s), (originalIPv6Address s), i, m. by destruct s. Qed.

Lemma evolved_refl s : evolved s s.
Proof. apply evolved_reflowed, reflowed_refl. Qed.

Lemma evolved_recorded s h ip s' : reflowed (recorded s h ip) s' -> evolved s s'.
Proof. destruct (recorded_spec s h ip) as [->|(o4 & o6 & ->)]; [apply evolved_reflowed|]. intros (i & m & ->). by exists o4, o6, i, m. Qed.

Definition source_of (h : parsed) (p : bytes) : bytes := slice (source h) (ip_length h) p.
Definition destination_of (h : parsed) (p : bytes) : bytes := slice (destination h) (ip_length h) p.

(** An upstream packet that is relayed: from the assigned address, to its destination or, for
    transparent DNS, to a resolver. *)
Record upstream_done (s : session) (p : bytes) (s' : session) (p' : bytes) (h : parsed) (rd : bytes) : Prop := {
  up_parsed : parse_packet p = Ok (inr h);
  up_layout : layout h p;
  up_rd : if dns_upstream h (destination_of h p) then rd ∈ resolvers s h /\ length rd = ip_length h else rd = [];
  up_accepted : accepted packetDirectionServerUpstream s h
    (flow_of packetDirectionServerUpstream h (source_of h p) (destination_of h p) (assigned s h) rd)
    (destination_of h p) (dns_upstream h (destination_of h p));
  up_rewrite : rewrite_ok h (assigned s h) rd p p';
  up_session : reflowed (recorded s h (source_of h p)) s';
  up_flow : dns_upstream h (destination_of h p) = false -> exists f,
    flows s' !! flow_of packetDirectionServerUpstream h (source_of h p) (destination_of h p) (assigned s h) rd = Some f /\
    lastUpstreamPacketTime f = now_update t
}.

Lemma length_source_of h p : layout h p -> length (source_of h p) = ip_length h.
Proof. intros [? ? Hd [k Hk] Hp _ _ _ _]. apply slice_length. unfold base in *. lia. Qed.

Lemma accepted_recorded h ip direction s ID dIP dns :
  accepted direction (recorded s h ip) h ID dIP dns <-> accepted direction s h ID dIP dns.
Proof. destruct (recorded_spec s h ip) as [->|(o4 & o6 & ->)]; done. Qed.

Lemma upstream_run cdns st s :
  the_session st = Some s -> session_ok s -> flows_ok s -> is_Some (checkAllowedDomainFunc s) ->
  run_to (processPacket ParseDNSQuestion IsBogon rand_Intn visit t cdns packetDirectionServerUpstream) st (fun b st' =>
    exists s', the_session st' = Some s' /\ session_ok s' /\ (flows_ok s' /\ evolved s s') /\
      if b then exists h rd, upstream_done s (packet st) s' (packet st') h rd else packet st' = packet st).
Proof.
  intros Es Hs Hf Hdom. unfold processPacket. eapply run_step; [reflexivity|].
  destruct (parse_packet_ok (packet st)) as [[reason E]|(h & E & Hl)]; (eapply run_step; [by apply lift_run|]); cbn beta iota.
  { apply run_reject. exists s. auto using evolved_refl. }
  eapply run_bind; [by apply (dns_upstream_run cdns st s)|]. intros r st1 [-> Hr].
  destruct r as [reason|dns]; [apply run_reject; exists s; auto using evolved_refl|]. destruct (Hr dns eq_refl) as [-> Hres].
  set (sIP := slice (source h) (ip_length h) (packet st)). set (dIP := slice (destination h) (ip_length h) (packet st)) in *.
  eapply run_bind; [by apply (rewrites_upstream cdns st s)|]. intros r st1 (Hp1 & Es1 & rd & -> & Hrd).
  destruct (recorded_same s h sIP) as (_ & _ & _ & _ & _ & Hen).
  eapply run_mono; [|apply (apply_rules_run packetDirectionServerUpstream (recorded s h sIP)); [done|done|by apply recorded_flows_ok]].
  intros b st2 (Hacc & s' & Es' & Hf' & Hr' & Hp2 & Htr). exists s'. rewrite Hp1 in Hp2.
  split; [done|]. split; [|split; [split; [done|by eapply evolved_recorded]|]].
  { eapply reflowed_ok; [done|]. apply (recorded_ok _ _ _ (packet st)); [done|done|by apply length_source_of]. }
  destruct b; [|done]. exists h, rd. rewrite Hp2. specialize (Htr eq_refl). split; try done.
  - apply (accepted_recorded h sIP). by apply Hacc.
  - apply rewrite_packet_ok; [done|right; by eapply assigned_length|]. destruct (dns_upstream h dIP); [right; by destruct Hrd|by left].
  - intros Hd. change (destination_of h (packet st)) with dIP in Hd. rewrite Hd in Htr. destruct (Htr eq_refl) as (f & Hff & Hlast). exists f. auto.
Qed.

(** A downstream packet that is relayed: to the original address of the client, and, from a
    resolver, as from the transparent DNS address. *)
Record downstream_done (s : session) (p : bytes) (s' : session) (p' : bytes) (h : parsed) (ip : bytes) : Prop := {
  dn_parsed : parse_packet p = Ok (inr h);
  dn_layout : layout h p;
  dn_original : original s h = Some ip;
  dn_accepted : accepted packetDirectionServerDownstream s h
    (flow_of packetDirectionServerDownstream h (source_of h p) (destination_of h p) [] [])
    (destination_of h p) (dns_downstream s h (source_of h p));
  dn_rewrite : rewrite_ok h (if dns_downstream s h (source_of h p) then transparentDNSResolver h else []) ip p p';
  dn_session : reflowed s s'
}.

Lemma transparent_length h p : layout h p -> length (transparentDNSResolver h) = ip_length h.
Proof. intros []. unfold transparentDNSResolver. destruct ly_version0 as [(-> & -> & _)|(-> & -> & _)]; done. Qed.

Lemma downstream_run cdns st s :
  the_session st = Some s -> session_ok s -> flows_ok s ->
  run_to (processPacket ParseDNSQuestion IsBogon rand_Intn visit t cdns packetDirectionServerDownstream) st (fun b st' =>
    exists s', the_session st' = Some s' /\ session_ok s' /\ (flows_ok s' /\ evolved s s') /\
      (if b then exists h ip, downstream_done s (packet st) s' (packet st') h ip else packet st' = packet st) /\
      forall h ip, parse_packet (packet st) = Ok (inr h) -> original s h = Some ip ->
        accepted packetDirectionServerDownstream s h (flow_of packetDirectionServerDownstream h (source_of h (packet st)) (destination_of h (packet st)) [] [])
          (destination_of h (packet st)) (dns_downstream s h (source_of h (packet st))) -> b = true).
Proof.
  intros Es Hs Hf. unfold processPacket. eapply run_step; [reflexivity|].
  destruct (parse_packet_ok (packet st)) as [[reason E]|(h & E & Hl)]; (eapply run_step; [by apply lift_run|]); cbn beta iota.
  { apply run_reject. exists s. split_and!; try done; [by apply evolved_refl|]. intros h ip H. by rewrite E in H. }
  eapply run_bind; [by apply (dns_downstream_run cdns st s)|]. intros r st1 [-> ->].
  eapply run_bind; [by apply (rewrites_downstream cdns st s)|]. intros r st1 [-> ->].
  destruct (original s h) as [ip|] eqn:Eo.
  2: { apply run_reject. exists s. split_and!; try done; [by apply evolved_refl|]. intros h' ip H Ho. rewrite E in H. injection H as <-. by rewrite Eo in Ho. }
  eapply run_mono; [|by apply (apply_rules_run packetDirectionServerDownstream s)].
  intros b st2 (Hacc & s' & Es' & Hf' & Hr' & Hp2 & _). exists s'. split_and!; [done|by eapply reflowed_ok|done|by apply evolved_reflowed| |].
  - destruct b; [|done]. exists h, ip. rewrite Hp2. split; try done; [by apply Hacc|].
    apply rewrite_packet_ok; [done| |right; by eapply original_length].
    destruct (dns_downstream _ _ _); [right; by eapply transparent_length|by left].
  - intros h' ip' H _ Ha. rewrite E in H. injection H as <-. by apply Hacc.
Qed.

End Server.

End Flows.

(** ** Packets at the client *)

Definition cdns_ok (d : clientTransparentDNS) : Prop := nil_or 4 (IPv4Address d) /\ nil_or 16 (IPv6Address d).

Definition client_address (d : clientTransparentDNS) (h : parsed) : bytes := if version h =? 4 then IPv4Address d else IPv6Address d.

Lemma client_address_length d h p : cdns_ok d -> layout h p -> client_address d h = [] \/ length (client_address d h) = ip_length h.
Proof. intros [? ?] []. unfold client_address. destruct ly_version0 as [(-> & -> & _)|(-> & -> & _)]; done. Qed.

(** The new source and destination of a packet that the client relays. *)
Definition client_rewrites (d : clientTransparentDNS) (direction : packetDirection) (h : parsed) (p : bytes) : bytes * bytes * bool :=
  if bool_decide (direction = packetDirectionClientUpstream) then
    let dns := (destinationPort h =? portNumberDNS) && Subnet.IP_Equal (destination_of h p) (client_address d h) in
    ([], if dns then transparentDNSResolver h else [], dns)
  else
    let dns := (sourcePort h =? portNumberDNS) && Subnet.IP_Equal (source_of h p) (transparentDNSResolver h) in
    (if dns then client_address d h else [], [], dns).

(** The client relays packets of transparent DNS, and packets with a port and a global unicast
    destination. *)
Definition client_accepts (d : clientTransparentDNS) (direction : packetDirection) (h : parsed) (p : bytes) : Prop :=
  (client_rewrites d direction h p).2 = true \/
  (if is_upstream direction then destinationPort h else sourcePort h) <> 0 /\ IsGlobalUnicast (destination_of h p) = true.

Definition client_outcome (d : clientTransparentDNS) (direction : packetDirection) (st : packet_state) (b : bool) (st' : packet_state) : Prop :=
  the_session st' = the_session st /\
  (if b then exists h, parse_packet (packet st) = Ok (inr h) /\ client_accepts d direction h (packet st) /\
    rewrite_ok h (client_rewrites d direction h (packet st)).1.1 (client_rewrites d direction h (packet st)).1.2 (packet st) (packet st')
   else packet st' = packet st) /\
  (forall h, parse_packet (packet st) = Ok (inr h) -> client_accepts d direction h (packet st) -> b = true).

Lemma client_reject_run d direction st reason :
  (forall h, parse_packet (packet st) = Ok (inr h) -> ~ client_accepts d direction h (packet st)) ->
  run_to (reject direction reason) st (client_outcome d direction st).
Proof. intros H. apply run_reject. split_and!; [done|done|]. intros h E Ha. by destruct (H h E). Qed.

Lemma client_rules_run IsBogon visit t d direction st h rs rd dns sIP :
  is_server direction = false -> parse_packet (packet st) = Ok (inr h) -> layout h (packet st) ->
  client_rewrites d direction h (packet st) = (rs, rd, dns) -> rs = [] \/ length rs = ip_length h -> rd = [] \/ length rd = ip_length h ->
  run_to (apply_rules IsBogon visit t direction h sIP (destination_of h (packet st)) dns rs rd) st (client_outcome d direction st).
Proof.
  intros Hdir E Hl Er Hrs Hrd. unfold apply_rules. rewrite Hdir.
  eapply run_step; [reflexivity|]. eapply run_step; [reflexivity|]. cbn [negb]. rewrite andb_true_r.
  assert (forall ID, client_accepts d direction h (packet st) -> run_to (relay visit t direction h ID false false dns rs rd) st (client_outcome d direction st)) as Hrelay.
  { intros ID Hok. unfold relay. do 5 (eapply run_step; [reflexivity|]; cbn zeta). apply run_ret. split_and!; [done| |done]. exists h. rewrite Er.
    split_and!; [done|done|]. by apply rewrite_packet_ok. }
  assert (forall reason, ~ client_accepts d direction h (packet st) -> run_to (reject direction reason) st (client_outcome d direction st)) as Hrej.
  { intros reason Hn. apply client_reject_run. intros h' E'. rewrite E in E'. by injection E' as <-. }
  assert (client_accepts d direction h (packet st) <-> dns = true \/ (if is_upstream direction then destinationPort h else sourcePort h) <> 0 /\
    IsGlobalUnicast (destination_of h (packet st)) = true) as Hacc by (unfold client_accepts; by rewrite Er).
  destruct dns; cbn [negb]; [apply Hrelay, Hacc; by left|]. unfold check_port.
  destruct (Z.eqb_spec (if is_upstream direction then destinationPort h else sourcePort h) 0) as [|Hp]; rewrite ?Hdir.
  { eapply run_step; [reflexivity|]. apply Hrej. rewrite Hacc. naive_solver. }
  eapply run_step; [reflexivity|]. cbn [negb]. unfold check_destination. destruct (IsGlobalUnicast (destination_of h (packet st))) eqn:Eg; cbn [negb].
  - rewrite bool_decide_eq_false_2 by (by intros ->). eapply run_step; [reflexivity|]. cbn [negb]. apply Hrelay, Hacc. auto.
  - eapply run_step; [reflexivity|]. apply Hrej. rewrite Hacc. naive_solver.
Qed.

Lemma client_run ParseDNSQuestion IsBogon rand_Intn visit t d direction st :
  cdns_ok d -> is_server direction = false ->
  run_to (processPacket ParseDNSQuestion IsBogon rand_Intn visit t (Some d) direction) st (client_outcome d direction st).
Proof.
  intros Hd Hdir. unfold processPacket. eapply run_step; [reflexivity|].
  destruct (parse_packet_ok (packet st)) as [[reason E]|(h & E & Hl)]; (eapply run_step; [by apply lift_run|]); cbn beta iota; [apply client_reject_run; intros h E'; by rewrite E in E'|].
  pose proof (client_address_length d h _ Hd Hl) as Hca. pose proof (transparent_length h _ Hl) as Htl.
  fold (source_of h (packet st)) (destination_of h (packet st)).
  destruct (client_rewrites d direction h (packet st)) as [[rs rd] dns] eqn:Er.
  assert ((rs = [] \/ length rs = ip_length h) /\ (rd = [] \/ length rd = ip_length h)) as [Hrs Hrd].
  { unfold client_rewrites in Er. case_bool_decide; injection Er as <- <- <-; destruct (_ && _); auto. }
  apply (run_step _ _ _ (inr dns) st); [|cbn beta iota; apply (run_step _ _ _ (inr (rs, rd)) st); [|cbn beta iota; by apply client_rules_run]].
  - destruct direction; try done; unfold client_rewrites in Er; cbn [transparent_dns];
      [rewrite bool_decide_eq_true_2 in Er by done|rewrite bool_decide_eq_false_2 in Er by done]; injection Er as <- <- <-.
    + by destruct (destinationPort h =? portNumberDNS).
    + by destruct (sourcePort h =? portNumberDNS).
  - destruct direction; try done; unfold client_rewrites in Er; cbn [rewrites];
      [rewrite bool_decide_eq_true_2 in Er by done|rewrite bool_decide_eq_false_2 in Er by done]; injection Er as <- <- <-; [done|].
    by destruct (_ && _).
Qed.

(** ** Properties *)

Lemma parse_layout p h : parse_packet p = Ok (inr h) -> layout h p.
Proof. intros E. destruct (parse_packet_ok p) as [[r E']|(h' & E' & Hl)]; rewrite E in E'; [done|]. by injection E' as <-. Qed.

(** C25: rewriting the addresses of a packet keeps its checksums valid.  For every packet
    that parses and every new addresses of the right length, only the addresses and the
    checksums change, the addresses become the new ones, and the ones' complement sum of the
    IPv4 header, and that of the segment with its pseudo header, stay the same modulo 65535;
    the 32-bit accumulator does not overflow, and a negative one is folded correctly. *)
Theorem rewrite_packet_checksums p h rs rd :
  parse_packet p = Ok (inr h) -> nil_or (ip_length h) rs -> nil_or (ip_length h) rd ->
  rewrite_ok h rs rd p (rewrite_packet h rs rd p).
Proof. intros E%parse_layout Hrs Hrd. by apply rewrite_packet_ok. Qed.

Lemma accepted_permitted old direction s h ID dIP dns IsBogon t :
  flows_ok old s -> accepted IsBogon t direction s h ID dIP dns ->
  dns = true \/ (exists f, flows s !! ID = Some f /\ isDNS f = true) \/ permitted s ID \/ old ID.
Proof. intros H [?|[(f & Hf & _)|(? & _)]]; auto. destruct (H ID f Hf); eauto. Qed.

Lemma flows_ok_any s : flows_ok (fun ID => is_Some (flows s !! ID)) s.
Proof. intros ID f E. right. right. by exists f. Qed.

Section Properties.
Context (ParseDNSQuestion : bytes -> res string) (IsBogon : bytes -> bool) (rand_Intn : nat -> nat) (visit : flow_visit).

(** The libraries: DNS messages are parsed or refused, and a random index is in range. *)
Definition libraries_ok : Prop :=
  (forall b, (exists d, ParseDNSQuestion b = Ok d) \/ (exists e, ParseDNSQuestion b = Err e)) /\
  (forall n, (0 < n)%nat -> (rand_Intn n < n)%nat).

Abbreviation process := (processPacket ParseDNSQuestion IsBogon rand_Intn visit).

(** The server relays only what the traffic rules permit.  For every packet in either
    direction, of a session whose tracked flows are permitted, of transparent DNS, or from
    before the session was resumed under the present rules ([old]), processing never panics
    and keeps that invariant of the session; a rejected packet is unchanged; and a relayed
    one is rewritten from or to the addresses of the session, with its checksums kept, and
    belongs to transparent DNS, to a tracked flow of it, to a flow whose remote address and
    port the rules permit, or to an earlier flow.  A flow that is not tracked yet goes to no
    bogon, unless allowed, and to no other client. *)
Theorem server_relays_permitted old t direction st s :
  libraries_ok -> is_server direction = true -> the_session st = Some s -> session_ok s -> flows_ok old s ->
  is_Some (checkAllowedDomainFunc s) ->
  exists b st' s', process t None direction st = Ok (b, st') /\ the_session st' = Some s' /\ session_ok s' /\ flows_ok old s' /\
    (b = false -> packet st' = packet st) /\
    (b = true -> exists h ID dns,
      (dns = true \/ (exists f, flows s !! ID = Some f /\ isDNS f = true) \/ permitted s ID \/ old ID) /\
      (if bool_decide (direction = packetDirectionServerUpstream) then exists rd,
         upstream_done IsBogon t s (packet st) s' (packet st') h rd /\ dns = dns_upstream h (destination_of h (packet st)) /\
         ID = flow_of direction h (source_of h (packet st)) (destination_of h (packet st)) (assigned s h) rd /\
         (flows s !! ID = None -> dns = false -> IsGlobalUnicast (destination_of h (packet st)) = true /\
           address_allowed IsBogon s h (destination_of h (packet st)))
       else exists ip,
         downstream_done IsBogon t s (packet st) s' (packet st') h ip /\ dns = dns_downstream s h (source_of h (packet st)) /\
         ID = flow_of direction h (source_of h (packet st)) (destination_of h (packet st)) [] [])).
Proof.
  intros [HD HR] Hdir Es Hs Hf Hdom. destruct direction; try done.
  - destruct (upstream_run old ParseDNSQuestion IsBogon rand_Intn visit t HD HR None st s Es Hs Hf Hdom) as (b & st' & E & s' & Es' & Hs' & [Hf' _] & H).
    exists b, st', s'. split_and!; try done; [by intros ->|]. intros ->. destruct H as (h & rd & Hd). pose proof Hd as [_ _ _ Ha _ _ _].
    eexists h, _, _. split; [by apply (accepted_permitted _ _ _ _ _ _ _ _ _ Hf Ha)|]. rewrite bool_decide_eq_true_2 by done. exists rd.
    split_and!; try done. intros Hnone Hdns. destruct Ha as [Ht|[(f & Hff & _)|(_ & Hg & Hda)]]; [by rewrite Hdns in Ht|by rewrite Hnone in Hff|auto].
  - destruct (downstream_run old ParseDNSQuestion IsBogon rand_Intn visit t None st s Es Hs Hf) as (b & st' & E & s' & Es' & Hs' & [Hf' _] & H & _).
    exists b, st', s'. split_and!; try done; [by intros ->|]. intros ->. destruct H as (h & ip & Hd). pose proof Hd as [_ _ _ Ha _ _].
    eexists h, _, _. split; [by apply (accepted_permitted _ _ _ _ _ _ _ _ _ Hf Ha)|]. rewrite bool_decide_eq_false_2 by done. by exists ip.
Qed.

(** The packet [q] answers the packet that [p] was rewritten to. *)
Record answers (h : parsed) (p' : bytes) (g : parsed) (q : bytes) : Prop := {
  an_version : version g = version h;
  an_protocol : protocol g = protocol h;
  an_source : source_of g q = destination_of h p';
  an_destination : destination_of g q = source_of h p';
  an_sourcePort : sourcePort g = destinationPort h;
  an_destinationPort : destinationPort g = sourcePort h
}.

Lemma layout_same_length h p g q : layout h p -> layout g q -> version g = version h -> ip_length g = ip_length h.
Proof. intros [] [] Hv. destruct ly_version0 as [(? & ? & _)|(? & ? & _)], ly_version1 as [(? & ? & _)|(? & ? & _)]; lia. Qed.

Lemma version_same s h g : version g = version h -> original s g = original s h /\ resolvers s g = resolvers s h /\ transparentDNSResolver g = transparentDNSResolver h.
Proof. intros E. unfold original, resolvers, transparentDNSResolver. by rewrite E. Qed.

Lemma IP_Equal_refl ip : Subnet.IP_Equal ip ip = true.
Proof. unfold Subnet.IP_Equal. rewrite decide_True by done. by apply bool_decide_eq_true_2. Qed.

Lemma IP_Equal_same_length ip x : length ip = length x -> Subnet.IP_Equal ip x = true -> ip = x.
Proof. intros E. unfold Subnet.IP_Equal. rewrite decide_True by done. by intros ?%bool_decide_eq_true. Qed.

Lemma length_destination_of h p : layout h p -> length (destination_of h p) = ip_length h.
Proof. intros [? ? Hd [k Hk] Hp _ _ _ _]. apply slice_length. unfold base in *. lia. Qed.

(** What the session has recorded for an answer to a relayed packet. *)
Lemma answer_session t1 s p s' p' h rd g q :
  session_ok s -> upstream_done IsBogon t1 s p s' p' h rd -> layout g q -> answers h p' g q ->
  (dns_upstream h (destination_of h p) = false -> dns_downstream s g (source_of g q) = false) ->
  original s' g = Some (default (source_of h p) (original s h)) /\
  dns_downstream s' g (source_of g q) = dns_upstream h (destination_of h p).
Proof.
  intros Hs [Hpar Hl Hrd Hacc Hrw Hses Hflow] Hlg [Hv Hp Hsrc Hdst Hsp Hdp] Hlim.
  destruct (version_same s' h g Hv) as (Ho & Hres & _). destruct (version_same s h g Hv) as (_ & Hres0 & _).
  assert (original s' h = Some (default (source_of h p) (original s h)) /\ resolvers s' h = resolvers s h) as [Ho' Hres'].
  { destruct Hses as (i & mm & ->). destruct (recorded_same s h (source_of h p)) as (_ & Hr & _).
    split; [exact (recorded_original s h _)|exact Hr]. }
  split; [by rewrite Ho|]. destruct (dns_upstream h (destination_of h p)) eqn:Ed.
  - unfold dns_downstream. rewrite Hsp, Hres, Hres'. unfold dns_upstream in Ed. apply andb_prop in Ed as [-> _]. cbn [andb]. apply existsb_exists.
    destruct Hrd as [Hin Hlr]. exists rd. rewrite Hsrc. destruct Hrw as [_ _ Hd _ _ _]. unfold destination_of. rewrite Hd. unfold rewritten.
    rewrite bool_decide_eq_false_2; [split; [by apply list_elem_of_In|apply IP_Equal_refl]|].
    intros ->. destruct (ly_length _ _ Hl) as (k & Hk & ?). cbn in Hlr. lia.
  - rewrite <- (Hlim eq_refl). unfold dns_downstream. by rewrite Hres, Hres', Hres0.
Qed.

Lemma answer_accepted t1 t2 s p s' p' h rd g q :
  session_ok s -> upstream_done IsBogon t1 s p s' p' h rd -> layout g q -> answers h p' g q ->
  now_track t2 - now_update t1 <= FLOW_IDLE_EXPIRY ->
  accepted IsBogon t2 packetDirectionServerDownstream s' g (flow_of packetDirectionServerDownstream g (source_of g q) (destination_of g q) [] [])
    (destination_of g q) (dns_upstream h (destination_of h p)).
Proof.
  intros Hs [Hpar Hl Hrd Hacc Hrw Hses Hflow] Hlg [Hv Hp Hsrc Hdst Hsp Hdp] Htime.
  destruct (dns_upstream h (destination_of h p)) eqn:Ed; [by left|right; left].
  destruct (Hflow eq_refl) as (f & Hff & Hlast). exists f. split; [|unfold flow_expired; rewrite Hlast; apply andb_false_iff; left; apply Z.ltb_ge; lia].
  subst rd. rewrite <- Hff. f_equal. unfold flow_of. rewrite bool_decide_eq_false_2, bool_decide_eq_true_2 by done.
  destruct Hrw as [_ Hrs Hrd _ _ _]. fold (source_of h p') in Hrs. fold (destination_of h p') in Hrd.
  rewrite Hsrc, Hdst, Hrs, Hrd, Hsp, Hdp, Hp, rewritten_nil. unfold rewritten. rewrite bool_decide_eq_false_2; [done|].
  intros E. pose proof (assigned_length s h _ Hs Hl) as Has. rewrite E in Has. destruct (ly_length _ _ Hl) as (k & Hk & ?). cbn in Has. lia.
Qed.

(** The answer to a relayed packet, at the session as the packet left it. *)
Lemma answer_relayed t1 t2 s p s' p' h rd g st :
  session_ok s -> session_ok s' -> upstream_done IsBogon t1 s p s' p' h rd -> the_session st = Some s' ->
  parse_packet (packet st) = Ok (inr g) -> answers h p' g (packet st) -> now_track t2 - now_update t1 <= FLOW_IDLE_EXPIRY ->
  (dns_upstream h (destination_of h p) = false -> dns_downstream s g (source_of g (packet st)) = false) ->
  exists st3, process t2 None packetDirectionServerDownstream st = Ok (true, st3) /\
    destination_of g (packet st3) = default (source_of h p) (original s h) /\ source_of g (packet st3) = destination_of h p.
Proof.
  intros Hs Hs' Hd Es' Eg Han Htime Hlim. pose proof (parse_layout _ g Eg) as Hlg.
  destruct (answer_session t1 s _ s' _ h rd g _ Hs Hd Hlg Han Hlim) as [Ho Hdd].
  pose proof (answer_accepted t1 t2 s _ s' _ h rd g _ Hs Hd Hlg Han Htime) as Hacc.
  destruct (downstream_run _ ParseDNSQuestion IsBogon rand_Intn visit t2 None st s' Es' Hs' (flows_ok_any s')) as (b & st3 & E3 & s3 & _ & _ & _ & Hdone & Hcomplete).
  assert (b = true) as -> by (apply (Hcomplete g _ Eg Ho); by rewrite Hdd).
  destruct Hdone as (g' & ip & [Eg' _ Ho' _ [_ Hrs Hrd _ _ _] _]). exists st3. split; [exact E3|].
  rewrite Eg in Eg'. injection Eg' as <-. rewrite Ho in Ho'. injection Ho' as Hip.
  destruct Hd as [_ Hl Hrdu _ [_ _ Hpd _ _ _] _ _]. destruct Han as [Hv _ Hsrc _ _ _].
  pose proof (layout_same_length _ _ _ _ Hl Hlg Hv) as Hlen. unfold destination_of at 1, source_of at 2. rewrite Hrs, Hrd, Hdd, Hip. split.
  - unfold rewritten. rewrite bool_decide_eq_false_2; [done|]. intros ->. pose proof (original_length s' g _ _ Hs' Hlg Ho) as Hol.
    rewrite Hip in Hol. destruct (ly_length _ _ Hlg) as (k & Hk & ?). cbn in Hol. lia.
  - pose proof (transparent_length g _ Hlg) as Htl. destruct (version_same s h g Hv) as (_ & _ & Htr).
    destruct (dns_upstream h (destination_of h p)) eqn:Ed.
    + unfold rewritten. rewrite bool_decide_eq_false_2; [|intros E0; rewrite E0 in Htl; destruct (ly_length _ _ Hlg) as (k & Hk & ?); cbn in Htl; lia].
      unfold dns_upstream in Ed. apply andb_prop in Ed as [_ Ed]. rewrite Htr. symmetry.
      apply IP_Equal_same_length; [|done]. rewrite length_destination_of by done. rewrite <- Htr. lia.
    + subst rd. rewrite rewritten_nil. fold (source_of g (packet st)). rewrite Hsrc. exact Hpd.
Qed.

(** Answers find their way back.  After the server has relayed a packet of a client, an
    answer to it within the expiry of flows, addressed to the address assigned to the client,
    is relayed whatever the traffic rules; the client gets it at the address its packets come
    from, as from the address that it sent its packet to, which for DNS is the transparent
    resolver and not the one that answered.  As the code documents, a direct flow to port 53
    of one of the server's own resolvers is not covered. *)
Theorem nat_roundtrip t1 t2 st1 s st2 q m h g :
  libraries_ok -> the_session st1 = Some s -> session_ok s -> is_Some (checkAllowedDomainFunc s) ->
  process t1 None packetDirectionServerUpstream st1 = Ok (true, st2) ->
  parse_packet (packet st1) = Ok (inr h) -> parse_packet q = Ok (inr g) -> answers h (packet st2) g q ->
  now_track t2 - now_update t1 <= FLOW_IDLE_EXPIRY ->
  (dns_upstream h (destination_of h (packet st1)) = false -> dns_downstream s g (source_of g q) = false) ->
  exists st3, process t2 None packetDirectionServerDownstream {| metrics := m; the_session := the_session st2; packet := q; events := [] |} = Ok (true, st3) /\
    destination_of g (packet st3) = default (source_of h (packet st1)) (original s h) /\
    source_of g (packet st3) = destination_of h (packet st1).
Proof.
  intros [HD HR] Es Hs Hdom Hup Eh Eg Han Htime Hlim.
  destruct (upstream_run _ ParseDNSQuestion IsBogon rand_Intn visit t1 HD HR None st1 s Es Hs (flows_ok_any s) Hdom) as (b & st' & E & s' & Es' & Hs' & _ & Hd).
  rewrite Hup in E. injection E as <- <-. destruct Hd as (h' & rd & Hd). pose proof (up_parsed _ _ _ _ _ _ _ _ Hd) as Eh'.
  rewrite Eh in Eh'. injection Eh' as <-. by apply (answer_relayed t1 t2 s (packet st1) s' (packet st2) h rd g).
Qed.

End Properties.

(** ** Examples *)

Definition example_tun_session : session := {|
  lastFlowReapIndex := 0; checkAllowedTCPPortFunc := None; checkAllowedUDPPortFunc := Some (fun _ port => port =? 443);
  checkAllowedDomainFunc := Some (fun _ => true); flowActivityUpdaterMaker := None; dnsQualityReporter := false;
  allowBogons := false; enableDNSFlowTracking := false;
  DNSResolverIPv4Addresses := [[x09; x09; x09; x09]]; TCPDNSResolverIPv4Index := 0;
  assignedIPv4Address := [x0a; x01; x02; x03]; originalIPv4Address := None;
  DNSResolverIPv6Addresses := []; TCPDNSResolverIPv6Index := 0;
  assignedIPv6Address := replicate 15 x00 ++ [x07]; originalIPv6Address := None; flows := ∅ |}.

Lemma example_tun_session_ok : session_ok example_tun_session /\ flows_ok (fun _ => False) example_tun_session.
Proof.
  split.
  - split; try done; try (by repeat constructor).
  - intros ID f H. cbn in H. by rewrite lookup_empty in H.
Qed.

(** UDP from 192.168.0.5:1234 to 8.8.8.8:443, and the answer to the assigned address. *)
Definition example_packet : bytes :=
  [x45; x00; x00; x1c; x00; x00; x00; x00; x40; x11; x11; x22; xc0; xa8; x00; x05; x08; x08; x08; x08;
   x04; xd2; x01; xbb; x00; x08; x33; x44].

Definition example_answer : bytes :=
  [x45; x00; x00; x1c; x00; x00; x00; x00; x40; x11; x55; x66; x08; x08; x08; x08; x0a; x01; x02; x03;
   x01; xbb; x04; xd2; x00; x08; x77; x88].

Definition example_tun_clock : clock := {| now_track := 5; now_start := 5; now_reap := 5; now_update := 5 |}.

Definition example_state (s : option session) (p : bytes) : packet_state :=
  {| metrics := newPacketMetrics; the_session := s; packet := p; events := [] |}.

Definition no_dns (b : bytes) : res string := Ok "".
Definition first_index (n : nat) : nat := 0.
Definition in_order : flow_visit := fun l => l.

Lemma example_libraries : libraries_ok no_dns first_index.
Proof. split; [intros b; left; by exists ""|intros n Hn; exact Hn]. Qed.

Lemma rewrite_packet_checksums_witness :
  exists h, parse_packet example_packet = Ok (inr h) /\ header_sum h example_packet mod 65535 =
    header_sum h (rewrite_packet h [x0a; x01; x02; x03] [] example_packet) mod 65535.
Proof.
  destruct (parse_packet example_packet) as [[r|h]|e|e|] eqn:E; try (vm_compute in E; discriminate E). exists h. split; [reflexivity|].
  assert (ip_length h = 4%nat /\ version h = 4) as [Hl Hv] by (vm_compute in E; injection E as <-; split; reflexivity).
  destruct (rewrite_packet_checksums example_packet h [x0a; x01; x02; x03] [] E) as [_ _ _ H _ _];
    [right; rewrite Hl; reflexivity|left; reflexivity|].
  destruct (H Hv) as [q Hq]. rewrite Hq. rewrite (Z.mul_comm 65535), Z.mod_add; [reflexivity|discriminate].
Defined.

Definition example_sent : res (bool * packet_state) :=
  processPacket no_dns (fun _ => false) first_index in_order example_tun_clock None packetDirectionServerUpstream
    (example_state (Some example_tun_session) example_packet).

(** The packet that is sent, if it is. *)
Definition sent_packet (r : res (bool * packet_state)) : option bytes :=
  match r with Ok (true, st) => Some (packet st) | _ => None end.

Definition example_sent_packet : bytes :=
  [x45; x00; x00; x1c; x00; x00; x00; x00; x40; x11; xc5; xcb; x0a; x01; x02; x03; x08; x08; x08; x08;
   x04; xd2; x01; xbb; x00; x08; xe7; xed].

Lemma example_sent_run : exists st, example_sent = Ok (true, st) /\ packet st = example_sent_packet.
Proof.
  assert (sent_packet example_sent = Some example_sent_packet) as H by (vm_compute; reflexivity).
  destruct example_sent as [[[] st]|e|e|]; try discriminate H. exists st. injection H as <-. done.
Qed.

Lemma server_relays_permitted_witness :
  exists st' s', example_sent = Ok (true, st') /\ the_session st' = Some s' /\ session_ok s'.
Proof.
  destruct (server_relays_permitted no_dns (fun _ => false) first_index in_order (fun _ => False) example_tun_clock packetDirectionServerUpstream
    (example_state (Some example_tun_session) example_packet) example_tun_session example_libraries eq_refl eq_refl
    (proj1 example_tun_session_ok) (proj2 example_tun_session_ok) (ex_intro _ _ eq_refl)) as (b & st' & s' & E & Es & Hs & _).
  destruct example_sent_run as (st & E' & _). unfold example_sent in E'. rewrite E in E'. injection E' as -> ->.
  exists st, s'. split; [exact E|]. split; [exact Es|exact Hs].
Defined.

Definition example_header : parsed := {|
  version := 4; protocol := 17; source := 12; destination := 16; ip_length := 4; sourcePort := 1234; destinationPort := 443;
  IPChecksum := Some 10%nat; protocolChecksum := 26; dataOffset := 28 |}.

Definition example_answer_header : parsed := {|
  version := 4; protocol := 17; source := 12; destination := 16; ip_length := 4; sourcePort := 443; destinationPort := 1234;
  IPChecksum := Some 10%nat; protocolChecksum := 26; dataOffset := 28 |}.

Lemma example_answers : answers example_header example_sent_packet example_answer_header example_answer.
Proof. split; vm_compute; reflexivity. Qed.

Lemma example_parsed : parse_packet example_packet = Ok (inr example_header) /\ parse_packet example_answer = Ok (inr example_answer_header).
Proof. split; vm_compute; reflexivity. Qed.

Lemma example_in_time : now_track example_tun_clock - now_update example_tun_clock <= FLOW_IDLE_EXPIRY.
Proof. vm_compute. discriminate. Qed.

Lemma nat_roundtrip_witness :
  exists st2 st3, example_sent = Ok (true, st2) /\
    processPacket no_dns (fun _ => false) first_index in_order example_tun_clock None packetDirectionServerDownstream
      (example_state (the_session st2) example_answer) = Ok (true, st3) /\
    destination_of example_answer_header (packet st3) = [xc0; xa8; x00; x05].
Proof.
  destruct example_sent_run as (st2 & E & Ep). destruct example_parsed as [Eh Eg]. pose proof example_answers as Han. rewrite <- Ep in Han.
  destruct (nat_roundtrip no_dns (fun _ => false) first_index in_order example_tun_clock example_tun_clock
    (example_state (Some example_tun_session) example_packet) example_tun_session st2 example_answer newPacketMetrics example_header
    example_answer_header example_libraries eq_refl (proj1 example_tun_session_ok) (ex_intro _ _ eq_refl)
    E Eh Eg Han example_in_time (fun _ => eq_refl)) as (st3 & H3 & Hd & _).
  exists st2, st3. split; [exact E|]. split; [exact H3|]. rewrite Hd. reflexivity.
Defined.

(** In IPv4 a UDP checksum of zero says that there is none.  It is adjusted as any other, and is
    then an invalid checksum: the words of the address changed by five. *)
Lemma zero_udp_checksum : checksumAdjust [x00; x00] 5 = [x00; x05].
Proof. reflexivity. Qed.

(** The reasons 6 and 7 have the same description, so that a checkpoint logs the rejections
    for the length of a UDP packet in place of those for the length of a TCP packet. *)
Lemma tcp_length_not_logged :
  rejected_fields (rejectedPacket newPacketMetrics packetDirectionServerUpstream packetRejectTCPProtocolLength)
    !! "upstream_packet_rejected_invalid_tcp_packet_length" = Some 0.
Proof. vm_compute. reflexivity. Qed.
