(* ===== verification/TunQueue.v ===== *)
(** * Packet tunnel: queues and channels

    Models [PacketQueue] and [Channel] of src/psiphon/common/tun/tun.go: packets are framed
    into one of two buffers, which one goroutine fills while another writes the other to the
    transport, and read back by the peer.

    An operation of a Go channel is a step, which gives nothing when it would block; the
    two goroutines of a queue interleave at these steps.  The capacity of a buffer is not
    modelled.  The transport is a sequence of bytes for each channel; the client's changes
    channels as [PacketTunnelTransport] of src/psiphon/packetTunnelTransport.go does. *)

From Stdlib Require Import ZArith Lia Strings.Byte.
From stdpp Require Import base list strings numbers relations.
From S2P Require Import Prelude.
#[local] Open Scope string_scope.
#[local] Open Scope Z_scope.
#[local] Open Scope list_scope.

(** ** Framing *)

Definition channelHeaderSize : nat := 2.

(** [binary.BigEndian.PutUint16(_, uint16(n))] *)
Definition PutUint16 (n : Z) : bytes := [z2b (Z.shiftr n 8); z2b n].

Definition frame (packet : bytes) : bytes := PutUint16 (Z.of_nat (length packet)) ++ packet.

(** [io.ReadFull]: the bytes read and what is left, or an error at the end of the stream. *)
Definition ReadFull (n : nat) (stream : bytes) : res (bytes * bytes) :=
  if (n <=? length stream)%nat then Ok (take n stream, drop n stream)
  else if (length stream =? 0)%nat then Err "EOF" else Err "unexpected EOF".

(** [Channel.ReadPacket] on a channel with the given MTU. *)
Definition ReadPacket (MTU : nat) (stream : bytes) : res (bytes * bytes) :=
  '(header, stream) ← ReadFull channelHeaderSize stream;
  let size := Z.to_nat (le_load (rev header)) in
  if (MTU <? size)%nat then Err "packet size exceeds MTU" else ReadFull size stream.

(** [Channel.WritePacket]: the bytes written to the transport.  A packet longer than the MTU
    exceeds the buffer. *)
Definition WritePacket (MTU : nat) (packet : bytes) : res bytes :=
  let outboundBuffer := replicate (channelHeaderSize + MTU) x00 in
  let outboundBuffer := copy_at 0 (PutUint16 (Z.of_nat (length packet))) outboundBuffer in
  let outboundBuffer := copy_at channelHeaderSize (take MTU packet) outboundBuffer in
  if (length packet <=? MTU)%nat then Ok (take (channelHeaderSize + length packet) outboundBuffer)
  else Panic "slice bounds out of range".

(** The packets that the peer reads one after the other, until the first error.  Every packet
    takes at least its header, so that there are fewer than the fuel. *)
Fixpoint read_packets (fuel : nat) (MTU : nat) (stream : bytes) : list bytes :=
  match fuel with
  | O => []
  | S fuel => match ReadPacket MTU stream with Ok (packet, stream) => packet :: read_packets fuel MTU stream | _ => [] end
  end.

Definition ReadPackets (MTU : nat) (stream : bytes) : list bytes := read_packets (S (length stream)) MTU stream.

(** ** The queue *)

Record PacketQueue := {
  maxSize : Z;
  emptyBuffers : list bytes;
  activeBuffer : option bytes
}.

Definition NewPacketQueue (maxSize : Z) : PacketQueue :=
  {| maxSize := maxSize; emptyBuffers := [[]; []]; activeBuffer := None |}.

(** The first part of [Enqueue]: the active buffer, or else an empty one. *)
Definition enqueue_take (q : PacketQueue) : option (bytes * PacketQueue) :=
  match activeBuffer q with
  | Some buffer => Some (buffer, {| maxSize := maxSize q; emptyBuffers := emptyBuffers q; activeBuffer := None |})
  | None =>
      match emptyBuffers q with
      | buffer :: rest => Some (buffer, {| maxSize := maxSize q; emptyBuffers := rest; activeBuffer := None |})
      | [] => None
      end
  end.

Definition fits (q : PacketQueue) (buffer packet : bytes) : bool :=
  Z.of_nat channelHeaderSize + Z.of_nat (length packet) <=? maxSize q - Z.of_nat (length buffer).

Definition fill (q : PacketQueue) (buffer packet : bytes) : bytes :=
  if fits q buffer packet then buffer ++ frame packet else buffer.

(** The last part of [Enqueue]: a channel of capacity one. *)
Definition enqueue_put (q : PacketQueue) (buffer : bytes) : option PacketQueue :=
  match activeBuffer q with
  | None => Some {| maxSize := maxSize q; emptyBuffers := emptyBuffers q; activeBuffer := Some buffer |}
  | Some _ => None
  end.

Definition Enqueue (q : PacketQueue) (packet : bytes) : option PacketQueue :=
  '(buffer, q) ← enqueue_take q; enqueue_put q (fill q buffer packet).

Definition DequeueFramedPackets (q : PacketQueue) : option (bytes * PacketQueue) :=
  buffer ← activeBuffer q; Some (buffer, {| maxSize := maxSize q; emptyBuffers := emptyBuffers q; activeBuffer := None |}).

(** A channel of capacity two. *)
Definition Replace (q : PacketQueue) (buffer : bytes) : option PacketQueue :=
  if (length (emptyBuffers q) <? 2)%nat
  then Some {| maxSize := maxSize q; emptyBuffers := emptyBuffers q ++ [take 0 buffer]; activeBuffer := activeBuffer q |}
  else None.

(** ** The goroutines

    One goroutine enqueues packets; the other takes the active buffer, writes it to the
    transport and gives it back, until its context is done.  A write that fails writes some
    of the buffer.  The server's writer then ends.  The client's goes on: its transport,
    [PacketTunnelTransport], gives up the channel on which a write failed and writes to the
    next one, and may change to the channel of another tunnel at any time. *)

Inductive tunnel_end := server_end | client_end.

Inductive writer :=
| Waiting
| Borrowed (buffer : bytes)
| Written (buffer : bytes)
| Failed (buffer : bytes)
| Stopped.

(** What the goroutine does after a failed write, once the buffer is replaced. *)
Definition after_failure (e : tunnel_end) : writer := match e with server_end => Stopped | client_end => Waiting end.

(** [transport] is what has been written to the current channel, [channels] to those before. *)
Record relaying := {
  queue : PacketQueue;
  enqueuing : option (bytes * bytes);
  writing : writer;
  channels : list bytes;
  transport : bytes;
  failures : nat;
  accepted_packets : list bytes
}.

Inductive relay_step (end_ : tunnel_end) : relaying -> relaying -> Prop :=
| EnqueueTake q w ch t f acc packet buffer q' :
    enqueue_take q = Some (buffer, q') ->
    relay_step end_ {| queue := q; enqueuing := None; writing := w; channels := ch; transport := t; failures := f; accepted_packets := acc |}
      {| queue := q'; enqueuing := Some (buffer, packet); writing := w; channels := ch; transport := t; failures := f; accepted_packets := acc |}
| EnqueuePut q w ch t f acc packet buffer q' :
    enqueue_put q (fill q buffer packet) = Some q' ->
    relay_step end_ {| queue := q; enqueuing := Some (buffer, packet); writing := w; channels := ch; transport := t; failures := f; accepted_packets := acc |}
      {| queue := q'; enqueuing := None; writing := w; channels := ch; transport := t; failures := f;
         accepted_packets := if fits q buffer packet then acc ++ [packet] else acc |}
| Dequeue q e ch t f acc buffer q' :
    DequeueFramedPackets q = Some (buffer, q') ->
    relay_step end_ {| queue := q; enqueuing := e; writing := Waiting; channels := ch; transport := t; failures := f; accepted_packets := acc |}
      {| queue := q'; enqueuing := e; writing := Borrowed buffer; channels := ch; transport := t; failures := f; accepted_packets := acc |}
| DequeueAborted q e ch t f acc :
    relay_step end_ {| queue := q; enqueuing := e; writing := Waiting; channels := ch; transport := t; failures := f; accepted_packets := acc |}
      {| queue := q; enqueuing := e; writing := Stopped; channels := ch; transport := t; failures := f; accepted_packets := acc |}
| WriteFramedPackets q e ch t f acc buffer :
    relay_step end_ {| queue := q; enqueuing := e; writing := Borrowed buffer; channels := ch; transport := t; failures := f; accepted_packets := acc |}
      {| queue := q; enqueuing := e; writing := Written buffer; channels := ch; transport := t ++ buffer; failures := f; accepted_packets := acc |}
| WriteFails q e ch t f acc buffer n :
    relay_step end_ {| queue := q; enqueuing := e; writing := Borrowed buffer; channels := ch; transport := t; failures := f; accepted_packets := acc |}
      {| queue := q; enqueuing := e; writing := Failed buffer; channels := ch ++ [t ++ take n buffer]; transport := []; failures := S f;
         accepted_packets := acc |}
| ReplaceWritten q e ch t f acc buffer q' :
    Replace q buffer = Some q' ->
    relay_step end_ {| queue := q; enqueuing := e; writing := Written buffer; channels := ch; transport := t; failures := f; accepted_packets := acc |}
      {| queue := q'; enqueuing := e; writing := Waiting; channels := ch; transport := t; failures := f; accepted_packets := acc |}
| ReplaceFailed q e ch t f acc buffer q' :
    Replace q buffer = Some q' ->
    relay_step end_ {| queue := q; enqueuing := e; writing := Failed buffer; channels := ch; transport := t; failures := f; accepted_packets := acc |}
      {| queue := q'; enqueuing := e; writing := after_failure end_; channels := ch; transport := t; failures := f; accepted_packets := acc |}
| UseTunnel q e w ch t f acc :
    end_ = client_end ->
    relay_step end_ {| queue := q; enqueuing := e; writing := w; channels := ch; transport := t; failures := f; accepted_packets := acc |}
      {| queue := q; enqueuing := e; writing := w; channels := ch ++ [t]; transport := []; failures := f; accepted_packets := acc |}.

Definition relay_start (maxSize : Z) : relaying :=
  {| queue := NewPacketQueue maxSize; enqueuing := None; writing := Waiting; channels := []; transport := []; failures := 0; accepted_packets := [] |}.

(** ** Frames are read back *)

Definition frames (ps : list bytes) : bytes := concat (map frame ps).

Lemma frames_app ps qs : frames (ps ++ qs) = frames ps ++ frames qs.
Proof. unfold frames. by rewrite map_app, concat_app. Qed.

Lemma length_frame p : length (frame p) = (2 + length p)%nat.
Proof. done. Qed.

(** The packets fit into the MTU, and the MTU into the header. *)
Definition sized (MTU : nat) (p : bytes) : Prop := (length p <= MTU)%nat /\ Z.of_nat MTU < 65536.

Lemma Uint16_PutUint16 n : 0 <= n < 65536 -> le_load (rev (PutUint16 n)) = n.
Proof.
  intros H. unfold PutUint16. cbn [rev app le_load]. rewrite !b2z_z2b, Z.shiftr_div_pow2 by lia. change (2 ^ 8) with 256.
  rewrite (Z.mod_small (n / 256)); [|split; [apply Z.div_pos; lia|apply Z.div_lt_upper_bound; lia]].
  pose proof (Z.div_mod n 256). lia.
Qed.

Lemma ReadFull_app l rest : ReadFull (length l) (l ++ rest) = Ok (l, rest).
Proof.
  unfold ReadFull. rewrite length_app. replace (length l <=? length l + length rest)%nat with true by (symmetry; apply Nat.leb_le; lia).
  by rewrite take_app_length, drop_app_length.
Qed.

Lemma ReadPacket_frame MTU p rest : sized MTU p -> ReadPacket MTU (frame p ++ rest) = Ok (p, rest).
Proof.
  intros [Hp HM]. unfold ReadPacket, frame. rewrite <- app_assoc.
  change channelHeaderSize with (length (PutUint16 (Z.of_nat (length p)))). rewrite ReadFull_app. cbn [mbind res_mbind].
  rewrite Uint16_PutUint16 by lia. rewrite Nat2Z.id. replace (MTU <? length p)%nat with false by (symmetry; apply Nat.ltb_ge; lia).
  apply ReadFull_app.
Qed.

(** A frame that is cut gives no packet. *)
Lemma ReadPacket_cut MTU p n : sized MTU p -> (n < length (frame p))%nat -> exists e, ReadPacket MTU (take n (frame p)) = Err e.
Proof.
  intros [Hp HM] Hn. unfold ReadPacket. rewrite length_frame in Hn. assert (forall k l, (length l < k)%nat -> exists e, ReadFull k l = Err e) as Hshort.
  { intros k l Hl. unfold ReadFull. replace (k <=? length l)%nat with false by (symmetry; apply Nat.leb_gt; lia). destruct (_ =? _)%nat; eauto. }
  destruct (Nat.lt_ge_cases n 2) as [Hlt|Hge].
  - destruct (Hshort channelHeaderSize (take n (frame p))) as [e ->]; [|eauto]. rewrite length_take. unfold channelHeaderSize. lia.
  - unfold frame. rewrite take_app_ge by exact Hge. change channelHeaderSize with (length (PutUint16 (Z.of_nat (length p)))).
    rewrite ReadFull_app. cbn [mbind res_mbind]. rewrite Uint16_PutUint16 by lia. rewrite Nat2Z.id.
    replace (MTU <? length p)%nat with false by (symmetry; apply Nat.ltb_ge; lia). apply Hshort. rewrite length_take. change (length (PutUint16 (Z.of_nat (length p)))) with 2%nat. lia.
Qed.

Lemma read_packets_frames MTU ps rest : forall fuel, Forall (sized MTU) ps -> (length ps <= fuel)%nat ->
  read_packets fuel MTU (frames ps ++ rest) = ps ++ read_packets (fuel - length ps) MTU rest.
Proof.
  induction ps as [|p ps IH]; intros fuel Hf Hl; [by rewrite Nat.sub_0_r|]. apply Forall_cons in Hf as [Hp Hf].
  destruct fuel as [|fuel]; [cbn in Hl; lia|]. change (frames (p :: ps)) with (frame p ++ frames ps). rewrite <- app_assoc. cbn [read_packets].
  rewrite ReadPacket_frame by done. rewrite IH; [done|done|cbn in Hl; lia].
Qed.

Lemma length_frames ps : (length ps <= length (frames ps))%nat.
Proof. induction ps as [|p ps IH]; [done|]. change (frames (p :: ps)) with (frame p ++ frames ps). rewrite length_app, length_frame. cbn [length]. lia. Qed.

Lemma read_packets_cut MTU ps : forall n fuel, Forall (sized MTU) ps -> read_packets fuel MTU (take n (frames ps)) `prefix_of` ps.
Proof.
  induction ps as [|p ps IH]; intros n fuel Hf; destruct fuel as [|fuel]; try apply prefix_nil.
  { change (frames []) with (@nil byte). rewrite take_nil. apply prefix_nil. }
  apply Forall_cons in Hf as [Hp Hf]. change (frames (p :: ps)) with (frame p ++ frames ps). cbn [read_packets].
  destruct (Nat.lt_ge_cases n (length (frame p))) as [Hlt|Hge].
  - rewrite take_app_le by lia. destruct (ReadPacket_cut MTU p n Hp Hlt) as [e ->]. apply prefix_nil.
  - rewrite take_app_ge by lia. rewrite ReadPacket_frame by done. apply prefix_cons, IH, Hf.
Qed.

Lemma ReadPackets_frames MTU ps : Forall (sized MTU) ps -> ReadPackets MTU (frames ps) = ps.
Proof.
  intros H. unfold ReadPackets. rewrite <- (app_nil_r (frames ps)) at 2. pose proof (length_frames ps).
  rewrite read_packets_frames by (done || lia). destruct (_ - _)%nat; cbn; by rewrite app_nil_r.
Qed.

(** What is read of a channel whose last write was cut. *)
Lemma ReadPackets_cut MTU ps last n : Forall (sized MTU) (ps ++ last) ->
  exists l, ReadPackets MTU (frames ps ++ take n (frames last)) = ps ++ l /\ l `prefix_of` last.
Proof.
  intros [Hp Hl]%Forall_app. unfold ReadPackets. rewrite read_packets_frames; [|done|rewrite length_app; pose proof (length_frames ps); lia].
  eexists. split; [done|by apply read_packets_cut].
Qed.

(** ** Both goroutines *)

Definition held (w : writer) : nat := match w with Waiting | Stopped => 0 | _ => 1 end.

(** What is queued: the packets of the buffer being filled. *)
Definition pending (r : relaying) : bytes :=
  match enqueuing r with Some (buffer, _) => buffer | None => default [] (activeBuffer (queue r)) end.

(** What the peer reads from the channels, one after the other. *)
Definition packets_read (MTU : nat) (r : relaying) : list bytes := concat (ReadPackets MTU <$> channels r) ++ ReadPackets MTU (transport r).

(** [got] has been read of [taken], the packets of the buffers that were handed to the
    transport. *)
Record read_of (end_ : tunnel_end) (f : nat) (w : writer) (got taken : list bytes) : Prop := {
  read_sublist : got `sublist_of` taken;
  read_all : f = 0%nat -> got = taken;
  read_prefix : end_ = server_end -> got `prefix_of` taken;
  read_failed : end_ = server_end -> match w with Waiting | Borrowed _ | Written _ => f = 0%nat | _ => True end
}.

Record relay_ok (MTU : nat) (end_ : tunnel_end) (r : relaying) : Prop := {
  ro_buffers : (length (emptyBuffers (queue r)) + length (option_list (activeBuffer (queue r))) +
                length (option_list (enqueuing r)) + held (writing r) = 2)%nat;
  ro_exclusive : is_Some (enqueuing r) -> activeBuffer (queue r) = None;
  ro_empty : Forall (fun b => b = []) (emptyBuffers (queue r));
  ro_size : 0 <= maxSize (queue r) -> Z.of_nat (length (pending r)) <= maxSize (queue r);
  ro_packets : Forall (sized MTU) (accepted_packets r) -> exists taken cur last rest, pending r = frames rest /\ transport r = frames cur /\
    read_of end_ (failures r) (writing r) (concat (ReadPackets MTU <$> channels r) ++ cur) taken /\ accepted_packets r = taken ++ last ++ rest /\
    match writing r with Borrowed buffer => buffer = frames last | _ => last = [] end /\ Forall (sized MTU) cur
}.

Lemma relay_ok_start MTU end_ maxSize : relay_ok MTU end_ (relay_start maxSize).
Proof. split; cbn; [done|done|by repeat constructor|lia|]. intros _. exists [], [], [], []. split_and!; by repeat constructor. Qed.

Lemma fill_spec q buffer packet rest :
  buffer = frames rest -> fill q buffer packet = frames (if fits q buffer packet then rest ++ [packet] else rest).
Proof. intros ->. unfold fill. destruct (fits _ _ _); [|done]. rewrite frames_app. cbn. by rewrite app_nil_r. Qed.

Lemma length_fill q buffer packet :
  Z.of_nat (length buffer) <= maxSize q -> Z.of_nat (length (fill q buffer packet)) <= maxSize q.
Proof.
  intros H. unfold fill. destruct (fits q buffer packet) eqn:E; [|done]. apply Z.leb_le in E.
  rewrite length_app, length_frame. unfold channelHeaderSize in E. lia.
Qed.

Lemma concat_snoc {A B} (f : A -> list B) l x : concat (f <$> (l ++ [x])) = concat (f <$> l) ++ f x.
Proof. rewrite fmap_app, concat_app. cbn. by rewrite app_nil_r. Qed.

(** What has been read when the buffer of [last] is written, or some of it. *)
Lemma read_more end_ f f' b w' got taken l last : read_of end_ f (Borrowed b) got taken ->
  l `prefix_of` last -> (f' = 0%nat -> f = 0%nat /\ l = last) ->
  (end_ = server_end -> f = 0%nat -> match w' with Waiting | Borrowed _ | Written _ => f' = 0%nat | _ => True end) ->
  read_of end_ f' w' (got ++ l) (taken ++ last).
Proof.
  intros [H1 H2 H3 H4] Hl Hf Hs. split.
  - apply sublist_app; [done|]. destruct Hl as [k ->]. by apply sublist_inserts_r.
  - intros [Hz ->]%Hf. by rewrite (H2 Hz).
  - intros He. rewrite (H2 (H4 He)). by apply prefix_app.
  - intros He. by apply Hs, H4.
Qed.

Lemma relay_ok_enqueue MTU end_ r r' : relay_ok MTU end_ r -> relay_step end_ r r' -> writing r' = writing r -> channels r' = channels r ->
  relay_ok MTU end_ r'.
Proof.
  intros [Hb Hx He Hz Hp] Hs Hw Hc. destruct Hs as [q w ch t f acc packet buffer q' E|q w ch t f acc packet buffer q' E|? | | | | | |q e w ch t f acc]; try done; try (by destruct end_);
    unfold pending in *; cbn [queue enqueuing writing channels transport failures accepted_packets] in *.
  - unfold enqueue_take in E. destruct (activeBuffer q) as [b|] eqn:Ea; [injection E as <- <-|].
    + split; cbn; try done. cbn in Hb; lia.
    + destruct (emptyBuffers q) as [|b bs] eqn:Eb; [done|]. injection E as <- <-. apply Forall_cons in He as [-> He].
      split; cbn; try done. cbn in Hb; lia.
  - specialize (Hx (ex_intro _ _ eq_refl)). unfold enqueue_put in E. rewrite Hx in E. injection E as <-. rewrite Hx in Hb.
    split; cbn; try done; [cbn in Hb; lia|intros H; apply length_fill, Hz, H|].
    intros Hs. assert (Hs' : Forall (sized MTU) acc) by (destruct (fits q buffer packet); [by apply Forall_app in Hs as [? _]|done]).
    destruct (Hp Hs') as (taken & cur & last & rest & E1 & E2 & [H1 H2 H3 H4] & E3 & E4 & E5).
    exists taken, cur, last, (if fits q buffer packet then rest ++ [packet] else rest). split_and!; [by apply fill_spec|done|by split| |done|done].
    destruct (fits q buffer packet); [|done]. by rewrite E3, <- !app_assoc.
  - apply (f_equal (@length bytes)) in Hc. rewrite length_app in Hc. cbn in Hc. lia.
Qed.

Lemma relay_ok_step MTU end_ r r' : relay_step end_ r r' -> relay_ok MTU end_ r -> relay_ok MTU end_ r'.
Proof.
  intros Hs Hok. pose proof Hok as [Hb Hx He Hz Hp]. pose proof (relay_ok_enqueue MTU end_ r r' Hok Hs) as Henq.
  destruct Hs as [q w ch t f acc packet buffer q' E|q w ch t f acc packet buffer q' E|q e ch t f acc buffer q' E|q e ch t f acc
    |q e ch t f acc buffer|q e ch t f acc buffer n|q e ch t f acc buffer q' E|q e ch t f acc buffer q' E|q e w ch t f acc He'];
    [by apply Henq..| | | | | | | ]; clear Henq;
    unfold pending in *; cbn [queue enqueuing writing channels transport failures accepted_packets] in *.
  - unfold DequeueFramedPackets in E. destruct (activeBuffer q) as [b|] eqn:Ea; [|done]. injection E as <- <-.
    assert (e = None) as -> by (destruct e; [|done]; by specialize (Hx (ex_intro _ _ eq_refl))).
    split; cbn; try done; [cbn in Hb; lia|]. intros Hs. destruct (Hp Hs) as (taken & cur & last & rest & E1 & E2 & [H1 H2 H3 H4] & E3 & -> & E5).
    exists taken, cur, rest, []. split_and!; [done|done|by split|by rewrite app_nil_r|done|done].
  - split; cbn; try done. intros Hs. destruct (Hp Hs) as (taken & cur & last & rest & E1 & E2 & [H1 H2 H3 H4] & E3 & -> & E5).
    exists taken, cur, [], rest. split_and!; [done|done|by split|done|done|done].
  - split; cbn; try done. intros Hs. destruct (Hp Hs) as (taken & cur & last & rest & E1 & E2 & H & E3 & -> & E5).
    exists (taken ++ last), (cur ++ last), [], rest. split_and!; [done|by rewrite frames_app, E2| |by rewrite <- app_assoc|done|].
    + rewrite app_assoc. by eapply read_more.
    + rewrite E3, Forall_app, Forall_app in Hs. apply Forall_app. tauto.
  - split; cbn; try done. intros Hs. destruct (Hp Hs) as (taken & cur & last & rest & E1 & E2 & H & E3 & -> & E5).
    assert (Hl : Forall (sized MTU) (cur ++ last)) by (rewrite E3, Forall_app, Forall_app in Hs; apply Forall_app; tauto).
    destruct (ReadPackets_cut MTU cur last n Hl) as (l & Er & Hl'). exists (taken ++ last), [], [], rest.
    split_and!; [done|done| |by rewrite <- app_assoc|done|constructor].
    rewrite concat_snoc, E2, Er, app_nil_r, app_assoc. by eapply read_more.
  - unfold Replace in E. destruct (Nat.ltb_spec (length (emptyBuffers q)) 2) as [Hl|]; [|done]. injection E as <-.
    split; cbn; try done; [rewrite length_app; cbn in Hb |- *; lia|by apply Forall_app_2; [|constructor]|].
    intros Hs. destruct (Hp Hs) as (taken & cur & last & rest & E1 & E2 & [H1 H2 H3 H4] & E3 & E4 & E5).
    exists taken, cur, last, rest. split_and!; [done|done|by split|done|done|done].
  - unfold Replace in E. destruct (Nat.ltb_spec (length (emptyBuffers q)) 2) as [Hl|]; [|done]. injection E as <-.
    split; cbn; try done; [rewrite length_app; destruct end_; cbn in Hb |- *; lia|by apply Forall_app_2; [|constructor]|].
    intros Hs. destruct (Hp Hs) as (taken & cur & last & rest & E1 & E2 & [H1 H2 H3 H4] & E3 & E4 & E5).
    exists taken, cur, last, rest. split_and!; [done|done|split; [done|done|done|by intros ->]|done|by destruct end_|done].
  - split; cbn; try done. intros Hs. destruct (Hp Hs) as (taken & cur & last & rest & E1 & E2 & [H1 H2 H3 H4] & E3 & E4 & E5).
    exists taken, [], last, rest. rewrite concat_snoc, E2, (ReadPackets_frames MTU cur E5), app_nil_r. split_and!; [done|done|by split|done|done|constructor].
Qed.

Lemma relay_reachable_ok MTU end_ maxSize r : rtc (relay_step end_) (relay_start maxSize) r -> relay_ok MTU end_ r.
Proof.
  intros H. apply (rtc_ind_r (R := relay_step end_) (relay_ok MTU end_) (relay_start maxSize)); [apply relay_ok_start| |done].
  intros r1 r2 _ Hs. by apply relay_ok_step.
Qed.

Lemma relay_step_maxSize end_ r r' : relay_step end_ r r' -> maxSize (queue r') = maxSize (queue r).
Proof.
  destruct 1 as [? ? ? ? ? ? ? ? ? E|? ? ? ? ? ? ? ? ? E|? ? ? ? ? ? ? ? E| | | |? ? ? ? ? ? ? ? E|? ? ? ? ? ? ? ? E|]; cbn; try done; revert E;
    unfold enqueue_take, enqueue_put, DequeueFramedPackets, Replace.
  all: try destruct (activeBuffer q); try destruct (emptyBuffers q); try destruct (_ <? _)%nat; cbn; naive_solver.
Qed.

Lemma reachable_maxSize end_ n r : rtc (relay_step end_) (relay_start n) r -> maxSize (queue r) = n.
Proof.
  intros H. apply (rtc_ind_r (R := relay_step end_) (fun r => maxSize (queue r) = n) (relay_start n)); [done| |done].
  intros r1 r2 _ Hs <-. by apply (relay_step_maxSize end_).
Qed.

(** ** Properties *)

(** C24: a queue delivers what it accepts, at the server's end and at the client's.  Whatever the
    interleaving of the goroutine that enqueues packets with the one that writes them, neither
    blocks on the other: there is always a buffer to fill, and room to put it back; a buffer
    never exceeds the size of the queue.  What the peers read from the channels, one after the
    other, are accepted packets, each whole, at most once and in order, even when writes fail
    halfway; at the server's end, which stops after a failed write, and at the client's until
    the first failed write, they are a prefix of the accepted packets; and once the queue is
    drained without a failure they are all of them.  (After a failed write the client goes on,
    with the next channel, and the packets of the failed write that were cut are lost.) *)
Theorem queue_delivers end_ MTU size r :
  rtc (relay_step end_) (relay_start size) r -> Forall (sized MTU) (accepted_packets r) ->
  (enqueuing r = None -> is_Some (enqueue_take (queue r))) /\
  (forall buffer packet, enqueuing r = Some (buffer, packet) -> is_Some (enqueue_put (queue r) (fill (queue r) buffer packet))) /\
  (forall buffer, writing r = Written buffer \/ writing r = Failed buffer -> is_Some (Replace (queue r) buffer)) /\
  (0 <= size -> Z.of_nat (length (pending r)) <= size) /\
  packets_read MTU r `sublist_of` accepted_packets r /\
  (end_ = server_end \/ failures r = 0%nat -> packets_read MTU r `prefix_of` accepted_packets r) /\
  (failures r = 0%nat -> (writing r = Waiting \/ writing r = Stopped) -> enqueuing r = None -> activeBuffer (queue r) = None ->
     packets_read MTU r = accepted_packets r).
Proof.
  intros Hr Hs. destruct (relay_reachable_ok MTU end_ size r Hr) as [Hb Hx He Hz Hp].
  destruct (Hp Hs) as (taken & cur & last & rest & E1 & E2 & [H1 H2 H3 H4] & E3 & E4 & E5). rewrite <- (ReadPackets_frames MTU cur E5), <- E2 in H1, H2, H3.
  fold (packets_read MTU r) in H1, H2, H3. assert (maxSize (queue r) = size) as Hm by (by apply (reachable_maxSize end_)). split_and!.
  - intros Hn. unfold enqueue_take. destruct (activeBuffer (queue r)) as [b|]; [by eexists|]. rewrite Hn in Hb.
    destruct (emptyBuffers (queue r)); [destruct (writing r); cbn in Hb; lia|by eexists].
  - intros buffer packet Hn. unfold enqueue_put. rewrite Hx by (by rewrite Hn). by eexists.
  - intros buffer Hn. unfold Replace. replace (length (emptyBuffers (queue r)) <? 2)%nat with true; [by eexists|].
    symmetry. apply Nat.ltb_lt. destruct Hn as [E|E]; rewrite E in Hb; cbn in Hb; lia.
  - by rewrite Hm in Hz.
  - rewrite E3. by apply sublist_inserts_r.
  - rewrite E3. intros [Hse|Hf]; apply prefix_app_r; [by apply H3|by rewrite (H2 Hf)].
  - intros Hf Hw Ee Ea. unfold pending in E1. rewrite Ee, Ea in E1. destruct rest as [|p ps]; [|done].
    rewrite (H2 Hf), E3. destruct Hw as [Ew|Ew]; rewrite Ew in E4; by rewrite E4, app_nil_r.
Qed.

(** A packet written at once is framed in the same way. *)
Lemma WritePacket_frame MTU p : (length p <= MTU)%nat -> WritePacket MTU p = Ok (frame p).
Proof.
  intros H. unfold WritePacket. replace (length p <=? MTU)%nat with true by (symmetry; apply Nat.leb_le; lia). f_equal.
  rewrite (take_ge p MTU) by done. set (hd := PutUint16 _). unfold copy_at, channelHeaderSize.
  change (take 2 (take 0 _ ++ hd ++ _)) with hd. rewrite app_assoc. by apply take_app_length'.
Qed.

Definition example_relaying : relaying :=
  {| queue := {| maxSize := 10; emptyBuffers := [[]; []]; activeBuffer := None |}; enqueuing := None; writing := Waiting;
     channels := []; transport := [x00; x02; x0a; x0b]; failures := 0; accepted_packets := [[x0a; x0b]] |}.

Lemma example_relaying_reachable : rtc (relay_step server_end) (relay_start 10) example_relaying.
Proof.
  eapply rtc_l; [eapply EnqueueTake with (packet := [x0a; x0b]); reflexivity|].
  eapply rtc_l; [eapply EnqueuePut; reflexivity|].
  eapply rtc_l; [eapply Dequeue; reflexivity|].
  eapply rtc_l; [eapply WriteFramedPackets|].
  eapply rtc_l; [eapply ReplaceWritten; reflexivity|]. apply rtc_refl.
Qed.

(** The client writes half of a packet, and the next packet on the next channel. *)
Definition example_reconnected : relaying :=
  {| queue := {| maxSize := 10; emptyBuffers := [[]; []]; activeBuffer := None |}; enqueuing := None; writing := Waiting;
     channels := [[x00; x02; x0a]]; transport := [x00; x01; x0c]; failures := 1; accepted_packets := [[x0a; x0b]; [x0c]] |}.

Lemma example_reconnected_reachable : rtc (relay_step client_end) (relay_start 10) example_reconnected.
Proof.
  eapply rtc_l; [eapply EnqueueTake with (packet := [x0a; x0b]); reflexivity|].
  eapply rtc_l; [eapply EnqueuePut; reflexivity|].
  eapply rtc_l; [eapply Dequeue; reflexivity|].
  eapply rtc_l; [eapply (WriteFails _ _ _ _ _ _ _ _ 3)|].
  eapply rtc_l; [eapply ReplaceFailed; reflexivity|].
  eapply rtc_l; [eapply EnqueueTake with (packet := [x0c]); reflexivity|].
  eapply rtc_l; [eapply EnqueuePut; reflexivity|].
  eapply rtc_l; [eapply Dequeue; reflexivity|].
  eapply rtc_l; [eapply WriteFramedPackets|].
  eapply rtc_l; [eapply ReplaceWritten; reflexivity|]. apply rtc_refl.
Qed.

Lemma queue_delivers_witness : packets_read 4 example_relaying = [[x0a; x0b]] /\ packets_read 4 example_reconnected `sublist_of` [[x0a; x0b]; [x0c]].
Proof.
  assert (Forall (sized 4) (accepted_packets example_relaying)) as H by (repeat constructor; cbn; lia).
  assert (Forall (sized 4) (accepted_packets example_reconnected)) as H' by (repeat constructor; cbn; lia).
  destruct (queue_delivers server_end 4 10 example_relaying example_relaying_reachable H) as (_ & _ & _ & _ & _ & _ & Hall).
  destruct (queue_delivers client_end 4 10 example_reconnected example_reconnected_reachable H') as (_ & _ & _ & _ & Hsub & _).
  split; [exact (Hall eq_refl (or_introl eq_refl) eq_refl eq_refl)|exact Hsub].
Defined.
