(* ===== verification/TunServer.v ===== *)
(** * Packet tunnel: the server

    Models the server of src/psiphon/common/tun/tun.go: the sessions of clients, which are
    created, resumed, interrupted and reaped, the addresses assigned to them, and the routing
    of packets between the clients and the tun device.

    The operations of the API and the handling of one packet by a goroutine are steps.  A
    session is referenced by the map of sessions alone, so that the map holds its value.  The
    clock and the random choices are arguments; logs, callbacks and the bytes written to
    channels and to the device are a list of outputs. *)

From Stdlib Require Import ZArith Lia Strings.Byte Strings.Ascii Strings.String.
From stdpp Require Import base gmap list strings numbers relations.
From S2P Require Import Prelude.
From S2P Require Import GoStrings.
From S2P Require Import Lookups.
From S2P Require Import GoNet.
From S2P Require Import Tun.
From S2P Require Import TunQueue.
#[local] Open Scope string_scope.
#[local] Open Scope Z_scope.
#[local] Open Scope list_scope.

(** ** Addresses *)

Definition octet (index shift : Z) : Z := Z.land (Z.shiftr index shift) 0xFF.

Definition convertIndexToIPv4Address (index : Z) : bytes :=
  ParseIP (chars "10." ++ format_d (octet index 16) ++ chars "." ++ format_d (octet index 8) ++ chars "." ++ format_d (Z.land index 0xFF)).

Definition convertIndexToIPv6Address (index : Z) : bytes :=
  ParseIP (chars "fd19:ca83:e6d5:1c44:8c57:4434:ee" ++ format_02x (octet index 16) ++ chars ":" ++ format_02x (octet index 8) ++
    format_02x (Z.land index 0xFF)).

Definition convertIPAddressToIndex (IP : bytes) : res Z :=
  let size := length IP in
  if (size <? 3)%nat then Panic "index out of range"
  else
    let at_end i := b2z (nth (size - i) IP x00) in
    Ok (Z.lor (Z.lor (Z.shiftl (at_end 3%nat) 16) (Z.shiftl (at_end 2%nat) 8)) (at_end 1%nat)).

(** *** The index is in the address *)

Definition index_byte (index shift : Z) : byte := z2b (Z.shiftr index shift).

Lemma octet_byte index shift : octet index shift = b2z (index_byte index shift).
Proof. unfold octet, index_byte. rewrite b2z_z2b. change 0xFF with (Z.ones 8). by rewrite Z.land_ones by lia. Qed.

Lemma octet_byte_0 index : Z.land index 0xFF = b2z (index_byte index 0).
Proof. rewrite <- octet_byte. unfold octet. by rewrite Z.shiftr_0_r. Qed.

(** A field of a dotted address, before a dot and at the end. *)
Lemma parse_v4_field b rest prev pos fields :
  rest <> [] -> (pos < 3)%nat ->
  parse_v4 (format_d (b2z b) ++ "."%char :: rest) prev 0 0 pos fields = parse_v4 rest (Some "."%char) 0 0 (S pos) (b :: fields).
Proof.
  intros Hr Hp. assert ((pos =? 3)%nat = false) as Hp' by (apply Nat.eqb_neq; lia). destruct rest as [|c rest]; [done|].
  destruct b; cbn -[parse_v4 Nat.eqb]; cbn [parse_v4]; rewrite Hp'; reflexivity.
Qed.

Lemma parse_v4_last b prev fields : parse_v4 (format_d (b2z b)) prev 0 0 3 fields = Some (rev (b :: fields)).
Proof. destruct b; reflexivity. Qed.

Definition percent (c : ascii) : bool := bool_decide (c = "%"%char).

Lemma format_d_plain b : existsb percent (format_d (b2z b)) = false.
Proof. by destruct b. Qed.

Lemma format_02x_plain b : existsb percent (format_02x (b2z b)) = false.
Proof. by destruct b. Qed.

Lemma format_d_cons b : format_d (b2z b) <> [].
Proof. by destruct b. Qed.

Lemma ParseIP_plain s : existsb percent s = false ->
  ParseIP s = match head (filter (fun c => is_separator c = true) s) with
    | Some "."%char => match parseIPv4 s with Some ip => Subnet.v4InV6Prefix ++ ip | None => [] end
    | Some ":"%char => default [] (parseIPv6 s)
    | _ => []
    end.
Proof. intros H. unfold ParseIP. by change (existsb _ s) with (existsb percent s); rewrite H. Qed.

Lemma convertIndexToIPv4Address_spec index :
  convertIndexToIPv4Address index = IPv4 x0a (index_byte index 16) (index_byte index 8) (index_byte index 0).
Proof.
  unfold convertIndexToIPv4Address. rewrite !octet_byte, octet_byte_0. set (a := index_byte index 16). set (b := index_byte index 8).
  set (c := index_byte index 0). rewrite ParseIP_plain by (by rewrite !existsb_app, !format_d_plain).
  change (head _) with (Some "."%char). cbn beta iota.
  assert (parseIPv4 (chars "10." ++ format_d (b2z a) ++ chars "." ++ format_d (b2z b) ++ chars "." ++ format_d (b2z c)) = Some [x0a; a; b; c]) as ->; [|done].
  change (parseIPv4 _) with
    (parse_v4 (format_d (b2z x0a) ++ "."%char :: format_d (b2z a) ++ "."%char :: format_d (b2z b) ++ "."%char :: format_d (b2z c)) None 0 0 0 []).
  rewrite parse_v4_field by (lia || by destruct (format_d (b2z a))).
  rewrite parse_v4_field by (lia || by destruct (format_d (b2z b))).
  rewrite parse_v4_field by (lia || apply format_d_cons). apply parse_v4_last.
Qed.

Lemma hex_digit_char n : 0 <= n < 16 -> hex_digit (digit_char n) = Some n.
Proof.
  intros H. assert (forallb (fun n => bool_decide (hex_digit (digit_char n) = Some n)) (map Z.of_nat (seq 0 16)) = true) as Hall by reflexivity.
  rewrite forallb_forall in Hall. apply (bool_decide_eq_true_1 (hex_digit (digit_char n) = Some n)), Hall. apply in_map_iff. exists (Z.to_nat n).
  split; [lia|]. apply in_seq. lia.
Qed.

Lemma parse_group_02x b rest off acc :
  (off <= 2)%nat -> 0 <= acc < 256 -> parse_group (format_02x (b2z b) ++ rest) off acc = parse_group rest (S (S off)) (acc * 256 + b2z b).
Proof.
  intros Ho Ha. pose proof (b2z_range b) as Hb. unfold format_02x. cbn [app parse_group].
  pose proof (Z.div_mod (b2z b) 16). pose proof (Z.mod_pos_bound (b2z b) 16).
  assert (0 <= b2z b / 16 < 16) by (split; [apply Z.div_pos; lia|apply Z.div_lt_upper_bound; lia]).
  rewrite !hex_digit_char by lia. rewrite !Z.shiftl_mul_pow2 by lia. change (2 ^ 4) with 16.
  replace (3 <? off)%nat with false by (symmetry; apply Nat.ltb_ge; lia).
  replace (3 <? S off)%nat with false by (symmetry; apply Nat.ltb_ge; lia).
  replace (65535 <? acc * 16 + b2z b / 16) with false by (symmetry; apply Z.ltb_ge; lia).
  replace (65535 <? (acc * 16 + b2z b / 16) * 16 + b2z b mod 16) with false by (symmetry; apply Z.ltb_ge; lia). cbn [orb]. f_equal. lia.
Qed.

Lemma z2b_high a b : z2b (Z.shiftr (b2z a * 256 + b2z b) 8) = a /\ z2b (b2z a * 256 + b2z b) = b.
Proof.
  pose proof (b2z_range a). pose proof (b2z_range b). rewrite Z.shiftr_div_pow2 by lia. change (2 ^ 8) with 256. split.
  - rewrite Z.div_add_l, Z.div_small, Z.add_0_r by lia. apply z2b_b2z.
  - apply b2z_inj. rewrite b2z_z2b, Z.add_comm, Z.mod_add by lia. apply Z.mod_small; lia.
Qed.

Definition v6_prefix : bytes := [xfd; x19; xca; x83; xe6; xd5; x1c; x44; x8c; x57; x44; x34; xee].

Lemma parse_group_pair a b rest : head rest = None \/ head rest = Some ":"%char ->
  parse_group (format_02x (b2z a) ++ format_02x (b2z b) ++ rest) 0 0 = Some (4%nat, b2z a * 256 + b2z b, rest).
Proof. intros H. pose proof (b2z_range a). rewrite !parse_group_02x by lia. destruct rest as [|c rest]; [done|]. destruct H as [|[= ->]]; done. Qed.

(** A field before a colon and at the end. *)
Lemma parse_v6_field fuel a b c rest ip : c <> ":"%char ->
  parse_v6 (S fuel) (format_02x (b2z a) ++ format_02x (b2z b) ++ ":"%char :: c :: rest) ip None = parse_v6 fuel (c :: rest) (ip ++ [a; b]) None.
Proof.
  intros Hc. cbn [parse_v6]. rewrite parse_group_pair by (by right). destruct (z2b_high a b) as [H1 H2].
  cbn -[parse_v6 z2b b2z Z.shiftr Z.mul Z.add parseIPv4]. rewrite bool_decide_eq_false_2 by done. rewrite H1, H2. rewrite bool_decide_eq_true_2 by done. cbn [negb]. by rewrite bool_decide_eq_false_2.
Qed.

Lemma parse_v6_last fuel a b ip : parse_v6 (S fuel) (format_02x (b2z a) ++ format_02x (b2z b)) ip None = Some ([], ip ++ [a; b], None).
Proof.
  cbn [parse_v6]. rewrite <- (app_nil_r (format_02x (b2z b))), parse_group_pair by (by left). destruct (z2b_high a b) as [H1 H2].
  cbn -[parse_v6 z2b b2z Z.shiftr Z.mul Z.add]. by rewrite H1, H2.
Qed.

Lemma digit_char_colon n : 0 <= n < 16 -> digit_char n <> ":"%char.
Proof. intros H%hex_digit_char E. by rewrite E in H. Qed.

Lemma convertIndexToIPv6Address_spec index :
  convertIndexToIPv6Address index = v6_prefix ++ [index_byte index 16; index_byte index 8; index_byte index 0].
Proof.
  unfold convertIndexToIPv6Address. rewrite !octet_byte, octet_byte_0. set (a := index_byte index 16). set (b := index_byte index 8).
  set (c := index_byte index 0). rewrite ParseIP_plain by (by rewrite !existsb_app, !format_02x_plain).
  change (head _) with (Some ":"%char). cbn beta iota.
  unfold parseIPv6. change (match _ ++ _ with ":"%char :: ":"%char :: s => (true, s) | _ => _ end)
    with (false, chars "fd19:ca83:e6d5:1c44:8c57:4434:ee" ++ format_02x (b2z a) ++ chars ":" ++ format_02x (b2z b) ++ format_02x (b2z c)).
  cbn [andb]. change (parse_v6 8 _ [] None) with (parse_v6 2 (chars "ee" ++ format_02x (b2z a) ++ chars ":" ++ format_02x (b2z b) ++ format_02x (b2z c)) (take 12 v6_prefix) None).
  change (chars "ee") with (format_02x (b2z xee)). pose proof (b2z_range b).
  change (format_02x (b2z b) ++ format_02x (b2z c)) with (digit_char (b2z b / 16) :: (digit_char (b2z b mod 16) :: format_02x (b2z c))) at 1.
  cbn [chars app]. rewrite parse_v6_field; [|apply digit_char_colon; split; [apply Z.div_pos|apply Z.div_lt_upper_bound]; lia].
  change (digit_char (b2z b / 16) :: digit_char (b2z b mod 16) :: _) with (format_02x (b2z b) ++ format_02x (b2z c)).
  by rewrite parse_v6_last.
Qed.

Lemma index_bytes index : 0 <= index < 2 ^ 24 ->
  Z.lor (Z.lor (Z.shiftl (b2z (index_byte index 16)) 16) (Z.shiftl (b2z (index_byte index 8)) 8)) (b2z (index_byte index 0)) = index.
Proof.
  intros H. pose proof (b2z_range (index_byte index 16)). pose proof (b2z_range (index_byte index 8)). pose proof (b2z_range (index_byte index 0)).
  rewrite !Z.shiftl_mul_pow2 by lia. rewrite (Z.mul_comm _ (2 ^ 16)), (Z.mul_comm _ (2 ^ 8)).
  rewrite (Z.lor_comm (2 ^ 16 * _)), lor_disjoint by lia.
  replace (2 ^ 8 * b2z (index_byte index 8) + 2 ^ 16 * b2z (index_byte index 16))
    with (2 ^ 8 * (b2z (index_byte index 8) + 2 ^ 8 * b2z (index_byte index 16))) by lia.
  rewrite Z.lor_comm, lor_disjoint by lia. unfold index_byte. rewrite !b2z_z2b, !Z.shiftr_div_pow2 by lia.
  change (2 ^ 16) with (256 * 256). change (2 ^ 8) with 256. rewrite <- Z.div_div by lia. change (2 ^ 0) with 1. rewrite Z.div_1_r.
  assert (0 <= index / 256 / 256 < 256).
  { split; [apply Z.div_pos; [apply Z.div_pos|]; lia|]. apply Z.div_lt_upper_bound; [lia|]. apply Z.div_lt_upper_bound; lia. }
  rewrite (Z.mod_small (index / 256 / 256)) by lia. pose proof (Z.div_mod index 256). pose proof (Z.div_mod (index / 256) 256). lia.
Qed.

Lemma convert_last l a b c :
  convertIPAddressToIndex (l ++ [a; b; c]) = Ok (Z.lor (Z.lor (Z.shiftl (b2z a) 16) (Z.shiftl (b2z b) 8)) (b2z c)).
Proof.
  unfold convertIPAddressToIndex. rewrite length_app. cbn [length]. replace (length l + 3 <? 3)%nat with false by (symmetry; apply Nat.ltb_ge; lia).
  replace (length l + 3 - 3)%nat with (length l + 0)%nat by lia. replace (length l + 3 - 2)%nat with (length l + 1)%nat by lia.
  replace (length l + 3 - 1)%nat with (length l + 2)%nat by lia. by rewrite !app_nth2_plus.
Qed.

(** The address of a session gives its index back. *)
Lemma convert_roundtrip index : 0 <= index < 2 ^ 24 ->
  convertIPAddressToIndex (Subnet.To4 (convertIndexToIPv4Address index)) = Ok index /\
  convertIPAddressToIndex (convertIndexToIPv6Address index) = Ok index.
Proof.
  intros H. rewrite convertIndexToIPv4Address_spec, convertIndexToIPv6Address_spec.
  split; [change (Subnet.To4 (IPv4 x0a ?a ?b ?c)) with ([x0a] ++ [a; b; c])|]; by rewrite convert_last, index_bytes.
Qed.

Lemma convert_lengths index : length (Subnet.To4 (convertIndexToIPv4Address index)) = 4%nat /\ length (convertIndexToIPv6Address index) = 16%nat.
Proof. by rewrite convertIndexToIPv4Address_spec, convertIndexToIPv6Address_spec. Qed.

(** ** Configuration *)

Definition DEFAULT_MTU : Z := 1500.
Definition DEFAULT_DOWNSTREAM_PACKET_QUEUE_SIZE : Z := 32768 * 16.
Definition DEFAULT_IDLE_SESSION_EXPIRY_SECONDS : Z := 300.

Definition getMTU (configMTU : Z) : Z :=
  if configMTU <=? 0 then DEFAULT_MTU else if 65536 <? configMTU then 65536 else configMTU.

(** The functions that give the resolvers are their results. *)
Record ServerConfig := {
  GetDNSResolverIPv4Addresses : list bytes;
  GetDNSResolverIPv6Addresses : list bytes;
  EnableDNSFlowTracking : bool;
  DownstreamPacketQueueSize : Z;
  MTU : Z;
  SessionIdleExpirySeconds : Z;
  AllowBogons : bool
}.

(** In nanoseconds. *)
Definition sessionIdleExpiry (config : ServerConfig) : Z :=
  (if 2 <? SessionIdleExpirySeconds config then SessionIdleExpirySeconds config else DEFAULT_IDLE_SESSION_EXPIRY_SECONDS) * 10 ^ 9.

(** ** Sessions *)

(** [core] has the fields that packets are processed with.  [channel] says whether a client
    is connected, and metrics updaters are numbered. *)
Record server_session := {
  core : session;
  sessionID : string;
  session_index : Z;
  lastActivity : Z;
  session_metrics : packetMetrics;
  metricsUpdater : option positive;
  downstreamPackets : option PacketQueue;
  channel : bool
}.

Inductive output :=
| DevicePacket (packet : bytes)
| ChannelBytes (index : Z) (buffer : bytes)
| ChannelClosed (index : Z)
| PacketMetrics (fields : gmap string Z) (update : option (positive * (Z * Z * Z * Z)))
| FlowEvent (e : event)
| ResetRouting (IPv4Address IPv6Address : bytes)
| Warning (message : string).

(** The callbacks of a connection. *)
Record callbacks := {
  cb_TCPPort : option (bytes -> Z -> bool);
  cb_UDPPort : option (bytes -> Z -> bool);
  cb_Domain : option (string -> bool);
  cb_updaterMaker : option (bool -> string -> bytes -> list positive);
  cb_metricsUpdater : option positive;
  cb_dnsQualityReporter : bool
}.

Definition no_callbacks : callbacks :=
  {| cb_TCPPort := None; cb_UDPPort := None; cb_Domain := None; cb_updaterMaker := None; cb_metricsUpdater := None;
     cb_dnsQualityReporter := false |}.

Definition set_callbacks (s : session) (cb : callbacks) : session :=
  {| lastFlowReapIndex := lastFlowReapIndex s; checkAllowedTCPPortFunc := cb_TCPPort cb;
     checkAllowedUDPPortFunc := cb_UDPPort cb; checkAllowedDomainFunc := cb_Domain cb;
     flowActivityUpdaterMaker := cb_updaterMaker cb; dnsQualityReporter := cb_dnsQualityReporter cb;
     allowBogons := allowBogons s; enableDNSFlowTracking := enableDNSFlowTracking s;
     DNSResolverIPv4Addresses := DNSResolverIPv4Addresses s; TCPDNSResolverIPv4Index := TCPDNSResolverIPv4Index s;
     assignedIPv4Address := assignedIPv4Address s; originalIPv4Address := originalIPv4Address s;
     DNSResolverIPv6Addresses := DNSResolverIPv6Addresses s; TCPDNSResolverIPv6Index := TCPDNSResolverIPv6Index s;
     assignedIPv6Address := assignedIPv6Address s; originalIPv6Address := originalIPv6Address s; flows := flows s |}.

Definition set_assigned (s : session) (ip4 ip6 : bytes) : session :=
  {| lastFlowReapIndex := lastFlowReapIndex s; checkAllowedTCPPortFunc := checkAllowedTCPPortFunc s;
     checkAllowedUDPPortFunc := checkAllowedUDPPortFunc s; checkAllowedDomainFunc := checkAllowedDomainFunc s;
     flowActivityUpdaterMaker := flowActivityUpdaterMaker s; dnsQualityReporter := dnsQualityReporter s;
     allowBogons := allowBogons s; enableDNSFlowTracking := enableDNSFlowTracking s;
     DNSResolverIPv4Addresses := DNSResolverIPv4Addresses s; TCPDNSResolverIPv4Index := TCPDNSResolverIPv4Index s;
     assignedIPv4Address := ip4; originalIPv4Address := originalIPv4Address s;
     DNSResolverIPv6Addresses := DNSResolverIPv6Addresses s; TCPDNSResolverIPv6Index := TCPDNSResolverIPv6Index s;
     assignedIPv6Address := ip6; originalIPv6Address := originalIPv6Address s; flows := flows s |}.

(** [session.expired]; the reading of the clock is an argument. *)
Definition session_expired (s : server_session) (now idleExpiry : Z) : bool := idleExpiry <? now - lastActivity s.

Definition touch (s : server_session) (now : Z) : server_session :=
  {| core := core s; sessionID := sessionID s; session_index := session_index s; lastActivity := now;
     session_metrics := session_metrics s; metricsUpdater := metricsUpdater s; downstreamPackets := downstreamPackets s;
     channel := channel s |}.

(** The session after its packet was processed, with what is queued for the client. *)
Definition set_core (s : server_session) (c : session) (m : packetMetrics) (q : option PacketQueue) : server_session :=
  {| core := c; sessionID := sessionID s; session_index := session_index s; lastActivity := lastActivity s;
     session_metrics := m; metricsUpdater := metricsUpdater s; downstreamPackets := q; channel := channel s |}.

(** The workers of the session have ended when the channel is released. *)
Definition interruptSession (s : server_session) : server_session * list output :=
  let '(fields, update, metrics) := checkpoint (session_metrics s) packetMetricsAll in
  ({| core := set_callbacks (core s) no_callbacks; sessionID := sessionID s; session_index := session_index s;
      lastActivity := lastActivity s; session_metrics := if channel s then metrics else session_metrics s;
      metricsUpdater := None; downstreamPackets := None; channel := false |},
   if channel s then
     [ChannelClosed (session_index s);
      PacketMetrics fields (match metricsUpdater s, update with Some u, Some v => Some (u, v) | _, _ => None end)]
   else []).

Definition resumeSession (config : ServerConfig) (s : server_session) (cb : callbacks) (now : Z) : server_session :=
  let size := if 0 <? DownstreamPacketQueueSize config then DownstreamPacketQueueSize config else DEFAULT_DOWNSTREAM_PACKET_QUEUE_SIZE in
  {| core := set_callbacks (core s) cb; sessionID := sessionID s; session_index := session_index s; lastActivity := now;
     session_metrics := session_metrics s; metricsUpdater := cb_metricsUpdater cb;
     downstreamPackets := Some (NewPacketQueue size); channel := true |}.

(** The session of a new client; [intn] is [prng.Intn]. *)
Definition new_session (config : ServerConfig) (id : string) (intn : nat -> nat) (now : Z) : server_session :=
  let resolvers4 := map Subnet.To4 (GetDNSResolverIPv4Addresses config) in
  let resolvers6 := GetDNSResolverIPv6Addresses config in
  {| core := {|
       lastFlowReapIndex := 0; checkAllowedTCPPortFunc := None; checkAllowedUDPPortFunc := None; checkAllowedDomainFunc := None;
       flowActivityUpdaterMaker := None; dnsQualityReporter := false; allowBogons := AllowBogons config;
       enableDNSFlowTracking := EnableDNSFlowTracking config; DNSResolverIPv4Addresses := resolvers4;
       TCPDNSResolverIPv4Index := if (0 <? length resolvers4)%nat then intn (length resolvers4) else 0%nat;
       assignedIPv4Address := []; originalIPv4Address := None; DNSResolverIPv6Addresses := resolvers6;
       TCPDNSResolverIPv6Index := if (0 <? length resolvers6)%nat then intn (length resolvers6) else 0%nat;
       assignedIPv6Address := []; originalIPv6Address := None; flows := ∅ |};
     sessionID := id; session_index := 0; lastActivity := now; session_metrics := newPacketMetrics; metricsUpdater := None;
     downstreamPackets := None; channel := false |}.

(** ** The server *)

Record server := {
  config : ServerConfig;
  indexToSession : gmap Z server_session;
  sessionIDToIndex : gmap string Z;
  orphanMetrics : packetMetrics;
  stopping : bool;
  outputs : list output
}.

Definition NewServer (c : ServerConfig) : server :=
  {| config := c; indexToSession := ∅; sessionIDToIndex := ∅; orphanMetrics := newPacketMetrics; stopping := false; outputs := [] |}.

Definition set_maps (srv : server) (m : gmap Z server_session) (ids : gmap string Z) (out : list output) : server :=
  {| config := config srv; indexToSession := m; sessionIDToIndex := ids; orphanMetrics := orphanMetrics srv;
     stopping := stopping srv; outputs := outputs srv ++ out |}.

(** Update a session, which is in the map under its index. *)
Definition put (srv : server) (s : server_session) (out : list output) : server :=
  set_maps srv (<[session_index s := s]> (indexToSession srv)) (sessionIDToIndex srv) out.

Definition set_orphan (srv : server) (m : packetMetrics) : server :=
  {| config := config srv; indexToSession := indexToSession srv; sessionIDToIndex := sessionIDToIndex srv; orphanMetrics := m;
     stopping := stopping srv; outputs := outputs srv |}.

(** The session, and whether the warning of a missing one is logged. *)
Definition getSession (srv : server) (id : string) : option server_session * list output :=
  match sessionIDToIndex srv !! id with
  | None => (None, [])
  | Some index =>
      match indexToSession srv !! index with
      | Some s => (Some s, [])
      | None => (None, [Warning "unexpected missing session"])
      end
  end.

Section Server.
Context (ParseDNSQuestion : bytes -> res string) (IsBogon : bytes -> bool) (rand_Intn : nat -> nat) (visit : flow_visit).

(** [now] is the clock when the flows are deleted. *)
Definition removeSession (srv : server) (s : server_session) (now : Z) : server :=
  let '(s', out) := interruptSession s in
  let '(_, ev) := deleteFlows visit (core s') now in
  set_maps srv (delete (session_index s) (indexToSession srv)) (delete (sessionID s) (sessionIDToIndex srv)) (out ++ map FlowEvent ev).

(** The loop of [allocateIndex], with the tries that are left; [now] gives the clock at each.
    The result has no session when the tries are used up. *)
Fixpoint allocate (now : nat -> Z) (tries : nat) (index : Z) (srv : server) (s : server_session) : server * option server_session :=
  match tries with
  | O => (srv, None)
  | S tries =>
      if index <=? 2 then allocate now tries (index + 1) srv s
      else if index =? 0x00FFFFFF then allocate now tries (0 + 1) srv s
      else
        let IPv4Address := Subnet.To4 (convertIndexToIPv4Address index) in
        let IPv6Address := convertIndexToIPv6Address index in
        if bool_decide (IPv4Address = []) || bool_decide (IPv6Address = []) then
          allocate now tries (index + 1)
            (set_maps srv (indexToSession srv) (sessionIDToIndex srv) [Warning "convert index to IP address failed"]) s
        else
          match indexToSession srv !! index with
          | Some existing =>
              if session_expired existing (now tries) (sessionIdleExpiry (config srv))
              then allocate now tries (index - 1 + 1) (removeSession srv existing (now tries)) s
              else allocate now tries (index + 1) srv s
          | None =>
              let s := {| core := set_assigned (core s) IPv4Address IPv6Address; sessionID := sessionID s; session_index := index;
                          lastActivity := lastActivity s; session_metrics := session_metrics s; metricsUpdater := metricsUpdater s;
                          downstreamPackets := downstreamPackets s; channel := channel s |} in
              (set_maps srv (<[index := s]> (indexToSession srv)) (<[sessionID s := index]> (sessionIDToIndex srv))
                 [ResetRouting IPv4Address IPv6Address], Some s)
          end
  end.

Definition allocate_tries : nat := Z.to_nat 100000.

(** [randomInt] is [prng.Intn(max + 1)]. *)
Definition allocateIndex (now : nat -> Z) (randomInt : Z) (srv : server) (s : server_session) : server * option server_session :=
  allocate now allocate_tries (Z.land (wrapS 32 randomInt) 0x00FFFFFF) srv s.

(** The state and the error, if any. *)
Definition ClientConnected (srv : server) (id : string) (cb : callbacks) (intn : nat -> nat) (randomInt : Z) (now : nat -> Z) (now_resume : Z)
  : server * option string :=
  if stopping srv then (srv, Some "server stopping")
  else
    let '(found, warning) := getSession srv id in
    match found with
    | Some s =>
        let '(s, out) := interruptSession s in
        let srv := put srv s (warning ++ out) in
        (put srv (resumeSession (config srv) s cb now_resume) [], None)
    | None =>
        let srv := set_maps srv (indexToSession srv) (sessionIDToIndex srv) warning in
        let '(srv, allocated) := allocateIndex now randomInt srv (new_session (config srv) id intn (now allocate_tries)) in
        match allocated with
        | Some s => (put srv (resumeSession (config srv) s cb now_resume) [], None)
        | None => (srv, Some "unallocated index not found")
        end
    end.

Definition ClientDisconnected (srv : server) (id : string) : server :=
  let '(found, warning) := getSession srv id in
  match found with
  | Some s => let '(s, out) := interruptSession s in put srv s (warning ++ out)
  | None => set_maps srv (indexToSession srv) (sessionIDToIndex srv) warning
  end.

(** A tick of [runSessionReaper], which visits the sessions in the order of [keys]. *)
Definition reap_sessions (now : Z) (keys : list Z) (srv : server) : server :=
  foldl (fun srv key =>
    match indexToSession srv !! key with
    | Some s => if session_expired s now (sessionIdleExpiry (config srv)) then removeSession srv s now else srv
    | None => srv
    end) srv keys.

(** [Stop], which visits the sessions in the order of [keys]. *)
Definition Stop (keys : list Z) (srv : server) : server :=
  let srv := {| config := config srv; indexToSession := indexToSession srv; sessionIDToIndex := sessionIDToIndex srv;
                orphanMetrics := orphanMetrics srv; stopping := true; outputs := outputs srv |} in
  foldl (fun srv key =>
    match indexToSession srv !! key with
    | Some s => let '(s, out) := interruptSession s in put srv s out
    | None => srv
    end) srv keys.

(** A tick of [runOrphanMetricsCheckpointer]. *)
Definition checkpoint_orphans (srv : server) : server :=
  let '(fields, _, metrics) := checkpoint (orphanMetrics srv) packetMetricsRejected in
  set_maps (set_orphan srv metrics) (indexToSession srv) (sessionIDToIndex srv) [PacketMetrics fields None].

Definition process_for (t : clock) (direction : packetDirection) (s : server_session) (p : bytes) : res (bool * packet_state) :=
  processPacket ParseDNSQuestion IsBogon rand_Intn visit t None direction
    {| metrics := session_metrics s; the_session := Some (core s); packet := p; events := [] |}.

(** A packet read from the device, in [runDeviceDownstream]; a full channel would block for
    ever, which is the result of running out of fuel. *)
Definition device_downstream (t : clock) (srv : server) (readPacket : bytes) : res server :=
  '(found, orphans) ← getPacketDestinationIPAddress (orphanMetrics srv) packetDirectionServerDownstream readPacket;
  let srv := set_orphan srv orphans in
  match (found : option bytes) with
  | None => Ok srv
  | Some destinationIPAddress =>
      index ← convertIPAddressToIndex destinationIPAddress;
      match indexToSession srv !! index with
      | None => Ok (set_orphan srv (rejectedPacket (orphanMetrics srv) packetDirectionServerDownstream packetRejectNoSession))
      | Some s =>
          match downstreamPackets s with
          | None => Ok (set_orphan srv (rejectedPacket (orphanMetrics srv) packetDirectionServerDownstream packetRejectNoClient))
          | Some q =>
              '(ok, st) ← process_for t packetDirectionServerDownstream s readPacket;
              c ← res_of_option "nil pointer dereference" (the_session st);
              match (if ok : bool then Enqueue q (packet st) else Some q) with
              | Some q => Ok (put srv (set_core s c (metrics st) (Some q)) (map FlowEvent (events st)))
              | None => NoFuel
              end
          end
      end
  end.

(** A packet read from the channel of a session, in [runClientUpstream]. *)
Definition client_upstream (t : clock) (now : Z) (srv : server) (s : server_session) (readPacket : bytes) : res server :=
  let s := touch s now in
  '(ok, st) ← process_for t packetDirectionServerUpstream s readPacket;
  c ← res_of_option "nil pointer dereference" (the_session st);
  Ok (put srv (set_core s c (metrics st) (downstreamPackets s))
        (map FlowEvent (events st) ++ if ok : bool then [DevicePacket (packet st)] else [])).

(** What is queued is written to the channel, in [runClientDownstream].  When the write fails,
    after some of the bytes, the session is interrupted. *)
Definition client_downstream (now : Z) (written : option nat) (srv : server) (s : server_session) : res server :=
  q ← res_of_option "nil pointer dereference" (downstreamPackets s);
  match DequeueFramedPackets q with
  | None => NoFuel
  | Some (buffer, q) =>
      match Replace q buffer with
      | None => NoFuel
      | Some q =>
          match written with
          | None =>
              let s := touch (set_core s (core s) (session_metrics s) (Some q)) now in
              Ok (put srv s [ChannelBytes (session_index s) buffer])
          | Some n =>
              let '(s', out) := interruptSession (set_core s (core s) (session_metrics s) (Some q)) in
              Ok (put srv s' (ChannelBytes (session_index s) (take n buffer) :: out))
          end
      end
  end.

(** The steps of the server.  A packet is read from a channel only while a client is
    connected, and a buffer is written only when one is queued. *)
Inductive server_step : server -> server -> Prop :=
| StepConnected srv id cb intn randomInt now now_resume :
    is_Some (cb_Domain cb) -> (forall n, (0 < n)%nat -> (intn n < n)%nat) -> 0 <= randomInt < 2 ^ 24 ->
    server_step srv (ClientConnected srv id cb intn randomInt now now_resume).1
| StepDisconnected srv id : server_step srv (ClientDisconnected srv id)
| StepReap srv now keys : server_step srv (reap_sessions now keys srv)
| StepStop srv keys : server_step srv (Stop keys srv)
| StepOrphans srv : server_step srv (checkpoint_orphans srv)
| StepDevice srv t p srv' : device_downstream t srv p = Ok srv' -> server_step srv srv'
| StepUpstream srv index s t now p srv' :
    indexToSession srv !! index = Some s -> channel s = true -> client_upstream t now srv s p = Ok srv' -> server_step srv srv'
| StepDownstream srv index s now written srv' :
    indexToSession srv !! index = Some s -> channel s = true -> client_downstream now written srv s = Ok srv' -> server_step srv srv'.

End Server.

(** ** The invariant *)

Definition queue_idle (q : PacketQueue) : Prop :=
  (length (emptyBuffers q) + length (option_list (activeBuffer q)) = 2)%nat /\ Forall (fun b => b = []) (emptyBuffers q).

(** A session in the map under [i]. *)
Record session_at (i : Z) (s : server_session) : Prop := {
  at_index : session_index s = i;
  at_range : 2 < i < 0xFFFFFF;
  at_IPv4 : assignedIPv4Address (core s) = Subnet.To4 (convertIndexToIPv4Address i);
  at_IPv6 : assignedIPv6Address (core s) = convertIndexToIPv6Address i;
  at_core : session_ok (core s);
  at_queue : forall q, downstreamPackets s = Some q -> queue_idle q;
  at_channel : channel s = true -> is_Some (downstreamPackets s) /\ is_Some (checkAllowedDomainFunc (core s))
}.

Definition config_ok (c : ServerConfig) : Prop :=
  Forall (fun ip => Subnet.To4 ip <> []) (GetDNSResolverIPv4Addresses c) /\ Forall (fun ip => length ip = 16%nat) (GetDNSResolverIPv6Addresses c).

(** The two maps are inverse to each other. *)
Record server_ok (srv : server) : Prop := {
  sv_sessions : forall i s, indexToSession srv !! i = Some s -> session_at i s /\ sessionIDToIndex srv !! sessionID s = Some i;
  sv_ids : forall id i, sessionIDToIndex srv !! id = Some i -> exists s, indexToSession srv !! i = Some s /\ sessionID s = id;
  sv_config : config_ok (config srv)
}.

Lemma NewServer_ok c : config_ok c -> server_ok (NewServer c).
Proof. intros H. split; cbn; [| |done]; intros ? ? E; by apply lookup_empty_Some in E. Qed.

Lemma set_maps_same_ok srv out : server_ok srv -> server_ok (set_maps srv (indexToSession srv) (sessionIDToIndex srv) out).
Proof. by intros [? ? ?]. Qed.

Lemma set_orphan_ok srv m : server_ok srv -> server_ok (set_orphan srv m).
Proof. by intros [? ? ?]. Qed.

Lemma put_ok srv i s0 s out :
  server_ok srv -> indexToSession srv !! i = Some s0 -> session_at i s -> sessionID s = sessionID s0 -> server_ok (put srv s out).
Proof.
  intros [Hs Hi Hc] E0 Ha Hid. destruct (Hs i s0 E0) as [_ Hid0]. pose proof (at_index _ _ Ha) as <-. split; cbn; [| |done].
  - intros j s' [[<- <-]|[? E]]%lookup_insert_Some; [split; [done|by rewrite Hid]|by apply Hs].
  - intros id j E. destruct (decide (j = session_index s)) as [->|Hne].
    + rewrite lookup_insert_eq. destruct (Hi id _ E) as (s' & E' & <-). exists s. split; [done|]. rewrite E0 in E'. by injection E' as <-.
    + rewrite lookup_insert_ne by done. by apply Hi.
Qed.

Lemma getSession_ok srv id : server_ok srv ->
  match getSession srv id with
  | (Some s, _) => exists i, indexToSession srv !! i = Some s /\ sessionID s = id
  | (None, _) => sessionIDToIndex srv !! id = None
  end.
Proof.
  intros [Hs Hi _]. unfold getSession. destruct (sessionIDToIndex srv !! id) as [i|] eqn:E; [|done].
  destruct (Hi id i E) as (s & Es & <-). rewrite Es. by exists i.
Qed.

Lemma interruptSession_at i s : session_at i s -> session_at i (interruptSession s).1 /\ sessionID (interruptSession s).1 = sessionID s.
Proof.
  intros [H1 H2 H3 H4 [? ? ? ? ? ? ? ?] H6 H7]. unfold interruptSession. destruct (checkpoint _ _) as [[f u] m]. split; [|done].
  by split; cbn.
Qed.

Lemma resumeSession_at c i s cb now :
  is_Some (cb_Domain cb) -> session_at i s -> session_at i (resumeSession c s cb now) /\ sessionID (resumeSession c s cb now) = sessionID s.
Proof.
  intros Hcb [H1 H2 H3 H4 [? ? ? ? ? ? ? ?] H6 H7]. split; [|done]. split; cbn; try done. intros q [= <-]. split; [done|by repeat constructor].
Qed.

Lemma removeSession_ok visit srv i s now : server_ok srv -> indexToSession srv !! i = Some s -> server_ok (removeSession visit srv s now).
Proof.
  intros [Hs Hi Hc] E. destruct (Hs i s E) as [Ha Hid]. pose proof (at_index _ _ Ha) as <-. unfold removeSession.
  destruct (interruptSession s) as [s' out]. destruct (deleteFlows _ _ _) as [c ev]. split; cbn; [| |done].
  - intros j s1 [Hne E1]%lookup_delete_Some. destruct (Hs j s1 E1) as [Ha1 Hid1]. split; [done|]. apply lookup_delete_Some. split; [|done].
    intros Heq. rewrite <- Heq, Hid in Hid1. by injection Hid1.
  - intros id j [Hne E1]%lookup_delete_Some. destruct (Hi id j E1) as (s1 & Es1 & <-). exists s1. split; [|done]. apply lookup_delete_Some. split; [|done].
    intros Heq. rewrite Heq, Es1 in E. by injection E as ->.
Qed.

Lemma removeSession_ids visit srv s now id : sessionIDToIndex srv !! id = None -> sessionIDToIndex (removeSession visit srv s now) !! id = None.
Proof.
  intros H. unfold removeSession. destruct (interruptSession s) as [s' out]. destruct (deleteFlows _ _ _) as [c ev]. cbn. apply lookup_delete_None. by right.
Qed.

Lemma removeSession_config visit srv s now : config (removeSession visit srv s now) = config srv.
Proof. unfold removeSession. destruct (interruptSession s) as [s' out]. by destruct (deleteFlows _ _ _). Qed.

(** A session before it is allocated. *)
Record session_new (s : server_session) : Prop := {
  sn_resolvers4 : Forall (fun ip => length ip = 4%nat) (DNSResolverIPv4Addresses (core s));
  sn_resolvers6 : Forall (fun ip => length ip = 16%nat) (DNSResolverIPv6Addresses (core s));
  sn_index4 : DNSResolverIPv4Addresses (core s) <> [] -> (TCPDNSResolverIPv4Index (core s) < length (DNSResolverIPv4Addresses (core s)))%nat;
  sn_index6 : DNSResolverIPv6Addresses (core s) <> [] -> (TCPDNSResolverIPv6Index (core s) < length (DNSResolverIPv6Addresses (core s)))%nat;
  sn_original4 : originalIPv4Address (core s) = None;
  sn_original6 : originalIPv6Address (core s) = None;
  sn_queue : downstreamPackets s = None;
  sn_channel : channel s = false
}.

Lemma new_session_new c id intn now : config_ok c -> (forall n, (0 < n)%nat -> (intn n < n)%nat) -> session_new (new_session c id intn now).
Proof.
  intros [H4 H6] Hi. assert (forall l : list bytes, l <> [] -> (0 < length l)%nat) as Hl by (intros [|]; cbn; [done|lia]).
  split; cbn; try done.
  - apply Forall_forall. intros ip (x & -> & Hx)%list_elem_of_fmap. rewrite Forall_forall in H4. by apply Subnet.To4_cases, H4.
  - intros Hn%Hl. destruct (length (map _ _)) as [|n]; [lia|]. apply Hi. lia.
  - intros Hn%Hl. destruct (length (GetDNSResolverIPv6Addresses c)) as [|n]; [lia|]. apply Hi. lia.
Qed.

Lemma allocated_at index s ss :
  2 < index < 0xFFFFFF -> session_new s ->
  ss = {| core := set_assigned (core s) (Subnet.To4 (convertIndexToIPv4Address index)) (convertIndexToIPv6Address index); sessionID := sessionID s;
          session_index := index; lastActivity := lastActivity s; session_metrics := session_metrics s; metricsUpdater := metricsUpdater s;
          downstreamPackets := downstreamPackets s; channel := channel s |} -> session_at index ss.
Proof.
  intros Hi [H1 H2 H3 H4 H5 H6 H7 H8] ->. destruct (convert_lengths index) as [L4 L6]. split; cbn; try done.
  - split; cbn; try done; intros ip; [by rewrite H5|by rewrite H6].
  - intros q. by rewrite H7.
  - by rewrite H8.
Qed.

Lemma insert_ok srv index s out :
  server_ok srv -> indexToSession srv !! index = None -> sessionIDToIndex srv !! sessionID s = None -> session_at index s ->
  server_ok (set_maps srv (<[index := s]> (indexToSession srv)) (<[sessionID s := index]> (sessionIDToIndex srv)) out).
Proof.
  intros [Hs Hi Hc] En Eid Ha. split; cbn; [| |done].
  - intros j s' [[<- <-]|[Hne E]]%lookup_insert_Some; [split; [done|apply lookup_insert_eq]|].
    destruct (Hs j s' E) as [Ha' Hid']. split; [done|]. rewrite lookup_insert_ne; [done|]. intros Heq. by rewrite Heq, Hid' in Eid.
  - intros id j [[<- <-]|[Hne E]]%lookup_insert_Some; [exists s; split; [apply lookup_insert_eq|done]|].
    destruct (Hi id j E) as (s' & Es' & Hid'). exists s'. split; [|done]. rewrite lookup_insert_ne; [done|]. intros ->. by rewrite En in Es'.
Qed.

Lemma allocate_ok visit now tries : forall index srv s srv' r,
  0 <= index <= 0xFFFFFF -> server_ok srv -> session_new s -> sessionIDToIndex srv !! sessionID s = None ->
  allocate visit now tries index srv s = (srv', r) ->
  server_ok srv' /\ config srv' = config srv /\
  forall s', r = Some s' -> indexToSession srv' !! session_index s' = Some s' /\ sessionID s' = sessionID s.
Proof.
  induction tries as [|tries IH]; intros index srv s srv' r Hr Hok Hn Hid E; cbn [allocate] in E.
  { injection E as <- <-. done. }
  destruct (Z.leb_spec index 2); [apply IH in E; [done|lia|done|done|done]|]. destruct (Z.eqb_spec index 0xFFFFFF); [apply IH in E; [done|lia|done|done|done]|].
  destruct (_ || _); [apply IH in E; [done|lia|by apply set_maps_same_ok|done|done]|].
  destruct (indexToSession srv !! index) as [old|] eqn:Eo.
  - destruct (session_expired _ _ _); [|apply IH in E; [done|lia|done|done|done]].
    apply IH in E; [by rewrite removeSession_config in E|lia|by eapply removeSession_ok|done|by apply removeSession_ids].
  - injection E as <- <-. split; [|split; [done|]].
    + match goal with |- context [<[index := ?x]> (indexToSession srv)] => apply (insert_ok srv index x) end; [done|done|done|].
      apply (allocated_at index s); [lia|done|done].
    + intros s' [= <-]. cbn. by rewrite lookup_insert_eq.
Qed.

Lemma land_24 z : 0 <= Z.land z 0x00FFFFFF <= 0xFFFFFF.
Proof. pose proof (land_bound z 0xFFFFFF 24). lia. Qed.

Lemma allocateIndex_ok visit now randomInt srv s srv' r :
  server_ok srv -> session_new s -> sessionIDToIndex srv !! sessionID s = None ->
  allocateIndex visit now randomInt srv s = (srv', r) ->
  server_ok srv' /\ config srv' = config srv /\
  forall s', r = Some s' -> indexToSession srv' !! session_index s' = Some s' /\ sessionID s' = sessionID s.
Proof. unfold allocateIndex. generalize allocate_tries. intros tries Hok Hn Hid E. eapply allocate_ok; [apply land_24|done..|exact E]. Qed.

Lemma ClientConnected_ok visit srv id cb intn randomInt now now_resume :
  server_ok srv -> is_Some (cb_Domain cb) -> (forall n, (0 < n)%nat -> (intn n < n)%nat) ->
  server_ok (ClientConnected visit srv id cb intn randomInt now now_resume).1.
Proof.
  intros Hok Hcb Hn. unfold ClientConnected. destruct (stopping srv); [done|]. pose proof (getSession_ok srv id Hok) as Hg.
  destruct (getSession srv id) as [[s|] warning].
  - destruct Hg as (i & E & _).
    destruct (interruptSession_at i s (proj1 (sv_sessions _ Hok i s E))) as [Ha Hid]. destruct (interruptSession s) as [s1 out]. cbn in Ha, Hid.
    assert (server_ok (put srv s1 (warning ++ out))) as Hok1 by (by eapply put_ok).
    destruct (resumeSession_at (config srv) i s1 cb now_resume Hcb Ha) as [Har Hidr]. cbn [fst]. eapply put_ok; [done| |exact Har|done].
    cbn. rewrite <- (at_index _ _ Ha). apply lookup_insert_eq.
  - set (srv0 := set_maps srv _ _ _). assert (server_ok srv0) as Hok0 by (by apply set_maps_same_ok).
    set (s0 := new_session _ _ _ _). assert (session_new s0) as Hn0 by (apply new_session_new; [apply (sv_config _ Hok0)|done]).
    assert (sessionIDToIndex srv0 !! sessionID s0 = None) as Hid0 by exact Hg. clearbody s0 srv0.
    destruct (allocateIndex visit now randomInt srv0 s0) as [srv1 r] eqn:E. destruct (allocateIndex_ok _ _ _ _ _ _ _ Hok0 Hn0 Hid0 E) as (Hok1 & _ & Hs1).
    destruct r as [s|]; [|done]. destruct (Hs1 s eq_refl) as [El _]. destruct (sv_sessions _ Hok1 _ _ El) as [Ha _].
    destruct (resumeSession_at (config srv1) _ s cb now_resume Hcb Ha) as [Har Hidr]. cbn [fst]. by eapply put_ok.
Qed.

Lemma ClientDisconnected_ok srv id : server_ok srv -> server_ok (ClientDisconnected srv id).
Proof.
  intros Hok. unfold ClientDisconnected. pose proof (getSession_ok srv id Hok) as Hg. destruct (getSession srv id) as [[s|] warning]; [|by apply set_maps_same_ok].
  destruct Hg as (i & E & _). destruct (interruptSession_at i s (proj1 (sv_sessions _ Hok i s E))) as [Ha Hid]. destruct (interruptSession s) as [s1 out].
  by eapply put_ok.
Qed.

Lemma reap_sessions_ok visit now keys : forall srv, server_ok srv -> server_ok (reap_sessions visit now keys srv).
Proof.
  induction keys as [|k keys IH]; intros srv Hok; [done|]. unfold reap_sessions. cbn [foldl]. apply IH. destruct (indexToSession srv !! k) as [s|] eqn:E; [|done].
  destruct (session_expired _ _ _); [|done]. by eapply removeSession_ok.
Qed.

Lemma Stop_ok keys srv : server_ok srv -> server_ok (Stop keys srv).
Proof.
  intros Hok. unfold Stop. set (srv0 := {| config := config srv |}). assert (server_ok srv0) as Hok0 by (by destruct Hok). clearbody srv0. clear Hok.
  revert srv0 Hok0. induction keys as [|k keys IH]; intros srv0 Hok; [done|]. cbn [foldl]. apply IH. destruct (indexToSession srv0 !! k) as [s|] eqn:E; [|done].
  destruct (interruptSession_at k s (proj1 (sv_sessions _ Hok k s E))) as [Ha Hid]. destruct (interruptSession s) as [s1 out]. cbn in Ha, Hid. by eapply put_ok.
Qed.

Lemma checkpoint_orphans_ok srv : server_ok srv -> server_ok (checkpoint_orphans srv).
Proof. intros [? ? ?]. unfold checkpoint_orphans. by destruct (checkpoint _ _) as [[f u] m]. Qed.

(** ** Packets *)

Lemma parse_with_destination p v b po src dst n ck h : parse_with p v b po src dst n ck = Ok (inr h) -> destination h = dst /\ ip_length h = n.
Proof.
  unfold parse_with. intros E. apply res_bind_ok in E as (proto & _ & E). apply res_bind_ok in E as ([r|o] & _ & E); [done|].
  do 6 (apply res_bind_ok in E as (? & _ & E)). by injection E as <-.
Qed.

Lemma getPacketDestination_ok m d p : exists r m',
  getPacketDestinationIPAddress m d p = Ok (r, m') /\ (forall ip, r = Some ip -> (3 <= length ip)%nat) /\
  (forall h, parse_packet p = Ok (inr h) -> r = Some (destination_of h p)).
Proof.
  unfold getPacketDestinationIPAddress, parse_packet. destruct (Nat.ltb_spec (length p) 1) as [|Hl]; [by eexists _, _|].
  destruct (index_ok p 0) as (b0 & -> & _); [lia|]. cbn [mbind res_mbind].
  destruct (Z.eqb_spec (Z.shiftr b0 4) 4) as [->|]; cbn [negb andb]; [|destruct (Z.eqb_spec (Z.shiftr b0 4) 6) as [->|]; cbn [negb andb]; [|by eexists _, _]].
  - destruct (Nat.ltb_spec (length p) 20) as [|H20].
    { eexists _, _. split_and!; [done|done|]. by destruct (negb _). }
    rewrite subslice_ok by lia. cbn [mbind res_mbind]. eexists _, _. split_and!; [done| |].
    + intros ip [= <-]. rewrite slice_length; lia.
    + intros h. destruct (negb _); [done|]. intros E. apply parse_with_destination in E as [Hd Hi]. unfold destination_of. by rewrite Hd, Hi.
  - destruct (Nat.ltb_spec (length p) 40) as [|H40]; [by eexists _, _|].
    rewrite subslice_ok by lia. cbn [mbind res_mbind]. eexists _, _. split_and!; [done| |].
    + intros ip [= <-]. rewrite slice_length; lia.
    + intros h E. apply parse_with_destination in E as [Hd Hi]. unfold destination_of. by rewrite Hd, Hi.
Qed.

Lemma convert_total ip : (3 <= length ip)%nat -> exists index, convertIPAddressToIndex ip = Ok index.
Proof. intros H. unfold convertIPAddressToIndex. replace (length ip <? 3)%nat with false by (symmetry; apply Nat.ltb_ge; lia). by eexists. Qed.

Lemma set_core_at i s c m q :
  session_at i s -> session_ok c -> evolved (core s) c -> (forall q', q = Some q' -> queue_idle q') -> (channel s = true -> is_Some q) ->
  session_at i (set_core s c m q).
Proof.
  intros [H1 H2 H3 H4 H5 H6 H7] Hc (o4 & o6 & j & mm & ->) Hq Hch. split; cbn; try done. intros Hs. split; [by apply Hch|]. by destruct (H7 Hs).
Qed.

Lemma touch_at i s now : session_at i s -> session_at i (touch s now).
Proof. by intros []. Qed.

(** Nothing blocks on an idle queue, and a packet is appended when it fits. *)
Lemma Enqueue_idle q p : queue_idle q -> exists q', Enqueue q p = Some q' /\ queue_idle q' /\
  activeBuffer q' = Some (fill q (default [] (activeBuffer q)) p) /\ maxSize q' = maxSize q.
Proof.
  intros [Hl Hf]. unfold Enqueue, enqueue_take. destruct q as [size empties [b|]]; cbn in *; [by eexists|].
  destruct empties as [|b empties]; [done|]. apply Forall_cons in Hf as [-> Hf]. cbn. eexists. split_and!; [done| |done|done]. split; cbn in *; [lia|done].
Qed.

Section Steps.
Context (ParseDNSQuestion : bytes -> res string) (IsBogon : bytes -> bool) (rand_Intn : nat -> nat) (visit : flow_visit).
Hypothesis (Hlib : libraries_ok ParseDNSQuestion rand_Intn).

Abbreviation process := (process_for ParseDNSQuestion IsBogon rand_Intn visit).

Lemma process_upstream t s p : session_ok (core s) -> is_Some (checkAllowedDomainFunc (core s)) -> exists b st c,
  process t packetDirectionServerUpstream s p = Ok (b, st) /\ the_session st = Some c /\ session_ok c /\ evolved (core s) c /\
  (b = true -> exists h rd, upstream_done IsBogon t (core s) p c (packet st) h rd).
Proof.
  intros Hs Hd. destruct Hlib as [HD HR].
  destruct (upstream_run _ ParseDNSQuestion IsBogon rand_Intn visit t HD HR None
    {| metrics := session_metrics s; the_session := Some (core s); packet := p; events := [] |} (core s) eq_refl Hs (flows_ok_any _) Hd)
    as (b & st & E & c & Ec & Hc & [_ He] & Hb). exists b, st, c. split_and!; [done..|]. by intros ->.
Qed.

Lemma process_downstream t s p : session_ok (core s) -> exists b st c,
  process t packetDirectionServerDownstream s p = Ok (b, st) /\ the_session st = Some c /\ session_ok c /\ evolved (core s) c /\
  (b = true -> exists h ip, downstream_done IsBogon t (core s) p c (packet st) h ip).
Proof.
  intros Hs. destruct (downstream_run _ ParseDNSQuestion IsBogon rand_Intn visit t None
    {| metrics := session_metrics s; the_session := Some (core s); packet := p; events := [] |} (core s) eq_refl Hs (flows_ok_any _))
    as (b & st & E & c & Ec & Hc & [_ He] & Hb & _). exists b, st, c. split_and!; [done..|]. by intros ->.
Qed.

(** The index of the session that a packet from the device is for. *)
Definition routed_to (p : bytes) : option Z :=
  match getPacketDestinationIPAddress newPacketMetrics packetDirectionServerDownstream p with
  | Ok (Some ip, _) => match convertIPAddressToIndex ip with Ok index => Some index | _ => None end
  | _ => None
  end.

Lemma destination_metrics m1 m2 d p r m' :
  getPacketDestinationIPAddress m1 d p = Ok (r, m') -> exists m'', getPacketDestinationIPAddress m2 d p = Ok (r, m'').
Proof.
  unfold getPacketDestinationIPAddress. destruct (_ <? _)%nat; [intros [= <- <-]; eauto|]. destruct (index p 0); try done. cbn [mbind res_mbind].
  destruct (_ && _); [intros [= <- <-]; eauto|]. destruct (_ =? 4); (destruct (_ <? _)%nat; [intros [= <- <-]; eauto|]);
    destruct (subslice _ _ _); try done; intros [= <- <-]; eauto.
Qed.

Lemma put_other srv s out j : j <> session_index s -> indexToSession (put srv s out) !! j = indexToSession srv !! j.
Proof. intros H. cbn. by rewrite lookup_insert_ne. Qed.

Lemma device_downstream_ok t srv p : server_ok srv -> exists srv',
  device_downstream ParseDNSQuestion IsBogon rand_Intn visit t srv p = Ok srv' /\ server_ok srv' /\
  (forall j, routed_to p <> Some j -> indexToSession srv' !! j = indexToSession srv !! j) /\
  (forall i s q, routed_to p = Some i -> indexToSession srv !! i = Some s -> downstreamPackets s = Some q -> exists b st c q',
     process t packetDirectionServerDownstream s p = Ok (b, st) /\ the_session st = Some c /\
     indexToSession srv' !! i = Some (set_core s c (metrics st) (Some q')) /\ (if b then Enqueue q (packet st) = Some q' else q' = q)).
Proof.
  intros Hok. unfold device_downstream, routed_to. destruct (getPacketDestination_ok (orphanMetrics srv) packetDirectionServerDownstream p) as (r & m & E & Hlen & _).
  rewrite E. destruct (destination_metrics _ newPacketMetrics _ _ _ _ E) as [m2 ->]. cbn [mbind res_mbind].
  destruct r as [ip|]; [|eexists; split_and!; [done|by apply set_orphan_ok|done|done]].
  destruct (convert_total ip (Hlen ip eq_refl)) as [i ->]. cbn [mbind res_mbind indexToSession set_orphan].
  destruct (indexToSession srv !! i) as [s|] eqn:Es.
  2: { eexists. split_and!; [done|by do 2 apply set_orphan_ok|done|]. intros i' s q [= <-] Hs. by rewrite Es in Hs. }
  destruct (downstreamPackets s) as [q|] eqn:Eq.
  2: { eexists. split_and!; [done|by do 2 apply set_orphan_ok|done|]. intros i' s' q [= <-] Hs Hq. rewrite Es in Hs. injection Hs as <-. by rewrite Eq in Hq. }
  destruct (sv_sessions _ Hok i s Es) as [Ha _]. destruct (process_downstream t s p (at_core _ _ Ha)) as (b & st & c & Ep & Ec & Hc & He & _).
  rewrite Ep. cbn [mbind res_mbind]. rewrite Ec. cbn [res_of_option mbind res_mbind].
  assert (exists q', (if b then Enqueue q (packet st) else Some q) = Some q' /\ queue_idle q') as (q' & Hq' & Hidle).
  { destruct b; [destruct (Enqueue_idle q (packet st) (at_queue _ _ Ha q Eq)) as (q' & ? & ? & _); eauto|]. exists q. split; [done|by apply (at_queue _ _ Ha)]. }
  rewrite Hq'. pose proof (at_index _ _ Ha) as Hi.
  assert (session_at i (set_core s c (metrics st) (Some q'))) as Ha' by (apply set_core_at; [done|done|done|by intros ? [= <-]|done]).
  eexists. split_and!; [done| | |].
  - eapply put_ok; [by apply set_orphan_ok|exact Es|exact Ha'|done].
  - intros j Hj. rewrite put_other; [done|]. cbn. intros ->. by rewrite Hi in Hj.
  - intros i' s' q0 [= <-] Hs' Hq0. rewrite Es in Hs'. injection Hs' as <-. rewrite Eq in Hq0. injection Hq0 as <-.
    exists b, st, c, q'. split_and!; [done|done| |by destruct b; [|injection Hq']]. cbn. by rewrite Hi, lookup_insert_eq.
Qed.

Lemma client_upstream_ok t now srv i s p : server_ok srv -> indexToSession srv !! i = Some s -> channel s = true -> exists srv' b st c,
  client_upstream ParseDNSQuestion IsBogon rand_Intn visit t now srv s p = Ok srv' /\ server_ok srv' /\
  process t packetDirectionServerUpstream s p = Ok (b, st) /\ the_session st = Some c /\
  (b = true -> exists h rd, upstream_done IsBogon t (core s) p c (packet st) h rd) /\
  indexToSession srv' = <[i := set_core (touch s now) c (metrics st) (downstreamPackets s)]> (indexToSession srv) /\
  outputs srv' = outputs srv ++ map FlowEvent (events st) ++ (if b then [DevicePacket (packet st)] else []).
Proof.
  intros Hok Es Hch. destruct (sv_sessions _ Hok i s Es) as [Ha _]. destruct (at_channel _ _ Ha Hch) as [[q Hq] Hdom].
  destruct (process_upstream t s p (at_core _ _ Ha) Hdom) as (b & st & c & Ep & Ec & Hc & He & Hb). unfold client_upstream.
  change (process_for ParseDNSQuestion IsBogon rand_Intn visit t packetDirectionServerUpstream (touch s now) p) with (process t packetDirectionServerUpstream s p).
  rewrite Ep. cbn [mbind res_mbind]. rewrite Ec. cbn [res_of_option mbind res_mbind].
  assert (session_at i (set_core (touch s now) c (metrics st) (downstreamPackets s))) as Ha'.
  { apply set_core_at; [by apply touch_at|done|done|apply (at_queue _ _ Ha)|by rewrite Hq]. }
  eexists _, b, st, c. split_and!; [done| |done|done|done| |done].
  - eapply put_ok; [done|exact Es|exact Ha'|done].
  - cbn. by rewrite (at_index _ _ Ha).
Qed.

Lemma client_downstream_ok now written srv i s : server_ok srv -> indexToSession srv !! i = Some s -> channel s = true ->
  (exists q b, downstreamPackets s = Some q /\ activeBuffer q = Some b) -> exists srv' q b,
  client_downstream now written srv s = Ok srv' /\ server_ok srv' /\ downstreamPackets s = Some q /\ activeBuffer q = Some b /\
  (forall j, j <> i -> indexToSession srv' !! j = indexToSession srv !! j).
Proof.
  intros Hok Es Hch (q & b & Eq & Eb). destruct (sv_sessions _ Hok i s Es) as [Ha _]. unfold client_downstream. rewrite Eq. cbn [res_of_option mbind res_mbind].
  unfold DequeueFramedPackets. rewrite Eb. cbn [mbind option_bind]. destruct (at_queue _ _ Ha q Eq) as [Hl Hf]. rewrite Eb in Hl. cbn in Hl.
  unfold Replace. cbn [emptyBuffers]. replace (length (emptyBuffers q) <? 2)%nat with true by (symmetry; apply Nat.ltb_lt; lia).
  set (q' := {| maxSize := _; emptyBuffers := emptyBuffers q ++ [take 0 b]; activeBuffer := _ |}).
  assert (session_at i (set_core s (core s) (session_metrics s) (Some q'))) as Ha'.
  { apply set_core_at; [done|apply (at_core _ _ Ha)|apply evolved_refl| |done]. intros ? [= <-]. split; cbn; [rewrite length_app; cbn; lia|].
    apply Forall_app_2; [done|by repeat constructor]. }
  destruct written as [n|].
  - destruct (interruptSession_at i _ Ha') as [Hi Hid]. destruct (interruptSession _) as [s' out]. cbn in Hi, Hid. eexists _, q, b. split_and!; [done| |done|done|].
    + eapply put_ok; [done|exact Es|exact Hi|done].
    + intros j Hj. rewrite put_other; [done|]. by rewrite (at_index _ _ Hi).
  - eexists _, q, b. split_and!; [done| |done|done|].
    + eapply put_ok; [done|exact Es|by apply touch_at|done].
    + intros j Hj. rewrite put_other; [done|]. cbn. by rewrite (at_index _ _ Ha).
Qed.

Lemma server_step_ok srv srv' : server_ok srv -> server_step ParseDNSQuestion IsBogon rand_Intn visit srv srv' -> server_ok srv'.
Proof.
  intros Hok. destruct 1 as [srv id cb intn r now now' Hcb Hi Hr|srv id|srv now keys|srv keys|srv|srv t p srv' E|srv i s t now p srv' Es Hch E|srv i s now w srv' Es Hch E].
  - by apply ClientConnected_ok.
  - by apply ClientDisconnected_ok.
  - by apply reap_sessions_ok.
  - by apply Stop_ok.
  - by apply checkpoint_orphans_ok.
  - destruct (device_downstream_ok t srv p Hok) as (srv1 & E1 & H1 & _). rewrite E in E1. by injection E1 as <-.
  - destruct (client_upstream_ok t now srv i s p Hok Es Hch) as (srv1 & b & st & c & E1 & H1 & _). rewrite E in E1. by injection E1 as <-.
  - destruct (sv_sessions _ Hok i s Es) as [Ha _]. destruct (at_channel _ _ Ha Hch) as [[q Hq] _]. destruct (activeBuffer q) as [b|] eqn:Eb.
    + destruct (client_downstream_ok now w srv i s Hok Es Hch) as (srv1 & q1 & b1 & E1 & H1 & _); [by exists q, b|]. rewrite E in E1. by injection E1 as <-.
    + unfold client_downstream in E. rewrite Hq in E. cbn [res_of_option mbind res_mbind] in E. unfold DequeueFramedPackets in E. by rewrite Eb in E.
Qed.

Lemma server_reachable_ok c srv : config_ok c -> rtc (server_step ParseDNSQuestion IsBogon rand_Intn visit) (NewServer c) srv -> server_ok srv.
Proof.
  intros Hc H. apply (rtc_ind_r (R := server_step ParseDNSQuestion IsBogon rand_Intn visit) server_ok (NewServer c)); [by apply NewServer_ok| |done].
  intros s1 s2 _ Hs H1. by apply (server_step_ok s1).
Qed.

Lemma assigned_index i s h : session_at i s -> convertIPAddressToIndex (assigned (core s) h) = Ok i.
Proof.
  intros [_ Hr H4 H6 _ _ _]. destruct (convert_roundtrip i) as [E4 E6]; [lia|]. unfold assigned. rewrite H4, H6. by destruct (version h =? 4).
Qed.

(** A packet to the address of a session is routed to it. *)
Lemma routed_to_assigned i s p h :
  session_at i s -> parse_packet p = Ok (inr h) -> destination_of h p = assigned (core s) h -> routed_to p = Some i.
Proof.
  intros Ha Eh Hd. unfold routed_to.
  destruct (getPacketDestination_ok newPacketMetrics packetDirectionServerDownstream p) as (r & m & -> & _ & Hh). rewrite (Hh h Eh), Hd.
  by rewrite (assigned_index i s h Ha).
Qed.

(** The addresses that no client gets: of the network, the server, the transparent resolver,
    and for broadcasts. *)
Definition reserved : list bytes := [[x0a; x00; x00; x00]; [x0a; x00; x00; x01]; transparentDNSResolverIPv4Address; [x0a; xff; xff; xff]].

Lemma assigned_not_reserved i s : session_at i s -> (assignedIPv4Address (core s) ∉ reserved) /\ assignedIPv6Address (core s) <> transparentDNSResolverIPv6Address.
Proof.
  intros [_ Hr H4 H6 _ _ _]. destruct (convert_roundtrip i) as [E4 E6]; [lia|]. rewrite <- H4 in E4. rewrite <- H6 in E6. split.
  - intros Hin. unfold reserved in Hin. rewrite !elem_of_cons in Hin. destruct Hin as [H|[H|[H|[H|H]]]]; [..|by apply not_elem_of_nil in H];
      rewrite H in E4; vm_compute in E4; injection E4 as E4; lia.
  - intros H. rewrite H in E6. vm_compute in E6. injection E6 as E6. lia.
Qed.

(** C23: clients are isolated.  Whatever the sequence of connections, disconnections, reaping
    and packets, the sessions have distinct identifiers and addresses, none of them reserved,
    however addresses are recycled; a packet from the device is handled without a panic and
    without blocking, and one that is addressed to a client changes the session of no other;
    and a packet that a client sends leaves with the address assigned to the client as its
    source. *)
Theorem sessions_isolated c srv :
  config_ok c -> rtc (server_step ParseDNSQuestion IsBogon rand_Intn visit) (NewServer c) srv ->
  (forall i s, indexToSession srv !! i = Some s ->
     (assignedIPv4Address (core s) ∉ reserved) /\ assignedIPv6Address (core s) <> transparentDNSResolverIPv6Address) /\
  (forall i s j r, indexToSession srv !! i = Some s -> indexToSession srv !! j = Some r -> i <> j ->
     sessionID s <> sessionID r /\ assignedIPv4Address (core s) <> assignedIPv4Address (core r) /\
     assignedIPv6Address (core s) <> assignedIPv6Address (core r)) /\
  (forall t p, exists srv', device_downstream ParseDNSQuestion IsBogon rand_Intn visit t srv p = Ok srv' /\
     forall i s h j, indexToSession srv !! i = Some s -> parse_packet p = Ok (inr h) -> destination_of h p = assigned (core s) h -> j <> i ->
       indexToSession srv' !! j = indexToSession srv !! j) /\
  (forall t now i s p, indexToSession srv !! i = Some s -> channel s = true -> exists srv' out,
     client_upstream ParseDNSQuestion IsBogon rand_Intn visit t now srv s p = Ok srv' /\ outputs srv' = outputs srv ++ out /\
     (forall j, j <> i -> indexToSession srv' !! j = indexToSession srv !! j) /\
     forall p', DevicePacket p' ∈ out -> exists h, parse_packet p = Ok (inr h) /\ source_of h p' = assigned (core s) h).
Proof.
  intros Hc Hr. pose proof (server_reachable_ok c srv Hc Hr) as Hok. split_and!.
  - intros i s E. by apply (assigned_not_reserved i), (sv_sessions _ Hok).
  - intros i s j r Ei Ej Hne. destruct (sv_sessions _ Hok i s Ei) as [Hi Hidi]. destruct (sv_sessions _ Hok j r Ej) as [Hj Hidj].
    destruct (convert_roundtrip i) as [I4 I6]; [pose proof (at_range _ _ Hi); lia|]. destruct (convert_roundtrip j) as [J4 J6]; [pose proof (at_range _ _ Hj); lia|].
    rewrite (at_IPv4 _ _ Hi), (at_IPv6 _ _ Hi), (at_IPv4 _ _ Hj), (at_IPv6 _ _ Hj). split_and!; intros E.
    + rewrite E, Hidj in Hidi. by injection Hidi.
    + rewrite E, J4 in I4. by injection I4.
    + rewrite E, J6 in I6. by injection I6.
  - intros t p. destruct (device_downstream_ok t srv p Hok) as (srv' & E & _ & Ho & _). exists srv'. split; [done|].
    intros i s h j Es Eh Hd Hne. apply Ho. rewrite (routed_to_assigned i s p h); [congruence|by apply (sv_sessions _ Hok)|done|done].
  - intros t now i s p Es Hch. destruct (client_upstream_ok t now srv i s p Hok Es Hch) as (srv' & b & st & cc & E & _ & _ & _ & Hb & Hm & Hout).
    eexists srv', _. split_and!; [done|exact Hout|intros j Hj; by rewrite Hm, lookup_insert_ne|].
    intros p' [Hin|Hin]%elem_of_app.
    { apply list_elem_of_fmap in Hin as (e & He & _). done. }
    destruct b; [|by apply not_elem_of_nil in Hin]. apply list_elem_of_singleton in Hin. injection Hin as ->. destruct (Hb eq_refl) as (h & rd & Hd).
    exists h. destruct Hd as [Eh Hl _ _ [_ Hs _ _ _ _] _ _]. split; [done|]. unfold source_of. rewrite Hs. unfold rewritten.
    destruct (sv_sessions _ Hok i s Es) as [Ha _]. pose proof (assigned_length (core s) h _ (at_core _ _ Ha) Hl) as Has.
    rewrite bool_decide_eq_false_2; [done|]. intros E0. rewrite E0 in Has. destruct (ly_length _ _ Hl) as (k & Hk & ?). cbn in Has. lia.
Qed.

(** A client gets the answers to what it sends.  When a packet of a connected client has
    gone out to the device, and an answer to it comes back in time, with any steps of other
    clients in between, the server routes it to the session of that client, relays it and
    queues it, if there is room, addressed to where the client's packets come from and from
    where the client sent its packet to; no other session changes. *)
Theorem server_roundtrip c srv i s t1 now p srv1 out p' h srv2 t2 q g :
  config_ok c -> rtc (server_step ParseDNSQuestion IsBogon rand_Intn visit) (NewServer c) srv ->
  indexToSession srv !! i = Some s -> channel s = true ->
  client_upstream ParseDNSQuestion IsBogon rand_Intn visit t1 now srv s p = Ok srv1 -> outputs srv1 = outputs srv ++ out ++ [DevicePacket p'] ->
  rtc (server_step ParseDNSQuestion IsBogon rand_Intn visit) srv1 srv2 -> indexToSession srv2 !! i = indexToSession srv1 !! i ->
  parse_packet p = Ok (inr h) -> parse_packet q = Ok (inr g) -> answers h p' g q -> now_track t2 - now_update t1 <= FLOW_IDLE_EXPIRY ->
  (dns_upstream h (destination_of h p) = false -> dns_downstream (core s) g (source_of g q) = false) ->
  exists srv3 s3 queue queue3 r,
    device_downstream ParseDNSQuestion IsBogon rand_Intn visit t2 srv2 q = Ok srv3 /\ indexToSession srv3 !! i = Some s3 /\
    downstreamPackets s = Some queue /\ downstreamPackets s3 = Some queue3 /\
    activeBuffer queue3 = Some (fill queue (default [] (activeBuffer queue)) r) /\
    destination_of g r = default (source_of h p) (original (core s) h) /\ source_of g r = destination_of h p /\
    (forall j, j <> i -> indexToSession srv3 !! j = indexToSession srv2 !! j).
Proof.
  intros Hc Hr Es Hch Hup Hout Hr2 Hsame Eh Eg Han Htime Hlim. pose proof (server_reachable_ok c srv Hc Hr) as Hok.
  destruct (client_upstream_ok t1 now srv i s p Hok Es Hch) as (srv1' & b & st & cc & E & Hok1 & _ & Ec & Hb & Hm & Hout').
  rewrite Hup in E. injection E as <-. destruct (sv_sessions _ Hok i s Es) as [Ha _]. destruct (at_channel _ _ Ha Hch) as [[queue Hq] _].
  rewrite Hout in Hout'. apply app_inv_head in Hout'. destruct b.
  2: { rewrite app_nil_r in Hout'. assert (DevicePacket p' ∈ map FlowEvent (events st)) as (e & He & _)%list_elem_of_fmap; [|done].
       rewrite <- Hout'. apply elem_of_app. right. by apply list_elem_of_singleton. }
  apply app_inj_tail in Hout' as [_ [= ->]]. destruct (Hb eq_refl) as (h' & rd & Hd). pose proof (up_parsed _ _ _ _ _ _ _ _ Hd) as Eh'.
  rewrite Eh in Eh'. injection Eh' as <-.
  assert (server_ok srv2) as Hok2.
  { apply (server_reachable_ok c); [done|]. etrans; [exact Hr|]. eapply rtc_l; [by eapply StepUpstream|done]. }
  set (s1 := set_core (touch s now) cc (metrics st) (downstreamPackets s)) in *. assert (indexToSession srv2 !! i = Some s1) as Es2.
  { rewrite Hsame, Hm. apply lookup_insert_eq. }
  destruct (sv_sessions _ Hok2 i s1 Es2) as [Ha1 _].
  assert (destination_of g q = assigned (core s1) g) as Hdest.
  { rewrite (an_destination _ _ _ _ Han). destruct Hd as [_ Hl _ _ [_ Hs _ _ _ _] (j & mm & Hcc) _]. unfold source_of. rewrite Hs.
    unfold rewritten, assigned. rewrite (an_version _ _ _ _ Han), (at_IPv4 _ _ Ha), (at_IPv6 _ _ Ha), (at_IPv4 _ _ Ha1), (at_IPv6 _ _ Ha1).
    destruct (convert_lengths i) as [L4 L6]. rewrite bool_decide_eq_false_2; [done|]. destruct (version h =? 4); intros E0; [rewrite E0 in L4|rewrite E0 in L6]; done. }
  destruct (device_downstream_ok t2 srv2 q Hok2) as (srv3 & E3 & _ & Ho & Hi).
  pose proof (routed_to_assigned i s1 q g Ha1 Eg Hdest) as Hroute.
  destruct (Hi i s1 queue Hroute Es2 Hq) as (b3 & st3 & c3 & q3 & Ep & Ec3 & E3s & Hq3).
  destruct (answer_relayed ParseDNSQuestion IsBogon rand_Intn visit t1 t2 (core s) p cc (packet st) h rd g
    {| metrics := session_metrics s1; the_session := Some cc; packet := q; events := [] |} (at_core _ _ Ha) (at_core _ _ Ha1) Hd eq_refl Eg Han Htime Hlim)
    as (st3' & Ep' & Hdst & Hsrc).
  unfold process_for in Ep. cbn [core set_core s1] in Ep. rewrite Ep' in Ep. injection Ep as <- <-.
  destruct (Enqueue_idle queue (packet st3') (at_queue _ _ Ha queue Hq)) as (q4 & Eq4 & _ & Hact & _). rewrite Eq4 in Hq3. injection Hq3 as <-.
  exists srv3, (set_core s1 c3 (metrics st3') (Some q4)), queue, q4, (packet st3'). split_and!; try done.
  intros j Hj. apply Ho. congruence.
Qed.

End Steps.

(** ** Examples *)

(** The largest MTU does not fit into the header of a frame: a packet of that size is read
    back as an empty one, and its bytes as further frames. *)
Lemma mtu_exceeds_header p : length p = Z.to_nat (getMTU 65536) -> ReadPacket (Z.to_nat (getMTU 65536)) (frame p) = Ok ([], p).
Proof.
  intros H. change (getMTU 65536) with 65536 in *. unfold frame, ReadPacket. rewrite H.
  change channelHeaderSize with (length (PutUint16 (Z.of_nat (Z.to_nat 65536)))). rewrite ReadFull_app. cbn [mbind res_mbind].
  rewrite Z2Nat.id by lia. change (Z.to_nat (le_load (rev (PutUint16 65536)))) with 0%nat.
  generalize (Z.to_nat 65536). intros n. by unfold ReadFull.
Qed.

Definition example_config : ServerConfig :=
  {| GetDNSResolverIPv4Addresses := [[x09; x09; x09; x09]]; GetDNSResolverIPv6Addresses := []; EnableDNSFlowTracking := false;
     DownstreamPacketQueueSize := 0; MTU := 0; SessionIdleExpirySeconds := 0; AllowBogons := false |}.

Definition example_callbacks : callbacks :=
  {| cb_TCPPort := None; cb_UDPPort := Some (fun _ port => port =? 443); cb_Domain := Some (fun _ => true); cb_updaterMaker := None;
     cb_metricsUpdater := None; cb_dnsQualityReporter := false |}.

(** A server with two clients, the second at 10.1.2.4 since 10.1.2.3 is taken. *)
Definition example_connect (srv : server) (id : string) : server :=
  (ClientConnected in_order srv id example_callbacks first_index 0x010203 (fun _ => 1) 1).1.

Definition example_server : server := example_connect (example_connect (NewServer example_config) "alice") "bob".

Abbreviation example_step := (server_step no_dns (fun _ => false) first_index in_order).

Lemma example_config_ok : config_ok example_config.
Proof. split; repeat constructor; done. Qed.

Lemma example_connect_step srv id : example_step srv (example_connect srv id).
Proof. apply StepConnected; [by eexists|intros n Hn; exact Hn|lia]. Qed.

Lemma example_server_reachable : rtc example_step (NewServer example_config) example_server.
Proof. eapply rtc_l; [apply (example_connect_step _ "alice")|]. eapply rtc_l; [apply (example_connect_step _ "bob")|]. apply rtc_refl. Qed.

Definition session_of (srv : server) (i : Z) : option (string * bool * bytes) :=
  s ← indexToSession srv !! i; Some (sessionID s, channel s, assignedIPv4Address (core s)).

Lemma example_sessions :
  session_of example_server 0x010203 = Some ("alice", true, [x0a; x01; x02; x03]) /\
  session_of example_server 0x010204 = Some ("bob", true, [x0a; x01; x02; x04]).
Proof. split; vm_compute; reflexivity. Qed.

Lemma example_first_session : exists s, indexToSession example_server !! 0x010203 = Some s /\ channel s = true /\ assignedIPv4Address (core s) = [x0a; x01; x02; x03].
Proof.
  destruct example_sessions as [H _]. unfold session_of in H. destruct (indexToSession example_server !! 0x010203) as [s|]; [|discriminate H].
  exists s. cbn in H. injection H as _ H1 H2. auto.
Qed.

Lemma sessions_isolated_witness : exists s, indexToSession example_server !! 0x010203 = Some s /\ (assignedIPv4Address (core s) ∉ reserved).
Proof.
  destruct example_first_session as (s & E & _). exists s. split; [exact E|].
  destruct (sessions_isolated no_dns (fun _ => false) first_index in_order example_libraries example_config example_server example_config_ok
    example_server_reachable) as [H _]. exact (proj1 (H _ s E)).
Defined.

(** The state after the first client has sent its packet. *)
Definition example_upstream : option (server * server_session) :=
  s ← indexToSession example_server !! 0x010203;
  match client_upstream no_dns (fun _ => false) first_index in_order example_tun_clock 2 example_server s example_packet with
  | Ok srv => Some (srv, s)
  | _ => None
  end.

Lemma example_upstream_run : exists srv1 s, example_upstream = Some (srv1, s) /\ indexToSession example_server !! 0x010203 = Some s /\ channel s = true /\
  client_upstream no_dns (fun _ => false) first_index in_order example_tun_clock 2 example_server s example_packet = Ok srv1 /\
  outputs srv1 = outputs example_server ++ [] ++ [DevicePacket example_sent_packet] /\ originalIPv4Address (core s) = None /\
  DNSResolverIPv4Addresses (core s) = [[x09; x09; x09; x09]].
Proof.
  assert (match example_upstream with Some (srv1, s) => Some (outputs srv1, channel s, originalIPv4Address (core s), DNSResolverIPv4Addresses (core s)) | None => None end =
    Some (outputs example_server ++ [DevicePacket example_sent_packet], true, None, [[x09; x09; x09; x09]])) as H by (vm_compute; reflexivity).
  remember (outputs example_server ++ [DevicePacket example_sent_packet]) as o eqn:Eo. rewrite app_nil_l, <- Eo. clear Eo.
  unfold example_upstream in *. destruct (indexToSession example_server !! 0x010203) as [s|]; [|discriminate H]. cbn [mbind option_bind] in *.
  destruct (client_upstream _ _ _ _ _ _ _ _ _) as [srv1|e|e|] eqn:Eu; try discriminate H. injection H as H1 H2 H3 H4. exists srv1, s. split_and!; [done|done|exact H2|exact Eu|exact H1|exact H3|exact H4].
Qed.

Lemma server_roundtrip_witness : exists srv1 srv3 s3, option_map fst example_upstream = Some srv1 /\
  device_downstream no_dns (fun _ => false) first_index in_order example_tun_clock srv1 example_answer = Ok srv3 /\
  indexToSession srv3 !! 0x010203 = Some s3.
Proof.
  destruct example_upstream_run as (srv1 & s & E & Es & Hch & Hup & Hout & Ho & Hres). destruct example_parsed as [Eh Eg].
  assert (dns_upstream example_header (destination_of example_header example_packet) = false ->
    dns_downstream (core s) example_answer_header (source_of example_answer_header example_answer) = false) as Hlim by (intros _; reflexivity).
  destruct (server_roundtrip no_dns (fun _ => false) first_index in_order example_libraries example_config example_server 0x010203 s example_tun_clock 2
    example_packet srv1 [] example_sent_packet example_header srv1 example_tun_clock example_answer example_answer_header example_config_ok
    example_server_reachable Es Hch Hup Hout (rtc_refl _ _) eq_refl Eh Eg example_answers example_in_time Hlim) as (srv3 & s3 & _ & _ & _ & E3 & E3s & _).
  exists srv1, srv3, s3. rewrite E. split; [reflexivity|]. split; [exact E3|exact E3s].
Defined.
