(* ===== verification/TunClient.v ===== *)
(** * Packet tunnel: the client, and both ends

    Models the client of src/psiphon/common/tun/tun.go, which relays packets between its tun
    device and the channel to the server, and composes it with the server: a packet and its
    answer go through both.

    The handling of one packet by a goroutine is a step, as in [TunServer]. *)

From Stdlib Require Import ZArith Lia Strings.Byte Strings.String.
From stdpp Require Import base gmap list strings numbers.
From S2P Require Import Prelude.
From S2P Require Import Lookups.
From S2P Require Import GoNet.
From S2P Require Import Tun.
From S2P Require Import TunQueue.
From S2P Require Import TunServer.
#[local] Open Scope string_scope.
#[local] Open Scope Z_scope.
#[local] Open Scope list_scope.

Definition DEFAULT_UPSTREAM_PACKET_QUEUE_SIZE : Z := 32768.

(** The fields of the configuration that matter beyond the device and the transport. *)
Record ClientConfig := {
  UpstreamPacketQueueSize : Z;
  TransparentDNSIPv4Address : string;
  TransparentDNSIPv6Address : string
}.

(** What goes to the device and to the channel. *)
Inductive client_output :=
| ToDevice (packet : bytes)
| ToChannel (buffer : bytes).

Record Client := {
  transparentDNS : clientTransparentDNS;
  upstreamPackets : PacketQueue;
  client_metrics : packetMetrics;
  client_outputs : list client_output
}.

(** The device is made before. *)
Definition NewClient (config : ClientConfig) : res Client :=
  let size := if 0 <? UpstreamPacketQueueSize config then UpstreamPacketQueueSize config else DEFAULT_UPSTREAM_PACKET_QUEUE_SIZE in
  dns ← newClientTransparentDNS (TransparentDNSIPv4Address config) (TransparentDNSIPv6Address config);
  Ok {| transparentDNS := dns; upstreamPackets := NewPacketQueue size; client_metrics := newPacketMetrics; client_outputs := [] |}.

Section Client.
Context (ParseDNSQuestion : bytes -> res string) (IsBogon : bytes -> bool) (rand_Intn : nat -> nat) (visit : flow_visit) (t : clock).

Definition client_process (c : Client) (direction : packetDirection) (p : bytes) : res (bool * packet_state) :=
  processPacket ParseDNSQuestion IsBogon rand_Intn visit t (Some (transparentDNS c)) direction
    {| metrics := client_metrics c; the_session := None; packet := p; events := [] |}.

(** The goroutine that reads the device. *)
Definition device_to_queue (c : Client) (readPacket : bytes) : res Client :=
  '(ok, st) ← client_process c packetDirectionClientUpstream readPacket;
  match (if ok : bool then Enqueue (upstreamPackets c) (packet st) else Some (upstreamPackets c)) with
  | Some q => Ok {| transparentDNS := transparentDNS c; upstreamPackets := q; client_metrics := metrics st; client_outputs := client_outputs c |}
  | None => NoFuel
  end.

(** The goroutine that writes what is queued to the channel; a write that fails writes some of
    the bytes, and the goroutine goes on. *)
Definition queue_to_channel (written : option nat) (c : Client) : res Client :=
  match DequeueFramedPackets (upstreamPackets c) with
  | None => NoFuel
  | Some (buffer, q) =>
      let out := match written with None => buffer | Some n => take n buffer end in
      match Replace q buffer with
      | Some q => Ok {| transparentDNS := transparentDNS c; upstreamPackets := q; client_metrics := client_metrics c;
                        client_outputs := client_outputs c ++ [ToChannel out] |}
      | None => NoFuel
      end
  end.

(** The goroutine that reads the channel. *)
Definition channel_to_device (c : Client) (readPacket : bytes) : res Client :=
  '(ok, st) ← client_process c packetDirectionClientDownstream readPacket;
  Ok {| transparentDNS := transparentDNS c; upstreamPackets := upstreamPackets c; client_metrics := metrics st;
        client_outputs := client_outputs c ++ if ok : bool then [ToDevice (packet st)] else [] |}.

End Client.

(** ** A rewritten packet parses in the same way *)

Lemma index_agree p p' i : p' !! i = p !! i -> index p' i = index p i.
Proof. unfold index. by intros ->. Qed.

Lemma subslice_length_agree p p' a b r : length p' = length p -> subslice p a b = Ok r -> exists r', subslice p' a b = Ok r'.
Proof. unfold subslice. intros ->. destruct (_ && _); [|done]. eauto. Qed.

Lemma subslice_agree p p' a b : length p' = length p -> (forall i, (a <= i < b)%nat -> p' !! i = p !! i) -> subslice p' a b = subslice p a b.
Proof.
  unfold subslice. intros -> H. destruct (_ && _); [|done]. f_equal. apply list_eq. intros i. rewrite !lookup_slice. case_decide; [|done]. apply H. lia.
Qed.

Lemma parse_transport_agree p p' b proto o :
  length p' = length p -> (proto = internetProtocolTCP -> p' !! (b + 12)%nat = p !! (b + 12)%nat) ->
  parse_transport p b proto = Ok (inr o) -> parse_transport p' b proto = Ok (inr o).
Proof.
  unfold parse_transport. intros -> H. destruct (Z.eqb_spec proto internetProtocolTCP) as [E|]; [|done]. by rewrite (index_agree p p' _ (H E)).
Qed.

Lemma parse_with_agree p p' v b po src dst n ck h :
  length p' = length p -> (forall i, ~ rewritable h i -> p' !! i = p !! i) -> ~ rewritable h po ->
  (dst + n = b)%nat -> (forall o, ck = Some o -> (o + 2 <= b)%nat) ->
  parse_with p v b po src dst n ck = Ok (inr h) -> parse_with p' v b po src dst n ck = Ok (inr h).
Proof.
  intros Hl Ha Hpo Hb Hck E. unfold parse_with in *. rewrite (index_agree p p' po (Ha po Hpo)).
  apply res_bind_ok in E as (proto & -> & E). cbn [mbind res_mbind]. apply res_bind_ok in E as ([r|o] & Et & E); [done|].
  apply res_bind_ok in E as (? & E1 & E). apply res_bind_ok in E as (? & E2 & E). apply res_bind_ok in E as (? & E3 & E).
  apply res_bind_ok in E as (sp & E4 & E). apply res_bind_ok in E as (dp & E5 & E). apply res_bind_ok in E as (? & E6 & E). injection E as <-.
  assert (forall i, (b <= i < b + 4)%nat \/ i = (b + 12)%nat /\ proto = internetProtocolTCP -> p' !! i = p !! i) as Hports.
  { intros i Hi. apply Ha. unfold rewritable, base. cbn [source destination ip_length protocolChecksum IPChecksum].
    intros [?|[Hc|(o' & Ho & ?)]]; [lia| |apply Hck in Ho; lia]. destruct Hi as [Hi|[-> ->]]; [destruct (proto =? _); lia|cbn in Hc; lia]. }
  rewrite (parse_transport_agree p p' b proto o Hl); [|intros; apply Hports; auto|done]. cbn [mbind res_mbind].
  rewrite Hl. destruct (subslice_length_agree _ _ _ _ _ Hl E1) as [? ->]. destruct (subslice_length_agree _ _ _ _ _ Hl E2) as [? ->].
  destruct (subslice_length_agree _ _ _ _ _ Hl E3) as [? ->]. destruct (subslice_length_agree _ _ _ _ _ Hl E6) as [? ->]. cbn [mbind res_mbind].
  rewrite (subslice_agree p p' b (b + 2) Hl), (subslice_agree p p' (b + 2) (b + 4) Hl), E4, E5 by (intros; apply Hports; lia). done.
Qed.

Lemma parse_with_fields p v b po src dst n ck h : parse_with p v b po src dst n ck = Ok (inr h) ->
  source h = src /\ destination h = dst /\ ip_length h = n /\ IPChecksum h = ck /\ (b + 6 <= protocolChecksum h)%nat.
Proof.
  unfold parse_with. intros E. apply res_bind_ok in E as (proto & _ & E). apply res_bind_ok in E as ([r|o] & _ & E); [done|].
  do 6 (apply res_bind_ok in E as (? & _ & E)). injection E as <-. cbn. destruct (proto =? internetProtocolTCP); split_and!; (done || lia).
Qed.

Lemma parse_rewritten p p' h rs rd : parse_packet p = Ok (inr h) -> rewrite_ok h rs rd p p' -> parse_packet p' = Ok (inr h).
Proof.
  intros E [Hl _ _ _ _ Ha]. unfold parse_packet in *. rewrite Hl. destruct (Nat.ltb_spec (length p) 1); [done|].
  assert (forall i b po src dst n ck v, parse_with p v b po src dst n ck = Ok (inr h) -> (i < src)%nat -> (forall o, ck = Some o -> i < o)%nat ->
    (src <= b)%nat -> ~ rewritable h i) as Hnot.
  { intros i b po src dst n ck v Ew Hi Ho Hb. destruct (parse_with_fields _ _ _ _ _ _ _ _ _ Ew) as (H1 & H2 & H3 & H4 & H5).
    intros [?|[?|(o & Eo & ?)]]; [lia|lia|]. rewrite H4 in Eo. apply Ho in Eo. lia. }
  apply res_bind_ok in E as (b0 & E0 & E).
  assert (forall po src n ck b v, parse_with p v b po src (src + n) n ck = Ok (inr h) -> (0 < src)%nat -> (po < src)%nat -> (src + n + n = b)%nat ->
    (forall o, ck = Some o -> po < o /\ 0 < o /\ o + 2 <= src)%nat ->
    index p' 0 = Ok b0 /\ parse_with p' v b po src (src + n) n ck = Ok (inr h)) as Hboth.
  { intros po src n ck b v Ew H0 Hpo Hb Hck. split.
    - rewrite (index_agree p p' 0); [done|]. apply Ha. eapply Hnot; [exact Ew|lia| |lia]. intros o Ho. apply Hck in Ho. lia.
    - eapply parse_with_agree; [done|done| |lia| |exact Ew].
      + eapply Hnot; [exact Ew|lia| |lia]. intros o Ho. apply Hck in Ho. lia.
      + intros o Ho. apply Hck in Ho. lia. }
  destruct (negb _ && _) eqn:E3; [done|]. destruct (Z.shiftr b0 4 =? 4) eqn:E4.
  - destruct (negb (Z.land b0 0x0f =? 5)) eqn:E5; [done|]. destruct (length p <? 20)%nat eqn:E6; [done|].
    destruct (Hboth 9%nat 12%nat 4%nat (Some 10%nat) 20%nat (Z.shiftr b0 4) E) as [E0' Ew]; [lia|lia|lia|intros o [= <-]; lia|].
    rewrite E0'. cbn [mbind res_mbind]. by rewrite E4, E3, E5.
  - destruct (length p <? 40)%nat eqn:E6; [done|].
    destruct (Hboth 6%nat 8%nat 16%nat None 40%nat (Z.shiftr b0 4) E) as [E0' Ew]; [lia|lia|lia|done|].
    rewrite E0'. cbn [mbind res_mbind]. by rewrite E4, E3.
Qed.

(** ** Both ends *)

Section Tunnel.
Context (ParseDNSQuestion : bytes -> res string) (IsBogon : bytes -> bool) (rand_Intn : nat -> nat) (visit : flow_visit).
Hypothesis (Hlib : libraries_ok ParseDNSQuestion rand_Intn).

Abbreviation server_process := (processPacket ParseDNSQuestion IsBogon rand_Intn visit).
Abbreviation at_client := (client_process ParseDNSQuestion IsBogon rand_Intn visit).

Lemma client_process_run t c direction p : cdns_ok (transparentDNS c) -> is_server direction = false -> exists b st,
  at_client t c direction p = Ok (b, st) /\
  client_outcome (transparentDNS c) direction {| metrics := client_metrics c; the_session := None; packet := p; events := [] |} b st.
Proof. intros Hc Hd. destruct (client_run ParseDNSQuestion IsBogon rand_Intn visit t (transparentDNS c) direction
  {| metrics := client_metrics c; the_session := None; packet := p; events := [] |} Hc Hd) as (b & st & E & H). by exists b, st. Qed.

(** A packet that the client has relayed. *)
Lemma client_relayed t c direction p st h : cdns_ok (transparentDNS c) -> is_server direction = false ->
  at_client t c direction p = Ok (true, st) -> parse_packet p = Ok (inr h) ->
  client_accepts (transparentDNS c) direction h p /\
  rewrite_ok h (client_rewrites (transparentDNS c) direction h p).1.1 (client_rewrites (transparentDNS c) direction h p).1.2 p (packet st).
Proof.
  intros Hc Hd E Eh. destruct (client_process_run t c direction p Hc Hd) as (b & st' & E' & _ & H & _). rewrite E in E'. injection E' as <- <-.
  destruct H as (h' & Eh' & Ha & Hr). cbn [packet] in *. rewrite Eh in Eh'. by injection Eh' as <-.
Qed.

Lemma rewritten_some o n ip p : (0 < n)%nat -> length ip = n -> rewritten o n ip p = ip.
Proof. intros Hn Hl. unfold rewritten. rewrite bool_decide_eq_false_2; [done|]. intros ->. cbn in Hl. lia. Qed.

Lemma layout_positive h p : layout h p -> (0 < ip_length h)%nat.
Proof. intros H. destruct (ly_length _ _ H) as (k & Hk & ?). lia. Qed.

(** What the client makes of the answer, whose source the server has set to the destination of
    the client's packet. *)
Lemma client_source_back d h p p1 g q1 st :
  cdns_ok d -> layout h p -> layout g q1 -> version g = version h -> sourcePort g = destinationPort h ->
  rewrite_ok h (client_rewrites d packetDirectionClientUpstream h p).1.1 (client_rewrites d packetDirectionClientUpstream h p).1.2 p p1 ->
  rewrite_ok g (client_rewrites d packetDirectionClientDownstream g q1).1.1 (client_rewrites d packetDirectionClientDownstream g q1).1.2 q1 (packet st) ->
  source_of g q1 = destination_of h p1 ->
  (destinationPort h = portNumberDNS -> destination_of h p = transparentDNSResolver h -> client_address d h = [] \/ client_address d h = transparentDNSResolver h) ->
  source_of g (packet st) = destination_of h p.
Proof.
  intros Hc Hl Hlg Hv Hport [_ _ Hd1 _ _ _] [_ Hs2 _ _ _ _] Hsrc Hlim. unfold client_rewrites in *.
  rewrite bool_decide_eq_true_2 in Hd1 by done. rewrite bool_decide_eq_false_2 in Hs2 by done. cbn [fst snd] in *.
  fold (destination_of h p1) in Hd1. unfold source_of at 1. rewrite Hs2. rewrite Hsrc, Hport, Hd1.
  destruct (version_same example_tun_session h g Hv) as (_ & _ & Htr). rewrite Htr. pose proof (transparent_length h p Hl) as Htl. pose proof (layout_positive h p Hl) as Hpos.
  pose proof (layout_same_length _ _ _ _ Hl Hlg Hv) as Hlen. assert (client_address d g = client_address d h) as Hca by (unfold client_address; by rewrite Hv).
  pose proof (client_address_length d h p Hc Hl) as Hcl. rewrite Hca.
  destruct (Z.eqb_spec (destinationPort h) portNumberDNS) as [Ep|]; cbn [andb].
  2: { rewrite !rewritten_nil. fold (source_of g q1). rewrite Hsrc, Hd1. apply rewritten_nil. }
  destruct (Subnet.IP_Equal (destination_of h p) (client_address d h)) eqn:Eq.
  - rewrite (rewritten_some (destination h)) by done. rewrite IP_Equal_refl. destruct Hcl as [E0|Hcl].
    { exfalso. rewrite E0 in Eq. unfold Subnet.IP_Equal in Eq. rewrite length_destination_of in Eq by done.
      destruct (ly_version _ _ Hl) as [(_ & E & _)|(_ & E & _)]; rewrite E in Eq; vm_compute in Eq; done. }
    rewrite rewritten_some by lia. symmetry. apply IP_Equal_same_length; [rewrite length_destination_of by done; lia|done].
  - rewrite rewritten_nil. fold (destination_of h p). destruct (Subnet.IP_Equal (destination_of h p) (transparentDNSResolver h)) eqn:Et.
    + apply IP_Equal_same_length in Et; [|rewrite length_destination_of by done; lia]. destruct (Hlim Ep Et) as [->|Hc'].
      * rewrite rewritten_nil. fold (source_of g q1). rewrite Hsrc, Hd1. apply rewritten_nil.
      * by rewrite Et, Hc', IP_Equal_refl in Eq.
    + rewrite rewritten_nil. fold (source_of g q1). rewrite Hsrc, Hd1. apply rewritten_nil.
Qed.

(** C11: a packet and its answer go through both ends.  When the client relays a packet and the
    server relays what the client sent, an answer to what the server sent, in time, is
    relayed by the server and then by the client; the application that sent the packet gets
    the answer at the address that it sent from, and from the address that it sent to, also
    when that is the DNS address configured at the client, which was rewritten at both ends.
    The source address is that of the client's earlier packets.  A client that has another
    DNS address configured does not itself send DNS to the address of the transparent
    resolver, and, as the code documents, not directly to a resolver of the server. *)
Theorem tunnel_roundtrip (c : Client) (s : session) t0 t1 t2 t3 p q st0 st1 m1 m2 (c3 : Client) h g :
  cdns_ok (transparentDNS c) -> session_ok s -> is_Some (checkAllowedDomainFunc s) ->
  client_process ParseDNSQuestion IsBogon rand_Intn visit t0 c packetDirectionClientUpstream p = Ok (true, st0) ->
  server_process t1 None packetDirectionServerUpstream {| metrics := m1; the_session := Some s; packet := packet st0; events := [] |} = Ok (true, st1) ->
  parse_packet p = Ok (inr h) -> parse_packet q = Ok (inr g) -> answers h (packet st1) g q ->
  now_track t2 - now_update t1 <= FLOW_IDLE_EXPIRY -> transparentDNS c3 = transparentDNS c ->
  (original s h = None \/ original s h = Some (source_of h p)) -> IsGlobalUnicast (source_of h p) = true ->
  (destinationPort h = portNumberDNS -> destination_of h p = transparentDNSResolver h ->
     client_address (transparentDNS c) h = [] \/ client_address (transparentDNS c) h = transparentDNSResolver h) ->
  (dns_upstream h (destination_of h (packet st0)) = false -> dns_downstream s g (source_of g q) = false) ->
  exists st2 st3,
    server_process t2 None packetDirectionServerDownstream {| metrics := m2; the_session := the_session st1; packet := q; events := [] |} = Ok (true, st2) /\
    client_process ParseDNSQuestion IsBogon rand_Intn visit t3 c3 packetDirectionClientDownstream (packet st2) = Ok (true, st3) /\
    source_of g (packet st3) = destination_of h p /\ destination_of g (packet st3) = source_of h p.
Proof.
  intros Hc Hs Hdom Hcl Hsv Eh Eg Han Htime Hdns3 Horig Hglobal Hlim Hres. destruct Hlib as [HD HR].
  destruct (client_relayed t0 c packetDirectionClientUpstream p st0 h Hc eq_refl Hcl Eh) as [Hacc0 Hrw0]. pose proof (parse_layout p h Eh) as Hl.
  pose proof (parse_rewritten _ _ _ _ _ Eh Hrw0) as Eh1. set (st := {| metrics := m1 |}) in Hsv.
  destruct (upstream_run _ ParseDNSQuestion IsBogon rand_Intn visit t1 HD HR None st s eq_refl Hs (flows_ok_any s) Hdom)
    as (b & st' & E & s' & Es' & Hs' & _ & Hd). rewrite Hsv in E. injection E as <- <-. destruct Hd as (h' & rd & Hd).
  pose proof (up_parsed _ _ _ _ _ _ _ _ Hd) as Eh'. cbn [packet st] in Hd, Eh'. rewrite Eh1 in Eh'. injection Eh' as <-.
  set (stq := {| metrics := m2; the_session := the_session st1; packet := q; events := [] |}).
  destruct (answer_relayed ParseDNSQuestion IsBogon rand_Intn visit t1 t2 s (packet st0) s' (packet st1) h rd g stq Hs Hs' Hd Es' Eg Han Htime Hres)
    as (st2 & E2 & Hdst2 & Hsrc2).
  assert (source_of h (packet st0) = source_of h p) as Hsp.
  { unfold source_of. rewrite (rw_source _ _ _ _ _ Hrw0). unfold client_rewrites. rewrite bool_decide_eq_true_2 by done. apply rewritten_nil. }
  assert (destination_of g (packet st2) = source_of h p) as Hdst2'.
  { rewrite Hdst2, Hsp. by destruct Horig as [-> | ->]. }
  assert (parse_packet (packet st2) = Ok (inr g)) as Eg2.
  { destruct (downstream_run _ ParseDNSQuestion IsBogon rand_Intn visit t2 None stq s' Es' Hs' (flows_ok_any s')) as (b & st2' & E & s3 & _ & _ & _ & Hdone & _).
    rewrite E2 in E. injection E as <- <-. destruct Hdone as (g' & ip & [Eg' _ _ _ Hrw _]). cbn [packet stq] in *. rewrite Eg in Eg'. injection Eg' as <-.
    by eapply parse_rewritten. }
  pose proof (parse_layout _ _ Eg2) as Hlg. rewrite <- Hdns3 in Hc.
  destruct (client_process_run t3 c3 packetDirectionClientDownstream (packet st2) Hc eq_refl) as (b & st3 & E3 & _ & Hb & Hall). cbn [packet] in *.
  assert (b = true) as ->.
  { apply (Hall g Eg2). right. cbn [is_upstream]. rewrite Hdst2'. split; [|done]. rewrite (an_sourcePort _ _ _ _ Han).
    change (destinationPort h <> 0). unfold client_accepts, client_rewrites in Hacc0. rewrite bool_decide_eq_true_2 in Hacc0 by done. cbn [snd fst] in Hacc0.
    destruct Hacc0 as [H0|[H0 _]]; [|exact H0]. apply andb_prop in H0 as [H0%Z.eqb_eq _]. by rewrite H0. }
  destruct Hb as (g' & Eg' & _ & Hrw3). rewrite Eg2 in Eg'. injection Eg' as <-. exists st2, st3. rewrite Hdns3 in Hc, Hrw3. split_and!; [done|done| |].
  - eapply (client_source_back (transparentDNS c) h p (packet st0) g (packet st2)); try done; [apply (an_version _ _ _ _ Han)|apply (an_sourcePort _ _ _ _ Han)].
  - unfold destination_of at 1. rewrite (rw_destination _ _ _ _ _ Hrw3). unfold client_rewrites. rewrite bool_decide_eq_false_2 by done. cbn [fst snd].
    rewrite rewritten_nil. exact Hdst2'.
Qed.

End Tunnel.

(** ** Examples *)

Definition example_client_config : ClientConfig :=
  {| UpstreamPacketQueueSize := 0; TransparentDNSIPv4Address := "192.168.0.1"; TransparentDNSIPv6Address := "" |}.

Definition example_dns : clientTransparentDNS := {| IPv4Address := [xc0; xa8; x00; x01]; IPv6Address := [] |}.

Definition example_client : Client :=
  {| transparentDNS := example_dns; upstreamPackets := NewPacketQueue DEFAULT_UPSTREAM_PACKET_QUEUE_SIZE; client_metrics := newPacketMetrics;
     client_outputs := [] |}.

Lemma example_NewClient : NewClient example_client_config = Ok example_client.
Proof. vm_compute. reflexivity. Qed.

Definition example_client_sent : res (bool * packet_state) :=
  client_process no_dns (fun _ => false) first_index in_order example_tun_clock example_client packetDirectionClientUpstream example_packet.

Lemma example_client_sent_run : exists st, example_client_sent = Ok (true, st) /\ packet st = example_packet.
Proof.
  assert (sent_packet example_client_sent = Some example_packet) as H by (vm_compute; reflexivity).
  destruct example_client_sent as [[[] st]|e|e|]; try discriminate H. exists st. by injection H as ->.
Qed.

Lemma tunnel_roundtrip_witness : exists st1 st2 st3, example_sent = Ok (true, st1) /\
  processPacket no_dns (fun _ => false) first_index in_order example_tun_clock None packetDirectionServerDownstream
    (example_state (the_session st1) example_answer) = Ok (true, st2) /\
  client_process no_dns (fun _ => false) first_index in_order example_tun_clock example_client packetDirectionClientDownstream (packet st2) = Ok (true, st3) /\
  destination_of example_answer_header (packet st3) = [xc0; xa8; x00; x05].
Proof.
  destruct example_client_sent_run as (st0 & E0 & Ep0). destruct example_sent_run as (st1 & E & Ep). destruct example_parsed as [Eh Eg].
  pose proof example_answers as Han. rewrite <- Ep in Han. pose proof E as E'. unfold example_sent, example_state in E'. rewrite <- Ep0 in E'.
  assert (cdns_ok example_dns) as Hc by (split; [right; reflexivity|left; reflexivity]).
  assert (destination_of example_header example_packet = transparentDNSResolver example_header ->
    client_address example_dns example_header = [] \/ client_address example_dns example_header = transparentDNSResolver example_header) as Hlim
    by (intros H; vm_compute in H; discriminate H).
  destruct (tunnel_roundtrip no_dns (fun _ => false) first_index in_order example_libraries example_client example_tun_session
    example_tun_clock example_tun_clock example_tun_clock example_tun_clock example_packet example_answer st0 st1 newPacketMetrics newPacketMetrics
    example_client example_header example_answer_header Hc (proj1 example_tun_session_ok) (ex_intro _ _ eq_refl) E0 E' Eh Eg Han
    example_in_time eq_refl (or_introl eq_refl) ltac:(vm_compute; reflexivity) (fun _ => Hlim) (fun _ => eq_refl)) as (st2 & st3 & E2 & E3 & _ & Hd).
  exists st1, st2, st3. split; [exact E|]. split; [exact E2|]. split; [exact E3|]. rewrite Hd. reflexivity.
Defined.
