(* ===== verification/SeedHistory.v ===== *)
(** * The history of obfuscation seeds and the passthrough messages

    Models src/psiphon/common/obfuscator/history.go and passthrough.go, the cache of
    src/vendor/github.com/cognusion/go-cache-lru, and the checks that the TLS servers of
    src/psiphon/server/meek.go and tlsTunnel.go and the QUIC listener of
    src/psiphon/common/quic/quic.go make of the random value of a client.

    Times are in nanoseconds; the clock is read once for each check.  Which items the
    eviction of the cache selects depends on the order of a Go map and is an argument. *)

From Stdlib Require Import ZArith Lia Strings.Byte Strings.String.
From stdpp Require Import base gmap list sets strings numbers.
From S2P Require Import Prelude.
From S2P Require Import GoEncoding.
From S2P Require Import GoCrypto.
#[local] Open Scope string_scope.
#[local] Open Scope Z_scope.
#[local] Open Scope list_scope.

(** ** The cache *)

Record Item (A : Type) := { Object : A; Expiration : Z; Accessed : Z }.
Arguments Object {A}. Arguments Expiration {A}. Arguments Accessed {A}.

Record lru (A : Type) := { defaultExpiration : Z; maxItems : Z; items : gmap bytes (Item A) }.
Arguments defaultExpiration {A}. Arguments maxItems {A}. Arguments items {A}.

Definition set_items {A} (c : lru A) (m : gmap bytes (Item A)) : lru A :=
  {| defaultExpiration := defaultExpiration c; maxItems := maxItems c; items := m |}.

Definition NewWithLRU {A} (de mi : Z) : lru A :=
  {| defaultExpiration := if de =? 0 then -1 else de; maxItems := mi; items := ∅ |}.

Definition lru_Set {A} (now : Z) (c : lru A) (k : bytes) (x : A) (d : Z) : lru A :=
  let d := if d =? 0 then defaultExpiration c else d in
  let e := if 0 <? d then now + d else 0 in
  set_items c (<[k := {| Object := x; Expiration := e; Accessed := if 0 <? maxItems c then now else 0 |}]> (items c)).

Definition item_expired {A} (now : Z) (i : Item A) : bool := (0 <? Expiration i) && (Expiration i <? now).

Definition lru_Get {A} (now : Z) (c : lru A) (k : bytes) : option A * lru A :=
  match items c !! k with
  | None => (None, c)
  | Some i =>
      if item_expired now i then (None, c)
      else if 0 <? maxItems c then
        (Some (Object i), set_items c (<[k := {| Object := Object i; Expiration := Expiration i; Accessed := now |}]> (items c)))
      else (Some (Object i), c)
  end.

(** [Add] returns whether there was no item. *)
Definition lru_Add {A} (now : Z) (c : lru A) (k : bytes) (x : A) (d : Z) : bool * lru A :=
  match lru_Get now c k with
  | (Some _, c) => (false, c)
  | (None, c) => (true, lru_Set now c k x d)
  end.

Definition DeleteExpired {A} (now : Z) (c : lru A) : lru A :=
  set_items c (filter (fun kv => item_expired now kv.2 = false) (items c)).

(** [DeleteLRU] with the keys that it selects. *)
Definition DeleteLRU {A} (selected : list bytes) (c : lru A) : lru A :=
  let overCount := Z.of_nat (size (items c)) - maxItems c in
  if overCount <=? 0 then c
  else set_items c (foldr delete (items c) (take (Z.to_nat overCount) selected)).

Definition janitor {A} (now : Z) (selected : list bytes) (c : lru A) : lru A :=
  let c := DeleteExpired now c in
  if 0 <? maxItems c then DeleteLRU selected c else c.

(** ** SeedHistory *)

Definition Second : Z := 1000000000.
Definition Minute : Z := 60 * Second.
Definition Hour : Z := 60 * Minute.

Definition HISTORY_SEED_TTL : Z := 24 * Hour.
Definition HISTORY_SEED_MAX_ENTRIES : Z := 1000000.
Definition HISTORY_CLIENT_IP_TTL : Z := 2 * Minute.
Definition HISTORY_CLIENT_IP_MAX_ENTRIES : Z := 10000.

Record SeedHistoryConfig := { SeedTTL : Z; SeedMaxEntries : Z; ClientIPTTL : Z; ClientIPMaxEntries : Z }.

Record SeedHistory := { seedTTL : Z; seedToTime : lru Z; seedToClientIP : lru string }.

Definition NewSeedHistory (config : option SeedHistoryConfig) : SeedHistory :=
  let use f default := match config with Some c => if f c =? 0 then default else f c | None => default end in
  let TTL := use SeedTTL HISTORY_SEED_TTL in
  {| seedTTL := TTL;
     seedToTime := NewWithLRU TTL (use SeedMaxEntries HISTORY_SEED_MAX_ENTRIES);
     seedToClientIP := NewWithLRU (use ClientIPTTL HISTORY_CLIENT_IP_TTL) (use ClientIPMaxEntries HISTORY_CLIENT_IP_MAX_ENTRIES) |}.

(** [common.LogFields] of a duplicate. *)
Record DuplicateFields := {
  duplicate_seed : string;
  duplicate_seed_type : string;
  duplicate_elapsed_time_ms : Z;
  duplicate_client_ip : string
}.

Definition set_caches (h : SeedHistory) (t : lru Z) (a : lru string) : SeedHistory :=
  {| seedTTL := seedTTL h; seedToTime := t; seedToClientIP := a |}.

Definition AddNewWithTTL (now : Z) (h : SeedHistory) (strictMode : bool) (clientIP seedType : string) (seed : bytes) (TTL : Z)
    : bool * option DuplicateFields * SeedHistory :=
  match lru_Add now (seedToTime h) seed now TTL with
  | (true, t) => (true, None, set_caches h t (lru_Set now (seedToClientIP h) seed clientIP 0))
  | (false, t) =>
      let '(previous, t) := lru_Get now t seed in
      let previousTime := default (now - seedTTL h) previous in
      let '(previousClientIP, a) := lru_Get now (seedToClientIP h) seed in
      let logFields ip := {| duplicate_seed := hex_EncodeToString seed; duplicate_seed_type := seedType;
        duplicate_elapsed_time_ms := Z.quot (now - previousTime) 1000000; duplicate_client_ip := ip |} in
      match previousClientIP with
      | Some ip =>
          if bool_decide (clientIP = ip) then (negb strictMode, Some (logFields "equal"), set_caches h t a)
          else (false, Some (logFields "unequal"), set_caches h t a)
      | None => (false, Some (logFields "unknown"), set_caches h t a)
      end
  end.

Definition AddNew (now : Z) (h : SeedHistory) (strictMode : bool) (clientIP seedType : string) (seed : bytes)
    : bool * option DuplicateFields * SeedHistory :=
  AddNewWithTTL now h strictMode clientIP seedType seed 0.

(** ** Passthrough messages *)

Definition TLS_PASSTHROUGH_NONCE_SIZE : nat := 16.
Definition TLS_PASSTHROUGH_KEY_SIZE : nat := 32.
Definition TLS_PASSTHROUGH_TIME_PERIOD : Z := 20 * Minute.
Definition TLS_PASSTHROUGH_HISTORY_TTL : Z := TLS_PASSTHROUGH_TIME_PERIOD * 3.
Definition TLS_PASSTHROUGH_MESSAGE_SIZE : nat := 32.

Definition timePeriodSeconds : Z := Z.quot TLS_PASSTHROUGH_TIME_PERIOD Second.

Section Passthrough.
Context `{Digests}.

(** [time.Now().Unix()] rounds down. *)
Definition roundedTimePeriod (now timePeriodShift : Z) : Z :=
  Z.quot (now / Second + Z.quot timePeriodSeconds 2 + timePeriodSeconds * timePeriodShift) timePeriodSeconds.

Definition derivePassthroughKey (now : Z) (useTimeFactor : bool) (timePeriodShift : Z) (obfuscatedKey : string) : bytes :=
  let salt := list_byte_of_string "passthrough-obfuscation-key" in
  let salt := if useTimeFactor then salt ++ le_store 8 (roundedTimePeriod now timePeriodShift) else salt in
  hkdf_sha256 (list_byte_of_string obfuscatedKey) salt [] TLS_PASSTHROUGH_KEY_SIZE.

(** The message with the nonce that [rand.Read] gives. *)
Definition MakeTLSPassthroughMessage (now : Z) (useTimeFactor : bool) (obfuscatedKey : string) (nonce : bytes) : bytes :=
  let passthroughKey := derivePassthroughKey now useTimeFactor 0 obfuscatedKey in
  nonce ++ take (TLS_PASSTHROUGH_MESSAGE_SIZE - TLS_PASSTHROUGH_NONCE_SIZE) (hmac_sha256 passthroughKey nonce).

Definition passthrough_match (passthroughKey message : bytes) : bool :=
  bool_decide (drop TLS_PASSTHROUGH_NONCE_SIZE message =
    take (TLS_PASSTHROUGH_MESSAGE_SIZE - TLS_PASSTHROUGH_NONCE_SIZE)
      (hmac_sha256 passthroughKey (take TLS_PASSTHROUGH_NONCE_SIZE message))).

Definition VerifyTLSPassthroughMessage (now : Z) (useTimeFactor : bool) (obfuscatedKey : string) (message : bytes) : bool :=
  let message := if (length message =? TLS_PASSTHROUGH_MESSAGE_SIZE)%nat then message
                 else replicate TLS_PASSTHROUGH_MESSAGE_SIZE x00 in
  if useTimeFactor then
    foldl (fun m timePeriodShift =>
      if passthrough_match (derivePassthroughKey now useTimeFactor timePeriodShift obfuscatedKey) message then true else m)
      false [-1; 0; 1]
  else passthrough_match (derivePassthroughKey now false 0 obfuscatedKey) message.

(** ** The checks of the servers *)

(** The random value of a ClientHello is checked when passthrough is on, in
    [serverHandshake] of vendor/github.com/Psiphon-Labs/psiphon-tls. *)
Definition passthrough_check (now : Z) (useTimeFactor : bool) (obfuscatedKey : string) (TTL : Z) (clientIP : string)
    (random : bytes) (h : SeedHistory) : bool * SeedHistory :=
  if VerifyTLSPassthroughMessage now useTimeFactor obfuscatedKey random then
    let '(ok, _, h) := AddNewWithTTL now h true clientIP "client-random" random TTL in (ok, h)
  else (false, h).

Definition meek_check (now : Z) (LegacyPassthrough : bool) (obfuscatedKey clientIP : string) (random : bytes) (h : SeedHistory)
    : bool * SeedHistory :=
  passthrough_check now (negb LegacyPassthrough) obfuscatedKey
    (if LegacyPassthrough then HISTORY_SEED_TTL else TLS_PASSTHROUGH_HISTORY_TTL) clientIP random h.

Definition tls_tunnel_check (now : Z) (obfuscatedKey clientIP : string) (random : bytes) (h : SeedHistory) : bool * SeedHistory :=
  passthrough_check now true obfuscatedKey TLS_PASSTHROUGH_TIME_PERIOD clientIP random h.

(** The history of the QUIC listener and its check. *)
Definition quic_history : SeedHistory :=
  NewSeedHistory (Some {| SeedTTL := TLS_PASSTHROUGH_HISTORY_TTL; SeedMaxEntries := 0; ClientIPTTL := 0; ClientIPMaxEntries := 0 |}).

Definition verifyClientHelloRandom (now : Z) (obfuscationKey remoteAddr : string) (random : bytes) (h : SeedHistory)
    : bool * SeedHistory :=
  if VerifyTLSPassthroughMessage now true obfuscationKey random then
    let '(ok, _, h) := AddNew now h false remoteAddr "client-hello-random" random in (ok, h)
  else (false, h).
End Passthrough.

(** ** The histories of a running server

    A server checks the values that clients send, at times that do not decrease; the
    janitors of the two caches run in between, and other values may be added to the history
    for other purposes.  [accepted] holds the values accepted, with
    the address of the client and the time. *)

Record history_server := { clock : Z; history : SeedHistory; accepted : list (bytes * string * Z) }.

Abbreviation checker := (Z -> string -> bytes -> SeedHistory -> bool * SeedHistory).

Inductive history_step (inputs : bytes -> Prop) (check : checker) : history_server -> history_server -> Prop :=
| step_check s now clientIP m ok h :
    clock s <= now -> inputs m -> check now clientIP m (history s) = (ok, h) ->
    history_step inputs check s {| clock := now; history := h;
      accepted := if ok then accepted s ++ [(m, clientIP, now)] else accepted s |}
| step_other s now strictMode clientIP seedType seed ok log h :
    clock s <= now -> ~ inputs seed -> AddNew now (history s) strictMode clientIP seedType seed = (ok, log, h) ->
    history_step inputs check s {| clock := now; history := h; accepted := accepted s |}
| step_janitor_time s now selected :
    clock s <= now ->
    history_step inputs check s {| clock := now; accepted := accepted s;
      history := set_caches (history s) (janitor now selected (seedToTime (history s))) (seedToClientIP (history s)) |}
| step_janitor_IP s now selected :
    clock s <= now ->
    history_step inputs check s {| clock := now; accepted := accepted s;
      history := set_caches (history s) (seedToTime (history s)) (janitor now selected (seedToClientIP (history s))) |}.

(** The cache of seeds is within its limit, so that nothing is evicted. *)
Definition uncrowded (s : history_server) : Prop := Z.of_nat (size (items (seedToTime (history s)))) <= maxItems (seedToTime (history s)).

Definition quiet_step (inputs : bytes -> Prop) (check : checker) (s s' : history_server) : Prop := history_step inputs check s s' /\ uncrowded s.

Definition history_start (now : Z) (h : SeedHistory) : history_server := {| clock := now; history := h; accepted := [] |}.

(** *** The cache *)

(** An item that is kept at least until [e]. *)
Definition kept_until {A} (c : lru A) (k : bytes) (e : Z) : Prop := exists i, items c !! k = Some i /\ e <= Expiration i.

Lemma live_found {A} now (c : lru A) k e : kept_until c k e -> now <= e -> exists x, lru_Get now c k = (Some x, (lru_Get now c k).2).
Proof.
  intros (i & Hi & He) Hn. unfold lru_Get. rewrite Hi. unfold item_expired.
  replace (Expiration i <? now) with false by lia. rewrite andb_false_r. destruct (0 <? maxItems c); by eexists.
Qed.

Lemma Get_keeps {A} now (c : lru A) k k' e : kept_until c k' e -> kept_until (lru_Get now c k).2 k' e.
Proof.
  intros (i & Hi & He). unfold lru_Get. destruct (items c !! k) as [j|] eqn:Hj; [|by exists i].
  destruct (item_expired now j); [by exists i|]. destruct (0 <? maxItems c); [|by exists i].
  unfold kept_until. cbn. destruct (decide (k = k')) as [->|Hne].
  - rewrite lookup_insert_eq. rewrite Hi in Hj. injection Hj as ->. by eexists.
  - rewrite lookup_insert_ne by done. by exists i.
Qed.

Lemma Get_config {A} now (c : lru A) k : defaultExpiration (lru_Get now c k).2 = defaultExpiration c /\ maxItems (lru_Get now c k).2 = maxItems c.
Proof.
  unfold lru_Get. destruct (items c !! k) as [j|]; [|done]. destruct (item_expired now j); [done|]. by destruct (0 <? maxItems c).
Qed.

Lemma Set_keeps {A} now (c : lru A) k k' x d e : k <> k' -> kept_until c k' e -> kept_until (lru_Set now c k x d) k' e.
Proof. intros Hne (i & Hi & He). exists i. unfold lru_Set. cbn. by rewrite lookup_insert_ne. Qed.

Definition lifetime {A} (c : lru A) (d : Z) : Z := if d =? 0 then defaultExpiration c else d.

Lemma Set_kept {A} now (c : lru A) k x d : 0 < lifetime c d -> kept_until (lru_Set now c k x d) k (now + lifetime c d).
Proof.
  unfold lifetime. intros Hd. eexists. unfold lru_Set. cbn. rewrite lookup_insert_eq. split; [done|]. cbn.
  destruct (Z.ltb_spec 0 (if d =? 0 then defaultExpiration c else d)); lia.
Qed.

Lemma Expired_keeps {A} now (c : lru A) k e : kept_until c k e -> now <= e -> kept_until (DeleteExpired now c) k e.
Proof.
  intros (i & Hi & He) Hn. exists i. split; [|done]. unfold DeleteExpired. cbn. rewrite map_lookup_filter, Hi. cbn.
  rewrite option_guard_True; [done|]. unfold item_expired. cbn. replace (Expiration i <? now) with false by lia. apply andb_false_r.
Qed.

Lemma janitor_keeps {A} now selected (c : lru A) k e : Z.of_nat (size (items c)) <= maxItems c ->
  kept_until c k e -> now <= e -> kept_until (janitor now selected c) k e.
Proof.
  intros Hs Hk Hn. unfold janitor. destruct (0 <? maxItems (DeleteExpired now c)); [|by apply Expired_keeps].
  unfold DeleteLRU. assert (size (items (DeleteExpired now c)) <= size (items c))%nat.
  { apply map_subseteq_size. apply map_filter_subseteq. }
  change (maxItems (DeleteExpired now c)) with (maxItems c).
  destruct (Z.leb_spec (Z.of_nat (size (items (DeleteExpired now c))) - maxItems c) 0); [|lia]. by apply Expired_keeps.
Qed.

Lemma janitor_config {A} now selected (c : lru A) :
  defaultExpiration (janitor now selected c) = defaultExpiration c /\ maxItems (janitor now selected c) = maxItems c.
Proof. unfold janitor, DeleteLRU. destruct (0 <? _); [|done]. by destruct (_ <=? 0). Qed.

(** The items of the janitor were there before. *)
Lemma janitor_items {A} now selected (c : lru A) k i : items (janitor now selected c) !! k = Some i -> items c !! k = Some i.
Proof.
  assert (forall i', items (DeleteExpired now c) !! k = Some i' -> items c !! k = Some i') as He.
  { intros i'. unfold DeleteExpired. cbn. rewrite map_lookup_filter_Some. by intros [? _]. }
  revert He. unfold janitor. generalize (DeleteExpired now c). intros d He.
  destruct (0 <? _); [|apply He]. unfold DeleteLRU. destruct (_ <=? 0); [apply He|]. cbn. intros Hi. apply He. revert Hi.
  induction (take _ selected) as [|x l IH]; [done|]. cbn. intros [_ ?]%lookup_delete_Some. auto.
Qed.

(** *** Strict checks *)

(** A check that verifies a value and then adds it in strict mode. *)
Definition strict_check (verify : Z -> bytes -> bool) (seedType : string) (TTL : Z) : checker := fun now clientIP m h =>
  if verify now m then let '(ok, _, h) := AddNewWithTTL now h true clientIP seedType m TTL in (ok, h) else (false, h).

(** What an addition does to the cache of seeds; in strict mode only a new seed is accepted. *)
Lemma add_spec now h strictMode clientIP seedType m TTL ok log h' :
  AddNewWithTTL now h strictMode clientIP seedType m TTL = (ok, log, h') ->
  (strictMode = true -> ok = (lru_Add now (seedToTime h) m now TTL).1) /\
  seedToTime h' = if (lru_Add now (seedToTime h) m now TTL).1 then lru_Set now (lru_Get now (seedToTime h) m).2 m now TTL
                  else (lru_Get now (lru_Get now (seedToTime h) m).2 m).2.
Proof.
  unfold AddNewWithTTL, lru_Add. destruct (lru_Get now (seedToTime h) m) as [[x|] c] eqn:Hg; cbn.
  - destruct (lru_Get now c m) as [prev t] eqn:Ht, (lru_Get now (seedToClientIP h) m) as [[ip|] a]; [case_bool_decide|];
      intros [= <- <- <-]; (split; [by intros ->|done]).
  - intros [= <- <- <-]. done.
Qed.

Lemma add_config now h strictMode clientIP seedType m TTL ok log h' d :
  AddNewWithTTL now h strictMode clientIP seedType m TTL = (ok, log, h') -> lifetime (seedToTime h') d = lifetime (seedToTime h) d.
Proof.
  intros [_ ->]%add_spec. unfold lifetime.
  destruct (lru_Add _ _ _ _ _).1; cbn; by rewrite ?(proj1 (Get_config _ _ _)), ?(proj1 (Get_config _ _ _)).
Qed.

(** The other seeds are kept as long as before, and so is a seed that was there. *)
Lemma add_keeps now h strictMode clientIP seedType m TTL ok log h' k e :
  AddNewWithTTL now h strictMode clientIP seedType m TTL = (ok, log, h') -> m <> k \/ (lru_Add now (seedToTime h) m now TTL).1 = false ->
  kept_until (seedToTime h) k e -> kept_until (seedToTime h') k e.
Proof.
  intros [_ ->]%add_spec Hk Hu. destruct (lru_Add _ _ _ _ _).1.
  - destruct Hk as [Hk|[=]]. apply Set_keeps; [done|]. by apply Get_keeps.
  - by apply Get_keeps, Get_keeps.
Qed.

(** A seed that is still kept is not added. *)
Lemma kept_not_added {A} now (c : lru A) k x d e : kept_until c k e -> now <= e -> (lru_Add now c k x d).1 = false.
Proof. intros Hk Hn. unfold lru_Add. destruct (live_found now c k e Hk Hn) as [y ->]. done. Qed.

Section Strict.
Context (inputs : bytes -> Prop) (verify : Z -> bytes -> bool) (seedType : string) (TTL : Z) (h0 : SeedHistory).
Let life := lifetime (seedToTime h0) TTL.
Context (Hlife : 0 < life).

(** The times of two acceptances of a value are further apart than it is kept. *)
Definition spaced (d : Z) (l : list (bytes * string * Z)) : Prop :=
  forall i j m ip1 ip2 t1 t2, (i < j)%nat -> l !! i = Some (m, ip1, t1) -> l !! j = Some (m, ip2, t2) -> t1 + d < t2.

Record strict_inv (s : history_server) : Prop := {
  strict_inputs m ip t : (m, ip, t) ∈ accepted s -> inputs m;
  strict_spaced : spaced life (accepted s);
  strict_life : lifetime (seedToTime (history s)) TTL = life;
  strict_kept m ip t : (m, ip, t) ∈ accepted s -> t + life < clock s \/ kept_until (seedToTime (history s)) m (t + life)
}.

Lemma spaced_snoc l m ip t : spaced life l -> (forall ip' t', (m, ip', t') ∈ l -> t' + life < t) -> spaced life (l ++ [(m, ip, t)]).
Proof.
  intros Hl Hm i j m' ip1 ip2 t1 t2 Hij Hi Hj.
  apply lookup_app_Some in Hj as [Hj|[Hlen Hj]].
  - rewrite lookup_app_l in Hi; [by eapply Hl|]. apply lookup_lt_Some in Hj. lia.
  - apply list_lookup_singleton_Some in Hj as [Hj [= <- <- <-]]. rewrite lookup_app_l in Hi by lia.
    eapply Hm, list_elem_of_lookup_2, Hi.
Qed.

Lemma strict_check_inv s now clientIP m ok h : strict_inv s -> clock s <= now -> inputs m ->
  strict_check verify seedType TTL now clientIP m (history s) = (ok, h) ->
  strict_inv {| clock := now; history := h; accepted := if ok then accepted s ++ [(m, clientIP, now)] else accepted s |}.
Proof.
  intros [Hin Hs Hl Hk] Hn Him Hc. unfold strict_check in Hc. destruct (verify now m).
  2: { injection Hc as <- <-. split; cbn; [done..|]. intros m' ip t Ht. destruct (Hk _ _ _ Ht); [left; lia|by right]. }
  destruct (AddNewWithTTL _ _ _ _ _ _ _) as [[ok' log] h'] eqn:Ha. injection Hc as -> ->.
  destruct (add_spec _ _ _ _ _ _ _ _ _ _ Ha) as [Hok Ht']. specialize (Hok eq_refl).
  assert (lifetime (seedToTime h) TTL = life) as Hlh by (by rewrite (add_config _ _ _ _ _ _ _ _ _ _ _ Ha)).
  destruct ok.
  - assert (forall ip t, (m, ip, t) ∈ accepted s -> t + life < now) as Hold.
    { intros ip t Ht. destruct (Hk _ _ _ Ht) as [?|Hu]; [lia|]. apply Z.nle_gt. intros Hle.
      pose proof (kept_not_added now _ _ now TTL _ Hu Hle). congruence. }
    split; cbn; [|by apply spaced_snoc|done|].
    + intros m' ip t [Ht|Ht]%elem_of_app; [by eapply Hin|]. by apply list_elem_of_singleton in Ht as [= -> _ _].
    + intros m' ip t [Ht|Ht]%elem_of_app.
      * destruct (decide (m = m')) as [<-|Hne]; [left; by eapply Hold|].
        destruct (Hk _ _ _ Ht) as [?|Hu]; [left; lia|right]. eapply add_keeps; [done|by left|done].
      * apply list_elem_of_singleton in Ht as [= -> -> ->]. right. rewrite Ht', <- Hok.
        assert (lifetime (lru_Get now (seedToTime (history s)) m).2 TTL = life) as E by (unfold lifetime in *; by rewrite (proj1 (Get_config _ _ _))).
        rewrite <- E. apply Set_kept. by rewrite E.
  - split; cbn; [done..|]. intros m' ip t Ht. destruct (Hk _ _ _ Ht) as [?|Hu]; [left; lia|right].
    eapply add_keeps; [done|by right|done].
Qed.

Lemma strict_step_inv s s' : quiet_step inputs (strict_check verify seedType TTL) s s' -> strict_inv s -> strict_inv s'.
Proof.
  intros [Hst Hu] Hi. destruct Hst as [s now clientIP m ok h Hn Hm Hc|s now strictMode clientIP ty seed ok log h Hn Hm Hc|s now selected Hn|s now selected Hn].
  - by eapply strict_check_inv.
  - destruct Hi as [Hin Hs Hl Hk]. split; cbn; [done..|by rewrite (add_config _ _ _ _ _ _ _ _ _ _ _ Hc)|].
    intros m ip t Ht. destruct (Hk _ _ _ Ht) as [?|Hkept]; [left; lia|right].
    eapply add_keeps; [done| |done]. left. intros ->. by eapply Hm, Hin.
  - destruct Hi as [Hin Hs Hl Hk]. destruct (janitor_config now selected (seedToTime (history s))) as [Hc _].
    split; cbn; [done..|unfold lifetime in *; by rewrite Hc|].
    intros m ip t Ht. destruct (Hk _ _ _ Ht) as [?|Hkept]; [left; lia|].
    destruct (decide (now <= t + life)); [right|left; lia]. by apply janitor_keeps.
  - destruct Hi as [Hin Hs Hl Hk]. split; cbn; [done..|]. intros m ip t Ht. destruct (Hk _ _ _ Ht); [left; lia|by right].
Qed.

Lemma strict_run_inv now s : rtc (quiet_step inputs (strict_check verify seedType TTL)) (history_start now h0) s -> strict_inv s.
Proof.
  intros Hr. remember (history_start now h0) as s0 eqn:E. assert (strict_inv s0) as H0.
  { subst. split; cbn; [by intros m ip t Ht%elem_of_nil|intros i j m ip1 ip2 t1 t2 _ Hi; by rewrite lookup_nil in Hi|done|].
    by intros m ip t Ht%elem_of_nil. }
  clear E. induction Hr as [|s s1 s2 H1 _ IH]; [done|]. apply IH. by eapply strict_step_inv.
Qed.

(** The values were verified when they were accepted. *)
Record verified_inv (now : Z) (s : history_server) : Prop := {
  verified_clock : now <= clock s;
  verified_values m ip t : (m, ip, t) ∈ accepted s -> verify t m = true /\ now <= t <= clock s
}.

Lemma strict_run_verified now s : rtc (quiet_step inputs (strict_check verify seedType TTL)) (history_start now h0) s -> verified_inv now s.
Proof.
  intros Hr. remember (history_start now h0) as s0 eqn:E. assert (verified_inv now s0) as H0.
  { subst. split; cbn; [lia|]. by intros m ip t Ht%elem_of_nil. }
  clear E. induction Hr as [|s s1 s2 [Hst _] _ IH]; [done|]. apply IH. clear IH. destruct H0 as [Hn Hv].
  assert (forall n, clock s <= n -> forall m ip t, (m, ip, t) ∈ accepted s -> verify t m = true /\ now <= t <= n) as Hv'.
  { intros n Hle m ip t Ht. destruct (Hv _ _ _ Ht). split; [done|lia]. }
  destruct Hst as [s n clientIP m ok h Hle _ Hc|s n strictMode clientIP ty seed ok log h Hle _ Hc|s n selected Hle|s n selected Hle];
    (split; cbn; [lia|]); [|by apply Hv'..].
  intros m' ip t Ht. unfold strict_check in Hc. destruct (verify n m) eqn:Hm; [|injection Hc as <- <-; by eapply Hv'].
  destruct (AddNewWithTTL _ _ _ _ _ _ _) as [[[] log] h'']; injection Hc as <- <-; [|by eapply Hv'].
  apply elem_of_app in Ht as [Ht|Ht]; [by eapply Hv'|]. apply list_elem_of_singleton in Ht as [= -> -> ->]. split; [done|lia].
Qed.
End Strict.

(** A seed that is not there, or expired, is added. *)
Definition absent {A} (now : Z) (c : lru A) (k : bytes) : Prop := forall i, items c !! k = Some i -> item_expired now i = true.

Lemma absent_added now h strictMode clientIP seedType m TTL : absent now (seedToTime h) m ->
  AddNewWithTTL now h strictMode clientIP seedType m TTL =
    (true, None, set_caches h (lru_Set now (seedToTime h) m now TTL) (lru_Set now (seedToClientIP h) m clientIP 0)).
Proof.
  intros Ha. unfold AddNewWithTTL, lru_Add. assert (lru_Get now (seedToTime h) m = (None, seedToTime h)) as ->; [|done].
  unfold lru_Get. destruct (items (seedToTime h) !! m) as [i|] eqn:Hi; [|done]. by rewrite (Ha i Hi).
Qed.

Lemma Set_expires {A} now now' (c : lru A) k x d : 0 <= now -> 0 < lifetime c d -> now + lifetime c d < now' -> absent now' (lru_Set now c k x d) k.
Proof.
  unfold lifetime. intros Hn Hd Hlt i. unfold lru_Set. cbn. rewrite lookup_insert_eq. intros [= <-]. unfold item_expired. cbn.
  destruct (Z.ltb_spec 0 (if d =? 0 then defaultExpiration c else d)); lia.
Qed.

(** ** The time window of a passthrough message *)

Section Window.
Context `{Digests}.

Definition period_key (obfuscatedKey : string) (p : Z) : bytes :=
  hkdf_sha256 (list_byte_of_string obfuscatedKey) (list_byte_of_string "passthrough-obfuscation-key" ++ le_store 8 p) [] TLS_PASSTHROUGH_KEY_SIZE.

(** The time period of an instant. *)
Definition period (now : Z) : Z := (now / Second + 600) / 1200.

Lemma timePeriodSeconds_eq : timePeriodSeconds = 1200.
Proof. done. Qed.

Lemma rounded_period now shift : TLS_PASSTHROUGH_TIME_PERIOD <= now -> -1 <= shift -> roundedTimePeriod now shift = period now + shift.
Proof.
  intros Hn Hs. unfold roundedTimePeriod, period. rewrite timePeriodSeconds_eq. change (Z.quot 1200 2) with 600.
  assert (1200 <= now / Second) by (apply Z.div_le_lower_bound; [done|unfold TLS_PASSTHROUGH_TIME_PERIOD, Minute in Hn; lia]).
  rewrite Z.quot_div_nonneg by lia. rewrite (Z.mul_comm 1200 shift), Z.div_add by lia. done.
Qed.

Lemma verify_period now key m : TLS_PASSTHROUGH_TIME_PERIOD <= now -> length m = 32%nat ->
  VerifyTLSPassthroughMessage now true key m = true <->
  exists p, period now - 1 <= p <= period now + 1 /\ passthrough_match (period_key key p) m = true.
Proof.
  intros Hn Hm. unfold VerifyTLSPassthroughMessage. rewrite Hm. cbn [Nat.eqb TLS_PASSTHROUGH_MESSAGE_SIZE foldl].
  unfold derivePassthroughKey. rewrite !rounded_period by (done || lia). fold (period_key key (period now + -1)) (period_key key (period now + 0)) (period_key key (period now + 1)).
  split.
  - intros Hv. destruct (passthrough_match (period_key key (period now + 1)) m) eqn:H1; [exists (period now + 1); split; [lia|done]|].
    destruct (passthrough_match (period_key key (period now + 0)) m) eqn:H0; [exists (period now + 0); split; [lia|done]|].
    destruct (passthrough_match (period_key key (period now + -1)) m) eqn:H2; [exists (period now + -1); split; [lia|done]|discriminate].
  - intros (p & Hp & Hm'). assert (p = period now + -1 \/ p = period now + 0 \/ p = period now + 1) as [->|[->| ->]] by lia; rewrite Hm'; by repeat case_match.
Qed.

(** A message that matches the key of no more than one time period: a second match is a
    collision of the message authentication code. *)
Definition single_period (key : string) (m : bytes) : Prop :=
  forall p q, 0 <= p < 2 ^ 63 -> 0 <= q < 2 ^ 63 ->
    passthrough_match (period_key key p) m = true -> passthrough_match (period_key key q) m = true -> p = q.

Lemma period_range now : TLS_PASSTHROUGH_TIME_PERIOD <= now < 2 ^ 63 -> 1 <= period now < 2 ^ 62.
Proof.
  intros [Hl Hu]. unfold period.
  assert (1200 <= now / Second) by (apply Z.div_le_lower_bound; [done|unfold TLS_PASSTHROUGH_TIME_PERIOD, Minute in Hl; lia]).
  assert (now / Second < 2 ^ 34) by (apply Z.div_lt_upper_bound; [done|unfold Second; lia]).
  split; [apply Z.div_le_lower_bound; lia|apply Z.div_lt_upper_bound; lia].
Qed.

(** Two instants at which a message is valid are less than three periods apart. *)
Lemma verified_within key m t t' : single_period key m -> length m = 32%nat ->
  TLS_PASSTHROUGH_TIME_PERIOD <= t < 2 ^ 63 -> TLS_PASSTHROUGH_TIME_PERIOD <= t' < 2 ^ 63 ->
  VerifyTLSPassthroughMessage t true key m = true -> VerifyTLSPassthroughMessage t' true key m = true ->
  t' < t + TLS_PASSTHROUGH_HISTORY_TTL.
Proof.
  intros Hs Hm Ht Ht' (p & Hp & Hpm)%verify_period (q & Hq & Hqm)%verify_period; [|lia|done|lia|done].
  pose proof (period_range t Ht). pose proof (period_range t' Ht'). assert (p = q) as <- by (apply Hs; [lia|lia|done|done]).
  assert (period t' <= period t + 2) as Hd by lia. unfold period in Hd.
  pose proof (Z.div_mod (t / Second + 600) 1200 ltac:(lia)). pose proof (Z.div_mod (t' / Second + 600) 1200 ltac:(lia)).
  pose proof (Z.mod_pos_bound (t / Second + 600) 1200 ltac:(lia)). pose proof (Z.mod_pos_bound (t' / Second + 600) 1200 ltac:(lia)).
  assert (t' / Second < t / Second + 3600) as Hd' by lia.
  pose proof (Z.div_mod t Second ltac:(done)). pose proof (Z.div_mod t' Second ltac:(done)).
  pose proof (Z.mod_pos_bound t Second ltac:(done)). pose proof (Z.mod_pos_bound t' Second ltac:(done)).
  unfold TLS_PASSTHROUGH_HISTORY_TTL, TLS_PASSTHROUGH_TIME_PERIOD, Minute, Second in *. lia.
Qed.

(** The message of a client is valid for the server when their clocks differ by up to a
    period. *)
Lemma made_verified key nonce t t' : length nonce = TLS_PASSTHROUGH_NONCE_SIZE ->
  TLS_PASSTHROUGH_TIME_PERIOD <= t -> TLS_PASSTHROUGH_TIME_PERIOD <= t' -> Z.abs (t - t') <= TLS_PASSTHROUGH_TIME_PERIOD ->
  VerifyTLSPassthroughMessage t' true key (MakeTLSPassthroughMessage t true key nonce) = true.
Proof.
  intros Hno Ht Ht' Hd. apply verify_period; [done| |].
  { unfold MakeTLSPassthroughMessage. rewrite length_app, length_take, hmac_length, Hno. done. }
  exists (period t). split.
  - assert (Z.abs (t / Second - t' / Second) <= 1200) as Hs.
    { pose proof (Z.div_mod t Second ltac:(done)). pose proof (Z.div_mod t' Second ltac:(done)).
      pose proof (Z.mod_pos_bound t Second ltac:(done)). pose proof (Z.mod_pos_bound t' Second ltac:(done)).
      unfold TLS_PASSTHROUGH_TIME_PERIOD, Minute, Second in *. lia. }
    unfold period. pose proof (Z.div_mod (t / Second + 600) 1200 ltac:(lia)). pose proof (Z.div_mod (t' / Second + 600) 1200 ltac:(lia)).
    pose proof (Z.mod_pos_bound (t / Second + 600) 1200 ltac:(lia)). pose proof (Z.mod_pos_bound (t' / Second + 600) 1200 ltac:(lia)). lia.
  - unfold passthrough_match, MakeTLSPassthroughMessage, derivePassthroughKey. rewrite rounded_period by (done || lia).
    rewrite Z.add_0_r. fold (period_key key (period t)).
    rewrite (drop_app_length' nonce), (take_app_length' nonce) by done. by apply bool_decide_eq_true.
Qed.
End Window.

(** ** Retries *)

(** What an addition does to the cache of addresses. *)
Lemma add_address now h strictMode clientIP seedType m TTL ok log h' :
  AddNewWithTTL now h strictMode clientIP seedType m TTL = (ok, log, h') ->
  if (lru_Add now (seedToTime h) m now TTL).1 then ok = true /\ seedToClientIP h' = lru_Set now (seedToClientIP h) m clientIP 0
  else (ok = true -> (lru_Get now (seedToClientIP h) m).1 = Some clientIP) /\ seedToClientIP h' = (lru_Get now (seedToClientIP h) m).2.
Proof.
  unfold AddNewWithTTL, lru_Add. destruct (lru_Get now (seedToTime h) m) as [[x|] c]; cbn; [|by intros [= <- <- <-]].
  destruct (lru_Get now c m) as [prev t], (lru_Get now (seedToClientIP h) m) as [[ip|] a]; [case_bool_decide|];
    intros [= <- <- <-]; (split; [cbn; congruence|done]).
Qed.

(** Reading keeps the objects and their expiration. *)
Lemma Get_items {A} now (c : lru A) k k' i : items (lru_Get now c k).2 !! k' = Some i ->
  exists i', items c !! k' = Some i' /\ Object i' = Object i /\ Expiration i' = Expiration i.
Proof.
  unfold lru_Get. destruct (items c !! k) as [j|] eqn:Hj; [|by exists i].
  destruct (item_expired now j); [by exists i|]. destruct (0 <? maxItems c); [|by exists i].
  cbn. intros [[-> <-]|[_ ?]]%lookup_insert_Some; [by exists j|by exists i].
Qed.

Lemma Get_found {A} now (c : lru A) k x : (lru_Get now c k).1 = Some x ->
  exists i, items c !! k = Some i /\ Object i = x /\ item_expired now i = false.
Proof.
  unfold lru_Get. destruct (items c !! k) as [j|]; [|done]. destruct (item_expired now j) eqn:He; [done|].
  intros Hx. exists j. split; [done|]. by destruct (0 <? maxItems c); injection Hx as <-.
Qed.

Lemma Get_none {A} now (c : lru A) k k' : items c !! k' = None -> items (lru_Get now c k).2 !! k' = None.
Proof.
  intros Hn. destruct (items (lru_Get now c k).2 !! k') as [i|] eqn:Hi; [|done]. apply Get_items in Hi as (i' & Hi' & _). congruence.
Qed.

Lemma add_address_config now h strictMode clientIP seedType m TTL ok log h' d :
  AddNewWithTTL now h strictMode clientIP seedType m TTL = (ok, log, h') -> lifetime (seedToClientIP h') d = lifetime (seedToClientIP h) d.
Proof.
  intros Ha%add_address. unfold lifetime. destruct (lru_Add _ _ _ _ _).1; destruct Ha as [_ ->]; [done|]. by rewrite (proj1 (Get_config _ _ _)).
Qed.

(** The items of the other seeds. *)
Lemma add_other now h strictMode clientIP seedType m TTL ok log h' k :
  AddNewWithTTL now h strictMode clientIP seedType m TTL = (ok, log, h') -> m <> k ->
  (items (seedToTime h) !! k = None -> items (seedToTime h') !! k = None) /\
  (forall i, items (seedToClientIP h') !! k = Some i ->
    exists i', items (seedToClientIP h) !! k = Some i' /\ Object i' = Object i /\ Expiration i' = Expiration i).
Proof.
  intros Ha Hk. pose proof (add_spec _ _ _ _ _ _ _ _ _ _ Ha) as [_ ->]. pose proof (add_address _ _ _ _ _ _ _ _ _ _ Ha) as Hd.
  destruct (lru_Add _ _ _ _ _).1; destruct Hd as [_ ->]; split.
  - intros Hn. cbn. rewrite lookup_insert_ne by done. by apply Get_none.
  - intros i. cbn. rewrite lookup_insert_ne by done. eauto.
  - intros Hn. by apply Get_none, Get_none.
  - intros i. apply Get_items.
Qed.

Section Retries.
Context (verify : Z -> bytes -> bool) (seedType : string) (inputs : bytes -> Prop) (m : bytes).

Definition lax_check : checker := fun now clientIP k h =>
  if verify now k then let '(ok, _, h) := AddNew now h false clientIP seedType k in (ok, h) else (false, h).

Context (life life_ip now0 : Z) (Hlife : 0 < life) (Hlife_ip : 0 < life_ip) (Hnow : 0 <= now0) (Hm : inputs m).
(** The value is verified only within the lifetime of a seed. *)
Context (bound : Z) (Hwithin : forall t t', now0 <= t < bound -> now0 <= t' < bound -> verify t m = true -> verify t' m = true -> t' <= t + life).

(** The value was first accepted from an address at a time, and its retries from the same. *)
Record retried (s : history_server) (ip0 : string) (t0 : Z) : Prop := {
  retried_first : verify t0 m = true /\ now0 <= t0 <= clock s;
  retried_all ip t : (m, ip, t) ∈ accepted s -> ip = ip0 /\ t0 <= t <= t0 + life_ip;
  retried_kept : t0 + life < clock s \/ kept_until (seedToTime (history s)) m (t0 + life);
  retried_address i : items (seedToClientIP (history s)) !! m = Some i -> Object i = ip0 /\ 0 < Expiration i <= t0 + life_ip
}.

Definition unseen (s : history_server) : Prop := (forall ip t, (m, ip, t) ∉ accepted s) /\ items (seedToTime (history s)) !! m = None.

Record lax_inv (s : history_server) : Prop := {
  lax_clock : now0 <= clock s;
  lax_life : lifetime (seedToTime (history s)) 0 = life;
  lax_life_ip : lifetime (seedToClientIP (history s)) 0 = life_ip;
  lax_retried : unseen s \/ exists ip0 t0, retried s ip0 t0
}.

(** A step that accepts nothing of the value and keeps it in the caches as it was. *)
Lemma lax_frame s s' : lax_inv s -> clock s <= clock s' ->
  lifetime (seedToTime (history s')) 0 = lifetime (seedToTime (history s)) 0 ->
  lifetime (seedToClientIP (history s')) 0 = lifetime (seedToClientIP (history s)) 0 ->
  (forall ip t, (m, ip, t) ∈ accepted s' <-> (m, ip, t) ∈ accepted s) ->
  (items (seedToTime (history s)) !! m = None -> items (seedToTime (history s')) !! m = None) ->
  (forall e, clock s' <= e -> kept_until (seedToTime (history s)) m e -> kept_until (seedToTime (history s')) m e) ->
  (forall i, items (seedToClientIP (history s')) !! m = Some i ->
    exists i', items (seedToClientIP (history s)) !! m = Some i' /\ Object i' = Object i /\ Expiration i' = Expiration i) ->
  lax_inv s'.
Proof.
  intros [Hc Hl Hli Hr] Hle El Eli Ha Hn Hk Hi. split; [lia|congruence|congruence|].
  destruct Hr as [[Hu Hnone]|(ip0 & t0 & [Hf Hall Hkept Hadd])].
  - left. split; [intros ip t; rewrite Ha; apply Hu|auto].
  - right. exists ip0, t0. split; [destruct Hf; split; [done|lia]|intros ip t; rewrite Ha; apply Hall| |].
    + destruct (decide (t0 + life < clock s')) as [?|Hge]; [by left|]. right. destruct Hkept as [?|?]; [lia|]. apply Hk; [lia|done].
    + intros i (i' & Hi' & <- & <-)%Hi. by apply Hadd.
Qed.

Lemma lax_other s now strictMode clientIP ty k TTL ok log h l : lax_inv s -> clock s <= now -> k <> m ->
  AddNewWithTTL now (history s) strictMode clientIP ty k TTL = (ok, log, h) ->
  (forall ip t, (m, ip, t) ∈ l <-> (m, ip, t) ∈ accepted s) -> lax_inv {| clock := now; history := h; accepted := l |}.
Proof.
  intros Hi Hn Hk Ha Hl. destruct (add_other _ _ _ _ _ _ _ _ _ _ _ Ha Hk) as [Ho1 Ho2].
  apply (lax_frame s); cbn [clock history accepted seedToTime seedToClientIP set_caches]; [done|done| | |done|done| |done].
  - by eapply add_config.
  - by eapply add_address_config.
  - intros e _ Hkept. eapply add_keeps; [done|by left|done].
Qed.

Lemma lax_same s now clientIP ok log h : lax_inv s -> clock s <= now < bound -> verify now m = true ->
  AddNew now (history s) false clientIP seedType m = (ok, log, h) ->
  lax_inv {| clock := now; history := h; accepted := if ok then accepted s ++ [(m, clientIP, now)] else accepted s |}.
Proof.
  intros [Hc Hl Hli Hr] Hn Hv Ha. pose proof (add_spec _ _ _ _ _ _ _ _ _ _ Ha) as [_ Ht]. pose proof (add_address _ _ _ _ _ _ _ _ _ _ Ha) as Hd.
  split; cbn [clock history accepted]; [lia|by erewrite add_config|by erewrite add_address_config|]. right.
  destruct Hr as [[Hu Hnone]|(ip0 & t0 & [[Hf1 Hf2] Hall Hkept Hadd])].
  - assert (lru_Get now (seedToTime (history s)) m = (None, seedToTime (history s))) as Hg by (unfold lru_Get; by rewrite Hnone).
    unfold lru_Add in *. rewrite Hg in Ht, Hd. cbn in Ht, Hd. destruct Hd as [-> Hd].
    exists clientIP, now. split; cbn; [split; [done|lia]| | |].
    + intros ip t [Hin|Hin]%elem_of_app; [by apply Hu in Hin|]. apply list_elem_of_singleton in Hin as [= -> ->]. split; [done|lia].
    + right. rewrite Ht, <- Hl. apply Set_kept. by rewrite Hl.
    + intros i. rewrite Hd. unfold lru_Set. cbn. rewrite lookup_insert_eq. intros [= <-]. cbn. unfold lifetime in Hli. cbn in Hli.
      rewrite Hli. split; [done|]. destruct (Z.ltb_spec 0 life_ip); lia.
  - assert (now <= t0 + life) as Hw by (apply Hwithin; [lia|lia|done|done]). destruct Hkept as [?|Hkept]; [lia|].
    rewrite (kept_not_added _ _ _ _ _ _ Hkept Hw) in Ht, Hd. destruct Hd as [Hok Hd].
    exists ip0, t0. split; cbn; [split; [done|lia]| | |].
    + destruct ok; [|apply Hall]. intros ip t [Hin|Hin]%elem_of_app; [by apply Hall|]. apply list_elem_of_singleton in Hin as [= -> ->].
      destruct (Get_found _ _ _ _ (Hok eq_refl)) as (i & Hi & <- & He). destruct (Hadd i Hi) as [-> Hx]. split; [done|].
      unfold item_expired in He. apply andb_false_iff in He as [He|He]; lia.
    + right. rewrite Ht. by apply Get_keeps, Get_keeps.
    + intros i. rewrite Hd. intros (i' & Hi' & <- & <-)%Get_items. by apply Hadd.
Qed.

Lemma lax_step_inv s s' : quiet_step inputs lax_check s s' -> clock s' < bound -> lax_inv s -> lax_inv s'.
Proof.
  intros [Hst Hu] Hb Hi. destruct Hst as [s now clientIP k ok h Hn Hk Hc|s now strictMode clientIP ty seed ok log h Hn Hk Hc|s now selected Hn|s now selected Hn].
  - unfold lax_check in Hc. destruct (verify now k) eqn:Hv.
    2: { injection Hc as <- <-. apply (lax_frame s); cbn [clock history accepted seedToTime seedToClientIP set_caches]; eauto. }
    destruct (AddNew _ _ _ _ _ _) as [[ok' log] h'] eqn:Ha. injection Hc as -> ->. destruct (decide (k = m)) as [->|Hne].
    + eapply lax_same; [done|cbn in Hb; lia|done|done].
    + eapply lax_other; [done|done|done|done|]. intros ip t. destruct ok; [|done]. rewrite elem_of_app, list_elem_of_singleton.
      split; [by intros [?|[=]]|by left].
  - eapply lax_other; [done|done| |done|done]. by intros ->.
  - apply (lax_frame s); cbn [clock history accepted seedToTime seedToClientIP set_caches]; [done|done| |done|done| | |eauto].
    + unfold lifetime. by rewrite (proj1 (janitor_config _ _ _)).
    + intros Hnone. destruct (items (janitor now selected (seedToTime (history s))) !! m) eqn:E; [|done]. apply janitor_items in E. congruence.
    + intros e He Hk. by apply janitor_keeps.
  - apply (lax_frame s); cbn [clock history accepted seedToTime seedToClientIP set_caches]; [done|done|done| |done|done|done|].
    + unfold lifetime. by rewrite (proj1 (janitor_config _ _ _)).
    + intros i Hj%janitor_items. eauto.
Qed.

Lemma server_step_clock (check : checker) (s s' : history_server) : quiet_step inputs check s s' -> clock s <= clock s'.
Proof. intros [[] _]; done. Qed.

Lemma lax_run_inv s0 s : lax_inv s0 -> rtc (quiet_step inputs lax_check) s0 s -> clock s < bound -> lax_inv s.
Proof.
  intros H0 Hr. revert H0. induction Hr as [|s s1 s2 H1 Hr IH]; [done|]. intros H0 Hb. apply IH; [|done].
  eapply lax_step_inv; [done| |done]. assert (clock s1 <= clock s2); [|lia].
  clear -Hr. induction Hr as [|s s1 s2 H1 _ IH]; [lia|]. apply server_step_clock in H1. lia.
Qed.
End Retries.

(** ** Replay *)

Section Replay.
Context `{Digests}.

(** The random value of a ClientHello is 32 bytes, and the seeds of meek cookies, in the same
    history, are 16. *)
Definition client_random (m : bytes) : Prop := length m = 32%nat.

Definition meek_server (LegacyPassthrough : bool) (obfuscatedKey : string) : checker :=
  fun now clientIP m h => meek_check now LegacyPassthrough obfuscatedKey clientIP m h.
Definition tls_tunnel_server (obfuscatedKey : string) : checker := fun now clientIP m h => tls_tunnel_check now obfuscatedKey clientIP m h.
Definition quic_server (obfuscationKey : string) : checker := fun now remoteAddr m h => verifyClientHelloRandom now obfuscationKey remoteAddr m h.

(** C12: Replays and the passthrough check of the meek server, whatever the other uses of the
    history, the janitors and the order of the connections, as long as the history is within
    its size and evicts nothing.  With time factors, a passthrough message that matches one
    time period only is accepted at most once in any run, because the history keeps it at
    least as long as its time factor is valid.  In the legacy mode, in which messages have no
    time factor and do not expire, a message is accepted again only when the history has
    forgotten it, more than HISTORY_SEED_TTL (a day) after it was accepted before. *)
Theorem meek_no_replay LegacyPassthrough key now s m i j ip1 ip2 t1 t2 :
  TLS_PASSTHROUGH_TIME_PERIOD <= now ->
  rtc (quiet_step client_random (meek_server LegacyPassthrough key)) (history_start now (NewSeedHistory None)) s ->
  clock s < 2 ^ 63 -> (LegacyPassthrough = false -> single_period key m) -> (i < j)%nat ->
  accepted s !! i = Some (m, ip1, t1) -> accepted s !! j = Some (m, ip2, t2) ->
  LegacyPassthrough = true /\ t1 + HISTORY_SEED_TTL < t2.
Proof.
  intros Hn Hr Hc Hs Hij Hi Hj.
  change (meek_server LegacyPassthrough key) with (strict_check (fun now m => VerifyTLSPassthroughMessage now (negb LegacyPassthrough) key m) "client-random"
    (if LegacyPassthrough then HISTORY_SEED_TTL else TLS_PASSTHROUGH_HISTORY_TTL)) in Hr.
  pose proof (strict_run_verified _ _ _ _ _ _ _ Hr) as [_ Hv]. apply strict_run_inv in Hr as [Hin Hsp _ _]; [|by destruct LegacyPassthrough].
  pose proof (Hsp _ _ _ _ _ _ _ Hij Hi Hj) as Hlt. destruct LegacyPassthrough; [split; [done|exact Hlt]|exfalso].
  apply list_elem_of_lookup_2 in Hi, Hj. destruct (Hv _ _ _ Hi) as [Hvi Hti], (Hv _ _ _ Hj) as [Hvj Htj].
  pose proof (verified_within key m t1 t2 (Hs eq_refl) (Hin _ _ _ Hi) ltac:(lia) ltac:(lia) Hvi Hvj).
  change (lifetime _ _) with TLS_PASSTHROUGH_HISTORY_TTL in Hlt. lia.
Qed.

(** C13: The check of the QUIC listener admits the retries of a client and nothing else: in any
    run, all acceptances of a passthrough message come from one address, within the two
    minutes that the address of its first is kept. *)
Theorem quic_retries key now s m ip1 ip2 t1 t2 :
  TLS_PASSTHROUGH_TIME_PERIOD <= now ->
  rtc (quiet_step client_random (quic_server key)) (history_start now quic_history) s ->
  clock s < 2 ^ 63 -> client_random m -> single_period key m ->
  (m, ip1, t1) ∈ accepted s -> (m, ip2, t2) ∈ accepted s -> ip1 = ip2 /\ Z.abs (t1 - t2) <= HISTORY_CLIENT_IP_TTL.
Proof.
  intros Hn Hr Hc Hm Hs H1 H2.
  change (quic_server key) with (lax_check (fun now m => VerifyTLSPassthroughMessage now true key m) "client-hello-random") in Hr.
  eapply (lax_run_inv _ _ _ m TLS_PASSTHROUGH_HISTORY_TTL HISTORY_CLIENT_IP_TTL now) in Hr; [| | | | | | |exact Hc]; [|done|done| |done| |].
  - destruct Hr as [_ _ _ [[Hu _]|(ip0 & t0 & [_ Hall _ _])]]; [by apply Hu in H1|].
    destruct (Hall _ _ H1) as [-> ?], (Hall _ _ H2) as [-> ?]. split; [done|lia].
  - unfold TLS_PASSTHROUGH_TIME_PERIOD, Minute, Second in Hn. lia.
  - intros t t' Ht Ht' Hv Hv'. pose proof (verified_within key m t t' Hs Hm ltac:(lia) ltac:(lia) Hv Hv'). lia.
  - split; cbn; [lia|done|done|]. left. split; [intros ip t; apply not_elem_of_nil|apply lookup_empty].
Qed.

(** The seeds that the server of the obfuscated SSH protocol accepts are at least a day
    apart when they are equal. *)
Theorem seeds_spaced now s : rtc (quiet_step (fun _ => True) (strict_check (fun _ _ => true) "obfuscator-seed" 0)) (history_start now (NewSeedHistory None)) s ->
  spaced HISTORY_SEED_TTL (accepted s).
Proof. intros Hr. apply strict_run_inv in Hr as [_ Hs _ _]; done. Qed.

(** A value that stays valid after the history has forgotten it is accepted again, from any
    address. *)
Lemma strict_replay verify TTL m ip1 ip2 t1 t2 : client_random m -> verify t1 m = true -> verify t2 m = true ->
  0 <= t1 -> 0 < TTL -> t1 + TTL < t2 ->
  exists s, rtc (quiet_step client_random (strict_check verify "client-random" TTL)) (history_start t1 (NewSeedHistory None)) s /\
    accepted s = [(m, ip1, t1); (m, ip2, t2)].
Proof.
  intros Hm H1 H2 Hp HT Hlt. pose proof (absent_added t1 (NewSeedHistory None) true ip1 "client-random" m TTL) as A1.
  specialize (A1 ltac:(intros i; cbn; by rewrite lookup_empty)). set (h1 := set_caches _ _ _) in A1.
  assert (Hl : lifetime (seedToTime (NewSeedHistory None)) TTL = TTL) by (unfold lifetime; destruct (Z.eqb_spec TTL 0); lia).
  pose proof (absent_added t2 h1 true ip2 "client-random" m TTL
    (Set_expires t1 t2 (seedToTime (NewSeedHistory None)) m t1 TTL Hp ltac:(lia) ltac:(lia))) as A2.
  eexists. split.
  - eapply rtc_l; [split; [apply (step_check _ _ (history_start t1 (NewSeedHistory None)) t1 ip1 m true h1)|]|].
    + cbn. lia.
    + done.
    + unfold strict_check. cbn [history history_start]. by rewrite H1, A1.
    + done.
    + eapply rtc_once. split; [eapply (step_check _ _ _ t2 ip2 m true); [cbn; lia|done|]|].
      * unfold strict_check. cbn [history]. by rewrite H2, A2.
      * unfold uncrowded, h1. cbn [history seedToTime set_caches]. unfold lru_Set. cbn [items maxItems set_items].
        rewrite map_size_insert. done.
  - done.
Qed.

Lemma made_random now useTimeFactor key nonce : length nonce = TLS_PASSTHROUGH_NONCE_SIZE ->
  client_random (MakeTLSPassthroughMessage now useTimeFactor key nonce).
Proof. intros Hno. unfold client_random, MakeTLSPassthroughMessage. rewrite length_app, length_take, hmac_length, Hno. done. Qed.

(** The check of the TLS tunnel server keeps a message for one period only, not for the three
    that it is valid: a message is accepted again after twenty minutes, from any address. *)
Theorem tls_tunnel_replay key nonce now ip1 ip2 :
  length nonce = TLS_PASSTHROUGH_NONCE_SIZE -> 2 * TLS_PASSTHROUGH_TIME_PERIOD <= now ->
  let m := MakeTLSPassthroughMessage now true key nonce in
  let t1 := now - Minute in
  let t2 := t1 + TLS_PASSTHROUGH_TIME_PERIOD + 1 in
  exists s, rtc (quiet_step client_random (tls_tunnel_server key)) (history_start t1 (NewSeedHistory None)) s /\
    accepted s = [(m, ip1, t1); (m, ip2, t2)].
Proof.
  intros Hno Hn m t1 t2.
  apply (strict_replay (fun now m => VerifyTLSPassthroughMessage now true key m) TLS_PASSTHROUGH_TIME_PERIOD m ip1 ip2 t1 t2); [by apply made_random| | | |done|lia].
  - apply made_verified; unfold t1, TLS_PASSTHROUGH_TIME_PERIOD, Minute, Second in *; [done|lia..].
  - apply made_verified; unfold t2, t1, TLS_PASSTHROUGH_TIME_PERIOD, Minute, Second in *; [done|lia..].
  - unfold t1, TLS_PASSTHROUGH_TIME_PERIOD, Minute, Second in *; lia.
Qed.

(** In the legacy mode a message is valid for ever, and is accepted again once the history has
    forgotten it, a day later, from any address. *)
Theorem legacy_passthrough_replay key nonce t1 ip1 ip2 :
  length nonce = TLS_PASSTHROUGH_NONCE_SIZE -> 0 <= t1 ->
  let m := MakeTLSPassthroughMessage t1 false key nonce in
  let t2 := t1 + HISTORY_SEED_TTL + 1 in
  exists s, rtc (quiet_step client_random (meek_server true key)) (history_start t1 (NewSeedHistory None)) s /\
    accepted s = [(m, ip1, t1); (m, ip2, t2)].
Proof.
  intros Hno Hn m t2.
  assert (Hv : forall t, VerifyTLSPassthroughMessage t false key m = true).
  { intros t. unfold VerifyTLSPassthroughMessage. rewrite (made_random t1 false key nonce Hno : length m = 32%nat). cbn [Nat.eqb TLS_PASSTHROUGH_MESSAGE_SIZE].
    unfold passthrough_match, m, MakeTLSPassthroughMessage, derivePassthroughKey. rewrite (drop_app_length' nonce), (take_app_length' nonce) by done.
    by apply bool_decide_eq_true. }
  apply (strict_replay (fun now m => VerifyTLSPassthroughMessage now false key m) HISTORY_SEED_TTL m ip1 ip2 t1 t2); [by apply made_random|done|done|done|done|lia].
Qed.
End Replay.

(** ** Examples *)

(** Digests in which a message authentication code shows the time period of its key. *)
#[local, refine] Instance plain_digests : Digests := {|
  sha1 := fun m => take 20 (m ++ replicate 20 x00);
  hmac_sha256 := fun key m => take 32 (key ++ replicate 32 x00);
  hkdf_sha256 := fun secret salt info n => take n (drop 27 salt ++ replicate n x00)
|}.
Proof.
  - intros m. rewrite length_take, length_app, length_replicate. lia.
  - intros key m. rewrite length_take, length_app, length_replicate. lia.
  - intros secret salt info n. rewrite length_take, length_app, length_replicate. lia.
Defined.

Lemma plain_key key p : take 8 (period_key key p) = le_store 8 p.
Proof.
  unfold period_key. cbn [hkdf_sha256 plain_digests]. rewrite take_take. cbn [Nat.min TLS_PASSTHROUGH_KEY_SIZE].
  rewrite (drop_app_length' _ (le_store 8 p)) by done. by rewrite take_app_length' by (by rewrite length_le_store).
Qed.

Lemma plain_single_period key m : single_period key m.
Proof.
  assert (forall p, 0 <= p < 2 ^ 63 -> passthrough_match (period_key key p) m = true -> le_load (take 8 (drop 16 m)) = p) as Hp.
  { intros p Hp Hm. unfold passthrough_match in Hm. apply bool_decide_eq_true in Hm. unfold TLS_PASSTHROUGH_NONCE_SIZE in Hm. rewrite Hm.
    cbn [hmac_sha256 plain_digests]. rewrite take_take, take_take. cbn [Nat.min Nat.sub TLS_PASSTHROUGH_MESSAGE_SIZE].
    rewrite take_app_le by (unfold period_key; rewrite hkdf_length; unfold TLS_PASSTHROUGH_KEY_SIZE; lia).
    rewrite plain_key, le_load_store. rewrite Z.mod_small; [done|]. change (256 ^ Z.of_nat 8) with (2 ^ 64). lia. }
  intros p q Hp0 Hq0 Hpm Hqm. rewrite <- (Hp p Hp0 Hpm). by apply Hp.
Qed.

Definition check_once (check : checker) (now : Z) (ip : string) (m : bytes) (s : history_server) : history_server :=
  {| clock := now; history := (check now ip m (history s)).2;
     accepted := if (check now ip m (history s)).1 then accepted s ++ [(m, ip, now)] else accepted s |}.

Lemma check_step inputs (check : checker) s now ip m : clock s <= now -> inputs m -> uncrowded s ->
  quiet_step inputs check s (check_once check now ip m s).
Proof. intros Hn Hm Hu. split; [|done]. apply step_check; [done|done|]. apply surjective_pairing. Qed.

Definition example_time : Z := 1700000000 * Second.
Definition example_message : bytes := MakeTLSPassthroughMessage example_time true "key" (replicate 16 x01).

Definition sent_once (check : checker) (h : SeedHistory) : history_server :=
  check_once check example_time "192.0.2.1" example_message (history_start example_time h).
Definition replayed (check : checker) (h : SeedHistory) : history_server :=
  check_once check (example_time + Minute) "192.0.2.1" example_message (sent_once check h).

Lemma replayed_reachable (check : checker) h : uncrowded (history_start example_time h) -> uncrowded (sent_once check h) ->
  rtc (quiet_step client_random check) (history_start example_time h) (replayed check h).
Proof.
  intros Hu1 Hu2. eapply rtc_l; [apply (check_step _ _ _ example_time "192.0.2.1" example_message); [reflexivity|done|done]|]. eapply rtc_once, check_step; [|done|done]. cbn. unfold Minute, Second. lia.
Qed.

(** A message is replayed with the time factor a minute later, which is refused, and in the
    legacy mode two days later, which is accepted. *)
Definition legacy_example : bytes := MakeTLSPassthroughMessage example_time false "key" (replicate 16 x01).
Definition legacy_replayed : history_server :=
  check_once (meek_server true "key") (example_time + 48 * Hour) "192.0.2.2" legacy_example
    (check_once (meek_server true "key") example_time "192.0.2.1" legacy_example (history_start example_time (NewSeedHistory None))).

Lemma legacy_reachable : rtc (quiet_step client_random (meek_server true "key")) (history_start example_time (NewSeedHistory None)) legacy_replayed.
Proof.
  eapply rtc_l; [apply (check_step _ _ _ example_time "192.0.2.1" legacy_example); [reflexivity|done|vm_compute; discriminate]|].
  eapply rtc_once, check_step; [cbn; unfold Hour, Minute, Second; lia|done|vm_compute; discriminate].
Qed.

Lemma meek_no_replay_witness :
  (forall t, accepted (replayed (meek_server false "key") (NewSeedHistory None)) !! 1%nat <> Some (example_message, "192.0.2.1", t)) /\
  example_time + HISTORY_SEED_TTL < example_time + 48 * Hour.
Proof.
  split.
  - intros t Hj. destruct (meek_no_replay false "key" example_time (replayed (meek_server false "key") (NewSeedHistory None)) example_message 0 1
      "192.0.2.1" "192.0.2.1" example_time t) as [H _]; [vm_compute; discriminate| | | |lia| |exact Hj|discriminate H].
    + apply replayed_reachable; vm_compute; discriminate.
    + vm_compute. reflexivity.
    + intros _. apply plain_single_period.
    + vm_compute. reflexivity.
  - apply (meek_no_replay true "key" example_time legacy_replayed legacy_example 0 1 "192.0.2.1" "192.0.2.2");
      [vm_compute; discriminate|apply legacy_reachable|vm_compute; reflexivity|discriminate|lia|vm_compute; reflexivity..].
Defined.

Lemma quic_retries_witness : "192.0.2.1" = "192.0.2.1" /\ Z.abs (example_time - (example_time + Minute)) <= HISTORY_CLIENT_IP_TTL.
Proof.
  apply (quic_retries "key" example_time (replayed (quic_server "key") quic_history) example_message).
  - vm_compute. discriminate.
  - apply replayed_reachable; vm_compute; discriminate.
  - vm_compute. reflexivity.
  - vm_compute. reflexivity.
  - apply plain_single_period.
  - apply (list_elem_of_lookup_2 _ 0). vm_compute. reflexivity.
  - apply (list_elem_of_lookup_2 _ 1). vm_compute. reflexivity.
Defined.
