(* ===== verification/GoIO.v ===== *)
(** * Readers

    The state-and-error computations of code that reads and writes connections, the
    contract of io.Reader with [io.ReadFull], and src/psiphon/common/obfuscator/skipReader.go,
    the reader that skips the prefix of a connection.

    A connection delivers its bytes in pieces of any size.  An error leaves the state as the
    code does. *)

From Stdlib Require Import ZArith Lia Strings.Byte Strings.String.
From stdpp Require Import base list strings numbers.
From S2P Require Import Prelude.
#[local] Open Scope string_scope.
#[local] Open Scope Z_scope.
#[local] Open Scope list_scope.

(** ** Computations *)

Definition io (S A : Type) : Type := S -> res A * S.

#[export] Instance io_mret {S} : MRet (io S) := fun A a s => (Ok a, s).
#[export] Instance io_mbind {S} : MBind (io S) := fun A B f m s =>
  match m s with
  | (Ok a, s) => f a s
  | (Err e, s) => (Err e, s)
  | (Panic e, s) => (Panic e, s)
  | (NoFuel, s) => (NoFuel, s)
  end.

Definition io_get {S} : io S S := fun s => (Ok s, s).
Definition io_put {S} (s' : S) : io S unit := fun _ => (Ok tt, s').
Definition io_modify {S} (f : S -> S) : io S unit := fun s => (Ok tt, f s).
Definition io_lift {S A} (r : res A) : io S A := fun s => (r, s).
Definition io_err {S A} (e : string) : io S A := fun s => (Err e, s).

(** [if err != nil { return err }] *)
Definition io_check {S} (err : option string) : io S unit :=
  match err with Some e => io_err e | None => mret tt end.

(** A computation on a part of the state. *)
Definition io_on {S T A} (get : S -> T) (set : S -> T -> S) (m : io T A) : io S A := fun s =>
  let '(r, t) := m (get s) in (r, set s t).

Lemma io_bind_run {S A B} (m : io S A) (f : A -> io S B) s a s1 : m s = (Ok a, s1) -> (m ≫= f) s = f a s1.
Proof. intros H. unfold mbind, io_mbind. by rewrite H. Qed.

Lemma io_on_run {S T A} (get : S -> T) (set : S -> T -> S) (m : io T A) s a t : m (get s) = (a, t) -> io_on get set m s = (a, set s t).
Proof. intros H. unfold io_on. by rewrite H. Qed.

Lemma io_modify_ok {S} (f : S -> S) s u s' : io_modify f s = (Ok u, s') -> s' = f s.
Proof. unfold io_modify. by intros [= _ ->]. Qed.

Lemma io_bind_ok {S A B} (m : io S A) (f : A -> io S B) s b s' :
  (m ≫= f) s = (Ok b, s') <-> exists a s1, m s = (Ok a, s1) /\ f a s1 = (Ok b, s').
Proof.
  unfold mbind, io_mbind. split.
  - destruct (m s) as [[a|e|e|] s1]; intros H; [by eauto|discriminate..].
  - by intros (a & s1 & -> & H).
Qed.

(** *** Frames *)

(** A computation keeps a view of the state, whatever it returns. *)
Definition keeps {S V A} (view : S -> V) (m : io S A) : Prop := forall s, view (m s).2 = view s.

Section Keeps.
Context {S V : Type} (view : S -> V).

Lemma keeps_bind {A B} (m : io S A) (f : A -> io S B) : keeps view m -> (forall a, keeps view (f a)) -> keeps view (m ≫= f).
Proof.
  intros Hm Hf s. unfold mbind, io_mbind. specialize (Hm s). destruct (m s) as [[a|e|e|] s']; cbn in *; [by rewrite Hf|done..].
Qed.

Lemma keeps_ret {A} (a : A) : keeps view (mret a).
Proof. done. Qed.

Lemma keeps_err {A} e : keeps view (io_err e : io S A).
Proof. done. Qed.

Lemma keeps_get : keeps view io_get.
Proof. done. Qed.

Lemma keeps_lift {A} (r : res A) : keeps view (io_lift r).
Proof. done. Qed.

Lemma keeps_check e : keeps view (io_check e).
Proof. by destruct e. Qed.

Lemma keeps_modify f : (forall s, view (f s) = view s) -> keeps view (io_modify f).
Proof. intros Hf s. apply Hf. Qed.

Lemma keeps_on {T A} (get : S -> T) set (m : io T A) : (forall s t, view (set s t) = view s) -> keeps view (io_on get set m).
Proof. intros Hf s. unfold io_on. destruct (m (get s)). apply Hf. Qed.
End Keeps.

Create HintDb keeps.
#[export] Hint Resolve keeps_ret keeps_err keeps_get keeps_lift keeps_check : keeps.

Ltac keeps_step :=
  lazymatch goal with
  | |- forall _, _ => intros ?
  | |- keeps _ (_ ≫= _) => apply keeps_bind; [|intros ?]
  | |- keeps _ (let '_ := ?x in _) => destruct x
  | |- keeps _ (if ?x then _ else _) => destruct x
  | |- keeps _ (match ?x with _ => _ end) => destruct x
  | |- _ => solve [auto with keeps nocore]
  end.
Ltac keeps := repeat (cbv beta zeta; keeps_step).

(** ** Readers *)

Definition EOF : string := "EOF".
Definition ErrUnexpectedEOF : string := "unexpected EOF".

(** [io.Reader]: a read of up to [k] bytes returns some bytes of the stream, and an error at
    its end, perhaps with the last of them.  [budget] bounds the reads that give none. *)
Class Reader (R : Type) := {
  Read : nat -> R -> bytes * option string * R;
  stream : R -> bytes;
  reader_ok : R -> Prop;
  budget : R -> nat;
  Read_law k r b err r' : (0 < k)%nat -> reader_ok r -> Read k r = (b, err, r') ->
    reader_ok r' /\ (length b <= k)%nat /\ stream r = b ++ stream r' /\
    (err = None -> (budget r' < budget r)%nat) /\ (err <> None -> stream r' = [])
}.

Section ReadFull.
Context {R : Type} `{!Reader R}.

(** [io.ReadAtLeast] with [n] bytes still to read. *)
Fixpoint read_full_loop (fuel : nat) (n : nat) (read : bytes) : io R (bytes * option string) := fun r =>
  match fuel with
  | O => (NoFuel, r)
  | S fuel =>
      match n with
      | O => (Ok (read, None), r)
      | _ =>
          let '(b, err, r) := Read n r in
          let read := read ++ b in
          match err with
          | None => read_full_loop fuel (n - length b) read r
          | Some e =>
              if (length b =? n)%nat then (Ok (read, None), r)
              else if negb (bool_decide (read = [])) && bool_decide (e = EOF) then (Ok (read, Some ErrUnexpectedEOF), r)
              else (Ok (read, Some e), r)
          end
      end
  end.

Definition io_ReadFull (n : nat) : io R (bytes * option string) := fun r => read_full_loop (S (S (budget r))) n [] r.

(** The bytes, or the error. *)
Definition MustRead (n : nat) : io R bytes := '(b, err) ← io_ReadFull n; _ ← io_check err; mret b.

Lemma read_loop_ok fuel : forall n read r, reader_ok r -> (n <= length (stream r))%nat -> (S (budget r) < fuel)%nat ->
  exists r', read_full_loop fuel n read r = (Ok (read ++ take n (stream r), None), r') /\ reader_ok r' /\ stream r' = drop n (stream r).
Proof.
  induction fuel as [|fuel IH]; intros n read r Hr Hn Hf; [lia|]. destruct n as [|n].
  { exists r. cbn. by rewrite app_nil_r, drop_0. }
  cbn [read_full_loop]. destruct (Read (S n) r) as [[b err] r'] eqn:Hrd.
  destruct (Read_law (S n) _ _ _ _ ltac:(lia) Hr Hrd) as (Hr' & Hb & Hs & Hm & He). rewrite Hs in Hn |- *. rewrite length_app in Hn.
  destruct err as [e|].
  - rewrite (He ltac:(done)) in Hn |- *. cbn [length] in Hn. assert (length b = S n) as -> by lia. rewrite Nat.eqb_refl. exists r'.
    rewrite He, !app_nil_r, take_ge, drop_ge by (done || lia). done.
  - specialize (Hm eq_refl). destruct (IH (S n - length b)%nat (read ++ b) r' Hr' ltac:(lia) ltac:(lia)) as (r'' & Hl & Hr'' & Hs'').
    exists r''. rewrite Hl. rewrite take_app, drop_app, (take_ge b), (drop_ge b), <- app_assoc by lia. done.
Qed.

(** What every read keeps. *)
Lemma read_loop_keeps (P : R -> Prop) fuel : (forall k r, P r -> P (Read k r).2) -> forall n read r, P r -> P (read_full_loop fuel n read r).2.
Proof.
  intros HP. induction fuel as [|fuel IH]; intros n read r Hr; [done|]. cbn [read_full_loop]. destruct n as [|n]; [done|].
  specialize (HP (S n) r Hr). destruct (Read (S n) r) as [[b [e|]] r']; [|by apply IH].
  by destruct (length b =? S n)%nat, (negb (bool_decide (read ++ b = [])) && bool_decide (e = EOF)).
Qed.

Lemma MustRead_ok n r : reader_ok r -> (n <= length (stream r))%nat ->
  exists r', MustRead n r = (Ok (take n (stream r)), r') /\ reader_ok r' /\ stream r' = drop n (stream r).
Proof.
  intros Hr Hn. destruct (read_loop_ok (S (S (budget r))) n [] r Hr Hn ltac:(lia)) as (r' & Hl & Hr' & Hs).
  exists r'. split; [|done]. unfold MustRead. erewrite io_bind_run by exact Hl. done.
Qed.

Lemma MustRead_app n r a b : reader_ok r -> stream r = a ++ b -> n = length a ->
  exists r', MustRead n r = (Ok a, r') /\ reader_ok r' /\ stream r' = b.
Proof.
  intros Hr Hs ->. destruct (MustRead_ok (length a) r Hr) as (r' & Hm & Hr' & Hs'); [rewrite Hs, length_app; lia|].
  rewrite Hs, take_app_length in Hm. rewrite Hs, drop_app_length in Hs'. by exists r'.
Qed.

Lemma MustRead_keeps (P : R -> Prop) n r : (forall k r, P r -> P (Read k r).2) -> P r -> P (MustRead n r).2.
Proof.
  intros HP Hr. unfold MustRead, mbind, io_mbind. pose proof (read_loop_keeps P (S (S (budget r))) HP n [] r Hr) as Hk.
  unfold io_ReadFull. destruct (read_full_loop _ _ _ _) as [[[b [e|]]|e|e|] r']; done.
Qed.

(** At the end of the stream there is an error, and nothing is left. *)
Lemma read_loop_short fuel : forall n read r, reader_ok r -> (length (stream r) < n)%nat -> (S (budget r) < fuel)%nat ->
  exists e r', read_full_loop fuel n read r = (Ok (read ++ stream r, Some e), r') /\ reader_ok r' /\ stream r' = [].
Proof.
  induction fuel as [|fuel IH]; intros n read r Hr Hn Hf; [lia|]. destruct n as [|n]; [lia|].
  cbn [read_full_loop]. destruct (Read (S n) r) as [[b err] r'] eqn:Hrd.
  destruct (Read_law (S n) _ _ _ _ ltac:(lia) Hr Hrd) as (Hr' & Hb & Hs & Hm & He). rewrite Hs in Hn |- *. rewrite length_app in Hn.
  destruct err as [e|].
  - rewrite He in Hn |- * by done. rewrite (proj2 (Nat.eqb_neq _ _)) by (cbn [length] in Hn; lia). rewrite app_nil_r.
    destruct (negb _ && _); (eexists _, r'; split; [done|]; split; [done|by apply He]).
  - specialize (Hm eq_refl). destruct (IH (S n - length b)%nat (read ++ b) r' Hr' ltac:(lia) ltac:(lia)) as (e & r'' & Hl & Hr'' & Hs'').
    exists e, r''. by rewrite Hl, app_assoc.
Qed.

Lemma MustRead_short n r : reader_ok r -> (length (stream r) < n)%nat ->
  exists e r', MustRead n r = (Err e, r') /\ reader_ok r' /\ stream r' = [].
Proof.
  intros Hr Hn. destruct (read_loop_short (S (S (budget r))) n [] r Hr Hn ltac:(lia)) as (e & r' & Hl & Hr' & Hs).
  exists e, r'. split; [|done]. unfold MustRead. erewrite io_bind_run by exact Hl. done.
Qed.
End ReadFull.

(** ** Connections and byte slices *)

(** The pieces in which the bytes arrive, the error after them, and whether it comes with
    the last of them, as io.Reader allows, or in a read of its own. *)
Record netConn := { arrivals : list bytes; final : string; eager : bool }.

Definition conn_Read (k : nat) (c : netConn) : bytes * option string * netConn :=
  match arrivals c with
  | [] => ([], Some (final c), c)
  | piece :: rest =>
      let rest := if (length piece <=? k)%nat then rest else drop k piece :: rest in
      (take k piece, if eager c && bool_decide (rest = []) then Some (final c) else None,
       {| arrivals := rest; final := final c; eager := eager c |})
  end.

#[export, refine] Instance conn_Reader : Reader netConn := {|
  Read := conn_Read; stream c := concat (arrivals c); reader_ok _ := True;
  budget c := (length (concat (arrivals c)) + length (arrivals c))%nat
|}.
Proof.
  intros k [arr fin eag] b err r' Hk _. unfold conn_Read. cbn [arrivals]. destruct arr as [|piece rest].
  { intros [= <- <- <-]. split_and!; [done|cbn; lia|done|done|done]. }
  cbn [concat length arrivals]. intros [= <- <- <-]. cbn [arrivals]. rewrite length_take, !length_app.
  destruct (Nat.leb_spec (length piece) k).
  - rewrite take_ge by done. split_and!; [done|lia|done|lia|].
    intros Herr. destruct (eag && bool_decide (rest = [])) eqn:E; [|done].
    apply andb_prop in E as [_ ->%bool_decide_eq_true]. done.
  - cbn [concat length]. rewrite length_app, length_drop, app_assoc, take_drop. split_and!; [done|lia|done|lia|].
    intros Herr. exfalso. apply Herr. rewrite bool_decide_false by done. by rewrite andb_false_r.
Defined.

(** [bytes.NewReader] *)
Definition bytes_Read (k : nat) (b : bytes) : bytes * option string * bytes :=
  if bool_decide (b = []) then ([], Some EOF, b) else (take k b, None, drop k b).

#[export, refine] Instance bytes_Reader : Reader bytes := {|
  Read := bytes_Read; stream b := b; reader_ok _ := True; budget b := length b
|}.
Proof.
  intros k r b err r' Hk _. unfold bytes_Read. case_bool_decide as Hr; intros [= <- <- <-].
  - subst. split_and!; [done|cbn; lia|done|done|done].
  - rewrite length_take, length_drop, take_drop. destruct r; [done|]. cbn [length]. split_and!; [done|lia|done|lia|done].
Defined.

(** ** SkipReader *)

(** [bytes.Index] *)
Fixpoint bytes_Index (s sep : bytes) : option nat :=
  if bool_decide (take (length sep) s = sep) then Some 0%nat
  else match s with [] => None | _ :: s => S <$> bytes_Index s sep end.

(** [sr_buf] holds the bytes of the buffer that have been read. *)
Record SkipReader := { sr_Conn : netConn; sr_offset : nat; sr_end : nat; sr_buf : bytes }.

Definition WrapConnWithSkipReader (c : netConn) : SkipReader := {| sr_Conn := c; sr_offset := 0; sr_end := 0; sr_buf := [] |}.

Definition set_conn (sr : SkipReader) (c : netConn) : SkipReader :=
  {| sr_Conn := c; sr_offset := sr_offset sr; sr_end := sr_end sr; sr_buf := sr_buf sr |}.
Definition set_window (sr : SkipReader) (offset end_ : nat) (buf : bytes) : SkipReader :=
  {| sr_Conn := sr_Conn sr; sr_offset := offset; sr_end := end_; sr_buf := buf |}.

Definition SkipReader_Read (k : nat) (sr : SkipReader) : bytes * option string * SkipReader :=
  if (sr_offset sr <? sr_end sr)%nat then
    let b := take k (slice (sr_offset sr) (sr_end sr - sr_offset sr) (sr_buf sr)) in
    if (length b =? 0)%nat then ([], Some "read failed", sr)
    else
      let offset := (sr_offset sr + length b)%nat in
      (b, None, if (offset =? sr_end sr)%nat then set_window sr 0 0 [] else set_window sr offset (sr_end sr) (sr_buf sr))
  else let '(b, err, c) := conn_Read k (sr_Conn sr) in (b, err, set_conn sr c).

(** The loop of [SkipUpToToken]; [window] is [buf[:len(token)]]. *)
Fixpoint search (fuel : nat) (token : bytes) (readSize : nat) (maxSearchSize : Z) (window : bytes) (nTotal : Z) : io SkipReader unit :=
  fun sr =>
  if nTotal <? maxSearchSize then
    match fuel with
    | O => (NoFuel, sr)
    | S fuel =>
        let '(data, err, c) := conn_Read readSize (sr_Conn sr) in
        let sr := set_window (set_conn sr c) 0 0 (window ++ data) in
        match err with
        | Some e => if bool_decide (e = EOF) then
            match bytes_Index (window ++ data) token with
            | Some idx => (Err EOF, set_window sr (idx + length token) (length data + length token) (window ++ data))
            | None => (Err "token not found", sr)
            end else (Err e, sr)
        | None =>
            match bytes_Index (window ++ data) token with
            | Some idx => (Ok tt, set_window sr (idx + length token) (length data + length token) (window ++ data))
            | None => search fuel token readSize maxSearchSize (slice (length data) (length token) (window ++ data)) (nTotal + Z.of_nat (length data)) sr
            end
        end
    end
  else (Err "exceeded max search size", sr).

Definition SkipUpToToken (token : bytes) (readSize : nat) (maxSearchSize : Z) : io SkipReader unit := fun sr =>
  if (length token =? 0)%nat then (Ok tt, sr)
  else if (readSize <? 1)%nat then (Err "readSize too small", sr)
  else if maxSearchSize <? Z.of_nat readSize then (Err "maxSearchSize too small", sr)
  else
    let sr := set_window sr 0 0 [] in
    match io_ReadFull (length token) (sr_Conn sr) with
    | (Ok (b, err), c) =>
        let sr := set_window (set_conn sr c) 0 0 b in
        match err with
        | Some e => if bool_decide (e = ErrUnexpectedEOF) then (Err "token not found", sr) else (Err e, sr)
        | None =>
            if bool_decide (b = token) then (Ok tt, sr)
            else search (S (budget c)) token readSize maxSearchSize b (Z.of_nat (length b)) sr
        end
    | (Err e, c) => (Err e, set_conn sr c)
    | (Panic e, c) => (Panic e, set_conn sr c)
    | (NoFuel, c) => (NoFuel, set_conn sr c)
    end.

#[export, refine] Instance SkipReader_Reader : Reader SkipReader := {|
  Read := SkipReader_Read;
  stream sr := slice (sr_offset sr) (sr_end sr - sr_offset sr) (sr_buf sr) ++ stream (sr_Conn sr);
  reader_ok sr := (sr_offset sr <= sr_end sr <= length (sr_buf sr))%nat;
  budget sr := (sr_end sr - sr_offset sr + budget (sr_Conn sr))%nat
|}.
Proof.
  intros k [c o e buf] b err r' Hk Hr. unfold SkipReader_Read. cbn [sr_offset sr_end sr_buf sr_Conn] in *.
  destruct (Nat.ltb_spec o e) as [Hlt|Hge].
  - assert (length (slice o (e - o) buf) = e - o)%nat as Hl by (unfold slice; rewrite length_take, length_drop; lia).
    rewrite length_take, Hl. rewrite (proj2 (Nat.eqb_neq _ _)) by lia.
    intros [= <- <- <-]. rewrite length_take, Hl. split; [|split; [lia|split; [|split; [|done]]]].
    + destruct (Nat.eqb_spec (o + k `min` (e - o)) e); cbn [sr_offset sr_end sr_buf sr_Conn set_window set_conn length]; lia.
    + destruct (Nat.eqb_spec (o + k `min` (e - o)) e) as [He|He]; cbn [sr_offset sr_end sr_buf sr_Conn set_window set_conn length].
      * rewrite take_ge by lia. done.
      * rewrite (Nat.min_l k) in * by lia. unfold slice. rewrite app_assoc. f_equal.
        replace (e - (o + k))%nat with (e - o - k)%nat by lia. rewrite <- (drop_drop buf k o), <- (skipn_firstn_comm k (e - o)).
        by rewrite take_drop.
    + intros _. destruct (Nat.eqb_spec (o + k `min` (e - o)) e); cbn [sr_offset sr_end sr_buf sr_Conn set_window set_conn length]; lia.
  - destruct (conn_Read k c) as [[b' err'] c'] eqn:Hc. intros [= <- <- <-].
    destruct (@Read_law netConn conn_Reader k c b' err' c' Hk I Hc) as (_ & Hb & Hs & Hm & He). cbn [sr_offset sr_end sr_buf sr_Conn set_conn].
    replace (e - o)%nat with 0%nat by lia. split; [done|split; [done|split; [|split]]].
    + unfold slice. by rewrite !take_0.
    + intros Hn. specialize (Hm Hn). cbn in Hm |- *. lia.
    + intros Hn. unfold slice. rewrite take_0. by apply He.
Defined.

(** *** Where a token occurs *)

Definition occurs_at (s sep : bytes) (i : nat) : Prop := take (length sep) (drop i s) = sep.

Lemma Index_some s sep i : bytes_Index s sep = Some i -> occurs_at s sep i /\ forall j, (j < i)%nat -> ~ occurs_at s sep j.
Proof.
  revert i. induction s as [|x s IH]; intros i; cbn [bytes_Index]; case_bool_decide as Hp.
  - intros [= <-]. split; [done|lia].
  - done.
  - intros [= <-]. split; [done|lia].
  - destruct (bytes_Index s sep) as [k|]; [|done]. intros [= <-]. destruct (IH k eq_refl) as [Hk Hlt]. split; [done|].
    intros [|j] Hj; [done|]. apply (Hlt j). lia.
Qed.

Lemma Index_none s sep j : bytes_Index s sep = None -> ~ occurs_at s sep j.
Proof.
  revert j. induction s as [|x s IH]; intros j; cbn [bytes_Index]; case_bool_decide as Hp; try done.
  - intros _. unfold occurs_at. rewrite drop_nil. done.
  - destruct (bytes_Index s sep) as [k|]; [done|]. intros _. destruct j as [|j]; [done|]. by apply IH.
Qed.

Lemma Index_first s sep i : occurs_at s sep i -> (forall j, (j < i)%nat -> ~ occurs_at s sep j) -> bytes_Index s sep = Some i.
Proof.
  intros Ho Hmin. destruct (bytes_Index s sep) as [k|] eqn:E; [|by apply (Index_none _ _ i) in E].
  apply Index_some in E as [Hk Hlt]. f_equal. destruct (Nat.lt_trichotomy k i) as [H|[H|H]]; [by apply Hmin in H|done|by apply Hlt in H].
Qed.

Lemma occurs_bound s sep i : sep <> [] -> occurs_at s sep i -> (i + length sep <= length s)%nat.
Proof.
  intros Hs Ho. unfold occurs_at in Ho. apply (f_equal length) in Ho. rewrite length_take, length_drop in Ho.
  destruct sep; [done|]. cbn [length] in *. lia.
Qed.

Lemma occurs_prefix a b sep i : (i + length sep <= length a)%nat -> occurs_at (a ++ b) sep i <-> occurs_at a sep i.
Proof. intros Hi. unfold occurs_at. rewrite drop_app_le, take_app_le by (rewrite ?length_drop; lia). done. Qed.

Lemma occurs_drop s sep i p : occurs_at (drop p s) sep i <-> occurs_at s sep (p + i).
Proof. unfold occurs_at. by rewrite drop_drop. Qed.

(** More bytes after a token do not change where it is first. *)
Lemma Index_extend a b sep i : sep <> [] -> bytes_Index a sep = Some i -> bytes_Index (a ++ b) sep = Some i.
Proof.
  intros Hs [Ho Hmin]%Index_some. pose proof (occurs_bound _ _ _ Hs Ho). apply Index_first.
  - by apply occurs_prefix.
  - intros j Hj Hoj. apply (Hmin j Hj). rewrite occurs_prefix in Hoj by lia. done.
Qed.

(** *** Skipping *)

Lemma search_ok fuel token readSize maxSearchSize all a : token <> [] -> (0 < readSize)%nat -> bytes_Index all token = Some a ->
  Z.of_nat (a + length token) <= maxSearchSize ->
  forall window nTotal sr p, length window = length token -> (p < a)%nat -> drop p all = window ++ stream (sr_Conn sr) ->
  eager (sr_Conn sr) = false -> nTotal = Z.of_nat (p + length token) -> (budget (sr_Conn sr) < fuel)%nat ->
  exists sr', search fuel token readSize maxSearchSize window nTotal sr = (Ok tt, sr') /\ reader_ok sr' /\
    stream sr' = drop (a + length token) all.
Proof.
  intros Ht Hrs Hall Hmax. destruct (Index_some _ _ _ Hall) as [Hocc Hmin]. pose proof (occurs_bound _ _ _ Ht Hocc) as Hb.
  induction fuel as [|fuel IH]; intros window nTotal sr p Hw Hp Hd He Hn Hf; [lia|]. cbn [search].
  replace (nTotal <? maxSearchSize) with true by lia. destruct (conn_Read readSize (sr_Conn sr)) as [[data err] c] eqn:Hrd.
  destruct (@Read_law netConn conn_Reader _ _ _ _ _ Hrs I Hrd) as (_ & Hlen & Hs & Hm & _).
  assert (err = None /\ eager c = false) as [-> Hec].
  { unfold conn_Read in Hrd. destruct (arrivals (sr_Conn sr)) as [|piece rest] eqn:Ha; [|injection Hrd as <- <- <-; by rewrite He].
    exfalso. apply (f_equal length) in Hd. cbn in Hd. rewrite Ha, length_app, length_drop in Hd. cbn [concat length] in Hd. lia. }
  specialize (Hm eq_refl). rewrite Hs, app_assoc in Hd.
  assert (forall i, (i + length token <= length (window ++ data))%nat -> occurs_at (window ++ data) token i <-> occurs_at all token (p + i)) as Hocc'.
  { intros i Hi. rewrite <- (occurs_prefix _ (stream c)), <- Hd by done. apply occurs_drop. }
  destruct (bytes_Index (window ++ data) token) as [i|] eqn:Hidx.
  - apply Index_some in Hidx as [Hoi Hmi]. pose proof (occurs_bound _ _ _ Ht Hoi) as Hbi. rewrite (Hocc' i Hbi) in Hoi.
    assert (p + i = a)%nat as <-.
    { destruct (Nat.lt_trichotomy (p + i) a) as [Hlt|[Heq|Hgt]]; [by apply Hmin in Hlt|done|]. exfalso. apply (Hmi (a - p)%nat); [lia|].
      apply Hocc'; [lia|]. by replace (p + (a - p))%nat with a by lia. }
    eexists. split; [done|]. rewrite length_app in Hbi. cbn [reader_ok stream SkipReader_Reader sr_Conn sr_offset sr_end sr_buf set_window set_conn].
    rewrite length_app. split; [lia|]. unfold slice. rewrite take_ge by (rewrite length_drop, length_app; lia).
    rewrite <- drop_app_le, <- Hd, drop_drop by (rewrite length_app; lia). f_equal. lia.
  - assert (p + length data < a)%nat as Hlt.
    { apply Nat.nle_gt. intros Hle. apply (Index_none _ _ (a - p) Hidx). apply Hocc'; [rewrite length_app; lia|].
      by replace (p + (a - p))%nat with a by lia. }
    apply (IH _ _ _ (p + length data)%nat); cbn [sr_Conn set_window set_conn]; [|done| |done|lia|lia].
    + unfold slice. rewrite length_take, length_drop, length_app. lia.
    + unfold slice. rewrite take_ge by (rewrite length_drop, length_app; lia). rewrite <- drop_app_le, <- Hd, drop_drop by (rewrite length_app; lia). done.
Qed.

(** The token is found, however the bytes arrive, and reading continues after its first
    occurrence. *)
Lemma SkipUpToToken_ok token readSize maxSearchSize sr a : token <> [] -> (0 < readSize)%nat -> Z.of_nat readSize <= maxSearchSize ->
  bytes_Index (stream (sr_Conn sr)) token = Some a -> Z.of_nat (a + length token) <= maxSearchSize -> eager (sr_Conn sr) = false ->
  exists sr', SkipUpToToken token readSize maxSearchSize sr = (Ok tt, sr') /\ reader_ok sr' /\
    stream sr' = drop (a + length token) (stream (sr_Conn sr)).
Proof.
  intros Ht Hrs Hm Hidx Hmax He. unfold SkipUpToToken. destruct (Index_some _ _ _ Hidx) as [Hocc Hmin].
  pose proof (occurs_bound _ _ _ Ht Hocc) as Hb.
  rewrite (proj2 (Nat.eqb_neq _ _)) by (destruct token; [done|]; cbn [length]; lia). rewrite (proj2 (Nat.ltb_ge _ _)) by lia. replace (maxSearchSize <? Z.of_nat readSize) with false by lia.
  cbn [sr_Conn set_window].
  destruct (@read_loop_ok netConn conn_Reader (S (S (budget (sr_Conn sr)))) (length token) [] (sr_Conn sr) I ltac:(lia) ltac:(lia)) as (c & Hrd & _ & Hs).
  unfold io_ReadFull. rewrite Hrd. cbn [app]. case_bool_decide as Heq.
  - assert (a = 0)%nat as -> by (destruct a; [done|]; exfalso; apply (Hmin 0%nat); [lia|done]).
    eexists. split; [done|]. split; [cbn; lia|]. done.
  - assert (eager c = false) as Hec.
    { change c with ((Ok ([] ++ take (length token) (stream (sr_Conn sr)), @None string), c).2). rewrite <- Hrd.
      apply (read_loop_keeps (fun c => eager c = false)); [|done].
      intros k r Hr. cbn. unfold conn_Read. destruct (arrivals r); done. }
    assert (0 < a)%nat by (destruct a; [|lia]; exfalso; by apply Heq).
    apply (search_ok _ _ _ _ (stream (sr_Conn sr)) a Ht Hrs Hidx Hmax _ _ _ 0%nat); cbn [sr_Conn set_window set_conn]; [|done| |done| |lia].
    + rewrite length_take. lia.
    + rewrite Hs, take_drop. apply drop_0.
    + rewrite length_take. lia.
Qed.

(** The kind of connection stays. *)
Definition conn_eager (sr : SkipReader) : bool := eager (sr_Conn sr).

Lemma Read_eager k sr : conn_eager (Read k sr).2 = conn_eager sr.
Proof.
  cbn. unfold SkipReader_Read, conn_Read. destruct (_ <? _)%nat; [by destruct (_ =? _)%nat; [|destruct (_ =? _)%nat]|].
  by destruct (arrivals (sr_Conn sr)).
Qed.

Lemma MustRead_eager n : keeps conn_eager (MustRead n).
Proof. intros sr. apply (MustRead_keeps (fun r => conn_eager r = conn_eager sr)); [|done]. intros k r Hr. by rewrite Read_eager. Qed.

Lemma search_eager fuel token readSize maxSearchSize : forall window nTotal, keeps conn_eager (search fuel token readSize maxSearchSize window nTotal).
Proof.
  induction fuel as [|fuel IH]; intros window nTotal sr; cbn [search]; destruct (nTotal <? maxSearchSize); try done.
  pose proof (Read_eager readSize (set_window sr 0 0 [])) as He. cbn in He. unfold SkipReader_Read in He. cbn [sr_offset sr_end set_window sr_Conn Nat.ltb Nat.leb] in He.
  destruct (conn_Read readSize (sr_Conn sr)) as [[data [e|]] c]; cbn in He.
  - destruct (bool_decide (e = EOF)); [|done]. by destruct (bytes_Index (window ++ data) token).
  - destruct (bytes_Index (window ++ data) token); [done|]. by rewrite IH.
Qed.

Lemma SkipUpToToken_eager token readSize maxSearchSize : keeps conn_eager (SkipUpToToken token readSize maxSearchSize).
Proof.
  intros sr. unfold SkipUpToToken. destruct (_ =? _)%nat; [done|]. destruct (_ <? _)%nat; [done|]. destruct (_ <? _); [done|].
  pose proof (read_loop_keeps (fun c => eager c = conn_eager sr) (S (S (budget (sr_Conn sr))))) as Hk.
  specialize (Hk ltac:(intros k r <-; cbn; unfold conn_Read; by destruct (arrivals r)) (length token) [] (sr_Conn sr) eq_refl).
  cbn [sr_Conn set_window]. unfold io_ReadFull. destruct (read_full_loop _ _ _ _) as [[[b [e|]]|e|e|] c]; cbn in Hk; try done.
  - by destruct (bool_decide (e = ErrUnexpectedEOF)).
  - destruct (bool_decide (b = token)); [done|]. by rewrite search_eager.
Qed.

(** A token that arrives together with the end of the stream is found, but the end of the
    stream is reported. *)
Theorem token_at_end : fst (SkipUpToToken [x01; x02] 8 100
  (WrapConnWithSkipReader {| arrivals := [[x00; x00; x01; x02]]; final := EOF; eager := true |})) = Err EOF.
Proof. reflexivity. Qed.
