(* ===== verification/Obfuscator.v ===== *)
(** * The obfuscator of the obfuscated SSH protocol

    Models src/psiphon/common/obfuscator/obfuscator.go: the initial message with which a
    client gives the server the seed of the stream ciphers, its padding and its optional
    prefix, how the server reads it, and the prefix of the server; with [ApplyPrefix] of
    src/psiphon/common/transforms/transforms.go and the salted seeds of
    src/psiphon/common/prng/prng.go.

    The random bytes of the operating system, the time and the generator of regular
    expressions, [prefix_generator] of the file Transforms, are arguments. *)

From Stdlib Require Import ZArith Lia Strings.Byte Strings.String.
From stdpp Require Import base gmap list strings numbers.
From S2P Require Import Prelude.
From S2P Require Import GoCrypto.
From S2P Require Import PRNG.
From S2P Require Import SeedHistory.
From S2P Require Import GoIO.
#[local] Open Scope string_scope.
#[local] Open Scope Z_scope.
#[local] Open Scope list_scope.

Definition OBFUSCATE_SEED_LENGTH : nat := 16.
Definition OBFUSCATE_KEY_LENGTH : nat := 16.
Definition OBFUSCATE_HASH_ITERATIONS : Z := 6000.
Definition OBFUSCATE_MAX_PADDING : Z := 8192.
Definition OBFUSCATE_MAGIC_VALUE : Z := 0x0BF5CA7E.
Definition OBFUSCATE_CLIENT_TO_SERVER_IV : string := "client_to_server".
Definition OBFUSCATE_SERVER_TO_CLIENT_IV : string := "server_to_client".
Definition PREAMBLE_HEADER_LENGTH : nat := OBFUSCATE_SEED_LENGTH + 8.
Definition PREFIX_TERMINATOR_LENGTH : nat := 16.
Definition PREFIX_TERM_SEARCH_BUF_SIZE : Z := 8192.
Definition PREFIX_MAX_LENGTH : Z := 65536.
Definition PREFIX_MAX_HEADER_LENGTH : Z := 4096.

(** A transform is a regular expression and a generator of its replacement. *)
Abbreviation Spec := (list (string * string)).

Record OSSHPrefixSpec := { Name : string; prefix_Spec : Spec; prefix_Seed : bytes }.

Record OSSHPrefixSplitConfig := { split_Seed : bytes; MinDelay : Z; MaxDelay : Z }.

(** The prefix header is the name of its specification. *)
Record Obfuscator := {
  preamble : option bytes;
  preambleOSSHPrefixLength : nat;
  osshPrefixHeader : option string;
  osshPrefixSplitConfig : option OSSHPrefixSplitConfig;
  keyword : string;
  paddingLength : Z;
  clientToServerCipher : rc4;
  serverToClientCipher : rc4;
  paddingPRNGSeed : bytes;
  paddingPRNG : PRNG
}.

(** [SeedTransform] is [ObfuscatorSeedTransformerParameters.Apply].  The history is in the
    state of the server. *)
Record ObfuscatorConfig := {
  IsOSSH : bool;
  Keyword : string;
  ClientPrefixSpec : option OSSHPrefixSpec;
  ServerPrefixSpecs : gmap string Spec;
  OSSHPrefixSplit : option OSSHPrefixSplitConfig;
  PaddingPRNGSeed : option bytes;
  MinPadding : option Z;
  MaxPadding : option Z;
  SeedTransform : option (bytes -> res bytes);
  DisableStrictHistoryMode : bool;
  IrregularLogger : bool
}.

Section Obfuscator.
Context `{Digests}.
(** [regen.NewGenerator] in byte mode and [Generate], drawing from the generator. *)
Context (Generate : string -> stres PRNG bytes).

(** ** Keys *)

Definition NewSaltedSeed (seed : bytes) (salt : string) : bytes := hkdf_sha256 seed (list_byte_of_string salt) [] SEED_LENGTH.

Definition NewPRNGWithSaltedSeed (seed : bytes) (salt : string) : res PRNG := NewPRNGWithSeed (NewSaltedSeed seed salt).

Definition deriveKey (obfuscatorSeed keyword iv : bytes) : res bytes :=
  let digest := sha1 (obfuscatorSeed ++ keyword ++ iv) in
  let digest := Nat.iter (Z.to_nat OBFUSCATE_HASH_ITERATIONS) sha1 digest in
  if (length digest <? OBFUSCATE_KEY_LENGTH)%nat then Err "insufficient bytes for obfuscation key"
  else Ok (take OBFUSCATE_KEY_LENGTH digest).

Definition initObfuscatorCiphers (keyword : string) (obfuscatorSeed : bytes) : res (rc4 * rc4) :=
  clientToServerKey ← deriveKey obfuscatorSeed (list_byte_of_string keyword) (list_byte_of_string OBFUSCATE_CLIENT_TO_SERVER_IV);
  serverToClientKey ← deriveKey obfuscatorSeed (list_byte_of_string keyword) (list_byte_of_string OBFUSCATE_SERVER_TO_CLIENT_IV);
  clientToServerCipher ← rc4_NewCipher clientToServerKey;
  serverToClientCipher ← rc4_NewCipher serverToClientKey;
  Ok (clientToServerCipher, serverToClientCipher).

(** ** Prefixes *)

Definition ApplyPrefix (spec : Spec) (seed : bytes) (minLength : nat) : res (bytes * nat) :=
  match spec with
  | [(_, generator)] =>
      rng ← NewPRNGWithSeed seed;
      '(prefix, rng) ← Generate generator rng;
      let prefixLen := length prefix in
      if (prefixLen <? minLength)%nat then
        '(padding, _) ← Bytes (minLength - prefixLen) rng;
        Ok (prefix ++ padding, prefixLen)
      else Ok (prefix, prefixLen)
  | _ => Err "prefix mode requires exactly one transform"
  end.

Definition makeTerminator (keyword : string) (b : bytes) (direction : string) : res bytes :=
  if (length b <? PREAMBLE_HEADER_LENGTH)%nat then Err "bytes too short"
  else if negb (bool_decide (direction = OBFUSCATE_CLIENT_TO_SERVER_IV)) && negb (bool_decide (direction = OBFUSCATE_SERVER_TO_CLIENT_IV))
  then Err "invalid direction"
  else Ok (hkdf_sha256 (list_byte_of_string keyword) (take PREAMBLE_HEADER_LENGTH b) (list_byte_of_string direction) PREFIX_TERMINATOR_LENGTH).

Definition makeTerminatedPrefixWithPadding (spec : OSSHPrefixSpec) (keyword direction : string) : res (bytes * nat) :=
  '(prefix, prefixLen) ← ApplyPrefix (prefix_Spec spec) (prefix_Seed spec) PREAMBLE_HEADER_LENGTH;
  terminator ← makeTerminator keyword prefix direction;
  Ok (prefix ++ terminator, prefixLen).

(** The bytes that [writePrefixHeader] writes. *)
Definition writePrefixHeader (spec : OSSHPrefixSpec) : res bytes :=
  let name := list_byte_of_string (Name spec) in
  if PREFIX_MAX_HEADER_LENGTH <? Z.of_nat (length name) then Err "prefix name too long"
  else Ok (be_store 2 1 ++ be_store 2 (Z.of_nat (length name)) ++ name).

(** ** The client *)

Definition makeClientPreamble (draws : nat) (keyword : string) (prefixSpec : option OSSHPrefixSpec) (paddingPRNG : PRNG)
    (minPadding maxPadding : Z) (obfuscatorSeed : bytes) (clientToServerCipher : rc4)
    : res (bytes * nat * option string * Z * PRNG * rc4) :=
  '(padding, paddingPRNG) ← Padding draws minPadding maxPadding paddingPRNG;
  '(b, prefixLen) ← match prefixSpec with
                    | Some spec => makeTerminatedPrefixWithPadding spec keyword OBFUSCATE_CLIENT_TO_SERVER_IV
                    | None => Ok ([], 0%nat)
                    end;
  let magicValueStartIndex := (length obfuscatorSeed + length b)%nat in
  header ← match prefixSpec with Some spec => writePrefixHeader spec | None => Ok [] end;
  let buffer := b ++ obfuscatorSeed ++ be_store 4 OBFUSCATE_MAGIC_VALUE ++ be_store 4 (Z.of_nat (length padding)) ++ padding ++ header in
  let '(encrypted, clientToServerCipher) := rc4_XORKeyStream clientToServerCipher (drop magicValueStartIndex buffer) in
  Ok (take magicValueStartIndex buffer ++ encrypted, prefixLen, Name <$> prefixSpec, Z.of_nat (length padding), paddingPRNG, clientToServerCipher).

(** The bounds of the padding: values out of range are ignored. *)
Definition min_padding (config : ObfuscatorConfig) : Z :=
  match MinPadding config with
  | Some p => if (Z.of_nat SEED_LENGTH <=? p) && (p <=? OBFUSCATE_MAX_PADDING) then p else Z.of_nat SEED_LENGTH
  | None => Z.of_nat SEED_LENGTH
  end.

Definition max_padding (config : ObfuscatorConfig) : Z :=
  match MaxPadding config with
  | Some p => if (Z.of_nat SEED_LENGTH <=? p) && (p <=? OBFUSCATE_MAX_PADDING) && (min_padding config <=? p) then p else OBFUSCATE_MAX_PADDING
  | None => OBFUSCATE_MAX_PADDING
  end.

(** The seed of the ciphers; [random] is what [common.MakeSecureRandomBytes] returns. *)
Definition client_seed (config : ObfuscatorConfig) (random : res bytes) : res bytes :=
  obfuscatorSeed ← random;
  match SeedTransform config with
  | Some transform => if IsOSSH config then transform obfuscatorSeed else Ok obfuscatorSeed
  | None => Ok obfuscatorSeed
  end.

Definition NewClientObfuscator (draws : nat) (config : ObfuscatorConfig) (random : res bytes) : res Obfuscator :=
  if bool_decide (Keyword config = "") then Err "missing keyword"
  else match PaddingPRNGSeed config with
  | None => Err "missing padding seed"
  | Some seed =>
      rng ← NewPRNGWithSeed seed;
      obfuscatorSeed ← client_seed config random;
      '(c2s, s2c) ← initObfuscatorCiphers (Keyword config) obfuscatorSeed;
      '(msg, prefixLen, prefixHeader, paddingLen, rng, c2s) ←
        makeClientPreamble draws (Keyword config) (ClientPrefixSpec config) rng (min_padding config) (max_padding config) obfuscatorSeed c2s;
      Ok {| preamble := Some msg; preambleOSSHPrefixLength := prefixLen; osshPrefixHeader := prefixHeader;
            osshPrefixSplitConfig := OSSHPrefixSplit config; keyword := Keyword config; paddingLength := paddingLen;
            clientToServerCipher := c2s; serverToClientCipher := s2c; paddingPRNGSeed := seed; paddingPRNG := rng |}
  end.
(** ** The server *)

(** [newSeed] is what [prng.NewSeed] returns. *)
Definition makeServerPreamble (header : option string) (serverSpecs : gmap string Spec) (keyword : string) (newSeed : res bytes)
    : res (option bytes * nat) :=
  match header with
  | None => Ok (None, 0%nat)
  | Some name =>
      let spec := default [("", "[\x00-\xff]{24}")] (serverSpecs !! name) in
      seed ← newSeed;
      '(b, prefixLen) ← makeTerminatedPrefixWithPadding {| Name := name; prefix_Spec := spec; prefix_Seed := seed |} keyword OBFUSCATE_SERVER_TO_CLIENT_IV;
      Ok (Some b, prefixLen)
  end.

(** The reader of the connection; [SkipUpToToken] when it is a [SkipReader]. *)
Class ClientReader (R : Type) `{!Reader R} := { skip_up_to : option (bytes -> nat -> Z -> io R unit) }.

Record server_io (R : Type) := { reader : R; seeds : option SeedHistory; irregular : list string }.
Arguments reader {R}. Arguments seeds {R}. Arguments irregular {R}.

Section Server.
Context {R : Type} `{!Reader R} `{!ClientReader R}.
Context (config : ObfuscatorConfig) (now : Z) (clientIP : string) (newSeed : res bytes).

Definition on_client {A} : io R A -> io (server_io R) A :=
  io_on reader (fun s r => {| reader := r; seeds := seeds s; irregular := irregular s |}).

(** [config.IrregularLogger], when it is set. *)
Definition log_irregular (errStr : string) : io (server_io R) unit :=
  io_modify (fun s => {| reader := reader s; seeds := seeds s;
    irregular := if IrregularLogger config then irregular s ++ [errStr] else irregular s |}).

(** An error is reported by the handler. *)
Definition io_catch {S A} (m : io S A) (handler : string -> io S A) : io S A := fun s =>
  match m s with (Err e, s) => handler e s | r => r end.

Definition check_history (osshSeed : bytes) : io (server_io R) unit := fun s =>
  match seeds s with
  | None => (Ok tt, s)
  | Some h =>
      let errStr := "duplicate obfuscation seed" in
      let '(ok, duplicateLogFields, h) := AddNew now h (negb (DisableStrictHistoryMode config)) clientIP "obfuscator-seed" osshSeed in
      (_ ← (if bool_decide (duplicateLogFields = None) then mret tt else log_irregular errStr);
       if ok then mret tt else io_err errStr) {| reader := reader s; seeds := Some h; irregular := irregular s |}
  end.

Definition readPrefixHeader (cipher : rc4) : io R (string * rc4) :=
  fixedLengthFields ← MustRead 4;
  let '(fixedLengthFields, cipher) := rc4_XORKeyStream cipher fixedLengthFields in
  if negb (be_load (take 2 fixedLengthFields) =? 1) then io_err "invalid version"
  else
    let specLen := be_load (drop 2 fixedLengthFields) in
    if PREFIX_MAX_HEADER_LENGTH <? specLen then io_err "invalid header length"
    else
      specName ← MustRead (Z.to_nat specLen);
      let '(specName, cipher) := rc4_XORKeyStream cipher specName in
      mret (string_of_list_byte specName, cipher).

Abbreviation preamble_result := (rc4 * rc4 * bytes * option string)%type.

(** [retry] is the recursive call. *)
Definition readPreambleHelper (removedPrefix : bool) (retry : io (server_io R) preamble_result) : io (server_io R) preamble_result :=
  preambleHeader ← on_client (MustRead PREAMBLE_HEADER_LENGTH);
  let osshSeed := take OBFUSCATE_SEED_LENGTH preambleHeader in
  '(c2s, s2c) ← io_lift (initObfuscatorCiphers (Keyword config) osshSeed);
  let '(osshFixedLengthFields, c2s) := rc4_XORKeyStream c2s (drop OBFUSCATE_SEED_LENGTH preambleHeader) in
  let magicValue := wrapS 32 (be_load (take 4 osshFixedLengthFields)) in
  let paddingLength := wrapS 32 (be_load (drop 4 osshFixedLengthFields)) in
  if negb (magicValue =? OBFUSCATE_MAGIC_VALUE) && removedPrefix then
    _ ← log_irregular "invalid magic value"; io_err "invalid magic value"
  else if magicValue =? OBFUSCATE_MAGIC_VALUE then
    _ ← check_history osshSeed;
    if (paddingLength <? 0) || (OBFUSCATE_MAX_PADDING <? paddingLength) then
      _ ← log_irregular "invalid padding length"; io_err "invalid padding length"
    else
      padding ← on_client (MustRead (Z.to_nat paddingLength));
      let '(padding, c2s) := rc4_XORKeyStream c2s padding in
      '(prefixHeader, c2s) ←
        (if removedPrefix then
           '(name, c2s) ← io_catch (on_client (readPrefixHeader c2s)) (fun e => _ ← log_irregular "invalid prefix header"; io_err e);
           mret (Some name, c2s)
         else mret (None, c2s));
      paddingPRNGSeed ← (if (SEED_LENGTH <=? length padding)%nat then mret (take SEED_LENGTH padding) else io_lift newSeed);
      mret (c2s, s2c, paddingPRNGSeed, prefixHeader)
  else if negb removedPrefix then
    match skip_up_to with
    | None => io_err "expected SkipReader"
    | Some skip =>
        terminator ← io_lift (makeTerminator (Keyword config) preambleHeader OBFUSCATE_CLIENT_TO_SERVER_IV);
        _ ← io_catch (on_client (skip terminator (Z.to_nat PREFIX_TERM_SEARCH_BUF_SIZE) PREFIX_MAX_LENGTH))
              (fun _ => _ ← log_irregular "no prefix terminator or invalid magic value"; io_err "no prefix terminator or invalid magic value");
        retry
    end
  else io_err "unexpected error".

Definition readPreamble : io (server_io R) preamble_result :=
  readPreambleHelper false (readPreambleHelper true (io_err "unexpected error")).

Definition NewServerObfuscator : io (server_io R) Obfuscator :=
  if bool_decide (Keyword config = "") then io_err "missing keyword"
  else
    '(c2s, s2c, paddingPRNGSeed, prefixHeader) ← readPreamble;
    '(msg, prefixLen) ← io_lift (makeServerPreamble prefixHeader (ServerPrefixSpecs config) (Keyword config) newSeed);
    rng ← io_lift (NewPRNGWithSeed paddingPRNGSeed);
    mret {| preamble := msg; preambleOSSHPrefixLength := prefixLen; osshPrefixHeader := prefixHeader;
            osshPrefixSplitConfig := OSSHPrefixSplit config; keyword := Keyword config; paddingLength := -1;
            clientToServerCipher := c2s; serverToClientCipher := s2c; paddingPRNGSeed := paddingPRNGSeed; paddingPRNG := rng |}.
End Server.

(** ** Operations *)

Definition GetDerivedPRNGSeed (o : Obfuscator) (salt : string) : bytes := NewSaltedSeed (paddingPRNGSeed o) salt.

Definition GetDerivedPRNG (o : Obfuscator) (salt : string) : res PRNG := NewPRNGWithSaltedSeed (paddingPRNGSeed o) salt.

Definition SendPreamble (o : Obfuscator) : option bytes * nat * Obfuscator :=
  (preamble o, preambleOSSHPrefixLength o,
   {| preamble := None; preambleOSSHPrefixLength := 0; osshPrefixHeader := osshPrefixHeader o;
      osshPrefixSplitConfig := osshPrefixSplitConfig o; keyword := keyword o; paddingLength := paddingLength o;
      clientToServerCipher := clientToServerCipher o; serverToClientCipher := serverToClientCipher o;
      paddingPRNGSeed := paddingPRNGSeed o; paddingPRNG := paddingPRNG o |}).

Definition set_ciphers (o : Obfuscator) (c2s s2c : rc4) : Obfuscator :=
  {| preamble := preamble o; preambleOSSHPrefixLength := preambleOSSHPrefixLength o; osshPrefixHeader := osshPrefixHeader o;
     osshPrefixSplitConfig := osshPrefixSplitConfig o; keyword := keyword o; paddingLength := paddingLength o;
     clientToServerCipher := c2s; serverToClientCipher := s2c;
     paddingPRNGSeed := paddingPRNGSeed o; paddingPRNG := paddingPRNG o |}.

Definition ObfuscateClientToServer (buffer : bytes) (o : Obfuscator) : bytes * Obfuscator :=
  let '(buffer, c) := rc4_XORKeyStream (clientToServerCipher o) buffer in (buffer, set_ciphers o c (serverToClientCipher o)).

Definition ObfuscateServerToClient (buffer : bytes) (o : Obfuscator) : bytes * Obfuscator :=
  let '(buffer, c) := rc4_XORKeyStream (serverToClientCipher o) buffer in (buffer, set_ciphers o (clientToServerCipher o) c).
End Obfuscator.

Arguments reader {R}. Arguments seeds {R}. Arguments irregular {R}.

#[export] Instance SkipReader_ClientReader : ClientReader SkipReader := { skip_up_to := Some SkipUpToToken }.
#[export] Instance bytes_ClientReader : ClientReader bytes := { skip_up_to := None }.
#[export] Instance conn_ClientReader : ClientReader netConn := { skip_up_to := None }.

(** ** Properties *)

Lemma be_load_store n z : be_load (be_store n z) = z mod 256 ^ Z.of_nat n.
Proof. unfold be_load, be_store. rewrite rev_involutive. apply le_load_store. Qed.

Lemma length_be_store n z : length (be_store n z) = n.
Proof. unfold be_store. rewrite length_rev. apply length_le_store. Qed.

Lemma stringbyte_roundtrip s : string_of_list_byte (list_byte_of_string s) = s.
Proof. apply string_of_list_byte_of_string. Qed.

Lemma seeded_prng_ok seed p : length seed = SEED_LENGTH -> NewPRNGWithSeed seed = Ok p -> prng_ok p.
Proof.
  intros Hs Hp. destruct (rekey_ok {| randomStreamSeed := seed; randomStream := ChaCha20.zeroCipher; randomStreamUsed := 0; randomStreamRekeyCount := 0 |}
    Hs ltac:(cbn; lia)) as (p' & c & Hk & Hok & _). unfold NewPRNGWithSeed in Hp. rewrite Hk in Hp. by injection Hp as <-.
Qed.

Section Properties.
Context `{Digests}.

Lemma iterated_length n b : length b = 20%nat -> length (Nat.iter n sha1 b) = 20%nat.
Proof. intros Hb. destruct n as [|n]; [done|]. cbn. apply sha1_length. Qed.

Lemma deriveKey_ok seed kw iv : exists key, deriveKey seed kw iv = Ok key /\ length key = OBFUSCATE_KEY_LENGTH.
Proof.
  unfold deriveKey. cbv zeta. set (d := Nat.iter _ sha1 _). assert (length d = 20%nat) as Hd by (apply iterated_length, sha1_length).
  rewrite Hd. eexists. split; [done|]. rewrite length_take, Hd. done.
Qed.

Lemma NewCipher_ok key : length key = OBFUSCATE_KEY_LENGTH -> exists c, rc4_NewCipher key = Ok c.
Proof. intros Hk. unfold rc4_NewCipher. rewrite Hk. by eexists. Qed.

(** The ciphers of any seed exist. *)
Lemma ciphers_ok kw seed : exists c2s s2c, initObfuscatorCiphers kw seed = Ok (c2s, s2c).
Proof.
  unfold initObfuscatorCiphers.
  destruct (deriveKey_ok seed (list_byte_of_string kw) (list_byte_of_string OBFUSCATE_CLIENT_TO_SERVER_IV)) as (k1 & -> & H1).
  destruct (deriveKey_ok seed (list_byte_of_string kw) (list_byte_of_string OBFUSCATE_SERVER_TO_CLIENT_IV)) as (k2 & -> & H2).
  cbn [mbind res_mbind]. destruct (NewCipher_ok k1 H1) as [c1 ->], (NewCipher_ok k2 H2) as [c2 ->]. by exists c1, c2.
Qed.

(** *** The preamble of a client *)

(** What the code relies on in a configuration: the random bytes and the padding seed have
    their lengths, and the transform of the seed keeps its length, which [Apply] checks. *)
Record well_formed (config : ObfuscatorConfig) (random : res bytes) : Prop := {
  wf_random b : random = Ok b -> length b = OBFUSCATE_SEED_LENGTH;
  wf_seed b : PaddingPRNGSeed config = Some b -> length b = SEED_LENGTH;
  wf_transform f b b' : SeedTransform config = Some f -> f b = Ok b' -> length b' = length b
}.

Lemma padding_bounds config : Z.of_nat SEED_LENGTH <= min_padding config <= max_padding config /\ max_padding config <= OBFUSCATE_MAX_PADDING.
Proof.
  unfold max_padding. assert (Z.of_nat SEED_LENGTH <= min_padding config <= OBFUSCATE_MAX_PADDING) as Hm.
  { unfold min_padding. destruct (MinPadding config) as [p|]; [|done].
    destruct ((Z.of_nat SEED_LENGTH <=? p) && (p <=? OBFUSCATE_MAX_PADDING)) eqn:E; [|done]. apply andb_prop in E as [E1 E2]. lia. }
  destruct (MaxPadding config) as [p|]; [|lia].
  destruct ((Z.of_nat SEED_LENGTH <=? p) && (p <=? OBFUSCATE_MAX_PADDING) && (min_padding config <=? p)) eqn:E; [|lia].
  apply andb_prop in E as [[E1 E2]%andb_prop E3]. lia.
Qed.

(** The parts of a preamble. *)
Record client_parts (Generate : string -> stres PRNG bytes) (draws : nat) (config : ObfuscatorConfig) (random : res bytes) (o : Obfuscator) (c2s s2c : rc4) (b seed padding header : bytes) : Prop := {
  parts_ciphers : initObfuscatorCiphers (Keyword config) seed = Ok (c2s, s2c);
  parts_seed : client_seed config random = Ok seed /\ length seed = OBFUSCATE_SEED_LENGTH;
  parts_drawn : exists pseed rng, PaddingPRNGSeed config = Some pseed /\ NewPRNGWithSeed pseed = Ok rng /\
    Padding draws (min_padding config) (max_padding config) rng = Ok (padding, paddingPRNG o);
  parts_padding : Z.of_nat SEED_LENGTH <= Z.of_nat (length padding) <= OBFUSCATE_MAX_PADDING;
  parts_prefix : match ClientPrefixSpec config with
    | None => b = [] /\ header = [] /\ osshPrefixHeader o = None
    | Some spec => (exists n, makeTerminatedPrefixWithPadding Generate spec (Keyword config) OBFUSCATE_CLIENT_TO_SERVER_IV = Ok (b, n)) /\
        writePrefixHeader spec = Ok header /\ osshPrefixHeader o = Some (Name spec)
    end;
  parts_preamble : preamble o = Some (b ++ seed ++
    xored c2s (be_store 4 OBFUSCATE_MAGIC_VALUE ++ be_store 4 (Z.of_nat (length padding)) ++ padding ++ header));
  parts_c2s : clientToServerCipher o = rc4_skip (8 + length padding + length header) c2s;
  parts_s2c : serverToClientCipher o = s2c;
  parts_length : paddingLength o = Z.of_nat (length padding)
}.

Lemma client_preamble Generate draws config random o : well_formed config random -> NewClientObfuscator Generate draws config random = Ok o ->
  exists c2s s2c b seed padding header, client_parts Generate draws config random o c2s s2c b seed padding header.
Proof.
  intros [Hr Hs Htr] Ho. unfold NewClientObfuscator in Ho. case_bool_decide; [done|]. destruct (PaddingPRNGSeed config) as [pseed|] eqn:Hps; [|done].
  apply res_bind_ok in Ho as (rng & Hrng & Ho). apply res_bind_ok in Ho as (seed & Hseed & Ho).
  apply res_bind_ok in Ho as ([c2s s2c] & Hc & Ho).
  apply res_bind_ok in Ho as ([[[[[msg plen] hdr] padlen] rng'] c2s'] & Hm & [= <-]).
  assert (length seed = OBFUSCATE_SEED_LENGTH) as Hsl.
  { apply res_bind_ok in Hseed as (rnd & Hrnd & Hseed). rewrite <- (Hr _ Hrnd). destruct (SeedTransform config) as [f|] eqn:Hf; [|by injection Hseed as ->].
    destruct (IsOSSH config); [|by injection Hseed as ->]. by apply (Htr f). }
  unfold makeClientPreamble in Hm. apply res_bind_ok in Hm as ([padding rng1] & Hpad & Hm).
  apply res_bind_ok in Hm as ([b n] & Hb & Hm). apply res_bind_ok in Hm as (header & Hh & Hm).
  pose proof (padding_bounds config) as [Hmin Hmax].
  pose proof (seeded_prng_ok _ _ (Hs _ eq_refl) Hrng) as Hok.
  destruct (proj1 (proj2 (proj2 (ranges_correct draws (min_padding config) (max_padding config) ltac:(unfold OBFUSCATE_MAX_PADDING in Hmax; lia))))
    ltac:(unfold stream_limit, OBFUSCATE_MAX_PADDING in *; lia) ltac:(unfold stream_limit, OBFUSCATE_MAX_PADDING in *; lia) rng Hok)
    as [Hnf|(pad' & rng2 & Hpad' & Hrange & _)]; [congruence|]. rewrite Hpad' in Hpad. injection Hpad as -> ->.
  assert (Z.of_nat SEED_LENGTH <= Z.of_nat (length padding) <= OBFUSCATE_MAX_PADDING) as Hpl.
  { unfold in_range in Hrange. revert Hrange. case_bool_decide; lia. }
  exists c2s, s2c, b, seed, padding, header. rewrite XORKeyStream_xored in Hm. injection Hm as <- <- <- <- <- <-.
  rewrite app_assoc, (drop_app_length' (b ++ seed)), (take_app_length' (b ++ seed)) by (rewrite length_app; lia).
  split; cbn [osshPrefixHeader preamble clientToServerCipher serverToClientCipher paddingLength paddingPRNG]; [done|done| |done| | | |done|done].
  - by exists pseed, rng.
  - destruct (ClientPrefixSpec config) as [spec|]; [|injection Hb as <- <-; by injection Hh as <-]. split; [by eexists|done].
  - by rewrite <- app_assoc.
  - cbn [length]. by rewrite length_app.
Qed.

(** *** How the server reads it *)

Definition header_bytes (name : string) : bytes :=
  be_store 2 1 ++ be_store 2 (Z.of_nat (length (list_byte_of_string name))) ++ list_byte_of_string name.

Lemma readPrefixHeader_ok {R} `{!Reader R} (r : R) c name rest : reader_ok r ->
  Z.of_nat (length (list_byte_of_string name)) <= PREFIX_MAX_HEADER_LENGTH -> stream r = xored c (header_bytes name) ++ rest ->
  exists r', readPrefixHeader c r = (Ok (name, rc4_skip (length (header_bytes name)) c), r') /\ reader_ok r' /\ stream r' = rest.
Proof.
  intros Hr Hn Hs. unfold header_bytes in Hs |- *. set (b := list_byte_of_string name) in *.
  rewrite app_assoc, xored_app, <- app_assoc in Hs. set (f := be_store 2 1 ++ be_store 2 (Z.of_nat (length b))) in *.
  assert (length f = 4%nat) as Hf by (unfold f; by rewrite length_app, !length_be_store).
  unfold readPrefixHeader. destruct (MustRead_app 4 r _ _ Hr Hs) as (r1 & Hm & Hr1 & Hs1); [by rewrite length_xored|].
  erewrite io_bind_run by exact Hm. rewrite XORKeyStream_undo, Hf. unfold f.
  rewrite (take_app_length' (be_store 2 1)), (drop_app_length' (be_store 2 1)), !be_load_store by (by rewrite length_be_store).
  change (256 ^ Z.of_nat 2) with 65536. rewrite (Z.mod_small (Z.of_nat (length b))) by (unfold PREFIX_MAX_HEADER_LENGTH in Hn; lia).
  change (negb (1 mod 65536 =? 1)) with false. cbn iota. replace (PREFIX_MAX_HEADER_LENGTH <? Z.of_nat (length b)) with false by lia.
  rewrite Nat2Z.id. rewrite Hf in Hs1. destruct (MustRead_app (length b) r1 _ _ Hr1 Hs1) as (r2 & Hm2 & Hr2 & Hs2); [by rewrite length_xored|].
  erewrite io_bind_run by exact Hm2. rewrite XORKeyStream_undo. exists r2. split; [|done]. unfold mret, io_mret.
  rewrite <- rc4_skip_add. unfold b at 1. rewrite stringbyte_roundtrip. by rewrite !length_app, !length_be_store.
Qed.

(** The seed is not in the history, when there is one. *)
Definition unused (now : Z) (h : option SeedHistory) (seed : bytes) : Prop :=
  match h with Some h => absent now (seedToTime h) seed | None => True end.

Definition seeded (now : Z) (config : ObfuscatorConfig) (clientIP : string) (seed : bytes) (h : option SeedHistory) : option SeedHistory :=
  (fun h => (AddNew now h (negb (DisableStrictHistoryMode config)) clientIP "obfuscator-seed" seed).2) <$> h.

Lemma check_history_ok {R} config now clientIP seed (s : server_io R) : unused now (seeds s) seed ->
  check_history config now clientIP seed s = (Ok tt, {| reader := reader s; seeds := seeded now config clientIP seed (seeds s); irregular := irregular s |}).
Proof.
  intros Hu. unfold check_history, seeded. destruct s as [r [h|] l]; cbn [seeds reader irregular] in *; [|done].
  unfold AddNew. cbn [fmap option_fmap option_map]. rewrite absent_added by done. by rewrite bool_decide_true.
Qed.

Section Reading.
Context {R : Type} `{!Reader R} `{!ClientReader R}.
Context (config : ObfuscatorConfig) (now : Z) (clientIP : string) (newSeed : res bytes).

Definition first_fields (padding : bytes) : bytes := be_store 4 OBFUSCATE_MAGIC_VALUE ++ be_store 4 (Z.of_nat (length padding)).

Lemma length_first_fields padding : length (first_fields padding) = 8%nat.
Proof. unfold first_fields. by rewrite length_app, !length_be_store. Qed.

Lemma first_fields_values padding : Z.of_nat (length padding) <= OBFUSCATE_MAX_PADDING ->
  wrapS 32 (be_load (take 4 (first_fields padding))) = OBFUSCATE_MAGIC_VALUE /\
  wrapS 32 (be_load (drop 4 (first_fields padding))) = Z.of_nat (length padding).
Proof.
  intros Hp. unfold first_fields.
  rewrite (take_app_length' (be_store 4 _)), (drop_app_length' (be_store 4 _)), !be_load_store by (by rewrite length_be_store).
  split; [done|]. change (256 ^ Z.of_nat 4) with (2 ^ 32). unfold OBFUSCATE_MAX_PADDING in Hp. rewrite Z.mod_small by lia. apply wrapS_id; lia.
Qed.

(** The initial message, with or without a prefix header after it. *)
Lemma helper_reads (removedPrefix : bool) retry (s : server_io R) seed c2s s2c padding header name rest : reader_ok (reader s) ->
  initObfuscatorCiphers (Keyword config) seed = Ok (c2s, s2c) -> length seed = OBFUSCATE_SEED_LENGTH ->
  Z.of_nat SEED_LENGTH <= Z.of_nat (length padding) <= OBFUSCATE_MAX_PADDING ->
  (if removedPrefix then header = header_bytes name /\ Z.of_nat (length (list_byte_of_string name)) <= PREFIX_MAX_HEADER_LENGTH else header = []) ->
  stream (reader s) = (seed ++ xored c2s (first_fields padding ++ padding ++ header)) ++ rest -> unused now (seeds s) seed ->
  exists r', readPreambleHelper config now clientIP newSeed removedPrefix retry s =
      (Ok (rc4_skip (8 + length padding + length header) c2s, s2c, take SEED_LENGTH padding, if removedPrefix then Some name else None),
       {| reader := r'; seeds := seeded now config clientIP seed (seeds s); irregular := irregular s |}) /\
    reader_ok r' /\ stream r' = rest.
Proof.
  intros Hr Hc Hsl Hp Hh Hs Hu. pose proof (length_first_fields padding) as Hl. destruct (first_fields_values padding ltac:(lia)) as [Hmagic Hplen].
  rewrite !xored_app, Hl, app_assoc, <- !app_assoc, (app_assoc seed) in Hs.
  unfold readPreambleHelper. destruct (MustRead_app PREAMBLE_HEADER_LENGTH (reader s) _ _ Hr Hs) as (r1 & Hm & Hr1 & Hs1).
  { rewrite length_app, length_xored, Hsl, Hl. done. }
  erewrite io_bind_run by (apply io_on_run, Hm).
  rewrite (take_app_length' seed), (drop_app_length' seed) by done. unfold io_lift at 1. erewrite io_bind_run by (rewrite Hc; done).
  cbv beta iota. rewrite XORKeyStream_undo. cbv beta iota zeta. rewrite Hmagic, Hplen, Hl, Z.eqb_refl. cbn [negb andb].
  erewrite io_bind_run by (apply check_history_ok; exact Hu). cbn [reader seeds irregular].
  replace ((Z.of_nat (length padding) <? 0) || (OBFUSCATE_MAX_PADDING <? Z.of_nat (length padding))) with false by lia.
  rewrite Nat2Z.id. destruct (MustRead_app (length padding) r1 _ _ Hr1 Hs1) as (r2 & Hm2 & Hr2 & Hs2); [by rewrite length_xored|].
  erewrite io_bind_run by (apply io_on_run, Hm2). cbn [reader seeds irregular]. rewrite XORKeyStream_undo.
  assert ((SEED_LENGTH <=? length padding)%nat = true) as Hge by (apply Nat.leb_le; lia).
  destruct removedPrefix.
  - destruct Hh as [-> Hn]. destruct (readPrefixHeader_ok r2 _ name rest Hr2 Hn Hs2) as (r3 & Hm3 & Hr3 & Hs3).
    exists r3. split; [|done]. erewrite io_bind_run.
    2: { erewrite io_bind_run; cycle 1; [unfold io_catch, on_client; erewrite io_on_run by exact Hm3; reflexivity|reflexivity]. }
    cbv beta iota. rewrite Hge. rewrite <- !rc4_skip_add. done.
  - subst header. exists r2. split; [|by rewrite xored_nil in Hs2]. erewrite io_bind_run by done. rewrite Hge, <- rc4_skip_add, Nat.add_0_r. done.
Qed.
End Reading.

(** *** Prefixes *)

(** The bytes could be taken for the start of an initial message. *)
Definition magic_in (kw : string) (b : bytes) : Prop :=
  exists c2s s2c, initObfuscatorCiphers kw (take OBFUSCATE_SEED_LENGTH b) = Ok (c2s, s2c) /\
    wrapS 32 (be_load (take 4 (xored c2s (drop OBFUSCATE_SEED_LENGTH b)))) = OBFUSCATE_MAGIC_VALUE.

(** A terminated prefix that the server can skip: it is not too long, its start is not taken
    for an initial message, and its terminator does not occur in it by chance. *)
Record recognizable (kw : string) (b : bytes) : Prop := {
  rec_length : Z.of_nat (length b) - Z.of_nat PREAMBLE_HEADER_LENGTH <= PREFIX_MAX_LENGTH;
  rec_magic : ~ magic_in kw (take PREAMBLE_HEADER_LENGTH b);
  rec_first : bytes_Index (drop PREAMBLE_HEADER_LENGTH b) (drop (length b - PREFIX_TERMINATOR_LENGTH) b) =
    Some (length b - PREFIX_TERMINATOR_LENGTH - PREAMBLE_HEADER_LENGTH)%nat
}.

(** A terminated prefix ends in the terminator of its first bytes. *)
Lemma terminated_prefix Generate spec kw direction b n : makeTerminatedPrefixWithPadding Generate spec kw direction = Ok (b, n) ->
  exists prefix terminator, b = prefix ++ terminator /\ (PREAMBLE_HEADER_LENGTH <= length prefix)%nat /\ length terminator = PREFIX_TERMINATOR_LENGTH /\
    makeTerminator kw (take PREAMBLE_HEADER_LENGTH b) direction = Ok terminator.
Proof.
  unfold makeTerminatedPrefixWithPadding. intros ([prefix len] & _ & (terminator & Ht & [= <- <-])%res_bind_ok)%res_bind_ok.
  exists prefix, terminator. unfold makeTerminator in *.
  destruct (Nat.ltb_spec (length prefix) PREAMBLE_HEADER_LENGTH) as [|Hge]; [done|].
  destruct (negb _ && negb _) eqn:Ed; [done|]. injection Ht as <-. rewrite hkdf_length. split_and!; [done|done|done|].
  rewrite take_app_le, take_take, Nat.min_id by done. rewrite length_take. rewrite Nat.min_l by done. by rewrite (proj2 (Nat.ltb_ge _ _)).
Qed.

(** Nothing is buffered, and an end of the stream is read on its own. *)
Definition fresh_reader (sr : SkipReader) : Prop := sr_offset sr = sr_end sr /\ eager (sr_Conn sr) = false.

Lemma fresh_Read k sr : fresh_reader sr -> fresh_reader (Read k sr).2.
Proof.
  intros [Ho He]. cbn. unfold SkipReader_Read. rewrite Ho, Nat.ltb_irrefl. unfold conn_Read.
  destruct (arrivals (sr_Conn sr)); by split.
Qed.

Lemma fresh_stream sr : fresh_reader sr -> stream sr = stream (sr_Conn sr).
Proof. intros [Ho _]. cbn. by rewrite Ho, Nat.sub_diag. Qed.

Lemma prefix_skipped config now clientIP newSeed retry (s : server_io SkipReader) b rest terminator :
  reader_ok (reader s) -> fresh_reader (reader s) -> (PREAMBLE_HEADER_LENGTH + PREFIX_TERMINATOR_LENGTH <= length b)%nat ->
  drop (length b - PREFIX_TERMINATOR_LENGTH) b = terminator ->
  makeTerminator (Keyword config) (take PREAMBLE_HEADER_LENGTH b) OBFUSCATE_CLIENT_TO_SERVER_IV = Ok terminator ->
  recognizable (Keyword config) b -> stream (reader s) = b ++ rest ->
  exists r', readPreambleHelper config now clientIP newSeed false retry s = retry {| reader := r'; seeds := seeds s; irregular := irregular s |} /\
    reader_ok r' /\ stream r' = rest.
Proof.
  intros Hr Hf Hlen Hterm Hmk [Hl Hmg Hfst] Hs. rewrite Hterm in Hfst.
  assert (length terminator = PREFIX_TERMINATOR_LENGTH) as Htl by (rewrite <- Hterm, length_drop; lia).
  assert (terminator <> []) as Hne by (intros ->; discriminate Htl).
  unfold readPreambleHelper. rewrite <- (take_drop PREAMBLE_HEADER_LENGTH b), <- app_assoc in Hs.
  destruct (MustRead_app PREAMBLE_HEADER_LENGTH (reader s) _ _ Hr Hs) as (r1 & Hm & Hr1 & Hs1); [rewrite length_take; lia|].
  assert (fresh_reader r1) as Hf1.
  { change r1 with ((Ok (take PREAMBLE_HEADER_LENGTH b), r1).2). rewrite <- Hm. by apply (MustRead_keeps fresh_reader), Hf; intros; apply fresh_Read. }
  erewrite io_bind_run by (apply io_on_run, Hm). cbn [reader seeds irregular].
  destruct (ciphers_ok (Keyword config) (take OBFUSCATE_SEED_LENGTH (take PREAMBLE_HEADER_LENGTH b))) as (c2s & s2c & Hc).
  unfold io_lift at 1. erewrite io_bind_run by (rewrite Hc; done). cbv beta iota. rewrite XORKeyStream_xored. cbv beta iota zeta.
  assert ((wrapS 32 (be_load (take 4 (xored c2s (drop OBFUSCATE_SEED_LENGTH (take PREAMBLE_HEADER_LENGTH b))))) =? OBFUSCATE_MAGIC_VALUE) = false) as ->.
  { apply Z.eqb_neq. intros Hmag. apply Hmg. by exists c2s, s2c. }
  cbn [negb andb skip_up_to SkipReader_ClientReader]. unfold io_lift. erewrite io_bind_run by (rewrite Hmk; done).
  rewrite (fresh_stream _ Hf1) in Hs1.
  destruct (SkipUpToToken_ok terminator (Z.to_nat PREFIX_TERM_SEARCH_BUF_SIZE) PREFIX_MAX_LENGTH r1 (length b - PREFIX_TERMINATOR_LENGTH - PREAMBLE_HEADER_LENGTH)
    Hne ltac:(unfold PREFIX_TERM_SEARCH_BUF_SIZE; lia) ltac:(unfold PREFIX_TERM_SEARCH_BUF_SIZE, PREFIX_MAX_LENGTH; lia)) as (r2 & Hsk & Hr2 & Hs2).
  { rewrite Hs1. by apply Index_extend. }
  { rewrite Htl. lia. }
  { apply Hf1. }
  erewrite io_bind_run.
  2: { unfold io_catch, on_client. erewrite io_on_run by exact Hsk. reflexivity. }
  exists r2. split; [done|]. split; [done|]. rewrite Hs2, Hs1, Htl.
  replace (length b - PREFIX_TERMINATOR_LENGTH - PREAMBLE_HEADER_LENGTH + PREFIX_TERMINATOR_LENGTH)%nat with (length (drop PREAMBLE_HEADER_LENGTH b))
    by (rewrite length_drop; lia). apply drop_app_length.
Qed.

(** *** The preamble is read *)

Lemma preamble_read Generate draws config random o sconfig now clientIP newSeed seed c h rest :
  well_formed config random -> NewClientObfuscator Generate draws config random = Ok o -> Keyword sconfig = Keyword config ->
  (forall spec b n, ClientPrefixSpec config = Some spec ->
    makeTerminatedPrefixWithPadding Generate spec (Keyword config) OBFUSCATE_CLIENT_TO_SERVER_IV = Ok (b, n) -> recognizable (Keyword config) b) ->
  client_seed config random = Ok seed -> unused now h seed -> eager c = false -> stream c = default [] (preamble o) ++ rest ->
  exists r' pseed rng padding,
    readPreamble sconfig now clientIP newSeed {| reader := WrapConnWithSkipReader c; seeds := h; irregular := [] |} =
      (Ok (clientToServerCipher o, serverToClientCipher o, take SEED_LENGTH padding, osshPrefixHeader o),
       {| reader := r'; seeds := seeded now sconfig clientIP seed h; irregular := [] |}) /\
    reader_ok r' /\ stream r' = rest /\
    PaddingPRNGSeed config = Some pseed /\ NewPRNGWithSeed pseed = Ok rng /\
    Padding draws (min_padding config) (max_padding config) rng = Ok (padding, paddingPRNG o) /\ (SEED_LENGTH <= length padding)%nat.
Proof.
  intros Hwf Ho Hk Hrec Hseed Hun He Hs.
  destruct (client_preamble _ _ _ _ _ Hwf Ho) as (c2s & s2c & b & seed' & padding & header & [Hc [Hs1 Hs2] (pseed & rng & Hd1 & Hd2 & Hd3) Hp Hpre Hmsg H1 H2 _]).
  rewrite Hseed in Hs1. injection Hs1 as <-. rewrite Hmsg in Hs. cbn [default from_option id] in Hs. unfold id in Hs. rewrite (app_assoc (be_store 4 OBFUSCATE_MAGIC_VALUE)) in Hs. fold (first_fields padding) in Hs.
  assert (reader_ok (WrapConnWithSkipReader c)) as Hok by (cbn; lia). unfold readPreamble. rewrite <- Hk in Hc.
  destruct (ClientPrefixSpec config) as [spec|] eqn:Hsp.
  - destruct Hpre as ([n Hb] & Hw & ->). specialize (Hrec _ _ _ eq_refl Hb). rewrite <- Hk in Hrec, Hb.
    destruct (terminated_prefix _ _ _ _ _ _ Hb) as (prefix & terminator & -> & Hpl & Htl & Hmk).
    destruct (prefix_skipped sconfig now clientIP newSeed (readPreambleHelper sconfig now clientIP newSeed true (io_err "unexpected error"))
      {| reader := WrapConnWithSkipReader c; seeds := h; irregular := [] |} (prefix ++ terminator)
      ((seed ++ xored c2s (first_fields padding ++ padding ++ header)) ++ rest) terminator) as (r1 & -> & Hr1 & Hst1).
    { done. } { by split. } { rewrite length_app. lia. } { rewrite length_app, Htl, Nat.add_sub. apply drop_app_length. } { done. } { done. }
    { cbn [reader]. rewrite fresh_stream by done. cbn [sr_Conn WrapConnWithSkipReader]. by rewrite Hs, <- ?app_assoc. }
    unfold writePrefixHeader in Hw. destruct (Z.ltb_spec PREFIX_MAX_HEADER_LENGTH (Z.of_nat (length (list_byte_of_string (Name spec))))) as [|Hn]; [done|].
    injection Hw as <-.
    destruct (helper_reads sconfig now clientIP newSeed true (io_err "unexpected error") {| reader := r1; seeds := h; irregular := [] |}
      seed c2s s2c padding (header_bytes (Name spec)) (Name spec) rest) as (r2 & Hrd & Hr2 & Hst2); [done|done|done|done|done|done|done|].
    exists r2, pseed, rng, padding. rewrite H1, H2. split; [exact Hrd|]. split_and!; [done|done|done|done|done|lia].
  - destruct Hpre as (-> & -> & ->).
    destruct (helper_reads sconfig now clientIP newSeed false (readPreambleHelper sconfig now clientIP newSeed true (io_err "unexpected error"))
      {| reader := WrapConnWithSkipReader c; seeds := h; irregular := [] |}
      seed c2s s2c padding [] "" rest) as (r2 & Hrd & Hr2 & Hst2); [done|done|done|done|done| |done|].
    { cbn [reader]. rewrite fresh_stream by done. cbn [sr_Conn WrapConnWithSkipReader]. rewrite Hs, app_nil_l. reflexivity. }
    exists r2, pseed, rng, padding. rewrite H1, H2. split; [exact Hrd|]. split_and!; [done|done|done|done|done|lia].
Qed.
(** The kind of connection of a server stays. *)
Definition server_eager (s : server_io SkipReader) : bool := conn_eager (reader s).

Lemma keeps_catch {S V A} (view : S -> V) (m : io S A) handler : keeps view m -> (forall e, keeps view (handler e)) -> keeps view (io_catch m handler).
Proof. intros Hm Hh s. unfold io_catch. specialize (Hm s). destruct (m s) as [[a|e|e|] s']; cbn in *; [done|by rewrite Hh|done..]. Qed.

Lemma on_client_eager {A} (m : io SkipReader A) : keeps conn_eager m -> keeps server_eager (on_client m).
Proof. intros Hm s. unfold on_client, io_on. specialize (Hm (reader s)). by destruct (m (reader s)). Qed.

Lemma log_irregular_eager config e : keeps server_eager (log_irregular config e).
Proof. by apply keeps_modify. Qed.

Lemma check_history_eager config now clientIP seed : keeps server_eager (check_history config now clientIP seed).
Proof.
  intros s. unfold check_history. destruct (seeds s) as [h|]; [|done]. destruct (AddNew _ _ _ _ _ _) as [[ok dup] h'].
  unfold mbind, io_mbind. destruct (bool_decide (dup = None)), ok; done.
Qed.

Lemma readPrefixHeader_eager c : keeps conn_eager (readPrefixHeader (R := SkipReader) c).
Proof.
  unfold readPrefixHeader. apply keeps_bind; [apply MustRead_eager|]. intros b. destruct (rc4_XORKeyStream c b) as [b' c']. keeps_step; [by apply keeps_err|].
  cbv zeta. keeps_step; [by apply keeps_err|]. apply keeps_bind; [apply MustRead_eager|]. intros b2. by destruct (rc4_XORKeyStream c' b2).
Qed.

#[local] Hint Resolve on_client_eager log_irregular_eager check_history_eager readPrefixHeader_eager MustRead_eager SkipUpToToken_eager keeps_catch : keeps.

Lemma readPreambleHelper_eager config now clientIP newSeed removed retry : keeps server_eager retry ->
  keeps server_eager (readPreambleHelper config now clientIP newSeed removed retry).
Proof. intros Hr. unfold readPreambleHelper. cbn [skip_up_to SkipReader_ClientReader]. keeps. all: apply keeps_catch; keeps. Qed.

Lemma NewServerObfuscator_eager Generate config now clientIP newSeed :
  keeps server_eager (NewServerObfuscator Generate config now clientIP newSeed).
Proof.
  assert (keeps server_eager (readPreamble config now clientIP newSeed)) as Hr.
  { apply readPreambleHelper_eager, readPreambleHelper_eager. by apply keeps_err. }
  unfold NewServerObfuscator. keeps.
Qed.
End Properties.

(** C4: The server reads exactly the preamble of a client with its keyword, whether or not the
    client sends a prefix first and however the bytes arrive: it has the ciphers of the client
    at the same places in their streams, the name of the prefix and the padding seed that the
    client drew, no irregular event is logged, the seed is in the history, and what follows
    the preamble is still to be read. *)
Theorem server_reads_preamble `{Digests} Generate draws config random o sconfig now clientIP newSeed seed c h rest :
  well_formed config random -> NewClientObfuscator Generate draws config random = Ok o -> Keyword sconfig = Keyword config ->
  (forall spec b n, ClientPrefixSpec config = Some spec ->
    makeTerminatedPrefixWithPadding Generate spec (Keyword config) OBFUSCATE_CLIENT_TO_SERVER_IV = Ok (b, n) -> recognizable (Keyword config) b) ->
  client_seed config random = Ok seed -> unused now h seed -> eager c = false -> stream c = default [] (preamble o) ++ rest ->
  exists r' pseed rng padding,
    readPreamble sconfig now clientIP newSeed {| reader := WrapConnWithSkipReader c; seeds := h; irregular := [] |} =
      (Ok (clientToServerCipher o, serverToClientCipher o, take SEED_LENGTH padding, osshPrefixHeader o),
       {| reader := r'; seeds := seeded now sconfig clientIP seed h; irregular := [] |}) /\
    reader_ok r' /\ stream r' = rest /\
    PaddingPRNGSeed config = Some pseed /\ NewPRNGWithSeed pseed = Ok rng /\
    Padding draws (min_padding config) (max_padding config) rng = Ok (padding, paddingPRNG o) /\ (SEED_LENGTH <= length padding)%nat.
Proof. apply preamble_read. Qed.

(** ** Examples *)

#[local, refine] Instance padded_digests : Digests := {|
  sha1 := fun m => take 20 (m ++ replicate 20 x00);
  hmac_sha256 := fun key m => take 32 (key ++ m ++ replicate 32 x00);
  hkdf_sha256 := fun secret salt info n => take n (secret ++ salt ++ replicate n x00)
|}.
Proof.
  - intros m. rewrite length_take, length_app, length_replicate. lia.
  - intros key m. rewrite length_take, !length_app, length_replicate. lia.
  - intros secret salt info n. rewrite length_take, !length_app, length_replicate. lia.
Defined.

Definition no_generator : string -> stres PRNG bytes := fun _ _ => Err "no generator".

Definition example_random : res bytes := Ok (replicate 16 x2a).

Definition example_config : ObfuscatorConfig := {|
  IsOSSH := true; Keyword := "keyword"; ClientPrefixSpec := Some {| Name := "name"; prefix_Spec := [("", "prefix")]; prefix_Seed := replicate 32 x05 |};
  ServerPrefixSpecs := ∅; OSSHPrefixSplit := None; PaddingPRNGSeed := Some (replicate 32 x07); MinPadding := Some 40; MaxPadding := Some 50;
  SeedTransform := None; DisableStrictHistoryMode := false; IrregularLogger := true |}.

(** The prefix is the generator itself. *)
Definition literal_generator : string -> stres PRNG bytes := fun s p => Ok (list_byte_of_string s, p).

Lemma ok_value {A} (r : res A) : match r with Ok _ => true | _ => false end = true -> exists a, r = Ok a.
Proof. destruct r; [by eexists|done..]. Qed.

Lemma example_client_ok : exists o, NewClientObfuscator literal_generator 8 example_config example_random = Ok o.
Proof. apply ok_value. vm_compute. reflexivity. Qed.

Definition recognizableb (kw : string) (b : bytes) : bool :=
  (Z.of_nat (length b) - Z.of_nat PREAMBLE_HEADER_LENGTH <=? PREFIX_MAX_LENGTH) &&
  match initObfuscatorCiphers kw (take OBFUSCATE_SEED_LENGTH (take PREAMBLE_HEADER_LENGTH b)) with
  | Ok (c2s, _) => negb (wrapS 32 (be_load (take 4 (xored c2s (drop OBFUSCATE_SEED_LENGTH (take PREAMBLE_HEADER_LENGTH b))))) =? OBFUSCATE_MAGIC_VALUE)
  | _ => true
  end &&
  bool_decide (bytes_Index (drop PREAMBLE_HEADER_LENGTH b) (drop (length b - PREFIX_TERMINATOR_LENGTH) b) =
    Some (length b - PREFIX_TERMINATOR_LENGTH - PREAMBLE_HEADER_LENGTH)%nat).

Lemma recognizableb_ok kw b : recognizableb kw b = true -> recognizable kw b.
Proof.
  unfold recognizableb. intros [[H1 H2]%andb_prop H3%bool_decide_eq_true]%andb_prop. split; [lia| |done].
  intros (c2s & s2c & E & Hm). rewrite E, Hm in H2. by rewrite Z.eqb_refl in H2.
Qed.

Definition all_recognizable (kw : string) (r : res (bytes * nat)) : bool := match r with Ok (b, _) => recognizableb kw b | _ => true end.

Lemma all_recognizable_ok kw r b n : all_recognizable kw r = true -> r = Ok (b, n) -> recognizable kw b.
Proof. intros Ha ->. by apply recognizableb_ok. Qed.

Lemma example_recognizable spec b n : ClientPrefixSpec example_config = Some spec ->
  makeTerminatedPrefixWithPadding literal_generator spec "keyword" OBFUSCATE_CLIENT_TO_SERVER_IV = Ok (b, n) -> recognizable "keyword" b.
Proof. intros [= <-]. apply all_recognizable_ok. vm_compute. reflexivity. Qed.

Lemma server_reads_preamble_witness : exists o r' padding,
  NewClientObfuscator literal_generator 8 example_config example_random = Ok o /\
  readPreamble example_config 0 "192.0.2.1" (Err "no seed")
    {| reader := WrapConnWithSkipReader {| arrivals := [default [] (preamble o); list_byte_of_string "rest"]; final := EOF; eager := false |};
       seeds := None; irregular := [] |} =
    (Ok (clientToServerCipher o, serverToClientCipher o, take SEED_LENGTH padding, osshPrefixHeader o),
     {| reader := r'; seeds := None; irregular := [] |}) /\
  stream r' = list_byte_of_string "rest".
Proof.
  destruct example_client_ok as [o Ho]. pose proof (app_nil_r (list_byte_of_string "rest")) as Hrest.
  destruct (server_reads_preamble literal_generator 8 example_config example_random o example_config 0 "192.0.2.1" (Err "no seed") (replicate 16 x2a)
    {| arrivals := [default [] (preamble o); list_byte_of_string "rest"]; final := EOF; eager := false |} None (list_byte_of_string "rest"))
    as (r' & pseed & rng & padding & Hr & _ & Hs & _).
  - split; [by intros b [= <-]|by intros b [= <-]|discriminate].
  - exact Ho.
  - reflexivity.
  - exact example_recognizable.
  - reflexivity.
  - exact I.
  - reflexivity.
  - cbn [stream conn_Reader arrivals concat]. rewrite Hrest. reflexivity.
  - exists o, r', padding. split; [exact Ho|]. split; [exact Hr|exact Hs].
Defined.
