(* ===== verification/OsshConn.v ===== *)
(** * Obfuscated SSH connections

    Models src/psiphon/common/obfuscator/obfuscatedSshConn.go: a connection that obfuscates
    the start of an SSH session, up to the first SSH_MSG_NEWKEYS packet in each direction,
    and then passes it through.

    The reading end of the network connection is a [SkipReader] and the writing end any
    [UnderlyingConn].  Whether the connection is closed before the delay after a prefix ends
    is the argument [interrupted]. *)

From Stdlib Require Import ZArith Lia Strings.Byte Strings.String.
From stdpp Require Import base gmap list strings numbers.
From S2P Require Import Prelude.
From S2P Require Import GoCrypto.
From S2P Require Import PRNG.
From S2P Require Import Fragmentor.
From S2P Require Import SeedHistory.
From S2P Require Import GoIO.
From S2P Require Import Obfuscator.
#[local] Open Scope string_scope.
#[local] Open Scope Z_scope.
#[local] Open Scope list_scope.

Definition SSH_MAX_SERVER_LINE_LENGTH : nat := 1024.
Definition SSH_PACKET_PREFIX_LENGTH : nat := 5.
Definition SSH_MAX_PACKET_LENGTH : Z := 256 * 1024.
Definition SSH_MSG_NEWKEYS : Z := 21.
Definition SSH_MAX_PADDING_LENGTH : Z := 255.
Definition SSH_PADDING_MULTIPLE : Z := 16.

Inductive ObfuscatedSSHConnMode := OBFUSCATION_CONN_MODE_CLIENT | OBFUSCATION_CONN_MODE_SERVER.

Inductive ObfuscatedSSHReadState :=
| OBFUSCATION_READ_STATE_CLIENT_READ_PREFIX
| OBFUSCATION_READ_STATE_IDENTIFICATION_LINES
| OBFUSCATION_READ_STATE_KEX_PACKETS
| OBFUSCATION_READ_STATE_FLUSH
| OBFUSCATION_READ_STATE_FINISHED.

Inductive ObfuscatedSSHWriteState :=
| OBFUSCATION_WRITE_STATE_CLIENT_SEND_PREAMBLE
| OBFUSCATION_WRITE_STATE_SERVER_SEND_PREFIX_AND_IDENTIFICATION_LINE_PADDING
| OBFUSCATION_WRITE_STATE_IDENTIFICATION_LINE
| OBFUSCATION_WRITE_STATE_KEX_PACKETS
| OBFUSCATION_WRITE_STATE_FINISHED.

#[export] Instance mode_eq_dec : EqDecision ObfuscatedSSHConnMode.
Proof. solve_decision. Defined.
#[export] Instance read_state_eq_dec : EqDecision ObfuscatedSSHReadState.
Proof. solve_decision. Defined.
#[export] Instance write_state_eq_dec : EqDecision ObfuscatedSSHWriteState.
Proof. solve_decision. Defined.

(** ** SSH packets *)

(** The packet, padding, payload and message lengths of a packet. *)
Definition getSSHPacketPrefix (buffer : bytes) : res (Z * Z * Z * Z) :=
  let packetLength := be_load (take 4 buffer) in
  if (packetLength <? 1) || (SSH_MAX_PACKET_LENGTH <? packetLength) then Err "invalid SSH packet length"
  else
    let paddingLength := b2z (nth 4 buffer x00) in
    Ok (packetLength, paddingLength, packetLength - paddingLength - 1, Z.of_nat SSH_PACKET_PREFIX_LENGTH + packetLength - 1).

Definition setSSHPacketPrefix (buffer : bytes) (packetLength paddingLength : Z) : bytes :=
  be_store 4 packetLength ++ [z2b paddingLength] ++ drop SSH_PACKET_PREFIX_LENGTH buffer.

Definition CRLF : bytes := [x0d; x0a].

(** One line after the other in the padding of a server, the last byte pairs of which are
    set; the lines and what is left of the padding. *)
Fixpoint line_loop (fuel : nat) (remaining lineStartIndex : Z) (padding : bytes) : bytes :=
  match fuel with
  | O => padding
  | S fuel =>
      if 0 <? remaining then
        let minLineLength := 2 in
        let maxLineLength := 512 in
        let lineLength := if maxLineLength <? remaining then maxLineLength else remaining in
        let lineLength := if (0 <? remaining - lineLength) && (remaining - lineLength <? minLineLength)
                          then lineLength - (minLineLength - (remaining - lineLength)) else lineLength in
        let padding := <[Z.to_nat (lineStartIndex + lineLength - 2) := x0d]> padding in
        let padding := <[Z.to_nat (lineStartIndex + lineLength - 1) := x0a]> padding in
        line_loop fuel (remaining - lineLength) (lineStartIndex + lineLength) padding
      else padding
  end.

Definition makeServerIdentificationLinePadding (draws : nat) : stres PRNG bytes :=
  n ← Intn draws (OBFUSCATE_MAX_PADDING - 2 + 1);
  let paddingLength := n + 2 in
  mret (line_loop (Z.to_nat paddingLength) paddingLength 0 (replicate (Z.to_nat paddingLength) x00)).

(** [extractSSHIdentificationLine]: the line and what is left of the buffer. *)
Definition extractSSHIdentificationLine (writeBuffer : bytes) : option (bytes * bytes) :=
  match bytes_Index writeBuffer CRLF with
  | Some index => Some (take (index + 2) writeBuffer, drop (index + 2) writeBuffer)
  | None => None
  end.

Definition extra_padding (draws : nat) (legacyPadding : bool) (paddingLength : Z) : stres PRNG Z :=
  if negb legacyPadding then
    let possibleExtraPaddingLength := SSH_MAX_PADDING_LENGTH - paddingLength in
    if 0 <? possibleExtraPaddingLength then Intn draws (possibleExtraPaddingLength + 1) else mret 0
  else
    let possiblePaddings := Z.quot (SSH_MAX_PADDING_LENGTH - paddingLength) SSH_PADDING_MULTIPLE in
    if 0 <? possiblePaddings then selectedPadding ← Intn draws possiblePaddings; mret (selectedPadding * SSH_PADDING_MULTIPLE)
    else mret 0.

(** The buffers and the generator that [extractSSHPackets] works on. *)
Record extraction := { ex_prng : PRNG; ex_write : bytes; ex_transform : bytes }.

Definition ex_draw {A} (m : stres PRNG A) : io extraction A := fun x =>
  match m (ex_prng x) with
  | Ok (a, p) => (Ok a, {| ex_prng := p; ex_write := ex_write x; ex_transform := ex_transform x |})
  | Err e => (Err e, x)
  | Panic e => (Panic e, x)
  | NoFuel => (NoFuel, x)
  end.

Definition is_newkeys (payloadLength : Z) (packet : bytes) : bool :=
  (0 <? payloadLength) && (b2z (nth SSH_PACKET_PREFIX_LENGTH packet x00) =? SSH_MSG_NEWKEYS).

Fixpoint extract_loop (fuel draws : nat) (legacyPadding hasMsgNewKeys : bool) : io extraction bool := fun x =>
  match fuel with
  | O => (NoFuel, x)
  | S fuel =>
      if (SSH_PACKET_PREFIX_LENGTH <=? length (ex_write x))%nat then
        ('(packetLength, paddingLength, payloadLength, messageLength) ← io_lift (getSSHPacketPrefix (take SSH_PACKET_PREFIX_LENGTH (ex_write x)));
         if Z.of_nat (length (ex_write x)) <? messageLength then mret hasMsgNewKeys
         else
           let packet := take (Z.to_nat messageLength) (ex_write x) in
           let hasMsgNewKeys := hasMsgNewKeys || is_newkeys payloadLength packet in
           _ ← io_modify (fun x => {| ex_prng := ex_prng x; ex_write := drop (Z.to_nat messageLength) (ex_write x); ex_transform := ex_transform x |});
           extraPaddingLength ← ex_draw (extra_padding draws legacyPadding paddingLength);
           extraPadding ← ex_draw (Bytes (Z.to_nat extraPaddingLength));
           let transformedPacket := setSSHPacketPrefix packet (packetLength + extraPaddingLength) (paddingLength + extraPaddingLength) in
           _ ← io_modify (fun x => {| ex_prng := ex_prng x; ex_write := ex_write x; ex_transform := ex_transform x ++ transformedPacket ++ extraPadding |});
           extract_loop fuel draws legacyPadding hasMsgNewKeys) x
      else (Ok hasMsgNewKeys, x)
  end.

(** Every iteration takes at least five bytes. *)
Definition extractSSHPackets (draws : nat) (legacyPadding : bool) : io extraction bool := fun x =>
  extract_loop (S (length (ex_write x))) draws legacyPadding false x.

(** ** The connection *)

Record ObfuscatedSSHConn (U : Type) := {
  oc_reader : SkipReader;
  oc_net : U;
  mode : ObfuscatedSSHConnMode;
  obfuscator : Obfuscator;
  readState : ObfuscatedSSHReadState;
  writeState : ObfuscatedSSHWriteState;
  readBuffer : bytes;
  writeBuffer : bytes;
  transformBuffer : bytes;
  legacyPadding : bool;
  oc_paddingLength : Z;
  oc_paddingPRNG : PRNG
}.
Arguments oc_reader {U}. Arguments oc_net {U}. Arguments mode {U}. Arguments obfuscator {U}. Arguments readState {U}.
Arguments writeState {U}. Arguments readBuffer {U}. Arguments writeBuffer {U}. Arguments transformBuffer {U}.
Arguments legacyPadding {U}. Arguments oc_paddingLength {U}. Arguments oc_paddingPRNG {U}.

Section Connection.
Context {U : Type} `{!UnderlyingConn U} `{Digests}.
Abbreviation st := (ObfuscatedSSHConn U).

(** *** Updates *)

Definition set_reading (c : st) (r : SkipReader) (o : Obfuscator) (rs : ObfuscatedSSHReadState) (b : bytes) (legacy : bool) : st := {|
  oc_reader := r; oc_net := oc_net c; mode := mode c; obfuscator := o; readState := rs; writeState := writeState c; readBuffer := b;
  writeBuffer := writeBuffer c; transformBuffer := transformBuffer c; legacyPadding := legacy;
  oc_paddingLength := oc_paddingLength c; oc_paddingPRNG := oc_paddingPRNG c |}.

Definition set_reader (c : st) (r : SkipReader) : st := set_reading c r (obfuscator c) (readState c) (readBuffer c) (legacyPadding c).
Definition set_readState (c : st) (rs : ObfuscatedSSHReadState) : st := set_reading c (oc_reader c) (obfuscator c) rs (readBuffer c) (legacyPadding c).
Definition set_readBuffer (c : st) (b : bytes) : st := set_reading c (oc_reader c) (obfuscator c) (readState c) b (legacyPadding c).
Definition set_legacyPadding (c : st) : st := set_reading c (oc_reader c) (obfuscator c) (readState c) (readBuffer c) true.

Definition set_writing (c : st) (u : U) (o : Obfuscator) (ws : ObfuscatedSSHWriteState) (w t : bytes) (n : Z) (p : PRNG) : st := {|
  oc_reader := oc_reader c; oc_net := u; mode := mode c; obfuscator := o; readState := readState c; writeState := ws; readBuffer := readBuffer c;
  writeBuffer := w; transformBuffer := t; legacyPadding := legacyPadding c; oc_paddingLength := n; oc_paddingPRNG := p |}.

Definition set_net (c : st) (u : U) : st :=
  set_writing c u (obfuscator c) (writeState c) (writeBuffer c) (transformBuffer c) (oc_paddingLength c) (oc_paddingPRNG c).
Definition set_obfuscator (c : st) (o : Obfuscator) : st :=
  set_writing c (oc_net c) o (writeState c) (writeBuffer c) (transformBuffer c) (oc_paddingLength c) (oc_paddingPRNG c).
Definition set_writeState (c : st) (ws : ObfuscatedSSHWriteState) : st :=
  set_writing c (oc_net c) (obfuscator c) ws (writeBuffer c) (transformBuffer c) (oc_paddingLength c) (oc_paddingPRNG c).
Definition set_buffers (c : st) (w t : bytes) : st :=
  set_writing c (oc_net c) (obfuscator c) (writeState c) w t (oc_paddingLength c) (oc_paddingPRNG c).

(** *** Ciphers *)

(** [readDeobfuscate] and [writeObfuscate] of the mode. *)
Definition readDeobfuscate (b : bytes) : io st bytes := fun c =>
  let '(b, o) := match mode c with
                 | OBFUSCATION_CONN_MODE_CLIENT => ObfuscateServerToClient b (obfuscator c)
                 | OBFUSCATION_CONN_MODE_SERVER => ObfuscateClientToServer b (obfuscator c)
                 end in
  (Ok b, set_obfuscator c o).

Definition writeObfuscate (b : bytes) : io st bytes := fun c =>
  let '(b, o) := match mode c with
                 | OBFUSCATION_CONN_MODE_CLIENT => ObfuscateClientToServer b (obfuscator c)
                 | OBFUSCATION_CONN_MODE_SERVER => ObfuscateServerToClient b (obfuscator c)
                 end in
  (Ok b, set_obfuscator c o).

(** *** Reading *)

Definition on_conn {A} : io SkipReader A -> io st A := io_on oc_reader set_reader.

(** [bytes.Buffer.ReadFrom] of an [io.LimitReader] of [n] bytes: the bytes read, and an error
    other than the end of the stream. *)
Fixpoint limit_loop (fuel n : nat) (read : bytes) : io SkipReader (bytes * option string) := fun r =>
  match fuel with
  | O => (NoFuel, r)
  | S fuel =>
      match n with
      | O => (Ok (read, None), r)
      | _ =>
          let '(b, err, r) := Read n r in
          match err with
          | None => limit_loop fuel (n - length b) (read ++ b) r
          | Some e => (Ok (read ++ b, if bool_decide (e = EOF) then None else Some e), r)
          end
      end
  end.

Definition ReadFrom (n : nat) : io SkipReader (bytes * option string) := fun r => limit_loop (S (S (budget r))) n [] r.

(** [n] bytes appended to the read buffer. *)
Definition read_into (n : nat) : io st bytes :=
  '(b, err) ← on_conn (ReadFrom n);
  _ ← io_modify (fun c => set_readBuffer c (readBuffer c ++ b));
  _ ← io_check (match err with None => if (length b =? n)%nat then None else Some "unxpected number of bytes read" | Some e => Some e end);
  mret b.

(** The bytes of the buffer from an offset on are deobfuscated in place. *)
Definition deobfuscate_from (offset : nat) : io st unit :=
  c ← io_get;
  b ← readDeobfuscate (drop offset (readBuffer c));
  io_modify (fun c => set_readBuffer c (take offset (readBuffer c) ++ b)).

Definition readSSHPacket : io st bool :=
  c ← io_get;
  let prefixOffset := length (readBuffer c) in
  _ ← read_into SSH_PACKET_PREFIX_LENGTH;
  _ ← deobfuscate_from prefixOffset;
  c ← io_get;
  '(_, _, payloadLength, messageLength) ← io_lift (getSSHPacketPrefix (drop prefixOffset (readBuffer c)));
  let remainingReadLength := messageLength - Z.of_nat SSH_PACKET_PREFIX_LENGTH in
  _ ← read_into (Z.to_nat remainingReadLength);
  _ ← deobfuscate_from (prefixOffset + SSH_PACKET_PREFIX_LENGTH);
  c ← io_get;
  mret (is_newkeys payloadLength (drop prefixOffset (readBuffer c))).

(** [bytes.HasSuffix] and [bytes.HasPrefix] *)
Definition HasSuffix (b suffix : bytes) : bool := bool_decide (drop (length b - length suffix) b = suffix).
Definition HasPrefix (b prefix : bytes) : bool := bool_decide (take (length prefix) b = prefix).

(** The loop over the bytes of a line; [n] is how many it may still have. *)
Fixpoint line_bytes (n : nat) : io st unit :=
  match n with
  | O => io_err "invalid identification line"
  | S n =>
      b ← on_conn (MustRead 1);
      b ← readDeobfuscate b;
      _ ← io_modify (fun c => set_readBuffer c (readBuffer c ++ b));
      c ← io_get;
      if HasSuffix (readBuffer c) CRLF then mret tt else line_bytes n
  end.

Definition readSSHIdentificationLine : io st unit := line_bytes SSH_MAX_SERVER_LINE_LENGTH.

(** Lines are read until the identification line. *)
Fixpoint identification_loop (fuel : nat) : io st unit :=
  match fuel with
  | O => io_lift NoFuel
  | S fuel =>
      _ ← readSSHIdentificationLine;
      c ← io_get;
      if HasPrefix (readBuffer c) (list_byte_of_string "SSH-") then
        if bool_decide (is_Some (bytes_Index (readBuffer c) (list_byte_of_string "Ganymed"))) then io_modify set_legacyPadding else mret tt
      else
        _ ← io_modify (fun c => set_readBuffer c []);
        identification_loop fuel
  end.

Definition read_prefix : io st unit :=
  preambleHeader ← on_conn (MustRead PREAMBLE_HEADER_LENGTH);
  c ← io_get;
  terminator ← io_lift (makeTerminator (keyword (obfuscator c)) preambleHeader OBFUSCATE_SERVER_TO_CLIENT_IV);
  _ ← on_conn (SkipUpToToken terminator (Z.to_nat PREFIX_TERM_SEARCH_BUF_SIZE) PREFIX_MAX_LENGTH);
  io_modify (fun c => set_readState c OBFUSCATION_READ_STATE_IDENTIFICATION_LINES).

(** What is done in a state before bytes are returned, and the next state. *)
Definition next_read : io st ObfuscatedSSHReadState :=
  c ← io_get;
  match readState c with
  | OBFUSCATION_READ_STATE_CLIENT_READ_PREFIX => mret OBFUSCATION_READ_STATE_CLIENT_READ_PREFIX
  | OBFUSCATION_READ_STATE_IDENTIFICATION_LINES =>
      _ ← (if bool_decide (readBuffer c = []) then identification_loop (S (length (stream (oc_reader c)))) else mret tt);
      mret OBFUSCATION_READ_STATE_KEX_PACKETS
  | OBFUSCATION_READ_STATE_KEX_PACKETS =>
      if bool_decide (readBuffer c = []) then
        isMsgNewKeys ← readSSHPacket;
        mret (if isMsgNewKeys : bool then OBFUSCATION_READ_STATE_FLUSH else OBFUSCATION_READ_STATE_KEX_PACKETS)
      else mret OBFUSCATION_READ_STATE_KEX_PACKETS
  | OBFUSCATION_READ_STATE_FLUSH => mret OBFUSCATION_READ_STATE_FINISHED
  | OBFUSCATION_READ_STATE_FINISHED => io_err "invalid read state"
  end.

(** [n] is the length of the caller's buffer. *)
Definition readAndTransform (n : nat) : io st bytes :=
  c ← io_get;
  _ ← (if bool_decide (readState c = OBFUSCATION_READ_STATE_CLIENT_READ_PREFIX) then read_prefix else mret tt);
  nextState ← next_read;
  c ← io_get;
  let b := take n (readBuffer c) in
  let rest := drop n (readBuffer c) in
  _ ← io_modify (fun c => set_readBuffer c rest);
  _ ← (if bool_decide (rest = []) then io_modify (fun c => set_readState c nextState) else mret tt);
  mret b.

(** [ObfuscatedSSHConn.Read]: the bytes and an error. *)
Definition ossh_Read (n : nat) : io st (bytes * option string) := fun c =>
  if bool_decide (readState c = OBFUSCATION_READ_STATE_FINISHED) then
    let '(b, err, r) := Read n (oc_reader c) in (Ok (b, err), set_reader c r)
  else (b ← readAndTransform n; mret (b, None)) c.

(** *** Writing *)

Definition net_write (b : bytes) : io st unit := fun c =>
  let '(_, err, u) := conn_Write b (oc_net c) in
  match err with None => (Ok tt, set_net c u) | Some e => (Err e, set_net c u) end.

(** The random delay after a prefix, when there is a configuration for it. *)
Definition split_delay (draws : nat) (interrupted : bool) : io st unit :=
  c ← io_get;
  match osshPrefixSplitConfig (obfuscator c) with
  | None => mret tt
  | Some cfg =>
      rng ← io_lift (NewPRNGWithSeed (split_Seed cfg));
      _ ← io_lift (Period draws (MinDelay cfg) (MaxDelay cfg) rng);
      if interrupted then io_err "context canceled" else mret tt
  end.

Definition take_preamble : io st (option bytes * nat) := fun c =>
  let '(msg, prefixLen, o) := SendPreamble (obfuscator c) in (Ok (msg, prefixLen), set_obfuscator c o).

Definition send_client_preamble (draws : nat) (interrupted : bool) : io st unit :=
  '(msg, prefixLen) ← take_preamble;
  let preamble := default [] msg in
  _ ← (if (0 <? prefixLen)%nat then _ ← net_write (take prefixLen preamble); split_delay draws interrupted else mret tt);
  _ ← net_write (drop prefixLen preamble);
  io_modify (fun c => set_writeState c OBFUSCATION_WRITE_STATE_IDENTIFICATION_LINE).

Definition draw_padding (draws : nat) : io st bytes := fun c =>
  match makeServerIdentificationLinePadding draws (oc_paddingPRNG c) with
  | Ok (b, p) => (Ok b, set_writing c (oc_net c) (obfuscator c) (writeState c) (writeBuffer c) (transformBuffer c) (Z.of_nat (length b)) p)
  | Err e => (Err e, c)
  | Panic e => (Panic e, c)
  | NoFuel => (NoFuel, c)
  end.

Definition send_server_prefix (draws : nat) (interrupted : bool) : io st unit :=
  '(msg, prefixLen) ← take_preamble;
  buffer ← match msg with
           | Some preamble =>
               _ ← net_write (take prefixLen preamble);
               _ ← split_delay draws interrupted;
               mret (drop prefixLen preamble)
           | None => mret []
           end;
  padding ← draw_padding draws;
  padding ← writeObfuscate padding;
  _ ← net_write (buffer ++ padding);
  io_modify (fun c => set_writeState c OBFUSCATION_WRITE_STATE_IDENTIFICATION_LINE).

(** [extractSSHPackets] on the buffers of the connection. *)
Definition extract_packets (draws : nat) : io st bool := fun c =>
  let '(r, x) := extractSSHPackets draws (legacyPadding c)
    {| ex_prng := oc_paddingPRNG c; ex_write := writeBuffer c; ex_transform := transformBuffer c |} in
  (r, set_writing c (oc_net c) (obfuscator c) (writeState c) (ex_write x) (ex_transform x) (oc_paddingLength c) (ex_prng x)).

(** What is injected before any SSH traffic. *)
Definition send_first (draws : nat) (interrupted : bool) : io st unit :=
  c ← io_get;
  match writeState c with
  | OBFUSCATION_WRITE_STATE_CLIENT_SEND_PREAMBLE => send_client_preamble draws interrupted
  | OBFUSCATION_WRITE_STATE_SERVER_SEND_PREFIX_AND_IDENTIFICATION_LINE_PADDING => send_server_prefix draws interrupted
  | _ => mret tt
  end.

(** The messages in the write buffer go to the transform buffer. *)
Definition extract_messages (draws : nat) : io st unit :=
  c ← io_get;
  match writeState c with
  | OBFUSCATION_WRITE_STATE_IDENTIFICATION_LINE =>
      match extractSSHIdentificationLine (writeBuffer c) with
      | Some (line, rest) =>
          io_modify (fun c => set_writeState (set_buffers c rest (transformBuffer c ++ line)) OBFUSCATION_WRITE_STATE_KEX_PACKETS)
      | None => mret tt
      end
  | OBFUSCATION_WRITE_STATE_KEX_PACKETS =>
      hasMsgNewKeys ← extract_packets draws;
      if hasMsgNewKeys : bool then io_modify (fun c => set_writeState c OBFUSCATION_WRITE_STATE_FINISHED) else mret tt
  | OBFUSCATION_WRITE_STATE_FINISHED => io_err "invalid write state"
  | _ => mret tt
  end.

(** The transform buffer is obfuscated and sent. *)
Definition send_transformed : io st unit :=
  c ← io_get;
  if (0 <? length (transformBuffer c))%nat then
    let sendData := transformBuffer c in
    _ ← io_modify (fun c => set_buffers c (writeBuffer c) []);
    sendData ← writeObfuscate sendData;
    net_write sendData
  else mret tt.

(** After SSH_MSG_NEWKEYS the rest is sent as it is. *)
Definition send_rest : io st unit :=
  c ← io_get;
  if bool_decide (writeState c = OBFUSCATION_WRITE_STATE_FINISHED) then
    _ ← (if (0 <? length (writeBuffer c))%nat then net_write (writeBuffer c) else mret tt);
    io_modify (fun c => set_buffers c [] [])
  else mret tt.

Definition transformAndWrite (draws : nat) (interrupted : bool) (buffer : bytes) : io st unit :=
  _ ← send_first draws interrupted;
  _ ← io_modify (fun c => set_buffers c (writeBuffer c ++ buffer) (transformBuffer c));
  _ ← extract_messages draws;
  _ ← send_transformed;
  send_rest.

(** [ObfuscatedSSHConn.Write]: the number of bytes reported and an error. *)
Definition ossh_Write (draws : nat) (interrupted : bool) (buffer : bytes) : io st nat := fun c =>
  if bool_decide (writeState c = OBFUSCATION_WRITE_STATE_FINISHED) then
    let '(n, err, u) := conn_Write buffer (oc_net c) in
    match err with None => (Ok n, set_net c u) | Some e => (Err e, set_net c u) end
  else (_ ← transformAndWrite draws interrupted buffer; mret (length buffer)) c.
End Connection.

(** ** Constructors *)

Section Constructors.
Context {U : Type} `{!UnderlyingConn U} `{Digests} (Generate : string -> stres PRNG bytes).

Definition new_conn (m : ObfuscatedSSHConnMode) (r : SkipReader) (u : U) (o : Obfuscator) (rs : ObfuscatedSSHReadState)
    (ws : ObfuscatedSSHWriteState) : res (ObfuscatedSSHConn U) :=
  rng ← GetDerivedPRNG o "obfuscated-ssh-padding";
  Ok {| oc_reader := r; oc_net := u; mode := m; obfuscator := o; readState := rs; writeState := ws; readBuffer := []; writeBuffer := [];
        transformBuffer := []; legacyPadding := false; oc_paddingLength := -1; oc_paddingPRNG := rng |}.

(** What a client and a server are configured with. *)
Record client_args := {
  ca_keyword : string;
  ca_paddingPRNGSeed : option bytes;
  ca_seedTransform : option (bytes -> res bytes);
  ca_prefixSpec : option OSSHPrefixSpec;
  ca_splitConfig : option OSSHPrefixSplitConfig;
  ca_minPadding : option Z;
  ca_maxPadding : option Z
}.

Record server_args := { sa_keyword : string; sa_prefixSpecs : gmap string Spec; sa_irregularLogger : bool }.

Definition client_config (a : client_args) : ObfuscatorConfig := {|
  IsOSSH := true; Keyword := ca_keyword a; ClientPrefixSpec := ca_prefixSpec a; ServerPrefixSpecs := ∅; OSSHPrefixSplit := ca_splitConfig a;
  PaddingPRNGSeed := ca_paddingPRNGSeed a; MinPadding := ca_minPadding a; MaxPadding := ca_maxPadding a; SeedTransform := ca_seedTransform a;
  DisableStrictHistoryMode := false; IrregularLogger := false |}.

Definition server_config (a : server_args) : ObfuscatorConfig := {|
  IsOSSH := false; Keyword := sa_keyword a; ClientPrefixSpec := None; ServerPrefixSpecs := sa_prefixSpecs a; OSSHPrefixSplit := None;
  PaddingPRNGSeed := None; MinPadding := None; MaxPadding := None; SeedTransform := None;
  DisableStrictHistoryMode := false; IrregularLogger := sa_irregularLogger a |}.

Definition NewClientObfuscatedSSHConn (draws : nat) (a : client_args) (random : res bytes) (c : netConn) (u : U) : res (ObfuscatedSSHConn U) :=
  o ← NewClientObfuscator Generate draws (client_config a) random;
  new_conn OBFUSCATION_CONN_MODE_CLIENT (WrapConnWithSkipReader c) u o
    (if bool_decide (osshPrefixHeader o = None) then OBFUSCATION_READ_STATE_IDENTIFICATION_LINES else OBFUSCATION_READ_STATE_CLIENT_READ_PREFIX)
    OBFUSCATION_WRITE_STATE_CLIENT_SEND_PREAMBLE.

(** The history and the irregular events are in the state with the reader.  After an error
    the rest of the connection is read and discarded. *)
Definition NewServerObfuscatedSSHConn (a : server_args) (now : Z) (clientIP : string) (newSeed : res bytes) (c : netConn) (u : U)
    (h : option SeedHistory) : res (ObfuscatedSSHConn U) * server_io SkipReader :=
  let '(o, s) := NewServerObfuscator Generate (server_config a) now clientIP newSeed {| reader := WrapConnWithSkipReader c; seeds := h; irregular := [] |} in
  (o ← o; new_conn OBFUSCATION_CONN_MODE_SERVER (reader s) u o OBFUSCATION_READ_STATE_IDENTIFICATION_LINES
            OBFUSCATION_WRITE_STATE_SERVER_SEND_PREFIX_AND_IDENTIFICATION_LINE_PADDING, s).

(** Closing also ends a delay, which is then [interrupted]. *)
Definition ossh_Close (c : ObfuscatedSSHConn U) : option string * ObfuscatedSSHConn U :=
  let '(err, u) := conn_Close (oc_net c) in (err, set_net c u).

Definition ossh_GetDerivedPRNG (c : ObfuscatedSSHConn U) (salt : string) : res PRNG := GetDerivedPRNG (obfuscator c) salt.

Definition IsOSSHPrefixStream (c : ObfuscatedSSHConn U) : bool := bool_decide (is_Some (osshPrefixHeader (obfuscator c))).

Definition SetOSSHPrefixSplitConfig (minDelay maxDelay : Z) (c : ObfuscatedSSHConn U) : res (ObfuscatedSSHConn U) :=
  if bool_decide (mode c <> OBFUSCATION_CONN_MODE_SERVER) then Err "SetOSSHPrefixSplitConfig() is only valid for server connections"
  else if bool_decide (writeState c <> OBFUSCATION_WRITE_STATE_SERVER_SEND_PREFIX_AND_IDENTIFICATION_LINE_PADDING)
  then Err "SetOSSHPrefixSplitConfig() must be called before any data is written"
  else
    let o := obfuscator c in
    let seed := GetDerivedPRNGSeed o "obfuscated-ssh-prefix-split" in
    Ok (set_obfuscator c {| preamble := preamble o; preambleOSSHPrefixLength := preambleOSSHPrefixLength o; osshPrefixHeader := osshPrefixHeader o;
      osshPrefixSplitConfig := Some {| split_Seed := seed; MinDelay := minDelay; MaxDelay := maxDelay |};
      keyword := keyword o; paddingLength := paddingLength o; clientToServerCipher := clientToServerCipher o;
      serverToClientCipher := serverToClientCipher o; paddingPRNGSeed := paddingPRNGSeed o; paddingPRNG := paddingPRNG o |}).

(** The padding that is logged, with the name of its field. *)
Definition ossh_GetMetrics (c : ObfuscatedSSHConn U) : option (string * Z) :=
  match mode c with
  | OBFUSCATION_CONN_MODE_CLIENT =>
      if paddingLength (obfuscator c) =? -1 then None else Some ("upstream_ossh_padding", paddingLength (obfuscator c))
  | OBFUSCATION_CONN_MODE_SERVER =>
      if oc_paddingLength c =? -1 then None else Some ("downstream_ossh_padding", oc_paddingLength c)
  end.
End Constructors.

(** ** The padding of a server *)

Definition padding_line (n : nat) : bytes := replicate (n - 2) x00 ++ CRLF.

Lemma length_padding_line n : (2 <= n)%nat -> length (padding_line n) = n.
Proof. intros Hn. unfold padding_line. rewrite length_app, length_replicate. cbn. lia. Qed.

Lemma set_line (pre : bytes) n rest : (2 <= n)%nat ->
  <[(length pre + n - 1)%nat := x0a]> (<[(length pre + n - 2)%nat := x0d]> (pre ++ replicate n x00 ++ rest)) = pre ++ padding_line n ++ rest.
Proof.
  intros Hn. replace (length pre + n - 2)%nat with (length pre + (n - 2))%nat by lia. replace (length pre + n - 1)%nat with (length pre + (n - 1))%nat by lia.
  rewrite !insert_app_r. f_equal. replace (replicate n x00) with (replicate (n - 2) x00 ++ [x00; x00]).
  2: { change [x00; x00] with (replicate 2 x00). rewrite <- replicate_add. f_equal. lia. }
  unfold padding_line. rewrite <- !app_assoc. replace (n - 2)%nat with (length (replicate (n - 2) x00) + 0)%nat at 1 by (rewrite length_replicate; lia).
  rewrite insert_app_r. replace (n - 1)%nat with (length (replicate (n - 2) x00) + 1)%nat by (rewrite length_replicate; lia). rewrite insert_app_r. done.
Qed.

Lemma line_loop_spec fuel : forall remaining pre, (remaining <= fuel)%nat -> remaining <> 1%nat ->
  exists ns, Forall (fun n => 2 <= n <= 512)%nat ns /\
    line_loop fuel (Z.of_nat remaining) (Z.of_nat (length pre)) (pre ++ replicate remaining x00) = pre ++ concat (map padding_line ns) /\
    sum_list ns = remaining.
Proof.
  induction fuel as [|fuel IH]; intros remaining pre Hf H1.
  { exists []. assert (remaining = 0)%nat as -> by lia. done. }
  cbn [line_loop]. destruct (Z.ltb_spec 0 (Z.of_nat remaining)) as [Hpos|Hz]; [|exists []; assert (remaining = 0)%nat as -> by lia; done].
  set (n := if decide (512 < remaining)%nat then if decide (remaining = 513)%nat then 511%nat else 512%nat else remaining).
  match goal with |- context [line_loop fuel (_ - ?l)] => assert (l = Z.of_nat n) as -> end.
  { unfold n. destruct (Z.ltb_spec 512 (Z.of_nat remaining)); destruct (decide (512 < remaining)%nat); try lia.
    - destruct (decide (remaining = 513)%nat) as [->|]; [done|].
      replace ((0 <? Z.of_nat remaining - 512) && (Z.of_nat remaining - 512 <? 2)) with false by lia. done.
    - rewrite Z.sub_diag. done. }
  assert (2 <= n <= 512 /\ n <= remaining /\ remaining - n <> 1)%nat as (Hn & Hle & Hrem).
  { unfold n. destruct (decide (512 < remaining)%nat); [destruct (decide (remaining = 513)%nat)|]; lia. }
  replace (replicate remaining x00) with (replicate n x00 ++ replicate (remaining - n) x00) by (rewrite <- replicate_add; f_equal; lia).
  replace (Z.to_nat (Z.of_nat (length pre) + Z.of_nat n - 2)) with (length pre + n - 2)%nat by lia.
  replace (Z.to_nat (Z.of_nat (length pre) + Z.of_nat n - 1)) with (length pre + n - 1)%nat by lia.
  rewrite set_line, app_assoc by lia.
  replace (Z.of_nat (length pre) + Z.of_nat n) with (Z.of_nat (length (pre ++ padding_line n))) by (rewrite length_app, length_padding_line; lia).
  replace (Z.of_nat remaining - Z.of_nat n) with (Z.of_nat (remaining - n)) by lia.
  destruct (IH (remaining - n)%nat (pre ++ padding_line n) ltac:(lia) Hrem) as (ns & Hns & -> & Hsum).
  exists (n :: ns). split; [by constructor|]. split; [cbn; by rewrite app_assoc|]. cbn. lia.
Qed.

Lemma server_padding draws p : prng_ok p ->
  makeServerIdentificationLinePadding draws p = NoFuel \/
  exists ns p', makeServerIdentificationLinePadding draws p = Ok (concat (map padding_line ns), p') /\
    Forall (fun n => 2 <= n <= 512)%nat ns /\ 2 <= Z.of_nat (sum_list ns) <= OBFUSCATE_MAX_PADDING /\ prng_ok p'.
Proof.
  intros Hp. unfold makeServerIdentificationLinePadding. unfold mbind, stres_mbind.
  assert (draws_in (Intn draws (OBFUSCATE_MAX_PADDING - 2 + 1)) (fun v => 0 <= v < OBFUSCATE_MAX_PADDING - 2 + 1)) as Hd.
  { unfold Intn. change (OBFUSCATE_MAX_PADDING - 2 + 1 <=? 0) with false. apply Intn_yields. unfold OBFUSCATE_MAX_PADDING. lia. }
  destruct (Hd p Hp) as [->|(n & p' & -> & Hn & Hp')]; [by left|right]. cbv zeta.
  destruct (line_loop_spec (Z.to_nat (n + 2)) (Z.to_nat (n + 2)) [] ltac:(lia) ltac:(lia)) as (ns & Hns & Hl & Hs).
  cbn [app length] in Hl. change (Z.of_nat 0) with 0 in Hl. rewrite Z2Nat.id in Hl by lia. rewrite Hl. exists ns, p'. split; [done|]. split; [done|]. split; [|done].
  rewrite Hs. unfold OBFUSCATE_MAX_PADDING in *. lia.
Qed.

(** ** Packets *)

Definition ssh_packet (packetLength paddingLength : Z) (body : bytes) : bytes := be_store 4 packetLength ++ z2b paddingLength :: body.

(** A packet of at most the given length; its payload and its padding make up the body. *)
Record packet_of (max : Z) (p : bytes) (packetLength paddingLength : Z) (body : bytes) : Prop := {
  packet_bytes : p = ssh_packet packetLength paddingLength body;
  packet_length : 1 <= packetLength <= max;
  packet_padding : 0 <= paddingLength <= SSH_MAX_PADDING_LENGTH;
  packet_body : Z.of_nat (length body) = packetLength - 1
}.

Definition payload (packetLength paddingLength : Z) (body : bytes) : bytes := take (Z.to_nat (packetLength - paddingLength - 1)) body.

Lemma length_ssh_packet l n body : length (ssh_packet l n body) = (5 + length body)%nat.
Proof. unfold ssh_packet. rewrite length_app, length_be_store. done. Qed.

Lemma packet_prefix max p l n body rest : max <= SSH_MAX_PACKET_LENGTH -> packet_of max p l n body ->
  getSSHPacketPrefix (take SSH_PACKET_PREFIX_LENGTH (p ++ rest)) = Ok (l, n, l - n - 1, Z.of_nat (length p)).
Proof.
  intros Hmax [-> Hl Hn Hb]. unfold ssh_packet, getSSHPacketPrefix. rewrite <- app_assoc, take_take. cbn [Nat.min SSH_PACKET_PREFIX_LENGTH].
  rewrite (take_app_length' (be_store 4 l)), be_load_store by (by rewrite length_be_store).
  change (256 ^ Z.of_nat 4) with (2 ^ 32). unfold SSH_MAX_PACKET_LENGTH in *. rewrite Z.mod_small by lia.
  replace ((l <? 1) || (256 * 1024 <? l)) with false by lia.
  replace (nth 4 (take SSH_PACKET_PREFIX_LENGTH (be_store 4 l ++ (z2b n :: body) ++ rest)) x00) with (z2b n).
  2: { assert (length (be_store 4 l) = 4%nat) as H4 by apply length_be_store. destruct (be_store 4 l) as [|? [|? [|? [|? [|? ?]]]]]; try done. }
  rewrite b2z_z2b. unfold SSH_MAX_PADDING_LENGTH in Hn. rewrite Z.mod_small by lia.
  fold (ssh_packet l n body). rewrite length_ssh_packet, Nat2Z.inj_add, Hb. do 3 f_equal. unfold SSH_PACKET_PREFIX_LENGTH. lia.
Qed.

(** A buffer whose start is accepted and complete starts with a packet. *)
Lemma prefix_packet w l n pl ml : (5 <= length w)%nat -> getSSHPacketPrefix (take SSH_PACKET_PREFIX_LENGTH w) = Ok (l, n, pl, ml) -> ml <= Z.of_nat (length w) ->
  pl = l - n - 1 /\ Z.to_nat ml = length (take (Z.to_nat ml) w) /\
  packet_of SSH_MAX_PACKET_LENGTH (take (Z.to_nat ml) w) l n (drop 5 (take (Z.to_nat ml) w)).
Proof.
  intros Hw Hg Hml. unfold getSSHPacketPrefix, SSH_PACKET_PREFIX_LENGTH in *. rewrite take_take in Hg. cbn [Nat.min] in Hg.
  destruct ((be_load (take 4 w) <? 1) || (SSH_MAX_PACKET_LENGTH <? be_load (take 4 w))) eqn:Hr; [done|]. apply orb_false_iff in Hr as [Hr1 Hr2].
  injection Hg as <- <- <- <-. set (l := be_load (take 4 w)) in *. set (ml := Z.of_nat 5 + l - 1) in *.
  split; [done|]. split; [rewrite length_take; lia|].
  destruct w as [|a [|b [|c [|d [|e w]]]]]; cbn [length] in Hw; try lia. clear Hw.
  replace (Z.to_nat ml) with (5 + Z.to_nat (l - 1))%nat by (unfold ml; lia). cbn [take Nat.add drop firstn skipn].
  cbn [length] in Hml. split.
  - unfold ssh_packet. cbn [nth]. rewrite z2b_b2z. unfold l, be_store, be_load. cbn [take].
    pose proof (le_store_load (rev [a; b; c; d])) as E. change (length (rev [a; b; c; d])) with 4%nat in E. rewrite E, rev_involutive. done.
  - lia.
  - cbn [nth take]. pose proof (b2z_range e). unfold SSH_MAX_PADDING_LENGTH. lia.
  - rewrite drop_0, length_take. lia.
Qed.

(** The same payload with more padding. *)
Definition repadded (p p' : bytes) : Prop := exists l n body extra,
  packet_of SSH_MAX_PACKET_LENGTH p l n body /\
  packet_of (SSH_MAX_PACKET_LENGTH + SSH_MAX_PADDING_LENGTH) p' (l + Z.of_nat (length extra)) (n + Z.of_nat (length extra)) (body ++ extra).

Definition newkeys_packet (p : bytes) : bool :=
  match getSSHPacketPrefix (take SSH_PACKET_PREFIX_LENGTH p) with Ok (_, _, payloadLength, _) => is_newkeys payloadLength p | _ => false end.

Definition is_packet (max : Z) (p : bytes) : Prop := exists l n body, packet_of max p l n body.

Lemma packet_newkeys p l n body : packet_of SSH_MAX_PACKET_LENGTH p l n body -> newkeys_packet p = is_newkeys (l - n - 1) p.
Proof. intros Hp. unfold newkeys_packet. rewrite <- (app_nil_r p) at 1. erewrite packet_prefix by done. done. Qed.

Lemma nth_packet l n body : nth SSH_PACKET_PREFIX_LENGTH (ssh_packet l n body) x00 = nth 0 body x00.
Proof.
  unfold ssh_packet. assert (length (be_store 4 l) = 4%nat) as H4 by apply length_be_store.
  by destruct (be_store 4 l) as [|? [|? [|? [|? [|? ?]]]]].
Qed.

(** The type of a packet is that of its payload, which stays. *)
Lemma repadded_type p p' : repadded p p' -> exists l n body extra, packet_of SSH_MAX_PACKET_LENGTH p l n body /\
  packet_of (SSH_MAX_PACKET_LENGTH + SSH_MAX_PADDING_LENGTH) p' (l + Z.of_nat (length extra)) (n + Z.of_nat (length extra)) (body ++ extra) /\
  payload (l + Z.of_nat (length extra)) (n + Z.of_nat (length extra)) (body ++ extra) = payload l n body /\
  is_newkeys (l + Z.of_nat (length extra) - (n + Z.of_nat (length extra)) - 1) p' = newkeys_packet p.
Proof.
  intros (l & n & body & extra & Hp & Hp'). exists l, n, body, extra. split; [done|]. split; [done|].
  destruct Hp as [-> Hl Hn Hb] eqn:E, Hp' as [-> Hl' Hn' Hb'].
  replace (l + Z.of_nat (length extra) - (n + Z.of_nat (length extra)) - 1) with (l - n - 1) by lia. split.
  - unfold payload. replace (l + Z.of_nat (length extra) - (n + Z.of_nat (length extra)) - 1) with (l - n - 1) by lia.
    rewrite take_app_le by lia. done.
  - erewrite packet_newkeys by (split; [done|exact Hl|exact Hn|exact Hb]). unfold is_newkeys. rewrite !nth_packet.
    destruct (Z.ltb_spec 0 (l - n - 1)); [|done]. destruct body; [cbn in Hb; lia|]. done.
Qed.

Lemma packet_nonempty max p : is_packet max p -> (5 <= length p)%nat.
Proof. intros (l & n & body & [-> _ _ _]). rewrite length_ssh_packet. lia. Qed.

(** A stream of bytes is divided into packets in one way only. *)
Lemma packets_unique ps : forall qs w, Forall (is_packet SSH_MAX_PACKET_LENGTH) ps -> Forall (is_packet SSH_MAX_PACKET_LENGTH) qs -> concat ps ++ w = concat qs ->
  exists rs, qs = ps ++ rs /\ w = concat rs.
Proof.
  induction ps as [|p ps IH]; intros qs w Hps Hqs E; [by exists qs|]. apply list.Forall_cons in Hps as [Hp Hps].
  destruct qs as [|q qs].
  { apply (f_equal length) in E. cbn in E. rewrite !length_app in E. apply packet_nonempty in Hp. lia. }
  apply list.Forall_cons in Hqs as [Hq Hqs]. cbn in E. rewrite <- app_assoc in E.
  destruct Hp as (l & n & body & Hp), Hq as (l' & n' & body' & Hq).
  pose proof (packet_prefix _ _ _ _ _ (concat ps ++ w) ltac:(done) Hp) as E1. pose proof (packet_prefix _ _ _ _ _ (concat qs) ltac:(done) Hq) as E2.
  rewrite E, E2 in E1. injection E1 as _ _ _ Hlen. apply app_inj_1 in E as [<- E]; [|lia].
  destruct (IH qs w Hps Hqs E) as (rs & -> & ->). by exists rs.
Qed.

(** No packet is complete. *)
Definition incomplete (w : bytes) : Prop := forall p rest, is_packet SSH_MAX_PACKET_LENGTH p -> w <> p ++ rest.

Lemma extra_padding_range draws legacy n : 0 <= n <= SSH_MAX_PADDING_LENGTH ->
  draws_in (extra_padding draws legacy n) (fun e => 0 <= e /\ n + e <= SSH_MAX_PADDING_LENGTH).
Proof.
  intros Hn. unfold extra_padding, SSH_MAX_PADDING_LENGTH, SSH_PADDING_MULTIPLE in *. destruct legacy; cbn [negb].
  - rewrite Z.quot_div_nonneg by lia. destruct (Z.ltb_spec 0 ((255 - n) / 16)) as [Hp|]; [|apply draw_ret; lia].
    pose proof (Z.div_mod (255 - n) 16 ltac:(lia)). pose proof (Z.mod_pos_bound (255 - n) 16 ltac:(lia)).
    eapply draw_bind; [unfold Intn; replace ((255 - n) / 16 <=? 0) with false by lia; apply Intn_yields; lia|].
    intros v Hv. cbn beta in Hv. apply draw_ret. lia.
  - destruct (Z.ltb_spec 0 (255 - n)) as [Hp|]; [|apply draw_ret; lia].
    unfold Intn. replace (255 - n + 1 <=? 0) with false by lia. eapply yields_weaken; [|apply Intn_yields; lia]. cbn. intros v Hv. lia.
Qed.

(** What an extraction has done. *)
Record extracted (x x' : extraction) (ps ps' : list bytes) : Prop := {
  extracted_write : ex_write x = concat ps ++ ex_write x';
  extracted_transform : ex_transform x' = ex_transform x ++ concat ps';
  extracted_packets : Forall2 repadded ps ps';
  extracted_prng : prng_ok (ex_prng x')
}.

Lemma extract_loop_sound fuel draws legacy : forall nk0 x nk x', prng_ok (ex_prng x) -> extract_loop fuel draws legacy nk0 x = (Ok nk, x') ->
  exists ps ps', extracted x x' ps ps' /\ nk = nk0 || existsb newkeys_packet ps /\ incomplete (ex_write x').
Proof.
  induction fuel as [|fuel IH]; intros nk0 x nk x' Hp Hrun; [done|]. cbn [extract_loop] in Hrun.
  destruct (Nat.leb_spec SSH_PACKET_PREFIX_LENGTH (length (ex_write x))) as [Hlen|Hlen].
  2: { injection Hrun as <- <-. exists [], []. split; [split; cbn; [done|by rewrite app_nil_r|done|done]|]. split; [by rewrite orb_false_r|].
       intros p rest Hpk E. apply packet_nonempty in Hpk. rewrite E, length_app in Hlen. unfold SSH_PACKET_PREFIX_LENGTH in Hlen. lia. }
  apply io_bind_ok in Hrun as ([[[l n] pl] ml] & x1 & Hg & Hrun). unfold io_lift in Hg. injection Hg as Hg <-.
  destruct (Z.ltb_spec (Z.of_nat (length (ex_write x))) ml) as [Hshort|Hml].
  { injection Hrun as <- <-. exists [], []. split; [split; cbn; [done|by rewrite app_nil_r|done|done]|]. split; [by rewrite orb_false_r|].
    intros p rest (l' & n' & body & Hpk) E. rewrite E in Hg, Hshort. erewrite packet_prefix in Hg by done. injection Hg as _ _ _ <-.
    rewrite length_app in Hshort. lia. }
  destruct (prefix_packet _ _ _ _ _ Hlen Hg Hml) as (-> & Hmlen & Hpk). set (p := take (Z.to_nat ml) (ex_write x)) in *.
  pose proof (packet_padding _ _ _ _ _ Hpk) as Hpn. cbv zeta in Hrun. apply io_bind_ok in Hrun as (u1 & x2 & ->%io_modify_ok & Hrun).
  apply io_bind_ok in Hrun as (e & x3 & Hd & Hrun). unfold ex_draw in Hd. cbn [ex_prng] in Hd.
  destruct (extra_padding_range draws legacy n (packet_padding _ _ _ _ _ Hpk) (ex_prng x) Hp) as [Hnf|(e' & p3 & He & Hrange & Hp3)]; [by rewrite Hnf in Hd|].
  rewrite He in Hd. injection Hd as <- <-. apply io_bind_ok in Hrun as (extra & x4 & Hd & Hrun). unfold ex_draw in Hd. cbn [ex_prng] in Hd.
  destruct (Bytes_returns (Z.to_nat e') ltac:(unfold stream_limit, SSH_MAX_PADDING_LENGTH in *; lia) p3 Hp3) as (extra' & p4 & Hb & Hbl & Hp4).
  rewrite Hb in Hd. injection Hd as <- <-. apply io_bind_ok in Hrun as (u2 & x5 & ->%io_modify_ok & Hrun).
  apply IH in Hrun as (ps & ps' & [Hw Ht Hr Hp'] & Hnk & Hinc); [|done].
  exists (p :: ps), ((setSSHPacketPrefix p (l + e') (n + e') ++ extra') :: ps'). split; [split; cbn [ex_write ex_transform ex_prng] in *|split].
  - cbn [concat]. rewrite <- app_assoc, <- Hw. unfold p. symmetry. apply take_drop.
  - rewrite Ht. cbn [concat]. by rewrite <- !app_assoc.
  - constructor; [|done]. exists l, n, (drop 5 p), extra'. split; [done|].
    pose proof (packet_length _ _ _ _ _ Hpk). pose proof (packet_body _ _ _ _ _ Hpk). assert (Z.of_nat (length extra') = e') as -> by lia. split.
    + unfold setSSHPacketPrefix, ssh_packet. rewrite <- !app_assoc. done.
    + unfold SSH_MAX_PADDING_LENGTH in *. pose proof (packet_padding _ _ _ _ _ Hpk). lia.
    + lia.
    + rewrite length_app. lia.
  - done.
  - rewrite Hnk. cbn [existsb]. by rewrite (packet_newkeys _ _ _ _ Hpk), orb_assoc.
  - done.
Qed.

(** ** Writing *)

Section Writing.
Context {U : Type} `{!UnderlyingConn U} `{Digests}.
Abbreviation st := (ObfuscatedSSHConn U).

(** The bytes on the network, and the ciphers of the two directions. *)
Definition sent_bytes (c : st) : bytes := concat (conn_writes (oc_net c)).

Definition write_cipher (c : st) : rc4 :=
  match mode c with OBFUSCATION_CONN_MODE_CLIENT => clientToServerCipher (obfuscator c) | OBFUSCATION_CONN_MODE_SERVER => serverToClientCipher (obfuscator c) end.
Definition read_cipher (c : st) : rc4 :=
  match mode c with OBFUSCATION_CONN_MODE_CLIENT => serverToClientCipher (obfuscator c) | OBFUSCATION_CONN_MODE_SERVER => clientToServerCipher (obfuscator c) end.

Lemma net_write_ok (c : st) b u c' : net_write b c = (Ok u, c') -> exists n, c' = set_net c n /\ sent_bytes c' = sent_bytes c ++ b.
Proof.
  unfold net_write. destruct (conn_Write b (oc_net c)) as [[n err] v] eqn:E. destruct (conn_Write_law _ _ _ _ _ E) as (Hn & Herr & Hw).
  destruct err as [e|]; [done|]. intros [= _ <-]. exists v. split; [done|]. unfold sent_bytes. cbn. rewrite Hw, concat_app. cbn.
  assert (n = length b) as -> by (destruct (decide (n < length b)%nat) as [Hlt|]; [by apply Herr in Hlt|lia]). by rewrite firstn_all, app_nil_r.
Qed.

(** The state of the writing end: what was sent before, the cipher then, what was obfuscated
    since, what was sent in the clear after it, and the buffer to be obfuscated next. *)
Record wrote (c : st) (before : bytes) (k : rc4) (text tail pending : bytes) : Prop := {
  wrote_sent : sent_bytes c = before ++ xored k text ++ tail;
  wrote_cipher : write_cipher c = rc4_skip (length text) k;
  wrote_buffer : transformBuffer c = pending;
  wrote_prng : prng_ok (oc_paddingPRNG c)
}.

Lemma writeObfuscate_ok (c : st) b b' c' : writeObfuscate b c = (Ok b', c') ->
  b' = xored (write_cipher c) b /\ c' = set_obfuscator c (obfuscator c') /\ write_cipher c' = rc4_skip (length b) (write_cipher c) /\ read_cipher c' = read_cipher c.
Proof.
  unfold writeObfuscate, write_cipher, read_cipher, ObfuscateClientToServer, ObfuscateServerToClient.
  destruct (mode c) eqn:Em; rewrite XORKeyStream_xored; intros [= <- <-]; cbn; rewrite Em; done.
Qed.

Lemma send_transformed_ok (c c' : st) u before k text pending : wrote c before k text [] pending -> send_transformed c = (Ok u, c') ->
  wrote c' before k (text ++ pending) [] [] /\ writeState c' = writeState c /\ writeBuffer c' = writeBuffer c.
Proof.
  intros [Hs Hc Hb Hp] Hrun. unfold send_transformed in Hrun. apply io_bind_ok in Hrun as (c0 & c1 & [= <- <-] & Hrun).
  destruct (Nat.ltb_spec 0 (length (transformBuffer c))) as [Hlt|Hle].
  - cbv zeta in Hrun. apply io_bind_ok in Hrun as (? & c1 & ->%io_modify_ok & Hrun). apply io_bind_ok in Hrun as (b & c2 & Hw & Hrun).
    apply writeObfuscate_ok in Hw as (-> & E & Hc2 & _). apply net_write_ok in Hrun as (n & -> & Hn).
    rewrite Hb in *. change (write_cipher (set_buffers c (writeBuffer c) [])) with (write_cipher c) in *. split; [split|].
    + rewrite Hn, E. change (sent_bytes (set_obfuscator _ _)) with (sent_bytes c).
      by rewrite Hs, Hc, xored_app, !app_nil_r, app_assoc.
    + change (write_cipher (set_net c2 n)) with (write_cipher c2). by rewrite Hc2, Hc, <- rc4_skip_add, length_app.
    + by rewrite E.
    + by rewrite E.
    + by rewrite E.
  - injection Hrun as _ <-. assert (pending = []) as -> by (rewrite <- Hb; destruct (transformBuffer c); [done|cbn in Hle; lia]).
    rewrite app_nil_r. done.
Qed.

Lemma send_rest_ok (c c' : st) u before k text : wrote c before k text [] [] -> send_rest c = (Ok u, c') ->
  writeState c' = writeState c /\
  if bool_decide (writeState c = OBFUSCATION_WRITE_STATE_FINISHED) then wrote c' before k text (writeBuffer c) [] /\ writeBuffer c' = []
  else c' = c.
Proof.
  intros [Hs Hc Hb Hp] Hrun. unfold send_rest in Hrun. apply io_bind_ok in Hrun as (c0 & c1 & [= <- <-] & Hrun).
  case_bool_decide as Hf; [|by injection Hrun as _ <-]. apply io_bind_ok in Hrun as (? & c1 & Hw & ->%io_modify_ok).
  assert (exists n, c1 = set_net c n /\ sent_bytes c1 = sent_bytes c ++ writeBuffer c) as (n & E & Hn).
  { destruct (Nat.ltb_spec 0 (length (writeBuffer c))) as [Hlt|Hle]; [by apply net_write_ok in Hw|].
    injection Hw as _ <-. exists (oc_net c). split; [by destruct c|]. destruct (writeBuffer c); [by rewrite app_nil_r|cbn in Hle; lia]. }
  split; [by rewrite E|]. split; [|done]. split.
  - change (sent_bytes (set_buffers c1 [] [])) with (sent_bytes c1). by rewrite Hn, Hs, app_nil_r, <- app_assoc.
  - rewrite E. exact Hc.
  - done.
  - rewrite E. exact Hp.
Qed.

(** Writing before a message of the write buffer is complete, or completing some. *)
Lemma write_line draws (c c' : st) u b before k text : wrote c before k text [] [] -> writeState c = OBFUSCATION_WRITE_STATE_IDENTIFICATION_LINE ->
  (_ ← io_modify (fun c => set_buffers c (writeBuffer c ++ b) (transformBuffer c)); _ ← extract_messages draws; _ ← send_transformed; send_rest) c = (Ok u, c') ->
  match bytes_Index (writeBuffer c ++ b) CRLF with
  | None => wrote c' before k text [] [] /\ writeState c' = OBFUSCATION_WRITE_STATE_IDENTIFICATION_LINE /\ writeBuffer c' = writeBuffer c ++ b
  | Some i => wrote c' before k (text ++ take (i + 2) (writeBuffer c ++ b)) [] [] /\ writeState c' = OBFUSCATION_WRITE_STATE_KEX_PACKETS /\
      writeBuffer c' = drop (i + 2) (writeBuffer c ++ b)
  end.
Proof.
  intros [Hs Hc Hb Hp] Hst Hrun. apply io_bind_ok in Hrun as (? & c1 & ->%io_modify_ok & Hrun). apply io_bind_ok in Hrun as (? & c2 & Hx & Hrun).
  apply io_bind_ok in Hrun as (? & c3 & Hsend & Hrest). unfold extract_messages in Hx. apply io_bind_ok in Hx as (c0 & c1 & [= <- <-] & Hx).
  cbn [writeState set_buffers set_writing] in Hx. rewrite Hst in Hx. unfold extractSSHIdentificationLine in Hx. cbn [writeBuffer set_buffers set_writing] in Hx.
  destruct (bytes_Index (writeBuffer c ++ b) CRLF) as [i|].
  - apply io_modify_ok in Hx as ->. eapply send_transformed_ok in Hsend as (Hw & Hws & Hwb); [|split; [exact Hs|exact Hc|cbn; by rewrite Hb|exact Hp]].
    eapply send_rest_ok in Hrest as (Hws' & Hrest); [|exact Hw]. rewrite Hws in Hws', Hrest. cbn in Hws', Hrest. rewrite Hrest. by rewrite Hws, Hwb.
  - injection Hx as _ <-. eapply send_transformed_ok in Hsend as (Hw & Hws & Hwb); [|split; [exact Hs|exact Hc|exact Hb|exact Hp]].
    eapply send_rest_ok in Hrest as (Hws' & Hrest); [|exact Hw]. rewrite Hws in Hws', Hrest. cbn in Hws', Hrest. rewrite Hst in Hws', Hrest. cbn in Hrest.
    rewrite Hrest, Hws, Hwb. rewrite app_nil_r in Hw. done.
Qed.

Lemma write_packets draws (c c' : st) u b before k text : wrote c before k text [] [] -> writeState c = OBFUSCATION_WRITE_STATE_KEX_PACKETS ->
  (_ ← io_modify (fun c => set_buffers c (writeBuffer c ++ b) (transformBuffer c)); _ ← extract_messages draws; _ ← send_transformed; send_rest) c = (Ok u, c') ->
  exists ps ps' w, writeBuffer c ++ b = concat ps ++ w /\ Forall2 repadded ps ps' /\ incomplete w /\
  if existsb newkeys_packet ps
  then wrote c' before k (text ++ concat ps') w [] /\ writeState c' = OBFUSCATION_WRITE_STATE_FINISHED
  else wrote c' before k (text ++ concat ps') [] [] /\ writeState c' = OBFUSCATION_WRITE_STATE_KEX_PACKETS /\ writeBuffer c' = w.
Proof.
  intros [Hs Hc Hb Hp] Hst Hrun. apply io_bind_ok in Hrun as (? & c1 & ->%io_modify_ok & Hrun). apply io_bind_ok in Hrun as (? & c2 & Hx & Hrun).
  apply io_bind_ok in Hrun as (? & c3 & Hsend & Hrest). unfold extract_messages in Hx. apply io_bind_ok in Hx as (c0 & c1 & [= <- <-] & Hx).
  cbn [writeState set_buffers set_writing] in Hx. rewrite Hst in Hx. apply io_bind_ok in Hx as (nk & c1 & Hx & Hnk).
  unfold extract_packets in Hx. cbn [legacyPadding oc_paddingPRNG writeBuffer transformBuffer set_buffers set_writing] in Hx.
  destruct (extractSSHPackets _ _ _) as [r x'] eqn:Hex. injection Hx as -> <-. unfold extractSSHPackets in Hex.
  apply extract_loop_sound in Hex as (ps & ps' & [Hw Ht Hr Hp'] & -> & Hinc); [|done]. cbn [ex_write ex_transform ex_prng orb] in *.
  rewrite Hb in Ht. cbn [app] in Ht. exists ps, ps', (ex_write x'). split; [done|]. split; [done|]. split; [done|].
  destruct (existsb newkeys_packet ps).
  - apply io_modify_ok in Hnk as ->. eapply send_transformed_ok in Hsend as (Hw' & Hws & Hwb); [|split; [exact Hs|exact Hc|exact Ht|exact Hp']].
    eapply send_rest_ok in Hrest as (Hws' & Hrest); [|exact Hw']. rewrite Hws in Hws', Hrest. cbn in Hws', Hrest. destruct Hrest as [Hrest _]. by rewrite Hwb in Hrest.
  - injection Hnk as _ <-. eapply send_transformed_ok in Hsend as (Hw' & Hws & Hwb); [|split; [exact Hs|exact Hc|exact Ht|exact Hp']].
    eapply send_rest_ok in Hrest as (Hws' & Hrest); [|exact Hw']. rewrite Hws in Hws', Hrest. cbn in Hws', Hrest. rewrite Hst in Hws', Hrest. cbn in Hrest.
    rewrite Hrest, Hws, Hwb. done.
Qed.

Lemma split_delay_ok draws i (c c' : st) u : split_delay draws i c = (Ok u, c') -> c' = c.
Proof.
  unfold split_delay. intros (c0 & c1 & [= <- <-] & Hrun)%io_bind_ok. destruct (osshPrefixSplitConfig (obfuscator c)) as [cfg|]; [|by injection Hrun as _ <-].
  apply io_bind_ok in Hrun as (rng & c1 & [= _ <-] & Hrun). apply io_bind_ok in Hrun as (? & c1 & [= _ <-] & Hrun).
  destruct i; [done|]. by injection Hrun as _ <-.
Qed.

(** The preamble of a client goes first, in one write or in two. *)
Lemma client_first draws i (c c' : st) u msg : writeState c = OBFUSCATION_WRITE_STATE_CLIENT_SEND_PREAMBLE -> preamble (obfuscator c) = Some msg ->
  transformBuffer c = [] -> prng_ok (oc_paddingPRNG c) -> send_first draws i c = (Ok u, c') ->
  wrote c' (sent_bytes c ++ msg) (write_cipher c) [] [] [] /\ writeState c' = OBFUSCATION_WRITE_STATE_IDENTIFICATION_LINE /\ writeBuffer c' = writeBuffer c.
Proof.
  intros Hst Hpre Ht Hp Hrun. unfold send_first in Hrun. apply io_bind_ok in Hrun as (c0 & c1 & [= <- <-] & Hrun). rewrite Hst in Hrun.
  unfold send_client_preamble in Hrun. apply io_bind_ok in Hrun as ([msg' n] & c1 & Htk & Hrun).
  unfold take_preamble, SendPreamble in Htk. injection Htk as <- <- <-. rewrite Hpre in Hrun. cbn [default from_option id] in Hrun. unfold id in Hrun. cbv zeta in Hrun.
  apply io_bind_ok in Hrun as (? & c2 & H1 & Hrun). apply io_bind_ok in Hrun as (? & c3 & H2 & ->%io_modify_ok).
  set (c1 := set_obfuscator c _) in *. set (n := preambleOSSHPrefixLength (obfuscator c)) in *.
  assert (exists v, c2 = set_net c1 v /\ sent_bytes c2 ++ drop n msg = sent_bytes c ++ msg) as (v & -> & Hs).
  { destruct (Nat.ltb_spec 0 n) as [Hlt|Hle].
    - apply io_bind_ok in H1 as (? & c2' & (v & -> & Hs)%net_write_ok & ->%split_delay_ok). exists v. split; [done|].
      rewrite Hs. change (sent_bytes c1) with (sent_bytes c). by rewrite <- app_assoc, take_drop.
    - injection H1 as _ <-. exists (oc_net c1). split; [by destruct c|]. assert (n = 0%nat) as -> by lia. by rewrite drop_0. }
  apply net_write_ok in H2 as (v' & -> & Hs'). split; [split|done].
  - change (sent_bytes (set_writeState _ _)) with (sent_bytes (set_net (set_net c1 v) v')). rewrite Hs', xored_nil, !app_nil_r. exact Hs.
  - unfold write_cipher. cbn. by destruct (mode c).
  - exact Ht.
  - exact Hp.
Qed.

(** The prefix of a server goes first, and then the lines of its padding. *)
Lemma server_first draws i (c c' : st) u : writeState c = OBFUSCATION_WRITE_STATE_SERVER_SEND_PREFIX_AND_IDENTIFICATION_LINE_PADDING ->
  transformBuffer c = [] -> prng_ok (oc_paddingPRNG c) -> send_first draws i c = (Ok u, c') ->
  exists ns, Forall (fun n => 2 <= n <= 512)%nat ns /\ 2 <= Z.of_nat (sum_list ns) <= OBFUSCATE_MAX_PADDING /\
  wrote c' (sent_bytes c ++ default [] (preamble (obfuscator c))) (write_cipher c) (concat (map padding_line ns)) [] [] /\
  writeState c' = OBFUSCATION_WRITE_STATE_IDENTIFICATION_LINE /\ writeBuffer c' = writeBuffer c.
Proof.
  intros Hst Ht Hp Hrun. unfold send_first in Hrun. apply io_bind_ok in Hrun as (c0 & c1 & [= <- <-] & Hrun). rewrite Hst in Hrun.
  unfold send_server_prefix in Hrun. apply io_bind_ok in Hrun as ([msg n] & c1 & Htk & Hrun).
  unfold take_preamble, SendPreamble in Htk. injection Htk as Hmsg <- <-. set (c1 := set_obfuscator c _) in *.
  apply io_bind_ok in Hrun as (buffer & c2 & Hb & Hrun). apply io_bind_ok in Hrun as (padding & c3 & Hd & Hrun).
  apply io_bind_ok in Hrun as (padding' & c4 & Hw & Hrun). apply io_bind_ok in Hrun as (? & c5 & Hn & ->%io_modify_ok).
  assert (exists v, c2 = set_net c1 v /\ sent_bytes c2 ++ buffer = sent_bytes c ++ default [] (preamble (obfuscator c))) as (v & -> & Hs).
  { rewrite Hmsg. destruct msg as [msg|].
    - apply io_bind_ok in Hb as (? & c2' & (v & -> & Hs)%net_write_ok & Hb). apply io_bind_ok in Hb as (? & c3' & ->%split_delay_ok & [= <- <-]).
      exists v. split; [done|]. rewrite Hs. change (sent_bytes c1) with (sent_bytes c). by rewrite <- app_assoc, take_drop.
    - injection Hb as <- <-. exists (oc_net c1). by destruct c. }
  unfold draw_padding in Hd. cbn [oc_paddingPRNG set_net set_writing c1 set_obfuscator] in Hd.
  destruct (server_padding draws (oc_paddingPRNG c) Hp) as [E|(ns & p' & E & Hns & Hsum & Hp')]; rewrite E in Hd; [done|]. injection Hd as <- <-.
  exists ns. split; [done|]. split; [done|]. apply writeObfuscate_ok in Hw as (-> & E4 & Hc4 & _). apply net_write_ok in Hn as (v' & -> & Hs').
  rewrite E4 in Hs' |- *. split; [split|done].
  - etransitivity; [exact Hs'|]. rewrite app_nil_r, app_assoc. f_equal; first [exact Hs|unfold write_cipher; cbn; by destruct (mode c)].
  - rewrite E4 in Hc4. etransitivity; [exact Hc4|]. unfold write_cipher. cbn. by destruct (mode c).
  - exact Ht.
  - exact Hp'.
Qed.
End Writing.
