(* ===== verification/OsshSession.v ===== *)
(** * Obfuscated SSH sessions

    What a connection reads, the independence of its two directions, and the composition of
    a client and a server of [OsshConn]: the SSH messages written at one end are read at
    the other, with other padding, and the traffic after SSH_MSG_NEWKEYS unchanged. *)

From Stdlib Require Import ZArith Lia Strings.Byte Strings.String.
From stdpp Require Import base gmap list strings numbers.
From S2P Require Import Prelude.
From S2P Require Import GoCrypto.
From S2P Require Import PRNG.
From S2P Require Import Fragmentor.
From S2P Require Import SeedHistory.
From S2P Require Import GoIO.
From S2P Require Import Obfuscator.
From S2P Require Import OsshConn.
#[local] Open Scope string_scope.
#[local] Open Scope Z_scope.
#[local] Open Scope list_scope.

Section Directions.
Context {U : Type} `{!UnderlyingConn U} `{Digests}.
Abbreviation st := (ObfuscatedSSHConn U).

(** What writing depends on, but for the kind of padding, and what reading depends on. *)
Definition write_view (c : st) :=
  (oc_net c, mode c, write_cipher c, preamble (obfuscator c), preambleOSSHPrefixLength (obfuscator c), osshPrefixSplitConfig (obfuscator c),
   writeState c, writeBuffer c, transformBuffer c, oc_paddingPRNG c).
Definition read_view (c : st) :=
  (oc_reader c, mode c, read_cipher c, keyword (obfuscator c), readState c, readBuffer c).

Lemma readDeobfuscate_keeps b : keeps write_view (readDeobfuscate b).
Proof.
  intros c. unfold readDeobfuscate, write_view, write_cipher, ObfuscateClientToServer, ObfuscateServerToClient.
  destruct (mode c) eqn:Em; rewrite XORKeyStream_xored; cbn; by rewrite Em.
Qed.

Lemma on_conn_keeps {A} (m : io SkipReader A) : keeps write_view (on_conn m).
Proof. by apply keeps_on. Qed.

Lemma read_modify_keeps (f : st -> st) : (forall c, write_view (f c) = write_view c) -> keeps write_view (io_modify f).
Proof. apply keeps_modify. Qed.

#[local] Hint Resolve readDeobfuscate_keeps on_conn_keeps : keeps.
#[local] Hint Extern 2 (keeps write_view (io_modify _)) => (by apply read_modify_keeps) : keeps.

Lemma read_into_keeps n : keeps write_view (read_into n).
Proof. unfold read_into. keeps. Qed.
#[local] Hint Resolve read_into_keeps : keeps.

Lemma deobfuscate_keeps n : keeps write_view (deobfuscate_from n).
Proof. unfold deobfuscate_from. keeps. Qed.
#[local] Hint Resolve deobfuscate_keeps : keeps.

Lemma readSSHPacket_keeps : keeps write_view readSSHPacket.
Proof. unfold readSSHPacket. keeps. Qed.

Lemma line_bytes_keeps n : keeps write_view (line_bytes n).
Proof. induction n as [|n IH]; cbn [line_bytes]; keeps. Qed.
Lemma readSSHIdentificationLine_keeps : keeps write_view readSSHIdentificationLine.
Proof. apply line_bytes_keeps. Qed.
#[local] Hint Resolve readSSHPacket_keeps readSSHIdentificationLine_keeps : keeps.

Lemma identification_keeps fuel : keeps write_view (identification_loop fuel).
Proof. induction fuel as [|fuel IH]; cbn [identification_loop]; keeps. Qed.
#[local] Hint Resolve identification_keeps : keeps.

Lemma read_prefix_keeps : keeps write_view read_prefix.
Proof. unfold read_prefix. keeps. Qed.

Lemma next_read_keeps : keeps write_view next_read.
Proof. unfold next_read. keeps. Qed.
#[local] Hint Resolve read_prefix_keeps next_read_keeps : keeps.

(** Reading does not touch the writing end. *)
Lemma ossh_Read_keeps n : keeps write_view (ossh_Read n).
Proof.
  intros c. unfold ossh_Read. case_bool_decide.
  - by destruct (Read n (oc_reader c)) as [[b err] r].
  - assert (keeps write_view (b ← readAndTransform n; mret (b, @None string))) as Hk by (unfold readAndTransform; keeps). apply Hk.
Qed.
(** Nor does writing touch the reading end. *)
Lemma writeObfuscate_keeps b : keeps read_view (writeObfuscate b).
Proof.
  intros c. unfold writeObfuscate, read_view, read_cipher, ObfuscateClientToServer, ObfuscateServerToClient.
  destruct (mode c) eqn:Em; rewrite XORKeyStream_xored; cbn; by rewrite Em.
Qed.

Lemma net_write_keeps b : keeps read_view (net_write b).
Proof. intros c. unfold net_write. by destruct (conn_Write b (oc_net c)) as [[n [e|]] u]. Qed.

Lemma take_preamble_keeps : keeps read_view take_preamble.
Proof. intros c. unfold take_preamble, SendPreamble, read_view, read_cipher. cbn. by destruct (mode c). Qed.

Lemma draw_padding_keeps draws : keeps read_view (draw_padding draws).
Proof. intros c. unfold draw_padding. by destruct (makeServerIdentificationLinePadding _ _) as [[b p]|e|e|]. Qed.

Lemma extract_packets_keeps draws : keeps read_view (extract_packets draws).
Proof. intros c. unfold extract_packets. by destruct (extractSSHPackets _ _ _). Qed.

Lemma write_modify_keeps (f : st -> st) : (forall c, read_view (f c) = read_view c) -> keeps read_view (io_modify f).
Proof. apply keeps_modify. Qed.

#[local] Hint Resolve writeObfuscate_keeps net_write_keeps take_preamble_keeps draw_padding_keeps extract_packets_keeps : keeps.
#[local] Hint Extern 2 (keeps read_view (io_modify _)) => (by apply write_modify_keeps) : keeps.

Lemma split_delay_keeps draws i : keeps read_view (split_delay draws i).
Proof. unfold split_delay. keeps. Qed.
#[local] Hint Resolve split_delay_keeps : keeps.

Lemma ossh_Write_keeps draws i b : keeps read_view (ossh_Write draws i b).
Proof.
  intros c. unfold ossh_Write. case_bool_decide.
  - by destruct (conn_Write b (oc_net c)) as [[n [e|]] u].
  - assert (keeps read_view (_ ← transformAndWrite draws i b; mret (length b))) as Hk; [|apply Hk].
    unfold transformAndWrite, send_first, send_client_preamble, send_server_prefix, extract_messages, send_transformed, send_rest. keeps.
Qed.
End Directions.

(** ** Reading *)

(** The end of the stream is read on its own. *)
Definition quiet (r : SkipReader) : Prop := reader_ok r /\ conn_eager r = false.

Lemma quiet_Read k r b err r' : (0 < k)%nat -> quiet r -> Read k r = (b, err, r') -> quiet r' /\ (err <> None -> b = [] /\ stream r = []).
Proof.
  intros Hk [Hr He] Hrd. destruct (Read_law _ _ _ _ _ Hk Hr Hrd) as (Hr' & _ & Hs & _ & Hend).
  pose proof (Read_eager k r) as He'. rewrite Hrd in He'. cbn [snd] in He'.
  assert (err <> None -> b = []) as Hb.
  { cbn in Hrd. unfold SkipReader_Read, conn_Read in Hrd. destruct (sr_offset r <? sr_end r)%nat eqn:Hlt.
    - destruct (Nat.eqb_spec (length (take k (slice (sr_offset r) (sr_end r - sr_offset r) (sr_buf r)))) 0) as [H0|H0].
      + exfalso. unfold slice in H0. rewrite !length_take, length_drop in H0. apply Nat.ltb_lt in Hlt. cbn in Hr. lia.
      + by injection Hrd as <- <- <-.
    - destruct (arrivals (sr_Conn r)); injection Hrd as <- <- <-; [done|]. unfold conn_eager in He. by rewrite He. }
  split; [split; [done|by rewrite He']|]. intros Hn. rewrite Hs, (Hb Hn), (Hend Hn). done.
Qed.

Lemma limit_loop_ok fuel : forall n read r, quiet r -> (n <= length (stream r))%nat -> (S (budget r) < fuel)%nat ->
  exists r', limit_loop fuel n read r = (Ok (read ++ take n (stream r), None), r') /\ quiet r' /\ stream r' = drop n (stream r).
Proof.
  induction fuel as [|fuel IH]; intros n read r Hr Hn Hf; [lia|]. destruct n as [|n].
  { exists r. cbn [limit_loop]. by rewrite take_0, app_nil_r, drop_0. }
  cbn [limit_loop]. destruct (Read (S n) r) as [[b err] r'] eqn:Hrd.
  destruct (Read_law (S n) _ _ _ _ ltac:(lia) (proj1 Hr) Hrd) as (_ & Hb & Hs & Hm & _).
  destruct (quiet_Read (S n) _ _ _ _ ltac:(lia) Hr Hrd) as [Hr' He]. destruct err as [e|].
  - destruct He as [_ He]; [done|]. rewrite He in Hn. cbn in Hn. lia.
  - specialize (Hm eq_refl). rewrite Hs in Hn |- *. rewrite length_app in Hn.
    destruct (IH (S n - length b)%nat (read ++ b) r' Hr' ltac:(lia) ltac:(lia)) as (r'' & Hl & Hr'' & Hs'').
    exists r''. rewrite Hl. rewrite take_app, drop_app, (take_ge b), (drop_ge b), <- app_assoc by lia. done.
Qed.

Lemma ReadFrom_ok r a s : quiet r -> stream r = a ++ s -> exists r', ReadFrom (length a) r = (Ok (a, None), r') /\ quiet r' /\ stream r' = s.
Proof.
  intros Hr Hs. unfold ReadFrom. destruct (limit_loop_ok (S (S (budget r))) (length a) [] r Hr) as (r' & Hl & Hr' & Hs'); [rewrite Hs, length_app; lia|lia|].
  exists r'. rewrite Hl, Hs', Hs, take_app_length, drop_app_length. done.
Qed.

Lemma quiet_MustRead r a s : quiet r -> stream r = a ++ s -> exists r', MustRead (length a) r = (Ok a, r') /\ quiet r' /\ stream r' = s.
Proof.
  intros [Hr He] Hs. destruct (MustRead_app (length a) r a s Hr Hs eq_refl) as (r' & Hm & Hr' & Hs'). exists r'. split; [done|]. split; [|done]. split; [done|].
  change r' with ((Ok a, r').2). by rewrite <- Hm, (MustRead_eager (length a) r).
Qed.

Section Reading.
Context {U : Type} `{!UnderlyingConn U} `{Digests}.
Abbreviation st := (ObfuscatedSSHConn U).

(** The state of the reading end: its state, buffer and cipher, and what is left to read. *)
Record reading (c : st) (rs : ObfuscatedSSHReadState) (buf : bytes) (k : rc4) (s : bytes) : Prop := {
  reading_state : readState c = rs;
  reading_buffer : readBuffer c = buf;
  reading_cipher : read_cipher c = k;
  reading_quiet : quiet (oc_reader c);
  reading_stream : stream (oc_reader c) = s
}.

Lemma on_conn_at {A} (m : io SkipReader A) c rs buf k s x s' : reading c rs buf k s ->
  (exists r', m (oc_reader c) = (Ok x, r') /\ quiet r' /\ stream r' = s') -> exists c', on_conn m c = (Ok x, c') /\ reading c' rs buf k s' /\ mode c' = mode c /\ obfuscator c' = obfuscator c.
Proof.
  intros [H1 H2 H3 H4 H5] (r' & Hm & Hq & Hs). eexists. split; [unfold on_conn; by erewrite io_on_run|]. split; [|done]. split; try done.
  all: try (by rewrite <- H3).
Qed.

Lemma read_into_at c rs buf k a s : reading c rs buf k (a ++ s) -> exists c', read_into (length a) c = (Ok a, c') /\ reading c' rs (buf ++ a) k s.
Proof.
  intros Hc. destruct (on_conn_at (ReadFrom (length a)) c rs buf k _ (a, None) s Hc) as (c1 & Hrun & [H1 H2 H3 H4 H5] & _).
  { apply ReadFrom_ok; apply Hc. }
  unfold read_into. eexists. split.
  - erewrite io_bind_run by exact Hrun. cbv beta iota. erewrite io_bind_run by reflexivity. rewrite Nat.eqb_refl. reflexivity.
  - split; [done|by cbn; rewrite H2|done|done|done].
Qed.

Lemma readDeobfuscate_at c rs buf k a s : reading c rs buf k s -> exists c', readDeobfuscate (xored k a) c = (Ok a, c') /\
  reading c' rs buf (rc4_skip (length a) k) s.
Proof.
  intros [H1 H2 H3 H4 H5]. subst k. unfold readDeobfuscate, read_cipher, ObfuscateServerToClient, ObfuscateClientToServer.
  destruct (mode c) eqn:Em; rewrite XORKeyStream_undo; (eexists; split; [reflexivity|]; split; try done; unfold read_cipher; cbn; by rewrite Em).
Qed.

Lemma deobfuscate_at c rs buf k a s : reading c rs (buf ++ xored k a) k s -> exists c', deobfuscate_from (length buf) c = (Ok tt, c') /\
  reading c' rs (buf ++ a) (rc4_skip (length a) k) s.
Proof.
  intros Hc. destruct (readDeobfuscate_at _ _ _ _ a _ Hc) as (c1 & Hrun & [H1 H2 H3 H4 H5]). unfold deobfuscate_from. eexists. split.
  - erewrite io_bind_run by reflexivity. rewrite (reading_buffer _ _ _ _ _ Hc), drop_app_length. erewrite io_bind_run by exact Hrun. reflexivity.
  - split; try done. cbn. by rewrite H2, take_app_length.
Qed.

(** A packet is read whole. *)
Lemma packet_at c rs k p s : is_packet SSH_MAX_PACKET_LENGTH p -> reading c rs [] k (xored k p ++ s) ->
  exists c', readSSHPacket c = (Ok (newkeys_packet p), c') /\ reading c' rs p (rc4_skip (length p) k) s.
Proof.
  intros (l & n & body & Hp) Hc. pose proof (packet_newkeys _ _ _ _ Hp) as Hnk. pose proof (packet_prefix _ _ _ _ _ [] ltac:(done) Hp) as Hpre.
  rewrite app_nil_r in Hpre. pose proof (packet_nonempty _ p ltac:(by eexists _, _, _)) as Hlen.
  set (a := take SSH_PACKET_PREFIX_LENGTH p) in *. set (b := drop SSH_PACKET_PREFIX_LENGTH p).
  assert (p = a ++ b) as Hab by (symmetry; apply take_drop). assert (length a = 5%nat) as Ha by (unfold a; rewrite length_take; unfold SSH_PACKET_PREFIX_LENGTH; lia).
  rewrite Hab, xored_app, <- app_assoc in Hc. unfold readSSHPacket.
  destruct (read_into_at _ _ _ _ _ _ Hc) as (c1 & E1 & Hc1). rewrite length_xored, Ha in E1.
  destruct (deobfuscate_at c1 rs [] k a _ Hc1) as (c2 & E2 & Hc2). cbn [app] in Hc2.
  destruct (read_into_at _ _ _ _ _ _ Hc2) as (c3 & E3 & Hc3). rewrite length_xored in E3.
  destruct (deobfuscate_at c3 rs a _ b _ Hc3) as (c4 & E4 & Hc4). exists c4.
  rewrite <- rc4_skip_add, <- length_app, <- Hab in Hc4. split; [|done].
  erewrite io_bind_run by reflexivity. rewrite (reading_buffer _ _ _ _ _ Hc). cbn [length].
  erewrite io_bind_run by exact E1. erewrite io_bind_run by exact E2. erewrite io_bind_run by reflexivity.
  rewrite (reading_buffer _ _ _ _ _ Hc2), drop_0, Hpre. erewrite io_bind_run by reflexivity. cbv beta iota zeta.
  replace (Z.to_nat (Z.of_nat (length p) - Z.of_nat SSH_PACKET_PREFIX_LENGTH)) with (length b)
    by (rewrite Hab, length_app, Ha; unfold SSH_PACKET_PREFIX_LENGTH; lia).
  erewrite io_bind_run by exact E3. rewrite Ha in E4. erewrite io_bind_run by exact E4. erewrite io_bind_run by reflexivity.
  rewrite (reading_buffer _ _ _ _ _ Hc4), drop_0, Hnk. done.
Qed.
(** A line and the end of line that ends it, which is the only one in it. *)
Definition is_line (line : bytes) : Prop := bytes_Index line CRLF = Some (length line - 2)%nat.

Lemma is_line_suffix buf tail : is_line (buf ++ tail) -> buf <> [] -> HasSuffix buf CRLF = bool_decide (tail = []).
Proof.
  intros [Ho Hmin]%Index_some Hb. unfold HasSuffix. apply bool_decide_ext. change (length CRLF) with 2%nat. split.
  - intros Hs. assert (2 <= length buf)%nat as H2 by (apply (f_equal length) in Hs; rewrite length_drop in Hs; cbn in Hs; lia).
    destruct tail as [|x tail]; [done|]. exfalso. apply (Hmin (length buf - 2)%nat); [rewrite length_app; cbn [length]; lia|].
    apply occurs_prefix; [cbn; lia|]. unfold occurs_at. by rewrite Hs.
  - intros ->. rewrite app_nil_r in Ho. pose proof (occurs_bound buf CRLF _ ltac:(done) Ho) as Hl. unfold occurs_at in Ho. rewrite take_ge in Ho; [done|].
    rewrite length_drop. cbn. lia.
Qed.

Lemma line_bytes_at n : forall c rs buf k tail s, tail <> [] -> is_line (buf ++ tail) -> (length tail <= n)%nat ->
  reading c rs buf k (xored k tail ++ s) -> exists c', line_bytes n c = (Ok tt, c') /\ reading c' rs (buf ++ tail) (rc4_skip (length tail) k) s.
Proof.
  induction n as [|n IH]; intros c rs buf k tail s Ht Hl Hn Hc; (destruct tail as [|x tail]; [done|]); [cbn in Hn; lia|]. cbn [line_bytes].
  change (x :: tail) with ([x] ++ tail) in *. rewrite app_assoc in Hl |- *. rewrite xored_app, <- app_assoc in Hc.
  destruct (on_conn_at (MustRead (length (xored k [x]))) c rs buf k _ (xored k [x]) (xored (rc4_skip (length [x]) k) tail ++ s) Hc) as (c1 & E1 & Hc1 & _).
  { apply quiet_MustRead; [apply Hc|exact (reading_stream _ _ _ _ _ Hc)]. }
  destruct (readDeobfuscate_at _ _ _ _ [x] _ Hc1) as (c2 & E2 & [H1 H2 H3 H4 H5]).
  set (c3 := set_readBuffer c2 (readBuffer c2 ++ [x])).
  assert (reading c3 rs (buf ++ [x]) (rc4_skip 1 k) (xored (rc4_skip 1 k) tail ++ s)) as Hc3 by (split; try done; cbn; by rewrite H2).
  rewrite length_xored in E1. cbn [length] in E1.
  assert (exists c', (if HasSuffix (readBuffer c3) CRLF then mret tt else line_bytes n) c3 = (Ok tt, c') /\
    reading c' rs ((buf ++ [x]) ++ tail) (rc4_skip (length ([x] ++ tail)) k) s) as (c' & E & Hc').
  { rewrite (reading_buffer _ _ _ _ _ Hc3), (is_line_suffix _ _ Hl) by (by destruct buf). case_bool_decide as Htl.
    - subst tail. exists c3. split; [done|]. rewrite !app_nil_r. by rewrite xored_nil in Hc3.
    - destruct (IH c3 rs _ _ tail s Htl Hl ltac:(cbn [length app] in Hn; lia) Hc3) as (c' & E & Hc'). exists c'. split; [done|].
      rewrite <- rc4_skip_add in Hc'. done. }
  exists c'. split; [|done]. erewrite io_bind_run by exact E1. erewrite io_bind_run by exact E2. erewrite io_bind_run by reflexivity.
  erewrite io_bind_run by reflexivity. exact E.
Qed.

Definition identifies (line : bytes) : bool := HasPrefix line (list_byte_of_string "SSH-").

(** A line that may be read, and one that is. *)
Record line_ok (line : bytes) : Prop := {
  line_end : is_line line;
  line_short : (2 <= length line <= SSH_MAX_SERVER_LINE_LENGTH)%nat
}.

Lemma line_at c rs k line s : line_ok line -> reading c rs [] k (xored k line ++ s) ->
  exists c', readSSHIdentificationLine c = (Ok tt, c') /\ reading c' rs line (rc4_skip (length line) k) s.
Proof.
  intros [Hl Hlen] Hc. unfold readSSHIdentificationLine. apply (line_bytes_at _ _ _ []); [|done|lia|done]. intros ->. cbn in Hlen. lia.
Qed.

(** Extra lines are discarded. *)
Lemma identification_at fuel : forall lines c rs k line s, Forall (fun l => line_ok l /\ identifies l = false) lines -> line_ok line -> identifies line = true ->
  (length lines < fuel)%nat -> reading c rs [] k (xored k (concat lines ++ line) ++ s) ->
  exists c', identification_loop fuel c = (Ok tt, c') /\ reading c' rs line (rc4_skip (length (concat lines ++ line)) k) s.
Proof.
  induction fuel as [|fuel IH]; intros lines c rs k line s Hls Hl Hid Hf Hc; [lia|]. cbn [identification_loop].
  destruct lines as [|l lines].
  - destruct (line_at _ _ _ _ _ Hl Hc) as (c1 & E1 & Hc1).
    assert (exists c', (if bool_decide (is_Some (bytes_Index (readBuffer c1) (list_byte_of_string "Ganymed"))) then io_modify set_legacyPadding else mret tt) c1 = (Ok tt, c') /\
      reading c' rs line (rc4_skip (length line) k) s) as (c' & E & Hc').
    { case_bool_decide; [|by exists c1]. exists (set_legacyPadding c1). split; [done|]. by destruct Hc1. }
    exists c'. split; [|done]. erewrite io_bind_run by exact E1. erewrite io_bind_run by reflexivity.
    rewrite (reading_buffer _ _ _ _ _ Hc1) in E |- *. fold (identifies line). rewrite Hid. exact E.
  - apply list.Forall_cons in Hls as [[Hll Hlid] Hls]. cbn [concat] in Hc |- *. rewrite <- !app_assoc in Hc |- *. rewrite xored_app, <- app_assoc in Hc.
    destruct (line_at _ _ _ _ _ Hll Hc) as (c1 & E1 & Hc1).
    assert (reading (set_readBuffer c1 []) rs [] (rc4_skip (length l) k) (xored (rc4_skip (length l) k) (concat lines ++ line) ++ s)) as Hc2 by (by destruct Hc1).
    destruct (IH lines _ rs _ line s Hls Hl Hid ltac:(cbn in Hf; lia) Hc2) as (c' & E & Hc'). exists c'. split.
    + erewrite io_bind_run by exact E1. erewrite io_bind_run by reflexivity. rewrite (reading_buffer _ _ _ _ _ Hc1). fold (identifies l). rewrite Hlid.
      erewrite io_bind_run by reflexivity. exact E.
    + by rewrite <- rc4_skip_add, <- length_app in Hc'.
Qed.

(** The padding of a server is such lines. *)
Lemma padding_line_ok n : (2 <= n <= 512)%nat -> line_ok (padding_line n) /\ identifies (padding_line n) = false.
Proof.
  intros Hn. split; [split|].
  - unfold is_line. rewrite length_padding_line by lia. unfold padding_line. induction (n - 2)%nat as [|m IH]; [done|].
    cbn [replicate app bytes_Index]. rewrite bool_decide_false by done. by rewrite IH.
  - rewrite length_padding_line by lia. unfold SSH_MAX_SERVER_LINE_LENGTH. lia.
  - unfold identifies, HasPrefix, padding_line. apply bool_decide_false. by destruct (n - 2)%nat as [|m].
Qed.
(** *** The prefix of a server *)

(** A terminated prefix that a client can skip. *)
Record skippable (kw : string) (b : bytes) : Prop := {
  skip_size : (PREAMBLE_HEADER_LENGTH + PREFIX_TERMINATOR_LENGTH <= length b)%nat;
  skip_length : Z.of_nat (length b) - Z.of_nat PREAMBLE_HEADER_LENGTH <= PREFIX_MAX_LENGTH;
  skip_terminator : makeTerminator kw (take PREAMBLE_HEADER_LENGTH b) OBFUSCATE_SERVER_TO_CLIENT_IV = Ok (drop (length b - PREFIX_TERMINATOR_LENGTH) b);
  skip_first : bytes_Index (drop PREAMBLE_HEADER_LENGTH b) (drop (length b - PREFIX_TERMINATOR_LENGTH) b) =
    Some (length b - PREFIX_TERMINATOR_LENGTH - PREAMBLE_HEADER_LENGTH)%nat
}.

Lemma read_prefix_at c k b s : reading c OBFUSCATION_READ_STATE_CLIENT_READ_PREFIX [] k (b ++ s) -> sr_offset (oc_reader c) = sr_end (oc_reader c) ->
  skippable (keyword (obfuscator c)) b -> exists c', read_prefix c = (Ok tt, c') /\ reading c' OBFUSCATION_READ_STATE_IDENTIFICATION_LINES [] k s.
Proof.
  intros Hc Ho [Hsz Hl Hmk Hfst]. set (t := drop (length b - PREFIX_TERMINATOR_LENGTH) b) in *.
  assert (length t = PREFIX_TERMINATOR_LENGTH) as Ht by (unfold t; rewrite length_drop; lia).
  rewrite <- (take_drop PREAMBLE_HEADER_LENGTH b), <- app_assoc in Hc. set (a := take PREAMBLE_HEADER_LENGTH b) in *. set (b' := drop PREAMBLE_HEADER_LENGTH b) in *.
  assert (length a = PREAMBLE_HEADER_LENGTH) as Ha by (unfold a; rewrite length_take; lia).
  destruct (reading_quiet _ _ _ _ _ Hc) as [Hr He].
  destruct (MustRead_app PREAMBLE_HEADER_LENGTH _ _ _ Hr (reading_stream _ _ _ _ _ Hc) (eq_sym Ha)) as (r1 & E1 & Hr1 & Hs1).
  assert (fresh_reader r1) as Hf.
  { change r1 with ((Ok a, r1).2). rewrite <- E1. apply (MustRead_keeps fresh_reader); [intros; by apply fresh_Read|]. by split. }
  rewrite (fresh_stream _ Hf) in Hs1. destruct (SkipUpToToken_ok t (Z.to_nat PREFIX_TERM_SEARCH_BUF_SIZE) PREFIX_MAX_LENGTH r1
    (length b - PREFIX_TERMINATOR_LENGTH - PREAMBLE_HEADER_LENGTH)) as (r2 & E2 & Hr2 & Hs2).
  { intros E. by rewrite E in Ht. } { unfold PREFIX_TERM_SEARCH_BUF_SIZE. lia. } { unfold PREFIX_TERM_SEARCH_BUF_SIZE, PREFIX_MAX_LENGTH. lia. }
  { rewrite Hs1. apply Index_extend; [intros E; by rewrite E in Ht|done]. } { rewrite Ht. lia. } { apply Hf. }
  assert (conn_eager r2 = false) as He2.
  { change r2 with ((Ok (A := unit) tt, r2).2). rewrite <- E2. rewrite (SkipUpToToken_eager _ _ _ r1). apply Hf. }
  eexists. split.
  - unfold read_prefix. erewrite io_bind_run by (apply io_on_run, E1). erewrite io_bind_run by reflexivity.
    cbn [obfuscator set_reader set_reading]. rewrite Hmk. erewrite io_bind_run by reflexivity.
    erewrite io_bind_run by (apply io_on_run, E2). reflexivity.
  - split; [done|apply Hc|apply Hc|done|]. cbn [oc_reader set_readState set_reader set_reading]. rewrite Hs2, Hs1, Ht.
    replace (length b - PREFIX_TERMINATOR_LENGTH - PREAMBLE_HEADER_LENGTH + PREFIX_TERMINATOR_LENGTH)%nat with (length b')
      by (unfold b'; rewrite length_drop; lia). apply drop_app_length.
Qed.

(** *** Reads *)

(** Packets up to the first SSH_MSG_NEWKEYS, which is no longer than [size]. *)
Inductive kex (size : nat) : list bytes -> Prop :=
| kex_last p : is_packet SSH_MAX_PACKET_LENGTH p -> newkeys_packet p = true -> (length p <= size)%nat -> kex size [p]
| kex_more p ps : is_packet SSH_MAX_PACKET_LENGTH p -> newkeys_packet p = false -> kex size ps -> kex size (p :: ps).

(** What is still to be read by the SSH code. *)
Inductive awaiting (size : nat) (c : st) : bytes -> Prop :=
| await_prefix b lines line ps k rest :
    skippable (keyword (obfuscator c)) b -> sr_offset (oc_reader c) = sr_end (oc_reader c) ->
    Forall (fun l => line_ok l /\ identifies l = false) lines -> line_ok line -> identifies line = true -> kex size ps ->
    reading c OBFUSCATION_READ_STATE_CLIENT_READ_PREFIX [] k (b ++ xored k (concat lines ++ line ++ concat ps) ++ rest) ->
    awaiting size c (line ++ concat ps ++ rest)
| await_lines lines line ps k rest :
    Forall (fun l => line_ok l /\ identifies l = false) lines -> line_ok line -> identifies line = true -> kex size ps ->
    reading c OBFUSCATION_READ_STATE_IDENTIFICATION_LINES [] k (xored k (concat lines ++ line ++ concat ps) ++ rest) ->
    awaiting size c (line ++ concat ps ++ rest)
| await_line buf ps k rest :
    buf <> [] -> kex size ps -> reading c OBFUSCATION_READ_STATE_IDENTIFICATION_LINES buf k (xored k (concat ps) ++ rest) ->
    awaiting size c (buf ++ concat ps ++ rest)
| await_packets buf ps k rest :
    kex size ps -> reading c OBFUSCATION_READ_STATE_KEX_PACKETS buf k (xored k (concat ps) ++ rest) ->
    awaiting size c (buf ++ concat ps ++ rest)
| await_flush k rest : reading c OBFUSCATION_READ_STATE_FLUSH [] k rest -> awaiting size c rest
| await_plain k rest : reading c OBFUSCATION_READ_STATE_FINISHED [] k rest -> awaiting size c rest.

(** Once a message is in the buffer, bytes of it are returned, and the state changes when it is
    empty. *)
Definition deliver (n : nat) (next : ObfuscatedSSHReadState) : io st bytes :=
  c ← io_get;
  let b := take n (readBuffer c) in
  let rest := drop n (readBuffer c) in
  _ ← io_modify (fun c => set_readBuffer c rest);
  _ ← (if bool_decide (rest = []) then io_modify (fun c => set_readState c next) else mret tt);
  mret b.

Lemma deliver_at n next c rs buf k s : reading c rs buf k s -> exists c', deliver n next c = (Ok (take n buf), c') /\
  reading c' (if bool_decide (drop n buf = []) then next else rs) (drop n buf) k s.
Proof.
  intros Hc. pose proof (reading_buffer _ _ _ _ _ Hc) as Hb. unfold deliver. case_bool_decide as Hd.
  - eexists. split.
    + erewrite io_bind_run by reflexivity. cbv zeta. rewrite Hb. erewrite io_bind_run by reflexivity. rewrite Hd, bool_decide_true by done.
      erewrite io_bind_run by reflexivity. reflexivity.
    + rewrite Hd. by destruct Hc.
  - eexists. split.
    + erewrite io_bind_run by reflexivity. cbv zeta. rewrite Hb. erewrite io_bind_run by reflexivity. rewrite bool_decide_false by done.
      erewrite io_bind_run by reflexivity. reflexivity.
    + by destruct Hc.
Qed.

Lemma Read_unfinished n c rs : readState c = rs -> rs <> OBFUSCATION_READ_STATE_FINISHED -> rs <> OBFUSCATION_READ_STATE_CLIENT_READ_PREFIX ->
  forall next c1 b c2, next_read c = (Ok next, c1) -> deliver n next c1 = (Ok b, c2) -> ossh_Read n c = (Ok (b, None), c2).
Proof.
  intros Hrs Hf Hp next c1 b c2 Hn Hd. unfold ossh_Read. rewrite bool_decide_false by congruence.
  unfold readAndTransform. erewrite io_bind_run; [reflexivity|]. erewrite io_bind_run by reflexivity. rewrite bool_decide_false by congruence.
  erewrite io_bind_run by reflexivity. erewrite io_bind_run by exact Hn. exact Hd.
Qed.
(** In the last state the connection is read. *)
Lemma read_plain n c k rest : (0 < n)%nat -> reading c OBFUSCATION_READ_STATE_FINISHED [] k rest ->
  exists b err c' rest', ossh_Read n c = (Ok (b, err), c') /\ reading c' OBFUSCATION_READ_STATE_FINISHED [] k rest' /\ rest = b ++ rest' /\
    (err <> None -> rest = []) /\ (err = None -> budget (oc_reader c') < budget (oc_reader c))%nat.
Proof.
  intros Hn [H1 H2 H3 H4 H5]. unfold ossh_Read. rewrite bool_decide_true by done. destruct (Read n (oc_reader c)) as [[b err] r] eqn:Hrd.
  destruct (Read_law _ _ _ _ _ Hn (proj1 H4) Hrd) as (_ & _ & Hs & Hm & _). destruct (quiet_Read _ _ _ _ _ Hn H4 Hrd) as [Hq He].
  eexists b, err, _, (stream r). split; [done|]. split; [done|]. split; [congruence|]. split; [|done]. intros Hx. rewrite <- H5. by apply He.
Qed.

(** A message that is in the buffer. *)
Lemma read_buffered n c rs buf k s : (0 < n)%nat -> buf <> [] -> reading c rs buf k s ->
  rs = OBFUSCATION_READ_STATE_IDENTIFICATION_LINES \/ rs = OBFUSCATION_READ_STATE_KEX_PACKETS ->
  exists c', ossh_Read n c = (Ok (take n buf, None), c') /\
    reading c' (if bool_decide (drop n buf = []) then OBFUSCATION_READ_STATE_KEX_PACKETS else rs) (drop n buf) k s.
Proof.
  intros Hn Hb Hc Hrs. destruct (deliver_at n OBFUSCATION_READ_STATE_KEX_PACKETS _ _ _ _ _ Hc) as (c' & E & Hc'). exists c'. split; [|done].
  eapply (Read_unfinished n c rs); [apply Hc|by destruct Hrs as [->| ->]..| |exact E].
  unfold next_read. erewrite io_bind_run by reflexivity. rewrite (reading_state _ _ _ _ _ Hc), (reading_buffer _ _ _ _ _ Hc).
  rewrite bool_decide_false by done. by destruct Hrs as [->| ->].
Qed.

Lemma read_lines n c lines line k s : Forall (fun l => line_ok l /\ identifies l = false) lines -> line_ok line -> identifies line = true ->
  reading c OBFUSCATION_READ_STATE_IDENTIFICATION_LINES [] k (xored k (concat lines ++ line) ++ s) ->
  exists c', ossh_Read n c = (Ok (take n line, None), c') /\
    reading c' (if bool_decide (drop n line = []) then OBFUSCATION_READ_STATE_KEX_PACKETS else OBFUSCATION_READ_STATE_IDENTIFICATION_LINES)
      (drop n line) (rc4_skip (length (concat lines ++ line)) k) s.
Proof.
  intros Hls Hl Hid Hc. assert (length lines <= length (concat lines))%nat as Hlen.
  { clear -Hls. induction Hls as [|x lines [[_ Hx] _] _ IH]; [done|]. cbn. rewrite length_app. lia. }
  destruct (identification_at (S (length (stream (oc_reader c)))) lines c OBFUSCATION_READ_STATE_IDENTIFICATION_LINES k line s Hls Hl Hid) with (2 := Hc) as (c1 & E1 & Hc1).
  { rewrite (reading_stream _ _ _ _ _ Hc), length_app, length_xored, length_app. lia. }
  destruct (deliver_at n OBFUSCATION_READ_STATE_KEX_PACKETS _ _ _ _ _ Hc1) as (c' & E & Hc'). exists c'. split; [|done].
  eapply (Read_unfinished n c); [apply Hc|done|done| |exact E].
  unfold next_read. erewrite io_bind_run by reflexivity. rewrite (reading_state _ _ _ _ _ Hc), (reading_buffer _ _ _ _ _ Hc).
  rewrite bool_decide_true by done. erewrite io_bind_run by exact E1. reflexivity.
Qed.

(** Reading the prefix of a server first. *)
Lemma read_after_prefix n (c c1 : st) r : readState c = OBFUSCATION_READ_STATE_CLIENT_READ_PREFIX -> read_prefix c = (Ok tt, c1) ->
  readState c1 = OBFUSCATION_READ_STATE_IDENTIFICATION_LINES -> ossh_Read n c1 = r -> ossh_Read n c = r.
Proof.
  intros Hc E H1 <-. unfold ossh_Read. rewrite !bool_decide_false by congruence.
  assert (readAndTransform n c = readAndTransform n c1) as Hr; [|unfold mbind, io_mbind; by rewrite Hr].
  unfold readAndTransform, mbind, io_mbind, io_get. cbv beta iota. rewrite bool_decide_true, E by done. by rewrite (bool_decide_false (readState c1 = _)) by congruence.
Qed.

Lemma read_packet n c p k s : is_packet SSH_MAX_PACKET_LENGTH p -> reading c OBFUSCATION_READ_STATE_KEX_PACKETS [] k (xored k p ++ s) ->
  exists c', ossh_Read n c = (Ok (take n p, None), c') /\
    reading c' (if bool_decide (drop n p = []) && newkeys_packet p then OBFUSCATION_READ_STATE_FLUSH else OBFUSCATION_READ_STATE_KEX_PACKETS)
      (drop n p) (rc4_skip (length p) k) s.
Proof.
  intros Hp Hc. destruct (packet_at _ _ _ _ _ Hp Hc) as (c1 & E1 & Hc1).
  set (next := if newkeys_packet p then OBFUSCATION_READ_STATE_FLUSH else OBFUSCATION_READ_STATE_KEX_PACKETS).
  destruct (deliver_at n next _ _ _ _ _ Hc1) as (c' & E & Hc'). exists c'. split; [|by destruct (bool_decide (drop n p = []))].
  eapply (Read_unfinished n c); [apply Hc|done|done| |exact E].
  unfold next_read. erewrite io_bind_run by reflexivity. rewrite (reading_state _ _ _ _ _ Hc), (reading_buffer _ _ _ _ _ Hc).
  rewrite bool_decide_true by done. erewrite io_bind_run by exact E1. reflexivity.
Qed.

Lemma read_flush n c k s : reading c OBFUSCATION_READ_STATE_FLUSH [] k s ->
  exists c', ossh_Read n c = (Ok ([], None), c') /\ reading c' OBFUSCATION_READ_STATE_FINISHED [] k s.
Proof.
  intros Hc. destruct (deliver_at n OBFUSCATION_READ_STATE_FINISHED _ _ _ _ _ Hc) as (c' & E & Hc'). rewrite drop_nil, take_nil in *.
  exists c'. split; [|by rewrite bool_decide_true in Hc' by done].
  eapply (Read_unfinished n c); [apply Hc|done|done| |exact E].
  unfold next_read. erewrite io_bind_run by reflexivity. by rewrite (reading_state _ _ _ _ _ Hc).
Qed.

(** Before the last states, every read returns some bytes of what is awaited. *)
Definition obfuscated (c : st) : Prop := readState c <> OBFUSCATION_READ_STATE_FLUSH /\ readState c <> OBFUSCATION_READ_STATE_FINISHED.

Lemma take_nonempty n (b : bytes) : (0 < n)%nat -> b <> [] -> take n b <> [].
Proof. destruct n; [lia|]. by destruct b. Qed.

Lemma split_app n (b s : bytes) : b ++ s = take n b ++ drop n b ++ s.
Proof. by rewrite app_assoc, take_drop. Qed.

(** The rest of a message, or the next one. *)
Lemma await_rest size c rs buf ps k rest : kex size ps ->
  reading c (if bool_decide (buf = []) then OBFUSCATION_READ_STATE_KEX_PACKETS else rs) buf k (xored k (concat ps) ++ rest) ->
  rs = OBFUSCATION_READ_STATE_IDENTIFICATION_LINES \/ rs = OBFUSCATION_READ_STATE_KEX_PACKETS -> awaiting size c (buf ++ concat ps ++ rest).
Proof. intros Hk Hc [->| ->]; case_bool_decide; [by eapply await_packets|by eapply await_line|by eapply await_packets..]. Qed.

Lemma await_read_lines size n c lines line ps k rest : (0 < n)%nat ->
  Forall (fun l => line_ok l /\ identifies l = false) lines -> line_ok line -> identifies line = true -> kex size ps ->
  reading c OBFUSCATION_READ_STATE_IDENTIFICATION_LINES [] k (xored k (concat lines ++ line ++ concat ps) ++ rest) ->
  exists b c' todo, ossh_Read n c = (Ok (b, None), c') /\ awaiting size c' todo /\ line ++ concat ps ++ rest = b ++ todo /\ b <> [].
Proof.
  intros Hn Hls Hl Hid Hk Hc. rewrite app_assoc, xored_app, <- app_assoc in Hc. destruct (read_lines n _ _ _ _ _ Hls Hl Hid Hc) as (c' & E & Hc').
  eexists _, _, _. split; [exact E|]. split; [eapply await_rest; [exact Hk|exact Hc'|by left]|]. split; [apply split_app|].
  apply take_nonempty; [done|]. intros ->. apply line_short in Hl. cbn in Hl. lia.
Qed.

Lemma await_obfuscated size n c todo : awaiting size c todo -> obfuscated c -> (0 < n)%nat -> (size <= n)%nat ->
  exists b c' todo', ossh_Read n c = (Ok (b, None), c') /\ awaiting size c' todo' /\ todo = b ++ todo' /\ b <> [].
Proof.
  intros Ha [Ho1 Ho2] Hn Hsz. destruct Ha as [b lines line ps k rest Hsk Hof Hls Hl Hid Hk Hc|lines line ps k rest Hls Hl Hid Hk Hc|buf ps k rest Hb Hk Hc|buf ps k rest Hk Hc|k rest Hc|k rest Hc].
  - destruct (read_prefix_at _ _ _ _ Hc Hof Hsk) as (c1 & E1 & Hc1). destruct (await_read_lines size n _ _ _ _ _ _ Hn Hls Hl Hid Hk Hc1) as (b' & c' & todo & E & Ha).
    exists b', c', todo. split; [|done]. eapply read_after_prefix; [apply Hc|exact E1|apply Hc1|exact E].
  - by apply (await_read_lines size n c lines line ps k rest).
  - destruct (read_buffered n _ _ _ _ _ Hn Hb Hc) as (c' & E & Hc'); [by left|]. eexists _, _, _. split; [exact E|].
    split; [eapply await_rest; [exact Hk|exact Hc'|by left]|]. split; [apply split_app|by apply take_nonempty].
  - destruct (decide (buf = [])) as [->|Hb].
    + destruct Hk as [p Hp Hnk Hlen|p ps Hp Hnk Hk].
      * cbn [concat] in Hc |- *. rewrite app_nil_r in *. destruct (read_packet n _ _ _ _ Hp Hc) as (c' & E & Hc').
        rewrite drop_ge, Hnk in Hc' by lia. rewrite take_ge in E by lia. eexists _, _, _. split; [exact E|].
        split; [eapply await_flush; exact Hc'|]. split; [done|]. intros ->. apply packet_nonempty in Hp. cbn in Hp. lia.
      * cbn [concat] in Hc |- *. rewrite xored_app, <- app_assoc in Hc. destruct (read_packet n _ _ _ _ Hp Hc) as (c' & E & Hc').
        rewrite Hnk, andb_false_r in Hc'. eexists _, _, _. split; [exact E|]. split; [eapply await_packets; [exact Hk|exact Hc']|].
        split; [rewrite app_nil_l, <- app_assoc; apply split_app|].
        apply take_nonempty; [done|]. intros ->. apply packet_nonempty in Hp. cbn in Hp. lia.
    + destruct (read_buffered n _ _ _ _ _ Hn Hb Hc) as (c' & E & Hc'); [by right|]. eexists _, _, _. split; [exact E|].
      split; [eapply await_rest; [exact Hk|exact Hc'|by right]|]. split; [apply split_app|by apply take_nonempty].
  - by destruct Hc.
  - by destruct Hc.
Qed.
(** *** Reading to the end *)

(** Reads of [n] bytes until there is an error. *)
Fixpoint read_all (fuel n : nat) : io st (bytes * string) :=
  match fuel with
  | O => io_lift NoFuel
  | S fuel =>
      '(b, err) ← ossh_Read n;
      match err with
      | Some e => mret (b, e)
      | None => '(bs, e) ← read_all fuel n; mret (b ++ bs, e)
      end
  end.

(** With enough fuel all that is awaited is read. *)
Definition drains (n : nat) (c : st) (todo : bytes) : Prop :=
  exists m, forall fuel, (m <= fuel)%nat -> exists e c', read_all fuel n c = (Ok (todo, e), c').

Lemma drains_more n c b c' todo : ossh_Read n c = (Ok (b, None), c') -> drains n c' todo -> drains n c (b ++ todo).
Proof.
  intros E (m & Hm). exists (S m). intros [|fuel] Hf; [lia|]. destruct (Hm fuel ltac:(lia)) as (e & c'' & E'). exists e, c''.
  cbn [read_all]. erewrite io_bind_run by exact E. cbv beta iota. erewrite io_bind_run by exact E'. done.
Qed.

Lemma drains_plain n m : (0 < n)%nat -> forall c k rest, (budget (oc_reader c) < m)%nat -> reading c OBFUSCATION_READ_STATE_FINISHED [] k rest -> drains n c rest.
Proof.
  intros Hn. induction m as [|m IH]; intros c k rest Hm Hc; [lia|]. destruct (read_plain n _ _ _ Hn Hc) as (b & err & c' & rest' & E & Hc' & Hs & He & Hb).
  destruct err as [e|].
  - exists 1%nat. intros [|fuel] Hf; [lia|]. exists e, c'. cbn [read_all]. erewrite io_bind_run by exact E. rewrite He in Hs |- * by done.
    by destruct b.
  - rewrite Hs. eapply drains_more; [exact E|]. eapply IH; [|exact Hc']. specialize (Hb eq_refl). lia.
Qed.

Lemma drains_flush n c k rest : (0 < n)%nat -> reading c OBFUSCATION_READ_STATE_FLUSH [] k rest -> drains n c rest.
Proof.
  intros Hn Hc. destruct (read_flush n _ _ _ Hc) as (c' & E & Hc'). change rest with ([] ++ rest). eapply drains_more; [exact E|].
  eapply (drains_plain n (S (budget (oc_reader c')))); [done|lia|exact Hc'].
Qed.

Lemma awaited_drains size n : (0 < n)%nat -> (size <= n)%nat -> forall m c todo, (length todo < m)%nat -> awaiting size c todo -> drains n c todo.
Proof.
  intros Hn Hs. induction m as [|m IH]; intros c todo Hm Ha; [lia|].
  destruct (decide (readState c = OBFUSCATION_READ_STATE_FLUSH)) as [Hf|Hf]; [|destruct (decide (readState c = OBFUSCATION_READ_STATE_FINISHED)) as [Hp|Hp]].
  - destruct Ha; match goal with Hc : reading _ _ _ _ _ |- _ => pose proof (reading_state _ _ _ _ _ Hc) end; try congruence. by eapply drains_flush.
  - destruct Ha; match goal with Hc : reading _ _ _ _ _ |- _ => pose proof (reading_state _ _ _ _ _ Hc) end; try congruence.
    eapply (drains_plain n (S (budget (oc_reader c)))); [done|lia|done].
  - destruct (await_obfuscated size n c todo Ha) as (b & c' & todo' & E & Ha' & -> & Hb); [done|done|done|]. eapply drains_more; [exact E|].
    apply IH; [|done]. rewrite length_app in Hm. destruct b; [done|]. cbn [length] in Hm. lia.
Qed.

(** The whole of what is awaited is read. *)
Lemma awaited_read size n c todo : (0 < n)%nat -> (size <= n)%nat -> awaiting size c todo -> drains n c todo.
Proof. intros Hn Hs. by apply (awaited_drains size n Hn Hs (S (length todo))); lia. Qed.
End Reading.

(** ** Writing *)

Section Writing.
Context {U : Type} `{!UnderlyingConn U} `{Digests}.
Abbreviation st := (ObfuscatedSSHConn U).

(** Packets up to the first SSH_MSG_NEWKEYS. *)
Definition until_newkeys (ps : list bytes) : Prop := exists qs q, ps = qs ++ [q] /\ existsb newkeys_packet qs = false /\ newkeys_packet q = true.

(** Where the writing end is: what was sent before, the lines of padding after it, and the
    line, the packets and the rest that the SSH code writes, with the writes still to come.
    A write ends with the line, and one with the last of the packets. *)
Section Phase.
Context (before : bytes) (k : rc4) (pre line : bytes) (ps : list bytes) (rest : bytes).

Inductive phase (c : st) : list bytes -> Prop :=
| phase_line r0 r1 r2 : wrote c before k pre [] [] -> writeState c = OBFUSCATION_WRITE_STATE_IDENTIFICATION_LINE ->
    bytes_Index (writeBuffer c) CRLF = None -> writeBuffer c ++ concat r0 = line -> concat r1 = concat ps -> concat r2 = rest ->
    phase c (r0 ++ r1 ++ r2)
| phase_packets r1 r2 qs qs' : wrote c before k (pre ++ line ++ concat qs') [] [] -> writeState c = OBFUSCATION_WRITE_STATE_KEX_PACKETS ->
    Forall2 repadded qs qs' -> existsb newkeys_packet qs = false -> incomplete (writeBuffer c) ->
    concat qs ++ writeBuffer c ++ concat r1 = concat ps -> concat r2 = rest -> phase c (r1 ++ r2)
| phase_plain r2 t ps' : wrote c before k (pre ++ line ++ concat ps') t [] -> writeState c = OBFUSCATION_WRITE_STATE_FINISHED ->
    Forall2 repadded ps ps' -> t ++ concat r2 = rest -> phase c r2.

Hypothesis Hline : is_line line.
Hypothesis Hpackets : Forall (is_packet SSH_MAX_PACKET_LENGTH) ps.
Hypothesis Hnewkeys : until_newkeys ps.

Lemma repadded_packet p p' : repadded p p' -> is_packet SSH_MAX_PACKET_LENGTH p.
Proof. intros (l & n & body & extra & Hp & _). by exists l, n, body. Qed.

Lemma repadded_packets qs qs' : Forall2 repadded qs qs' -> Forall (is_packet SSH_MAX_PACKET_LENGTH) qs.
Proof. induction 1; constructor; [by eapply repadded_packet|done]. Qed.

(** The packets written so far are the first ones. *)
Lemma first_packets qs w : Forall (is_packet SSH_MAX_PACKET_LENGTH) qs -> concat qs ++ w = concat ps -> exists rs, ps = qs ++ rs /\ w = concat rs.
Proof. intros Hq E. by apply packets_unique. Qed.

Lemma newkeys_last qs rs : ps = qs ++ rs -> (existsb newkeys_packet qs = true -> rs = []) /\ (existsb newkeys_packet qs = false -> rs <> []).
Proof.
  destruct Hnewkeys as (qs0 & q & -> & Hf & Ht). intros E. destruct rs as [|r rs _] using rev_ind.
  - split; [done|]. intros Hq. rewrite app_nil_r in E. rewrite <- E, existsb_app in Hq. cbn in Hq. by rewrite Ht, orb_true_r in Hq.
  - rewrite app_assoc in E. apply app_inj_tail in E as [-> ->]. rewrite existsb_app in Hf. apply orb_false_iff in Hf as [Hf _].
    split; [congruence|]. intros _. by destruct rs.
Qed.

Lemma Write_obfuscating draws i b (c c' : st) n : writeState c <> OBFUSCATION_WRITE_STATE_FINISHED -> ossh_Write draws i b c = (Ok n, c') ->
  exists c1, send_first draws i c = (Ok tt, c1) /\
    (_ ← io_modify (fun c => set_buffers c (writeBuffer c ++ b) (transformBuffer c)); _ ← extract_messages draws; _ ← send_transformed; send_rest) c1 = (Ok tt, c').
Proof.
  intros Hs Hrun. unfold ossh_Write in Hrun. rewrite bool_decide_false in Hrun by done. apply io_bind_ok in Hrun as ([] & c2 & Hrun & [= _ <-]).
  apply io_bind_ok in Hrun as ([] & c1 & Hf & Hrun). by exists c1.
Qed.

Lemma Write_plain draws i b (c c' : st) n : writeState c = OBFUSCATION_WRITE_STATE_FINISHED -> ossh_Write draws i b c = (Ok n, c') ->
  exists u, c' = set_net c u /\ sent_bytes c' = sent_bytes c ++ b.
Proof.
  intros Hs Hrun. apply (net_write_ok c b tt c'). unfold ossh_Write, net_write in *. rewrite bool_decide_true in Hrun by done.
  destruct (conn_Write b (oc_net c)) as [[m [e|]] u]; [done|]. injection Hrun as _ <-. done.
Qed.

(** The last packet is still to come. *)
Lemma packets_left qs qs' w : Forall2 repadded qs qs' -> existsb newkeys_packet qs = false -> incomplete w -> concat qs ++ w = concat ps -> False.
Proof.
  intros Hq Hnk Hinc E. destruct (first_packets qs w (repadded_packets _ _ Hq) E) as (rs & Hrs & Hwb).
  apply newkeys_last in Hrs as Hrs'. destruct rs as [|p rs]; [by apply Hrs'|]. apply (Hinc p (concat rs)); [|done].
  rewrite Hrs in Hpackets. rewrite Forall_app, list.Forall_cons in Hpackets. apply Hpackets.
Qed.

Lemma line_left buf : bytes_Index buf CRLF = None -> buf <> line.
Proof. intros Hidx ->. unfold is_line in Hline. congruence. Qed.

Lemma Write_again draws i b (c c' : st) n : writeState c = OBFUSCATION_WRITE_STATE_IDENTIFICATION_LINE \/ writeState c = OBFUSCATION_WRITE_STATE_KEX_PACKETS ->
  ossh_Write draws i b c = (Ok n, c') ->
  (_ ← io_modify (fun c => set_buffers c (writeBuffer c ++ b) (transformBuffer c)); _ ← extract_messages draws; _ ← send_transformed; send_rest) c = (Ok tt, c').
Proof.
  intros Hst Hrun. apply Write_obfuscating in Hrun as (c1 & Hf & Hrun); [|by destruct Hst as [->| ->]]. unfold send_first in Hf.
  apply io_bind_ok in Hf as (c0 & c2 & [= <- <-] & Hf). by destruct Hst as [Hst|Hst]; rewrite Hst in Hf; injection Hf as <-.
Qed.

Lemma phase_step_line draws i b r0 r1 r2 (c c' : st) n : wrote c before k pre [] [] -> writeState c = OBFUSCATION_WRITE_STATE_IDENTIFICATION_LINE ->
  writeBuffer c ++ b ++ concat r0 = line -> concat r1 = concat ps -> concat r2 = rest ->
  ossh_Write draws i b c = (Ok n, c') -> phase c' (r0 ++ r1 ++ r2).
Proof.
  intros Hw Hst Hr0 Hr1 Hr2 Hrun. apply Write_again in Hrun; [|by left]. pose proof (write_line _ _ _ _ _ _ _ _ Hw Hst Hrun) as Hres.
  rewrite app_assoc in Hr0. destruct (bytes_Index (writeBuffer c ++ b) CRLF) as [j|] eqn:Hj; cycle 1.
  { destruct Hres as (Hw' & Hst' & Hwb'). apply phase_line; [done|done|by rewrite Hwb'|by rewrite Hwb'|done|done]. }
  pose proof (Index_extend _ (concat r0) CRLF j ltac:(done) Hj) as Hj'. rewrite Hr0, Hline in Hj'. injection Hj' as <-.
  apply Index_some in Hj as [Ho _]. pose proof (occurs_bound _ CRLF _ ltac:(done) Ho) as Hb. change (length CRLF) with 2%nat in Hb.
  assert (concat r0 = []) as Hr0'.
  { apply nil_length_inv. apply (f_equal length) in Hr0. rewrite length_app in Hr0. pose proof Hline as [Hol _]%Index_some.
    pose proof (occurs_bound _ CRLF _ ltac:(done) Hol) as Hbl. change (length CRLF) with 2%nat in Hbl. lia. }
  rewrite Hr0', app_nil_r in Hr0. rewrite Hr0 in Hres. rewrite take_ge, drop_ge in Hres by lia. destruct Hres as (Hw' & Hst' & Hwb').
  rewrite app_assoc. apply (phase_packets _ _ _ [] []); [|done|done|done| | |done].
  - cbn [concat]. by rewrite app_nil_r.
  - rewrite Hwb'. intros p rst Hp E. apply packet_nonempty in Hp. apply (f_equal length) in E. rewrite length_app in E. cbn in E. lia.
  - by rewrite Hwb', concat_app, Hr0', Hr1.
Qed.

Lemma phase_step_packets draws i b r1 r2 qs qs' (c c' : st) n :
  wrote c before k (pre ++ line ++ concat qs') [] [] -> writeState c = OBFUSCATION_WRITE_STATE_KEX_PACKETS ->
  Forall2 repadded qs qs' -> existsb newkeys_packet qs = false -> concat qs ++ writeBuffer c ++ b ++ concat r1 = concat ps -> concat r2 = rest ->
  ossh_Write draws i b c = (Ok n, c') -> phase c' (r1 ++ r2).
Proof.
  intros Hw Hst Hq Hnk Hr1 Hr2 Hrun. apply Write_again in Hrun; [|by right].
  destruct (write_packets _ _ _ _ _ _ _ _ Hw Hst Hrun) as (ps1 & ps1' & w & Hbuf & Hps1 & Hinc & Hres).
  rewrite (app_assoc (writeBuffer c)), Hbuf, <- app_assoc, app_assoc, <- concat_app in Hr1. destruct (existsb newkeys_packet ps1) eqn:Hnk1.
  - destruct (first_packets (qs ++ ps1) (w ++ concat r1)) as (rs & Hrs & Hwb); [apply Forall_app; split; by eapply repadded_packets|done|].
    pose proof (newkeys_last _ _ Hrs) as [Hl _]. rewrite existsb_app, Hnk1, orb_true_r in Hl. rewrite (Hl eq_refl) in Hrs, Hwb.
    apply app_eq_nil in Hwb as [-> Hr1']. rewrite app_nil_r in Hrs. destruct Hres as [Hw' Hst'].
    apply (phase_plain _ _ [] (qs' ++ ps1')); [|done| |by cbn; rewrite concat_app, Hr1'].
    + rewrite concat_app. by rewrite <- !app_assoc in Hw'.
    + rewrite Hrs. by apply Forall2_app.
  - destruct Hres as (Hw' & Hst' & Hwb'). apply (phase_packets _ _ _ (qs ++ ps1) (qs' ++ ps1')); [|done|by apply Forall2_app| |by rewrite Hwb'| |done].
    + rewrite concat_app. by rewrite <- !app_assoc in Hw'.
    + by rewrite existsb_app, Hnk.
    + by rewrite Hwb'.
Qed.

Lemma phase_step draws i b bs (c c' : st) n : phase c (b :: bs) -> ossh_Write draws i b c = (Ok n, c') -> phase c' bs.
Proof.
  intros Hph Hrun. inversion Hph as [r0 r1 r2 Hw Hst Hidx Hr0 Hr1 Hr2 E|r1 r2 qs qs' Hw Hst Hq Hnk Hinc Hr1 Hr2 E|r2 t ps' Hw Hst Hps Hr2 E].
  - destruct r0 as [|b0 r0]; [by apply line_left in Hidx; cbn in Hr0; rewrite app_nil_r in Hr0|]. injection E as -> <-.
    by eapply phase_step_line.
  - destruct r1 as [|b1 r1]; [exfalso; cbn in Hr1; rewrite app_nil_r in Hr1; by eapply packets_left|]. injection E as -> <-.
    by eapply phase_step_packets.
  - apply Write_plain in Hrun as (u & -> & Hs); [|done]. destruct Hw as [H1 H2 H3 H4]. apply (phase_plain _ _ (t ++ b) ps'); [|done|done|].
    + split; [by rewrite Hs, H1, <- !app_assoc|done|done|done].
    + rewrite <- app_assoc. exact Hr2.
Qed.

(** When the writes are done, all is sent. *)
Lemma phase_end (c : st) : phase c [] -> exists ps', wrote c before k (pre ++ line ++ concat ps') rest [] /\ Forall2 repadded ps ps'.
Proof.
  intros Hph. inversion Hph as [r0 r1 r2 Hw Hst Hidx Hr0 Hr1 Hr2 E|r1 r2 qs qs' Hw Hst Hq Hnk Hinc Hr1 Hr2 E|r2 t ps' Hw Hst Hps Hr2 E].
  - apply app_eq_nil in E as [-> _]. apply line_left in Hidx. cbn in Hr0. by rewrite app_nil_r in Hr0.
  - apply app_eq_nil in E as [-> _]. exfalso. cbn in Hr1. rewrite app_nil_r in Hr1. by eapply packets_left.
  - exists ps'. cbn in Hr2. rewrite app_nil_r in Hr2. by rewrite <- Hr2.
Qed.
End Phase.
End Writing.

(** ** Sessions *)

(** The reads and writes of the SSH code on a connection, in their order. *)
Inductive op := OpRead (n : nat) | OpWrite (b : bytes).

Definition writes_of (ops : list op) : list bytes := omap (fun o => match o with OpWrite b => Some b | _ => None end) ops.
Definition reads_of (ops : list op) : list nat := omap (fun o => match o with OpRead n => Some n | _ => None end) ops.

Section Session.
Context {U : Type} `{!UnderlyingConn U} `{Digests}.
Abbreviation st := (ObfuscatedSSHConn U).

(** The operations of an end; the bytes it has read. *)
Fixpoint run_ops (draws : nat) (interrupted : bool) (ops : list op) : io st bytes :=
  match ops with
  | [] => mret []
  | OpRead n :: ops => '(b, _) ← ossh_Read n; bs ← run_ops draws interrupted ops; mret (b ++ bs)
  | OpWrite b :: ops => _ ← ossh_Write draws interrupted b; run_ops draws interrupted ops
  end.

(** *** The writing end *)

(** Before the first write. *)
Record unopened (c : st) (ws : ObfuscatedSSHWriteState) (before : bytes) (k : rc4) (msg : option bytes) : Prop := {
  unopened_state : writeState c = ws;
  unopened_sent : sent_bytes c = before;
  unopened_cipher : write_cipher c = k;
  unopened_preamble : preamble (obfuscator c) = msg;
  unopened_transform : transformBuffer c = [];
  unopened_buffer : writeBuffer c = [];
  unopened_prng : prng_ok (oc_paddingPRNG c)
}.

(** The lines that a server writes first. *)
Definition padding_lines (pre : bytes) : Prop := exists ns, pre = concat (map padding_line ns) /\ Forall (fun n => 2 <= n <= 512)%nat ns.

Definition opens (ws : ObfuscatedSSHWriteState) (msg : option bytes) : Prop :=
  match ws with
  | OBFUSCATION_WRITE_STATE_CLIENT_SEND_PREAMBLE => is_Some msg
  | OBFUSCATION_WRITE_STATE_SERVER_SEND_PREFIX_AND_IDENTIFICATION_LINE_PADDING => True
  | _ => False
  end.

Lemma unopened_view (c c' : st) ws before k msg : write_view c' = write_view c -> unopened c ws before k msg -> unopened c' ws before k msg.
Proof. unfold write_view. intros E [H1 H2 H3 H4 H5 H6 H7]. injection E as E1 E2 E3 E4 E5 E6 E7 E8 E9 E10. split; try congruence. unfold sent_bytes in *. congruence. Qed.

Lemma wrote_view (c c' : st) before k text tail pending : write_view c' = write_view c -> wrote c before k text tail pending -> wrote c' before k text tail pending.
Proof. unfold write_view. intros E [H1 H2 H3 H4]. injection E as E1 E2 E3 E4 E5 E6 E7 E8 E9 E10. split; try congruence. unfold sent_bytes in *. congruence. Qed.

Lemma phase_view before k pre line ps rest (c c' : st) bs : write_view c' = write_view c -> phase before k pre line ps rest c bs -> phase before k pre line ps rest c' bs.
Proof.
  intros E Hph. pose proof E as E'. unfold write_view in E'. injection E' as E1 E2 E3 E4 E5 E6 E7 E8 E9 E10.
  destruct Hph as [r0 r1 r2 Hw|r1 r2 qs qs' Hw|r2 t ps' Hw].
  - apply phase_line; try congruence. by eapply wrote_view.
  - apply (phase_packets _ _ _ _ _ _ _ _ _ qs qs'); first [by eapply wrote_view|done|congruence|by rewrite E8].
  - eapply (phase_plain _ _ _ _ _ _ _ _ t ps'); first [by eapply wrote_view|done|congruence].
Qed.

Lemma opening draws i b r0 r1 r2 (c c' : st) n ws before k msg line ps rest : unopened c ws before k msg -> opens ws msg ->
  is_line line -> b ++ concat r0 = line -> concat r1 = concat ps -> concat r2 = rest -> ossh_Write draws i b c = (Ok n, c') ->
  exists pre, padding_lines pre /\ phase (before ++ default [] msg) k pre line ps rest c' (r0 ++ r1 ++ r2).
Proof.
  intros [H1 H2 H3 H4 H5 H6 H7] Ho Hl Hr0 Hr1 Hr2 Hrun.
  apply Write_obfuscating in Hrun as (c1 & Hf & Hrun); [|rewrite H1; intros ->; exact Ho].
  assert (exists pre, padding_lines pre /\ wrote c1 (before ++ default [] msg) k pre [] [] /\ writeState c1 = OBFUSCATION_WRITE_STATE_IDENTIFICATION_LINE /\
    writeBuffer c1 = []) as (pre & Hpre & Hw & Hst & Hwb).
  { subst before k. destruct ws; try done.
    - destruct Ho as [m ->]. destruct (client_first _ _ _ _ _ m H1 H4 H5 H7 Hf) as (Hw & Hst & Hwb). exists []. split; [by exists []|].
      rewrite Hwb. done.
    - destruct (server_first _ _ _ _ _ H1 H5 H7 Hf) as (ns & Hns & _ & Hw & Hst & Hwb). eexists. split; [by exists ns|]. rewrite H4 in Hw. by rewrite Hwb. }
  exists pre. split; [done|]. eapply (phase_step_line _ _ _ _ _ _ Hl draws i b r0 r1 r2 c1 c' (length b)); [done|done|by rewrite Hwb|done|done|].
  unfold ossh_Write. rewrite bool_decide_false by (by rewrite Hst). erewrite io_bind_run; [reflexivity|].
  unfold transformAndWrite. erewrite io_bind_run; [exact Hrun|]. unfold send_first. erewrite io_bind_run by reflexivity. by rewrite Hst.
Qed.

Lemma ops_phase draws i before k pre line ps rest ops : is_line line -> Forall (is_packet SSH_MAX_PACKET_LENGTH) ps -> until_newkeys ps ->
  forall (c c' : st) got, phase before k pre line ps rest c (writes_of ops) -> run_ops draws i ops c = (Ok got, c') -> phase before k pre line ps rest c' [].
Proof.
  intros Hl Hp Hn. induction ops as [|[n|b] ops IH]; intros c c' got Hph Hrun; cbn [run_ops writes_of omap list_omap] in *.
  - by injection Hrun as _ <-.
  - apply io_bind_ok in Hrun as ([b e] & c1 & Hrd & Hrun). apply io_bind_ok in Hrun as (bs & c2 & Hrun & [= _ <-]).
    eapply IH; [|exact Hrun]. eapply phase_view; [|exact Hph]. pose proof (ossh_Read_keeps n c) as Hk. by rewrite Hrd in Hk.
  - apply io_bind_ok in Hrun as (n & c1 & Hw & Hrun). eapply IH; [|exact Hrun]. by eapply phase_step.
Qed.

(** Once all is written: the preamble, and in the stream of the cipher the lines of padding,
    the identification line and the packets, and the rest as it is. *)
Lemma run_writes draws i r0 r1 r2 ws before k msg line ps rest ops : is_line line -> Forall (is_packet SSH_MAX_PACKET_LENGTH) ps -> until_newkeys ps ->
  opens ws msg -> concat r0 = line -> concat r1 = concat ps -> concat r2 = rest ->
  forall (c c' : st) got, unopened c ws before k msg -> writes_of ops = r0 ++ r1 ++ r2 -> run_ops draws i ops c = (Ok got, c') ->
  exists pre ps', padding_lines pre /\ Forall2 repadded ps ps' /\
    sent_bytes c' = before ++ default [] msg ++ xored k (pre ++ line ++ concat ps') ++ rest.
Proof.
  intros Hl Hp Hn Ho Hr0 Hr1 Hr2. destruct r0 as [|b r0].
  { exfalso. cbn in Hr0. subst line. unfold is_line in Hl. by cbn in Hl. }
  induction ops as [|[n|b'] ops IH]; intros c c' got Hc Hw Hrun; cbn [run_ops writes_of omap list_omap] in *; [done|..].
  - apply io_bind_ok in Hrun as ([bb e] & c1 & Hrd & Hrun). apply io_bind_ok in Hrun as (bs & c2 & Hrun & [= _ <-]).
    eapply IH; [|exact Hw|exact Hrun]. eapply unopened_view; [|exact Hc]. pose proof (ossh_Read_keeps n c) as Hk. by rewrite Hrd in Hk.
  - injection Hw as -> Hw. apply io_bind_ok in Hrun as (n & c1 & Hw1 & Hrun).
    destruct (opening _ _ _ r0 r1 r2 _ _ _ _ _ _ _ _ _ _ Hc Ho Hl Hr0 Hr1 Hr2 Hw1) as (pre & Hpre & Hph).
    assert (phase (before ++ default [] msg) k pre line ps rest c' []) as Hend by (eapply ops_phase; [done|done|done| |exact Hrun]; unfold writes_of; by rewrite Hw).
    apply phase_end in Hend as (ps' & [Hs _ _ _] & Hps); [|done|done|done]. exists pre, ps'. split; [done|]. split; [done|]. by rewrite Hs, <- app_assoc.
Qed.

(** *** The reading end *)

Lemma awaiting_view size (c c' : st) todo : read_view c' = read_view c -> awaiting size c todo -> awaiting size c' todo.
Proof.
  intros E Ha. unfold read_view in E. injection E as E1 E2 E3 E4 E5 E6.
  assert (forall rs buf k s, reading c rs buf k s -> reading c' rs buf k s) as Hr by (intros rs buf k s []; split; congruence).
  destruct Ha; [eapply await_prefix; by rewrite ?E4, ?E1; eauto|eapply await_lines; by eauto|eapply await_line; by eauto|eapply await_packets; by eauto|
    eapply await_flush; by eauto|eapply await_plain; by eauto].
Qed.

Lemma await_step size n (c : st) todo : (0 < n)%nat -> (size <= n)%nat -> awaiting size c todo ->
  exists b err c' todo', ossh_Read n c = (Ok (b, err), c') /\ awaiting size c' todo' /\ todo = b ++ todo'.
Proof.
  intros Hn Hs Ha. destruct (decide (obfuscated c)) as [Ho|Ho].
  - destruct (await_obfuscated size n c todo Ha Ho Hn Hs) as (b & c' & todo' & E & Ha' & Ht & _). by exists b, None, c', todo'.
  - destruct Ha; match goal with Hc : reading _ _ _ _ _ |- _ => pose proof (reading_state _ _ _ _ _ Hc) as Hrs; unfold obfuscated in Ho; rewrite Hrs in Ho end;
      try (by contradict Ho).
    + destruct (read_flush n _ _ _ H0) as (c' & E & Hc'). exists [], None, c', rest. split; [done|]. split; [by eapply await_plain|done].
    + destruct (read_plain n _ _ _ Hn H0) as (b & err & c' & rest' & E & Hc' & Hr & _). exists b, err, c', rest'. split; [done|]. split; [by eapply await_plain|done].
Qed.

(** The bytes read are the first of those awaited. *)
Lemma run_reads draws i size ops : Forall (fun n => 0 < n /\ size <= n)%nat (reads_of ops) ->
  forall (c c' : st) todo got, awaiting size c todo -> run_ops draws i ops c = (Ok got, c') -> exists todo', todo = got ++ todo' /\ awaiting size c' todo'.
Proof.
  induction ops as [|[n|b] ops IH]; intros Hsz c c' todo got Ha Hrun; cbn [run_ops reads_of omap list_omap] in *.
  - injection Hrun as <- <-. by exists todo.
  - apply list.Forall_cons in Hsz as [[Hn Hs] Hsz]. apply io_bind_ok in Hrun as ([b e] & c1 & Hrd & Hrun). apply io_bind_ok in Hrun as (bs & c2 & Hrun & [= <- <-]).
    destruct (await_step size n c todo Hn Hs Ha) as (b' & err & c1' & todo' & E & Ha' & ->). rewrite E in Hrd. injection Hrd as -> -> ->.
    destruct (IH Hsz _ _ _ _ Ha' Hrun) as (todo'' & -> & Ha''). exists todo''. by rewrite app_assoc.
  - apply io_bind_ok in Hrun as (n & c1 & Hw & Hrun). eapply (IH Hsz); [|exact Hrun]. eapply awaiting_view; [|exact Ha].
    pose proof (ossh_Write_keeps draws i b c) as Hk. by rewrite Hw in Hk.
Qed.
End Session.

(** ** Both ends *)

(** What the SSH code of one end does: it writes an identification line, packets up to
    SSH_MSG_NEWKEYS and the rest, ending a write with the line and one with the last packet,
    and it reads.  The packets have room for the padding that is added. *)
Record script := { s_line : bytes; s_packets : list bytes; s_rest : bytes; s_ops : list op }.

Record script_ok (s : script) : Prop := {
  script_line : line_ok (s_line s);
  script_identifies : identifies (s_line s) = true;
  script_packets : Forall (is_packet (SSH_MAX_PACKET_LENGTH - SSH_MAX_PADDING_LENGTH)) (s_packets s);
  script_newkeys : until_newkeys (s_packets s);
  script_writes : exists r0 r1 r2, writes_of (s_ops s) = r0 ++ r1 ++ r2 /\ concat r0 = s_line s /\ concat r1 = concat (s_packets s) /\ concat r2 = s_rest s
}.

(** The longest that the SSH_MSG_NEWKEYS packet can be when it arrives. *)
Definition newkeys_size (s : script) : nat := (length (List.last (s_packets s) []) + Z.to_nat SSH_MAX_PADDING_LENGTH)%nat.

(** What the other end reads, with the packets as they arrive. *)
Definition received (s : script) (ps' : list bytes) : bytes := s_line s ++ concat ps' ++ s_rest s.

Lemma packet_weaken m m' p : m <= m' -> is_packet m p -> is_packet m' p.
Proof. intros Hm (l & n & body & [H1 H2 H3 H4]). exists l, n, body. split; [done|lia|done|done]. Qed.

Lemma repadded_arrives p p' : repadded p p' -> is_packet (SSH_MAX_PACKET_LENGTH - SSH_MAX_PADDING_LENGTH) p ->
  is_packet SSH_MAX_PACKET_LENGTH p' /\ newkeys_packet p' = newkeys_packet p /\ (length p' <= length p + Z.to_nat SSH_MAX_PADDING_LENGTH)%nat.
Proof.
  intros (l & n & body & extra & Hp & Hp' & _ & Hty)%repadded_type (l1 & n1 & body1 & Hq).
  assert (l1 = l) as ->.
  { pose proof (packet_prefix _ _ _ _ _ [] ltac:(done) Hp) as E1. pose proof (packet_prefix (SSH_MAX_PACKET_LENGTH - SSH_MAX_PADDING_LENGTH) _ _ _ _ [] ltac:(unfold SSH_MAX_PADDING_LENGTH; lia) Hq) as E2. congruence. }
  pose proof (packet_length _ _ _ _ _ Hq) as Hl. destruct Hp' as [E Hl' Hn' Hb'].
  assert (packet_of SSH_MAX_PACKET_LENGTH p' (l + Z.of_nat (length extra)) (n + Z.of_nat (length extra)) (body ++ extra)) as Hp''.
  { split; [done| |done|done]. pose proof (packet_padding _ _ _ _ _ Hp). lia. }
  split; [by eexists _, _, _|]. split; [rewrite (packet_newkeys _ _ _ _ Hp''); exact Hty|].
  pose proof (packet_padding _ _ _ _ _ Hp). rewrite E, (packet_bytes _ _ _ _ _ Hp), !length_ssh_packet, length_app. unfold SSH_MAX_PADDING_LENGTH in *. lia.
Qed.

Lemma script_kex s ps' : script_ok s -> Forall2 repadded (s_packets s) ps' -> kex (newkeys_size s) ps'.
Proof.
  intros [_ _ Hps (qs & q & E & Hf & Ht) _] Hr. unfold newkeys_size. rewrite E in Hps, Hr |- *. rewrite last_last.
  clear E. revert ps' Hr. induction qs as [|p qs IH]; intros ps' Hr; cbn [app] in *; apply Forall2_cons_inv_l in Hr as (p' & ps'' & Hp' & Hr & ->).
  - apply list.Forall_cons in Hps as [Hp _]. apply Forall2_nil_inv_l in Hr as ->. destruct (repadded_arrives _ _ Hp' Hp) as (H1 & H2 & H3).
    apply kex_last; [done|congruence|done].
  - apply list.Forall_cons in Hps as [Hp Hps]. cbn [existsb] in Hf. apply orb_false_iff in Hf as [Hf1 Hf2].
    destruct (repadded_arrives _ _ Hp' Hp) as (H1 & H2 & H3). apply kex_more; [done|congruence|]. by apply IH.
Qed.

Lemma padding_lines_ok pre : padding_lines pre -> exists lines, pre = concat lines /\ Forall (fun l => line_ok l /\ identifies l = false) lines.
Proof.
  intros (ns & -> & Hns). exists (map padding_line ns). split; [done|]. induction Hns as [|n ns Hn _ IH]; cbn; constructor; [by apply padding_line_ok|done].
Qed.

Section Both.
Context `{Digests} (Generate : string -> stres PRNG bytes).

Lemma derived_prng_ok o salt p : GetDerivedPRNG o salt = Ok p -> prng_ok p.
Proof. apply seeded_prng_ok. apply hkdf_length. Qed.

Lemma client_fields draws config random o : NewClientObfuscator Generate draws config random = Ok o ->
  keyword o = Keyword config /\ osshPrefixSplitConfig o = OSSHPrefixSplit config.
Proof.
  unfold NewClientObfuscator. case_bool_decide; [done|]. destruct (PaddingPRNGSeed config); [|done].
  intros (rng & _ & (seed & _ & ([c2s s2c] & _ & ([[[[[msg plen] hdr] padlen] rng'] c2s'] & _ & [= <-])%res_bind_ok)%res_bind_ok)%res_bind_ok)%res_bind_ok.
  done.
Qed.

Lemma client_conn {U} `{!UnderlyingConn U} draws a random cn (u : U) cl : NewClientObfuscatedSSHConn Generate draws a random cn u = Ok cl -> eager cn = false ->
  exists o, NewClientObfuscator Generate draws (client_config a) random = Ok o /\ keyword (obfuscator cl) = ca_keyword a /\ oc_reader cl = WrapConnWithSkipReader cn /\
    reading cl (if bool_decide (osshPrefixHeader o = None) then OBFUSCATION_READ_STATE_IDENTIFICATION_LINES else OBFUSCATION_READ_STATE_CLIENT_READ_PREFIX)
      [] (serverToClientCipher o) (stream cn) /\
    unopened cl OBFUSCATION_WRITE_STATE_CLIENT_SEND_PREAMBLE (concat (conn_writes u)) (clientToServerCipher o) (preamble o).
Proof.
  intros (o & Ho & (rng & Hrng & [= <-])%res_bind_ok)%res_bind_ok He. exists o. split; [done|]. split; [exact (proj1 (client_fields _ _ _ _ Ho))|]. split; [done|].
  split; split; try done. by eapply derived_prng_ok.
Qed.

Lemma server_conn {U} `{!UnderlyingConn U} a now clientIP newSeed sn (u : U) h sc s' c2s s2c pseed header r h' :
  NewServerObfuscatedSSHConn Generate a now clientIP newSeed sn u h = (Ok sc, s') -> eager sn = false ->
  readPreamble (server_config a) now clientIP newSeed {| reader := WrapConnWithSkipReader sn; seeds := h; irregular := [] |} =
    (Ok (c2s, s2c, pseed, header), {| reader := r; seeds := h'; irregular := [] |}) -> reader_ok r ->
  exists msg n, makeServerPreamble Generate header (sa_prefixSpecs a) (sa_keyword a) newSeed = Ok (msg, n) /\
    reading sc OBFUSCATION_READ_STATE_IDENTIFICATION_LINES [] c2s (stream r) /\
    unopened sc OBFUSCATION_WRITE_STATE_SERVER_SEND_PREFIX_AND_IDENTIFICATION_LINE_PADDING (concat (conn_writes u)) s2c msg.
Proof.
  intros Hrun He Hrd Hr. unfold NewServerObfuscatedSSHConn in Hrun.
  destruct (NewServerObfuscator _ _ _ _ _ _) as [o s1] eqn:Ho. injection Hrun as Hc <-. apply res_bind_ok in Hc as (o' & -> & Hc).
  assert (conn_eager (reader s1) = false) as He1.
  { change s1 with ((Ok o', s1).2). rewrite <- Ho. etransitivity; [apply (NewServerObfuscator_eager Generate)|exact He]. }
  unfold NewServerObfuscator in Ho. case_bool_decide; [done|]. apply io_bind_ok in Ho as ([[[a1 a2] a3] a4] & s2 & Hrd' & Ho).
  rewrite Hrd in Hrd'. injection Hrd' as <- <- <- <- <-. apply io_bind_ok in Ho as ([msg n] & s3 & [= Hm <-] & Ho).
  apply io_bind_ok in Ho as (rng & s3 & [= Hrng <-] & [= <- <-]). exists msg, n. split; [done|].
  apply res_bind_ok in Hc as (prng & Hprng & [= <-]). split; split; try done. by eapply derived_prng_ok.
Qed.

(** A prefix that a server generates is one that a client can skip, unless its terminator
    occurs in it by chance or it is too long. *)
Record clear_prefix (b : bytes) : Prop := {
  clear_length : Z.of_nat (length b) - Z.of_nat PREAMBLE_HEADER_LENGTH <= PREFIX_MAX_LENGTH;
  clear_first : bytes_Index (drop PREAMBLE_HEADER_LENGTH b) (drop (length b - PREFIX_TERMINATOR_LENGTH) b) =
    Some (length b - PREFIX_TERMINATOR_LENGTH - PREAMBLE_HEADER_LENGTH)%nat
}.

Lemma server_prefix_skippable spec kw b n : makeTerminatedPrefixWithPadding Generate spec kw OBFUSCATE_SERVER_TO_CLIENT_IV = Ok (b, n) ->
  clear_prefix b -> skippable kw b.
Proof.
  intros Hb [Hl Hf]. destruct (terminated_prefix _ _ _ _ _ _ Hb) as (prefix & t & -> & Hp & Ht & Hmk).
  split; [rewrite length_app; lia|done| |done]. rewrite Hmk. f_equal. by rewrite length_app, Ht, Nat.add_sub, drop_app_length.
Qed.
(** A client and a server over a network that has carried nothing, with the same keyword, whose
    prefixes can be told from initial messages; the seed of the client is new to the server. *)
Record established {U V} `{!UnderlyingConn U} `{!UnderlyingConn V} (draws : nat) (ca : client_args) (random : res bytes) (cn : netConn) (u : U)
    (cl : ObfuscatedSSHConn U) (sa : server_args) (now : Z) (clientIP : string) (newSeed : res bytes) (sn : netConn) (v : V)
    (h : option SeedHistory) (sc : ObfuscatedSSHConn V) : Prop := {
  est_config : well_formed (client_config ca) random;
  est_keyword : sa_keyword sa = ca_keyword ca;
  est_client : NewClientObfuscatedSSHConn Generate draws ca random cn u = Ok cl;
  est_server : (NewServerObfuscatedSSHConn Generate sa now clientIP newSeed sn v h).1 = Ok sc;
  est_prefix spec b n : ca_prefixSpec ca = Some spec ->
    makeTerminatedPrefixWithPadding Generate spec (ca_keyword ca) OBFUSCATE_CLIENT_TO_SERVER_IV = Ok (b, n) -> recognizable (ca_keyword ca) b;
  est_server_prefix b : preamble (obfuscator sc) = Some b -> clear_prefix b;
  est_unused seed : client_seed (client_config ca) random = Ok seed -> unused now h seed;
  est_silent : conn_writes u = [] /\ conn_writes v = [];
  est_lazy : eager cn = false /\ eager sn = false
}.

Lemma script_run {U} `{!UnderlyingConn U} draws i s (c c' : ObfuscatedSSHConn U) ws before k msg got : script_ok s -> opens ws msg ->
  unopened c ws before k msg -> run_ops draws i (s_ops s) c = (Ok got, c') ->
  exists lines ps', Forall (fun l => line_ok l /\ identifies l = false) lines /\ Forall2 repadded (s_packets s) ps' /\
    sent_bytes c' = before ++ default [] msg ++ xored k (concat lines ++ s_line s ++ concat ps') ++ s_rest s.
Proof.
  intros [[Hl _] _ Hps Hnk (r0 & r1 & r2 & Hw & H0 & H1 & H2)] Ho Hc Hrun.
  destruct (run_writes draws i r0 r1 r2 ws before k msg (s_line s) (s_packets s) (s_rest s) (s_ops s) Hl) with (8 := Hw) (9 := Hrun) as (pre & ps' & Hpre & Hr & Hs); try done.
  { eapply list.Forall_impl; [exact Hps|]. intros p. apply packet_weaken. unfold SSH_MAX_PADDING_LENGTH. lia. }
  destruct (padding_lines_ok _ Hpre) as (lines & -> & Hls). by exists lines, ps'.
Qed.

Lemma script_reads {U} `{!UnderlyingConn U} draws i s ps' ops (c c' : ObfuscatedSSHConn U) got : awaiting (newkeys_size s) c (received s ps') ->
  Forall (fun n => newkeys_size s <= n)%nat (reads_of ops) -> run_ops draws i ops c = (Ok got, c') ->
  exists todo, received s ps' = got ++ todo /\ forall n, (newkeys_size s <= n)%nat -> drains n c' todo.
Proof.
  assert (0 < newkeys_size s)%nat as Hpos by (unfold newkeys_size, SSH_MAX_PADDING_LENGTH; lia).
  intros Ha Hf Hrun. destruct (run_reads draws i (newkeys_size s) ops) with (2 := Ha) (3 := Hrun) as (todo & Ht & Ha').
  { eapply list.Forall_impl; [exact Hf|]. cbn. lia. }
  exists todo. split; [done|]. intros n Hn. apply (awaited_read (newkeys_size s)); [lia|done|done].
Qed.

(** What an end sends: its preamble, and in the stream of its cipher lines that are
    discarded, its identification line and its packets as they arrive, and the rest. *)
Record transmits {U} `{!UnderlyingConn U} (c : ObfuscatedSSHConn U) (s : script) (ps' : list bytes) (b : bytes) : Prop := {
  transmits_packets : Forall2 repadded (s_packets s) ps';
  transmits_bytes : exists lines, Forall (fun l => line_ok l /\ identifies l = false) lines /\
    b = default [] (preamble (obfuscator c)) ++ xored (write_cipher c) (concat lines ++ s_line s ++ concat ps') ++ s_rest s
}.

Lemma server_established {U V} `{!UnderlyingConn U} `{!UnderlyingConn V} draws ca random cn (u : U) cl sa now clientIP newSeed sn (v : V) h sc cs cps :
  established draws ca random cn u cl sa now clientIP newSeed sn v h sc -> script_ok cs -> transmits cl cs cps (stream sn) ->
  unopened sc OBFUSCATION_WRITE_STATE_SERVER_SEND_PREFIX_AND_IDENTIFICATION_LINE_PADDING [] (read_cipher cl) (preamble (obfuscator sc)) /\
  awaiting (newkeys_size cs) sc (received cs cps) /\
  forall o, NewClientObfuscator Generate draws (client_config ca) random = Ok o ->
    exists n, makeServerPreamble Generate (osshPrefixHeader o) (sa_prefixSpecs sa) (sa_keyword sa) newSeed = Ok (preamble (obfuscator sc), n).
Proof.
  intros [Hwf Hk Hcl Hsc Hpre Hspre Hun [Hu Hv] [Hec Hes]] Hcs [Hcps (lines & Hls & Hsn)].
  destruct (client_conn _ _ _ _ u cl Hcl Hec) as (o & Ho & Hkw & Hrd & Hrc & Huc).
  destruct (client_preamble _ _ _ _ _ Hwf Ho) as (c2s & s2c & b & seed & padding & header & Hparts).
  destruct (parts_seed _ _ _ _ _ _ _ _ _ _ _ Hparts) as [Hseed _].
  rewrite (unopened_preamble _ _ _ _ _ Huc), (unopened_cipher _ _ _ _ _ Huc) in Hsn.
  destruct (preamble_read Generate draws (client_config ca) random o (server_config sa) now clientIP newSeed seed sn h
    (xored (clientToServerCipher o) (concat lines ++ s_line cs ++ concat cps) ++ s_rest cs)) as (r & pseed & rng & pad & Hread & Hr & Hst & _); [done|done|done|exact Hpre|done|by apply Hun|done|done|].
  destruct (NewServerObfuscatedSSHConn Generate sa now clientIP newSeed sn v h) as [rsc s'] eqn:Hserver. cbn [fst] in Hsc. subst rsc.
  destruct (server_conn _ _ _ _ _ v _ sc _ _ _ _ _ _ _ Hserver Hes Hread Hr) as (msg & n & Hmk & Hrs & Hus). rewrite Hst in Hrs.
  pose proof (unopened_preamble _ _ _ _ _ Hus) as Hmsg. split; [|split].
  - rewrite Hmsg, (reading_cipher _ _ _ _ _ Hrc). rewrite Hv in Hus. exact Hus.
  - eapply await_lines; [exact Hls|apply Hcs|apply Hcs|by apply script_kex|exact Hrs].
  - intros o' Ho'. rewrite Ho in Ho'. injection Ho' as <-. rewrite Hmsg. by exists n.
Qed.

Lemma client_established {U V} `{!UnderlyingConn U} `{!UnderlyingConn V} draws ca random cn (u : U) cl sa now clientIP newSeed sn (v : V) h sc :
  established draws ca random cn u cl sa now clientIP newSeed sn v h sc ->
  unopened cl OBFUSCATION_WRITE_STATE_CLIENT_SEND_PREAMBLE [] (write_cipher cl) (preamble (obfuscator cl)) /\ is_Some (preamble (obfuscator cl)) /\
  osshPrefixSplitConfig (obfuscator cl) = ca_splitConfig ca.
Proof.
  intros [Hwf Hk Hcl Hsc Hpre Hspre Hun [Hu Hv] [Hec Hes]].
  destruct (client_conn _ _ _ _ u cl Hcl Hec) as (o & Ho & Hkw & Hrd & Hrc & Huc). rewrite Hu in Huc.
  pose proof (unopened_preamble _ _ _ _ _ Huc) as E. pose proof (unopened_cipher _ _ _ _ _ Huc) as E'.
  destruct (client_preamble _ _ _ _ _ Hwf Ho) as (c2s & s2c & b & seed & padding & header & Hparts).
  split; [by rewrite E, E'|]. split; [rewrite E, (parts_preamble _ _ _ _ _ _ _ _ _ _ _ Hparts); by eexists|].
  unfold NewClientObfuscatedSSHConn in Hcl. rewrite Ho in Hcl. apply res_bind_ok in Hcl as (o' & [= <-] & (rng & _ & [= <-])%res_bind_ok).
  exact (proj2 (client_fields _ _ _ _ Ho)).
Qed.

Lemma client_awaits {U V} `{!UnderlyingConn U} `{!UnderlyingConn V} draws ca random cn (u : U) cl sa now clientIP newSeed sn (v : V) h sc cs ss cps sps :
  established draws ca random cn u cl sa now clientIP newSeed sn v h sc -> script_ok cs -> script_ok ss -> transmits cl cs cps (stream sn) ->
  transmits sc ss sps (stream cn) -> awaiting (newkeys_size ss) cl (received ss sps).
Proof.
  intros Hest Hcs Hss Hct [Hsps (lines & Hls & Hcn)]. destruct (server_established _ _ _ _ _ _ _ _ _ _ _ _ _ _ _ _ Hest Hcs Hct) as (Hus & _ & Hmk).
  destruct Hest as [Hwf Hk Hcl Hsc Hpre Hspre Hun [Hu Hv] [Hec Hes]].
  destruct (client_conn _ _ _ _ u cl Hcl Hec) as (o & Ho & Hkw & Hrd & Hrc & Huc). destruct (Hmk o Ho) as [n Hm].
  rewrite Hcn, (unopened_cipher _ _ _ _ _ Hus), (reading_cipher _ _ _ _ _ Hrc) in Hrc. unfold makeServerPreamble in Hm.
  destruct (osshPrefixHeader o) as [name|].
  - rewrite bool_decide_false in Hrc by done. apply res_bind_ok in Hm as (sseed & _ & Hm). apply res_bind_ok in Hm as ([pb pn] & Hpb & [= Hmsg <-]).
    rewrite <- Hmsg in Hrc. eapply await_prefix; [| |exact Hls|apply Hss|apply Hss|by apply script_kex|exact Hrc].
    + rewrite Hkw, <- Hk. eapply server_prefix_skippable; [exact Hpb|]. by apply Hspre.
    + by rewrite Hrd.
  - rewrite bool_decide_true in Hrc by done. injection Hm as Hmsg _. rewrite <- Hmsg in Hrc. cbn [default from_option app] in Hrc.
    eapply await_lines; [exact Hls|apply Hss|apply Hss|by apply script_kex|exact Hrc].
Qed.

Lemma script_transmits {U} `{!UnderlyingConn U} draws i s (c c' : ObfuscatedSSHConn U) ws k got : script_ok s -> opens ws (preamble (obfuscator c)) ->
  unopened c ws [] k (preamble (obfuscator c)) -> run_ops draws i (s_ops s) c = (Ok got, c') -> exists ps', transmits c s ps' (sent_bytes c').
Proof.
  intros Hs Ho Hc Hrun. destruct (script_run draws i s c c' ws [] k _ got Hs Ho Hc Hrun) as (lines & ps' & Hls & Hps & E). exists ps'. split; [done|].
  exists lines. split; [done|]. by rewrite E, (unopened_cipher _ _ _ _ _ Hc).
Qed.

Lemma both_transmit {U V} `{!UnderlyingConn U} `{!UnderlyingConn V} draws i j ca random cn (u : U) cl sa now clientIP newSeed sn (v : V) h sc
    cs ss cl' sc' cgot sgot :
  established draws ca random cn u cl sa now clientIP newSeed sn v h sc -> script_ok cs -> script_ok ss ->
  run_ops draws i (s_ops cs) cl = (Ok cgot, cl') -> run_ops draws j (s_ops ss) sc = (Ok sgot, sc') ->
  stream sn = sent_bytes cl' -> stream cn = sent_bytes sc' ->
  exists cps sps, transmits cl cs cps (stream sn) /\ transmits sc ss sps (stream cn).
Proof.
  intros Hest Hcs Hss Hcrun Hsrun Hsn Hcn. destruct (client_established _ _ _ _ _ _ _ _ _ _ _ _ _ _ Hest) as (Huc & Hmsg & _).
  destruct (script_transmits draws i cs cl cl' OBFUSCATION_WRITE_STATE_CLIENT_SEND_PREAMBLE _ _ Hcs Hmsg Huc Hcrun) as [cps Hct]. rewrite <- Hsn in Hct.
  destruct (server_established _ _ _ _ _ _ _ _ _ _ _ _ _ _ _ _ Hest Hcs Hct) as (Hus & _ & _).
  destruct (script_transmits draws j ss sc sc' OBFUSCATION_WRITE_STATE_SERVER_SEND_PREFIX_AND_IDENTIFICATION_LINE_PADDING _ _ Hss I Hus Hsrun) as [sps Hst].
  rewrite <- Hcn in Hst. by exists cps, sps.
Qed.

Lemma session_both {U V} `{!UnderlyingConn U} `{!UnderlyingConn V} draws i j ca random cn (u : U) cl sa now clientIP newSeed sn (v : V) h sc
    cs ss cl' sc' cgot sgot :
  established draws ca random cn u cl sa now clientIP newSeed sn v h sc -> script_ok cs -> script_ok ss ->
  Forall (fun n => newkeys_size ss <= n)%nat (reads_of (s_ops cs)) -> Forall (fun n => newkeys_size cs <= n)%nat (reads_of (s_ops ss)) ->
  run_ops draws i (s_ops cs) cl = (Ok cgot, cl') -> run_ops draws j (s_ops ss) sc = (Ok sgot, sc') ->
  stream sn = sent_bytes cl' -> stream cn = sent_bytes sc' ->
  exists cps sps, Forall2 repadded (s_packets cs) cps /\ Forall2 repadded (s_packets ss) sps /\
    (exists todo, received cs cps = sgot ++ todo /\ forall n, (newkeys_size cs <= n)%nat -> drains n sc' todo) /\
    (exists todo, received ss sps = cgot ++ todo /\ forall n, (newkeys_size ss <= n)%nat -> drains n cl' todo).
Proof.
  intros Hest Hcs Hss Hcr Hsr Hcrun Hsrun Hsn Hcn.
  destruct (both_transmit _ i j _ _ _ u cl _ _ _ _ _ v _ sc cs ss _ _ _ _ Hest Hcs Hss Hcrun Hsrun Hsn Hcn) as (cps & sps & Hct & Hst).
  exists cps, sps. split; [apply Hct|]. split; [apply Hst|]. split.
  - eapply script_reads; [|exact Hsr|exact Hsrun]. apply (server_established _ _ _ _ u cl _ _ _ _ _ v _ sc _ _ Hest Hcs Hct).
  - eapply script_reads; [|exact Hcr|exact Hcrun]. exact (client_awaits _ _ _ _ u cl _ _ _ _ _ v _ sc _ _ _ _ Hest Hcs Hss Hct Hst).
Qed.
End Both.

(** ** The protocol *)

(** C2: An obfuscated SSH client and server with the same keyword understand each other,
    however the network divides the bytes and however reads and writes alternate at each end:
    each end reads the identification line of the other, its packets with the same payloads
    and more padding, and what follows SSH_MSG_NEWKEYS unchanged; the preamble, the prefixes
    and the lines of padding are not seen.  Every read of enough bytes succeeds, and reading on
    to the end returns all the rest. *)
Theorem ossh_session `{Digests} Generate {U V} `{!UnderlyingConn U} `{!UnderlyingConn V} draws i j ca random cn (u : U) cl sa now clientIP newSeed sn (v : V) h sc
    cs ss cl' sc' cgot sgot :
  established Generate draws ca random cn u cl sa now clientIP newSeed sn v h sc -> script_ok cs -> script_ok ss ->
  Forall (fun n => newkeys_size ss <= n)%nat (reads_of (s_ops cs)) -> Forall (fun n => newkeys_size cs <= n)%nat (reads_of (s_ops ss)) ->
  run_ops draws i (s_ops cs) cl = (Ok cgot, cl') -> run_ops draws j (s_ops ss) sc = (Ok sgot, sc') ->
  stream sn = sent_bytes cl' -> stream cn = sent_bytes sc' ->
  exists cps sps, Forall2 repadded (s_packets cs) cps /\ Forall2 repadded (s_packets ss) sps /\
    (exists todo, received cs cps = sgot ++ todo /\ forall n, (newkeys_size cs <= n)%nat -> drains n sc' todo) /\
    (exists todo, received ss sps = cgot ++ todo /\ forall n, (newkeys_size ss <= n)%nat -> drains n cl' todo).
Proof. apply session_both. Qed.

Section Limits.
Context {U : Type} `{!UnderlyingConn U} `{Digests}.

(** When SSH_MSG_NEWKEYS is not read at once, the connection stays in the state for packets
    after it, and takes what follows for another obfuscated packet. *)
Theorem newkeys_partly_read n m (c : ObfuscatedSSHConn U) k p s : is_packet SSH_MAX_PACKET_LENGTH p -> newkeys_packet p = true ->
  (0 < n < length p)%nat -> (length p <= n + m)%nat -> reading c OBFUSCATION_READ_STATE_KEX_PACKETS [] k (xored k p ++ s) ->
  exists c1 c2, ossh_Read n c = (Ok (take n p, None), c1) /\ ossh_Read m c1 = (Ok (drop n p, None), c2) /\
    reading c2 OBFUSCATION_READ_STATE_KEX_PACKETS [] (rc4_skip (length p) k) s.
Proof.
  intros Hp Hnk Hn Hm Hc. destruct (read_packet n _ _ _ _ Hp Hc) as (c1 & E1 & Hc1).
  assert (drop n p <> []) as Hd by (intros E; apply (f_equal length) in E; rewrite length_drop in E; cbn in E; lia).
  rewrite bool_decide_false in Hc1 by done. cbn [andb] in Hc1.
  destruct (read_buffered m _ _ _ _ _ ltac:(lia) Hd Hc1 ltac:(by right)) as (c2 & E2 & Hc2).
  rewrite take_ge in E2 by (rewrite length_drop; lia). rewrite drop_ge, bool_decide_true in Hc2 by (done || rewrite length_drop; lia). by exists c1, c2.
Qed.

(** A packet that follows SSH_MSG_NEWKEYS in the same write is padded and obfuscated too. *)
Theorem obfuscated_after_newkeys draws i (c c' : ObfuscatedSSHConn U) n before k text q p : wrote c before k text [] [] ->
  writeState c = OBFUSCATION_WRITE_STATE_KEX_PACKETS -> writeBuffer c = [] -> is_packet SSH_MAX_PACKET_LENGTH q -> newkeys_packet q = true ->
  is_packet SSH_MAX_PACKET_LENGTH p -> ossh_Write draws i (q ++ p) c = (Ok n, c') ->
  exists q' p', repadded q q' /\ repadded p p' /\ sent_bytes c' = before ++ xored k (text ++ q' ++ p') /\ writeState c' = OBFUSCATION_WRITE_STATE_FINISHED.
Proof.
  intros Hw Hst Hwb Hq Hnk Hp Hrun. apply Write_again in Hrun; [|by right].
  destruct (write_packets _ _ _ _ _ _ _ _ Hw Hst Hrun) as (ps & ps' & w & E & Hr & Hinc & Hres). rewrite Hwb in E. cbn [app] in E.
  destruct (packets_unique ps [q; p] w) as (rs & Hps & ->); [by eapply repadded_packets|by repeat constructor|by cbn; rewrite app_nil_r|].
  destruct rs as [|x rs]; cycle 1.
  { exfalso. apply (Hinc x (concat rs)); [|done]. assert (Forall (is_packet SSH_MAX_PACKET_LENGTH) [q; p]) as Hf by (by repeat constructor).
    rewrite Hps, Forall_app, list.Forall_cons in Hf. apply Hf. }
  rewrite app_nil_r in Hps. subst ps. cbn [existsb] in Hres. rewrite Hnk in Hres. cbn [orb] in Hres. destruct Hres as [[Hs _ _ _] Hst'].
  apply Forall2_cons_inv_l in Hr as (q' & l & Hq' & Hr & ->). apply Forall2_cons_inv_l in Hr as (p' & l' & Hp' & Hr & ->). apply Forall2_nil_inv_l in Hr as ->.
  exists q', p'. split; [done|]. split; [done|]. split; [|done]. rewrite Hs. cbn [concat]. by rewrite !app_nil_r.
Qed.
End Limits.

(** ** An example session *)

#[local] Existing Instance padded_digests.

#[local, refine] Instance wire : UnderlyingConn (list bytes) := {|
  conn_Write := fun b u => (length b, None, u ++ [b]);
  conn_Close := fun u => (None, u);
  conn_CloseWrite := None;
  conn_GetMetrics := fun _ => None;
  conn_writes := fun u => u
|}.
Proof. intros b u n err u' [= <- <- <-]. rewrite firstn_all. split; [lia|]. split; [lia|done]. Defined.

Definition example_client_args : client_args := {|
  ca_keyword := "keyword"; ca_paddingPRNGSeed := Some (replicate 32 x36); ca_seedTransform := None; ca_prefixSpec := None; ca_splitConfig := None;
  ca_minPadding := Some 32; ca_maxPadding := Some 32 |}.
Definition example_server_args : server_args := {| sa_keyword := "keyword"; sa_prefixSpecs := ∅; sa_irregularLogger := false |}.

Definition example_line : bytes := list_byte_of_string "SSH-2.0-Go" ++ CRLF.
Definition example_kexinit : bytes := ssh_packet 7 4 ([x14; x01] ++ replicate 4 x00).
Definition example_newkeys : bytes := ssh_packet 12 10 (x15 :: replicate 10 x00).

Definition example_script (rest : string) (reads : bool) : script := {|
  s_line := example_line; s_packets := [example_kexinit; example_newkeys]; s_rest := list_byte_of_string rest;
  s_ops := [OpWrite (take 4 example_line); OpWrite (drop 4 example_line)] ++ (if reads then [OpRead 300] else []) ++
    [OpWrite (example_kexinit ++ take 3 example_newkeys); OpWrite (drop 3 example_newkeys)] ++ (if reads then [OpRead 271; OpRead 300; OpRead 300] else []) ++
    [OpWrite (list_byte_of_string rest)] ++ (if reads then [OpRead 300] else []) |}.

Definition pieces (b : bytes) : netConn := {| arrivals := [take 30 b; []; drop 30 b]; final := EOF; eager := false |}.

Abbreviation example_client cn := (NewClientObfuscatedSSHConn no_generator 8 example_client_args example_random cn ([] : list bytes)).
Abbreviation example_server sn :=
  ((NewServerObfuscatedSSHConn no_generator example_server_args 0 "192.0.2.1" (Err "no seed") sn ([] : list bytes) None).1).

(** What an end sends; it does not depend on what it reads. *)
Definition sent_by (c : res (ObfuscatedSSHConn (list bytes))) (s : script) : bytes :=
  match c with Ok c => sent_bytes (run_ops 8 false (s_ops s) c).2 | _ => [] end.

Definition upstream : netConn := pieces (sent_by (example_client (pieces [])) (example_script "up" false)).
Definition downstream : netConn := pieces (sent_by (example_server upstream) (example_script "down" false)).

(** The two ends over two connections, each of which carries what the other end sends. *)
Definition checked (rcl rsc : res (ObfuscatedSSHConn (list bytes))) (cs ss : list op) (cn sn : netConn) : bool :=
  match rcl, rsc with
  | Ok cl, Ok sc =>
      match run_ops 8 false cs cl, run_ops 8 false ss sc with
      | (Ok _, cl'), (Ok _, sc') => bool_decide (stream sn = sent_bytes cl') && bool_decide (stream cn = sent_bytes sc') &&
          bool_decide (preamble (obfuscator sc) = None)
      | _, _ => false
      end
  | _, _ => false
  end.

Lemma checked_runs rcl rsc cs ss cn sn : checked rcl rsc cs ss cn sn = true -> exists cl sc cl' sc' cgot sgot,
  rcl = Ok cl /\ rsc = Ok sc /\ run_ops 8 false cs cl = (Ok cgot, cl') /\ run_ops 8 false ss sc = (Ok sgot, sc') /\
  stream sn = sent_bytes cl' /\ stream cn = sent_bytes sc' /\ preamble (obfuscator sc) = None.
Proof.
  intros Hrun. unfold checked in Hrun. destruct rcl as [cl|e|e|]; [|discriminate Hrun..]. destruct rsc as [sc|e|e|]; [|discriminate Hrun..].
  destruct (run_ops 8 false cs cl) as [[cgot|e|e|] cl'] eqn:Rcl; [|discriminate Hrun..].
  destruct (run_ops 8 false ss sc) as [[sgot|e|e|] sc'] eqn:Rsc; [|discriminate Hrun..].
  apply andb_prop in Hrun as [Hrun H3]. apply andb_prop in Hrun as [H1 H2]. apply bool_decide_eq_true in H1, H2, H3.
  by exists cl, sc, cl', sc', cgot, sgot.
Qed.

Lemma example_run : checked (example_client downstream) (example_server upstream) (s_ops (example_script "up" true)) (s_ops (example_script "down" true))
  downstream upstream = true.
Proof. vm_compute. reflexivity. Qed.

Lemma ends_established cl sc cn sn : example_client cn = Ok cl -> example_server sn = Ok sc -> preamble (obfuscator sc) = None ->
  eager cn = false -> eager sn = false ->
  established no_generator 8 example_client_args example_random cn [] cl example_server_args 0 "192.0.2.1" (Err "no seed") sn [] None sc.
Proof.
  intros Ecl Esc Hpre Hcn Hsn. split.
  - split; [by intros b [= <-]|by intros b [= <-]|discriminate].
  - reflexivity.
  - exact Ecl.
  - exact Esc.
  - discriminate.
  - intros b Hb. rewrite Hpre in Hb. discriminate Hb.
  - intros seed _. exact I.
  - split; reflexivity.
  - exact (conj Hcn Hsn).
Qed.

Lemma example_script_ok rest reads : script_ok (example_script rest reads).
Proof.
  split.
  - split; [done|]. cbn. unfold SSH_MAX_SERVER_LINE_LENGTH. lia.
  - done.
  - unfold SSH_MAX_PACKET_LENGTH, SSH_MAX_PADDING_LENGTH. repeat constructor; [exists 7, 4, ([x14; x01] ++ replicate 4 x00)|exists 12, 10, (x15 :: replicate 10 x00)]; split; done || lia.
  - by exists [example_kexinit], example_newkeys.
  - exists [take 4 example_line; drop 4 example_line], [example_kexinit ++ take 3 example_newkeys; drop 3 example_newkeys], [list_byte_of_string rest].
    split; [by destruct reads|]. split; [done|]. split; [done|]. apply app_nil_r.
Qed.

Lemma example_reads_fit rest rest' : Forall (fun n => newkeys_size (example_script rest true) <= n)%nat (reads_of (s_ops (example_script rest' true))).
Proof. unfold reads_of. cbn. unfold newkeys_size. cbn. repeat constructor; unfold SSH_MAX_PADDING_LENGTH; lia. Qed.

Lemma ossh_session_witness : exists cl sc cl' sc' cgot sgot,
  established no_generator 8 example_client_args example_random downstream [] cl example_server_args 0 "192.0.2.1" (Err "no seed") upstream [] None sc /\
  run_ops 8 false (s_ops (example_script "up" true)) cl = (Ok cgot, cl') /\ run_ops 8 false (s_ops (example_script "down" true)) sc = (Ok sgot, sc') /\
  exists cps sps, Forall2 repadded (s_packets (example_script "up" true)) cps /\ Forall2 repadded (s_packets (example_script "down" true)) sps /\
    (exists todo, received (example_script "up" true) cps = sgot ++ todo /\ forall n, (newkeys_size (example_script "up" true) <= n)%nat -> drains n sc' todo) /\
    (exists todo, received (example_script "down" true) sps = cgot ++ todo /\ forall n, (newkeys_size (example_script "down" true) <= n)%nat -> drains n cl' todo).
Proof.
  destruct (checked_runs _ _ _ _ _ _ example_run) as (cl & sc & cl' & sc' & cgot & sgot & Ecl & Esc & Rcl & Rsc & H1 & H2 & H3).
  pose proof (ends_established cl sc downstream upstream Ecl Esc H3 eq_refl eq_refl) as Hest.
  exists cl, sc, cl', sc', cgot, sgot. split; [exact Hest|]. split; [exact Rcl|]. split; [exact Rsc|].
  apply (ossh_session no_generator 8 false false example_client_args example_random downstream [] cl example_server_args 0 "192.0.2.1" (Err "no seed") upstream [] None sc
    (example_script "up" true) (example_script "down" true) cl' sc' cgot sgot Hest);
    [apply example_script_ok|apply example_script_ok|apply example_reads_fit|apply example_reads_fit|exact Rcl|exact Rsc|exact H1|exact H2].
Defined.
