(* ===== verification/OsshProgress.v ===== *)
(** * Progress of obfuscated SSH sessions

    Over a network that does not fail, the operations of an end of an obfuscated SSH session
    ([OsshSession]) succeed, unless they stop at a loop of its pseudorandom generator that draws
    until a number is accepted and has not ended within its fuel. *)

From Stdlib Require Import ZArith Lia Strings.Byte Strings.String.
From stdpp Require Import base gmap list strings numbers.
From S2P Require Import Prelude.
From S2P Require Import GoCrypto.
From S2P Require Import PRNG.
From S2P Require Import Fragmentor.
From S2P Require Import SeedHistory.
From S2P Require Import GoIO.
From S2P Require Import Obfuscator.
From S2P Require Import OsshConn.
From S2P Require Import OsshSession.
#[local] Open Scope string_scope.
#[local] Open Scope Z_scope.
#[local] Open Scope list_scope.

(** Writes do not fail. *)
Class ReliableConn (U : Type) `{!UnderlyingConn U} := { conn_Write_ok b (u : U) : exists n v, conn_Write b u = (n, None, v) }.

(** From this state of the generator, the draw for the padding of a line or of a packet uses up
    its fuel. *)
Definition draw_starved (draws : nat) (p : PRNG) : Prop :=
  makeServerIdentificationLinePadding draws p = NoFuel \/
  exists legacy n, 0 <= n <= SSH_MAX_PADDING_LENGTH /\ extra_padding draws legacy n p = NoFuel.

Lemma io_bind_nofuel {S A B} (m : io S A) (f : A -> io S B) s s1 : m s = (NoFuel, s1) -> (m ≫= f) s = (NoFuel, s1).
Proof. intros H. unfold mbind, io_mbind. by rewrite H. Qed.

Lemma extract_loop_total fuel draws legacy : forall nk x more ps, (length (ex_write x) < fuel)%nat -> prng_ok (ex_prng x) ->
  Forall (is_packet SSH_MAX_PACKET_LENGTH) ps -> ex_write x ++ more = concat ps ->
  (exists nk' x', extract_loop fuel draws legacy nk x = (Ok nk', x')) \/
  (exists x', extract_loop fuel draws legacy nk x = (NoFuel, x') /\ draw_starved draws (ex_prng x')).
Proof.
  induction fuel as [|fuel IH]; intros nk x more ps Hf Hp Hps E; [lia|]. cbn [extract_loop].
  destruct (Nat.leb_spec SSH_PACKET_PREFIX_LENGTH (length (ex_write x))) as [Hlen|Hlen]; [|left; by eexists _, _].
  unfold SSH_PACKET_PREFIX_LENGTH in Hlen. destruct ps as [|p ps].
  { apply (f_equal length) in E. rewrite length_app in E. cbn in E. lia. }
  apply list.Forall_cons in Hps as [(l & n & body & Hpk) Hps]. cbn [concat] in E.
  pose proof (packet_prefix _ _ _ _ _ (concat ps) ltac:(done) Hpk) as Hg. rewrite <- E, take_app_le in Hg by (unfold SSH_PACKET_PREFIX_LENGTH; lia).
  rewrite Hg. unfold io_lift. erewrite io_bind_run by reflexivity. cbv beta iota.
  destruct (Z.ltb_spec (Z.of_nat (length (ex_write x))) (Z.of_nat (length p))) as [Hs|Hs]; [left; by eexists _, _|]. rewrite Nat2Z.id. cbv zeta.
  assert (ex_write x = p ++ drop (length p) (ex_write x)) as Hw.
  { rewrite <- (take_drop (length p) (ex_write x)) at 1. f_equal. apply (f_equal (take (length p))) in E.
    rewrite take_app_length, take_app_le in E by lia. done. }
  erewrite io_bind_run by reflexivity.
  destruct (extra_padding_range draws legacy n (packet_padding _ _ _ _ _ Hpk) (ex_prng x) Hp) as [Hnf|(e & p3 & He & Hrange & Hp3)].
  { right. eexists. split; [apply io_bind_nofuel; unfold ex_draw; cbn [ex_prng]; rewrite Hnf; reflexivity|]. cbn [ex_prng].
    right. exists legacy, n. split; [apply Hpk|done]. }
  erewrite io_bind_run by (unfold ex_draw; cbn [ex_prng]; rewrite He; reflexivity).
  destruct (Bytes_returns (Z.to_nat e) ltac:(unfold stream_limit, SSH_MAX_PADDING_LENGTH in *; pose proof (packet_padding _ _ _ _ _ Hpk); lia) p3 Hp3) as (extra & p4 & Hb & _ & Hp4).
  erewrite io_bind_run by (unfold ex_draw; cbn [ex_prng]; rewrite Hb; reflexivity). erewrite io_bind_run by reflexivity.
  apply (IH _ _ more ps); cbn [ex_write ex_prng]; [|done|done|].
  - pose proof (packet_nonempty _ p ltac:(by eexists _, _, _)). rewrite length_drop. lia.
  - rewrite Hw, <- app_assoc in E. by apply app_inv_head in E.
Qed.

Section Writing.
Context {U : Type} `{!UnderlyingConn U} `{!ReliableConn U} `{Digests}.
Abbreviation st := (ObfuscatedSSHConn U).

(** What was run stopped at a draw, with the generator where it was for that draw. *)
Definition starved {A} (draws : nat) (r : res A * st) : Prop := exists c, r = (NoFuel, c) /\ draw_starved draws (oc_paddingPRNG c).

Lemma starved_bind {A B} draws (m : io st A) (f : A -> io st B) c : starved draws (m c) -> starved draws ((m ≫= f) c).
Proof. intros (c' & E & H1). exists c'. split; [by apply io_bind_nofuel|done]. Qed.

Lemma starved_run {A B} draws (m : io st A) (f : A -> io st B) c a c1 : m c = (Ok a, c1) -> starved draws (f a c1) -> starved draws ((m ≫= f) c).
Proof. intros E H1. by rewrite (io_bind_run _ _ _ _ _ E). Qed.

Lemma net_write_total b (c : st) : exists c', net_write b c = (Ok tt, c').
Proof. unfold net_write. destruct (conn_Write_ok b (oc_net c)) as (n & v & ->). by eexists. Qed.

Lemma writeObfuscate_total b (c : st) : exists b' c', writeObfuscate b c = (Ok b', c').
Proof.
  unfold writeObfuscate. destruct (mode c); [destruct (ObfuscateClientToServer b (obfuscator c)) as [b' o]|destruct (ObfuscateServerToClient b (obfuscator c)) as [b' o]];
    by eexists _, _.
Qed.

Lemma send_transformed_total (c : st) : exists c', send_transformed c = (Ok tt, c').
Proof.
  unfold send_transformed. erewrite io_bind_run by reflexivity. destruct (_ <? _)%nat; [|by eexists]. cbv zeta. erewrite io_bind_run by reflexivity.
  edestruct writeObfuscate_total as (b' & c1 & E). erewrite io_bind_run by exact E. apply net_write_total.
Qed.

Lemma send_rest_total (c : st) : exists c', send_rest c = (Ok tt, c').
Proof.
  unfold send_rest. erewrite io_bind_run by reflexivity. case_bool_decide; [|by eexists].
  assert (exists c1, (if (0 <? length (writeBuffer c))%nat then net_write (writeBuffer c) else mret tt) c = (Ok tt, c1)) as (c1 & E).
  { destruct (_ <? _)%nat; [apply net_write_total|by eexists]. }
  erewrite io_bind_run by exact E. by eexists.
Qed.

(** What follows the preamble, in the states of lines and of packets. *)
Definition write_tail (draws : nat) (b : bytes) : io st unit :=
  _ ← io_modify (fun c => set_buffers c (writeBuffer c ++ b) (transformBuffer c)); _ ← extract_messages draws; _ ← send_transformed; send_rest.

Lemma write_tail_total draws b (c : st) more ps : prng_ok (oc_paddingPRNG c) -> Forall (is_packet SSH_MAX_PACKET_LENGTH) ps ->
  (writeState c = OBFUSCATION_WRITE_STATE_IDENTIFICATION_LINE \/
   writeState c = OBFUSCATION_WRITE_STATE_KEX_PACKETS /\ (writeBuffer c ++ b) ++ more = concat ps) ->
  (exists c', write_tail draws b c = (Ok tt, c')) \/ starved draws (write_tail draws b c).
Proof.
  intros Hp Hps Hst. unfold write_tail. erewrite io_bind_run by reflexivity. set (c1 := set_buffers c (writeBuffer c ++ b) (transformBuffer c)).
  assert ((exists c2, extract_messages draws c1 = (Ok tt, c2)) \/ starved draws (extract_messages draws c1)) as [(c2 & E)|Hs]; [| |right; by apply starved_bind].
  { unfold extract_messages. erewrite io_bind_run by reflexivity. cbn [writeState c1 set_buffers set_writing].
    destruct Hst as [->|[-> E]]; [left; destruct (extractSSHIdentificationLine _) as [[line rest]|]; by eexists|].
    destruct (extract_loop_total (S (length (writeBuffer c ++ b))) draws (legacyPadding c) false
      {| ex_prng := oc_paddingPRNG c; ex_write := writeBuffer c ++ b; ex_transform := transformBuffer c |} more ps) as [(nk & x' & Hx)|(x' & Hx & Hd)]; [cbn [ex_write]; lia|done|done|done| |].
    2: { right. apply starved_bind. unfold extract_packets, extractSSHPackets.
         cbn [legacyPadding oc_paddingPRNG writeBuffer transformBuffer c1 set_buffers set_writing ex_write]. rewrite Hx. eexists. split; [reflexivity|done]. }
    left. erewrite io_bind_run.
    2: { unfold extract_packets, extractSSHPackets. cbn [legacyPadding oc_paddingPRNG writeBuffer transformBuffer c1 set_buffers set_writing ex_write]. rewrite Hx. reflexivity. }
    destruct nk; by eexists. }
  left. erewrite io_bind_run by exact E. destruct (send_transformed_total c2) as (c3 & E3). erewrite io_bind_run by exact E3. apply send_rest_total.
Qed.

Lemma Write_total draws i b (c c1 : st) more ps : writeState c <> OBFUSCATION_WRITE_STATE_FINISHED -> send_first draws i c = (Ok tt, c1) ->
  prng_ok (oc_paddingPRNG c1) -> Forall (is_packet SSH_MAX_PACKET_LENGTH) ps ->
  (writeState c1 = OBFUSCATION_WRITE_STATE_IDENTIFICATION_LINE \/
   writeState c1 = OBFUSCATION_WRITE_STATE_KEX_PACKETS /\ (writeBuffer c1 ++ b) ++ more = concat ps) ->
  (exists n c', ossh_Write draws i b c = (Ok n, c')) \/ starved draws (ossh_Write draws i b c).
Proof.
  intros Hf E1 Hp Hps Hst. unfold ossh_Write. rewrite bool_decide_false by done.
  destruct (write_tail_total draws b c1 more ps Hp Hps Hst) as [(c' & E)|Hs]; [left|right].
  - eexists _, c'. erewrite io_bind_run; [reflexivity|]. unfold transformAndWrite. erewrite io_bind_run by exact E1. exact E.
  - apply starved_bind. unfold transformAndWrite. by eapply starved_run.
Qed.

Lemma Write_plain_total draws i b (c : st) : writeState c = OBFUSCATION_WRITE_STATE_FINISHED -> exists n c', ossh_Write draws i b c = (Ok n, c').
Proof. intros Hs. unfold ossh_Write. rewrite bool_decide_true by done. destruct (conn_Write_ok b (oc_net c)) as (n & v & ->). by eexists _, _. Qed.

(** No split of a prefix is configured. *)
Definition unsplit (c : st) : Prop := osshPrefixSplitConfig (obfuscator c) = None.

Lemma split_delay_none draws i (c : st) : unsplit c -> split_delay draws i c = (Ok tt, c).
Proof. intros Hs. unfold split_delay. erewrite io_bind_run by reflexivity. by rewrite Hs. Qed.
(** The first write. *)
Lemma send_client_total draws i (c : st) : writeState c = OBFUSCATION_WRITE_STATE_CLIENT_SEND_PREAMBLE -> unsplit c -> exists c', send_first draws i c = (Ok tt, c').
Proof.
  intros Hst Hu. unfold send_first. erewrite io_bind_run by reflexivity. rewrite Hst. unfold send_client_preamble. erewrite io_bind_run by reflexivity. cbv beta iota zeta.
  set (c1 := set_obfuscator c _). set (n := preambleOSSHPrefixLength (obfuscator c)). set (msg := default [] (preamble (obfuscator c))).
  assert (exists c2, (if (0 <? n)%nat then _ ← net_write (take n msg); split_delay draws i else mret tt) c1 = (Ok tt, c2)) as (c2 & E).
  { destruct (0 <? n)%nat; [|by eexists]. unfold net_write. destruct (conn_Write_ok (take n msg) (oc_net c1)) as (m & v & E). exists (set_net c1 v).
    erewrite io_bind_run by (rewrite E; reflexivity). by apply split_delay_none. }
  erewrite io_bind_run by exact E. destruct (net_write_total (drop n msg) c2) as (c3 & E3). erewrite io_bind_run by exact E3. by eexists.
Qed.

Lemma send_server_total draws i (c : st) : writeState c = OBFUSCATION_WRITE_STATE_SERVER_SEND_PREFIX_AND_IDENTIFICATION_LINE_PADDING -> unsplit c ->
  prng_ok (oc_paddingPRNG c) -> (exists c', send_first draws i c = (Ok tt, c')) \/ starved draws (send_first draws i c).
Proof.
  intros Hst Hu Hp. unfold send_first. erewrite io_bind_run by reflexivity. rewrite Hst. unfold send_server_prefix. erewrite io_bind_run by reflexivity. cbv beta iota.
  set (c1 := set_obfuscator c _).
  assert (exists b c2, (match preamble (obfuscator c) with Some preamble => _ ← net_write (take (preambleOSSHPrefixLength (obfuscator c)) preamble);
      _ ← split_delay draws i; mret (drop (preambleOSSHPrefixLength (obfuscator c)) preamble) | None => mret [] end) c1 = (Ok b, c2) /\ oc_paddingPRNG c2 = oc_paddingPRNG c) as (b & c2 & E & Hc2).
  { destruct (preamble (obfuscator c)) as [msg|]; [|by eexists _, _]. unfold net_write.
    destruct (conn_Write_ok (take (preambleOSSHPrefixLength (obfuscator c)) msg) (oc_net c1)) as (m & v & E). eexists _, (set_net c1 v). split; [|done].
    erewrite io_bind_run by (rewrite E; reflexivity). erewrite io_bind_run by (by apply split_delay_none). reflexivity. }
  erewrite io_bind_run by exact E. unfold draw_padding. rewrite <- Hc2 in Hp.
  destruct (server_padding draws (oc_paddingPRNG c2) Hp) as [Hnf|(ns & p' & Hd & _)].
  { right. apply starved_bind. exists c2. rewrite Hnf. split; [done|by left]. }
  left.
  erewrite io_bind_run by (rewrite Hd; reflexivity). edestruct writeObfuscate_total as (b' & c3 & E3). erewrite io_bind_run by exact E3.
  edestruct net_write_total as (c4 & E4). erewrite io_bind_run by exact E4. by eexists.
Qed.

Lemma unopened_write draws i b (c : st) ws before k msg : unopened c ws before k msg -> opens ws msg -> unsplit c ->
  (exists n c', ossh_Write draws i b c = (Ok n, c')) \/ starved draws (ossh_Write draws i b c).
Proof.
  intros Hc Ho Hu. pose proof Hc as [H1 H2 H3 H4 H5 H6 H7].
  assert (Hnf : writeState c <> OBFUSCATION_WRITE_STATE_FINISHED) by (intros E; rewrite H1 in E; rewrite E in Ho; exact Ho).
  assert ((exists c1, send_first draws i c = (Ok tt, c1)) \/ starved draws (send_first draws i c)) as [(c1 & E1)|Hs].
  3: { right. unfold ossh_Write. rewrite bool_decide_false by done. apply starved_bind. unfold transformAndWrite. by apply starved_bind. }
  { destruct ws; try done; [left; by apply send_client_total|by apply send_server_total]. }
  assert (writeState c1 = OBFUSCATION_WRITE_STATE_IDENTIFICATION_LINE /\ prng_ok (oc_paddingPRNG c1)) as [Hst Hp].
  { destruct ws; try done.
    - destruct Ho as [m ->]. destruct (client_first _ _ _ _ _ m H1 H4 H5 H7 E1) as ([] & Hst & _). done.
    - destruct (server_first _ _ _ _ _ H1 H5 H7 E1) as (ns & _ & _ & [] & Hst & _). done. }
  apply (Write_total draws i b c c1 [] []); [done..|by left].
Qed.

Section Phase.
Context (before : bytes) (k : rc4) (pre line : bytes) (ps : list bytes) (rest : bytes).
Hypothesis Hline : is_line line.
Hypothesis Hpackets : Forall (is_packet SSH_MAX_PACKET_LENGTH) ps.
Hypothesis Hnewkeys : until_newkeys ps.

Lemma phase_write draws i b bs (c : st) : phase before k pre line ps rest c (b :: bs) ->
  (exists n c', ossh_Write draws i b c = (Ok n, c')) \/ starved draws (ossh_Write draws i b c).
Proof.
  intros Hph. inversion Hph as [r0 r1 r2 Hw Hst Hidx Hr0 Hr1 Hr2 E|r1 r2 qs qs' Hw Hst Hq Hnk Hinc Hr1 Hr2 E|r2 t ps' Hw Hst Hps Hr2 E].
  - apply (Write_total draws i b c c [] []); [by rewrite Hst| |apply Hw|done|by left].
    unfold send_first. erewrite io_bind_run by reflexivity. by rewrite Hst.
  - destruct r1 as [|b1 r1]; [exfalso; cbn in Hr1; rewrite app_nil_r in Hr1; by eapply packets_left|]. injection E as -> <-.
    cbn [concat] in Hr1. rewrite (app_assoc (writeBuffer c)) in Hr1.
    destruct (first_packets ps Hpackets qs ((writeBuffer c ++ b) ++ concat r1) (repadded_packets _ _ Hq) Hr1) as (rs & Hrs & Hwb).
    apply (Write_total draws i b c c (concat r1) rs); [by rewrite Hst| |apply Hw| |by right].
    + unfold send_first. erewrite io_bind_run by reflexivity. by rewrite Hst.
    + rewrite Hrs in Hpackets. by apply Forall_app in Hpackets as [_ ?].
  - left. by apply Write_plain_total.
Qed.

Lemma phase_run draws i size ops : Forall (fun n => 0 < n /\ size <= n)%nat (reads_of ops) ->
  forall (c : st) todo, phase before k pre line ps rest c (writes_of ops) -> awaiting size c todo ->
  (exists got c', run_ops draws i ops c = (Ok got, c')) \/ starved draws (run_ops draws i ops c).
Proof.
  induction ops as [|[n|b] ops IH]; intros Hsz c todo Hph Ha; cbn [run_ops writes_of reads_of omap list_omap] in *.
  - left. by eexists _, _.
  - apply list.Forall_cons in Hsz as [[Hn Hs] Hsz]. destruct (await_step size n c todo Hn Hs Ha) as (b & err & c1 & todo' & E & Ha' & _).
    destruct (IH Hsz c1 todo') as [(got & c' & Hrun)|Hst]; [|done| |right; eapply starved_run; [exact E|by apply starved_bind]].
    + eapply phase_view; [|exact Hph]. pose proof (ossh_Read_keeps n c) as Hk. by rewrite E in Hk.
    + left. erewrite io_bind_run by exact E. cbv beta iota. erewrite io_bind_run by exact Hrun. by eexists _, _.
  - destruct (phase_write draws i _ _ _ Hph) as [(n & c1 & E)|Hst]; [|right; by apply starved_bind].
    destruct (IH Hsz c1 todo) as [(got & c' & Hrun)|Hst]; [by eapply phase_step| | |right; by eapply starved_run].
    + eapply awaiting_view; [|exact Ha]. pose proof (ossh_Write_keeps draws i b c) as Hk. by rewrite E in Hk.
    + left. erewrite io_bind_run by exact E. by eexists _, _.
Qed.
End Phase.

Lemma unopened_run draws i size r0 r1 r2 ws before k msg line ps rest ops : is_line line -> Forall (is_packet SSH_MAX_PACKET_LENGTH) ps -> until_newkeys ps ->
  opens ws msg -> concat r0 = line -> concat r1 = concat ps -> concat r2 = rest -> Forall (fun n => 0 < n /\ size <= n)%nat (reads_of ops) ->
  forall (c : st) todo, unopened c ws before k msg -> unsplit c -> writes_of ops = r0 ++ r1 ++ r2 -> awaiting size c todo ->
  (exists got c', run_ops draws i ops c = (Ok got, c')) \/ starved draws (run_ops draws i ops c).
Proof.
  intros Hl Hp Hn Ho Hr0 Hr1 Hr2. destruct r0 as [|b r0].
  { exfalso. cbn in Hr0. subst line. unfold is_line in Hl. by cbn in Hl. }
  induction ops as [|[n|b'] ops IH]; intros Hsz c todo Hc Hu Hw Ha; cbn [run_ops writes_of reads_of omap list_omap] in *; [done|..].
  - apply list.Forall_cons in Hsz as [[Hn0 Hs] Hsz]. destruct (await_step size n c todo Hn0 Hs Ha) as (bb & err & c1 & todo' & E & Ha' & _).
    pose proof (ossh_Read_keeps n c) as Hk. rewrite E in Hk. cbn [snd] in Hk.
    destruct (IH Hsz c1 todo') as [(got & c' & Hrun)|Hst]; [by eapply unopened_view| |done|done| |right; eapply starved_run; [exact E|by apply starved_bind]].
    + unfold unsplit in *. unfold write_view in Hk. injection Hk as E1 E2 E3 E4 E5 E6 E7 E8 E9 E10. congruence.
    + left. erewrite io_bind_run by exact E. cbv beta iota. erewrite io_bind_run by exact Hrun. by eexists _, _.
  - injection Hw as -> Hw. destruct (unopened_write draws i b c ws before k msg Hc Ho Hu) as [(n & c1 & E)|Hst]; [|right; by apply starved_bind].
    destruct (opening _ _ _ r0 r1 r2 _ _ _ _ _ _ _ _ _ _ Hc Ho Hl Hr0 Hr1 Hr2 E) as (pre & Hpre & Hph).
    destruct (phase_run (before ++ default [] msg) k pre line ps rest Hl Hp Hn draws i size ops Hsz c1 todo) as [(got & c' & Hrun)|Hst]; [unfold writes_of; by rewrite Hw| | |right; by eapply starved_run].
    + eapply awaiting_view; [|exact Ha]. pose proof (ossh_Write_keeps draws i b c) as Hk. by rewrite E in Hk.
    + left. erewrite io_bind_run by exact E. by eexists _, _.
Qed.
End Writing.

(** ** Both ends *)

Lemma server_unsplit `{Digests} Generate {V} `{!UnderlyingConn V} sa now clientIP newSeed sn (v : V) h sc :
  (NewServerObfuscatedSSHConn Generate sa now clientIP newSeed sn v h).1 = Ok sc -> unsplit sc.
Proof.
  unfold NewServerObfuscatedSSHConn. destruct (NewServerObfuscator _ _ _ _ _ _) as [o s1] eqn:Ho. cbn [fst].
  intros (o' & -> & (rng & _ & [= <-])%res_bind_ok)%res_bind_ok. unfold NewServerObfuscator in Ho. case_bool_decide; [done|].
  apply io_bind_ok in Ho as ([[[a1 a2] a3] a4] & s2 & _ & Ho). apply io_bind_ok in Ho as ([msg n] & s3 & _ & Ho).
  apply io_bind_ok in Ho as (p & s4 & _ & [= <- _]). done.
Qed.

Lemma end_progress `{Digests} {U} `{!UnderlyingConn U} `{!ReliableConn U} draws i s size (c : ObfuscatedSSHConn U) ws k todo : script_ok s ->
  Forall (fun n => size <= n)%nat (reads_of (s_ops s)) -> (0 < size)%nat -> opens ws (preamble (obfuscator c)) ->
  unopened c ws [] k (preamble (obfuscator c)) -> unsplit c -> awaiting size c todo ->
  (exists got c', run_ops draws i (s_ops s) c = (Ok got, c')) \/ starved draws (run_ops draws i (s_ops s) c).
Proof.
  intros [[Hl _] _ Hps Hnk (r0 & r1 & r2 & Hw & H0 & H1 & H2)] Hf Hpos Ho Hc Hu Ha.
  eapply (unopened_run draws i size r0 r1 r2); [exact Hl| |exact Hnk|exact Ho|exact H0|exact H1|exact H2| |exact Hc|exact Hu|exact Hw|exact Ha].
  - eapply list.Forall_impl; [exact Hps|]. intros p. apply packet_weaken. unfold SSH_MAX_PADDING_LENGTH. lia.
  - eapply list.Forall_impl; [exact Hf|]. cbn. lia.
Qed.

(** C3: Over a network that does not fail, when each end of an obfuscated SSH session receives
    what the other sends, no read or write of either end fails: all the operations of an end
    succeed, or they stop at a draw of its own pseudorandom generator that, from the state in
    which the generator then is, has used up the fuel of its loop.  No prefix split is
    configured, and the buffers of the reads are at least as large as the packet of the other
    end that carries SSH_MSG_NEWKEYS. *)
Theorem ossh_progress `{Digests} Generate {U V} `{!UnderlyingConn U} `{!UnderlyingConn V} `{!ReliableConn U} `{!ReliableConn V} draws i j ca random cn (u : U) cl
    sa now clientIP newSeed sn (v : V) h sc cs ss cps sps :
  established Generate draws ca random cn u cl sa now clientIP newSeed sn v h sc -> script_ok cs -> script_ok ss ->
  Forall (fun n => newkeys_size ss <= n)%nat (reads_of (s_ops cs)) -> Forall (fun n => newkeys_size cs <= n)%nat (reads_of (s_ops ss)) ->
  ca_splitConfig ca = None -> transmits cl cs cps (stream sn) -> transmits sc ss sps (stream cn) ->
  ((exists cgot cl', run_ops draws i (s_ops cs) cl = (Ok cgot, cl')) \/ starved draws (run_ops draws i (s_ops cs) cl)) /\
  ((exists sgot sc', run_ops draws j (s_ops ss) sc = (Ok sgot, sc')) \/ starved draws (run_ops draws j (s_ops ss) sc)).
Proof.
  intros Hest Hcs Hss Hcr Hsr Hsplit Hct Hst. assert (forall s, 0 < newkeys_size s)%nat as Hpos by (intros s; unfold newkeys_size, SSH_MAX_PADDING_LENGTH; lia).
  destruct (client_established _ _ _ _ _ u cl _ _ _ _ _ v _ sc Hest) as (Huc & Hmsg & Hcu).
  destruct (server_established _ _ _ _ _ u cl _ _ _ _ _ v _ sc _ _ Hest Hcs Hct) as (Hus & Has & _).
  pose proof (client_awaits _ _ _ _ _ u cl _ _ _ _ _ v _ sc _ _ _ _ Hest Hcs Hss Hct Hst) as Hac.
  assert (unsplit cl) as Huncl by (unfold unsplit; congruence).
  pose proof (server_unsplit _ _ _ _ _ _ _ _ _ (est_server _ _ _ _ _ _ _ _ _ _ _ _ _ _ _ Hest)) as Hunsc. split.
  - exact (end_progress draws i cs (newkeys_size ss) cl OBFUSCATION_WRITE_STATE_CLIENT_SEND_PREAMBLE _ _ Hcs Hcr (Hpos ss) Hmsg Huc Huncl Hac).
  - exact (end_progress draws j ss (newkeys_size cs) sc OBFUSCATION_WRITE_STATE_SERVER_SEND_PREFIX_AND_IDENTIFICATION_LINE_PADDING _ _ Hss Hsr (Hpos cs) I Hus Hunsc Has).
Qed.

(** ** The example session *)

#[local] Existing Instance padded_digests.
#[local] Existing Instance wire.
#[local] Instance wire_reliable : ReliableConn (list bytes).
Proof. split. intros b u. by exists (length b), (u ++ [b]). Qed.

(** In the example no draw uses up its fuel, and both ends succeed. *)
Lemma ossh_progress_witness : exists cl sc,
  established no_generator 8 example_client_args example_random downstream [] cl example_server_args 0 "192.0.2.1" (Err "no seed") upstream [] None sc /\
  (exists cgot cl', run_ops 8 false (s_ops (example_script "up" true)) cl = (Ok cgot, cl')) /\
  (exists sgot sc', run_ops 8 false (s_ops (example_script "down" true)) sc = (Ok sgot, sc')).
Proof.
  destruct (checked_runs _ _ _ _ _ _ example_run) as (cl & sc & cl' & sc' & cgot & sgot & Ecl & Esc & Rcl & Rsc & H1 & H2 & H3).
  pose proof (ends_established cl sc downstream upstream Ecl Esc H3 eq_refl eq_refl) as Hest.
  destruct (both_transmit no_generator 8 false false example_client_args example_random downstream [] cl example_server_args 0 "192.0.2.1" (Err "no seed") upstream [] None sc
    (example_script "up" true) (example_script "down" true) cl' sc' cgot sgot Hest (example_script_ok _ _) (example_script_ok _ _) Rcl Rsc H1 H2) as (cps & sps & Hct & Hst).
  exists cl, sc. split; [exact Hest|].
  destruct (ossh_progress no_generator 8 false false example_client_args example_random downstream [] cl example_server_args 0 "192.0.2.1" (Err "no seed") upstream [] None sc
    (example_script "up" true) (example_script "down" true) cps sps Hest) as [Hc Hs];
    [apply example_script_ok|apply example_script_ok|apply example_reads_fit|apply example_reads_fit|reflexivity|exact Hct|exact Hst|].
  split; [destruct Hc as [Hc|(c & E & _)]; [exact Hc|]|destruct Hs as [Hs|(c & E & _)]; [exact Hs|]].
  - rewrite Rcl in E. discriminate E.
  - rewrite Rsc in E. discriminate E.
Defined.
