(* ===== verification/Regen.v ===== *)
(** * Strings generated from regular expressions

    Models src/psiphon/common/regen: the generator of random strings that match a regular
    expression, its character classes and its random numbers.

    The parser and the simplifier of regexp/syntax are those of a class, [RegexpSyntax], with
    their documented behaviour; the syntax tree and what it matches are modelled, zero-width
    assertions included: they look at the text before and after.  Of a literal only the
    exact match is modelled, not case folding, by which it can match more. *)

From Stdlib Require Import ZArith Lia Strings.Byte Strings.String.
From stdpp Require Import base list strings numbers.
From S2P Require Import Prelude.
From S2P Require Import GoIO.
#[local] Open Scope string_scope.
#[local] Open Scope Z_scope.
#[local] Open Scope list_scope.

(** ** Random numbers *)

(** A 64-bit xor-shift source; the state is a [uint64]. *)
Definition xorShift64 (src : Z) : Z :=
  let src := if src =? 0 then 1 else src in
  let src := Z.lxor src (Z.shiftr src 12) in
  let src := Z.lxor src (wrapU 64 (Z.shiftl src 25)) in
  Z.lxor src (Z.shiftr src 27).

Definition xs_Int63 : io Z Z := fun src =>
  let src := xorShift64 src in (Ok (Z.shiftr (wrapU 64 (src * 2685821657736338717)) 1), src).

(** [rand.Rand] on this source. *)
Definition xs_Int31 : io Z Z := v ← xs_Int63; mret (Z.shiftr v 32).

Fixpoint xs_below (fuel : nat) (draw : io Z Z) (max n : Z) : io Z Z :=
  match fuel with
  | O => io_lift NoFuel
  | S fuel => v ← draw; if max <? v then xs_below fuel draw max n else mret (v mod n)
  end.

Definition xs_Int31n (fuel : nat) (n : Z) : io Z Z :=
  if n <=? 0 then io_lift (Panic "invalid argument to Int31n")
  else if Z.land n (n - 1) =? 0 then v ← xs_Int31; mret (Z.land v (n - 1))
  else xs_below fuel xs_Int31 (2 ^ 31 - 1 - 2 ^ 31 mod n) n.

Definition xs_Int63n (fuel : nat) (n : Z) : io Z Z :=
  if n <=? 0 then io_lift (Panic "invalid argument to Int63n")
  else if Z.land n (n - 1) =? 0 then v ← xs_Int63; mret (Z.land v (n - 1))
  else xs_below fuel xs_Int63 (2 ^ 63 - 1 - 2 ^ 63 mod n) n.

Definition xs_Intn (fuel : nat) (n : Z) : io Z Z :=
  if n <=? 0 then io_lift (Panic "invalid argument to Intn")
  else if n <=? 2 ^ 31 - 1 then xs_Int31n fuel n else xs_Int63n fuel n.

(** ** Syntax trees *)

Inductive Op :=
| OpNoMatch | OpEmptyMatch | OpLiteral | OpCharClass | OpAnyCharNotNL | OpAnyChar | OpBeginLine | OpEndLine | OpBeginText | OpEndText
| OpWordBoundary | OpNoWordBoundary | OpCapture | OpStar | OpPlus | OpQuest | OpRepeat | OpConcat | OpAlternate.

#[export] Instance op_eq_dec : EqDecision Op.
Proof. solve_decision. Defined.

(** [syntax.Regexp] *)
Inductive Regexp := RE {
  re_Op : Op;
  re_Flags : Z;
  re_Sub : list Regexp;
  re_Rune : list Z;
  re_Min : Z;
  re_Max : Z;
  re_Cap : Z;
  re_Name : string
}.

Definition MaxRune : Z := 0x10FFFF.
Definition newline : Z := 10.

Definition rune_ok (x : Z) : Prop := 0 <= x <= MaxRune.

(** The runes of a character class are given by pairs of bounds. *)
Fixpoint in_class (runes : list Z) (x : Z) : Prop :=
  match runes with
  | lo :: hi :: runes => lo <= x <= hi \/ in_class runes x
  | _ => False
  end.

Definition empty_op (op : Op) : bool :=
  match op with
  | OpEmptyMatch | OpBeginLine | OpEndLine | OpBeginText | OpEndText | OpWordBoundary | OpNoWordBoundary => true
  | _ => false
  end.

(** How often the subexpression is repeated; [-1] is no bound. *)
Definition repeat_bounds (r : Regexp) : option (Z * Z) :=
  match re_Op r with
  | OpStar => Some (0, -1)
  | OpPlus => Some (1, -1)
  | OpQuest => Some (0, 1)
  | OpRepeat => Some (re_Min r, re_Max r)
  | _ => None
  end.

Definition in_bounds (min max : Z) (n : nat) : Prop := min <= Z.of_nat n /\ (max = -1 \/ Z.of_nat n <= max).

Definition is_word (x : Z) : bool :=
  ((48 <=? x) && (x <=? 57)) || ((65 <=? x) && (x <=? 90)) || ((97 <=? x) && (x <=? 122)) || (x =? 95).

(** The rune just before the position. *)
Definition before (pre : list Z) : option Z := head (reverse pre).

(** Whether an empty string matches between [pre] and [post]. *)
Definition assertion_holds (op : Op) (pre post : list Z) : bool :=
  let word o := match o with Some x => is_word x | None => false end in
  match op with
  | OpEmptyMatch => true
  | OpBeginText => bool_decide (pre = [])
  | OpEndText => bool_decide (post = [])
  | OpBeginLine => bool_decide (pre = [] \/ before pre = Some newline)
  | OpEndLine => bool_decide (post = [] \/ head post = Some newline)
  | OpWordBoundary => negb (Bool.eqb (word (before pre)) (word (head post)))
  | OpNoWordBoundary => Bool.eqb (word (before pre)) (word (head post))
  | _ => false
  end.

(** [matches nl skip pre r w post]: an expression matches the runes [w] of the text
    [pre ++ w ++ post].  With [nl], the dot that excludes it matches a newline too; with
    [skip], the zero-width assertions hold everywhere.  Without either, this is what a
    regular expression matches. *)
Inductive matches (nl skip : bool) : list Z -> Regexp -> list Z -> list Z -> Prop :=
| match_empty pre r post : empty_op (re_Op r) = true -> skip = true \/ assertion_holds (re_Op r) pre post = true -> matches nl skip pre r [] post
| match_literal pre r post : re_Op r = OpLiteral -> matches nl skip pre r (re_Rune r) post
| match_class pre r x post : re_Op r = OpCharClass -> in_class (re_Rune r) x -> matches nl skip pre r [x] post
| match_any pre r x post : re_Op r = OpAnyChar -> rune_ok x -> matches nl skip pre r [x] post
| match_any_not_nl pre r x post : re_Op r = OpAnyCharNotNL -> rune_ok x -> (x = newline -> nl = true) -> matches nl skip pre r [x] post
| match_repeat pre r sub min max n w post : repeat_bounds r = Some (min, max) -> re_Sub r = [sub] -> in_bounds min max n ->
    matches_seq nl skip pre (replicate n sub) w post -> matches nl skip pre r w post
| match_concat pre r w post : re_Op r = OpConcat -> matches_seq nl skip pre (re_Sub r) w post -> matches nl skip pre r w post
| match_alternate pre r sub w post : re_Op r = OpAlternate -> sub ∈ re_Sub r -> matches nl skip pre sub w post -> matches nl skip pre r w post
| match_capture pre r sub w post : re_Op r = OpCapture -> re_Sub r = [sub] -> matches nl skip pre sub w post -> matches nl skip pre r w post
(** Expressions that match one after the other. *)
with matches_seq (nl skip : bool) : list Z -> list Regexp -> list Z -> list Z -> Prop :=
| seq_nil pre post : matches_seq nl skip pre [] [] post
| seq_cons pre r rs w ws post : matches nl skip pre r w (ws ++ post) -> matches_seq nl skip (pre ++ w) rs ws post ->
    matches_seq nl skip pre (r :: rs) (w ++ ws) post.

Scheme matches_ind' := Minimality for matches Sort Prop
  with matches_seq_ind' := Minimality for matches_seq Sort Prop.
Combined Scheme matches_mutind from matches_ind', matches_seq_ind'.

(** An expression that looks at nothing but the runes it matches. *)
Inductive assertion_free : Regexp -> Prop :=
| free_re r : (empty_op (re_Op r) = true -> re_Op r = OpEmptyMatch) -> Forall assertion_free (re_Sub r) -> assertion_free r.

Definition begins (r : Regexp) : Prop := re_Op r = OpBeginText \/ re_Op r = OpBeginLine.
Definition ends (r : Regexp) : Prop := re_Op r = OpEndText \/ re_Op r = OpEndLine.

(** An expression whose assertions, if any, are that the text begins, at its beginning, and
    that the text ends, at its end. *)
Definition edge_anchored (r : Regexp) : Prop :=
  assertion_free r \/
  re_Op r = OpConcat /\ exists bs mid es, re_Sub r = bs ++ mid ++ es /\ Forall begins bs /\ Forall assertion_free mid /\ Forall ends es.

(** The runes of a tree are runes, and the bounds of its repetitions are at most 1000. *)
Inductive wf_regexp : Regexp -> Prop :=
| wf_re r : Forall rune_ok (re_Rune r) -> 0 <= re_Min r <= 1000 -> -1 <= re_Max r <= 1000 -> Forall wf_regexp (re_Sub r) -> wf_regexp r.

(** [syntax.Parse] and [Simplify], which returns an equivalent expression: it rewrites
    repetitions, whatever the dot and the assertions are taken to match. *)
Class RegexpSyntax := {
  Parse : string -> Z -> res Regexp;
  Simplify : Regexp -> Regexp;
  Parse_wf pattern flags r : Parse pattern flags = Ok r -> wf_regexp r;
  Simplify_wf r : wf_regexp r -> wf_regexp (Simplify r);
  Simplify_equivalent nl skip pre r w post : wf_regexp r -> matches nl skip pre (Simplify r) w post <-> matches nl skip pre r w post
}.

(** ** Runes *)

(** A rune that is not valid is written as U+FFFD. *)
Definition valid_rune (r : Z) : bool := (0 <=? r) && (r <=? MaxRune) && negb ((0xD800 <=? r) && (r <=? 0xDFFF)).
Definition RuneError : Z := 0xFFFD.

(** [bytes.Buffer.WriteRune] *)
Definition WriteRune (r : Z) : bytes :=
  let r := if valid_rune r then r else RuneError in
  if r <? 0x80 then [z2b r]
  else if r <? 0x800 then [z2b (Z.lor 0xC0 (Z.shiftr r 6)); z2b (Z.lor 0x80 (Z.land r 0x3F))]
  else if r <? 0x10000 then [z2b (Z.lor 0xE0 (Z.shiftr r 12)); z2b (Z.lor 0x80 (Z.land (Z.shiftr r 6) 0x3F)); z2b (Z.lor 0x80 (Z.land r 0x3F))]
  else [z2b (Z.lor 0xF0 (Z.shiftr r 18)); z2b (Z.lor 0x80 (Z.land (Z.shiftr r 12) 0x3F)); z2b (Z.lor 0x80 (Z.land (Z.shiftr r 6) 0x3F)); z2b (Z.lor 0x80 (Z.land r 0x3F))].

Definition runesToUTF8 (runes : list Z) : bytes := concat (map WriteRune runes).

Fixpoint runesToBytes (runes : list Z) : res bytes :=
  match runes with
  | [] => Ok []
  | r :: runes => if (r <? 0) || (255 <? r) then Err "RunesToBytes: rune out of range" else b ← runesToBytes runes; Ok (z2b r :: b)
  end.

(** ** Character classes *)

Record tCharClassRange := { Start : Z; Size : Z }.
Record tCharClass := { Ranges : list tCharClassRange; TotalSize : Z }.

Definition newCharClassRange (start end_ : Z) : res tCharClassRange :=
  let size := wrapS 32 (end_ - start + 1) in
  if size <? 1 then Panic "char class range size must be at least 1" else Ok {| Start := start; Size := size |}.

Definition newCharClass (start end_ : Z) : res tCharClass :=
  charRange ← newCharClassRange start end_;
  Ok {| Ranges := [charRange]; TotalSize := Size charRange |}.

Fixpoint char_ranges (runes : list Z) (totalSize : Z) : res tCharClass :=
  match runes with
  | start :: end_ :: runes =>
      r ← newCharClassRange (if start =? 0 then 1 else start) end_;
      c ← char_ranges runes (wrapS 32 (totalSize + Size r));
      Ok {| Ranges := r :: Ranges c; TotalSize := TotalSize c |}
  | _ => Ok {| Ranges := []; TotalSize := totalSize |}
  end.

Definition parseCharClass (runes : list Z) : res tCharClass := char_ranges runes 0.

Fixpoint byte_ranges (runes : list Z) (totalSize : Z) : res tCharClass :=
  match runes with
  | start :: end_ :: runes =>
      if start <=? 255 then
        r ← newCharClassRange start (if 255 <? end_ then 255 else end_);
        c ← byte_ranges runes (wrapS 32 (totalSize + Size r));
        Ok {| Ranges := r :: Ranges c; TotalSize := TotalSize c |}
      else byte_ranges runes totalSize
  | _ => Ok {| Ranges := []; TotalSize := totalSize |}
  end.

(** [None] when no byte is in the class. *)
Definition parseByteClass (runes : list Z) : res (option tCharClass) :=
  c ← byte_ranges runes 0;
  Ok (if bool_decide (Ranges c = []) then None else Some c).

Fixpoint rune_at (ranges : list tCharClassRange) (i : Z) : res Z :=
  match ranges with
  | [] => Panic "index out of bounds"
  | r :: ranges => if i <? Size r then Ok (wrapS 32 (Start r + i)) else rune_at ranges (i - Size r)
  end.

Definition GetRuneAt (class : tCharClass) (i : Z) : res Z := rune_at (Ranges class) i.

(** ** Generators *)

Definition DefaultMaxUnboundedRepeatCount : Z := 4096.
Definition noBound : Z := -1.

Definition UnicodeGroups : Z := 128.
Definition Perl : Z := 4 + 16 + 64 + 128.

(** A generator draws from the source. *)
Abbreviation generator := (io Z bytes).

Record GeneratorArgs := {
  Flags : Z;
  MaxUnboundedRepeatCount : Z;
  MinUnboundedRepeatCount : Z;
  CaptureGroupHandler : option (Z -> string -> Regexp -> generator -> generator);
  ByteMode : bool
}.

Definition default_args : GeneratorArgs :=
  {| Flags := 0; MaxUnboundedRepeatCount := 0; MinUnboundedRepeatCount := 0; CaptureGroupHandler := None; ByteMode := false |}.

(** The repeat counts, checked. *)
Definition initialize (a : GeneratorArgs) : res GeneratorArgs :=
  if (Z.land (Flags a) UnicodeGroups =? UnicodeGroups) && negb (Z.land (Flags a) Perl =? Perl) then Err "UnicodeGroups not supported"
  else
    let max := if MaxUnboundedRepeatCount a <? 1 then DefaultMaxUnboundedRepeatCount else MaxUnboundedRepeatCount a in
    if max <? MinUnboundedRepeatCount a then Err "MinUnboundedRepeatCount > MaxUnboundedRepeatCount"
    else Ok {| Flags := Flags a; MaxUnboundedRepeatCount := max; MinUnboundedRepeatCount := MinUnboundedRepeatCount a;
               CaptureGroupHandler := CaptureGroupHandler a; ByteMode := ByteMode a |}.

(** [internalGenerator.Generate]: a panic is an error. *)
Definition Generate (gen : generator) : generator := fun rng =>
  match gen rng with (Panic e, rng) => (Err ("panicked on bad input: Generate: " +:+ e), rng) | r => r end.

Definition enforceOp (r : Regexp) (op : Op) : res unit := if bool_decide (re_Op r = op) then Ok tt else Panic "invalid Op".

Definition enforceSingleSub (r : Regexp) : res Regexp :=
  match re_Sub r with [sub] => Ok sub | _ => Err "expected 1 sub-expression" end.

(** [generatorError] with a cause *)
Definition wrap_error {A} (r : res A) (e : string) : res A := match r with Err cause => Err (e +:+ " caused by " +:+ cause) | r => r end.

Section Generators.
Context `{RegexpSyntax}.
(** The number of draws after which a loop for a random number is given up. *)
Context (draws : nat) (args : GeneratorArgs).

(** Runes in the form of the mode. *)
Definition emit_runes (runes : list Z) : generator :=
  if ByteMode args then io_lift (runesToBytes runes) else mret (runesToUTF8 runes).

Definition noop (r : Regexp) : res generator := Ok (mret []).

Definition opEmptyMatch (r : Regexp) : res generator := _ ← enforceOp r OpEmptyMatch; Ok (mret []).

Definition opLiteral (r : Regexp) : res generator := _ ← enforceOp r OpLiteral; Ok (emit_runes (re_Rune r)).

Definition opAnyChar (r : Regexp) : res generator :=
  _ ← enforceOp r OpAnyChar;
  Ok (if ByteMode args then i ← xs_Intn draws 256; emit_runes [i] else i ← xs_Int31; emit_runes [i]).

Definition createCharClassGenerator (charClass : tCharClass) : res generator :=
  Ok (i ← xs_Int31n draws (TotalSize charClass); r ← io_lift (GetRuneAt charClass i); emit_runes [r]).

Definition opAnyCharNotNl (r : Regexp) : res generator :=
  _ ← enforceOp r OpAnyCharNotNL;
  charClass ← (if ByteMode args then newCharClass 0 255 else newCharClass 1 (2 ^ 31 - 1));
  createCharClassGenerator charClass.

Definition opCharClass (r : Regexp) : res generator :=
  _ ← enforceOp r OpCharClass;
  if ByteMode args then
    c ← parseByteClass (re_Rune r);
    match c with
    | None => Err "invalid byte class"
    | Some charClass => createCharClassGenerator charClass
    end
  else charClass ← parseCharClass (re_Rune r); createCharClassGenerator charClass.

(** The generators of subexpressions. *)
Context (newGenerator : Regexp -> res generator).

(** The generators one after the other. *)
Fixpoint generate_in_order (gens : list generator) : generator :=
  match gens with
  | [] => mret []
  | gen :: gens => b ← Generate gen; bs ← generate_in_order gens; mret (b ++ bs)
  end.

Definition createRepeatingGenerator (r : Regexp) (min max : Z) : res generator :=
  sub ← enforceSingleSub r;
  gen ← wrap_error (newGenerator sub) "failed to create generator for subexpression";
  let min := if min =? noBound then wrapS 64 (MinUnboundedRepeatCount args) else min in
  let max := if max =? noBound then wrapS 64 (MaxUnboundedRepeatCount args) else max in
  Ok (n ← xs_Intn draws (wrapS 64 (max - min + 1)); generate_in_order (replicate (Z.to_nat (wrapS 64 (min + n))) gen)).

Definition opQuest (r : Regexp) : res generator := _ ← enforceOp r OpQuest; createRepeatingGenerator r 0 1.
Definition opStar (r : Regexp) : res generator := _ ← enforceOp r OpStar; createRepeatingGenerator r noBound noBound.
Definition opPlus (r : Regexp) : res generator := _ ← enforceOp r OpPlus; createRepeatingGenerator r 1 noBound.
Definition opRepeat (r : Regexp) : res generator := _ ← enforceOp r OpRepeat; createRepeatingGenerator r (re_Min r) (re_Max r).

Fixpoint newGenerators (regexps : list Regexp) : res (list generator) :=
  match regexps with
  | [] => Ok []
  | r :: regexps => gen ← newGenerator r; gens ← newGenerators regexps; Ok (gen :: gens)
  end.

Definition opConcat (r : Regexp) : res generator :=
  _ ← enforceOp r OpConcat;
  gens ← wrap_error (newGenerators (re_Sub r)) "error creating generators for concat pattern";
  Ok (generate_in_order gens).

Definition opAlternate (r : Regexp) : res generator :=
  _ ← enforceOp r OpAlternate;
  gens ← wrap_error (newGenerators (re_Sub r)) "error creating generators for alternate pattern";
  Ok (i ← xs_Intn draws (Z.of_nat (length gens));
      match gens !! Z.to_nat i with Some gen => Generate gen | None => io_lift (Panic "index out of range") end).

Definition opCapture (r : Regexp) : res generator :=
  _ ← enforceOp r OpCapture;
  sub ← enforceSingleSub r;
  gen ← newGenerator sub;
  Ok (match CaptureGroupHandler args with
      | Some handler => handler (re_Cap r - 1) (re_Name r) sub (Generate gen)
      | None => Generate gen
      end).

(** The table of factories. *)
Definition generatorFactories (op : Op) : option (Regexp -> res generator) :=
  match op with
  | OpEmptyMatch => Some opEmptyMatch
  | OpLiteral => Some opLiteral
  | OpAnyCharNotNL => Some opAnyCharNotNl
  | OpAnyChar => Some opAnyChar
  | OpQuest => Some opQuest
  | OpStar => Some opStar
  | OpPlus => Some opPlus
  | OpRepeat => Some opRepeat
  | OpCharClass => Some opCharClass
  | OpConcat => Some opConcat
  | OpAlternate => Some opAlternate
  | OpCapture => Some opCapture
  | OpBeginLine | OpEndLine | OpBeginText | OpEndText | OpWordBoundary | OpNoWordBoundary => Some noop
  | OpNoMatch => None
  end.
End Generators.

Section NewGenerator.
Context `{RegexpSyntax} (draws : nat).

(** [fuel] bounds the depth of the calls. *)
Fixpoint newGenerator (fuel : nat) (args : GeneratorArgs) (r : Regexp) : res generator :=
  match fuel with
  | O => NoFuel
  | S fuel =>
      let simplified := Simplify r in
      match generatorFactories draws args (newGenerator fuel args) (re_Op simplified) with
      | Some factory => factory simplified
      | None => Err "invalid generator pattern"
      end
  end.

Definition negatedClasses : list string := ["[^"; "[[:^"; "\P"; "\D"; "\S"; "\W"].

Definition string_Contains (s sub : string) : bool := bool_decide (is_Some (bytes_Index (list_byte_of_string s) (list_byte_of_string sub))).

(** The seed of the source is drawn from [RngSource], or from the default source; the
    generator is returned with its source. *)
Definition NewGenerator (fuel : nat) (pattern : string) (inputArgs : option GeneratorArgs) (seed : Z) : res (generator * Z) :=
  let result :=
    args ← initialize (default default_args inputArgs);
    if ByteMode args && existsb (string_Contains pattern) negatedClasses then Err "negated character classes are not supported"
    else if ByteMode args && string_Contains pattern "\x{" then Err "only two digit hex codes are supported in byte mode"
    else
      regexp ← Parse pattern (Flags args);
      gen ← newGenerator fuel args regexp;
      Ok (Generate gen, wrapU 64 seed) in
  match result with Panic e => Err ("panicked on bad input: NewGenerator: " +:+ e) | r => r end.

Definition GenerateString (fuel : nat) (pattern : string) (seed : Z) : res bytes :=
  '(gen, rng) ← NewGenerator fuel pattern None seed;
  (gen rng).1.
End NewGenerator.

(** ** The source *)

Lemma xor_shift_nonzero a b : a <> b -> Z.lxor a b <> 0.
Proof. intros Hn E. apply Hn. by apply Z.lxor_eq. Qed.

Lemma lxor_range n a b : 0 <= n -> 0 <= a < 2 ^ n -> 0 <= b < 2 ^ n -> 0 <= Z.lxor a b < 2 ^ n.
Proof.
  intros Hn Ha Hb. assert (0 <= Z.lxor a b) by (apply Z.lxor_nonneg; lia). split; [done|].
  assert (Z.shiftr (Z.lxor a b) n = 0) as E by (rewrite Z.shiftr_lxor, !shiftr_div, !Z.div_small by lia; done).
  rewrite shiftr_div in E by done. apply Z.div_small_iff in E; lia.
Qed.

Lemma xor_shiftr_ok x k : 0 < k -> 0 < x < 2 ^ 64 -> 0 < Z.lxor x (Z.shiftr x k) < 2 ^ 64.
Proof.
  intros Hk Hx. assert (0 <= Z.shiftr x k < x) as Hs.
  { rewrite Z.shiftr_div_pow2 by lia. split; [apply Z.div_pos; lia|]. apply Z.div_lt; [lia|]. apply (Z.pow_gt_1 2 k); lia. }
  pose proof (lxor_range 64 x (Z.shiftr x k) ltac:(lia) ltac:(lia) ltac:(lia)). pose proof (xor_shift_nonzero x (Z.shiftr x k) ltac:(lia)). lia.
Qed.

Lemma xor_shiftl_ok x : 0 < x < 2 ^ 64 -> 0 < Z.lxor x (wrapU 64 (Z.shiftl x 25)) < 2 ^ 64.
Proof.
  intros Hx. unfold wrapU. pose proof (Z.mod_pos_bound (Z.shiftl x 25) (2 ^ 64) ltac:(lia)) as Hm.
  pose proof (lxor_range 64 x (Z.shiftl x 25 mod 2 ^ 64) ltac:(lia) ltac:(lia) Hm). enough (x <> Z.shiftl x 25 mod 2 ^ 64) as Hn by (apply xor_shift_nonzero in Hn; lia).
  intros E. rewrite Z.shiftl_mul_pow2 in E by lia. assert ((2 ^ 64 | (2 ^ 25 - 1) * x)) as Hd.
  { exists (x * 2 ^ 25 / 2 ^ 64). pose proof (Z.div_mod (x * 2 ^ 25) (2 ^ 64) ltac:(lia)). lia. }
  apply Z.gauss in Hd; [|done]. destruct Hd as [q ->]. lia.
Qed.

(** The source never reaches the state from which it would draw zeros only. *)
Theorem source_never_zero src : 0 <= src < 2 ^ 64 -> 0 < xorShift64 src < 2 ^ 64.
Proof.
  intros Hs. unfold xorShift64. set (x := if src =? 0 then 1 else src). assert (0 < x < 2 ^ 64) as Hx by (unfold x; destruct (Z.eqb_spec src 0); lia).
  apply xor_shiftr_ok; [lia|]. apply xor_shiftl_ok. by apply xor_shiftr_ok.
Qed.

Lemma xs_below_range fuel draw max n s v s' : 0 < n -> xs_below fuel draw max n s = (Ok v, s') -> 0 <= v < n.
Proof.
  intros Hn. revert s. induction fuel as [|fuel IH]; intros s Hrun; [done|]. cbn [xs_below] in Hrun. apply io_bind_ok in Hrun as (w & s1 & _ & Hrun).
  destruct (max <? w); [by apply IH in Hrun|]. injection Hrun as <- _. by apply Z.mod_pos_bound.
Qed.

Lemma land_below v n : 0 < n -> 0 <= Z.land v (n - 1) < n.
Proof.
  intros Hn. rewrite Z.land_comm. assert (0 <= Z.land (n - 1) v) by (apply Z.land_nonneg; lia). assert (0 <= Z.ldiff (n - 1) v) by (apply Z.ldiff_nonneg; lia).
  pose proof (Z.lor_ldiff_and (n - 1) v) as E. assert (Z.ldiff (n - 1) v + Z.land (n - 1) v = n - 1) as E'; [|lia].
  rewrite <- Z.add_lor_land, E. enough (Z.land (Z.ldiff (n - 1) v) (Z.land (n - 1) v) = 0) as -> by lia.
  apply Z.bits_inj'. intros k Hk. rewrite !Z.land_spec, Z.ldiff_spec, Z.bits_0. by destruct (Z.testbit (n - 1) k), (Z.testbit v k).
Qed.

Lemma xs_Intn_range fuel n s v s' : xs_Intn fuel n s = (Ok v, s') -> 0 <= v < n.
Proof.
  unfold xs_Intn, xs_Int31n, xs_Int63n. destruct (Z.leb_spec n 0); [done|].
  destruct (n <=? 2 ^ 31 - 1), (Z.land n (n - 1) =? 0); try (by apply xs_below_range); intros (w & s1 & _ & [= <- _])%io_bind_ok; by apply land_below.
Qed.

Lemma xs_Int31n_range fuel n s v s' : xs_Int31n fuel n s = (Ok v, s') -> 0 <= v < n.
Proof.
  unfold xs_Int31n. destruct (Z.leb_spec n 0); [done|].
  destruct (Z.land n (n - 1) =? 0); [|by apply xs_below_range]. intros (w & s1 & _ & [= <- _])%io_bind_ok. by apply land_below.
Qed.

(** ** What is matched *)

(** Without a newline, the dot that excludes it is the only difference. *)
Lemma matches_strict_dot skip :
  (forall pre r w post, matches true skip pre r w post -> newline ∉ w -> matches false skip pre r w post) /\
  (forall pre rs w post, matches_seq true skip pre rs w post -> newline ∉ w -> matches_seq false skip pre rs w post).
Proof.
  apply matches_mutind; intros; try (by econstructor; eauto).
  - apply match_any_not_nl; [done|done|]. intros ->. by rewrite list_elem_of_singleton in *.
  - match goal with Hn : newline ∉ _ |- _ => rewrite elem_of_app in Hn end. constructor; tauto.
Qed.

Lemma assertion_free_inv r : assertion_free r -> (empty_op (re_Op r) = true -> re_Op r = OpEmptyMatch) /\ Forall assertion_free (re_Sub r).
Proof. by destruct 1. Qed.

(** Nor do assertions matter where there are none. *)
Lemma matches_strict_free nl :
  (forall pre r w post, matches nl true pre r w post -> assertion_free r -> forall pre' post', matches nl false pre' r w post') /\
  (forall pre rs w post, matches_seq nl true pre rs w post -> Forall assertion_free rs -> forall pre' post', matches_seq nl false pre' rs w post').
Proof.
  apply matches_mutind.
  - intros pre r post He _ [Hf _]%assertion_free_inv pre' post'. apply match_empty; [done|]. right. by rewrite (Hf He).
  - intros. by apply match_literal.
  - intros. by apply match_class.
  - intros. by apply match_any.
  - intros. by apply match_any_not_nl.
  - intros pre r sub min max n w post Hb Hs Hi _ IH [_ Hf]%assertion_free_inv pre' post'. eapply match_repeat; [done..|]. apply IH.
    apply Forall_replicate. rewrite Hs in Hf. by apply list.Forall_cons in Hf as [Hf _].
  - intros pre r w post Ho _ IH [_ Hf]%assertion_free_inv pre' post'. apply match_concat; [done|by apply IH].
  - intros pre r sub w post Ho Hin _ IH [_ Hf]%assertion_free_inv pre' post'. eapply match_alternate; [done..|]. apply IH. rewrite list.Forall_forall in Hf. by apply Hf.
  - intros pre r sub w post Ho Hs _ IH [_ Hf]%assertion_free_inv pre' post'. eapply match_capture; [done..|]. apply IH. rewrite Hs in Hf. by apply list.Forall_cons in Hf as [Hf _].
  - intros. constructor.
  - intros pre r rs w ws post _ IH1 _ IH2 [Hf Hfs]%list.Forall_cons pre' post'. constructor; [by apply IH1|by apply IH2].
Qed.

Lemma matches_seq_app nl skip pre rs1 rs2 w post :
  matches_seq nl skip pre (rs1 ++ rs2) w post <->
  exists w1 w2, w = w1 ++ w2 /\ matches_seq nl skip pre rs1 w1 (w2 ++ post) /\ matches_seq nl skip (pre ++ w1) rs2 w2 post.
Proof.
  revert pre w. induction rs1 as [|r rs1 IH]; intros pre w; cbn [app]; split.
  - intros Hm. exists [], w. rewrite app_nil_r. split_and!; [done|constructor|done].
  - intros (w1 & w2 & -> & H1 & H2). inversion H1; subst. by rewrite app_nil_r in H2.
  - inversion 1 as [|pre0 r0 rs0 v ws post0 Hr Hrs]; subst. apply IH in Hrs as (w1 & w2 & -> & H1 & H2).
    exists (v ++ w1), w2. rewrite !app_assoc in *. rewrite <- (app_assoc w1) in Hr. split_and!; [done| |done]. by constructor.
  - intros (w1 & w2 & -> & H1 & H2). inversion H1 as [|pre0 r0 rs0 v ws post0 Hr Hrs]; subst. rewrite <- app_assoc. constructor.
    + by rewrite <- app_assoc.
    + apply IH. exists ws, w2. by rewrite <- app_assoc.
Qed.

Lemma matches_empty_op nl skip pre r w post : matches nl skip pre r w post -> empty_op (re_Op r) = true -> w = [].
Proof.
  destruct 1 as [| | | | |? r ? ? ? ? ? ? Hb| | |]; intros He; try done; try (by destruct (re_Op r)).
  exfalso. unfold repeat_bounds in Hb. by destruct (re_Op r).
Qed.

(** Assertions that hold where they are. *)
Lemma anchors_hold nl pre rs w post :
  matches_seq nl true pre rs w post -> Forall (fun r => empty_op (re_Op r) = true /\ assertion_holds (re_Op r) pre post = true) rs ->
  w = [] /\ matches_seq nl false pre rs [] post.
Proof.
  revert pre w. induction rs as [|r rs IH]; intros pre w Hm Hf; inversion Hm as [|pre0 r0 rs0 v ws post0 Hr Hrs]; subst; [split; [done|constructor]|].
  apply list.Forall_cons in Hf as [[He Ha] Hf]. pose proof (matches_empty_op _ _ _ _ _ _ Hr He) as ->. rewrite app_nil_r in Hrs.
  destruct (IH pre ws Hrs Hf) as [-> Hs]. split; [done|]. apply (seq_cons _ _ pre r rs [] []); [|by rewrite app_nil_r].
  apply match_empty; [done|by right].
Qed.

(** What an expression matches when its assertions are skipped, it matches if they are at the
    edges. *)
Lemma matches_edge_anchored nl r w : matches nl true [] r w [] -> edge_anchored r -> matches nl false [] r w [].
Proof.
  intros Hm [Hf|(Ho & bs & mid & es & Hs & Hb & Hmid & He)]; [by eapply (proj1 (matches_strict_free nl))|].
  assert (matches_seq nl true [] (re_Sub r) w []) as Hseq.
  { inversion Hm as [? ? ? E| | | | |? ? ? ? ? ? ? ? Hrb| | |]; subst; try congruence; try done; [by rewrite Ho in E|unfold repeat_bounds in Hrb; by rewrite Ho in Hrb]. }
  apply match_concat; [done|]. rewrite Hs in Hseq |- *. apply matches_seq_app in Hseq as (w1 & w2 & -> & H1 & H2).
  apply matches_seq_app in H2 as (w2' & w3 & -> & H2 & H3).
  destruct (anchors_hold _ _ _ _ _ H1) as [-> H1'].
  { eapply list.Forall_impl; [exact Hb|]. intros x [E|E]; rewrite E; (split; [done|]); apply bool_decide_eq_true_2; auto. }
  destruct (anchors_hold _ _ _ _ _ H3) as [-> H3'].
  { eapply list.Forall_impl; [exact He|]. intros x [E|E]; rewrite E; (split; [done|]); apply bool_decide_eq_true_2; auto. }
  apply matches_seq_app. exists [], (w2' ++ []). split_and!; [done..|].
  apply matches_seq_app. exists w2', []. split_and!; [done| |done]. by eapply (proj2 (matches_strict_free nl)).
Qed.

(** ** What is generated *)

Section Sound.
Context `{RegexpSyntax} (draws : nat) (args : GeneratorArgs).
(** The repetitions without a bound are counted by an [int]. *)
Hypothesis counts_fit : 0 <= MaxUnboundedRepeatCount args < 2 ^ 63.

(** The bytes of runes in the mode of the generator. *)
Definition encodes (rs : list Z) (b : bytes) : Prop := if ByteMode args then runesToBytes rs = Ok b else b = runesToUTF8 rs.

(** What an expression matches in any text, its assertions skipped and newlines let through. *)
Definition generates (r : Regexp) (rs : list Z) : Prop := forall pre post, matches true true pre r rs post.

Definition sound (gen : generator) (P : list Z -> Prop) : Prop := forall rng b rng', gen rng = (Ok b, rng') -> exists rs, P rs /\ encodes rs b.

Lemma encodes_nil : encodes [] [].
Proof. unfold encodes. by destruct (ByteMode args). Qed.

Lemma encodes_app rs b rs' b' : encodes rs b -> encodes rs' b' -> encodes (rs ++ rs') (b ++ b').
Proof.
  unfold encodes. destruct (ByteMode args).
  - revert b. induction rs as [|r rs IH]; intros b Hb Hb'; cbn in *; [by injection Hb as <-|]. destruct ((r <? 0) || (255 <? r)); [done|].
    destruct (runesToBytes rs) as [c|e|e|]; try done. injection Hb as <-. by rewrite (IH c eq_refl Hb').
  - intros -> ->. unfold runesToUTF8. by rewrite map_app, concat_app.
Qed.

Lemma emit_sound rs P : P rs -> sound (emit_runes args rs) P.
Proof.
  intros HP rng b rng' Hrun. exists rs. split; [done|]. unfold emit_runes, encodes in *. destruct (ByteMode args); by injection Hrun as Hrun _.
Qed.

Lemma Generate_sound gen P : sound gen P -> sound (Generate gen) P.
Proof. intros Hs rng b rng' Hrun. unfold Generate in Hrun. destruct (gen rng) as [[b'|e|e|] s'] eqn:E; try done. injection Hrun as <- <-. by apply (Hs _ _ _ E). Qed.

Lemma in_order_sound gens Ps : Forall2 sound gens Ps -> sound (generate_in_order gens) (fun rs => exists ws, rs = concat ws /\ Forall2 (fun (P : list Z -> Prop) w => P w) Ps ws).
Proof.
  induction 1 as [|gen P gens Ps Hg _ IH]; intros rng b rng' Hrun; cbn [generate_in_order] in Hrun.
  - injection Hrun as <- _. exists []. split; [by exists []|apply encodes_nil].
  - apply io_bind_ok in Hrun as (b1 & s1 & H1 & Hrun). apply io_bind_ok in Hrun as (b2 & s2 & H2 & [= <- _]).
    destruct (Generate_sound _ _ Hg _ _ _ H1) as (rs1 & HP & He1). destruct (IH _ _ _ H2) as (rs2 & (ws & -> & Hws) & He2).
    exists (rs1 ++ concat ws). split; [exists (rs1 :: ws); split; [done|by constructor]|by apply encodes_app].
Qed.

Lemma replicate_sound gen P n : sound gen P -> sound (generate_in_order (replicate n gen)) (fun rs => exists ws, rs = concat ws /\ Forall P ws /\ length ws = n).
Proof.
  intros Hg rng b rng' Hrun. destruct (in_order_sound (replicate n gen) (replicate n P)) with (1 := ltac:(clear Hrun; induction n; constructor; [exact Hg|exact IHn]) : Forall2 sound (replicate n gen) (replicate n P)) (2 := Hrun)
    as (rs & (ws & -> & Hws) & He). exists (concat ws). split; [|done]. exists ws. split; [done|]. clear -Hws. revert ws Hws.
  induction n as [|n IH]; intros ws Hws; cbn in Hws.
  - apply Forall2_nil_inv_l in Hws as ->. done.
  - apply Forall2_cons_inv_l in Hws as (w & ws' & Hw & Hws & ->). destruct (IH _ Hws) as [Hf Hl]. split; [by constructor|cbn; lia].
Qed.

Lemma generates_seq regexps ws : Forall2 generates regexps ws -> forall pre post, matches_seq true true pre regexps (concat ws) post.
Proof. induction 1 as [|r w regexps ws Hr _ IH]; intros pre post; [constructor|]. by constructor. Qed.

Lemma generates_repeat sub ws : Forall (generates sub) ws -> forall pre post, matches_seq true true pre (replicate (length ws) sub) (concat ws) post.
Proof. intros Hws. apply generates_seq. induction Hws; by constructor. Qed.

(** *** Classes *)

Definition range_within (Q : Z -> Prop) (rg : tCharClassRange) : Prop := forall i, 0 <= i < Size rg -> Q (wrapS 32 (Start rg + i)).

Lemma new_range_within start end_ rg : rune_ok start -> rune_ok end_ -> newCharClassRange start end_ = Ok rg -> range_within (fun x => start <= x <= end_) rg.
Proof.
  unfold rune_ok, MaxRune, newCharClassRange. intros Hs He Hr. rewrite wrapS_id in Hr by (cbn; lia). destruct (Z.ltb_spec (end_ - start + 1) 1); [done|].
  injection Hr as <-. intros i Hi. cbn in Hi |- *. rewrite wrapS_id by (cbn; lia). lia.
Qed.

Lemma range_within_weaken (Q R : Z -> Prop) rg : (forall x, Q x -> R x) -> range_within Q rg -> range_within R rg.
Proof. intros HQ Hr i Hi. by apply HQ, Hr. Qed.

Lemma char_ranges_within (runes : list Z) : forall n total c, (length runes <= n)%nat -> Forall rune_ok runes -> char_ranges runes total = Ok c -> Forall (range_within (in_class runes)) (Ranges c).
Proof.
  intros n. revert runes. induction n as [|n IH]; intros runes total c Hn Hr Hc; destruct runes as [|lo [|hi runes]]; cbn [char_ranges length] in *; try lia; try (by injection Hc as <-).
  apply list.Forall_cons in Hr as [Hlo Hr]. apply list.Forall_cons in Hr as [Hhi Hr].
  apply res_bind_ok in Hc as (rg & Hrg & Hc). apply res_bind_ok in Hc as (c' & Hc' & [= <-]). cbn [Ranges]. constructor.
  - eapply range_within_weaken; [|eapply new_range_within; [|exact Hhi|exact Hrg]].
    + intros x Hx. cbn beta in Hx. left. destruct (Z.eqb_spec lo 0); [unfold rune_ok in Hlo|]; lia.
    + unfold rune_ok, MaxRune in *. destruct (Z.eqb_spec lo 0); lia.
  - eapply list.Forall_impl; [exact (IH runes _ _ ltac:(lia) Hr Hc')|]. intros rg' Hrg'. eapply range_within_weaken; [|exact Hrg']. intros x Hx. by right.
Qed.

Lemma byte_ranges_within (runes : list Z) : forall n total c, (length runes <= n)%nat -> Forall rune_ok runes -> byte_ranges runes total = Ok c -> Forall (range_within (in_class runes)) (Ranges c).
Proof.
  intros n. revert runes. induction n as [|n IH]; intros runes total c Hn Hr Hc; destruct runes as [|lo [|hi runes]]; cbn [byte_ranges length] in *; try lia; try (by injection Hc as <-).
  apply list.Forall_cons in Hr as [Hlo Hr]. apply list.Forall_cons in Hr as [Hhi Hr].
  assert (forall total c, byte_ranges runes total = Ok c -> Forall (range_within (in_class (lo :: hi :: runes))) (Ranges c)) as Hrest.
  { intros t c' Hc'. eapply list.Forall_impl; [exact (IH runes _ _ ltac:(lia) Hr Hc')|]. intros rg' Hrg'. eapply range_within_weaken; [|exact Hrg']. intros x Hx. by right. }
  destruct (lo <=? 255); [|by eapply Hrest]. apply res_bind_ok in Hc as (rg & Hrg & Hc). apply res_bind_ok in Hc as (c' & Hc' & [= <-]). cbn [Ranges]. constructor; [|by eapply Hrest].
  eapply range_within_weaken; [|eapply new_range_within; [exact Hlo| |exact Hrg]].
  - intros x Hx. cbn beta in Hx. left. destruct (Z.ltb_spec 255 hi); lia.
  - unfold rune_ok, MaxRune in *. destruct (Z.ltb_spec 255 hi); lia.
Qed.

Lemma rune_at_within Q ranges : Forall (range_within Q) ranges -> forall i x, 0 <= i -> rune_at ranges i = Ok x -> Q x.
Proof.
  induction 1 as [|rg ranges Hrg _ IH]; intros i x Hi Hx; [done|]. cbn [rune_at] in Hx. destruct (Z.ltb_spec i (Size rg)).
  - injection Hx as <-. by apply Hrg.
  - eapply IH; [|exact Hx]. lia.
Qed.

Lemma class_sound charClass gen Q (P : list Z -> Prop) : Forall (range_within Q) (Ranges charClass) -> (forall x, Q x -> exists y, P [y] /\ forall b, encodes [x] b -> encodes [y] b) ->
  createCharClassGenerator draws args charClass = Ok gen -> sound gen P.
Proof.
  intros Hr HQ [= <-] rng b rng' Hrun. apply io_bind_ok in Hrun as (i & s1 & Hi & Hrun). apply io_bind_ok in Hrun as (x & s2 & [= Hx <-] & Hrun).
  apply xs_Int31n_range in Hi. pose proof (rune_at_within Q _ Hr i x ltac:(lia) Hx) as Hq. destruct (HQ x Hq) as (y & Hy & Henc).
  destruct (emit_sound [x] (fun rs => rs = [x]) eq_refl _ _ _ Hrun) as (rs & -> & He). exists [y]. split; [done|by apply Henc].
Qed.

(** An invalid rune is written as another one. *)
Definition written_rune (x : Z) : Z := if valid_rune x then x else RuneError.

Lemma written_ok x : rune_ok (written_rune x).
Proof.
  unfold written_rune, valid_rune, rune_ok, RuneError, MaxRune. destruct ((0 <=? x) && (x <=? 1114111)) eqn:E; cbn [andb]; [|lia].
  apply andb_prop in E as [E1 E2]. destruct (negb _); lia.
Qed.

Lemma WriteRune_written x : WriteRune (written_rune x) = WriteRune x.
Proof.
  unfold written_rune. destruct (valid_rune x) eqn:E; [done|]. unfold WriteRune. rewrite E. by change (valid_rune RuneError) with true.
Qed.

Lemma any_encodes x : (ByteMode args = true -> rune_ok x) -> exists y, rune_ok y /\ forall b, encodes [x] b -> encodes [y] b.
Proof.
  unfold encodes. destruct (ByteMode args); intros Hx; [exists x; split; [by apply Hx|done]|]. exists (written_rune x). split; [apply written_ok|].
  intros b ->. unfold runesToUTF8. cbn [map]. by rewrite WriteRune_written.
Qed.

(** *** Operations *)

Lemma enforceOp_ok r op u : enforceOp r op = Ok u -> re_Op r = op.
Proof. unfold enforceOp. by case_bool_decide. Qed.

Lemma any_sound r gen : opAnyChar draws args r = Ok gen -> sound gen (generates r).
Proof.
  unfold opAnyChar. intros (u & Ho%enforceOp_ok & [= <-])%res_bind_ok rng b rng' Hrun.
  assert (exists x s, (ByteMode args = true -> rune_ok x) /\ emit_runes args [x] s = (Ok b, rng')) as (x & s & Hx & He).
  { destruct (ByteMode args); apply io_bind_ok in Hrun as (x & s & Hx & He); exists x, s; [|done]. split; [|done]. intros _. apply xs_Intn_range in Hx. unfold rune_ok, MaxRune. lia. }
  destruct (any_encodes x Hx) as (y & Hy & Henc). destruct (emit_sound [x] (fun rs => rs = [x]) eq_refl _ _ _ He) as (rs & -> & He').
  exists [y]. split; [by intros pre post; apply match_any|by apply Henc].
Qed.

Lemma any_not_nl_sound r gen : opAnyCharNotNl draws args r = Ok gen -> sound gen (generates r).
Proof.
  unfold opAnyCharNotNl. intros (u & Ho%enforceOp_ok & (c & Hc & Hg)%res_bind_ok)%res_bind_ok.
  eapply (class_sound c gen (fun x => ByteMode args = true -> rune_ok x)); [| |exact Hg].
  - destruct (ByteMode args); injection Hc as <-; cbn [Ranges]; (constructor; [|done]); intros i Hi; [|done]. intros _. change (0 <= i < 256) in Hi. cbn [Start].
    rewrite wrapS_id by (change (2 ^ (32 - 1)) with 2147483648; lia). unfold rune_ok, MaxRune. lia.
  - intros x Hx. destruct (any_encodes x Hx) as (y & Hy & Henc). exists y. split; [by intros pre post; apply match_any_not_nl|done].
Qed.

Lemma char_class_sound r gen : Forall rune_ok (re_Rune r) -> opCharClass draws args r = Ok gen -> sound gen (generates r).
Proof.
  intros Hr. unfold opCharClass. intros (u & Ho%enforceOp_ok & Hg)%res_bind_ok.
  assert (exists c, Forall (range_within (in_class (re_Rune r))) (Ranges c) /\ createCharClassGenerator draws args c = Ok gen) as (c & Hc & Hgen).
  { destruct (ByteMode args).
    - apply res_bind_ok in Hg as (o & Hp & Hg). apply res_bind_ok in Hp as (c & Hp & [= <-]). case_bool_decide; [done|]. exists c.
      split; [by eapply byte_ranges_within|done].
    - apply res_bind_ok in Hg as (c & Hp & Hg). exists c. split; [by eapply char_ranges_within|done]. }
  eapply class_sound; [exact Hc| |exact Hgen]. intros x Hx. exists x. split; [by intros pre post; apply match_class|done].
Qed.
Section Subexpressions.
Context (new : Regexp -> res generator).
Hypothesis Hnew : forall r gen, wf_regexp r -> new r = Ok gen -> sound gen (generates r).

Lemma wrap_error_ok {A} (r : res A) e a : wrap_error r e = Ok a -> r = Ok a.
Proof. by destruct r. Qed.

Lemma single_sub r sub : enforceSingleSub r = Ok sub -> re_Sub r = [sub].
Proof. unfold enforceSingleSub. destruct (re_Sub r) as [|x [|y l]]; try done. by intros [= ->]. Qed.

Lemma repeating_sound r min max gen : Forall wf_regexp (re_Sub r) -> createRepeatingGenerator draws args new r min max = Ok gen ->
  repeat_bounds r = Some (if min =? noBound then 0 else min, max) -> 0 <= min <= 1000 \/ min = noBound /\ max = noBound -> -1 <= max <= 1000 -> sound gen (generates r).
Proof.
  intros Hwf Hg Hb Hmin Hmax. apply res_bind_ok in Hg as (sub & Hsub%single_sub & Hg). apply res_bind_ok in Hg as (gsub & Hgsub%wrap_error_ok & [= <-]).
  rewrite Hsub in Hwf. apply list.Forall_cons in Hwf as [Hwf _]. specialize (Hnew _ _ Hwf Hgsub). intros rng b rng' Hrun.
  apply io_bind_ok in Hrun as (n & s1 & Hn%xs_Intn_range & Hrun).
  destruct (replicate_sound _ _ _ Hnew _ _ _ Hrun) as (rs & (ws & -> & Hws & Hlen) & He). exists (concat ws). split; [|done].
  intros pre post. eapply match_repeat; [exact Hb|exact Hsub| |exact (generates_repeat _ _ Hws pre post)]. unfold in_bounds, noBound in *. rewrite Hlen.
  pose proof counts_fit. rewrite (wrapS_id 64 (MaxUnboundedRepeatCount args)) in Hn by lia.
  destruct (Z.eqb_spec min (-1)), (Z.eqb_spec max (-1)); try lia.
  - destruct (decide (MaxUnboundedRepeatCount args - min + 1 = 2 ^ 63)) as [E|]; [rewrite E in Hn; change (wrapS 64 (2 ^ 63)) with (- 2 ^ 63) in Hn; lia|].
    rewrite wrapS_id in Hn by lia. rewrite wrapS_id by lia. lia.
  - rewrite wrapS_id in Hn by lia. rewrite wrapS_id by lia. lia.
Qed.

Lemma new_all regexps gens : Forall wf_regexp regexps -> newGenerators new regexps = Ok gens -> Forall2 sound gens (map generates regexps).
Proof.
  revert gens. induction regexps as [|r regexps IH]; intros gens Hwf Hg; cbn [newGenerators] in Hg; [by injection Hg as <-|].
  apply list.Forall_cons in Hwf as [Hr Hwf]. apply res_bind_ok in Hg as (gen & H1 & Hg). apply res_bind_ok in Hg as (gens' & H2 & [= <-]).
  constructor; [by apply Hnew|by apply IH].
Qed.

Lemma concat_sound r gen : Forall wf_regexp (re_Sub r) -> opConcat new r = Ok gen -> sound gen (generates r).
Proof.
  intros Hwf. unfold opConcat. intros (u & Ho%enforceOp_ok & (gens & Hg%wrap_error_ok & [= <-])%res_bind_ok)%res_bind_ok rng b rng' Hrun.
  destruct (in_order_sound _ _ (new_all _ _ Hwf Hg) _ _ _ Hrun) as (rs & (ws & -> & Hws) & He). exists (concat ws). split; [|done].
  intros pre post. apply match_concat; [done|]. apply generates_seq. by apply Forall2_fmap_l in Hws.
Qed.

Lemma alternate_sound r gen : Forall wf_regexp (re_Sub r) -> opAlternate draws new r = Ok gen -> sound gen (generates r).
Proof.
  intros Hwf. unfold opAlternate. intros (u & Ho%enforceOp_ok & (gens & Hg%wrap_error_ok & [= <-])%res_bind_ok)%res_bind_ok rng b rng' Hrun.
  apply io_bind_ok in Hrun as (i & s1 & _ & Hrun). destruct (gens !! Z.to_nat i) as [gen|] eqn:Hi; [|done].
  destruct (Forall2_lookup_l _ _ _ _ _ (new_all _ _ Hwf Hg) Hi) as (P & HP & Hs). rewrite list_lookup_fmap in HP.
  destruct (re_Sub r !! Z.to_nat i) as [sub|] eqn:Hsub; [|done]. injection HP as <-.
  destruct (Generate_sound _ _ Hs _ _ _ Hrun) as (rs & Hm & He). exists rs. split; [|done]. intros pre post. eapply match_alternate; [done| |exact (Hm pre post)].
  by eapply list_elem_of_lookup_2.
Qed.

Lemma capture_sound r gen : CaptureGroupHandler args = None -> Forall wf_regexp (re_Sub r) -> opCapture args new r = Ok gen -> sound gen (generates r).
Proof.
  intros Hh Hwf. unfold opCapture. rewrite Hh. intros (u & Ho%enforceOp_ok & (sub & Hsub%single_sub & (gsub & Hg & [= <-])%res_bind_ok)%res_bind_ok)%res_bind_ok rng b rng' Hrun.
  rewrite Hsub in Hwf. apply list.Forall_cons in Hwf as [Hwf _].
  destruct (Generate_sound _ _ (Hnew _ _ Hwf Hg) _ _ _ Hrun) as (rs & Hm & He). exists rs. split; [|done]. intros pre post. by eapply match_capture.
Qed.

Lemma factory_sound r factory gen : CaptureGroupHandler args = None -> wf_regexp r -> generatorFactories draws args new (re_Op r) = Some factory -> factory r = Ok gen ->
  sound gen (generates r).
Proof.
  intros Hh [r' Hr Hmin Hmax Hsub] Hf Hg. destruct (re_Op r') eqn:Hop; cbn [generatorFactories] in Hf; (discriminate Hf || injection Hf as <-);
    try (injection Hg as <-; intros rng b rng' [= <- _]; exists []; split; [intros pre post; apply match_empty; [by rewrite Hop|by left]|apply encodes_nil]).
  - apply res_bind_ok in Hg as (u & _ & [= <-]). intros rng b rng' [= <- _]. exists []. split; [intros pre post; apply match_empty; [by rewrite Hop|by left]|apply encodes_nil].
  - apply res_bind_ok in Hg as (u & _ & [= <-]). apply emit_sound. intros pre post. by apply match_literal.
  - by apply char_class_sound.
  - by apply any_not_nl_sound.
  - by apply any_sound.
  - by apply capture_sound.
  - apply res_bind_ok in Hg as (u & _ & Hg). eapply repeating_sound; [done|exact Hg|unfold repeat_bounds; by rewrite Hop|by right|by unfold noBound].
  - apply res_bind_ok in Hg as (u & _ & Hg). eapply repeating_sound; [done|exact Hg|unfold repeat_bounds; by rewrite Hop|left; lia|by unfold noBound].
  - apply res_bind_ok in Hg as (u & _ & Hg). eapply repeating_sound; [done|exact Hg|unfold repeat_bounds; by rewrite Hop|left; lia|lia].
  - apply res_bind_ok in Hg as (u & _ & Hg). eapply repeating_sound; [done|exact Hg| |left; lia|lia].
    unfold repeat_bounds, noBound. rewrite Hop. by rewrite (proj2 (Z.eqb_neq (re_Min r') (-1))) by lia.
  - by apply concat_sound.
  - by apply alternate_sound.
Qed.
End Subexpressions.

Lemma newGenerator_sound fuel : CaptureGroupHandler args = None -> forall r gen, wf_regexp r -> newGenerator draws fuel args r = Ok gen -> sound gen (generates r).
Proof.
  intros Hh. induction fuel as [|fuel IH]; intros r gen Hr Hg; [done|]. cbn [newGenerator] in Hg.
  destruct (generatorFactories _ _ _ _) as [factory|] eqn:Hf; [|done]. pose proof (factory_sound _ IH _ _ _ Hh (Simplify_wf _ Hr) Hf Hg) as Hs.
  intros rng b rng' Hrun. destruct (Hs _ _ _ Hrun) as (rs & Hm & He). exists rs. split; [intros pre post; by apply Simplify_equivalent|done].
Qed.
End Sound.

(** The calls of [newGenerator] are at most so deep. *)
Inductive call_depth `{RegexpSyntax} : nat -> Regexp -> Prop :=
| depth_more n r : Forall (call_depth n) (re_Sub (Simplify r)) -> call_depth (S n) r.

Section Depth.
Context `{RegexpSyntax} (draws : nat) (args : GeneratorArgs).

Lemma bind_total {A B} (m : res A) (f : A -> res B) : m <> NoFuel -> (forall a, m = Ok a -> f a <> NoFuel) -> m ≫= f <> NoFuel.
Proof. intros Hm Hf. destruct m as [a|e|e|]; [by apply Hf|done..]. Qed.

Lemma wrap_error_total {A} (r : res A) e : r <> NoFuel -> wrap_error r e <> NoFuel.
Proof. by destruct r. Qed.

Lemma enforceOp_total r op : enforceOp r op <> NoFuel.
Proof. unfold enforceOp. by case_bool_decide. Qed.

Lemma single_sub_total r : enforceSingleSub r <> NoFuel.
Proof. unfold enforceSingleSub. by destruct (re_Sub r) as [|x [|y l]]. Qed.

Lemma newRange_total start end_ : newCharClassRange start end_ <> NoFuel.
Proof. unfold newCharClassRange. by destruct (_ <? _). Qed.

#[local] Hint Resolve bind_total wrap_error_total enforceOp_total single_sub_total newRange_total : core.

Lemma class_total (runes : list Z) : forall n total, (length runes <= n)%nat -> char_ranges runes total <> NoFuel /\ byte_ranges runes total <> NoFuel.
Proof.
  intros n. revert runes. induction n as [|n IH]; intros runes total Hn; destruct runes as [|lo [|hi runes]]; cbn [char_ranges byte_ranges length] in *; try lia; try done.
  assert (forall t, char_ranges runes t <> NoFuel /\ byte_ranges runes t <> NoFuel) as Hr by (intros t; apply IH; lia). split.
  - apply bind_total; [done|]. intros rg _. apply bind_total; [apply Hr|done].
  - destruct (lo <=? 255); [|apply Hr]. apply bind_total; [done|]. intros rg _. apply bind_total; [apply Hr|done].
Qed.

Section Subexpressions.
Context (new : Regexp -> res generator).

Lemma newGenerators_total regexps : Forall (fun r => new r <> NoFuel) regexps -> newGenerators new regexps <> NoFuel.
Proof. induction 1 as [|r regexps Hr _ IH]; [done|]. cbn [newGenerators]. apply bind_total; [done|]. intros gen _. by apply bind_total. Qed.

Lemma repeating_total r min max : Forall (fun r => new r <> NoFuel) (re_Sub r) -> createRepeatingGenerator draws args new r min max <> NoFuel.
Proof.
  intros Hf. apply bind_total; [done|]. intros sub Hsub%single_sub. rewrite Hsub in Hf. apply list.Forall_cons in Hf as [Hf _]. apply bind_total; [by apply wrap_error_total|done].
Qed.

Lemma factory_total r factory : Forall (fun r => new r <> NoFuel) (re_Sub r) -> generatorFactories draws args new (re_Op r) = Some factory -> factory r <> NoFuel.
Proof.
  intros Hf Hg. destruct (re_Op r); cbn [generatorFactories] in Hg; (discriminate Hg || injection Hg as <-); try done;
    apply bind_total; try done; intros u _; try (by apply repeating_total).
  - unfold parseByteClass, parseCharClass. destruct (ByteMode args).
    + apply bind_total; [apply bind_total; [by eapply class_total|done]|]. intros [c|]; done.
    + apply bind_total; [by eapply class_total|done].
  - apply bind_total; [|done]. destruct (ByteMode args); by apply bind_total.
  - apply bind_total; [done|]. intros sub Hsub%single_sub. rewrite Hsub in Hf. apply list.Forall_cons in Hf as [Hf _]. by apply bind_total.
  - apply bind_total; [by apply wrap_error_total, newGenerators_total|done].
  - apply bind_total; [by apply wrap_error_total, newGenerators_total|done].
Qed.
End Subexpressions.

(** With fuel for the depth of the calls, the model does not run out of it. *)
Theorem newGenerator_total fuel : forall n r, call_depth n r -> (n <= fuel)%nat -> newGenerator draws fuel args r <> NoFuel.
Proof.
  induction fuel as [|fuel IH]; intros n r [n' r' Hd] Hn; [lia|]. cbn [newGenerator].
  destruct (generatorFactories _ _ _ _) as [factory|] eqn:Hf; [|done]. eapply factory_total; [|exact Hf].
  eapply list.Forall_impl; [exact Hd|]. intros sub Hsub. apply (IH n'); [done|lia].
Qed.
End Depth.

Lemma initialize_ok input args : initialize input = Ok args ->
  Flags args = Flags input /\ ByteMode args = ByteMode input /\ CaptureGroupHandler args = CaptureGroupHandler input /\
  (MaxUnboundedRepeatCount input < 2 ^ 63 -> 0 <= MaxUnboundedRepeatCount args < 2 ^ 63).
Proof.
  unfold initialize. destruct (_ && _); [done|]. cbv zeta. destruct (_ <? _); [done|]. intros [= <-]. split_and!; [done..|]. cbn.
  destruct (Z.ltb_spec (MaxUnboundedRepeatCount input) 1); unfold DefaultMaxUnboundedRepeatCount; lia.
Qed.

(** A generator that is made has a parsed expression, and what it returns matches that. *)
Lemma NewGenerator_sound `{RegexpSyntax} draws fuel pattern inputArgs seed gen rng0 :
  let input := default default_args inputArgs in
  NewGenerator draws fuel pattern inputArgs seed = Ok (gen, rng0) -> CaptureGroupHandler input = None -> MaxUnboundedRepeatCount input < 2 ^ 63 ->
  exists r, Parse pattern (Flags input) = Ok r /\ sound input gen (generates r).
Proof.
  cbv zeta. set (input := default default_args inputArgs). intros Hnew Hh Hmax. unfold NewGenerator in Hnew. fold input in Hnew.
  destruct (initialize input) as [args|e|e|] eqn:Hi; try done. apply initialize_ok in Hi as (Ef & Eb & Eh & Hfit). cbn [mbind res_mbind] in Hnew.
  destruct (ByteMode args && existsb _ _); [done|]. destruct (ByteMode args && _); [done|]. rewrite Ef in Hnew.
  destruct (Parse pattern (Flags input)) as [r|e|e|] eqn:Hp; try done. cbn [mbind res_mbind] in Hnew.
  destruct (newGenerator draws fuel args r) as [g|e|e|] eqn:Hg; try done. cbn [mbind res_mbind] in Hnew. injection Hnew as <- <-.
  exists r. split; [done|]. intros rng b rng' Hrun.
  destruct (Generate_sound _ _ _ (newGenerator_sound draws args (Hfit Hmax) fuel (eq_trans Eh Hh) r g (Parse_wf _ _ _ Hp) Hg) _ _ _ Hrun) as (rs & Hm & He).
  exists rs. unfold encodes in *. by rewrite Eb in He.
Qed.

(** C6: What a generator returns is the encoding, in bytes or in UTF-8 as the mode has it, of
    runes that its regular expression matches as a whole text, up to two differences that are
    stated exactly.  The dot that excludes newlines is taken for one that does not, exactly
    when the runes contain a newline.  And zero-width assertions ([^], [$] and word
    boundaries) are skipped: when the expression has none, or has [^] only at its beginning
    and [$] only at its end, it matches the runes with its assertions checked.  The maximum
    for repetitions without a bound is an [int], and no handler of groups is set. *)
Theorem generated_matches `{RegexpSyntax} draws fuel pattern inputArgs seed gen rng0 rng b rng' :
  NewGenerator draws fuel pattern inputArgs seed = Ok (gen, rng0) -> CaptureGroupHandler (default default_args inputArgs) = None ->
  MaxUnboundedRepeatCount (default default_args inputArgs) < 2 ^ 63 -> gen rng = (Ok b, rng') ->
  exists r rs, Parse pattern (Flags (default default_args inputArgs)) = Ok r /\
    matches (bool_decide (newline ∈ rs)) true [] r rs [] /\
    (edge_anchored r -> matches (bool_decide (newline ∈ rs)) false [] r rs []) /\
    if ByteMode (default default_args inputArgs) then runesToBytes rs = Ok b else b = runesToUTF8 rs.
Proof.
  intros Hnew Hh Hmax Hrun. destruct (NewGenerator_sound _ _ _ _ _ _ _ Hnew Hh Hmax) as (r & Hp & Hs). destruct (Hs _ _ _ Hrun) as (rs & Hm & He).
  assert (matches (bool_decide (newline ∈ rs)) true [] r rs []) as Hm' by (case_bool_decide; [apply Hm|by apply matches_strict_dot]).
  exists r, rs. split_and!; [done|done|by apply matches_edge_anchored|done].
Qed.

(** ** Examples *)

Definition tree (op : Op) (sub : list Regexp) (runes : list Z) : Regexp :=
  {| re_Op := op; re_Flags := 0; re_Sub := sub; re_Rune := runes; re_Min := 0; re_Max := 0; re_Cap := 0; re_Name := "" |}.

(** [(a|[0-9])*\.] and the dot; nothing is simplified. *)
Definition example_tree : Regexp :=
  tree OpConcat [tree OpStar [tree OpAlternate [tree OpLiteral [] [97]; tree OpCharClass [] [48; 57]] []] []; tree OpLiteral [] [46]] [].

(** [a^b$c], an expression of the tests. *)
Definition anchors_tree : Regexp :=
  tree OpConcat [tree OpLiteral [] [97]; tree OpBeginText [] []; tree OpLiteral [] [98]; tree OpEndText [] []; tree OpLiteral [] [99]] [].

#[local, refine] Instance example_syntax : RegexpSyntax := {|
  Parse := fun pattern _ => if bool_decide (pattern = "([0-9]|a)*\.") then Ok example_tree else if bool_decide (pattern = ".") then Ok (tree OpAnyCharNotNL [] [])
    else if bool_decide (pattern = "a^b$c") then Ok anchors_tree else Err "error parsing regexp";
  Simplify := fun r => r
|}.
Proof.
  - intros pattern flags r. repeat case_bool_decide; intros [= <-]; repeat (constructor || (cbn; unfold rune_ok, MaxRune; lia)).
  - done.
  - done.
Defined.

Definition example_args (byteMode : bool) : GeneratorArgs :=
  {| Flags := 0; MaxUnboundedRepeatCount := 8; MinUnboundedRepeatCount := 0; CaptureGroupHandler := None; ByteMode := byteMode |}.

Definition generated (pattern : string) (byteMode : bool) (seed : Z) : option bytes :=
  match NewGenerator 8 4 pattern (Some (example_args byteMode)) seed with
  | Ok (gen, rng) => match gen rng with (Ok b, _) => Some b | _ => None end
  | _ => None
  end.

Lemma generated_runs pattern byteMode seed b : generated pattern byteMode seed = Some b ->
  exists gen rng rng', NewGenerator 8 4 pattern (Some (example_args byteMode)) seed = Ok (gen, rng) /\ gen rng = (Ok b, rng').
Proof.
  unfold generated. destruct (NewGenerator _ _ _ _ _) as [[gen rng]|e|e|]; try done. destruct (gen rng) as [[b'|e|e|] rng'] eqn:E; try done.
  intros [= <-]. by exists gen, rng, rng'.
Qed.

Lemma example_generated : generated "([0-9]|a)*\." true 6 = Some (list_byte_of_string "aa75.").
Proof. vm_compute. reflexivity. Qed.

Lemma example_tree_free : edge_anchored example_tree.
Proof. left. repeat (constructor; try done). Qed.

Lemma generated_matches_witness : exists r rs, Parse "([0-9]|a)*\." 0 = Ok r /\ matches (bool_decide (newline ∈ rs)) false [] r rs [] /\ runesToBytes rs = Ok (list_byte_of_string "aa75.").
Proof.
  destruct (generated_runs _ _ _ _ example_generated) as (gen & rng & rng' & Hnew & Hrun).
  destruct (generated_matches 8 4 "([0-9]|a)*\." (Some (example_args true)) 6 gen rng rng (list_byte_of_string "aa75.") rng' Hnew eq_refl eq_refl Hrun)
    as (r & rs & Hp & _ & Hm & Hb).
  exists r, rs. split; [exact Hp|]. split; [|exact Hb]. apply Hm. injection Hp as <-. exact example_tree_free.
Defined.

(** The dot generates a newline that it does not match. *)
Theorem dot_newline : generated "." true 325 = Some [x0a] /\ ~ matches false false [] (tree OpAnyCharNotNL [] []) [newline] [].
Proof.
  split; [vm_compute; reflexivity|]. inversion 1 as [| | | |? ? ? ? ? ? Hn| | | |]; subst; try done. by specialize (Hn eq_refl).
Qed.

(** The tests expect [abc] for [a^b$c], which does not match it, or anything else. *)
Theorem anchors_skipped w : generated "a^b$c" true 6 = Some (list_byte_of_string "abc") /\ ~ matches true false [] anchors_tree w [].
Proof.
  split; [vm_compute; reflexivity|]. intros Hm.
  assert (matches_seq true false [] (re_Sub anchors_tree) w []) as Hs by (inversion Hm; subst; done).
  apply (matches_seq_app _ _ [] [_]) in Hs as (w1 & w2 & -> & H1 & H2). inversion H1 as [|? ? ? v ws ? Hv Hn]; subst. inversion Hn; subst.
  assert (v = [97]) as -> by (inversion Hv; done). inversion H2 as [|? ? ? v2 ws2 ? Hv2 _]; subst.
  inversion Hv2 as [? ? ? _ [[=]|Ha]| | | | | | | |]; subst; done.
Qed.
