(* ===== verification/Transforms.v ===== *)
(** * Transforms

    Models src/psiphon/common/transforms/transforms.go and obfuscatorSeedTransform.go: data
    transformed by regular expressions and generators ([Regen]), the selection of transforms
    by scope, the prefixes of obfuscated SSH and the transforms of its seeds ([Obfuscator]).

    The matching of regular expressions (regexp) is a parameter. *)

From Stdlib Require Import ZArith Lia Strings.Byte Strings.String.
From stdpp Require Import base gmap list strings numbers.
From S2P Require Import Prelude.
From S2P Require Import GoCrypto.
From S2P Require Import GoEncoding.
From S2P Require Import PRNG.
From S2P Require Import SeedHistory.
From S2P Require Import GoIO.
From S2P Require Import Regen.
From S2P Require Import Obfuscator.
#[local] Open Scope string_scope.
#[local] Open Scope Z_scope.
#[local] Open Scope list_scope.

Definition SCOPE_ANY : string := "".

(** [syntax.OneLine | syntax.NonGreedy] *)
Definition transform_flags : Z := 16 + 32.

Abbreviation Specs := (gmap string Spec).
Abbreviation ScopedSpecNames := (gmap string (list string)).

Record ObfuscatorSeedTransformerParameters := { TransformName : string; TransformSpec : option Spec; TransformSeed : bytes }.

Section Transforms.
Context `{RegexpSyntax}.
(** [regexp.Compile], [ReplaceAllString] and [ReplaceAll]. *)
Context {Compiled : Type} (Compile : string -> res Compiled).
Context (ReplaceAllString : Compiled -> string -> string -> string) (ReplaceAll : Compiled -> bytes -> bytes -> bytes).
(** The fuel for draws and for the depth of an expression. *)
Context (draws depth : nat).

Definition prefix_args : GeneratorArgs :=
  {| Flags := 0; MaxUnboundedRepeatCount := 0; MinUnboundedRepeatCount := 0; CaptureGroupHandler := None; ByteMode := true |}.
Definition transform_args : GeneratorArgs :=
  {| Flags := transform_flags; MaxUnboundedRepeatCount := 0; MinUnboundedRepeatCount := 0; CaptureGroupHandler := None; ByteMode := false |}.

(** A generator with its source seeded from a pseudorandom generator, and what it generates. *)
Definition generate_from (args : GeneratorArgs) (pattern : string) : stres PRNG bytes := fun rng =>
  '(seed, rng) ← Int63 rng;
  '(gen, source) ← NewGenerator draws depth pattern (Some args) seed;
  b ← (gen source).1;
  Ok (b, rng).

(** [Spec.ApplyPrefix] is [ApplyPrefix] of [Obfuscator] with this generator. *)
Definition prefix_generator : string -> stres PRNG bytes := generate_from prefix_args.

Definition makeRegexAndRepl (seed : bytes) (transform : string * string) : res (Compiled * bytes) :=
  rng ← NewPRNGWithSeed seed;
  '(replacement, _) ← generate_from transform_args transform.2 rng;
  re ← Compile transform.1;
  Ok (re, replacement).

Fixpoint ApplyString (spec : Spec) (seed : bytes) (value : string) : res string :=
  match spec with
  | [] => Ok value
  | transform :: spec =>
      '(re, replacement) ← makeRegexAndRepl seed transform;
      ApplyString spec seed (ReplaceAllString re value (string_of_list_byte replacement))
  end.

Fixpoint Spec_Apply (spec : Spec) (seed : bytes) (value : bytes) : res bytes :=
  match spec with
  | [] => Ok value
  | transform :: spec =>
      '(re, replacement) ← makeRegexAndRepl seed transform;
      Spec_Apply spec seed (ReplaceAll re value replacement)
  end.

Fixpoint validate_specs (prefixMode : bool) (seed : bytes) (specs : list (string * Spec)) : res unit :=
  match specs with
  | [] => Ok tt
  | (_, spec) :: specs =>
      _ ← (if prefixMode then
             if negb (length spec =? 1)%nat then Err "prefix mode requires exactly one transform"
             else _ ← ApplyPrefix prefix_generator spec seed 0; Ok tt
           else _ ← ApplyString spec seed ""; Ok tt);
      validate_specs prefixMode seed specs
  end.

(** [order] is the order of the iteration over the map. *)
Definition Specs_Validate (prefixMode : bool) (newSeed : res bytes) (order : list (string * Spec)) : res unit :=
  seed ← newSeed; validate_specs prefixMode seed order.

Fixpoint validate_names (names : list string) (specs : Specs) : res unit :=
  match names with
  | [] => Ok tt
  | name :: names => match specs !! name with Some _ => validate_names names specs | None => Err ("undefined spec name: " +:+ name) end
  end.

Fixpoint ScopedSpecNames_Validate (order : list (string * list string)) (specs : Specs) : res unit :=
  match order with
  | [] => Ok tt
  | (_, scoped) :: order => _ ← validate_names scoped specs; ScopedSpecNames_Validate order specs
  end.

(** A name of the list that is drawn, with its spec. *)
Definition select_from (specs : Specs) (names : list string) : stres PRNG (string * option Spec) :=
  i ← Intn draws (Z.of_nat (length names));
  match names !! Z.to_nat i with
  | None => st_lift (Panic "index out of range")
  | Some specName => match specs !! specName with Some spec => mret (specName, Some spec) | None => mret ("", None) end
  end.

Definition Select (specs : Specs) (scope : string) (scopedSpecs : ScopedSpecNames) : stres PRNG (string * option Spec) :=
  let any_scope := match scopedSpecs !! SCOPE_ANY with
                   | Some (name :: names) => select_from specs (name :: names)
                   | _ => mret ("", None)
                   end in
  if negb (bool_decide (scope = SCOPE_ANY)) then
    match scopedSpecs !! scope with
    | Some [] => mret ("", None)
    | Some scoped => select_from specs scoped
    | None => any_scope
    end
  else any_scope.

(** [ObfuscatorSeedTransformerParameters.Apply]: the bytes that the slice has afterwards. *)
Definition seed_Apply (t : ObfuscatorSeedTransformerParameters) (b : bytes) : res bytes :=
  match TransformSpec t with
  | None => Ok b
  | Some spec =>
      newSeedString ← ApplyString spec (TransformSeed t) (hex_EncodeToString b);
      newSeed ← or_error "encoding/hex: invalid byte" (hex_DecodeString newSeedString);
      if negb (length newSeed =? length b)%nat then Err "invalid transform spec" else Ok newSeed
  end.

(** ** Selection *)

(** The names that apply to a scope. *)
Definition scope_names (scope : string) (scopedSpecs : ScopedSpecNames) : list string :=
  match (if bool_decide (scope = SCOPE_ANY) then None else scopedSpecs !! scope) with
  | Some names => names
  | None => default [] (scopedSpecs !! SCOPE_ANY)
  end.

Lemma validate_names_ok names specs : validate_names names specs = Ok tt -> Forall (fun name => is_Some (specs !! name)) names.
Proof.
  induction names as [|name names IH]; intros Hv; [done|]. cbn in Hv. destruct (specs !! name) eqn:E; [|done]. constructor; [by eexists|by apply IH].
Qed.

Lemma scoped_validate_ok order specs scope names : ScopedSpecNames_Validate order specs = Ok tt -> (scope, names) ∈ order ->
  Forall (fun name => is_Some (specs !! name)) names.
Proof.
  induction order as [|[s ns] order IH]; intros Hv Hin; [by apply elem_of_nil in Hin|]. cbn in Hv. apply res_bind_ok in Hv as ([] & H1 & H2).
  apply elem_of_cons in Hin as [[= -> ->]|Hin]; [by apply validate_names_ok|by apply IH].
Qed.

Lemma Select_names specs scope scopedSpecs :
  Select specs scope scopedSpecs = match scope_names scope scopedSpecs with [] => mret ("", None) | names => select_from specs names end.
Proof.
  unfold Select, scope_names. destruct (bool_decide (scope = SCOPE_ANY)); cbn [negb].
  - by destruct (scopedSpecs !! SCOPE_ANY) as [[|name names]|].
  - destruct (scopedSpecs !! scope) as [[|name names]|]; [done|done|]. by destruct (scopedSpecs !! SCOPE_ANY) as [[|name names]|].
Qed.

Lemma select_from_ok specs names : names <> [] -> Z.of_nat (length names) < 2 ^ 63 -> Forall (fun name => is_Some (specs !! name)) names ->
  draws_in (select_from specs names) (fun '(name, spec) => name ∈ names /\ spec = specs !! name /\ is_Some spec).
Proof.
  intros Hn Hl Hf. unfold select_from. eapply draw_bind.
  { unfold Intn. rewrite (proj2 (Z.leb_gt _ _)) by (destruct names; [done|cbn; lia]). apply Intn_yields. destruct names; [done|cbn [length] in *; lia]. }
  intros i Hi. cbn beta in Hi. destruct (names !! Z.to_nat i) as [name|] eqn:Hname.
  - pose proof Hf as Hf'. rewrite Forall_lookup in Hf'. destruct (Hf' _ _ Hname) as [spec Hspec]. rewrite Hspec. apply draw_ret.
    split; [by eapply list_elem_of_lookup_2|]. by rewrite Hspec.
  - apply lookup_ge_None in Hname. lia.
Qed.

(** What [Select] draws for validated names: one of the names that apply to the scope, with
    its spec, and nothing exactly when no name applies. *)
Definition selected (specs : Specs) (scope : string) (scopedSpecs : ScopedSpecNames) : string * option Spec -> Prop := fun '(name, spec) =>
  match scope_names scope scopedSpecs with
  | [] => name = "" /\ spec = None
  | names => name ∈ names /\ spec = specs !! name /\ is_Some spec
  end.

Lemma scope_names_scoped scope scopedSpecs : scope_names scope scopedSpecs = [] \/ exists s, scopedSpecs !! s = Some (scope_names scope scopedSpecs).
Proof.
  unfold scope_names. destruct (bool_decide _); [|destruct (scopedSpecs !! scope) eqn:E; [by eauto|]];
    (destruct (scopedSpecs !! SCOPE_ANY) eqn:E'; cbn [default]; [by eauto|by left]).
Qed.

Theorem Select_validated order specs scope scopedSpecs :
  ScopedSpecNames_Validate order specs = Ok tt -> (forall s names, scopedSpecs !! s = Some names -> (s, names) ∈ order /\ Z.of_nat (length names) < 2 ^ 63) ->
  draws_in (Select specs scope scopedSpecs) (selected specs scope scopedSpecs).
Proof.
  intros Hv Horder. rewrite Select_names. unfold selected. destruct (scope_names_scoped scope scopedSpecs) as [E|(s & Hs)]; [rewrite E; by apply draw_ret|].
  destruct (Horder _ _ Hs) as [Hin Hl]. destruct (scope_names scope scopedSpecs) as [|name names]; [by apply draw_ret|].
  apply select_from_ok; [done|done|by eapply scoped_validate_ok].
Qed.

(** ** Prefixes *)

(** The encoding in bytes of runes that a pattern matches, where the dot matches newlines and
    zero-width assertions are skipped. *)
Definition pattern_bytes (pattern : string) (b : bytes) : Prop :=
  exists r rs, Parse pattern 0 = Ok r /\ matches true true [] r rs [] /\ runesToBytes rs = Ok b.

Lemma generate_from_ok args pattern rng b rng' : CaptureGroupHandler args = None -> MaxUnboundedRepeatCount args < 2 ^ 63 -> prng_ok rng -> generate_from args pattern rng = Ok (b, rng') ->
  (exists r rs, Parse pattern (Flags args) = Ok r /\ matches true true [] r rs [] /\ encodes args rs b) /\ prng_ok rng'.
Proof.
  intros Hh Hmax Hok Hg. unfold generate_from in Hg. destruct (Int63_returns rng Hok) as (seed & rng1 & E & _ & Hok1). rewrite E in Hg. cbn [mbind res_mbind] in Hg.
  apply res_bind_ok in Hg as ([gen source] & Hnew & Hg). apply res_bind_ok in Hg as (b' & Hb & [= <- <-]). split; [|done].
  destruct (NewGenerator_sound _ _ _ _ _ _ _ Hnew Hh Hmax) as (r & Hp & Hs). destruct (gen source) as [res source'] eqn:Hrun. cbn [fst] in Hb. subst res.
  destruct (Hs _ _ _ Hrun) as (rs & Hm & He). exists r, rs. by split_and!.
Qed.

(** A prefix is what the generator of its spec makes, padded to the length. *)
Theorem ApplyPrefix_matches spec seed minLength b n :
  length seed = SEED_LENGTH -> Z.of_nat minLength < stream_limit -> ApplyPrefix prefix_generator spec seed minLength = Ok (b, n) ->
  exists transform, spec = [transform] /\ pattern_bytes transform.2 (take n b) /\ (n <= length b)%nat /\ length b = Nat.max n minLength.
Proof.
  intros Hseed Hmin Hp. unfold ApplyPrefix in Hp. destruct spec as [|[x pattern] [|y spec]]; [done| |done].
  apply res_bind_ok in Hp as (rng & Hrng & Hp). apply res_bind_ok in Hp as ([prefix rng'] & Hg & Hp).
  pose proof (seeded_prng_ok _ _ Hseed Hrng) as Hok. apply generate_from_ok in Hg as [Hb Hok']; [|done|done|done].
  exists (x, pattern). split; [done|]. cbn [snd]. destruct (Nat.ltb_spec (length prefix) minLength).
  - apply res_bind_ok in Hp as ([padding rng2] & Hpad & [= <- <-]).
    destruct (Bytes_returns (minLength - length prefix) ltac:(lia) rng' Hok') as (padding' & rng3 & E & Hlen & _). rewrite E in Hpad. injection Hpad as -> ->.
    rewrite take_app_length, length_app, Hlen. split; [done|]. lia.
  - injection Hp as <- <-. rewrite take_ge by done. split; [done|]. lia.
Qed.

Lemma validate_specs_prefix order seed name spec : validate_specs true seed order = Ok tt -> (name, spec) ∈ order ->
  exists b n, ApplyPrefix prefix_generator spec seed 0 = Ok (b, n).
Proof.
  induction order as [|[s sp] order IH]; intros Hv Hin; [by apply elem_of_nil in Hin|]. cbn [validate_specs] in Hv. apply res_bind_ok in Hv as ([] & H1 & H2).
  apply elem_of_cons in Hin as [[= -> ->]|Hin]; [|by apply IH]. destruct (negb _); [done|]. apply res_bind_ok in H1 as ([b n] & Hb & _). by exists b, n.
Qed.

(** The specs of prefixes that are selected after validation have one transform, and bytes
    that its pattern matches were generated. *)
Theorem selected_prefix newSeed spec_order order specs scope scopedSpecs :
  (forall seed, newSeed = Ok seed -> length seed = SEED_LENGTH) -> (forall name spec, specs !! name = Some spec -> (name, spec) ∈ spec_order) ->
  (forall s names, scopedSpecs !! s = Some names -> (s, names) ∈ order /\ Z.of_nat (length names) < 2 ^ 63) ->
  Specs_Validate true newSeed spec_order = Ok tt -> ScopedSpecNames_Validate order specs = Ok tt ->
  draws_in (Select specs scope scopedSpecs) (fun '(name, spec) =>
    selected specs scope scopedSpecs (name, spec) /\ forall sp, spec = Some sp -> exists transform b, sp = [transform] /\ pattern_bytes transform.2 b).
Proof.
  intros Hseed Hspecs Horder Hv Hs. eapply yields_weaken; [|by apply (Select_validated order)]. intros [name spec] Hsel. split; [done|].
  intros sp ->. unfold selected in Hsel. destruct (scope_names scope scopedSpecs) as [|n ns]; [by destruct Hsel|]. destruct Hsel as (_ & Hl & _).
  apply res_bind_ok in Hv as (seed & Hnew & Hv). destruct (validate_specs_prefix _ _ _ _ Hv (Hspecs _ _ (eq_sym Hl))) as (b & k & Hb).
  apply ApplyPrefix_matches in Hb as (transform & -> & Hp & _); [|by apply Hseed|by unfold stream_limit]. by exists transform, (take k b).
Qed.

(** ** Seeds *)

(** A transform of the seed of an obfuscator keeps its length. *)
Lemma seed_Apply_length t b b' : seed_Apply t b = Ok b' -> length b' = length b.
Proof.
  unfold seed_Apply. destruct (TransformSpec t); [|by intros [= ->]]. intros (s & _ & (seed & _ & Hl)%res_bind_ok)%res_bind_ok.
  destruct (Nat.eqb_spec (length seed) (length b)); cbn [negb] in Hl; [by injection Hl as <-|done].
Qed.

(** So a configuration whose transform is this one meets what [Obfuscator] relies on. *)
Theorem seed_transform_well_formed config random t :
  (forall b, random = Ok b -> length b = OBFUSCATE_SEED_LENGTH) -> (forall b, PaddingPRNGSeed config = Some b -> length b = SEED_LENGTH) ->
  SeedTransform config = Some (seed_Apply t) -> well_formed config random.
Proof. intros Hr Hs Ht. split; [done|done|]. intros f b b' Hf Hb. rewrite Ht in Hf. injection Hf as <-. by apply (seed_Apply_length t). Qed.
End Transforms.

(** ** An example *)

#[local] Existing Instance example_syntax.

(** Two specs, one of them for a port. *)
Definition example_specs : Specs := {["DIGITS" := [("", "([0-9]|a)*\.")]; "DOT" := [("", ".")]]}.
Definition example_scopes : ScopedSpecNames := {["" := ["DIGITS"; "DOT"]; "22" := ["DOT"]; "80" := []]}.

Definition drawn {A} (m : stres PRNG A) : option A :=
  match NewPRNGWithSeed (replicate 32 x07) with
  | Ok rng => match m rng with Ok (v, _) => Some v | _ => None end
  | _ => None
  end.

Lemma example_selection :
  Specs_Validate (Compiled := unit) (fun _ => Ok tt) (fun _ s _ => s) 8 4 true (Ok (replicate 32 x07)) (map_to_list example_specs) = Ok tt /\
  ScopedSpecNames_Validate (map_to_list example_scopes) example_specs = Ok tt /\
  drawn (Select 8 example_specs "22" example_scopes) = Some ("DOT", Some [("", ".")]) /\
  drawn (Select 8 example_specs "443" example_scopes) = Some ("DIGITS", Some [("", "([0-9]|a)*\.")]) /\
  drawn (Select 8 example_specs "80" example_scopes) = Some ("", None).
Proof. vm_compute. split_and!; reflexivity. Qed.
