(* ===== verification/HttpNormalizer.v ===== *)
(** * The HTTP normalizer

    Models src/psiphon/common/transforms/httpNormalizer.go: a connection of which each HTTP
    request is read with a fixed request line and a few of its headers, and which is relayed
    to another server (passthrough) when a request is not one of a meek client.

    The values of headers are slices of the memory of the buffer [b] in the code, which are
    read when the request is written: the memory of the buffer is modelled, with its offset,
    its capacity and the arrays that it has left behind, and the slices into it.  The
    capacities that are allocated are those of a class, [Allocator].  The iteration over the
    map of headers is an argument; so is the check of the cookie. *)

From Stdlib Require Import ZArith Lia Strings.Byte Strings.String.
From stdpp Require Import base gmap list strings numbers.
From S2P Require Import Prelude.
From S2P Require Import GoStrings.
From S2P Require Import GoIO.
From S2P Require Import Fragmentor.
From S2P Require Import OsshConn.
#[local] Open Scope string_scope.
#[local] Open Scope Z_scope.
#[local] Open Scope list_scope.

Inductive normalizer_state := httpNormalizerReadReqLineAndHeader | httpNormalizerReadBody.

#[export] Instance normalizer_state_eq_dec : EqDecision normalizer_state.
Proof. solve_decision. Defined.

Definition httpNormalizerRequestLine : string := "POST / HTTP/1.1".
Definition hostHeader : string := "Host".
Definition contentLengthHeader : string := "Content-Length".
Definition cookieHeader : string := "Cookie".
Definition rangeHeader : string := "Range".

Definition ErrPassthroughActive : string := "passthrough".

Definition doublecrlf : bytes := CRLF ++ CRLF.

(** [textproto.TrimBytes] *)
Definition is_ascii_space (c : byte) : bool := existsb (Byte.eqb c) [x20; x09; x0a; x0d].

Fixpoint trim_left (b : bytes) : bytes :=
  match b with
  | c :: b' => if is_ascii_space c then trim_left b' else b
  | [] => []
  end.

Definition TrimBytes (b : bytes) : bytes := reverse (trim_left (reverse (trim_left b))).

(** [strconv.ParseUint(s, 10, 63)] *)
Definition ParseUint63 (b : bytes) : option Z :=
  match ParseUint (string_of_list_byte b) with
  | Number n => if n <? 2 ^ 63 then Some n else None
  | _ => None
  end.

(** ** The memory of a buffer *)

Abbreviation header_map := (gmap string bytes).

(** The capacity of an array that is allocated for a number of bytes *)
Class Allocator := {
  grown : nat -> nat;
  grown_law n : (n <= grown n)%nat
}.

(** A part of an array: that of the buffer or, by its number, one that it had before. *)
Record slice := { s_array : nat; s_start : nat; s_len : nat }.

(** The array of a [bytes.Buffer], as long as its capacity, with the offset of the unread bytes;
    the arrays before it; and the slices of the values of headers ([headers] in the code). *)
Record memory := {
  m_array : bytes;
  m_off : nat;
  m_old : list bytes;
  m_slices : gmap string slice
}.

Definition no_memory : memory := {| m_array := []; m_off := 0; m_old := []; m_slices := ∅ |}.

Definition set_array (m : memory) (a : bytes) (off : nat) : memory := {| m_array := a; m_off := off; m_old := m_old m; m_slices := m_slices m |}.
Definition set_slices (m : memory) (sl : gmap string slice) : memory := {| m_array := m_array m; m_off := m_off m; m_old := m_old m; m_slices := sl |}.

(** [copy(a[i:], x)] *)
Definition splice_at (i : nat) (x a : bytes) : bytes := take i a ++ x ++ drop (i + length x) a.

Definition smallBufferSize : nat := 64.

(** A new array for the unread bytes and more *)
Definition new_array (m : memory) (unread x : bytes) (capacity : nat) : memory :=
  {| m_array := unread ++ x ++ replicate (capacity - length (unread ++ x)) x00; m_off := 0; m_old := m_old m ++ [m_array m]; m_slices := m_slices m |}.

Section Buffer.
Context {alloc : Allocator}.

(** [bytes.Buffer.Write], when [unread] are the unread bytes: the bytes are appended in the
    array if it has room; else the unread bytes are moved to the front of the array, if it is
    large enough for that, or to a new array. *)
Definition buffer_Write (m : memory) (unread x : bytes) : memory :=
  let n := length x in
  let c := length (m_array m) in
  if (m_off m + length unread + n <=? c)%nat then set_array m (splice_at (m_off m + length unread) x (m_array m)) (m_off m)
  else
    let off := if (length unread =? 0)%nat then 0%nat else m_off m in
    if (off + length unread + n <=? c)%nat then set_array m (splice_at (off + length unread) x (m_array m)) off
    else if (c =? 0)%nat && (n <=? smallBufferSize)%nat then new_array m unread x smallBufferSize
    else if (n + length unread <=? c / 2)%nat then set_array m (splice_at (length unread) x (splice_at 0 unread (m_array m))) 0
    else new_array m unread x (grown (Nat.max (length unread + off + n) (2 * (c - off)))).

(** The write moves the unread bytes in the array. *)
Definition moves (m : memory) (unread x : bytes) : bool :=
  negb (m_off m + length unread + length x <=? length (m_array m))%nat && negb (length unread =? 0)%nat &&
  (length x + length unread <=? length (m_array m) / 2)%nat.
End Buffer.

(** [Next] and [Reset] *)
Definition buffer_Next (m : memory) (n : nat) : memory := set_array m (m_array m) (m_off m + n).
Definition buffer_Reset (m : memory) : memory := set_array m (m_array m) 0.

(** The bytes of a slice *)
Definition slice_bytes (m : memory) (s : slice) : bytes :=
  take (s_len s) (drop (s_start s) (if (s_array s =? length (m_old m))%nat then m_array m else default [] (m_old m !! s_array s))).

(** The values of headers as they are in the memory *)
Definition read_back (m : memory) (values : header_map) : header_map :=
  map_imap (fun h v => Some (match m_slices m !! h with Some s => slice_bytes m s | None => v end)) values.

(** ** State *)

(** The fields set by the listener.  The check of a cookie fails, or gives a result that may
    be nil. *)
Record normalizer_config := {
  maxReqLineAndHeadersSize : Z;
  preserveHeaders : list string;
  prohibitedHeaders : list string;
  headerWriteOrder : option (list string);
  validateMeekCookie : option (bytes -> option (option bytes));
  passthroughDialer : bool;
  passthroughAddress : string;
  passthroughLogPassthrough : bool
}.

(** What has been parsed of the headers of a request.  The values of the headers are the bytes
    that their slices had then. *)
Record parsed_headers := {
  headers : header_map;
  contentLength : option Z;
  ValidateMeekCookieResult : option bytes
}.

(** A call of [passthroughLogPassthrough] *)
Record passthrough_log := { log_error : string; log_header : option (string * bytes) }.

(** The bytes that a passthrough is started with are [relayed]. *)
Record HTTPNormalizer (R : Type) := {
  config : normalizer_config;
  state : normalizer_state;
  b : bytes;
  mem : memory;
  scanIndex : nat;
  readRequestLine : bool;
  reqLineAndHeadersBuf : bytes;
  request : parsed_headers;
  readRemain : Z;
  copyRemain : Z;
  passthrough : bool;
  relayed : option bytes;
  logged : list passthrough_log;
  Conn : R
}.
Arguments config {R}. Arguments state {R}. Arguments b {R}. Arguments mem {R}. Arguments scanIndex {R}. Arguments readRequestLine {R}. Arguments reqLineAndHeadersBuf {R}.
Arguments request {R}. Arguments readRemain {R}. Arguments copyRemain {R}. Arguments passthrough {R}. Arguments relayed {R}. Arguments logged {R}. Arguments Conn {R}.

Section HTTPNormalizer.
Context {R : Type}.

Definition set_state (t : HTTPNormalizer R) (s : normalizer_state) : HTTPNormalizer R :=
  {| config := config t; state := s; b := b t; mem := mem t; scanIndex := scanIndex t; readRequestLine := readRequestLine t; reqLineAndHeadersBuf := reqLineAndHeadersBuf t;
     request := request t; readRemain := readRemain t; copyRemain := copyRemain t; passthrough := passthrough t; relayed := relayed t; logged := logged t; Conn := Conn t |}.
Definition set_b (t : HTTPNormalizer R) (x : bytes) (m : memory) : HTTPNormalizer R :=
  {| config := config t; state := state t; b := x; mem := m; scanIndex := scanIndex t; readRequestLine := readRequestLine t; reqLineAndHeadersBuf := reqLineAndHeadersBuf t;
     request := request t; readRemain := readRemain t; copyRemain := copyRemain t; passthrough := passthrough t; relayed := relayed t; logged := logged t; Conn := Conn t |}.
Definition set_scan (t : HTTPNormalizer R) (i : nat) (line : bool) (r : parsed_headers) (m : memory) : HTTPNormalizer R :=
  {| config := config t; state := state t; b := b t; mem := m; scanIndex := i; readRequestLine := line; reqLineAndHeadersBuf := reqLineAndHeadersBuf t;
     request := r; readRemain := readRemain t; copyRemain := copyRemain t; passthrough := passthrough t; relayed := relayed t; logged := logged t; Conn := Conn t |}.
Definition set_head (t : HTTPNormalizer R) (x : bytes) : HTTPNormalizer R :=
  {| config := config t; state := state t; b := b t; mem := mem t; scanIndex := scanIndex t; readRequestLine := readRequestLine t; reqLineAndHeadersBuf := x;
     request := request t; readRemain := readRemain t; copyRemain := copyRemain t; passthrough := passthrough t; relayed := relayed t; logged := logged t; Conn := Conn t |}.
Definition set_remain (t : HTTPNormalizer R) (r c : Z) : HTTPNormalizer R :=
  {| config := config t; state := state t; b := b t; mem := mem t; scanIndex := scanIndex t; readRequestLine := readRequestLine t; reqLineAndHeadersBuf := reqLineAndHeadersBuf t;
     request := request t; readRemain := r; copyRemain := c; passthrough := passthrough t; relayed := relayed t; logged := logged t; Conn := Conn t |}.
Definition set_passthrough (t : HTTPNormalizer R) (log : list passthrough_log) : HTTPNormalizer R :=
  {| config := config t; state := state t; b := b t; mem := mem t; scanIndex := scanIndex t; readRequestLine := readRequestLine t; reqLineAndHeadersBuf := reqLineAndHeadersBuf t;
     request := request t; readRemain := readRemain t; copyRemain := copyRemain t; passthrough := true; relayed := Some (b t); logged := logged t ++ log; Conn := Conn t |}.
Definition set_Conn (t : HTTPNormalizer R) (c : R) : HTTPNormalizer R :=
  {| config := config t; state := state t; b := b t; mem := mem t; scanIndex := scanIndex t; readRequestLine := readRequestLine t; reqLineAndHeadersBuf := reqLineAndHeadersBuf t;
     request := request t; readRemain := readRemain t; copyRemain := copyRemain t; passthrough := passthrough t; relayed := relayed t; logged := logged t; Conn := c |}.

Definition no_headers (cookie : option bytes) : parsed_headers := {| headers := ∅; contentLength := None; ValidateMeekCookieResult := cookie |}.

Definition preserved : list string := [hostHeader; contentLengthHeader; cookieHeader; rangeHeader].

Definition NewHTTPNormalizer (conn : R) : HTTPNormalizer R :=
  {| config := {| maxReqLineAndHeadersSize := 0; preserveHeaders := preserved; prohibitedHeaders := []; headerWriteOrder := None; validateMeekCookie := None;
                  passthroughDialer := false; passthroughAddress := ""; passthroughLogPassthrough := false |};
     state := httpNormalizerReadReqLineAndHeader; b := []; mem := no_memory; scanIndex := 0; readRequestLine := false;
     reqLineAndHeadersBuf := list_byte_of_string httpNormalizerRequestLine; request := no_headers None; readRemain := 0; copyRemain := 0;
     passthrough := false; relayed := None; logged := []; Conn := conn |}.

(** ** Passthrough *)

Definition passthroughConfigured (c : normalizer_config) : bool := passthroughDialer c && negb (bool_decide (passthroughAddress c = "")).

Definition startPassthrough (t : HTTPNormalizer R) (tunnelError : string) (logFields : option (string * bytes)) : HTTPNormalizer R :=
  set_passthrough t (if passthroughLogPassthrough (config t) then [{| log_error := "passthrough: " +:+ tunnelError; log_header := logFields |}] else []).

(** A request is rejected: a passthrough, or an error. *)
Definition reject_request (t : HTTPNormalizer R) (err : string) (logFields : option (string * bytes)) : bytes * option string * HTTPNormalizer R :=
  if passthroughConfigured (config t) then ([], None, startPassthrough t err logFields) else ([], Some err, t).
End HTTPNormalizer.

(** ** Headers *)

(** The cookie of a line is checked unless one has been; then the result is kept. *)
Definition check_cookie (c : normalizer_config) (p : parsed_headers) (k v : bytes) : parsed_headers * option string :=
  match validateMeekCookie c, ValidateMeekCookieResult p with
  | Some validate, None =>
      if bool_decide (k = list_byte_of_string cookieHeader) then
        match validate v with
        | Some result => ({| headers := headers p; contentLength := contentLength p; ValidateMeekCookieResult := result |}, None)
        | None => (p, Some "invalid meek cookie")
        end
      else (p, None)
  | _, _ => (p, None)
  end.

Definition check_length (p : parsed_headers) (k v : bytes) : parsed_headers * option string :=
  if bool_decide (k = list_byte_of_string contentLengthHeader) then
    match ParseUint63 v with
    | Some cl => ({| headers := headers p; contentLength := Some cl; ValidateMeekCookieResult := ValidateMeekCookieResult p |}, None)
    | None => (p, Some "invalid Content-Length")
    end
  else (p, None).

Definition named (k : bytes) (names : list string) : option string := List.find (fun h => bool_decide (k = list_byte_of_string h)) names.

Definition preserve_header (c : normalizer_config) (p : parsed_headers) (k v : bytes) : parsed_headers :=
  match named k (preserveHeaders c) with
  | Some h => {| headers := <[h := v]> (headers p); contentLength := contentLength p; ValidateMeekCookieResult := ValidateMeekCookieResult p |}
  | None => p
  end.

(** The error of a line, with the header that is logged. *)
Abbreviation line_error := (option (string * option (string * bytes))).

(** A line of the headers, once the request line has been read or for it. *)
Definition header_line (c : normalizer_config) (p : parsed_headers) (header : bytes) : parsed_headers * line_error :=
  if (length (preserveHeaders c) <=? size (headers p))%nat then (p, None)
  else
    match bytes_Index header [x3a] with
    | None => (p, None)
    | Some colon =>
        let k := TrimBytes (take colon header) in
        let v := TrimBytes (drop (colon + 1) header) in
        match check_cookie c p k v with
        | (p, Some err) => (p, Some (err, None))
        | (p, None) =>
            match check_length p k v with
            | (p, Some err) => (p, Some (err, None))
            | (p, None) =>
                match named k (prohibitedHeaders c) with
                | Some h => (p, Some ("prohibited header", Some (h, v)))
                | None => (preserve_header c p k v, None)
                end
            end
        end
    end.

(** The slice of the value of a header that is preserved, for a line that starts at an index of
    the unread bytes *)
Definition keep_slice (c : normalizer_config) (p : parsed_headers) (header : bytes) (index : nat) (m : memory) : memory :=
  if (length (preserveHeaders c) <=? size (headers p))%nat then m
  else
    match bytes_Index header [x3a] with
    | None => m
    | Some colon =>
        match named (TrimBytes (take colon header)) (preserveHeaders c) with
        | Some h =>
            let value := drop (colon + 1) header in
            let spaces := (length value - length (trim_left value))%nat in
            set_slices m (<[h := {| s_array := length (m_old m); s_start := m_off m + index + (colon + 1) + spaces; s_len := length (TrimBytes value) |}]> (m_slices m))
        | None => m
        end
    end.

(** ** Reading *)

Inductive scanned := NoMoreLines | ReachedBody | BadLine (err : string) (logFields : option (string * bytes)).

(** The request line and the headers as they are written. *)
Definition write_headers (hs : list (string * bytes)) : bytes :=
  concat (map (fun '(k, v) => CRLF ++ list_byte_of_string k ++ list_byte_of_string ": " ++ v) hs).

Section Read.
Context {R : Type} `{!Reader R} {alloc : Allocator}.
(** The iteration over the map of headers. *)
Context (iterate : header_map -> list (string * bytes)).

(** The loop over the lines that are in the buffer. *)
Fixpoint scan_lines (fuel : nat) (t : HTTPNormalizer R) : res (HTTPNormalizer R * scanned) :=
  match fuel with
  | O => NoFuel
  | S fuel =>
      if (length (b t) <? scanIndex t)%nat then Panic "slice bounds out of range"
      else
        match bytes_Index (drop (scanIndex t) (b t)) CRLF with
        | None => Ok (t, NoMoreLines)
        | Some i =>
            let header := take i (drop (scanIndex t) (b t)) in
            if bool_decide (header = []) && readRequestLine t then Ok (t, ReachedBody)
            else
              match header_line (config t) (request t) header with
              | (p, Some (err, logFields)) => Ok (set_scan t (scanIndex t) true p (mem t), BadLine err logFields)
              | (p, None) => scan_lines fuel (set_scan t (scanIndex t + (i + length CRLF)) true p (keep_slice (config t) (request t) header (scanIndex t) (mem t)))
              end
        end
  end.

(** The headers in the order in which they are written. *)
Definition ordered_headers (c : normalizer_config) (m : header_map) : list (string * bytes) :=
  match headerWriteOrder c with
  | Some order => omap (fun k => (fun v => (k, v)) <$> m !! k) order
  | None => iterate m
  end.

(** [reqLineAndHeadersBuf] when the headers have been written to it. *)
Definition normalized_head (c : normalizer_config) (m : header_map) : bytes :=
  list_byte_of_string httpNormalizerRequestLine ++
  (if bool_decide (m !! hostHeader = None) then CRLF ++ list_byte_of_string "Host: example.com" else []) ++
  write_headers (ordered_headers c m) ++ doublecrlf.

Definition norm_copy (k : nat) (t : HTTPNormalizer R) : bytes * HTTPNormalizer R :=
  let bytesToCopy := if Z.of_nat (length (b t)) <? copyRemain t then Z.of_nat (length (b t)) else copyRemain t in
  let out := take k (take (Z.to_nat bytesToCopy) (b t)) in
  let t := set_b t (drop (length out) (b t)) (buffer_Next (mem t) (length out)) in
  let t := set_remain t (readRemain t) (wrapU 64 (copyRemain t - Z.of_nat (length out))) in
  (* the rest of the buffer is copied to its front *)
  (out, if (copyRemain t =? 0) && (readRemain t =? 0)
        then set_state (set_b t (b t) (buffer_Write (buffer_Reset (mem t)) [] (b t))) httpNormalizerReadReqLineAndHeader else t).

(** The state for the next request *)
Definition next_request (t : HTTPNormalizer R) : HTTPNormalizer R :=
  set_scan t 0 false (no_headers (ValidateMeekCookieResult (request t))) (set_slices (mem t) ∅).

(** What is returned, with the state reset. *)
Definition finish (r : bytes * option string * HTTPNormalizer R) : bytes * option string * HTTPNormalizer R := (r.1, next_request r.2).

(** A [Read] moves the unread bytes in the array while there are slices of headers. *)
Definition moves_headers (k : nat) (t : HTTPNormalizer R) : bool :=
  negb (passthrough t) && bool_decide (state t = httpNormalizerReadReqLineAndHeader) && negb (bool_decide (headers (request t) = ∅)) &&
  moves (mem t) (b t) (Read k (Conn t)).1.1.

(** The request line and all headers have been read. *)
Definition reached_body (k : nat) (t : HTTPNormalizer R) : bytes * option string * HTTPNormalizer R :=
  let bodyOffset := (scanIndex t + length CRLF)%nat in
  (* the slices are read *)
  let m := read_back (mem t) (headers (request t)) in
  match contentLength (request t) with
  | None => finish (reject_request t "Content-Length missing" None)
  | Some cl =>
      if bool_decide (is_Some (validateMeekCookie (config t))) && bool_decide (m !! cookieHeader = None) then finish (reject_request t "cookie missing" None)
      else
        let reqBody := drop bodyOffset (b t) in
        let t := set_head t (normalized_head (config t) m) in
        let header := reqLineAndHeadersBuf t in
        let t := set_b t (header ++ reqBody) (buffer_Write (buffer_Write (buffer_Reset (buffer_Next (mem t) bodyOffset)) [] header) header reqBody) in
        let t := set_state t httpNormalizerReadBody in
        let totalReqBytes := wrapS 64 (Z.of_nat (length header) + wrapS 64 cl) in
        let bytesOfBodyRead := Z.of_nat (length (b t)) - Z.of_nat (length header) in
        let t := set_remain t (if wrapS 64 (totalReqBytes - Z.of_nat (length header)) <? bytesOfBodyRead then 0 else wrapU 64 (cl - bytesOfBodyRead))
                              (wrapU 64 totalReqBytes) in
        let '(out, t) := norm_copy k t in
        finish (out, None, t)
  end.

Definition norm_Read (k : nat) : io (HTTPNormalizer R) (bytes * option string) := fun t =>
  if passthrough t then (Ok ([], Some EOF), t)
  else
    match state t with
    | httpNormalizerReadReqLineAndHeader =>
        let '(data, err, conn) := Read k (Conn t) in
        let t := set_Conn t conn in
        let t := set_b t (b t ++ data) (buffer_Write (mem t) (b t) data) in
        let max := maxReqLineAndHeadersSize (config t) in
        if (0 <? max) && (max <? Z.of_nat (length (b t))) && bool_decide (bytes_Index (take (Z.to_nat max) (b t)) doublecrlf = None) then
          if passthroughConfigured (config t) then (Ok ([], None), startPassthrough t "maxReqLineAndHeadersSize exceeded before request body received" None)
          else (Ok ([], Some "exceeds maxReqLineAndHeadersSize"), t)
        else
          match err with
          | Some e => (Ok ([], Some e), t)
          | None =>
              match scan_lines (S (length (b t))) t with
              | Ok (t, NoMoreLines) => (Ok ([], None), t)
              | Ok (t, BadLine err logFields) => let '(out, err, t) := reject_request t err logFields in (Ok (out, err), t)
              | Ok (t, ReachedBody) => let '(out, err, t) := reached_body k t in (Ok (out, err), t)
              | Err e => (Err e, t)
              | Panic e => (Panic e, t)
              | NoFuel => (NoFuel, t)
              end
          end
    | httpNormalizerReadBody =>
        if (length (b t) =? 0)%nat then
          let bufferLen := if readRemain t <? Z.of_nat k then readRemain t else Z.of_nat k in
          let '(data, err, conn) := Read (Z.to_nat bufferLen) (Conn t) in
          let t := set_Conn t conn in
          let t := if readRemain t <=? Z.of_nat (length data) then set_state (set_remain t 0 (copyRemain t)) httpNormalizerReadReqLineAndHeader
                   else set_remain t (readRemain t - Z.of_nat (length data)) (copyRemain t) in
          (Ok (data, err), t)
        else let '(out, t) := norm_copy k t in (Ok (out, None), t)
    end.

(** Another [Read] for each buffer, until an error; what was returned and the error. *)
Fixpoint read_each (ks : list nat) : io (HTTPNormalizer R) (bytes * option string) :=
  match ks with
  | [] => mret ([], None)
  | k :: ks =>
      '(out, err) ← norm_Read k;
      match err with
      | Some e => mret (out, Some e)
      | None => '(outs, err) ← read_each ks; mret (out ++ outs, err)
      end
  end.

(** No [Read] moves the headers of a request. *)
Fixpoint steady (ks : list nat) (t : HTTPNormalizer R) : bool :=
  match ks with
  | [] => true
  | k :: ks => negb (moves_headers k t) && match norm_Read k t with (Ok (_, None), t') => steady ks t' | _ => true end
  end.
End Read.

(** ** The other operations *)

Section Operations.
Context {U : Type} `{!UnderlyingConn U}.

Definition norm_Write (x : bytes) (t : HTTPNormalizer U) : nat * option string * HTTPNormalizer U :=
  if passthrough t then (0%nat, Some ErrPassthroughActive, t)
  else let '(n, err, u) := conn_Write x (Conn t) in (n, err, set_Conn t u).

Definition norm_Close (t : HTTPNormalizer U) : option string * HTTPNormalizer U :=
  if passthrough t then (None, t) else let '(err, u) := conn_Close (Conn t) in (err, set_Conn t u).

(** [SetDeadline], [SetReadDeadline] and [SetWriteDeadline] with the one of the connection *)
Definition norm_SetDeadline (set : U -> option string * U) (t : HTTPNormalizer U) : option string * HTTPNormalizer U :=
  if passthrough t then (None, t) else let '(err, u) := set (Conn t) in (err, set_Conn t u).

Definition norm_GetMetrics (t : HTTPNormalizer U) : option (gmap string Z) := conn_GetMetrics (Conn t).
End Operations.

(** The fields of a listener; [ClientIP] is the host of the remote address. *)
Record HTTPNormalizerListener := {
  HeaderWriteOrder : option (list string);
  MaxReqLineAndHeadersSize : Z;
  ProhibitedHeaders : list string;
  PassthroughAddress : string;
  PassthroughDialer : bool;
  PassthroughLogPassthrough : bool;
  ValidateMeekCookie : option (string -> bytes -> option (option bytes))
}.

Definition set_config {R} (t : HTTPNormalizer R) (c : normalizer_config) : HTTPNormalizer R :=
  {| config := c; state := state t; b := b t; mem := mem t; scanIndex := scanIndex t; readRequestLine := readRequestLine t; reqLineAndHeadersBuf := reqLineAndHeadersBuf t;
     request := request t; readRemain := readRemain t; copyRemain := copyRemain t; passthrough := passthrough t; relayed := relayed t; logged := logged t; Conn := Conn t |}.

Definition listener_Accept {R} (l : HTTPNormalizerListener) (accepted : res R) (clientIP : res string) : res (HTTPNormalizer R) :=
  conn ← accepted;
  let normalizer := NewHTTPNormalizer conn in
  let with_cookie validate := set_config normalizer
    {| maxReqLineAndHeadersSize := MaxReqLineAndHeadersSize l; preserveHeaders := preserveHeaders (config normalizer); prohibitedHeaders := ProhibitedHeaders l;
       headerWriteOrder := HeaderWriteOrder l; validateMeekCookie := validate; passthroughDialer := PassthroughDialer l; passthroughAddress := PassthroughAddress l;
       passthroughLogPassthrough := PassthroughLogPassthrough l |} in
  match ValidateMeekCookie l with
  | None => Ok (with_cookie None)
  | Some validate => ip ← clientIP; Ok (with_cookie (Some (validate ip)))
  end.

(** ** Requests *)

Record http_request := { req_lines : list bytes; req_body : bytes }.

Definition head_bytes (lines : list bytes) : bytes := concat (map (fun l => l ++ CRLF) lines).

(** The bytes of a request. *)
Definition wire (q : http_request) : bytes := head_bytes (req_lines q) ++ CRLF ++ req_body q.

(** A line ends at the first CRLF. *)
Definition is_header_line (l : bytes) : bool := bool_decide (bytes_Index (l ++ CRLF) CRLF = Some (length l)).

Fixpoint header_lines (c : normalizer_config) (p : parsed_headers) (lines : list bytes) : option parsed_headers :=
  match lines with
  | [] => Some p
  | l :: lines => match header_line c p l with (p, None) => header_lines c p lines | _ => None end
  end.

(** The lines of a request: all but the first have a byte, and they are not too long. *)
Definition lines_ok (c : normalizer_config) (lines : list bytes) : bool :=
  forallb is_header_line lines && match lines with [] => false | _ :: ls => forallb (fun l => negb (bool_decide (l = []))) ls end &&
  ((maxReqLineAndHeadersSize c <=? 0) || (Z.of_nat (length (head_bytes lines) + 2) <=? maxReqLineAndHeadersSize c)).

Section Requests.
Context (iterate : header_map -> list (string * bytes)) (c : normalizer_config).

(** A request is accepted if its headers are, its body has the length that they say, and it
    has a cookie when one is required; the new request line and headers fit in a slice. *)
Definition accepted_request (cookie : option bytes) (q : http_request) : option parsed_headers :=
  if lines_ok c (req_lines q) then
    p ← header_lines c (no_headers cookie) (req_lines q);
    if bool_decide (contentLength p = Some (Z.of_nat (length (req_body q)))) &&
       (bool_decide (validateMeekCookie c = None) || negb (bool_decide (headers p !! cookieHeader = None))) &&
       (Z.of_nat (length (normalized_head iterate c (headers p))) <? 2 ^ 63)
    then Some p else None
  else None.

(** The headers that are kept of each request. *)
Fixpoint accepted_requests (cookie : option bytes) (qs : list http_request) : option (list header_map) :=
  match qs with
  | [] => Some []
  | q :: qs => p ← accepted_request cookie q; ms ← accepted_requests (ValidateMeekCookieResult p) qs; Some (headers p :: ms)
  end.

(** What is read of the requests. *)
Definition normalized_request (q : http_request) (m : header_map) : bytes := normalized_head iterate c m ++ req_body q.
Definition normalized (qs : list http_request) (ms : list header_map) : bytes := concat (zip_with normalized_request qs ms).
End Requests.

Definition wires (qs : list http_request) : bytes := concat (map wire qs).

(** *** Lines *)

(** The first CRLF of a line and what follows it, in the part that has arrived. *)
Lemma line_index l rest have more : is_header_line l = true -> have ++ more = l ++ CRLF ++ rest ->
  bytes_Index have CRLF = if (length l + 2 <=? length have)%nat then Some (length l) else None.
Proof.
  intros Hl%bool_decide_eq_true E. assert (bytes_Index (l ++ CRLF ++ rest) CRLF = Some (length l)) as Hi by (rewrite app_assoc; by apply Index_extend).
  rewrite <- E in Hi. apply Index_some in Hi as [Ho Hmin]. destruct (Nat.leb_spec (length l + 2) (length have)).
  - rewrite occurs_prefix in Ho by (cbn; lia). apply Index_first; [done|]. intros j Hj Hoj. apply (Hmin j Hj). rewrite occurs_prefix by (cbn; lia). done.
  - destruct (bytes_Index have CRLF) as [i|] eqn:Hi; [|done]. apply Index_some in Hi as [Hoi _]. pose proof (occurs_bound have CRLF i ltac:(done) Hoi) as Hb. cbn in Hb.
    exfalso. apply (Hmin i); [lia|]. by apply occurs_prefix.
Qed.

Lemma empty_line : is_header_line [] = true.
Proof. reflexivity. Qed.

Lemma head_bytes_app ls ls' : head_bytes (ls ++ ls') = head_bytes ls ++ head_bytes ls'.
Proof. unfold head_bytes. by rewrite map_app, concat_app. Qed.

Lemma header_lines_app c p ls ls' : header_lines c p (ls ++ ls') = p' ← header_lines c p ls; header_lines c p' ls'.
Proof. revert p. induction ls as [|l ls IH]; intros p; [done|]. cbn. destruct (header_line c p l) as [p' [e|]]; [done|apply IH]. Qed.

(** *** Memory *)

(** The unread bytes are in the array. *)
Definition memory_ok (m : memory) (unread : bytes) : Prop :=
  (m_off m + length unread <= length (m_array m))%nat /\ take (length unread) (drop (m_off m) (m_array m)) = unread.

(** The slices have the values, and those into the array are in its unread part. *)
Definition slices_ok (m : memory) (unread : bytes) (values : header_map) : Prop :=
  forall h v, values !! h = Some v -> exists s, m_slices m !! h = Some s /\ slice_bytes m s = v /\ (s_array s <= length (m_old m))%nat /\
    (s_array s = length (m_old m) -> s_len s = 0%nat \/ (m_off m <= s_start s)%nat /\ (s_start s + s_len s <= m_off m + length unread)%nat).

Lemma read_back_ok m unread values : slices_ok m unread values -> read_back m values = values.
Proof.
  intros Hs. apply map_eq. intros h. unfold read_back. rewrite map_lookup_imap. destruct (values !! h) as [v|] eqn:E; [|done]. cbn.
  destruct (Hs h v E) as (sl & -> & -> & _). done.
Qed.

Lemma slices_ok_empty m unread : slices_ok m unread ∅.
Proof. intros h v Hv. by rewrite lookup_empty in Hv. Qed.

Lemma splice_at_length i x a : (i + length x <= length a)%nat -> length (splice_at i x a) = length a.
Proof. intros Hi. unfold splice_at. rewrite !length_app, length_take, length_drop. lia. Qed.

(** What is copied does not change what is before it. *)
Lemma splice_at_before i x a start n : (i + length x <= length a)%nat -> (start + n <= i)%nat -> take n (drop start (splice_at i x a)) = take n (drop start a).
Proof.
  intros Hi Hn. unfold splice_at. rewrite drop_app_le by (rewrite length_take; lia). rewrite take_app_le by (rewrite length_drop, length_take; lia).
  rewrite skipn_firstn_comm, take_take. f_equal. lia.
Qed.

(** Bytes that are copied after the unread ones *)
Lemma splice_at_append m unread x off : memory_ok (set_array m (m_array m) off) unread -> (off + length unread + length x <= length (m_array m))%nat ->
  memory_ok (set_array m (splice_at (off + length unread) x (m_array m)) off) (unread ++ x).
Proof.
  intros [_ Hu] Hle. cbn in Hu. unfold memory_ok. cbn. rewrite splice_at_length, length_app by lia. split; [lia|].
  assert (drop off (splice_at (off + length unread) x (m_array m)) = unread ++ x ++ drop (off + length unread + length x) (m_array m)) as ->.
  { unfold splice_at. rewrite drop_app_le by (rewrite length_take; lia). f_equal. rewrite skipn_firstn_comm.
    by replace (off + length unread - off)%nat with (length unread) by lia. }
  rewrite app_assoc, <- length_app, take_app_length. done.
Qed.

Lemma new_array_ok m unread x capacity : memory_ok (new_array m unread x capacity) (unread ++ x).
Proof.
  unfold memory_ok, new_array. cbn. rewrite app_assoc. split; [rewrite !length_app; lia|]. by rewrite drop_0, take_app_length.
Qed.

Lemma new_array_slices m unread x capacity values : slices_ok m unread values -> slices_ok (new_array m unread x capacity) (unread ++ x) values.
Proof.
  intros Hs h v Hv. destruct (Hs h v Hv) as (sl & H1 & H2 & H3 & _). exists sl. unfold new_array. cbn. rewrite !length_app. cbn. split_and!; [done| |lia|intros E; exfalso; lia].
  rewrite <- H2. unfold slice_bytes. cbn. rewrite length_app. cbn. rewrite (proj2 (Nat.eqb_neq (s_array sl) (length (m_old m) + 1))) by lia.
  destruct (Nat.eqb_spec (s_array sl) (length (m_old m))) as [->|Hne]; [by rewrite list_lookup_middle|]. by rewrite lookup_app_l by lia.
Qed.

Section BufferWrite.
Context {alloc : Allocator}.

Lemma buffer_Write_ok m unread x : memory_ok m unread -> memory_ok (buffer_Write m unread x) (unread ++ x).
Proof.
  intros Hm. pose proof Hm as [Hle Hu]. unfold buffer_Write. cbv zeta. destruct (Nat.leb_spec (m_off m + length unread + length x) (length (m_array m))) as [H1|H1].
  { apply splice_at_append; [by destruct m|lia]. }
  set (off := if (length unread =? 0)%nat then 0%nat else m_off m).
  assert (memory_ok (set_array m (m_array m) off) unread) as Hoff.
  { unfold off. destruct (Nat.eqb_spec (length unread) 0) as [E|E]; [|by destruct m]. apply nil_length_inv in E as ->. split; cbn; [lia|done]. }
  destruct (Nat.leb_spec (off + length unread + length x) (length (m_array m))); [by apply splice_at_append|].
  destruct (_ && _); [apply new_array_ok|]. destruct (Nat.leb_spec (length x + length unread) (length (m_array m) / 2)) as [H3|H3]; [|apply new_array_ok].
  assert (length (m_array m) / 2 <= length (m_array m))%nat by (apply Nat.Div0.div_le_upper_bound; lia).
  pose proof (splice_at_length 0 unread (m_array m) ltac:(lia)) as Hl.
  apply (splice_at_append {| m_array := splice_at 0 unread (m_array m); m_off := 0; m_old := m_old m; m_slices := m_slices m |} unread x 0); [|cbn; lia].
  split; cbn; [lia|]. unfold splice_at. rewrite take_0, drop_0. cbn. by rewrite take_app_length.
Qed.

(** The slices keep their values unless the unread bytes are moved in the array. *)
Lemma buffer_Write_slices m unread x values : memory_ok m unread -> slices_ok m unread values -> moves m unread x = false ->
  slices_ok (buffer_Write m unread x) (unread ++ x) values.
Proof.
  intros [Hle Hu] Hs Hmv. unfold moves in Hmv. unfold buffer_Write. cbv zeta.
  assert (forall off, (off + length unread + length x <= length (m_array m))%nat -> off = m_off m \/ unread = [] ->
    slices_ok (set_array m (splice_at (off + length unread) x (m_array m)) off) (unread ++ x) values) as Happ.
  { intros off Hroom Hoff h v Hv. destruct (Hs h v Hv) as (sl & H1 & H2 & H3 & H4). exists sl. cbn. rewrite length_app.
    assert (s_array sl = length (m_old m) -> s_len sl = 0%nat \/ off = m_off m /\ (m_off m <= s_start sl)%nat /\ (s_start sl + s_len sl <= m_off m + length unread)%nat) as H4'.
    { intros E. destruct (H4 E) as [?|?]; [by left|]. destruct Hoff as [->| ->]; [by right|cbn in *; left; lia]. }
    split_and!; [done| |done|intros E; destruct (H4' E) as [?|(-> & ? & ?)]; [by left|right; lia]].
    rewrite <- H2. unfold slice_bytes. cbn. destruct (Nat.eqb_spec (s_array sl) (length (m_old m))) as [E|]; [|done].
    destruct (H4' E) as [->|(-> & ? & ?)]; [done|]. apply splice_at_before; lia. }
  destruct (Nat.leb_spec (m_off m + length unread + length x) (length (m_array m))) as [H1|H1]; [apply Happ; auto|]. cbn [negb andb] in Hmv.
  destruct (Nat.eqb_spec (length unread) 0) as [E|E]; cbn [negb andb] in Hmv.
  - apply nil_length_inv in E. destruct (Nat.leb_spec (0 + length unread + length x) (length (m_array m))); [apply Happ; auto|].
    destruct (_ && _); [by apply new_array_slices|]. destruct (Nat.leb_spec (length x + length unread) (length (m_array m) / 2)) as [H3|H3]; [|by apply new_array_slices].
    assert (length (m_array m) / 2 <= length (m_array m))%nat by (apply Nat.Div0.div_le_upper_bound; lia). lia.
  - rewrite (proj2 (Nat.leb_gt _ _)) by lia. destruct (_ && _); [by apply new_array_slices|]. rewrite Hmv. by apply new_array_slices.
Qed.

Lemma buffer_Write_off m unread x : m_off m = 0%nat -> m_off (buffer_Write m unread x) = 0%nat.
Proof.
  intros E. unfold buffer_Write. cbv zeta. rewrite E. destruct (_ <=? _)%nat; [done|]. destruct (length unread =? 0)%nat; destruct (_ <=? _)%nat; try done;
    destruct (_ && _); try done; by destruct (_ <=? _)%nat.
Qed.

Lemma moves_off m unread x : m_off m = 0%nat -> moves m unread x = false.
Proof.
  intros E. unfold moves. rewrite E. destruct (Nat.leb_spec (0 + length unread + length x) (length (m_array m))); [done|].
  assert (length (m_array m) / 2 <= length (m_array m))%nat by (apply Nat.Div0.div_le_upper_bound; lia).
  rewrite (proj2 (Nat.leb_gt (length x + length unread) _)) by lia. apply andb_false_r.
Qed.

Lemma buffer_Write_reset m x : memory_ok (buffer_Write (buffer_Reset m) [] x) x.
Proof. apply (buffer_Write_ok _ []). split; cbn; [lia|done]. Qed.
End BufferWrite.

Lemma buffer_Next_ok m unread n : memory_ok m unread -> (n <= length unread)%nat -> memory_ok (buffer_Next m n) (drop n unread).
Proof.
  intros [Hle Hu] Hn. split; cbn; rewrite length_drop; [lia|]. rewrite <- drop_drop, <- Hu at 1. rewrite length_take, length_drop, Nat.min_l by lia.
  rewrite <- Hu at 2. rewrite skipn_firstn_comm. done.
Qed.

(** The bytes of a value are in the line. *)
Lemma trim_left_drop l : trim_left l = drop (length l - length (trim_left l)) l /\ (length (trim_left l) <= length l)%nat.
Proof.
  induction l as [|c l [IH Hle]]; [done|]. cbn [trim_left length]. destruct (is_ascii_space c); [|by rewrite Nat.sub_diag].
  split; [|lia]. replace (S (length l) - length (trim_left l))%nat with (S (length l - length (trim_left l)))%nat by lia. exact IH.
Qed.

Lemma TrimBytes_take l : TrimBytes l = take (length (TrimBytes l)) (drop (length l - length (trim_left l)) l).
Proof.
  rewrite <- (proj1 (trim_left_drop l)). unfold TrimBytes. set (x := trim_left l).
  assert (exists y, x = reverse (trim_left (reverse x)) ++ y) as [y E].
  { exists (reverse (take (length (reverse x) - length (trim_left (reverse x))) (reverse x))). rewrite <- reverse_app.
    rewrite (proj1 (trim_left_drop (reverse x))) at 2. by rewrite take_drop, reverse_involutive. }
  rewrite E at 3. by rewrite take_app_length.
Qed.

Lemma TrimBytes_length l : (length l - length (trim_left l) + length (TrimBytes l) <= length l)%nat.
Proof.
  pose proof (f_equal length (TrimBytes_take l)) as E. rewrite length_take, length_drop in E. pose proof (proj2 (trim_left_drop l)). lia.
Qed.

(** The headers after a line without an error *)
Lemma header_line_headers c p l p' : header_line c p l = (p', None) ->
  headers p' = if (length (preserveHeaders c) <=? size (headers p))%nat then headers p
               else match bytes_Index l [x3a] with
                    | None => headers p
                    | Some colon => match named (TrimBytes (take colon l)) (preserveHeaders c) with
                                    | Some h => <[h := TrimBytes (drop (colon + 1) l)]> (headers p)
                                    | None => headers p
                                    end
                    end.
Proof.
  unfold header_line. destruct (_ <=? _)%nat; [by intros [= <-]|]. destruct (bytes_Index l [x3a]) as [colon|]; [|by intros [= <-]].
  set (k := TrimBytes (take colon l)). set (v := TrimBytes (drop (colon + 1) l)).
  assert (forall p1 e, check_cookie c p k v = (p1, e) -> headers p1 = headers p) as Hc.
  { intros p1 e. unfold check_cookie. destruct (validateMeekCookie c) as [validate|], (ValidateMeekCookieResult p); try (by intros [= <- _]).
    case_bool_decide; [|by intros [= <- _]]. destruct (validate v); by intros [= <- _]. }
  assert (forall p1 p2 e, check_length p1 k v = (p2, e) -> headers p2 = headers p1) as Hcl.
  { intros p1 p2 e. unfold check_length. case_bool_decide; [|by intros [= <- _]]. destruct (ParseUint63 v); by intros [= <- _]. }
  destruct (check_cookie c p k v) as [p1 [e|]] eqn:E1; [done|]. destruct (check_length p1 k v) as [p2 [e|]] eqn:E2; [done|].
  destruct (named k (prohibitedHeaders c)); [done|]. intros [= <-]. unfold preserve_header. rewrite <- (Hc _ _ eq_refl), <- (Hcl _ _ _ E2).
  by destruct (named k (preserveHeaders c)).
Qed.

(** The slice of a line that is kept has the value of the header. *)
Lemma keep_slice_ok c p l index m unread p' : memory_ok m unread -> slices_ok m unread (headers p) ->
  (index + length l <= length unread)%nat -> take (length l) (drop index unread) = l -> header_line c p l = (p', None) ->
  memory_ok (keep_slice c p l index m) unread /\ slices_ok (keep_slice c p l index m) unread (headers p').
Proof.
  intros Hm Hs Hi Hl ->%header_line_headers. unfold keep_slice. destruct (_ <=? _)%nat; [done|]. destruct (bytes_Index l [x3a]) as [colon|] eqn:Hx; [|done].
  destruct (named _ (preserveHeaders c)) as [h|]; [|done]. split; [done|]. apply Index_some in Hx as [Hx _]. apply occurs_bound in Hx; [|done]. cbn in Hx.
  set (value := drop (colon + 1) l). pose proof (TrimBytes_length value) as Hv. assert (length value = length l - (colon + 1))%nat as Hlen by apply length_drop.
  intros h' v' [[<- <-]|[Hne Hh']]%lookup_insert_Some.
  - eexists. cbn. rewrite lookup_insert_eq. split_and!; [done| |done|intros _; right; cbn; lia]. unfold slice_bytes. cbn. rewrite Nat.eqb_refl.
    destruct Hm as [Hle Hu]. set (spaces := (length value - length (trim_left value))%nat) in *. set (a := drop (m_off m + index + (colon + 1)) (m_array m)).
    assert (value = take (length value) a) as Hval.
    { unfold value at 1. rewrite <- Hl, skipn_firstn_comm, <- Hu, !skipn_firstn_comm, take_take, !drop_drop. unfold a. f_equal; [rewrite Hlen; lia|]. f_equal. lia. }
    assert (drop spaces value = take (length value - spaces) (drop spaces a)) as Hd by (rewrite <- skipn_firstn_comm; f_equal; exact Hval).
    etrans; [|symmetry; apply TrimBytes_take]. fold spaces. rewrite Hd, take_take, <- drop_drop. fold a. f_equal. lia.
  - destruct (Hs h' v' Hh') as (sl & H1 & H2 & H3 & H4). exists sl. cbn. by rewrite lookup_insert_ne.
Qed.

Lemma keep_slice_off c p l index m : m_off (keep_slice c p l index m) = m_off m.
Proof. unfold keep_slice. destruct (_ <=? _)%nat; [done|]. destruct (bytes_Index l [x3a]); [|done]. by destruct (named _ _). Qed.

(** *** The loop over the lines *)

Section Scan.
Context {R : Type}.

(** The lines of a request that have been parsed are [done]. *)
Record scanning (cookie : option bytes) (done : list bytes) (t : HTTPNormalizer R) : Prop := {
  sc_index : scanIndex t = length (head_bytes done);
  sc_bound : (scanIndex t <= length (b t))%nat;
  sc_line : readRequestLine t = negb (bool_decide (done = []));
  sc_parsed : header_lines (config t) (no_headers cookie) done = Some (request t);
  sc_memory : memory_ok (mem t) (b t);
  sc_slices : slices_ok (mem t) (b t) (headers (request t))
}.

(** All lines but the first have a byte. *)
Definition todo_ok (done todo : list bytes) : Prop :=
  Forall (fun l => is_header_line l = true) todo /\ Forall (fun l => l <> []) (if bool_decide (done = []) then tail todo else todo) /\ (done = [] -> todo <> []).

Lemma todo_next done l todo : todo_ok done (l :: todo) -> todo_ok (done ++ [l]) todo.
Proof.
  intros ([_ Hl]%list.Forall_cons & Hn & _). unfold todo_ok. rewrite bool_decide_false by (by destruct done). split_and!; [done| |by destruct done].
  case_bool_decide; [done|by apply list.Forall_cons in Hn as [_ ?]].
Qed.

Lemma scan_lines_ok fuel cookie : forall (t : HTTPNormalizer R) done todo more rest p, scanning cookie done t -> todo_ok done todo ->
  b t ++ more = head_bytes (done ++ todo) ++ CRLF ++ rest -> header_lines (config t) (no_headers cookie) (done ++ todo) = Some p ->
  (length (b t) - scanIndex t < fuel)%nat ->
  exists done' todo' t' r, scan_lines fuel t = Ok (t', r) /\ done ++ todo = done' ++ todo' /\ t' = set_scan t (scanIndex t') (readRequestLine t') (request t') (mem t') /\
    scanning cookie done' t' /\ m_off (mem t') = m_off (mem t) /\
    match r with
    | NoMoreLines => (length (b t) < length (head_bytes (done ++ todo)) + 2)%nat
    | ReachedBody => todo' = [] /\ (length (head_bytes (done ++ todo)) + 2 <= length (b t))%nat
    | BadLine _ _ => False
    end.
Proof.
  induction fuel as [|fuel IH]; intros t done todo more rest p Hs Ht E Hp Hf; [lia|]. cbn [scan_lines]. destruct Hs as [Hi Hb Hl Hpar Hmem Hsl].
  rewrite (proj2 (Nat.ltb_ge _ _)) by done.
  assert (drop (scanIndex t) (b t) ++ more = head_bytes todo ++ CRLF ++ rest) as E'.
  { apply (f_equal (drop (scanIndex t))) in E. rewrite drop_app_le in E by done. rewrite head_bytes_app, Hi, <- app_assoc, drop_app_length in E. by rewrite Hi. }
  assert (length (drop (scanIndex t) (b t)) = length (b t) - scanIndex t)%nat as Hlen by apply length_drop.
  destruct todo as [|l todo].
  - assert (done <> []) as Hd by (intros ->; by apply Ht). rewrite app_nil_r in *. cbn [head_bytes map concat app] in E'.
    rewrite (line_index [] rest _ more empty_line E'). cbn [length]. destruct (Nat.leb_spec (0 + 2) (length (drop (scanIndex t) (b t)))).
    + rewrite bool_decide_true, Hl, bool_decide_false by done. exists done, [], t, ReachedBody. rewrite app_nil_r. split_and!; try done; [by destruct t|lia].
    + exists done, [], t, NoMoreLines. rewrite app_nil_r. split_and!; try done; [by destruct t|lia].
  - pose proof Ht as ([Hll _]%list.Forall_cons & Hne & _). cbn [head_bytes map concat] in E'. rewrite <- !app_assoc in E'.
    rewrite (line_index l _ _ more Hll E'). destruct (Nat.leb_spec (length l + 2) (length (drop (scanIndex t) (b t)))) as [Hge|Hlt].
    + assert (take (length l) (drop (scanIndex t) (b t)) = l) as Hline.
      { apply (f_equal (take (length l))) in E'. rewrite take_app_le in E' by lia. by rewrite take_app_length in E'. }
      rewrite Hline. assert (bool_decide (l = []) && readRequestLine t = false) as ->.
      { rewrite Hl. destruct (bool_decide_reflect (done = [])); [apply andb_false_r|]. rewrite bool_decide_false; [done|]. by apply list.Forall_cons in Hne as [??]. }
      rewrite (cons_middle l done todo) in Hp, E |- *. rewrite (app_assoc done [l] todo) in Hp, E |- *. rewrite header_lines_app, header_lines_app, Hpar in Hp. cbn in Hp.
      destruct (header_line (config t) (request t) l) as [p' [e|]] eqn:Hhl; [done|]. cbn in Hp.
      assert (length (head_bytes (done ++ [l])) = scanIndex t + (length l + 2))%nat as Hh.
      { rewrite head_bytes_app, length_app, Hi. unfold head_bytes. cbn. rewrite !length_app. cbn. lia. }
      assert (scanIndex t + length l <= length (b t))%nat as Hin by lia. destruct (keep_slice_ok _ _ _ (scanIndex t) _ _ _ Hmem Hsl Hin Hline Hhl) as [Hmem' Hsl'].
      destruct (IH (set_scan t (scanIndex t + (length l + length CRLF)) true p' (keep_slice (config t) (request t) l (scanIndex t) (mem t))) (done ++ [l]) todo more rest p)
        as (done' & todo' & t' & r & Hscan & Hd & Hframe & Hsc & Ho & Hr);
        [split; cbn; [by rewrite Hh|lia|by destruct done|by rewrite header_lines_app, Hpar; cbn; rewrite Hhl|done|done]|by apply todo_next|done| |cbn; lia|].
      { cbn [config set_scan]. rewrite !header_lines_app, Hpar. cbn. by rewrite Hhl. }
      exists done', todo', t', r. split_and!; try done. rewrite Ho. apply keep_slice_off.
    + exists done, (l :: todo), t, NoMoreLines. split_and!; try done; [by destruct t|]. rewrite head_bytes_app, length_app.
      unfold head_bytes at 2. cbn. rewrite !length_app. cbn. lia.
Qed.
End Scan.

(** *** The headers that are kept *)

(** The name and the value of a line *)
Definition line_header (l : bytes) : option (bytes * bytes) :=
  (fun colon => (TrimBytes (take colon l), TrimBytes (drop (colon + 1) l))) <$> bytes_Index l [x3a].

Lemma named_some k names h : named k names = Some h -> h ∈ names /\ k = list_byte_of_string h.
Proof. intros [Hin Hk%bool_decide_eq_true]%List.find_some. split; [by apply list_elem_of_In|done]. Qed.

(** The value of the last line with a header *)
Definition last_value (h : string) (lines : list bytes) : option bytes :=
  foldl (fun value l => match line_header l with
                        | Some (k, v) => if bool_decide (k = list_byte_of_string h) then Some v else value
                        | None => value
                        end) None lines.

Definition found_all (lines : list bytes) : bool := forallb (fun h => bool_decide (is_Some (last_value h lines))) preserved.

(** Lines are used until all headers that are preserved have been found. *)
Definition lines_used (lines : list bytes) : list bytes := foldl (fun used l => if found_all used then used else used ++ [l]) [] lines.

Lemma last_value_snoc h lines l :
  last_value h (lines ++ [l]) = match line_header l with
                                | Some (k, v) => if bool_decide (k = list_byte_of_string h) then Some v else last_value h lines
                                | None => last_value h lines
                                end.
Proof. unfold last_value. by rewrite foldl_app. Qed.

Lemma lines_used_snoc lines l : lines_used (lines ++ [l]) = if found_all (lines_used lines) then lines_used lines else lines_used lines ++ [l].
Proof. unfold lines_used. by rewrite foldl_app. Qed.

Lemma list_byte_inj h h' : list_byte_of_string h = list_byte_of_string h' -> h = h'.
Proof. intros E. by rewrite <- (string_of_list_byte_of_string h), E, string_of_list_byte_of_string. Qed.

(** What is in a map of headers is the last values in lines. *)
Definition last_values (lines : list bytes) (m : header_map) : Prop :=
  forall h, m !! h = if bool_decide (h ∈ preserved) then last_value h lines else None.

Lemma last_values_size lines m : last_values lines m -> (length preserved <=? size m)%nat = found_all lines.
Proof.
  intros Hm. assert (dom m ⊆ list_to_set (C := gset string) preserved) as Hdom.
  { intros h [v Hv]%elem_of_dom. rewrite Hm in Hv. apply elem_of_list_to_set. by case_bool_decide. }
  rewrite <- size_dom. apply eq_bool_prop_intro. rewrite Is_true_true, Nat.leb_le. unfold found_all. rewrite forallb_True, list.Forall_forall. split.
  - intros Hsz h Hh. apply bool_decide_pack. assert (list_to_set (C := gset string) preserved ⊆ dom m) as Hall.
    { destruct (decide (list_to_set (C := gset string) preserved ⊆ dom m)) as [|Hn]; [done|]. assert (dom m ⊂ list_to_set (C := gset string) preserved) as Hs%subset_size by done.
      change (size (list_to_set (C := gset string) preserved)) with 4%nat in Hs. cbn in Hsz. lia. }
    assert (h ∈ dom m) as [v Hv]%elem_of_dom by (apply Hall, elem_of_list_to_set; done). rewrite Hm, bool_decide_true in Hv by done. by eexists.
  - intros Hall. change (length preserved) with (size (list_to_set (C := gset string) preserved)). apply subseteq_size. intros h Hh%elem_of_list_to_set.
    specialize (Hall h Hh). apply bool_decide_unpack in Hall. apply elem_of_dom. by rewrite Hm, bool_decide_true.
Qed.

Lemma header_lines_last c cookie : preserveHeaders c = preserved -> forall lines p, header_lines c (no_headers cookie) lines = Some p -> last_values (lines_used lines) (headers p).
Proof.
  intros Hc. induction lines as [|l lines IH] using rev_ind; intros p Hp.
  { injection Hp as <-. intros h. cbn. rewrite lookup_empty. by case_bool_decide. }
  rewrite header_lines_app in Hp. destruct (header_lines c (no_headers cookie) lines) as [p1|]; [|done]. cbn in Hp. specialize (IH p1 eq_refl).
  destruct (header_line c p1 l) as [p2 [e|]] eqn:El; [done|]. injection Hp as <-. apply header_line_headers in El. rewrite Hc, (last_values_size _ _ IH) in El.
  rewrite lines_used_snoc. destruct (found_all (lines_used lines)); [by rewrite El|]. intros h. rewrite last_value_snoc, El. unfold line_header.
  destruct (bytes_Index l [x3a]) as [colon|]; cbn [fmap option_fmap option_map]; [|by apply IH]. set (k := TrimBytes (take colon l)).
  destruct (named k preserved) as [h'|] eqn:En.
  - apply named_some in En as [Hin ->]. destruct (decide (h' = h)) as [->|Hne].
    + by rewrite lookup_insert_eq, !bool_decide_true by done.
    + rewrite lookup_insert_ne, IH by done. case_bool_decide; [|done]. rewrite bool_decide_false; [done|]. by intros E%list_byte_inj.
  - rewrite IH. case_bool_decide as Hin; [|done]. rewrite bool_decide_false; [done|]. intros Hk.
    apply list_elem_of_In in Hin. apply (List.find_none _ _ En) in Hin. by rewrite bool_decide_true in Hin.
Qed.

(** The length is the one of the header. *)
Definition length_kept (p : parsed_headers) : Prop :=
  forall n, contentLength p = Some n -> exists v, headers p !! contentLengthHeader = Some v /\ ParseUint63 v = Some n.

(** What a line without an error changes. *)
Lemma header_line_ok c p l p' : header_line c p l = (p', None) ->
  (headers p' = headers p /\ contentLength p' = contentLength p) \/
  exists k v, line_header l = Some (k, v) /\
    headers p' = match named k (preserveHeaders c) with Some h => <[h := v]> (headers p) | None => headers p end /\
    if bool_decide (k = list_byte_of_string contentLengthHeader) then exists n, ParseUint63 v = Some n /\ contentLength p' = Some n
    else contentLength p' = contentLength p.
Proof.
  unfold header_line, line_header. destruct (_ <=? _)%nat; [intros [= <-]; by left|]. destruct (bytes_Index l [x3a]) as [colon|]; [|intros [= <-]; by left].
  set (k := TrimBytes (take colon l)). set (v := TrimBytes (drop (colon + 1) l)). intros Hl.
  assert (exists p1, (headers p1 = headers p /\ contentLength p1 = contentLength p) /\ check_cookie c p k v = (p1, None)) as (p1 & [E1 E2] & Hc).
  { unfold check_cookie in *. destruct (validateMeekCookie c) as [validate|], (ValidateMeekCookieResult p); try (by exists p). case_bool_decide; [|by exists p].
    destruct (validate v); [|done]. eexists. split; [|reflexivity]. done. }
  rewrite Hc in Hl. unfold check_length in Hl. right. exists k, v. split; [done|]. case_bool_decide.
  - destruct (ParseUint63 v) as [n|]; [|done]. destruct (named k (prohibitedHeaders c)); [done|]. injection Hl as <-. unfold preserve_header. rewrite <- E1.
    destruct (named k (preserveHeaders c)); (split; [done|by exists n]).
  - destruct (named k (prohibitedHeaders c)); [done|]. injection Hl as <-. unfold preserve_header. rewrite <- E1, <- E2. by destruct (named k (preserveHeaders c)).
Qed.

Lemma header_lines_length c : preserveHeaders c = preserved -> forall lines p p', length_kept p -> header_lines c p lines = Some p' -> length_kept p'.
Proof.
  intros Hc. induction lines as [|l lines IH]; intros p p' Hf Hl; cbn in Hl; [by injection Hl as <-|].
  destruct (header_line c p l) as [p1 [e|]] eqn:E; [done|]. apply (IH p1); [|done]. clear IH Hl.
  apply header_line_ok in E as [[E1 E2]|(k & v & _ & E1 & E2)]; unfold length_kept; rewrite E1, ?E2; [done|]. rewrite Hc. case_bool_decide as Hk.
  - subst k. intros n Hn. destruct E2 as (n' & Hv & E2). rewrite E2 in Hn. injection Hn as <-. exists v. split; [|done]. assert (named (list_byte_of_string contentLengthHeader) preserved = Some contentLengthHeader) as -> by reflexivity. by rewrite lookup_insert_eq.
  - intros n. rewrite E2. intros (w & Hw & Hn)%Hf. exists w. split; [|done]. destruct (named k preserved) as [h|] eqn:Hh; [|done].
    apply named_some in Hh as [_ ->]. rewrite lookup_insert_ne; [done|]. intros ->. done.
Qed.

(** *** What is still to be read *)

Lemma wrap_total h n : 0 <= h < 2 ^ 63 -> 0 <= n < 2 ^ 63 -> wrapU 64 (wrapS 64 (h + wrapS 64 n)) = h + n /\ wrapS 64 (wrapS 64 (h + wrapS 64 n) - h) = n.
Proof.
  intros Hh Hn. rewrite (wrapS_id 64 n) by lia. unfold wrapU, wrapS. change (64 - 1) with 63.
  pose proof (Z.mod_pos_bound (h + n + 2 ^ 63) (2 ^ 64) ltac:(lia)). pose proof (Z.div_mod (h + n + 2 ^ 63) (2 ^ 64) ltac:(lia)) as Hd.
  assert ((h + n + 2 ^ 63) / 2 ^ 64 = 0 \/ (h + n + 2 ^ 63) / 2 ^ 64 = 1) as [E|E] by (pose proof (Z.div_lt_upper_bound (h + n + 2 ^ 63) (2 ^ 64) 2 ltac:(lia) ltac:(lia)); pose proof (Z.div_pos (h + n + 2 ^ 63) (2 ^ 64) ltac:(lia) ltac:(lia)); lia);
    rewrite E in Hd; (split; [symmetry; apply Z.mod_unique_pos with (q := - ((h + n + 2 ^ 63) / 2 ^ 64)); lia|]).
  - assert ((h + n + 2 ^ 63) mod 2 ^ 64 - 2 ^ 63 - h + 2 ^ 63 = n + 2 ^ 63) as -> by lia. rewrite Z.mod_small; lia.
  - assert ((h + n + 2 ^ 63) mod 2 ^ 64 - 2 ^ 63 - h + 2 ^ 63 = n - 2 ^ 63) as -> by lia.
    rewrite <- (Z.mod_unique_pos (n - 2 ^ 63) (2 ^ 64) (-1) (n + 2 ^ 63)); lia.
Qed.

Lemma take_some_bytes (k : nat) (l : bytes) : (0 < k)%nat -> l <> [] -> take k l <> [].
Proof. destruct k; [lia|]. by destruct l. Qed.

(** The rest after a piece that is at most as long. *)
Lemma drop_taken (k : nat) (l : bytes) : drop (length (take k l)) l = drop k l.
Proof. rewrite length_take. destruct (Nat.min_dec k (length l)) as [E|E]; rewrite E; [done|]. by rewrite !drop_ge by lia. Qed.

Section Delivers.
Context {R : Type} `{!Reader R} {alloc : Allocator} (iterate : header_map -> list (string * bytes)) (c : normalizer_config).

(** Between requests or in the headers of one, of which lines have been parsed.  Until the
    first request has been read, the buffer has been searched for the end of its headers. *)
Record waiting_head (served : bool) (cookie : option bytes) (qs : list http_request) (ms : list header_map) (t : HTTPNormalizer R) : Prop := {
  wh_state : state t = httpNormalizerReadReqLineAndHeader;
  wh_pass : passthrough t = false;
  wh_config : config t = c;
  wh_reader : reader_ok (Conn t);
  wh_bytes : b t ++ stream (Conn t) = wires qs;
  wh_accepted : accepted_requests iterate c cookie qs = Some ms;
  wh_scan : exists done todo, match qs with [] => [] | q :: _ => req_lines q end = done ++ todo /\ scanning cookie done t;
  wh_off : served = false -> m_off (mem t) = 0%nat;
  wh_partial : served = false -> match qs with [] => True | q :: _ => (length (b t) < length (head_bytes (req_lines q)) + 2)%nat end
}.

(** The rest of a request, in the buffer alone or in the buffer and the stream. *)
Definition rest_of_request (qs : list http_request) (ms : list header_map) (rem : bytes) (t : HTTPNormalizer R) : Prop :=
  (readRemain t = 0 /\ exists cur next, b t = cur ++ next /\ cur <> [] /\ copyRemain t = Z.of_nat (length cur) /\ next ++ stream (Conn t) = wires qs /\
     rem = cur ++ normalized iterate c qs ms) \/
  (exists rest, rest <> [] /\ readRemain t = Z.of_nat (length rest) /\ stream (Conn t) = rest ++ wires qs /\
     (b t <> [] -> copyRemain t = Z.of_nat (length (b t)) + Z.of_nat (length rest)) /\ rem = b t ++ rest ++ normalized iterate c qs ms).

Record in_body (cookie : option bytes) (qs : list http_request) (ms : list header_map) (rem : bytes) (t : HTTPNormalizer R) : Prop := {
  ib_state : state t = httpNormalizerReadBody;
  ib_pass : passthrough t = false;
  ib_config : config t = c;
  ib_reader : reader_ok (Conn t);
  ib_fresh : scanIndex t = 0%nat /\ readRequestLine t = false /\ request t = no_headers cookie;
  ib_memory : memory_ok (mem t) (b t);
  ib_accepted : accepted_requests iterate c cookie qs = Some ms;
  ib_bound : 0 <= copyRemain t < 2 ^ 64;
  ib_rest : rest_of_request qs ms rem t
}.

Definition holds_rest (served : bool) (qs : list http_request) (ms : list header_map) (rem : bytes) (t : HTTPNormalizer R) : Prop :=
  exists cookie, (waiting_head served cookie qs ms t /\ rem = normalized iterate c qs ms) \/ (served = true /\ in_body cookie qs ms rem t).

Lemma fresh_waiting cookie qs ms (t : HTTPNormalizer R) : state t = httpNormalizerReadReqLineAndHeader -> passthrough t = false -> config t = c -> reader_ok (Conn t) ->
  b t ++ stream (Conn t) = wires qs -> accepted_requests iterate c cookie qs = Some ms ->
  scanIndex t = 0%nat -> readRequestLine t = false -> request t = no_headers cookie -> memory_ok (mem t) (b t) -> waiting_head true cookie qs ms t.
Proof.
  intros Hs Hp Hc Hr Hb Ha Hi Hl Hq Hm. split; try done. exists [], (match qs with [] => [] | q :: _ => req_lines q end). split; [done|].
  split; [done|lia|done|by cbn; rewrite Hq|done|rewrite Hq; apply slices_ok_empty].
Qed.

(** A copy returns bytes of the rest. *)
Lemma copy_ok k cookie qs ms rem (t : HTTPNormalizer R) out t' : (0 < k)%nat -> in_body cookie qs ms rem t -> b t <> [] -> norm_copy k t = (out, t') ->
  exists rem', rem = out ++ rem' /\ out <> [] /\ holds_rest true qs ms rem' t' /\ Conn t' = Conn t.
Proof.
  intros Hk [Hs Hp Hc Hr (Hi & Hl & Hq) Hmem Ha Hbd Hrest] Hb Hcopy. unfold norm_copy in Hcopy.
  destruct Hrest as [(Hrr & cur & next & Eb & Hcur & Hcr & Hnext & ->)|(rest & Hrest & Hrr & Est & Hcr & ->)].
  - rewrite Hcr, Eb, length_app, (proj2 (Z.ltb_ge _ _)) in Hcopy by lia. rewrite Nat2Z.id, take_app_length in Hcopy. cbn [copyRemain readRemain set_b set_remain] in Hcopy.
    rewrite Hrr, Hcr in Hcopy. rewrite wrapU_small in Hcopy by (rewrite length_take; lia).
    assert (drop (length (take k cur)) (cur ++ next) = drop k cur ++ next) as Ed by (rewrite drop_app_le, drop_taken by (rewrite length_take; lia); done).
    rewrite Ed in Hcopy. exists (drop k cur ++ normalized iterate c qs ms). rewrite length_take in Hcopy. injection Hcopy as <- <-.
    split_and!; [by rewrite app_assoc, take_drop|by apply take_some_bytes|exists cookie|by destruct (_ && _)].
    assert (memory_ok (buffer_Next (mem t) (length (take k cur))) (drop k cur ++ next)) as Hmem'
      by (rewrite <- Ed, <- Eb; apply buffer_Next_ok; [done|rewrite Eb, length_app, length_take; lia]). rewrite length_take in Hmem'.
    destruct (Z.eqb_spec (Z.of_nat (length cur) - Z.of_nat (k `min` length cur)) 0) as [E|E]; cbn [andb Z.eqb].
    + left. rewrite (drop_ge cur) by lia. split; [|done]. apply fresh_waiting; try done. apply buffer_Write_reset.
    + right. split; [done|]. split; try done; [cbn; lia|]. left. cbn. split; [done|]. exists (drop k cur), next. rewrite length_drop. split_and!; try done; [|lia].
      intros Hnil%(f_equal length). rewrite length_drop in Hnil. cbn in Hnil. lia.
  - specialize (Hcr Hb). assert (0 < length rest)%nat by (destruct rest; [done|cbn; lia]). rewrite (proj2 (Z.ltb_lt _ _)) in Hcopy by lia.
    rewrite Nat2Z.id, firstn_all in Hcopy. cbn [copyRemain readRemain set_b set_remain] in Hcopy. rewrite Hcr, Hrr in Hcopy. rewrite wrapU_small in Hcopy by (rewrite length_take; lia).
    rewrite (proj2 (Z.eqb_neq (Z.of_nat (length rest)) 0)), andb_false_r in Hcopy by lia.
    rewrite drop_taken in Hcopy. injection Hcopy as <- <-. exists (drop k (b t) ++ rest ++ normalized iterate c qs ms). split_and!; [by rewrite (app_assoc (take k (b t))), take_drop|by apply take_some_bytes|exists cookie|done].
    right. split; [done|]. split; try done; [cbn; rewrite <- drop_taken; apply buffer_Next_ok; [done|rewrite length_take; lia]|cbn; rewrite length_take; lia|]. right. exists rest. cbn. split_and!; try done. intros _. rewrite length_take, length_drop. lia.
Qed.

Lemma Write_slices m unread x sl : buffer_Write (set_slices m sl) unread x = set_slices (buffer_Write m unread x) sl.
Proof.
  unfold buffer_Write. cbv zeta. cbn [set_slices m_array m_off]. destruct (_ <=? _)%nat; [done|]. destruct (length unread =? 0)%nat; destruct (_ <=? _)%nat; try done;
    destruct (_ && _); try done; by destruct (_ <=? _)%nat.
Qed.

Lemma copy_next k (t : HTTPNormalizer R) : norm_copy k (next_request t) = ((norm_copy k t).1, next_request (norm_copy k t).2).
Proof.
  unfold norm_copy. cbn [fst snd]. cbn. destruct (_ && _); [|done]. unfold next_request. cbn.
  change (buffer_Reset (buffer_Next (set_slices (mem t) ∅) ?n)) with (set_slices (buffer_Reset (buffer_Next (mem t) n)) ∅). by rewrite Write_slices.
Qed.

Hypothesis Hpreserve : preserveHeaders c = preserved.

Lemma accepted_ok cookie q p : accepted_request iterate c cookie q = Some p ->
  lines_ok c (req_lines q) = true /\ header_lines c (no_headers cookie) (req_lines q) = Some p /\ contentLength p = Some (Z.of_nat (length (req_body q))) /\
  bool_decide (is_Some (validateMeekCookie c)) && bool_decide (headers p !! cookieHeader = None) = false /\
  Z.of_nat (length (normalized_head iterate c (headers p))) < 2 ^ 63 /\ Z.of_nat (length (req_body q)) < 2 ^ 63.
Proof.
  unfold accepted_request. destruct (lines_ok c (req_lines q)); [|done]. destruct (header_lines c (no_headers cookie) (req_lines q)) as [p'|] eqn:Hp; [|done]. cbn.
  destruct (_ && _) eqn:E; [|done]. intros [= <-]. apply andb_prop in E as [[Hl%bool_decide_eq_true Hk]%andb_prop Hn%Z.ltb_lt]. split_and!; try done.
  - destruct (validateMeekCookie c); [|done]. cbn in Hk. by destruct (bool_decide (headers p' !! cookieHeader = None)).
  - eapply header_lines_length in Hp; [|done|done]. destruct (Hp _ Hl) as (v & _ & Hv). unfold ParseUint63 in Hv. destruct (ParseUint _); try done.
    destruct (Z.ltb_spec n (2 ^ 63)); [|done]. by injection Hv as <-.
Qed.

Lemma wire_length q : (length (head_bytes (req_lines q)) + 2 <= length (wire q))%nat.
Proof. unfold wire. rewrite !length_app. cbn. lia. Qed.

Lemma reached_ok k cookie q qs ms p (t : HTTPNormalizer R) out err t' : (0 < k)%nat -> passthrough t = false -> config t = c -> reader_ok (Conn t) ->
  b t ++ stream (Conn t) = wire q ++ wires qs -> accepted_request iterate c cookie q = Some p -> accepted_requests iterate c (ValidateMeekCookieResult p) qs = Some ms ->
  scanning cookie (req_lines q) t -> (length (head_bytes (req_lines q)) + 2 <= length (b t))%nat -> reached_body iterate k t = (out, err, t') ->
  err = None /\ exists rem', normalized_request iterate c q (headers p) ++ normalized iterate c qs ms = out ++ rem' /\ holds_rest true qs ms rem' t' /\ Conn t' = Conn t.
Proof.
  intros Hk Hp Hc Hr Hb (_ & Hpar & Hcl & Hck & Hnh & Hnb)%accepted_ok Hms [Hi Hib Hl Hpar' Hmem Hsl] Hlen Hrb. rewrite Hc, Hpar in Hpar'. injection Hpar' as Hreq.
  unfold reached_body in Hrb. rewrite (read_back_ok _ _ _ Hsl) in Hrb. rewrite <- Hreq, Hcl, Hc, Hck in Hrb. cbv zeta in Hrb. cbn [set_head set_b set_state reqLineAndHeadersBuf config b] in Hrb.
  set (header := normalized_head iterate c (headers p)) in *. set (reqBody := drop (scanIndex t + length CRLF) (b t)) in *.
  assert (reqBody ++ stream (Conn t) = req_body q ++ wires qs) as Eb.
  { unfold wire in Hb. apply (f_equal (drop (scanIndex t + length CRLF))) in Hb. rewrite drop_app_le in Hb by (rewrite Hi; cbn; lia).
    fold reqBody in Hb. rewrite Hb, Hi, <- !app_assoc, <- drop_drop, drop_app_length, drop_app_length. done. }
  destruct (wrap_total (Z.of_nat (length header)) (Z.of_nat (length (req_body q))) ltac:(lia) ltac:(lia)) as [Et Ec]. rewrite Ec, Et in Hrb.
  rewrite length_app in Hrb. replace (Z.of_nat (length header + length reqBody) - Z.of_nat (length header)) with (Z.of_nat (length reqBody)) in Hrb by lia.
  lazymatch type of Hrb with (let '(_, _) := norm_copy k ?x in _) = _ => set (t1 := x) in Hrb end.
  pose proof (copy_next k t1) as Hnext. destruct (norm_copy k t1) as [out1 t2]. cbn [fst snd] in Hnext. unfold finish in Hrb. cbn [fst snd] in Hrb. injection Hrb as <- <- <-. split; [done|].
  assert (header <> []) as Hne by done. assert (normalized_head iterate c (headers p) = header) as Eh by done. clearbody header reqBody.
  eapply (copy_ok k (ValidateMeekCookieResult p) qs ms (normalized_request iterate c q (headers p) ++ normalized iterate c qs ms)) in Hnext as (rem' & E & _ & Hh & Ec');
    [by exists rem'|done| |by destruct header].
  split; try done; [by cbn; rewrite <- Hreq|apply buffer_Write_ok, buffer_Write_reset|cbn; lia|]. unfold rest_of_request, normalized_request. rewrite Eh. cbn.
  destruct (Z.ltb_spec (Z.of_nat (length (req_body q))) (Z.of_nat (length reqBody))) as [Hlt|Hge].
  - left. split; [done|]. exists (header ++ req_body q), (drop (length (req_body q)) reqBody). rewrite length_app. split_and!; [|by destruct header|lia| |done].
    + rewrite <- app_assoc. f_equal. apply (f_equal (take (length (req_body q)))) in Eb. rewrite take_app_le, take_app_length in Eb by lia. rewrite <- Eb at 1. by rewrite take_drop.
    + apply (f_equal (drop (length (req_body q)))) in Eb. rewrite drop_app_le, drop_app_length in Eb by lia. done.
  - rewrite wrapU_small by lia. assert (req_body q = reqBody ++ drop (length reqBody) (req_body q)) as Eq.
    { apply (f_equal (take (length reqBody))) in Eb. rewrite take_app_length, take_app_le in Eb by lia. rewrite Eb at 1. by rewrite take_drop. }
    destruct (decide (drop (length reqBody) (req_body q) = [])) as [En|En].
    + rewrite En, app_nil_r in Eq. assert (length (req_body q) = length reqBody) by (by rewrite Eq). left. split; [lia|]. exists (header ++ reqBody), []. rewrite app_nil_r, length_app, Eq. split_and!; [done|by destruct header|lia| |done].
      rewrite Eq in Eb. by apply app_inv_head in Eb.
    + right. exists (drop (length reqBody) (req_body q)). assert (length (req_body q) = length reqBody + length (drop (length reqBody) (req_body q)))%nat by (rewrite Eq at 1; by rewrite length_app).
      split_and!; [done|lia| |intros _; rewrite length_app; lia|by rewrite <- !app_assoc, (app_assoc reqBody), <- Eq].
      rewrite Eq, <- app_assoc in Eb. by apply app_inv_head in Eb.
Qed.

Lemma lines_ok_todo lines : lines_ok c lines = true -> todo_ok [] lines /\
  (maxReqLineAndHeadersSize c <= 0 \/ Z.of_nat (length (head_bytes lines) + 2) <= maxReqLineAndHeadersSize c).
Proof.
  intros [[Hl Hn]%andb_prop Hm]%andb_prop. apply orb_prop in Hm. rewrite Z.leb_le, Z.leb_le in Hm. split; [|done]. destruct lines as [|l ls]; [done|].
  apply Is_true_true_2, forallb_True in Hl. apply Is_true_true_2, forallb_True in Hn. unfold todo_ok. rewrite bool_decide_true by done. split_and!; [|cbn|done].
  - eapply list.Forall_impl; [exact Hl|]. intros x Hx. by apply Is_true_eq_true.
  - eapply list.Forall_impl; [exact Hn|]. intros x Hx. cbn in Hx. by case_bool_decide.
Qed.

Lemma todo_split done todo : todo_ok [] (done ++ todo) -> todo_ok done todo.
Proof.
  revert todo. induction done as [|l done IH] using rev_ind; intros todo; [done|]. rewrite <- app_assoc. cbn [app]. intros H. apply IH in H. by apply todo_next.
Qed.

(** The headers of the first request end before the maximum. *)
Lemma size_accepted lines buf rest more : lines_ok c lines = true -> buf ++ more = head_bytes lines ++ CRLF ++ rest ->
  let max := maxReqLineAndHeadersSize c in
  (0 <? max) && (max <? Z.of_nat (length buf)) && bool_decide (bytes_Index (take (Z.to_nat max) buf) doublecrlf = None) = false.
Proof.
  cbv zeta. set (max := maxReqLineAndHeadersSize c). intros [(_ & _ & Hne) Hm]%lines_ok_todo E. destruct (Z.ltb_spec 0 max); [|done]. destruct (Z.ltb_spec max (Z.of_nat (length buf))); [|done].
  cbn [andb]. apply bool_decide_false. intros Hi. destruct Hm as [Hm|Hm]; [lia|]. fold max in Hm.
  assert (exists x, head_bytes lines = x ++ CRLF) as [x Ex].
  { destruct lines as [|l ls _] using rev_ind; [by destruct (Hne eq_refl)|]. exists (head_bytes ls ++ l). rewrite head_bytes_app. unfold head_bytes at 2. cbn. by rewrite app_nil_r, app_assoc. }
  rewrite Ex in Hm, E. rewrite length_app in Hm. cbn in Hm. apply (Index_none _ _ (length x)) in Hi. apply Hi. unfold occurs_at.
  assert (take (Z.to_nat max) buf = take (Z.to_nat max) (buf ++ more)) as -> by (by rewrite take_app_le by lia).
  rewrite E, <- !app_assoc, skipn_firstn_comm, drop_app_length, take_take, Nat.min_l by (cbn; lia). reflexivity.
Qed.

Lemma wires_nil qs : wires qs = [] -> qs = [].
Proof. destruct qs as [|q qs]; [done|]. intros E%(f_equal length). unfold wires in E. cbn in E. rewrite length_app in E. pose proof (wire_length q). lia. Qed.

(** An error of the connection comes without bytes. *)
Definition lazy_errors : Prop := forall k (r : R) d e r', Read k r = (d, Some e, r') -> d = [].

(** What a [Read] leaves: the rest of the requests, or, with an error, those that are still in
    the buffer. *)
Definition after_Read (served : bool) (qs : list http_request) (ms : list header_map) (rem : bytes) (size0 : nat) (out : bytes) (err : option string)
    (t : HTTPNormalizer R) : Prop :=
  match err with
  | None => exists served' n rem', rem = out ++ rem' /\ holds_rest served' (drop n qs) (drop n ms) rem' t /\ (budget (Conn t) + length rem' < size0)%nat /\
              (served' = true -> served = true \/ (0 < n)%nat)
  | Some e => passthrough t = false /\ stream (Conn t) = [] /\ exists n, rem = out ++ normalized iterate c (drop n qs) (drop n ms) /\ b t = wires (drop n qs) /\
                (lazy_errors -> served = false -> drop n qs = [])
  end.

Lemma body_Read_ok k cookie qs ms rem t : (0 < k)%nat -> in_body cookie qs ms rem t ->
  exists out err t', norm_Read iterate k t = (Ok (out, err), t') /\ after_Read true qs ms rem (budget (Conn t) + length rem) out err t'.
Proof.
  intros Hk Hib. pose proof Hib as [Hs Hp Hc Hr (Hi & Hl & Hq) Hmem Ha Hbd Hrest]. unfold norm_Read. rewrite Hp, Hs. destruct (Nat.eqb_spec (length (b t)) 0) as [E|E].
  - apply nil_length_inv in E. destruct Hrest as [(_ & cur & next & Eb & Hcur & _)|(rest & Hrest & Hrr & Est & _ & ->)]; [rewrite E in Eb; by destruct cur|].
    assert (0 < length rest)%nat by (destruct rest; [done|cbn; lia]). rewrite Hrr, E. cbn [app].
    set (k' := Z.to_nat (if Z.of_nat (length rest) <? Z.of_nat k then Z.of_nat (length rest) else Z.of_nat k)).
    assert (0 < k' <= length rest)%nat as Hk' by (unfold k'; destruct (Z.ltb_spec (Z.of_nat (length rest)) (Z.of_nat k)); lia).
    destruct (Read k' (Conn t)) as [[data err] conn] eqn:Hrd. destruct (Read_law k' _ _ _ _ ltac:(lia) Hr Hrd) as (Hr' & Hlen & Hst & Hm & He). rewrite Est in Hst.
    assert (take (length data) rest = data) as Ed.
    { apply (f_equal (take (length data))) in Hst. rewrite take_app_le, take_app_length in Hst by lia. done. }
    assert (stream conn = drop (length data) rest ++ wires qs) as Est'.
    { apply (f_equal (drop (length data))) in Hst. rewrite drop_app_le, drop_app_length in Hst by lia. done. }
    cbn [readRemain set_Conn]. rewrite Hrr. eexists data, err, _. split; [reflexivity|]. destruct err as [e|]; cbn [after_Read].
    + rewrite (He ltac:(done)) in Est'. symmetry in Est'. apply app_nil in Est' as [En Ew]. assert (drop (length data) rest = []) as En' by done.
      apply (f_equal length) in En. rewrite length_drop in En. cbn in En. assert (length data = length rest) as El by lia. rewrite El in Ed. rewrite firstn_all in Ed. subst data.
      apply wires_nil in Ew. subst qs. rewrite (proj2 (Z.leb_le _ _)) by lia. split_and!; [done|by apply He|]. exists 0%nat. cbn. rewrite app_nil_r. split_and!; [done|done|done].
    + specialize (Hm eq_refl). exists true, 0%nat, (drop (length data) rest ++ normalized iterate c qs ms). rewrite !drop_0. split_and!.
      * rewrite app_assoc. f_equal. rewrite <- (take_drop (length data) rest) at 1. by rewrite Ed.
      * exists cookie. destruct (Z.leb_spec (Z.of_nat (length rest)) (Z.of_nat (length data))) as [Hge|Hlt].
        -- left. rewrite (drop_ge rest) by lia. split; [|done]. apply fresh_waiting; try done. cbn. rewrite E, Est', drop_ge by lia. done.
        -- right. split; [done|]. split; try done. right. exists (drop (length data) rest). rewrite length_drop. cbn. rewrite E. split_and!; try done; [|lia].
           intros En%(f_equal length). rewrite length_drop in En. cbn in En. lia.
      * assert (length (drop (length data) rest) <= length rest)%nat by (rewrite length_drop; lia). rewrite !length_app. destruct (_ <=? _); cbn [Conn set_Conn set_state set_remain]; lia.
      * by left.
  - destruct (norm_copy k t) as [out t'] eqn:Hcp. destruct (copy_ok _ _ _ _ _ _ _ _ Hk Hib ltac:(intros Hn; by rewrite Hn in E) Hcp) as (rem' & -> & Hne & Hh & Ec).
    exists out, None, t'. split; [done|]. exists true, 0%nat, rem'. rewrite !drop_0. split_and!; [done|done| |by left]. rewrite Ec, length_app. destruct out; [done|cbn; lia].
Qed.

Lemma scan_nothing (t : HTTPNormalizer R) : scanIndex t = 0%nat -> b t = [] -> scan_lines (S (length (b t))) t = Ok (t, NoMoreLines).
Proof. intros Hi Hb. rewrite Hb. cbn [length scan_lines]. by rewrite Hb, Hi. Qed.

Lemma head_Read_ok served k cookie qs ms t : (0 < k)%nat -> waiting_head served cookie qs ms t -> moves_headers k t = false ->
  exists out err t', norm_Read iterate k t = (Ok (out, err), t') /\
    after_Read served qs ms (normalized iterate c qs ms) (budget (Conn t) + length (normalized iterate c qs ms)) out err t'.
Proof.
  intros Hk [Hs Hp Hc Hr Hb Ha (done & todo & Hd & Hsc) Hoff Hpart] Hmv. unfold moves_headers in Hmv. unfold norm_Read. rewrite Hp, Hs in Hmv |- *. cbn [negb andb] in Hmv.
  destruct (Read k (Conn t)) as [[data err] conn] eqn:Hrd. destruct (Read_law k _ _ _ _ Hk Hr Hrd) as (Hr' & _ & Hst & Hm & He). rewrite Hst, app_assoc in Hb. cbn [fst] in Hmv.
  cbv zeta. cbn [config set_Conn set_b b mem]. rewrite Hc. set (t1 := set_b (set_Conn t conn) (b t ++ data) _).
  assert (scanning cookie done t1) as Hsc1.
  { destruct Hsc as [Hi Hle Hl Hpar Hmem Hsl]. split; try done; cbn; [rewrite length_app; lia|by apply buffer_Write_ok|].
    destruct (decide (headers (request t) = ∅)) as [E|E]; [rewrite E; apply slices_ok_empty|]. rewrite bool_decide_true, bool_decide_false in Hmv by done. by apply buffer_Write_slices. }
  assert (served = false -> m_off (mem t1) = 0%nat) as Hoff1 by (intros ?; by apply buffer_Write_off, Hoff).
  destruct qs as [|q qs].
  - apply app_nil in Hb as [Hb Hst']. rewrite Hb. cbn [length].
    assert ((0 <? maxReqLineAndHeadersSize c) && (maxReqLineAndHeadersSize c <? Z.of_nat 0) = false) as ->
      by (destruct (Z.ltb_spec 0 (maxReqLineAndHeadersSize c)), (Z.ltb_spec (maxReqLineAndHeadersSize c) (Z.of_nat 0)); [lia|done..]). cbn [andb]. symmetry in Hd. apply app_nil in Hd as [-> _].
    destruct err as [e|].
    + exists [], (Some e), t1. split; [done|]. cbn. split_and!; [done|done|]. exists 0%nat. rewrite !drop_0. split_and!; [done|done|done].
    + pose proof (scan_nothing t1 (sc_index _ _ _ Hsc1) Hb) as Hscan. cbn [b t1 set_b] in Hscan. rewrite Hb in Hscan. cbn [length] in Hscan. rewrite Hscan.
      exists [], None, t1. split; [done|]. exists served, 0%nat, (normalized iterate c [] ms). rewrite !drop_0. split_and!; [done| |specialize (Hm eq_refl); change (Conn t1) with conn; lia|by left].
      exists cookie. left. split; [|done]. split; try done; [cbn; by rewrite Hb, Hst'|]. by exists [], [].
  - cbn [accepted_requests] in Ha. destruct (accepted_request iterate c cookie q) as [p|] eqn:Hap; [|done]. cbn in Ha.
    destruct (accepted_requests iterate c (ValidateMeekCookieResult p) qs) as [ms'|] eqn:Hams; [|done]. injection Ha as <-.
    pose proof Hap as (Hlo & Hpar & _)%accepted_ok. unfold wires in Hb. cbn [map concat] in Hb. fold (wires qs) in Hb.
    assert ((b t ++ data) ++ stream conn = head_bytes (req_lines q) ++ CRLF ++ (req_body q ++ wires qs)) as Hw by (rewrite Hb; unfold wire; by rewrite <- !app_assoc).
    rewrite (size_accepted _ _ _ _ Hlo Hw). destruct err as [e|].
    + exists [], (Some e), t1. split; [done|]. split_and!; [done|by apply He|]. exists 0%nat. rewrite !drop_0. rewrite (He ltac:(done)), app_nil_r in Hb. split_and!; [done|done|].
      intros Hlazy Hserved. exfalso. apply Hlazy in Hrd. subst data. rewrite app_nil_r in Hb. specialize (Hpart Hserved). cbn in Hpart. apply (f_equal length) in Hb. rewrite length_app in Hb. pose proof (wire_length q). lia.
    + rewrite Hd in Hw, Hpar. pose proof (lines_ok_todo _ Hlo) as [Htodo _]. rewrite Hd in Htodo. apply todo_split in Htodo.
      rewrite <- Hc in Hpar. destruct (scan_lines_ok (S (length (b t ++ data))) cookie t1 done todo _ _ p Hsc1 Htodo Hw Hpar) as (done' & todo' & t' & r & Hscan & Hd' & Hframe & Hsc' & Hoff' & Hres); [cbn; lia|].
      rewrite Hscan. rewrite <- Hd in Hd', Hres. destruct r as [| |e l]; [| |done].
      * exists [], None, t'. split; [done|]. exists served, 0%nat, (normalized iterate c (q :: qs) (headers p :: ms')). rewrite !drop_0.
        split_and!; [done| |rewrite Hframe; specialize (Hm eq_refl); change (budget conn + length (normalized iterate c (q :: qs) (headers p :: ms')) < budget (Conn t) + length (normalized iterate c (q :: qs) (headers p :: ms')))%nat; lia|by left]. exists cookie. left. split; [|done].
        rewrite Hframe. split; try done; [by cbn [accepted_requests]; rewrite Hap; cbn; rewrite Hams| |cbn; by rewrite Hoff'].
        exists done', todo'. split; [done|]. by rewrite Hframe in Hsc'.
      * destruct Hres as [-> Hlen]. rewrite app_nil_r in Hd'. subst done'. destruct (reached_body iterate k t') as [[out err] t2] eqn:Hrb.
        eapply (reached_ok k cookie q qs ms' p) in Hrb as (-> & rem' & E & Hh & Ec); try done; [|by rewrite Hframe..].
        exists out, None, t2. split; [done|]. exists true, 1%nat, rem'. cbn [drop]. unfold normalized. cbn [zip_with concat]. fold (normalized iterate c qs ms').
        split_and!; [done|done| |right; lia]. rewrite Ec, E, length_app, Hframe. specialize (Hm eq_refl). cbn [Conn set_scan]. change (Conn t1) with conn. lia.
Qed.

Lemma norm_Read_ok served k qs ms rem t : (0 < k)%nat -> holds_rest served qs ms rem t -> moves_headers k t = false ->
  exists out err t', norm_Read iterate k t = (Ok (out, err), t') /\ after_Read served qs ms rem (budget (Conn t) + length rem) out err t'.
Proof.
  intros Hk (cookie & [[Hw ->]|[-> Hib]]) Hmv; [by apply (head_Read_ok served k cookie)|by apply (body_Read_ok k cookie)].
Qed.

(** The reads of any buffers return the requests from the first, until an error of the
    connection, which the number of reads bounds. *)
Lemma read_each_ok ks : Forall (fun k => (0 < k)%nat) ks -> forall served qs ms rem t, holds_rest served qs ms rem t -> steady iterate ks t = true ->
  exists outs err t', read_each iterate ks t = (Ok (outs, err), t') /\
    match err with
    | None => exists served' n rem', rem = outs ++ rem' /\ holds_rest served' (drop n qs) (drop n ms) rem' t' /\ (length ks + length rem' <= budget (Conn t) + length rem)%nat
    | Some e => passthrough t' = false /\ stream (Conn t') = [] /\
        exists n, rem = outs ++ normalized iterate c (drop n qs) (drop n ms) /\ b t' = wires (drop n qs) /\ (lazy_errors -> served = false -> drop n qs = [] \/ (0 < n)%nat)
    end.
Proof.
  induction 1 as [|k ks Hk _ IH]; intros served qs ms rem t Hh Hsteady.
  { exists [], None, t. split; [done|]. exists served, 0%nat, rem. rewrite !drop_0. split_and!; [done|done|cbn; lia]. }
  cbn [read_each]. cbn [steady] in Hsteady. apply andb_prop in Hsteady as [Hmv%negb_true_iff Hsteady].
  destruct (norm_Read_ok _ _ _ _ _ _ Hk Hh Hmv) as (out & err & t1 & Hrd & Haft). rewrite Hrd in Hsteady. erewrite io_bind_run by exact Hrd. cbv beta iota. destruct err as [e|].
  - destruct Haft as (Hp & Hst & n & -> & Hb & Hn). exists out, (Some e), t1. split; [done|]. split_and!; [done|done|]. exists n. split_and!; [done|done|]. left. by apply Hn.
  - destruct Haft as (served' & n & rem' & -> & Hh' & Hsz & Hsv). destruct (IH _ _ _ _ _ Hh' Hsteady) as (outs & err & t2 & Hrun & Hres). erewrite io_bind_run by exact Hrun. cbv beta iota.
    exists (out ++ outs), err, t2. split; [done|]. destruct err as [e|].
    + destruct Hres as (Hp & Hst & n' & -> & Hb & Hn). split_and!; [done|done|]. exists (n + n')%nat. rewrite <- !drop_drop, <- app_assoc. split_and!; [done|done|].
      intros Hlazy Hs. destruct served'; [destruct (Hsv eq_refl) as [?|?]; [congruence|right; lia]|]. destruct (Hn Hlazy eq_refl) as [?|?]; [by left|right; lia].
    + destruct Hres as (served2 & n' & rem2 & -> & Hh2 & Hsz2). exists served2, (n + n')%nat, rem2. rewrite <- !drop_drop, <- app_assoc. rewrite !length_app in *. cbn [length]. split_and!; [done|done|lia].
Qed.
End Delivers.

(** ** What is read *)

(** The request in its normal form: its request line is the fixed one; its headers are, in
    some order, those of the headers that are preserved that the lines used have, each with
    the value of the last such line, and a host if there is none; the length that they give is
    that of the body. *)
Definition normal_form (q : http_request) (out : bytes) : Prop :=
  exists hs, NoDup hs.*1 /\
    (forall h v, (h, v) ∈ hs <-> h ∈ preserved /\ last_value h (lines_used (req_lines q)) = Some v) /\
    (exists v, (contentLengthHeader, v) ∈ hs /\ ParseUint63 v = Some (Z.of_nat (length (req_body q)))) /\
    out = list_byte_of_string httpNormalizerRequestLine ++ (if bool_decide (hostHeader ∈ hs.*1) then [] else CRLF ++ list_byte_of_string "Host: example.com") ++
          write_headers hs ++ doublecrlf ++ req_body q.

Section Theorems.
Context {R : Type} `{!Reader R} {alloc : Allocator} (iterate : header_map -> list (string * bytes)).
(** A map is iterated over in some order. *)
Hypothesis iterate_all : forall m, iterate m ≡ₚ map_to_list m.

Lemma iterate_elem m h v : (h, v) ∈ iterate m <-> m !! h = Some v.
Proof. by rewrite iterate_all, elem_of_map_to_list. Qed.

Lemma accepted_normal c : preserveHeaders c = preserved -> headerWriteOrder c = None -> forall qs cookie ms, accepted_requests iterate c cookie qs = Some ms ->
  Forall2 normal_form qs (zip_with (normalized_request iterate c) qs ms).
Proof.
  intros Hc Ho. induction qs as [|q qs IH]; intros cookie ms Ha; [constructor|]. cbn [accepted_requests] in Ha.
  destruct (accepted_request iterate c cookie q) as [p|] eqn:Hp; [|done]. cbn in Ha. destruct (accepted_requests _ _ _ qs) as [ms'|] eqn:Hms; [|done]. injection Ha as <-.
  cbn [zip_with]. constructor; [|by eapply IH]. apply (accepted_ok _ _ Hc) in Hp as (_ & Hpar & Hcl & _).
  pose proof (header_lines_last c cookie Hc _ _ Hpar) as Hlast. eapply (header_lines_length c Hc) in Hpar; [|done]. destruct (Hpar _ Hcl) as (v & Hv & Hn).
  exists (iterate (headers p)). split_and!.
  - rewrite iterate_all. apply NoDup_fst_map_to_list.
  - intros h w. rewrite iterate_elem, Hlast. case_bool_decide; naive_solver.
  - exists v. by rewrite iterate_elem.
  - unfold normalized_request, normalized_head, ordered_headers. rewrite Ho, <- !app_assoc. do 2 f_equal.
    assert (hostHeader ∈ (iterate (headers p)).*1 <-> headers p !! hostHeader <> None) as Hhost.
    { rewrite list_elem_of_fmap. split.
      - intros ([h w] & -> & Hin). apply iterate_elem in Hin. cbn. congruence.
      - intros Hh. destruct (headers p !! hostHeader) as [w|] eqn:E; [|done]. exists (hostHeader, w). split; [done|]. by apply iterate_elem. }
    repeat case_bool_decide; tauto.
Qed.

Lemma accepted_length c qs : forall cookie ms, accepted_requests iterate c cookie qs = Some ms -> length ms = length qs.
Proof.
  induction qs as [|q qs IH]; intros cookie ms Ha; cbn in Ha; [by injection Ha as <-|]. destruct (accepted_request _ _ _ q) as [p|]; [|done]. cbn in Ha.
  destruct (accepted_requests _ _ _ qs) as [ms'|] eqn:E; [|done]. injection Ha as <-. cbn. f_equal. by eapply IH.
Qed.

Lemma normalized_split c qs ms n : length ms = length qs ->
  normalized iterate c qs ms = concat (take n (zip_with (normalized_request iterate c) qs ms)) ++ normalized iterate c (drop n qs) (drop n ms).
Proof.
  intros Hl. unfold normalized. rewrite <- (take_drop n (zip_with _ qs ms)) at 1. rewrite concat_app. f_equal. f_equal.
  revert qs ms Hl. induction n as [|n IH]; intros [|q qs] [|m ms] Hl; cbn in *; try done. apply IH. lia.
Qed.

Lemma Accept_ok l (conn : R) ip t : listener_Accept l (Ok conn) ip = Ok t ->
  exists c, t = set_config (NewHTTPNormalizer conn) c /\ preserveHeaders c = preserved /\ headerWriteOrder c = HeaderWriteOrder l.
Proof.
  unfold listener_Accept. cbn [mbind res_mbind]. destruct (ValidateMeekCookie l); [intros (i & _ & [= <-])%res_bind_ok|intros [= <-]]; by eexists.
Qed.

(** No headers are moved while the first request is read. *)
Lemma steady_single c : preserveHeaders c = preserved -> forall ks, Forall (fun k => (0 < k)%nat) ks -> forall served qs ms rem (t : HTTPNormalizer R),
  holds_rest iterate c served qs ms rem t -> (served = true -> qs = []) -> (length qs <= 1)%nat -> steady iterate ks t = true.
Proof.
  intros Hc. induction 1 as [|k ks Hk _ IH]; intros served qs ms rem t Hh Hserved Hlen; [done|].
  assert (moves_headers k t = false) as Hmv.
  { unfold moves_headers. destruct Hh as (cookie & [[[Hs Hp _ _ _ _ (done & todo & Hd & Hsc) Hoff _] _]|[_ [Hs _ _ _ _ _ _ _]]]).
    - destruct served.
      + rewrite Hserved in Hd by done. symmetry in Hd. apply app_nil in Hd as [-> _]. pose proof (sc_parsed _ _ _ Hsc) as E. injection E as E. rewrite <- E. cbn.
        by rewrite andb_false_r.
      + rewrite moves_off by auto. apply andb_false_r.
    - rewrite Hs. cbn. by rewrite andb_false_r. }
  cbn [steady]. rewrite Hmv. destruct (norm_Read_ok iterate c Hc served k qs ms rem t Hk Hh Hmv) as (out & err & t' & -> & Haft). destruct err as [e|]; [done|].
  destruct Haft as (served' & n & rem' & _ & Hh' & _ & Hsv). apply (IH _ _ _ _ _ Hh'); [|rewrite length_drop; lia].
  intros Hs'. destruct (Hsv Hs') as [->|Hn]; [by rewrite Hserved, drop_nil|]. by rewrite drop_ge by lia.
Qed.

(** The reads into buffers return the normal forms of requests in order and no passthrough is
    started; an error comes after a bounded number of reads, when the connection has ended, and
    the requests that have not been returned then are in the buffer, never the first of them.
    A single request is returned completely by enough reads. *)
Definition reads_requests (qs : list http_request) (ks : list nat) (t : HTTPNormalizer R) : Prop :=
  exists expected outs err t', Forall2 normal_form qs expected /\ read_each iterate ks t = (Ok (outs, err), t') /\
    outs `prefix_of` concat expected /\ passthrough t' = false /\
    match err with
    | None => (length ks <= budget (Conn t) + length (concat expected))%nat
    | Some e => stream (Conn t') = [] /\ exists n, outs = concat (take n expected) /\ b t' = wires (drop n qs) /\ (lazy_errors (R := R) -> qs <> [] -> (0 < n)%nat)
    end /\
    (length qs = 1%nat -> lazy_errors (R := R) -> (budget (Conn t) + length (concat expected) < length ks)%nat -> outs = concat expected).

(** However the bytes of requests arrive and whatever buffers they are read into, as long as no
    headers of a later request are moved. *)
Theorem normalizer_delivers l (conn : R) ip t qs ms ks :
  listener_Accept l (Ok conn) ip = Ok t -> HeaderWriteOrder l = None -> reader_ok conn -> stream conn = wires qs ->
  accepted_requests iterate (config t) None qs = Some ms -> Forall (fun k => (0 < k)%nat) ks ->
  (length qs <= 1)%nat \/ steady iterate ks t = true -> reads_requests qs ks t.
Proof.
  intros (c & -> & Hc & Ho)%Accept_ok Hl Hr Hst Ha Hks Hsteady. rewrite Hl in Ho. cbn [config set_config] in *. pose proof (accepted_length _ _ _ _ Ha) as Hlen.
  exists (zip_with (normalized_request iterate c) qs ms).
  assert (holds_rest iterate c false qs ms (normalized iterate c qs ms) (set_config (NewHTTPNormalizer conn) c)) as Hh.
  { exists None. left. split; [|done]. split; try done; [|by destruct qs; cbn; intros _; lia]. exists [], (match qs with [] => [] | q :: _ => req_lines q end).
    split; [done|]. by split. }
  assert (steady iterate ks (set_config (NewHTTPNormalizer conn) c) = true) as Hst' by (destruct Hsteady; [by eapply (steady_single c)|done]).
  destruct (read_each_ok iterate c Hc ks Hks _ _ _ _ _ Hh Hst') as (outs & err & t' & Hrun & Hres). exists outs, err, t'. split; [by eapply accepted_normal|]. split; [done|].
  change (Conn (set_config (NewHTTPNormalizer conn) c)) with conn. destruct err as [e|].
  - destruct Hres as (Hp & Hst2 & n & E & Hb & Hn). assert (lazy_errors -> qs <> [] -> (0 < n)%nat) as Hn'.
    { intros Hlazy Hq. destruct (Hn Hlazy eq_refl) as [En|]; [|done]. destruct n; [by rewrite drop_0 in En|lia]. }
    assert (outs = concat (take n (zip_with (normalized_request iterate c) qs ms))) as Houts by (rewrite (normalized_split c qs ms n Hlen) in E; by apply app_inv_tail in E).
    split_and!; [eexists; exact E|done|done|by exists n|]. intros Hone Hlazy _. rewrite Houts, take_ge; [done|]. rewrite length_zip_with, Hlen, Hone.
    assert (0 < n)%nat by (apply Hn'; [done|by destruct qs]). lia.
  - destruct Hres as (served & n & rem' & E & Hh' & Hsz). unfold normalized in *. change (Conn (set_config (NewHTTPNormalizer conn) c)) with conn in *.
    split_and!; [eexists; exact E| |lia|intros _ _ ?; lia]. by destruct Hh' as (cookie & [[[] _]|[_ []]]).
Qed.

(** *** Passthrough *)

(** A loop over the lines ends, and changes only what is parsed. *)
Lemma scan_frame fuel : forall t : HTTPNormalizer R, (scanIndex t <= length (b t))%nat -> (length (b t) - scanIndex t < fuel)%nat ->
  exists t' r, scan_lines fuel t = Ok (t', r) /\ t' = set_scan t (scanIndex t') (readRequestLine t') (request t') (mem t') /\ (scanIndex t' <= length (b t))%nat.
Proof.
  induction fuel as [|fuel IH]; intros t Hi Hf; [lia|]. cbn [scan_lines]. rewrite (proj2 (Nat.ltb_ge _ _)) by done.
  destruct (bytes_Index (drop (scanIndex t) (b t)) CRLF) as [i|] eqn:E; [|exists t, NoMoreLines; split_and!; [done|by destruct t|done]].
  apply Index_some in E as [Ho _]. apply occurs_bound in Ho; [|done]. rewrite length_drop in Ho. cbn in Ho.
  destruct (_ && _); [exists t, ReachedBody; split_and!; [done|by destruct t|done]|]. destruct (header_line _ _ _) as [p [[err log]|]]; [by eexists _, _|].
  destruct (IH (set_scan t (scanIndex t + (i + length CRLF)) true p (keep_slice (config t) (request t) (take i (drop (scanIndex t) (b t))) (scanIndex t) (mem t)))) as (t' & r & Hs & Hfr & Hi'); [cbn; lia|cbn; lia|]. by exists t', r.
Qed.

(** Nothing has been returned: the bytes that have been read are in the buffer, which is what
    a passthrough is given. *)
Definition unread (s : bytes) (t : HTTPNormalizer R) : Prop :=
  if passthrough t then exists x, relayed t = Some x /\ x ++ stream (Conn t) = s
  else state t = httpNormalizerReadReqLineAndHeader /\ b t ++ stream (Conn t) = s.

(** The index is in the buffer. *)
Definition scan_index_ok (t : HTTPNormalizer R) : Prop :=
  reader_ok (Conn t) /\ (passthrough t = false -> if bool_decide (state t = httpNormalizerReadBody) then scanIndex t = 0%nat else (scanIndex t <= length (b t))%nat).

Lemma reject_unread s t e lf out err t' : passthrough t = false -> b t ++ stream (Conn t) = s -> state t = httpNormalizerReadReqLineAndHeader -> reject_request t e lf = (out, err, t') ->
  out = [] /\ unread s t' /\ Conn t' = Conn t /\ (passthrough t' = false -> t' = t).
Proof.
  unfold reject_request, startPassthrough, unread. intros Hp Hb Hs. destruct (passthroughConfigured _); intros [= <- <- <-]; cbn.
  - split_and!; try done. by exists (b t).
  - by rewrite Hp.
Qed.

Lemma norm_copy_frame k t out (t' : HTTPNormalizer R) : norm_copy k t = (out, t') -> Conn t' = Conn t /\ passthrough t' = passthrough t /\ scanIndex t' = scanIndex t.
Proof. unfold norm_copy. cbv zeta. destruct (_ && _); by intros [= <- <-]. Qed.

Lemma index_free t : reader_ok (Conn t) -> (passthrough t = false -> scanIndex t = 0%nat) -> scan_index_ok t.
Proof. intros Hr Hp. split; [done|]. intros H. rewrite Hp by done. case_bool_decide; [done|lia]. Qed.

Lemma next_index t : reader_ok (Conn t) -> scan_index_ok (next_request t).
Proof. intros Hr. by apply index_free. Qed.

Lemma next_unread s t : unread s t -> unread s (next_request t).
Proof. done. Qed.

(** No request has been normalized. *)
Definition none_normalized (t : HTTPNormalizer R) : Prop := reqLineAndHeadersBuf t = list_byte_of_string httpNormalizerRequestLine.

Lemma normalized_some c m : normalized_head iterate c m <> list_byte_of_string httpNormalizerRequestLine.
Proof. intros E%(f_equal length). unfold normalized_head in E. rewrite !length_app in E. cbn [doublecrlf CRLF app length] in E. lia. Qed.

Lemma norm_copy_buf k t out (t' : HTTPNormalizer R) : norm_copy k t = (out, t') -> reqLineAndHeadersBuf t' = reqLineAndHeadersBuf t.
Proof. unfold norm_copy. cbv zeta. destruct (_ && _); by intros [= <- <-]. Qed.

(** What a read keeps while no request has been normalized. *)
Definition kept (s : bytes) (outs : bytes) (t : HTTPNormalizer R) : Prop := scan_index_ok t /\ (none_normalized t -> outs = [] /\ unread s t).

Lemma reject_buf (t : HTTPNormalizer R) e lf : reqLineAndHeadersBuf (reject_request t e lf).2 = reqLineAndHeadersBuf t.
Proof. unfold reject_request. by destruct (passthroughConfigured _). Qed.

Lemma reached_kept k s (t : HTTPNormalizer R) out err t' : reader_ok (Conn t) -> passthrough t = false -> state t = httpNormalizerReadReqLineAndHeader ->
  b t ++ stream (Conn t) = s -> reached_body iterate k t = (out, err, t') -> kept s out t' /\ (none_normalized t' -> none_normalized t).
Proof.
  intros Hr Hp Hs Hb. unfold reached_body, finish. cbv zeta.
  assert (forall e o x, (reject_request t e None).1 = (o, x) -> kept s o (next_request (reject_request t e None).2) /\ (none_normalized (next_request (reject_request t e None).2) -> none_normalized t)) as Hrej.
  { intros e o' x'. pose proof (reject_buf t e None) as Hbuf. destruct (reject_request t e None) as [[o x] t1] eqn:E. cbn [fst]. intros [= <- _]. apply (reject_unread s) in E as (-> & Hu & Ec & _); [|done..]. cbn [fst snd] in *. split; [|by unfold none_normalized; cbn; rewrite Hbuf].
    split; [apply next_index; by rewrite Ec|]. by split. }
  destruct (contentLength (request t)) as [cl|]; [|intros [= E <-]; by eapply Hrej]. destruct (_ && _); [intros [= E <-]; by eapply Hrej|].
  lazymatch goal with |- (let '(_, _) := norm_copy k ?x in _) = _ -> _ => set (t1 := x) end. destruct (norm_copy k t1) as [o t2] eqn:E. intros [= <- _ <-].
  pose proof (norm_copy_frame _ _ _ _ E) as (Ec & _ & _). pose proof (norm_copy_buf _ _ _ _ E) as Eb. assert (~ none_normalized (next_request t2)) as Hn.
  { unfold none_normalized. cbn. rewrite Eb. apply normalized_some. }
  split; [|done]. split; [apply next_index; by rewrite Ec|done].
Qed.

Lemma head_kept k (t : HTTPNormalizer R) : (0 < k)%nat -> scan_index_ok t -> passthrough t = false -> state t = httpNormalizerReadReqLineAndHeader ->
  exists out err t', norm_Read iterate k t = (Ok (out, err), t') /\ kept (b t ++ stream (Conn t)) out t' /\ (none_normalized t' -> none_normalized t).
Proof.
  intros Hk [Hr Hi] Hp Hs. unfold norm_Read. rewrite Hp, Hs. specialize (Hi Hp). rewrite Hs, bool_decide_false in Hi by done.
  destruct (Read k (Conn t)) as [[data e] conn] eqn:Hrd. destruct (Read_law k _ _ _ _ Hk Hr Hrd) as (Hr' & _ & Hst & _ & _). cbv zeta. cbn [config set_Conn set_b b].
  set (t1 := set_b (set_Conn t conn) (b t ++ data) _). assert (b t1 ++ stream (Conn t1) = b t ++ stream (Conn t)) as Hb1 by (cbn; by rewrite Hst, app_assoc).
  assert (scanIndex t1 <= length (b t1))%nat as Hi1 by (cbn; rewrite length_app; lia).
  assert (kept (b t ++ stream (Conn t)) [] t1) as Hk1.
  { split; [|intros _; split; [done|]; unfold unread; cbn; rewrite Hp; by rewrite Hst, app_assoc]. split; [done|]. intros _. rewrite bool_decide_false; [done|]. cbn. by rewrite Hs. }
  destruct (_ && _ && _); [destruct (passthroughConfigured _)|].
  - eexists [], _, _. split; [reflexivity|]. split; [|done]. split; [by split|]. intros _. split; [done|]. unfold unread. cbn. by exists (b t ++ data).
  - by eexists [], _, _.
  - destruct e as [e|]; [by eexists [], _, _|]. destruct (scan_frame (S (length (b t ++ data))) t1 Hi1 ltac:(cbn; lia)) as (t2 & r & Hscan & Hfr & Hi2). rewrite Hscan.
    assert (reader_ok (Conn t2) /\ passthrough t2 = false /\ state t2 = httpNormalizerReadReqLineAndHeader /\ b t2 ++ stream (Conn t2) = b t ++ stream (Conn t) /\
      reqLineAndHeadersBuf t2 = reqLineAndHeadersBuf t) as (Hr2 & Hp2 & Hs2 & Hb2 & Hbuf2) by (rewrite Hfr; by split_and!).
    assert (scan_index_ok t2) as Hi2' by (split; [done|]; intros _; rewrite Hs2, bool_decide_false by done; rewrite Hfr; done).
    destruct r as [| |err log].
    + exists [], None, t2. split; [done|]. split; [|by unfold none_normalized; rewrite Hbuf2]. split; [done|]. intros _. split; [done|]. unfold unread. by rewrite Hp2.
    + destruct (reached_body iterate k t2) as [[out err] t3] eqn:Hrb. exists out, err, t3. split; [done|].
      eapply reached_kept in Hrb as [Hkept Hn]; [|done..]. split; [done|]. unfold none_normalized in *. by rewrite <- Hbuf2.
    + destruct (reject_request t2 err log) as [[out e] t3] eqn:Hrej. exists out, e, t3. split; [done|]. pose proof (reject_buf t2 err log) as Hbuf. rewrite Hrej in Hbuf. cbn in Hbuf.
      eapply (reject_unread (b t ++ stream (Conn t))) in Hrej as (-> & Hu & Ec & Ht); [|done..]. split; [|by unfold none_normalized; rewrite Hbuf, Hbuf2].
      split; [|done]. split; [by rewrite Ec|]. intros Hp3. rewrite (Ht Hp3). by apply Hi2'.
Qed.

(** A request that has been normalized stays in the buffer until the next one. *)
Lemma scan_buf fuel : forall (t : HTTPNormalizer R) t' r, scan_lines fuel t = Ok (t', r) -> reqLineAndHeadersBuf t' = reqLineAndHeadersBuf t.
Proof.
  induction fuel as [|fuel IH]; intros t t' r; [done|]. cbn [scan_lines]. destruct (_ <? _)%nat; [done|]. destruct (bytes_Index _ _) as [i|]; [|by intros [= <- _]].
  destruct (_ && _); [by intros [= <- _]|]. destruct (header_line _ _ _) as [p [[e l]|]]; [by intros [= <- _]|]. intros Hs. by rewrite (IH _ _ _ Hs).
Qed.

Lemma reached_buf k (t : HTTPNormalizer R) : let t' := (reached_body iterate k t).2 in
  reqLineAndHeadersBuf t' = reqLineAndHeadersBuf t \/ exists c m, reqLineAndHeadersBuf t' = normalized_head iterate c m.
Proof.
  unfold reached_body, finish. cbv zeta. destruct (contentLength _); [|left; apply reject_buf]. destruct (_ && _); [left; apply reject_buf|].
  lazymatch goal with |- context [norm_copy k ?x] => destruct (norm_copy k x) as [o t2] eqn:E end. right. apply norm_copy_buf in E. cbn. rewrite E. by eexists _, _.
Qed.

Lemma Read_normalized k (t : HTTPNormalizer R) : none_normalized (norm_Read iterate k t).2 -> none_normalized t.
Proof.
  unfold norm_Read, none_normalized. destruct (passthrough t); [done|]. destruct (state t).
  - destruct (Read k (Conn t)) as [[data e] conn]. cbv zeta. destruct (_ && _ && _); [by destruct (passthroughConfigured _)|]. destruct e as [e|]; [done|].
    destruct (scan_lines _ _) as [[t1 r]|e|e|] eqn:Hs; [|done..]. apply scan_buf in Hs. cbn in Hs. rewrite <- Hs. destruct r as [| |e l]; [done| |].
    + pose proof (reached_buf k t1) as Hb. destruct (reached_body iterate k t1) as [[out e] t2]. cbn in Hb |- *. destruct Hb as [->|(c & m & ->)]; [done|by intros ?%normalized_some].
    + pose proof (reject_buf t1 e l) as Hb. destruct (reject_request t1 e l) as [[out e'] t2]. cbn in Hb |- *. by rewrite Hb.
  - destruct (_ =? _)%nat.
    + cbv zeta. destruct (Read _ _) as [[data e] conn]. by destruct (_ <=? _).
    + destruct (norm_copy k t) as [out t2] eqn:E. apply norm_copy_buf in E. cbn. by rewrite E.
Qed.

Lemma read_each_normalized ks : forall t : HTTPNormalizer R, none_normalized (read_each iterate ks t).2 -> none_normalized t.
Proof.
  induction ks as [|k ks IH]; intros t; [done|]. cbn [read_each]. unfold mbind, io_mbind. pose proof (Read_normalized k t) as Hn.
  destruct (norm_Read iterate k t) as [[[out [e|]]|e|e|] t1]; cbn in Hn |- *; [done| |done..]. specialize (IH t1).
  destruct (read_each iterate ks t1) as [[[outs err]|e|e|] t2]; cbn in *; auto.
Qed.

Lemma run_kept ks s : Forall (fun k => (0 < k)%nat) ks -> forall t : HTTPNormalizer R, scan_index_ok t -> unread s t -> none_normalized (read_each iterate ks t).2 ->
  exists err, (read_each iterate ks t).1 = Ok ([], err) /\ unread s (read_each iterate ks t).2.
Proof.
  induction 1 as [|k ks Hk _ IH]; intros t Hi Hu Hn; [by exists None|]. cbn [read_each] in *. destruct (passthrough t) eqn:Hp.
  - unfold mbind, io_mbind, norm_Read. rewrite Hp. by exists (Some EOF).
  - pose proof Hu as Hu'. unfold unread in Hu'. rewrite Hp in Hu'. destruct Hu' as [Hs <-]. destruct (head_kept k t Hk Hi Hp Hs) as (out & err & t1 & Hrd & Hkept & Hn1).
    unfold mbind, io_mbind in *. rewrite Hrd in *. destruct err as [e|].
    + destruct Hkept as [_ Hkept]. destruct (Hkept Hn) as [-> Hu1]. by exists (Some e).
    + pose proof (read_each_normalized ks t1) as Hm. specialize (IH t1). destruct (read_each iterate ks t1) as [[[outs err]|e|e|] t2]; cbn in *; specialize (Hm Hn);
        destruct Hkept as [Hi1 [-> Hu1]%(fun H => H Hm)]; [|by destruct (IH Hi1 Hu1 Hn) as (? & ? & _)..]. destruct (IH Hi1 Hu1 Hn) as (err' & [= -> ->] & Hu2). by exists err'.
Qed.

(** A connection of which no request is normalized is not read any further than the buffer:
    when a passthrough is started it is given all bytes that have been read, so that with the
    rest of the connection the other server gets exactly what the client sent. *)
Theorem passthrough_lossless l (conn : R) ip t ks : listener_Accept l (Ok conn) ip = Ok t -> reader_ok conn -> Forall (fun k => (0 < k)%nat) ks ->
  none_normalized (read_each iterate ks t).2 ->
  exists err t', read_each iterate ks t = (Ok ([], err), t') /\
    if passthrough t' then exists x, relayed t' = Some x /\ x ++ stream (Conn t') = stream conn else b t' ++ stream (Conn t') = stream conn.
Proof.
  intros (c & -> & _)%Accept_ok Hr Hks Hn. destruct (run_kept ks (stream conn) Hks (set_config (NewHTTPNormalizer conn) c)) as (err & H1 & H2); [by apply index_free|done|done|].
  exists err, (read_each iterate ks (set_config (NewHTTPNormalizer conn) c)).2. rewrite <- H1, <- surjective_pairing. split; [done|]. unfold unread in H2. by destruct (passthrough _); [|destruct H2].
Qed.
End Theorems.

(** ** Examples *)

(** Arrays of just the capacity that is asked for *)
#[export] Instance example_allocator : Allocator.
Proof. exists (fun n => n). reflexivity. Defined.

Definition example_listener : HTTPNormalizerListener :=
  {| HeaderWriteOrder := None; MaxReqLineAndHeadersSize := 200; ProhibitedHeaders := ["X-Bad"]; PassthroughAddress := "192.0.2.1:80"; PassthroughDialer := true;
     PassthroughLogPassthrough := true;
     ValidateMeekCookie := Some (fun _ v => if bool_decide (v = list_byte_of_string "good") then Some (Some []) else None) |}.

Definition example_request (cookie : string) (extra : list string) (body : string) (n : string) : http_request :=
  {| req_lines := map list_byte_of_string (["GET /x HTTP/1.1"; "User-Agent: a"; "Host: h"; "Range: r"; "Cookie: " +:+ cookie; "Content-Length: " +:+ n] ++ extra);
     req_body := list_byte_of_string body |}.

Definition example_conn (pieces : list bytes) : netConn := {| arrivals := pieces; final := EOF; eager := false |}.

(** What is read with buffers of a size, with the error, the rest of the buffer and what a
    passthrough is given. *)
Definition example_reads (pieces : list bytes) (ks : list nat) : option (bytes * option string * bytes * option bytes) :=
  match listener_Accept example_listener (Ok (example_conn pieces)) (Ok "192.0.2.7") with
  | Ok t => match read_each map_to_list ks t with (Ok (outs, err), t') => Some (outs, err, b t', relayed t') | _ => None end
  | _ => None
  end.

Definition two_requests : list http_request := [example_request "good" [] "body" "4"; example_request "good" [] "xy" "2"].

(** A request that arrives with the end of another one is not normalized when nothing follows
    it. *)
Theorem pipelined_request_lost : exists outs, example_reads [wires two_requests] [200; 200; 200]%nat = Some (outs, Some EOF, wire (example_request "good" [] "xy" "2"), None).
Proof. eexists. vm_compute. reflexivity. Qed.

(** A header that is prohibited starts a passthrough, but not after all headers that are
    preserved. *)
Theorem prohibited_after_preserved :
  (exists x, example_reads [wire {| req_lines := map list_byte_of_string ["GET / HTTP/1.1"; "X-Bad: 1"]; req_body := [] |}] [200]%nat = Some ([], None, x, Some x)) /\
  exists outs, example_reads [wire (example_request "good" ["X-Bad: 1"] "body" "4")] [200]%nat = Some (outs, None, [], None) /\ outs <> [].
Proof. split; [eexists; vm_compute; reflexivity|]. eexists. split; [vm_compute; reflexivity|done]. Qed.

(** The cookie of a second request is not checked. *)
Theorem later_cookie_unchecked :
  (exists x, example_reads [wire (example_request "bad" [] "body" "4")] [200]%nat = Some ([], None, x, Some x)) /\
  exists outs, example_reads [wire (example_request "good" [] "body" "4"); wire (example_request "bad" [] "xy" "2")] [200; 200]%nat = Some (outs, None, [], None) /\
    is_Some (bytes_Index outs (list_byte_of_string "Cookie: bad")).
Proof. split; [eexists; vm_compute; reflexivity|]. eexists. split; [vm_compute; reflexivity|]. eexists. vm_compute. reflexivity. Qed.

(** *** Headers that are overwritten

    The body of the first request is read directly from the connection at its end, so that the
    buffer is empty at an offset.  The second request arrives in pieces: the first has the
    cookie, the second moves the unread bytes to the front of the array, and the third is
    written over the slice of the cookie. *)

Definition filler (n : nat) (c : byte) : bytes := replicate n c.

Definition first_request : http_request :=
  {| req_lines := map list_byte_of_string ["POST / HTTP/1.1"; "Cookie: good"; "Content-Length: 310"] ++ [list_byte_of_string "A: " ++ filler 200 x61];
     req_body := filler 310 x62 |}.

Definition second_request : http_request :=
  {| req_lines := map list_byte_of_string ["POST / HTTP/1.1"; "Cookie: good"; "Content-Length: 1"] ++ [list_byte_of_string "A: " ++ filler 400 x63]; req_body := [x64] |}.

(** The bytes from one index to another *)
Definition piece (i j : nat) (x : bytes) : bytes := take (j - i) (drop i x).

Definition pieces_of_two : list bytes :=
  let w1 := wire first_request in
  let w2 := wire second_request in
  [take (length w1 - 10) w1; drop (length w1 - 10) w1; piece 0 100 w2; piece 100 250 w2; piece 250 450 w2; drop 450 w2].

Definition overwritten_reads : option (bytes * bool) :=
  match listener_Accept {| HeaderWriteOrder := None; MaxReqLineAndHeadersSize := 0; ProhibitedHeaders := []; PassthroughAddress := ""; PassthroughDialer := false;
                           PassthroughLogPassthrough := false; ValidateMeekCookie := None |} (Ok (example_conn pieces_of_two)) (Ok "192.0.2.7") with
  | Ok t =>
      let ks := replicate 12 1000%nat in
      match read_each map_to_list ks t with (Ok (outs, _), _) => Some (outs, steady map_to_list ks t) | _ => None end
  | _ => None
  end.

(** The cookie that is read is made of bytes of another header. *)
Theorem header_overwritten : exists outs, overwritten_reads = Some (outs, false) /\ is_Some (bytes_Index outs (list_byte_of_string "Cookie: cccc")) /\
  bytes_Index (wires [first_request; second_request]) (list_byte_of_string "Cookie: cccc") = None.
Proof. eexists. split; [vm_compute; reflexivity|]. split; [eexists; vm_compute; reflexivity|vm_compute; reflexivity]. Qed.
