(* ===== verification/HttpTransformer.v ===== *)
(** * The HTTP transformer

    Models src/psiphon/common/transforms/httpTransformer.go: a connection on which the request
    line and the headers of each HTTP request that is written are transformed; and composes it
    with the normalizer of the server ([HttpNormalizer]). *)

From Stdlib Require Import ZArith Lia Strings.Byte Strings.String.
From stdpp Require Import base gmap list strings numbers.
From S2P Require Import Prelude.
From S2P Require Import GoStrings.
From S2P Require Import GoIO.
From S2P Require Import Fragmentor.
From S2P Require Import OsshConn.
From S2P Require Import OsshProgress.
From S2P Require Import Regen.
From S2P Require Import Obfuscator.
From S2P Require Import Transforms.
From S2P Require Import HttpNormalizer.
#[local] Open Scope string_scope.
#[local] Open Scope Z_scope.
#[local] Open Scope list_scope.

Inductive transformer_state := httpTransformerReadWriteReqLineAndHeaders | httpTransformerReadWriteBody.

Record HTTPTransformerParameters := { ProtocolTransformName : string; ProtocolTransformSpec : option Spec; ProtocolTransformSeed : bytes }.

Record HTTPTransformer (U : Type) := {
  transform : option Spec;
  transform_seed : bytes;
  tr_state : transformer_state;
  tr_b : bytes;
  tr_remain : Z;
  tr_Conn : U
}.
Arguments transform {U}. Arguments transform_seed {U}. Arguments tr_state {U}. Arguments tr_b {U}. Arguments tr_remain {U}. Arguments tr_Conn {U}.

Definition ErrShortWrite : string := "short write".

(** [bytes.SplitN(b, sep, 2)]: what is before and after the separator. *)
Definition SplitN2 (x sep : bytes) : option (bytes * bytes) :=
  (fun i => (take i x, drop (i + length sep) x)) <$> bytes_Index x sep.

(** [bytes.Split]; each piece takes a separator, so that the length is enough fuel. *)
Fixpoint split_pieces (fuel : nat) (x sep : bytes) : list bytes :=
  match fuel with
  | O => [x]
  | S fuel => match bytes_Index x sep with Some i => take i x :: split_pieces fuel (drop (i + length sep) x) sep | None => [x] end
  end.
Definition bytes_Split (x sep : bytes) : list bytes := split_pieces (length x) x sep.

Definition contentLengthPrefix : bytes := list_byte_of_string "Content-Length:".

(** The value of the first line with the header *)
Definition find_length (headerLines : list bytes) : bytes :=
  match List.find (fun header => HasPrefix header contentLengthPrefix) headerLines with
  | Some header => TrimBytes (drop (length contentLengthPrefix) header)
  | None => []
  end.

Section HTTPTransformer.
Context `{RegexpSyntax} {Compiled : Type} (Compile : string -> res Compiled) (ReplaceAll : Compiled -> bytes -> bytes -> bytes) (draws depth : nat).
Context {U : Type} `{!UnderlyingConn U}.

Definition set_buffer (t : HTTPTransformer U) (x : bytes) (u : U) : HTTPTransformer U :=
  {| transform := transform t; transform_seed := transform_seed t; tr_state := tr_state t; tr_b := x; tr_remain := tr_remain t; tr_Conn := u |}.
Definition set_remaining (t : HTTPTransformer U) (s : transformer_state) (remain : Z) : HTTPTransformer U :=
  {| transform := transform t; transform_seed := transform_seed t; tr_state := s; tr_b := tr_b t; tr_remain := remain; tr_Conn := tr_Conn t |}.

(** [WrapDialerWithHTTPTransformer] *)
Definition WrapDialer (dialed : res U) (params : HTTPTransformerParameters) : res (HTTPTransformer U) :=
  conn ← dialed;
  Ok {| transform := ProtocolTransformSpec params; transform_seed := ProtocolTransformSeed params; tr_state := httpTransformerReadWriteReqLineAndHeaders;
        tr_b := []; tr_remain := 0; tr_Conn := conn |}.

(** [bytes.Buffer.WriteTo] *)
Definition WriteTo (t : HTTPTransformer U) : nat * option string * HTTPTransformer U :=
  if bool_decide (tr_b t = []) then (0%nat, None, t)
  else
    let '(n, err, u) := conn_Write (tr_b t) (tr_Conn t) in
    let t := set_buffer t (drop n (tr_b t)) u in
    match err with
    | Some e => (n, Some e, t)
    | None => if bool_decide (tr_b t = []) then (n, None, t) else (n, Some ErrShortWrite, t)
    end.

(** The request line and the headers, transformed *)
Definition transformed_head (transform : option Spec) (seed : bytes) (head : bytes) : res bytes :=
  match transform with
  | None => Ok head
  | Some spec => Spec_Apply Compile ReplaceAll draws depth spec seed head
  end.

(** The request line and all headers are in the buffer, and end with the separator. *)
Definition write_request (len : nat) (head : bytes) : io (HTTPTransformer U) (nat * option string) := fun t =>
  let cl := find_length (tail (bytes_Split head CRLF)) in
  if bool_decide (cl = []) then (Ok (len, Some "Content-Length missing"), t)
  else
    match ParseUint63 cl with
    | None => (Ok (len, Some "invalid syntax"), t)
    | Some contentLength =>
        let t := set_remaining t (tr_state t) contentLength in
        let reqLineAndHeadersLen := (length head + length doublecrlf)%nat in
        match transformed_head (transform t) (transform_seed t) (take reqLineAndHeadersLen (tr_b t)) with
        | Err e => (Ok (len, Some e), t)
        | Panic e => (Panic e, t)
        | NoFuel => (NoFuel, t)
        | Ok reqLineAndHeaders =>
            let t := set_buffer t (reqLineAndHeaders ++ drop reqLineAndHeadersLen (tr_b t)) (tr_Conn t) in
            if 2 ^ 64 - 1 - tr_remain t <? Z.of_nat (length reqLineAndHeaders) then (Ok (len, Some "t.remain + uint64(len(header)) overflows"), t)
            else
              let t := set_remaining t (tr_state t) (tr_remain t + Z.of_nat (length reqLineAndHeaders)) in
              if tr_remain t <? Z.of_nat (length (tr_b t)) then (Ok (len, Some "multiple HTTP requests in single Write() not supported"), t)
              else
                let '(n, err, t) := WriteTo t in
                let remain := wrapU 64 (tr_remain t - Z.of_nat n) in
                (Ok (len, err), set_remaining t (if 0 <? remain then httpTransformerReadWriteBody else tr_state t) remain)
        end
    end.

Definition tr_Write (x : bytes) : io (HTTPTransformer U) (nat * option string) := fun t =>
  match tr_state t with
  | httpTransformerReadWriteReqLineAndHeaders =>
      let t := set_buffer t (tr_b t ++ x) (tr_Conn t) in
      match SplitN2 (tr_b t) doublecrlf with
      | None => (Ok (length x, None), t)
      | Some (head, _) => write_request (length x) head t
      end
  | httpTransformerReadWriteBody =>
      let '(wrote, err, t) := WriteTo t in
      let t := set_remaining t (tr_state t) (wrapU 64 (tr_remain t - Z.of_nat wrote)) in
      match err with
      | Some e => (Ok (0%nat, Some e), t)
      | None =>
          if tr_remain t <? Z.of_nat (length x) then (Ok (length x, Some "multiple HTTP requests in single Write() not supported"), t)
          else
            let '(n, err, u) := conn_Write x (tr_Conn t) in
            let t := set_buffer t (tr_b t) u in
            let remain := wrapU 64 (tr_remain t - Z.of_nat n) in
            (Ok (n, err), if remain <=? 0 then set_remaining t httpTransformerReadWriteReqLineAndHeaders 0 else set_remaining t (tr_state t) remain)
      end
  end.

Definition tr_GetMetrics (t : HTTPTransformer U) : option (gmap string Z) := conn_GetMetrics (tr_Conn t).

(** A [Write] for each piece; what was returned. *)
Fixpoint write_each (pieces : list bytes) : io (HTTPTransformer U) (list (nat * option string)) :=
  match pieces with
  | [] => mret []
  | x :: pieces => r ← tr_Write x; rs ← write_each pieces; mret (r :: rs)
  end.
End HTTPTransformer.

(** ** Requests *)

Lemma occurs_double s j : occurs_at s doublecrlf j -> occurs_at s CRLF j /\ occurs_at s CRLF (j + 2).
Proof.
  unfold occurs_at, doublecrlf. intros E. split.
  - apply (f_equal (take 2)) in E. by rewrite take_take in E.
  - apply (f_equal (drop 2)) in E. rewrite skipn_firstn_comm, drop_drop in E. exact E.
Qed.

(** The lines of a request: all but the first have a byte. *)
Definition request_lines (l : bytes) (ls : list bytes) : Prop := Forall (fun l => is_header_line l = true) (l :: ls) /\ Forall (fun l => l <> []) ls.

Lemma head_bytes_cons l ls : head_bytes (l :: ls) = l ++ CRLF ++ head_bytes ls.
Proof. unfold head_bytes. cbn [map concat]. by rewrite <- app_assoc. Qed.

Lemma first_line l rest j : is_header_line l = true -> occurs_at (l ++ CRLF ++ rest) CRLF j -> (length l <= j)%nat.
Proof.
  intros Hl Ho. pose proof (line_index l rest (l ++ CRLF ++ rest) [] Hl (app_nil_r _)) as Hi. rewrite !length_app in Hi. cbn [length CRLF] in Hi.
  rewrite (proj2 (Nat.leb_le _ _)) in Hi by lia. apply Index_some in Hi as [_ Hmin]. apply Nat.nlt_ge. intros Hlt. by apply (Hmin j).
Qed.

Lemma double_after l ls rest j : request_lines l ls -> occurs_at (head_bytes (l :: ls) ++ CRLF ++ rest) doublecrlf j -> (length (head_bytes (l :: ls)) - 2 <= j)%nat.
Proof.
  revert l j. induction ls as [|l2 ls IH]; intros l j [[Hl Hls]%list.Forall_cons Hne] Ho; rewrite head_bytes_cons in Ho |- *; rewrite <- !app_assoc in Ho; rewrite !length_app;
    pose proof Ho as [H1 H2]%occurs_double; pose proof (first_line _ _ _ Hl H1); cbn [length CRLF].
  { unfold head_bytes. cbn. lia. }
  assert ((length l + 2 <= j)%nat /\ occurs_at (head_bytes (l2 :: ls) ++ CRLF ++ rest) doublecrlf (j - (length l + 2)) \/ j = length l \/ j = S (length l)) as [[Hj Hlater]|[-> | -> ]].
  { destruct (decide (length l + 2 <= j)%nat); [left; split; [done|]|right; lia]. replace j with (length l + 2 + (j - (length l + 2)))%nat in Ho by lia.
    rewrite <- occurs_drop, <- drop_drop, drop_app_length in Ho. exact Ho. }
  - apply list.Forall_cons in Hne as [_ Hne]. specialize (IH l2 _ (conj Hls Hne) Hlater). lia.
  - exfalso. rewrite <- occurs_drop, drop_app_length in H2. rewrite <- (occurs_drop _ _ 0 2) in H2. cbn [CRLF app drop] in H2. rewrite head_bytes_cons, <- !app_assoc in H2.
    apply list.Forall_cons in Hls as [Hl2 _]. pose proof (first_line _ _ _ Hl2 H2). apply list.Forall_cons in Hne as [Hn _]. destruct l2; [done|cbn in *; lia].
  - exfalso. unfold occurs_at in H1. rewrite <- Nat.add_1_r, <- drop_drop, drop_app_length in H1. done.
Qed.

(** The lines with separators between them *)
Fixpoint join_lines (l : bytes) (ls : list bytes) : bytes :=
  match ls with [] => l | l2 :: ls => l ++ CRLF ++ join_lines l2 ls end.

Lemma join_head l ls : head_bytes (l :: ls) = join_lines l ls ++ CRLF.
Proof. revert l. induction ls as [|l2 ls IH]; intros l; rewrite head_bytes_cons; [by unfold head_bytes|]. rewrite IH. cbn [join_lines]. by rewrite <- !app_assoc. Qed.

Lemma split_lines l ls : Forall (fun l => is_header_line l = true) (l :: ls) -> forall fuel, (length (join_lines l ls) <= fuel)%nat -> split_pieces fuel (join_lines l ls) CRLF = l :: ls.
Proof.
  revert l. induction ls as [|l2 ls IH]; intros l [Hl Hls]%list.Forall_cons fuel Hf; cbn [join_lines] in *.
  - destruct fuel as [|fuel]; [done|]. cbn [split_pieces]. pose proof (line_index l [] l CRLF Hl eq_refl) as Hi. rewrite (proj2 (Nat.leb_gt _ _)) in Hi by lia. by rewrite Hi.
  - rewrite !length_app in Hf. cbn [length CRLF] in Hf. destruct fuel as [|fuel]; [lia|]. cbn [split_pieces].
    pose proof (line_index l _ (l ++ CRLF ++ join_lines l2 ls) [] Hl (app_nil_r _)) as Hi. rewrite !length_app in Hi. cbn [length CRLF] in Hi. rewrite (proj2 (Nat.leb_le _ _)) in Hi by lia.
    rewrite Hi, take_app_length, <- drop_drop, drop_app_length. cbn [length CRLF app drop]. f_equal. apply IH; [done|lia].
Qed.

(** The head is found when it is complete. *)
Lemma head_found l ls x more rest : request_lines l ls -> x ++ more = head_bytes (l :: ls) ++ CRLF ++ rest ->
  SplitN2 x doublecrlf = if (length (head_bytes (l :: ls)) + 2 <=? length x)%nat then Some (join_lines l ls, drop (length (head_bytes (l :: ls)) + 2) x) else None.
Proof.
  intros Hr E. unfold SplitN2. assert (length (head_bytes (l :: ls)) = length (join_lines l ls) + 2)%nat as Hl by (rewrite join_head, length_app; cbn; lia).
  destruct (Nat.leb_spec (length (head_bytes (l :: ls)) + 2) (length x)) as [Hge|Hlt].
  - assert (bytes_Index x doublecrlf = Some (length (join_lines l ls))) as Hi.
    { apply Index_first.
      - rewrite <- (occurs_prefix x more) by (change (length doublecrlf) with 4%nat; lia). rewrite E, join_head, <- !app_assoc. unfold occurs_at. by rewrite drop_app_length.
      - intros j Hj Hoj. assert (occurs_at (x ++ more) doublecrlf j) as Ho by (apply occurs_prefix; [change (length doublecrlf) with 4%nat; lia|done]). rewrite E in Ho. apply double_after in Ho; [lia|done]. }
    rewrite Hi. cbn [fmap option_fmap option_map]. replace (length (join_lines l ls) + length doublecrlf)%nat with (length (head_bytes (l :: ls)) + 2)%nat by (change (length doublecrlf) with 4%nat; lia).
    do 2 f_equal. apply (f_equal (take (length (join_lines l ls)))) in E. rewrite join_head, <- !app_assoc, take_app_length, take_app_le in E by lia. done.
  - destruct (bytes_Index x doublecrlf) as [i|] eqn:Hi; [|done]. exfalso. apply Index_some in Hi as [Ho _]. pose proof (occurs_bound x doublecrlf i ltac:(done) Ho) as Hb. change (length doublecrlf) with 4%nat in Hb.
    assert (occurs_at (x ++ more) doublecrlf i) as Ho' by (apply occurs_prefix; [change (length doublecrlf) with 4%nat; lia|done]). rewrite E in Ho'. apply double_after in Ho'; [lia|done].
Qed.

(** The first line with the header has a length. *)
Definition length_line (ls : list bytes) (n : Z) : Prop :=
  exists before v after, ls = before ++ (contentLengthPrefix ++ v) :: after /\ Forall (fun h => take (length contentLengthPrefix) h <> contentLengthPrefix) before /\
    ParseUint63 (TrimBytes v) = Some n.

Lemma find_length_ok ls n : length_line ls n -> ParseUint63 (find_length ls) = Some n.
Proof.
  intros (before & v & after & -> & Hb & Hv). unfold find_length. induction Hb as [|h before Hh _ IH].
  - cbn [app List.find]. unfold HasPrefix. rewrite take_app_length, bool_decide_true by done. by rewrite drop_app_length.
  - cbn [app List.find]. unfold HasPrefix at 1. by rewrite bool_decide_false.
Qed.

(** ** What is written *)

Section Writes.
Context `{RegexpSyntax} {Compiled : Type} (Compile : string -> res Compiled) (ReplaceAll : Compiled -> bytes -> bytes -> bytes) (draws depth : nat).
Context {U : Type} `{!UnderlyingConn U, !ReliableConn U}.
Context (spec : option Spec) (seed : bytes).

Let apply_head := transformed_head Compile ReplaceAll draws depth spec seed.
Let write := tr_Write Compile ReplaceAll draws depth (U := U).

(** A request of the client, and its head after the transform: the first line with the length
    of the body has it. *)
Definition client_request (q : http_request) (head : bytes) : Prop :=
  exists l ls, req_lines q = l :: ls /\ request_lines l ls /\ length_line ls (Z.of_nat (length (req_body q))) /\
    apply_head (head_bytes (l :: ls) ++ CRLF) = Ok head /\ Z.of_nat (length head + length (req_body q)) < 2 ^ 64.

Definition written (t : HTTPTransformer U) : bytes := concat (conn_writes (tr_Conn t)).

Lemma reliable_Write x (u : U) : exists u', conn_Write x u = (length x, None, u') /\ concat (conn_writes u') = concat (conn_writes u) ++ x.
Proof.
  destruct (conn_Write_ok x u) as (n & u' & E). pose proof (conn_Write_law _ _ _ _ _ E) as (Hn & He & Hw). assert (n = length x) as -> by (destruct (decide (n < length x)%nat) as [Hl|]; [by apply He in Hl|lia]).
  exists u'. split; [done|]. by rewrite Hw, concat_app, firstn_all; cbn; rewrite app_nil_r.
Qed.

Lemma WriteTo_ok t : exists u, WriteTo t = (length (tr_b t), None, set_buffer t [] u) /\ concat (conn_writes u) = written t ++ tr_b t.
Proof.
  unfold WriteTo. case_bool_decide as Hb.
  - exists (tr_Conn t). rewrite Hb, app_nil_r. split; [|done]. destruct t; cbn in *. by subst.
  - destruct (reliable_Write (tr_b t) (tr_Conn t)) as (u & -> & Hw). exists u. rewrite drop_all. by split.
Qed.

(** The state in which pieces of a request are still to be written: its head, or its body, or
    nothing but empty pieces. *)
Inductive to_write (q : http_request) (head : bytes) (w : bytes) (pieces : list bytes) (t : HTTPTransformer U) : Prop :=
| in_head : tr_state t = httpTransformerReadWriteReqLineAndHeaders -> tr_b t ++ concat pieces = wire q -> (length (tr_b t) < length (head_bytes (req_lines q)) + 2)%nat -> written t = w -> to_write q head w pieces t
| in_rest : tr_state t = httpTransformerReadWriteBody -> tr_b t = [] -> concat pieces <> [] -> tr_remain t = Z.of_nat (length (concat pieces)) -> tr_remain t < 2 ^ 64 ->
    written t ++ concat pieces = w ++ head ++ req_body q -> to_write q head w pieces t
| all_written : tr_state t = httpTransformerReadWriteReqLineAndHeaders -> tr_b t = [] -> concat pieces = [] -> written t = w ++ head ++ req_body q -> to_write q head w pieces t.

Definition same_transform (t : HTTPTransformer U) : Prop := transform t = spec /\ transform_seed t = seed.

Lemma write_ok q head w x pieces t : client_request q head -> same_transform t -> to_write q head w (x :: pieces) t ->
  exists t', write x t = (Ok (length x, None), t') /\ same_transform t' /\ to_write q head w pieces t'.
Proof.
  intros (l & ls & Hlines & Hok & Hlen%find_length_ok & Happ & Hsz) [Hspec Hseed] [Hs Hb Hshort Hw|Hs Hb Hne Hrem Hmax Hw|Hs Hb Hnil Hw]; unfold write, tr_Write; rewrite Hs.
  - set (t1 := set_buffer t (tr_b t ++ x) (tr_Conn t)). cbn [concat] in Hb. rewrite app_assoc in Hb. unfold wire in Hb. rewrite Hlines in Hb. cbv zeta.
    rewrite (head_found l ls (tr_b t1) _ _ Hok Hb). destruct (Nat.leb_spec (length (head_bytes (l :: ls)) + 2) (length (tr_b t1))) as [Hge|Hlt].
    + unfold write_request, bytes_Split. rewrite (split_lines l ls (proj1 Hok)) by done. cbn [tail]. destruct (bool_decide_reflect (find_length ls = [])) as [En|_]; [by rewrite En in Hlen|]. rewrite Hlen. cbv zeta.
      assert (length (join_lines l ls) + length doublecrlf = length (head_bytes (l :: ls) ++ CRLF))%nat as Ehl by (rewrite join_head, !length_app; change (length doublecrlf) with 4%nat; cbn [length CRLF]; lia). rewrite !Ehl.
      cbn [set_remaining transform transform_seed tr_b tr_remain tr_Conn tr_state].
      assert (length (head_bytes (l :: ls) ++ CRLF) <= length (tr_b t1))%nat as Hge' by (rewrite length_app; exact Hge). change (tr_b t ++ x) with (tr_b t1) in Hb. rewrite app_assoc in Hb.
      assert (take (length (head_bytes (l :: ls) ++ CRLF)) (tr_b t1) = head_bytes (l :: ls) ++ CRLF) as Etake.
      { apply (f_equal (take (length (head_bytes (l :: ls) ++ CRLF)))) in Hb. rewrite take_app_le, take_app_length in Hb by done. done. }
      set (bp := drop (length (head_bytes (l :: ls) ++ CRLF)) (tr_b t1)) in *.
      assert (bp ++ concat pieces = req_body q) as Ebp.
      { apply (f_equal (drop (length (head_bytes (l :: ls) ++ CRLF)))) in Hb. rewrite drop_app_le, drop_app_length in Hb by done. done. }
      assert (length (req_body q) = length bp + length (concat pieces))%nat as Hlb by (by rewrite <- Ebp, length_app). clearbody bp.
      rewrite Etake. change (transform t1) with (transform t). change (transform_seed t1) with (transform_seed t).
      rewrite Hspec, Hseed. change (transformed_head _ _ _ _ spec seed) with apply_head. rewrite Happ. cbn [set_buffer set_remaining tr_remain tr_b tr_Conn tr_state].
      rewrite (proj2 (Z.ltb_ge _ _)) by lia. rewrite (proj2 (Z.ltb_ge _ _)) by (rewrite length_app; lia).
      lazymatch goal with |- context [WriteTo ?x] => destruct (WriteTo_ok x) as (u & HW & Hu); rewrite HW end. cbn [set_buffer set_remaining tr_b tr_remain tr_state tr_Conn] in *.
      rewrite wrapU_small by (rewrite length_app; lia). rewrite length_app. eexists. split; [reflexivity|]. split; [done|].
      replace (Z.of_nat (length (req_body q)) + Z.of_nat (length head) - Z.of_nat (length head + length bp)) with (Z.of_nat (length (concat pieces))) by lia.
      destruct (Z.ltb_spec 0 (Z.of_nat (length (concat pieces)))).
      * apply in_rest; cbn; [done|done|by destruct (concat pieces)|done|lia|]. unfold written in *. cbn. rewrite Hu. cbn. rewrite Hw, <- !app_assoc, Ebp. done.
      * assert (concat pieces = []) as En by (apply nil_length_inv; lia). rewrite En, app_nil_r in Ebp. apply all_written; cbn; [done|done|done|]. unfold written in *. cbn. rewrite Hu. cbn. by rewrite Hw, Ebp.
    + eexists. split; [reflexivity|]. split; [done|]. apply in_head; [done| |by rewrite Hlines|done]. cbn [tr_b t1 set_buffer]. unfold wire. rewrite Hlines. exact Hb.
  - destruct (WriteTo_ok t) as (u & -> & Hu). rewrite Hb in Hu |- *. cbn [length set_buffer set_remaining tr_b tr_remain tr_state tr_Conn]. rewrite app_nil_r in Hu.
    cbn [concat] in *. rewrite length_app in Hrem. rewrite wrapU_small by lia. rewrite (proj2 (Z.ltb_ge _ _)) by lia.
    destruct (reliable_Write x u) as (u' & -> & Hu'). rewrite Z.sub_0_r, wrapU_small by lia. eexists. split; [reflexivity|].
    assert (tr_remain t - Z.of_nat (length x) = Z.of_nat (length (concat pieces))) as -> by lia.
    destruct (Z.leb_spec (Z.of_nat (length (concat pieces))) 0); (split; [done|]).
    + assert (concat pieces = []) as En by (apply nil_length_inv; lia). apply all_written; cbn; [done|done|done|]. unfold written in *. cbn. rewrite Hu', Hu, <- Hw, En, app_nil_r. done.
    + apply in_rest; cbn; [done|done|intros E; rewrite E in *; cbn in *; lia|done|lia|]. unfold written in *. cbn. by rewrite Hu', Hu, <- app_assoc.
  - cbn [concat] in Hnil. apply app_nil in Hnil as [-> Hnil]. rewrite Hb. cbn [app]. eexists. split; [reflexivity|]. split; [done|]. by apply all_written.
Qed.

(** Nothing of a request is buffered. *)
Definition idle (t : HTTPTransformer U) : Prop := tr_state t = httpTransformerReadWriteReqLineAndHeaders /\ tr_b t = [].

Let write_pieces := write_each Compile ReplaceAll draws depth (U := U).

(** What the writes of pieces return without an error *)
Definition all_accepted (pieces : list bytes) : list (nat * option string) := map (fun x => (length x, None)) pieces.

Lemma write_each_ok q head w pieces : client_request q head -> forall t, same_transform t -> to_write q head w pieces t ->
  exists t', write_pieces pieces t = (Ok (all_accepted pieces), t') /\ same_transform t' /\ idle t' /\ written t' = w ++ head ++ req_body q.
Proof.
  intros Hq. induction pieces as [|x pieces IH]; intros t Ht Hw.
  - exists t. destruct Hw as [Hs Hb Hshort Hw|Hs Hb Hne Hrem Hmax Hw|Hs Hb Hnil Hw]; [|done|by split_and!].
    cbn in Hb. rewrite app_nil_r in Hb. rewrite Hb in Hshort. pose proof (wire_length q). lia.
  - destruct (write_ok _ _ _ _ _ _ Hq Ht Hw) as (t1 & H1 & Ht1 & Hw1). destruct (IH _ Ht1 Hw1) as (t2 & H2 & Ht2 & Hres). exists t2. split; [|done].
    unfold write_pieces. cbn [write_each]. erewrite io_bind_run by exact H1. erewrite io_bind_run by exact H2. done.
Qed.

Lemma write_each_app ps ps' t r t1 : write_pieces ps t = (Ok r, t1) -> write_pieces (ps ++ ps') t = (rs ← write_pieces ps'; mret (r ++ rs)) t1.
Proof.
  revert t r t1. induction ps as [|x ps IH]; intros t r t1 H1.
  - injection H1 as <- <-. cbn [app]. unfold mbind, io_mbind. destruct (write_pieces ps' t) as [[rs|e|e|] t2]; done.
  - unfold write_pieces in H1. cbn [write_each] in H1. apply io_bind_ok in H1 as (a & s1 & Ha & H1). apply io_bind_ok in H1 as (rs & s2 & Hrs & [= <- <-]).
    unfold write_pieces. cbn [app write_each]. erewrite io_bind_run by exact Ha. unfold write_pieces in IH. unfold mbind, io_mbind in *. rewrite (IH _ _ _ Hrs).
    by destruct (write_each _ _ _ _ ps' s2) as [[rs'|e|e|] t2].
Qed.

(** Requests, each written in pieces of its own: the connection gets each request with its
    head transformed, and no write fails. *)
Lemma requests_written qs : forall heads pss t, Forall2 client_request qs heads -> Forall2 (fun q ps => concat ps = wire q) qs pss -> same_transform t -> idle t ->
  exists t', write_pieces (concat pss) t = (Ok (all_accepted (concat pss)), t') /\ idle t' /\ written t' = written t ++ concat (zip_with (fun q head => head ++ req_body q) qs heads).
Proof.
  induction qs as [|q qs IH]; intros heads pss t Hc Hp Ht Hi.
  - inversion Hc; inversion Hp; subst. exists t. split_and!; [done|done|]. by rewrite app_nil_r.
  - apply Forall2_cons_inv_l in Hc as (head & heads' & Hq & Hc & ->). apply Forall2_cons_inv_l in Hp as (ps & pss' & Hps & Hp & ->). destruct Hi as [Hs Hb].
    destruct (write_each_ok q head (written t) ps Hq t Ht) as (t1 & H1 & Ht1 & Hi1 & Hw1).
    { apply in_head; [done|by rewrite Hb, Hps|rewrite Hb; cbn; lia|done]. }
    destruct (IH heads' pss' t1 Hc Hp Ht1 Hi1) as (t2 & H2 & Hi2 & Hw2). exists t2. cbn [concat zip_with]. rewrite (write_each_app _ _ _ _ _ H1). unfold mbind, io_mbind. rewrite H2.
    split_and!; [by unfold all_accepted; rewrite map_app|done|]. by rewrite Hw2, Hw1, <- !app_assoc.
Qed.
End Writes.

(** The requests with other heads *)
Definition retransmitted (qs : list http_request) (heads : list bytes) (qs' : list http_request) : Prop :=
  map req_body qs' = map req_body qs /\ heads = map (fun q => head_bytes (req_lines q) ++ CRLF) qs'.

Lemma retransmitted_wires qs : forall heads qs', retransmitted qs heads qs' -> concat (zip_with (fun q head => head ++ req_body q) qs heads) = wires qs'.
Proof.
  induction qs as [|q qs IH]; intros heads [|q' qs'] [Hb Hh]; try done. injection Hb as Eb Hb. rewrite Hh. cbn [map zip_with concat]. unfold wires. cbn [map concat].
  f_equal; [unfold wire; by rewrite Eb, <- app_assoc|]. by apply IH.
Qed.


(** ** An example *)

#[local] Existing Instance example_syntax.

(** A connection that accepts all writes *)
#[local, refine] Instance accepting : UnderlyingConn (list bytes) := {|
  conn_Write := fun x u => (length x, None, u ++ [x]);
  conn_Close := fun u => (None, u);
  conn_CloseWrite := None;
  conn_GetMetrics := fun _ => None;
  conn_writes := fun u => u
|}.
Proof. intros x u n err u' [= <- <- <-]. rewrite firstn_all. split_and!; [lia|lia|done]. Defined.

#[local] Instance accepting_reliable : ReliableConn (list bytes).
Proof. split. intros x u. by eexists _, _. Qed.

(** A regular expression that is a literal, replaced where it is first. *)
Definition replace_literal (re : string) (value replacement : bytes) : bytes :=
  match bytes_Index value (list_byte_of_string re) with
  | Some i => take i value ++ replacement ++ drop (i + String.length re) value
  | None => value
  end.

Definition example_transform : HTTPTransformerParameters :=
  {| ProtocolTransformName := "AGENT"; ProtocolTransformSpec := Some [("User-Agent", ".")]; ProtocolTransformSeed := replicate 32 x07 |}.

Definition client_sends : http_request := example_request "good" [] "body" "4".
Definition server_gets : http_request :=
  {| req_lines := match req_lines client_sends with l :: _ :: ls => l :: ([xef; xbf; xbd] ++ list_byte_of_string ": a") :: ls | ls => ls end; req_body := req_body client_sends |}.

Lemma client_request_check {C} (Compile : string -> res C) ReplaceAll draws depth spec seed q l before v after head : req_lines q = l :: before ++ (contentLengthPrefix ++ v) :: after ->
  forallb is_header_line (req_lines q) && forallb (fun l => negb (bool_decide (l = []))) (tail (req_lines q)) &&
  forallb (fun h => negb (bool_decide (take (length contentLengthPrefix) h = contentLengthPrefix))) before &&
  bool_decide (ParseUint63 (TrimBytes v) = Some (Z.of_nat (length (req_body q)))) &&
  (match transformed_head Compile ReplaceAll draws depth spec seed (head_bytes (req_lines q) ++ CRLF) with Ok h => bool_decide (h = head) | _ => false end) &&
  (Z.of_nat (length head + length (req_body q)) <? 2 ^ 64) = true -> client_request Compile ReplaceAll draws depth spec seed q head.
Proof.
  intros Hq. rewrite Hq. intros [[[[[Hl Hn]%andb_prop Hb]%andb_prop Hp%bool_decide_eq_true]%andb_prop Ht]%andb_prop Hs%Z.ltb_lt]%andb_prop.
  apply Is_true_true_2, forallb_True in Hl, Hn, Hb. exists l, (before ++ (contentLengthPrefix ++ v) :: after). split_and!; [done| | | |done].
  - split; [eapply list.Forall_impl; [exact Hl|]; intros x Hx; by apply Is_true_eq_true|]. eapply list.Forall_impl; [exact Hn|]. intros x Hx. cbn in Hx. by case_bool_decide.
  - exists before, v, after. split_and!; [done| |done]. eapply list.Forall_impl; [exact Hb|]. intros x Hx. cbn beta in Hx. by case_bool_decide.
  - destruct (transformed_head _ _ _ _ _ _ _) as [h|e|e|]; try done. by apply bool_decide_eq_true in Ht as ->.
Qed.

Lemma example_client_request : client_request (Ok (A := string)) replace_literal 8 4 (ProtocolTransformSpec example_transform) (ProtocolTransformSeed example_transform)
  client_sends (head_bytes (req_lines server_gets) ++ CRLF).
Proof.
  apply (client_request_check _ _ _ _ _ _ _ (list_byte_of_string "GET /x HTTP/1.1") (map list_byte_of_string ["User-Agent: a"; "Host: h"; "Range: r"; "Cookie: good"])
    (list_byte_of_string " 4") []); vm_compute; reflexivity.
Qed.

Lemma cut_stream n w : stream (example_conn [take n w; drop n w]) = w.
Proof. cbn [stream conn_Reader arrivals example_conn concat]. by rewrite app_nil_r, take_drop. Qed.

Definition example_sender : HTTPTransformer (list bytes) :=
  {| transform := ProtocolTransformSpec example_transform; transform_seed := ProtocolTransformSeed example_transform;
     tr_state := httpTransformerReadWriteReqLineAndHeaders; tr_b := []; tr_remain := 0; tr_Conn := [] |}.

Definition example_pieces : list bytes := [take 20 (wire client_sends); drop 20 (wire client_sends)].

Abbreviation example_writes := (write_each (Ok (A := string)) replace_literal 8 4 example_pieces example_sender).

Lemma example_written : concat (tr_Conn (snd example_writes)) = wire server_gets.
Proof. apply (bool_decide_eq_true_1 (concat (tr_Conn (snd example_writes)) = wire server_gets)). vm_compute. reflexivity. Qed.

Definition example_receiver (conn : netConn) : HTTPNormalizer netConn :=
  match listener_Accept example_listener (Ok conn) (Ok "192.0.2.7") with Ok t => t | _ => NewHTTPNormalizer conn end.

Lemma example_Accept conn : listener_Accept example_listener (Ok conn) (Ok "192.0.2.7") = Ok (example_receiver conn) /\
  config (example_receiver conn) = config (example_receiver (example_conn [])).
Proof. done. Qed.

Lemma example_accepted conn : is_Some (accepted_requests map_to_list (config (example_receiver conn)) None [server_gets]).
Proof.
  rewrite (proj2 (example_Accept conn)). set (r := accepted_requests _ _ _ _).
  assert (match r with Some _ => true | None => false end = true) as E by (vm_compute; reflexivity). clearbody r. destruct r; [by eexists|discriminate E].
Qed.

Lemma pieces_of n (x : bytes) : concat [take n x; drop n x] = x.
Proof. cbn. by rewrite app_nil_r, take_drop. Qed.

