(* ===== verification/OslKeys.v ===== *)
(** * OSL keys

    Models the key side of src/psiphon/common/osl/osl.go: the derivation of SLOKs
    ([deriveSLOK]), the helpers around secret sharing and secret boxes, the
    division of an OSL file key into a tree of [KeyShares] ([divideKey],
    [divideKeyWithSeedSpecSLOKs], [makeOSLFileSpec]) and its reassembly from the
    SLOKs a client holds ([reassembleKey], [ReassembleOSLKey]).

    Parameters: [HMAC], HMAC-SHA256 of the Go standard library, and [CTR], the
    AES-CTR key stream of a seed; a [SecretBox] implementation; and [iter], the
    orders in which Go iterates over a map.  A time is its number of nanoseconds
    since the Unix epoch.  Of a [SeedSpec] the key side uses only the ID. *)

From Stdlib Require Import ZArith Lia Strings.Byte.
From stdpp Require Import base gmap list sets strings.
From S2P Require Import Prelude Shamir Secretbox.
#[local] Open Scope Z_scope.

Definition KEY_LENGTH_BYTES : nat := 32.

Record KeySplit := { Total : Z; Threshold : Z }.

Record SLOK := { ID : bytes; Key : bytes }.
#[export] Instance SLOK_eq_dec : EqDecision SLOK.
Proof. solve_decision. Defined.

Record slokReference := {
  PropagationChannelID : bytes;
  SeedSpecID : bytes;
  Time : Z
}.
#[export] Instance slokReference_eq_dec : EqDecision slokReference.
Proof. solve_decision. Defined.
#[export] Program Instance slokReference_countable : Countable slokReference :=
  inj_countable' (fun r => (PropagationChannelID r, SeedSpecID r, Time r))
    (fun '(p, s, t) => {| PropagationChannelID := p; SeedSpecID := s; Time := t |}) _.
Next Obligation. by intros []. Qed.

(** The fields of a [Scheme] that determine its keys; [SeedSpecIDs] are the IDs of
    its [SeedSpecs]. *)
Record KeyScheme := {
  MasterKey : bytes;
  SeedSpecIDs : list bytes;
  SeedSpecThreshold : Z;
  SeedPeriodNanoseconds : Z;
  SeedPeriodKeySplits : list KeySplit
}.

(** A node of the tree that describes how a key is divided; [sk_SLOKIDs] is set
    on the leaves and [sk_KeyShares] on the inner nodes. *)
Inductive KeyShares :=
| mkKeyShares (sk_Threshold : Z) (sk_BoxedShares sk_SLOKIDs : list bytes)
    (sk_KeyShares : list KeyShares).

Definition sk_Threshold (ks : KeyShares) : Z := let '(mkKeyShares t _ _ _) := ks in t.
Definition sk_BoxedShares (ks : KeyShares) : list bytes := let '(mkKeyShares _ b _ _) := ks in b.
Definition sk_SLOKIDs (ks : KeyShares) : list bytes := let '(mkKeyShares _ _ i _) := ks in i.
Definition sk_KeyShares (ks : KeyShares) : list KeyShares := let '(mkKeyShares _ _ _ c) := ks in c.

Record OSLFileSpec := { fs_ID : bytes; fs_KeyShares : KeyShares; fs_MD5Sum : bytes }.

(** ** Shamir helpers *)

Definition isValidShamirSplit (total threshold : Z) : bool :=
  if bool_decide (total < 1) || bool_decide (254 < total) || bool_decide (threshold < 1) ||
     bool_decide (total < threshold)
  then false else true.

(** Shares are indexed from 0 and share IDs from 1; 255 rounds of the loop over
    share IDs are enough. *)
Definition shamirSplit (secret : bytes) (total threshold : Z) : stres bytes (list bytes) :=
  if negb (isValidShamirSplit total threshold) then st_lift (Err "invalid parameters")
  else if bool_decide (threshold = 1) then mret (replicate (Z.to_nat total) secret)
  else
    shareMap ← SplitUsingReader 255 (z2b total) (z2b threshold) secret;
    mret (map (fun i => default [] (shareMap !! z2b (b2z (z2b (Z.of_nat i)) + 1)))
            (seq 0 (Z.to_nat total))).

(** The map built from a sparse list; a nil share is the empty list. *)
Definition share_map (shares : list bytes) : gmap byte bytes :=
  foldl (fun m kv =>
      if bool_decide (kv.2 = []) then m
      else <[z2b (b2z (z2b (Z.of_nat kv.1)) + 1) := kv.2]> m)
    ∅ (imap pair shares).

(** ** Sparse lists of shares *)

(** [sel] holds some of the shares, the others being nil. *)
Definition selection (sel shares : list bytes) : Prop := Forall2 (fun a b => a = [] \/ a = b) sel shares.

Definition count (sel : list bytes) : nat := length (filter (fun a => a <> []) sel).

Lemma z2b_index (i : nat) : Z.of_nat i < 254 ->
  b2z (z2b (b2z (z2b (Z.of_nat i)) + 1)) = Z.of_nat i + 1.
Proof. intros Hi. rewrite !b2z_z2b. rewrite (Z.mod_small (Z.of_nat i)) by lia. apply Z.mod_small. lia. Qed.

Lemma share_map_loop sel (o : nat) (m : gmap byte bytes) :
  Z.of_nat (o + length sel) <= 254 -> (forall x v, m !! x = Some v -> b2z x <= Z.of_nat o) ->
  let m' := foldl (fun m kv =>
      if bool_decide (kv.2 = []) then m
      else <[z2b (b2z (z2b (Z.of_nat kv.1)) + 1) := kv.2]> m)
    m (imap (fun i v => ((o + i)%nat, v)) sel) in
  (forall x v, m' !! x = Some v -> m !! x = Some v \/
     exists i, sel !! i = Some v /\ v <> [] /\ b2z x = Z.of_nat (o + i) + 1) /\
  size m' = (size m + count sel)%nat.
Proof.
  revert o m. induction sel as [|a sel IH]; intros o m Ho Hm; cbn [imap foldl].
  { split; [by left|]. unfold count. simpl. lia. }
  cbn [length] in Ho. rewrite Nat.add_0_r. cbn [fst snd].
  rewrite (imap_ext _ (fun i v => ((S o + i)%nat, v)))
    by (intros; unfold compose; f_equal; lia).
  assert (count (a :: sel) = (if bool_decide (a = []) then 0 else 1) + count sel)%nat as Ec.
  { unfold count. rewrite filter_cons. by destruct (decide (a <> [])), (bool_decide_reflect (a = [])). }
  pose proof (z2b_index o ltac:(lia)) as Eo. case_bool_decide as Ha.
  - destruct (IH (S o) m) as [H1 H2]; [lia|intros x v Hx; specialize (Hm x v Hx); lia|].
    split; [|lia]. intros x v Hx. destruct (H1 x v Hx) as [?|(i & ? & ? & ?)]; [by left|].
    right. exists (S i). split_and!; [done..|lia].
  - set (k := z2b _) in *. assert (m !! k = None) as Hk.
    { destruct (m !! k) as [v|] eqn:E; [|done]. specialize (Hm _ _ E). lia. }
    destruct (IH (S o) (<[k := a]> m)) as [H1 H2]; [lia| |].
    { intros x v [[<- <-]|[_ Hx]]%lookup_insert_Some; [lia|]. specialize (Hm _ _ Hx). lia. }
    split; [|rewrite map_size_insert_None in H2 by done; lia].
    intros x v Hx. destruct (H1 x v Hx) as [Hin|(i & ? & ? & ?)].
    + apply lookup_insert_Some in Hin as [[<- <-]|[_ ?]]; [|by left].
      right. exists 0%nat. split_and!; [done..|lia].
    + right. exists (S i). split_and!; [done..|lia].
Qed.

Lemma share_map_spec sel :
  (length sel <= 254)%nat ->
  (forall x v, share_map sel !! x = Some v ->
     exists i, sel !! i = Some v /\ v <> [] /\ b2z x = Z.of_nat i + 1) /\
  size (share_map sel) = count sel.
Proof.
  intros Hlen. destruct (share_map_loop sel 0 ∅) as [H1 H2]; [lia|by intros x v ?%lookup_empty_Some|].
  split; [|by rewrite map_size_empty in H2].
  intros x v Hx. destruct (H1 x v Hx) as [?%lookup_empty_Some|?]; done.
Qed.

Section Keys.
Context (HMAC : bytes -> bytes -> bytes) (CTR : bytes -> nat -> byte) {SB : SecretBox}.
Context (iter : gmap byte bytes -> nat -> list (byte * bytes)).

Definition shamirCombine (shares : list bytes) : res bytes :=
  match shares with
  | [share] => Ok share
  | _ => Combine (iter (share_map shares))
  end.

(** ** Boxes *)

Definition nonce : bytes := replicate 24 x00.

Definition box (key plaintext : bytes) : res bytes :=
  if decide (length key <> KEY_LENGTH_BYTES) then Err "invalid key length"
  else Ok (sb_seal plaintext nonce key).

Definition unbox (key box : bytes) : res bytes :=
  if decide (length key <> KEY_LENGTH_BYTES) then Err "invalid key length"
  else match sb_open box nonce key with
       | Some plaintext => Ok plaintext
       | None => Err "unbox failed"
       end.

(** ** Key derivation *)

Definition deriveKeyHKDF (masterKey : bytes) (context : list bytes) : bytes :=
  HMAC masterKey (concat context ++ [x01]).

Definition deriveSLOK (scheme : KeyScheme) (ref : slokReference) : SLOK :=
  let timeBytes := le_store 8 (u64 (i64 (Time ref))) in
  let key := deriveKeyHKDF (MasterKey scheme)
               [PropagationChannelID ref; SeedSpecID ref; timeBytes] in
  let id := deriveKeyHKDF (MasterKey scheme) [key] in
  {| ID := id; Key := key |}.

(** ** Dividing a key *)

(** What [divideKey] reads and updates: the key material left and [nextSLOKTime]. *)
Record kstate := { ks_reader : bytes; ks_time : Z }.

Definition on_reader {A} (m : stres bytes A) : stres kstate A := fun s =>
  match m (ks_reader s) with
  | Ok (a, r) => Ok (a, {| ks_reader := r; ks_time := ks_time s |})
  | Err e => Err e
  | Panic e => Panic e
  | NoFuel => NoFuel
  end.

Definition get_time : stres kstate Z := fun s => Ok (ks_time s, s).
Definition add_time (d : Z) : stres kstate unit := fun s =>
  Ok (tt, {| ks_reader := ks_reader s; ks_time := ks_time s + d |}).

Section Divide.
Context (scheme : KeyScheme) (propagationChannelID : bytes).

Definition slok_at (seedSpecID : bytes) (t : Z) : SLOK :=
  deriveSLOK scheme {| PropagationChannelID := propagationChannelID;
                       SeedSpecID := seedSpecID; Time := t |}.

(** The loop over the seed specs: the share at the index of each spec is boxed
    with the SLOK of the spec. *)
Fixpoint seed_spec_loop (t : Z) (ids shares : list bytes) : res (list bytes * list bytes) :=
  match ids with
  | [] => Ok ([], [])
  | seedSpecID :: ids =>
      let slok := slok_at seedSpecID t in
      share ← res_of_option "index out of range" (head shares);
      boxedShare ← box (Key slok) share;
      '(boxedShares, slokIDs) ← seed_spec_loop t ids (tail shares);
      Ok (boxedShare :: boxedShares, ID slok :: slokIDs)
  end.

Definition divideKeyWithSeedSpecSLOKs (key : bytes) : stres kstate KeyShares :=
  shares ← on_reader (shamirSplit key (Z.of_nat (length (SeedSpecIDs scheme)))
                        (SeedSpecThreshold scheme));
  t ← get_time;
  '(boxedShares, slokIDs) ← st_lift (seed_spec_loop t (SeedSpecIDs scheme) shares);
  mret (mkKeyShares (SeedSpecThreshold scheme) boxedShares slokIDs []).

(** The loop over the shares; [sub] divides the key drawn for a share. *)
Definition divide_loop (sub : bytes -> stres kstate KeyShares)
  : list bytes -> stres kstate (list bytes * list KeyShares) :=
  fix loop (shares : list bytes) :=
    match shares with
    | [] => mret ([], [])
    | share :: shares =>
        shareKey ← on_reader (ReadFull KEY_LENGTH_BYTES);
        keyShare ← sub shareKey;
        boxedShare ← st_lift (box shareKey share);
        '(boxedShares, keyShares) ← loop shares;
        mret (boxedShare :: boxedShares, keyShare :: keyShares)
    end.

(** [keySplits] is given from the last level, the one the code takes first, to
    the first; no level is [keySplits[-1]]. *)
Fixpoint divideKey_levels (keySplits : list KeySplit) (key : bytes) : stres kstate KeyShares :=
  match keySplits with
  | [] => st_lift (Panic "index out of range")
  | keySplit :: lower =>
      shares ← on_reader (shamirSplit key (Total keySplit) (Threshold keySplit));
      '(boxedShares, keyShares) ← divide_loop (fun shareKey =>
          match lower with
          | [] =>
              keyShare ← divideKeyWithSeedSpecSLOKs shareKey;
              _ ← add_time (SeedPeriodNanoseconds scheme);
              mret keyShare
          | _ => divideKey_levels lower shareKey
          end) shares;
      mret (mkKeyShares (Threshold keySplit) boxedShares [] keyShares)
  end.

Definition divideKey (key : bytes) (keySplits : list KeySplit) : stres kstate KeyShares :=
  divideKey_levels (rev keySplits) key.

(** The number of seeds of [total] and [threshold] pairs, 16 bytes each. *)
Definition splitStructure : bytes :=
  le_store 8 (u64 (Z.of_nat (length (SeedSpecIDs scheme)))) ++
  le_store 8 (u64 (SeedSpecThreshold scheme)) ++
  concat (map (fun keySplit => le_store 8 (u64 (Total keySplit)) ++
                               le_store 8 (u64 (Threshold keySplit)))
            (SeedPeriodKeySplits scheme)).

(** The first [len] bytes of the stream, which has no end. *)
Definition newSeededKeyMaterialReader (len : nat) (seed : bytes) : res bytes :=
  if decide (length seed <> KEY_LENGTH_BYTES) then Err "invalid key length"
  else Ok (source (CTR seed) 0 len).

(** The texts "osl-file-key" and "osl-file-split-key-material-seed". *)
Definition osl_file_key : bytes := map z2b
  [111; 115; 108; 45; 102; 105; 108; 101; 45; 107; 101; 121].
Definition osl_file_split_key_material_seed : bytes := map z2b
  [111; 115; 108; 45; 102; 105; 108; 101; 45; 115; 112; 108; 105; 116; 45; 107; 101; 121;
   45; 109; 97; 116; 101; 114; 105; 97; 108; 45; 115; 101; 101; 100].

Definition file_key (oslID : bytes) : bytes :=
  deriveKeyHKDF (MasterKey scheme) [splitStructure; osl_file_key; oslID].

Definition makeOSLFileSpec (len : nat) (firstSLOKTime : Z) : res (bytes * OSLFileSpec) :=
  firstID ← res_of_option "index out of range" (head (SeedSpecIDs scheme));
  let oslID := ID (slok_at firstID firstSLOKTime) in
  let fileKey := file_key oslID in
  let splitKeyMaterialSeed :=
    deriveKeyHKDF (MasterKey scheme) [splitStructure; osl_file_split_key_material_seed; oslID] in
  keyMaterialReader ← newSeededKeyMaterialReader len splitKeyMaterialSeed;
  '(keyShares, _) ← divideKey fileKey (SeedPeriodKeySplits scheme)
    {| ks_reader := keyMaterialReader; ks_time := firstSLOKTime |};
  Ok (fileKey, {| fs_ID := oslID; fs_KeyShares := keyShares; fs_MD5Sum := [] |}).

End Divide.

(** ** Reassembling a key *)

Section Reassemble.
(** [SLOKLookup]: the key a client holds for a SLOK ID, [None] for nil. *)
Context (lookup : bytes -> option bytes).

(** The two loops of [reassembleKey]: [get] gives the key of an item when it is
    available.  The loop stops once [threshold] shares are found; the slots it
    does not fill stay nil. *)
Definition collect {A} (get : A -> res (option bytes)) (unboxKey : bool) (threshold : Z)
  : list A -> list bytes -> Z -> res (Z * list bytes) :=
  fix loop (items : list A) (boxedShares : list bytes) (shareCount : Z) :=
    match items with
    | [] => Ok (shareCount, map (fun _ => []) boxedShares)
    | item :: items =>
        if bool_decide (shareCount < threshold) then
          key ← get item;
          match key with
          | None =>
              '(n, shares) ← loop items (tail boxedShares) shareCount;
              Ok (n, [] :: shares)
          | Some key =>
              share ← (if unboxKey then
                         boxed ← res_of_option "index out of range" (head boxedShares);
                         unbox key boxed
                       else Ok []);
              '(n, shares) ← loop items (tail boxedShares) (shareCount + 1);
              Ok (n, share :: shares)
          end
        else Ok (shareCount, map (fun _ => []) boxedShares)
    end.

Definition unexpected_format (boxedShares slokIDs : list bytes) (keyShares : list KeyShares) : bool :=
  (bool_decide (0 < length slokIDs)%nat && bool_decide (0 < length keyShares)%nat) ||
  (bool_decide (0 < length slokIDs)%nat && bool_decide (length slokIDs <> length boxedShares)) ||
  (bool_decide (0 < length keyShares)%nat && bool_decide (length keyShares <> length boxedShares)).

Fixpoint reassembleKey (unboxKey : bool) (ks : KeyShares) : res (bool * bytes) :=
  match ks with
  | mkKeyShares threshold boxedShares slokIDs keyShares =>
      if unexpected_format boxedShares slokIDs keyShares then Err "unexpected KeyShares format"
      else
        '(shareCount, shares) ←
          (if bool_decide (0 < length slokIDs)%nat then
             collect (fun id => Ok (lookup id)) unboxKey threshold slokIDs boxedShares 0
           else
             collect (fun child => '(ok, key) ← reassembleKey unboxKey child;
                                   Ok (if (ok : bool) then Some key else None))
               unboxKey threshold keyShares boxedShares 0);
        if bool_decide (shareCount < threshold) then Ok (false, [])
        else if negb unboxKey then Ok (true, [])
        else
          joinedKey ← shamirCombine shares;
          Ok (true, joinedKey)
  end.

Definition ReassembleOSLKey (fileSpec : OSLFileSpec) : res (bool * bytes) :=
  '(ok, fileKey) ← reassembleKey true (fs_KeyShares fileSpec);
  if negb ok then Ok (false, [])
  else if decide (length fileKey <> KEY_LENGTH_BYTES) then Err "invalid key length"
  else Ok (true, fileKey).

(** The specification: a node is seeded when at least its threshold of SLOKs are
    held, or of children seeded. *)
Fixpoint seeded (ks : KeyShares) : bool :=
  match ks with
  | mkKeyShares threshold _ slokIDs keyShares =>
      if bool_decide (0 < length slokIDs)%nat then
        threshold <=? Z.of_nat (length (filter (fun id => is_Some (lookup id)) slokIDs))
      else
        threshold <=? fold_right (fun child n => (if seeded child then 1 else 0) + n) 0 keyShares
  end.

End Reassemble.

(** ** Splitting and combining with the helpers *)

Hypothesis iter_perm : forall m i, iter m i ≡ₚ map_to_list m.

(** [shares] determine [secret] from any [threshold] of them. *)
Definition determines (secret : bytes) (threshold : Z) (shares : list bytes) : Prop :=
  1 <= threshold <= Z.of_nat (length shares) /\ Z.of_nat (length shares) <= 254 /\
  Forall (fun s => s <> []) shares /\
  forall sel, selection sel shares -> threshold <= Z.of_nat (count sel) ->
    shamirCombine sel = Ok secret.

Lemma isValidShamirSplit_spec total threshold :
  isValidShamirSplit total threshold = true <-> 1 <= threshold <= total /\ total <= 254.
Proof.
  unfold isValidShamirSplit.
  destruct (bool_decide_reflect (total < 1)), (bool_decide_reflect (254 < total)),
    (bool_decide_reflect (threshold < 1)), (bool_decide_reflect (total < threshold));
    simpl; split; try done; lia.
Qed.

Lemma combine_map sel secret :
  Combine (iter (share_map sel)) = Ok secret -> (length sel <> 1)%nat ->
  shamirCombine sel = Ok secret.
Proof. destruct sel as [|a [|b sel]]; cbn [length]; [done|lia|done]. Qed.

Lemma count_pos sel : (0 < count sel)%nat -> (length sel <= 254)%nat -> share_map sel <> ∅.
Proof.
  intros Hc Hl E. destruct (share_map_spec sel Hl) as [_ H].
  rewrite E, map_size_empty in H. lia.
Qed.

Lemma shamirSplit_one_determines secret total :
  1 <= total <= 254 -> secret <> [] ->
  determines secret 1 (replicate (Z.to_nat total) secret).
Proof.
  intros Ht Hs. unfold determines. rewrite length_replicate. split_and!; [lia..| |].
  { by apply Forall_replicate. }
  intros sel Hsel Hc. pose proof (Forall2_length _ _ _ Hsel) as Hl. rewrite length_replicate in Hl.
  assert (forall i v, sel !! i = Some v -> v <> [] -> v = secret) as Hv.
  { intros i v Hi Hne. destruct (Forall2_lookup_l _ _ _ _ _ Hsel Hi) as (b & Hb & [?| ->]); [done|].
    apply lookup_replicate in Hb as [-> _]. done. }
  destruct (decide (length sel = 1)%nat) as [E|E].
  - destruct sel as [|a [|]]; try discriminate E. cbn. f_equal. apply (Hv 0%nat); [done|].
    intros ->. unfold count in Hc. simpl in Hc. lia.
  - apply combine_map; [|done]. apply (combine_constant secret (share_map sel)); [|
      |intros; apply iter_perm].
    + apply count_pos; lia.
    + intros x v Hx. destruct (share_map_spec sel ltac:(lia)) as [H _].
      destruct (H x v Hx) as (i & Hi & Hne & _). eauto.
Qed.

Lemma shamirSplit_many_determines secret total threshold r shareMap r' :
  1 < threshold <= total -> total <= 254 -> secret <> [] ->
  SplitUsingReader 255 (z2b total) (z2b threshold) secret r = Ok (shareMap, r') ->
  determines secret threshold
    (map (fun i => default [] (shareMap !! z2b (b2z (z2b (Z.of_nat i)) + 1))) (seq 0 (Z.to_nat total))).
Proof.
  intros Ht Ht2 Hs Hsplit.
  assert (b2z (z2b total) = total) as Et by (rewrite b2z_z2b; apply Z.mod_small; lia).
  assert (b2z (z2b threshold) = threshold) as Eth by (rewrite b2z_z2b; apply Z.mod_small; lia).
  unfold determines. rewrite length_map, length_seq. split_and!; [lia..| |].
  - apply Forall_map, Forall_forall. intros i Hi%elem_of_seq.
    destruct (split_share_length _ _ _ _ _ _ _ (z2b (b2z (z2b (Z.of_nat i)) + 1)) Hsplit Hs)
      as (v & -> & Hv); [rewrite z2b_index by lia; lia|].
    simpl. intros ->. by destruct secret.
  - intros sel Hsel Hc. pose proof (Forall2_length _ _ _ Hsel) as Hl.
    rewrite length_map, length_seq in Hl. apply combine_map; [|lia].
    destruct (share_map_spec sel ltac:(lia)) as [Hmap Hsize].
    apply (combine_sub _ _ _ _ _ _ _ (share_map sel) _ Hsplit); [| |intros; apply iter_perm].
    + apply map_subseteq_spec. intros x v Hx. destruct (Hmap x v Hx) as (i & Hi & Hne & Ex).
      destruct (Forall2_lookup_l _ _ _ _ _ Hsel Hi) as (b & Hb & [?| <-]); [done|].
      rewrite list_lookup_fmap in Hb. apply fmap_Some in Hb as (j & [-> Hj]%lookup_seq & Hb).
      simpl in Hb. replace (z2b (b2z (z2b (Z.of_nat i)) + 1)) with x in Hb;
        [by destruct (shareMap !! x); simplify_eq/=|].
      apply b2z_inj. rewrite z2b_index; lia.
    + rewrite Hsize, Eth. done.
Qed.

Lemma shamirSplit_spec secret total threshold r shares r' :
  shamirSplit secret total threshold r = Ok (shares, r') -> secret <> [] ->
  length shares = Z.to_nat total /\ determines secret threshold shares.
Proof.
  intros H Hs. unfold shamirSplit in H.
  destruct (isValidShamirSplit total threshold) eqn:Ev; [|done].
  apply isValidShamirSplit_spec in Ev. cbn [negb] in H. case_bool_decide as E1.
  - injection H as <- <-. subst. rewrite length_replicate.
    split; [done|]. apply shamirSplit_one_determines; [lia|done].
  - apply stres_bind_ok in H as (shareMap & s1 & Hsplit & [= <- <-]).
    rewrite length_map, length_seq. split; [done|].
    eapply shamirSplit_many_determines; [lia..|done|exact Hsplit].
Qed.

(** ** Collecting shares *)

Lemma box_unbox key share boxed : box key share = Ok boxed -> unbox key boxed = Ok share.
Proof.
  unfold box, unbox. destruct (decide _); [done|]. intros [= <-]. by rewrite sb_open_seal.
Qed.

Definition count_av {A} (av : A -> bool) (items : list A) : Z :=
  fold_right (fun item n => (if av item then 1 else 0) + n) 0 items.

Lemma count_av_nonneg {A} (av : A -> bool) items : 0 <= count_av av items.
Proof. induction items as [|a items IH]; simpl; [lia|]. destruct (av a); lia. Qed.

Lemma count_av_filter (P : bytes -> Prop) `{forall x, Decision (P x)} ids :
  Z.of_nat (length (filter P ids)) = count_av (fun id => bool_decide (P id)) ids.
Proof.
  induction ids as [|id ids IH]; [done|]. rewrite filter_cons. cbn [count_av fold_right].
  fold (count_av (fun id => bool_decide (P id)) ids).
  destruct (decide (P id)); [rewrite bool_decide_eq_true_2 by done|rewrite bool_decide_eq_false_2 by done];
    cbn [length]; lia.
Qed.

Lemma selection_nils (boxed shares : list bytes) :
  length boxed = length shares -> selection (map (fun _ => []) boxed) shares /\
  count (map (fun _ : bytes => []) boxed) = 0%nat.
Proof.
  revert shares. induction boxed as [|b boxed IH]; intros [|s shares] H; try discriminate H.
  { split; [constructor|done]. }
  injection H as H. destruct (IH _ H) as [H1 H2]. split; [constructor; [by left|done]|done].
Qed.

(** [item] gives the key of [boxed] exactly when it is available. *)
Definition gives {A} (get : A -> res (option bytes)) (unboxKey : bool) (av : A -> bool)
    (item : A) (boxed share : bytes) : Prop :=
  if av item then exists key, get item = Ok (Some key) /\ (unboxKey = true -> unbox key boxed = Ok share)
  else get item = Ok None.

Lemma collect_cons {A} (get : A -> res (option bytes)) unboxKey threshold item items boxed c :
  collect get unboxKey threshold (item :: items) boxed c =
  if bool_decide (c < threshold) then
    key ← get item;
    match key with
    | None =>
        '(n, shares) ← collect get unboxKey threshold items (tail boxed) c;
        Ok (n, [] :: shares)
    | Some key =>
        share ← (if unboxKey then
                   b ← res_of_option "index out of range" (head boxed); unbox key b
                 else Ok []);
        '(n, shares) ← collect get unboxKey threshold items (tail boxed) (c + 1);
        Ok (n, share :: shares)
    end
  else Ok (c, map (fun _ => []) boxed).
Proof. done. Qed.

Lemma collect_spec {A} get unboxKey threshold av (items : list A) boxed shares c :
  Forall3 (gives get unboxKey av) items boxed shares -> Forall (fun s => s <> []) shares ->
  exists n sel, collect get unboxKey threshold items boxed c = Ok (n, sel) /\
    (threshold <= n <-> threshold <= c + count_av av items) /\
    (unboxKey = true -> selection sel shares /\ Z.of_nat (count sel) = n - c).
Proof.
  intros H. revert c. induction H as [|item b share items boxed shares Hi H IH]; intros c Hne.
  - exists c, []. cbn. split_and!; [done|lia..|intros _]. split; [constructor|]. cbn. lia.
  - inversion Hne as [|? ? Hshare Hne']; subst. rewrite collect_cons.
    pose proof (count_av_nonneg av items). cbn [count_av fold_right].
    fold (count_av av items). case_bool_decide as Hc.
    2:{ eexists _, _. split; [reflexivity|]. split; [destruct (av item); lia|]. intros _.
        apply Forall3_length_lr in H as Hl1. apply Forall3_length_lm in H as Hl2.
        destruct (selection_nils (b :: boxed) (share :: shares)) as [H1 H2];
          [cbn [length]; congruence|].
        split; [done|]. rewrite H2. lia. }
    unfold gives in Hi. cbn [tail].
    destruct (av item).
    + destruct Hi as (key & Hget & Hun). rewrite Hget. cbn [mbind res_mbind head res_of_option].
      destruct (IH (c + 1) Hne') as (n & sel & Hrun & Hth & Hsel).
      destruct unboxKey.
      * rewrite (Hun eq_refl). cbn [mbind res_mbind]. rewrite Hrun.
        cbn [mbind res_mbind]. eexists _, _. split; [reflexivity|]. split; [rewrite Hth; lia|].
        intros _. destruct (Hsel eq_refl) as [H1 H2]. split; [constructor; [by right|done]|].
        unfold count in *. rewrite filter_cons_True by done. cbn [length]. lia.
      * cbn [mbind res_mbind]. rewrite Hrun.
        cbn [mbind res_mbind]. eexists _, _. split; [reflexivity|]. split; [rewrite Hth; lia|done].
    + rewrite Hi. cbn [mbind res_mbind].
      destruct (IH c Hne') as (n & sel & Hrun & Hth & Hsel). rewrite Hrun.
      cbn [mbind res_mbind]. eexists _, _. split; [reflexivity|]. split; [rewrite Hth; lia|].
      intros Hu. destruct (Hsel Hu) as [H1 H2]. split; [constructor; [by left|done]|].
      unfold count in *. rewrite filter_cons_False by (intros H'; by apply H'). done.
Qed.

(** ** Reassembly of a divided key *)

Hypothesis HMAC_length : forall k m, length (HMAC k m) = KEY_LENGTH_BYTES.

#[local] Opaque deriveSLOK.

Section Division.
Context (scheme : KeyScheme) (propagationChannelID : bytes) (lookup : bytes -> option bytes).

(** What the client holds under the ID of one of the scheme's SLOKs is the key of
    that SLOK: it stores only SLOKs it was issued, and no two have the same ID. *)
Hypothesis lookup_sound : forall ref key,
  lookup (ID (deriveSLOK scheme ref)) = Some key -> key = Key (deriveSLOK scheme ref).

(** Both passes over the node agree with the specification, and the second one
    returns the key divided. *)
Definition reassembles (key : bytes) (ks : KeyShares) : Prop :=
  forall unboxKey, reassembleKey lookup unboxKey ks =
    Ok (seeded lookup ks, if seeded lookup ks && unboxKey then key else []).

(** The part of [reassembleKey] after the loop. *)
Lemma reassemble_finish key threshold shares unboxKey (r : res (Z * list bytes)) total :
  determines key threshold shares ->
  (exists n sel, r = Ok (n, sel) /\ (threshold <= n <-> threshold <= total) /\
     (unboxKey = true -> selection sel shares /\ Z.of_nat (count sel) = n)) ->
  ('(shareCount, shares) ← r;
   if bool_decide (shareCount < threshold) then Ok (false, [])
   else if negb unboxKey then Ok (true, [])
   else joinedKey ← shamirCombine shares; Ok (true, joinedKey)) =
  Ok (threshold <=? total, if (threshold <=? total) && unboxKey then key else []).
Proof.
  intros (_ & _ & _ & Hdet) (n & sel & -> & Hth & Hsel). cbn [mbind res_mbind].
  case_bool_decide as Hn.
  - by rewrite (proj2 (Z.leb_gt threshold total)) by lia.
  - rewrite (proj2 (Z.leb_le threshold total)) by lia. destruct unboxKey; [|done].
    destruct (Hsel eq_refl) as [H1 H2]. cbn [negb andb].
    by rewrite (Hdet sel H1) by lia.
Qed.

Lemma format_leaf (boxed ids : list bytes) :
  length ids = length boxed -> unexpected_format boxed ids [] = false.
Proof.
  intros H. unfold unexpected_format. rewrite H. cbn [length].
  rewrite (bool_decide_eq_false_2 (0 < 0)%nat), (bool_decide_eq_false_2 (length boxed <> length boxed))
    by (lia || tauto). by rewrite !andb_false_r.
Qed.

Lemma format_node (boxed : list bytes) (kss : list KeyShares) :
  length kss = length boxed -> unexpected_format boxed [] kss = false.
Proof.
  intros H. unfold unexpected_format. rewrite H. cbn [length].
  rewrite (bool_decide_eq_false_2 (0 < 0)%nat), (bool_decide_eq_false_2 (length boxed <> length boxed))
    by (lia || tauto). by rewrite !andb_false_r.
Qed.

Lemma seed_spec_loop_spec t ids shares boxed slokIDs :
  seed_spec_loop scheme propagationChannelID t ids shares = Ok (boxed, slokIDs) ->
  length shares = length ids -> forall unboxKey,
  Forall3 (gives (fun id => Ok (lookup id)) unboxKey (fun id => bool_decide (is_Some (lookup id))))
    slokIDs boxed shares.
Proof.
  revert shares boxed slokIDs. induction ids as [|id ids IH]; intros [|share shares] boxed slokIDs H Hl;
    try discriminate Hl.
  { injection H as <- <-. constructor. }
  injection Hl as Hl. cbn [seed_spec_loop head res_of_option mbind res_mbind tail] in H.
  destruct (box _ share) as [b| | |] eqn:Eb; try discriminate H. cbn [mbind res_mbind] in H.
  destruct (seed_spec_loop _ _ t ids shares) as [[bs sids]| | |] eqn:E; try discriminate H.
  injection H as <- <-. intros unboxKey. constructor; [|by eapply IH].
  unfold gives. case_bool_decide as Hs; [destruct Hs as [key Hk]|].
  - exists key. rewrite Hk. split; [done|]. intros _. unfold slok_at in *.
    rewrite (lookup_sound _ _ Hk). by apply box_unbox.
  - by destruct (lookup _); [destruct Hs|].
Qed.

Lemma leaf_reassembles key s ks s' :
  divideKeyWithSeedSpecSLOKs scheme propagationChannelID key s = Ok (ks, s') -> key <> [] ->
  reassembles key ks.
Proof.
  intros H Hkey. unfold divideKeyWithSeedSpecSLOKs in H. stres_inv H.
  unfold on_reader in Hrun. destruct (shamirSplit _ _ _ (ks_reader s)) as [[shares r1]| | |] eqn:Esp;
    try discriminate Hrun. injection Hrun as <- <-.
  unfold get_time in Hrun0. injection Hrun0 as <- <-.
  unfold st_lift in Hrun1. destruct (seed_spec_loop _ _ _ _ _) as [[bs sids]| | |] eqn:Elp;
    try discriminate Hrun1. injection Hrun1 as <- <-. injection H as <- <-.
  apply shamirSplit_spec in Esp as [Hlen Hdet]; [|done]. rewrite Nat2Z.id in Hlen.
  intros unboxKey. pose proof (seed_spec_loop_spec _ _ _ _ _ Elp Hlen unboxKey) as H3.
  pose proof (Forall3_length_lm _ _ _ _ H3) as L1. pose proof (Forall3_length_lr _ _ _ _ H3) as L2.
  pose proof Hdet as (Ht & _ & Hne & _).
  cbn [reassembleKey seeded]. rewrite format_leaf by done.
  rewrite (bool_decide_eq_true_2 (0 < length sids)%nat) by lia.
  rewrite count_av_filter. apply (reassemble_finish _ _ shares); [done|].
  destruct (collect_spec _ unboxKey (SeedSpecThreshold scheme) _ _ _ _ 0 H3 Hne)
    as (n & sel & Hc & Hth & Hsel).
  exists n, sel. split; [exact Hc|]. split; [exact Hth|]. by rewrite Z.sub_0_r in Hsel.
Qed.

(** The loop over the shares of a node, for any division of the keys it draws
    that can be reassembled. *)
Lemma divide_loop_spec sub shares s boxed kss s' :
  (forall k s ks s', length k = KEY_LENGTH_BYTES -> sub k s = Ok (ks, s') -> reassembles k ks) ->
  divide_loop sub shares s = Ok ((boxed, kss), s') ->
  forall unboxKey, Forall3 (gives (fun child => '(ok, key) ← reassembleKey lookup unboxKey child;
                                    Ok (if (ok : bool) then Some key else None))
                      unboxKey (seeded lookup)) kss boxed shares.
Proof.
  intros Hsub. revert s boxed kss s'. induction shares as [|share shares IH]; intros s boxed kss s' H.
  { injection H as <- <- <-. constructor. }
  cbn [divide_loop] in H. fold (divide_loop sub) in H. stres_inv H.
  unfold on_reader, ReadFull in Hrun. destruct (decide _) as [Hle|]; [|done].
  injection Hrun as <- <-. unfold st_lift in Hrun1.
  destruct (box _ share) as [b| | |] eqn:Eb; try discriminate Hrun1. injection Hrun1 as <- <-.
  destruct v2 as [bs kss']. injection H as <- <- <-. intros unboxKey. constructor; [|by eapply IH].
  apply Hsub in Hrun0; [|by rewrite length_take_le]. unfold gives. rewrite (Hrun0 unboxKey).
  cbn [mbind res_mbind]. destruct (seeded lookup v0); [|done].
  eexists. split; [reflexivity|]. intros ->. by apply box_unbox.
Qed.

Lemma node_reassembles key threshold shares boxed kss :
  determines key threshold shares ->
  (forall unboxKey, Forall3 (gives (fun child => '(ok, key) ← reassembleKey lookup unboxKey child;
                                    Ok (if (ok : bool) then Some key else None))
                      unboxKey (seeded lookup)) kss boxed shares) ->
  reassembles key (mkKeyShares threshold boxed [] kss).
Proof.
  intros Hdet H unboxKey. specialize (H unboxKey). pose proof Hdet as (Ht & _ & Hne & _).
  pose proof (Forall3_length_lm _ _ _ _ H) as L1.
  cbn [reassembleKey seeded]. rewrite format_node by done.
  rewrite (bool_decide_eq_false_2 (0 < length [])%nat) by (cbn; lia).
  apply (reassemble_finish _ _ shares); [done|].
  destruct (collect_spec _ unboxKey threshold _ _ _ _ 0 H Hne) as (n & sel & Hc & Hth & Hsel).
  exists n, sel. split; [exact Hc|]. split; [exact Hth|]. by rewrite Z.sub_0_r in Hsel.
Qed.

Lemma divideKey_levels_reassembles levels key s ks s' :
  divideKey_levels scheme propagationChannelID levels key s = Ok (ks, s') ->
  length key = KEY_LENGTH_BYTES -> reassembles key ks.
Proof.
  revert key s ks s'. induction levels as [|keySplit lower IH]; intros key s ks s' H Hkey; [done|].
  cbn [divideKey_levels] in H. stres_inv H. destruct v0 as [boxed kss]. injection H as <- <-.
  unfold on_reader in Hrun. destruct (shamirSplit _ _ _ (ks_reader s)) as [[shares r1]| | |] eqn:Esp;
    try discriminate Hrun. injection Hrun as <- <-.
  assert (forall k : bytes, length k = KEY_LENGTH_BYTES -> k <> []) as Hnn by (by intros k Hk ->).
  apply shamirSplit_spec in Esp as [Hlen Hdet]; [|by apply Hnn].
  apply (node_reassembles _ _ shares); [done|]. eapply divide_loop_spec; [|exact Hrun0].
  intros k sa ks sb Hk Hsub. cbn beta in Hsub. destruct lower as [|ks1 lower]; [|by eapply IH].
  stres_inv Hsub. injection Hsub as <- <-. eapply leaf_reassembles; [exact Hrun|by apply Hnn].
Qed.

End Division.

(** ** The SLOKs of a tree *)

(** The SLOK IDs of the leaves, from left to right. *)
Fixpoint leaves (ks : KeyShares) : list (list bytes) :=
  match ks with
  | mkKeyShares _ _ slokIDs keyShares =>
      if bool_decide (0 < length slokIDs)%nat then [slokIDs] else flat_map leaves keyShares
  end.

Section Shape.
Context (scheme : KeyScheme) (propagationChannelID : bytes).

(** The IDs issued for the [n] seed periods from [t] on. *)
Definition period_ids (t : Z) (n : nat) : list (list bytes) :=
  map (fun j => map (fun id => ID (slok_at scheme propagationChannelID id
                        (t + Z.of_nat j * SeedPeriodNanoseconds scheme))) (SeedSpecIDs scheme))
    (seq 0 n).

(** The number of seed periods of a list of levels. *)
Definition periods (levels : list KeySplit) : nat :=
  fold_right (fun keySplit n => Z.to_nat (Total keySplit) * n)%nat 1%nat levels.

Lemma period_ids_app t a b :
  period_ids t (a + b) =
  period_ids t a ++ period_ids (t + Z.of_nat a * SeedPeriodNanoseconds scheme) b.
Proof.
  unfold period_ids. rewrite seq_app, map_app. f_equal. rewrite Nat.add_0_l.
  assert (seq a b = map (Nat.add a) (seq 0 b)) as ->.
  { pose proof (fmap_add_seq a 0 b) as E. by rewrite Nat.add_0_r in E. }
  rewrite map_map. apply map_ext. intros j. apply map_ext. intros id. do 2 f_equal. lia.
Qed.

(** [ks] covers [n] periods from the time in [s]. *)
Definition covers (n : nat) (s s' : kstate) (l : list (list bytes)) : Prop :=
  l = period_ids (ks_time s) n /\
  ks_time s' = ks_time s + Z.of_nat n * SeedPeriodNanoseconds scheme.

Lemma leaf_covers key s ks s' :
  divideKeyWithSeedSpecSLOKs scheme propagationChannelID key s = Ok (ks, s') -> key <> [] ->
  leaves ks = period_ids (ks_time s) 1 /\ ks_time s' = ks_time s.
Proof.
  intros H Hkey. unfold divideKeyWithSeedSpecSLOKs in H. stres_inv H.
  unfold on_reader in Hrun. destruct (shamirSplit _ _ _ (ks_reader s)) as [[shares r1]| | |] eqn:Esp;
    try discriminate Hrun. injection Hrun as <- <-.
  unfold get_time in Hrun0. injection Hrun0 as <- <-.
  unfold st_lift in Hrun1. destruct (seed_spec_loop _ _ _ _ _) as [[bs sids]| | |] eqn:Elp;
    try discriminate Hrun1. injection Hrun1 as <- <-. injection H as <- <-.
  apply shamirSplit_spec in Esp as [Hlen (Ht & _)]; [|done]. rewrite Nat2Z.id in Hlen.
  assert (sids = map (fun id => ID (slok_at scheme propagationChannelID id (ks_time s)))
            (SeedSpecIDs scheme)) as ->.
  { clear -Elp. revert shares bs sids Elp. cbn [ks_time].
    induction (SeedSpecIDs scheme) as [|id ids IH]; intros shares bs sids H; cbn [seed_spec_loop] in H.
    - by injection H as <- <-.
    - apply res_bind_ok in H as (share & _ & (b & _ & ([bs' sids'] & Hrec & [= <- <-])%res_bind_ok)%res_bind_ok).
      cbn [map]. f_equal. by eapply IH. }
  cbn [leaves]. rewrite length_map, bool_decide_eq_true_2 by lia. split; [|done].
  unfold period_ids. cbn [seq map]. f_equal. apply map_ext. intros id. do 2 f_equal. lia.
Qed.

Lemma divide_loop_covers sub n shares s boxed kss s' :
  (forall k s ks s', length k = KEY_LENGTH_BYTES -> sub k s = Ok (ks, s') -> covers n s s' (leaves ks)) ->
  divide_loop sub shares s = Ok ((boxed, kss), s') ->
  covers (length shares * n) s s' (flat_map leaves kss).
Proof.
  intros Hsub. revert s boxed kss s'. induction shares as [|share shares IH]; intros s boxed kss s' H.
  { injection H as <- <- <-. unfold covers. cbn. split; [done|lia]. }
  cbn [divide_loop] in H. fold (divide_loop sub) in H. stres_inv H.
  unfold on_reader, ReadFull in Hrun. destruct (decide _) as [Hle|]; [|done].
  injection Hrun as <- <-. unfold st_lift in Hrun1.
  destruct (box _ share) as [b| | |] eqn:Eb; try discriminate Hrun1. injection Hrun1 as <- <-.
  destruct v2 as [bs kss']. injection H as <- <- <-.
  apply Hsub in Hrun0 as [H1 H2]; [|by rewrite length_take_le]. apply IH in Hrun2 as [H3 H4].
  cbn [ks_time] in *. unfold covers. cbn [flat_map length Nat.mul].
  rewrite period_ids_app, H1, H3, H2. split; [done|]. rewrite H4, H2. lia.
Qed.

Lemma divideKey_levels_covers levels key s ks s' :
  divideKey_levels scheme propagationChannelID levels key s = Ok (ks, s') ->
  length key = KEY_LENGTH_BYTES -> covers (periods levels) s s' (leaves ks).
Proof.
  revert key s ks s'. induction levels as [|keySplit lower IH]; intros key s ks s' H Hkey; [done|].
  cbn [divideKey_levels] in H. stres_inv H. destruct v0 as [boxed kss]. injection H as <- <-.
  unfold on_reader in Hrun. destruct (shamirSplit _ _ _ (ks_reader s)) as [[shares r1]| | |] eqn:Esp;
    try discriminate Hrun. injection Hrun as <- <-.
  assert (forall k : bytes, length k = KEY_LENGTH_BYTES -> k <> []) as Hnn by (by intros k Hk ->).
  apply shamirSplit_spec in Esp as [Hlen _]; [|by apply Hnn].
  cbn [periods fold_right leaves]. fold (periods lower).
  rewrite (bool_decide_eq_false_2 (0 < length [])%nat) by (cbn; lia). rewrite <- Hlen.
  eapply (divide_loop_covers _ _ _ {| ks_reader := r1; ks_time := ks_time s |}); [|exact Hrun0].
  intros k sa ks sb Hk Hsub. cbn beta in Hsub. destruct lower as [|ks1 lower]; [|by eapply IH].
  stres_inv Hsub. injection Hsub as <- <-. apply leaf_covers in Hrun as [H1 H2]; [|by apply Hnn].
  unfold add_time in Hrun1. injection Hrun1 as _ <-. unfold covers. cbn [periods fold_right ks_time].
  split; [done|]. rewrite H2. lia.
Qed.

End Shape.

(** ** The division returns

    A computation [yields] when, from any offset of an endless stream, it returns
    after reading some segment of it. *)

Section Yields.
Context (stream : nat -> byte).

Definition yields {A} (P : A -> Prop) (m : stres kstate A) : Prop :=
  forall o t, exists a len t', P a /\
    forall rest, m {| ks_reader := source stream o len ++ rest; ks_time := t |} =
                 Ok (a, {| ks_reader := rest; ks_time := t' |}).

Lemma yields_bind {A B} (P : A -> Prop) (Q : B -> Prop) (m : stres kstate A) (f : A -> stres kstate B) :
  yields P m -> (forall a, P a -> yields Q (f a)) -> yields Q (m ≫= f).
Proof.
  intros Hm Hf o t. destruct (Hm o t) as (a & l1 & t1 & Ha & H1).
  destruct (Hf a Ha (o + l1)%nat t1) as (b & l2 & t2 & Hb & H2).
  exists b, (l1 + l2)%nat, t2. split; [done|]. intros rest. apply stres_bind_ok.
  eexists _, _. rewrite source_app, <- app_assoc. split; [apply H1|apply H2].
Qed.

Lemma yields_lift {A} (P : A -> Prop) a : P a -> yields P (st_lift (Ok a)).
Proof. intros Ha o t. exists a, 0%nat, t. done. Qed.

Lemma yields_ret {A} (P : A -> Prop) (a : A) : P a -> yields P (mret a).
Proof. apply yields_lift. Qed.

Lemma yields_get_time (P : Z -> Prop) : (forall t, P t) -> yields P get_time.
Proof. intros HP o t. exists t, 0%nat, t. done. Qed.

Lemma yields_add_time d : yields (fun _ => True) (add_time d).
Proof. intros o t. exists tt, 0%nat, (t + d). done. Qed.

Lemma yields_ReadFull n : yields (fun k => length k = n) (on_reader (ReadFull n)).
Proof.
  intros o t. exists (source stream o n), n, t. split; [apply source_length|]. intros rest.
  unfold on_reader, ReadFull. cbn [ks_reader ks_time].
  rewrite decide_True by (rewrite length_app, source_length; lia).
  by rewrite take_app_length', drop_app_length' by (by rewrite source_length).
Qed.

Lemma yields_shamirSplit secret total threshold :
  productive stream -> isValidShamirSplit total threshold = true -> secret <> [] ->
  yields (fun shares => length shares = Z.to_nat total) (on_reader (shamirSplit secret total threshold)).
Proof.
  intros Hp Hv Hs o t.
  assert (exists shares len, forall rest,
    shamirSplit secret total threshold (source stream o len ++ rest) = Ok (shares, rest))
    as (shares & len & Hrun).
  { unfold shamirSplit. rewrite Hv. cbn [negb]. apply isValidShamirSplit_spec in Hv.
    case_bool_decide as E1; [by eexists _, 0%nat|].
    destruct (split_source 255 stream o (z2b total) (z2b threshold) secret Hp) as (sh & len & H).
    - rewrite b2z_z2b, Z.mod_small by lia. lia.
    - rewrite !b2z_z2b, !Z.mod_small by lia. lia.
    - done.
    - eexists _, len. intros rest. apply stres_bind_ok. eexists _, _. split; [apply H|reflexivity]. }
  exists shares, len, t. split.
  - specialize (Hrun []). by apply shamirSplit_spec in Hrun as [? _].
  - intros rest. unfold on_reader. cbn [ks_reader ks_time]. by rewrite Hrun.
Qed.

Lemma box_ok key share : length key = KEY_LENGTH_BYTES -> exists b, box key share = Ok b.
Proof. intros Hk. unfold box. rewrite decide_False by (by intros H). eauto. Qed.

Context (scheme : KeyScheme) (propagationChannelID : bytes).

#[local] Transparent deriveSLOK.
Lemma slok_key_length id t : length (Key (slok_at scheme propagationChannelID id t)) = KEY_LENGTH_BYTES.
Proof. unfold slok_at, deriveSLOK, deriveKeyHKDF. cbn [Key]. apply HMAC_length. Qed.
#[local] Opaque deriveSLOK.

Lemma seed_spec_loop_ok t ids shares :
  length shares = length ids ->
  exists r, seed_spec_loop scheme propagationChannelID t ids shares = Ok r.
Proof.
  revert shares. induction ids as [|id ids IH]; intros [|share shares] H; try discriminate H.
  { by eexists. }
  injection H as H. destruct (IH shares H) as [[bs sids] Hr].
  destruct (box_ok (Key (slok_at scheme propagationChannelID id t)) share) as [b Hb];
    [apply slok_key_length|].
  cbn [seed_spec_loop head res_of_option mbind res_mbind tail]. rewrite Hb. cbn [mbind res_mbind].
  rewrite Hr. by eexists.
Qed.

(** What [LoadConfig] has checked of a scheme. *)
Definition valid_scheme : Prop :=
  isValidShamirSplit (Z.of_nat (length (SeedSpecIDs scheme))) (SeedSpecThreshold scheme) = true /\
  (1 <= length (SeedPeriodKeySplits scheme))%nat /\
  Forall (fun ks => isValidShamirSplit (Total ks) (Threshold ks) = true) (SeedPeriodKeySplits scheme).

Lemma yields_leaf key :
  productive stream ->
  isValidShamirSplit (Z.of_nat (length (SeedSpecIDs scheme))) (SeedSpecThreshold scheme) = true ->
  key <> [] -> yields (fun _ => True) (divideKeyWithSeedSpecSLOKs scheme propagationChannelID key).
Proof.
  intros Hp Hv Hk. unfold divideKeyWithSeedSpecSLOKs.
  eapply yields_bind; [by apply yields_shamirSplit|]. intros shares Hl.
  eapply yields_bind; [by apply (yields_get_time (fun _ => True))|]. intros t _.
  rewrite Nat2Z.id in Hl. destruct (seed_spec_loop_ok t (SeedSpecIDs scheme) shares Hl) as [[bs sids] ->].
  eapply yields_bind; [by apply (yields_lift (fun _ => True))|]. intros [bs' sids'] _.
  by apply yields_ret.
Qed.

Lemma yields_divide_loop sub shares :
  (forall k, length k = KEY_LENGTH_BYTES -> yields (fun _ => True) (sub k)) ->
  yields (fun _ => True) (divide_loop sub shares).
Proof.
  intros Hsub. induction shares as [|share shares IH]; [by apply yields_ret|].
  cbn [divide_loop]. fold (divide_loop sub).
  eapply yields_bind; [apply yields_ReadFull|]. intros k Hk.
  eapply yields_bind; [by apply Hsub|]. intros ks _.
  destruct (box_ok k share Hk) as [b ->].
  eapply yields_bind; [by apply (yields_lift (fun _ => True))|]. intros b' _.
  eapply yields_bind; [exact IH|]. intros [bs kss] _. by apply yields_ret.
Qed.

Lemma yields_divideKey_levels levels key :
  productive stream -> levels <> [] ->
  isValidShamirSplit (Z.of_nat (length (SeedSpecIDs scheme))) (SeedSpecThreshold scheme) = true ->
  Forall (fun ks => isValidShamirSplit (Total ks) (Threshold ks) = true) levels ->
  length key = KEY_LENGTH_BYTES ->
  yields (fun _ => True) (divideKey_levels scheme propagationChannelID levels key).
Proof.
  intros Hp Hne Hs Hv. revert key. induction Hv as [|keySplit lower Hv Hvs IH]; intros key Hk; [done|].
  assert (forall k : bytes, length k = KEY_LENGTH_BYTES -> k <> []) as Hnn by (by intros k Hk' ->).
  cbn [divideKey_levels]. eapply yields_bind; [apply yields_shamirSplit; auto|]. intros shares _.
  eapply yields_bind; [apply (yields_divide_loop _ shares)|intros [bs kss] _; by apply yields_ret].
  intros k Hk'. destruct lower as [|ks1 lower]; [|by apply IH].
  eapply yields_bind; [by apply yields_leaf; auto|]. intros ks _.
  eapply yields_bind; [apply yields_add_time|]. intros _ _. by apply yields_ret.
Qed.

End Yields.

(** ** OSL file keys *)

Lemma periods_app l1 l2 : periods (l1 ++ l2) = (periods l1 * periods l2)%nat.
Proof.
  induction l1 as [|k l1 IH]; cbn [app periods fold_right]; [by rewrite Nat.mul_1_l|].
  fold (periods (l1 ++ l2)). fold (periods l1). by rewrite IH, Nat.mul_assoc.
Qed.

Lemma periods_rev levels : periods (rev levels) = periods levels.
Proof.
  induction levels as [|k levels IH]; [done|]. cbn [rev]. rewrite periods_app, IH.
  cbn [periods fold_right]. fold (periods levels). by rewrite Nat.mul_1_r, Nat.mul_comm.
Qed.

Lemma makeOSLFileSpec_run scheme pc len t fileKey spec :
  makeOSLFileSpec scheme pc len t = Ok (fileKey, spec) ->
  length fileKey = KEY_LENGTH_BYTES /\
  exists s s', ks_time s = t /\
    divideKey scheme pc fileKey (SeedPeriodKeySplits scheme) s = Ok (fs_KeyShares spec, s').
Proof.
  unfold makeOSLFileSpec. intros (id & _ & H)%res_bind_ok.
  apply res_bind_ok in H as (r & _ & H). apply res_bind_ok in H as ([ks s'] & Hd & [= <- <-]).
  split; [apply HMAC_length|]. eexists _, _. split; [|exact Hd]. done.
Qed.

Lemma makeOSLFileSpec_total scheme pc t :
  valid_scheme scheme -> (forall seed, productive (CTR seed)) ->
  exists len fileKey spec, forall len', (len <= len')%nat ->
    makeOSLFileSpec scheme pc len' t = Ok (fileKey, spec).
Proof.
  intros (Hs & Hn & Hv) Hp. unfold makeOSLFileSpec, newSeededKeyMaterialReader.
  destruct (SeedSpecIDs scheme) as [|id ids] eqn:Eids; [done|]. rewrite <- Eids in Hs.
  cbn [head res_of_option mbind res_mbind]. set (seed := deriveKeyHKDF _ _).
  set (key := file_key _ _).
  destruct (yields_divideKey_levels (CTR seed) scheme pc (rev (SeedPeriodKeySplits scheme)) key
    (Hp seed)) with (o := 0%nat) (t := t) as (ks & len & t' & _ & Hrun).
  - intros E. apply (f_equal length) in E. rewrite length_rev in E. cbn [length] in E. lia.
  - done.
  - by apply Forall_rev.
  - apply HMAC_length.
  - exists len. eexists _, _. intros len' Hle.
    rewrite decide_False by (intros H; apply H, HMAC_length). cbn [mbind res_mbind].
    replace len' with (len + (len' - len))%nat by lia. rewrite source_app. unfold divideKey.
    rewrite Hrun. cbn [mbind res_mbind]. reflexivity.
Qed.

(** For a scheme [LoadConfig] accepts, making the specification of an OSL
    file returns: the deterministic key material is an endless stream that keeps
    producing non-zero bytes, and a finite part of it is enough, the result not
    depending on how much more is available. *)
Theorem makeOSLFileSpec_returns scheme pc t :
  valid_scheme scheme -> (forall seed, productive (CTR seed)) ->
  exists len fileKey spec, forall len', (len <= len')%nat ->
    makeOSLFileSpec scheme pc len' t = Ok (fileKey, spec).
Proof. apply makeOSLFileSpec_total. Qed.

Lemma makeOSLFileSpec_leaves scheme pc len t fileKey spec :
  makeOSLFileSpec scheme pc len t = Ok (fileKey, spec) ->
  leaves (fs_KeyShares spec) = period_ids scheme pc t (periods (SeedPeriodKeySplits scheme)).
Proof.
  intros (Hk & s & s' & <- & Hd)%makeOSLFileSpec_run.
  apply divideKey_levels_covers in Hd as [H _]; [|done]. by rewrite periods_rev in H.
Qed.

(** The tree of an OSL covers consecutive seed periods: its leaves are, from
    left to right, the SLOK IDs of all the seed specs for each of the periods from
    the time of the OSL on, as many as the product of the totals of the key
    splits. *)
Theorem OSL_covers_periods scheme pc len t fileKey spec :
  makeOSLFileSpec scheme pc len t = Ok (fileKey, spec) ->
  leaves (fs_KeyShares spec) = period_ids scheme pc t (periods (SeedPeriodKeySplits scheme)).
Proof. apply makeOSLFileSpec_leaves. Qed.

Lemma reassembleKey_run scheme pc len t fileKey spec lookup unboxKey :
  makeOSLFileSpec scheme pc len t = Ok (fileKey, spec) ->
  (forall ref key, lookup (ID (deriveSLOK scheme ref)) = Some key ->
     key = Key (deriveSLOK scheme ref)) ->
  reassembleKey lookup unboxKey (fs_KeyShares spec) =
    Ok (seeded lookup (fs_KeyShares spec),
        if seeded lookup (fs_KeyShares spec) && unboxKey then fileKey else []).
Proof.
  intros (Hk & s & s' & _ & Hd)%makeOSLFileSpec_run Hl.
  by apply (divideKey_levels_reassembles scheme pc lookup Hl) in Hd.
Qed.

Lemma reassemble_run scheme pc len t fileKey spec lookup :
  makeOSLFileSpec scheme pc len t = Ok (fileKey, spec) ->
  (forall ref key, lookup (ID (deriveSLOK scheme ref)) = Some key ->
     key = Key (deriveSLOK scheme ref)) ->
  reassembleKey lookup false (fs_KeyShares spec) = Ok (seeded lookup (fs_KeyShares spec), []) /\
  ReassembleOSLKey lookup spec =
    Ok (if seeded lookup (fs_KeyShares spec) then (true, fileKey) else (false, [])).
Proof.
  intros Hmake Hl. pose proof (reassembleKey_run _ _ _ _ _ _ _ false Hmake Hl) as H1.
  pose proof (reassembleKey_run _ _ _ _ _ _ _ true Hmake Hl) as H2.
  rewrite andb_false_r in H1. rewrite andb_true_r in H2. split; [exact H1|].
  unfold ReassembleOSLKey. rewrite H2. cbn [mbind res_mbind]. destruct (seeded _ _); [|done].
  cbn [negb]. apply makeOSLFileSpec_run in Hmake as [Hk _].
  by rewrite decide_False by (by intros H).
Qed.

(** C8: a client reassembles the key of an OSL file exactly when the SLOKs it holds
    meet the thresholds of the tree, level by level; the pass that only counts
    SLOKs and the pass that unboxes the shares agree, the second returns the key
    the file was encrypted with, and neither fails. *)
Theorem ReassembleOSLKey_correct scheme pc len t fileKey spec lookup :
  makeOSLFileSpec scheme pc len t = Ok (fileKey, spec) ->
  (forall ref key, lookup (ID (deriveSLOK scheme ref)) = Some key ->
     key = Key (deriveSLOK scheme ref)) ->
  reassembleKey lookup false (fs_KeyShares spec) = Ok (seeded lookup (fs_KeyShares spec), []) /\
  ReassembleOSLKey lookup spec =
    Ok (if seeded lookup (fs_KeyShares spec) then (true, fileKey) else (false, [])).
Proof. apply reassemble_run. Qed.

End Keys.

(** ** A concrete scheme

    Three seed specs, two of which are needed in a period; one of two periods is
    needed in a group, and both of two groups.  The client has met the first two
    specs in every period. *)

Definition example_scheme : KeyScheme := {|
  MasterKey := replicate 32 x55;
  SeedSpecIDs := [[x01]; [x02]; [x03]];
  SeedSpecThreshold := 2;
  SeedPeriodNanoseconds := 1000;
  SeedPeriodKeySplits := [ {| Total := 2; Threshold := 1 |}; {| Total := 2; Threshold := 2 |} ]
|}.

Definition example_HMAC (k m : bytes) : bytes := le_store 32 (le_load m).
Definition example_CTR (seed : bytes) (n : nat) : byte := x01.
Definition example_iter (m : gmap byte bytes) (i : nat) : list (byte * bytes) := map_to_list m.
Definition example_lookup (id : bytes) : option bytes :=
  if decide (nth 1 id x00 = x03) then None else Some id.

Lemma example_lookup_sound ref key :
  example_lookup (ID (deriveSLOK example_HMAC example_scheme ref)) = Some key ->
  key = Key (deriveSLOK example_HMAC example_scheme ref).
Proof.
  unfold example_lookup. destruct (decide _); [done|]. intros [= <-].
  unfold deriveSLOK. cbn [ID Key]. set (k := deriveKeyHKDF _ _ [PropagationChannelID ref; _; _]).
  assert (length k = 32%nat) as Hk by apply length_le_store.
  unfold deriveKeyHKDF, example_HMAC. cbn [concat app]. rewrite app_nil_r, le_load_app, Hk.
  rewrite le_store_add, <- Hk. apply le_store_load.
Qed.

(** A box that carries its key, to keep the evaluation short. *)
Definition example_box : SecretBox.
Proof.
  refine {| sb_seal m nonce key := key ++ m;
            sb_open b nonce key :=
              if decide (take (length key) b = key) then Some (drop (length key) b) else None |}.
  intros m nonce key. rewrite take_app_length, drop_app_length. by rewrite decide_True.
Defined.

#[local] Abbreviation example_spec :=
  (makeOSLFileSpec (SB := example_box) example_HMAC example_CTR example_scheme [x07] 2000 5000).

Lemma example_spec_ok : exists fileKey spec, example_spec = Ok (fileKey, spec).
Proof. eexists _, _. vm_compute. reflexivity. Qed.

Lemma makeOSLFileSpec_returns_witness :
  exists len fileKey spec, forall len', (len <= len')%nat ->
    makeOSLFileSpec (SB := example_box) example_HMAC example_CTR example_scheme [x07] len' 5000
    = Ok (fileKey, spec).
Proof.
  apply (makeOSLFileSpec_returns example_HMAC example_CTR example_iter).
  - reflexivity.
  - intros. apply length_le_store.
  - split_and!; [reflexivity|cbn; lia|]. by repeat constructor.
  - intros seed m. exists m. done.
Defined.

Lemma OSL_covers_periods_witness :
  exists fileKey spec, example_spec = Ok (fileKey, spec) /\
    leaves (fs_KeyShares spec) =
      period_ids example_HMAC example_scheme [x07] 5000 (periods (SeedPeriodKeySplits example_scheme)).
Proof.
  destruct example_spec_ok as (fileKey & spec & E). exists fileKey, spec. split; [exact E|].
  revert E.
  apply (OSL_covers_periods (SB := example_box) example_HMAC example_CTR example_iter).
  - reflexivity.
  - intros. apply length_le_store.
Defined.

Lemma ReassembleOSLKey_correct_witness :
  exists fileKey spec, example_spec = Ok (fileKey, spec) /\
    reassembleKey (SB := example_box) example_iter example_lookup false (fs_KeyShares spec)
      = Ok (seeded example_lookup (fs_KeyShares spec), []) /\
    ReassembleOSLKey (SB := example_box) example_iter example_lookup spec
      = Ok (if seeded example_lookup (fs_KeyShares spec) then (true, fileKey) else (false, [])).
Proof.
  destruct example_spec_ok as (fileKey & spec & E). exists fileKey, spec. split; [exact E|].
  apply (ReassembleOSLKey_correct (SB := example_box) example_HMAC example_CTR example_iter
    (fun _ _ => reflexivity _) (fun _ _ => length_le_store _ _) _ _ _ _ _ _ example_lookup E).
  exact example_lookup_sound.
Defined.

(** The client of the example has seeded the OSL. *)
Example example_seeded :
  match example_spec with
  | Ok (fileKey, spec) =>
      ReassembleOSLKey (SB := example_box) example_iter example_lookup spec = Ok (true, fileKey)
  | _ => False
  end.
Proof. vm_compute. reflexivity. Qed.
