(* ===== verification/OslPave.v ===== *)
(** * OSL schedules

    Models the schedule side of src/psiphon/common/osl/osl.go: the validation of a
    configuration ([LoadConfig]), the duration of an OSL, the loops of [Pave] and
    [GetPaveData] over the OSLs of a time range, [CurrentOSLIDs], and what a client
    does with the paved files ([RegistryStreamer.Next], [NewOSLReader]).

    A time is its number of nanoseconds since the Unix epoch; [zeroTime] is Go's
    zero time, the year 1, which [Round] and [Truncate] count from.

    Parameters: the parser of RFC 3339 times, [ParseCIDR] and [sort.Sort]; HMAC,
    AES-CTR, MD5 and the orders of map iterations; [WriteAuthenticatedDataPackage],
    [sort.Strings] and the encoding of the registry. *)

From Stdlib Require Import ZArith Lia Strings.Byte.
From stdpp Require Import base gmap list sets strings.
From S2P Require Import Prelude Lookups Shamir Poly1305 Secretbox OslKeys.
#[local] Open Scope Z_scope.

(** ** Times *)

Definition second : Z := 1000000000.
Definition zeroTime : Z := - (62135596800 * second).

(** [t.Truncate(d)] and [t.Round(d)]; a duration that is not positive leaves the
    time unchanged. *)
Definition Truncate (t d : Z) : Z :=
  if d <=? 0 then t else t - (t - zeroTime) mod d.

Definition Round (t d : Z) : Z :=
  if d <=? 0 then t
  else
    let r := (t - zeroTime) mod d in
    if r + r <? d then t - r else t + (d - r).

(** [t.Sub(u)], which saturates. *)
Definition Sub (t u : Z) : Z := Z.max (- 2 ^ 63) (Z.min (2 ^ 63 - 1) (t - u)).

(** [getSLOKTime], at the time [now]. *)
Definition getSLOKTime (now seedPeriodNanoseconds : Z) : Z :=
  i64 (Truncate now seedPeriodNanoseconds).

(** ** The configuration *)

Record TrafficValues := {
  BytesRead : Z;
  BytesWritten : Z;
  PortForwardDurationNanoseconds : Z
}.

Record SeedSpec := {
  ss_ID : bytes;
  UpstreamSubnets : list string;
  UpstreamASNs : list string;
  Targets : TrafficValues;
  upstreamASNLookup : Strings.StringLookup
}.

Record Scheme := {
  Epoch : string;
  PaveDataOSLCount : Z;
  Regions : list bytes;
  PropagationChannelIDs : list bytes;
  sc_MasterKey : bytes;
  SeedSpecs : list SeedSpec;
  sc_SeedSpecThreshold : Z;
  sc_SeedPeriodNanoseconds : Z;
  sc_SeedPeriodKeySplits : list KeySplit;
  epoch : Z;
  subnetLookups : list (list Subnet.IPNet)
}.

(** The fields the key derivation uses. *)
Definition key_scheme (scheme : Scheme) : KeyScheme := {|
  MasterKey := sc_MasterKey scheme;
  SeedSpecIDs := map ss_ID (SeedSpecs scheme);
  SeedSpecThreshold := sc_SeedSpecThreshold scheme;
  SeedPeriodNanoseconds := sc_SeedPeriodNanoseconds scheme;
  SeedPeriodKeySplits := sc_SeedPeriodKeySplits scheme
|}.

Section Load.
Context (ParseCIDR : string -> res Subnet.IPNet) (sort : list Subnet.IPNet -> list Subnet.IPNet).
(** [time.Parse(time.RFC3339, s)]: the time and whether its location is UTC. *)
Context (parse_time : string -> res (Z * bool)).

(** The check that the ASNs of a seed spec are distinct. *)
Fixpoint check_asns (seen : gset string) (asns : list string) : res unit :=
  match asns with
  | [] => Ok tt
  | asn :: asns =>
      if bool_decide (asn ∈ seen) then Err "invalid upstream ASNs, duplicate ASN"
      else check_asns ({[asn]} ∪ seen) asns
  end.

(** A nil pointer of the decoded configuration is [None]. *)
Fixpoint load_seed_specs (seedSpecs : list (option SeedSpec))
  : res (list SeedSpec * list (list Subnet.IPNet)) :=
  match seedSpecs with
  | [] => Ok ([], [])
  | seedSpec :: seedSpecs =>
      seedSpec ← match seedSpec with None => Err "invalid seed spec" | Some s => Ok s end;
      if decide (length (ss_ID seedSpec) <> KEY_LENGTH_BYTES) then Err "invalid seed spec ID"
      else
        subnetLookup ← Subnet.NewSubnetLookup ParseCIDR sort (UpstreamSubnets seedSpec);
        _ ← check_asns ∅ (UpstreamASNs seedSpec);
        let seedSpec := {| ss_ID := ss_ID seedSpec; UpstreamSubnets := UpstreamSubnets seedSpec;
                           UpstreamASNs := UpstreamASNs seedSpec; Targets := Targets seedSpec;
                           upstreamASNLookup := Strings.NewStringLookup (UpstreamASNs seedSpec) |} in
        '(specs, lookups) ← load_seed_specs seedSpecs;
        Ok (seedSpec :: specs, subnetLookup :: lookups)
  end.

(** A scheme as decoded, its seed specs possibly nil. *)
Record RawScheme := {
  raw : Scheme;
  raw_SeedSpecs : list (option SeedSpec)
}.

Definition load_scheme (previousEpoch : Z) (r : RawScheme) : res Scheme :=
  let scheme := raw r in
  '(ep, utc) ← parse_time (Epoch scheme);
  if negb utc then Err "invalid epoch timezone"
  else if bool_decide (Round ep (sc_SeedPeriodNanoseconds scheme) <> ep) then
    Err "invalid epoch period"
  else if bool_decide (ep < previousEpoch) then Err "invalid epoch order"
  else if decide (length (sc_MasterKey scheme) <> KEY_LENGTH_BYTES) then Err "invalid master key"
  else
    '(specs, lookups) ← load_seed_specs (raw_SeedSpecs r);
    if negb (isValidShamirSplit (Z.of_nat (length specs)) (sc_SeedSpecThreshold scheme)) then
      Err "invalid seed spec key split"
    else if decide (length (sc_SeedPeriodKeySplits scheme) < 1)%nat then
      Err "invalid seed period key split count"
    else if negb (forallb (fun keySplit => isValidShamirSplit (Total keySplit) (Threshold keySplit))
                    (sc_SeedPeriodKeySplits scheme)) then
      Err "invalid seed period key split"
    else Ok {| Epoch := Epoch scheme; PaveDataOSLCount := PaveDataOSLCount scheme;
               Regions := Regions scheme; PropagationChannelIDs := PropagationChannelIDs scheme;
               sc_MasterKey := sc_MasterKey scheme; SeedSpecs := specs;
               sc_SeedSpecThreshold := sc_SeedSpecThreshold scheme;
               sc_SeedPeriodNanoseconds := sc_SeedPeriodNanoseconds scheme;
               sc_SeedPeriodKeySplits := sc_SeedPeriodKeySplits scheme;
               epoch := ep; subnetLookups := lookups |}.

Fixpoint load_schemes (previousEpoch : Z) (schemes : list (option RawScheme)) : res (list Scheme) :=
  match schemes with
  | [] => Ok []
  | r :: schemes =>
      r ← match r with None => Err "invalid scheme" | Some r => Ok r end;
      scheme ← load_scheme previousEpoch r;
      rest ← load_schemes (epoch scheme) schemes;
      Ok (scheme :: rest)
  end.

Definition LoadConfig (schemes : list (option RawScheme)) : res (list Scheme) :=
  load_schemes zeroTime schemes.

End Load.

(** ** Durations and loops over OSLs *)

(** The product is computed in an [int], of 64 bits, and then in an [int64]. *)
Definition GetOSLDuration (scheme : Scheme) : Z :=
  let slokTimePeriodsPerOSL :=
    foldl (fun n keySplit => i64 (n * Total keySplit)) 1 (sc_SeedPeriodKeySplits scheme) in
  i64 (slokTimePeriodsPerOSL * sc_SeedPeriodNanoseconds scheme).

(** [for oslTime.Before(startTime) { oslTime = oslTime.Add(oslDuration) }] *)
Fixpoint align_loop (fuel : nat) (startTime oslDuration oslTime : Z) : res Z :=
  match fuel with
  | O => NoFuel
  | S fuel =>
      if oslTime <? startTime then align_loop fuel startTime oslDuration (oslTime + oslDuration)
      else Ok oslTime
  end.

(** [for !oslTime.After(endTime) { body; oslTime = oslTime.Add(oslDuration) }] *)
Fixpoint osl_loop {A} (fuel : nat) (endTime oslDuration : Z) (body : Z -> res A) (oslTime : Z)
  : res (list A) :=
  match fuel with
  | O => NoFuel
  | S fuel =>
      if endTime <? oslTime then Ok []
      else
        a ← body oslTime;
        rest ← osl_loop fuel endTime oslDuration body (oslTime + oslDuration);
        Ok (a :: rest)
  end.

(** The first OSL time of a range; a zero start time is [None]. *)
Definition first_osl (fuel : nat) (startTime : option Z) (epoch oslDuration : Z) : res Z :=
  match startTime with
  | Some startTime =>
      if bool_decide (startTime < epoch) then Ok epoch
      else align_loop fuel startTime oslDuration epoch
  | None => Ok epoch
  end.

Definition hex_digit (n : Z) : byte := if n <? 10 then z2b (48 + n) else z2b (87 + n).
Definition EncodeToString (b : bytes) : bytes :=
  concat (map (fun x => [hex_digit (b2z x / 16); hex_digit (b2z x mod 16)]) b).

Definition somes {A} (l : list (option A)) : list A :=
  concat (map (fun o => match o with Some a => [a] | None => [] end) l).

Record PaveFile := { Name : bytes; Contents : bytes }.

(** The texts "osl-registry" and "osl-". *)
Definition REGISTRY_FILENAME : bytes := map z2b
  [111; 115; 108; 45; 114; 101; 103; 105; 115; 116; 114; 121].
Definition osl_filename (hexID : bytes) : bytes := map z2b [111; 115; 108; 45] ++ hexID.

Definition newline : byte := x0a.
Fixpoint Join (l : list bytes) : bytes :=
  match l with
  | [] => []
  | [s] => s
  | s :: l => s ++ [newline] ++ Join l
  end.

Section Pave.
Context (HMAC : bytes -> bytes -> bytes) (CTR : bytes -> nat -> byte) {SB : SecretBox}.
Context (iter : gmap byte bytes -> nat -> list (byte * bytes)).
Context (MD5 : bytes -> bytes) (sortStrings : list bytes -> list bytes).
Context (WriteAuthenticatedDataPackage : bytes -> res bytes).
Context (encode_registry : list OSLFileSpec -> res bytes).
(** [len] bounds the key material read for one OSL, and [fuel] the iterations of
    each loop over times. *)
Context (len fuel : nat).

(** The body of the loop of [Pave]: the registry entry and the file of one OSL,
    or nothing for an empty OSL that is omitted.  The registry holds a pointer to
    the file spec, so it gets the MD5 sum set afterwards. *)
Definition pave_osl (scheme : Scheme) (propagationChannelID : bytes)
    (paveServerEntries : gmap bytes (list bytes)) (omitMD5Sums omitEmptyOSLs : bool) (oslTime : Z)
  : res (option (OSLFileSpec * PaveFile)) :=
  '(fileKey, fileSpec) ←
    makeOSLFileSpec HMAC CTR (key_scheme scheme) propagationChannelID len oslTime;
  let hexEncodedOSLID := EncodeToString (fs_ID fileSpec) in
  let entries := default [] (paveServerEntries !! hexEncodedOSLID) in
  let serverEntryCount := length entries in
  if bool_decide (0 < serverEntryCount)%nat || negb omitEmptyOSLs then
    let payload := Join (sortStrings entries) in
    serverEntriesPackage ← WriteAuthenticatedDataPackage payload;
    boxedServerEntries ← box fileKey serverEntriesPackage;
    let fileSpec :=
      if omitMD5Sums then fileSpec
      else {| fs_ID := fs_ID fileSpec; fs_KeyShares := fs_KeyShares fileSpec;
              fs_MD5Sum := MD5 boxedServerEntries |} in
    Ok (Some (fileSpec, {| Name := osl_filename hexEncodedOSLID; Contents := boxedServerEntries |}))
  else Ok None.

Definition pave_scheme (startTime : option Z) (endTime : Z) (propagationChannelID : bytes)
    (paveServerEntries : gmap bytes (list bytes)) (omitMD5Sums omitEmptyOSLs : bool) (scheme : Scheme)
  : res (list (OSLFileSpec * PaveFile)) :=
  if bool_decide (propagationChannelID ∈ PropagationChannelIDs scheme) then
    let oslDuration := GetOSLDuration scheme in
    oslTime ← first_osl fuel startTime (epoch scheme) oslDuration;
    files ← osl_loop fuel endTime oslDuration
      (pave_osl scheme propagationChannelID paveServerEntries omitMD5Sums omitEmptyOSLs) oslTime;
    Ok (somes files)
  else Ok [].

Definition Pave (schemes : list Scheme) (startTime : option Z) (endTime : Z)
    (propagationChannelID : bytes) (paveServerEntries : gmap bytes (list bytes))
    (omitMD5SumsSchemes omitEmptyOSLsSchemes : list nat) : res (list PaveFile) :=
  perScheme ← mapM (fun i_scheme =>
      pave_scheme startTime endTime propagationChannelID paveServerEntries
        (bool_decide (i_scheme.1 ∈ omitMD5SumsSchemes))
        (bool_decide (i_scheme.1 ∈ omitEmptyOSLsSchemes)) i_scheme.2)
    (imap pair schemes);
  let files := concat perScheme in
  registry ← encode_registry (map fst files);
  registryPackage ← WriteAuthenticatedDataPackage registry;
  Ok (map snd files ++ [{| Name := REGISTRY_FILENAME; Contents := registryPackage |}]).

Definition osl_time (scheme : Scheme) (now : Z) : res Z :=
  let oslDuration := GetOSLDuration scheme in
  if decide (oslDuration = 0) then Panic "integer divide by zero"
  else Ok (epoch scheme + i64 (Z.quot (Sub now (epoch scheme)) oslDuration * oslDuration)).

Definition CurrentOSLIDs (schemes : list Scheme) (schemeIndex now : Z) : res (gmap bytes bytes) :=
  if bool_decide (schemeIndex < 0) || bool_decide (Z.of_nat (length schemes) <= schemeIndex) then
    Err "invalid scheme index"
  else
    scheme ← res_of_option "index out of range" (schemes !! Z.to_nat schemeIndex);
    oslTime ← osl_time scheme now;
    foldl (fun acc propagationChannelID =>
        OSLIDs ← acc;
        '(_, fileSpec) ←
          makeOSLFileSpec HMAC CTR (key_scheme scheme) propagationChannelID len oslTime;
        Ok (<[propagationChannelID := EncodeToString (fs_ID fileSpec)]> OSLIDs))
      (Ok ∅) (PropagationChannelIDs scheme).

Record PaveData := { FileSpec : OSLFileSpec; FileKey : bytes }.

Definition GetPaveData (schemes : list Scheme) (schemeIndex now : Z)
  : res (gmap bytes (list PaveData)) :=
  if bool_decide (schemeIndex < 0) || bool_decide (Z.of_nat (length schemes) <= schemeIndex) then
    Err "invalid scheme index"
  else
    scheme ← res_of_option "index out of range" (schemes !! Z.to_nat schemeIndex);
    let oslDuration := GetOSLDuration scheme in
    if PaveDataOSLCount scheme <? 1 then Err "invalid OSL count"
    else
      let endTime := now in
      let startTime := endTime + i64 (i64 (- PaveDataOSLCount scheme) * oslDuration) in
      let startTime := if startTime <? epoch scheme then epoch scheme else startTime in
      foldl (fun acc propagationChannelID =>
          allPaveData ← acc;
          oslTime ← first_osl fuel
            (if decide (startTime = zeroTime) then None else Some startTime)
            (epoch scheme) oslDuration;
          paveData ← osl_loop fuel endTime oslDuration (fun oslTime =>
              '(fileKey, fileSpec) ←
                makeOSLFileSpec HMAC CTR (key_scheme scheme) propagationChannelID len oslTime;
              Ok {| FileSpec := fileSpec; FileKey := fileKey |}) oslTime;
          Ok (<[propagationChannelID := paveData]> allPaveData))
        (Ok ∅) (PropagationChannelIDs scheme).

(** ** The client *)

(** [RegistryStreamer.Next] on the file specs the decoder has left: the next one
    that is seeded, and those after it. *)
Fixpoint Next (lookup : bytes -> option bytes) (fileSpecs : list OSLFileSpec)
  : res (option (OSLFileSpec * list OSLFileSpec)) :=
  match fileSpecs with
  | [] => Ok None
  | fileSpec :: fileSpecs =>
      '(ok, _) ← reassembleKey iter lookup false (fs_KeyShares fileSpec);
      if (ok : bool) then Ok (Some (fileSpec, fileSpecs)) else Next lookup fileSpecs
  end.

End Pave.

(** [NewOSLReader], up to the reader of the decrypted package. *)
Definition NewOSLReader (iter : gmap byte bytes -> nat -> list (byte * bytes))
    (oslFileContent : bytes) (script : list (bytes * read_err)) (fileSpec : OSLFileSpec)
    (lookup : bytes -> option bytes) : res salsa20ReadSeeker :=
  '(ok, fileKey) ← reassembleKey iter lookup true (fs_KeyShares fileSpec);
  if negb ok then Err "unseeded OSL"
  else if decide (length fileKey <> KEY_LENGTH_BYTES) then Err "invalid key length"
  else NewOpenReadSeeker oslFileContent script nonce fileKey.

(** ** Validation *)

Lemma Round_id t d : Round t d = t <-> d <= 0 \/ (t - zeroTime) mod d = 0.
Proof.
  unfold Round. destruct (Z.leb_spec d 0); [split; [by left|done]|].
  pose proof (Z.mod_pos_bound (t - zeroTime) d ltac:(lia)).
  destruct (Z.ltb_spec ((t - zeroTime) mod d + (t - zeroTime) mod d) d); lia.
Qed.

(** What the code that uses a scheme relies on. *)
Definition scheme_ok (scheme : Scheme) : Prop :=
  valid_scheme (key_scheme scheme) /\
  length (sc_MasterKey scheme) = KEY_LENGTH_BYTES /\
  Forall (fun s => length (ss_ID s) = KEY_LENGTH_BYTES /\ NoDup (UpstreamASNs s) /\
            upstreamASNLookup s = Strings.NewStringLookup (UpstreamASNs s)) (SeedSpecs scheme) /\
  length (subnetLookups scheme) = length (SeedSpecs scheme) /\
  (sc_SeedPeriodNanoseconds scheme <= 0 \/
   (epoch scheme - zeroTime) mod sc_SeedPeriodNanoseconds scheme = 0).

Section LoadSpec.
Context (ParseCIDR : string -> res Subnet.IPNet) (sort : list Subnet.IPNet -> list Subnet.IPNet).
Context (parse_time : string -> res (Z * bool)).

Lemma check_asns_nodup seen asns u :
  check_asns seen asns = Ok u -> NoDup asns /\ forall x, x ∈ asns -> x ∉ seen.
Proof.
  revert seen. induction asns as [|a asns IH]; intros seen H; cbn [check_asns] in H.
  { split; [constructor|set_solver]. }
  case_bool_decide as Ha; [done|]. apply IH in H as [H1 H2]. split; [|set_solver].
  constructor; [|done]. intros Hin. apply H2 in Hin. set_solver.
Qed.

Lemma load_seed_specs_ok raws specs lookups :
  load_seed_specs ParseCIDR sort raws = Ok (specs, lookups) ->
  length lookups = length specs /\
  Forall (fun s => length (ss_ID s) = KEY_LENGTH_BYTES /\ NoDup (UpstreamASNs s) /\
            upstreamASNLookup s = Strings.NewStringLookup (UpstreamASNs s)) specs.
Proof.
  revert specs lookups. induction raws as [|r raws IH]; intros specs lookups H;
    cbn [load_seed_specs] in H; [by injection H as <- <-|].
  apply res_bind_ok in H as (s & _ & H). destruct (decide _) as [|Hid]; [done|].
  apply res_bind_ok in H as (l & _ & H). apply res_bind_ok in H as (u & Hu & H).
  apply res_bind_ok in H as ([specs' lookups'] & Hrec & [= <- <-]).
  apply IH in Hrec as [H1 H2]. cbn [length]. split; [congruence|]. constructor; [|done].
  apply check_asns_nodup in Hu as [Hnd _]. cbn [ss_ID UpstreamASNs upstreamASNLookup].
  split_and!; [|done..]. by destruct (decide (length (ss_ID s) = KEY_LENGTH_BYTES)).
Qed.

Lemma load_scheme_ok prev r scheme :
  load_scheme ParseCIDR sort parse_time prev r = Ok scheme ->
  scheme_ok scheme /\ prev <= epoch scheme.
Proof.
  unfold load_scheme. intros ([ep utc] & _ & H)%res_bind_ok.
  destruct utc; [|done]. cbn [negb] in H. case_bool_decide as Hr; [done|].
  case_bool_decide as Ho; [done|]. destruct (decide _) as [|Hm]; [done|].
  apply res_bind_ok in H as ([specs lookups] & Hs & H).
  apply load_seed_specs_ok in Hs as [Hl Hspecs].
  destruct (isValidShamirSplit _ _) eqn:Ev; [|done]. destruct (decide _); [done|].
  destruct (forallb _ _) eqn:Ef; [|done]. injection H as <-. unfold scheme_ok, valid_scheme, key_scheme.
  cbn. split; [|lia]. rewrite length_map. split_and!; try done; [lia| | |].
  - apply Forall_forall. intros ks Hks. rewrite forallb_forall in Ef. by apply Ef, list_elem_of_In.
  - by destruct (decide (length (sc_MasterKey (raw r)) = KEY_LENGTH_BYTES)).
  - by apply Round_id.
Qed.

(** Every scheme of a configuration [LoadConfig] accepts has valid key splits,
    keys and IDs of 32 bytes, distinct ASNs, one subnet lookup per seed spec and,
    when its seed period is positive, an epoch that is a multiple of the period;
    the epochs are in order. *)
Theorem LoadConfig_valid raws schemes :
  LoadConfig ParseCIDR sort parse_time raws = Ok schemes ->
  Forall scheme_ok schemes /\
  forall i j a b, (i <= j)%nat -> schemes !! i = Some a -> schemes !! j = Some b ->
    epoch a <= epoch b.
Proof.
  unfold LoadConfig. generalize zeroTime as prev. intros prev H.
  assert (Forall scheme_ok schemes /\ (forall a, a ∈ schemes -> prev <= epoch a) /\
    forall i j a b, (i <= j)%nat -> schemes !! i = Some a -> schemes !! j = Some b ->
      epoch a <= epoch b) as (H1 & _ & H3); [|done].
  revert prev schemes H. induction raws as [|r raws IH]; intros prev schemes H; cbn [load_schemes] in H.
  { injection H as <-. split_and!; [constructor|set_solver|done]. }
  apply res_bind_ok in H as (r' & _ & (s & Hs & (rest & Hrest & [= <-])%res_bind_ok)%res_bind_ok).
  apply load_scheme_ok in Hs as [Hok Hle]. apply IH in Hrest as (H1 & H2 & H3). split_and!.
  - by constructor.
  - intros a [->|Ha]%elem_of_cons; [done|]. apply H2 in Ha. lia.
  - intros [|i] [|j] a b Hij Ha Hb; simpl in *; simplify_eq; [lia| |lia|].
    + apply H2. by eapply list_elem_of_lookup_2.
    + eapply (H3 i j); [lia|done..].
Qed.

End LoadSpec.

(** ** The times of the OSLs of a range *)

Lemma align_loop_spec fuel startTime d t :
  0 < d -> startTime - t <= Z.of_nat fuel * d ->
  exists k, align_loop (S fuel) startTime d t = Ok (t + Z.of_nat k * d) /\
    startTime <= t + Z.of_nat k * d /\ (k = 0%nat \/ t + (Z.of_nat k - 1) * d < startTime).
Proof.
  intros Hd. revert t. induction fuel as [|fuel IH]; intros t Hf; cbn [align_loop].
  - exists 0%nat. destruct (Z.ltb_spec t startTime); [lia|]. split; [f_equal; lia|]. lia.
  - destruct (Z.ltb_spec t startTime) as [Hlt|Hge].
    + destruct (IH (t + d)) as (k & Hk & H1 & H2); [lia|]. cbn [align_loop] in Hk. rewrite Hk.
      exists (S k). split; [f_equal; lia|]. lia.
    + exists 0%nat. split; [f_equal; lia|]. lia.
Qed.

(** The OSL times from [t] to [endTime]. *)
Definition osl_times (endTime d t : Z) : list Z :=
  map (fun k => t + Z.of_nat k * d)
    (seq 0 (if endTime <? t then 0%nat else S (Z.to_nat ((endTime - t) / d)))).

Lemma osl_times_nil endTime d t : endTime < t -> osl_times endTime d t = [].
Proof. intros H. unfold osl_times. by destruct (Z.ltb_spec endTime t); [|lia]. Qed.

Lemma osl_times_cons endTime d t :
  0 < d -> t <= endTime -> osl_times endTime d t = t :: osl_times endTime d (t + d).
Proof.
  intros Hd H. unfold osl_times. destruct (Z.ltb_spec endTime t); [lia|]. cbn [seq map].
  f_equal; [lia|]. rewrite <- seq_shift, map_map.
  assert (Z.to_nat ((endTime - t) / d) =
    if endTime <? t + d then 0%nat else S (Z.to_nat ((endTime - (t + d)) / d))) as ->.
  { destruct (Z.ltb_spec endTime (t + d)).
    - by rewrite Z.div_small by lia.
    - replace (endTime - t) with (endTime - (t + d) + 1 * d) by lia.
      rewrite Z.div_add by lia. rewrite Z2Nat.inj_add by (try lia; apply Z.div_pos; lia). lia. }
  apply map_ext. intros k. lia.
Qed.

Lemma elem_of_osl_times endTime d t x :
  0 < d -> x ∈ osl_times endTime d t <-> exists k : nat, x = t + Z.of_nat k * d /\ x <= endTime.
Proof.
  intros Hd. unfold osl_times. rewrite list_elem_of_fmap. setoid_rewrite elem_of_seq. split.
  - intros (k & -> & Hk). exists k. split; [done|]. destruct (Z.ltb_spec endTime t); [lia|].
    pose proof (Z.div_pos (endTime - t) d ltac:(lia) Hd).
    assert (Z.of_nat k <= (endTime - t) / d) as Hk2 by lia.
    pose proof (Z.mul_div_le (endTime - t) d Hd). nia.
  - intros (k & -> & Hle). exists k. split; [done|]. destruct (Z.ltb_spec endTime t); [nia|].
    assert (Z.of_nat k <= (endTime - t) / d) by (apply Z.div_le_lower_bound; lia). lia.
Qed.

Lemma osl_loop_spec {A} fuel endTime d (body : Z -> res A) t :
  0 < d -> endTime - t < Z.of_nat fuel * d ->
  osl_loop (S fuel) endTime d body t = mapM body (osl_times endTime d t).
Proof.
  intros Hd. revert t. induction fuel as [|fuel IH]; intros t Hf.
  - cbn [osl_loop]. destruct (Z.ltb_spec endTime t); [|lia]. by rewrite osl_times_nil.
  - change (osl_loop (S (S fuel)) endTime d body t) with
      (if endTime <? t then Ok [] else
        a ← body t; rest ← osl_loop (S fuel) endTime d body (t + d); Ok (a :: rest)).
    destruct (Z.ltb_spec endTime t); [by rewrite osl_times_nil|].
    rewrite IH by lia. by rewrite (osl_times_cons _ _ t) by lia.
Qed.

(** *** The duration of an OSL *)

Lemma periods_pos splits : Forall (fun ks => 1 <= Total ks) splits -> (1 <= periods splits)%nat.
Proof.
  induction 1 as [|k l Hk Hl IH]; cbn [periods fold_right]; [lia|]. fold (periods l).
  change 1%nat with (1 * 1)%nat. apply Nat.mul_le_mono; [lia|done].
Qed.

Lemma duration_loop splits n :
  Forall (fun ks => 1 <= Total ks) splits -> 0 <= n -> n * Z.of_nat (periods splits) < 2 ^ 63 ->
  foldl (fun n keySplit => i64 (n * Total keySplit)) n splits = n * Z.of_nat (periods splits).
Proof.
  intros Hv. revert n. induction Hv as [|k l Hk Hl IH]; intros n Hn Hlt; cbn [foldl].
  { cbn. lia. }
  pose proof (periods_pos l Hl). cbn [periods fold_right] in *. fold (periods l) in *.
  rewrite Nat2Z.inj_mul, Z2Nat.id in * by lia.
  rewrite wrapS_id by (try lia; nia). rewrite IH by nia. lia.
Qed.

Lemma GetOSLDuration_spec scheme :
  valid_scheme (key_scheme scheme) -> 0 < sc_SeedPeriodNanoseconds scheme ->
  Z.of_nat (periods (sc_SeedPeriodKeySplits scheme)) * sc_SeedPeriodNanoseconds scheme < 2 ^ 63 ->
  GetOSLDuration scheme =
    Z.of_nat (periods (sc_SeedPeriodKeySplits scheme)) * sc_SeedPeriodNanoseconds scheme /\
  0 < GetOSLDuration scheme.
Proof.
  intros (_ & _ & Hv) Hp Hlt. cbn in Hv.
  assert (Forall (fun ks => 1 <= Total ks) (sc_SeedPeriodKeySplits scheme)) as Hv'.
  { eapply Forall_impl; [exact Hv|]. intros ks ?%isValidShamirSplit_spec. lia. }
  pose proof (periods_pos _ Hv'). unfold GetOSLDuration.
  rewrite duration_loop by (try done; nia). rewrite Z.mul_1_l, wrapS_id by (try lia; nia).
  split; [done|nia].
Qed.

(** ** OSLs and SLOKs over time *)

Section Schedule.
Context (HMAC : bytes -> bytes -> bytes) (CTR : bytes -> nat -> byte) {SB : SecretBox}.
Context (iter : gmap byte bytes -> nat -> list (byte * bytes)).
Hypothesis iter_perm : forall m i, iter m i ≡ₚ map_to_list m.
Hypothesis HMAC_length : forall k m, length (HMAC k m) = KEY_LENGTH_BYTES.

(** A scheme whose OSL duration fits in 64 bits, at a time after its epoch. *)
Definition running (scheme : Scheme) (now : Z) : Prop :=
  scheme_ok scheme /\ 0 < sc_SeedPeriodNanoseconds scheme /\
  Z.of_nat (periods (sc_SeedPeriodKeySplits scheme)) * sc_SeedPeriodNanoseconds scheme < 2 ^ 63 /\
  - 2 ^ 63 <= epoch scheme /\ epoch scheme <= now < 2 ^ 63 /\ now - epoch scheme < 2 ^ 63.

Lemma osl_time_spec scheme now :
  running scheme now ->
  osl_time scheme now =
    Ok (epoch scheme + (now - epoch scheme) / GetOSLDuration scheme * GetOSLDuration scheme).
Proof.
  intros ((Hv & _) & Hp & Hlt & He & Hn & Hd). destruct (GetOSLDuration_spec scheme Hv Hp Hlt) as [_ Hpos].
  unfold osl_time. destruct (decide _) as [E|_]; [lia|]. do 2 f_equal.
  assert (Sub now (epoch scheme) = now - epoch scheme) as -> by (unfold Sub; lia).
  rewrite Z.quot_div_nonneg by lia.
  pose proof (Z.mul_div_le (now - epoch scheme) (GetOSLDuration scheme) Hpos).
  pose proof (Z.div_pos (now - epoch scheme) (GetOSLDuration scheme) ltac:(lia) Hpos).
  rewrite wrapS_id; nia.
Qed.

Lemma getSLOKTime_spec scheme now :
  running scheme now ->
  getSLOKTime now (sc_SeedPeriodNanoseconds scheme) =
  now - (now - epoch scheme) mod sc_SeedPeriodNanoseconds scheme.
Proof.
  intros ((_ & _ & _ & _ & Hep) & Hp & Hlt & He & Hn & Hd). unfold getSLOKTime, Truncate.
  destruct (Z.leb_spec (sc_SeedPeriodNanoseconds scheme) 0); [lia|].
  destruct Hep as [|Hep]; [lia|].
  assert ((now - zeroTime) mod sc_SeedPeriodNanoseconds scheme =
          (now - epoch scheme) mod sc_SeedPeriodNanoseconds scheme) as ->.
  { replace (now - zeroTime) with ((now - epoch scheme) + (epoch scheme - zeroTime)) by lia.
    rewrite <- Z.add_mod_idemp_r, Hep, Z.add_0_r by lia. done. }
  pose proof (Z.mod_pos_bound (now - epoch scheme) (sc_SeedPeriodNanoseconds scheme) Hp).
  pose proof (Z.mod_le (now - epoch scheme) (sc_SeedPeriodNanoseconds scheme) ltac:(lia) Hp).
  apply wrapS_id; lia.
Qed.

(** At any time after the epoch, the current OSL, the one [CurrentOSLIDs]
    names, starts a whole number of OSL durations after the epoch and contains the
    present, and the SLOKs issued to a client at that time, whatever the seed
    spec, are those of one leaf of its tree: a client always makes progress on the
    OSL of the moment. *)
Theorem current_OSL_has_issued_SLOKs scheme now :
  running scheme now ->
  exists oslTime, osl_time scheme now = Ok oslTime /\
    oslTime <= now < oslTime + GetOSLDuration scheme /\
    forall pc len fileKey spec,
      makeOSLFileSpec HMAC CTR (key_scheme scheme) pc len oslTime = Ok (fileKey, spec) ->
      map (fun s => ID (slok_at HMAC (key_scheme scheme) pc (ss_ID s)
                          (getSLOKTime now (sc_SeedPeriodNanoseconds scheme)))) (SeedSpecs scheme)
        ∈ leaves (fs_KeyShares spec).
Proof.
  intros Hr. pose proof Hr as ((Hv & _) & Hp & Hlt & He & Hn & Hd).
  destruct (GetOSLDuration_spec scheme Hv Hp Hlt) as [Hdur Hpos].
  eexists. split; [by apply osl_time_spec|]. rewrite (getSLOKTime_spec scheme now Hr).
  set (p := sc_SeedPeriodNanoseconds scheme) in *. set (d := GetOSLDuration scheme) in *.
  set (e := epoch scheme) in *. set (n := periods (sc_SeedPeriodKeySplits scheme)) in *.
  pose proof (Z.div_mod (now - e) d ltac:(lia)) as Hq.
  pose proof (Z.mod_pos_bound (now - e) d Hpos). split; [lia|]. intros pc len fileKey spec Hmake.
  rewrite (makeOSLFileSpec_leaves HMAC CTR iter iter_perm HMAC_length _ _ _ _ _ _ Hmake).
  unfold period_ids. apply list_elem_of_fmap. exists (Z.to_nat ((now - e) mod d / p)).
  pose proof (Z.div_pos ((now - e) mod d) p ltac:(lia) Hp). split.
  - cbn [key_scheme SeedSpecIDs SeedPeriodNanoseconds]. rewrite map_map. apply map_ext. intros s.
    do 2 f_equal. rewrite Z2Nat.id by done.
    assert ((now - e) mod p = (now - e) mod d mod p) as ->.
    { symmetry. apply Z.mod_mod_divide. exists (Z.of_nat n). exact Hdur. }
    pose proof (Z.div_mod ((now - e) mod d) p ltac:(lia)). lia.
  - apply elem_of_seq. split; [lia|]. cbn [key_scheme SeedPeriodKeySplits]. fold n.
    assert ((now - e) mod d / p < Z.of_nat n) by (apply Z.div_lt_upper_bound; lia). lia.
Qed.

(** *** The client *)

Section Client.
Context (scheme : KeyScheme) (lookup : bytes -> option bytes).
(** The client stores the SLOKs it is issued under their IDs. *)
Hypothesis lookup_sound : forall ref key,
  lookup (ID (deriveSLOK HMAC scheme ref)) = Some key -> key = Key (deriveSLOK HMAC scheme ref).

(** [Next] goes through the registry in order and stops at the first OSL for
    which the client has enough SLOKs; it returns nothing exactly when there is
    none. *)
Theorem Next_correct specs :
  (forall spec, spec ∈ specs -> exists pc len t fileKey,
     makeOSLFileSpec HMAC CTR scheme pc len t = Ok (fileKey, spec)) ->
  exists r, Next iter lookup specs = Ok r /\
    match r with
    | None => forall spec, spec ∈ specs -> seeded lookup (fs_KeyShares spec) = false
    | Some (spec, rest) => exists skipped, specs = skipped ++ spec :: rest /\
        seeded lookup (fs_KeyShares spec) = true /\
        forall s, s ∈ skipped -> seeded lookup (fs_KeyShares s) = false
    end.
Proof.
  induction specs as [|spec specs IH]; intros Hspecs; cbn [Next].
  { exists None. split; [done|]. set_solver. }
  destruct (Hspecs spec) as (pc & len & t & fileKey & Hmake); [set_solver|].
  rewrite (reassembleKey_run HMAC CTR iter iter_perm HMAC_length _ _ _ _ _ _ lookup false Hmake
    lookup_sound). cbn [mbind res_mbind]. destruct (seeded lookup (fs_KeyShares spec)) eqn:Es.
  { exists (Some (spec, specs)). split; [done|]. exists []. set_solver. }
  destruct IH as ([[sp rest]|] & Hr & H); [set_solver|..].
  - destruct H as (skipped & -> & Hsp & Hsk). exists (Some (sp, rest)). split; [done|].
    exists (spec :: skipped). split; [done|]. split; [done|]. set_solver.
  - exists None. split; [done|]. set_solver.
Qed.
End Client.

(** *** Paving *)

Hypothesis CTR_productive : forall seed, productive (CTR seed).

(** One amount of key material is enough for a finite number of OSLs. *)
Lemma makeOSLFileSpec_total_list scheme (l : list (bytes * Z)) :
  valid_scheme scheme -> exists len, forall pc t, (pc, t) ∈ l -> forall len', (len <= len')%nat ->
    exists fileKey spec, makeOSLFileSpec HMAC CTR scheme pc len' t = Ok (fileKey, spec).
Proof.
  intros Hv. induction l as [|[pc t] l [len1 IH]]; [by exists 0%nat; intros ? ? ?%elem_of_nil|].
  destruct (makeOSLFileSpec_total HMAC CTR iter iter_perm HMAC_length scheme pc t Hv CTR_productive)
    as (len2 & fileKey & spec & H2).
  exists (len1 `max` len2)%nat. intros pc' t' [[= -> ->]|Hin]%elem_of_cons len' Hle.
  - exists fileKey, spec. apply H2. lia.
  - apply IH; [done|lia].
Qed.

Definition pave_body (scheme : Scheme) (len : nat) (pc : bytes) (oslTime : Z) : res PaveData :=
  '(fileKey, fileSpec) ← makeOSLFileSpec HMAC CTR (key_scheme scheme) pc len oslTime;
  Ok {| FileSpec := fileSpec; FileKey := fileKey |}.

Lemma pave_bodies_ok scheme len pc times :
  (forall t, t ∈ times -> exists fileKey spec,
     makeOSLFileSpec HMAC CTR (key_scheme scheme) pc len t = Ok (fileKey, spec)) ->
  exists l, mapM (pave_body scheme len pc) times = Ok l.
Proof.
  induction times as [|t times IH]; intros H; [by exists []|].
  destruct (H t) as (k & sp & E); [set_solver|]. destruct IH as [l Hl]; [set_solver|].
  exists ({| FileSpec := sp; FileKey := k |} :: l). apply res_mapM_ok.
  constructor; [unfold pave_body; by rewrite E|by apply res_mapM_ok].
Qed.

Lemma pave_channels_loop scheme len times pcs m0 :
  (forall pc t, pc ∈ pcs -> t ∈ times -> exists fileKey spec,
     makeOSLFileSpec HMAC CTR (key_scheme scheme) pc len t = Ok (fileKey, spec)) ->
  exists m, foldl (fun acc pc =>
      allPaveData ← acc; paveData ← mapM (pave_body scheme len pc) times;
      Ok (<[pc := paveData]> allPaveData)) (Ok m0) pcs = Ok (m : gmap bytes (list PaveData)) /\
    (forall pc, pc ∈ pcs -> exists l, m !! pc = Some l /\ mapM (pave_body scheme len pc) times = Ok l) /\
    (forall pc, pc ∉ pcs -> m !! pc = m0 !! pc).
Proof.
  revert m0. induction pcs as [|pc pcs IH]; intros m0 H; cbn [foldl].
  { exists m0. split_and!; [done|set_solver|done]. }
  destruct (pave_bodies_ok scheme len pc times) as [l Hl]; [intros t Ht; apply H; set_solver|].
  cbn [mbind res_mbind]. rewrite Hl. cbn [mbind res_mbind].
  destruct (IH (<[pc := l]> m0)) as (m & Hm & H1 & H2); [intros ? ? ? ?; apply H; set_solver|].
  exists m. split; [exact Hm|]. split.
  - intros pc' Hin. destruct (decide (pc' ∈ pcs)) as [Hin'|Hnin]; [by apply H1|].
    assert (pc' = pc) as -> by set_solver. exists l. rewrite H2, lookup_insert_eq by done. done.
  - intros pc' Hnin. rewrite H2 by set_solver. apply lookup_insert_ne. set_solver.
Qed.

Lemma first_osl_spec scheme fuel startTime d :
  0 < d -> epoch scheme <= startTime -> startTime - epoch scheme <= Z.of_nat fuel * d ->
  exists k : nat, first_osl (S fuel) (if decide (startTime = zeroTime) then None else Some startTime)
      (epoch scheme) d = Ok (epoch scheme + Z.of_nat k * d) /\
    (startTime <> zeroTime -> startTime <= epoch scheme + Z.of_nat k * d) /\
    (k = 0%nat \/ epoch scheme + (Z.of_nat k - 1) * d < startTime).
Proof.
  intros Hd Hs Hf. unfold first_osl. destruct (decide (startTime = zeroTime)) as [E|Hne].
  - exists 0%nat. split; [f_equal; lia|]. split; [done|by left].
  - rewrite bool_decide_eq_false_2 by lia.
    destruct (align_loop_spec fuel startTime d (epoch scheme) Hd Hf) as (k & Hk & H1 & H2).
    exists k. done.
Qed.

Lemma foldl_ext_fun {A B} (f g : A -> B -> A) a l :
  (forall a x, f a x = g a x) -> foldl f a l = foldl g a l.
Proof.
  intros H. revert a. induction l as [|x l IH]; intros a; cbn [foldl]; [done|]. by rewrite H, IH.
Qed.

(** The body of [GetPaveData] once the loops over times are known to end. *)
Lemma GetPaveData_loop schemes i scheme now len fuel first :
  let d := GetOSLDuration scheme in let c := PaveDataOSLCount scheme in
  let start := if now - c * d <? epoch scheme then epoch scheme else now - c * d in
  schemes !! i = Some scheme -> 1 <= c -> 0 < d -> c * d < 2 ^ 63 ->
  first_osl (S fuel) (if decide (start = zeroTime) then None else Some start) (epoch scheme) d
    = Ok first ->
  now - first < Z.of_nat fuel * d ->
  GetPaveData HMAC CTR len (S fuel) schemes (Z.of_nat i) now =
  foldl (fun acc pc =>
      allPaveData ← acc; paveData ← mapM (pave_body scheme len pc) (osl_times now d first);
      Ok (<[pc := paveData]> allPaveData)) (Ok ∅) (PropagationChannelIDs scheme).
Proof.
  intros d c start Hi Hc Hpos Hover Hfirst Hfuel. unfold GetPaveData.
  pose proof (lookup_lt_Some _ _ _ Hi).
  rewrite (bool_decide_eq_false_2 (Z.of_nat i < 0)) by lia.
  rewrite (bool_decide_eq_false_2 (Z.of_nat (length schemes) <= Z.of_nat i)) by lia. cbn [orb].
  rewrite Nat2Z.id, Hi. cbn [res_of_option mbind res_mbind]. fold c.
  destruct (Z.ltb_spec c 1); [lia|].
  rewrite (wrapS_id 64 (- c)), wrapS_id by (fold d; nia). fold d.
  replace (now + - c * d) with (now - c * d) by lia. fold start.
  apply foldl_ext_fun. intros acc pc. rewrite Hfirst. cbn [mbind res_mbind].
  rewrite osl_loop_spec by lia. done.
Qed.

(** [GetPaveData] returns, and gives for each propagation channel the file
    specs and keys of the OSLs at successive multiples of the OSL duration after
    the epoch, the last one being the current OSL, and none that starts more than
    [PaveDataOSLCount] durations ago left out. *)
Theorem GetPaveData_correct schemes i scheme now :
  schemes !! i = Some scheme -> running scheme now ->
  1 <= PaveDataOSLCount scheme -> PaveDataOSLCount scheme * GetOSLDuration scheme < 2 ^ 63 ->
  exists len fuel m (first : nat), GetPaveData HMAC CTR len fuel schemes (Z.of_nat i) now = Ok m /\
    (let times := osl_times now (GetOSLDuration scheme)
                    (epoch scheme + Z.of_nat first * GetOSLDuration scheme) in
     (forall k : nat,
        now - PaveDataOSLCount scheme * GetOSLDuration scheme
          <= epoch scheme + Z.of_nat k * GetOSLDuration scheme <= now ->
        epoch scheme + Z.of_nat k * GetOSLDuration scheme ∈ times) /\
     forall pc, pc ∈ PropagationChannelIDs scheme ->
       exists l, m !! pc = Some l /\
         Forall2 (fun t d => makeOSLFileSpec HMAC CTR (key_scheme scheme) pc len t
                             = Ok (FileKey d, FileSpec d)) times l).
Proof.
  intros Hi Hr Hc Hover. pose proof Hr as ((Hv & _) & Hp & Hlt & He & Hn & Hd).
  destruct (GetOSLDuration_spec scheme Hv Hp Hlt) as [_ Hpos].
  set (d := GetOSLDuration scheme) in *. set (c := PaveDataOSLCount scheme) in *.
  set (start := if now - c * d <? epoch scheme then epoch scheme else now - c * d).
  assert (epoch scheme <= start <= now) as Hstart by (unfold start; destruct (Z.ltb_spec (now - c * d) (epoch scheme)); nia).
  set (fuel := Z.to_nat (now - epoch scheme + 1)).
  destruct (first_osl_spec scheme fuel start d Hpos) as (first & Hfirst & _ & Hle); [lia|unfold fuel; nia|].
  set (times := osl_times now d (epoch scheme + Z.of_nat first * d)).
  destruct (makeOSLFileSpec_total_list (key_scheme scheme)
    (pc ← PropagationChannelIDs scheme; t ← times; [(pc, t)]) Hv) as [len Hlen].
  assert (forall pc t, pc ∈ PropagationChannelIDs scheme -> t ∈ times -> exists fileKey spec,
     makeOSLFileSpec HMAC CTR (key_scheme scheme) pc len t = Ok (fileKey, spec)) as Hmake.
  { intros pc t Hpc Ht. apply Hlen; [|lia]. apply list_elem_of_bind. exists pc. split; [|done].
    apply list_elem_of_bind. exists t. split; [set_solver|done]. }
  destruct (pave_channels_loop scheme len times (PropagationChannelIDs scheme) ∅ Hmake)
    as (m & Hm & Hin & _).
  exists len, (S fuel), m, first. split; [|split].
  - rewrite (GetPaveData_loop schemes i scheme now len fuel (epoch scheme + Z.of_nat first * d));
      [exact Hm|done..|]. fold d. unfold fuel. nia.
  - intros k Hk. apply elem_of_osl_times; [done|].
    exists (k - first)%nat. split; [|lia].
    assert (start <= epoch scheme + Z.of_nat k * d) as Hsk.
    { unfold start. destruct (Z.ltb_spec (now - c * d) (epoch scheme)); nia. }
    assert (first <= k)%nat as Hfk by (destruct Hle as [->|Hle]; [lia|nia]).
    rewrite Nat2Z.inj_sub by done. lia.
  - intros pc Hpc. destruct (Hin pc Hpc) as (l & Hl & Hrun). exists l. split; [done|].
    apply res_mapM_ok in Hrun. eapply Forall2_impl; [exact Hrun|]. intros t pd H.
    unfold pave_body in H. apply res_bind_ok in H as ([k sp] & Hk & [= <-]). done.
Qed.

(** *** A seed period of zero *)

Lemma align_loop_diverges fuel startTime t : t < startTime -> align_loop fuel startTime 0 t = NoFuel.
Proof.
  intros Ht. induction fuel as [|fuel IH]; cbn [align_loop]; [done|].
  destruct (Z.ltb_spec t startTime); [|lia]. by rewrite Z.add_0_r.
Qed.

Lemma foldl_NoFuel {A B} (f : A -> B -> res A) l :
  foldl (fun acc x => a ← acc; f a x) NoFuel l = NoFuel.
Proof. induction l as [|x l IH]; [done|]. exact IH. Qed.

(** [LoadConfig] does not refuse a seed period of zero, for which the OSL
    duration is zero.  From the instant after the epoch on, the loop of
    [GetPaveData] that looks for the first OSL, which is also [Pave]'s, never
    ends, and [CurrentOSLIDs] panics. *)
Theorem zero_seed_period schemes i scheme now :
  schemes !! i = Some scheme -> sc_SeedPeriodNanoseconds scheme = 0 ->
  1 <= PaveDataOSLCount scheme -> PropagationChannelIDs scheme <> [] ->
  zeroTime < now -> epoch scheme < now ->
  (forall len fuel, GetPaveData HMAC CTR len fuel schemes (Z.of_nat i) now = NoFuel) /\
  (forall len, CurrentOSLIDs HMAC CTR len schemes (Z.of_nat i) now
               = Panic "integer divide by zero").
Proof.
  intros Hi Hp Hc Hpcs Hz Hn. pose proof (lookup_lt_Some _ _ _ Hi).
  assert (GetOSLDuration scheme = 0) as Hd.
  { unfold GetOSLDuration. by rewrite Hp, Z.mul_0_r. }
  split; intros len; [intros fuel; unfold GetPaveData|unfold CurrentOSLIDs];
    rewrite (bool_decide_eq_false_2 (Z.of_nat i < 0)), bool_decide_eq_false_2 by lia; cbn [orb];
    rewrite Nat2Z.id, Hi; cbn [res_of_option mbind res_mbind].
  - destruct (Z.ltb_spec (PaveDataOSLCount scheme) 1); [lia|]. rewrite Hd, Z.mul_0_r.
    change (i64 0) with 0. rewrite Z.add_0_r. destruct (Z.ltb_spec now (epoch scheme)); [lia|].
    destruct (decide (now = zeroTime)); [lia|]. unfold first_osl.
    rewrite bool_decide_eq_false_2 by lia. rewrite align_loop_diverges by done.
    destruct (PropagationChannelIDs scheme) as [|pc pcs]; [done|]. cbn [foldl mbind res_mbind].
    apply foldl_NoFuel.
  - unfold osl_time. rewrite Hd. destruct (decide _); [|done]. done.
Qed.

End Schedule.

(** A client that has seeded an OSL reads from its file, whatever the way the
    file is read, the package that was boxed into it with the key of the OSL; a
    client that has not is refused. *)
Theorem NewOSLReader_correct HMAC CTR iter scheme lookup pc len t fileKey spec package contents script :
  (forall m i, iter m i ≡ₚ map_to_list m) ->
  (forall k m, length (HMAC k m) = KEY_LENGTH_BYTES) ->
  (forall ref key, lookup (ID (deriveSLOK HMAC scheme ref)) = Some key ->
     key = Key (deriveSLOK HMAC scheme ref)) ->
  makeOSLFileSpec HMAC CTR scheme pc len t = Ok (fileKey, spec) ->
  box fileKey package = Ok contents -> full_reads (drop TagSize contents) script ->
  if seeded lookup (fs_KeyShares spec) then
    exists r, NewOSLReader iter contents script spec lookup = Ok r /\
      forall chunks, concat chunks = drop TagSize contents -> read_all r chunks = package
  else NewOSLReader iter contents script spec lookup = Err "unseeded OSL".
Proof.
  intros Hiter Hmac Hl Hmake Hbox Hscript. unfold NewOSLReader.
  rewrite (reassembleKey_run HMAC CTR iter Hiter Hmac _ _ _ _ _ _ lookup true Hmake Hl).
  rewrite andb_true_r. cbn [mbind res_mbind]. destruct (seeded lookup _); [|done]. cbn [negb].
  destruct (makeOSLFileSpec_run HMAC CTR Hmac _ _ _ _ _ _ Hmake) as [Hk _].
  rewrite decide_False by (by intros H). unfold box in Hbox. rewrite decide_False in Hbox by (by intros H).
  injection Hbox as <-. unfold NewOpenReadSeeker.
  match goal with |- context [reset _ _ ?r0] =>
    pose proof (reset_open _ script nonce fileKey r0 Hk Hscript eq_refl eq_refl) as H end.
  rewrite (open_seal poly1305 [] package nonce fileKey poly1305_length) in H.
  destruct H as (r & Hr & _ & _ & H). exists r. done.
Qed.

(** ** A concrete configuration

    One scheme, starting in 2020, with three seed specs, seed periods of a
    microsecond and four periods per OSL. *)

Definition example_parse_time (t : string) : res (Z * bool) := Ok (1577836800 * second, true).

Definition example_seed_spec (b : byte) : SeedSpec := {|
  ss_ID := replicate 32 b; UpstreamSubnets := ["10.0.0.0/8"]; UpstreamASNs := ["64496"; "64497"];
  Targets := {| BytesRead := 1000; BytesWritten := 1000; PortForwardDurationNanoseconds := 0 |};
  upstreamASNLookup := Strings.NewStringLookup []
|}.

Definition example_raw (period : Z) : RawScheme := {|
  raw := {| Epoch := "2020-01-01T00:00:00Z"; PaveDataOSLCount := 3; Regions := [];
            PropagationChannelIDs := [[x07]; [x08]]; sc_MasterKey := replicate 32 x55;
            SeedSpecs := []; sc_SeedSpecThreshold := 2; sc_SeedPeriodNanoseconds := period;
            sc_SeedPeriodKeySplits := [ {| Total := 2; Threshold := 1 |}; {| Total := 2; Threshold := 2 |} ];
            epoch := 0; subnetLookups := [] |};
  raw_SeedSpecs := [Some (example_seed_spec x01); Some (example_seed_spec x02); Some (example_seed_spec x03)]
|}.

Definition example_sort (l : list Subnet.IPNet) : list Subnet.IPNet := l.

(** The scheme as loaded. *)
Definition example_loaded (period : Z) : res (list Scheme) :=
  LoadConfig Subnet.example_parse example_sort example_parse_time [Some (example_raw period)].

Definition example_loaded_scheme (period : Z) : Scheme :=
  match example_loaded period with
  | Ok (scheme :: _) => scheme
  | _ => raw (example_raw period)
  end.

Lemma example_loads period :
  period = 1000 \/ period = 0 -> example_loaded period = Ok [example_loaded_scheme period].
Proof. intros [-> | ->]; vm_compute; reflexivity. Qed.

Lemma LoadConfig_valid_witness :
  Forall scheme_ok [example_loaded_scheme 1000] /\
  forall i j a b, (i <= j)%nat -> [example_loaded_scheme 1000] !! i = Some a ->
    [example_loaded_scheme 1000] !! j = Some b -> epoch a <= epoch b.
Proof.
  apply (LoadConfig_valid Subnet.example_parse example_sort example_parse_time
    [Some (example_raw 1000)]). apply example_loads. by left.
Defined.

Definition example_now : Z := 1577836800 * second + 123456789.

Lemma example_scheme_ok : scheme_ok (example_loaded_scheme 1000).
Proof.
  pose proof (example_loads 1000 (or_introl eq_refl)) as H. unfold example_loaded, LoadConfig in H.
  cbn [load_schemes mbind res_mbind] in H. apply res_bind_ok in H as (s & Hs & H).
  injection H as E. rewrite <- E.
  by apply load_scheme_ok in Hs as [? _].
Qed.

Lemma example_running : running (example_loaded_scheme 1000) example_now.
Proof.
  split; [exact example_scheme_ok|]. split_and!; vm_compute; (reflexivity || discriminate).
Qed.

Lemma current_OSL_has_issued_SLOKs_witness :
  exists oslTime, osl_time (example_loaded_scheme 1000) example_now = Ok oslTime /\
    oslTime <= example_now < oslTime + GetOSLDuration (example_loaded_scheme 1000) /\
    forall pc len fileKey spec,
      makeOSLFileSpec (SB := example_box) example_HMAC example_CTR
        (key_scheme (example_loaded_scheme 1000)) pc len oslTime = Ok (fileKey, spec) ->
      map (fun s => ID (slok_at example_HMAC (key_scheme (example_loaded_scheme 1000)) pc (ss_ID s)
             (getSLOKTime example_now (sc_SeedPeriodNanoseconds (example_loaded_scheme 1000)))))
        (SeedSpecs (example_loaded_scheme 1000)) ∈ leaves (fs_KeyShares spec).
Proof.
  apply (current_OSL_has_issued_SLOKs (SB := example_box) example_HMAC example_CTR example_iter).
  - reflexivity.
  - intros. apply length_le_store.
  - exact example_running.
Defined.

Lemma example_productive seed : productive (example_CTR seed).
Proof. intros m. by exists m. Qed.

Lemma example_iter_perm m i : example_iter m i ≡ₚ map_to_list m.
Proof. done. Qed.

Lemma example_HMAC_length k m : length (example_HMAC k m) = KEY_LENGTH_BYTES.
Proof. apply length_le_store. Qed.

Lemma GetPaveData_correct_witness :
  exists len fuel m first,
    GetPaveData (SB := example_box) example_HMAC example_CTR len fuel [example_loaded_scheme 1000] 0
      example_now = Ok m /\
    (let times := osl_times example_now (GetOSLDuration (example_loaded_scheme 1000))
        (epoch (example_loaded_scheme 1000) +
         Z.of_nat first * GetOSLDuration (example_loaded_scheme 1000)) in
     forall pc, pc ∈ PropagationChannelIDs (example_loaded_scheme 1000) ->
       exists l, m !! pc = Some l /\
         Forall2 (fun t d => makeOSLFileSpec (SB := example_box) example_HMAC example_CTR
           (key_scheme (example_loaded_scheme 1000)) pc len t = Ok (FileKey d, FileSpec d)) times l).
Proof.
  destruct (GetPaveData_correct (SB := example_box) example_HMAC example_CTR example_iter
    example_iter_perm example_HMAC_length
    example_productive
    [example_loaded_scheme 1000] 0 (example_loaded_scheme 1000) example_now eq_refl example_running)
    as (len & fuel & m & first & Hm & _ & H).
  - vm_compute. discriminate.
  - vm_compute. reflexivity.
  - exists len, fuel, m, first. split; [exact Hm|exact H].
Defined.

Lemma zero_seed_period_witness :
  example_loaded 0 = Ok [example_loaded_scheme 0] /\
  (forall len fuel, GetPaveData (SB := example_box) example_HMAC example_CTR len fuel
     [example_loaded_scheme 0] 0 example_now = NoFuel) /\
  (forall len, CurrentOSLIDs (SB := example_box) example_HMAC example_CTR len
     [example_loaded_scheme 0] 0 example_now = Panic "integer divide by zero").
Proof.
  split; [apply example_loads; by right|].
  apply (zero_seed_period (SB := example_box) example_HMAC example_CTR
    [example_loaded_scheme 0] 0 (example_loaded_scheme 0) example_now eq_refl);
    vm_compute; (reflexivity || discriminate).
Defined.

Lemma example_valid_scheme : valid_scheme example_scheme.
Proof. split_and!; [reflexivity|cbn; lia|by repeat constructor]. Qed.

Lemma Next_correct_witness :
  exists fileKey spec r,
    makeOSLFileSpec (SB := example_box) example_HMAC example_CTR example_scheme [x07] 2000 5000
      = Ok (fileKey, spec) /\
    Next (SB := example_box) example_iter example_lookup [spec] = Ok r /\
    match r with
    | None => forall s, s ∈ [spec] -> seeded example_lookup (fs_KeyShares s) = false
    | Some (sp, rest) => exists skipped, [spec] = skipped ++ sp :: rest /\
        seeded example_lookup (fs_KeyShares sp) = true /\
        forall s, s ∈ skipped -> seeded example_lookup (fs_KeyShares s) = false
    end.
Proof.
  destruct example_spec_ok as (fileKey & spec & E).
  destruct (Next_correct (SB := example_box) example_HMAC example_CTR example_iter
    example_iter_perm example_HMAC_length example_scheme example_lookup
    example_lookup_sound [spec]) as (r & Hr & H).
  - intros s ->%list_elem_of_singleton. exists [x07], 2000%nat, 5000, fileKey. exact E.
  - exists fileKey, spec, r. split; [exact E|]. split; [exact Hr|exact H].
Defined.

Lemma NewOSLReader_correct_witness :
  exists fileKey spec contents script,
    if seeded example_lookup (fs_KeyShares spec) then
      exists r, NewOSLReader example_iter contents script spec example_lookup = Ok r /\
        box fileKey [x01; x02; x03] = Ok contents /\
        forall chunks, concat chunks = drop TagSize contents -> read_all r chunks = [x01; x02; x03]
    else NewOSLReader example_iter contents script spec example_lookup = Err "unseeded OSL".
Proof.
  destruct (makeOSLFileSpec_total example_HMAC example_CTR example_iter example_iter_perm
    example_HMAC_length example_scheme [x07] 5000 example_valid_scheme
    example_productive) as (len & fileKey & spec & Hmake).
  specialize (Hmake len (le_n len)).
  destruct (makeOSLFileSpec_run example_HMAC example_CTR example_HMAC_length
    _ _ _ _ _ _ Hmake) as [Hk _].
  destruct (box_ok fileKey [x01; x02; x03] Hk) as [contents Hbox].
  destruct (full_reads_exists (drop TagSize contents)) as [script Hscript].
  exists fileKey, spec, contents, script.
  pose proof (NewOSLReader_correct example_HMAC example_CTR example_iter example_scheme example_lookup
    [x07] len 5000 fileKey spec [x01; x02; x03] contents script example_iter_perm
    example_HMAC_length example_lookup_sound Hmake Hbox Hscript) as H.
  destruct (seeded example_lookup (fs_KeyShares spec)); [|exact H].
  destruct H as (r & Hr & H). exists r. split; [exact Hr|]. split; [exact Hbox|exact H].
Defined.
