(* ===== verification/OslSeed.v ===== *)
(** * OSL seeding

    Models the server's tracking of client progress in
    src/psiphon/common/osl/osl.go: [ClientSeedState] with its operations
    [NewClientSeedState], [NewClientSeedPortForward], [UpdateProgress],
    [issueSLOKs], [GetSeedPayload], [ClearSeedPayload], [Hibernate] and [Resume].

    A [ClientSeedProgress] points to its scheme: here it holds the index of the
    scheme.  The cache of derived SLOKs belongs to the scheme and is shared by all
    clients, so it is kept apart from the client's state.  Every call of
    [time.Now] takes the next reading of the parameter [clock].  The counters are
    64-bit integers.  The locks make each operation one step; the lock-free part
    of [UpdateProgress] is modelled without interference from other goroutines. *)

From Stdlib Require Import ZArith Lia Strings.Byte.
From stdpp Require Import base gmap list sets strings.
From S2P Require Import Prelude Lookups OslKeys OslPave.
#[local] Open Scope Z_scope.

(** ** Traffic counters *)

Record trafficCounters := {
  bytesRead : Z;
  bytesWritten : Z;
  portForwardDurationNanoseconds : Z
}.

Definition newTrafficCounters : trafficCounters :=
  {| bytesRead := 0; bytesWritten := 0; portForwardDurationNanoseconds := 0 |}.

Definition add (c : trafficCounters) (br bw d : Z) : trafficCounters := {|
  bytesRead := i64 (bytesRead c + br);
  bytesWritten := i64 (bytesWritten c + bw);
  portForwardDurationNanoseconds := i64 (portForwardDurationNanoseconds c + d)
|}.

Definition exceeds (c : trafficCounters) (target : TrafficValues) : bool :=
  (BytesRead target <=? bytesRead c) && (BytesWritten target <=? bytesWritten c) &&
  (PortForwardDurationNanoseconds target <=? portForwardDurationNanoseconds c).

Definition reset (c : trafficCounters) : trafficCounters := newTrafficCounters.

(** ** The state of a client *)

Record ClientSeedProgress := {
  progressSLOKTime : Z;
  cp_scheme : nat;
  trafficProgress : list trafficCounters
}.

(** A channel with a buffer: how many signals it holds and can hold. *)
Record signal := { pending : nat; capacity : nat }.

Record ClientSeedState := {
  propagationChannelID : bytes;
  seedProgress : list ClientSeedProgress;
  signalIssueSLOKs : option signal;
  issuedSLOKs : gmap bytes SLOK;
  payloadSLOKs : list SLOK
}.

Record progressReference := { seedProgressIndex : nat; trafficProgressIndex : nat }.

(** The client, the caches of the schemes and the clock readings taken. *)
Record seed_state := {
  client : ClientSeedState;
  derivedSLOKCache : list (gmap slokReference SLOK);
  ticks : nat
}.

Definition set_client (s : seed_state) (c : ClientSeedState) : seed_state :=
  {| client := c; derivedSLOKCache := derivedSLOKCache s; ticks := ticks s |}.

Definition set_progress (c : ClientSeedState) (l : list ClientSeedProgress) : ClientSeedState := {|
  propagationChannelID := propagationChannelID c; seedProgress := l;
  signalIssueSLOKs := signalIssueSLOKs c; issuedSLOKs := issuedSLOKs c;
  payloadSLOKs := payloadSLOKs c |}.

Definition set_signal (c : ClientSeedState) (sg : option signal) : ClientSeedState := {|
  propagationChannelID := propagationChannelID c; seedProgress := seedProgress c;
  signalIssueSLOKs := sg; issuedSLOKs := issuedSLOKs c; payloadSLOKs := payloadSLOKs c |}.

Definition set_payload (c : ClientSeedState) (l : list SLOK) : ClientSeedState := {|
  propagationChannelID := propagationChannelID c; seedProgress := seedProgress c;
  signalIssueSLOKs := signalIssueSLOKs c; issuedSLOKs := issuedSLOKs c; payloadSLOKs := l |}.

Definition modify (f : ClientSeedState -> ClientSeedState) : stres seed_state unit :=
  fun s => Ok (tt, set_client s (f (client s))).

Definition out_of_range {A} (o : option A) : stres seed_state A :=
  st_lift (res_of_option "index out of range" o).

Section Seeding.
Context (HMAC : bytes -> bytes -> bytes) (clock : nat -> Z).
Context (schemes : list Scheme).

(** [time.Now()] *)
Definition time_Now : stres seed_state Z := fun s =>
  Ok (clock (ticks s),
      {| client := client s; derivedSLOKCache := derivedSLOKCache s; ticks := S (ticks s) |}).

(** ** New states *)

Definition NewClientSeedState (clientRegion pc : bytes) (sg : option signal) (t0 : nat)
  : ClientSeedState * nat :=
  let '(progress, t) :=
    foldl (fun acc ischeme =>
        let '(progress, t) := acc in let '(i, scheme) := ischeme in
        (* the comparison with the epoch reads the clock *)
        let now := clock t in
        if bool_decide (epoch scheme < now) &&
           (bool_decide (pc ∈ PropagationChannelIDs scheme) &&
            (bool_decide (length (Regions scheme) = 0%nat) || bool_decide (clientRegion ∈ Regions scheme)))
        then
          (progress ++
             [ {| progressSLOKTime := getSLOKTime (clock (S t)) (sc_SeedPeriodNanoseconds scheme);
                  cp_scheme := i;
                  trafficProgress := replicate (length (SeedSpecs scheme)) newTrafficCounters |} ],
           S (S t))
        else (progress, S t))
      ([], t0) (imap pair schemes) in
  ({| propagationChannelID := pc; seedProgress := progress; signalIssueSLOKs := sg;
      issuedSLOKs := ∅; payloadSLOKs := [] |}, t).

Definition Hibernate : stres seed_state unit := modify (fun c => set_signal c None).

Definition Resume (sg : option signal) : stres seed_state unit := modify (fun c => set_signal c sg).

(** ** Port forwards *)

(** Whether the address counts towards a seed spec; [asn] is the ASN looked up so
    far. *)
Definition matches_seed_spec (lookupASN : option (bytes -> string)) (upstreamIPAddress : bytes)
    (seedSpec : SeedSpec) (subnetLookup : list Subnet.IPNet) (asn : option string)
  : res (bool * option string) :=
  matchesSeedSpec ← Subnet.ContainsIPAddress subnetLookup upstreamIPAddress;
  match lookupASN with
  | Some lookupASN =>
      if negb matchesSeedSpec && bool_decide (0 < length (UpstreamASNs seedSpec))%nat then
        let upstreamASN := match asn with Some a => a | None => lookupASN upstreamIPAddress end in
        Ok (Strings.Contains (upstreamASNLookup seedSpec) upstreamASN, Some upstreamASN)
      else Ok (matchesSeedSpec, asn)
  | None => Ok (matchesSeedSpec, asn)
  end.

(** The inner loop over the seed specs of a scheme. *)
Fixpoint port_forward_specs (lookupASN : option (bytes -> string)) (upstreamIPAddress : bytes)
    (subnets : list (list Subnet.IPNet)) (i j : nat) (seedSpecs : list SeedSpec) (asn : option string)
  : res (list progressReference) :=
  match seedSpecs with
  | [] => Ok []
  | seedSpec :: seedSpecs =>
      subnetLookup ← res_of_option "index out of range" (subnets !! j);
      '(m, asn) ← matches_seed_spec lookupASN upstreamIPAddress seedSpec subnetLookup asn;
      rest ← port_forward_specs lookupASN upstreamIPAddress subnets i (S j) seedSpecs asn;
      Ok (if (m : bool) then {| seedProgressIndex := i; trafficProgressIndex := j |} :: rest else rest)
  end.

Fixpoint port_forward_loop (lookupASN : option (bytes -> string)) (upstreamIPAddress : bytes)
    (i : nat) (l : list ClientSeedProgress) : res (list progressReference) :=
  match l with
  | [] => Ok []
  | p :: l =>
      scheme ← res_of_option "nil scheme" (schemes !! cp_scheme p);
      refs ← port_forward_specs lookupASN upstreamIPAddress (subnetLookups scheme) i 0
               (SeedSpecs scheme) None;
      rest ← port_forward_loop lookupASN upstreamIPAddress (S i) l;
      Ok (refs ++ rest)
  end.

(** The references of the port forward; no reference is the nil result. *)
Definition NewClientSeedPortForward (c : ClientSeedState) (upstreamIPAddress : bytes)
    (lookupASN : option (bytes -> string)) : res (list progressReference) :=
  port_forward_loop lookupASN upstreamIPAddress 0 (seedProgress c).

(** ** Signals *)

Definition send (sg : signal) : signal :=
  if decide (pending sg < capacity sg)%nat
  then {| pending := S (pending sg); capacity := capacity sg |} else sg.

Definition sendIssueSLOKsSignal : stres seed_state unit :=
  modify (fun c => set_signal c (send <$> signalIssueSLOKs c)).

(** ** Issuing SLOKs *)

(** The SLOK of a reference, from the cache of its scheme or derived and cached. *)
Definition cached_slok (i : nat) (scheme : Scheme) (ref : slokReference) : stres seed_state SLOK :=
  fun s =>
    match derivedSLOKCache s !! i ≫= (.!! ref) with
    | Some slok => Ok (slok, s)
    | None =>
        let slok := deriveSLOK HMAC (key_scheme scheme) ref in
        Ok (slok, {| client := client s;
                     derivedSLOKCache := alter (<[ref := slok]>) i (derivedSLOKCache s);
                     ticks := ticks s |})
    end.

Definition add_issued (slok : SLOK) (c : ClientSeedState) : ClientSeedState :=
  match issuedSLOKs c !! ID slok with
  | None => {| propagationChannelID := propagationChannelID c; seedProgress := seedProgress c;
               signalIssueSLOKs := signalIssueSLOKs c;
               issuedSLOKs := <[ID slok := slok]> (issuedSLOKs c);
               payloadSLOKs := payloadSLOKs c ++ [slok] |}
  | Some _ => c
  end.

(** The loop over the counters of one scheme, from the seed spec at [index]. *)
Fixpoint issue_specs (i : nat) (scheme : Scheme) (slokTime : Z) (index : nat)
    (counters : list trafficCounters) : stres seed_state unit :=
  match counters with
  | [] => mret tt
  | c :: counters =>
      seedSpec ← out_of_range (SeedSpecs scheme !! index);
      _ ← (if exceeds c (Targets seedSpec) then
             pc ← (fun s => Ok (propagationChannelID (client s), s)) : stres seed_state bytes;
             slok ← cached_slok i scheme
                      {| PropagationChannelID := pc; SeedSpecID := ss_ID seedSpec; Time := slokTime |};
             modify (add_issued slok)
           else mret tt);
      issue_specs i scheme slokTime (S index) counters
  end.

Definition roll_over (slokTime : Z) (p : ClientSeedProgress) : ClientSeedProgress :=
  if decide (slokTime = progressSLOKTime p) then p
  else {| progressSLOKTime := slokTime; cp_scheme := cp_scheme p;
          trafficProgress := map reset (trafficProgress p) |}.

(** One iteration of the loop over the schemes of the client. *)
Definition issue_progress (k : nat) : stres seed_state unit :=
  p ← (fun s => out_of_range (seedProgress (client s) !! k) s) : stres seed_state ClientSeedProgress;
  scheme ← out_of_range (schemes !! cp_scheme p);
  _ ← issue_specs (cp_scheme p) scheme (progressSLOKTime p) 0 (trafficProgress p);
  now ← time_Now;
  modify (fun c => set_progress c
    (alter (roll_over (getSLOKTime now (sc_SeedPeriodNanoseconds scheme))) k (seedProgress c))).

Fixpoint issue_loop (ks : list nat) : stres seed_state unit :=
  match ks with
  | [] => mret tt
  | k :: ks => _ ← issue_progress k; issue_loop ks
  end.

Definition issueSLOKs : stres seed_state unit := fun s =>
  issue_loop (seq 0 (length (seedProgress (client s)))) s.

(** ** Progress *)

Definition update_reference (br bw d : Z) (r : progressReference) : stres seed_state unit :=
  p ← (fun s => out_of_range (seedProgress (client s) !! seedProgressIndex r) s)
        : stres seed_state ClientSeedProgress;
  scheme ← out_of_range (schemes !! cp_scheme p);
  now ← time_Now;
  _ ← (if decide (getSLOKTime now (sc_SeedPeriodNanoseconds scheme) <> progressSLOKTime p) then
         _ ← issueSLOKs; sendIssueSLOKsSignal
       else mret tt);
  seedSpec ← out_of_range (SeedSpecs scheme !! trafficProgressIndex r);
  p ← (fun s => out_of_range (seedProgress (client s) !! seedProgressIndex r) s)
        : stres seed_state ClientSeedProgress;
  c ← out_of_range (trafficProgress p !! trafficProgressIndex r);
  let c' := add c br bw d in
  _ ← modify (fun cl => set_progress cl
        (alter (fun p => {| progressSLOKTime := progressSLOKTime p; cp_scheme := cp_scheme p;
                            trafficProgress := <[trafficProgressIndex r := c']> (trafficProgress p) |})
           (seedProgressIndex r) (seedProgress cl)));
  if negb (exceeds c (Targets seedSpec)) && exceeds c' (Targets seedSpec)
  then sendIssueSLOKsSignal else mret tt.

Fixpoint UpdateProgress (progressReferences : list progressReference) (br bw d : Z)
  : stres seed_state unit :=
  match progressReferences with
  | [] => mret tt
  | r :: rs => _ ← update_reference br bw d r; UpdateProgress rs br bw d
  end.

(** ** Payloads *)

Definition GetSeedPayload : stres seed_state (list SLOK) := fun s =>
  if decide (length (seedProgress (client s)) = 0%nat) then Ok ([], s)
  else
    match issueSLOKs s with
    | Ok (_, s') => Ok (payloadSLOKs (client s'), s')
    | Err e => Err e
    | Panic e => Panic e
    | NoFuel => NoFuel
    end.

Definition ClearSeedPayload : stres seed_state unit := modify (fun c => set_payload c []).

(** ** The invariant *)

(** A SLOK of one of the schemes, for the propagation channel of the client. *)
Definition genuine (pc : bytes) (slok : SLOK) : Prop :=
  exists scheme spec t, scheme ∈ schemes /\ spec ∈ SeedSpecs scheme /\
    slok = deriveSLOK HMAC (key_scheme scheme)
             {| PropagationChannelID := pc; SeedSpecID := ss_ID spec; Time := t |}.

Definition progress_ok (p : ClientSeedProgress) : Prop :=
  exists scheme, schemes !! cp_scheme p = Some scheme /\
    length (trafficProgress p) = length (SeedSpecs scheme).

(** A cache holds only what it would take to derive again. *)
Definition cache_ok (caches : list (gmap slokReference SLOK)) : Prop :=
  forall i m scheme ref slok, caches !! i = Some m -> schemes !! i = Some scheme ->
    m !! ref = Some slok -> slok = deriveSLOK HMAC (key_scheme scheme) ref.

(** [delivered] are the SLOKs of the payloads cleared before. *)
Record inv (delivered : list SLOK) (s : seed_state) : Prop := {
  inv_cache : cache_ok (derivedSLOKCache s);
  inv_progress : Forall progress_ok (seedProgress (client s));
  inv_issued : forall id slok, issuedSLOKs (client s) !! id = Some slok ->
    ID slok = id /\ genuine (propagationChannelID (client s)) slok;
  inv_once : NoDup (map ID (delivered ++ payloadSLOKs (client s)));
  inv_payload : forall slok, slok ∈ delivered ++ payloadSLOKs (client s) ->
    issuedSLOKs (client s) !! ID slok = Some slok
}.

(** What issuing changes: the IDs in [due] become issued, the newly issued SLOKs
    are appended to the payload, and nothing else of the client changes. *)
Record issues (due : bytes -> Prop) (c c' : ClientSeedState) : Prop := {
  is_channel : propagationChannelID c' = propagationChannelID c;
  is_signal : signalIssueSLOKs c' = signalIssueSLOKs c;
  is_due : forall id, is_Some (issuedSLOKs c' !! id) <-> is_Some (issuedSLOKs c !! id) \/ due id;
  is_kept : issuedSLOKs c ⊆ issuedSLOKs c';
  is_payload : exists new, payloadSLOKs c' = payloadSLOKs c ++ new /\
    forall slok, slok ∈ new <->
      issuedSLOKs c' !! ID slok = Some slok /\ issuedSLOKs c !! ID slok = None
}.

Lemma issues_refl c : issues (fun _ => False) c c.
Proof.
  split; [done..|naive_solver|done|]. exists []. rewrite app_nil_r. split; [done|]. set_solver.
Qed.

Lemma issues_trans d1 d2 c1 c2 c3 :
  issues d1 c1 c2 -> issues d2 c2 c3 -> issues (fun id => d1 id \/ d2 id) c1 c3.
Proof.
  intros [H1 H2 H3 H4 (n1 & H5 & H6)] [K1 K2 K3 K4 (n2 & K5 & K6)]. split.
  - congruence.
  - congruence.
  - intros id. rewrite K3, H3. tauto.
  - by etrans.
  - exists (n1 ++ n2). rewrite K5, H5, app_assoc. split; [done|]. intros slok.
    rewrite elem_of_app, H6, K6. split.
    + intros [[Ha Hb]|[Ha Hb]]; split; try done; [by eapply lookup_weaken|].
      by eapply lookup_weaken_None.
    + intros [Ha Hb]. destruct (issuedSLOKs c2 !! ID slok) as [slok'|] eqn:E; [left|by right].
      split; [|done]. pose proof (lookup_weaken _ _ _ _ E K4). congruence.
Qed.

Lemma issues_weaken (d1 d2 : bytes -> Prop) c c' :
  (forall id, d1 id <-> d2 id) -> issues d1 c c' -> issues d2 c c'.
Proof. intros Hd [H1 H2 H3 H4 H5]. split; try done. intros id. by rewrite H3, Hd. Qed.

Lemma add_issued_issues slok c :
  issues (fun id => id = ID slok) c (add_issued slok c) /\
  seedProgress (add_issued slok c) = seedProgress c.
Proof.
  unfold add_issued. destruct (issuedSLOKs c !! ID slok) as [slok'|] eqn:E.
  - split; [|done]. split; try done.
    + intros id. split; [by left|]. intros [?| ->]; [done|]. by rewrite E.
    + exists []. rewrite app_nil_r. split; [done|]. intros x. split; [set_solver|].
      intros [Ha Hb]. congruence.
  - split; [|done]. split; try done; cbn.
    + intros id. rewrite lookup_insert_is_Some. destruct (decide (ID slok = id)); naive_solver.
    + by apply insert_subseteq.
    + exists [slok]. split; [done|]. intros x. rewrite list_elem_of_singleton. split.
      * intros ->. by rewrite lookup_insert_eq.
      * intros [[[_ ->]|[_ Ha]]%lookup_insert_Some Hb]; [done|congruence].
Qed.

Lemma add_issued_inv delivered slok s :
  genuine (propagationChannelID (client s)) slok -> inv delivered s ->
  inv delivered (set_client s (add_issued slok (client s))).
Proof.
  intros Hg [H1 H2 H3 H4 H5]. unfold add_issued.
  destruct (issuedSLOKs (client s) !! ID slok) as [slok'|] eqn:E; split; cbn; try done.
  - intros id x [[<- <-]|[_ Hx]]%lookup_insert_Some; [done|by apply H3].
  - rewrite app_assoc, map_app, NoDup_app. cbn. split; [done|]. split; [|apply NoDup_singleton].
    intros id (x & -> & Hx)%list_elem_of_fmap Hid%list_elem_of_singleton.
    apply H5 in Hx. congruence.
  - rewrite app_assoc. intros x [Hx| ->%list_elem_of_singleton]%elem_of_app;
      [|by rewrite lookup_insert_eq]. rewrite lookup_insert_ne; [by apply H5|].
    intros Heq. apply H5 in Hx. congruence.
Qed.

Lemma cached_slok_spec delivered i scheme ref s :
  inv delivered s -> schemes !! i = Some scheme ->
  exists s', cached_slok i scheme ref s = Ok (deriveSLOK HMAC (key_scheme scheme) ref, s') /\
    client s' = client s /\ ticks s' = ticks s /\ inv delivered s'.
Proof.
  intros Hinv Hi. unfold cached_slok. pose proof (inv_cache _ _ Hinv) as Hc.
  destruct (derivedSLOKCache s !! i ≫= (.!! ref)) as [slok|] eqn:E.
  - apply bind_Some in E as (m & Hm & Hr). exists s. by rewrite (Hc _ _ _ _ _ Hm Hi Hr).
  - eexists. split; [done|]. cbn. split_and!; [done..|]. destruct Hinv. split; cbn; try done.
    intros j m scheme' ref' slok Hm Hj Hr.
    destruct (decide (i = j)) as [<-|Hne].
    + rewrite list_lookup_alter_eq in Hm. apply fmap_Some in Hm as (m0 & Hm0 & ->).
      assert (scheme' = scheme) as -> by congruence.
      apply lookup_insert_Some in Hr as [[<- <-]|[_ Hr]]; [done|]. by eapply (Hc i m0).
    + rewrite list_lookup_alter_ne in Hm by done. by eapply (Hc j m).
Qed.

(** The IDs of the seed specs from [index] on whose targets the counters meet. *)
Definition due_specs (pc : bytes) (scheme : Scheme) (slokTime : Z) (index : nat)
    (counters : list trafficCounters) (id : bytes) : Prop :=
  exists j c spec, counters !! j = Some c /\ SeedSpecs scheme !! (index + j)%nat = Some spec /\
    exceeds c (Targets spec) = true /\
    id = ID (deriveSLOK HMAC (key_scheme scheme)
           {| PropagationChannelID := pc; SeedSpecID := ss_ID spec; Time := slokTime |}).

Lemma due_specs_cons pc scheme t index c counters spec id :
  SeedSpecs scheme !! index = Some spec ->
  due_specs pc scheme t index (c :: counters) id <->
  (exceeds c (Targets spec) = true /\
   id = ID (deriveSLOK HMAC (key_scheme scheme)
          {| PropagationChannelID := pc; SeedSpecID := ss_ID spec; Time := t |})) \/
  due_specs pc scheme t (S index) counters id.
Proof.
  intros Hs. unfold due_specs. split.
  - intros ([|j] & c' & spec' & Hc & Hsp & He & ->).
    + rewrite Nat.add_0_r in Hsp. simpl in Hc. simplify_eq. by left.
    + right. exists j, c', spec'. split_and!; try done. by rewrite <- Hsp; f_equal; lia.
  - intros [[He ->]|(j & c' & spec' & Hc & Hsp & He & ->)].
    + exists 0%nat, c, spec. by rewrite Nat.add_0_r.
    + exists (S j), c', spec'. split_and!; try done. by rewrite <- Hsp; f_equal; lia.
Qed.

Lemma issue_specs_spec delivered i scheme slokTime index counters s :
  inv delivered s -> schemes !! i = Some scheme ->
  (index + length counters <= length (SeedSpecs scheme))%nat ->
  exists s', issue_specs i scheme slokTime index counters s = Ok (tt, s') /\
    inv delivered s' /\ ticks s' = ticks s /\
    seedProgress (client s') = seedProgress (client s) /\
    issues (due_specs (propagationChannelID (client s)) scheme slokTime index counters)
      (client s) (client s').
Proof.
  revert index s. induction counters as [|c counters IH]; intros index s Hinv Hi Hlen.
  { exists s. split_and!; try done. eapply issues_weaken; [|apply issues_refl].
    intros id. split; [done|]. by intros (j & c & spec & Hj & _); rewrite lookup_nil in Hj. }
  cbn [length] in Hlen. destruct (lookup_lt_is_Some_2 (SeedSpecs scheme) index) as [spec Hspec]; [lia|].
  cbn [issue_specs]. unfold out_of_range. rewrite Hspec. unfold mbind, stres_mbind, st_lift.
  cbn [res_of_option]. destruct (exceeds c (Targets spec)) eqn:Ee.
  - destruct (cached_slok_spec delivered i scheme {| PropagationChannelID := propagationChannelID (client s);
      SeedSpecID := ss_ID spec; Time := slokTime |} s Hinv Hi) as (s1 & -> & Hc1 & Ht1 & Hinv1).
    unfold modify. set (slok := deriveSLOK _ _ _) in *.
    destruct (IH (S index) (set_client s1 (add_issued slok (client s1)))) as (s2 & -> & Hinv2 & Ht2 & Hp2 & His2).
    + apply add_issued_inv; [|done]. rewrite Hc1. exists scheme, spec, slokTime.
      split_and!; [by eapply list_elem_of_lookup_2..|done].
    + done.
    + lia.
    + exists s2. cbn [client set_client ticks] in *. rewrite Hc1 in *.
      destruct (add_issued_issues slok (client s)) as [His Hp]. split_and!; try congruence; try done.
      eapply issues_weaken; [|eapply issues_trans; [exact His|exact His2]]. intros id. cbn beta.
      rewrite (due_specs_cons _ _ _ _ _ _ _ _ Hspec), Ee, (is_channel _ _ _ His). naive_solver.
  - destruct (IH (S index) s) as (s2 & H2 & Hinv2 & Ht2 & Hp2 & His2); [done..|lia|].
    exists s2. unfold mret, stres_mret. rewrite H2. split_and!; try done.
    eapply issues_weaken; [|exact His2]. intros id.
    rewrite (due_specs_cons _ _ _ _ _ _ _ _ Hspec), Ee. naive_solver.
Qed.

(** The IDs due for the progress at index [k]. *)
Definition due_progress (c : ClientSeedState) (k : nat) (id : bytes) : Prop :=
  exists p scheme, seedProgress c !! k = Some p /\ schemes !! cp_scheme p = Some scheme /\
    due_specs (propagationChannelID c) scheme (progressSLOKTime p) 0 (trafficProgress p) id.

Lemma roll_over_ok t p : progress_ok p -> progress_ok (roll_over t p).
Proof.
  intros (scheme & Hs & Hl). unfold roll_over. destruct (decide _); [by exists scheme|].
  exists scheme. cbn. by rewrite length_map.
Qed.

Lemma set_progress_inv delivered s l :
  inv delivered s -> Forall progress_ok l -> inv delivered (set_client s (set_progress (client s) l)).
Proof. intros [H1 H2 H3 H4 H5] Hl. by split. Qed.

Lemma Forall_alter_at {A} (P : A -> Prop) (f : A -> A) k l :
  Forall P l -> (forall x, P x -> P (f x)) -> Forall P (alter f k l).
Proof.
  intros Hl Hf. rewrite Forall_lookup in *. intros i x Hx. destruct (decide (k = i)) as [<-|Hne].
  - rewrite list_lookup_alter_eq in Hx. apply fmap_Some in Hx as (y & Hy & ->). eauto.
  - rewrite list_lookup_alter_ne in Hx by done. eauto.
Qed.

Lemma issue_progress_spec delivered k p scheme s :
  inv delivered s -> seedProgress (client s) !! k = Some p -> schemes !! cp_scheme p = Some scheme ->
  exists s', issue_progress k s = Ok (tt, s') /\ inv delivered s' /\ ticks s' = S (ticks s) /\
    seedProgress (client s') =
      alter (roll_over (getSLOKTime (clock (ticks s)) (sc_SeedPeriodNanoseconds scheme))) k
        (seedProgress (client s)) /\
    issues (due_progress (client s) k) (client s) (client s').
Proof.
  intros Hinv Hp Hs. pose proof (inv_progress _ _ Hinv) as Hok. rewrite Forall_lookup in Hok.
  destruct (Hok _ _ Hp) as (scheme' & Hs' & Hl). assert (scheme' = scheme) as -> by congruence.
  destruct (issue_specs_spec delivered (cp_scheme p) scheme (progressSLOKTime p) 0 (trafficProgress p) s)
    as (s1 & Hrun & Hinv1 & Ht1 & Hp1 & His1); [done..|lia|].
  unfold issue_progress, out_of_range. unfold mbind, stres_mbind, st_lift. rewrite Hp.
  cbn [res_of_option]. rewrite Hs. cbn [res_of_option]. rewrite Hrun. unfold time_Now, modify.
  eexists. split; [reflexivity|]. cbn [ticks set_client client seedProgress set_progress]. rewrite Ht1, Hp1.
  split_and!; [|done..|].
  - apply (set_progress_inv delivered {| client := client s1; derivedSLOKCache := derivedSLOKCache s1;
      ticks := S (ticks s) |}); [by destruct Hinv1|].
    apply Forall_alter_at; [by rewrite <- Hp1; apply Hinv1|]. apply roll_over_ok.
  - eapply issues_weaken; [|destruct His1 as [A B C D E]; split; [exact A|exact B|exact C|exact D|exact E]].
    intros id. unfold due_progress. split; [by eauto|].
    intros (p' & scheme' & ? & ? & ?). by simplify_eq.
Qed.

(** The progress at [k] after an iteration that read the clock at [tick]. *)
Definition rolled (tick : nat) (p p' : ClientSeedProgress) : Prop :=
  exists scheme, schemes !! cp_scheme p = Some scheme /\
    p' = roll_over (getSLOKTime (clock tick) (sc_SeedPeriodNanoseconds scheme)) p.

Lemma issue_loop_spec delivered k0 m s :
  inv delivered s -> (k0 + m <= length (seedProgress (client s)))%nat ->
  exists s', issue_loop (seq k0 m) s = Ok (tt, s') /\ inv delivered s' /\
    ticks s' = (ticks s + m)%nat /\
    length (seedProgress (client s')) = length (seedProgress (client s)) /\
    (forall k, (k < k0)%nat -> seedProgress (client s') !! k = seedProgress (client s) !! k) /\
    (forall j p, (j < m)%nat -> seedProgress (client s) !! (k0 + j)%nat = Some p ->
       exists p', seedProgress (client s') !! (k0 + j)%nat = Some p' /\ rolled (ticks s + j) p p') /\
    issues (fun id => exists j, (j < m)%nat /\ due_progress (client s) (k0 + j) id) (client s) (client s').
Proof.
  revert k0 s. induction m as [|m IH]; intros k0 s Hinv Hlen; cbn [seq issue_loop].
  { exists s. split_and!; try done; [lia..|]. eapply issues_weaken; [|apply issues_refl].
    intros id. split; [done|]. intros (j & ? & _). lia. }
  destruct (lookup_lt_is_Some_2 (seedProgress (client s)) k0) as [p Hp]; [lia|].
  pose proof (inv_progress _ _ Hinv) as Hok. rewrite Forall_lookup in Hok.
  destruct (Hok _ _ Hp) as (scheme & Hs & _).
  destruct (issue_progress_spec delivered k0 p scheme s Hinv Hp Hs) as (s1 & Hr1 & Hinv1 & Ht1 & Hp1 & His1).
  destruct (IH (S k0) s1) as (s2 & Hr2 & Hinv2 & Ht2 & Hl2 & Hlo2 & Hmid2 & His2);
    [done|rewrite Hp1, length_alter; lia|].
  exists s2. unfold mbind, stres_mbind. rewrite Hr1, Hr2.
  split; [done|]. split; [done|]. split; [lia|]. split; [by rewrite Hl2, Hp1, length_alter|].
  split; [|split].
  - intros k Hk. rewrite Hlo2 by lia. rewrite Hp1. by rewrite list_lookup_alter_ne by lia.
  - intros [|j] q Hj Hq.
    + rewrite Nat.add_0_r in *. exists (roll_over (getSLOKTime (clock (ticks s))
        (sc_SeedPeriodNanoseconds scheme)) p). assert (q = p) as -> by congruence.
      rewrite Hlo2 by lia. rewrite Hp1, list_lookup_alter_eq, Hp. split; [done|].
      exists scheme. by rewrite Nat.add_0_r.
    + replace (k0 + S j)%nat with (S k0 + j)%nat in * by lia.
      destruct (Hmid2 j q) as (q' & Hq' & Hro); [lia| |].
      { rewrite Hp1, list_lookup_alter_ne by lia. done. }
      exists q'. split; [done|]. rewrite Ht1 in Hro. by replace (ticks s + S j)%nat with (S (ticks s) + j)%nat by lia.
  - eapply issues_weaken; [|eapply issues_trans; [exact His1|exact His2]]. intros id. cbn beta.
    assert (forall j, due_progress (client s1) (S k0 + j) id <-> due_progress (client s) (S k0 + j) id) as Hdue.
    { intros j. unfold due_progress. rewrite Hp1, list_lookup_alter_ne by lia.
      by rewrite (is_channel _ _ _ His1). }
    split.
    + intros [H|(j & Hj & H)]; [exists 0%nat; rewrite Nat.add_0_r; split; [lia|done]|].
      exists (S j). split; [lia|]. apply Hdue in H. by replace (k0 + S j)%nat with (S k0 + j)%nat by lia.
    + intros ([|j] & Hj & H); [left; by rewrite Nat.add_0_r in H|]. right. exists j. split; [lia|].
      apply Hdue. by replace (S k0 + j)%nat with (k0 + S j)%nat by lia.
Qed.

(** The IDs of all the SLOKs a client has earned since its progress was last
    reset. *)
Definition due (c : ClientSeedState) (id : bytes) : Prop := exists k, due_progress c k id.

Lemma issueSLOKs_run delivered s :
  inv delivered s ->
  exists s', issueSLOKs s = Ok (tt, s') /\ inv delivered s' /\
    length (seedProgress (client s')) = length (seedProgress (client s)) /\
    (forall k p, seedProgress (client s) !! k = Some p ->
       exists p', seedProgress (client s') !! k = Some p' /\ rolled (ticks s + k) p p') /\
    issues (due (client s)) (client s) (client s').
Proof.
  intros Hinv. unfold issueSLOKs.
  destruct (issue_loop_spec delivered 0 (length (seedProgress (client s))) s Hinv) as
    (s' & Hr & Hinv' & _ & Hl & _ & Hmid & His); [lia|].
  exists s'. split_and!; try done.
  - intros k p Hp. apply (Hmid k p); [by eapply lookup_lt_Some|done].
  - eapply issues_weaken; [|exact His]. intros id. split; [intros (j & _ & H); by exists j|].
    intros (k & H). exists k. split; [|done]. destruct H as (p & _ & Hp & _). by eapply lookup_lt_Some.
Qed.

(** Issuing SLOKs returns, keeps the invariant, and is exact: an ID becomes
    issued exactly when, in some scheme of the client, the counters of the seed
    spec meet its targets, the SLOK being the one of the period the progress
    belongs to; the SLOKs appended to the payload are exactly those not issued
    before; and each scheme whose period has changed by the clock has its time
    advanced and all its counters zeroed, the others keeping theirs. *)
Theorem issueSLOKs_correct delivered s :
  inv delivered s ->
  exists s', issueSLOKs s = Ok (tt, s') /\ inv delivered s' /\
    (forall k p, seedProgress (client s) !! k = Some p ->
       exists p', seedProgress (client s') !! k = Some p' /\ rolled (ticks s + k) p p') /\
    issues (due (client s)) (client s) (client s').
Proof.
  intros Hinv. destruct (issueSLOKs_run delivered s Hinv) as (s' & ? & ? & ? & ? & ?). eauto.
Qed.

(** ** Sessions *)

(** The schemes of a client and the number of their counters never change, so the
    references of a port forward stay valid. *)
Definition shape (c : ClientSeedState) : list (nat * nat) :=
  map (fun p => (cp_scheme p, length (trafficProgress p))) (seedProgress c).

Definition valid_reference (sh : list (nat * nat)) (r : progressReference) : Prop :=
  exists i n, sh !! seedProgressIndex r = Some (i, n) /\ (trafficProgressIndex r < n)%nat.

Lemma shape_lookup c k i n :
  shape c !! k = Some (i, n) <-> exists p, seedProgress c !! k = Some p /\ cp_scheme p = i /\
    length (trafficProgress p) = n.
Proof.
  unfold shape. rewrite list_lookup_fmap, fmap_Some. split.
  - intros (p & Hp & [= -> ->]). eauto.
  - intros (p & Hp & <- & <-). eauto.
Qed.

Lemma shape_eq c c' :
  length (seedProgress c') = length (seedProgress c) ->
  (forall k p, seedProgress c !! k = Some p -> exists p', seedProgress c' !! k = Some p' /\
     cp_scheme p' = cp_scheme p /\ length (trafficProgress p') = length (trafficProgress p)) ->
  shape c' = shape c.
Proof.
  intros Hl H. unfold shape. apply list_eq. intros k. rewrite !list_lookup_fmap.
  destruct (seedProgress c !! k) as [p|] eqn:E.
  - destruct (H _ _ E) as (p' & -> & H1 & H2). simpl. by rewrite H1, H2.
  - apply lookup_ge_None in E. rewrite lookup_ge_None_2 by lia. done.
Qed.

(** What everything but clearing the payload does to a client: the payload is
    only appended to, and whatever is newly issued is appended. *)
Record grows (c c' : ClientSeedState) : Prop := {
  gr_shape : shape c' = shape c;
  gr_payload : exists new, payloadSLOKs c' = payloadSLOKs c ++ new /\
    forall slok, issuedSLOKs c' !! ID slok = Some slok ->
      issuedSLOKs c !! ID slok = Some slok \/ slok ∈ new
}.

#[local] Instance grows_preorder : PreOrder grows.
Proof.
  split.
  - intros c. split; [done|]. exists []. rewrite app_nil_r. eauto.
  - intros c1 c2 c3 [Hs (n1 & Hp1 & Hi1)] [Ks (n2 & Hp2 & Hi2)]. split; [congruence|].
    exists (n1 ++ n2). rewrite Hp2, Hp1, app_assoc. split; [done|]. intros slok Hslok.
    rewrite elem_of_app. destruct (Hi2 _ Hslok) as [H|]; [|tauto]. destruct (Hi1 _ H); tauto.
Qed.

Lemma grows_same c c' :
  shape c' = shape c -> payloadSLOKs c' = payloadSLOKs c -> issuedSLOKs c' = issuedSLOKs c ->
  grows c c'.
Proof. intros Hs Hp Hi. split; [done|]. exists []. rewrite app_nil_r, Hi. eauto. Qed.

Lemma grows_prefix c c' : grows c c' -> payloadSLOKs c `prefix_of` payloadSLOKs c'.
Proof. intros [_ (new & -> & _)]. by apply prefix_app_r. Qed.

Lemma issueSLOKs_grows delivered s :
  inv delivered s -> exists s', issueSLOKs s = Ok (tt, s') /\ inv delivered s' /\
    grows (client s) (client s').
Proof.
  intros Hinv. destruct (issueSLOKs_run delivered s Hinv) as (s' & Hr & Hinv' & Hl & Hp & His).
  exists s'. split; [done|]. split; [done|]. split.
  - apply shape_eq; [done|].
    intros k p Hk. destruct (Hp k p Hk) as (p' & Hk' & scheme & _ & ->). eexists. split; [done|].
    unfold roll_over. destruct (decide _); [done|]. cbn. by rewrite length_map.
  - destruct (is_payload _ _ _ His) as (new & Hnew & Hin). exists new. split; [done|].
    intros slok Hslok. destruct (issuedSLOKs (client s) !! ID slok) as [x|] eqn:E; [left|right].
    + pose proof (lookup_weaken _ _ _ _ E (is_kept _ _ _ His)). congruence.
    + by apply Hin.
Qed.

Lemma signal_inv delivered s sg :
  inv delivered s -> inv delivered (set_client s (set_signal (client s) sg)).
Proof. intros [H1 H2 H3 H4 H5]. by split. Qed.

Lemma tick_inv delivered s :
  inv delivered s ->
  inv delivered {| client := client s; derivedSLOKCache := derivedSLOKCache s; ticks := S (ticks s) |}.
Proof. intros [H1 H2 H3 H4 H5]. by split. Qed.

(** The rollover of [update_reference]: whether or not SLOKs are issued first. *)
Lemma update_rollover delivered (b : bool) s :
  inv delivered s -> exists s',
    (if b then _ ← issueSLOKs; sendIssueSLOKsSignal else mret tt) s = Ok (tt, s') /\
    inv delivered s' /\ grows (client s) (client s').
Proof.
  intros Hinv. destruct b; [|by exists s].
  destruct (issueSLOKs_grows delivered s Hinv) as (s1 & Hr & Hinv1 & Hs1).
  unfold mbind, stres_mbind. rewrite Hr. unfold sendIssueSLOKsSignal, modify.
  eexists. split; [done|]. split; [by apply signal_inv|]. etrans; [exact Hs1|]. by apply grows_same.
Qed.

Lemma update_counters_inv delivered s i j c :
  inv delivered s ->
  let f := fun p => {| progressSLOKTime := progressSLOKTime p; cp_scheme := cp_scheme p;
                       trafficProgress := <[j := c]> (trafficProgress p) |} in
  let s' := set_client s (set_progress (client s) (alter f i (seedProgress (client s)))) in
  inv delivered s' /\ grows (client s) (client s').
Proof.
  intros Hinv f s'. split.
  - apply set_progress_inv; [done|]. apply Forall_alter_at; [apply Hinv|].
    intros p (scheme & Hs & Hl). exists scheme. cbn. by rewrite length_insert.
  - apply grows_same; [|done..]. apply shape_eq; cbn; [apply length_alter|]. intros k p Hk. destruct (decide (i = k)) as [<-|Hne].
    + rewrite list_lookup_alter_eq, Hk. eexists. split; [done|]. cbn. by rewrite length_insert.
    + rewrite list_lookup_alter_ne by done. eauto.
Qed.

Lemma update_reference_inv delivered br bw d r s :
  inv delivered s -> valid_reference (shape (client s)) r ->
  exists s', update_reference br bw d r s = Ok (tt, s') /\ inv delivered s' /\
    grows (client s) (client s').
Proof.
  intros Hinv (i & n & Hsh & Hj). pose proof Hsh as (p & Hp & Hi & Hn)%shape_lookup.
  pose proof (inv_progress _ _ Hinv) as Hok. rewrite Forall_lookup in Hok.
  destruct (Hok _ _ Hp) as (scheme & Hs & Hl).
  destruct (update_rollover delivered
    (bool_decide (getSLOKTime (clock (ticks s)) (sc_SeedPeriodNanoseconds scheme) <> progressSLOKTime p))
    _ (tick_inv _ _ Hinv)) as (s1 & Hr1 & Hinv1 & Hgr1). pose proof (gr_shape _ _ Hgr1) as Hsh1.
  destruct (lookup_lt_is_Some_2 (SeedSpecs scheme) (trafficProgressIndex r)) as [spec Hspec]; [lia|].
  cbn [client] in Hsh1. rewrite <- Hsh1 in Hsh. apply shape_lookup in Hsh as (p1 & Hp1 & _ & Hn1).
  destruct (lookup_lt_is_Some_2 (trafficProgress p1) (trafficProgressIndex r)) as [c Hc]; [lia|].
  destruct (update_counters_inv delivered s1 (seedProgressIndex r) (trafficProgressIndex r)
    (add c br bw d) Hinv1) as [Hinv2 Hgr2].
  unfold update_reference.
  rewrite (stres_bind_run _ _ _ p s) by (by rewrite Hp).
  rewrite (stres_bind_run _ _ _ scheme s) by (by rewrite Hs).
  erewrite (stres_bind_run time_Now) by reflexivity.
  rewrite (stres_bind_run _ _ _ tt s1) 
    by (rewrite <- Hr1; case_bool_decide; [by rewrite decide_True|by rewrite decide_False by tauto]).
  rewrite (stres_bind_run _ _ _ spec s1) by (by rewrite Hspec).
  rewrite (stres_bind_run _ _ _ p1 s1) by (by rewrite Hp1).
  rewrite (stres_bind_run _ _ _ c s1) by (by rewrite Hc). cbv zeta.
  erewrite (stres_bind_run (modify _)) by reflexivity.
  destruct (negb _ && _); eexists; (split; [reflexivity|]); split.
  - by apply signal_inv.
  - etrans; [exact Hgr1|]. etrans; [exact Hgr2|]. by apply grows_same.
  - done.
  - by etrans.
Qed.

Lemma UpdateProgress_inv delivered refs br bw d s :
  inv delivered s -> Forall (valid_reference (shape (client s))) refs ->
  exists s', UpdateProgress refs br bw d s = Ok (tt, s') /\ inv delivered s' /\
    grows (client s) (client s').
Proof.
  revert s. induction refs as [|r refs IH]; intros s Hinv Hv; [by exists s|].
  inversion Hv as [|? ? Hr Hrs]; subst.
  destruct (update_reference_inv delivered br bw d r s Hinv Hr) as (s1 & H1 & Hinv1 & Hgr1).
  destruct (IH s1) as (s2 & H2 & Hinv2 & Hgr2); [done|by rewrite (gr_shape _ _ Hgr1)|].
  exists s2. cbn [UpdateProgress]. rewrite (stres_bind_run _ _ _ tt s1) by done.
  split; [done|]. split; [done|]. by etrans.
Qed.

(** What the server does with a client's seed state. *)
Inductive op :=
| OpUpdate (refs : list progressReference) (br bw d : Z)
| OpGetPayload
| OpClearPayload
| OpHibernate
| OpResume (sg : option signal).

(** What the caller sees of an operation: the payload returned to it, or that the
    payload is cleared. *)
Inductive event := Returned (sloks : list SLOK) | Cleared.

Definition exec (o : op) : stres seed_state (list event) :=
  match o with
  | OpUpdate refs br bw d => _ ← UpdateProgress refs br bw d; mret []
  | OpGetPayload => sloks ← GetSeedPayload; mret [Returned sloks]
  | OpClearPayload => _ ← ClearSeedPayload; mret [Cleared]
  | OpHibernate => _ ← Hibernate; mret []
  | OpResume sg => _ ← Resume sg; mret []
  end.

(** A session, with the events in their order. *)
Fixpoint run (ops : list op) : stres seed_state (list event) :=
  match ops with
  | [] => mret []
  | o :: ops => evs ← exec o; rest ← run ops; mret (evs ++ rest)
  end.

Definition valid_op (sh : list (nat * nat)) (o : op) : Prop :=
  match o with OpUpdate refs _ _ _ => Forall (valid_reference sh) refs | _ => True end.

(** Each time the payload is cleared, it was fetched by the operation just before;
    [fetched] says whether the operation before the first was to fetch it. *)
Fixpoint prompt (fetched : bool) (ops : list op) : bool :=
  match ops with
  | [] => true
  | OpClearPayload :: ops => fetched && prompt false ops
  | OpGetPayload :: ops => prompt true ops
  | _ :: ops => prompt false ops
  end.

(** The payload is cleared between the events at [i] and [j]. *)
Definition cleared_between (evs : list event) (i j : nat) : Prop :=
  exists k, (i < k < j)%nat /\ evs !! k = Some Cleared.

#[local] Instance cleared_between_dec (evs : list event) i j : Decision (cleared_between evs i j).
Proof.
  assert (forall k, Decision (evs !! k = Some Cleared)) as Hdec.
  { intros k. destruct (evs !! k) as [[p|]|]; [right|left|right]; congruence. }
  destruct (decide (Exists (fun k => evs !! k = Some Cleared) (seq (S i) (j - S i)))) as [H|H].
  - left. apply Exists_exists in H as (k & Hk%elem_of_seq & Hcl). exists k. split; [lia|done].
  - right. intros (k & Hk & Hcl). apply H, Exists_exists. exists k. split; [apply elem_of_seq; lia|done].
Defined.

(** Two payloads of a session: the later one extends the earlier one, until the
    payload is cleared; from then on they have no SLOK in common. *)
Definition payloads_ok (evs : list event) : Prop :=
  forall i j p q, (i < j)%nat -> evs !! i = Some (Returned p) -> evs !! j = Some (Returned q) ->
    (~ cleared_between evs i j -> p `prefix_of` q) /\
    (cleared_between evs i j -> forall x y, x ∈ p -> y ∈ q -> ID x <> ID y).

(** The state of a session after the events [evs]: [delivered] are the SLOKs of
    the payloads that were cleared. *)
Record session (delivered : list SLOK) (evs : list event) (s : seed_state) : Prop := {
  se_inv : inv delivered s;
  se_none : shape (client s) = [] -> payloadSLOKs (client s) = [];
  se_all : forall slok, issuedSLOKs (client s) !! ID slok = Some slok ->
    slok ∈ delivered ++ payloadSLOKs (client s);
  se_open : forall i p, evs !! i = Some (Returned p) -> ~ cleared_between evs i (length evs) ->
    p `prefix_of` payloadSLOKs (client s);
  se_closed : forall i p, evs !! i = Some (Returned p) -> cleared_between evs i (length evs) ->
    p ⊆ delivered;
  se_distinct : forall p, Returned p ∈ evs -> NoDup (map ID p);
  se_payloads : payloads_ok evs
}.

Lemma cleared_between_app evs evs' i j :
  (j <= length evs)%nat -> cleared_between (evs ++ evs') i j <-> cleared_between evs i j.
Proof.
  intros Hj. split; intros (k & Hk & H); exists k; (split; [done|]).
  - by rewrite lookup_app_l in H by lia.
  - by rewrite lookup_app_l by lia.
Qed.

Lemma cleared_between_snoc evs e i :
  (i < length evs)%nat -> cleared_between (evs ++ [e]) i (S (length evs)) <->
    e = Cleared \/ cleared_between evs i (length evs).
Proof.
  intros Hi. split.
  - intros (k & Hk & [H|[Hk' H]]%lookup_app_Some).
    + right. exists k. apply lookup_lt_Some in H as ?. split; [lia|done].
    + left. apply list_lookup_singleton_Some in H as [_ ->]. done.
  - intros [->|(k & Hk & H)].
    + exists (length evs). split; [lia|]. by rewrite list_lookup_middle.
    + exists k. split; [lia|]. by rewrite lookup_app_l by lia.
Qed.

Lemma payloads_snoc evs e :
  payloads_ok evs ->
  (forall i p q, evs !! i = Some (Returned p) -> e = Returned q ->
     (~ cleared_between evs i (length evs) -> p `prefix_of` q) /\
     (cleared_between evs i (length evs) -> forall x y, x ∈ p -> y ∈ q -> ID x <> ID y)) ->
  payloads_ok (evs ++ [e]).
Proof.
  intros Hok He i j p q Hij Hi Hj. apply lookup_app_Some in Hj as [Hj|[Hle Hj]].
  - apply lookup_lt_Some in Hj as Hlt. rewrite lookup_app_l in Hi by lia.
    rewrite cleared_between_app by lia. by apply Hok.
  - apply list_lookup_singleton_Some in Hj as [Hj ->]. assert (j = length evs) as -> by lia.
    rewrite lookup_app_l in Hi by lia. rewrite cleared_between_app by lia. by apply He.
Qed.

(** An operation that only lets the client's state grow. *)
Lemma session_grows delivered evs s s' :
  session delivered evs s -> inv delivered s' -> grows (client s) (client s') ->
  (shape (client s') = [] -> payloadSLOKs (client s') = []) -> session delivered evs s'.
Proof.
  intros [H1 H2 H3 H4 H5 H7 H6] Hinv Hgr Hnone. split; try done.
  - intros slok Hs. destruct Hgr as [_ (new & -> & Hnew)]. rewrite app_assoc, elem_of_app.
    destruct (Hnew _ Hs) as [H|]; [left; by apply H3|by right].
  - intros i p Hi Hno. etrans; [by eapply H4|]. by apply grows_prefix.
Qed.

(** Fetching the payload. *)
Lemma session_returned delivered evs s :
  session delivered evs s -> session delivered (evs ++ [Returned (payloadSLOKs (client s))]) s.
Proof.
  intros [H1 H2 H3 H4 H5 H7 H6]. split; try done; rewrite ?length_app; cbn [length]; rewrite ?Nat.add_1_r.
  - intros i p [Hi|[Hle [Hi [= ->]]%list_lookup_singleton_Some]]%lookup_app_Some; [|done].
    apply lookup_lt_Some in Hi as Hlt. rewrite cleared_between_snoc by done. intros Hno. eapply H4; [exact Hi|tauto].
  - intros i p [Hi|[Hle [Hi [= ->]]%list_lookup_singleton_Some]]%lookup_app_Some.
    + apply lookup_lt_Some in Hi as Hlt. rewrite cleared_between_snoc by done. intros [[=]|Hc]. by eapply H5.
    + intros (k & Hk & _). lia.
  - intros p [Hp|[= ->]%list_elem_of_singleton]%elem_of_app; [by apply H7|].
    pose proof (inv_once _ _ H1) as Hnd. rewrite map_app, NoDup_app in Hnd. apply Hnd.
  - apply payloads_snoc; [done|]. intros i p q Hi [= <-]. split; [by apply H4|].
    intros Hc x y Hx Hy Heq. pose proof (H5 _ _ Hi Hc _ Hx) as Hd.
    pose proof (inv_once _ _ H1) as Hnd. rewrite map_app, NoDup_app in Hnd. destruct Hnd as (_ & Hd' & _).
    apply (Hd' (ID x)); [by apply list_elem_of_fmap_2|]. rewrite Heq. by apply list_elem_of_fmap_2.
Qed.

(** Clearing the payload. *)
Lemma session_cleared delivered evs s :
  session delivered evs s ->
  session (delivered ++ payloadSLOKs (client s)) (evs ++ [Cleared])
    (set_client s (set_payload (client s) [])).
Proof.
  intros [[A1 A2 A3 A4 A5] H2 H3 H4 H5 H7 H6]. split; rewrite ?length_app; cbn [length]; rewrite ?Nat.add_1_r.
  - split; cbn; rewrite ?app_nil_r; done.
  - done.
  - cbn. by rewrite app_nil_r.
  - intros i p [Hi|[Hle [Hi [=]]%list_lookup_singleton_Some]]%lookup_app_Some.
    apply lookup_lt_Some in Hi as Hlt. rewrite cleared_between_snoc by done. tauto.
  - intros i p [Hi|[Hle [Hi [=]]%list_lookup_singleton_Some]]%lookup_app_Some _.
    intros x Hx. apply elem_of_app.
    destruct (decide (cleared_between evs i (length evs))) as [Hc|Hc]; [left; by eapply H5|].
    right. destruct (H4 i p Hi Hc) as [rest ->]. set_solver.
  - intros p [Hp|[=]%list_elem_of_singleton]%elem_of_app. by apply H7.
  - by apply payloads_snoc.
Qed.

(** The SLOKs an operation clears. *)
Definition clears (o : op) (s : seed_state) : list SLOK :=
  match o with OpClearPayload => payloadSLOKs (client s) | _ => [] end.

Lemma exec_session o delivered evs s :
  session delivered evs s -> valid_op (shape (client s)) o ->
  exists new s', exec o s = Ok (new, s') /\ shape (client s') = shape (client s) /\
    session (delivered ++ clears o s) (evs ++ new) s' /\
    (o = OpGetPayload -> new = [Returned (payloadSLOKs (client s'))]).
Proof.
  intros Hse Hv. pose proof (se_inv _ _ _ Hse) as Hinv.
  destruct o as [refs br bw d| | | |sg]; cbn [exec clears]; unfold mbind, stres_mbind, mret, stres_mret;
    rewrite ?app_nil_r.
  - destruct (UpdateProgress_inv delivered refs br bw d s Hinv Hv) as (s' & Hr & Hinv' & Hgr).
    exists [], s'. rewrite Hr, app_nil_r. pose proof (gr_shape _ _ Hgr) as Hsh. split_and!; [done..| |done].
    eapply session_grows; [done..|]. intros Hnil. destruct refs as [|r refs].
    + injection Hr as <-. apply Hse. congruence.
    + inversion_clear Hv as [|? ? (i & n & Hl & _) _]. by rewrite <- Hsh, Hnil, lookup_nil in Hl.
  - unfold GetSeedPayload. destruct (decide _) as [Hnil|Hnil].
    + assert (payloadSLOKs (client s) = []) as Hp.
      { apply Hse. unfold shape. by rewrite (nil_length_inv _ Hnil). }
      exists [Returned []], s. rewrite <- Hp. split_and!; try done. by apply session_returned.
    + destruct (issueSLOKs_grows delivered s Hinv) as (s' & -> & Hinv' & Hgr).
      pose proof (gr_shape _ _ Hgr) as Hsh. eexists _, s'. split_and!; [done..| |done].
      apply session_returned. eapply session_grows; [done..|]. rewrite Hsh. intros H.
      apply map_eq_nil in H. by rewrite H in Hnil.
  - eexists _, _. split_and!; [reflexivity|done| |done]. by apply session_cleared.
  - eexists _, _. split_and!; [reflexivity|done| |done]. rewrite app_nil_r.
    eapply session_grows; [done|by apply signal_inv|by apply grows_same|apply Hse].
  - eexists _, _. split_and!; [reflexivity|done| |done]. rewrite app_nil_r.
    eapply session_grows; [done|by apply signal_inv|by apply grows_same|apply Hse].
Qed.

Lemma run_session ops delivered evs s :
  session delivered evs s -> Forall (valid_op (shape (client s))) ops ->
  exists new delivered' s', run ops s = Ok (new, s') /\ session delivered' (evs ++ new) s'.
Proof.
  revert delivered evs s. induction ops as [|o ops IH]; intros delivered evs s Hse Hv.
  { exists [], delivered, s. by rewrite app_nil_r. }
  inversion Hv as [|? ? Ho Hos]; subst.
  destruct (exec_session o delivered evs s Hse Ho) as (n1 & s1 & H1 & Hsh1 & Hse1 & _).
  destruct (IH _ _ s1 Hse1) as (n2 & d2 & s2 & H2 & Hse2); [by rewrite Hsh1|].
  exists (n1 ++ n2), d2, s2. cbn [run]. rewrite (stres_bind_run _ _ _ n1 s1) by done.
  rewrite (stres_bind_run _ _ _ n2 s2) by done. by rewrite app_assoc.
Qed.

(** The SLOKs of the payloads returned. *)
Definition returned (evs : list event) : list SLOK :=
  evs ≫= fun e => match e with Returned sloks => sloks | Cleared => [] end.

(** With prompt clears, only what was returned is cleared. *)
Lemma run_prompt ops fetched delivered evs s :
  session delivered evs s -> Forall (valid_op (shape (client s))) ops ->
  prompt fetched ops = true -> delivered ⊆ returned evs ->
  (fetched = true -> payloadSLOKs (client s) ⊆ returned evs) ->
  exists new delivered' s', run ops s = Ok (new, s') /\ session delivered' (evs ++ new) s' /\
    delivered' ⊆ returned (evs ++ new).
Proof.
  revert fetched delivered evs s.
  induction ops as [|o ops IH]; intros fetched delivered evs s Hse Hv Hp Hd Hf.
  { exists [], delivered, s. by rewrite app_nil_r. }
  inversion Hv as [|? ? Ho Hos]; subst.
  destruct (exec_session o delivered evs s Hse Ho) as (n1 & s1 & H1 & Hsh1 & Hse1 & Hget).
  assert (returned evs ⊆ returned (evs ++ n1)) as Hmono
    by (unfold returned; rewrite bind_app; set_solver).
  assert (exists fetched', prompt fetched' ops = true /\
    delivered ++ clears o s ⊆ returned (evs ++ n1) /\
    (fetched' = true -> payloadSLOKs (client s1) ⊆ returned (evs ++ n1))) as (f' & Hp' & Hd' & Hf').
  { destruct o; cbn [prompt clears] in *; rewrite ?app_nil_r;
      try (eexists; split_and!; [exact Hp|set_solver|done]).
    - exists true. split_and!; [done|set_solver|]. rewrite Hget by done. intros _ x Hx.
      unfold returned. rewrite bind_app. cbn. rewrite app_nil_r. set_solver.
    - apply andb_true_iff in Hp as [-> Hp]. exists false. split_and!; [done| |done].
      specialize (Hf eq_refl). set_solver. }
  destruct (IH f' _ _ s1 Hse1) as (n2 & d2 & s2 & H2 & Hse2 & Hd2); [by rewrite Hsh1|done..|].
  exists (n1 ++ n2), d2, s2. cbn [run]. rewrite (stres_bind_run _ _ _ n1 s1) by done.
  rewrite (stres_bind_run _ _ _ n2 s2) by done. by rewrite app_assoc.
Qed.

Lemma NewClientSeedState_inv region pc sg t0 caches c t :
  NewClientSeedState region pc sg t0 = (c, t) -> cache_ok caches ->
  inv [] {| client := c; derivedSLOKCache := caches; ticks := t |}.
Proof.
  unfold NewClientSeedState. intros H Hc.
  match type of H with (let '(_, _) := foldl ?f _ _ in _) = _ => set (step := f) in H end.
  assert (forall l acc, Forall progress_ok acc.1 ->
    (forall i scheme, (i, scheme) ∈ l -> schemes !! i = Some scheme) ->
    Forall progress_ok (foldl step acc l).1) as Hfold.
  { induction l as [|[i scheme] l IH]; intros [progress u] Hacc Hl; cbn [foldl]; [done|].
    apply IH; [|set_solver]. unfold step. destruct (_ && _); [|done]. cbn.
    apply Forall_app. split; [done|]. constructor; [|constructor].
    exists scheme. cbn. rewrite length_replicate. split; [apply Hl; set_solver|done]. }
  specialize (Hfold (imap pair schemes) ([], t0) (Forall_nil_2 _)).
  destruct (foldl step ([], t0) (imap pair schemes)) as [progress u]. injection H as <- <-.
  split; cbn; try done.
  - apply Hfold. intros i scheme (j & x & [= -> ->] & Hj)%elem_of_lookup_imap_1. done.
  - constructor.
  - set_solver.
Qed.

Lemma NewClientSeedState_session region pc sg t0 caches c t :
  NewClientSeedState region pc sg t0 = (c, t) -> cache_ok caches ->
  session [] [] {| client := c; derivedSLOKCache := caches; ticks := t |}.
Proof.
  intros Hnew Hc. pose proof (NewClientSeedState_inv _ _ _ _ _ _ _ Hnew Hc) as Hinv.
  unfold NewClientSeedState in Hnew. destruct (foldl _ _ _) as [progress u]. injection Hnew as <- <-.
  split; [done|done|done| | | |]; try (intros i ?; by rewrite ?lookup_nil). set_solver.
Qed.

Lemma session_genuine delivered evs s p :
  session delivered evs s -> Returned p ∈ evs -> Forall (genuine (propagationChannelID (client s))) p.
Proof.
  intros [[_ _ H3 _ H5] _ _ H6 H7 _ _] (i & Hi)%list_elem_of_lookup. apply list.Forall_forall.
  intros slok Hs. apply (H3 (ID slok)), H5, elem_of_app.
  destruct (decide (cleared_between evs i (length evs))) as [Hc|Hc]; [left; by eapply H7|].
  right. destruct (H6 i p Hi Hc) as [rest ->]. set_solver.
Qed.

(** C9: over a whole session of a client, whatever the operations and their order,
    no operation fails, and every payload that GetSeedPayload returns holds
    genuine SLOKs of the client's propagation channel, no ID twice.  A payload
    returned later extends the one returned before, which is how a send that
    failed is retried; once the payload is cleared, no SLOK of a payload returned
    before is in one returned after: it is not delivered again in the session.
    When each clear comes directly after a fetch, no SLOK is lost either: every
    SLOK ever issued has been returned, or waits in the payload.  The caches that
    clients share stay coherent. *)
Theorem session_SLOKs_once region pc sg t0 caches c t ops :
  cache_ok caches -> NewClientSeedState region pc sg t0 = (c, t) ->
  Forall (valid_op (shape c)) ops ->
  exists evs s', run ops {| client := c; derivedSLOKCache := caches; ticks := t |} = Ok (evs, s') /\
    (forall p, Returned p ∈ evs ->
       NoDup (map ID p) /\ Forall (genuine (propagationChannelID (client s'))) p) /\
    payloads_ok evs /\
    (prompt false ops = true -> forall slok, issuedSLOKs (client s') !! ID slok = Some slok ->
       slok ∈ returned evs ++ payloadSLOKs (client s')) /\
    cache_ok (derivedSLOKCache s').
Proof.
  intros Hc Hnew Hops. pose proof (NewClientSeedState_session _ _ _ _ _ _ _ Hnew Hc) as Hse.
  destruct (run_session ops [] [] _ Hse Hops) as (evs & d & s' & Hrun & Hse'). cbn [app] in Hse'.
  exists evs, s'. split_and!; [done| |apply Hse'| |apply Hse'].
  - intros p Hp. split; [by eapply se_distinct|by eapply session_genuine].
  - intros Hp slok Hslok.
    destruct (run_prompt ops false [] [] _ Hse Hops Hp) as (evs' & d' & s'' & Hrun' & Hse'' & Hd);
      [set_solver|done|]. rewrite Hrun in Hrun'. injection Hrun' as <- <-.
    pose proof (se_all _ _ _ Hse'' _ Hslok). set_solver.
Qed.

End Seeding.

(** ** Port forwards *)

Section PortForwards.
Context (schemes : list Scheme).

(** A seed spec counts the traffic to the address. *)
Definition counts (lookupASN : option (bytes -> string)) (ip : bytes) (spec : SeedSpec)
    (subnet : list Subnet.IPNet) : Prop :=
  Subnet.ContainsIPAddress subnet ip = Ok true \/
  exists f, lookupASN = Some f /\ f ip ∈ UpstreamASNs spec.

Lemma matches_seed_spec_spec lookupASN ip spec subnet asn b :
  upstreamASNLookup spec = Strings.NewStringLookup (UpstreamASNs spec) ->
  (forall a f, asn = Some a -> lookupASN = Some f -> a = f ip) ->
  Subnet.ContainsIPAddress subnet ip = Ok b ->
  exists m asn', matches_seed_spec lookupASN ip spec subnet asn = Ok (m, asn') /\
    (m = true <-> counts lookupASN ip spec subnet) /\
    (forall a f, asn' = Some a -> lookupASN = Some f -> a = f ip).
Proof.
  intros Hlk Hasn Hb. unfold matches_seed_spec, counts. rewrite Hb. cbn [mbind res_mbind].
  destruct lookupASN as [f|].
  2:{ eexists _, _. split; [done|]. split; [|done]. split; [intros ->; by left|].
      intros [[= ->]|(? & ? & _)]; done. }
  destruct (negb b && bool_decide (0 < length (UpstreamASNs spec))%nat) eqn:E.
  - apply andb_true_iff in E as [->%negb_true_iff _]. eexists _, _. split; [reflexivity|].
    assert (match asn with Some a => a | None => f ip end = f ip) as -> by (destruct asn; eauto).
    rewrite Hlk, Strings.Contains_spec, bool_decide_eq_true. split; [|naive_solver].
    split; [intros H; right; eauto|]. intros [[=]|(g & [= <-] & H)]. done.
  - eexists _, _. split; [done|]. split; [|done]. split; [intros ->; by left|].
    intros [[= ->]|(g & [= <-] & H)]; [done|]. destruct b; [done|]. cbn [negb andb] in E.
    apply bool_decide_eq_false in E. destruct (UpstreamASNs spec); [set_solver|cbn in E; lia].
Qed.

Lemma port_forward_specs_spec lookupASN ip subnets i j specs asn :
  Forall (fun s => upstreamASNLookup s = Strings.NewStringLookup (UpstreamASNs s)) specs ->
  (forall a f, asn = Some a -> lookupASN = Some f -> a = f ip) ->
  (forall k, (k < length specs)%nat -> exists subnet b, subnets !! (j + k)%nat = Some subnet /\
     Subnet.ContainsIPAddress subnet ip = Ok b) ->
  exists refs, port_forward_specs lookupASN ip subnets i j specs asn = Ok refs /\
    forall r, r ∈ refs <-> seedProgressIndex r = i /\
      exists k spec subnet, trafficProgressIndex r = (j + k)%nat /\ specs !! k = Some spec /\
        subnets !! (j + k)%nat = Some subnet /\ counts lookupASN ip spec subnet.
Proof.
  intros Hlk. revert j asn. induction Hlk as [|spec specs Hspec Hlk IH]; intros j asn Hasn Hsub;
    cbn [port_forward_specs].
  { exists []. split; [done|]. intros r. split; [set_solver|]. intros (_ & k & spec & ? & _ & Hk & _).
    by rewrite lookup_nil in Hk. }
  destruct (Hsub 0%nat) as (subnet & b & Hs & Hb); [cbn; lia|]. rewrite Nat.add_0_r in Hs. rewrite Hs.
  cbn [res_of_option mbind res_mbind].
  destruct (matches_seed_spec_spec lookupASN ip spec subnet asn b Hspec Hasn Hb) as (m & asn' & -> & Hm & Hasn').
  cbn [mbind res_mbind]. destruct (IH (S j) asn' Hasn') as (refs & -> & Hrefs).
  { intros k Hk. destruct (Hsub (S k)) as (sn & b' & ? & ?); [cbn; lia|]. exists sn, b'.
    by replace (S j + k)%nat with (j + S k)%nat by lia. }
  cbn [mbind res_mbind]. eexists. split; [reflexivity|]. intros r.
  assert ((exists k sp sn, trafficProgressIndex r = (j + k)%nat /\ (spec :: specs) !! k = Some sp /\
     subnets !! (j + k)%nat = Some sn /\ counts lookupASN ip sp sn) <->
    (trafficProgressIndex r = j /\ counts lookupASN ip spec subnet) \/
    exists k sp sn, trafficProgressIndex r = (S j + k)%nat /\ specs !! k = Some sp /\
     subnets !! (S j + k)%nat = Some sn /\ counts lookupASN ip sp sn) as ->.
  { split.
    - intros ([|k] & sp & sn & Hr & Hsp & Hsn & Hc); [left|right].
      + rewrite Nat.add_0_r in *. simpl in Hsp. by simplify_eq.
      + exists k, sp, sn. rewrite !Nat.add_succ_r in *. done.
    - intros [[Hr Hc]|(k & sp & sn & Hr & Hsp & Hsn & Hc)].
      + exists 0%nat, spec, subnet. by rewrite Nat.add_0_r.
      + exists (S k), sp, sn. rewrite !Nat.add_succ_r in *. done. }
  destruct m.
  - rewrite elem_of_cons, Hrefs. destruct r as [ri rj]; cbn. destruct Hm as [Hm _]. specialize (Hm eq_refl).
    split; [intros [[= -> ->]|[-> H]]; eauto|]. intros [-> [[-> _]|H]]; eauto.
  - rewrite Hrefs. naive_solver.
Qed.

(** The schemes as loaded, their subnets being IPv4 networks. *)
Hypothesis schemes_ok : forall scheme, scheme ∈ schemes ->
  scheme_ok scheme /\ Forall (Forall Subnet.valid4) (subnetLookups scheme).

Lemma port_forward_loop_spec lookupASN ip i l :
  Forall (progress_ok schemes) l ->
  exists refs, port_forward_loop schemes lookupASN ip i l = Ok refs /\
    forall r, r ∈ refs <-> exists k p scheme spec subnet, seedProgressIndex r = (i + k)%nat /\
      l !! k = Some p /\ schemes !! cp_scheme p = Some scheme /\
      SeedSpecs scheme !! trafficProgressIndex r = Some spec /\
      subnetLookups scheme !! trafficProgressIndex r = Some subnet /\
      counts lookupASN ip spec subnet.
Proof.
  intros Hl. revert i. induction Hl as [|p l (scheme & Hs & _) Hl IH]; intros i; cbn [port_forward_loop].
  { exists []. split; [done|]. intros r. split; [set_solver|].
    intros (k & p & ? & ? & ? & _ & Hk & _). by rewrite lookup_nil in Hk. }
  destruct (schemes_ok scheme) as [(_ & _ & Hspecs & Hlen & _) Hsub]; [by eapply list_elem_of_lookup_2|].
  rewrite Hs. cbn [res_of_option mbind res_mbind].
  destruct (port_forward_specs_spec lookupASN ip (subnetLookups scheme) i 0 (SeedSpecs scheme) None)
    as (refs & -> & Hrefs); [|done| |].
  { eapply Forall_impl; [exact Hspecs|]. by intros s (_ & _ & H). }
  { intros k Hk. destruct (lookup_lt_is_Some_2 (subnetLookups scheme) k) as [sn Hsn]; [lia|].
    rewrite Forall_lookup in Hsub. destruct (Subnet.ContainsIPAddress_total sn ip) as [b Hb]; [eauto|].
    exists sn, b. done. }
  cbn [mbind res_mbind]. destruct (IH (S i)) as (rest & -> & Hrest). cbn [mbind res_mbind].
  eexists. split; [reflexivity|]. intros r. rewrite elem_of_app, Hrefs, Hrest. split.
  - intros [[Hi (k & spec & sn & Hj & Hsp & Hsn & Hc)]|(k & p' & sch & spec & sn & Hi & Hk & H)].
    + exists 0%nat, p, scheme, spec, sn. rewrite Hj, Nat.add_0_r. cbn. by split_and!.
    + exists (S k), p', sch, spec, sn. rewrite Nat.add_succ_r. done.
  - intros ([|k] & p' & sch & spec & sn & Hi & Hk & Hsch & H).
    + left. simpl in Hk. simplify_eq. rewrite Nat.add_0_r in Hi. split; [done|].
      exists (trafficProgressIndex r), spec, sn. done.
    + right. exists k, p', sch, spec, sn. rewrite Nat.add_succ_r in Hi. done.
Qed.

(** A port forward refers to exactly the seed specs that count its address,
    by a subnet or, when ASNs can be looked up, by the ASN of the address, in every
    scheme of the client; its references are valid for [UpdateProgress]. *)
Theorem NewClientSeedPortForward_correct c ip lookupASN :
  Forall (progress_ok schemes) (seedProgress c) ->
  exists refs, NewClientSeedPortForward schemes c ip lookupASN = Ok refs /\
    Forall (valid_reference (shape c)) refs /\
    forall r, r ∈ refs <-> exists p scheme spec subnet,
      seedProgress c !! seedProgressIndex r = Some p /\ schemes !! cp_scheme p = Some scheme /\
      SeedSpecs scheme !! trafficProgressIndex r = Some spec /\
      subnetLookups scheme !! trafficProgressIndex r = Some subnet /\
      counts lookupASN ip spec subnet.
Proof.
  intros Hp. destruct (port_forward_loop_spec lookupASN ip 0 _ Hp) as (refs & Hr & Hrefs).
  exists refs. split; [exact Hr|].
  assert (forall r, r ∈ refs <-> exists p scheme spec subnet,
      seedProgress c !! seedProgressIndex r = Some p /\ schemes !! cp_scheme p = Some scheme /\
      SeedSpecs scheme !! trafficProgressIndex r = Some spec /\
      subnetLookups scheme !! trafficProgressIndex r = Some subnet /\
      counts lookupASN ip spec subnet) as H.
  { intros r. rewrite Hrefs. split.
    - intros (k & p & scheme & spec & sn & -> & H). by exists p, scheme, spec, sn.
    - intros (p & scheme & spec & sn & H). by exists (seedProgressIndex r), p, scheme, spec, sn. }
  split; [|done]. apply list.Forall_forall. intros r (p & scheme & spec & sn & Hk & Hs & Hj & _)%H.
  rewrite Forall_lookup in Hp. destruct (Hp _ _ Hk) as (scheme' & Hs' & Hlen).
  assert (scheme' = scheme) as -> by congruence. exists (cp_scheme p), (length (trafficProgress p)).
  split; [apply shape_lookup; eauto|].
  rewrite Hlen. by eapply lookup_lt_Some.
Qed.

End PortForwards.

(** ** Concrete sessions

    The scheme of the example configuration; the client meets the targets of the
    first seed spec, the server sends the SLOK, and the same traffic in the same
    period does not issue it again. *)

Definition example_clock (n : nat) : Z := example_now.
Definition example_schemes : list Scheme := [example_loaded_scheme 1000].
Definition example_client : ClientSeedState * nat :=
  NewClientSeedState example_clock example_schemes [] [x07] (Some {| pending := 0; capacity := 1 |}) 0.
Definition example_reference : progressReference := {| seedProgressIndex := 0; trafficProgressIndex := 0 |}.
Definition example_ops : list op :=
  [OpUpdate [example_reference] 5000 5000 1; OpGetPayload; OpClearPayload;
   OpUpdate [example_reference] 5000 5000 1; OpGetPayload].

Lemma example_cache_ok : cache_ok example_HMAC example_schemes [∅].
Proof. intros [|i] m scheme ref slok Hm Hs Hr; simpl in *; [by simplify_eq|by rewrite lookup_nil in Hs]. Qed.

Lemma example_ops_valid : Forall (valid_op (shape example_client.1)) example_ops.
Proof.
  assert (Forall (valid_reference (shape example_client.1)) [example_reference]) as Hr.
  { constructor; [|constructor]. exists 0%nat, 3%nat. split; [vm_compute; reflexivity|cbn; lia]. }
  unfold example_ops. constructor; [exact Hr|]. constructor; [exact I|]. constructor; [exact I|].
  constructor; [exact Hr|]. constructor; [exact I|constructor].
Qed.

(** The number of SLOKs returned; a clear is shown as [None]. *)
Definition event_size (e : event) : option nat :=
  match e with Returned p => Some (length p) | Cleared => None end.

(** A SLOK is returned and cleared, and the next payload is empty. *)
Definition example_session : res (list (option nat) * nat) :=
  '(evs, s') ← run example_HMAC example_clock example_schemes example_ops
    {| client := example_client.1; derivedSLOKCache := [∅]; ticks := example_client.2 |};
  Ok (map event_size evs, size (issuedSLOKs (client s'))).

Lemma session_SLOKs_once_witness :
  example_session = Ok ([Some 1; None; Some 0]%nat, 1%nat) /\
  exists evs s', run example_HMAC example_clock example_schemes example_ops
      {| client := example_client.1; derivedSLOKCache := [∅]; ticks := example_client.2 |}
      = Ok (evs, s') /\
    payloads_ok evs /\
    forall slok, issuedSLOKs (client s') !! ID slok = Some slok ->
      slok ∈ returned evs ++ payloadSLOKs (client s').
Proof.
  split; [vm_compute; reflexivity|].
  destruct (session_SLOKs_once example_HMAC example_clock example_schemes [] [x07]
    (Some {| pending := 0; capacity := 1 |}) 0 [∅] example_client.1 example_client.2 example_ops)
    as (evs & s' & Hrun & _ & Hok & Hall & _).
  - exact example_cache_ok.
  - vm_compute. reflexivity.
  - exact example_ops_valid.
  - exists evs, s'. split; [exact Hrun|]. split; [exact Hok|]. apply Hall. vm_compute. reflexivity.
Defined.

(** The server fetches the payload, sends it and clears it when the client has
    acknowledged it.  When the period changes in between, a port forward issues
    the SLOK earned: it joins the payload, is cleared unsent and is never issued
    again. *)
Definition rollover_clock (n : nat) : Z :=
  if decide (n < 4)%nat then example_now else example_now + sc_SeedPeriodNanoseconds (example_loaded_scheme 1000).

Definition lost_ops : list op :=
  [OpGetPayload; OpUpdate [example_reference] 5000 5000 1; OpUpdate [example_reference] 1 1 1;
   OpClearPayload; OpGetPayload].

Definition lost_session : res (list (option nat) * nat) :=
  '(evs, s') ← run example_HMAC rollover_clock example_schemes lost_ops
    {| client := example_client.1; derivedSLOKCache := [∅]; ticks := example_client.2 |};
  Ok (map event_size evs, size (issuedSLOKs (client s'))).

(** The one SLOK issued was in neither of the payloads returned. *)
Example cleared_unsent : lost_session = Ok ([Some 0; None; Some 0]%nat, 1%nat).
Proof. vm_compute. reflexivity. Qed.

Lemma issueSLOKs_correct_witness :
  let s := {| client := example_client.1; derivedSLOKCache := [∅]; ticks := example_client.2 |} in
  exists s', issueSLOKs example_HMAC example_clock example_schemes s = Ok (tt, s') /\
    inv example_HMAC example_schemes [] s' /\
    (forall k p, seedProgress (client s) !! k = Some p ->
       exists p', seedProgress (client s') !! k = Some p' /\
         rolled example_clock example_schemes (ticks s + k) p p') /\
    issues (due example_HMAC example_schemes (client s)) (client s) (client s').
Proof.
  intros s. apply (issueSLOKs_correct example_HMAC example_clock example_schemes []).
  eapply (NewClientSeedState_inv example_HMAC example_clock example_schemes [] [x07]
    (Some {| pending := 0; capacity := 1 |}) 0); [vm_compute; reflexivity|exact example_cache_ok].
Defined.

Lemma example_schemes_ok scheme :
  scheme ∈ example_schemes -> scheme_ok scheme /\ Forall (Forall Subnet.valid4) (subnetLookups scheme).
Proof.
  intros ->%list_elem_of_singleton. split; [exact example_scheme_ok|].
  repeat constructor; by exists 24.
Qed.

Lemma NewClientSeedPortForward_correct_witness :
  exists refs, NewClientSeedPortForward example_schemes example_client.1 [x0a; x01; x02; x03] None
      = Ok refs /\
    Forall (valid_reference (shape example_client.1)) refs /\
    forall r, r ∈ refs <-> exists p scheme spec subnet,
      seedProgress example_client.1 !! seedProgressIndex r = Some p /\
      example_schemes !! cp_scheme p = Some scheme /\
      SeedSpecs scheme !! trafficProgressIndex r = Some spec /\
      subnetLookups scheme !! trafficProgressIndex r = Some subnet /\
      counts None [x0a; x01; x02; x03] spec subnet.
Proof.
  apply (NewClientSeedPortForward_correct example_schemes example_schemes_ok).
  apply (inv_progress example_HMAC example_schemes []
    {| client := example_client.1; derivedSLOKCache := [∅]; ticks := example_client.2 |}).
  eapply (NewClientSeedState_inv example_HMAC example_clock example_schemes [] [x07]
    (Some {| pending := 0; capacity := 1 |}) 0); [vm_compute; reflexivity|exact example_cache_ok].
Defined.
