(* ===== verification/NAT.v ===== *)
(** * NAT types and protocol versions

    Models src/psiphon/common/inproxy/nat.go, the classification of NATs used to
    match proxies with clients, and [negotiateProtocolVersion] of
    src/psiphon/common/inproxy/api.go. *)

From Stdlib Require Import ZArith Lia.
From stdpp Require Import base list.
From S2P Require Import Prelude.
#[local] Open Scope Z_scope.

(** ** nat.go *)

(** [NATMapping], [NATFiltering] and [NATType] are 32-bit integers. *)
Definition NATMappingUnknown : Z := 0.
Definition NATMappingEndpointIndependent : Z := 1.
Definition NATMappingAddressDependent : Z := 2.
Definition NATMappingAddressPortDependent : Z := 3.
Definition NATFilteringUnknown : Z := 0.
Definition NATFilteringEndpointIndependent : Z := 1.
Definition NATFilteringAddressDependent : Z := 2.
Definition NATFilteringAddressPortDependent : Z := 3.

(** [m.String() != ""]: the four values have names. *)
Definition component_IsValid (m : Z) : bool := (0 <=? m) && (m <=? 3).

Definition MakeNATType (mapping filtering : Z) : Z :=
  Z.lor (wrapS 32 (Z.shiftl mapping 2)) filtering.

Definition NATTypeUnknown : Z := MakeNATType NATMappingUnknown NATFilteringUnknown.
Definition NATTypePortMapping : Z :=
  MakeNATType NATMappingEndpointIndependent NATFilteringEndpointIndependent.
Definition NATTypeMobileNetwork : Z :=
  MakeNATType NATMappingAddressPortDependent NATFilteringAddressPortDependent.

Definition NeedsDiscovery (t : Z) : bool := t =? NATTypeUnknown.
Definition Mapping (t : Z) : Z := Z.shiftr t 2.
Definition Filtering (t : Z) : Z := Z.land t 3.
Definition IsValid (t : Z) : bool := component_IsValid (Mapping t) && component_IsValid (Filtering t).

Inductive NATTraversal :=
| NATTraversalUnlimited
| NATTraversalPartiallyLimited
| NATTraversalStrictlyLimited.

#[export] Instance NATTraversal_eq_dec : EqDecision NATTraversal.
Proof. solve_decision. Defined.

Definition MakeTraversal (t : Z) : NATTraversal :=
  if Mapping t =? NATMappingEndpointIndependent then
    if negb (Filtering t =? NATFilteringAddressPortDependent) then NATTraversalUnlimited
    else NATTraversalPartiallyLimited
  else NATTraversalStrictlyLimited.

Definition Compatible (t t1 : NATTraversal) : bool :=
  match t with
  | NATTraversalUnlimited => true
  | NATTraversalPartiallyLimited => bool_decide (t1 <> NATTraversalStrictlyLimited)
  | NATTraversalStrictlyLimited => bool_decide (t1 = NATTraversalUnlimited)
  end.

Definition IsPreferredMatch (t t1 : NATTraversal) : bool :=
  match t with
  | NATTraversalUnlimited => bool_decide (t1 = NATTraversalStrictlyLimited)
  | NATTraversalPartiallyLimited =>
      bool_decide (t1 = NATTraversalUnlimited) || bool_decide (t1 = NATTraversalPartiallyLimited)
  | NATTraversalStrictlyLimited => bool_decide (t1 = NATTraversalUnlimited)
  end.

Definition ExistsPreferredMatch (t : NATTraversal) (unlimited partiallyLimited strictlyLimited : bool)
  : bool :=
  match t with
  | NATTraversalUnlimited => strictlyLimited
  | NATTraversalPartiallyLimited => unlimited || partiallyLimited
  | NATTraversalStrictlyLimited => unlimited
  end.

Definition PortMappingTypeNone : Z := 0.

(** [PortMappingTypes.Available] *)
Definition Available (t : list Z) : bool := existsb (fun p => PortMappingTypeNone <? p) t.

(** *** Properties *)

(** The components of a NAT type are recovered from it. *)
Lemma MakeNATType_components m f :
  0 <= m <= 3 -> 0 <= f <= 3 ->
  Mapping (MakeNATType m f) = m /\ Filtering (MakeNATType m f) = f.
Proof.
  intros Hm Hf. assert (m = 0 \/ m = 1 \/ m = 2 \/ m = 3) as Em by lia.
  assert (f = 0 \/ f = 1 \/ f = 2 \/ f = 3) as Ef by lia.
  destruct Em as [-> |[-> |[-> | ->]]], Ef as [-> |[-> |[-> | ->]]]; vm_compute; done.
Qed.

(** The flag passed to [ExistsPreferredMatch] for a kind of traversal. *)
Definition flag (u p s : bool) (t : NATTraversal) : bool :=
  match t with
  | NATTraversalUnlimited => u
  | NATTraversalPartiallyLimited => p
  | NATTraversalStrictlyLimited => s
  end.

Lemma ExistsPreferredMatch_exists t u p s :
  ExistsPreferredMatch t u p s = true <->
  exists t1, flag u p s t1 = true /\ IsPreferredMatch t t1 = true.
Proof.
  split.
  - destruct t; simpl; [|intros [H|H]%orb_true_iff|]; intros.
    + by exists NATTraversalStrictlyLimited.
    + by exists NATTraversalUnlimited.
    + by exists NATTraversalPartiallyLimited.
    + by exists NATTraversalUnlimited.
  - intros (t1 & Hf & Hp). destruct t, t1; simpl in *; rewrite ?Hf, ?orb_true_r; try done; discriminate Hp.
Qed.

(** Compatibility of traversals is symmetric; a preferred match is always a
    compatible one; every traversal has a preferred peer, so preferring never
    excludes a peer from being matched; and a preferred match is found to exist
    exactly when one of the kinds available is preferred. *)
Theorem preferred_match_sound t t1 u p s :
  Compatible t t1 = Compatible t1 t /\
  (IsPreferredMatch t t1 = true -> Compatible t t1 = true) /\
  (exists t2, IsPreferredMatch t t2 = true) /\
  (ExistsPreferredMatch t u p s = true <->
   exists t2, flag u p s t2 = true /\ IsPreferredMatch t t2 = true).
Proof.
  split_and!.
  - by destruct t, t1.
  - by destruct t, t1.
  - destruct t; [exists NATTraversalStrictlyLimited|exists NATTraversalUnlimited|
      exists NATTraversalUnlimited]; done.
  - apply ExistsPreferredMatch_exists.
Qed.

(** ** api.go *)

Definition ProtocolVersion1 : Z := 1.
Definition ProtocolVersion2 : Z := 2.

Definition negotiateProtocolVersion (proxyProtocolVersion clientProtocolVersion : Z)
    (useMediaStreams : bool) : Z * bool :=
  if ((proxyProtocolVersion =? ProtocolVersion1) || (clientProtocolVersion =? ProtocolVersion1)) &&
     negb useMediaStreams
  then (ProtocolVersion1, true)
  else if clientProtocolVersion <=? proxyProtocolVersion then (clientProtocolVersion, true)
  else (0, false).

(** A protocol version is selected only when both sides support it: it is
    between 1 and the latest version of each; a proxy and a client of the same
    version always agree; and a proxy that supports only version 1 is never
    selected for a client of version 2 that wants media streams. *)
Theorem negotiateProtocolVersion_sound proxy client media v ok :
  1 <= proxy -> 1 <= client -> negotiateProtocolVersion proxy client media = (v, ok) ->
  (ok = true -> 1 <= v /\ v <= proxy /\ v <= client) /\
  (proxy = client -> ok = true) /\
  (media = true -> client = ProtocolVersion2 -> ok = true -> ProtocolVersion2 <= proxy).
Proof.
  intros Hp Hc. unfold negotiateProtocolVersion, ProtocolVersion1, ProtocolVersion2.
  destruct (Z.eqb_spec proxy 1), (Z.eqb_spec client 1), media, (Z.leb_spec client proxy);
    cbn [orb andb negb]; intros [= <- <-]; (split; [|split]); intros; try done; lia.
Qed.

Lemma negotiateProtocolVersion_sound_witness :
  (true = true -> 1 <= 1 /\ 1 <= 2 /\ 1 <= 1) /\ (2 = 1 -> true = true) /\
  (false = true -> 1 = ProtocolVersion2 -> true = true -> ProtocolVersion2 <= 2).
Proof. apply (negotiateProtocolVersion_sound 2 1 false 1 true); [lia..|reflexivity]. Defined.
