(* ===== verification/MatchQueue.v ===== *)
(** * The announcement queues of the in-proxy broker

    Models the [announcementMultiQueue] of
    src/psiphon/common/inproxy/matcher.go: one queue per compartment ID, in three
    maps (priority common, common and personal compartments), with counts of the
    NAT traversals of the queued announcements, and the iterator that visits the
    candidates for an offer.

    A pointer to an entry is the entry with an identifier, [ae_id]; the fields that
    change after an entry is made are kept apart: [queueReference] is the map
    [references], from the entry to the queue it is in.  A [container/list] is the
    list of its values; [Next] of an element that was removed is nil. *)

From Stdlib Require Import ZArith Lia Strings.Byte Sorting.Sorted.
From stdpp Require Import base gmap list sets strings.
From S2P Require Import Prelude NAT.
#[local] Open Scope Z_scope.

Abbreviation ID := bytes.

Record GeoIPData := { Country : string; City : string; ISP : string; ASN : string; ASO : string }.

Record MatchProperties := {
  IsPriority : bool;
  ProtocolVersion : Z;
  CommonCompartmentIDs : list ID;
  PersonalCompartmentIDs : list ID;
  GeoIP : GeoIPData;
  NetworkType : Z;
  NATType : Z;
  PortMappingTypes : list Z
}.

Definition NetworkTypeMobile : Z := 2.

Definition EffectiveNATType (p : MatchProperties) : Z :=
  if Available (PortMappingTypes p) then NATTypePortMapping
  else if (NATType p =? NATTypeUnknown) && (NetworkType p =? NetworkTypeMobile)
  then NATTypeMobileNetwork
  else NATType p.

Definition ExistsPreferredNATMatch (p : MatchProperties) (unlimited partially limited : bool) : bool :=
  ExistsPreferredMatch (MakeTraversal (EffectiveNATType p)) unlimited partially limited.

Definition IsPreferredNATMatch (p peer : MatchProperties) : bool :=
  IsPreferredMatch (MakeTraversal (EffectiveNATType p)) (MakeTraversal (EffectiveNATType peer)).

(** [ProxyMetrics], which is only passed through, is left out. *)
Record MatchAnnouncement := {
  Properties : MatchProperties;
  ProxyID : ID;
  SponsorID : string;
  ConnectionID : ID
}.

Record announcementEntry := {
  ae_id : nat;
  ae_deadline : option Z;
  ae_limitIP : string;
  ae_announcement : MatchAnnouncement
}.

Definition ae_properties (e : announcementEntry) : MatchProperties := Properties (ae_announcement e).
Definition traversal (e : announcementEntry) : NATTraversal :=
  MakeTraversal (EffectiveNATType (ae_properties e)).

(** ** Queues *)

Record announcementCompartmentQueue := {
  entries : list announcementEntry;
  unlimitedNATCount : Z;
  partiallyLimitedNATCount : Z;
  strictlyLimitedNATCount : Z
}.

(** Which of the three maps a queue is in: its fields [isPriority] and
    [isCommonCompartment]. *)
Inductive kind := PriorityCommon | Common | Personal.
#[export] Instance kind_eq_dec : EqDecision kind.
Proof. solve_decision. Defined.

Record announcementMultiQueue := {
  priorityCommonCompartmentQueues : gmap ID announcementCompartmentQueue;
  commonCompartmentQueues : gmap ID announcementCompartmentQueue;
  personalCompartmentQueues : gmap ID announcementCompartmentQueue;
  totalEntries : Z;
  references : gmap nat (kind * ID)
}.

Definition newAnnouncementMultiQueue : announcementMultiQueue := {|
  priorityCommonCompartmentQueues := ∅; commonCompartmentQueues := ∅;
  personalCompartmentQueues := ∅; totalEntries := 0; references := ∅
|}.

Definition getLen (q : announcementMultiQueue) : Z := totalEntries q.

Definition queues (q : announcementMultiQueue) (k : kind) : gmap ID announcementCompartmentQueue :=
  match k with
  | PriorityCommon => priorityCommonCompartmentQueues q
  | Common => commonCompartmentQueues q
  | Personal => personalCompartmentQueues q
  end.

Definition set_queues (q : announcementMultiQueue) (k : kind)
    (m : gmap ID announcementCompartmentQueue) : announcementMultiQueue := {|
  priorityCommonCompartmentQueues :=
    match k with PriorityCommon => m | _ => priorityCommonCompartmentQueues q end;
  commonCompartmentQueues := match k with Common => m | _ => commonCompartmentQueues q end;
  personalCompartmentQueues := match k with Personal => m | _ => personalCompartmentQueues q end;
  totalEntries := totalEntries q;
  references := references q
|}.

Definition set_total (q : announcementMultiQueue) (n : Z) (refs : gmap nat (kind * ID))
  : announcementMultiQueue := {|
  priorityCommonCompartmentQueues := priorityCommonCompartmentQueues q;
  commonCompartmentQueues := commonCompartmentQueues q;
  personalCompartmentQueues := personalCompartmentQueues q;
  totalEntries := n;
  references := refs
|}.

Definition newCompartmentQueue : announcementCompartmentQueue :=
  {| entries := []; unlimitedNATCount := 0; partiallyLimitedNATCount := 0; strictlyLimitedNATCount := 0 |}.

(** The counts changed by [d] for the traversal [t]. *)
Definition add_count (cq : announcementCompartmentQueue) (l : list announcementEntry)
    (t : NATTraversal) (d : Z) : announcementCompartmentQueue :=
  match t with
  | NATTraversalUnlimited =>
      {| entries := l; unlimitedNATCount := unlimitedNATCount cq + d;
         partiallyLimitedNATCount := partiallyLimitedNATCount cq;
         strictlyLimitedNATCount := strictlyLimitedNATCount cq |}
  | NATTraversalPartiallyLimited =>
      {| entries := l; unlimitedNATCount := unlimitedNATCount cq;
         partiallyLimitedNATCount := partiallyLimitedNATCount cq + d;
         strictlyLimitedNATCount := strictlyLimitedNATCount cq |}
  | NATTraversalStrictlyLimited =>
      {| entries := l; unlimitedNATCount := unlimitedNATCount cq;
         partiallyLimitedNATCount := partiallyLimitedNATCount cq;
         strictlyLimitedNATCount := strictlyLimitedNATCount cq + d |}
  end.

(** The queue of an announcement. *)
Definition queue_of (p : MatchProperties) : res (kind * ID) :=
  if decide (length (CommonCompartmentIDs p) + length (PersonalCompartmentIDs p) <> 1)%nat
  then Err "announcement must specify exactly one compartment ID"
  else
    match CommonCompartmentIDs p with
    | compartmentID :: _ => Ok (if IsPriority p then PriorityCommon else Common, compartmentID)
    | [] =>
        match PersonalCompartmentIDs p with
        | [] => Panic "index out of range"
        | compartmentID :: _ =>
            if IsPriority p then Err "priority not supported for personal compartments"
            else Ok (Personal, compartmentID)
        end
    end.

Definition enqueue (q : announcementMultiQueue) (e : announcementEntry) : res announcementMultiQueue :=
  '(k, compartmentID) ← queue_of (ae_properties e);
  let cq := default newCompartmentQueue (queues q k !! compartmentID) in
  let cq := add_count cq (entries cq ++ [e]) (traversal e) 1 in
  Ok (set_total (set_queues q k (<[compartmentID := cq]> (queues q k)))
        (totalEntries q + 1) (<[ae_id e := (k, compartmentID)]> (references q))).

Definition remove_entry (id : nat) (l : list announcementEntry) : list announcementEntry :=
  filter (fun e => ae_id e <> id) l.

(** [announcementQueueReference.dequeue] of an entry; the result tells whether it
    was still queued. *)
Definition dequeue (q : announcementMultiQueue) (e : announcementEntry)
  : announcementMultiQueue * bool :=
  match references q !! ae_id e with
  | None => (q, false)
  | Some (k, compartmentID) =>
      let cq := default newCompartmentQueue (queues q k !! compartmentID) in
      let cq := add_count cq (remove_entry (ae_id e) (entries cq)) (traversal e) (-1) in
      let m := if decide (length (entries cq) = 0%nat) then delete compartmentID (queues q k)
               else <[compartmentID := cq]> (queues q k) in
      (set_total (set_queues q k m) (totalEntries q - 1) (delete (ae_id e) (references q)), true)
  end.

(** ** The match iterator *)

(** [compartmentQueues] are the queues visited, [nextEntries] the next element of
    each, nil at the end. *)
Record announcementMatchIterator := {
  compartmentQueues : list (kind * ID);
  nextEntries : list (option announcementEntry)
}.

Definition startMatching (q : announcementMultiQueue) (isCommonCompartments : bool)
    (compartmentIDs : list ID) : announcementMatchIterator :=
  let kinds := if isCommonCompartments then [PriorityCommon; Common] else [Personal] in
  let found :=
    flat_map (fun k => flat_map (fun id =>
      match queues q k !! id with Some cq => [((k, id), head (entries cq))] | None => [] end)
      compartmentIDs) kinds in
  {| compartmentQueues := found.*1; nextEntries := found.*2 |}.

Definition isPriority (kid : kind * ID) : bool := bool_decide (kid.1 = PriorityCommon).

Definition lookup_queue (q : announcementMultiQueue) (kid : kind * ID) : announcementCompartmentQueue :=
  default newCompartmentQueue (queues q kid.1 !! kid.2).

Definition getNATCounts (q : announcementMultiQueue) (iter : announcementMatchIterator) : Z * Z * Z :=
  foldl (fun '(u, p, s) kid =>
      let cq := lookup_queue q kid in
      (u + unlimitedNATCount cq, p + partiallyLimitedNATCount cq, s + strictlyLimitedNATCount cq))
    (0, 0, 0) (compartmentQueues iter).

(** [Next] of the element holding [id]. *)
Fixpoint next_of (id : nat) (l : list announcementEntry) : option announcementEntry :=
  match l with
  | [] => None
  | e :: l => if decide (ae_id e = id) then head l else next_of id l
  end.

(** The loop of [getNext] over the queues from index [i] on; the candidate selected
    so far, with its index and whether it has priority. *)
Fixpoint select_next (i : nat) (qs : list (kind * ID)) (nexts : list (option announcementEntry))
    (selected : option (announcementEntry * nat * bool)) : option (announcementEntry * nat * bool) :=
  match qs, nexts with
  | kid :: qs, next :: nexts =>
      match next with
      | None => select_next (S i) qs nexts selected
      | Some candidate =>
          match selected with
          | None => select_next (S i) qs nexts (Some (candidate, i, isPriority kid))
          | Some (s, _, selectedPriority) =>
              if selectedPriority && negb (isPriority kid) then selected
              else
                match ae_deadline candidate, ae_deadline s with
                | Some deadline, Some selectedDeadline =>
                    if deadline <? selectedDeadline
                    then select_next (S i) qs nexts (Some (candidate, i, isPriority kid))
                    else select_next (S i) qs nexts selected
                | _, _ => select_next (S i) qs nexts selected
                end
          end
      end
  | _, _ => selected
  end.

Definition getNext (q : announcementMultiQueue) (iter : announcementMatchIterator)
  : option (announcementEntry * bool) * announcementMatchIterator :=
  match select_next 0 (compartmentQueues iter) (nextEntries iter) None with
  | None => (None, iter)
  | Some (e, i, priority) =>
      let next := match compartmentQueues iter !! i with
                  | Some kid => next_of (ae_id e) (entries (lookup_queue q kid))
                  | None => None
                  end in
      (Some (e, priority),
       {| compartmentQueues := compartmentQueues iter; nextEntries := <[i := next]> (nextEntries iter) |})
  end.

(** ** The queue invariant *)

(** The number of queued announcements of a traversal. *)
Definition count (t : NATTraversal) (l : list announcementEntry) : Z :=
  Z.of_nat (length (filter (fun e => traversal e = t) l)).

Definition counts_ok (cq : announcementCompartmentQueue) : Prop :=
  unlimitedNATCount cq = count NATTraversalUnlimited (entries cq) /\
  partiallyLimitedNATCount cq = count NATTraversalPartiallyLimited (entries cq) /\
  strictlyLimitedNATCount cq = count NATTraversalStrictlyLimited (entries cq).

(** The announcements of the queue [kid], oldest first. *)
Definition contents (q : announcementMultiQueue) (kid : kind * ID) : list announcementEntry :=
  entries (lookup_queue q kid).

Definition queued (q : announcementMultiQueue) (e : announcementEntry) : Prop :=
  exists kid, e ∈ contents q kid.

Record queue_wf (q : announcementMultiQueue) : Prop := {
  wf_nonempty k id cq : queues q k !! id = Some cq -> entries cq <> [];
  wf_counts k id cq : queues q k !! id = Some cq -> counts_ok cq;
  wf_nodup kid : NoDup (ae_id <$> contents q kid);
  wf_entry kid e : e ∈ contents q kid ->
    references q !! ae_id e = Some kid /\ queue_of (ae_properties e) = Ok kid;
  wf_reference n kid : references q !! n = Some kid ->
    exists e, ae_id e = n /\ e ∈ contents q kid;
  wf_total : totalEntries q = Z.of_nat (size (references q))
}.

(** An entry is known by its identifier, as a pointer is. *)
Definition identified (q : announcementMultiQueue) (e : announcementEntry) : Prop :=
  forall e', queued q e' -> ae_id e' = ae_id e -> e' = e.

(** *** Updates *)

Lemma queues_set_total q n r k : queues (set_total q n r) k = queues q k.
Proof. by destruct k. Qed.

Lemma queues_set_queues q k m k' :
  queues (set_queues q k m) k' = if decide (k = k') then m else queues q k'.
Proof. by destruct k, k'. Qed.

Lemma add_count_entries cq l t d : entries (add_count cq l t d) = l.
Proof. by destruct t. Qed.

Lemma count_cons t e l : count t (e :: l) = (if decide (traversal e = t) then 1 else 0) + count t l.
Proof. unfold count. rewrite filter_cons. case_decide; cbn [length]; lia. Qed.

Lemma count_app t l1 l2 : count t (l1 ++ l2) = count t l1 + count t l2.
Proof. unfold count. rewrite filter_app, length_app. lia. Qed.

Lemma count_nonneg t l : 0 <= count t l.
Proof. unfold count. lia. Qed.

Lemma count_pos_exists t l : 0 < count t l <-> exists e, e ∈ l /\ traversal e = t.
Proof.
  unfold count. split.
  - intros H. destruct (filter _ l) as [|e l'] eqn:E; [simpl in H; lia|].
    assert (e ∈ filter (fun e => traversal e = t) l) as [He1 He2]%list_elem_of_filter by (rewrite E; left).
    eauto.
  - intros (e & He & Ht).
    assert (e ∈ filter (fun e => traversal e = t) l) as Hin by (apply list_elem_of_filter; done).
    destruct (filter _ l); [by apply not_elem_of_nil in Hin|simpl; lia].
Qed.

(** Counts track a change of the entries of one announcement. *)
Lemma add_count_ok cq l t d :
  counts_ok cq ->
  (forall t', count t' l = count t' (entries cq) + if decide (t = t') then d else 0) ->
  counts_ok (add_count cq l t d).
Proof.
  intros (H1 & H2 & H3) Hc.
  unfold counts_ok. rewrite !add_count_entries, !Hc.
  destruct t; simpl; rewrite H1, H2, H3; repeat case_decide; try done; lia.
Qed.

Lemma remove_entry_elem id l e : e ∈ remove_entry id l <-> e ∈ l /\ ae_id e <> id.
Proof. unfold remove_entry. rewrite list_elem_of_filter. tauto. Qed.

Lemma remove_entry_notin id l : id ∉ (ae_id <$> l) -> remove_entry id l = l.
Proof.
  induction l as [|e l IH]; [done|]. rewrite fmap_cons. intros [Hn Hl]%not_elem_of_cons.
  unfold remove_entry. rewrite filter_cons. case_decide; [|congruence]. f_equal. by apply IH.
Qed.

Lemma remove_entry_split e l :
  NoDup (ae_id <$> l) -> e ∈ l ->
  exists l1 l2, l = l1 ++ e :: l2 /\ remove_entry (ae_id e) l = l1 ++ l2.
Proof.
  intros Hnd (l1 & l2 & ->)%list_elem_of_split. exists l1, l2. split; [done|].
  rewrite fmap_app, fmap_cons in Hnd. apply NoDup_app in Hnd as (_ & H1 & Hnd).
  apply list.NoDup_cons in Hnd as [H2 _].
  unfold remove_entry. rewrite filter_app, filter_cons.
  case_decide as Hd; [by destruct Hd|].
  f_equal; apply remove_entry_notin; [|done].
  intros Hin. apply (H1 _ Hin). left.
Qed.

Lemma remove_entry_nodup id l : NoDup (ae_id <$> l) -> NoDup (ae_id <$> remove_entry id l).
Proof.
  induction l as [|e l IH]; [done|]. rewrite fmap_cons. intros [Hn Hl]%list.NoDup_cons.
  unfold remove_entry. rewrite filter_cons. case_decide; [|by apply IH].
  rewrite fmap_cons. apply list.NoDup_cons. split; [|by apply IH].
  intros (e' & He & Hin)%list_elem_of_fmap. apply Hn. apply list_elem_of_fmap. exists e'. split; [done|].
  by apply remove_entry_elem in Hin as [? _].
Qed.

(** ** enqueue *)

(** The queue after an announcement is appended. *)
Lemma enqueue_inv q e q' :
  enqueue q e = Ok q' ->
  exists kid, queue_of (ae_properties e) = Ok kid /\
    q' = set_total (set_queues q kid.1 (<[kid.2 :=
           add_count (lookup_queue q kid) (contents q kid ++ [e]) (traversal e) 1]> (queues q kid.1)))
         (totalEntries q + 1) (<[ae_id e := kid]> (references q)).
Proof.
  unfold enqueue. destruct (queue_of (ae_properties e)) as [[k id]|?|?|] eqn:Hq; try done.
  cbn. intros [= <-]. by exists (k, id).
Qed.

Lemma contents_update q k m n r kid :
  contents (set_total (set_queues q k m) n r) kid =
  if decide (k = kid.1) then entries (default newCompartmentQueue (m !! kid.2)) else contents q kid.
Proof.
  unfold contents, lookup_queue. rewrite queues_set_total, queues_set_queues. by case_decide.
Qed.

Lemma contents_insert q kid cq n r kid' :
  contents (set_total (set_queues q kid.1 (<[kid.2 := cq]> (queues q kid.1))) n r) kid' =
  if decide (kid = kid') then entries cq else contents q kid'.
Proof.
  rewrite contents_update. destruct kid as [k id], kid' as [k' id']; cbn [fst snd].
  destruct (decide (k = k')) as [<-|Hk]; [|by rewrite decide_False by congruence].
  destruct (decide (id = id')) as [<-|Hid].
  - by rewrite lookup_insert_eq, decide_True by done.
  - by rewrite lookup_insert_ne, decide_False by congruence.
Qed.

Lemma contents_delete q kid n r kid' :
  contents (set_total (set_queues q kid.1 (delete kid.2 (queues q kid.1))) n r) kid' =
  if decide (kid = kid') then [] else contents q kid'.
Proof.
  rewrite contents_update. destruct kid as [k id], kid' as [k' id']; cbn [fst snd].
  destruct (decide (k = k')) as [<-|Hk]; [|by rewrite decide_False by congruence].
  destruct (decide (id = id')) as [<-|Hid].
  - by rewrite lookup_delete_eq, decide_True by done.
  - by rewrite lookup_delete_ne, decide_False by congruence.
Qed.

Lemma lookup_queue_counts q kid : queue_wf q -> counts_ok (lookup_queue q kid).
Proof.
  intros Hwf. destruct kid as [k id]. unfold lookup_queue; cbn.
  destruct (queues q k !! id) as [cq|] eqn:E; [by apply (wf_counts _ Hwf _ _ _ E)|done].
Qed.

Lemma enqueue_contents q e q' kid :
  queue_of (ae_properties e) = Ok kid -> enqueue q e = Ok q' ->
  forall kid', contents q' kid' = if decide (kid = kid') then contents q kid ++ [e] else contents q kid'.
Proof.
  intros Hk (kid0 & Hk0 & ->)%enqueue_inv kid'. rewrite Hk in Hk0. injection Hk0 as <-.
  rewrite contents_insert, add_count_entries. by case_decide; subst.
Qed.

Lemma queues_elem q k id cq : queues q k !! id = Some cq -> contents q (k, id) = entries cq.
Proof. unfold contents, lookup_queue; cbn. by intros ->. Qed.

(** Queued entries have a reference. *)
Lemma queued_reference q e : queue_wf q -> queued q e -> is_Some (references q !! ae_id e).
Proof. intros Hwf [kid H]. by destruct (wf_entry _ Hwf _ _ H) as [-> _]. Qed.

(** The parts of the invariant about the queues that are in the maps, from the
    queue that changed. *)
Lemma queue_maps_update (P : announcementCompartmentQueue -> Prop) q kid cq n r :
  P cq -> (forall k id cq', queues q k !! id = Some cq' -> P cq') ->
  forall k id cq', queues (set_total (set_queues q kid.1 (<[kid.2 := cq]> (queues q kid.1))) n r) k !! id
    = Some cq' -> P cq'.
Proof.
  intros HP Hq k id cq'. rewrite queues_set_total, queues_set_queues.
  case_decide as Hk; [|apply Hq].
  intros [[_ <-]|[_ H]]%lookup_insert_Some; [done|by apply (Hq _ _ _ H)].
Qed.

Lemma enqueue_wf q e q' :
  queue_wf q -> references q !! ae_id e = None -> enqueue q e = Ok q' -> queue_wf q'.
Proof.
  intros Hwf Hfresh He. pose proof He as (kid & Hk & Hq')%enqueue_inv.
  pose proof (enqueue_contents _ _ _ _ Hk He) as Hc.
  assert (forall kid' e', e' ∈ contents q kid' -> ae_id e' <> ae_id e) as Hne.
  { intros kid' e' Hin Heq. destruct (queued_reference q e' Hwf) as [? Hr]; [by exists kid'|]. congruence. }
  split.
  - subst q'. apply queue_maps_update; [|apply (wf_nonempty _ Hwf)].
    rewrite add_count_entries. by destruct (contents q kid).
  - subst q'. apply queue_maps_update; [|apply (wf_counts _ Hwf)].
    apply add_count_ok; [by apply lookup_queue_counts|].
    intros t. rewrite count_app, count_cons. unfold contents. change (count t []) with 0. lia.
  - intros kid'. rewrite Hc. case_decide as Hd; [|apply (wf_nodup _ Hwf)].
    rewrite fmap_app. apply NoDup_app. split_and!; [apply (wf_nodup _ Hwf)| |apply NoDup_singleton].
    intros n (e' & -> & Hin)%list_elem_of_fmap [Hn|[]%elem_of_nil]%elem_of_cons.
    by apply (Hne _ _ Hin).
  - intros kid' e'. rewrite Hc. subst q'; cbn [references set_total].
    intros Hin. assert ((kid = kid' /\ e' = e) \/ e' ∈ contents q kid') as [[<- ->]|Hin'].
    { revert Hin. case_decide; [|by right]. intros [?|[?|[]%elem_of_nil]%elem_of_cons]%elem_of_app; subst; auto. }
    + by rewrite lookup_insert_eq.
    + rewrite lookup_insert_ne by (intros Hx; by apply (Hne _ _ Hin')). by apply (wf_entry _ Hwf).
  - intros n kid'. subst q'; cbn [references set_total].
    intros [[<- <-]|[Hn Hr]]%lookup_insert_Some; setoid_rewrite Hc.
    + exists e. split; [done|]. rewrite decide_True by done. apply elem_of_app. right. left.
    + destruct (wf_reference _ Hwf _ _ Hr) as (e' & Hid & Hin). exists e'. split; [done|].
      case_decide; [subst; apply elem_of_app; by left|done].
  - subst q'. cbn [totalEntries references set_total]. rewrite (wf_total _ Hwf), map_size_insert_None by done. lia.
Qed.

(** ** dequeue *)

Lemma dequeue_none q e : references q !! ae_id e = None -> dequeue q e = (q, false).
Proof. unfold dequeue. by intros ->. Qed.

Definition dequeued_queue (q : announcementMultiQueue) (kid : kind * ID) (e : announcementEntry) :=
  add_count (lookup_queue q kid) (remove_entry (ae_id e) (contents q kid)) (traversal e) (-1).

Lemma dequeue_some q e kid :
  references q !! ae_id e = Some kid ->
  dequeue q e =
    (set_total (set_queues q kid.1
       (if decide (remove_entry (ae_id e) (contents q kid) = []) then delete kid.2 (queues q kid.1)
        else <[kid.2 := dequeued_queue q kid e]> (queues q kid.1)))
      (totalEntries q - 1) (delete (ae_id e) (references q)), true).
Proof.
  unfold dequeue. intros ->. destruct kid as [k id]. cbn [fst snd].
  change (default newCompartmentQueue (queues q k !! id)) with (lookup_queue q (k, id)).
  change (entries (lookup_queue q (k, id))) with (contents q (k, id)).
  rewrite add_count_entries. fold (dequeued_queue q (k, id) e).
  do 4 f_equal. destruct (remove_entry (ae_id e) (contents q (k, id))); by repeat case_decide.
Qed.

Lemma dequeue_contents q e :
  queue_wf q ->
  forall kid, contents (dequeue q e).1 kid = remove_entry (ae_id e) (contents q kid).
Proof.
  intros Hwf kid'.
  assert (forall kid, references q !! ae_id e <> Some kid ->
          remove_entry (ae_id e) (contents q kid) = contents q kid) as Hother.
  { intros kid Hr. apply remove_entry_notin. intros (e' & He' & Hin)%list_elem_of_fmap.
    apply Hr. rewrite He'. by apply (wf_entry _ Hwf). }
  destruct (references q !! ae_id e) as [kid|] eqn:Hr.
  - rewrite (dequeue_some _ _ _ Hr). cbn [fst].
    destruct (decide (remove_entry (ae_id e) (contents q kid) = [])) as [Hnil|Hnil];
      [rewrite contents_delete|rewrite contents_insert; unfold dequeued_queue; rewrite add_count_entries];
      case_decide as Hd; subst; try done; symmetry; apply Hother; congruence.
  - rewrite dequeue_none by done. cbn. symmetry. by apply Hother.
Qed.

Lemma dequeue_references q e : references (dequeue q e).1 = delete (ae_id e) (references q).
Proof.
  destruct (references q !! ae_id e) as [kid|] eqn:Hr.
  - by rewrite (dequeue_some _ _ _ Hr).
  - rewrite dequeue_none by done. cbn. by rewrite delete_id.
Qed.

Lemma dequeue_found q e : (dequeue q e).2 = bool_decide (is_Some (references q !! ae_id e)).
Proof.
  destruct (references q !! ae_id e) as [kid|] eqn:Hr.
  - rewrite (dequeue_some _ _ _ Hr), bool_decide_true; [done|]. by eexists.
  - rewrite dequeue_none, bool_decide_false; [done| |done]. by intros [? ?].
Qed.

Lemma dequeued_counts q kid e :
  queue_wf q -> e ∈ contents q kid -> counts_ok (dequeued_queue q kid e).
Proof.
  intros Hwf Hin. apply add_count_ok; [by apply lookup_queue_counts|]. intros t.
  destruct (remove_entry_split e (contents q kid)) as (l1 & l2 & Hl & ->); [apply (wf_nodup _ Hwf)|done|].
  change (entries (lookup_queue q kid)) with (contents q kid). rewrite Hl, !count_app, count_cons.
  repeat case_decide; lia.
Qed.

Lemma identified_reference q e kid :
  queue_wf q -> identified q e -> references q !! ae_id e = Some kid -> e ∈ contents q kid.
Proof.
  intros Hwf Hid Hr. destruct (wf_reference _ Hwf _ _ Hr) as (e' & He' & Hin).
  by rewrite <- (Hid e') by (done || by exists kid).
Qed.

Lemma dequeue_wf q e : queue_wf q -> identified q e -> queue_wf (dequeue q e).1.
Proof.
  intros Hwf Hid. pose proof (dequeue_contents q e Hwf) as Hc.
  destruct (references q !! ae_id e) as [kid|] eqn:Hr; [|by rewrite dequeue_none].
  pose proof (identified_reference _ _ _ Hwf Hid Hr) as Hin.
  assert (forall k id cq, queues (dequeue q e).1 k !! id = Some cq -> entries cq <> [] /\ counts_ok cq) as Hmaps.
  { rewrite (dequeue_some _ _ _ Hr). cbn [fst]. case_decide as Hnil.
    - intros k id cq. rewrite queues_set_total, queues_set_queues.
      case_decide as Hd; [intros [_ H]%lookup_delete_Some|intros H];
        (split; [by apply (wf_nonempty _ Hwf _ _ _ H)|by apply (wf_counts _ Hwf _ _ _ H)]).
    - apply queue_maps_update.
      + split; [unfold dequeued_queue; by rewrite add_count_entries|by apply dequeued_counts].
      + intros k id cq H. split; [by apply (wf_nonempty _ Hwf _ _ _ H)|by apply (wf_counts _ Hwf _ _ _ H)]. }
  split.
  - intros k id cq H. by apply (Hmaps _ _ _ H).
  - intros k id cq H. by apply (Hmaps _ _ _ H).
  - intros kid'. rewrite Hc. apply remove_entry_nodup, (wf_nodup _ Hwf).
  - intros kid' e'. rewrite Hc, dequeue_references. intros [H Hne]%remove_entry_elem.
    rewrite lookup_delete_ne by done. by apply (wf_entry _ Hwf).
  - intros n kid'. rewrite dequeue_references. intros [Hne Hn]%lookup_delete_Some.
    destruct (wf_reference _ Hwf _ _ Hn) as (e' & <- & Hin'). exists e'. split; [done|].
    rewrite Hc. by apply remove_entry_elem.
  - rewrite dequeue_references, (dequeue_some _ _ _ Hr). cbn [fst totalEntries set_total].
    rewrite (wf_total _ Hwf), map_size_delete, Hr. cbn.
    assert (size (references q) <> 0%nat) by (apply map_size_non_empty_iff; intros H0; by rewrite H0 in Hr).
    lia.
Qed.

Lemma newAnnouncementMultiQueue_wf : queue_wf newAnnouncementMultiQueue.
Proof.
  assert (forall k, queues newAnnouncementMultiQueue k = ∅) as Hq by by intros [].
  assert (forall kid, contents newAnnouncementMultiQueue kid = []) as Hc.
  { intros kid. unfold contents, lookup_queue. by rewrite Hq, lookup_empty. }
  split.
  - intros k id cq. by rewrite Hq, lookup_empty.
  - intros k id cq. by rewrite Hq, lookup_empty.
  - intros kid. rewrite Hc. apply NoDup_nil_2.
  - intros kid e. rewrite Hc. by intros []%elem_of_nil.
  - intros n kid. cbn. by rewrite lookup_empty.
  - done.
Qed.

(** ** The NAT counts of the queues visited *)

Lemma foldl_counts q l u p s :
  foldl (fun '(u, p, s) kid =>
      let cq := lookup_queue q kid in
      (u + unlimitedNATCount cq, p + partiallyLimitedNATCount cq, s + strictlyLimitedNATCount cq))
    (u, p, s) l =
  (u + foldr Z.add 0 ((fun kid => unlimitedNATCount (lookup_queue q kid)) <$> l),
   p + foldr Z.add 0 ((fun kid => partiallyLimitedNATCount (lookup_queue q kid)) <$> l),
   s + foldr Z.add 0 ((fun kid => strictlyLimitedNATCount (lookup_queue q kid)) <$> l)).
Proof.
  revert u p s. induction l as [|kid l IH]; intros u p s; cbn.
  - by rewrite !Z.add_0_r.
  - rewrite IH. f_equal; [f_equal|]; lia.
Qed.

Lemma sum_counts (f : kind * ID -> Z) t q l :
  (forall kid, f kid = count t (contents q kid)) ->
  foldr Z.add 0 (f <$> l) = count t (l ≫= contents q).
Proof.
  intros Hf. induction l as [|kid l IH]; [done|]. cbn. by rewrite count_app, <- IH, Hf.
Qed.

(** The counts are those of all the announcements of the queues visited. *)
Lemma getNATCounts_counts q iter :
  queue_wf q ->
  let l := compartmentQueues iter ≫= contents q in
  getNATCounts q iter =
    (count NATTraversalUnlimited l, count NATTraversalPartiallyLimited l, count NATTraversalStrictlyLimited l).
Proof.
  intros Hwf. cbn zeta. unfold getNATCounts. rewrite foldl_counts.
  rewrite !Z.add_0_l.
  rewrite (sum_counts _ NATTraversalUnlimited q), (sum_counts _ NATTraversalPartiallyLimited q),
    (sum_counts _ NATTraversalStrictlyLimited q); [done|..];
    intros kid; by destruct (lookup_queue_counts q kid Hwf) as (H1 & H2 & H3).
Qed.

(** ** The order of the candidates *)

Definition deadline (e : announcementEntry) : Z := default 0 (ae_deadline e).

(** A candidate, an entry with whether it has priority, that may come before
    another: a priority candidate first, then the one nearest to its deadline. *)
Definition candidate_le (a b : announcementEntry * bool) : Prop :=
  (b.2 = true -> a.2 = true) /\ (a.2 = b.2 -> deadline a.1 <= deadline b.1).

#[export] Instance candidate_le_trans : Transitive candidate_le.
Proof.
  intros [a pa] [b pb] [c pc] [H1 H2] [H3 H4]; unfold candidate_le in *; cbn in *.
  split; [auto|]. intros ->. destruct pb, pc; try (specialize (H1 eq_refl); done);
    try (specialize (H3 eq_refl); done); specialize (H2 eq_refl); specialize (H4 eq_refl); lia.
Qed.

Lemma candidate_le_refl a : candidate_le a a.
Proof. split; [done|lia]. Qed.

Lemma select_next_none i qs nexts sel :
  select_next i qs nexts sel = None ->
  sel = None /\ forall n kid next, qs !! n = Some kid -> nexts !! n = Some next -> next = None.
Proof.
  revert i nexts sel. induction qs as [|kid qs IH]; intros i nexts sel; cbn; [by intros ->|].
  destruct nexts as [|next nexts]; [by intros ->|].
  destruct next as [c|].
  - destruct sel as [[[s j] p]|]; [|by intros [? _]%IH].
    destruct (p && negb (isPriority kid)); [done|].
    destruct (ae_deadline c), (ae_deadline s); try destruct (_ <? _); by intros [? _]%IH.
  - intros [-> H]%IH. split; [done|]. intros [|n] kid' next' H1 H2; cbn in *; [congruence|eauto].
Qed.

(** A candidate of the queues from index [i] on. *)
Definition candidate_at (i : nat) (qs : list (kind * ID)) (nexts : list (option announcementEntry))
    (e : announcementEntry) (j : nat) (p : bool) : Prop :=
  exists n kid, j = (i + n)%nat /\ qs !! n = Some kid /\ nexts !! n = Some (Some e) /\ p = isPriority kid.

Lemma candidate_at_here i kid qs e nexts : candidate_at i (kid :: qs) (Some e :: nexts) e i (isPriority kid).
Proof. exists 0%nat, kid. split_and!; [lia|done..]. Qed.

Lemma candidate_at_there i kid qs next nexts e j p :
  candidate_at (S i) qs nexts e j p -> candidate_at i (kid :: qs) (next :: nexts) e j p.
Proof. intros (n & kid' & -> & ? & ? & ->). exists (S n), kid'. split_and!; [lia|done..]. Qed.

Lemma select_next_member i qs nexts sel e j p :
  select_next i qs nexts sel = Some (e, j, p) ->
  sel = Some (e, j, p) \/ candidate_at i qs nexts e j p.
Proof.
  revert i nexts sel. induction qs as [|kid qs IH]; intros i nexts sel; cbn; [by left|].
  destruct nexts as [|next nexts]; [by left|].
  assert (forall c, select_next (S i) qs nexts (Some (c, i, isPriority kid)) = Some (e, j, p) ->
          next = Some c -> candidate_at i (kid :: qs) (next :: nexts) e j p) as Hnew.
  { intros c [[= -> <- <-]|H]%IH ->; [apply candidate_at_here|by apply candidate_at_there]. }
  assert (select_next (S i) qs nexts sel = Some (e, j, p) ->
          sel = Some (e, j, p) \/ candidate_at i (kid :: qs) (next :: nexts) e j p) as Hold.
  { intros [?|H]%IH; [by left|right; by apply candidate_at_there]. }
  destruct next as [c|]; [|done].
  destruct sel as [[[s k] ps]|]; [|right; by eapply Hnew].
  destruct (ps && negb (isPriority kid)); [by left|].
  destruct (ae_deadline c), (ae_deadline s); try done. destruct (_ <? _); [right; by eapply Hnew|done].
Qed.

(** Priority queues come first. *)
Definition priority_first (qs : list (kind * ID)) : Prop :=
  StronglySorted (fun a b => isPriority b = true -> isPriority a = true) qs.

Definition has_deadline (e : announcementEntry) : Prop := is_Some (ae_deadline e).

(** What the selected candidate must satisfy before the loop goes on over [qs]. *)
Definition selected_ok (sel : option (announcementEntry * nat * bool)) (qs : list (kind * ID)) : Prop :=
  forall s k ps, sel = Some (s, k, ps) ->
    has_deadline s /\ Forall (fun kid => isPriority kid = true -> ps = true) qs.

Definition nexts_ok (nexts : list (option announcementEntry)) : Prop :=
  Forall (fun next => forall c, next = Some c -> has_deadline c) nexts.

Lemma candidate_at_cons i kid qs next nexts c k pc :
  candidate_at i (kid :: qs) (next :: nexts) c k pc ->
  (next = Some c /\ pc = isPriority kid) \/ candidate_at (S i) qs nexts c k pc.
Proof.
  intros ([|n] & kid' & -> & H1 & H2 & ->); cbn in *; [left; split; congruence|].
  right. exists n, kid'. split_and!; [lia|done..].
Qed.

Definition selects (i : nat) (qs : list (kind * ID)) (nexts : list (option announcementEntry))
    (sel : option (announcementEntry * nat * bool)) (a : announcementEntry * bool) : Prop :=
  (forall s k ps, sel = Some (s, k, ps) -> candidate_le a (s, ps)) /\
  (forall c k pc, candidate_at i qs nexts c k pc -> candidate_le a (c, pc)).

Lemma selects_step i kid qs c nexts sel sel' a :
  selects (S i) qs nexts sel' a ->
  (forall s k ps, sel = Some (s, k, ps) -> candidate_le a (s, ps)) ->
  candidate_le a (c, isPriority kid) ->
  selects i (kid :: qs) (Some c :: nexts) sel a.
Proof.
  intros [_ H2] Hs Hc. split; [done|].
  intros c' k pc [[[= <-] ->]|H]%candidate_at_cons; [done|by eapply H2].
Qed.

Lemma selects_nil i kid qs nexts sel a :
  selects (S i) qs nexts sel a -> selects i (kid :: qs) (None :: nexts) sel a.
Proof.
  intros [H1 H2]. split; [done|].
  intros c' k pc [[? ->]|H]%candidate_at_cons; [done|by eapply H2].
Qed.

Lemma selects_end i qs nexts e j p :
  (forall c k pc, candidate_at i qs nexts c k pc -> pc = false /\ p = true) ->
  selects i qs nexts (Some (e, j, p)) (e, p).
Proof.
  intros H. split; [intros ??? [= -> -> ->]; apply candidate_le_refl|].
  intros c k pc [-> ->]%H. by split.
Qed.

Lemma select_next_le i qs nexts sel e j p :
  priority_first qs -> nexts_ok nexts -> selected_ok sel qs ->
  select_next i qs nexts sel = Some (e, j, p) -> selects i qs nexts sel (e, p).
Proof.
  revert i nexts sel. induction qs as [|kid qs IH]; intros i nexts sel Hpf Hdl Hsel.
  { cbn. intros ->. apply selects_end. intros c k pc (n & kid & _ & H & _). done. }
  destruct nexts as [|next nexts].
  { cbn. intros ->. apply selects_end. intros c k pc (n & kid' & _ & _ & H & _). done. }
  inversion Hpf as [|? ? Hpf' Hkid]; subst. inversion Hdl as [|? ? Hnext Hdl']; subst.
  assert (selected_ok sel qs) as Hsel'.
  { intros s k ps H. destruct (Hsel _ _ _ H) as [? HF]. split; [done|]. by inversion HF. }
  cbn. destruct next as [c|]; [|intros H; apply selects_nil; by eapply IH].
  assert (has_deadline c) as Hc by by apply Hnext.
  assert (selected_ok (Some (c, i, isPriority kid)) qs) as Hnew by by intros ??? [= <- <- <-].
  destruct sel as [[[s k] ps]|].
  - destruct (Hsel _ _ _ eq_refl) as [[ds Hs] HF]. inversion HF as [|? ? Hps _]; subst.
    destruct Hc as [dc Hc]. rewrite Hs, Hc.
    destruct (ps && negb (isPriority kid)) eqn:Hstop.
    + apply andb_true_iff in Hstop as [-> Hk%negb_true_iff]. intros [= <- <- <-].
      apply selects_end. intros c' k' pc (n & kid' & _ & H1 & _ & ->). split; [|done].
      destruct (isPriority kid') eqn:E; [|done]. rewrite <- Hk. revert E.
      destruct n as [|n]; [by injection H1 as <-|]. rewrite list.Forall_forall in Hkid.
      intros E. symmetry. apply (Hkid kid'); [|done]. change (qs !! n = Some kid') in H1. by eapply list_elem_of_lookup_2.
    + assert (ps = isPriority kid) as Epk.
      { destruct ps, (isPriority kid); try done. by specialize (Hps eq_refl). }
      destruct (dc <? ds) eqn:Hlt.
      * intros H%IH; try done. pose proof (proj1 H _ _ _ eq_refl) as Hec.
        eapply selects_step; [done| |done]. intros ??? [= <- <- <-].
        etrans; [done|]. split; cbn; [by rewrite Epk|]. intros _. unfold deadline. rewrite Hs, Hc. cbn. lia.
      * intros H%IH; try done. pose proof (proj1 H _ _ _ eq_refl) as Hes.
        eapply selects_step; [done|apply (proj1 H)|].
        etrans; [done|]. split; cbn; [by rewrite Epk|]. intros _. unfold deadline. rewrite Hs, Hc. cbn. lia.
  - intros H%IH; try done. eapply selects_step; [done|done|]. by apply (proj1 H _ i).
Qed.

(** ** What is left to visit *)

(** The suffixes of the queues that an iterator has not visited yet. *)
Record tracks (q : announcementMultiQueue) (iter : announcementMatchIterator)
    (rems : list (list announcementEntry)) : Prop := {
  tr_next : nextEntries iter = head <$> rems;
  tr_length : length rems = length (compartmentQueues iter);
  tr_suffix i kid rem : compartmentQueues iter !! i = Some kid -> rems !! i = Some rem ->
    exists pre, contents q kid = pre ++ rem
}.

(** The candidates left, with their priority. *)
Definition tagged (kid : kind * ID) (l : list announcementEntry) : list (announcementEntry * bool) :=
  (fun e => (e, isPriority kid)) <$> l.
Definition remaining (kids : list (kind * ID)) (rems : list (list announcementEntry))
  : list (announcementEntry * bool) := concat (zip_with tagged kids rems).

Lemma next_of_head pre e rem :
  NoDup (ae_id <$> pre ++ e :: rem) -> next_of (ae_id e) (pre ++ e :: rem) = head rem.
Proof.
  induction pre as [|e' pre IH]; [cbn; by rewrite decide_True by done|].
  rewrite <- app_comm_cons, fmap_cons. intros [Hn Hl]%list.NoDup_cons. cbn [next_of].
  rewrite decide_False; [by apply IH|]. intros Heq. apply Hn. rewrite Heq, fmap_app, fmap_cons.
  apply elem_of_app. right. left.
Qed.

Lemma candidate_at_rems kids rems e j p :
  candidate_at 0 kids (head <$> rems) e j p ->
  exists kid rem, kids !! j = Some kid /\ rems !! j = Some (e :: rem) /\ p = isPriority kid.
Proof.
  intros (n & kid & -> & Hk & Hn & ->). cbn.
  apply list_lookup_fmap_Some in Hn as (rem & Hr & Hrem). destruct rem as [|e' rem]; [done|].
  injection Hr as ->. by exists kid, rem.
Qed.

(** One step: the iterator either is at the end of every queue, or returns the head
    of one of the suffixes and goes on with the others. *)
Lemma getNext_step q iter rems :
  queue_wf q -> tracks q iter rems ->
  match getNext q iter with
  | (None, iter') => iter' = iter /\ remaining (compartmentQueues iter) rems = []
  | (Some (e, p), iter') => exists i kid rem,
      compartmentQueues iter !! i = Some kid /\ rems !! i = Some (e :: rem) /\ p = isPriority kid /\
      select_next 0 (compartmentQueues iter) (head <$> rems) None = Some (e, i, p) /\
      compartmentQueues iter' = compartmentQueues iter /\ tracks q iter' (<[i := rem]> rems)
  end.
Proof.
  intros Hwf Ht. unfold getNext. rewrite (tr_next _ _ _ Ht).
  destruct (select_next _ _ _ _) as [[[e i] p]|] eqn:Hsel.
  - pose proof Hsel as [?|H]%select_next_member; [done|].
    apply candidate_at_rems in H as (kid & rem & Hk & Hr & Hp).
    destruct (tr_suffix _ _ _ Ht _ _ _ Hk Hr) as [pre Hpre].
    exists i, kid, rem. split_and!; [done..|].
    assert (i < length rems)%nat by by eapply lookup_lt_Some.
    rewrite Hk. fold (contents q kid). rewrite Hpre, next_of_head by (rewrite <- Hpre; apply (wf_nodup _ Hwf)).
    split; cbn.
    + by rewrite list_fmap_insert.
    + rewrite length_insert. apply (tr_length _ _ _ Ht).
    + intros j kid' rem' Hk'. destruct (decide (i = j)) as [<-|Hij].
      * rewrite list_lookup_insert_eq by done. intros [= <-]. exists (pre ++ [e]).
        rewrite Hk in Hk'. injection Hk' as <-. by rewrite Hpre, <- app_assoc.
      * rewrite list_lookup_insert_ne by done. by apply (tr_suffix _ _ _ Ht).
  - split; [done|]. apply select_next_none in Hsel as [_ Hnone].
    unfold remaining. clear Hwf. pose proof (tr_length _ _ _ Ht) as Hlen. clear Ht.
    revert rems Hlen Hnone. induction (compartmentQueues iter) as [|kid kids IH]; intros [|rem rems] Hlen Hnone;
      try done. cbn. destruct rem as [|e rem]; [|by specialize (Hnone 0%nat kid (Some e) eq_refl eq_refl)].
    cbn. apply IH; [by injection Hlen|]. intros n. apply (Hnone (S n)).
Qed.

Lemma remaining_step kids rems i kid e rem :
  kids !! i = Some kid -> rems !! i = Some (e :: rem) ->
  remaining kids rems ≡ₚ (e, isPriority kid) :: remaining kids (<[i := rem]> rems).
Proof.
  unfold remaining. revert kids rems. induction i as [|i IH]; intros [|kid0 kids] [|rem0 rems] Hk Hr; try done.
  - cbn in Hk, Hr. injection Hk as ->. injection Hr as ->. done.
  - cbn in Hk, Hr |- *. rewrite (IH _ _ Hk Hr). by rewrite Permutation_middle.
Qed.

Lemma elem_of_remaining kids rems e p :
  (e, p) ∈ remaining kids rems <->
  exists i kid rem, kids !! i = Some kid /\ rems !! i = Some rem /\ e ∈ rem /\ p = isPriority kid.
Proof.
  unfold remaining. revert rems. induction kids as [|kid kids IH]; intros rems.
  { split; [by intros []%elem_of_nil|]. intros (i & kid & rem & H & _). done. }
  destruct rems as [|rem rems].
  { split; [by intros []%elem_of_nil|]. intros (i & kid' & rem & _ & H & _). done. }
  cbn. rewrite elem_of_app, IH. split.
  - intros [(e' & [= <- ->] & H)%list_elem_of_fmap|(i & kid' & rem' & H)].
    + by exists 0%nat, kid, rem.
    + by exists (S i), kid', rem'.
  - intros ([|i] & kid' & rem' & Hk & Hr & He & ->); cbn in Hk, Hr.
    + left. injection Hk as ->. injection Hr as ->. apply list_elem_of_fmap. by exists e.
    + right. by exists i, kid', rem'.
Qed.

(** ** The whole iteration *)

(** The first [n] results of [getNext]. *)
Fixpoint visit (n : nat) (q : announcementMultiQueue) (iter : announcementMatchIterator)
  : list (announcementEntry * bool) :=
  match n with
  | O => []
  | S n => match getNext q iter with
           | (None, _) => []
           | (Some c, iter) => c :: visit n q iter
           end
  end.

(** The same merge on the suffixes: it does not depend on what is dequeued
    meanwhile. *)
Fixpoint merge (n : nat) (kids : list (kind * ID)) (rems : list (list announcementEntry))
  : list (announcementEntry * bool) :=
  match n with
  | O => []
  | S n => match select_next 0 kids (head <$> rems) None with
           | None => []
           | Some (e, i, p) => (e, p) :: merge n kids (alter tail i rems)
           end
  end.

Lemma alter_tail {A} (l : list (list A)) i x rem :
  l !! i = Some (x :: rem) -> alter tail i l = <[i := rem]> l.
Proof.
  revert i. induction l as [|y l IH]; intros [|i]; try done; cbn.
  - by intros [= ->].
  - intros H. f_equal. by apply IH.
Qed.

Lemma visit_merge n q iter rems :
  queue_wf q -> tracks q iter rems -> visit n q iter = merge n (compartmentQueues iter) rems.
Proof.
  intros Hwf. revert iter rems. induction n as [|n IH]; intros iter rems Ht; [done|].
  pose proof (getNext_step _ _ _ Hwf Ht) as H. cbn.
  destruct (getNext q iter) as [[[e p]|] iter'] eqn:E.
  - destruct H as (i & kid & rem & Hk & Hr & Hp & -> & Hq & Ht').
    rewrite (alter_tail _ _ _ _ Hr), <- Hq. f_equal. by apply IH.
  - unfold getNext in E. rewrite (tr_next _ _ _ Ht) in E.
    by destruct (select_next _ _ _ _) as [[[? ?] ?]|].
Qed.

(** A step of the merge. *)
Lemma merge_step kids rems :
  length rems = length kids ->
  match select_next 0 kids (head <$> rems) None with
  | None => remaining kids rems = []
  | Some (e, i, p) => exists kid rem, kids !! i = Some kid /\ rems !! i = Some (e :: rem) /\
      p = isPriority kid /\ alter tail i rems = <[i := rem]> rems /\
      remaining kids rems ≡ₚ (e, p) :: remaining kids (<[i := rem]> rems)
  end.
Proof.
  intros Hlen. destruct (select_next _ _ _ _) as [[[e i] p]|] eqn:Hsel.
  - apply select_next_member in Hsel as [?|H]; [done|].
    apply candidate_at_rems in H as (kid & rem & Hk & Hr & ->).
    exists kid, rem. split_and!; try done; [by eapply alter_tail|by apply remaining_step].
  - apply select_next_none in Hsel as [_ Hnone]. unfold remaining.
    revert rems Hlen Hnone. induction kids as [|kid kids IH]; intros [|[|e rem] rems] Hlen Hnone; try done.
    + cbn. apply IH; [by injection Hlen|]. intros n. apply (Hnone (S n)).
    + by specialize (Hnone 0%nat kid (Some e) eq_refl eq_refl).
Qed.

Lemma merge_subset n kids rems c :
  length rems = length kids -> c ∈ merge n kids rems -> c ∈ remaining kids rems.
Proof.
  revert rems. induction n as [|n IH]; intros rems Hlen; [by intros []%elem_of_nil|].
  pose proof (merge_step kids rems Hlen) as H. cbn.
  destruct (select_next _ _ _ _) as [[[e i] p]|]; [|by intros []%elem_of_nil].
  destruct H as (kid & rem & _ & _ & _ & -> & ->).
  intros [->|Hc]%elem_of_cons; [left|right]. apply IH; [by rewrite length_insert|done].
Qed.

Lemma merge_perm n kids rems :
  length rems = length kids -> (length (remaining kids rems) <= n)%nat ->
  merge n kids rems ≡ₚ remaining kids rems.
Proof.
  revert rems. induction n as [|n IH]; intros rems Hlen Hn.
  { cbn. by destruct (remaining kids rems); [|cbn in Hn; lia]. }
  pose proof (merge_step kids rems Hlen) as H. cbn.
  destruct (select_next _ _ _ _) as [[[e i] p]|]; [|by rewrite H].
  destruct H as (kid & rem & _ & _ & _ & -> & Hp). rewrite Hp in Hn |- *. cbn in Hn.
  rewrite IH; [done|by rewrite length_insert|lia].
Qed.

(** Announcements are queued in the order of their deadlines. *)
Definition deadline_sorted (l : list announcementEntry) : Prop :=
  Forall has_deadline l /\ StronglySorted (fun a b => deadline a <= deadline b) l.

Lemma deadline_sorted_suffix l1 l2 : deadline_sorted (l1 ++ l2) -> deadline_sorted l2.
Proof.
  induction l1 as [|e l1 IH]; [done|]. intros [H1 H2]. apply IH. split; [by inversion H1|by inversion H2].
Qed.

Lemma deadline_sorted_nexts rems : Forall deadline_sorted rems -> nexts_ok (head <$> rems).
Proof.
  intros H. apply Forall_fmap. eapply Forall_impl; [done|]. intros [|e rem] [Hd _] c; cbn; [done|].
  intros [= <-]. by inversion Hd.
Qed.

Lemma merge_sorted n kids rems :
  priority_first kids -> length rems = length kids -> Forall deadline_sorted rems ->
  StronglySorted candidate_le (merge n kids rems).
Proof.
  intros Hpf. revert rems. induction n as [|n IH]; intros rems Hlen Hd; [constructor|].
  pose proof (merge_step kids rems Hlen) as H. cbn.
  destruct (select_next _ _ _ _) as [[[e i] p]|] eqn:Hsel; [|constructor].
  destruct H as (kid & rem & Hk & Hr & Hp & -> & Hperm).
  apply select_next_le in Hsel as [_ Hle]; [|done|by apply deadline_sorted_nexts|done].
  constructor.
  - apply IH; [by rewrite length_insert|]. apply Forall_insert; [done|].
    apply (deadline_sorted_suffix [e]). by eapply Forall_lookup_1.
  - apply list.Forall_forall. intros [e' p'] Hin%merge_subset; [|by rewrite length_insert].
    assert ((e', p') ∈ remaining kids rems) as (j & kid' & rem' & Hk' & Hr' & Hin' & ->)%elem_of_remaining
      by (rewrite Hperm; by right).
    destruct rem' as [|e0 rem']; [by apply elem_of_nil in Hin'|].
    assert (candidate_le (e, p) (e0, isPriority kid')) as Hle0.
    { apply (Hle e0 j). exists j, kid'. split_and!; try done. by rewrite list_lookup_fmap, Hr'. }
    etrans; [done|]. split; [done|]. intros _. cbn.
    apply elem_of_cons in Hin' as [->|Hin']; [lia|].
    pose proof (Forall_lookup_1 _ _ _ _ Hd Hr') as [_ Hs]. inversion Hs as [|? ? ? Hall]; subst.
    rewrite list.Forall_forall in Hall. by apply Hall.
Qed.

(** ** startMatching *)

Definition kinds (isCommonCompartments : bool) : list kind :=
  if isCommonCompartments then [PriorityCommon; Common] else [Personal].

(** The queues visited for a list of compartment IDs. *)
Definition visited (q : announcementMultiQueue) (common : bool) (ids : list ID) : list (kind * ID) :=
  k ← kinds common; filter (fun kid => is_Some (queues q kid.1 !! kid.2)) (pair k <$> ids).

Lemma startMatching_visited q common ids :
  compartmentQueues (startMatching q common ids) = visited q common ids /\
  nextEntries (startMatching q common ids) = (fun kid => head (contents q kid)) <$> visited q common ids.
Proof.
  unfold startMatching, visited. fold (kinds common). cbn [compartmentQueues nextEntries].
  set (f := fun k id => match queues q k !! id with Some cq => [((k, id), head (entries cq))] | None => [] end).
  assert (forall k, (flat_map (f k) ids).*1 = filter (fun kid => is_Some (queues q kid.1 !! kid.2)) (pair k <$> ids) /\
          (flat_map (f k) ids).*2 = (fun kid => head (contents q kid)) <$>
            filter (fun kid => is_Some (queues q kid.1 !! kid.2)) (pair k <$> ids)) as Hf.
  { intros k. induction ids as [|id ids' [IH1 IH2]]; [done|]. cbn [flat_map fmap list_fmap].
    rewrite filter_cons, !fmap_app, IH1, IH2. unfold f. cbn [fst snd].
    destruct (queues q k !! id) as [cq|] eqn:E.
    - rewrite decide_True by by eexists. cbn. by rewrite (queues_elem _ _ _ _ E).
    - rewrite decide_False by by intros [? ?]. done. }
  induction (kinds common) as [|k ks [IH1 IH2]]; [done|].
  cbn [flat_map mbind list_bind]. destruct (Hf k) as [E1 E2]; unfold f in E1, E2; cbn beta in E1, E2.
  by rewrite !fmap_app, IH1, IH2, E1, E2.
Qed.

Lemma elem_of_visited q common ids kid :
  kid ∈ visited q common ids <->
  kid.1 ∈ kinds common /\ kid.2 ∈ ids /\ is_Some (queues q kid.1 !! kid.2).
Proof.
  unfold visited. rewrite list_elem_of_bind. destruct kid as [k id]; cbn [fst snd]. split.
  - intros (k' & [Hs (id' & [= <- <-] & Hid)%list_elem_of_fmap]%list_elem_of_filter & Hk). done.
  - intros (Hk & Hid & Hs). exists k. split; [|done].
    apply list_elem_of_filter. split; [done|]. apply list_elem_of_fmap. by exists id.
Qed.

Lemma visited_priority_first q common ids : priority_first (visited q common ids).
Proof.
  assert (forall k kid, kid ∈ filter (fun kid => is_Some (queues q kid.1 !! kid.2)) (pair k <$> ids) -> kid.1 = k) as Hk.
  { intros k kid [_ (id & -> & _)%list_elem_of_fmap]%list_elem_of_filter. done. }
  assert (forall l, (forall a b, a ∈ l -> b ∈ l -> isPriority b = true -> isPriority a = true) -> priority_first l) as Hall.
  { intros l. induction l as [|x l IH]; [constructor|]. intros H. constructor.
    - apply IH. intros a b Ha Hb. apply H; by right.
    - apply list.Forall_forall. intros b Hb. apply H; [left|by right]. }
  unfold visited. destruct common; cbn; rewrite app_nil_r.
  - set (l1 := filter _ (pair PriorityCommon <$> ids)). set (l2 := filter _ (pair Common <$> ids)).
    assert (forall a, a ∈ l1 -> isPriority a = true) as H1
      by (intros a Ha; unfold isPriority; by rewrite (Hk PriorityCommon)).
    assert (forall a, a ∈ l2 -> isPriority a = false) as H2
      by (intros a Ha; unfold isPriority; by rewrite (Hk Common)).
    clearbody l1 l2. induction l1 as [|a l1 IH]; cbn.
    + apply Hall. intros a b Ha Hb. by rewrite (H2 b).
    + constructor; [apply IH; intros; apply H1; by right|].
      apply list.Forall_forall. intros b _ _. apply H1. left.
  - apply Hall. intros a b Ha Hb. unfold isPriority. by rewrite (Hk _ _ Hb).
Qed.

Lemma visited_nodup q common ids : NoDup ids -> NoDup (visited q common ids).
Proof.
  intros Hnd. unfold visited.
  assert (forall k, NoDup (filter (fun kid => is_Some (queues q kid.1 !! kid.2)) (pair k <$> ids))) as Hf.
  { intros k. apply list.NoDup_filter. apply NoDup_fmap_2; [|done]. by intros ? ? [= ->]. }
  destruct common; cbn; rewrite app_nil_r; [|apply Hf].
  apply NoDup_app. split_and!; [apply Hf| |apply Hf].
  intros kid [_ (? & -> & _)%list_elem_of_fmap]%list_elem_of_filter
    [_ (? & [=] & _)%list_elem_of_fmap]%list_elem_of_filter.
Qed.

Lemma startMatching_tracks q common ids :
  tracks q (startMatching q common ids) (contents q <$> visited q common ids).
Proof.
  destruct (startMatching_visited q common ids) as [H1 H2]. split.
  - rewrite H2. by rewrite <- list_fmap_compose.
  - by rewrite H1, length_fmap.
  - rewrite H1. intros i kid rem Hk. rewrite list_lookup_fmap, Hk. intros [= <-]. by exists [].
Qed.

(** The announcements that an offer may be matched with: those of its
    compartments. *)
Definition candidates (q : announcementMultiQueue) (common : bool) (ids : list ID)
  : list (announcementEntry * bool) :=
  kid ← visited q common ids; tagged kid (contents q kid).

Lemma remaining_candidates q common ids :
  remaining (visited q common ids) (contents q <$> visited q common ids) = candidates q common ids.
Proof.
  unfold remaining, candidates. induction (visited q common ids) as [|kid l IH]; [done|].
  cbn. by rewrite IH.
Qed.

Lemma elem_of_candidates q common ids e p :
  queue_wf q ->
  (e, p) ∈ candidates q common ids <->
  exists kid, e ∈ contents q kid /\ kid.1 ∈ kinds common /\ kid.2 ∈ ids /\ p = isPriority kid.
Proof.
  intros Hwf. unfold candidates, tagged. rewrite list_elem_of_bind. split.
  - intros (kid & (e' & [= <- ->] & He)%list_elem_of_fmap & (Hk & Hid & _)%elem_of_visited). by exists kid.
  - intros (kid & He & Hk & Hid & ->). exists kid. split; [apply list_elem_of_fmap; by exists e|].
    apply elem_of_visited. split_and!; [done..|].
    destruct kid as [k id]; unfold contents, lookup_queue in He; cbn in *.
    destruct (queues q k !! id); [by eexists|by apply elem_of_nil in He].
Qed.

(** Dequeuing an entry that is not in a suffix leaves the iteration as it was. *)
Lemma tracks_dequeue q iter rems e :
  queue_wf q -> tracks q iter rems -> Forall (fun rem => ae_id e ∉ ae_id <$> rem) rems ->
  tracks (dequeue q e).1 iter rems.
Proof.
  intros Hwf Ht He. split; [apply (tr_next _ _ _ Ht)|apply (tr_length _ _ _ Ht)|].
  intros i kid rem Hk Hr. destruct (tr_suffix _ _ _ Ht _ _ _ Hk Hr) as [pre Hpre].
  rewrite dequeue_contents by done. rewrite Hpre. exists (remove_entry (ae_id e) pre).
  unfold remove_entry. rewrite filter_app. f_equal. apply remove_entry_notin. exact (Forall_lookup_1 _ _ _ _ He Hr).
Qed.

(** A candidate just returned is in no suffix left, when no queue is visited
    twice. *)
Lemma visited_once q kids rems i kid e rem :
  queue_wf q -> NoDup kids -> length rems = length kids ->
  (forall j kid' rem', kids !! j = Some kid' -> rems !! j = Some rem' ->
     exists pre, contents q kid' = pre ++ rem') ->
  kids !! i = Some kid -> rems !! i = Some (e :: rem) ->
  Forall (fun rem' => ae_id e ∉ ae_id <$> rem') (<[i := rem]> rems).
Proof.
  intros Hwf Hnd Hlen Hsuf Hk Hr.
  destruct (Hsuf _ _ _ Hk Hr) as [pre Hpre].
  assert (references q !! ae_id e = Some kid) as Href.
  { apply (wf_entry _ Hwf). rewrite Hpre. apply elem_of_app. right. left. }
  apply Forall_lookup. intros j rem' Hj (e' & He' & Hin)%list_elem_of_fmap.
  destruct (decide (i = j)) as [<-|Hij].
  - rewrite list_lookup_insert_eq in Hj by by eapply lookup_lt_Some. injection Hj as <-.
    pose proof (wf_nodup _ Hwf kid) as Hn. rewrite Hpre, fmap_app, fmap_cons in Hn.
    apply NoDup_app in Hn as (_ & _ & [Hn _]%list.NoDup_cons). apply Hn. rewrite He'.
    apply list_elem_of_fmap. by exists e'.
  - rewrite list_lookup_insert_ne in Hj by done.
    destruct (lookup_lt_is_Some_2 kids j) as [kid' Hk'];
      [rewrite <- Hlen; by eapply lookup_lt_Some|].
    destruct (Hsuf _ _ _ Hk' Hj) as [pre' Hpre'].
    destruct (wf_entry _ Hwf kid' e') as [Href' _]; [rewrite Hpre'; apply elem_of_app; by right|].
    rewrite <- He', Href in Href'. injection Href' as ->. apply Hij. by eapply NoDup_lookup.
Qed.

(** ** Theorems *)

(** The queue of an announcement, by its properties. *)
Lemma queue_of_ok p :
  (exists kid, queue_of p = Ok kid) <->
  (length (CommonCompartmentIDs p) + length (PersonalCompartmentIDs p) = 1)%nat /\
  (IsPriority p = true -> PersonalCompartmentIDs p = []).
Proof.
  unfold queue_of. case_decide as Hn; [split; [by intros [? ?]|tauto]|].
  split.
  - intros H. split; [done|]. intros Hp.
    destruct (CommonCompartmentIDs p), (PersonalCompartmentIDs p) as [|? [|? ?]]; try done; cbn in Hn; try lia.
    rewrite Hp in H. by destruct H.
  - intros [_ Hp]. destruct (CommonCompartmentIDs p), (PersonalCompartmentIDs p); cbn in Hn; try lia.
    + destruct (IsPriority p); [by specialize (Hp eq_refl)|eauto].
    + destruct (IsPriority p); eauto.
Qed.

(** C30: the announcement queues implement one FIFO list per compartment.  An
    announcement is accepted exactly when it names one compartment ID, and no
    priority with a personal one; it goes to the end of its compartment's list and
    the other lists are unchanged.  Dequeuing removes exactly that announcement
    from wherever it is, tells whether it was queued, and does nothing the second
    time.  Both keep the invariant: no empty queue, NAT counts and total equal to
    what is queued, each announcement in the one queue its reference names. *)
Theorem queue_operations q e :
  queue_wf q ->
  ((exists q', enqueue q e = Ok q') <->
     (length (CommonCompartmentIDs (ae_properties e)) +
      length (PersonalCompartmentIDs (ae_properties e)) = 1)%nat /\
     (IsPriority (ae_properties e) = true -> PersonalCompartmentIDs (ae_properties e) = [])) /\
  (forall q', references q !! ae_id e = None -> enqueue q e = Ok q' ->
     queue_wf q' /\ exists kid, queue_of (ae_properties e) = Ok kid /\
     forall kid', contents q' kid' = if decide (kid = kid') then contents q kid ++ [e] else contents q kid') /\
  (identified q e ->
     let (q', found) := dequeue q e in
     queue_wf q' /\ found = bool_decide (is_Some (references q !! ae_id e)) /\ (found = true <-> queued q e) /\
     (forall kid, contents q' kid = remove_entry (ae_id e) (contents q kid)) /\ ~ queued q' e /\
     dequeue q' e = (q', false)).
Proof.
  intros Hwf. split_and!.
  - rewrite <- queue_of_ok. split.
    + intros [q' (kid & H & _)%enqueue_inv]. eauto.
    + intros [[k id] H]. unfold enqueue. rewrite H. cbn. eauto.
  - intros q' Hf He. split; [by eapply enqueue_wf|].
    pose proof He as (kid & Hk & _)%enqueue_inv. exists kid. split; [done|]. by eapply enqueue_contents.
  - intros Hid. pose proof (dequeue_wf q e Hwf Hid) as H1. pose proof (dequeue_found q e) as H2.
    pose proof (dequeue_contents q e Hwf) as H3. pose proof (dequeue_references q e) as H4.
    destruct (dequeue q e) as [q' found]; cbn [fst snd] in *. split_and!; try done.
    + rewrite H2, bool_decide_eq_true. split; [|by apply queued_reference].
      intros [kid Hr]. exists kid. by apply identified_reference.
    + intros [kid Hin]. rewrite H3 in Hin. by apply remove_entry_elem in Hin as [_ ?].
    + apply dequeue_none. rewrite H4. by rewrite lookup_delete_eq.
Qed.

(** The iterator visits the announcements of the offer's compartments, each of
    them exactly once, and then ends.  Every priority announcement comes before
    every other, and announcements of the same priority come in the order of their
    deadlines, when each queue is in that order. *)
Theorem iteration_order q common ids n :
  queue_wf q ->
  (forall kid, kid ∈ visited q common ids -> deadline_sorted (contents q kid)) ->
  let l := candidates q common ids in
  (length l <= n)%nat ->
  visit n q (startMatching q common ids) ≡ₚ l /\
  StronglySorted candidate_le (visit n q (startMatching q common ids)).
Proof.
  intros Hwf Hd l Hn. rewrite (visit_merge _ _ _ _ Hwf (startMatching_tracks q common ids)).
  rewrite (proj1 (startMatching_visited q common ids)). unfold l in *. rewrite <- remaining_candidates in Hn |- *.
  split.
  - apply merge_perm; [by rewrite length_fmap|done].
  - apply merge_sorted; [apply visited_priority_first|by rewrite length_fmap|].
    apply Forall_fmap, list.Forall_forall. apply Hd.
Qed.

(** The NAT counters of the queues tell exactly whether one of the offer's
    candidates is a preferred NAT match. *)
Theorem existsPreferredNATMatch_correct q p common ids :
  queue_wf q ->
  let '(unlimited, partially, strictly) := getNATCounts q (startMatching q common ids) in
  ExistsPreferredNATMatch p (0 <? unlimited) (0 <? partially) (0 <? strictly) = true <->
  exists e pr, (e, pr) ∈ candidates q common ids /\ IsPreferredNATMatch p (ae_properties e) = true.
Proof.
  intros Hwf. rewrite getNATCounts_counts by done. unfold ExistsPreferredNATMatch.
  rewrite ExistsPreferredMatch_exists, (proj1 (startMatching_visited q common ids)).
  set (l := visited q common ids ≫= contents q).
  assert (forall t, flag (0 <? count NATTraversalUnlimited l) (0 <? count NATTraversalPartiallyLimited l)
            (0 <? count NATTraversalStrictlyLimited l) t = true <-> exists e, e ∈ l /\ traversal e = t) as Hflag.
  { intros t. rewrite <- count_pos_exists. destruct t; cbn; lia. }
  setoid_rewrite Hflag. clear Hflag.
  assert (forall e, e ∈ l <-> exists pr, (e, pr) ∈ candidates q common ids) as Hl.
  { intros e. unfold l, candidates. rewrite list_elem_of_bind. split.
    - intros (kid & He & Hk). exists (isPriority kid). apply list_elem_of_bind. exists kid. split; [|done].
      apply list_elem_of_fmap. by exists e.
    - intros (pr & (kid & (e' & [= <- _] & He)%list_elem_of_fmap & Hk)%list_elem_of_bind). by exists kid. }
  split.
  - intros (t & (e & [pr He]%Hl & <-) & Hp). by exists e, pr.
  - intros (e & pr & He & Hp). exists (traversal e). split; [|done]. exists e. split; [|done]. apply Hl. by exists pr.
Qed.

(** *** Examples *)

Definition example_entry (n : nat) (priority : bool) (id : ID) (deadline natType : Z) : announcementEntry := {|
  ae_id := n; ae_deadline := Some deadline; ae_limitIP := "192.0.2.1";
  ae_announcement := {|
    Properties := {| IsPriority := priority; ProtocolVersion := 2; CommonCompartmentIDs := [id];
      PersonalCompartmentIDs := []; GeoIP := {| Country := "CA"; City := ""; ISP := ""; ASN := "1"; ASO := "" |}; NetworkType := 1; NATType := natType;
      PortMappingTypes := [] |};
    ProxyID := [x01]; SponsorID := ""; ConnectionID := [Byte.x02] |}
|}.

Definition enqueue_all (l : list announcementEntry) : res announcementMultiQueue :=
  foldl (fun r e => q ← r; enqueue q e) (Ok newAnnouncementMultiQueue) l.

(** Distinct announcements, each with a queue, are all queued. *)
Lemma enqueue_all_wf l :
  NoDup (ae_id <$> l) -> Forall (fun e => exists kid, queue_of (ae_properties e) = Ok kid) l ->
  exists q, enqueue_all l = Ok q /\ queue_wf q /\
    forall n, is_Some (references q !! n) -> n ∈ (ae_id <$> l).
Proof.
  induction l as [|e l IH] using rev_ind.
  { intros _ _. exists newAnnouncementMultiQueue. split_and!; [done|apply newAnnouncementMultiQueue_wf|].
    intros n [? H]. done. }
  rewrite fmap_app. intros (Hnd & Hd & _)%NoDup_app [Hl He]%Forall_app.
  destruct (IH Hnd Hl) as (q & Hq & Hwf & Hr). inversion He as [|? ? [[k id] Hk] _]; subst.
  destruct (enqueue q e) as [q'|?|?|] eqn:Hq';
    [|unfold enqueue in Hq'; rewrite Hk in Hq'; done..].
  assert (references q !! ae_id e = None) as Hfresh.
  { apply eq_None_not_Some. intros Hin%Hr. apply (Hd _ Hin). left. }
  exists q'. split_and!.
  - unfold enqueue_all. rewrite foldl_app. fold (enqueue_all l). by rewrite Hq.
  - by eapply enqueue_wf.
  - apply enqueue_inv in Hq' as (kid & _ & ->). cbn. intros n [x [[<- _]|[_ H]]%lookup_insert_Some].
    + apply elem_of_app. right. left.
    + apply elem_of_app. left. apply Hr. by exists x.
Qed.

Definition example_entries : list announcementEntry :=
  [example_entry 1 false [x0a] 10 5; example_entry 2 false [x0b] 5 0; example_entry 3 true [x0a] 20 0].
Definition example_queue : announcementMultiQueue :=
  default newAnnouncementMultiQueue (match enqueue_all example_entries with Ok q => Some q | _ => None end).

Lemma example_queue_wf : queue_wf example_queue.
Proof.
  destruct (enqueue_all_wf example_entries) as (q & Hq & Hwf & _).
  - repeat constructor; set_solver.
  - repeat constructor; eexists; reflexivity.
  - unfold example_queue. by rewrite Hq.
Qed.

Lemma queue_operations_witness :
  queue_wf example_queue /\
  exists q', enqueue example_queue (example_entry 4 false [x0a] 30 0) = Ok q'.
Proof.
  split; [exact example_queue_wf|].
  apply (queue_operations example_queue (example_entry 4 false [x0a] 30 0) example_queue_wf).
  split; reflexivity.
Defined.

Lemma iteration_order_witness :
  StronglySorted candidate_le (visit 3 example_queue (startMatching example_queue true [[x0a]; [x0b]])) /\
  ae_id <$> (visit 3 example_queue (startMatching example_queue true [[x0a]; [x0b]])).*1 = [3; 2; 1]%nat.
Proof.
  split; [|vm_compute; reflexivity].
  apply (iteration_order example_queue true [[x0a]; [x0b]] 3 example_queue_wf).
  - intros kid. assert (visited example_queue true [[x0a]; [x0b]] =
      [(PriorityCommon, [x0a]); (Common, [x0a]); (Common, [x0b])]) as -> by (vm_compute; reflexivity).
    intros [->|[->|[->|H%elem_of_nil]%elem_of_cons]%elem_of_cons]%elem_of_cons; [..|done];
      (split; vm_compute; repeat constructor; eauto).
  - vm_compute. lia.
Defined.
