(* ===== verification/Matcher.v ===== *)
(** * The matcher of the in-proxy broker

    Models [Matcher] of src/psiphon/common/inproxy/matcher.go: proxy announcements
    and client offers are queued, a worker matches them, and the proxy's answer is
    routed to the client that made the offer.

    Entries are identified by [ae_id] and [oe_id], which stand for their addresses;
    their channels and metrics are kept in maps by identifier.  A channel of capacity
    one is its buffer and whether it is closed.  Clocks, contexts and rate limiters are
    arguments: the value they return at each use.  The cache of pending answers is a
    map from which an entry may vanish at any time.

    [Announce] and [Offer] are split where they block: adding the entry, and then
    either receiving from the channel or giving up when the context is done. *)

From Stdlib Require Import ZArith Lia Strings.Byte Sorting.Sorted.
From stdpp Require Import base gmap list sets strings.
From S2P Require Import Prelude Lookups NAT MatchQueue.
#[local] Open Scope Z_scope.

Definition matcherAnnouncementQueueMaxSize : Z := 5000000.
Definition matcherOfferQueueMaxSize : Z := 5000000.
Definition matcherMaxPreferredNATProbe : Z := 10.
Definition matcherMaxProbe : Z := 100.
Definition matcherYieldCount : Z := 32.
Definition matcherMaxRateLimitQuantity : Z := 10000.
(** Durations are in nanoseconds. *)
Definition matcherMaxRateLimitInterval : Z := 60000000000.
Definition matcherMaxLimitEntryCount : Z := 10000.
Definition maxInt64 : Z := 2 ^ 63 - 1.
Definition minInt64 : Z := - 2 ^ 63.

(** ** Data *)

(** The fields that are only passed through (the session description and its
    secrets) are one string. *)
Record MatchOffer := {
  offer_Properties : MatchProperties;
  ClientOfferSDP : string;
  UseMediaStreams : bool;
  NetworkProtocol : Z;
  DestinationAddress : string;
  DestinationServerID : string
}.

Record MatchAnswer := {
  ProxyIP : string;
  answer_ProxyID : ID;
  answer_ConnectionID : ID;
  ProxyAnswerSDP : string
}.

Record MatchMetrics := {
  OfferDeadline : Z;
  OfferMatchIndex : Z;
  OfferQueueSize : Z;
  AnnouncementMatchIndex : Z;
  AnnouncementQueueSize : Z;
  PendingAnswersSize : Z;
  MatchDuration : Z
}.

Record offerEntry := {
  oe_id : nat;
  oe_deadline : option Z;
  oe_limitIP : string;
  oe_offer : MatchOffer
}.

Inductive answerInfo :=
| answered (announcement : MatchAnnouncement) (answer : MatchAnswer)
| offerDropped.

(** [answerChan] is the identifier of the offer it belongs to. *)
Record pendingAnswer := {
  pa_announcement : MatchAnnouncement;
  answerChan : nat
}.

(** A channel made with capacity 1. *)
Record chan (A : Type) := { buffer : option A; closed : bool }.
Arguments Build_chan {A}.
Arguments buffer {A} _.
Arguments closed {A} _.

Definition make_chan {A} : chan A := {| buffer := None; closed := false |}.

(** [Err] is a send that blocks. *)
Definition chan_send {A} (c : chan A) (a : A) : res (chan A) :=
  if closed c then Panic "send on closed channel"
  else match buffer c with
       | Some _ => Err "send blocks"
       | None => Ok {| buffer := Some a; closed := false |}
       end.

Definition chan_close {A} (c : chan A) : res (chan A) :=
  if closed c then Panic "close of closed channel"
  else Ok {| buffer := buffer c; closed := true |}.

(** What is received, nil from a closed channel; [None] when the receive blocks. *)
Definition chan_receive {A} (c : chan A) : option (option A * chan A) :=
  match buffer c with
  | Some a => Some (Some a, {| buffer := None; closed := closed c |})
  | None => if closed c then Some (None, c) else None
  end.

(** ** State *)

Record limits := {
  announcementLimitEntryCount : Z;
  announcementRateLimitQuantity : Z;
  announcementRateLimitInterval : Z;
  announcementExemptProxyIDs : gset ID;
  announcementExemptSponsorIDs : Strings.StringLookup;
  offerLimitEntryCount : Z;
  offerRateLimitQuantity : Z;
  offerRateLimitInterval : Z;
  offerMinimumDeadline : Z
}.

Record announcementState := {
  announcementQueue : announcementMultiQueue;
  announcementQueueEntryCountByIP : gmap string Z;
  offerChans : gmap nat (chan MatchOffer);
  announcementMetrics : gmap nat MatchMetrics
}.

(** [offerReferences] are the offers whose [queueReference] is not nil. *)
Record offerState := {
  offerQueue : list offerEntry;
  offerReferences : gset nat;
  offerQueueEntryCountByIP : gmap string Z;
  offerQueueLen : Z;
  answerChans : gmap nat (chan answerInfo);
  offerMetrics : gmap nat MatchMetrics
}.

Record Matcher := {
  m_limits : limits;
  m_announcements : announcementState;
  m_offers : offerState;
  matchSignal : bool;
  pendingAnswers : gmap bytes pendingAnswer
}.

Definition with_announcements (m : Matcher) (a : announcementState) : Matcher := {|
  m_limits := m_limits m; m_announcements := a; m_offers := m_offers m;
  matchSignal := matchSignal m; pendingAnswers := pendingAnswers m |}.
Definition with_offers (m : Matcher) (o : offerState) : Matcher := {|
  m_limits := m_limits m; m_announcements := m_announcements m; m_offers := o;
  matchSignal := matchSignal m; pendingAnswers := pendingAnswers m |}.
Definition with_signal (m : Matcher) (b : bool) : Matcher := {|
  m_limits := m_limits m; m_announcements := m_announcements m; m_offers := m_offers m;
  matchSignal := b; pendingAnswers := pendingAnswers m |}.
Definition with_pending (m : Matcher) (p : gmap bytes pendingAnswer) : Matcher := {|
  m_limits := m_limits m; m_announcements := m_announcements m; m_offers := m_offers m;
  matchSignal := matchSignal m; pendingAnswers := p |}.
Definition with_limits (m : Matcher) (l : limits) : Matcher := {|
  m_limits := l; m_announcements := m_announcements m; m_offers := m_offers m;
  matchSignal := matchSignal m; pendingAnswers := pendingAnswers m |}.

Definition with_answerChan (m : Matcher) (id : nat) (c : chan answerInfo) : Matcher :=
  let o := m_offers m in
  with_offers m {| offerQueue := offerQueue o; offerReferences := offerReferences o;
    offerQueueEntryCountByIP := offerQueueEntryCountByIP o; offerQueueLen := offerQueueLen o;
    answerChans := <[id := c]> (answerChans o); offerMetrics := offerMetrics o |}.
Definition with_offerChan (m : Matcher) (id : nat) (c : chan MatchOffer) : Matcher :=
  let a := m_announcements m in
  with_announcements m {| announcementQueue := announcementQueue a;
    announcementQueueEntryCountByIP := announcementQueueEntryCountByIP a;
    offerChans := <[id := c]> (offerChans a); announcementMetrics := announcementMetrics a |}.

(** The channel of an entry. *)
Definition get_answerChan (m : Matcher) (id : nat) : chan answerInfo :=
  default make_chan (answerChans (m_offers m) !! id).
Definition get_offerChan (m : Matcher) (id : nat) : chan MatchOffer :=
  default make_chan (offerChans (m_announcements m) !! id).

(** ** Limits *)

(** The rate limit, capped: [quantity/interval] no higher than the sanity rate. *)
Definition cap_rate (quantity interval : Z) : Z * Z :=
  if (0 <? quantity) && (0 <? interval) &&
     ((maxInt64 / matcherMaxRateLimitInterval <? quantity) ||
      (i64 (matcherMaxRateLimitQuantity * interval) <? i64 (quantity * matcherMaxRateLimitInterval)))
  then (matcherMaxRateLimitQuantity, matcherMaxRateLimitInterval)
  else (quantity, interval).

Definition cap_count (count : Z) : Z :=
  if matcherMaxLimitEntryCount <? count then matcherMaxLimitEntryCount else count.

Definition make_limits (annCount annQuantity annInterval : Z) (exemptProxyIDs : list ID)
    (exemptSponsorIDs : list string) (offCount offQuantity offInterval minimumDeadline : Z) : limits :=
  let '(annQuantity, annInterval) := cap_rate annQuantity annInterval in
  let '(offQuantity, offInterval) := cap_rate offQuantity offInterval in
  {| announcementLimitEntryCount := cap_count annCount;
     announcementRateLimitQuantity := annQuantity;
     announcementRateLimitInterval := annInterval;
     announcementExemptProxyIDs := list_to_set exemptProxyIDs;
     announcementExemptSponsorIDs := Strings.NewStringLookup exemptSponsorIDs;
     offerLimitEntryCount := cap_count offCount;
     offerRateLimitQuantity := offQuantity;
     offerRateLimitInterval := offInterval;
     offerMinimumDeadline := minimumDeadline |}.

Definition SetLimits (m : Matcher) (annCount annQuantity annInterval : Z) (exemptProxyIDs : list ID)
    (exemptSponsorIDs : list string) (offCount offQuantity offInterval minimumDeadline : Z) : Matcher :=
  with_limits m (make_limits annCount annQuantity annInterval exemptProxyIDs exemptSponsorIDs
    offCount offQuantity offInterval minimumDeadline).

(** [NewMatcher], with the limits of the configuration. *)
Definition NewMatcher (annCount annQuantity annInterval : Z) (exemptProxyIDs : list ID)
    (exemptSponsorIDs : list string) (offCount offQuantity offInterval minimumDeadline : Z) : Matcher := {|
  m_limits := make_limits annCount annQuantity annInterval exemptProxyIDs exemptSponsorIDs
    offCount offQuantity offInterval minimumDeadline;
  m_announcements := {| announcementQueue := newAnnouncementMultiQueue;
    announcementQueueEntryCountByIP := ∅; offerChans := ∅; announcementMetrics := ∅ |};
  m_offers := {| offerQueue := []; offerReferences := ∅; offerQueueEntryCountByIP := ∅;
    offerQueueLen := 0; answerChans := ∅; offerMetrics := ∅ |};
  matchSignal := false;
  pendingAnswers := ∅
|}.

(** [IsLoadLimiting] is [None] when the callback is nil. *)
Definition applyLoadLimit (m : Matcher) (IsLoadLimiting : option bool) (isAnnouncement : bool) : res unit :=
  match IsLoadLimiting with
  | Some true =>
      let announcementLen := getLen (announcementQueue (m_announcements m)) in
      let offerLen := offerQueueLen (m_offers m) in
      let allow := if isAnnouncement then announcementLen <? Z.quot offerLen 2
                   else offerLen <? Z.quot announcementLen 2 in
      if allow then Ok tt else Err "load limited"
  | _ => Ok tt
  end.

(** [brokerRateLimit]: [allow] is what the rate limiter of the IP answers. *)
Definition brokerRateLimit (quantity interval : Z) (allow : bool) : res unit :=
  if (quantity <=? 0) || (interval <=? 0) then Ok tt
  else if allow then Ok tt else Err "rate exceeded for IP".

Definition applyIPLimits (m : Matcher) (allow isAnnouncement isExempt : bool) (limitIP : string) : res unit :=
  let l := m_limits m in
  let '(entryCountByIP, limitEntryCount, quantity, interval) :=
    if isAnnouncement then
      (announcementQueueEntryCountByIP (m_announcements m),
       if isExempt then (if announcementLimitEntryCount l =? 0 then 0 else matcherMaxLimitEntryCount)
       else announcementLimitEntryCount l,
       if isExempt then (if announcementRateLimitQuantity l =? 0 then 0 else matcherMaxRateLimitQuantity)
       else announcementRateLimitQuantity l,
       if isExempt then (if announcementRateLimitInterval l =? 0 then 0 else matcherMaxRateLimitInterval)
       else announcementRateLimitInterval l)
    else
      (offerQueueEntryCountByIP (m_offers m), offerLimitEntryCount l,
       offerRateLimitQuantity l, offerRateLimitInterval l) in
  _ ← brokerRateLimit quantity interval allow;
  if (0 <? limitEntryCount) &&
     match entryCountByIP !! limitIP with Some entryCount => limitEntryCount <=? entryCount | None => false end
  then Err "max entries for IP"
  else Ok tt.

(** A count by IP increased, and decreased with no zero left. *)
Definition count_up (counts : gmap string Z) (ip : string) : gmap string Z :=
  <[ip := default 0 (counts !! ip) + 1]> counts.
Definition count_down (counts : gmap string Z) (ip : string) : gmap string Z :=
  let n := default 0 (counts !! ip) - 1 in
  if n =? 0 then delete ip counts else <[ip := n]> counts.

(** ** Adding and removing entries *)

Definition with_limitIP (e : announcementEntry) (ip : string) : announcementEntry := {|
  ae_id := ae_id e; ae_deadline := ae_deadline e; ae_limitIP := ip; ae_announcement := ae_announcement e |}.

Definition is_exempt (m : Matcher) (e : announcementEntry) : bool :=
  Strings.Contains (announcementExemptSponsorIDs (m_limits m)) (SponsorID (ae_announcement e)) ||
  bool_decide (ProxyID (ae_announcement e) ∈ announcementExemptProxyIDs (m_limits m)).

(** The entry as it is changed, and the matcher. *)
Definition addAnnouncementEntry (m : Matcher) (allow : bool) (e : announcementEntry)
  : res (announcementEntry * Matcher) :=
  let a := m_announcements m in
  if matcherAnnouncementQueueMaxSize <=? getLen (announcementQueue a) then Err "queue full"
  else
    let isExempt := is_exempt m e in
    let e := if isExempt then with_limitIP e (ae_limitIP e +:+ "-exempt")%string else e in
    _ ← applyIPLimits m allow true isExempt (ae_limitIP e);
    if decide (is_Some (references (announcementQueue a) !! ae_id e)) then Err "unexpected queue reference"
    else
      q ← enqueue (announcementQueue a) e;
      Ok (e, with_signal (with_announcements m
        {| announcementQueue := q;
           announcementQueueEntryCountByIP := count_up (announcementQueueEntryCountByIP a) (ae_limitIP e);
           offerChans := offerChans a; announcementMetrics := announcementMetrics a |}) true).

Definition pendingAnswerKey (proxyID connectionID : ID) : bytes := proxyID ++ connectionID.

(** The entry out of the queue and of the count of its IP. *)
Definition take_entry (a : announcementState) (e : announcementEntry) : announcementState * bool :=
  let '(q, found) := dequeue (announcementQueue a) e in
  ({| announcementQueue := q;
      announcementQueueEntryCountByIP :=
        if found then count_down (announcementQueueEntryCountByIP a) (ae_limitIP e)
        else announcementQueueEntryCountByIP a;
      offerChans := offerChans a; announcementMetrics := announcementMetrics a |}, found).

Definition removeAnnouncementEntry (m : Matcher) (aborting : bool) (e : announcementEntry) : res Matcher :=
  let '(a, found) := take_entry (m_announcements m) e in
  let m := with_announcements m a in
  if aborting && negb found then
    let key := pendingAnswerKey (ProxyID (ae_announcement e)) (ConnectionID (ae_announcement e)) in
    match pendingAnswers m !! key with
    | Some p =>
        c ← chan_close (get_answerChan m (answerChan p));
        Ok (with_pending (with_answerChan m (answerChan p) c) (delete key (pendingAnswers m)))
    | None => Ok m
    end
  else Ok m.

Definition addOfferEntry (m : Matcher) (allow : bool) (e : offerEntry) : res Matcher :=
  let o := m_offers m in
  if matcherOfferQueueMaxSize <=? Z.of_nat (length (offerQueue o)) then Err "queue full"
  else
    _ ← applyIPLimits m allow false false (oe_limitIP e);
    if decide (oe_id e ∈ offerReferences o) then Err "unexpected queue reference"
    else
      Ok (with_signal (with_offers m
        {| offerQueue := offerQueue o ++ [e];
           offerReferences := {[oe_id e]} ∪ offerReferences o;
           offerQueueEntryCountByIP := count_up (offerQueueEntryCountByIP o) (oe_limitIP e);
           offerQueueLen := offerQueueLen o + 1;
           answerChans := answerChans o; offerMetrics := offerMetrics o |}) true).

(** Aborting only decides whether the queue must be locked first. *)
Definition removeOfferEntry (m : Matcher) (e : offerEntry) : Matcher :=
  let o := m_offers m in
  if decide (oe_id e ∈ offerReferences o) then
    with_offers m
      {| offerQueue := filter (fun e' => oe_id e' <> oe_id e) (offerQueue o);
         offerReferences := offerReferences o ∖ {[oe_id e]};
         offerQueueEntryCountByIP := count_down (offerQueueEntryCountByIP o) (oe_limitIP e);
         offerQueueLen := offerQueueLen o - 1;
         answerChans := answerChans o; offerMetrics := offerMetrics o |}
  else m.

(** ** Matching *)

Record best := {
  bestMatch : option announcementEntry;
  bestMatchIndex : Z;
  bestMatchIsPriority : bool;
  bestMatchNAT : bool
}.
Definition no_match : best :=
  {| bestMatch := None; bestMatchIndex := -1; bestMatchIsPriority := false; bestMatchNAT := false |}.

(** The callbacks of the configuration, and [GetAllowCommonASNMatching]. *)
Record matchConfig := {
  AllowCommonASNMatching : bool;
  AllowMatch : GeoIPData -> GeoIPData -> bool;
  HasQuality : ID -> string -> string -> bool
}.

(** The protocol and GeoIP constraints, on a candidate whose context is not done. *)
Definition acceptable (cfg : matchConfig) (offer : MatchOffer) (common : bool) (p : MatchProperties) : bool :=
  let op := offer_Properties offer in
  (negotiateProtocolVersion (ProtocolVersion p) (ProtocolVersion op) (UseMediaStreams offer)).2 &&
  (negb common ||
   (AllowCommonASNMatching cfg ||
    negb (bool_decide (Country (GeoIP op) = Country (GeoIP p)) &&
          bool_decide (ASN (GeoIP op) = ASN (GeoIP p)))) &&
   AllowMatch cfg (GeoIP p) (GeoIP op)).

Definition match_NAT (cfg : matchConfig) (offer : MatchOffer) (e : announcementEntry) (isPriority : bool) : bool :=
  let op := offer_Properties offer in
  IsPreferredNATMatch op (ae_properties e) ||
  (isPriority &&
   HasQuality cfg (ProxyID (ae_announcement e)) (ASN (GeoIP (ae_properties e))) (ASN (GeoIP op))).

(** The loop of [matchOffer].  [done i id] is whether the context of an announcement is
    done when it is looked at as the candidate [i]. *)
Fixpoint match_loop (fuel : nat) (cfg : matchConfig) (done : Z -> nat -> bool) (offer : MatchOffer)
    (common existsPreferredNATMatch : bool) (m : Matcher) (iter : announcementMatchIterator)
    (candidateIndex : Z) (b : best) : res (Matcher * best) :=
  match fuel with
  | O => NoFuel
  | S fuel =>
      if candidateIndex <=? matcherMaxProbe then
        match getNext (announcementQueue (m_announcements m)) iter with
        | (None, _) => Ok (m, b)
        | (Some (e, isPriority), iter) =>
            if negb isPriority && bestMatchIsPriority b then Ok (m, b)
            else
              let candidateIndex := candidateIndex + 1 in
              if done candidateIndex (ae_id e) then
                m ← removeAnnouncementEntry m false e;
                match_loop fuel cfg done offer common existsPreferredNATMatch m iter candidateIndex b
              else if negb (acceptable cfg offer common (ae_properties e)) then
                match_loop fuel cfg done offer common existsPreferredNATMatch m iter candidateIndex b
              else
                let matchNAT := match_NAT cfg offer e isPriority in
                let b :=
                  if bool_decide (bestMatch b = None) || (negb (bestMatchNAT b) && matchNAT) then
                    {| bestMatch := Some e; bestMatchIndex := candidateIndex;
                       bestMatchIsPriority := isPriority; bestMatchNAT := matchNAT |}
                  else b in
                if bool_decide (bestMatch b <> None) &&
                   (bestMatchNAT b || negb existsPreferredNATMatch ||
                    (matcherMaxPreferredNATProbe <=? candidateIndex - bestMatchIndex b))
                then Ok (m, b)
                else match_loop fuel cfg done offer common existsPreferredNATMatch m iter candidateIndex b
        end
      else Ok (m, b)
  end.

(** Enough for the candidates -1 to [matcherMaxProbe]. *)
Definition match_fuel : nat := Z.to_nat (matcherMaxProbe + 3).

(** The compartments of an offer. *)
Definition offer_compartments (p : MatchProperties) : bool * list ID :=
  match PersonalCompartmentIDs p with
  | [] => (true, CommonCompartmentIDs p)
  | ids => (false, ids)
  end.

(** The matcher, as expired announcements are removed, the match and its index. *)
Definition matchOffer (cfg : matchConfig) (done : Z -> nat -> bool) (m : Matcher) (offer : MatchOffer)
  : res (Matcher * option announcementEntry * Z) :=
  let '(isCommonCompartments, compartmentIDs) := offer_compartments (offer_Properties offer) in
  if decide (compartmentIDs = []) then Ok (m, None, -1)
  else
    let q := announcementQueue (m_announcements m) in
    let matchIterator := startMatching q isCommonCompartments compartmentIDs in
    let '(unlimited, partially, strictly) := getNATCounts q matchIterator in
    let existsPreferredNATMatch :=
      ExistsPreferredNATMatch (offer_Properties offer) (0 <? unlimited) (0 <? partially) (0 <? strictly) in
    '(m, b) ← match_loop match_fuel cfg done offer isCommonCompartments existsPreferredNATMatch
                m matchIterator (-1) no_match;
    Ok (m, bestMatch b, bestMatchIndex b).

(** What the clock and the contexts answer while one offer is matched. *)
Record reading := {
  offerDone : bool;
  now : Z;
  announcementDone : Z -> nat -> bool;
  sinceStart : Z
}.

(** [time.Until], within the range of a duration; the zero time is far in the past. *)
Definition until (deadline : option Z) (now : Z) : Z :=
  match deadline with
  | Some d => Z.max minInt64 (Z.min maxInt64 (d - now))
  | None => minInt64
  end.

Definition with_metrics (m : Matcher) (oid aid : nat) (x : MatchMetrics) : Matcher :=
  let o := m_offers m in
  let a := m_announcements m in
  with_announcements
    (with_offers m
      {| offerQueue := offerQueue o; offerReferences := offerReferences o;
         offerQueueEntryCountByIP := offerQueueEntryCountByIP o; offerQueueLen := offerQueueLen o;
         answerChans := answerChans o; offerMetrics := <[oid := x]> (offerMetrics o) |})
    {| announcementQueue := announcementQueue a;
       announcementQueueEntryCountByIP := announcementQueueEntryCountByIP a;
       offerChans := offerChans a; announcementMetrics := <[aid := x]> (announcementMetrics a) |}.

(** What is done once an offer has its match: metrics, the announcement dequeued, the
    pending answer, the offer sent to the proxy, the offer dequeued. *)
Definition deliver (m : Matcher) (r : reading) (offerIndex announcementMatchIndex : Z)
    (o : offerEntry) (e : announcementEntry) : res Matcher :=
  let matchMetrics := {|
    OfferDeadline := until (oe_deadline o) (now r);
    OfferMatchIndex := offerIndex;
    OfferQueueSize := Z.of_nat (length (offerQueue (m_offers m)));
    AnnouncementMatchIndex := announcementMatchIndex;
    AnnouncementQueueSize := getLen (announcementQueue (m_announcements m));
    PendingAnswersSize := Z.of_nat (size (pendingAnswers m));
    MatchDuration := sinceStart r |} in
  let m := with_metrics m (oe_id o) (ae_id e) matchMetrics in
  m ← removeAnnouncementEntry m false e;
  let key := pendingAnswerKey (ProxyID (ae_announcement e)) (ConnectionID (ae_announcement e)) in
  let m := with_pending m
    (<[key := {| pa_announcement := ae_announcement e; answerChan := oe_id o |}]> (pendingAnswers m)) in
  c ← chan_send (get_offerChan m (ae_id e)) (oe_offer o);
  Ok (removeOfferEntry (with_offerChan m (ae_id e) c) o).

(** The body of the loop of [matchAllOffers]. *)
Definition match_one (cfg : matchConfig) (r : reading) (m : Matcher) (offerIndex : Z) (o : offerEntry)
  : res Matcher :=
  if offerDone r then Ok (removeOfferEntry m o)
  else
    let minimum := offerMinimumDeadline (m_limits m) in
    if (0 <? minimum) && (until (oe_deadline o) (now r) <? minimum) then
      let m := removeOfferEntry m o in
      c ← chan_send (get_answerChan m (oe_id o)) offerDropped;
      Ok (with_answerChan m (oe_id o) c)
    else
      '(m, e, announcementMatchIndex) ← matchOffer cfg (announcementDone r) m (oe_offer o);
      match e with
      | None => Ok m
      | Some e => deliver m r offerIndex announcementMatchIndex o e
      end.

(** The loop, over the offers queued when it starts: the offer queue stays locked.
    Every [matcherYieldCount] offers the announcement queue is unlocked, and [yield] is
    what others do to it then. *)
Fixpoint match_offers (cfg : matchConfig) (readings : Z -> reading) (yield : Z -> Matcher -> Matcher)
    (m : Matcher) (offerIndex : Z) (offers : list offerEntry) : res Matcher :=
  match offers with
  | [] => Ok m
  | o :: offers =>
      if 0 <? getLen (announcementQueue (m_announcements m)) then
        let offerIndex := offerIndex + 1 in
        let m := if (0 <? offerIndex) && (Z.rem offerIndex matcherYieldCount =? 0)
                 then yield offerIndex m else m in
        m ← match_one cfg (readings offerIndex) m offerIndex o;
        match_offers cfg readings yield m offerIndex offers
      else Ok m
  end.

Definition matchAllOffers (cfg : matchConfig) (readings : Z -> reading) (yield : Z -> Matcher -> Matcher)
    (m : Matcher) : res Matcher :=
  match_offers cfg readings yield m (-1) (offerQueue (m_offers m)).

(** ** Announce, Offer and Answer *)

(** [Announce] until it waits. *)
Definition Announce_begin (m : Matcher) (IsLoadLimiting : option bool) (allow : bool) (e : announcementEntry)
  : res (announcementEntry * Matcher) :=
  let p := ae_properties e in
  let common := CommonCompartmentIDs p in
  let personal := PersonalCompartmentIDs p in
  if negb (bool_decide (common = [])) && negb (bool_decide (personal = []))
  then Err "unexpected multiple compartment ID types"
  else
    let compartmentIDs := if bool_decide (common = []) then personal else common in
    if negb (bool_decide (length compartmentIDs = 1%nat)) then Err "unexpected compartment ID count"
    else
      _ ← applyLoadLimit m IsLoadLimiting true;
      addAnnouncementEntry (with_offerChan m (ae_id e) make_chan) allow e.

(** The end of [Announce]: [None] while it waits, the offer or the error, and the
    metrics.  When the context is done the entry is taken back. *)
Definition Announce_abort (m : Matcher) (e : announcementEntry) : res (option MatchMetrics * Matcher) :=
  m ← removeAnnouncementEntry m true e;
  Ok (announcementMetrics (m_announcements m) !! ae_id e, m).

Definition Announce_receive (m : Matcher) (e : announcementEntry)
  : option (option MatchOffer * option MatchMetrics * Matcher) :=
  '(o, c) ← chan_receive (get_offerChan m (ae_id e));
  Some (o, announcementMetrics (m_announcements m) !! ae_id e, with_offerChan m (ae_id e) c).

Definition Offer_begin (m : Matcher) (IsLoadLimiting : option bool) (allow : bool) (e : offerEntry)
  : res Matcher :=
  let p := offer_Properties (oe_offer e) in
  let common := CommonCompartmentIDs p in
  let personal := PersonalCompartmentIDs p in
  if negb (bool_decide (common = [])) && negb (bool_decide (personal = []))
  then Err "unexpected multiple compartment ID types"
  else
    let compartmentIDs := if bool_decide (common = []) then personal else common in
    if bool_decide (length compartmentIDs < 1)%nat then Err "unexpected missing compartment IDs"
    else
      _ ← applyLoadLimit m IsLoadLimiting false;
      addOfferEntry (with_answerChan m (oe_id e) make_chan) allow e.

Definition Offer_abort (m : Matcher) (e : offerEntry) : option MatchMetrics * Matcher :=
  let m := removeOfferEntry m e in
  (offerMetrics (m_offers m) !! oe_id e, m).

(** What [Offer] returns for what it received. *)
Definition Offer_result (info : option answerInfo) : res (MatchAnswer * MatchAnnouncement) :=
  match info with
  | None => Err "no answer"
  | Some offerDropped => Err "offer dropped"
  | Some (answered announcement answer) =>
      if negb (bool_decide (answer_ConnectionID answer = ConnectionID announcement))
      then Err "unexpected connection ID"
      else Ok (answer, announcement)
  end.

Definition Offer_receive (m : Matcher) (e : offerEntry)
  : option (res (MatchAnswer * MatchAnnouncement) * option MatchMetrics * Matcher) :=
  '(info, c) ← chan_receive (get_answerChan m (oe_id e));
  Some (Offer_result info, offerMetrics (m_offers m) !! oe_id e, with_answerChan m (oe_id e) c).

Definition AnnouncementHasPersonalCompartmentIDs (m : Matcher) (proxyID connectionID : ID) : res bool :=
  match pendingAnswers m !! pendingAnswerKey proxyID connectionID with
  | None => Err "no pending answer"
  | Some p => Ok (negb (bool_decide (PersonalCompartmentIDs (Properties (pa_announcement p)) = [])))
  end.

(** [Answer] and [AnswerError] look the pending answer up, delete it and then use its
    channel. *)
Definition answer_deliver (m : Matcher) (key : bytes) (p : pendingAnswer) (proxyAnswer : MatchAnswer)
  : res Matcher :=
  let m := with_pending m (delete key (pendingAnswers m)) in
  c ← chan_send (get_answerChan m (answerChan p)) (answered (pa_announcement p) proxyAnswer);
  Ok (with_answerChan m (answerChan p) c).

Definition Answer (m : Matcher) (proxyAnswer : MatchAnswer) : res Matcher :=
  let key := pendingAnswerKey (answer_ProxyID proxyAnswer) (answer_ConnectionID proxyAnswer) in
  match pendingAnswers m !! key with
  | None => Err "no pending answer"
  | Some p => answer_deliver m key p proxyAnswer
  end.

Definition answerError_deliver (m : Matcher) (key : bytes) (p : pendingAnswer) : res Matcher :=
  let m := with_pending m (delete key (pendingAnswers m)) in
  c ← chan_close (get_answerChan m (answerChan p));
  Ok (with_answerChan m (answerChan p) c).

Definition AnswerError (m : Matcher) (proxyID connectionID : ID) : res Matcher :=
  let key := pendingAnswerKey proxyID connectionID in
  match pendingAnswers m !! key with
  | None => Ok m
  | Some p => answerError_deliver m key p
  end.

(** ** Limits *)

Lemma cap_rate_cases quantity interval :
  0 < quantity -> 0 < interval <= maxInt64 / matcherMaxRateLimitQuantity ->
  let '(q, i) := cap_rate quantity interval in
  q * matcherMaxRateLimitInterval <= matcherMaxRateLimitQuantity * i /\
  (quantity * matcherMaxRateLimitInterval <= matcherMaxRateLimitQuantity * interval ->
   (q, i) = (quantity, interval)).
Proof.
  intros Hq Hi. unfold cap_rate, matcherMaxRateLimitInterval, matcherMaxRateLimitQuantity, maxInt64 in *.
  assert ((0 <? quantity) && (0 <? interval) = true) as -> by lia. cbn [andb].
  change ((2 ^ 63 - 1) / 10000) with 922337203685477 in Hi.
  change ((2 ^ 63 - 1) / 60000000000) with 153722867.
  assert (i64 (10000 * interval) = 10000 * interval) as -> by (apply wrapS_id; lia).
  destruct (153722867 <? quantity) eqn:E1; cbn [orb].
  - split; [lia|]. intros H. lia.
  - assert (i64 (quantity * 60000000000) = quantity * 60000000000) as -> by (apply wrapS_id; lia).
    destruct (10000 * interval <? quantity * 60000000000) eqn:E2; (split; [lia|]); [lia|done].
Qed.

(** Limits are capped at the sanity level: for an interval of at most
    922337203685477 ns (about ten days) the rate limit that is set never exceeds
    10,000 per minute, one that is within it is kept as it is, and so is a disabled
    limit; the entry count is at most 10,000. *)
Theorem SetLimits_capped quantity interval count :
  0 < quantity -> 0 < interval <= maxInt64 / matcherMaxRateLimitQuantity ->
  (let '(q, i) := cap_rate quantity interval in
   q * matcherMaxRateLimitInterval <= matcherMaxRateLimitQuantity * i /\
   (quantity * matcherMaxRateLimitInterval <= matcherMaxRateLimitQuantity * interval ->
    (q, i) = (quantity, interval))) /\
  (forall z, z <= 0 -> cap_rate z interval = (z, interval) /\ cap_rate quantity z = (quantity, z)) /\
  cap_count count = Z.min count matcherMaxLimitEntryCount.
Proof.
  intros Hq Hi. split_and!; [by apply cap_rate_cases| |].
  - intros z Hz. unfold cap_rate. assert ((0 <? z) = false) as -> by lia. by rewrite !andb_false_r.
  - unfold cap_count. case_match; lia.
Qed.

Lemma SetLimits_capped_witness :
  cap_rate 5 0 = (5, 0) /\ cap_count 20000 = matcherMaxLimitEntryCount.
Proof.
  assert (0 < 5) as H1 by lia.
  assert (0 < 3600000000000 <= maxInt64 / matcherMaxRateLimitQuantity) as H2 by (vm_compute; split; [done|discriminate]).
  destruct (SetLimits_capped 5 3600000000000 20000 H1 H2) as (_ & Hd & Hc).
  split; [exact (proj2 (Hd 0 (Z.le_refl 0)))|exact Hc].
Defined.

(** For longer intervals the product [matcherMaxRateLimitQuantity * interval]
    overflows, and a limit far below the sanity level, 5 in 20 days, is replaced by
    10,000 per minute. *)
Theorem SetLimits_overflow :
  let twentyDays := 20 * 24 * 3600 * 1000000000 in
  5 * matcherMaxRateLimitInterval <= matcherMaxRateLimitQuantity * twentyDays /\
  cap_rate 5 twentyDays = (matcherMaxRateLimitQuantity, matcherMaxRateLimitInterval).
Proof. vm_compute. split; [discriminate|reflexivity]. Qed.

(** ** Counts by IP *)

(** [counts] holds the numbers [n], without zeros. *)
Definition ip_counts (counts : gmap string Z) (n : string -> nat) : Prop :=
  forall ip, counts !! ip = if decide (n ip = 0%nat) then None else Some (Z.of_nat (n ip)).

Lemma ip_counts_default counts n ip : ip_counts counts n -> default 0 (counts !! ip) = Z.of_nat (n ip).
Proof. intros H. rewrite H. case_decide; cbn; lia. Qed.

Lemma ip_counts_up counts n n' ip :
  ip_counts counts n -> (forall ip', n' ip' = n ip' + if decide (ip = ip') then 1 else 0)%nat ->
  ip_counts (count_up counts ip) n'.
Proof.
  intros H Hn ip'. unfold count_up. rewrite (ip_counts_default _ _ _ H), Hn.
  destruct (decide (ip = ip')) as [<-|Hne].
  - rewrite lookup_insert_eq, decide_False by lia. f_equal. lia.
  - rewrite lookup_insert_ne, Nat.add_0_r by done. apply H.
Qed.

Lemma ip_counts_down counts n n' ip :
  ip_counts counts n -> (forall ip', n ip' = n' ip' + if decide (ip = ip') then 1 else 0)%nat ->
  ip_counts (count_down counts ip) n'.
Proof.
  intros H Hn ip'. unfold count_down. rewrite (ip_counts_default _ _ _ H).
  destruct (Z.of_nat (n ip) - 1 =? 0) eqn:E; destruct (decide (ip = ip')) as [<-|Hne].
  - rewrite lookup_delete_eq. specialize (Hn ip). rewrite decide_True in Hn by done.
    rewrite decide_True by lia. done.
  - rewrite lookup_delete_ne by done. rewrite H, Hn. by rewrite (decide_False (P := ip = ip')), Nat.add_0_r by done.
  - rewrite lookup_insert_eq. specialize (Hn ip). rewrite decide_True in Hn by done.
    rewrite decide_False by lia. f_equal. lia.
  - rewrite lookup_insert_ne by done. rewrite H, Hn. by rewrite (decide_False (P := ip = ip')), Nat.add_0_r by done.
Qed.

Lemma ip_counts_ext counts n n' : ip_counts counts n -> (forall ip, n' ip = n ip) -> ip_counts counts n'.
Proof. intros H Hn ip. rewrite Hn. apply H. Qed.

Lemma size_filter_step {A} (m : gmap nat A) k x (P P' : nat * A -> Prop)
    `{!forall y, Decision (P y), !forall y, Decision (P' y)} :
  m !! k = Some x -> ~ P' (k, x) ->
  (forall j y, j <> k -> m !! j = Some y -> P (j, y) <-> P' (j, y)) ->
  size (filter P m) = (size (filter P' m) + if decide (P (k, x)) then 1 else 0)%nat.
Proof.
  intros Hk Hn Hother.
  assert (filter P m = if decide (P (k, x)) then <[k := x]> (filter P' m) else filter P' m) as ->.
  { apply map_eq. intros j. apply option_eq. intros y. rewrite map_lookup_filter_Some.
    destruct (decide (j = k)) as [->|Hj].
    - case_decide; [rewrite lookup_insert_eq|rewrite map_lookup_filter_Some]; split; intros; naive_solver congruence.
    - case_decide; [rewrite lookup_insert_ne by done|]; rewrite map_lookup_filter_Some; naive_solver. }
  case_decide; [|lia]. rewrite map_size_insert_None; [lia|]. apply map_lookup_filter_None. right. naive_solver congruence.
Qed.

(** ** The invariant of the announcements *)

Section announcements.
Context (announced : gmap nat announcementEntry).

(** The announcements of an IP that are queued. *)
Definition queued_by_ip (q : announcementMultiQueue) (ip : string) : nat :=
  size (filter (fun p => is_Some (references q !! p.1) /\ ae_limitIP p.2 = ip) announced).

(** An announcement that has not been given an offer. *)
Definition waiting (a : announcementState) (e : announcementEntry) : Prop :=
  announced !! ae_id e = Some e /\ offerChans a !! ae_id e = Some make_chan.

Record announcements_ok (a : announcementState) : Prop := {
  ai_queue : queue_wf (announcementQueue a);
  ai_waiting e : queued (announcementQueue a) e -> waiting a e;
  ai_counts : ip_counts (announcementQueueEntryCountByIP a) (queued_by_ip (announcementQueue a))
}.

Lemma announced_identified a e :
  announcements_ok a -> announced !! ae_id e = Some e -> identified (announcementQueue a) e.
Proof.
  intros Ha He e' [H' _]%(ai_waiting _ Ha) Hid. rewrite Hid, He in H'. by injection H'.
Qed.

Lemma queued_by_ip_dequeue a e kid ip :
  announced !! ae_id e = Some e -> references (announcementQueue a) !! ae_id e = Some kid ->
  queued_by_ip (announcementQueue a) ip =
  (queued_by_ip (dequeue (announcementQueue a) e).1 ip + if decide (ae_limitIP e = ip) then 1 else 0)%nat.
Proof.
  intros He Hr. unfold queued_by_ip. rewrite dequeue_references.
  rewrite (size_filter_step announced (ae_id e) e _
    (fun p => is_Some (delete (ae_id e) (references (announcementQueue a)) !! p.1) /\ ae_limitIP p.2 = ip)); [|done|..].
  - f_equal. cbn [fst snd]. rewrite Hr. repeat case_decide; naive_solver.
  - cbn. rewrite lookup_delete_eq. by intros [[? ?] _].
  - intros j y Hj _. cbn. by rewrite lookup_delete_ne by done.
Qed.

Lemma take_entry_ok a e :
  announcements_ok a -> announced !! ae_id e = Some e -> announcements_ok (take_entry a e).1.
Proof.
  intros Ha He. unfold take_entry. pose proof (announced_identified _ _ Ha He) as Hid.
  pose proof (dequeue_wf _ _ (ai_queue _ Ha) Hid) as Hwf.
  pose proof (dequeue_contents _ e (ai_queue _ Ha)) as Hc.
  pose proof (dequeue_found (announcementQueue a) e) as Hf.
  pose proof (queued_by_ip_dequeue a e) as Hq.
  pose proof (dequeue_none (announcementQueue a) e) as Hnone.
  destruct (dequeue (announcementQueue a) e) as [q found] eqn:E; cbn [fst snd] in *.
  split; cbn; [done| |].
  - intros e' [kid Hin]. rewrite Hc in Hin. apply remove_entry_elem in Hin as [Hin _].
    apply (ai_waiting _ Ha). by exists kid.
  - destruct (references (announcementQueue a) !! ae_id e) as [kid|] eqn:Hr.
    + rewrite Hf, bool_decide_true by by eexists.
      eapply ip_counts_down; [apply (ai_counts _ Ha)|]. intros ip. by rewrite (Hq kid ip).
    + injection (Hnone eq_refl) as -> ->. apply (ai_counts _ Ha).
Qed.

Lemma take_entry_frame a e :
  offerChans (take_entry a e).1 = offerChans a /\ announcementMetrics (take_entry a e).1 = announcementMetrics a /\
  announcementQueue (take_entry a e).1 = (dequeue (announcementQueue a) e).1.
Proof. unfold take_entry. by destruct (dequeue _ _). Qed.

(** ** The candidates of an offer *)

(** The next elements of an iterator are announcements of its queues that wait for an
    offer. *)
Definition iterator_ok (a : announcementState) (iter : announcementMatchIterator) : Prop :=
  forall i e, nextEntries iter !! i = Some (Some e) ->
    waiting a e /\ exists kid, compartmentQueues iter !! i = Some kid /\ queue_of (ae_properties e) = Ok kid.

Lemma next_of_elem id l e : next_of id l = Some e -> e ∈ l.
Proof.
  induction l as [|e' l IH]; [done|]. cbn. case_decide as Hd; [|intros H; right; by apply IH].
  destruct l as [|e'' l]; [done|]. cbn. intros [= ->]. right. left.
Qed.

Lemma startMatching_iterator_ok a common ids :
  announcements_ok a -> iterator_ok a (startMatching (announcementQueue a) common ids).
Proof.
  intros Ha i e. destruct (startMatching_visited (announcementQueue a) common ids) as [H1 H2].
  rewrite H1, H2. intros (kid & He & Hk)%list_lookup_fmap_Some.
  assert (e ∈ contents (announcementQueue a) kid) as Hin.
  { destruct (contents _ kid); [done|]. injection He as ->. left. }
  split; [apply (ai_waiting _ Ha); by exists kid|]. exists kid. split; [done|].
  apply (wf_entry _ (ai_queue _ Ha) _ _ Hin).
Qed.

Lemma getNext_ok a iter e p iter' :
  announcements_ok a -> iterator_ok a iter -> getNext (announcementQueue a) iter = (Some (e, p), iter') ->
  waiting a e /\ iterator_ok a iter' /\ compartmentQueues iter' = compartmentQueues iter /\
  exists kid, kid ∈ compartmentQueues iter /\ queue_of (ae_properties e) = Ok kid /\ p = isPriority kid.
Proof.
  intros Ha Hi. unfold getNext.
  destruct (select_next _ _ _ _) as [[[e0 i] p0]|] eqn:Hsel; [|done].
  intros [= -> -> <-].
  apply select_next_member in Hsel as [?|(n & kid & -> & Hk & Hn & ->)]; [done|]. cbn [Nat.add].
  destruct (Hi _ _ Hn) as (Hw & kid' & Hk' & Hq). rewrite Hk in Hk'. injection Hk' as <-.
  split_and!; [done| |done|].
  - rewrite Hk. intros j e' Hj. cbn in Hj |- *. destruct (decide (n = j)) as [<-|Hne].
    + rewrite list_lookup_insert_eq in Hj by by eapply lookup_lt_Some.
      injection Hj as Hj%next_of_elem. split; [apply (ai_waiting _ Ha); by exists kid|].
      exists kid. split; [done|]. apply (wf_entry _ (ai_queue _ Ha) _ _ Hj).
    + rewrite list_lookup_insert_ne in Hj by done. by apply Hi.
  - exists kid. split_and!; [by eapply list_elem_of_lookup_2|done..].
Qed.

(** ** The match of an offer *)

Lemma removeAnnouncementEntry_false m e :
  removeAnnouncementEntry m false e = Ok (with_announcements m (take_entry (m_announcements m) e).1).
Proof. unfold removeAnnouncementEntry. by destruct (take_entry _ _). Qed.

Lemma with_announcements_id m : with_announcements m (m_announcements m) = m.
Proof. by destruct m. Qed.

Lemma waiting_frame a a' e : offerChans a' = offerChans a -> waiting a e -> waiting a' e.
Proof. unfold waiting. by intros ->. Qed.

Lemma iterator_ok_frame a a' iter : offerChans a' = offerChans a -> iterator_ok a iter -> iterator_ok a' iter.
Proof. intros Hf Hi i e H. destruct (Hi i e H) as [Hw Hk]. split; [by eapply waiting_frame|done]. Qed.

(** An announcement that may be given to an offer. *)
Definition matches (cfg : matchConfig) (done : Z -> nat -> bool) (offer : MatchOffer) (common : bool)
    (kids : list (kind * ID)) (a : announcementState) (e : announcementEntry) (i : Z) : Prop :=
  waiting a e /\ (exists kid, kid ∈ kids /\ queue_of (ae_properties e) = Ok kid) /\
  acceptable cfg offer common (ae_properties e) = true /\ done i (ae_id e) = false /\
  0 <= i <= matcherMaxProbe + 1.

Definition best_ok cfg done offer common kids a (b : best) : Prop :=
  match bestMatch b with
  | Some e => matches cfg done offer common kids a e (bestMatchIndex b)
  | None => bestMatchIndex b = -1
  end.

Lemma best_ok_frame cfg done offer common kids a a' b :
  offerChans a' = offerChans a ->
  best_ok cfg done offer common kids a b -> best_ok cfg done offer common kids a' b.
Proof.
  intros Hf. unfold best_ok. destruct (bestMatch b); [|done].
  intros (Hw & H). split; [by eapply waiting_frame|done].
Qed.

(** What the loop leaves: announcements are only removed, and the best match is one. *)
Definition loop_result cfg done offer common kids (m : Matcher) (r : res (Matcher * best)) : Prop :=
  exists a' b', r = Ok (with_announcements m a', b') /\ announcements_ok a' /\
    offerChans a' = offerChans (m_announcements m) /\
    announcementMetrics a' = announcementMetrics (m_announcements m) /\
    best_ok cfg done offer common kids a' b'.

Lemma loop_result_here cfg done offer common kids m b :
  announcements_ok (m_announcements m) -> best_ok cfg done offer common kids (m_announcements m) b ->
  loop_result cfg done offer common kids m (Ok (m, b)).
Proof. intros Ha Hb. exists (m_announcements m), b. split_and!; try done. by rewrite with_announcements_id. Qed.

Lemma match_loop_sound fuel cfg done offer common existsP kids m iter ci b :
  announcements_ok (m_announcements m) -> iterator_ok (m_announcements m) iter -> compartmentQueues iter = kids ->
  best_ok cfg done offer common kids (m_announcements m) b ->
  -1 <= ci -> (Z.to_nat (matcherMaxProbe + 2 - ci) <= fuel)%nat -> (0 < fuel)%nat ->
  loop_result cfg done offer common kids m (match_loop fuel cfg done offer common existsP m iter ci b).
Proof.
  revert m iter ci b. induction fuel as [|fuel IH]; intros m iter ci b Ha Hi Hk Hb Hci Hfuel Hpos; [lia|].
  cbn [match_loop].
  destruct (ci <=? matcherMaxProbe) eqn:Hc; [|by apply loop_result_here].
  destruct (getNext (announcementQueue (m_announcements m)) iter) as [[[e p]|] iter'] eqn:Hg;
    [|by apply loop_result_here].
  destruct (getNext_ok _ _ _ _ _ Ha Hi Hg) as (Hw & Hi' & Hk' & kid & Hkid & Hq & Hp).
  rewrite Hk in Hk', Hkid.
  destruct (negb p && bestMatchIsPriority b); [by apply loop_result_here|].
  assert (Z.to_nat (matcherMaxProbe + 2 - (ci + 1)) <= fuel)%nat as Hfuel' by (unfold matcherMaxProbe in *; lia).
  assert (0 < fuel)%nat as Hpos' by (unfold matcherMaxProbe in *; lia).
  destruct (done (ci + 1) (ae_id e)) eqn:Hdone.
  { rewrite removeAnnouncementEntry_false. cbn [mbind res_mbind].
    destruct (take_entry_frame (m_announcements m) e) as (F1 & F2 & _).
    destruct (IH (with_announcements m (take_entry (m_announcements m) e).1) iter' (ci + 1) b)
      as (a' & b' & -> & Ha' & E1 & E2 & Hb'); try done.
    - apply take_entry_ok; [done|apply Hw].
    - by eapply iterator_ok_frame.
    - by eapply best_ok_frame.
    - lia.
    - exists a', b'. cbn in E1, E2. rewrite F1 in E1. rewrite F2 in E2. split_and!; done. }
  destruct (acceptable cfg offer common (ae_properties e)) eqn:Hacc; cbn [negb];
    [|apply IH; try done; lia].
  set (b1 := if _ || _ then _ else b).
  assert (best_ok cfg done offer common kids (m_announcements m) b1) as Hb1.
  { unfold b1. case_match; [|done]. unfold best_ok; cbn. split_and!; try done; [by exists kid|lia|lia]. }
  case_match; [by apply loop_result_here|]. apply IH; try done; lia.
Qed.

(** An announcement that an offer may be paired with: they share a compartment, a
    protocol version can be negotiated, and, in common compartments, they are not in
    the same country and ASN, unless that is allowed, and the configuration allows the
    pair. *)
Definition paired (cfg : matchConfig) (offer : MatchOffer) (p : MatchProperties) : Prop :=
  let op := offer_Properties offer in
  (exists v, negotiateProtocolVersion (ProtocolVersion p) (ProtocolVersion op) (UseMediaStreams offer) = (v, true)) /\
  ((exists id, PersonalCompartmentIDs p = [id] /\ CommonCompartmentIDs p = [] /\ id ∈ PersonalCompartmentIDs op) \/
   (PersonalCompartmentIDs op = [] /\
    (exists id, CommonCompartmentIDs p = [id] /\ PersonalCompartmentIDs p = [] /\ id ∈ CommonCompartmentIDs op) /\
    (AllowCommonASNMatching cfg = false ->
     ~ (Country (GeoIP op) = Country (GeoIP p) /\ ASN (GeoIP op) = ASN (GeoIP p))) /\
    AllowMatch cfg (GeoIP p) (GeoIP op) = true)).

Lemma queue_of_inv p k id :
  queue_of p = Ok (k, id) ->
  (k = Personal /\ PersonalCompartmentIDs p = [id] /\ CommonCompartmentIDs p = []) \/
  (k = (if IsPriority p then PriorityCommon else Common) /\ CommonCompartmentIDs p = [id] /\ PersonalCompartmentIDs p = []).
Proof.
  unfold queue_of. case_decide as Hn; [done|].
  destruct (CommonCompartmentIDs p) as [|c [|]], (PersonalCompartmentIDs p) as [|c' [|]]; cbn in Hn; try lia.
  - destruct (IsPriority p); [done|]. intros [= <- <-]. by left.
  - intros [= <- <-]. by right.
Qed.

Lemma matches_paired cfg done offer a e i q :
  let '(common, ids) := offer_compartments (offer_Properties offer) in
  matches cfg done offer common (visited q common ids) a e i -> paired cfg offer (ae_properties e).
Proof.
  unfold offer_compartments, matches, paired, acceptable. set (op := offer_Properties offer).
  destruct (PersonalCompartmentIDs op) as [|id0 ids0] eqn:Hp;
    intros (_ & ([k id] & (Hk & Hid & _)%elem_of_visited & Hq) & [Hv Hacc]%andb_true_iff & _); cbn [fst snd] in Hk, Hid;
    (split; [destruct (negotiateProtocolVersion _ _ _) as [v ok]; exists v; cbn in Hv; by rewrite Hv|]);
    apply queue_of_inv in Hq as [(-> & H1 & H2)|(-> & H1 & H2)].
  - by apply elem_of_cons in Hk as [?|[?|[]%elem_of_nil]%elem_of_cons].
  - right. apply orb_true_iff in Hacc as [?|[Hg Hm]%andb_true_iff]; [done|].
    split_and!; [done|by exists id| |done].
    intros Hno [Hc Ha]. rewrite Hno, !bool_decide_true in Hg by done. done.
  - left. by exists id.
  - apply elem_of_cons in Hk as [Hk|[]%elem_of_nil]. by destruct (IsPriority _).
Qed.

(** The search always ends, within its fuel; it only removes announcements whose
    context is done, and what it returns may be paired with the offer. *)
Lemma matchOffer_ok cfg done m offer :
  announcements_ok (m_announcements m) ->
  exists a' r i, matchOffer cfg done m offer = Ok (with_announcements m a', r, i) /\ announcements_ok a' /\
    offerChans a' = offerChans (m_announcements m) /\
    announcementMetrics a' = announcementMetrics (m_announcements m) /\
    match r with
    | None => i = -1
    | Some e => waiting a' e /\ paired cfg offer (ae_properties e) /\ done i (ae_id e) = false /\
                0 <= i <= matcherMaxProbe + 1
    end.
Proof.
  intros Ha. unfold matchOffer.
  pose proof (matches_paired cfg done offer) as Hpair.
  destruct (offer_compartments (offer_Properties offer)) as [common ids].
  case_decide as Hids.
  { exists (m_announcements m), None, (-1). rewrite with_announcements_id. done. }
  set (q := announcementQueue (m_announcements m)) in *.
  destruct (getNATCounts q (startMatching q common ids)) as [[u pa] st].
  edestruct (match_loop_sound match_fuel cfg done offer common) as (a' & b & -> & Ha' & E1 & E2 & Hb);
    [done|by apply startMatching_iterator_ok|apply (proj1 (startMatching_visited q common ids))|done|lia|done|
     unfold match_fuel, matcherMaxProbe; lia|].
  exists a', (bestMatch b), (bestMatchIndex b). split_and!; [done..|].
  unfold best_ok in Hb. destruct (bestMatch b) as [e|]; [|done].
  split_and!; try apply Hb. by eapply Hpair.
Qed.

(** ** The choice among the candidates *)

Definition better (b : best) (e : announcementEntry) (i : Z) (isPriority matchNAT : bool) : best :=
  if bool_decide (bestMatch b = None) || (negb (bestMatchNAT b) && matchNAT) then
    {| bestMatch := Some e; bestMatchIndex := i; bestMatchIsPriority := isPriority; bestMatchNAT := matchNAT |}
  else b.

(** The search as a function of the list of candidates. *)
Fixpoint choose (cfg : matchConfig) (done : Z -> nat -> bool) (offer : MatchOffer) (common existsP : bool)
    (i : Z) (l : list (announcementEntry * bool)) (b : best) : best :=
  match l with
  | [] => b
  | (e, p) :: l =>
      if negb p && bestMatchIsPriority b then b
      else if done i (ae_id e) || negb (acceptable cfg offer common (ae_properties e)) then
        choose cfg done offer common existsP (i + 1) l b
      else
        let b := better b e i p (match_NAT cfg offer e p) in
        if bool_decide (bestMatch b <> None) &&
           (bestMatchNAT b || negb existsP || (matcherMaxPreferredNATProbe <=? i - bestMatchIndex b))
        then b
        else choose cfg done offer common existsP (i + 1) l b
  end.

(** The loop over the queues, from which expired announcements are removed on the way,
    chooses as the search over the candidates there were at the start. *)
Lemma match_loop_choose fuel cfg done offer common existsP kids rems m iter ci b :
  announcements_ok (m_announcements m) -> iterator_ok (m_announcements m) iter ->
  tracks (announcementQueue (m_announcements m)) iter rems -> compartmentQueues iter = kids -> NoDup kids ->
  -1 <= ci <= matcherMaxProbe + 1 -> (Z.to_nat (matcherMaxProbe + 2 - ci) <= fuel)%nat ->
  exists m', match_loop fuel cfg done offer common existsP m iter ci b =
    Ok (m', choose cfg done offer common existsP (ci + 1)
              (merge (Z.to_nat (matcherMaxProbe + 1 - ci)) kids rems) b).
Proof.
  revert rems m iter ci b. induction fuel as [|fuel IH]; intros rems m iter ci b Ha Hi Ht Hk Hnd Hci Hfuel;
    [unfold matcherMaxProbe in *; lia|].
  cbn [match_loop]. destruct (ci <=? matcherMaxProbe) eqn:Hc.
  2: { replace (Z.to_nat (matcherMaxProbe + 1 - ci)) with 0%nat by lia. by exists m. }
  replace (Z.to_nat (matcherMaxProbe + 1 - ci)) with (S (Z.to_nat (matcherMaxProbe + 1 - (ci + 1)))) by lia.
  pose proof (getNext_step _ _ _ (ai_queue _ Ha) Ht) as Hstep.
  pose proof (getNext_ok (m_announcements m) iter) as Hok.
  pose proof (visit_merge 1 _ _ _ (ai_queue _ Ha) Ht) as Hv. cbn [visit merge] in Hv.
  rewrite Hk in *. cbn [merge].
  destruct (getNext (announcementQueue (m_announcements m)) iter) as [[[e p]|] iter'].
  2: { exists m. destruct (select_next _ _ _ _) as [[[? ?] ?]|]; done. }
  destruct Hstep as (i & kid & rem & Hki & Hri & Hp & -> & Hk' & Ht'). cbn [choose].
  destruct (Hok _ _ _ Ha Hi eq_refl) as (Hw & Hi' & _). clear Hok Hv.
  rewrite (alter_tail _ _ _ _ Hri).
  destruct (negb p && bestMatchIsPriority b); [by exists m|].
  destruct (done (ci + 1) (ae_id e)) eqn:Hdone; cbn [orb].
  - rewrite removeAnnouncementEntry_false. cbn [mbind res_mbind].
    destruct (take_entry_frame (m_announcements m) e) as (F1 & F2 & F3).
    apply IH; try done.
    + by apply take_entry_ok, Hw.
    + by eapply iterator_ok_frame.
    + cbn [m_announcements with_announcements]. rewrite F3. apply tracks_dequeue; [apply (ai_queue _ Ha)|done|].
      eapply visited_once; [apply (ai_queue _ Ha)|done|rewrite <- Hk; apply (tr_length _ _ _ Ht)| |done|done].
      rewrite <- Hk. apply (tr_suffix _ _ _ Ht).
    + unfold matcherMaxProbe in *; lia.
    + unfold matcherMaxProbe in *; lia.
  - destruct (acceptable cfg offer common (ae_properties e)); cbn [negb];
      [fold (better b e (ci + 1) p (match_NAT cfg offer e p)); case_match; [by exists m|]|];
      apply IH; try done; unfold matcherMaxProbe in *; lia.
Qed.
End announcements.

Section choice.
Context (cfg : matchConfig) (done : Z -> nat -> bool) (offer : MatchOffer) (common : bool).

(** The candidate [j] of [l], when it can be matched. *)
Definition eligible (l : list (announcementEntry * bool)) (j : nat) (e : announcementEntry) (p : bool) : Prop :=
  l !! j = Some (e, p) /\ done (Z.of_nat j) (ae_id e) = false /\
  acceptable cfg offer common (ae_properties e) = true.

Definition first_eligible (l : list (announcementEntry * bool)) (k : nat) (e : announcementEntry) (p : bool) : Prop :=
  eligible l k e p /\ forall j e' p', eligible l j e' p' -> (k <= j)%nat.

(** What the search promises of its result: nothing can be matched, or the match is the
    first candidate that can, or the first of those with a preferred NAT; and it has
    priority when the first one has. *)
Definition chosen (l : list (announcementEntry * bool)) (b : best) : Prop :=
  match bestMatch b with
  | None => b = no_match /\ forall j e p, ~ eligible l j e p
  | Some e => exists k p, bestMatchIndex b = Z.of_nat k /\ bestMatchIsPriority b = p /\
      bestMatchNAT b = match_NAT cfg offer e p /\ eligible l k e p /\
      (first_eligible l k e p \/ bestMatchNAT b = true) /\
      (forall j e' p', (j < k)%nat -> eligible l j e' p' -> match_NAT cfg offer e' p' = false) /\
      (forall j e', first_eligible l j e' true -> p = true)
  end.

(** A preferred NAT is not missed among the candidates looked at. *)
Definition none_preferred (l : list (announcementEntry * bool)) (b : best) : Prop :=
  bestMatchNAT b = false -> forall j e p, eligible l j e p -> match_NAT cfg offer e p = false.

(** A candidate that the search comes to after the first one that can be matched, [k0] with
    priority [p0]: all that can be matched before it are within the limit of the probe for a
    preferred NAT, and when that one has priority so have all from there on. *)
Definition in_reach (l : list (announcementEntry * bool)) (k0 : nat) (p0 : bool) (j : nat) : Prop :=
  (forall i e p, eligible l i e p -> (i < j)%nat -> Z.of_nat i < Z.of_nat k0 + matcherMaxPreferredNATProbe) /\
  (p0 = true -> forall i x, l !! i = Some x -> (k0 <= i <= j)%nat -> x.2 = true).

(** Whether the search finds a candidate with a preferred NAT; [existsP] is whether the
    compartments have one at all. *)
Definition preferred_found (existsP : Prop) (l : list (announcementEntry * bool)) (k0 : nat) (p0 : bool) : Prop :=
  (exists e0, eligible l k0 e0 p0 /\ match_NAT cfg offer e0 p0 = true) \/
  existsP /\ exists j e p, eligible l j e p /\ match_NAT cfg offer e p = true /\ in_reach l k0 p0 j.

(** The match has a preferred NAT exactly when one is found, and otherwise it is the first
    candidate that can be matched. *)
Definition outcome (existsP : Prop) (l : list (announcementEntry * bool)) (b : best) : Prop :=
  forall k0 e0 p0, first_eligible l k0 e0 p0 ->
    (preferred_found existsP l k0 p0 -> bestMatchNAT b = true) /\
    (~ preferred_found existsP l k0 p0 -> bestMatch b = Some e0 /\ bestMatchIndex b = Z.of_nat k0 /\ bestMatchNAT b = false).

Lemma eligible_app l l' j e p : eligible l j e p -> eligible (l ++ l') j e p.
Proof. intros (H & ?). split; [by apply lookup_app_l_Some|done]. Qed.

Lemma eligible_app_inv l l' j e p : eligible (l ++ l') j e p -> (j < length l)%nat -> eligible l j e p.
Proof. intros (H & ?) Hj. split; [|done]. by rewrite lookup_app_l in H. Qed.

Lemma eligible_snoc l x j e p :
  eligible (l ++ [x]) j e p ->
  eligible l j e p \/ (j = length l /\ x = (e, p) /\ done (Z.of_nat (length l)) (ae_id e) = false /\
    acceptable cfg offer common (ae_properties e) = true).
Proof.
  intros H. pose proof H as (Hl & H1 & H2).
  destruct (decide (j < length l)%nat); [left; by eapply eligible_app_inv|right].
  rewrite lookup_app_r in Hl by lia. apply list_lookup_singleton_Some in Hl as [Hj ->].
  assert (j = length l) as -> by lia. done.
Qed.

Lemma eligible_lt l j e p : eligible l j e p -> (j < length l)%nat.
Proof. intros [H _]. by eapply lookup_lt_Some. Qed.

Lemma first_eligible_app l l' k e p : first_eligible l k e p -> first_eligible (l ++ l') k e p.
Proof.
  intros [H Hmin]. split; [by apply eligible_app|]. intros j e' p' Hj.
  destruct (decide (k <= j)%nat); [done|]. pose proof (eligible_lt _ _ _ _ H).
  apply (Hmin j e' p'). eapply eligible_app_inv; [done|lia].
Qed.

Lemma first_eligible_app_inv l l' k e p j e' p' :
  first_eligible (l ++ l') k e p -> eligible l j e' p' -> first_eligible l k e p.
Proof.
  intros [H Hmin] Hj. pose proof (Hmin _ _ _ (eligible_app _ l' _ _ _ Hj)). pose proof (eligible_lt _ _ _ _ Hj).
  split; [eapply eligible_app_inv; [done|lia]|]. intros. by eapply Hmin, eligible_app.
Qed.

(** A match stays chosen when more candidates follow. *)
Lemma chosen_app l l' b e : bestMatch b = Some e -> chosen l b -> chosen (l ++ l') b.
Proof.
  unfold chosen. intros ->. intros (k & p & H1 & H2 & H3 & H4 & H5 & H6 & H7).
  pose proof (eligible_lt _ _ _ _ H4) as Hk.
  exists k, p. split_and!; try done.
  - by apply eligible_app.
  - destruct H5; [left; by apply first_eligible_app|by right].
  - intros j e' p' Hj He. apply (H6 j e'); [done|]. eapply eligible_app_inv; [done|lia].
  - intros j e' Hj. apply (H7 j e'). by eapply first_eligible_app_inv.
Qed.

(** A candidate that cannot be matched changes nothing. *)
Lemma chosen_skip l e p b :
  (done (Z.of_nat (length l)) (ae_id e) || negb (acceptable cfg offer common (ae_properties e))) = true ->
  chosen l b /\ none_preferred l b -> chosen (l ++ [(e, p)]) b /\ none_preferred (l ++ [(e, p)]) b.
Proof.
  intros Hskip [Hc Hn].
  assert (forall j e' p', eligible (l ++ [(e, p)]) j e' p' -> eligible l j e' p') as Hold.
  { intros j e' p' [?|(-> & [= <- <-] & H1 & H2)]%eligible_snoc; [done|]. by rewrite H1, H2 in Hskip. }
  split.
  - destruct (bestMatch b) as [e0|] eqn:E; [by eapply chosen_app|].
    unfold chosen in *. rewrite E in *. destruct Hc as [-> Hc]. split; [done|].
    intros j e' p' He%Hold. by apply (Hc j e' p').
  - intros Hb j e' p' He%Hold. by eapply Hn.
Qed.

(** A candidate that can be matched. *)
Lemma chosen_better l e p b :
  negb p && bestMatchIsPriority b = false ->
  (done (Z.of_nat (length l)) (ae_id e) || negb (acceptable cfg offer common (ae_properties e))) = false ->
  chosen l b /\ none_preferred l b ->
  let b' := better b e (Z.of_nat (length l)) p (match_NAT cfg offer e p) in
  chosen (l ++ [(e, p)]) b' /\ none_preferred (l ++ [(e, p)]) b' /\ bestMatch b' <> None.
Proof.
  intros Hprio [Hd Hacc%negb_false_iff]%orb_false_iff [Hc Hn] b'.
  assert (eligible (l ++ [(e, p)]) (length l) e p) as He.
  { split; [|done]. by rewrite lookup_app_r, Nat.sub_diag by lia. }
  unfold b', better. unfold chosen in Hc. destruct (bestMatch b) as [e0|] eqn:E.
  - rewrite bool_decide_false by done. cbn [orb].
    destruct (negb (bestMatchNAT b) && match_NAT cfg offer e p) eqn:Hup.
    + apply andb_true_iff in Hup as [Hnat%negb_true_iff Hm]. split_and!; [|by rewrite Hm|done].
      destruct Hc as (k & p0 & H1 & H2 & H3 & H4 & H5 & H6 & H7).
      unfold chosen; cbn. exists (length l), p. split_and!; try done; [by right| |].
      * intros j e' p' Hj He'. apply (Hn Hnat j e'). by eapply eligible_app_inv.
      * intros j e' Hf. assert (p0 = true) as Hp0 by (eapply H7; by eapply first_eligible_app_inv).
        rewrite H2, Hp0, andb_true_r in Hprio. by apply negb_false_iff in Hprio.
    + split_and!; [|intros Hb j e' p' He'|by rewrite E].
      * eapply chosen_app; [done|]. unfold chosen. by rewrite E.
      * apply eligible_snoc in He' as [He'|(_ & [= <- <-] & _)]; [by apply (Hn Hb j e')|].
        rewrite Hb in Hup. done.
  - destruct Hc as [-> Hc]. cbn [no_match bestMatch bool_decide orb].
    rewrite bool_decide_true by done. cbn [orb].
    assert (first_eligible (l ++ [(e, p)]) (length l) e p) as Hf.
    { split; [done|]. intros j e' p' [[]%Hc|(-> & _)]%eligible_snoc. lia. }
    split_and!; [|intros Hb j e' p' [[]%Hc|(_ & [= <- <-] & _)]%eligible_snoc; done|done].
    unfold chosen; cbn. exists (length l), p. split_and!; try done; [by left| |].
    + intros j e' p' Hj He'. by destruct (Hc j e' p' (eligible_app_inv _ _ _ _ _ He' Hj)).
    + intros j e' [He' Hmin]. assert (j = length l) as ->.
      { pose proof (Hmin _ _ _ He). pose proof (proj2 Hf _ _ _ He'). lia. }
      destruct He' as [He' _]. rewrite lookup_app_r, Nat.sub_diag in He' by lia. by injection He'.
Qed.

Lemma choose_chosen existsP pre l b :
  chosen pre b -> none_preferred pre b ->
  chosen (pre ++ l) (choose cfg done offer common existsP (Z.of_nat (length pre)) l b).
Proof.
  revert pre b. induction l as [|[e p] l IH]; intros pre b Hc Hn; [by rewrite app_nil_r|].
  assert (forall b', chosen (pre ++ [(e, p)]) b' -> none_preferred (pre ++ [(e, p)]) b' ->
    chosen (pre ++ (e, p) :: l) (choose cfg done offer common existsP (Z.of_nat (length pre) + 1) l b')) as Hgo.
  { intros b' Hc' Hn'. pose proof (IH (pre ++ [(e, p)]) b' Hc' Hn') as H.
    rewrite <- app_assoc, length_app in H. cbn in H.
    by replace (Z.of_nat (length pre) + 1) with (Z.of_nat (length pre + 1)) by lia. }
  cbn [choose]. destruct (negb p && bestMatchIsPriority b) eqn:Hp.
  { destruct (bestMatch b) as [e0|] eqn:E; [by eapply chosen_app|].
    unfold chosen in Hc. rewrite E in Hc. destruct Hc as [-> _]. by rewrite andb_false_r in Hp. }
  destruct (done _ _ || _) eqn:Hskip.
  - destruct (chosen_skip pre e p b Hskip (conj Hc Hn)). by apply Hgo.
  - destruct (chosen_better pre e p b Hp Hskip (conj Hc Hn)) as (Hc' & Hn' & Hsome).
    case_match; [|by apply Hgo].
    destruct (bestMatch (better b e (Z.of_nat (length pre)) p (match_NAT cfg offer e p))) eqn:E; [|done].
    replace (pre ++ (e, p) :: l) with ((pre ++ [(e, p)]) ++ l) by by rewrite <- app_assoc.
    by eapply chosen_app.
Qed.

Lemma outcome_iff (P Q : Prop) l b : (P <-> Q) -> outcome P l b -> outcome Q l b.
Proof.
  intros HPQ Ho k0 e0 p0 Hf. destruct (Ho k0 e0 p0 Hf) as [H1 H2]. unfold preferred_found in *. split; [intros H; apply H1|intros H; apply H2]; tauto.
Qed.

(** The state of a search that goes on. *)
Definition searching (existsP : bool) (l : list (announcementEntry * bool)) (b : best) : Prop :=
  match bestMatch b with
  | None => b = no_match /\ forall j e p, ~ eligible l j e p
  | Some e0 => exists k0 p0, first_eligible l k0 e0 p0 /\ bestMatchIndex b = Z.of_nat k0 /\ bestMatchIsPriority b = p0 /\
      bestMatchNAT b = false /\ existsP = true /\
      (forall i e p, eligible l i e p -> Z.of_nat i < Z.of_nat k0 + matcherMaxPreferredNATProbe /\ match_NAT cfg offer e p = false) /\
      (p0 = true -> forall i x, l !! i = Some x -> (k0 <= i)%nat -> x.2 = true)
  end.

Lemma first_eligible_unique l k e p k' e' p' : first_eligible l k e p -> first_eligible l k' e' p' -> k = k' /\ e = e' /\ p = p'.
Proof.
  intros [(H1 & H) Hm] [(H1' & H') Hm']. pose proof (Hm _ _ _ (conj H1' H')). pose proof (Hm' _ _ _ (conj H1 H)). assert (k = k') as -> by lia.
  rewrite H1 in H1'. injection H1' as -> ->. done.
Qed.

(** The search ends with the first candidate: none after it is found. *)
Lemma outcome_first existsP l b k0 e0 p0 : first_eligible l k0 e0 p0 -> bestMatch b = Some e0 -> bestMatchIndex b = Z.of_nat k0 -> bestMatchNAT b = false ->
  ~ preferred_found existsP l k0 p0 -> outcome existsP l b.
Proof. intros Hf E1 E2 E3 Hn k e p Hf'. destruct (first_eligible_unique _ _ _ _ _ _ _ Hf Hf') as (<- & <- & <-). done. Qed.

Lemma outcome_preferred existsP l b k0 e0 p0 : first_eligible l k0 e0 p0 -> bestMatchNAT b = true -> preferred_found existsP l k0 p0 -> outcome existsP l b.
Proof. intros Hf E Hp k e p Hf'. destruct (first_eligible_unique _ _ _ _ _ _ _ Hf Hf') as (<- & <- & <-). by split. Qed.

(** Nothing is found when what is looked at has no preferred NAT, and the next candidate, which
    has none either, is out of reach for those after it. *)
Lemma not_found existsP pre rest k0 e0 p0 : first_eligible pre k0 e0 p0 ->
  (forall i e p, eligible pre i e p -> match_NAT cfg offer e p = false) ->
  (forall j e p, (length pre <= j)%nat -> eligible (pre ++ rest) j e p -> match_NAT cfg offer e p = true -> in_reach (pre ++ rest) k0 p0 j -> False) ->
  ~ preferred_found existsP (pre ++ rest) k0 p0.
Proof.
  intros Hf Hn Hr [(e & He & Hm)|(_ & j & e & p & He & Hm & Hj)].
  - rewrite (Hn k0 e p0) in Hm; [done|]. eapply eligible_app_inv; [done|]. eapply eligible_lt, Hf.
  - destruct (decide (length pre <= j)%nat); [by eapply Hr|]. rewrite (Hn j e p) in Hm; [done|]. eapply eligible_app_inv; [done|lia].
Qed.

Lemma searching_skip existsP pre e p b : searching existsP pre b -> negb p && bestMatchIsPriority b = false ->
  (done (Z.of_nat (length pre)) (ae_id e) || negb (acceptable cfg offer common (ae_properties e))) = true ->
  searching existsP (pre ++ [(e, p)]) b.
Proof.
  intros Hs Hp Hskip. assert (Hold : forall j e' p', eligible (pre ++ [(e, p)]) j e' p' -> eligible pre j e' p').
  { intros j e' p' [?|(-> & [= <- <-] & H1 & H2)]%eligible_snoc; [done|]. by rewrite H1, H2 in Hskip. }
  unfold searching in *. destruct (bestMatch b) as [e0|]; [|destruct Hs as [-> Hs]; split; [done|]; intros j e' p' H%Hold; by apply Hs in H].
  destruct Hs as (k0 & p0 & H1 & H2 & H3 & H4 & H5 & H6 & H7). exists k0, p0. split_and!; try done.
  - by apply first_eligible_app.
  - intros i e' p' H%Hold. by apply (H6 i e' p').
  - intros -> i x Hi Hk. apply lookup_app_Some in Hi as [Hi|[_ Hi]]; [by eapply H7|]. apply list_lookup_singleton_Some in Hi as [_ <-].
    cbn. rewrite H3, andb_true_r in Hp. by apply negb_false_iff in Hp.
Qed.

Lemma choose_outcome existsP pre l b : searching existsP pre b ->
  outcome (existsP = true) (pre ++ l) (choose cfg done offer common existsP (Z.of_nat (length pre)) l b).
Proof.
  revert pre b. induction l as [|[e p] l IH]; intros pre b Hs.
  { cbn. unfold searching in Hs. destruct (bestMatch b) as [e0|] eqn:Eb; [|destruct Hs as [_ Hs]; rewrite app_nil_r; intros k0 e0 p0 [H _]; by apply Hs in H].
    destruct Hs as (k0 & p0 & H1 & H2 & H3 & H4 & H5 & H6 & H7). eapply (outcome_first _ _ _ k0 e0 p0); [by apply first_eligible_app|done..|].
    apply (not_found _ pre [] k0 e0 p0); [done|naive_solver|]. intros j e p Hj He. rewrite app_nil_r in He. apply eligible_lt in He. lia. }
  assert (Hgo : forall b', searching existsP (pre ++ [(e, p)]) b' ->
    outcome (existsP = true) (pre ++ (e, p) :: l) (choose cfg done offer common existsP (Z.of_nat (length pre) + 1) l b')).
  { intros b' Hs'. pose proof (IH (pre ++ [(e, p)]) b' Hs') as H. rewrite <- app_assoc, length_app in H. cbn in H.
    by replace (Z.of_nat (length pre) + 1) with (Z.of_nat (length pre + 1)) by lia. }
  assert (Hat : (pre ++ (e, p) :: l) !! length pre = Some (e, p)) by (by rewrite lookup_app_r, Nat.sub_diag by lia).
  cbn [choose]. destruct (negb p && bestMatchIsPriority b) eqn:Hp.
  { unfold searching in Hs. destruct (bestMatch b) as [e0|] eqn:Eb; [|destruct Hs as [-> _]; by rewrite andb_false_r in Hp].
    destruct Hs as (k0 & p0 & H1 & H2 & H3 & H4 & H5 & H6 & H7). apply andb_true_iff in Hp as [Hp1%negb_true_iff Hp2]. rewrite H3 in Hp2.
    eapply (outcome_first _ _ _ k0 e0 p0); [by apply first_eligible_app|done..|]. apply (not_found _ pre _ k0 e0 p0); [done|naive_solver|].
    intros j e' p' Hj _ _ [_ Hr]. specialize (Hr Hp2 (length pre) (e, p) Hat). cbn in Hr. rewrite Hr in Hp1; [done|].
    destruct H1 as [H1 _]. apply eligible_lt in H1. lia. }
  destruct (done _ _ || _) eqn:Hskip; [by apply Hgo, searching_skip|]. apply orb_false_iff in Hskip as [Hd Hacc%negb_false_iff].
  assert (He : eligible (pre ++ (e, p) :: l) (length pre) e p) by (by split).
  assert (He1 : eligible (pre ++ [(e, p)]) (length pre) e p) by (split; [by rewrite lookup_app_r, Nat.sub_diag by lia|done]).
  unfold better. unfold searching in Hs. destruct (bestMatch b) as [e0|] eqn:Eb.
  - destruct Hs as (k0 & p0 & H1 & H2 & H3 & H4 & H5 & H6 & H7). rewrite !(bool_decide_false (Some e0 = None)) by done. rewrite H4. cbn [orb negb andb].
    pose proof (first_eligible_app _ ((e, p) :: l) _ _ _ H1) as H1'. destruct (match_NAT cfg offer e p) eqn:Hm.
    + cbn. eapply (outcome_preferred _ _ _ k0 e0 p0); [done|done|]. right. split; [done|]. exists (length pre), e, p. split_and!; [done..|]. split.
      * intros i e' p' Hi Hlt. apply (H6 i e' p'). by eapply eligible_app_inv.
      * intros Hp0 i x Hi Hk. destruct (decide (i = length pre)) as [->|Hne].
        { rewrite Hat in Hi. injection Hi as <-. cbn. rewrite H3, Hp0, andb_true_r in Hp. by apply negb_false_iff in Hp. }
        rewrite lookup_app_l in Hi by lia. apply (H7 Hp0 i x Hi). lia.
    + subst existsP. rewrite Eb, H4. cbn [orb negb andb]. rewrite bool_decide_true by done. cbn [andb].
      destruct (matcherMaxPreferredNATProbe <=? Z.of_nat (length pre) - bestMatchIndex b) eqn:Hlim.
      * apply Z.leb_le in Hlim. rewrite H2 in Hlim. eapply (outcome_first _ _ _ k0 e0 p0); [done..|]. apply (not_found _ pre _ k0 e0 p0); [done|naive_solver|].
        intros j e' p' Hj Hje Hjm [Hr _]. destruct (decide (j = length pre)) as [->|Hne].
        { destruct Hje as [Hje _]. rewrite Hat in Hje. injection Hje as <- <-. congruence. }
        specialize (Hr _ _ _ He ltac:(lia)). lia.
      * apply Z.leb_gt in Hlim. rewrite H2 in Hlim. apply Hgo. unfold searching. rewrite Eb. exists k0, p0. split_and!; try done.
        -- by apply first_eligible_app.
        -- intros i e' p' [Hi|(-> & [= <- <-] & _)]%eligible_snoc; [by apply (H6 i e' p')|]. split; [lia|done].
        -- intros Hp0 i x Hi Hk. apply lookup_app_Some in Hi as [Hi|[_ Hi]]; [by eapply H7|]. apply list_lookup_singleton_Some in Hi as [_ <-].
           cbn. rewrite H3, Hp0, andb_true_r in Hp. by apply negb_false_iff in Hp.
  - destruct Hs as [-> Hs]. rewrite !(bool_decide_true (None = None)) by done. cbn [orb bestMatch bestMatchNAT bestMatchIndex]. rewrite bool_decide_true by done. cbn [andb].
    replace (matcherMaxPreferredNATProbe <=? _) with false by (symmetry; apply Z.leb_gt; unfold matcherMaxPreferredNATProbe; lia). rewrite orb_false_r.
    assert (Hf1 : first_eligible (pre ++ [(e, p)]) (length pre) e p).
    { split; [done|]. intros j e' p' [H|(-> & _)]%eligible_snoc; [by apply Hs in H|lia]. }
    assert (Hf : first_eligible (pre ++ (e, p) :: l) (length pre) e p).
    { replace (pre ++ (e, p) :: l) with ((pre ++ [(e, p)]) ++ l) by (by rewrite <- app_assoc). by apply first_eligible_app. }
    destruct (match_NAT cfg offer e p) eqn:Hm; [|destruct existsP]; cbn [orb negb].
    + eapply (outcome_preferred _ _ _ (length pre) e p); [done|done|]. left. by exists e.
    + apply Hgo. unfold searching. cbn [bestMatch bestMatchIndex bestMatchIsPriority bestMatchNAT]. exists (length pre), p. split_and!; try done.
      * intros i e' p' [Hi|(-> & [= <- <-] & _)]%eligible_snoc; [by apply Hs in Hi|]. split; [unfold matcherMaxPreferredNATProbe; lia|done].
      * intros Hp0 i x Hi Hk. apply lookup_app_Some in Hi as [Hi|[_ Hi]]; [apply lookup_lt_Some in Hi; lia|]. by apply list_lookup_singleton_Some in Hi as [_ <-].
    + eapply (outcome_first _ _ _ (length pre) e p); [done..|]. intros [(e' & [Hl _] & Hm')|[? _]]; [|done]. rewrite Hat in Hl. injection Hl as <-. congruence.
Qed.
End choice.

(** ** Theorems about a match *)

(** The search for an offer always ends, after at most 102 candidates, and returns
    normally.  What it returns was not expired when it was looked at, waits for an offer,
    shares a compartment with the client, can negotiate a protocol version, and in common
    compartments is not in the client's country and ASN.  The queue invariant is kept. *)
Theorem matchOffer_sound announced cfg done m offer :
  announcements_ok announced (m_announcements m) ->
  exists a' r i, matchOffer cfg done m offer = Ok (with_announcements m a', r, i) /\
    announcements_ok announced a' /\
    match r with
    | None => i = -1
    | Some e => waiting announced a' e /\ paired cfg offer (ae_properties e) /\ done i (ae_id e) = false /\
                0 <= i <= matcherMaxProbe + 1
    end.
Proof.
  intros Ha. destruct (matchOffer_ok announced cfg done m offer Ha) as (a' & r & i & H1 & H2 & _ & _ & H3).
  by exists a', r, i.
Qed.

(** C29: which announcement an offer is matched with, of the 102 candidates at most that the
    iteration visits.  There is no match only when none of them can be matched.  The match has
    a preferred NAT (or the quality that stands for it) exactly when the first candidate that
    can be matched has, or when the compartments have an announcement with a preferred NAT for
    the offer and such a candidate is within reach: the search goes on for it past older
    announcements until it meets a candidate that can be matched ten or more places after the
    first one, or, when the first one has priority, a candidate without priority.  Then it is
    the first candidate with a preferred NAT, and otherwise it is the first candidate that can
    be matched; and it has priority whenever that one has.  This is so although expired
    announcements are dequeued during the search. *)
Theorem matchOffer_best announced cfg done m offer common ids :
  announcements_ok announced (m_announcements m) ->
  offer_compartments (offer_Properties offer) = (common, ids) -> ids <> [] -> NoDup ids ->
  let q := announcementQueue (m_announcements m) in
  let l := visit (Z.to_nat (matcherMaxProbe + 2)) q (startMatching q common ids) in
  exists m' b, matchOffer cfg done m offer = Ok (m', bestMatch b, bestMatchIndex b) /\
    chosen cfg done offer common l b /\
    outcome cfg done offer common
      (exists e pr, (e, pr) ∈ candidates q common ids /\ IsPreferredNATMatch (offer_Properties offer) (ae_properties e) = true) l b.
Proof.
  intros Ha Hc Hids Hnd q l. unfold matchOffer. rewrite Hc, decide_False by done. fold q.
  pose proof (existsPreferredNATMatch_correct q (offer_Properties offer) common ids (ai_queue _ _ Ha)) as Hex.
  destruct (getNATCounts q (startMatching q common ids)) as [[u pa] st].
  pose proof (startMatching_tracks q common ids) as Ht.
  pose proof (proj1 (startMatching_visited q common ids)) as Hk.
  edestruct (match_loop_choose announced match_fuel cfg done offer common) as [m' ->];
    [done|by apply startMatching_iterator_ok|exact Ht|exact Hk|by apply visited_nodup|
     unfold matcherMaxProbe; lia|done|].
  eexists m', _. split; [done|]. unfold l.
  rewrite (visit_merge _ _ _ _ (ai_queue _ _ Ha) Ht), Hk.
  replace (matcherMaxProbe + 1 - -1) with (matcherMaxProbe + 2) by lia. split.
  - apply (choose_chosen _ _ _ _ _ []); [split; [done|]|intros _]; intros j e p [H _]; done.
  - apply (outcome_iff _ _ _ _ _ _ _ _ Hex). apply (choose_outcome cfg done offer common _ []). split; [done|]. intros j e p [H _]. done.
Qed.
