(* ===== verification/MatcherSafety.v ===== *)
(** * The matcher as a concurrent system

    [Announce], [Offer], [Answer], [AnswerError] and the matching worker of
    src/psiphon/common/inproxy/matcher.go as the steps of one system, with the
    invariant that holds in every state it reaches: the queues, their counts and the
    channels agree, and what is delivered to a proxy or a client belongs to a proper
    match.  No channel operation blocks or panics unless two calls have looked up the
    same pending answer; that case is shown to panic.

    A step is what runs under a lock, or one operation on the pending answers or on a
    channel.  [Answer], [AnswerError] and an [Announce] that gives up are calls of several
    steps: the look-up, the deletion and the use of the channel, with any other steps in
    between.  The announcement queue's lock, which an abort holds throughout, does not keep
    other steps out here, so there are more interleavings than in the code.  While the
    worker is in a pass it holds the offer queue's lock, so offers are added and removed
    only between passes; announcements and answers come at any time. *)

From Stdlib Require Import ZArith Lia Strings.Byte Sorting.Sorted.
From stdpp Require Import base gmap list sets strings relations.
From S2P Require Import Prelude Lookups NAT MatchQueue Matcher.
#[local] Open Scope Z_scope.

(** ** The invariant *)

(** IDs are 32 bytes. *)
Definition ids_ok (proxyID connectionID : ID) : Prop :=
  length proxyID = 32%nat /\ length connectionID = 32%nat.

Lemma pendingAnswerKey_inj p1 c1 p2 c2 :
  ids_ok p1 c1 -> ids_ok p2 c2 -> pendingAnswerKey p1 c1 = pendingAnswerKey p2 c2 -> p1 = p2 /\ c1 = c2.
Proof. intros [H1 H2] [H3 H4] H. apply app_inj_1 in H; [done|congruence]. Qed.

Record offers_ok (offered : gmap nat offerEntry) (o : offerState) : Prop := {
  oi_nodup : NoDup (oe_id <$> offerQueue o);
  oi_references : offerReferences o = list_to_set (oe_id <$> offerQueue o);
  oi_len : offerQueueLen o = Z.of_nat (length (offerQueue o));
  oi_offered e : e ∈ offerQueue o -> offered !! oe_id e = Some e;
  oi_chan e : e ∈ offerQueue o -> answerChans o !! oe_id e = Some make_chan;
  oi_counts : ip_counts (offerQueueEntryCountByIP o)
                (fun ip => length (filter (fun e => oe_limitIP e = ip) (offerQueue o)))
}.

(** An answer expected from a proxy: the client's channel is open and empty, unless it is
    one of the [busy] channels, on which a call is at work; its offer is out of the queue,
    and the key is that of the announcement. *)
Definition pending_ok (busy : gset nat) (offered : gmap nat offerEntry) (o : offerState) (key : bytes) (p : pendingAnswer) : Prop :=
  (answerChan p ∈ busy \/ answerChans o !! answerChan p = Some make_chan) /\ ~ (answerChan p ∈ offerReferences o) /\
  is_Some (offered !! answerChan p) /\
  ids_ok (ProxyID (pa_announcement p)) (ConnectionID (pa_announcement p)) /\
  key = pendingAnswerKey (ProxyID (pa_announcement p)) (ConnectionID (pa_announcement p)).

(** An offer in the channel of an announcement: the two are a proper match, and its
    metrics are recorded. *)
Definition delivered_ok (cfg : matchConfig) (announced : gmap nat announcementEntry)
    (a : announcementState) (e : announcementEntry) (c : chan MatchOffer) : Prop :=
  closed c = false /\
  forall offer, buffer c = Some offer ->
    paired cfg offer (ae_properties e) /\ is_Some (announcementMetrics a !! ae_id e).

(** An answer in the channel of an offer comes from the proxy it was matched with. *)
Definition answer_ok (c : chan answerInfo) : Prop :=
  forall announcement answer, buffer c = Some (answered announcement answer) ->
    answer_ProxyID answer = ProxyID announcement /\ answer_ConnectionID answer = ConnectionID announcement.

Record matcher_ok_during (busy : gset nat) (cfg : matchConfig) (announced : gmap nat announcementEntry)
    (offered : gmap nat offerEntry) (m : Matcher) : Prop := {
  mi_announcements : announcements_ok announced (m_announcements m);
  mi_offers : offers_ok offered (m_offers m);
  mi_ids n e : announced !! n = Some e ->
    ae_id e = n /\ ids_ok (ProxyID (ae_announcement e)) (ConnectionID (ae_announcement e));
  mi_pending key p : pendingAnswers m !! key = Some p -> pending_ok busy offered (m_offers m) key p;
  mi_pending_inj k1 k2 p1 p2 :
    pendingAnswers m !! k1 = Some p1 -> pendingAnswers m !! k2 = Some p2 -> answerChan p1 = answerChan p2 -> k1 = k2;
  mi_answers n c : answerChans (m_offers m) !! n = Some c -> answer_ok c;
  mi_delivered e c : announced !! ae_id e = Some e -> offerChans (m_announcements m) !! ae_id e = Some c ->
    delivered_ok cfg announced (m_announcements m) e c
}.
Arguments mi_announcements {busy}.
Arguments mi_offers {busy}.
Arguments mi_ids {busy}.
Arguments mi_pending {busy}.
Arguments mi_pending_inj {busy}.
Arguments mi_answers {busy}.
Arguments mi_delivered {busy}.

(** The invariant when no call is under way. *)
Abbreviation matcher_ok := (matcher_ok_during ∅).

Lemma oi_elem offered o e : offers_ok offered o -> oe_id e ∈ offerReferences o ->
  offered !! oe_id e = Some e -> e ∈ offerQueue o.
Proof.
  intros Ho. rewrite (oi_references _ _ Ho), elem_of_list_to_set, list_elem_of_fmap.
  intros (e' & He & Hin) Hoff. pose proof (oi_offered _ _ Ho _ Hin) as H. rewrite <- He, Hoff in H.
  by injection H as ->.
Qed.

Lemma oi_reference offered o e : offers_ok offered o -> e ∈ offerQueue o -> oe_id e ∈ offerReferences o.
Proof.
  intros Ho He. rewrite (oi_references _ _ Ho), elem_of_list_to_set. apply list_elem_of_fmap. by exists e.
Qed.

(** ** Channels *)

Section steps.
Context (cfg : matchConfig) {busy : gset nat}.

(** A change of the matcher that keeps its offers and pending answers. *)
Lemma matcher_ok_announcements announced announced' offered m a :
  matcher_ok_during busy cfg announced offered m -> announcements_ok announced' a ->
  (forall n e, announced' !! n = Some e -> ae_id e = n /\ ids_ok (ProxyID (ae_announcement e)) (ConnectionID (ae_announcement e))) ->
  (forall e c, announced' !! ae_id e = Some e -> offerChans a !! ae_id e = Some c -> delivered_ok cfg announced' a e c) ->
  matcher_ok_during busy cfg announced' offered (with_announcements m a).
Proof. intros [] Ha Hid Hd. split; done. Qed.

Lemma matcher_ok_signal announced offered m b :
  matcher_ok_during busy cfg announced offered m -> matcher_ok_during busy cfg announced offered (with_signal m b).
Proof. intros []. split; done. Qed.

Lemma matcher_ok_limits announced offered m l :
  matcher_ok_during busy cfg announced offered m -> matcher_ok_during busy cfg announced offered (with_limits m l).
Proof. intros []. split; done. Qed.

(** A pending answer may vanish from the cache. *)
Lemma matcher_ok_expire announced offered m key :
  matcher_ok_during busy cfg announced offered m ->
  matcher_ok_during busy cfg announced offered (with_pending m (delete key (pendingAnswers m))).
Proof.
  intros H. destruct H. split; try done; cbn.
  - intros key' p [_ ?]%lookup_delete_Some. by apply mi_pending0.
  - intros k1 k2 p1 p2 [_ ?]%lookup_delete_Some [_ ?]%lookup_delete_Some. by apply mi_pending_inj0.
Qed.

(** The channel of a client whose answer is no longer pending is used. *)
Lemma matcher_ok_answerChan announced offered m n c :
  matcher_ok_during busy cfg announced offered m -> n ∉ offerReferences (m_offers m) ->
  (forall key p, pendingAnswers m !! key = Some p -> answerChan p = n -> n ∈ busy) -> answer_ok c ->
  matcher_ok_during busy cfg announced offered (with_answerChan m n c).
Proof.
  intros H Hn Hp Hc. destruct H. split; try done; cbn.
  - destruct mi_offers0. split; try done; cbn. intros e He. rewrite lookup_insert_ne; [by apply oi_chan0|].
    intros ->. apply Hn. rewrite oi_references0, elem_of_list_to_set. apply list_elem_of_fmap. by exists e.
  - intros key p Hk. destruct (mi_pending0 _ _ Hk) as (H1 & H2 & H3 & H4 & H5). split_and!; try done; cbn.
    destruct (decide (n = answerChan p)) as [->|Hne]; [left; by apply (Hp key p)|]. by rewrite lookup_insert_ne.
  - intros k c' [[<- <-]|[_ H]]%lookup_insert_Some; [done|by eapply mi_answers0].
Qed.

Lemma pending_chan announced offered m key p :
  matcher_ok_during busy cfg announced offered m -> pendingAnswers m !! key = Some p -> answerChan p ∉ busy ->
  get_answerChan m (answerChan p) = make_chan.
Proof.
  intros H Hk Hb. destruct (mi_pending _ _ _ _ H _ _ Hk) as ([?|H1] & _); [done|]. unfold get_answerChan. by rewrite H1.
Qed.

(** ** Announcements *)

Lemma delivered_ok_frame announced a a' e c :
  announcementMetrics a' = announcementMetrics a ->
  delivered_ok cfg announced a e c -> delivered_ok cfg announced a' e c.
Proof. unfold delivered_ok. by intros ->. Qed.

(** Announcements are removed, and nothing else changes. *)
Lemma matcher_ok_remove announced offered m a :
  matcher_ok_during busy cfg announced offered m -> announcements_ok announced a ->
  offerChans a = offerChans (m_announcements m) -> announcementMetrics a = announcementMetrics (m_announcements m) ->
  matcher_ok_during busy cfg announced offered (with_announcements m a).
Proof.
  intros H Ha H1 H2. eapply matcher_ok_announcements; [done|done|apply (mi_ids _ _ _ _ H)|].
  intros e c He Hc. rewrite H1 in Hc. eapply delivered_ok_frame; [done|]. by apply (mi_delivered _ _ _ _ H).
Qed.

Lemma matcher_ok_take announced offered m e :
  matcher_ok_during busy cfg announced offered m -> announced !! ae_id e = Some e ->
  matcher_ok_during busy cfg announced offered (with_announcements m (take_entry (m_announcements m) e).1).
Proof.
  intros H He. destruct (take_entry_frame (m_announcements m) e) as (F1 & F2 & _).
  apply matcher_ok_remove; try done. apply take_entry_ok; [apply (mi_announcements _ _ _ _ H)|done].
Qed.

Lemma queued_by_ip_enqueue announced q e q' kid ip :
  announced !! ae_id e = None -> enqueue q e = Ok q' -> queue_of (ae_properties e) = Ok kid ->
  references q !! ae_id e = None ->
  queued_by_ip (<[ae_id e := e]> announced) q' ip =
  (queued_by_ip announced q ip + if decide (ae_limitIP e = ip) then 1 else 0)%nat.
Proof.
  intros He (kid' & Hk & ->)%enqueue_inv Hk' Hr. unfold queued_by_ip. cbn [references set_total].
  rewrite (size_filter_step (<[ae_id e := e]> announced) (ae_id e) e _
    (fun p => is_Some (references q !! p.1) /\ ae_limitIP p.2 = ip)).
  - rewrite map_filter_insert_False; [rewrite delete_id by done|].
    + f_equal. cbn [fst snd]. rewrite lookup_insert_eq. repeat case_decide; naive_solver.
    + cbn. rewrite Hr. by intros [[? ?] _].
  - apply lookup_insert_eq.
  - cbn. rewrite Hr. by intros [[? ?] _].
  - intros j y Hj _. cbn. by rewrite lookup_insert_ne by done.
Qed.

(** A new announcement, not yet known to anybody. *)
Lemma announcements_ok_enqueue announced a e q' :
  announcements_ok announced a -> announced !! ae_id e = None ->
  offerChans a !! ae_id e = Some make_chan ->
  references (announcementQueue a) !! ae_id e = None -> enqueue (announcementQueue a) e = Ok q' ->
  announcements_ok (<[ae_id e := e]> announced)
    {| announcementQueue := q';
       announcementQueueEntryCountByIP := count_up (announcementQueueEntryCountByIP a) (ae_limitIP e);
       offerChans := offerChans a; announcementMetrics := announcementMetrics a |}.
Proof.
  intros Ha He Hc Hr Hq. pose proof Hq as (kid & Hk & _)%enqueue_inv. split; cbn.
  - by eapply enqueue_wf; [apply (ai_queue _ _ Ha)|..].
  - intros e' [kid' Hin]. rewrite (enqueue_contents _ _ _ _ Hk Hq) in Hin.
    assert (e' = e \/ queued (announcementQueue a) e') as [->|Hq'].
    { case_decide; [|right; by exists kid']. apply elem_of_app in Hin as [?|[?|[]%elem_of_nil]%elem_of_cons];
        [right; by exists kid|by left]. }
    + split; [apply lookup_insert_eq|done].
    + destruct (ai_waiting _ _ Ha _ Hq') as [H1 H2]. split; [|done].
      rewrite lookup_insert_ne; [done|]. intros Heq. by rewrite Heq, H1 in He.
  - eapply ip_counts_up; [apply (ai_counts _ _ Ha)|]. intros ip. by eapply queued_by_ip_enqueue.
Qed.

(** The channel of an announcement that is not queued changes. *)
Lemma matcher_ok_offerChan announced offered m n c :
  matcher_ok_during busy cfg announced offered m ->
  (forall e, queued (announcementQueue (m_announcements m)) e -> ae_id e <> n) ->
  (forall e, announced !! ae_id e = Some e -> ae_id e = n -> delivered_ok cfg announced (m_announcements m) e c) ->
  matcher_ok_during busy cfg announced offered (with_offerChan m n c).
Proof.
  intros H Hq Hd. apply (matcher_ok_announcements announced); [done| |apply (mi_ids _ _ _ _ H)|].
  - destruct (mi_announcements _ _ _ _ H) as [Hwf Hw Hcnt]. split; try done; cbn.
    intros e He. destruct (Hw e He) as [H1 H2]. split; [done|]. cbn. rewrite lookup_insert_ne; [done|].
    intros Heq. by apply (Hq e He).
  - cbn. intros e c' He [[Hn <-]|[_ Hc]]%lookup_insert_Some;
      (eapply (delivered_ok_frame _ (m_announcements m)); [done|]); [by apply Hd|by apply (mi_delivered _ _ _ _ H)].
Qed.

Lemma fresh_not_queued announced offered m n e :
  matcher_ok_during busy cfg announced offered m -> announced !! n = None ->
  queued (announcementQueue (m_announcements m)) e -> ae_id e <> n.
Proof.
  intros H Hn Hq <-. destruct (ai_waiting _ _ (mi_announcements _ _ _ _ H) _ Hq) as [H1 _]. congruence.
Qed.

Lemma with_limitIP_id e ip : ae_id (with_limitIP e ip) = ae_id e /\ ae_announcement (with_limitIP e ip) = ae_announcement e.
Proof. done. Qed.

Lemma addAnnouncementEntry_ok announced offered m allow e e' m' :
  matcher_ok_during busy cfg announced offered m -> announced !! ae_id e = None ->
  ids_ok (ProxyID (ae_announcement e)) (ConnectionID (ae_announcement e)) ->
  offerChans (m_announcements m) !! ae_id e = Some make_chan ->
  addAnnouncementEntry m allow e = Ok (e', m') ->
  ae_id e' = ae_id e /\ ae_announcement e' = ae_announcement e /\
  matcher_ok_during busy cfg (<[ae_id e := e']> announced) offered m'.
Proof.
  intros H Hf Hids Hc. unfold addAnnouncementEntry. destruct (_ <=? _); [done|].
  set (e0 := if is_exempt m e then _ else _).
  assert (ae_id e0 = ae_id e /\ ae_announcement e0 = ae_announcement e) as [Hid Hann]
    by (unfold e0; destruct (is_exempt m e); done).
  destruct (applyIPLimits _ _ _ _ _) as [[]|?|?|]; [|done..]. cbn [mbind res_mbind].
  case_decide as Hr; [done|]. apply eq_None_not_Some in Hr.
  destruct (enqueue (announcementQueue (m_announcements m)) e0) as [q|?|?|] eqn:Hq; [|done..].
  cbn. intros [= <- <-]. split_and!; [done..|]. rewrite <- Hid in *.
  apply matcher_ok_signal. apply (matcher_ok_announcements announced); [done| | |].
  - apply announcements_ok_enqueue; try done. apply (mi_announcements _ _ _ _ H).
  - intros n x [[<- <-]|[_ Hx]]%lookup_insert_Some; [by rewrite Hann|by apply (mi_ids _ _ _ _ H)].
  - cbn. intros x c [[Hx1 Hx2]|[Hx1 Hx2]]%lookup_insert_Some Hch.
    + rewrite <- Hx1, Hc in Hch. injection Hch as <-. by split.
    + eapply (delivered_ok_frame _ (m_announcements m)); [done|]. by apply (mi_delivered _ _ _ _ H).
Qed.

Lemma Announce_begin_ok announced offered m lim allow e e' m' :
  matcher_ok_during busy cfg announced offered m -> announced !! ae_id e = None ->
  ids_ok (ProxyID (ae_announcement e)) (ConnectionID (ae_announcement e)) ->
  Announce_begin m lim allow e = Ok (e', m') ->
  ae_id e' = ae_id e /\ ae_announcement e' = ae_announcement e /\
  matcher_ok_during busy cfg (<[ae_id e := e']> announced) offered m'.
Proof.
  intros H Hf Hids. unfold Announce_begin. case_match; [done|]. case_match; [done|].
  destruct (applyLoadLimit _ _ _) as [[]|?|?|]; [|done..]. cbn [mbind res_mbind].
  apply addAnnouncementEntry_ok; [|done|done|apply lookup_insert_eq].
  apply matcher_ok_offerChan; [done| |].
  - intros x. by eapply fresh_not_queued.
  - intros x Hx Hn. rewrite Hn in Hx. congruence.
Qed.

(** What a proxy receives. *)
Lemma Announce_receive_ok announced offered m e o metrics m' :
  matcher_ok_during busy cfg announced offered m -> announced !! ae_id e = Some e ->
  Announce_receive m e = Some (o, metrics, m') ->
  (exists offer, o = Some offer /\ paired cfg offer (ae_properties e) /\ is_Some metrics) /\
  matcher_ok_during busy cfg announced offered m'.
Proof.
  intros H He. unfold Announce_receive, get_offerChan.
  destruct (offerChans (m_announcements m) !! ae_id e) as [c|] eqn:Hc; [|done].
  change (default make_chan (Some c)) with c.
  destruct (mi_delivered _ _ _ _ H _ _ He Hc) as [Hcl Hbuf]. unfold chan_receive. rewrite Hcl.
  destruct (buffer c) as [offer|] eqn:Hb; [|done]. cbn. intros [= <- <- <-].
  destruct (Hbuf offer eq_refl) as [Hp Hm]. split; [by exists offer|].
  apply matcher_ok_offerChan; [done| |].
  - intros x Hx Hid. destruct (ai_waiting _ _ (mi_announcements _ _ _ _ H) _ Hx) as [_ Hw].
    rewrite Hid, Hc in Hw. injection Hw as ->. done.
  - intros x _ _. by split.
Qed.

(** ** Offers *)

Lemma matcher_ok_offers announced offered offered' m o :
  matcher_ok_during busy cfg announced offered m -> offers_ok offered' o ->
  (forall key p, pendingAnswers m !! key = Some p -> pending_ok busy offered' o key p) ->
  (forall n c, answerChans o !! n = Some c -> answer_ok c) ->
  matcher_ok_during busy cfg announced offered' (with_offers m o).
Proof. intros [] Ho Hp Hc. split; done. Qed.

Lemma filter_other {A} (f : A -> nat) (l : list A) (x : A) :
  NoDup (f <$> l) -> x ∈ l ->
  exists l1 l2, l = l1 ++ x :: l2 /\ filter (fun y => f y <> f x) l = l1 ++ l2.
Proof.
  intros Hnd (l1 & l2 & ->)%list_elem_of_split. exists l1, l2. split; [done|].
  rewrite fmap_app, fmap_cons in Hnd. apply NoDup_app in Hnd as (_ & H1 & [H2 _]%list.NoDup_cons).
  rewrite filter_app, filter_cons, decide_False by tauto.
  assert (forall k : list A, ~ (f x ∈ (f <$> k)) -> filter (fun y => f y <> f x) k = k) as Hk.
  { intros k. induction k as [|y k IH]; [done|]. rewrite fmap_cons. intros [Hn Hl]%not_elem_of_cons.
    rewrite filter_cons, decide_True by congruence. f_equal. by apply IH. }
  f_equal; apply Hk; [|done]. intros Hin. apply (H1 _ Hin). left.
Qed.

Lemma removeOfferEntry_ok announced offered m e :
  matcher_ok_during busy cfg announced offered m -> offered !! oe_id e = Some e ->
  let m' := removeOfferEntry m e in
  matcher_ok_during busy cfg announced offered m' /\ m_announcements m' = m_announcements m /\
  ~ (oe_id e ∈ offerReferences (m_offers m')) /\ pendingAnswers m' = pendingAnswers m /\
  answerChans (m_offers m') = answerChans (m_offers m) /\
  offerQueue (m_offers m') = filter (fun x => oe_id x <> oe_id e) (offerQueue (m_offers m)).
Proof.
  intros H He. unfold removeOfferEntry. pose proof (mi_offers _ _ _ _ H) as Ho.
  case_decide as Hr.
  2: { split_and!; try done. symmetry. clear He. rewrite (oi_references _ _ Ho), elem_of_list_to_set in Hr.
       induction (offerQueue (m_offers m)) as [|y l IH]; [done|]. rewrite fmap_cons in Hr.
       apply not_elem_of_cons in Hr as [Hn Hl]. rewrite filter_cons, decide_True by congruence. f_equal. by apply IH. }
  cbn zeta. split_and!; try done; [|cbn; set_solver].
  pose proof (oi_elem _ _ _ Ho Hr He) as Hin.
  destruct (filter_other oe_id _ _ (oi_nodup _ _ Ho) Hin) as (l1 & l2 & Hq & Hf).
  assert (forall x, x ∈ l1 ++ l2 -> x ∈ offerQueue (m_offers m)) as Hsub.
  { intros x Hx. rewrite Hq. rewrite elem_of_app in Hx |- *. rewrite elem_of_cons. tauto. }
  pose proof (oi_nodup _ _ Ho) as Hnd. rewrite Hq, fmap_app, fmap_cons in Hnd.
  apply (matcher_ok_offers _ offered); [done| |intros key p Hk|apply (mi_answers _ _ _ _ H)].
  - split; cbn; rewrite ?Hf.
    + rewrite fmap_app. apply NoDup_app in Hnd as (? & Hd & [? ?]%list.NoDup_cons). apply NoDup_app.
      split_and!; [done| |done]. intros n Hn1 Hn2. apply (Hd n Hn1). by right.
    + rewrite (oi_references _ _ Ho), Hq. apply set_eq. intros n.
      rewrite elem_of_difference, elem_of_singleton, !elem_of_list_to_set, !fmap_app, fmap_cons, !elem_of_app, elem_of_cons.
      apply NoDup_app in Hnd as (_ & Hd & [Hn2 _]%list.NoDup_cons).
      specialize (Hd n). rewrite elem_of_cons in Hd. destruct (decide (n = oe_id e)) as [->|]; tauto.
    + rewrite (oi_len _ _ Ho), Hq, !length_app. cbn. lia.
    + intros x Hx%Hsub. by apply (oi_offered _ _ Ho).
    + intros x Hx%Hsub. by apply (oi_chan _ _ Ho).
    + eapply ip_counts_down; [apply (oi_counts _ _ Ho)|]. intros ip. cbn. rewrite Hq, !filter_app, filter_cons, !length_app.
      case_decide; cbn; lia.
  - destruct (mi_pending _ _ _ _ H _ _ Hk) as (H1 & H2 & H3). split_and!; try apply H3; try done. cbn. set_solver.
Qed.

Lemma addOfferEntry_ok announced offered m allow e m' :
  matcher_ok_during busy cfg announced offered m -> offered !! oe_id e = None ->
  answerChans (m_offers m) !! oe_id e = Some make_chan -> addOfferEntry m allow e = Ok m' ->
  matcher_ok_during busy cfg announced (<[oe_id e := e]> offered) m'.
Proof.
  intros H Hf Hc. unfold addOfferEntry. destruct (_ <=? _); [done|].
  destruct (applyIPLimits _ _ _ _ _) as [[]|?|?|]; [|done..]. cbn [mbind res_mbind].
  case_decide as Hr; [done|]. intros [= <-]. apply matcher_ok_signal.
  pose proof (mi_offers _ _ _ _ H) as Ho.
  apply (matcher_ok_offers _ offered); [done| |intros key p Hk|apply (mi_answers _ _ _ _ H)].
  - split; cbn.
    + rewrite fmap_app. apply NoDup_app. split_and!; [apply (oi_nodup _ _ Ho)| |apply NoDup_singleton].
      intros n Hn [->|[]%elem_of_nil]%elem_of_cons. apply Hr. by rewrite (oi_references _ _ Ho), elem_of_list_to_set.
    + rewrite (oi_references _ _ Ho), fmap_app, list_to_set_app_L. cbn. set_solver.
    + rewrite (oi_len _ _ Ho), length_app. cbn. lia.
    + intros x [Hx|[->|[]%elem_of_nil]%elem_of_cons]%elem_of_app; [|apply lookup_insert_eq].
      pose proof (oi_offered _ _ Ho _ Hx) as Hx'. rewrite lookup_insert_ne; [done|]. congruence.
    + intros x [Hx|[->|[]%elem_of_nil]%elem_of_cons]%elem_of_app; [by apply (oi_chan _ _ Ho)|done].
    + eapply ip_counts_up; [apply (oi_counts _ _ Ho)|]. intros ip. cbn.
      rewrite filter_app, filter_cons, length_app. case_decide; cbn; lia.
  - destruct (mi_pending _ _ _ _ H _ _ Hk) as (H1 & H2 & [o Ho'] & H4). split_and!; try apply H4; try done; cbn.
    + assert (answerChan p <> oe_id e) by congruence. set_solver.
    + rewrite lookup_insert_ne by congruence. by exists o.
Qed.

Lemma Offer_begin_ok announced offered m lim allow e m' :
  matcher_ok_during busy cfg announced offered m -> offered !! oe_id e = None -> Offer_begin m lim allow e = Ok m' ->
  matcher_ok_during busy cfg announced (<[oe_id e := e]> offered) m'.
Proof.
  intros H Hf. unfold Offer_begin. case_match; [done|]. case_match; [done|].
  destruct (applyLoadLimit _ _ _) as [[]|?|?|]; [|done..]. cbn [mbind res_mbind].
  apply addOfferEntry_ok; [|done|apply lookup_insert_eq].
  apply matcher_ok_answerChan; [done| | |by intros ? ?].
  - rewrite (oi_references _ _ (mi_offers _ _ _ _ H)), elem_of_list_to_set.
    intros (x & Hx & Hin)%list_elem_of_fmap. pose proof (oi_offered _ _ (mi_offers _ _ _ _ H) _ Hin). congruence.
  - intros key p Hk Hp. destruct (mi_pending _ _ _ _ H _ _ Hk) as (_ & _ & [o Ho] & _). congruence.
Qed.

(** What a client receives. *)
Lemma Offer_receive_ok announced offered m e r metrics m' :
  matcher_ok_during busy cfg announced offered m -> offered !! oe_id e = Some e ->
  Offer_receive m e = Some (r, metrics, m') ->
  (r = Err "no answer" \/ r = Err "offer dropped" \/
   exists answer announcement, r = Ok (answer, announcement) /\
     answer_ProxyID answer = ProxyID announcement /\ answer_ConnectionID answer = ConnectionID announcement) /\
  matcher_ok_during busy cfg announced offered m'.
Proof.
  intros H He. unfold Offer_receive, get_answerChan.
  destruct (answerChans (m_offers m) !! oe_id e) as [c|] eqn:Hc; [|done].
  change (default make_chan (Some c)) with c.
  pose proof (mi_answers _ _ _ _ H _ _ Hc) as Hans.
  destruct (chan_receive c) as [[info c']|] eqn:Hr; [|done]. cbn. intros [= <- <- <-].
  assert (c <> make_chan) as Hne by (intros ->; done). split.
  - unfold chan_receive in Hr. destruct (buffer c) as [[ann ans|]|] eqn:Hb.
    + injection Hr as <- <-. right. right. cbn. destruct (Hans ann ans Hb) as [H1 H2].
      rewrite bool_decide_true by done. cbn. eauto.
    + injection Hr as <- <-. by right; left.
    + destruct (closed c); [|done]. injection Hr as <- <-. by left.
  - apply matcher_ok_answerChan; [done| | |].
    + intros Hin. pose proof (oi_elem _ _ _ (mi_offers _ _ _ _ H) Hin He) as Hq.
      pose proof (oi_chan _ _ (mi_offers _ _ _ _ H) _ Hq). congruence.
    + intros key p Hk Hp. destruct (mi_pending _ _ _ _ H _ _ Hk) as ([H1|H1] & _); congruence.
    + unfold chan_receive in Hr. destruct (buffer c) eqn:Hb; [by injection Hr as <- <-|].
      destruct (closed c); [|done]. by injection Hr as <- <-.
Qed.

(** ** What calls under way rely on *)

(** The channels of offers that left the queue stay as they were made, none of them gets
    back into the queue, and new pending answers are for offers taken from it. *)
Record undisturbed (offered : gmap nat offerEntry) (m m' : Matcher) : Prop := {
  ud_chan n : n ∉ offerReferences (m_offers m) -> is_Some (offered !! n) ->
    answerChans (m_offers m) !! n = Some make_chan -> answerChans (m_offers m') !! n = Some make_chan;
  ud_references n : n ∉ offerReferences (m_offers m) -> is_Some (offered !! n) -> n ∉ offerReferences (m_offers m');
  ud_pending key p : pendingAnswers m' !! key = Some p ->
    pendingAnswers m !! key = Some p \/ answerChan p ∈ offerReferences (m_offers m)
}.

Lemma undisturbed_same offered m m' :
  m_offers m' = m_offers m -> pendingAnswers m' = pendingAnswers m -> undisturbed offered m m'.
Proof. intros Ho Hp. split; rewrite ?Ho, ?Hp; auto. Qed.

Lemma Announce_begin_undisturbed offered m lim allow e e' m' :
  Announce_begin m lim allow e = Ok (e', m') -> undisturbed offered m m'.
Proof.
  unfold Announce_begin, addAnnouncementEntry. case_match; [done|]. case_match; [done|].
  intros ([] & _ & Hx)%res_bind_ok. case_match; [done|].
  apply res_bind_ok in Hx as ([] & _ & Hx). case_match; [done|].
  apply res_bind_ok in Hx as (q & _ & Hx). injection Hx as <- <-. by apply undisturbed_same.
Qed.

Lemma Announce_receive_undisturbed offered m e o x m' :
  Announce_receive m e = Some (o, x, m') -> undisturbed offered m m'.
Proof.
  unfold Announce_receive. destruct (chan_receive _) as [[? ?]|]; [|done]. intros [= <- <- <-]. by apply undisturbed_same.
Qed.

Lemma Offer_begin_undisturbed offered m lim allow e m' :
  offered !! oe_id e = None -> Offer_begin m lim allow e = Ok m' -> undisturbed offered m m'.
Proof.
  intros Hf. unfold Offer_begin, addOfferEntry. case_match; [done|]. case_match; [done|].
  intros ([] & _ & Hx)%res_bind_ok. case_match; [done|].
  apply res_bind_ok in Hx as ([] & _ & Hx). case_match; [done|]. injection Hx as <-.
  assert (forall k, is_Some (offered !! k) -> k <> oe_id e) as Hne by (intros k [y Hy]; congruence).
  split; cbn; [|intros k Hk Hs; specialize (Hne k Hs); set_solver|auto]. intros k _ Hs Hc. specialize (Hne k Hs). by rewrite lookup_insert_ne.
Qed.

Lemma Offer_receive_undisturbed offered m e r x m' :
  Offer_receive m e = Some (r, x, m') -> undisturbed offered m m'.
Proof.
  unfold Offer_receive, get_answerChan. destruct (chan_receive _) as [[info c]|] eqn:Hr; [|done]. intros [= <- <- <-].
  split; cbn; auto. intros k _ _ Hc. destruct (decide (oe_id e = k)) as [<-|Hne]; [|by rewrite lookup_insert_ne].
  by rewrite Hc in Hr.
Qed.

Lemma removeOfferEntry_undisturbed offered m e : undisturbed offered m (removeOfferEntry m e).
Proof.
  unfold removeOfferEntry. case_decide; [|by apply undisturbed_same]. split; cbn; [auto|set_solver|auto].
Qed.

Lemma expire_undisturbed offered m key : undisturbed offered m (with_pending m (delete key (pendingAnswers m))).
Proof. split; cbn; auto. intros k p [_ ?]%lookup_delete_Some. auto. Qed.

(** ** A match delivered *)

Lemma matcher_ok_metrics announced offered m oid aid x :
  matcher_ok_during busy cfg announced offered m -> matcher_ok_during busy cfg announced offered (with_metrics m oid aid x).
Proof.
  intros H. destruct H. split; try done; cbn.
  - destruct mi_announcements0. split; done.
  - destruct mi_offers0. split; done.
  - intros e c He Hc. destruct (mi_delivered0 e c He Hc) as [H1 H2]. split; [done|]. intros offer Ho.
    destruct (H2 offer Ho) as [H3 [y Hy]]. split; [done|]. cbn.
    destruct (decide (aid = ae_id e)) as [->|]; [rewrite lookup_insert_eq|rewrite lookup_insert_ne by done]; eauto.
Qed.

Lemma matcher_ok_pending announced offered m key p :
  matcher_ok_during busy cfg announced offered m -> pending_ok busy offered (m_offers m) key p ->
  (forall k' p', pendingAnswers m !! k' = Some p' -> answerChan p' <> answerChan p) ->
  matcher_ok_during busy cfg announced offered (with_pending m (<[key := p]> (pendingAnswers m))).
Proof.
  intros H Hp Hnew. destruct H. split; try done; cbn.
  - intros k' p' [[<- <-]|[_ ?]]%lookup_insert_Some; [done|by apply mi_pending0].
  - intros k1 k2 p1 p2 [[<- <-]|[_ H1]]%lookup_insert_Some [[<- <-]|[_ H2]]%lookup_insert_Some Heq; try done.
    + by apply Hnew in H2.
    + by apply Hnew in H1.
    + by eapply mi_pending_inj0.
Qed.

(** Removing the offer last is as good as first. *)
Lemma removeOfferEntry_commute m P n c o :
  removeOfferEntry (with_offerChan (with_pending m P) n c) o =
  with_offerChan (with_pending (removeOfferEntry m o) P) n c.
Proof. unfold removeOfferEntry. cbn. by case_decide. Qed.

Lemma take_entry_not_queued a e x :
  queue_wf (announcementQueue a) -> queued (announcementQueue (take_entry a e).1) x -> ae_id x <> ae_id e.
Proof.
  destruct (take_entry_frame a e) as (_ & _ & ->). intros Hwf [kid Hin]. revert Hin.
  rewrite dequeue_contents by done. by intros [_ ?]%remove_entry_elem.
Qed.

Lemma deliver_ok announced offered m r i j o e :
  matcher_ok_during busy cfg announced offered m -> o ∈ offerQueue (m_offers m) ->
  waiting announced (m_announcements m) e -> paired cfg (oe_offer o) (ae_properties e) ->
  exists m', deliver m r i j o e = Ok m' /\ matcher_ok_during busy cfg announced offered m' /\
    offerQueue (m_offers m') = filter (fun x => oe_id x <> oe_id o) (offerQueue (m_offers m)) /\
    undisturbed offered m m'.
Proof.
  intros H Ho [He Hc] Hp. unfold deliver. cbn zeta. rewrite removeAnnouncementEntry_false. cbn [mbind res_mbind].
  set (x := Build_MatchMetrics _ _ _ _ _ _ _).
  pose proof (mi_offers _ _ _ _ H) as Hoff.
  pose proof (matcher_ok_take _ _ _ _ (matcher_ok_metrics _ _ _ (oe_id o) (ae_id e) x H) He) as H1.
  destruct (take_entry_frame (m_announcements (with_metrics m (oe_id o) (ae_id e) x)) e) as (F1 & F2 & _).
  pose proof (take_entry_not_queued (m_announcements (with_metrics m (oe_id o) (ae_id e) x)) e) as Hnq.
  set (m1 := with_announcements (with_metrics m _ _ x) (take_entry _ e).1) in *.
  unfold get_offerChan. change (m_announcements (with_pending m1 ?P)) with (m_announcements m1).
  assert (offerChans (m_announcements m1) !! ae_id e = Some make_chan) as -> by exact (eq_trans (f_equal (lookup (ae_id e)) F1) Hc).
  cbn [default from_option id chan_send closed make_chan buffer].
  destruct (removeOfferEntry_ok _ _ _ o H1 (oi_offered _ _ Hoff _ Ho)) as (H2 & E1 & E2 & E3 & E4 & E5).
  eexists. split; [reflexivity|]. rewrite removeOfferEntry_commute. split; [|split; [cbn; by rewrite E5|]].
  2: { pose proof (removeOfferEntry_undisturbed offered m1 o) as [U1 U2 _]. split; cbn; [apply U1|apply U2|].
       intros k p' [[_ <-]|[_ Hk]]%lookup_insert_Some; [right; by eapply oi_reference|by left]. }
  apply matcher_ok_offerChan.
  - rewrite <- E3. apply matcher_ok_pending; [done| |].
    + split_and!; cbn; [right; rewrite E4; by apply (oi_chan _ _ Hoff)|done|
        by rewrite (oi_offered _ _ Hoff _ Ho)| |done]. by apply (mi_ids _ _ _ _ H _ _ He).
    + intros k' p' Hk Heq. cbn in Heq. rewrite E3 in Hk.
      destruct (mi_pending _ _ _ _ H _ _ Hk) as (_ & Hn & _). apply Hn. rewrite Heq. by eapply oi_reference.
  - intros y. cbn. rewrite E1. apply Hnq. apply (ai_queue _ _ (mi_announcements _ _ _ _ H)).
  - intros y Hy Hid. rewrite Hid, He in Hy. injection Hy as <-. split; [done|].
    intros offer [= <-]. split; [done|]. cbn. rewrite E1.
    change (is_Some (announcementMetrics (take_entry (m_announcements (with_metrics m (oe_id o) (ae_id e) x)) e).1 !! ae_id e)).
    rewrite F2. cbn. by rewrite lookup_insert_eq.
Qed.

Lemma match_one_ok announced offered m r i o :
  matcher_ok_during busy cfg announced offered m -> o ∈ offerQueue (m_offers m) ->
  exists m', match_one cfg r m i o = Ok m' /\ matcher_ok_during busy cfg announced offered m' /\
    (forall x, x ∈ offerQueue (m_offers m) -> oe_id x <> oe_id o -> x ∈ offerQueue (m_offers m')) /\
    undisturbed offered m m'.
Proof.
  intros H Ho. pose proof (mi_offers _ _ _ _ H) as Hoff. pose proof (oi_offered _ _ Hoff _ Ho) as Hof.
  destruct (removeOfferEntry_ok _ _ _ _ H Hof) as (H1 & _ & E2 & E3 & E4 & E5). unfold match_one.
  destruct (offerDone r).
  { eexists. split_and!; [done..| |apply removeOfferEntry_undisturbed].
    intros x Hx Hne. rewrite E5. by apply list_elem_of_filter. }
  destruct (_ && _).
  { unfold get_answerChan. rewrite E4, (oi_chan _ _ Hoff _ Ho). cbn. eexists. split_and!; [done| | |].
    - apply matcher_ok_answerChan; [done..| |by intros ? ?]. rewrite E3. intros key p Hk Heq.
      destruct (mi_pending _ _ _ _ H _ _ Hk) as (_ & Hn & _). destruct Hn. rewrite Heq. by eapply oi_reference.
    - intros x Hx Hne. cbn. rewrite E5. by apply list_elem_of_filter.
    - pose proof (removeOfferEntry_undisturbed offered m o) as [U1 U2 U3]. split; cbn; [|apply U2|apply U3].
      intros n Hn Hs Hcn. rewrite lookup_insert_ne; [by apply U1|]. intros <-. apply Hn. by eapply oi_reference. }
  destruct (matchOffer_ok announced cfg (announcementDone r) m (oe_offer o) (mi_announcements _ _ _ _ H))
    as (a' & e & j & -> & Ha' & F1 & F2 & He). cbn [mbind res_mbind].
  pose proof (matcher_ok_remove _ _ _ _ H Ha' F1 F2) as H'.
  destruct e as [e|]; [|exists (with_announcements m a'); split_and!; try done; by apply undisturbed_same].
  destruct He as (Hw & Hp & _).
  destruct (deliver_ok _ _ _ r i j o e H' Ho Hw Hp) as (m' & -> & Hm' & Hq & [U1 U2 U3]). exists m'.
  split_and!; [done..| |by split]. intros x Hx Hne. rewrite Hq. by apply list_elem_of_filter.
Qed.
End steps.

(** ** What leaves the offer queue as it is *)

Definition same_offers (m m' : Matcher) : Prop := offerQueue (m_offers m') = offerQueue (m_offers m).

Lemma Announce_begin_offers m lim allow e e' m' : Announce_begin m lim allow e = Ok (e', m') -> same_offers m m'.
Proof.
  unfold Announce_begin, addAnnouncementEntry. case_match; [done|]. case_match; [done|].
  intros ([] & _ & Hx)%res_bind_ok. case_match; [done|].
  apply res_bind_ok in Hx as ([] & _ & Hx). case_match; [done|].
  apply res_bind_ok in Hx as (q & _ & Hx). by injection Hx as <- <-.
Qed.

Lemma Announce_receive_offers m e o x m' : Announce_receive m e = Some (o, x, m') -> same_offers m m'.
Proof. unfold Announce_receive. destruct (chan_receive _) as [[? ?]|]; [|done]. by intros [= <- <- <-]. Qed.

Lemma Offer_receive_offers m e o x m' : Offer_receive m e = Some (o, x, m') -> same_offers m m'.
Proof. unfold Offer_receive. destruct (chan_receive _) as [[? ?]|]; [|done]. by intros [= <- <- <-]. Qed.

(** ** Calls under way *)

(** [Answer], [AnswerError] and an [Announce] that gives up look a pending answer up, and
    then do two things, one after the other: the first two delete the pending answer and
    then send on its channel or close it; the last closes the channel and then deletes. *)
Inductive kind := Answering (answer : MatchAnswer) | Failing | Aborting.

Record call := {
  call_kind : kind;
  call_key : bytes;
  call_pending : pendingAnswer;
  first_done : bool
}.

Definition call_chan (c : call) : nat := answerChan (call_pending c).

Definition go_on (c : call) : call :=
  {| call_kind := call_kind c; call_key := call_key c; call_pending := call_pending c; first_done := true |}.

(** The next thing a call does; [None] when it returns then. *)
Definition call_step (m : Matcher) (c : call) : res (Matcher * option call) :=
  let deleted := with_pending m (delete (call_key c) (pendingAnswers m)) in
  match call_kind c, first_done c with
  | Answering _, false | Failing, false => Ok (deleted, Some (go_on c))
  | Answering answer, true =>
      ch ← chan_send (get_answerChan m (call_chan c)) (answered (pa_announcement (call_pending c)) answer);
      Ok (with_answerChan m (call_chan c) ch, None)
  | Failing, true =>
      ch ← chan_close (get_answerChan m (call_chan c));
      Ok (with_answerChan m (call_chan c) ch, None)
  | Aborting, false =>
      ch ← chan_close (get_answerChan m (call_chan c));
      Ok (with_answerChan m (call_chan c) ch, Some (go_on c))
  | Aborting, true => Ok (deleted, None)
  end.

(** Whether the call has yet to use the channel, and whether it has yet to delete. *)
Definition to_use (c : call) : bool := match call_kind c with Aborting => negb (first_done c) | _ => true end.
Definition to_delete (c : call) : bool := match call_kind c with Aborting => true | _ => negb (first_done c) end.

Definition new_call (k : kind) (key : bytes) (p : pendingAnswer) : call :=
  {| call_kind := k; call_key := key; call_pending := p; first_done := false |}.

(** A call from its look-up to its end, with nothing in between. *)
Definition uninterrupted (m : Matcher) (c : call) : res Matcher :=
  '(m, c) ← call_step m c;
  match c with Some c => '(m, _) ← call_step m c; Ok m | None => Ok m end.

(** The operations of the matcher are their calls, when nothing comes in between. *)
Lemma Answer_uninterrupted m answer :
  Answer m answer =
    (let key := pendingAnswerKey (answer_ProxyID answer) (answer_ConnectionID answer) in
     match pendingAnswers m !! key with
     | Some p => uninterrupted m (new_call (Answering answer) key p)
     | None => Err "no pending answer"
     end).
Proof.
  unfold Answer. cbn zeta. destruct (pendingAnswers m !! _) as [p|]; [|done].
  unfold answer_deliver, uninterrupted, call_step. cbn. by destruct (chan_send _ _).
Qed.

Lemma AnswerError_uninterrupted m proxyID connectionID :
  AnswerError m proxyID connectionID =
    (let key := pendingAnswerKey proxyID connectionID in
     match pendingAnswers m !! key with
     | Some p => uninterrupted m (new_call Failing key p)
     | None => Ok m
     end).
Proof.
  unfold AnswerError. cbn zeta. destruct (pendingAnswers m !! _) as [p|]; [|done].
  unfold answerError_deliver, uninterrupted, call_step. cbn. by destruct (chan_close _).
Qed.

Lemma abort_uninterrupted m e :
  removeAnnouncementEntry m true e =
    (let '(a, found) := take_entry (m_announcements m) e in
     let key := pendingAnswerKey (ProxyID (ae_announcement e)) (ConnectionID (ae_announcement e)) in
     match (if (found : bool) then None else pendingAnswers m !! key) with
     | Some p => uninterrupted (with_announcements m a) (new_call Aborting key p)
     | None => Ok (with_announcements m a)
     end).
Proof.
  unfold removeAnnouncementEntry. destruct (take_entry _ _) as [a [|]]; cbn [negb andb]; [done|].
  cbn zeta. cbn [pendingAnswers with_announcements]. destruct (pendingAnswers m !! _) as [p|]; [|done].
  unfold uninterrupted, call_step. cbn. by destruct (chan_close _).
Qed.

(** ** The system *)

(** The matcher, every announcement and offer there has been, the pass of the worker (the
    offers still to be taken and the index of the last one), the calls under way, and the
    channels of the pending answers that calls have looked up so far. *)
Record machine := {
  matcher : Matcher;
  announced : gmap nat announcementEntry;
  offered : gmap nat offerEntry;
  pass : option (list offerEntry * Z);
  calls : list call;
  looked_up : list nat
}.

Definition start (l : limits) : machine := {|
  matcher := with_limits (NewMatcher 0 0 0 [] [] 0 0 0 0) l; announced := ∅; offered := ∅; pass := None;
  calls := []; looked_up := [] |}.

Definition put (s : machine) (m : Matcher) : machine := {|
  matcher := m; announced := announced s; offered := offered s; pass := pass s;
  calls := calls s; looked_up := looked_up s |}.

Definition put_pass (s : machine) (m : Matcher) (p : option (list offerEntry * Z)) : machine := {|
  matcher := m; announced := announced s; offered := offered s; pass := p;
  calls := calls s; looked_up := looked_up s |}.

Definition put_calls (s : machine) (m : Matcher) (l : list call) : machine := {|
  matcher := m; announced := announced s; offered := offered s; pass := pass s;
  calls := l; looked_up := looked_up s |}.

(** A call that has found the pending answer. *)
Definition begin_call (s : machine) (m : Matcher) (c : call) : machine := {|
  matcher := m; announced := announced s; offered := offered s; pass := pass s;
  calls := c :: calls s; looked_up := call_chan c :: looked_up s |}.

Definition busy (s : machine) : gset nat := list_to_set (call_chan <$> calls s).

Section system.
Context (cfg : matchConfig).

Inductive step (s : machine) : machine -> Prop :=
| step_announce lim allow e e' m :
    announced s !! ae_id e = None -> ids_ok (ProxyID (ae_announcement e)) (ConnectionID (ae_announcement e)) ->
    Announce_begin (matcher s) lim allow e = Ok (e', m) ->
    step s {| matcher := m; announced := <[ae_id e := e']> (announced s); offered := offered s; pass := pass s;
              calls := calls s; looked_up := looked_up s |}
(* an [Announce] that gives up takes its entry back; a call goes on when it is matched *)
| step_announce_abort e a found :
    announced s !! ae_id e = Some e -> take_entry (m_announcements (matcher s)) e = (a, found) ->
    found = true \/
      pendingAnswers (matcher s) !! pendingAnswerKey (ProxyID (ae_announcement e)) (ConnectionID (ae_announcement e)) = None ->
    step s (put s (with_announcements (matcher s) a))
| step_announce_abort_matched e a key p :
    announced s !! ae_id e = Some e -> take_entry (m_announcements (matcher s)) e = (a, false) ->
    key = pendingAnswerKey (ProxyID (ae_announcement e)) (ConnectionID (ae_announcement e)) ->
    pendingAnswers (matcher s) !! key = Some p ->
    step s (begin_call s (with_announcements (matcher s) a) (new_call Aborting key p))
| step_announce_receive e o x m :
    announced s !! ae_id e = Some e -> Announce_receive (matcher s) e = Some (o, x, m) -> step s (put s m)
| step_offer lim allow e m :
    pass s = None -> offered s !! oe_id e = None -> Offer_begin (matcher s) lim allow e = Ok m ->
    step s {| matcher := m; announced := announced s; offered := <[oe_id e := e]> (offered s); pass := None;
              calls := calls s; looked_up := looked_up s |}
| step_offer_abort e :
    pass s = None -> offered s !! oe_id e = Some e -> step s (put s (Offer_abort (matcher s) e).2)
| step_offer_receive e r x m :
    offered s !! oe_id e = Some e -> Offer_receive (matcher s) e = Some (r, x, m) -> step s (put s m)
| step_answer answer key p :
    ids_ok (answer_ProxyID answer) (answer_ConnectionID answer) ->
    key = pendingAnswerKey (answer_ProxyID answer) (answer_ConnectionID answer) ->
    pendingAnswers (matcher s) !! key = Some p ->
    step s (begin_call s (matcher s) (new_call (Answering answer) key p))
| step_answer_error proxyID connectionID key p :
    key = pendingAnswerKey proxyID connectionID -> pendingAnswers (matcher s) !! key = Some p ->
    step s (begin_call s (matcher s) (new_call Failing key p))
| step_call l1 c l2 m c' :
    calls s = l1 ++ c :: l2 -> call_step (matcher s) c = Ok (m, c') ->
    step s (put_calls s m (l1 ++ option_list c' ++ l2))
| step_expire key :
    step s (put s (with_pending (matcher s) (delete key (pendingAnswers (matcher s)))))
| step_limits ac aq ai ps ss oc oq oi d :
    step s (put s (SetLimits (matcher s) ac aq ai ps ss oc oq oi d))
| step_pass_begin :
    pass s = None -> matchSignal (matcher s) = true ->
    step s (put_pass s (with_signal (matcher s) false) (Some (offerQueue (m_offers (matcher s)), -1)))
| step_pass_offer r o rest i m :
    pass s = Some (o :: rest, i) -> 0 < getLen (announcementQueue (m_announcements (matcher s))) ->
    match_one cfg r (matcher s) (i + 1) o = Ok m ->
    step s (put_pass s m (Some (rest, i + 1)))
| step_pass_end rest i :
    pass s = Some (rest, i) ->
    rest = [] \/ getLen (announcementQueue (m_announcements (matcher s))) <= 0 ->
    step s (put_pass s (matcher s) None).

Definition pass_ok (s : machine) : Prop :=
  forall rest i, pass s = Some (rest, i) ->
    NoDup (oe_id <$> rest) /\ forall o, o ∈ rest -> o ∈ offerQueue (m_offers (matcher s)).

(** How many calls have looked up the pending answer of a channel. *)
Definition lookups (l : list nat) (n : nat) : nat := length (filter (fun k => k = n) l).
#[local] Arguments lookups : simpl never.

(** What holds of a call under way: its offer is out of the queue for good; nobody else
    has the pending answer under another key, and nobody at all once the call has deleted
    it; an answer has the IDs of the announcement; and the channel that the call is about
    to use is as it was made, if no other call has looked the pending answer up. *)
Record call_ok (offered : gmap nat offerEntry) (looked_up : list nat) (m : Matcher) (c : call) : Prop := {
  co_references : call_chan c ∉ offerReferences (m_offers m);
  co_offered : is_Some (offered !! call_chan c);
  co_key key p : pendingAnswers m !! key = Some p -> answerChan p = call_chan c -> key = call_key c;
  co_deleted key p : to_delete c = false -> pendingAnswers m !! key = Some p -> answerChan p <> call_chan c;
  co_answer answer : call_kind c = Answering answer ->
    answer_ProxyID answer = ProxyID (pa_announcement (call_pending c)) /\
    answer_ConnectionID answer = ConnectionID (pa_announcement (call_pending c));
  co_chan : to_use c = true -> lookups looked_up (call_chan c) = 1%nat ->
    answerChans (m_offers m) !! call_chan c = Some make_chan
}.

Definition calls_ok (s : machine) : Prop :=
  (forall c, c ∈ calls s -> call_ok (offered s) (looked_up s) (matcher s) c) /\
  call_chan <$> calls s ⊆+ looked_up s.

Definition machine_ok (s : machine) : Prop :=
  matcher_ok_during (busy s) cfg (announced s) (offered s) (matcher s) /\ pass_ok s /\ calls_ok s.

Definition reachable (s : machine) : Prop := exists l, rtc step (start l) s.

Lemma start_ok l : machine_ok (start l).
Proof.
  split; [|split; [by intros rest i|split; [intros c []%elem_of_nil|done]]].
  apply matcher_ok_limits. split; try done; cbn.
  - split; cbn; [apply newAnnouncementMultiQueue_wf| |].
    + intros e [kid H]. exfalso. revert H. unfold contents, lookup_queue. destruct kid as [[] id]; cbn;
        rewrite lookup_empty; by intros []%elem_of_nil.
    + intros ip. unfold queued_by_ip. by rewrite map_filter_empty, map_size_empty.
  - split; cbn; try done; [apply NoDup_nil_2|..]; by intros e []%elem_of_nil.
Qed.

Lemma pass_ok_same s m :
  pass_ok s -> same_offers (matcher s) m -> pass_ok (put s m).
Proof. intros H Hs rest i Hp. destruct (H rest i Hp) as [H1 H2]. split; [done|]. cbn. by rewrite Hs. Qed.

(** *** Look-ups *)

Lemma lookups_app l1 l2 n : lookups (l1 ++ l2) n = (lookups l1 n + lookups l2 n)%nat.
Proof. unfold lookups. by rewrite filter_app, length_app. Qed.

Lemma lookups_cons k l n : lookups (k :: l) n = ((if decide (k = n) then 1 else 0) + lookups l n)%nat.
Proof. unfold lookups. rewrite filter_cons. by case_decide. Qed.

Lemma lookups_elem l n : n ∈ l -> (1 <= lookups l n)%nat.
Proof. intros (l1 & l2 & ->)%list_elem_of_split. rewrite lookups_app, lookups_cons, decide_True by done. lia. Qed.

Lemma lookups_submseteq l l' n : l ⊆+ l' -> (lookups l n <= lookups l' n)%nat.
Proof.
  intros (k & Hk)%submseteq_Permutation. unfold lookups. rewrite Hk, filter_app, length_app. lia.
Qed.

(** Of two calls for one pending answer, each has looked it up. *)
Lemma shared_lookups s l1 c l2 c2 :
  calls_ok s -> calls s = l1 ++ c :: l2 -> c2 ∈ l1 ++ l2 -> call_chan c2 = call_chan c ->
  (2 <= lookups (looked_up s) (call_chan c))%nat.
Proof.
  intros [_ Hsub] Hl Hin Heq. apply (lookups_submseteq _ _ (call_chan c)) in Hsub. rewrite Hl in Hsub.
  assert (call_chan c ∈ call_chan <$> l1 ++ l2) as H%lookups_elem by (apply list_elem_of_fmap; by exists c2).
  rewrite fmap_app, lookups_app in H. rewrite fmap_app, fmap_cons, lookups_app, lookups_cons, decide_True in Hsub by done. lia.
Qed.

Lemma busy_looked_up s n : calls_ok s -> n ∈ busy s -> (1 <= lookups (looked_up s) n)%nat.
Proof.
  intros [_ Hsub] Hn%elem_of_list_to_set. apply lookups_elem in Hn. apply (lookups_submseteq _ _ n) in Hsub. lia.
Qed.

(** *** Steps of the calls *)

(** Only pending answers matter to what is busy. *)
Lemma matcher_ok_busy b b' announced offered m :
  matcher_ok_during b cfg announced offered m ->
  (forall key p, pendingAnswers m !! key = Some p -> answerChan p ∈ b -> answerChan p ∈ b') ->
  matcher_ok_during b' cfg announced offered m.
Proof.
  intros H Hb. destruct H. split; try done. intros key p Hk.
  destruct (mi_pending0 _ _ Hk) as ([H1|H1] & H2); (split; [|done]); [left; by eapply Hb|by right].
Qed.

Lemma call_ok_undisturbed off off' looked m m' c :
  call_ok off looked m c -> undisturbed off m m' -> off ⊆ off' -> call_ok off' looked m' c.
Proof.
  intros [H1 H2 H3 H4 H5 H6] [U1 U2 U3] Hoff. split; try done.
  - by apply U2.
  - destruct H2 as [x Hx]. exists x. by eapply lookup_weaken.
  - intros key p [Hk|Hr]%U3 Hc; [by eapply H3|]. by rewrite Hc in Hr.
  - intros key p Hd [Hk|Hr]%U3 Hc; [by eapply H4|]. by rewrite Hc in Hr.
  - intros Hu Hl. apply U1; auto.
Qed.

Lemma calls_ok_undisturbed s s' :
  calls_ok s -> undisturbed (offered s) (matcher s) (matcher s') -> offered s ⊆ offered s' ->
  calls s' = calls s -> looked_up s' = looked_up s -> calls_ok s'.
Proof.
  intros [H1 H2] Hu Hoff Hc Hl. unfold calls_ok. rewrite Hc, Hl. split; [|done]. intros c Hin.
  eapply call_ok_undisturbed; [by apply H1|done..].
Qed.

Lemma busy_same s s' : calls s' = calls s -> busy s' = busy s.
Proof. unfold busy. by intros ->. Qed.

Lemma begin_call_ok s m k key p :
  machine_ok (put s m) -> pendingAnswers m !! key = Some p ->
  (forall answer, k = Answering answer -> ids_ok (answer_ProxyID answer) (answer_ConnectionID answer) /\
     key = pendingAnswerKey (answer_ProxyID answer) (answer_ConnectionID answer)) ->
  machine_ok (begin_call s m (new_call k key p)).
Proof.
  intros (H & Hp & Hcalls) Hk Hans. destruct (mi_pending _ _ _ _ H _ _ Hk) as (Hch & Hr & Ho & Hids & Hkey).
  split; [|split; [done|split]].
  - apply (matcher_ok_busy (busy (put s m))); [done|]. intros _ q _. unfold busy. cbn. set_solver.
  - cbn. intros c [->|Hc]%elem_of_cons.
    + split; cbn; try done.
      * intros k' p' Hk' Heq. by eapply (mi_pending_inj _ _ _ _ H).
      * by destruct k.
      * intros answer ->. destruct (Hans answer eq_refl) as [Hi ->].
        by apply pendingAnswerKey_inj in Hkey as [-> ->].
      * intros _. cbn. rewrite lookups_cons, decide_True by done. intros Hl. destruct Hch as [Hb|]; [|done].
        apply (busy_looked_up _ _ Hcalls) in Hb. cbn in Hb. change (call_chan (new_call k key p)) with (answerChan p) in Hl. lia.
    + destruct (proj1 Hcalls c Hc) as [C1 C2 C3 C4 C5 C6]. split; try done. cbn. intros Hu Hl. apply C6; [done|].
      rewrite lookups_cons in Hl. case_decide as E; [|done].
      assert (call_chan c ∈ busy (put s m)) as Hb.
      { apply elem_of_list_to_set, list_elem_of_fmap. by exists c. }
      apply (busy_looked_up _ _ Hcalls) in Hb. cbn in Hb. lia.
  - cbn. by apply submseteq_skip, Hcalls.
Qed.

Lemma get_answerChan_ok b announced offered m n :
  matcher_ok_during b cfg announced offered m -> answer_ok (get_answerChan m n).
Proof.
  intros H. unfold get_answerChan. destruct (answerChans (m_offers m) !! n) as [ch|] eqn:E; [|by intros ? ?].
  by apply (mi_answers _ _ _ _ H n).
Qed.

(** A call uses its channel. *)
Lemma use_chan_ok s l1 c l2 ch :
  machine_ok s -> calls s = l1 ++ c :: l2 -> answer_ok ch ->
  let m := with_answerChan (matcher s) (call_chan c) ch in
  matcher_ok_during (busy s) cfg (announced s) (offered s) m /\
  forall c2, c2 ∈ l1 ++ l2 -> call_ok (offered s) (looked_up s) m c2.
Proof.
  intros (H & _ & Hcalls) Hl Hch m. destruct (proj1 Hcalls c) as [C1 C2 _ _ _ _]; [rewrite Hl; set_solver|]. split.
  - apply matcher_ok_answerChan; [done|done| |done]. intros key p _ _.
    apply elem_of_list_to_set. rewrite Hl, fmap_app, fmap_cons. set_solver.
  - intros c2 Hin. destruct (proj1 Hcalls c2) as [D1 D2 D3 D4 D5 D6]; [rewrite Hl; set_solver|]. split; try done.
    intros Hu Hlk. cbn. rewrite lookup_insert_ne; [by apply D6|]. intros Heq.
    pose proof (shared_lookups _ _ _ _ _ Hcalls Hl Hin (eq_sym Heq)). rewrite Heq in *. lia.
Qed.

(** A call deletes the pending answer. *)
Lemma delete_ok s c :
  machine_ok s -> c ∈ calls s ->
  let m := with_pending (matcher s) (delete (call_key c) (pendingAnswers (matcher s))) in
  matcher_ok_during (busy s) cfg (announced s) (offered s) m /\
  (forall c2, c2 ∈ calls s -> call_ok (offered s) (looked_up s) m c2) /\
  (forall key p, pendingAnswers m !! key = Some p -> answerChan p <> call_chan c).
Proof.
  intros (H & _ & Hcalls) Hc m. split_and!.
  - by apply matcher_ok_expire.
  - intros c2 Hc2. eapply call_ok_undisturbed; [by apply Hcalls|apply expire_undisturbed|done].
  - intros key p Hd Heq. cbn in Hd. apply lookup_delete_Some in Hd as [Hne Hk]. apply Hne. symmetry. by apply (co_key _ _ _ _ (proj1 Hcalls c Hc) key p).
Qed.

(** The calls after one of them has made a step. *)
Lemma put_calls_ok s m l1 c l2 c' :
  pass_ok s -> calls_ok s -> calls s = l1 ++ c :: l2 -> same_offers (matcher s) m ->
  matcher_ok_during (busy s) cfg (announced s) (offered s) m ->
  (forall c2, c2 ∈ l1 ++ l2 -> call_ok (offered s) (looked_up s) m c2) ->
  match c' with
  | Some c' => call_chan c' = call_chan c /\ call_ok (offered s) (looked_up s) m c'
  | None => forall key p, pendingAnswers m !! key = Some p -> answerChan p <> call_chan c
  end ->
  machine_ok (put_calls s m (l1 ++ option_list c' ++ l2)).
Proof.
  intros Hp [_ Hsub] Hl Hs H Hothers Hc'. rewrite Hl, fmap_app, fmap_cons in Hsub.
  split; [|split; [by apply (pass_ok_same s)|split]].
  - apply (matcher_ok_busy (busy s)); [done|]. intros key p Hk. unfold busy. cbn.
    rewrite Hl, !fmap_app, fmap_cons, !elem_of_list_to_set, !elem_of_app, elem_of_cons.
    destruct c' as [c'|]; cbn; [destruct Hc' as [-> _]; rewrite list_elem_of_singleton; tauto|].
    specialize (Hc' key p Hk). tauto.
  - cbn. intros c2. rewrite !elem_of_app. destruct c' as [c'|]; cbn.
    + rewrite list_elem_of_singleton. intros [H2|[->|H2]]; [| |]; [apply Hothers; set_solver|apply Hc'|apply Hothers; set_solver].
    + intros [H2|[[]%elem_of_nil|H2]]; apply Hothers; set_solver.
  - cbn. rewrite !fmap_app. destruct c' as [c'|]; cbn; [by destruct Hc' as [-> _]|].
    etrans; [|exact Hsub]. apply submseteq_app; [done|]. by apply submseteq_cons.
Qed.

Lemma go_on_ok off looked m c :
  call_ok off looked m c ->
  (to_delete (go_on c) = false -> forall key p, pendingAnswers m !! key = Some p -> answerChan p <> call_chan c) ->
  (to_use (go_on c) = true -> to_use c = true) -> call_ok off looked m (go_on c).
Proof.
  intros [H1 H2 H3 H4 H5 H6] Hd Hu. split; try done.
  - intros key p Hdel Hk. by eapply Hd.
  - intros Hgo. by apply H6, Hu.
Qed.

Lemma call_step_ok s l1 c l2 m c' :
  machine_ok s -> calls s = l1 ++ c :: l2 -> call_step (matcher s) c = Ok (m, c') ->
  machine_ok (put_calls s m (l1 ++ option_list c' ++ l2)).
Proof.
  intros Hs Hl Ha. pose proof Hs as (H & Hp & Hcalls).
  assert (c ∈ calls s) as Hc by (rewrite Hl; set_solver).
  assert (forall c2, c2 ∈ l1 ++ l2 -> c2 ∈ calls s) as Hin by (intros c2; rewrite Hl; set_solver).
  pose proof (proj1 Hcalls c Hc) as Hok. destruct (delete_ok s c Hs Hc) as (D1 & D2 & D3).
  assert (forall ch, answer_ok ch -> to_delete c = false ->
    machine_ok (put_calls s (with_answerChan (matcher s) (call_chan c) ch) (l1 ++ l2))) as Hlast.
  { intros ch Hch Hd. destruct (use_chan_ok s l1 c l2 ch Hs Hl Hch) as [U1 U2].
    apply (put_calls_ok s _ l1 c l2 None); [done..|]. intros key p. by apply (co_deleted _ _ _ _ Hok). }
  assert (forall m', answer_ok (get_answerChan m' (call_chan c)) -> forall ch,
    chan_close (get_answerChan m' (call_chan c)) = Ok ch -> answer_ok ch) as Hclose.
  { intros m' Hm' ch. unfold chan_close. destruct (closed _); [done|]. by intros [= <-]. }
  pose proof (get_answerChan_ok _ _ _ _ (call_chan c) H) as Hget.
  unfold call_step in Ha. destruct (call_kind c) as [answer| |] eqn:Ek, (first_done c) eqn:Ef.
  - apply res_bind_ok in Ha as (ch & Hch & [= <- <-]). apply Hlast; [|unfold to_delete; by rewrite Ek, Ef].
    unfold chan_send in Hch. destruct (closed _); [done|]. destruct (buffer _); [done|]. injection Hch as <-.
    intros ann ans [= <- <-]. by apply (co_answer _ _ _ _ Hok).
  - injection Ha as <- <-. apply (put_calls_ok s _ l1 c); try done; [by auto|]. split; [done|].
    apply go_on_ok; [by apply D2|by intros _|]. unfold to_use. cbn. by rewrite Ek.
  - apply res_bind_ok in Ha as (ch & Hch & [= <- <-]). apply Hlast; [by eapply Hclose|unfold to_delete; by rewrite Ek, Ef].
  - injection Ha as <- <-. apply (put_calls_ok s _ l1 c); try done; [by auto|]. split; [done|].
    apply go_on_ok; [by apply D2|by intros _|]. unfold to_use. cbn. by rewrite Ek.
  - injection Ha as <- <-. apply (put_calls_ok s _ l1 c l2 None); try done. by auto.
  - apply res_bind_ok in Ha as (ch & Hch & [= <- <-]).
    destruct (use_chan_ok s l1 c l2 ch Hs Hl) as [U1 U2]; [by eapply Hclose|].
    apply (put_calls_ok s _ l1 c); try done. split; [done|]. destruct Hok. split; try done.
    + unfold to_delete. cbn. by rewrite Ek.
    + unfold to_use. cbn. by rewrite Ek.
Qed.

(** *** The invariant is kept *)

(** A step that leaves the calls alone. *)
Lemma machine_ok_undisturbed s s' :
  machine_ok s -> matcher_ok_during (busy s) cfg (announced s') (offered s') (matcher s') -> pass_ok s' ->
  undisturbed (offered s) (matcher s) (matcher s') -> offered s ⊆ offered s' ->
  calls s' = calls s -> looked_up s' = looked_up s -> machine_ok s'.
Proof.
  intros (_ & _ & Hc) H Hp Hu Hoff E1 E2. split; [by rewrite (busy_same _ _ E1)|]. split; [done|].
  by eapply calls_ok_undisturbed.
Qed.

Lemma put_announcements_ok s e a found :
  machine_ok s -> announced s !! ae_id e = Some e -> take_entry (m_announcements (matcher s)) e = (a, found) ->
  machine_ok (put s (with_announcements (matcher s) a)).
Proof.
  intros Hs He Ht. pose proof Hs as (H & Hp & _). pose proof (matcher_ok_take cfg _ _ _ _ H He) as H'. rewrite Ht in H'.
  eapply machine_ok_undisturbed; [done|done|by apply pass_ok_same|by apply undisturbed_same|done..].
Qed.

Lemma step_ok s s' : machine_ok s -> step s s' -> machine_ok s'.
Proof.
  intros Hs. pose proof Hs as (H & Hp & Hc). destruct 1 as
    [lim allow e e' m Hf Hi Hb|e a found He Ht _|e a key p He Ht Hk Hpa|e o x m He Hb|lim allow e m Hn Hf Hb|e Hn He|e r x m He Hb
    |answer key p Hi Hk Hpa|pid cid key p Hk Hpa|l1 c l2 m c' Hl Ha|key|ac aq ai ps ss oc oq oi d|Hn _|r o rest i m Hps _ Hb|rest i Hps Hend].
  - destruct (Announce_begin_ok _ _ _ _ _ _ _ _ _ H Hf Hi Hb) as (_ & _ & H').
    eapply machine_ok_undisturbed; [done|exact H'| |by eapply Announce_begin_undisturbed|done..].
    apply (pass_ok_same s); [done|]. by eapply Announce_begin_offers.
  - by eapply put_announcements_ok.
  - apply begin_call_ok; [by eapply put_announcements_ok|done|done].
  - destruct (Announce_receive_ok _ _ _ _ _ _ _ _ H He Hb) as [_ H'].
    eapply machine_ok_undisturbed; [done|done| |by eapply Announce_receive_undisturbed|done..].
    apply pass_ok_same; [done|]. by eapply Announce_receive_offers.
  - eapply machine_ok_undisturbed; [done|by eapply Offer_begin_ok|done|by eapply Offer_begin_undisturbed| |done..].
    by apply insert_subseteq.
  - eapply machine_ok_undisturbed; [done|by eapply (removeOfferEntry_ok cfg)| |apply removeOfferEntry_undisturbed|done..].
    intros rest i Hps. cbn in Hps. congruence.
  - destruct (Offer_receive_ok _ _ _ _ _ _ _ _ H He Hb) as [_ H'].
    eapply machine_ok_undisturbed; [done|done| |by eapply Offer_receive_undisturbed|done..].
    apply pass_ok_same; [done|]. by eapply Offer_receive_offers.
  - apply begin_call_ok; [by destruct s|done|]. intros ? [= <-]. done.
  - apply begin_call_ok; [by destruct s|done|done].
  - by eapply call_step_ok.
  - eapply machine_ok_undisturbed; [done|by apply matcher_ok_expire|by apply pass_ok_same|apply expire_undisturbed|done..].
  - eapply machine_ok_undisturbed; [done|by apply matcher_ok_limits|by apply pass_ok_same|by apply undisturbed_same|done..].
  - eapply machine_ok_undisturbed; [done|by apply matcher_ok_signal| |by apply undisturbed_same|done..].
    intros rest i [= <- <-]. split; [apply (oi_nodup _ _ (mi_offers _ _ _ _ H))|done].
  - destruct (Hp _ _ Hps) as [Hnd Hin].
    destruct (match_one_ok cfg _ _ _ r (i + 1) o H (Hin o (list_elem_of_here _ _))) as (m' & Hr & H' & Hkeep & Hu).
    rewrite Hb in Hr. injection Hr as <-. eapply machine_ok_undisturbed; [done|done| |done..].
    intros rest' i' [= <- <-].
    rewrite fmap_cons in Hnd. apply list.NoDup_cons in Hnd as [Hno Hnd]. split; [done|].
    intros x Hx. apply Hkeep; [apply Hin; by right|]. intros Heq. apply Hno. rewrite <- Heq.
    apply list_elem_of_fmap. by exists x.
  - eapply machine_ok_undisturbed; [done|done|by intros ? ?|by apply undisturbed_same|done..].
Qed.

Lemma reachable_ok s : reachable s -> machine_ok s.
Proof.
  intros [l Hr]. pose proof (start_ok l) as H0. revert H0.
  induction Hr as [|s1 s2 s3 Hs _ IH]; [done|]. intros H. apply IH. by eapply step_ok.
Qed.

(** C10: in every state the matcher reaches, through any interleaving of announcements,
    offers, expiries, changes of limits, matching passes and the single operations of
    [Answer], [AnswerError] and aborts on the pending answers and their channels, the
    invariant holds: queues, references, totals, NAT counts and counts by IP agree; queued
    offers have open, empty channels, and so have pending answers, except those that a call
    under way has looked up; a client is in at most one of the offer queue and the pending
    answers, and has at most one pending answer; a call that has deleted its pending answer
    is not followed by another that finds it; and what is in a channel belongs to a proper
    match. *)
Theorem matcher_invariant s : reachable s -> machine_ok s.
Proof. apply reachable_ok. Qed.

Lemma call_step_returns s c :
  machine_ok s -> c ∈ calls s -> lookups (looked_up s) (call_chan c) = 1%nat ->
  exists m c', call_step (matcher s) c = Ok (m, c').
Proof.
  intros (_ & _ & Hcalls) Hc Hl. pose proof (co_chan _ _ _ _ (proj1 Hcalls c Hc)) as Hch.
  unfold call_step, get_answerChan, to_use in *. destruct (call_kind c), (first_done c); try (by eauto);
    rewrite Hch by done; cbn; eauto.
Qed.

Lemma uninterrupted_returns s k key p :
  machine_ok s -> pendingAnswers (matcher s) !! key = Some p -> answerChan p ∉ busy s ->
  forall a, exists m, uninterrupted (with_announcements (matcher s) a) (new_call k key p) = Ok m.
Proof.
  intros (H & _) Hk Hb a. pose proof (pending_chan cfg _ _ _ _ _ H Hk Hb) as Hch.
  unfold uninterrupted, call_step, get_answerChan, call_chan in *.
  destruct k; cbn in *; rewrite Hch; cbn; eauto.
Qed.

(** C28: no channel operation of the matcher blocks or panics unless two calls have looked
    up the same pending answer.  In every reachable state, whatever calls are under way:
    the matching worker takes the next offer of its pass; a call under way that is the only
    one to have looked up its pending answer makes its next step; and when no call under
    way has looked up the pending answer for their IDs, an [Answer], an [AnswerError] and
    an [Announce] that gives up return, if nothing comes in between. *)
Theorem matcher_never_blocks s :
  reachable s ->
  (forall r o rest i, pass s = Some (o :: rest, i) -> exists m, match_one cfg r (matcher s) (i + 1) o = Ok m) /\
  (forall c, c ∈ calls s -> lookups (looked_up s) (call_chan c) = 1%nat ->
     exists m c', call_step (matcher s) c = Ok (m, c')) /\
  (forall proxyID connectionID,
     (forall p, pendingAnswers (matcher s) !! pendingAnswerKey proxyID connectionID = Some p -> answerChan p ∉ busy s) ->
     (forall answer, answer_ProxyID answer = proxyID -> answer_ConnectionID answer = connectionID ->
        Answer (matcher s) answer = Err "no pending answer" \/ exists m, Answer (matcher s) answer = Ok m) /\
     (exists m, AnswerError (matcher s) proxyID connectionID = Ok m) /\
     (forall e, ProxyID (ae_announcement e) = proxyID -> ConnectionID (ae_announcement e) = connectionID ->
        exists r, Announce_abort (matcher s) e = Ok r)).
Proof.
  intros Hs%reachable_ok. pose proof Hs as (H & Hp & _). split_and!.
  - intros r o rest i Hps. destruct (Hp _ _ Hps) as [_ Hin].
    destruct (match_one_ok cfg _ _ _ r (i + 1) o H (Hin o (list_elem_of_here _ _))) as (m' & ? & _). eauto.
  - intros c Hc Hl. by apply call_step_returns.
  - intros proxyID connectionID Hfree.
    assert (forall k p a, pendingAnswers (matcher s) !! pendingAnswerKey proxyID connectionID = Some p ->
      exists m, uninterrupted (with_announcements (matcher s) a) (new_call k (pendingAnswerKey proxyID connectionID) p) = Ok m) as Hu
      by (intros k p a Hk; apply uninterrupted_returns; eauto).
    assert (with_announcements (matcher s) (m_announcements (matcher s)) = matcher s) as Hid by (by destruct (matcher s)).
    split_and!.
    + intros answer <- <-. rewrite Answer_uninterrupted. cbn zeta.
      destruct (pendingAnswers (matcher s) !! _) as [p|] eqn:Hk; [right|by left].
      specialize (Hu (Answering answer) p (m_announcements (matcher s)) eq_refl). by rewrite Hid in Hu.
    + rewrite AnswerError_uninterrupted. cbn zeta.
      destruct (pendingAnswers (matcher s) !! _) as [p|] eqn:Hk; [|by eauto].
      specialize (Hu Failing p (m_announcements (matcher s)) eq_refl). by rewrite Hid in Hu.
    + intros e <- <-. unfold Announce_abort. rewrite abort_uninterrupted.
      destruct (take_entry _ _) as [a [|]]; cbn zeta; [by eexists|].
      destruct (pendingAnswers (matcher s) !! _) as [p|] eqn:Hk; [|by eexists].
      destruct (Hu Aborting p a eq_refl) as [m ->]. by eexists.
Qed.

(** C27: what a proxy receives is always an offer, with its metrics, from a client it may
    be paired with: they share a compartment, can negotiate a protocol version, and in
    common compartments are not in the same country and ASN.  What a client receives is
    that there is no answer, that its offer was dropped, or an answer from the proxy of
    the announcement it comes with: the check of the connection ID does not fail. *)
Theorem deliveries_sound s :
  reachable s ->
  (forall e o x m, announced s !! ae_id e = Some e -> Announce_receive (matcher s) e = Some (o, x, m) ->
     exists offer, o = Some offer /\ paired cfg offer (ae_properties e) /\ is_Some x) /\
  (forall e r x m, offered s !! oe_id e = Some e -> Offer_receive (matcher s) e = Some (r, x, m) ->
     r = Err "no answer" \/ r = Err "offer dropped" \/
     exists answer announcement, r = Ok (answer, announcement) /\
       answer_ProxyID answer = ProxyID announcement /\ answer_ConnectionID answer = ConnectionID announcement).
Proof.
  intros [H _]%reachable_ok. split.
  - intros e o x m He Hr. by apply (Announce_receive_ok _ _ _ _ _ _ _ _ H He Hr).
  - intros e r x m He Hr. by apply (Offer_receive_ok _ _ _ _ _ _ _ _ H He Hr).
Qed.

(** C40: [Answer] and [AnswerError] look the pending answer up and delete it in two
    steps.  When both are called for one announcement at the same time, and each has
    found the pending answer, [AnswerError] closes the channel that [Answer] then sends
    on, which panics; two errors close it twice, and of two answers the second blocks.
    From every reachable state in which an answer is pending that no call is at work on,
    the system has a run to such a panic. *)
Theorem concurrent_answers_panic s key p answer :
  reachable s -> pendingAnswers (matcher s) !! key = Some p -> answerChan p ∉ busy s ->
  (exists m1 m2, answerError_deliver (matcher s) key p = Ok m1 /\
    answer_deliver m1 key p answer = Panic "send on closed channel" /\
    answerError_deliver m1 key p = Panic "close of closed channel" /\
    answer_deliver (matcher s) key p answer = Ok m2 /\
    answer_deliver m2 key p answer = Err "send blocks") /\
  (ids_ok (answer_ProxyID answer) (answer_ConnectionID answer) ->
   key = pendingAnswerKey (answer_ProxyID answer) (answer_ConnectionID answer) ->
   exists s' c, rtc step s s' /\ c ∈ calls s' /\ call_step (matcher s') c = Panic "send on closed channel").
Proof.
  intros (H & _)%reachable_ok Hk Hb. pose proof (pending_chan cfg _ _ _ _ _ H Hk Hb) as Hch. split.
  - unfold answerError_deliver, answer_deliver.
    change (get_answerChan (with_pending (matcher s) ?P) ?n) with (get_answerChan (matcher s) n).
    rewrite Hch. cbn. eexists _, _. split_and!; [reflexivity| | |reflexivity|];
      unfold get_answerChan; cbn; by rewrite lookup_insert_eq.
  - intros Hi Hkey. set (answering := new_call (Answering answer) key p). set (failing := new_call Failing key p).
    set (s1 := begin_call s (matcher s) answering). set (s2 := begin_call s1 (matcher s) failing).
    set (m3 := with_pending (matcher s) (delete key (pendingAnswers (matcher s)))).
    set (s3 := put_calls s2 m3 (go_on failing :: answering :: calls s)).
    set (m4 := with_answerChan m3 (answerChan p) {| buffer := None; closed := true |}).
    set (s4 := put_calls s3 m4 (answering :: calls s)).
    set (s5 := put_calls s4 (with_pending m4 (delete key (pendingAnswers m4))) (go_on answering :: calls s)).
    exists s5, (go_on answering). split; [|split; [set_solver|]].
    + eapply rtc_l; [by apply (step_answer s answer key p)|].
      eapply rtc_l; [by apply (step_answer_error s1 (answer_ProxyID answer) (answer_ConnectionID answer) key p)|].
      eapply rtc_l; [by apply (step_call s2 [] failing (answering :: calls s) m3 (Some (go_on failing)))|].
      eapply rtc_l; [apply (step_call s3 [] (go_on failing) (answering :: calls s) m4 None); [done|]|].
      { unfold call_step, get_answerChan in *. cbn. unfold call_chan. cbn. by rewrite Hch. }
      apply rtc_once. by apply (step_call s4 [] answering (calls s) _ (Some (go_on answering))).
    + unfold call_step, get_answerChan. cbn. unfold call_chan. cbn. by rewrite lookup_insert_eq.
Qed.
End system.

(** ** A whole matching pass *)

Lemma match_offers_ok cfg readings yield offered rest :
  (forall i announced m, matcher_ok cfg announced offered m ->
     exists announced', matcher_ok cfg announced' offered (yield i m) /\ same_offers m (yield i m)) ->
  forall announced m i, matcher_ok cfg announced offered m ->
  NoDup (oe_id <$> rest) -> (forall o, o ∈ rest -> o ∈ offerQueue (m_offers m)) ->
  exists announced' m', match_offers cfg readings yield m i rest = Ok m' /\ matcher_ok cfg announced' offered m'.
Proof.
  intros Hy. induction rest as [|o rest IH]; intros announced m i H Hnd Hin; [by exists announced, m|].
  cbn [match_offers]. destruct (0 <? _); [|by exists announced, m].
  rewrite fmap_cons in Hnd. apply list.NoDup_cons in Hnd as [Hno Hnd].
  set (m1 := if _ && _ then yield (i + 1) m else m).
  assert (exists announced1, matcher_ok cfg announced1 offered m1 /\ same_offers m m1) as (announced1 & H1 & Hs).
  { unfold m1. case_match; [by eapply Hy|by exists announced]. }
  destruct (match_one_ok cfg _ _ m1 (readings (i + 1)) (i + 1) o H1) as (m2 & -> & H2 & Hkeep).
  { rewrite Hs. apply Hin. left. }
  cbn [mbind res_mbind]. apply (IH announced1); [done|done|].
  intros x Hx. apply Hkeep; [rewrite Hs; apply Hin; by right|].
  intros Heq. apply Hno. rewrite <- Heq. apply list_elem_of_fmap. by exists x.
Qed.

(** C37: a matching pass always completes, whatever the clocks answer and whatever is done
    to the announcement queue when its lock is given up, as long as that keeps the
    invariant and the offers: it never deadlocks with the queues locked, and the
    invariant holds when it ends. *)
Theorem matchAllOffers_completes cfg announced offered m readings yield :
  matcher_ok cfg announced offered m ->
  (forall i announced m, matcher_ok cfg announced offered m ->
     exists announced', matcher_ok cfg announced' offered (yield i m) /\ same_offers m (yield i m)) ->
  exists announced' m', matchAllOffers cfg readings yield m = Ok m' /\ matcher_ok cfg announced' offered m'.
Proof.
  intros H Hy. eapply match_offers_ok; [done|done|apply (oi_nodup _ _ (mi_offers _ _ _ _ H))|done].
Qed.

(** ** Queue limits *)

Lemma applyIPLimits_count m allow isAnnouncement isExempt ip n :
  applyIPLimits m allow isAnnouncement isExempt ip = Ok tt ->
  ip_counts (if isAnnouncement then announcementQueueEntryCountByIP (m_announcements m)
             else offerQueueEntryCountByIP (m_offers m)) n ->
  let limit := if isAnnouncement
    then (if isExempt then (if announcementLimitEntryCount (m_limits m) =? 0 then 0 else matcherMaxLimitEntryCount)
          else announcementLimitEntryCount (m_limits m))
    else offerLimitEntryCount (m_limits m) in
  0 < limit -> Z.of_nat (n ip) < limit.
Proof.
  unfold applyIPLimits. destruct isAnnouncement; intros ([] & _ & Hc)%res_bind_ok Hn; cbn zeta;
    rewrite Hn in Hc; intros Hl;
    (rewrite (proj2 (Z.ltb_lt _ _) Hl) in Hc; cbn [andb] in Hc);
    (destruct (decide (n ip = 0%nat)) as [->|Hz]; [lia|]);
    (destruct (_ <=? Z.of_nat (n ip)) eqn:Hle in Hc; [done|by apply Z.leb_gt]).
Qed.

(** The limits hold of what is queued.  When an announcement or an offer is accepted
    and its entry count limit is enabled, then the number of entries of its IP that are
    queued, the new one included, is at most the limit, or the sanity limit for an exempt
    proxy; and a queue never holds more than its maximum size. *)
Theorem queue_limits cfg announced offered m :
  matcher_ok cfg announced offered m ->
  (forall allow e e' m', addAnnouncementEntry m allow e = Ok (e', m') -> announced !! ae_id e = None ->
     let limit := if is_exempt m e
       then (if announcementLimitEntryCount (m_limits m) =? 0 then 0 else matcherMaxLimitEntryCount)
       else announcementLimitEntryCount (m_limits m) in
     (0 < limit -> Z.of_nat (queued_by_ip (<[ae_id e := e']> announced)
        (announcementQueue (m_announcements m')) (ae_limitIP e')) <= limit) /\
     getLen (announcementQueue (m_announcements m')) <= matcherAnnouncementQueueMaxSize) /\
  (forall allow e m', addOfferEntry m allow e = Ok m' ->
     let limit := offerLimitEntryCount (m_limits m) in
     (0 < limit -> Z.of_nat (length (filter (fun x => oe_limitIP x = oe_limitIP e) (offerQueue (m_offers m')))) <= limit) /\
     Z.of_nat (length (offerQueue (m_offers m'))) <= matcherOfferQueueMaxSize).
Proof.
  intros H. split.
  - intros allow e e' m'. unfold addAnnouncementEntry.
    destruct (matcherAnnouncementQueueMaxSize <=? _) eqn:Hmax; [done|].
    set (e0 := if is_exempt m e then _ else e).
    assert (ae_id e0 = ae_id e) as Hid by (unfold e0; by destruct (is_exempt m e)).
    destruct (applyIPLimits _ _ _ _ _) as [[]|?|?|] eqn:Hl; [|done..]. cbn [mbind res_mbind].
    case_decide as Hr; [done|]. apply eq_None_not_Some in Hr.
    destruct (enqueue _ e0) as [q|?|?|] eqn:Hq; [|done..]. cbn. intros [= <- <-] Hf. cbn. rewrite <- Hid in *. split.
    + intros Hpos.
      eapply (applyIPLimits_count _ _ _ _ _ _ Hl) in Hpos; [|apply (ai_counts _ _ (mi_announcements _ _ _ _ H))].
      pose proof Hq as (kid & Hk & _)%enqueue_inv.
      rewrite (queued_by_ip_enqueue _ _ _ _ _ _ Hf Hq Hk Hr), decide_True by done. lia.
    + apply enqueue_inv in Hq as (kid & _ & ->). unfold getLen in *. cbn. lia.
  - intros allow e m'. unfold addOfferEntry. destruct (matcherOfferQueueMaxSize <=? _) eqn:Hmax; [done|].
    destruct (applyIPLimits _ _ _ _ _) as [[]|?|?|] eqn:Hl; [|done..]. cbn [mbind res_mbind].
    case_decide; [done|]. intros [= <-]. cbn. rewrite filter_app, filter_cons, decide_True, !length_app by done. cbn. split.
    + intros Hpos.
      eapply (applyIPLimits_count _ _ _ _ _ _ Hl) in Hpos; [|apply (oi_counts _ _ (mi_offers _ _ _ _ H))]. cbn in Hpos. lia.
    + lia.
Qed.

(** ** An example run *)

Definition ex_properties (country asn : string) (natType : Z) : MatchProperties := {|
  IsPriority := false; ProtocolVersion := 2; CommonCompartmentIDs := [[x0a]]; PersonalCompartmentIDs := [];
  GeoIP := {| Country := country; City := ""; ISP := ""; ASN := asn; ASO := "" |};
  NetworkType := 1; NATType := natType; PortMappingTypes := [] |}.

Definition ex_announcement : announcementEntry := {|
  ae_id := 1; ae_deadline := Some 100; ae_limitIP := "192.0.2.1";
  ae_announcement := {| Properties := ex_properties "CA" "1" 5; ProxyID := replicate 32 x01;
    SponsorID := ""; ConnectionID := replicate 32 Byte.x02 |} |}.

Definition ex_offer : offerEntry := {|
  oe_id := 7; oe_deadline := Some 100; oe_limitIP := "192.0.2.2";
  oe_offer := {| offer_Properties := ex_properties "FR" "2" 15; ClientOfferSDP := "sdp"; UseMediaStreams := false;
    NetworkProtocol := 0; DestinationAddress := ""; DestinationServerID := "" |} |}.

Definition ex_cfg : matchConfig := {|
  AllowCommonASNMatching := false; AllowMatch := fun _ _ => true; HasQuality := fun _ _ _ => false |}.
Definition ex_reading : reading :=
  {| offerDone := false; now := 0; announcementDone := fun _ _ => false; sinceStart := 0 |}.
Definition ex_limits : limits := make_limits 5 0 0 [] [] 5 0 0 0.
Definition ex_answer : MatchAnswer := {|
  ProxyIP := "192.0.2.1"; answer_ProxyID := replicate 32 x01; answer_ConnectionID := replicate 32 Byte.x02;
  ProxyAnswerSDP := "answer" |}.
Definition ex_key : bytes := pendingAnswerKey (replicate 32 x01) (replicate 32 Byte.x02).

(** The announcement is queued, then the offer, then they are matched. *)
Definition ex_announced : machine := {|
  matcher := match Announce_begin (matcher (start ex_limits)) None true ex_announcement with
             | Ok (_, m) => m | _ => matcher (start ex_limits) end;
  announced := {[ 1%nat := ex_announcement ]}; offered := ∅; pass := None;
  calls := []; looked_up := [] |}.
Definition ex_offered : machine := {|
  matcher := match Offer_begin (matcher ex_announced) None true ex_offer with
             | Ok m => m | _ => matcher ex_announced end;
  announced := {[ 1%nat := ex_announcement ]}; offered := {[ 7%nat := ex_offer ]}; pass := None;
  calls := []; looked_up := [] |}.
Definition ex_pass : machine := {|
  matcher := with_signal (matcher ex_offered) false;
  announced := {[ 1%nat := ex_announcement ]}; offered := {[ 7%nat := ex_offer ]}; pass := Some ([ex_offer], -1);
  calls := []; looked_up := [] |}.
Definition ex_matched : machine := {|
  matcher := match match_one ex_cfg ex_reading (matcher ex_pass) 0 ex_offer with
             | Ok m => m | _ => matcher ex_pass end;
  announced := {[ 1%nat := ex_announcement ]}; offered := {[ 7%nat := ex_offer ]}; pass := Some ([], 0);
  calls := []; looked_up := [] |}.

Lemma ex_announced_reachable : reachable ex_cfg ex_announced.
Proof.
  exists ex_limits. apply rtc_once.
  apply (step_announce _ (start ex_limits) None true ex_announcement ex_announcement); [done|done|].
  vm_compute. reflexivity.
Qed.

Lemma ex_pass_reachable : reachable ex_cfg ex_pass.
Proof.
  destruct ex_announced_reachable as [l Hl]. exists l. eapply rtc_r; [eapply rtc_r; [exact Hl|]|].
  - apply (step_offer _ ex_announced None true ex_offer (matcher ex_offered)); [done|done|].
    vm_compute. reflexivity.
  - apply (step_pass_begin _ ex_offered); [done|]. vm_compute. reflexivity.
Qed.

Lemma ex_matched_reachable : reachable ex_cfg ex_matched.
Proof.
  destruct ex_pass_reachable as [l Hl]. exists l. eapply rtc_r; [exact Hl|].
  apply (step_pass_offer _ ex_pass ex_reading ex_offer [] (-1)); [done|vm_compute; done|].
  vm_compute. reflexivity.
Qed.

(** An answer has found the pending answer of the match. *)
Definition ex_call : call := new_call (Answering ex_answer) ex_key
  {| pa_announcement := ae_announcement ex_announcement; answerChan := 7 |}.
Definition ex_answering : machine := begin_call ex_matched (matcher ex_matched) ex_call.

Lemma ex_answering_reachable : reachable ex_cfg ex_answering.
Proof.
  destruct ex_matched_reachable as [l Hl]. exists l. eapply rtc_r; [exact Hl|].
  apply (step_answer _ ex_matched ex_answer ex_key); [done|done|]. vm_compute. reflexivity.
Qed.

Lemma matcher_invariant_witness : reachable ex_cfg ex_answering /\ machine_ok ex_cfg ex_answering.
Proof. split; [exact ex_answering_reachable|]. apply (matcher_invariant ex_cfg ex_answering). exact ex_answering_reachable. Defined.

Lemma matcher_never_blocks_witness :
  (exists m, match_one ex_cfg ex_reading (matcher ex_pass) 0 ex_offer = Ok m) /\
  (exists m c', call_step (matcher ex_answering) ex_call = Ok (m, c')) /\
  (exists m, AnswerError (matcher ex_matched) (replicate 32 x01) (replicate 32 Byte.x02) = Ok m).
Proof.
  split; [|split].
  - exact (proj1 (matcher_never_blocks ex_cfg ex_pass ex_pass_reachable) ex_reading ex_offer [] (-1) eq_refl).
  - apply (proj1 (proj2 (matcher_never_blocks ex_cfg ex_answering ex_answering_reachable)) ex_call).
    + left.
    + vm_compute. reflexivity.
  - apply (proj2 (proj2 (matcher_never_blocks ex_cfg ex_matched ex_matched_reachable)) (replicate 32 x01) (replicate 32 Byte.x02)).
    intros p _. unfold busy. cbn. apply not_elem_of_empty.
Defined.

(** The matched proxy receives the offer. *)
Lemma deliveries_sound_witness :
  exists offer, paired ex_cfg offer (ae_properties ex_announcement).
Proof.
  assert (exists x m, Announce_receive (matcher ex_matched) ex_announcement = Some (Some (oe_offer ex_offer), x, m))
    as (x & m & H) by (vm_compute; eauto).
  destruct (proj1 (deliveries_sound ex_cfg ex_matched ex_matched_reachable) ex_announcement _ _ _ eq_refl H)
    as (offer & _ & Hp & _).
  exists offer. exact Hp.
Defined.

Lemma concurrent_answers_panic_witness :
  exists p m1, pendingAnswers (matcher ex_matched) !! ex_key = Some p /\
    answer_deliver m1 ex_key p ex_answer = Panic "send on closed channel" /\
    exists s' c, rtc (step ex_cfg) ex_matched s' /\ c ∈ calls s' /\
      call_step (matcher s') c = Panic "send on closed channel".
Proof.
  assert (pendingAnswers (matcher ex_matched) !! ex_key =
          Some {| pa_announcement := ae_announcement ex_announcement; answerChan := 7 |}) as Hk
    by (vm_compute; reflexivity).
  destruct (concurrent_answers_panic ex_cfg ex_matched ex_key _ ex_answer ex_matched_reachable Hk)
    as [(m1 & m2 & _ & H & _) Hrun].
  - unfold busy. cbn. apply not_elem_of_empty.
  - eexists _, m1. split; [exact Hk|]. split; [exact H|]. apply Hrun; [done|reflexivity].
Defined.

Lemma matchAllOffers_completes_witness :
  exists m, matchAllOffers ex_cfg (fun _ => ex_reading) (fun _ m => m) (matcher ex_pass) = Ok m.
Proof.
  destruct (matchAllOffers_completes ex_cfg (announced ex_pass) (offered ex_pass) (matcher ex_pass)
    (fun _ => ex_reading) (fun _ m => m)) as (a & m & H & _).
  - exact (proj1 (reachable_ok ex_cfg ex_pass ex_pass_reachable)).
  - intros i a m H. exists a. split; [exact H|reflexivity].
  - exists m. exact H.
Defined.

Lemma queue_limits_witness :
  exists m, addOfferEntry (matcher ex_announced) true ex_offer = Ok m /\
    Z.of_nat (length (offerQueue (m_offers m))) <= matcherOfferQueueMaxSize.
Proof.
  assert (exists m, addOfferEntry (matcher ex_announced) true ex_offer = Ok m) as [m H] by (vm_compute; eauto).
  exists m. split; [exact H|].
  exact (proj2 (proj2 (queue_limits ex_cfg (announced ex_announced) (offered ex_announced) (matcher ex_announced)
    (proj1 (reachable_ok ex_cfg ex_announced ex_announced_reachable))) true ex_offer m H)).
Defined.

Lemma matchOffer_sound_witness :
  exists r, matchOffer ex_cfg (fun _ _ => false) (matcher ex_pass) (oe_offer ex_offer) = Ok r.
Proof.
  destruct (matchOffer_sound (announced ex_pass) ex_cfg (fun _ _ => false) (matcher ex_pass) (oe_offer ex_offer))
    as (a & r & i & H & _).
  - exact (mi_announcements _ _ _ _ (proj1 (reachable_ok ex_cfg ex_pass ex_pass_reachable))).
  - exists (with_announcements (matcher ex_pass) a, r, i). exact H.
Defined.

Lemma matchOffer_best_witness :
  exists m b, matchOffer ex_cfg (fun _ _ => false) (matcher ex_pass) (oe_offer ex_offer) =
    Ok (m, bestMatch b, bestMatchIndex b).
Proof.
  destruct (matchOffer_best (announced ex_pass) ex_cfg (fun _ _ => false) (matcher ex_pass) (oe_offer ex_offer)
    true [[x0a]]) as (m & b & H & _).
  - exact (mi_announcements _ _ _ _ (proj1 (reachable_ok ex_cfg ex_pass ex_pass_reachable))).
  - reflexivity.
  - discriminate.
  - apply NoDup_singleton.
  - exists m, b. exact H.
Defined.

Lemma existsPreferredNATMatch_correct_witness :
  exists e, IsPreferredNATMatch (ex_properties "FR" "2" 15) (ae_properties e) = true.
Proof.
  pose proof (existsPreferredNATMatch_correct example_queue (ex_properties "FR" "2" 15) true [[x0a]] example_queue_wf) as H.
  assert (getNATCounts example_queue (startMatching example_queue true [[x0a]]) = (1, 0, 1)) as E by (vm_compute; reflexivity).
  rewrite E in H. destruct (proj1 H eq_refl) as (e & pr & _ & He). exists e. exact He.
Defined.
