(* ===== verification/MeekBuffer.v ===== *)
(** * The cached responses of the meek server

    Models src/psiphon/server/meekBuffer.go: the ring of buffers in which the meek
    server keeps the latest payload of a response, so that it can be sent again from the
    position a client reached, and the pool from which the ring borrows buffers.

    The sizes and indices are never negative and are natural numbers; a position, which
    a client supplies, is an integer.  The writer of a copy is what it has been given and
    how much more it takes before it fails.  The clients of the server, which share one pool,
    are a system of steps. *)

From Stdlib Require Import ZArith Lia Strings.Byte.
From stdpp Require Import base list strings relations.
From S2P Require Import Prelude.
#[local] Open Scope nat_scope.

(** ** The pool *)

(** The channel [buffers], with its capacity; an empty slice is a buffer not yet
    allocated. *)
Record CachedResponseBufferPool := {
  bufferSize : nat;
  poolBuffers : list bytes;
  poolCapacity : nat;
  limit : nat
}.

Definition NewCachedResponseBufferPool (size bufferCount lim : nat) : CachedResponseBufferPool :=
  {| bufferSize := size; poolBuffers := replicate bufferCount []; poolCapacity := bufferCount; limit := lim |}.

Definition with_buffers (pool : CachedResponseBufferPool) (l : list bytes) : CachedResponseBufferPool :=
  {| bufferSize := bufferSize pool; poolBuffers := l; poolCapacity := poolCapacity pool; limit := limit pool |}.

Definition pool_Get (pool : CachedResponseBufferPool) : option bytes * CachedResponseBufferPool :=
  match poolBuffers pool with
  | [] => (None, pool)
  | buffer :: l =>
      (Some (if decide (length buffer = 0) then replicate (bufferSize pool) x00 else buffer), with_buffers pool l)
  end.

(** [Err] is a send that blocks. *)
Definition pool_Put (pool : CachedResponseBufferPool) (buffer : bytes) : res CachedResponseBufferPool :=
  if decide (length (poolBuffers pool) < poolCapacity pool) then Ok (with_buffers pool (poolBuffers pool ++ [buffer]))
  else Err "send blocks".

(** ** The response *)

Record CachedResponse := {
  buffers : list bytes;
  readPosition : nat;
  readAvailable : nat;
  writeIndex : nat;
  writeBufferIndex : nat;
  overwriting : bool
}.

Definition NewCachedResponse (size : nat) : CachedResponse :=
  {| buffers := [replicate size x00]; readPosition := 0; readAvailable := 0; writeIndex := 0;
     writeBufferIndex := 0; overwriting := false |}.

Fixpoint put_all (pool : CachedResponseBufferPool) (l : list bytes) : res CachedResponseBufferPool :=
  match l with
  | [] => Ok pool
  | buffer :: l => pool ← pool_Put pool buffer; put_all pool l
  end.

(** What is left of the response once the borrowed buffers are released. *)
Definition cleared (r : CachedResponse) : res CachedResponse :=
  if decide (length (buffers r) < 1) then Panic "slice bounds out of range"
  else Ok {| buffers := take 1 (buffers r); readPosition := 0; readAvailable := 0; writeIndex := 0;
             writeBufferIndex := 0; overwriting := false |}.

Definition Reset (r : CachedResponse) (pool : CachedResponseBufferPool)
  : res (CachedResponse * CachedResponseBufferPool) :=
  pool ← put_all pool (drop 1 (buffers r));
  r ← cleared r;
  Ok (r, pool).

Definition Available (r : CachedResponse) : nat := readAvailable r.

Definition HasPosition (r : CachedResponse) (position : Z) : bool :=
  if decide (readAvailable r = 0) then false
  else
    let start := Z.of_nat (readPosition r) in
    let fin := (Z.of_nat (readPosition r) + Z.of_nat (readAvailable r))%Z in
    (start <=? position)%Z && (position <=? fin)%Z.

(** *** Write *)

(** The bytes [c] copied into [b] from the index [i]. *)
Definition splice (b : bytes) (i : nat) (c : bytes) : bytes := take i b ++ c ++ drop (i + length c) b.

(** The part of the loop that copies [c] into the current buffer [b]. *)
Definition write_chunk (r : CachedResponse) (b c : bytes) : CachedResponse := {|
  buffers := <[writeBufferIndex r := splice b (writeIndex r) c]> (buffers r);
  readPosition := if overwriting r then readPosition r + length c else readPosition r;
  readAvailable := if overwriting r then readAvailable r else readAvailable r + length c;
  writeIndex := writeIndex r + length c;
  writeBufferIndex := writeBufferIndex r;
  overwriting := overwriting r |}.

(** An extended buffer is borrowed at the end of the last buffer. *)
Definition extend (r : CachedResponse) (pool : CachedResponseBufferPool) : CachedResponse * CachedResponseBufferPool :=
  if bool_decide (writeBufferIndex r = length (buffers r) - 1) && negb (overwriting r) then
    let extendedBufferCount := length (buffers r) - 1 in
    if decide (extendedBufferCount < limit pool) then
      match pool_Get pool with
      | (Some extendedBuffer, pool) =>
          ({| buffers := buffers r ++ [extendedBuffer]; readPosition := readPosition r;
              readAvailable := readAvailable r; writeIndex := writeIndex r;
              writeBufferIndex := writeBufferIndex r; overwriting := overwriting r |}, pool)
      | (None, pool) => (r, pool)
      end
    else (r, pool)
  else (r, pool).

(** The next buffer, which may wrap around. *)
Definition next_buffer (r : CachedResponse) : CachedResponse :=
  let next := writeBufferIndex r + 1 in
  let wrap := bool_decide (length (buffers r) <= next) in
  {| buffers := buffers r; readPosition := readPosition r; readAvailable := readAvailable r;
     writeIndex := 0; writeBufferIndex := if wrap then 0 else next;
     overwriting := if wrap then true else overwriting r |}.

(** A turn of the loop, with the data left to write before and after it. *)
Definition write_turn (data : bytes) (r : CachedResponse) (pool : CachedResponseBufferPool)
  : res (bytes * CachedResponse * CachedResponseBufferPool) :=
  match buffers r !! writeBufferIndex r with
  | None => Panic "index out of range"
  | Some buffer =>
      let canWriteLen := length buffer - writeIndex r in
      let needWriteLen := length data in
      let writeLen := min canWriteLen needWriteLen in
      let r := if decide (0 < writeLen) then write_chunk r buffer (take writeLen data) else r in
      let '(r, pool) :=
        if decide (canWriteLen < needWriteLen) then
          let '(r, pool) := extend r pool in (next_buffer r, pool)
        else (r, pool) in
      Ok (drop writeLen data, r, pool)
  end.

Fixpoint write_loop (fuel : nat) (data : bytes) (r : CachedResponse) (pool : CachedResponseBufferPool)
  : res (CachedResponse * CachedResponseBufferPool) :=
  match fuel with
  | O => NoFuel
  | S fuel =>
      if decide (data = []) then Ok (r, pool)
      else '(data, r, pool) ← write_turn data r pool; write_loop fuel data r pool
  end.

(** Every byte takes at most two turns: one to leave a full buffer, one to write. *)
Definition write_fuel (data : bytes) : nat := 2 * length data + 2.

Definition Write (r : CachedResponse) (pool : CachedResponseBufferPool) (data : bytes)
  : res (nat * CachedResponse * CachedResponseBufferPool) :=
  '(r, pool) ← write_loop (write_fuel data) data r pool;
  Ok (length data, r, pool).

(** *** CopyFromPosition *)

(** [io.Writer]: what it was given; [room] is how much it takes before it fails. *)
Record writer := { out : bytes; room : option nat }.

Definition writer_Write (w : writer) (b : bytes) : nat * option string * writer :=
  match room w with
  | None => (length b, None, {| out := out w ++ b; room := None |})
  | Some k =>
      if decide (length b <= k) then (length b, None, {| out := out w ++ b; room := Some (k - length b) |})
      else (k, Some "write failed"%string, {| out := out w ++ take k b; room := Some 0 |})
  end.

Definition slice (b : bytes) (i n : nat) : bytes := take n (drop i b).

Fixpoint copy_loop (fuel : nat) (bs : list bytes) (index bufferIndex skip available n : nat) (w : writer)
  : res (nat * option string * writer) :=
  match fuel with
  | O => NoFuel
  | S fuel =>
      if decide (available = 0) then Ok (n, None, w)
      else
        match bs !! bufferIndex with
        | None => Panic "index out of range"
        | Some buffer =>
            let toCopy := min (length buffer - index) available in
            let available := available - toCopy in
            let '(index, toCopy, skip) :=
              if decide (0 < skip) then
                if decide (skip <= toCopy) then (index + skip, toCopy - skip, 0)
                else (index, toCopy, skip - toCopy)
              else (index, toCopy, skip) in
            let next := (bufferIndex + 1) `mod` length bs in
            if decide (skip = 0) then
              let '(written, err, w) := writer_Write w (slice buffer index toCopy) in
              match err with
              | Some _ => Ok (n + written, err, w)
              | None => copy_loop fuel bs 0 next skip available (n + written) w
              end
            else copy_loop fuel bs 0 next skip available n w
        end
  end.

Definition CopyFromPosition (r : CachedResponse) (position : Z) (w : writer)
  : res (nat * option string * writer) :=
  if (0 <? Z.of_nat (readAvailable r))%Z && (position <? Z.of_nat (readPosition r))%Z
  then Ok (0, Some "position unavailable"%string, w)
  else if bool_decide (position = Z.of_nat (readPosition r) + Z.of_nat (readAvailable r))%Z then Ok (0, None, w)
  else
    '(index, bufferIndex) ←
      (if overwriting r then
         match buffers r !! writeBufferIndex r with
         | None => Panic "index out of range"
         | Some buffer =>
             if decide (length buffer <= writeIndex r) then Ok (0, (writeBufferIndex r + 1) `mod` length (buffers r))
             else Ok (writeIndex r, writeBufferIndex r)
         end
       else Ok (0, 0));
    copy_loop (S (readAvailable r)) (buffers r) index bufferIndex
      (Z.to_nat (position - Z.of_nat (readPosition r))) (readAvailable r) 0 w.

(** ** What a response holds *)

Definition flat (r : CachedResponse) : bytes := concat (buffers r).

(** The number of bytes before the index [i] of the buffer [k]. *)
Definition offset (bs : list bytes) (k i : nat) : nat := length (concat (take k bs)) + i.
Definition write_offset (r : CachedResponse) : nat := offset (buffers r) (writeBufferIndex r) (writeIndex r).

(** The response has been given the data [D], and holds its end, from [readPosition] on:
    from the start of the buffers, or, once they have wrapped around, in the order that
    starts where the next byte is written. *)
Record holds (r : CachedResponse) (D : bytes) : Prop := {
  h_buffer : exists b, buffers r !! writeBufferIndex r = Some b /\ writeIndex r <= length b;
  h_sizes : Forall (fun b => 0 < length b) (buffers r);
  h_length : readPosition r + readAvailable r = length D;
  h_data : if overwriting r
           then readAvailable r = length (flat r) /\
                drop (readPosition r) D = drop (write_offset r) (flat r) ++ take (write_offset r) (flat r)
           else readPosition r = 0 /\ take (write_offset r) (flat r) = D
}.

(** A buffer in the concatenation. *)
Lemma concat_split (bs : list bytes) k b :
  bs !! k = Some b -> concat bs = concat (take k bs) ++ b ++ concat (drop (S k) bs).
Proof.
  intros H. rewrite <- (take_drop_middle bs k b H) at 1. by rewrite concat_app.
Qed.

Lemma offset_le bs k b i : bs !! k = Some b -> i <= length b -> offset bs k i <= length (concat bs).
Proof. intros H Hi. unfold offset. rewrite (concat_split _ _ _ H), !length_app. lia. Qed.

Lemma offset_next bs k b : bs !! k = Some b -> offset bs (S k) 0 = offset bs k (length b).
Proof. intros H. unfold offset. rewrite (take_S_r _ _ _ H), concat_app, length_app. cbn. rewrite app_nil_r. lia. Qed.

Lemma offset_last bs k b : bs !! k = Some b -> length bs <= S k -> offset bs k (length b) = length (concat bs).
Proof.
  intros H Hl. rewrite <- (offset_next _ _ _ H). unfold offset. rewrite take_ge by done. lia.
Qed.

(** Splicing a buffer splices the concatenation. *)
Lemma concat_splice bs k b i c :
  bs !! k = Some b -> i + length c <= length b ->
  concat (<[k := splice b i c]> bs) = splice (concat bs) (offset bs k i) c.
Proof.
  intros H Hi. pose proof (lookup_lt_Some _ _ _ H) as Hk.
  rewrite (concat_split (<[k := splice b i c]> bs) k (splice b i c)) by by apply list_lookup_insert_eq.
  rewrite take_insert_ge, drop_insert_lt by lia. rewrite (concat_split _ _ _ H).
  unfold splice, offset. rewrite take_app_add, drop_app_ge by lia.
  replace (length (concat (take k bs)) + i + length c - length (concat (take k bs))) with (i + length c) by lia.
  rewrite take_app_le, drop_app_le by lia. by rewrite <- !app_assoc.
Qed.

Lemma length_splice b i c : i + length c <= length b -> length (splice b i c) = length b.
Proof. intros H. unfold splice. rewrite !length_app, length_take, length_drop. lia. Qed.

(** A chunk written into the current buffer. *)
Lemma write_chunk_holds r D b c :
  holds r D -> buffers r !! writeBufferIndex r = Some b -> writeIndex r + length c <= length b ->
  holds (write_chunk r b c) (D ++ c).
Proof.
  intros [_ Hs Hl Hd] Hb Hc. pose proof (lookup_lt_Some _ _ _ Hb) as Hk.
  pose proof (concat_splice _ _ _ _ _ Hb Hc) as Hflat.
  pose proof (offset_le _ _ _ (writeIndex r + length c) Hb Hc) as Hoff.
  assert (write_offset (write_chunk r b c) = write_offset r + length c) as Hwo.
  { unfold write_offset, offset. cbn. rewrite take_insert_ge by lia. lia. }
  assert (flat (write_chunk r b c) = splice (flat r) (write_offset r) c) as Hfl by exact Hflat.
  assert (write_offset r + length c <= length (flat r)) as Hle by (unfold write_offset, offset, flat in *; lia).
  split; cbn [buffers readPosition readAvailable writeIndex writeBufferIndex overwriting write_chunk].
  - exists (splice b (writeIndex r) c). split; [by apply list_lookup_insert_eq|]. rewrite length_splice; lia.
  - apply Forall_insert; [done|]. rewrite length_splice by lia. by eapply (Forall_lookup_1 _ _ _ _ Hs).
  - rewrite length_app. destruct (overwriting r); lia.
  - fold (write_chunk r b c). rewrite Hwo, Hfl. unfold splice. set (o := write_offset r) in *. set (F := flat r) in *.
    assert (take (o + length c) (take o F ++ c ++ drop (o + length c) F) = take o F ++ c) as Ht.
    { rewrite app_assoc, take_app_length'; [done|]. rewrite length_app, length_take. lia. }
    assert (drop (o + length c) (take o F ++ c ++ drop (o + length c) F) = drop (o + length c) F) as Hdr.
    { rewrite app_assoc, drop_app_length'; [done|]. rewrite length_app, length_take. lia. }
    destruct (overwriting r).
    + destruct Hd as [Ha Hd]. split; [rewrite !length_app, length_take, length_drop; lia|].
      rewrite Ht, Hdr.
      rewrite app_assoc. rewrite drop_app_le by lia. f_equal.
      rewrite <- drop_drop, Hd. rewrite drop_app_le by (rewrite length_drop; lia). by rewrite drop_drop.
    + destruct Hd as [Ha Hd]. split; [done|]. by rewrite Ht, Hd.
Qed.

(** A borrowed buffer changes nothing of what is held. *)
Lemma extend_holds r D pool r' pool' :
  holds r D -> 0 < bufferSize pool -> extend r pool = (r', pool') -> holds r' D.
Proof.
  intros H Hsz. unfold extend. destruct (_ && _) eqn:Hcond; [|by intros [= <- <-]].
  apply andb_true_iff in Hcond as [_ Hno%negb_true_iff].
  case_decide; [|by intros [= <- <-]].
  unfold pool_Get. destruct (poolBuffers pool) as [|x l]; [by intros [= <- <-]|]. intros [= <- <-].
  destruct H as [(b & Hb & Hi) Hs Hl Hd]. pose proof (lookup_lt_Some _ _ _ Hb) as Hk.
  split; cbn.
  - exists b. split; [by apply lookup_app_l_Some|done].
  - apply Forall_app. split; [done|]. apply Forall_singleton. case_decide; [by rewrite length_replicate|lia].
  - done.
  - rewrite Hno in Hd |- *. destruct Hd as [Hr Hd]. split; [done|].
    unfold write_offset, offset, flat in *; cbn. rewrite (take_app_le (buffers r)), concat_app by lia.
    rewrite take_app_le; [done|]. by apply (offset_le _ _ _ _ Hb).
Qed.

(** Moving on from a full buffer. *)
Lemma next_buffer_holds r D b :
  holds r D -> buffers r !! writeBufferIndex r = Some b -> writeIndex r = length b -> holds (next_buffer r) D.
Proof.
  intros [_ Hs Hl Hd] Hb Hi. pose proof (lookup_lt_Some _ _ _ Hb) as Hk.
  unfold next_buffer. destruct (decide (length (buffers r) <= writeBufferIndex r + 1)) as [Hw|Hw].
  - rewrite bool_decide_true by done.
    assert (write_offset r = length (flat r)) as Ho.
    { unfold write_offset. rewrite Hi. apply offset_last; [done|lia]. }
    split; cbn; [|done|done|].
    + destruct (buffers r) as [|x l]; [done|]. exists x. split; [done|lia].
    + unfold write_offset, offset; cbn. fold (flat r). rewrite Ho in Hd. destruct (overwriting r).
      * destruct Hd as [Ha Hd]. split; [done|].
        rewrite Hd, drop_ge, firstn_all, take_0 by done. cbn. by rewrite drop_0, app_nil_r.
      * destruct Hd as [Ha Hd]. rewrite firstn_all in Hd. subst D. rewrite Ha in *. split; [unfold flat in *; cbn in *; lia|].
        rewrite take_0. cbn. by rewrite !drop_0, app_nil_r.
  - rewrite bool_decide_false by done. destruct (lookup_lt_is_Some_2 (buffers r) (writeBufferIndex r + 1)) as [x Hx]; [lia|].
    split; cbn; [exists x; split; [done|lia]|done|done|].
    assert (offset (buffers r) (writeBufferIndex r + 1) 0 = write_offset r) as Ho.
    { rewrite Nat.add_1_r, (offset_next _ _ _ Hb). unfold write_offset. by rewrite Hi. }
    unfold write_offset, offset, flat in *. by rewrite Ho.
Qed.

(** Buffers are borrowed and given back, never lost: the pool, the response and those that the
    other responses hold, [others], are together always as many. *)
Definition conserved (others : nat) (r : CachedResponse) (pool : CachedResponseBufferPool) : Prop :=
  length (poolBuffers pool) + others + length (buffers r) = poolCapacity pool + 1 /\
  length (buffers r) <= limit pool + 1.

Definition same_pool (pool pool' : CachedResponseBufferPool) : Prop :=
  poolCapacity pool' = poolCapacity pool /\ bufferSize pool' = bufferSize pool /\ limit pool' = limit pool.

Lemma write_chunk_conserved others r b c pool : conserved others r pool -> conserved others (write_chunk r b c) pool.
Proof. unfold conserved. cbn. by rewrite length_insert. Qed.

Lemma extend_conserved others r pool r' pool' :
  0 < length (buffers r) -> conserved others r pool -> extend r pool = (r', pool') -> conserved others r' pool' /\ same_pool pool pool'.
Proof.
  intros Hpos H. pose proof H as [H1 H2]. unfold extend. destruct (_ && _); [|by intros [= <- <-]].
  case_decide as Hl; [|by intros [= <- <-]].
  unfold pool_Get. destruct (poolBuffers pool) as [|x l] eqn:E; [by intros [= <- <-]|]. intros [= <- <-].
  split; [|done]. unfold conserved; cbn. rewrite length_app. cbn in *. lia.
Qed.

(** How many turns the data left takes at most. *)
Definition write_measure (data : bytes) (r : CachedResponse) : nat :=
  2 * length data + (if decide (data = []) then 0 else
    match buffers r !! writeBufferIndex r with
    | Some b => if decide (writeIndex r < length b) then 0 else 1 | None => 0 end).

Lemma write_turn_holds others data r pool D :
  holds r D -> conserved others r pool -> 0 < bufferSize pool -> data <> [] ->
  exists c data' r' pool', write_turn data r pool = Ok (data', r', pool') /\ data = c ++ data' /\ holds r' (D ++ c) /\
    conserved others r' pool' /\ same_pool pool pool' /\ write_measure data' r' < write_measure data r.
Proof.
  intros H Hcons Hsz Hd. unfold write_turn, write_measure. rewrite (decide_False (P := data = [])) by done.
  destruct (h_buffer _ _ H) as (b & Hb & Hi). rewrite Hb.
  assert (0 < length data) as Hpos by (destruct data; [done|cbn; lia]).
  set (n := Nat.min (length b - writeIndex r) (length data)).
  assert (length (take n data) = n) as Hn by (rewrite length_take; lia).
  set (r1 := if decide (0 < n) then write_chunk r b (take n data) else r).
  assert (holds r1 (D ++ take n data)) as H1.
  { unfold r1. destruct (decide (0 < n)) as [Hz|Hz]; [apply write_chunk_holds; [done|done|lia]|].
    replace n with 0 by lia. by rewrite take_0, app_nil_r. }
  assert (conserved others r1 pool) as Hc1.
  { unfold r1. destruct (decide (0 < n)); [by apply write_chunk_conserved|done]. }
  exists (take n data), (drop n data).
  destruct (decide (length b - writeIndex r < length data)) as [Hneed|Hneed].
  - assert (exists b1, buffers r1 !! writeBufferIndex r1 = Some b1 /\ writeIndex r1 = length b1) as (b1 & Hb1 & Hi1).
    { unfold r1. destruct (decide (0 < n)); cbn.
      - eexists. split; [apply list_lookup_insert_eq; by eapply lookup_lt_Some|]. rewrite length_splice; lia.
      - exists b. split; [done|lia]. }
    destruct (extend r1 pool) as [r2 pool2] eqn:E.
    assert (buffers r2 !! writeBufferIndex r2 = Some b1 /\ writeIndex r2 = length b1) as [Hb2 Hi2].
    { revert E. unfold extend, pool_Get. repeat case_match; intros [= <- <-]; try done;
        (cbn; split; [by apply lookup_app_l_Some|done]). }
    pose proof (extend_holds _ _ _ _ _ H1 Hsz E) as H2.
    destruct (extend_conserved others r1 pool r2 pool2) as [Hc2 Hp2]; [|done|done|].
    { pose proof (lookup_lt_Some _ _ _ Hb1). lia. }
    pose proof (next_buffer_holds _ _ _ H2 Hb2 Hi2) as H3.
    exists (next_buffer r2), pool2. split_and!; [done|by rewrite take_drop|done|done|done|].
    destruct (h_buffer _ _ H3) as (b3 & Hb3 & _). rewrite Hb3. change (writeIndex (next_buffer r2)) with 0.
    pose proof (Forall_lookup_1 _ _ _ _ (h_sizes _ _ H3) Hb3) as Hb3pos. cbn in Hb3pos.
    rewrite (decide_True (P := 0 < length b3)) by done. rewrite length_drop.
    destruct (decide (writeIndex r < length b)), (decide (drop n data = [])); lia.
  - exists r1, pool. split_and!; [done|by rewrite take_drop|done|done|done|].
    assert (drop n data = []) as -> by (apply drop_ge; lia). rewrite decide_True by done.
    cbn. destruct (decide (writeIndex r < length b)); lia.
Qed.

(** What the loop does with the data left. *)
Lemma write_loop_holds others fuel data r pool D :
  holds r D -> conserved others r pool -> 0 < bufferSize pool -> write_measure data r < fuel ->
  exists r' pool', write_loop fuel data r pool = Ok (r', pool') /\ holds r' (D ++ data) /\ conserved others r' pool' /\ same_pool pool pool'.
Proof.
  revert data r pool D. induction fuel as [|fuel IH]; intros data r pool D H Hcons Hsz Hfuel; [lia|].
  cbn [write_loop]. case_decide as Hd; [subst data; exists r, pool; by rewrite app_nil_r|].
  destruct (write_turn_holds others data r pool D H Hcons Hsz Hd) as (c & data' & r1 & pool1 & -> & E & H1 & Hc1 & (E1 & E2 & E3) & Hm).
  cbn [mbind res_mbind]. destruct (IH data' r1 pool1 _ H1 Hc1 ltac:(by rewrite E2) ltac:(lia)) as (r' & pool' & Hrun & Hh & Hc & F1 & F2 & F3).
  exists r', pool'. rewrite E, app_assoc. unfold same_pool. split_and!; congruence || done.
Qed.

(** ** Copying *)

Lemma writer_Write_nil w : writer_Write w [] = (0, None, w).
Proof. destruct w as [o [k|]]; cbn; rewrite app_nil_r; [by rewrite Nat.sub_0_r|done]. Qed.

(** Writing in two parts, and stopping at the first failure, is writing the whole. *)
Lemma writer_Write_app w a b :
  writer_Write w (a ++ b) =
  let '(n, err, w1) := writer_Write w a in
  match err with
  | Some _ => (n, err, w1)
  | None => let '(m, err, w2) := writer_Write w1 b in (n + m, err, w2)
  end.
Proof.
  destruct w as [o [k|]]; unfold writer_Write; cbn; [|by rewrite length_app, app_assoc].
  destruct (decide (length a <= k)) as [Ha|Ha]; cbn.
  - destruct (decide (length b <= k - length a)) as [Hb|Hb].
    + rewrite decide_True by (rewrite length_app; lia). rewrite length_app, app_assoc. do 3 f_equal. lia.
    + rewrite decide_False by (rewrite length_app; lia). rewrite take_app_ge by lia. rewrite app_assoc.
      do 2 f_equal. lia.
  - rewrite decide_False by (rewrite length_app; lia). by rewrite take_app_le by lia.
Qed.

(** The data of the ring from the index [i] of the buffer [k] on. *)
Definition ring (bs : list bytes) (k i : nat) : bytes := drop (offset bs k i) (concat bs) ++ concat bs.

Lemma ring_step bs k b i available :
  bs !! k = Some b -> i < length b -> available <= length (concat bs) ->
  let toCopy := min (length b - i) available in
  take available (ring bs k i) =
  slice b i toCopy ++ take (available - toCopy) (ring bs ((k + 1) `mod` length bs) 0).
Proof.
  intros Hb Hi Hav toCopy. pose proof (lookup_lt_Some _ _ _ Hb) as Hk.
  assert (drop (offset bs k i) (concat bs) = drop i b ++ concat (drop (S k) bs)) as Hring.
  { unfold offset. rewrite (concat_split _ _ _ Hb). rewrite drop_app_add, drop_app_le by lia. done. }
  unfold ring. rewrite Hring, <- app_assoc. unfold slice.
  destruct (decide (available <= length b - i)) as [Hle|Hle].
  { replace toCopy with available by lia. rewrite take_app_le by (rewrite length_drop; lia).
    by rewrite Nat.sub_diag, take_0, app_nil_r. }
  replace toCopy with (length b - i) by lia. rewrite (take_app_ge (drop i b)) by (rewrite length_drop; lia).
  rewrite (take_ge (drop i b)) by (rewrite length_drop; lia). rewrite length_drop. f_equal.
  destruct (decide (S k < length bs)) as [Hlast|Hlast].
  - rewrite Nat.mod_small by lia. rewrite Nat.add_1_r, (offset_next _ _ _ Hb).
    assert (drop (offset bs k (length b)) (concat bs) = concat (drop (S k) bs)) as ->; [|done].
    unfold offset. rewrite (concat_split _ _ _ Hb). by rewrite drop_app_add, drop_app_length.
  - replace (k + 1) with (length bs) by lia. rewrite Nat.Div0.mod_same.
    rewrite (drop_ge bs) by lia. change (offset bs 0 0) with 0. rewrite drop_0. cbn [concat app].
    by rewrite take_app_le by lia.
Qed.

Lemma slice_drop b i n s : s <= n -> slice b (i + s) (n - s) = drop s (slice b i n).
Proof. intros H. unfold slice. by rewrite skipn_firstn_comm, drop_drop. Qed.

Lemma length_slice b i n : i + n <= length b -> length (slice b i n) = n.
Proof. intros H. unfold slice. rewrite length_take, length_drop. lia. Qed.

Lemma copy_loop_spec fuel bs k b i skip available n w :
  Forall (fun b => 0 < length b) bs -> bs !! k = Some b -> i < length b -> available <= length (concat bs) ->
  available < fuel ->
  copy_loop fuel bs i k skip available n w =
  let '(m, err, w') := writer_Write w (drop skip (take available (ring bs k i))) in Ok (n + m, err, w').
Proof.
  intros Hs. revert k b i skip available n w.
  induction fuel as [|fuel IH]; intros k b i skip available n w Hb Hi Hav Hfuel; [lia|].
  cbn [copy_loop]. destruct (decide (available = 0)) as [->|Hz].
  { rewrite take_0, drop_nil, writer_Write_nil. by rewrite Nat.add_0_r. }
  rewrite Hb. pose proof (ring_step bs k b i available Hb Hi Hav) as Hstep. cbn zeta in Hstep.
  set (toCopy := min (length b - i) available) in *.
  assert (1 <= toCopy <= available /\ i + toCopy <= length b) as [Htc Htb] by lia.
  assert (0 < length bs) as Hbs by (pose proof (lookup_lt_Some _ _ _ Hb); lia).
  destruct (lookup_lt_is_Some_2 bs ((k + 1) `mod` length bs)) as [b' Hb']; [apply Nat.mod_upper_bound; lia|].
  pose proof (Forall_lookup_1 _ _ _ _ Hs Hb') as Hpos. cbn in Hpos.
  assert (forall skip n w, copy_loop fuel bs 0 ((k + 1) `mod` length bs) skip (available - toCopy) n w =
    let '(m, err, w') := writer_Write w (drop skip (take (available - toCopy) (ring bs ((k + 1) `mod` length bs) 0))) in
    Ok (n + m, err, w')) as Hgo by (intros; apply (IH _ b'); [done|lia..]).
  set (rest := take (available - toCopy) (ring bs ((k + 1) `mod` length bs) 0)) in *.
  assert (forall s, s <= toCopy ->
    (let '(written, err, w1) := writer_Write w (slice b (i + s) (toCopy - s)) in
     match err with
     | Some _ => Ok (n + written, err, w1)
     | None => copy_loop fuel bs 0 ((k + 1) `mod` length bs) 0 (available - toCopy) (n + written) w1
     end) =
    (let '(m, err, w') := writer_Write w (drop s (slice b i toCopy ++ rest)) in Ok (n + m, err, w'))) as Hwrite.
  { intros s Hsk. rewrite slice_drop by done. rewrite drop_app_le by (rewrite length_slice; lia).
    rewrite writer_Write_app. destruct (writer_Write w _) as [[m [err|]] w1]; [done|].
    rewrite Hgo, drop_0. destruct (writer_Write w1 rest) as [[m' err'] w2]. by rewrite Nat.add_assoc. }
  rewrite Hstep. destruct (decide (0 < skip)) as [Hsk|Hsk].
  - destruct (decide (skip <= toCopy)) as [Hle|Hle].
    + cbn [fst snd]. by rewrite (Hwrite skip Hle).
    + rewrite (decide_False (P := skip - toCopy = 0)) by lia. rewrite Hgo.
      rewrite drop_app_ge by (rewrite length_slice; lia). by rewrite length_slice by lia.
  - assert (skip = 0) as -> by lia. rewrite (decide_True (P := 0 = 0)) by done.
    pose proof (Hwrite 0 ltac:(lia)) as H0. by rewrite Nat.add_0_r, Nat.sub_0_r in H0.
Qed.

(** Where the copy of a wrapped response starts. *)
Lemma overwriting_start r D b :
  holds r D -> overwriting r = true -> buffers r !! writeBufferIndex r = Some b ->
  exists k i b', (if decide (length b <= writeIndex r) then Ok (0, (writeBufferIndex r + 1) `mod` length (buffers r))
                  else Ok (writeIndex r, writeBufferIndex r)) = Ok (i, k) /\
    buffers r !! k = Some b' /\ i < length b' /\ readAvailable r <= length (flat r) /\
    take (readAvailable r) (ring (buffers r) k i) = drop (readPosition r) D.
Proof.
  intros H Ho Hb. destruct H as [(b0 & Hb0 & Hi) Hs Hl Hd]. rewrite Hb in Hb0. injection Hb0 as <-.
  rewrite Ho in Hd. destruct Hd as [Ha Hd]. pose proof (lookup_lt_Some _ _ _ Hb) as Hk.
  pose proof (offset_le _ _ _ _ Hb Hi) as Hoff. fold (flat r) (write_offset r) in Hoff.
  assert (take (length (flat r)) (drop (write_offset r) (flat r) ++ flat r) = drop (readPosition r) D) as Hheld.
  { rewrite Hd. rewrite take_app_ge by (rewrite length_drop; lia). rewrite length_drop. do 2 f_equal. lia. }
  destruct (decide (length b <= writeIndex r)) as [Hfull|Hfull].
  - assert (writeIndex r = length b) as Hwi by lia.
    destruct (lookup_lt_is_Some_2 (buffers r) ((writeBufferIndex r + 1) `mod` length (buffers r))) as [b' Hb'];
      [apply Nat.mod_upper_bound; lia|].
    exists ((writeBufferIndex r + 1) `mod` length (buffers r)), 0, b'.
    split_and!; [done|done|by apply (Forall_lookup_1 _ _ _ _ Hs Hb')|lia|].
    rewrite <- Hheld, Ha. unfold ring. fold (flat r).
    destruct (decide (S (writeBufferIndex r) < length (buffers r))) as [Hlt|Hlt].
    + rewrite Nat.mod_small, Nat.add_1_r, (offset_next _ _ _ Hb) by lia. unfold write_offset. by rewrite Hwi.
    + replace (writeBufferIndex r + 1) with (length (buffers r)) by lia. rewrite Nat.Div0.mod_same.
      change (offset (buffers r) 0 0) with 0. rewrite drop_0.
      assert (write_offset r = length (flat r)) as -> by (unfold write_offset; rewrite Hwi; apply offset_last; [done|lia]).
      rewrite drop_ge by done. cbn [app]. by rewrite take_app_le, firstn_all by done.
  - exists (writeBufferIndex r), (writeIndex r), b. split_and!; [done|done|lia|lia|]. by rewrite Ha.
Qed.

Lemma CopyFromPosition_holds r D position w :
  holds r D -> (Z.of_nat (readPosition r) <= position)%Z ->
  CopyFromPosition r position w =
  let '(n, err, w') := writer_Write w (drop (Z.to_nat position) D) in Ok (n, err, w').
Proof.
  intros H Hpos. pose proof (h_length _ _ H) as Hl. unfold CopyFromPosition.
  assert ((position <? Z.of_nat (readPosition r))%Z = false) as -> by lia. rewrite andb_false_r.
  case_bool_decide as Hend; [rewrite drop_ge by lia; by rewrite writer_Write_nil|].
  set (skip := Z.to_nat (position - Z.of_nat (readPosition r))).
  assert (drop (Z.to_nat position) D = drop skip (drop (readPosition r) D)) as ->.
  { rewrite drop_drop. f_equal. lia. }
  destruct (overwriting r) eqn:Ho.
  - destruct (h_buffer _ _ H) as (b & Hb & _). rewrite Hb.
    destruct (overwriting_start r D b H Ho Hb) as (k & i & b' & -> & Hb' & Hi & Hav & Hdata). cbn [mbind res_mbind].
    rewrite (copy_loop_spec _ _ k b'); [by rewrite Hdata|apply (h_sizes _ _ H)|done|done|done|lia].
  - cbn [mbind res_mbind]. destruct H as [(b & Hb & Hi) Hs _ Hd]. rewrite Ho in Hd. destruct Hd as [Hrp Hd].
    destruct (lookup_lt_is_Some_2 (buffers r) 0) as [b0 Hb0]; [pose proof (lookup_lt_Some _ _ _ Hb); lia|].
    pose proof (offset_le _ _ _ _ Hb Hi) as Hoff. fold (flat r) (write_offset r) in Hoff.
    assert (readAvailable r = write_offset r) as Hav.
    { rewrite <- Hd, Hrp, length_take in Hl. lia. }
    rewrite (copy_loop_spec _ _ 0 b0);
      [|done|done|by apply (Forall_lookup_1 _ _ _ _ Hs Hb0)|rewrite Hav; exact Hoff|lia].
    unfold ring. change (offset (buffers r) 0 0) with 0. rewrite drop_0, take_app_le by (rewrite Hav; exact Hoff).
    rewrite Hav. fold (flat r). by rewrite Hd, Hrp, drop_0.
Qed.

(** ** Theorems *)

Lemma NewCachedResponse_holds size : 0 < size -> holds (NewCachedResponse size) [].
Proof.
  intros H. split; cbn; [|apply Forall_singleton; by rewrite length_replicate|done|done].
  exists (replicate size x00). split; [done|lia].
Qed.

Lemma put_all_ok pool l :
  length (poolBuffers pool) + length l <= poolCapacity pool ->
  put_all pool l = Ok (with_buffers pool (poolBuffers pool ++ l)).
Proof.
  revert pool. induction l as [|b l IH]; intros pool Hc; cbn [put_all].
  { rewrite app_nil_r. by destruct pool. }
  unfold pool_Put. cbn in Hc. rewrite decide_True by lia. cbn [mbind res_mbind]. rewrite IH; cbn.
  - by rewrite <- app_assoc.
  - rewrite length_app. cbn. lia.
Qed.

Lemma cleared_holds r D : holds r D -> exists r', cleared r = Ok r' /\ holds r' [] /\ buffers r' = take 1 (buffers r).
Proof.
  intros H. destruct (h_buffer _ _ H) as (b & Hb & _). pose proof (lookup_lt_Some _ _ _ Hb) as Hk. unfold cleared. rewrite decide_False by lia.
  eexists. split_and!; [done| |done]. pose proof (h_sizes _ _ H) as Hs. destruct (buffers r) as [|b0 l]; [cbn in Hk; lia|].
  inversion Hs; subst. split; cbn; [exists b0; split; [done|lia]|by apply Forall_singleton|done|done].
Qed.

Lemma holds_buffers r D : holds r D -> 1 <= length (buffers r).
Proof. intros H. destruct (h_buffer _ _ H) as (b & Hb & _). pose proof (lookup_lt_Some _ _ _ Hb). lia. Qed.

Lemma Reset_holds others r pool D :
  holds r D -> conserved others r pool ->
  exists r' pool', Reset r pool = Ok (r', pool') /\ holds r' [] /\ length (buffers r') = 1 /\ conserved others r' pool' /\ same_pool pool pool'.
Proof.
  intros H [Hc1 Hc2]. pose proof (holds_buffers _ _ H) as Hk. destruct (cleared_holds r D H) as (r' & Hr & Hh & Hb).
  unfold Reset. rewrite put_all_ok by (rewrite length_drop; lia). cbn [mbind res_mbind]. rewrite Hr.
  eexists _, _. split; [done|]. unfold conserved. rewrite Hb. cbn. rewrite length_app, length_take, length_drop. split_and!; done || lia.
Qed.

(** ** Many clients with one pool

    The server keeps a response for each client, all of them with its one pool.  Each client is
    served by its own goroutine, one call at a time: a step is a turn of the loop of [Write],
    the release of one buffer in [Reset], or the start or the end of a call, so that the
    borrowing and releasing of the clients interleave in any order. *)
Inductive activity :=
| idle
| writing (data : bytes)
| resetting (left : list bytes).

(** [stream] is all that the calls since the last reset were given to write. *)
Record client := { response : CachedResponse; stream : bytes; doing : activity }.

Record responses := { bufferPool : CachedResponseBufferPool; clients : list client }.

Definition responses_start (size bufferCount lim : nat) : responses :=
  {| bufferPool := NewCachedResponseBufferPool size bufferCount lim; clients := [] |}.

Definition set_client (s : responses) (pool : CachedResponseBufferPool) (i : nat) (c : client) : responses :=
  {| bufferPool := pool; clients := <[i := c]> (clients s) |}.

Inductive response_step (size : nat) (s : responses) : responses -> Prop :=
| step_open : response_step size s {| bufferPool := bufferPool s;
    clients := clients s ++ [{| response := NewCachedResponse size; stream := []; doing := idle |}] |}
| step_write i c data : clients s !! i = Some c -> doing c = idle ->
    response_step size s (set_client s (bufferPool s) i {| response := response c; stream := stream c ++ data; doing := writing data |})
| step_turn i c data data' r pool : clients s !! i = Some c -> doing c = writing data -> data <> [] ->
    write_turn data (response c) (bufferPool s) = Ok (data', r, pool) ->
    response_step size s (set_client s pool i {| response := r; stream := stream c; doing := writing data' |})
| step_written i c : clients s !! i = Some c -> doing c = writing [] ->
    response_step size s (set_client s (bufferPool s) i {| response := response c; stream := stream c; doing := idle |})
| step_reset i c : clients s !! i = Some c -> doing c = idle ->
    response_step size s (set_client s (bufferPool s) i {| response := response c; stream := []; doing := resetting (drop 1 (buffers (response c))) |})
| step_put i c b l pool : clients s !! i = Some c -> doing c = resetting (b :: l) -> pool_Put (bufferPool s) b = Ok pool ->
    response_step size s (set_client s pool i {| response := response c; stream := stream c; doing := resetting l |})
| step_cleared i c r : clients s !! i = Some c -> doing c = resetting [] -> cleared (response c) = Ok r ->
    response_step size s (set_client s (bufferPool s) i {| response := r; stream := stream c; doing := idle |}).

(** The buffers of the pool that a client has. *)
Definition borrowed (c : client) : nat :=
  match doing c with resetting l => length l | _ => length (buffers (response c)) - 1 end.

Definition client_ok (pool : CachedResponseBufferPool) (c : client) : Prop :=
  length (buffers (response c)) <= limit pool + 1 /\
  exists D, holds (response c) D /\
    match doing c with idle => D = stream c | writing data => D ++ data = stream c | resetting _ => stream c = [] end.

Definition responses_ok (size bufferCount lim : nat) (s : responses) : Prop :=
  bufferSize (bufferPool s) = size /\ poolCapacity (bufferPool s) = bufferCount /\ limit (bufferPool s) = lim /\
  length (poolBuffers (bufferPool s)) + sum_list_with borrowed (clients s) = bufferCount /\
  Forall (client_ok (bufferPool s)) (clients s).

Lemma sum_insert {A} (f : A -> nat) (l : list A) i x y : l !! i = Some x ->
  sum_list_with f (<[i := y]> l) + f x = sum_list_with f l + f y.
Proof.
  intros E. rewrite insert_take_drop by (by eapply lookup_lt_Some). pose proof (f_equal (sum_list_with f) (take_drop_middle l i x E)) as H.
  rewrite !sum_list_with_app in *. cbn [sum_list_with] in *. lia.
Qed.

Lemma sum_elem {A} (f : A -> nat) (l : list A) i x : l !! i = Some x -> f x <= sum_list_with f l.
Proof. intros Hi. by apply sum_list_with_in, (list_elem_of_lookup_2 _ i). Qed.

Lemma client_conserved size bufferCount lim s i c D : responses_ok size bufferCount lim s -> clients s !! i = Some c ->
  holds (response c) D -> borrowed c = length (buffers (response c)) - 1 ->
  exists others, others + borrowed c = sum_list_with borrowed (clients s) /\ conserved others (response c) (bufferPool s).
Proof.
  intros (_ & E1 & E2 & E3 & Hc) Hi H Hb. exists (sum_list_with borrowed (clients s) - borrowed c).
  pose proof (sum_elem borrowed (clients s) i c Hi).
  pose proof (Forall_lookup_1 _ _ _ _ Hc Hi) as [Hl _]. pose proof (holds_buffers _ _ H). unfold conserved. split; [lia|]. split; [lia|done].
Qed.

(** The invariant after a step of one client: its own part and the count. *)
Lemma client_step_ok size bufferCount lim s pool i c c' : responses_ok size bufferCount lim s -> clients s !! i = Some c ->
  same_pool (bufferPool s) pool -> length (poolBuffers pool) + borrowed c' = length (poolBuffers (bufferPool s)) + borrowed c ->
  client_ok pool c' -> responses_ok size bufferCount lim (set_client s pool i c').
Proof.
  intros (E0 & E1 & E2 & E3 & Hc) Hi (F1 & F2 & F3) Hb Hc'. pose proof (sum_insert borrowed (clients s) i c c' Hi) as Hs.
  unfold responses_ok. cbn. split_and!; [congruence..|lia|]. apply Forall_insert; [|done]. eapply Forall_impl; [exact Hc|]. unfold client_ok. by rewrite F3.
Qed.

Lemma response_step_ok size bufferCount lim s s' : 0 < size -> responses_ok size bufferCount lim s -> response_step size s s' ->
  responses_ok size bufferCount lim s'.
Proof.
  intros Hsz Hok Hst. pose proof Hok as (E0 & E1 & E2 & E3 & Hc).
  destruct Hst as [|i c data Hi Hd|i c data data' r pool Hi Hd Hne Hw|i c Hi Hd|i c Hi Hd|i c b l pool Hi Hd Hp|i c r Hi Hd Hr].
  { split_and!; try done; cbn [bufferPool clients]; [rewrite sum_list_with_app; cbn [sum_list_with borrowed doing response buffers NewCachedResponse length]; lia|]. apply Forall_app. split; [done|]. apply Forall_singleton.
    split; [cbn; lia|]. exists []. split; [by apply NewCachedResponse_holds|done]. }
  all: pose proof (Forall_lookup_1 _ _ _ _ Hc Hi) as (Hl & D & H & Hs); rewrite Hd in Hs.
  - apply (client_step_ok _ _ _ s _ i c); [done..| |]; [unfold borrowed; by rewrite Hd|]. split; [done|]. exists D. split; [done|]. cbn. congruence.
  - destruct (client_conserved _ _ _ s i c D Hok Hi H) as (others & Ho & Hcons); [unfold borrowed; by rewrite Hd|].
    destruct (write_turn_holds others data (response c) (bufferPool s) D H Hcons ltac:(lia) Hne) as (c1 & d1 & r1 & p1 & Hw1 & Ed & Hh & [Hk Hk'] & Hp & _).
    rewrite Hw1 in Hw. injection Hw as -> -> ->. destruct Hcons as [Hk0 _]. pose proof (holds_buffers _ _ H). pose proof (holds_buffers _ _ Hh).
    destruct Hp as (P1 & P2 & P3). apply (client_step_ok _ _ _ s _ i c); [done..| |].
    + unfold borrowed. rewrite Hd. cbn. lia.
    + split; [done|]. exists (D ++ c1). split; [done|]. cbn. rewrite <- app_assoc, <- Ed. done.
  - apply (client_step_ok _ _ _ s _ i c); [done..| |]; [unfold borrowed; by rewrite Hd|]. split; [done|]. exists D. split; [done|]. cbn. by rewrite app_nil_r in Hs.
  - apply (client_step_ok _ _ _ s _ i c); [done..| |]; [unfold borrowed; rewrite Hd; cbn; by rewrite length_drop|]. split; [done|]. by exists D.
  - unfold pool_Put in Hp. case_decide; [|done]. injection Hp as <-. apply (client_step_ok _ _ _ s _ i c); [done..| |].
    + unfold borrowed. rewrite Hd. cbn. rewrite length_app. cbn. lia.
    + split; [done|]. by exists D.
  - destruct (cleared_holds _ _ H) as (r' & Hr' & Hh & Hb). rewrite Hr in Hr'. injection Hr' as <-. apply (client_step_ok _ _ _ s _ i c); [done..| |].
    + unfold borrowed. rewrite Hd. cbn. rewrite Hb, length_take. lia.
    + split; [cbn; rewrite Hb, length_take; lia|]. exists []. done.
Qed.

Lemma responses_reachable_ok size bufferCount lim s : 0 < size -> rtc (response_step size) (responses_start size bufferCount lim) s ->
  responses_ok size bufferCount lim s.
Proof.
  intros Hsz Hr. assert (H0 : responses_ok size bufferCount lim (responses_start size bufferCount lim)).
  { unfold responses_ok. cbn. rewrite length_replicate. split_and!; [done..|lia|constructor]. }
  revert H0. induction Hr as [|s s1 s2 H1 _ IH]; [done|]. intros H0. by apply IH, (response_step_ok size bufferCount lim s).
Qed.


(** Copying from a position gives the writer exactly the bytes of the stream from that
    position on, up to where the writer fails, wherever the data starts in the ring.  A
    position that has been overwritten is refused; one past the end copies nothing and is
    no error.  The position check answers whether the copy is possible, and a response
    with nothing in it has no position. *)
Theorem CopyFromPosition_correct r D position w :
  holds r D ->
  ((Z.of_nat (readPosition r) <= position)%Z ->
   CopyFromPosition r position w =
     let '(n, err, w') := writer_Write w (drop (Z.to_nat position) D) in Ok (n, err, w')) /\
  (0 < readAvailable r -> (position < Z.of_nat (readPosition r))%Z ->
   CopyFromPosition r position w = Ok (0, Some "position unavailable"%string, w)) /\
  (HasPosition r position = true <->
   0 < readAvailable r /\ (Z.of_nat (readPosition r) <= position <= Z.of_nat (length D))%Z).
Proof.
  intros H. pose proof (h_length _ _ H) as Hl. split_and!.
  - by apply CopyFromPosition_holds.
  - intros Ha Hp. unfold CopyFromPosition.
    assert ((0 <? Z.of_nat (readAvailable r))%Z && (position <? Z.of_nat (readPosition r))%Z = true) as -> by lia. done.
  - unfold HasPosition. case_decide; [split; [done|lia]|]. rewrite andb_true_iff, !Z.leb_le. lia.
Qed.

(** *** Examples *)

(** Four buffers of three bytes at most: the ring wraps around at the thirteenth byte. *)
Definition example_response : res (CachedResponse * CachedResponseBufferPool) :=
  '(_, r, pool) ← Write (NewCachedResponse 3) (NewCachedResponseBufferPool 3 5 3) (map z2b [1; 2; 3; 4; 5; 6; 7]%Z);
  '(_, r, pool) ← Write r pool (map z2b [8; 9; 10; 11; 12; 13; 14]%Z);
  Ok (r, pool).

Lemma example_copy :
  ('(r, pool) ← example_response; CopyFromPosition r 5%Z {| out := []; room := None |}) =
  Ok (9, None, {| out := map z2b [6; 7; 8; 9; 10; 11; 12; 13; 14]%Z; room := None |}).
Proof. vm_compute. reflexivity. Qed.

(** Two clients with one pool of one buffer: the first has borrowed it, and the second writes
    seven bytes in three of its own. *)
Definition example_first : res (CachedResponse * CachedResponseBufferPool) :=
  '(_, r, pool) ← write_turn [x01; Byte.x02; x03; x04] (NewCachedResponse 3) (NewCachedResponseBufferPool 3 1 3); Ok (r, pool).

Definition example_first_response : CachedResponse := match example_first with Ok (r, _) => r | _ => NewCachedResponse 3 end.
Definition example_pool : CachedResponseBufferPool := match example_first with Ok (_, p) => p | _ => NewCachedResponseBufferPool 3 1 3 end.

Definition example_clients : responses := {| bufferPool := example_pool;
  clients := [{| response := example_first_response; stream := [x01; Byte.x02; x03; x04]; doing := writing [x04] |};
              {| response := NewCachedResponse 3; stream := []; doing := idle |}] |}.

Lemma example_clients_reachable : rtc (response_step 3) (responses_start 3 1 3) example_clients.
Proof.
  eapply rtc_l; [apply step_open|]. eapply rtc_l; [apply step_open|].
  eapply rtc_l; [eapply (step_write _ _ 0 _ [x01; Byte.x02; x03; x04]); reflexivity|].
  eapply rtc_l; [eapply (step_turn _ _ 0); [reflexivity|reflexivity|done|vm_compute; reflexivity]|]. apply rtc_refl.
Qed.


Lemma CopyFromPosition_correct_witness :
  exists r, holds r [x01; Byte.x02; x03; x04] /\
    CopyFromPosition r 1%Z {| out := []; room := Some 2 |} =
      Ok (2, Some "write failed"%string, {| out := [Byte.x02; x03]; room := Some 0 |}).
Proof.
  destruct (write_loop_holds 0 10 [x01; Byte.x02; x03; x04] (NewCachedResponse 3) (NewCachedResponseBufferPool 3 5 3) []
    (NewCachedResponse_holds 3 ltac:(lia)) ltac:(split; vm_compute; lia) ltac:(cbn; lia) ltac:(vm_compute; lia))
    as (r & pool & Hrun & H & _).
  exists r. split; [exact H|].
  assert (Z.of_nat (readPosition r) <= 1)%Z as Hp.
  { vm_compute in Hrun. injection Hrun as <- _. cbn. lia. }
  exact (proj1 (CopyFromPosition_correct r _ 1%Z {| out := []; room := Some 2 |} H) Hp).
Defined.
