(* ===== verification/Quality.v ===== *)
(** * Proxy quality

    Models src/psiphon/common/inproxy/quality.go: the quality data that a broker keeps of
    its proxies ([ProxyQualityState]), and the queue and the requests with which a server
    reports that data to the brokers ([ProxyQualityReporter]); and [MakeProxyQualityKey]
    of api.go.

    A cache is a map from keys to values with their expiry, zero when there is none: an
    expired item is not found, and stays until the cleanup, which runs in the background,
    deletes it and calls the eviction callback.  The time is an argument. *)

From Stdlib Require Import ZArith Lia Strings.Byte.
From stdpp Require Import base gmap list sets strings relations.
From S2P Require Import Prelude.
From S2P Require Import GoStrings.
#[local] Open Scope Z_scope.

Abbreviation ID := bytes.

(** ** Keys *)

Definition reservedASN : Z := 65536.

(** The number an ASN is keyed by. *)
Definition key_ASN (proxyASN : string) : Z :=
  match ParseInt proxyASN with
  | Some n => if (n <? 0) || (2 ^ 32 - 1 <? n) then reservedASN else n
  | None => reservedASN
  end.

(** [copy(key[0:32], proxyID[:])], an ID being 32 bytes, and the ASN in big-endian
    order. *)
Definition MakeProxyQualityKey (proxyID : ID) (proxyASN : string) : bytes :=
  proxyID ++ rev (le_store 4 (key_ASN proxyASN)).

(** ** Caches *)

(** An item with its expiration, in nanoseconds. *)
Abbreviation cache A := (gmap bytes (A * Z)).

Definition expired (now : Z) (expiration : Z) : bool := (0 <? expiration) && (expiration <? now).

Definition cache_Get {A} (now : Z) (c : cache A) (k : bytes) : option A :=
  match c !! k with
  | Some (x, e) => if expired now e then None else Some x
  | None => None
  end.

(** The caches are made without a default expiration: a duration that is not positive is
    no expiration. *)
Definition cache_Set {A} (now : Z) (c : cache A) (k : bytes) (x : A) (d : Z) : cache A :=
  <[k := (x, if 0 <? d then now + d else 0)]> c.

(** [Add] sets the item unless there is one. *)
Definition cache_Add {A} (now : Z) (c : cache A) (k : bytes) (x : A) (d : Z) : cache A :=
  match cache_Get now c k with
  | Some _ => c
  | None => cache_Set now c k x d
  end.

(** ** ProxyQualityState *)

Abbreviation ProxyQualityASNCounts := (gmap string Z).

Record proxyQualityEntry := {
  clientASNCounts : ProxyQualityASNCounts;
  failedMatchCount : Z
}.

Record ProxyQualityState := {
  qualityTTL : Z;
  pendingFailedMatchDeadline : Z;
  failedMatchThreshold : Z;
  entries : cache proxyQualityEntry;
  pendingFailedMatches : cache unit
}.

Definition proxyQualityTTL : Z := 24 * 3600 * 1000000000.
Definition proxyQualityPendingFailedMatchDeadline : Z := 300 * 1000000000.
Definition proxyQualityFailedMatchThreshold : Z := 10.

Definition NewProxyQuality : ProxyQualityState := {|
  qualityTTL := proxyQualityTTL;
  pendingFailedMatchDeadline := proxyQualityPendingFailedMatchDeadline;
  failedMatchThreshold := proxyQualityFailedMatchThreshold;
  entries := ∅; pendingFailedMatches := ∅ |}.

Definition with_caches (q : ProxyQualityState) (e : cache proxyQualityEntry) (p : cache unit) : ProxyQualityState := {|
  qualityTTL := qualityTTL q; pendingFailedMatchDeadline := pendingFailedMatchDeadline q;
  failedMatchThreshold := failedMatchThreshold q; entries := e; pendingFailedMatches := p |}.

Definition SetParameters (q : ProxyQualityState) (ttl deadline threshold : Z) : ProxyQualityState := {|
  qualityTTL := ttl; pendingFailedMatchDeadline := deadline; failedMatchThreshold := threshold;
  entries := entries q; pendingFailedMatches := pendingFailedMatches q |}.

Definition HasQuality (now : Z) (q : ProxyQualityState) (proxyID : ID) (proxyASN clientASN : string) : bool :=
  match cache_Get now (entries q) (MakeProxyQualityKey proxyID proxyASN) with
  | None => false
  | Some entry =>
      if bool_decide (clientASN = EmptyString) then negb (bool_decide (clientASNCounts entry = ∅))
      else 0 <? default 0 (clientASNCounts entry !! clientASN)
  end.

(** The counts added in: a missing count is zero. *)
Definition add_counts (m counts : ProxyQualityASNCounts) : ProxyQualityASNCounts :=
  union_with (fun a b => Some (a + b)) m counts.

Definition AddQuality (now : Z) (q : ProxyQualityState) (proxyKey : bytes) (counts : ProxyQualityASNCounts)
  : ProxyQualityState :=
  let entry := default {| clientASNCounts := ∅; failedMatchCount := 0 |} (cache_Get now (entries q) proxyKey) in
  let entry := {| clientASNCounts := add_counts (clientASNCounts entry) counts; failedMatchCount := 0 |} in
  with_caches q (cache_Set now (entries q) proxyKey entry (qualityTTL q))
    (delete proxyKey (pendingFailedMatches q)).

Definition Matched (now : Z) (q : ProxyQualityState) (proxyID : ID) (proxyASN : string) : ProxyQualityState :=
  let key := MakeProxyQualityKey proxyID proxyASN in
  match cache_Get now (pendingFailedMatches q) key with
  | Some _ => q
  | None => with_caches q (entries q)
              (cache_Add now (pendingFailedMatches q) key tt (pendingFailedMatchDeadline q))
  end.

Definition Flush (q : ProxyQualityState) : ProxyQualityState := with_caches q ∅ ∅.

(** The eviction callback.  The entry is changed in place, keeping its expiration. *)
Definition addFailedMatch (now : Z) (q : ProxyQualityState) (key : bytes) : ProxyQualityState :=
  match entries q !! key with
  | Some (entry, e) =>
      if expired now e then q
      else
        let count := failedMatchCount entry + 1 in
        if failedMatchThreshold q <=? count then with_caches q (delete key (entries q)) (pendingFailedMatches q)
        else with_caches q
          (<[key := ({| clientASNCounts := clientASNCounts entry; failedMatchCount := count |}, e)]> (entries q))
          (pendingFailedMatches q)
  | None => q
  end.

(** The background cleanup of [pendingFailedMatches] deletes an item that has expired, or
    the least recently used when there are too many, and calls the callback. *)
Definition evict_pending (now : Z) (q : ProxyQualityState) (key : bytes) : ProxyQualityState :=
  match pendingFailedMatches q !! key with
  | Some _ => addFailedMatch now (with_caches q (entries q) (delete key (pendingFailedMatches q))) key
  | None => q
  end.

(** The cleanup of [entries] has no callback. *)
Definition evict_entry (q : ProxyQualityState) (key : bytes) : ProxyQualityState :=
  with_caches q (delete key (entries q)) (pendingFailedMatches q).

(** ** ProxyQualityReporter: the report queue *)

Definition proxyQualityReporterMaxQueueEntries : Z := 5000000.

Record proxyQualityReportQueueEntry := { proxyKey : bytes; counts : ProxyQualityASNCounts }.

(** [proxyIDQueueEntry] maps a key to the element of [reportQueue] that has it, so it is
    modelled by the set of those keys.  [signalReport] is the buffer of the channel. *)
Record ProxyQualityReporter := {
  reportQueue : list proxyQualityReportQueueEntry;
  proxyIDQueueEntry : gset bytes;
  signalReport : bool;
  maxRequestEntries : Z
}.

Definition NewProxyQualityReporter (max : Z) : ProxyQualityReporter :=
  {| reportQueue := []; proxyIDQueueEntry := ∅; signalReport := false; maxRequestEntries := max |}.

Definition increment (m : ProxyQualityASNCounts) (asn : string) : ProxyQualityASNCounts :=
  <[asn := default 0 (m !! asn) + 1]> m.

(** The counts of the entry with the key, increased in place. *)
Definition merge_report (key : bytes) (clientASN : string) (l : list proxyQualityReportQueueEntry)
  : list proxyQualityReportQueueEntry :=
  map (fun e => if bool_decide (proxyKey e = key)
                then {| proxyKey := proxyKey e; counts := increment (counts e) clientASN |} else e) l.

Definition ReportQuality (r : ProxyQualityReporter) (proxyID : ID) (proxyASN clientASN : string)
  : ProxyQualityReporter :=
  let key := MakeProxyQualityKey proxyID proxyASN in
  if decide (key ∈ proxyIDQueueEntry r) then
    {| reportQueue := merge_report key clientASN (reportQueue r); proxyIDQueueEntry := proxyIDQueueEntry r;
       signalReport := signalReport r; maxRequestEntries := maxRequestEntries r |}
  else if decide (proxyQualityReporterMaxQueueEntries <= Z.of_nat (length (reportQueue r))) then r
  else
    {| reportQueue := reportQueue r ++ [{| proxyKey := key; counts := increment ∅ clientASN |}];
       proxyIDQueueEntry := {[key]} ∪ proxyIDQueueEntry r;
       signalReport := true; maxRequestEntries := maxRequestEntries r |}.

Abbreviation ProxyQualityRequestCounts := (gmap bytes ProxyQualityASNCounts).

(** The loop of [prepareNextRequest] over the queue. *)
Fixpoint prepare_loop (max : Z) (l : list proxyQualityReportQueueEntry) (keys : gset bytes)
    (request : ProxyQualityRequestCounts)
  : list proxyQualityReportQueueEntry * gset bytes * ProxyQualityRequestCounts :=
  match l with
  | [] => ([], keys, request)
  | e :: l' =>
      if Z.of_nat (size request) <? max then
        prepare_loop max l' (keys ∖ {[proxyKey e]}) (<[proxyKey e := counts e]> request)
      else (l, keys, request)
  end.

Definition prepareNextRequest (r : ProxyQualityReporter) : ProxyQualityRequestCounts * ProxyQualityReporter :=
  match reportQueue r with
  | [] => (∅, r)
  | _ =>
      let '(l, keys, request) := prepare_loop (maxRequestEntries r) (reportQueue r) (proxyIDQueueEntry r) ∅ in
      (request, {| reportQueue := l; proxyIDQueueEntry := keys; signalReport := signalReport r;
                   maxRequestEntries := maxRequestEntries r |})
  end.

(** ** ProxyQualityReporter: the brokers *)

Abbreviation SessionPublicKey := bytes.

(** Whether the client has a session and a round tripper. *)
Record serverBrokerClient := {
  brokerInitiatorID : ID;
  sessions : bool;
  roundTripper : bool
}.

(** What sending to a broker meets: the key as an initiator ID, whether the broker has
    established a session with this server, whether a round tripper can be made, and the
    results of the requests to it. *)
Record broker_world := {
  ToCurve25519 : SessionPublicKey -> option ID;
  established : gset ID;
  maker_ok : SessionPublicKey -> bool;
  request_ok : SessionPublicKey -> nat -> bool
}.

(** The retry loop: whether one of the attempts [i] to [retries] succeeds. *)
Fixpoint send_attempts (ok : nat -> bool) (n i : nat) : bool :=
  match n with
  | O => false
  | S n => if ok i then true else send_attempts ok n (S i)
  end.

(** The loop over the known brokers: the clients, those to be retained, and those that the
    request has reached. *)
Fixpoint broker_loop (w : broker_world) (retries : Z) (keys : list SessionPublicKey)
    (clients : gmap SessionPublicKey serverBrokerClient) (retain : gset SessionPublicKey) (reached : list SessionPublicKey)
  : gmap SessionPublicKey serverBrokerClient * gset SessionPublicKey * list SessionPublicKey :=
  match keys with
  | [] => (clients, retain, reached)
  | key :: keys =>
      match (match clients !! key with
             | Some c => Some c
             | None => id ← ToCurve25519 w key;
                       Some {| brokerInitiatorID := id; sessions := false; roundTripper := false |}
             end) with
      | None => broker_loop w retries keys clients retain reached
      | Some c =>
          let clients := <[key := c]> clients in
          if negb (bool_decide (brokerInitiatorID c ∈ established w)) then
            broker_loop w retries keys
              (<[key := {| brokerInitiatorID := brokerInitiatorID c; sessions := false; roundTripper := false |}]> clients)
              ({[key]} ∪ retain) reached
          else if negb (sessions c) && negb (maker_ok w key) then
            broker_loop w retries keys clients retain reached
          else
            let clients :=
              if sessions c then clients
              else <[key := {| brokerInitiatorID := brokerInitiatorID c; sessions := true; roundTripper := true |}]> clients in
            let ok := send_attempts (request_ok w key) (Z.to_nat (retries + 1)) 0 in
            broker_loop w retries keys clients
              (if ok || (retries <? 0) then {[key]} ∪ retain else retain)
              (if ok then reached ++ [key] else reached)
      end
  end.

(** The brokers reached, and the clients: those that are not retained are closed and deleted,
    and closing a round tripper that is nil panics. *)
Definition sendToBrokers (w : broker_world) (retries : Z) (brokerPublicKeys : list SessionPublicKey)
    (clients : gmap SessionPublicKey serverBrokerClient) : list SessionPublicKey * res (gmap SessionPublicKey serverBrokerClient) :=
  let '(clients, retain, reached) := broker_loop w retries brokerPublicKeys clients ∅ [] in
  (reached,
   if decide (map_Forall (fun key c => key ∈ retain \/ roundTripper c = true) clients)
   then Ok (filter (fun kc => kc.1 ∈ retain) clients)
   else Panic "invalid memory address or nil pointer dereference").

(** ** Properties of the quality state *)

(** An ASN that is a 32-bit number is kept in the key; all others share a reserved one. *)
Lemma MakeProxyQualityKey_inj id1 asn1 id2 asn2 :
  length id1 = length id2 ->
  MakeProxyQualityKey id1 asn1 = MakeProxyQualityKey id2 asn2 <-> id1 = id2 /\ key_ASN asn1 = key_ASN asn2.
Proof.
  intros Hl. unfold MakeProxyQualityKey. split; [|by intros [-> ->]].
  intros [-> H]%app_inj_1; [|done]. split; [done|]. apply (f_equal (@rev byte)) in H. rewrite !rev_involutive in H.
  assert (forall s, 0 <= key_ASN s < 256 ^ Z.of_nat 4) as Hr.
  { intros s. unfold key_ASN, reservedASN. destruct (ParseInt s); [case_match|]; lia. }
  apply (f_equal le_load) in H. rewrite !le_load_store, !Z.mod_small in H by apply Hr. done.
Qed.

(** The operations on the quality state, with their times. *)
Inductive quality_op :=
| op_add (now : Z) (key : bytes) (cs : ProxyQualityASNCounts)
| op_matched (now : Z) (proxyID : ID) (proxyASN : string)
| op_flush
| op_evict_pending (now : Z) (key : bytes)
| op_evict_entry (key : bytes).

Definition apply_op (q : ProxyQualityState) (o : quality_op) : ProxyQualityState :=
  match o with
  | op_add now key cs => AddQuality now q key cs
  | op_matched now proxyID proxyASN => Matched now q proxyID proxyASN
  | op_flush => Flush q
  | op_evict_pending now key => evict_pending now q key
  | op_evict_entry key => evict_entry q key
  end.

(** The operations that neither renew nor drop the quality of [key] by themselves, at
    times before [e]. *)
Definition keeps (key : bytes) (e : Z) (o : quality_op) : Prop :=
  match o with
  | op_add _ k _ => k <> key
  | op_matched _ _ _ => True
  | op_flush => False
  | op_evict_pending now k => k = key -> expired now e = false
  | op_evict_entry k => k <> key
  end.

(** The matches of [key] that failed during the operations: its pending match expired. *)
Definition fails (key : bytes) (q : ProxyQualityState) (o : quality_op) : bool :=
  match o with
  | op_evict_pending _ k => bool_decide (k = key) && bool_decide (is_Some (pendingFailedMatches q !! key))
  | _ => false
  end.

Fixpoint failures (key : bytes) (q : ProxyQualityState) (ops : list quality_op) : Z :=
  match ops with
  | [] => 0
  | o :: ops => (if fails key q o then 1 else 0) + failures key (apply_op q o) ops
  end.

Lemma failures_nonneg key q ops : 0 <= failures key q ops.
Proof. revert q. induction ops as [|o ops IH]; intros q; cbn; [lia|]. specialize (IH (apply_op q o)). case_match; lia. Qed.

(** One failure more, or gone at the threshold. *)
Definition after_failure (q : ProxyQualityState) (x : option (proxyQualityEntry * Z)) (failed : bool)
  : option (proxyQualityEntry * Z) :=
  match x with
  | Some (entry, e) =>
      if failed then
        if failedMatchThreshold q <=? failedMatchCount entry + 1 then None
        else Some ({| clientASNCounts := clientASNCounts entry; failedMatchCount := failedMatchCount entry + 1 |}, e)
      else x
  | None => None
  end.

Lemma apply_op_threshold q o : failedMatchThreshold (apply_op q o) = failedMatchThreshold q.
Proof.
  destruct o; cbn; try done.
  - unfold Matched. by case_match.
  - unfold evict_pending, addFailedMatch. repeat (case_match; try done).
Qed.

Lemma apply_op_entry key e q o :
  keeps key e o -> (forall x e', entries q !! key = Some (x, e') -> e' = e) ->
  entries (apply_op q o) !! key = after_failure q (entries q !! key) (fails key q o).
Proof.
  intros Hk He. destruct o as [now k cs|now id asn| |now k|k]; cbn in *.
  - unfold cache_Set. rewrite lookup_insert_ne by done. destruct (entries q !! key) as [[x e']|]; done.
  - unfold Matched. case_match; destruct (entries q !! key) as [[x e']|] eqn:E; cbn; rewrite ?E; done.
  - done.
  - unfold evict_pending. destruct (decide (k = key)) as [->|Hne].
    + rewrite bool_decide_true by done. cbn [andb].
      destruct (pendingFailedMatches q !! key) as [u|] eqn:Hp.
      * rewrite bool_decide_true by done. unfold addFailedMatch; cbn.
        destruct (entries q !! key) as [[x e']|] eqn:E; cbn; [|by rewrite E].
        rewrite (He x e' eq_refl), (Hk eq_refl). case_match; cbn.
        -- by rewrite lookup_delete_eq.
        -- by rewrite lookup_insert_eq.
      * rewrite bool_decide_false by (by intros [? ?]). destruct (entries q !! key) as [[x e']|]; done.
    + rewrite bool_decide_false by done. cbn.
      assert (forall q', entries q' !! key = entries q !! key -> entries (addFailedMatch now q' k) !! key = entries q !! key) as Hf.
      { intros q' Hq. unfold addFailedMatch. repeat (case_match; cbn); rewrite ?lookup_delete_ne, ?lookup_insert_ne by done; done. }
      destruct (pendingFailedMatches q !! k); [rewrite Hf by done|]; destruct (entries q !! key) as [[x e']|]; done.
  - rewrite lookup_delete_ne by done. destruct (entries q !! key) as [[x e']|]; done.
Qed.

Lemma ops_gone key e q ops :
  Forall (keeps key e) ops -> entries q !! key = None -> entries (foldl apply_op q ops) !! key = None.
Proof.
  revert q. induction ops as [|o ops IH]; intros q Hf Hn; [done|]. inversion Hf; subst. cbn. apply IH; [done|].
  rewrite (apply_op_entry key e) by (try done; intros x e' H'; congruence). by rewrite Hn.
Qed.

(** The entry counts the failures, and is gone once they reach the threshold. *)
Lemma ops_entry key e q x ops :
  Forall (keeps key e) ops -> entries q !! key = Some (x, e) -> failedMatchCount x < failedMatchThreshold q ->
  entries (foldl apply_op q ops) !! key =
  let n := failedMatchCount x + failures key q ops in
  if n <? failedMatchThreshold q
  then Some ({| clientASNCounts := clientASNCounts x; failedMatchCount := n |}, e) else None.
Proof.
  revert q x. induction ops as [|o ops IH]; intros q x Hf Hx Hlt; cbn.
  { rewrite Z.add_0_r. assert ((failedMatchCount x <? failedMatchThreshold q) = true) as -> by lia.
    rewrite Hx. by destruct x. }
  inversion Hf as [|? ? Ho Hops]; subst.
  pose proof (apply_op_entry key e q o Ho) as Hstep. rewrite Hx in Hstep.
  specialize (Hstep ltac:(congruence)). cbn in Hstep. pose proof (failures_nonneg key (apply_op q o) ops) as Hnn.
  destruct (fails key q o).
  - destruct (failedMatchThreshold q <=? failedMatchCount x + 1) eqn:Hth.
    + rewrite (ops_gone key e) by done.
      assert ((failedMatchCount x + (1 + failures key (apply_op q o) ops) <? failedMatchThreshold q) = false) as -> by lia.
      done.
    + rewrite (IH _ _ Hops Hstep) by (rewrite apply_op_threshold; cbn; lia). rewrite apply_op_threshold. cbn.
      by rewrite Z.add_assoc.
  - by rewrite (IH _ _ Hops Hstep), apply_op_threshold by (by rewrite apply_op_threshold).
Qed.

(** Once a quality tunnel through a proxy is reported for clients of an ASN, the proxy
    has quality for that ASN until the report expires, exactly as long as fewer than the
    threshold of its matches have failed since: whatever is done for other proxies, and
    however often it is matched, in any order. *)
Theorem quality_kept now q proxyID proxyASN cs clientASN n ops now' :
  let key := MakeProxyQualityKey proxyID proxyASN in
  let e := if 0 <? qualityTTL q then now + qualityTTL q else 0 in
  let q1 := AddQuality now q key cs in
  0 < failedMatchThreshold q -> clientASN <> EmptyString -> cs !! clientASN = Some n -> 0 < n ->
  (forall entry, cache_Get now (entries q) key = Some entry -> 0 <= default 0 (clientASNCounts entry !! clientASN)) ->
  Forall (keeps key e) ops -> expired now' e = false ->
  HasQuality now' (foldl apply_op q1 ops) proxyID proxyASN clientASN = (failures key q1 ops <? failedMatchThreshold q).
Proof.
  intros key e q1 Ht Hasn Hcs Hn Hold Hops Hexp.
  set (x := {| clientASNCounts := add_counts (clientASNCounts (default {| clientASNCounts := ∅; failedMatchCount := 0 |}
                 (cache_Get now (entries q) key))) cs; failedMatchCount := 0 |}).
  assert (entries q1 !! key = Some (x, e)) as Hx by apply lookup_insert_eq.
  pose proof (ops_entry key e q1 x ops Hops Hx Ht) as Hrun. cbn zeta in Hrun.
  change (failedMatchThreshold q1) with (failedMatchThreshold q) in Hrun.
  change (failedMatchCount x + failures key q1 ops) with (failures key q1 ops) in Hrun.
  unfold HasQuality, cache_Get. fold key. rewrite Hrun.
  destruct (failures key q1 ops <? failedMatchThreshold q); [|done].
  rewrite Hexp, bool_decide_false by done. unfold x, add_counts; cbn. rewrite lookup_union_with, Hcs.
  destruct (cache_Get now (entries q) key) as [entry|] eqn:Hg; cbn.
  - specialize (Hold entry eq_refl). destruct (clientASNCounts entry !! clientASN) as [k|]; cbn in *; lia.
  - rewrite lookup_empty. cbn. lia.
Qed.

(** ** Properties of the reporter *)

(** The quality tunnels counted in a map of counts, in the queue and in a request. *)
Definition tally (m : ProxyQualityASNCounts) (asn : string) : Z := default 0 (m !! asn).

Definition queue_tally (l : list proxyQualityReportQueueEntry) (key : bytes) (asn : string) : Z :=
  foldr (fun e n => (if bool_decide (proxyKey e = key) then tally (counts e) asn else 0) + n) 0 l.

Definition request_tally (request : ProxyQualityRequestCounts) (key : bytes) (asn : string) : Z :=
  tally (default ∅ (request !! key)) asn.

Record reporter_ok (r : ProxyQualityReporter) : Prop := {
  ro_nodup : NoDup (proxyKey <$> reportQueue r);
  ro_keys : proxyIDQueueEntry r = list_to_set (proxyKey <$> reportQueue r)
}.

Lemma tally_increment m asn asn' : tally (increment m asn) asn' = tally m asn' + (if decide (asn = asn') then 1 else 0).
Proof.
  unfold tally, increment. destruct (decide (asn = asn')) as [->|Hne].
  - by rewrite lookup_insert_eq.
  - rewrite lookup_insert_ne by done. lia.
Qed.

Lemma merge_report_keys key asn l : proxyKey <$> merge_report key asn l = proxyKey <$> l.
Proof.
  unfold merge_report. induction l as [|e l IH]; [done|]. cbn. rewrite IH. f_equal. by case_bool_decide.
Qed.

Lemma queue_tally_cons e l key asn :
  queue_tally (e :: l) key asn = (if bool_decide (proxyKey e = key) then tally (counts e) asn else 0) + queue_tally l key asn.
Proof. done. Qed.

Lemma queue_tally_app l1 l2 key asn : queue_tally (l1 ++ l2) key asn = queue_tally l1 key asn + queue_tally l2 key asn.
Proof. induction l1 as [|e l1 IH]; [done|]. rewrite <- app_comm_cons, !queue_tally_cons, IH. lia. Qed.

Lemma queue_tally_notin l key asn : key ∉ (proxyKey <$> l) -> queue_tally l key asn = 0.
Proof.
  induction l as [|e l IH]; [done|]. rewrite fmap_cons. intros [H1 H2]%not_elem_of_cons.
  rewrite queue_tally_cons, bool_decide_false, IH by done. done.
Qed.

Lemma merge_report_other key asn l : key ∉ (proxyKey <$> l) -> merge_report key asn l = l.
Proof.
  induction l as [|e l IH]; [done|]. rewrite fmap_cons. intros [H1 H2]%not_elem_of_cons. cbn.
  rewrite bool_decide_false by done. f_equal. by apply IH.
Qed.

Lemma merge_report_tally key asn l key' asn' :
  NoDup (proxyKey <$> l) -> key ∈ (proxyKey <$> l) ->
  queue_tally (merge_report key asn l) key' asn' =
  queue_tally l key' asn' + (if decide (key = key' /\ asn = asn') then 1 else 0).
Proof.
  induction l as [|e l IH]; [by intros _ ?%elem_of_nil|]. rewrite fmap_cons. intros [Hn Hnd]%list.NoDup_cons.
  cbn [merge_report map]. fold (merge_report key asn l). rewrite !queue_tally_cons.
  destruct (decide (proxyKey e = key)) as [<-|Hne].
  - intros _. rewrite (bool_decide_true (proxyKey e = proxyKey e)), (merge_report_other _ _ l) by done. cbn [proxyKey counts].
    rewrite tally_increment. case_bool_decide; repeat case_decide; naive_solver lia.
  - intros [?|Hin]%elem_of_cons; [congruence|]. rewrite (bool_decide_false (proxyKey e = key)), (IH Hnd Hin) by done. lia.
Qed.

(** A report is counted once, or dropped when the queue is full. *)
Definition dropped (r : ProxyQualityReporter) (key : bytes) : bool :=
  bool_decide (key ∉ proxyIDQueueEntry r) &&
  (proxyQualityReporterMaxQueueEntries <=? Z.of_nat (length (reportQueue r))).

Lemma ReportQuality_ok r proxyID proxyASN clientASN :
  reporter_ok r ->
  let key := MakeProxyQualityKey proxyID proxyASN in
  let r' := ReportQuality r proxyID proxyASN clientASN in
  reporter_ok r' /\ maxRequestEntries r' = maxRequestEntries r /\
  (forall key' asn, queue_tally (reportQueue r') key' asn =
     queue_tally (reportQueue r) key' asn +
     (if dropped r key then 0 else if decide (key = key' /\ clientASN = asn) then 1 else 0)) /\
  (reportQueue r' <> [] -> reportQueue r <> [] \/ signalReport r' = true) /\
  (signalReport r = true -> signalReport r' = true).
Proof.
  intros [Hnd Hk] key r'. unfold r', ReportQuality, dropped. fold key.
  destruct (decide (key ∈ proxyIDQueueEntry r)) as [Hin|Hin].
  - rewrite bool_decide_false by tauto. cbn. split_and!; try done.
    + split; cbn; by rewrite merge_report_keys.
    + intros key' asn. apply merge_report_tally; [done|]. by rewrite Hk, elem_of_list_to_set in Hin.
    + intros H. left. by intros Hq; rewrite Hq in H.
  - rewrite bool_decide_true by done. cbn [andb].
    destruct (decide (proxyQualityReporterMaxQueueEntries <= Z.of_nat (length (reportQueue r)))) as [Hf|Hf].
    + assert ((proxyQualityReporterMaxQueueEntries <=? Z.of_nat (length (reportQueue r))) = true) as -> by lia.
      split_and!; try done; [intros; lia|by left].
    + assert ((proxyQualityReporterMaxQueueEntries <=? Z.of_nat (length (reportQueue r))) = false) as -> by lia.
      cbn [reportQueue signalReport maxRequestEntries]. split_and!; try done; [|intros key' asn|by right].
      * rewrite Hk, elem_of_list_to_set in Hin. split; cbn; rewrite fmap_app.
        -- apply NoDup_app. split_and!; [done| |apply NoDup_singleton].
           intros k Hk1 [->|[]%elem_of_nil]%elem_of_cons. done.
        -- rewrite Hk, list_to_set_app_L. cbn. set_solver.
      * rewrite queue_tally_app, queue_tally_cons. cbn [proxyKey counts queue_tally foldr].
        rewrite tally_increment. unfold tally. rewrite lookup_empty.
        case_bool_decide; repeat case_decide; naive_solver lia.
Qed.

Lemma request_tally_insert request key cs key' asn :
  request !! key = None ->
  request_tally (<[key := cs]> request) key' asn =
  request_tally request key' asn + (if bool_decide (key = key') then tally cs asn else 0).
Proof.
  intros Hn. unfold request_tally. case_bool_decide as Hk.
  - subst key'. rewrite lookup_insert_eq, Hn. cbn. unfold tally at 2. rewrite lookup_empty. cbn. lia.
  - rewrite lookup_insert_ne by done. lia.
Qed.

(** A request takes the entries at the front of the queue, as many as it may. *)
Lemma prepare_loop_ok max l keys request l' keys' request' :
  NoDup (proxyKey <$> l) -> keys = list_to_set (proxyKey <$> l) ->
  (forall e, e ∈ l -> request !! proxyKey e = None) ->
  prepare_loop max l keys request = (l', keys', request') ->
  exists taken, l = taken ++ l' /\ keys' = list_to_set (proxyKey <$> l') /\
    (forall key asn, request_tally request' key asn = request_tally request key asn + queue_tally taken key asn) /\
    size request' = (size request + length taken)%nat /\
    (l' = [] \/ max <= Z.of_nat (size request')) /\
    Z.of_nat (size request') <= Z.max max (Z.of_nat (size request)).
Proof.
  revert keys request. induction l as [|e l IH]; intros keys request Hnd Hk Hreq; cbn.
  { intros [= <- <- <-]. exists []. cbn. split_and!; try done; try (intros; lia). by left. }
  rewrite fmap_cons in Hnd. apply list.NoDup_cons in Hnd as [Hn Hnd].
  destruct (Z.of_nat (size request) <? max) eqn:Hlt.
  - assert (request !! proxyKey e = None) as He by (apply Hreq; left).
    intros Hp. edestruct (fun H1 H2 => IH _ _ Hnd H1 H2 Hp) as (taken & -> & H1 & H2 & H3 & H4 & H5).
    + rewrite Hk. cbn. apply set_eq. intros k. rewrite elem_of_difference, elem_of_union, !elem_of_singleton, elem_of_list_to_set.
      destruct (decide (k = proxyKey e)) as [->|]; tauto.
    + intros e' He'. rewrite lookup_insert_ne; [apply Hreq; by right|]. intros Heq. apply Hn. rewrite Heq.
      apply list_elem_of_fmap. by exists e'.
    + rewrite map_size_insert_None in H3, H5 by done. exists (e :: taken). split_and!; try done; try (cbn; lia).
      intros key asn. rewrite H2, request_tally_insert, queue_tally_cons by done. lia.
  - intros [= <- <- <-]. exists []. cbn. split_and!; try done; try (intros; lia).
Qed.

Lemma prepareNextRequest_ok r request r' :
  reporter_ok r -> prepareNextRequest r = (request, r') ->
  reporter_ok r' /\ signalReport r' = signalReport r /\ maxRequestEntries r' = maxRequestEntries r /\
  (forall key asn, queue_tally (reportQueue r) key asn = request_tally request key asn + queue_tally (reportQueue r') key asn) /\
  Z.of_nat (size request) <= Z.max (maxRequestEntries r) 0 /\
  length (reportQueue r) = (size request + length (reportQueue r'))%nat /\
  (0 < maxRequestEntries r -> request = ∅ -> reportQueue r' = []).
Proof.
  intros [Hnd Hk] Hp.
  destruct (prepare_loop (maxRequestEntries r) (reportQueue r) (proxyIDQueueEntry r) ∅) as [[l' keys'] req] eqn:Hl.
  assert (request = req /\ reportQueue r' = l' /\ proxyIDQueueEntry r' = keys' /\ signalReport r' = signalReport r /\
          maxRequestEntries r' = maxRequestEntries r) as (-> & <- & <- & Hs & Hm).
  { unfold prepareNextRequest in Hp. destruct (reportQueue r) eqn:E.
    - injection Hp as <- <-. cbn in Hl. injection Hl as <- <- <-. done.
    - rewrite Hl in Hp. by injection Hp as <- <-. }
  destruct (prepare_loop_ok _ _ _ _ _ _ _ Hnd Hk ltac:(intros; apply lookup_empty) Hl)
    as (taken & Hq & H1 & H2 & H3 & H4 & H5).
  rewrite map_size_empty in H3, H5. split_and!; try done.
  - split; [|done]. rewrite Hq, fmap_app in Hnd. by apply NoDup_app in Hnd as (_ & _ & ?).
  - intros key asn. rewrite Hq, queue_tally_app, H2. unfold request_tally at 1. rewrite lookup_empty. cbn.
    unfold tally at 1. rewrite lookup_empty. cbn. lia.
  - rewrite Hq, length_app, H3. lia.
  - intros Hpos ->. rewrite map_size_empty in H4. destruct H4; [done|lia].
Qed.

(** *** The scheduler *)

(** [requestScheduler] waits for the signal or the end of its context, and drains the queue;
    it returns when the context is done, and panics when [sendToBrokers] does. *)
Inductive scheduler := awaiting | draining | returned | panicked.

#[export] Instance scheduler_eq_dec : EqDecision scheduler.
Proof. solve_decision. Defined.

(** The reporter, its scheduler with its clients of brokers, the requests that it has sent with
    the brokers that each reached, and the reports accepted. *)
Record reporting := {
  reporter : ProxyQualityReporter;
  pc : scheduler;
  brokerClients : gmap SessionPublicKey serverBrokerClient;
  requests : list (ProxyQualityRequestCounts * list SessionPublicKey);
  accepted : list (bytes * string)
}.

Definition starting (max : Z) : reporting :=
  {| reporter := NewProxyQualityReporter max; pc := awaiting; brokerClients := ∅; requests := []; accepted := [] |}.

Definition take_signal (r : ProxyQualityReporter) : ProxyQualityReporter := {|
  reportQueue := reportQueue r; proxyIDQueueEntry := proxyIDQueueEntry r; signalReport := false; maxRequestEntries := maxRequestEntries r |}.

(** The steps of [requestScheduler].  What a request meets, and the known brokers, may change
    between the requests. *)
Inductive sched_step (s : reporting) : reporting -> Prop :=
| sched_done :
    pc s = awaiting ->
    sched_step s {| reporter := reporter s; pc := returned; brokerClients := brokerClients s; requests := requests s; accepted := accepted s |}
| sched_wake :
    pc s = awaiting -> signalReport (reporter s) = true ->
    sched_step s {| reporter := take_signal (reporter s); pc := draining; brokerClients := brokerClients s; requests := requests s;
                    accepted := accepted s |}
| sched_send request r w retries keys reached result :
    pc s = draining -> prepareNextRequest (reporter s) = (request, r) -> request <> ∅ ->
    sendToBrokers w retries keys (brokerClients s) = (reached, result) ->
    sched_step s {| reporter := r; pc := if is_ok result then draining else panicked;
                    brokerClients := match result with Ok clients => clients | _ => brokerClients s end;
                    requests := requests s ++ [(request, reached)]; accepted := accepted s |}
| sched_idle request r :
    pc s = draining -> prepareNextRequest (reporter s) = (request, r) -> request = ∅ ->
    sched_step s {| reporter := r; pc := awaiting; brokerClients := brokerClients s; requests := requests s; accepted := accepted s |}.

Definition report (s : reporting) (proxyID : ID) (proxyASN clientASN : string) : reporting := {|
  reporter := ReportQuality (reporter s) proxyID proxyASN clientASN; pc := pc s; brokerClients := brokerClients s; requests := requests s;
  accepted := if dropped (reporter s) (MakeProxyQualityKey proxyID proxyASN) then accepted s
              else accepted s ++ [(MakeProxyQualityKey proxyID proxyASN, clientASN)] |}.

Inductive reporting_step (s : reporting) : reporting -> Prop :=
| rs_report proxyID proxyASN clientASN : reporting_step s (report s proxyID proxyASN clientASN)
| rs_sched s' : sched_step s s' -> reporting_step s s'.

Definition accepted_tally (l : list (bytes * string)) (key : bytes) (asn : string) : Z :=
  Z.of_nat (length (filter (fun x => x = (key, asn)) l)).

Definition sent_tally (l : list (ProxyQualityRequestCounts * list SessionPublicKey)) (key : bytes) (asn : string) : Z :=
  foldr (fun request n => request_tally request.1 key asn + n) 0 l.

Record reporting_ok (max : Z) (s : reporting) : Prop := {
  rp_reporter : reporter_ok (reporter s);
  rp_max : maxRequestEntries (reporter s) = max;
  rp_conserved key asn :
    queue_tally (reportQueue (reporter s)) key asn + sent_tally (requests s) key asn = accepted_tally (accepted s) key asn;
  rp_sizes : Forall (fun request : ProxyQualityRequestCounts * list SessionPublicKey => Z.of_nat (size request.1) <= max) (requests s);
  rp_signal : pc s = awaiting -> reportQueue (reporter s) <> [] -> signalReport (reporter s) = true
}.

Lemma sent_tally_app l request key asn : sent_tally (l ++ [request]) key asn = sent_tally l key asn + request_tally request.1 key asn.
Proof. unfold sent_tally. rewrite foldr_app. cbn. induction l as [|x l IH]; cbn; [lia|]. rewrite IH. lia. Qed.

Lemma accepted_tally_app l key' asn' key asn :
  accepted_tally (l ++ [(key', asn')]) key asn =
  accepted_tally l key asn + (if decide (key' = key /\ asn' = asn) then 1 else 0).
Proof.
  unfold accepted_tally. rewrite filter_app, filter_cons, length_app. cbn.
  repeat case_decide; cbn; naive_solver lia.
Qed.

Lemma sched_step_ok max s s' : 0 < max -> reporting_ok max s -> sched_step s s' -> reporting_ok max s'.
Proof.
  intros Hmax H Hs. destruct H as [Hr Hm Hc Hz Hsig].
  destruct Hs as [Hpc|Hpc Hsg|request r w retries keys reached result Hpc Hp Hne Hb|request r Hpc Hp He].
  - by split.
  - split; cbn; try done. by destruct Hr.
  - destruct (prepareNextRequest_ok _ _ _ Hr Hp) as (H1 & H2 & H3 & H4 & H5 & _ & _).
    split; cbn [report reporter pc requests accepted]; try done; [congruence| | |by destruct (is_ok result)].
    + intros key asn. rewrite sent_tally_app, <- Hc, (H4 key asn). cbn. lia.
    + apply Forall_app. split; [done|]. apply Forall_singleton. cbn. lia.
  - destruct (prepareNextRequest_ok _ _ _ Hr Hp) as (H1 & H2 & H3 & H4 & H5 & _ & H7).
    split; cbn [report reporter pc requests accepted]; try done; [congruence| |].
    + intros key asn. rewrite <- Hc, (H4 key asn), He. unfold request_tally. rewrite lookup_empty. unfold tally. cbn.
      rewrite lookup_empty. cbn. lia.
    + intros _ Hq. destruct Hq. apply H7; [lia|done].
Qed.

Lemma report_ok max s proxyID proxyASN clientASN :
  reporting_ok max s -> reporting_ok max (report s proxyID proxyASN clientASN).
Proof.
  intros [Hr Hm Hc Hz Hsig].
  destruct (ReportQuality_ok (reporter s) proxyID proxyASN clientASN Hr) as (H1 & H2 & H3 & H4 & H5).
  split; cbn [report reporter pc requests accepted]; try done; [congruence| |].
  - intros key asn. rewrite H3. specialize (Hc key asn). destruct (dropped _ _); [lia|]. rewrite accepted_tally_app. lia.
  - intros Hpc Hq. destruct (H4 Hq) as [Hq'|?]; [|done]. by apply H5, Hsig.
Qed.

Lemma starting_ok max : 0 < max -> reporting_ok max (starting max).
Proof. intros H. split; try done. split; [apply NoDup_nil_2|done]. Qed.

Lemma reporting_reachable_ok max s : 0 < max -> rtc reporting_step (starting max) s -> reporting_ok max s.
Proof.
  intros Hmax Hr. pose proof (starting_ok max Hmax) as H0. revert H0.
  induction Hr as [|s1 s2 s3 Hs _ IH]; [done|]. intros H. apply IH.
  destruct Hs; [by apply report_ok|by eapply sched_step_ok].
Qed.

(** What is left for the scheduler to do. *)
Definition work (s : reporting) : nat :=
  match pc s with returned | panicked => 0 | awaiting => 1 | draining => 2 end +
  length (reportQueue (reporter s)) + (if signalReport (reporter s) then 2 else 0).

Lemma sched_step_work max s s' : reporting_ok max s -> sched_step s s' -> (work s' < work s)%nat.
Proof.
  intros [Hr _ _ _ _] Hs. unfold work.
  destruct Hs as [Hpc|Hpc Hsg|request r w retries keys reached result Hpc Hp Hne Hb|request r Hpc Hp He]; cbn; rewrite Hpc.
  - lia.
  - rewrite Hsg. lia.
  - destruct (prepareNextRequest_ok _ _ _ Hr Hp) as (_ & -> & _ & _ & _ & Hl & _).
    assert (size request <> 0%nat) by by apply map_size_non_empty_iff. destruct (is_ok result); lia.
  - destruct (prepareNextRequest_ok _ _ _ Hr Hp) as (_ & -> & _ & _ & _ & Hl & _). lia.
Qed.

Lemma sched_steps_work max s s' n :
  0 < max -> reporting_ok max s -> nsteps sched_step n s s' -> reporting_ok max s' /\ (n + work s' <= work s)%nat /\ accepted s' = accepted s.
Proof.
  intros Hmax Hok Hn. revert Hok. induction Hn as [|n s1 s2 s3 Hs _ IH]; [done|]. intros Hok.
  destruct (IH (sched_step_ok _ _ _ Hmax Hok Hs)) as (H1 & H2 & H3). pose proof (sched_step_work _ _ _ Hok Hs).
  split_and!; [done|lia|]. rewrite H3. by destruct Hs.
Qed.

(** The scheduler waits for more only when there is nothing left to send. *)
Definition waits (s : reporting) : Prop := pc s = awaiting /\ signalReport (reporter s) = false.

Lemma waits_empty max s : reporting_ok max s -> waits s -> reportQueue (reporter s) = [].
Proof.
  intros [_ _ _ _ Hsig] [Hpc Hs]. destruct (reportQueue (reporter s)) eqn:Hq; [done|]. specialize (Hsig Hpc ltac:(done)). congruence.
Qed.

(** Where it neither waits, nor has returned or panicked, it takes another step. *)
Lemma sched_progress s : pc s <> returned -> pc s <> panicked -> ~ waits s -> exists s', sched_step s s' /\ pc s' <> returned.
Proof.
  intros H1 H2 H3. destruct (pc s) eqn:Hpc; try done.
  - eexists. split; [apply sched_wake; [done|]|done]. destruct (signalReport (reporter s)) eqn:E; [done|]. by destruct H3.
  - destruct (prepareNextRequest (reporter s)) as [request r] eqn:Hp.
    destruct (decide (request = ∅)); [eexists; split; [by eapply sched_idle|done]|].
    destruct (sendToBrokers {| ToCurve25519 := fun _ => None; established := ∅; maker_ok := fun _ => true; request_ok := fun _ _ => true |} 0 [] (brokerClients s))
      as [reached result] eqn:E. eexists. split; [by eapply sched_send|]. cbn. by destruct (is_ok result).
Qed.

(** No quality report is lost or counted twice.  At any time, for each proxy and
    client ASN, the tunnels in the queue and in the requests taken from it add up to those
    reported, other than the ones dropped because the queue was full; no request has more
    entries than allowed; and there is always a signal for reports that wait. *)
Theorem reports_conserved max s :
  0 < max -> rtc reporting_step (starting max) s ->
  (forall key asn, queue_tally (reportQueue (reporter s)) key asn + sent_tally (requests s) key asn =
     accepted_tally (accepted s) key asn) /\
  Forall (fun request : ProxyQualityRequestCounts * list SessionPublicKey => Z.of_nat (size request.1) <= max) (requests s) /\
  (pc s = awaiting -> reportQueue (reporter s) <> [] -> signalReport (reporter s) = true).
Proof. intros Hmax Hr. by destruct (reporting_reachable_ok max s Hmax Hr). Qed.

(** *** Brokers *)

Lemma broker_loop_other w retries keys clients retain reached key :
  key ∉ keys ->
  (broker_loop w retries keys clients retain reached).1.1 !! key = clients !! key /\
  (key ∈ (broker_loop w retries keys clients retain reached).1.2 <-> key ∈ retain) /\
  (key ∈ (broker_loop w retries keys clients retain reached).2 <-> key ∈ reached).
Proof.
  revert clients retain reached. induction keys as [|k keys IH]; intros clients retain reached Hn; [done|].
  apply not_elem_of_cons in Hn as [Hne Hn]. cbn.
  repeat case_match;
    match goal with |- context [broker_loop w retries keys ?c ?r ?l] => destruct (IH c r l Hn) as (E1 & E2 & E3); rewrite E1, E2, E3 end;
    rewrite ?lookup_insert_ne by done; rewrite ?elem_of_union, ?elem_of_singleton, ?elem_of_app, ?list_elem_of_singleton; naive_solver.
Qed.

Lemma broker_loop_app w retries k1 k2 clients retain reached :
  broker_loop w retries (k1 ++ k2) clients retain reached =
  let '(clients', retain', reached') := broker_loop w retries k1 clients retain reached in broker_loop w retries k2 clients' retain' reached'.
Proof.
  revert clients retain reached. induction k1 as [|k k1 IH]; intros clients retain reached; [done|]. cbn.
  repeat (case_match; try apply IH); naive_solver.
Qed.

(** The brokers that a request is to reach: their keys can be converted, they have a session
    with this server, there is a round tripper or one can be made, and one of the attempts
    succeeds. *)
Definition reachable_broker (w : broker_world) (retries : Z) (clients : gmap SessionPublicKey serverBrokerClient) (key : SessionPublicKey) : Prop :=
  exists c, (clients !! key = Some c \/
             clients !! key = None /\ exists id, ToCurve25519 w key = Some id /\ c = {| brokerInitiatorID := id; sessions := false; roundTripper := false |}) /\
    brokerInitiatorID c ∈ established w /\ (sessions c = true \/ maker_ok w key = true) /\
    exists i, (i < Z.to_nat (retries + 1))%nat /\ request_ok w key i = true.

Lemma send_attempts_spec ok n : forall i, send_attempts ok n i = true <-> exists j, (i <= j < i + n)%nat /\ ok j = true.
Proof.
  induction n as [|n IH]; intros i; cbn; [split; [done|]; intros (j & ? & _); lia|]. destruct (ok i) eqn:E.
  - split; [|done]. intros _. exists i. split; [lia|done].
  - rewrite IH. split; intros (j & Hj & Hok); exists j; (split; [|done]); [lia|]. destruct (decide (j = i)) as [->|]; [congruence|lia].
Qed.

Lemma reached_spec w retries keys clients retain reached key : NoDup keys -> key ∈ keys -> key ∉ reached ->
  key ∈ (broker_loop w retries keys clients retain reached).2 <-> reachable_broker w retries clients key.
Proof.
  intros Hnd Hk Hr. apply list_elem_of_split in Hk as (k1 & k2 & ->). apply NoDup_app in Hnd as (_ & Hd & Hnd).
  apply NoDup_cons in Hnd as [Hk2 _]. assert (Hk1 : key ∉ k1) by (intros Hin; apply (Hd key Hin); by left). rewrite broker_loop_app.
  destruct (broker_loop w retries k1 clients retain reached) as [[cl rt] rc] eqn:E1.
  destruct (broker_loop_other w retries k1 clients retain reached key Hk1) as (F1 & _ & F3). rewrite E1 in F1, F3. cbn in F1, F3.
  assert (Hs : send_attempts (request_ok w key) (Z.to_nat (retries + 1)) 0 = true <-> exists i, (i < Z.to_nat (retries + 1))%nat /\ request_ok w key i = true).
  { rewrite send_attempts_spec. split; intros (i & Hi & Hok); exists i; (split; [lia|done]). }
  unfold reachable_broker. rewrite <- F1. setoid_rewrite <- Hs. clear Hs F1 E1. cbn [broker_loop].
  set (o := match cl !! key with Some c => Some c | None => _ end).
  assert (Ho : forall c, (cl !! key = Some c \/ cl !! key = None /\ exists id, ToCurve25519 w key = Some id /\
    c = {| brokerInitiatorID := id; sessions := false; roundTripper := false |}) <-> o = Some c).
  { intros c. unfold o. destruct (cl !! key); [naive_solver|]. destruct (ToCurve25519 w key); naive_solver. }
  setoid_rewrite Ho. clear Ho. clearbody o.
  assert (Hno : forall c r, key ∈ (broker_loop w retries k2 c r rc).2 <-> False).
  { intros c r. destruct (broker_loop_other w retries k2 c r rc key Hk2) as (_ & _ & H). rewrite H, F3. tauto. }
  assert (Hyes : forall c r, key ∈ (broker_loop w retries k2 c r (rc ++ [key])).2).
  { intros c r. destruct (broker_loop_other w retries k2 c r (rc ++ [key]) key Hk2) as (_ & _ & H). rewrite H, elem_of_app. right. by left. }
  destruct o as [c|]; [|rewrite Hno; split; [done|by intros (? & ? & _)]].
  destruct (decide (brokerInitiatorID c ∈ established w)) as [He|He]; [rewrite bool_decide_eq_true_2 by done|rewrite bool_decide_eq_false_2 by done];
    cbn [negb]; [|rewrite Hno; split; [done|by intros (? & [= <-] & ? & _)]].
  destruct (sessions c) eqn:Es, (maker_ok w key) eqn:Em; cbn [negb andb]; [| | |rewrite Hno; split; [done|intros (? & [= <-] & _ & [?|?] & _); congruence]].
  all: destruct (send_attempts _ _ _); [split; [|by intros _; apply Hyes]; intros _; exists c; split_and!; auto|].
  all: rewrite Hno; split; [done|by intros (? & _ & _ & _ & ?)].
Qed.

(** C35: what the scheduler does with the reports.  From any state it takes a bounded number of
    steps when nothing more is reported, and it only stops taking steps where it waits for the
    signal, has returned because its context is done, or has panicked in [sendToBrokers].
    Where it waits, the queue is empty, and every report that was accepted is in exactly one of
    the requests that it has sent.  A request is sent, once for each, to the known brokers, and
    reaches exactly those whose key can be converted, that have a session with this server,
    for which there is a round tripper or one can be made, and for which one of the attempts
    succeeds; the others never receive it. *)
Theorem reports_eventually_sent max s :
  0 < max -> rtc reporting_step (starting max) s ->
  (forall n s', nsteps sched_step n s s' -> (n <= work s)%nat) /\
  (forall s', rtc sched_step s s' -> (forall s'', sched_step s' s'' -> pc s'' = returned) ->
     pc s' = returned \/ pc s' = panicked \/
     waits s' /\ reportQueue (reporter s') = [] /\ forall key asn, sent_tally (requests s') key asn = accepted_tally (accepted s) key asn) /\
  (forall w retries keys reached result key, sendToBrokers w retries keys (brokerClients s) = (reached, result) -> NoDup keys -> key ∈ keys ->
     key ∈ reached <-> reachable_broker w retries (brokerClients s) key).
Proof.
  intros Hmax Hr. pose proof (reporting_reachable_ok max s Hmax Hr) as Hok. split_and!.
  - intros n s' Hn. destruct (sched_steps_work max s s' n Hmax Hok Hn) as (_ & ? & _). lia.
  - intros s' [n Hn]%rtc_nsteps_1 Hstuck. destruct (sched_steps_work max s s' n Hmax Hok Hn) as (Hok' & _ & Hacc).
    destruct (decide (pc s' = returned)) as [|H1]; [by left|]. destruct (decide (pc s' = panicked)) as [|H2]; [by right; left|]. right; right.
    assert (Hw : waits s').
    { destruct (decide (pc s' = awaiting /\ signalReport (reporter s') = false)) as [|H3]; [done|]. destruct (sched_progress s' H1 H2 H3) as (s'' & Hs & Hne).
      by apply Hstuck in Hs. }
    pose proof (waits_empty max s' Hok' Hw) as Hq. split_and!; [done..|]. intros key asn. rewrite <- Hacc, <- (rp_conserved _ _ Hok'), Hq. done.
  - intros w retries keys reached result key E Hnd Hk. rewrite <- (reached_spec w retries keys (brokerClients s) ∅ [] key Hnd Hk (not_elem_of_nil _)).
    unfold sendToBrokers in E. destruct (broker_loop _ _ _ _ _ _) as [[cl rt] rc]. by injection E as -> _.
Qed.

(** A client without a round tripper that is not to be retained. *)
Lemma sendToBrokers_nil w retries keys clients key c :
  (broker_loop w retries keys clients ∅ []).1.1 !! key = Some c -> roundTripper c = false ->
  key ∉ (broker_loop w retries keys clients ∅ []).1.2 ->
  (sendToBrokers w retries keys clients).2 = Panic "invalid memory address or nil pointer dereference".
Proof.
  unfold sendToBrokers. destruct (broker_loop w retries keys clients ∅ []) as [[clients' retain] reached]; cbn.
  intros Hc Hr Hk. rewrite decide_False; [done|]. intros Hall. destruct (Hall key c Hc); congruence.
Qed.

(** Sending a request to the brokers panics in two cases: when the round tripper of a
    broker that is met for the first time, and has a session with this server, cannot be
    made; and when a broker that had no session is no longer among the known brokers.  In
    both a client with a nil round tripper is not retained, and the trim closes it. *)
Theorem sendToBrokers_panics w retries keys1 keys2 key id clients :
  key ∉ keys1 -> key ∉ keys2 ->
  (clients !! key = None -> ToCurve25519 w key = Some id -> id ∈ established w -> maker_ok w key = false ->
   (sendToBrokers w retries (keys1 ++ key :: keys2) clients).2 = Panic "invalid memory address or nil pointer dereference") /\
  (forall c, clients !! key = Some c -> roundTripper c = false ->
   (sendToBrokers w retries (keys1 ++ keys2) clients).2 = Panic "invalid memory address or nil pointer dereference").
Proof.
  intros H1 H2. destruct (broker_loop_other w retries keys1 clients ∅ [] key H1) as (E1 & E2 & _). split.
  - intros Hn Hid Hest Hmk. rewrite Hn in E1.
    set (c := {| brokerInitiatorID := id; sessions := false; roundTripper := false |}).
    assert (exists clients' retain' reached', broker_loop w retries (keys1 ++ key :: keys2) clients ∅ [] =
      broker_loop w retries keys2 (<[key := c]> clients') retain' reached' /\ key ∉ retain') as (clients' & retain' & reached' & Hrun & Hr).
    { rewrite broker_loop_app. destruct (broker_loop w retries keys1 clients ∅ []) as [[cl rt] rc]; cbn in *.
      exists cl, rt, rc. rewrite E1. cbn. rewrite Hid. cbn. rewrite bool_decide_true by done. cbn. rewrite Hmk. cbn.
      split; [done|]. rewrite E2. set_solver. }
    destruct (broker_loop_other w retries keys2 (<[key := c]> clients') retain' reached' key H2) as (F1 & F2 & _).
    apply (sendToBrokers_nil _ _ _ _ key c); [by rewrite Hrun, F1, lookup_insert_eq|done|by rewrite Hrun, F2].
  - intros c Hc Hr.
    destruct (broker_loop_other w retries (keys1 ++ keys2) clients ∅ [] key) as (F1 & F2 & _);
      [rewrite elem_of_app; tauto|].
    apply (sendToBrokers_nil _ _ _ _ key c); [by rewrite F1|done|]. rewrite F2. set_solver.
Qed.

(** *** Examples *)

Definition ex_world : broker_world := {|
  ToCurve25519 := fun k => Some k; established := {[ [x01] ]}; maker_ok := fun _ => false;
  request_ok := fun _ _ => true |}.

Lemma sendToBrokers_panics_witness :
  (sendToBrokers ex_world 1 [[x01]] ∅).2 = Panic "invalid memory address or nil pointer dereference".
Proof.
  refine (proj1 (sendToBrokers_panics ex_world 1 [] [] [x01] [x01] ∅ _ _) _ _ _ _).
  - apply not_elem_of_nil.
  - apply not_elem_of_nil.
  - reflexivity.
  - reflexivity.
  - cbn. set_solver.
  - reflexivity.
Defined.

Lemma quality_kept_witness :
  HasQuality 5 (AddQuality 1 NewProxyQuality (MakeProxyQualityKey [x01] "64500") {[ "64501"%string := 1 ]})
    [x01] "64500" "64501" = true.
Proof.
  apply (quality_kept 1 NewProxyQuality [x01] "64500" {[ "64501"%string := 1 ]} "64501" 1 [] 5);
    [reflexivity|discriminate|reflexivity|reflexivity| |constructor|reflexivity].
  intros entry H. discriminate H.
Defined.

Definition ex_reported : reporting := report (starting 10) [x01] "1" "2".

Lemma reports_conserved_witness :
  queue_tally (reportQueue (reporter ex_reported)) (MakeProxyQualityKey [x01] "1") "2" + 0 = 1.
Proof.
  exact (proj1 (reports_conserved 10 ex_reported eq_refl (rtc_once _ _ (rs_report (starting 10) [x01] "1" "2")))
    (MakeProxyQualityKey [x01] "1") "2"%string).
Defined.

(** The report of the example is sent in three steps, and the scheduler waits again. *)
Definition ex_reachable_world : broker_world := {|
  ToCurve25519 := fun k => Some k; established := {[ [x01] ]}; maker_ok := fun _ => true;
  request_ok := fun _ i => (i =? 1)%nat |}.

Lemma reports_eventually_sent_witness :
  (~ exists s', nsteps sched_step 5 ex_reported s') /\
  [x01] ∈ (sendToBrokers ex_reachable_world 1 [[x01]] (brokerClients ex_reported)).1.
Proof.
  destruct (reports_eventually_sent 10 ex_reported eq_refl (rtc_once _ _ (rs_report (starting 10) [x01] "1" "2"))) as (H1 & _ & H3). split.
  - intros [s' H]. apply H1 in H. vm_compute in H. lia.
  - apply (H3 ex_reachable_world 1 [[x01]] _ _ [x01] (surjective_pairing _)); [apply NoDup_singleton|by left|].
    exists {| brokerInitiatorID := [x01]; sessions := false; roundTripper := false |}. split_and!.
    + right. split; [reflexivity|]. by exists [x01].
    + cbn. set_solver.
    + by right.
    + exists 1%nat. split; [vm_compute; lia|reflexivity].
Defined.
